(* ===== verification/_CoqProject ===== *)
-Q . S2P
Prelude.v
Bytes.v
FramePool.v
FramePoolSpec.v
FramePoolInv.v
FramePoolCount.v
FramePoolWitness.v
CapWord.v
Sidecar.v
SidecarSpec.v
Crc.v
CapState.v
CapPools.v
CapOps.v
CapMsg.v
CapRevoke.v
Chan.v
Irq.v
Wp.v
HolderSpec.v
CapInv.v
ArenaSpec.v
CapInvPools.v
CapInvObj.v
CapCreateInv.v
CapChanInv.v
CapMsgInv.v
CapVecInv.v
CapDropInv.v
CapTeardownInv.v
CapMapInv.v
CapRevokeInv.v
ChanInv.v
DevInv.v
IrqInv.v
CapInit.v
CapSystem.v
CapTheorems.v
ChanTheorems.v
CapWitness.v
Paging.v
PagingSpec.v
PagingOps.v
PagingFree.v
PagingRoom.v
PagingTheorems.v
CapPaging.v
PagingWitness.v
SimiInterp.v
SimiSpec.v
SimiResume.v
SimiCkpt.v
SimiMigrate.v
SimiWorkload.v
SimiPool.v
SimiWitness.v
BTree.v
BTreeLib.v
BTreeLeaf.v
BTreeInv.v
BTreeSpec.v
BTreeForest.v
Authority.v
AuthoritySpec.v
RowCodec.v
RowCodecSpec.v
RowKeySpec.v
RowStore.v
RowPages.v
RowTable.v
RowIndexSpec.v
RowDb.v
RowDbOps.v
RowScan.v
RowTables.v
RowSystem.v
RowWitness.v
