(* ===== verification/Prelude.v ===== *)
(** * Verification of the AeroSLS kernel: capabilities, virtual machine, access control and row store

    AeroSLS is a single-level-store kernel.  Its security rests on four layers: the
    physical frame pool (src/kernel/frame_pool.c), the page tables of the processes
    (src/arch/x86/user_paging.c), the capability layer (src/kernel/cap.c, cap.h) and the
    driver-facing calls on top of it (src/kernel/chan.c).  Processes hold 64-bit
    capability words in per-process tables; a word names a reference-counted object
    (memory, channel, device region) or carries an interrupt vector or a port range.
    Capabilities move between processes in channel messages and are withdrawn by
    revocation.  Beside them runs SIMI, a bytecode machine whose contexts can be
    checkpointed and moved between nodes (src/kernel/simi_interp.c, simi_runtime.c,
    simi_ckpt.c, simi_ctx_migrate.c, workload_ctx.c).  The objects of the system are
    entries of a catalog, shared by tenants that live in partitions
    (src/kernel/object_catalog.c, partition.c, tenant.c, group_profile.c, authlist.c,
    database.c); tables are objects whose rows the row store keeps in pages
    (src/kernel/rowstore.c, storage_quota.c) and indexes by B+-trees
    (src/kernel/row_index.c).  The library models these parts function by function and
    proves them correct.

    ** How code becomes definitions

    - Static arrays are total maps: [gmap Z A] read with [a.[i]], which answers the
      zero value of the element type for an index never written, as C's zeroed
      statics do.  Every access the code makes at a run-time index goes through
      [in_bounds], and an index outside the array is a fault.
    - Integers are [Z] with the wrap-around of their C type written out ([u8], [u16],
      [u32], [u64]).
    - The capability code runs in the monad [M] of CapState: a function from the
      kernel state to [Ok a s] or [Fault].  The faults are an index outside an array
      and taking a spinlock that is already held, which on one processor never
      returns.  The locks held are a component of the state.
    - Loops over a fixed range are [for_each], [for_ctl] (with break and return) and
      [find_up]; the linked-list loops have a fuel of one more than the pool size, and
      the proofs show that it suffices.  [k_chan_wait]'s park loop has a fuel argument;
      its theorem shows that the number of ticks to the deadline suffices.
    - Code outside this layer is an environment.  [CapEnv] is the page-table and port
      hooks, and every call of a hook is recorded in the trace [k_trace].  [ChanEnv] is
      the scheduler: parking, the stored deadline and the tick counter; [ChanEnvOk]
      states what the calls rely on.  Both have the weak defaults of cap.c as instances.
    - Page tables live in physical memory, a map from the address of a 64-bit word to its
      value; the functions of user_paging.c take and return the machine [Mach] (memory,
      frame pool, cached code).  The processor is [xlat], its walk of the tables.
    - A SIMI context is a record passed through the functions; one instruction ends in
      [Running], [Stopped] with a status, or [Wild], an access outside the context.  The
      object catalog it consults is the class [World], indexed by the instruction count,
      so that it may change while a program runs; the authority decision is a field of it.
      Serialised structures are lists of bytes in the memory layout of the C structs;
      pointers held by the registries are numbers resolved by the class [Heap].
    - Strings of the database side are the characters before the terminator.  Its state
      is passed explicitly; [None] is an access outside the arrays of an index node.  A
      page is a map from offsets to bytes, in the frame that caches it.  The frame
      allocator ([Frames], with [FramesLaws]) and the NVMe driver ([Nvme]) are
      interfaces; RowWitness shows that the modelled frame pool is such an allocator.
      Doubles are the binary64 numbers of the standard library's [SpecFloat]; what C
      leaves undefined in their conversion to integers is the class [CConv].

    ** Files

    - Prelude: arrays, machine integers, loops, tactics.
    - FramePool: frame_pool.c.  FramePoolSpec: what each routine computes.
      FramePoolInv: the accounting invariant and reachability.  FramePoolCount: the
      bit counts.  FramePoolWitness: concrete runs.
    - CapWord: the capability word (cap.h macros, cap_word_make, cap_word_valid,
      cap_word_stamp_revoked).  Sidecar: the sidecar registry and the manifest checksum.
      SidecarSpec: the registry as a directory of names.  Crc: what the checksum detects.
    - CapState: the statics of cap.c as the record [KState], its monad and hooks.
      CapPools: tables, objects, holder lists, payload pool, arena.  CapOps: cap_init,
      cap_create_mem, cap_arena_alloc, cap_chan_create.  CapMsg: cap_send, cap_recv,
      cap_send_msg, cap_recv_msg.  CapRevoke: cap_arena_free, cap_revoke,
      cap_table_teardown, cap_map, cap_unmap.  Chan: chan.c.  Irq: interrupt delivery
      and the minting of device capabilities.
    - Wp: total correctness.  [wp m Q s] says that [m] run in [s] returns and [Q] holds
      of its result.  HolderSpec: the doubly linked holder lists as lists.
    - CapInv: the invariant.  It has ghost parameters for what an operation has in
      hand: loose holder nodes, slots taken off a free list, nodes linked but not yet
      attached; between system calls all three are empty ([kernel_ok]).
    - ArenaSpec, CapInvPools, CapInvObj: the invariant across the pool operations.
      CapCreateInv, CapChanInv, CapMsgInv, CapVecInv, CapDropInv, CapTeardownInv,
      CapMapInv, CapRevokeInv, ChanInv, DevInv, IrqInv, CapInit: one operation or group
      of operations each, with its specification.
    - CapSystem: the operations as a transition system, their preconditions, the
      states reachable from [cap_init].  CapTheorems: what holds in every reachable
      state.  ChanTheorems: what the driver-facing calls do in one.  CapWitness:
      concrete runs.
    - Paging: user_paging.c, the boot identity map of boot.asm, and the code cache that
      teardown consults.  PagingSpec: entries, the tables an address space owns, the
      invariant [tables_ok] and the walk.  PagingOps: cloning, mapping, unmapping.
      PagingFree: teardown.  PagingRoom: how many frames a mapping takes.
      PagingTheorems: address spaces as functions from pages to frames and rights, and
      the refinement.  CapPaging: the capability layer over the page tables - the hook
      calls of a run replayed on the machine.  PagingWitness: concrete address spaces.
    - SimiInterp: simi_interp.c and simi_runtime.c.  SimiSpec: well-formed contexts, the
      origin of capability tags, and where accesses leave the memory.  SimiResume: running
      in slices, and the relation [same] under which contexts run alike.  SimiCkpt:
      simi_ckpt.c and its round trip.  SimiMigrate: simi_ctx_migrate.c, reassembly and
      transparency.  SimiWorkload: workload_ctx.c.  SimiPool: the pool of live workloads.
      SimiWitness: concrete programs.
    - Bytes: strings, byte buffers.
    - BTree: the trees of row_index.c in their node pool.  BTreeLib: keys as numbers.
      BTreeLeaf: sorted lists of keys with row ids, and one leaf.  BTreeInv: what a tree
      stands for, and the way down to a leaf and up again.  BTreeSpec: insertion and
      deletion.  BTreeForest: range scans along the leaf chain, all trees of the pool, and
      runs.
    - Authority: the catalog, partitions, tenants, groups, authorization lists and
      databases, and the access decision.  AuthoritySpec: tenants kept apart.
    - RowCodec: values, keys, layouts and the bytes of a row.  RowCodecSpec: the round
      trip.  RowKeySpec: the order of keys.
    - RowStore: rowstore.c, storage_quota.c and the index maintenance and queries of
      row_index.c.  RowPages: the page pool.  RowTable: a table as a list of row slots,
      and a row at its end.  RowIndexSpec: an index in step with the rows of its table.
      RowDb: the invariant of the database.  RowDbOps: rows inserted, read, updated and
      deleted.  RowScan: scans, building an index, looking rows up.  RowTables: boot,
      catalog entries, tables created and dropped.  RowSystem: the operations together.
      RowWitness: the frame pool beneath, and concrete trees, databases and tenants.

    ** What is shown

    - Every operation, run in a reachable state with arguments in range, returns with
      all locks released, and leads to a reachable state.
    - In every reachable state: live memory objects are physically disjoint; an
      object's reference count is exactly its number of holders, and its slot holders
      are exactly the slots that name it; channels, interrupt vectors and user mappings
      are exclusive; rings and budgets stay within bounds.
    - Each operation's functional behaviour: creation and first-fit arena allocation,
      complete revocation, mapping with rollback, teardown, loss-free receiving, waiting
      up to a deadline, close-once, mediated port access, device windows, interrupt
      latching, delivery, binding and unbinding.
    - The frame pool: first-fit allocation, exact accounting against quotas, reclaim.
    - The page tables implement address spaces: each operation changes what the processor
      finds in the one address space it is given, exactly as promised, writes no memory
      but its own, and fails only when the pool is exhausted.
    - Across the layers: [cap_map] shows exactly the capability's frames with at most the
      granted rights at the requested pages, and succeeds when there is room;
      [cap_revoke] takes the recorded pages of the object away from every process.
    - The sidecar registry answers like a finite map of names, whatever it is asked in
      whatever order; the manifest checksum detects every burst of four bytes.
    - SIMI: capability tags cannot be forged; a run stays inside its context except for
      accesses at the top of the address range, whose bounds test wraps around; a budget
      may be spent in slices; a checkpoint restores a context that runs alike; moving a
      running program to another node changes nothing it computes; the live workloads are
      exactly the contexts a partition migration sends.
    - Access control: no sequence of group and list operations by callers who may not
      administer a partition changes an access decision on its objects.
    - The row store: its operations implement tables of rows, each in pages of its own;
      a row is read back as it was stored; index trees answer like sorted lists; keys
      order as values; a complete index lookup finds what a full scan finds.

    The preconditions of [CapSystem.kguard] are the C argument ranges plus three
    conventions the code does not check: slot indices below the table size, distinct
    objects in one message, and no interrupt capability in a message.  Those of
    [RowSystem.op_ok] are rows of terminated texts with none in a NULL column, row ids of
    the table named, sixteen free index nodes for each index a row change may touch (an
    insertion takes at most one per level and the height is at most fifteen), and for a
    new index a creator who may read the table.  Scans are given as much fuel as the pool
    has pages, tree descents and leaf chains as much as it has nodes; the proofs show
    that both suffice.

    ** Not modelled

    Interleaving of two processors inside one operation (locks are modelled for
    nesting, not for contention); cached translations (the flush calls are in the trace,
    the walk reads memory); the bytes of mapped memory; the system-call wrappers that
    unpack a request; the sidecar loader, the process table and scheduler, the Linux
    personality, SQL, transactions, network, TLS, the SIMI code generators and user space,
    which do not take part in these protocols.  Of the database side: the snapshots of the
    in-memory tables to disk and the state restored from them, the single-record objects,
    and the synchronisation of partitions between nodes.  [rowstore_add_column] is modelled
    but is not one of the operations of [RowSystem], and the exactness of indexes is shown
    for columns that are not FLOAT.  Serial-console output and the audit log are left
    out. *)

From stdpp Require Import base gmap list list_numbers.
From Stdlib Require Import ZArith Lia Bool.
#[local] Open Scope Z_scope.

(** * Machine integers *)

Module Width.

Definition u8 (x : Z) : Z := x mod 2 ^ 8.
Definition u16 (x : Z) : Z := x mod 2 ^ 16.
Definition u32 (x : Z) : Z := x mod 2 ^ 32.
Definition u64 (x : Z) : Z := x mod 2 ^ 64.

(** Bitwise complement of a 64-bit word, C's [~x] on [uint64_t]. *)
Definition u64_not (x : Z) : Z := Z.lxor x (2 ^ 64 - 1).
(** C's [~x] on [uint8_t] after truncation back to the byte. *)
Definition u8_not (x : Z) : Z := Z.lxor x (2 ^ 8 - 1).
Definition u32_not (x : Z) : Z := Z.lxor x (2 ^ 32 - 1).

Lemma u8_small x : 0 ≤ x < 2 ^ 8 → u8 x = x.
Proof. apply Z.mod_small. Qed.

Lemma u16_small x : 0 ≤ x < 2 ^ 16 → u16 x = x.
Proof. apply Z.mod_small. Qed.

Lemma u32_small x : 0 ≤ x < 2 ^ 32 → u32 x = x.
Proof. apply Z.mod_small. Qed.

Lemma u64_small x : 0 ≤ x < 2 ^ 64 → u64 x = x.
Proof. apply Z.mod_small. Qed.

End Width.
Export Width.

(** * C arrays with static storage: a missing key reads as the zero value *)

Class CZero (A : Type) := czero : A.
#[export] Instance CZero_Z : CZero Z := 0.
#[export] Instance CZero_bool : CZero bool := false.
#[export] Instance CZero_map {A} : CZero (gmap Z A) := (∅ : gmap Z A).

Definition aget {A} `{CZero A} (a : gmap Z A) (i : Z) : A := default czero (a !! i).

Declare Scope carr_scope.
Delimit Scope carr_scope with carr.
Notation "a .[ i ]" := (aget a i)
  (at level 1, left associativity, format "a .[ i ]") : carr_scope.
Notation "a .[ i <- v ]" := (insert i v a)
  (at level 1, left associativity, format "a .[ i <- v ]") : carr_scope.
#[export] Set Warnings "-notation-overridden".
#[local] Open Scope carr_scope.

Section Arrays.
Context {A : Type} `{CZero A}.
Implicit Types (a : gmap Z A).

Lemma aget_upd_eq a i v : a.[i <- v].[i] = v.
Proof. unfold aget. by rewrite lookup_insert_eq. Qed.

Lemma aget_upd_ne a i j v : i ≠ j → a.[i <- v].[j] = a.[j].
Proof. intros. unfold aget. by rewrite lookup_insert_ne. Qed.

Lemma aget_upd a i j v : a.[i <- v].[j] = if i =? j then v else a.[j].
Proof.
  destruct (Z.eqb_spec i j) as [->|]; [apply aget_upd_eq | by apply aget_upd_ne].
Qed.

Lemma aget_empty i : aget (∅ : gmap Z A) i = czero.
Proof. done. Qed.

End Arrays.

(** * Counted loops *)

(** [for (i = lo; i < lo + n; i++) body] as a state transformer. *)
Fixpoint for_up {S} (n : nat) (i : Z) (body : Z → S → S) (s : S) : S :=
  match n with
  | O => s
  | Datatypes.S n' => for_up n' (i + 1) body (body i s)
  end.

(** [for (i = lo; ...) if (p(i)) { found = i; break; }] *)
Fixpoint find_up (n : nat) (i : Z) (p : Z → bool) : option Z :=
  match n with
  | O => None
  | Datatypes.S n' => if p i then Some i else find_up n' (i + 1) p
  end.

(** [for (...) if (p(i)) count++;] *)
Fixpoint count_up (n : nat) (i : Z) (p : Z → bool) : Z :=
  match n with
  | O => 0
  | Datatypes.S n' => (if p i then 1 else 0) + count_up n' (i + 1) p
  end.

Lemma for_up_ind {S} (P : Z → S → Prop) n i (body : Z → S → S) s :
  P i s →
  (∀ j t, i ≤ j < i + Z.of_nat n → P j t → P (j + 1) (body j t)) →
  P (i + Z.of_nat n) (for_up n i body s).
Proof.
  revert i s. induction n as [|n IH]; intros i s H0 Hstep; simpl.
  { by rewrite Z.add_0_r. }
  replace (i + Z.of_nat (Datatypes.S n)) with ((i + 1) + Z.of_nat n) by lia.
  apply IH.
  - apply Hstep; [lia | done].
  - intros j t ?. apply Hstep. lia.
Qed.

Lemma for_up_app {S} n m i (body : Z → S → S) s :
  for_up (n + m) i body s = for_up m (i + Z.of_nat n) body (for_up n i body s).
Proof.
  revert i s. induction n as [|n IH]; intros i s; simpl.
  { by rewrite Z.add_0_r. }
  rewrite IH. f_equal. lia.
Qed.

Lemma for_up_S_r {S} n i (body : Z → S → S) s :
  for_up (Datatypes.S n) i body s = body (i + Z.of_nat n) (for_up n i body s).
Proof.
  replace (Datatypes.S n) with (n + 1)%nat by lia. by rewrite for_up_app.
Qed.

Lemma find_up_Some n i p j :
  find_up n i p = Some j ↔
  i ≤ j < i + Z.of_nat n ∧ p j = true ∧ (∀ k, i ≤ k < j → p k = false).
Proof.
  revert i. induction n as [|n IH]; intros i; simpl.
  { split; [done | intros (? & _); lia]. }
  destruct (p i) eqn:Hp.
  - split.
    + intros [= <-]. split_and!; [lia | lia | done | intros; lia].
    + intros (Hr & Hj & Hk). destruct (Z.eq_dec i j) as [->|]; [done|].
      rewrite Hk in Hp by lia. done.
  - rewrite IH. split.
    + intros (Hr & Hj & Hk). split_and!; [lia | lia | done |].
      intros k ?. destruct (Z.eq_dec i k) as [->|]; [done|]. apply Hk. lia.
    + intros (Hr & Hj & Hk).
      assert (i ≠ j) by (intros ->; congruence).
      split_and!; [lia | lia | done | intros; apply Hk; lia].
Qed.

Lemma find_up_None n i p :
  find_up n i p = None ↔ (∀ k, i ≤ k < i + Z.of_nat n → p k = false).
Proof.
  revert i. induction n as [|n IH]; intros i; simpl.
  { split; [intros _ k ?; lia | done]. }
  destruct (p i) eqn:Hp.
  - split; [done | intros Hk]. rewrite Hk in Hp by lia. done.
  - rewrite IH. split; intros Hk k ?.
    + destruct (Z.eq_dec i k) as [->|]; [done|]. apply Hk. lia.
    + apply Hk. lia.
Qed.

Lemma find_up_ext n i p q : (∀ j, i ≤ j < i + Z.of_nat n → p j = q j) → find_up n i p = find_up n i q.
Proof.
  revert i. induction n as [|n IH]; intros i Hpq; [done|]. cbn. rewrite Hpq by lia.
  destruct (q i); [done|]. apply IH. intros. apply Hpq. lia.
Qed.

Lemma for_up_ext {S} n : ∀ i (f g : Z → S → S) s, (∀ j s, i ≤ j < i + Z.of_nat n → f j s = g j s) → for_up n i f s = for_up n i g s.
Proof.
  induction n as [|n IH]; intros i f g s H; [done|]. cbn [for_up]. rewrite H by lia. apply IH. intros. apply H. lia.
Qed.

Lemma count_up_ext n i p q :
  (∀ k, i ≤ k < i + Z.of_nat n → p k = q k) → count_up n i p = count_up n i q.
Proof.
  revert i. induction n as [|n IH]; intros i Hpq; simpl; [done|].
  rewrite (Hpq i) by lia. f_equal. apply IH. intros; apply Hpq; lia.
Qed.

Lemma count_up_app n m i p :
  count_up (n + m) i p = count_up n i p + count_up m (i + Z.of_nat n) p.
Proof.
  revert i. induction n as [|n IH]; intros i; simpl.
  { rewrite Z.add_0_r. lia. }
  rewrite IH. replace (i + 1 + Z.of_nat n) with (i + Z.of_nat (Datatypes.S n)) by lia. lia.
Qed.

Lemma count_up_bounds n i p : 0 ≤ count_up n i p ≤ Z.of_nat n.
Proof.
  revert i. induction n as [|n IH]; intros i; cbn [count_up]; [lia|].
  specialize (IH (i + 1)). destruct (p i); lia.
Qed.

Lemma count_up_zero n i p :
  (∀ k, i ≤ k < i + Z.of_nat n → p k = false) → count_up n i p = 0.
Proof.
  revert i. induction n as [|n IH]; intros i Hp; simpl; [done|].
  rewrite Hp, IH by (intros; first [apply Hp | idtac]; lia). done.
Qed.

Lemma count_up_negb n i p : count_up n i (λ k, negb (p k)) = Z.of_nat n - count_up n i p.
Proof.
  revert i. induction n as [|n IH]; intros i; [done|]. cbn [count_up]. rewrite IH.
  destruct (p i); simpl; lia.
Qed.

(** Changing the predicate at one point of the range. *)
Lemma count_up_upd n i p q f :
  i ≤ f < i + Z.of_nat n → (∀ k, k ≠ f → p k = q k) →
  count_up n i q = count_up n i p - (if p f then 1 else 0) + (if q f then 1 else 0).
Proof.
  revert i. induction n as [|n IH]; intros i Hf Hpq; cbn [count_up]; [lia|].
  destruct (Z.eq_dec i f) as [->|Hne].
  - rewrite (count_up_ext n (f + 1) q p) by (intros; symmetry; apply Hpq; lia). lia.
  - rewrite (IH (i + 1)) by (done || lia). rewrite (Hpq i) by done. lia.
Qed.

(** * Bits of a word *)

Lemma land_bit_testbit x k :
  0 ≤ k → (Z.land x (Z.shiftl 1 k) =? 0) = negb (Z.testbit x k).
Proof.
  intros Hk. destruct (Z.testbit x k) eqn:Hb; simpl.
  - apply Z.eqb_neq. intros H0.
    assert (Z.testbit (Z.land x (Z.shiftl 1 k)) k = false) as Hf by (rewrite H0; apply Z.testbit_0_l).
    rewrite Z.land_spec, Hb, Z.shiftl_spec, Z.sub_diag in Hf by done. done.
  - apply Z.eqb_eq, Z.bits_inj'. intros n Hn.
    rewrite Z.land_spec, Z.testbit_0_l, Z.shiftl_spec by done.
    destruct (Z.eq_dec n k) as [->|]; [by rewrite Hb|].
    rewrite andb_false_iff. right.
    destruct (decide (n < k)); [apply Z.testbit_neg_r; lia|].
    replace (n - k) with (Z.succ (n - k - 1)) by lia.
    change 1 with (2 * 0 + 1). rewrite Z.testbit_odd_succ by lia. apply Z.testbit_0_l.
Qed.

Lemma shiftl_1_testbit k n : 0 ≤ k → 0 ≤ n → Z.testbit (Z.shiftl 1 k) n = (n =? k).
Proof.
  intros Hk Hn. rewrite Z.shiftl_1_l, Z.pow2_bits_eqb by done. apply Z.eqb_sym.
Qed.

Lemma ones_testbit w n : 0 ≤ w → 0 ≤ n → Z.testbit (2 ^ w - 1) n = (n <? w).
Proof.
  intros Hw Hn. replace (2 ^ w - 1) with (Z.ones w) by (rewrite Z.ones_equiv; lia).
  destruct (Z.ltb_spec n w); [apply Z.ones_spec_low | apply Z.ones_spec_high]; lia.
Qed.

Lemma testbit_high x w n : 0 ≤ x < 2 ^ w → w ≤ n → Z.testbit x n = false.
Proof.
  intros Hx Hn. destruct (decide (x = 0)) as [->|]; [apply Z.testbit_0_l|].
  apply Z.bits_above_log2; [lia|].
  apply Z.lt_le_trans with w; [|done]. apply Z.log2_lt_pow2; lia.
Qed.

Lemma bits_range x w : 0 ≤ w → (∀ n, w ≤ n → Z.testbit x n = false) → 0 ≤ x < 2 ^ w.
Proof.
  intros Hw Hx. assert (x mod 2 ^ w = x) as <-.
  { apply Z.bits_inj'. intros n Hn. destruct (decide (n < w)).
    - by rewrite Z.mod_pow2_bits_low.
    - rewrite Z.mod_pow2_bits_high, Hx by lia. done. }
  apply Z.mod_pos_bound. lia.
Qed.

(** * Tactics *)

(** Decide boolean equations built from integer comparisons. *)
Ltac zcase :=
  repeat match goal with
  | |- context [?a <=? ?b] => destruct (Z.leb_spec a b)
  | |- context [?a <? ?b] => destruct (Z.ltb_spec a b)
  | |- context [?a =? ?b] => destruct (Z.eqb_spec a b)
  end; simpl; try done; try lia.

(** Membership in a list built from [++] and [::], from the hypotheses at hand. *)
Ltac mem :=
  repeat match goal with
  | H : _ ∈ _ ++ _ |- _ => rewrite elem_of_app in H
  | H : _ ∈ _ :: _ |- _ => rewrite elem_of_cons in H
  | H : ¬ (_ ∈ _ ++ _) |- _ => apply not_elem_of_app in H as [? ?]
  | H : ¬ (_ ∈ _ :: _) |- _ => apply not_elem_of_cons in H as [? ?]
  end;
  repeat first [rewrite elem_of_app | rewrite elem_of_cons | rewrite not_elem_of_app
               | rewrite not_elem_of_cons];
  first [tauto | intuition congruence].
