(* ===== verification/Bytes.v ===== *)
(** Strings, bytes and arrays, shared by the components that lay data out in memory: NUL-terminated strings as the
    list of the characters before the NUL, with the helpers that each kernel source file keeps its own copy of;
    little-endian words; buffers that are read and written at an offset; and the first elements of an array as a
    list. *)
From stdpp Require Import base gmap list list_numbers.
From Stdlib Require Import ZArith Lia.
From S2P Require Import Prelude.
#[local] Open Scope Z_scope.
#[local] Open Scope carr_scope.

Definition text : Type := list Z.

(** The characters of a C string. *)
Definition is_text (s : text) : Prop := Forall (fun c => 0 < c < 256) s.

(** An array of strings; a string that was never written is empty. *)
Definition tget (a : gmap Z text) (i : Z) : text := default [] (a !! i).

(** [rs_streq], [ri_streq], [cat_streq], [gp_streq], ... *)
Fixpoint rs_streq (a b : text) : bool :=
  match a, b with
  | x :: a, y :: b => if x =? y then rs_streq a b else false
  | [], [] => true
  | _, _ => false
  end.

(** [rs_strcpy(dst, src, max)] and its copies *)
Definition rs_strcpy (src : text) (max : Z) : text := take (Z.to_nat (max - 1)) src.

Lemma rs_streq_spec a : ∀ b, rs_streq a b = bool_decide (a = b).
Proof.
  induction a as [|x a IH]; intros [|y b]; [done|done|done|]. cbn [rs_streq]. destruct (Z.eqb_spec x y) as [->|Hne].
  - rewrite IH. apply bool_decide_ext. split; [by intros -> | by intros [= ->]].
  - rewrite bool_decide_eq_false_2; [done|]. by intros [= ?].
Qed.

Lemma rs_strcpy_text s max : is_text s → is_text (rs_strcpy s max).
Proof. apply Forall_take. Qed.

Lemma rs_strcpy_fits s max : Z.of_nat (length s) < max → rs_strcpy s max = s.
Proof. intros H. apply take_ge. lia. Qed.

Lemma tget_upd (a : gmap Z text) i j v : tget (<[i := v]> a) j = if i =? j then v else tget a j.
Proof.
  unfold tget. destruct (Z.eqb_spec i j) as [->|]; [by rewrite lookup_insert_eq | by rewrite lookup_insert_ne].
Qed.

(** * Lists up to order *)

Lemma cons_singleton {A} (x : A) l : x :: l = [x] ++ l.
Proof. done. Qed.

Lemma perm_pad {A} (l r : list A) : l ++ [] ≡ₚ r ++ [] → l ≡ₚ r.
Proof. by rewrite !app_nil_r. Qed.

(** Two concatenations of the same lists in another order. *)
Ltac perm :=
  apply perm_pad;
  repeat match goal with |- context [?x :: ?l] => lazymatch l with [] => fail | _ => rewrite (cons_singleton x l) end end;
  rewrite <- ?app_assoc;
  repeat match goal with
  | |- ?l ≡ₚ ?l => reflexivity
  | |- ?x ++ _ ≡ₚ ?x ++ _ => apply Permutation_app_head
  | |- ?x ++ _ ≡ₚ _ => etrans; [|rewrite (Permutation_app_swap_app _ x _); reflexivity]
  end.

(** Inclusions of concatenations. *)
Ltac incl :=
  let x := fresh "x" in intros x;
  repeat match goal with H : _ ⊆ _ |- _ => specialize (H x) end;
  repeat rewrite ?elem_of_app, ?elem_of_cons in *; tauto.

(** * Arrays as lists *)

(** The first [n] elements of an array. *)
Definition tab {A} (f : Z → A) (n : Z) : list A := f <$> seqZ 0 n.

Section Tab.
Context {A : Type}.
Implicit Types (f g : Z → A).

Lemma tab_length f n : length (tab f n) = Z.to_nat n.
Proof. unfold tab. by rewrite length_fmap, length_seqZ. Qed.

Lemma tab_lookup f n i : (i < Z.to_nat n)%nat → tab f n !! i = Some (f (Z.of_nat i)).
Proof.
  intros Hi. unfold tab. rewrite list_lookup_fmap, lookup_seqZ_lt by lia. done.
Qed.

Lemma tab_ext f g n : (∀ i, 0 ≤ i < n → f i = g i) → tab f n = tab g n.
Proof.
  intros H. unfold tab. apply list_fmap_ext. intros _ i Hi%list_elem_of_lookup_2%elem_of_seqZ. apply H. lia.
Qed.

Lemma tab_list f l : (∀ i, (i < length l)%nat → l !! i = Some (f (Z.of_nat i))) → tab f (Z.of_nat (length l)) = l.
Proof.
  intros H. apply list_eq. intros i. destruct (decide (i < length l)%nat) as [Hi|Hi].
  - rewrite tab_lookup, H by lia. done.
  - rewrite !lookup_ge_None_2; [done | lia | rewrite tab_length; lia].
Qed.

(** An element inserted at [i]. *)
Lemma tab_insert f g n i x : 0 ≤ i ≤ n →
  (∀ j, 0 ≤ j < i → g j = f j) → g i = x → (∀ j, i < j ≤ n → g j = f (j - 1)) →
  tab g (n + 1) = take (Z.to_nat i) (tab f n) ++ x :: drop (Z.to_nat i) (tab f n).
Proof.
  intros Hi Hlo Hx Hhi. apply list_eq. intros j. destruct (decide (j < Z.to_nat (n + 1))%nat) as [Hj|Hj].
  2:{ rewrite !lookup_ge_None_2; [done | | rewrite tab_length; lia].
      rewrite length_app, length_take, length_cons, length_drop, tab_length. lia. }
  rewrite tab_lookup by done. destruct (decide (j < Z.to_nat i)%nat).
  - rewrite lookup_app_l by (rewrite length_take, tab_length; lia).
    rewrite lookup_take_lt, tab_lookup, Hlo by lia. done.
  - rewrite lookup_app_r by (rewrite length_take, tab_length; lia).
    rewrite length_take, tab_length, Nat.min_l by lia. destruct (j - Z.to_nat i)%nat as [|m] eqn:E.
    + cbn. rewrite <- Hx. do 2 f_equal. lia.
    + change ((x :: drop (Z.to_nat i) (tab f n)) !! S m) with (drop (Z.to_nat i) (tab f n) !! m). rewrite lookup_drop, tab_lookup, Hhi by lia. do 2 f_equal. lia.
Qed.

Lemma tab_take f n m : 0 ≤ m ≤ n → tab f m = take (Z.to_nat m) (tab f n).
Proof.
  intros Hm. apply list_eq. intros j. destruct (decide (j < Z.to_nat m)%nat).
  - rewrite lookup_take_lt, !tab_lookup by lia. done.
  - rewrite !lookup_ge_None_2; [done | rewrite length_take, tab_length; lia | rewrite tab_length; lia].
Qed.

Lemma tab_drop f g n m : 0 ≤ m ≤ n → (∀ i, 0 ≤ i < n - m → g i = f (i + m)) → tab g (n - m) = drop (Z.to_nat m) (tab f n).
Proof.
  intros Hm Hg. apply list_eq. intros j. destruct (decide (j < Z.to_nat (n - m))%nat).
  - rewrite lookup_drop, !tab_lookup, Hg by lia. do 2 f_equal. lia.
  - rewrite !lookup_ge_None_2; [done | rewrite length_drop, tab_length; lia | rewrite tab_length; lia].
Qed.

Lemma tab_update f g n i x : 0 ≤ i < n → g i = x → (∀ j, 0 ≤ j < n → j ≠ i → g j = f j) →
  tab g n = <[Z.to_nat i := x]> (tab f n).
Proof.
  intros Hi Hx Hg. apply list_eq. intros j. destruct (decide (j < Z.to_nat n)%nat) as [Hj|Hj].
  2:{ rewrite !lookup_ge_None_2; [done | rewrite length_insert, tab_length; lia | rewrite tab_length; lia]. }
  destruct (decide (j = Z.to_nat i)) as [->|Hne].
  - rewrite list_lookup_insert_eq by (rewrite tab_length; lia). rewrite tab_lookup, Z2Nat.id by lia. by rewrite Hx.
  - rewrite list_lookup_insert_ne, !tab_lookup by done. f_equal. apply Hg; lia.
Qed.

Lemma tab_snoc f g n x : 0 ≤ n → g n = x → (∀ j, 0 ≤ j < n → g j = f j) → tab g (n + 1) = tab f n ++ [x].
Proof.
  intros Hn Hx Hg. rewrite (tab_insert f g n n x); [| lia | done | done | intros; lia].
  by rewrite firstn_all2, skipn_all2 by (rewrite tab_length; lia).
Qed.

Lemma tab_nil f n : n ≤ 0 → tab f n = [].
Proof. intros Hn. unfold tab. by rewrite seqZ_nil. Qed.

Lemma tab_1 f : tab f 1 = [f 0].
Proof. done. Qed.

Lemma tab_elem f n x : x ∈ tab f n ↔ ∃ i, 0 ≤ i < n ∧ x = f i.
Proof.
  unfold tab. rewrite list_elem_of_fmap. setoid_rewrite elem_of_seqZ. split.
  - intros (i & -> & Hi). exists i. split; [lia | done].
  - intros (i & Hi & ->). exists i. split; [done | lia].
Qed.

End Tab.

(** * Little-endian words *)

Fixpoint le_bytes (n : nat) (v : Z) : list Z :=
  match n with
  | O => []
  | S n' => v mod 256 :: le_bytes n' (v / 256)
  end.
Fixpoint le_word (bs : list Z) : Z :=
  match bs with
  | [] => 0
  | b :: bs' => b + 256 * le_word bs'
  end.

(** The next [n]-byte word, and what follows it. *)
Definition take_word (n : nat) (bs : list Z) : Z * list Z := (le_word (take n bs), drop n bs).

Lemma le_bytes_length n : ∀ v, length (le_bytes n v) = n.
Proof. induction n as [|n IH]; intros v; [done|]. cbn. by rewrite IH. Qed.

Lemma le_word_bytes n : ∀ v, le_word (le_bytes n v) = v mod 256 ^ Z.of_nat n.
Proof.
  induction n as [|n IH]; intros v; [by rewrite Z.mod_1_r|]. cbn [le_bytes le_word]. rewrite IH.
  rewrite Nat2Z.inj_succ, Z.pow_succ_r by lia. rewrite Z.rem_mul_r by lia. done.
Qed.

Lemma take_word_bytes n v rest : take_word n (le_bytes n v ++ rest) = (v mod 256 ^ Z.of_nat n, rest).
Proof.
  unfold take_word. rewrite <- (le_bytes_length n v) at 1 3. by rewrite take_app_length, drop_app_length, le_word_bytes.
Qed.

(** * Buffers *)

(** [memcpy(buf + off, bs, n)] *)
Fixpoint wr_bytes (off : Z) (bs : list Z) (buf : gmap Z Z) : gmap Z Z :=
  match bs with
  | [] => buf
  | b :: bs => wr_bytes (off + 1) bs buf.[off <- b]
  end.

(** The [n] bytes of [buf] at [off]. *)
Definition rd_bytes (off n : Z) (buf : gmap Z Z) : list Z := tab (fun i => buf.[off + i]) n.

Lemma wr_bytes_at bs : ∀ off buf i,
  (wr_bytes off bs buf).[i] = if decide (off ≤ i < off + Z.of_nat (length bs)) then default 0 (bs !! Z.to_nat (i - off)) else buf.[i].
Proof.
  induction bs as [|b bs IH]; intros off buf i; cbn [wr_bytes length].
  { by rewrite decide_False by lia. }
  rewrite IH, aget_upd. destruct (decide (off + 1 ≤ i < off + 1 + Z.of_nat (length bs))).
  - rewrite decide_True by lia. replace (Z.to_nat (i - off)) with (S (Z.to_nat (i - (off + 1)))) by lia. done.
  - destruct (Z.eqb_spec off i) as [->|]; [|by rewrite decide_False by lia]. rewrite decide_True by lia. by rewrite Z.sub_diag.
Qed.

Lemma rd_bytes_length off n buf : length (rd_bytes off n buf) = Z.to_nat n.
Proof. apply tab_length. Qed.

Lemma rd_wr_same off bs buf : rd_bytes off (Z.of_nat (length bs)) (wr_bytes off bs buf) = bs.
Proof.
  apply tab_list. intros i Hi. rewrite wr_bytes_at, decide_True by lia. replace (Z.to_nat (off + Z.of_nat i - off)) with i by lia.
  destruct (lookup_lt_is_Some_2 bs i Hi) as [b ->]. done.
Qed.

Lemma rd_wr_other off n off' bs buf : off + n ≤ off' ∨ off' + Z.of_nat (length bs) ≤ off → rd_bytes off n (wr_bytes off' bs buf) = rd_bytes off n buf.
Proof. intros H. apply tab_ext. intros i Hi. rewrite wr_bytes_at, decide_False by lia. done. Qed.

Lemma rd_bytes_ext off n b1 b2 : (∀ i, off ≤ i < off + n → b1.[i] = b2.[i]) → rd_bytes off n b1 = rd_bytes off n b2.
Proof. intros H. apply tab_ext. intros i Hi. apply H. lia. Qed.
