(* ===== verification/FramePool.v ===== *)
(** The physical frame allocator, [src/kernel/frame_pool.c].

    The state record holds every static of the file: the 2^20-bit allocation
    bitmap as 64-bit words, the per-frame owner tags, the per-partition usage
    and quota counters, and the boot-reservation watermarks.  Each C function
    is one definition of the same name; functions that scan are written with
    the loops of the source.  [fp_current_sp] (the value of the stack pointer)
    is the argument [sp] of the allocating functions. *)

From stdpp Require Import base gmap list list_numbers.
From Stdlib Require Import ZArith Lia Bool.
From S2P Require Import Prelude.
#[local] Open Scope Z_scope.
#[local] Open Scope carr_scope.

Definition TOTAL_FRAMES : Z := 1048576.
Definition FRAME_SIZE : Z := 4096.
Definition PARTITION_MAX : Z := 256.
Definition PARTITION_SYSTEM : Z := 0.
Definition WORD_FULL : Z := 0xFFFFFFFFFFFFFFFF.

(** * State *)

Record FramePool := mkFP {
  physical_memory_bitmap : gmap Z Z;
  partition_frame_usage : gmap Z Z;
  partition_frame_quota : gmap Z Z;
  frame_owner : gmap Z Z;
  frames_reserved : Z;
  reserved_below : Z;
  reserved_above : Z;
  contig_lo_frame : Z;
  contig_hi_frame : Z;
  frame_pool_live_stack_withheld : Z;
  frame_pool_stack_covered : Z;
  frame_pool_stack_lo_frame : Z;
  frame_pool_stack_hi_frame : Z
}.

Definition set_bitmap (b : gmap Z Z) (s : FramePool) : FramePool :=
  mkFP b (partition_frame_usage s) (partition_frame_quota s) (frame_owner s)
    (frames_reserved s) (reserved_below s) (reserved_above s) (contig_lo_frame s)
    (contig_hi_frame s) (frame_pool_live_stack_withheld s) (frame_pool_stack_covered s)
    (frame_pool_stack_lo_frame s) (frame_pool_stack_hi_frame s).

Definition set_usage (u : gmap Z Z) (s : FramePool) : FramePool :=
  mkFP (physical_memory_bitmap s) u (partition_frame_quota s) (frame_owner s)
    (frames_reserved s) (reserved_below s) (reserved_above s) (contig_lo_frame s)
    (contig_hi_frame s) (frame_pool_live_stack_withheld s) (frame_pool_stack_covered s)
    (frame_pool_stack_lo_frame s) (frame_pool_stack_hi_frame s).

Definition set_quota (q : gmap Z Z) (s : FramePool) : FramePool :=
  mkFP (physical_memory_bitmap s) (partition_frame_usage s) q (frame_owner s)
    (frames_reserved s) (reserved_below s) (reserved_above s) (contig_lo_frame s)
    (contig_hi_frame s) (frame_pool_live_stack_withheld s) (frame_pool_stack_covered s)
    (frame_pool_stack_lo_frame s) (frame_pool_stack_hi_frame s).

Definition set_owner (o : gmap Z Z) (s : FramePool) : FramePool :=
  mkFP (physical_memory_bitmap s) (partition_frame_usage s) (partition_frame_quota s) o
    (frames_reserved s) (reserved_below s) (reserved_above s) (contig_lo_frame s)
    (contig_hi_frame s) (frame_pool_live_stack_withheld s) (frame_pool_stack_covered s)
    (frame_pool_stack_lo_frame s) (frame_pool_stack_hi_frame s).

Definition set_frames_reserved (n : Z) (s : FramePool) : FramePool :=
  mkFP (physical_memory_bitmap s) (partition_frame_usage s) (partition_frame_quota s)
    (frame_owner s) n (reserved_below s) (reserved_above s) (contig_lo_frame s)
    (contig_hi_frame s) (frame_pool_live_stack_withheld s) (frame_pool_stack_covered s)
    (frame_pool_stack_lo_frame s) (frame_pool_stack_hi_frame s).

Definition set_marks (lo hi clo chi : Z) (s : FramePool) : FramePool :=
  mkFP (physical_memory_bitmap s) (partition_frame_usage s) (partition_frame_quota s)
    (frame_owner s) (frames_reserved s) lo hi clo chi (frame_pool_live_stack_withheld s)
    (frame_pool_stack_covered s) (frame_pool_stack_lo_frame s) (frame_pool_stack_hi_frame s).

Definition set_withheld (n : Z) (s : FramePool) : FramePool :=
  mkFP (physical_memory_bitmap s) (partition_frame_usage s) (partition_frame_quota s)
    (frame_owner s) (frames_reserved s) (reserved_below s) (reserved_above s)
    (contig_lo_frame s) (contig_hi_frame s) n (frame_pool_stack_covered s)
    (frame_pool_stack_lo_frame s) (frame_pool_stack_hi_frame s).

Definition set_stack (cov lo hi : Z) (s : FramePool) : FramePool :=
  mkFP (physical_memory_bitmap s) (partition_frame_usage s) (partition_frame_quota s)
    (frame_owner s) (frames_reserved s) (reserved_below s) (reserved_above s)
    (contig_lo_frame s) (contig_hi_frame s) (frame_pool_live_stack_withheld s) cov lo hi.

(** The statics as the image is loaded, before [frame_pool_init]. *)
Definition frame_pool_bss : FramePool :=
  mkFP ∅ ∅ ∅ ∅ 0 0 TOTAL_FRAMES TOTAL_FRAMES 0 0 0 0 0.

(** A small pool: frame 0 is reserved and frames 1 to 3 belong to partition 1. *)
Definition sample_pool : FramePool :=
  mkFP (∅ : gmap Z Z).[0 <- 15] (∅ : gmap Z Z).[1 <- 3] ∅
    (∅ : gmap Z Z).[1 <- 1].[2 <- 1].[3 <- 1] 1 1 TOTAL_FRAMES TOTAL_FRAMES 0 0 0 0 0.

(** * Bitmap accesses *)

(** [bitmap[f/64] & (1ULL << (f%64))] *)
Definition bit_is_set (b : gmap Z Z) (f : Z) : bool :=
  negb (Z.land b.[f / 64] (Z.shiftl 1 (f mod 64)) =? 0).

(** [bitmap[f/64] |= 1ULL << (f%64)] *)
Definition bit_mark (b : gmap Z Z) (f : Z) : gmap Z Z :=
  b.[f / 64 <- Z.lor b.[f / 64] (Z.shiftl 1 (f mod 64))].

(** [bitmap[f/64] &= ~(1ULL << (f%64))] *)
Definition bit_clear (b : gmap Z Z) (f : Z) : gmap Z Z :=
  b.[f / 64 <- Z.land b.[f / 64] (u64_not (Z.shiftl 1 (f mod 64)))].

Definition used (s : FramePool) (f : Z) : bool := bit_is_set (physical_memory_bitmap s) f.
Definition owner (s : FramePool) (f : Z) : Z := (frame_owner s).[f].
Definition usage (s : FramePool) (p : Z) : Z := (partition_frame_usage s).[p].
Definition quota (s : FramePool) (p : Z) : Z := (partition_frame_quota s).[p].

(** * Boot reservations *)

Definition frame_pool_frame_is_machine_owned (s : FramePool) (frame_index : Z) : bool :=
  if frame_index <? reserved_below s then true
  else if reserved_above s <=? frame_index then true
  else if (contig_lo_frame s <=? frame_index) && (frame_index <? contig_hi_frame s) then true
  else false.

Definition frame_pool_frame_owner (s : FramePool) (frame_index : Z) : Z :=
  if TOTAL_FRAMES <=? frame_index then PARTITION_SYSTEM else owner s frame_index.

Definition fp_mark_used (frame_index : Z) (s : FramePool) : FramePool :=
  if TOTAL_FRAMES <=? frame_index then s
  else if used s frame_index then s
  else set_frames_reserved (frames_reserved s + 1)
         (set_bitmap (bit_mark (physical_memory_bitmap s) frame_index) s).

Definition frame_pool_reserve_below (end_addr : Z) (s : FramePool) : FramePool :=
  let last := u64 (end_addr + FRAME_SIZE - 1) / FRAME_SIZE in
  let last := if TOTAL_FRAMES <? last then TOTAL_FRAMES else last in
  let s := for_up (Z.to_nat last) 0 fp_mark_used s in
  if reserved_below s <? last
  then set_marks last (reserved_above s) (contig_lo_frame s) (contig_hi_frame s) s else s.

Definition frame_pool_reserve_range (lo_addr hi_addr : Z) (s : FramePool) : FramePool :=
  if hi_addr <=? lo_addr then s else
  let first := lo_addr / FRAME_SIZE in
  let last := u64 (hi_addr + FRAME_SIZE - 1) / FRAME_SIZE in
  let last := if TOTAL_FRAMES <? last then TOTAL_FRAMES else last in
  let s := for_up (Z.to_nat (last - first)) first fp_mark_used s in
  if (reserved_below s <? last) && (first =? 0)
  then set_marks last (reserved_above s) (contig_lo_frame s) (contig_hi_frame s) s else s.

(** The linker symbols [_kernel_image_end], [stack_bottom], [stack_top] are arguments. *)
Definition frame_pool_init (image_end sb stp : Z) (s : FramePool) : FramePool :=
  let s := frame_pool_reserve_below image_end s in
  let before_stack := frames_reserved s in
  let s := frame_pool_reserve_range sb stp s in
  let covered := if frames_reserved s =? before_stack then 1 else 0 in
  set_stack covered (sb / FRAME_SIZE) (u64 (stp - 1) / FRAME_SIZE) s.

Definition frame_pool_limit_ram (top_addr : Z) (s : FramePool) : FramePool :=
  if top_addr =? 0 then s else
  let first_absent := top_addr / FRAME_SIZE in
  if TOTAL_FRAMES <=? first_absent then s else
  let s := for_up (Z.to_nat (TOTAL_FRAMES - first_absent)) first_absent fp_mark_used s in
  if first_absent <? reserved_above s
  then set_marks (reserved_below s) first_absent (contig_lo_frame s) (contig_hi_frame s) s
  else s.

(** [align_frames == 0 || (align_frames & (align_frames - 1)) != 0] *)
Definition bad_align (align_frames : Z) : bool :=
  (align_frames =? 0) || negb (Z.land align_frames (align_frames - 1) =? 0).

(** No frame of [start, start + nframes) has its bit set. *)
Definition run_is_free (s : FramePool) (nframes start : Z) : bool :=
  match find_up (Z.to_nat nframes) start (used s) with Some _ => false | None => true end.

(** [for (start = align; start + nframes <= TOTAL_FRAMES; start += align)]:
    the first candidate accepted by [p].  [n] bounds the number of starts. *)
Fixpoint find_aligned (n : nat) (start align nframes : Z) (p : Z → bool) : option Z :=
  match n with
  | O => None
  | S n' =>
      if start + nframes <=? TOTAL_FRAMES then
        if p start then Some start else find_aligned n' (start + align) align nframes p
      else None
  end.

Definition frame_pool_reserve_contiguous (nframes align_frames : Z) (s : FramePool)
  : Z * FramePool :=
  if (nframes =? 0) || (TOTAL_FRAMES <? nframes) then (0, s) else
  if bad_align align_frames then (0, s) else
  match find_aligned (Z.to_nat TOTAL_FRAMES) align_frames align_frames nframes
          (run_is_free s nframes) with
  | None => (0, s)
  | Some start =>
      let s := for_up (Z.to_nat nframes) start fp_mark_used s in
      let lo := if start <? contig_lo_frame s then start else contig_lo_frame s in
      let hi := if contig_hi_frame s <? start + nframes then start + nframes
                else contig_hi_frame s in
      (start * FRAME_SIZE, set_marks (reserved_below s) (reserved_above s) lo hi s)
  end.

Definition frame_pool_reserved_count (s : FramePool) : Z := frames_reserved s.

Definition frame_pool_is_reserved (s : FramePool) (frame_index : Z) : bool :=
  if TOTAL_FRAMES <=? frame_index then true
  else Z.land (Z.shiftr (physical_memory_bitmap s).[frame_index / 64] (frame_index mod 64)) 1 =? 1.

Definition frame_pool_reset (s : FramePool) : FramePool :=
  let bm := for_up (Z.to_nat (TOTAL_FRAMES / 64)) 0
              (fun i b => b.[i <- 0]) (physical_memory_bitmap s) in
  let ow := for_up (Z.to_nat TOTAL_FRAMES) 0 (fun i b => b.[i <- 0]) (frame_owner s) in
  mkFP bm (partition_frame_usage s) (partition_frame_quota s) ow 0 0 TOTAL_FRAMES
    TOTAL_FRAMES 0 (frame_pool_live_stack_withheld s) 0 0 0.

Definition fp_frame_contains (frame_base addr : Z) : bool :=
  negb (addr =? 0) && (frame_base <=? addr) && (addr <? frame_base + FRAME_SIZE).

Definition frame_pool_stack_still_reserved (s : FramePool) : bool :=
  if frame_pool_stack_hi_frame s =? 0 then false else
  let n := frame_pool_stack_hi_frame s - frame_pool_stack_lo_frame s + 1 in
  match find_up (Z.to_nat n) (frame_pool_stack_lo_frame s)
          (fun f => negb (frame_pool_is_reserved s f)) with
  | Some _ => false | None => true
  end.

(** * Allocation *)

(** Take a frame out of the pool because it holds the live kernel stack. *)
Definition withhold (f : Z) (s : FramePool) : FramePool :=
  set_withheld (frame_pool_live_stack_withheld s + 1)
    (set_frames_reserved (frames_reserved s + 1)
       (set_bitmap (bit_mark (physical_memory_bitmap s) f) s)).

(** The inner loop of [alloc_raw_frame], bits [bit .. bit + n) of word [i]. *)
Fixpoint alloc_raw_bits (sp i : Z) (n : nat) (bit : Z) (s : FramePool)
  : option Z * FramePool :=
  match n with
  | O => (None, s)
  | S n' =>
      if (i =? 0) && (bit =? 0) then alloc_raw_bits sp i n' (bit + 1) s
      else if Z.land (physical_memory_bitmap s).[i] (Z.shiftl 1 bit) =? 0 then
        let base := (i * 64 + bit) * 4096 in
        if fp_frame_contains base sp
        then alloc_raw_bits sp i n' (bit + 1) (withhold (i * 64 + bit) s)
        else (Some base, set_bitmap (bit_mark (physical_memory_bitmap s) (i * 64 + bit)) s)
      else alloc_raw_bits sp i n' (bit + 1) s
  end.

(** The outer loop, words [i .. i + n). *)
Fixpoint alloc_raw_words (sp : Z) (n : nat) (i : Z) (s : FramePool) : Z * FramePool :=
  match n with
  | O => (0, s)
  | S n' =>
      if (physical_memory_bitmap s).[i] =? WORD_FULL then alloc_raw_words sp n' (i + 1) s
      else match alloc_raw_bits sp i 64 0 s with
           | (Some base, s') => (base, s')
           | (None, s') => alloc_raw_words sp n' (i + 1) s'
           end
  end.

Definition alloc_raw_frame (sp : Z) (s : FramePool) : Z * FramePool :=
  alloc_raw_words sp (Z.to_nat (TOTAL_FRAMES / 64)) 0 s.

(** [usage[p]++] and the owner tag, after a successful allocation. *)
Definition charge (p frame : Z) (s : FramePool) : FramePool :=
  set_owner (frame_owner s).[frame / FRAME_SIZE <- u8 p]
    (set_usage (partition_frame_usage s).[p <- u64 (usage s p + 1)] s).

Definition allocate_physical_ram_frame (sp : Z) (s : FramePool) : Z * FramePool :=
  let '(frame, s) := alloc_raw_frame sp s in
  if frame =? 0 then (frame, s) else (frame, charge PARTITION_SYSTEM frame s).

Definition allocate_physical_ram_frame_for_partition (sp partition_id : Z) (s : FramePool)
  : Z * FramePool :=
  if PARTITION_MAX <=? partition_id then (0, s) else
  let q := quota s partition_id in
  if negb (q =? 0) && (q <=? usage s partition_id) then (0, s) else
  let '(frame, s) := alloc_raw_frame sp s in
  if frame =? 0 then (frame, s) else (frame, charge partition_id frame s).

(** The inner loop of the top-down scan: bits [n - 1 .. 0] of word [i]. *)
Fixpoint alloc_top_bits (sp i : Z) (n : nat) (s : FramePool) : option Z * FramePool :=
  match n with
  | O => (None, s)
  | S n' =>
      let bit := Z.of_nat n' in
      let f := i * 64 + bit in
      if f =? 0 then alloc_top_bits sp i n' s
      else if negb (Z.land (physical_memory_bitmap s).[i] (Z.shiftl 1 bit) =? 0)
      then alloc_top_bits sp i n' s
      else if fp_frame_contains (f * FRAME_SIZE) sp
      then alloc_top_bits sp i n' (withhold f s)
      else (Some f, set_bitmap (bit_mark (physical_memory_bitmap s) f) s)
  end.

Fixpoint alloc_top_words (sp : Z) (n : nat) (s : FramePool) : option Z * FramePool :=
  match n with
  | O => (None, s)
  | S n' =>
      let i := Z.of_nat n' in
      if (physical_memory_bitmap s).[i] =? WORD_FULL then alloc_top_words sp n' s
      else match alloc_top_bits sp i 64 s with
           | (Some f, s') => (Some f, s')
           | (None, s') => alloc_top_words sp n' s'
           end
  end.

Definition allocate_physical_ram_frame_for_partition_top (sp partition_id : Z) (s : FramePool)
  : Z * FramePool :=
  if PARTITION_MAX <=? partition_id then (0, s) else
  let q := quota s partition_id in
  if negb (q =? 0) && (q <=? usage s partition_id) then (0, s) else
  match alloc_top_words sp (Z.to_nat (TOTAL_FRAMES / 64)) s with
  | (None, s) => (0, s)
  | (Some f, s) => (f * FRAME_SIZE, charge partition_id (f * FRAME_SIZE) s)
  end.

(** A frame of a candidate run that makes the run unusable. *)
Definition run_blocker (sp : Z) (s : FramePool) (f : Z) : bool :=
  used s f || fp_frame_contains (f * FRAME_SIZE) sp.

Definition run_is_usable (sp nframes : Z) (s : FramePool) (start : Z) : bool :=
  match find_up (Z.to_nat nframes) start (run_blocker sp s) with
  | Some _ => false | None => true
  end.

Definition claim_frame (partition_id f : Z) (s : FramePool) : FramePool :=
  set_owner (frame_owner s).[f <- u8 partition_id]
    (set_bitmap (bit_mark (physical_memory_bitmap s) f) s).

Definition allocate_contiguous_frames_for_partition
    (sp partition_id nframes align_frames : Z) (s : FramePool) : Z * FramePool :=
  if PARTITION_MAX <=? partition_id then (0, s) else
  if (nframes =? 0) || (TOTAL_FRAMES <? nframes) then (0, s) else
  if bad_align align_frames then (0, s) else
  let q := quota s partition_id in
  if negb (q =? 0) && (q <? u64 (usage s partition_id + nframes)) then (0, s) else
  match find_aligned (Z.to_nat TOTAL_FRAMES) align_frames align_frames nframes
          (run_is_usable sp nframes s) with
  | None => (0, s)
  | Some start =>
      let s := for_up (Z.to_nat nframes) start (claim_frame partition_id) s in
      (start * FRAME_SIZE,
       set_usage (partition_frame_usage s).[partition_id <-
                    u64 (usage s partition_id + nframes)] s)
  end.

(** * Release *)

(** Returns 0 on success and 1 on refusal, with the pool untouched. *)
Definition free_raw_frame (addr : Z) (s : FramePool) : Z * FramePool :=
  if (addr =? 0) || negb (addr mod FRAME_SIZE =? 0) then (1, s) else
  let frame_index := addr / FRAME_SIZE in
  if (frame_index =? 0) || (TOTAL_FRAMES <=? frame_index) then (1, s) else
  if negb (used s frame_index) then (1, s) else
  (0, set_owner (frame_owner s).[frame_index <- u8 PARTITION_SYSTEM]
        (set_bitmap (bit_clear (physical_memory_bitmap s) frame_index) s)).

Definition uncharge (p n : Z) (s : FramePool) : FramePool :=
  set_usage (partition_frame_usage s).[p <- if n <=? usage s p then usage s p - n else 0] s.

Definition free_physical_ram_frame (frame : Z) (s : FramePool) : Z * FramePool :=
  let '(r, s) := free_raw_frame frame s in
  if negb (r =? 0) then (1, s) else
  (0, if 0 <? usage s PARTITION_SYSTEM then uncharge PARTITION_SYSTEM 1 s else s).

Definition free_physical_ram_frame_for_partition (frame partition_id : Z) (s : FramePool)
  : Z * FramePool :=
  if PARTITION_MAX <=? partition_id then (1, s) else
  let '(r, s) := free_raw_frame frame s in
  if negb (r =? 0) then (1, s) else
  (0, if 0 <? usage s partition_id then uncharge partition_id 1 s else s).

(** One iteration of the release loop: [if (free_raw_frame(..) == 0) freed++]. *)
Definition free_one (first i : Z) (st : Z * FramePool) : Z * FramePool :=
  let '(freed, s) := st in
  let '(r, s) := free_raw_frame (u64 ((first + i) * FRAME_SIZE)) s in
  (if r =? 0 then freed + 1 else freed, s).

Definition free_contiguous_frames_for_partition (base_addr nframes partition_id : Z)
    (s : FramePool) : Z * FramePool :=
  if PARTITION_MAX <=? partition_id then (1, s) else
  if (base_addr =? 0) || negb (base_addr mod FRAME_SIZE =? 0) then (1, s) else
  if nframes =? 0 then (1, s) else
  let first := base_addr / FRAME_SIZE in
  if (first =? 0) || (TOTAL_FRAMES <? u64 (first + nframes)) then (1, s) else
  let st := for_up (Z.to_nat nframes) 0 (free_one first) (0, s) in
  (0, uncharge partition_id (fst st) (snd st)).

(** * Quotas and reclamation *)

Definition partition_set_frame_quota (partition_id frame_quota : Z) (s : FramePool)
  : Z * FramePool :=
  if PARTITION_MAX <=? partition_id then (1, s)
  else (0, set_quota (partition_frame_quota s).[partition_id <- frame_quota] s).

Definition partition_get_frame_usage (partition_id : Z) (s : FramePool) : Z :=
  if PARTITION_MAX <=? partition_id then WORD_FULL else usage s partition_id.

Definition partition_get_frame_quota (partition_id : Z) (s : FramePool) : Z :=
  if PARTITION_MAX <=? partition_id then WORD_FULL else quota s partition_id.

Definition partition_reset_frame_usage (partition_id : Z) (s : FramePool) : Z * FramePool :=
  if PARTITION_MAX <=? partition_id then (1, s)
  else (0, set_usage (partition_frame_usage s).[partition_id <- 0] s).

(** One iteration of the reclaim sweep. *)
Definition reclaim_one (partition_id frame_index : Z) (st : Z * FramePool) : Z * FramePool :=
  let '(freed, s) := st in
  if frame_pool_frame_is_machine_owned s frame_index then (freed, s)
  else if negb (owner s frame_index =? u8 partition_id) then (freed, s)
  else if negb (used s frame_index) then (freed, s)
  else (freed + 1,
        set_owner (frame_owner s).[frame_index <- u8 PARTITION_SYSTEM]
          (set_bitmap (bit_clear (physical_memory_bitmap s) frame_index) s)).

Definition partition_reclaim_all_frames (partition_id : Z) (s : FramePool) : Z * FramePool :=
  if PARTITION_MAX <=? partition_id then (0xFFFFFFFF, s) else
  let st := for_up (Z.to_nat (TOTAL_FRAMES - 1)) 1 (reclaim_one partition_id) (0, s) in
  (u32 (fst st), set_usage (partition_frame_usage (snd st)).[partition_id <- 0] (snd st)).

(** * System-wide counts *)

(** Kernighan's loop [while (v) { v &= v - 1; count++; }]; 64 iterations suffice. *)
Fixpoint popcount64_loop (fuel : nat) (v count : Z) : Z :=
  match fuel with
  | O => count
  | S n => if v =? 0 then count else popcount64_loop n (Z.land v (v - 1)) (count + 1)
  end.

Definition popcount64 (v : Z) : Z := popcount64_loop 64 v 0.

Definition frame_pool_total_frames : Z := TOTAL_FRAMES.

Definition frame_pool_allocated_count (s : FramePool) : Z :=
  for_up (Z.to_nat (TOTAL_FRAMES / 64)) 0
    (fun i count => count + popcount64 (physical_memory_bitmap s).[i]) 0.

Definition frame_pool_free_count (s : FramePool) : Z :=
  let used := frame_pool_allocated_count s in
  let used := if frame_pool_is_reserved s 0 then used - 1 else used in
  (TOTAL_FRAMES - 1) - used.
