(* ===== verification/FramePoolSpec.v ===== *)
(** Correctness of the frame allocator of [FramePool.v]: the bitmap read as a
    set of frames, first-fit allocation, quotas, release, reclamation and the
    system-wide counts. *)

From stdpp Require Import base gmap list list_numbers.
From Stdlib Require Import ZArith Lia Bool.
From S2P Require Import Prelude FramePool.
#[local] Open Scope Z_scope.
#[local] Open Scope carr_scope.

#[local] Opaque Z.to_nat Z.div Z.modulo.

(** * The bitmap as a set of frames *)

Lemma bit_is_set_testbit b f : bit_is_set b f = Z.testbit b.[f / 64] (f mod 64).
Proof.
  unfold bit_is_set. rewrite land_bit_testbit by (apply Z.mod_pos_bound; lia).
  apply negb_involutive.
Qed.

Lemma split64_eq f g : f / 64 = g / 64 → f mod 64 = g mod 64 → f = g.
Proof. intros. rewrite (Z.div_mod f 64), (Z.div_mod g 64) by lia. congruence. Qed.

Lemma bit_mark_spec b f g : bit_is_set (bit_mark b f) g = (g =? f) || bit_is_set b g.
Proof.
  rewrite !bit_is_set_testbit. unfold bit_mark. rewrite aget_upd.
  pose proof (Z.mod_pos_bound f 64 ltac:(lia)) as Hf.
  pose proof (Z.mod_pos_bound g 64 ltac:(lia)) as Hg.
  destruct (Z.eqb_spec g f) as [->|Hne].
  - rewrite Z.eqb_refl, Z.lor_spec, shiftl_1_testbit, Z.eqb_refl by lia. by rewrite orb_true_r.
  - destruct (Z.eqb_spec (f / 64) (g / 64)) as [He|]; [|done].
    rewrite Z.lor_spec, shiftl_1_testbit, He by lia.
    destruct (Z.eqb_spec (g mod 64) (f mod 64)); [|by rewrite orb_false_r].
    destruct Hne. by apply split64_eq.
Qed.

Lemma bit_clear_spec b f g : bit_is_set (bit_clear b f) g = negb (g =? f) && bit_is_set b g.
Proof.
  rewrite !bit_is_set_testbit. unfold bit_clear, u64_not. rewrite aget_upd.
  pose proof (Z.mod_pos_bound f 64 ltac:(lia)) as Hf.
  pose proof (Z.mod_pos_bound g 64 ltac:(lia)) as Hg.
  destruct (Z.eqb_spec g f) as [->|Hne]; simpl.
  - rewrite Z.eqb_refl, Z.land_spec, Z.lxor_spec, shiftl_1_testbit, ones_testbit, Z.eqb_refl by lia.
    destruct (Z.ltb_spec (f mod 64) 64); [by rewrite andb_false_r | lia].
  - destruct (Z.eqb_spec (f / 64) (g / 64)) as [He|]; [|done].
    rewrite Z.land_spec, Z.lxor_spec, shiftl_1_testbit, ones_testbit, He by lia.
    destruct (Z.eqb_spec (g mod 64) (f mod 64)); [destruct Hne; by apply split64_eq|].
    destruct (Z.ltb_spec (g mod 64) 64); [by rewrite andb_true_r | lia].
Qed.

(** A well-formed pool: every bitmap word is a 64-bit value. *)
Definition words_ok (b : gmap Z Z) : Prop := ∀ i, 0 ≤ b.[i] < 2 ^ 64.

Lemma words_ok_mark b f : words_ok b → words_ok (bit_mark b f).
Proof.
  intros Hb i. unfold bit_mark. rewrite aget_upd.
  destruct (f / 64 =? i); [|apply Hb].
  pose proof (Z.mod_pos_bound f 64 ltac:(lia)).
  apply bits_range; [lia|]. intros n Hn.
  rewrite Z.lor_spec, shiftl_1_testbit, (testbit_high _ 64 n (Hb _)) by lia.
  destruct (Z.eqb_spec n (f mod 64)); [lia | done].
Qed.

Lemma words_ok_clear b f : words_ok b → words_ok (bit_clear b f).
Proof.
  intros Hb i. unfold bit_clear. rewrite aget_upd.
  destruct (f / 64 =? i); [|apply Hb].
  apply bits_range; [lia|]. intros n Hn.
  by rewrite Z.land_spec, (testbit_high _ 64 n (Hb _)).
Qed.

(** The word test of the scan: a word reads 0xFFFF...F exactly when all its frames are used. *)
Lemma word_full_iff b i :
  words_ok b →
  (b.[i] =? WORD_FULL) = true ↔ (∀ f, i * 64 ≤ f < i * 64 + 64 → bit_is_set b f = true).
Proof.
  intros Hb. rewrite Z.eqb_eq. split.
  - intros He f Hf. rewrite bit_is_set_testbit.
    replace (f / 64) with i by (apply Z.div_unique with (f - i * 64); lia).
    replace (f mod 64) with (f - i * 64) by (apply Z.mod_unique with i; lia).
    rewrite He. change WORD_FULL with (2 ^ 64 - 1). rewrite ones_testbit by lia.
    apply Z.ltb_lt. lia.
  - intros Hall. change WORD_FULL with (2 ^ 64 - 1). apply Z.bits_inj'. intros n Hn.
    rewrite ones_testbit by lia. destruct (Z.ltb_spec n 64) as [Hlt|].
    + specialize (Hall (i * 64 + n) ltac:(lia)). rewrite bit_is_set_testbit in Hall.
      replace ((i * 64 + n) / 64) with i in Hall by (apply Z.div_unique with n; lia).
      replace ((i * 64 + n) mod 64) with n in Hall by (apply Z.mod_unique with i; lia). done.
    + apply (testbit_high _ 64); [apply Hb | lia].
Qed.

Lemma frame_word_bit i bit : 0 ≤ bit < 64 →
  (i * 64 + bit) / 64 = i ∧ (i * 64 + bit) mod 64 = bit.
Proof.
  intros. split; [symmetry; apply Z.div_unique with bit; lia
                 | symmetry; apply Z.mod_unique with i; lia].
Qed.

Lemma land_bit_used s i bit : 0 ≤ bit < 64 →
  (Z.land (physical_memory_bitmap s).[i] (Z.shiftl 1 bit) =? 0) = negb (used s (i * 64 + bit)).
Proof.
  intros Hb. destruct (frame_word_bit i bit Hb) as [Hd Hm].
  unfold used, bit_is_set. rewrite Hd, Hm. by rewrite negb_involutive.
Qed.

(** * First-fit allocation *)

(** Everything but the bitmap and the two reservation counters. *)
Definition same_books (s t : FramePool) : Prop :=
  partition_frame_usage t = partition_frame_usage s ∧
  partition_frame_quota t = partition_frame_quota s ∧
  frame_owner t = frame_owner s ∧
  reserved_below t = reserved_below s ∧ reserved_above t = reserved_above s ∧
  contig_lo_frame t = contig_lo_frame s ∧ contig_hi_frame t = contig_hi_frame s.

(** The frame holding the live stack pointer. *)
Definition stack_frame (sp f : Z) : bool := fp_frame_contains (f * FRAME_SIZE) sp.

(** A frame the allocator may hand out. *)
Definition allocable (sp : Z) (s : FramePool) (f : Z) : bool :=
  negb (f =? 0) && negb (used s f) && negb (stack_frame sp f).

(** [t] is [s] after a scan has passed over the frames of region [R] without a hit. *)
Definition scanned (sp : Z) (s : FramePool) (R : Z → bool) (t : FramePool) : Prop :=
  (∀ g, used t g = used s g || (R g && stack_frame sp g)) ∧
  (∀ g, R g = true → allocable sp s g = false) ∧
  words_ok (physical_memory_bitmap t) ∧ same_books s t.

(** [t] is [s] after a scan that passed over [R] has handed out frame [f]. *)
Definition hit (sp : Z) (s : FramePool) (R : Z → bool) (f : Z) (t : FramePool) : Prop :=
  (∀ g, used t g = (g =? f) || used s g || (R g && stack_frame sp g)) ∧
  (∀ g, R g = true → allocable sp s g = false) ∧ allocable sp s f = true ∧
  words_ok (physical_memory_bitmap t) ∧ same_books s t.

(** Frames [lo .. hi), without the never-allocated frame 0. *)
Definition region (lo hi g : Z) : bool := (1 <=? g) && (lo <=? g) && (g <? hi).

Lemma used_mark b f s g : used (set_bitmap (bit_mark b f) s) g = (g =? f) || bit_is_set b g.
Proof. apply bit_mark_spec. Qed.

Lemma used_withhold f s g : used (withhold f s) g = (g =? f) || used s g.
Proof. apply bit_mark_spec. Qed.

Section Scan.
Context (sp : Z) (s : FramePool).

Lemma scanned_ext R R' t : (∀ g, R' g = R g) → scanned sp s R t → scanned sp s R' t.
Proof.
  intros HR (Hu & Hn & Hw & Hb). split_and!; [| |done|done].
  - intros g. by rewrite HR.
  - intros g. rewrite HR. apply Hn.
Qed.

Lemma hit_ext R R' f t : (∀ g, R' g = R g) → hit sp s R f t → hit sp s R' f t.
Proof.
  intros HR (Hu & Hn & Ha & Hw & Hb). split_and!; [| |done|done|done].
  - intros g. by rewrite HR.
  - intros g. rewrite HR. apply Hn.
Qed.

Lemma scanned_skip R R' k t :
  scanned sp s R t → used s k = true → (∀ g, R' g = R g || (g =? k)) → scanned sp s R' t.
Proof.
  intros (Hu & Hn & Hw & Hb) Hk HR. split_and!; [| |done|done].
  - intros g. rewrite Hu, HR. destruct (Z.eqb_spec g k) as [->|]; [by rewrite Hk|].
    by rewrite orb_false_r.
  - intros g. rewrite HR. destruct (Z.eqb_spec g k) as [->|]; intros Hg.
    + unfold allocable. rewrite Hk. by rewrite andb_false_r.
    + rewrite orb_false_r in Hg. by apply Hn.
Qed.

Lemma scanned_withhold R R' k t :
  scanned sp s R t → stack_frame sp k = true → (∀ g, R' g = R g || (g =? k)) →
  scanned sp s R' (withhold k t).
Proof.
  intros (Hu & Hn & Hw & Hb) Hst HR. split_and!; [| |by apply words_ok_mark|done].
  - intros g. rewrite used_withhold, Hu, HR. destruct (Z.eqb_spec g k) as [->|].
    + rewrite Hst, orb_true_r. simpl. by rewrite orb_true_r.
    + by rewrite orb_false_r.
  - intros g. rewrite HR. destruct (Z.eqb_spec g k) as [->|]; intros Hg.
    + unfold allocable. by rewrite Hst, andb_false_r.
    + rewrite orb_false_r in Hg. by apply Hn.
Qed.

Lemma scanned_hit R k t :
  scanned sp s R t → k ≠ 0 → used s k = false → stack_frame sp k = false →
  hit sp s R k (set_bitmap (bit_mark (physical_memory_bitmap t) k) t).
Proof.
  intros (Hu & Hn & Hw & Hb) Hk Hus Hst. split_and!; [|done| |by apply words_ok_mark|done].
  - intros g. rewrite used_mark. fold (used t g). rewrite Hu. by rewrite orb_assoc.
  - unfold allocable. rewrite Hus, Hst. lia.
Qed.

Lemma scanned_used R k t : scanned sp s R t → R k = false → used t k = used s k.
Proof. intros (-> & _) ->. apply orb_false_r. Qed.

(** ** The upward scan *)

Lemma alloc_raw_bits_spec i n bit t :
  0 ≤ i → 0 ≤ bit → bit + Z.of_nat n = 64 → scanned sp s (region 1 (i * 64 + bit)) t →
  match alloc_raw_bits sp i n bit t with
  | (None, t') => scanned sp s (region 1 (i * 64 + 64)) t'
  | (Some base, t') =>
      ∃ f, base = f * 4096 ∧ i * 64 + bit ≤ f < i * 64 + 64 ∧ hit sp s (region 1 f) f t'
  end.
Proof.
  intros Hi. revert bit t. induction n as [|n IH]; intros bit t Hbit Hn Hs; cbn [alloc_raw_bits].
  { by replace (i * 64 + 64) with (i * 64 + bit) by lia. }
  assert (∀ t', scanned sp s (region 1 (i * 64 + bit + 1)) t' →
    match alloc_raw_bits sp i n (bit + 1) t' with
    | (None, t') => scanned sp s (region 1 (i * 64 + 64)) t'
    | (Some base, t') =>
        ∃ f, base = f * 4096 ∧ i * 64 + bit ≤ f < i * 64 + 64 ∧ hit sp s (region 1 f) f t'
    end) as Hnext.
  { intros t' Ht'. specialize (IH (bit + 1) t' ltac:(lia) ltac:(lia)).
    rewrite Z.add_assoc in IH. specialize (IH Ht').
    destruct (alloc_raw_bits sp i n (bit + 1) t') as [[base|] t'']; [|done].
    destruct IH as (f & ? & ? & ?). exists f. split_and!; [done|lia|lia|done]. }
  destruct ((i =? 0) && (bit =? 0)) eqn:Hz0.
  { apply Hnext. eapply scanned_ext; [|done]. intros g. unfold region. lia. }
  assert (∀ g, region 1 (i * 64 + bit + 1) g = region 1 (i * 64 + bit) g || (g =? i * 64 + bit))
    as HR by (intros g; unfold region; lia).
  rewrite land_bit_used, (scanned_used _ _ _ Hs) by (unfold region; lia).
  destruct (used s (i * 64 + bit)) eqn:Hus; simpl.
  { apply Hnext. by eapply scanned_skip. }
  destruct (fp_frame_contains ((i * 64 + bit) * 4096) sp) eqn:Hst.
  { apply Hnext. by eapply scanned_withhold. }
  exists (i * 64 + bit). split_and!; [done|lia|lia|]. apply scanned_hit; [done|lia|done..].
Qed.

(** A full word adds nothing to hand out, whichever way the scan runs. *)
Lemma scanned_full_word R R' i t :
  scanned sp s R t → (∀ g, i * 64 ≤ g < i * 64 + 64 → R g = false) →
  (∀ g, R' g = R g || region (i * 64) (i * 64 + 64) g) →
  ((physical_memory_bitmap t).[i] =? WORD_FULL) = true → scanned sp s R' t.
Proof.
  intros Hs Hout HR Hfull. pose proof Hs as (Hu & Hn & Hw & Hb).
  rewrite word_full_iff in Hfull by done.
  assert (∀ g, i * 64 ≤ g < i * 64 + 64 → used s g = true) as Hus.
  { intros g Hg. rewrite <-(scanned_used _ _ _ Hs) by auto. by apply Hfull. }
  split_and!; [| |done|done]; intros g; rewrite HR;
    destruct (region (i * 64) (i * 64 + 64) g) eqn:Hg; unfold region in Hg;
    rewrite ?orb_false_r; auto.
  - intros. rewrite Hu, Hus by lia. done.
  - intros _. unfold allocable. rewrite Hus by lia. by rewrite andb_false_r.
Qed.

Lemma alloc_raw_words_spec n i t :
  0 ≤ i → scanned sp s (region 1 (i * 64)) t →
  match alloc_raw_words sp n i t with
  | (base, t') =>
      (base = 0 ∧ scanned sp s (region 1 ((i + Z.of_nat n) * 64)) t') ∨
      (∃ f, base = f * 4096 ∧ 1 ≤ f < (i + Z.of_nat n) * 64 ∧ hit sp s (region 1 f) f t')
  end.
Proof.
  revert i t. induction n as [|n IH]; intros i t Hi Hs; cbn [alloc_raw_words].
  { left. by rewrite Z.add_0_r. }
  replace (i + Z.of_nat (S n)) with (i + 1 + Z.of_nat n) by lia.
  destruct (_ =? WORD_FULL) eqn:Hfull.
  { apply IH; [lia|]. eapply scanned_full_word; [done| | |done]; intros g; unfold region; lia. }
  pose proof (alloc_raw_bits_spec i 64 0 t Hi ltac:(lia) ltac:(lia)) as Hbits.
  rewrite Z.add_0_r in Hbits. specialize (Hbits Hs).
  destruct (alloc_raw_bits sp i 64 0 t) as [[base|] t'].
  - right. destruct Hbits as (f & -> & Hf & Hh). exists f. split_and!; [done| |lia|done].
    destruct Hh as (_ & _ & Ha & _). unfold allocable in Ha. lia.
  - apply IH; [lia|]. by replace ((i + 1) * 64) with (i * 64 + 64) by lia.
Qed.

(** ** The downward scan *)

Lemma alloc_top_bits_spec i n t :
  0 ≤ i < TOTAL_FRAMES / 64 → (n ≤ 64)%nat →
  scanned sp s (region (i * 64 + Z.of_nat n) TOTAL_FRAMES) t →
  match alloc_top_bits sp i n t with
  | (None, t') => scanned sp s (region (i * 64) TOTAL_FRAMES) t'
  | (Some f, t') => i * 64 ≤ f < i * 64 + 64 ∧ hit sp s (region (f + 1) TOTAL_FRAMES) f t'
  end.
Proof.
  intros Hi. assert (i * 64 + 64 ≤ TOTAL_FRAMES) as Hi64.
  { change (TOTAL_FRAMES / 64) with 16384 in Hi. unfold TOTAL_FRAMES. lia. }
  revert t. induction n as [|n IH]; intros t Hn Hs; cbn [alloc_top_bits].
  { by rewrite Z.add_0_r in Hs. }
  set (f := i * 64 + Z.of_nat n) in *.
  replace (i * 64 + Z.of_nat (S n)) with (f + 1) in Hs by lia.
  destruct (Z.eqb_spec f 0) as [Hf0|Hf0].
  { apply IH; [lia|]. eapply scanned_ext; [|done]. intros g. unfold region. lia. }
  assert (∀ g, region f TOTAL_FRAMES g = region (f + 1) TOTAL_FRAMES g || (g =? f)) as HR.
  { intros g. unfold region. lia. }
  rewrite land_bit_used, negb_involutive by lia. fold f.
  rewrite (scanned_used _ _ _ Hs) by (unfold region; lia).
  destruct (used s f) eqn:Hus.
  { apply IH; [lia|]. by eapply scanned_skip. }
  destruct (fp_frame_contains (f * FRAME_SIZE) sp) eqn:Hst.
  { apply IH; [lia|]. by eapply scanned_withhold. }
  split; [lia|]. by apply scanned_hit.
Qed.

Lemma alloc_top_words_spec n t :
  Z.of_nat n ≤ TOTAL_FRAMES / 64 → scanned sp s (region (Z.of_nat n * 64) TOTAL_FRAMES) t →
  match alloc_top_words sp n t with
  | (None, t') => scanned sp s (region 0 TOTAL_FRAMES) t'
  | (Some f, t') => 0 ≤ f < Z.of_nat n * 64 ∧ hit sp s (region (f + 1) TOTAL_FRAMES) f t'
  end.
Proof.
  revert t. induction n as [|n IH]; intros t Hn Hs; cbn [alloc_top_words]; [done|].
  assert (Z.of_nat n * 64 + 64 ≤ TOTAL_FRAMES) as Hn64.
  { change (TOTAL_FRAMES / 64) with 16384 in Hn. unfold TOTAL_FRAMES. lia. }
  assert (∀ t', scanned sp s (region (Z.of_nat n * 64) TOTAL_FRAMES) t' →
    match alloc_top_words sp n t' with
    | (None, t') => scanned sp s (region 0 TOTAL_FRAMES) t'
    | (Some f, t') => 0 ≤ f < Z.of_nat (S n) * 64 ∧ hit sp s (region (f + 1) TOTAL_FRAMES) f t'
    end) as Hnext.
  { intros t' Ht'. specialize (IH t' ltac:(lia) Ht').
    destruct (alloc_top_words sp n t') as [[f|] t'']; [|done]. split; [lia|apply IH]. }
  destruct (_ =? WORD_FULL) eqn:Hfull.
  { apply Hnext. eapply scanned_full_word; [done| | |done]; intros g; unfold region.
    all: rewrite Nat2Z.inj_succ; clear -Hn64; intros; zcase. }
  pose proof (alloc_top_bits_spec (Z.of_nat n) 64 t ltac:(lia) ltac:(lia)) as Hbits.
  replace (Z.of_nat n * 64 + Z.of_nat 64) with (Z.of_nat (S n) * 64) in Hbits by lia.
  specialize (Hbits Hs).
  destruct (alloc_top_bits sp (Z.of_nat n) 64 t) as [[f|] t']; [|by apply Hnext].
  destruct Hbits. split; [lia|done].
Qed.

End Scan.

Lemma total_words : Z.of_nat (Z.to_nat (TOTAL_FRAMES / 64)) * 64 = TOTAL_FRAMES.
Proof. rewrite Z2Nat.id by (vm_compute; done). done. Qed.

Lemma total_minus_1 : Z.of_nat (Z.to_nat (TOTAL_FRAMES - 1)) = TOTAL_FRAMES - 1.
Proof. apply Z2Nat.id. done. Qed.

Lemma total_nat : Z.of_nat (Z.to_nat TOTAL_FRAMES) = TOTAL_FRAMES.
Proof. apply Z2Nat.id. done. Qed.

Lemma scanned_start sp s : words_ok (physical_memory_bitmap s) → scanned sp s (region 1 0) s.
Proof.
  intros Hw. split_and!; [| |done|done].
  - intros g. replace (region 1 0 g) with false by (unfold region; lia). by rewrite orb_false_r.
  - intros g. unfold region. lia.
Qed.

(** C35: [alloc_raw_frame]'s word-skipping scan is first-fit.  It returns the
    base of the lowest frame in 1 .. TOTAL_FRAMES-1 that is free and does not
    contain the live stack pointer, sets that frame's bit and no other except
    the bit of a lower free frame holding the stack (which is withheld), and
    leaves owners, usage, quotas and watermarks alone; it returns 0 exactly
    when there is no such frame. *)
Theorem alloc_raw_frame_first_fit (sp : Z) (s : FramePool)
    (Hw : words_ok (physical_memory_bitmap s)) :
  match find_up (Z.to_nat (TOTAL_FRAMES - 1)) 1 (allocable sp s) with
  | Some f => fst (alloc_raw_frame sp s) = f * FRAME_SIZE ∧ hit sp s (region 1 f) f (snd (alloc_raw_frame sp s))
  | None => fst (alloc_raw_frame sp s) = 0 ∧
            scanned sp s (region 1 TOTAL_FRAMES) (snd (alloc_raw_frame sp s))
  end.
Proof.
  pose proof (alloc_raw_words_spec sp s (Z.to_nat (TOTAL_FRAMES / 64)) 0 s ltac:(lia)
                (scanned_start sp s Hw)) as H.
  rewrite Z.add_0_l, total_words in H. unfold alloc_raw_frame.
  destruct (alloc_raw_words _ _ _ _) as [base t]; simpl.
  destruct H as [[-> Hs]|(f & -> & Hf & Hh)].
  - replace (find_up _ _ _) with (@None Z); [done|].
    symmetry. apply find_up_None. intros k Hk. rewrite total_minus_1 in Hk.
    apply Hs. unfold region. lia.
  - replace (find_up _ _ _) with (Some f); [done|].
    symmetry. apply find_up_Some. rewrite total_minus_1.
    destruct Hh as (_ & Hn & Ha & _). split_and!; [lia|lia|done|]. intros; apply Hn; unfold region; lia.
Qed.


(** The same facts, as the two outcomes a caller sees. *)
Lemma alloc_raw_frame_cases sp s :
  words_ok (physical_memory_bitmap s) →
  (∃ f t, alloc_raw_frame sp s = (f * FRAME_SIZE, t) ∧ 1 ≤ f < TOTAL_FRAMES ∧ hit sp s (region 1 f) f t) ∨
  (∃ t, alloc_raw_frame sp s = (0, t) ∧ scanned sp s (region 1 TOTAL_FRAMES) t).
Proof.
  intros Hw. pose proof (alloc_raw_words_spec sp s (Z.to_nat (TOTAL_FRAMES / 64)) 0 s ltac:(lia)
                (scanned_start sp s Hw)) as H.
  rewrite Z.add_0_l, total_words in H. unfold alloc_raw_frame.
  destruct (alloc_raw_words _ _ _ _) as [base t]; simpl.
  destruct H as [[-> Hs]|(f & -> & Hf & Hh)]; [right | left]; eauto 10.
Qed.

(** * The accounting invariant *)

Definition owned (s : FramePool) (p f : Z) : bool := used s f && (owner s f =? p).
Definition owned_count (s : FramePool) (p : Z) : Z :=
  count_up (Z.to_nat TOTAL_FRAMES) 0 (owned s p).

(** The invariant of the pool.  A tenant partition is any id but
    PARTITION_SYSTEM, whose counter also absorbs unaccounted frames. *)
Record pool_inv (s : FramePool) : Prop := {
  inv_words : words_ok (physical_memory_bitmap s);
  inv_usage : ∀ p, 1 ≤ p < PARTITION_MAX → usage s p = owned_count s p;
  inv_free_owner : ∀ f, used s f = false → owner s f = PARTITION_SYSTEM
}.

Lemma owned_count_bound s p : 0 ≤ owned_count s p ≤ TOTAL_FRAMES.
Proof. unfold owned_count. pose proof (count_up_bounds (Z.to_nat TOTAL_FRAMES) 0 (owned s p)).
  rewrite total_nat in *. lia. Qed.

Lemma u8_partition x : 0 ≤ x < PARTITION_MAX → u8 x = x.
Proof. intros. by apply Z.mod_small. Qed.

(** Frames that changed hands between two states, when only [f] did. *)
Lemma owned_count_one s t p f :
  0 ≤ f < TOTAL_FRAMES → (∀ g, g ≠ f → owned t p g = owned s p g) →
  owned_count t p = owned_count s p - (if owned s p f then 1 else 0) + (if owned t p f then 1 else 0).
Proof.
  intros Hf Hg. unfold owned_count. apply count_up_upd; [rewrite total_nat; lia|].
  intros k Hk. symmetry. by apply Hg.
Qed.

Lemma owned_count_same s t p :
  (∀ g, owned t p g = owned s p g) → owned_count t p = owned_count s p.
Proof. intros Hg. apply count_up_ext. auto. Qed.

(** Withheld frames belong to nobody, so a tenant's count does not see them. *)
Lemma owned_scanned sp s R t p g :
  pool_inv s → 1 ≤ p → scanned sp s R t → owned t p g = owned s p g.
Proof.
  intros Hi Hp (Hu & _ & _ & Hb). unfold owned, owner. rewrite Hu.
  destruct Hb as (_ & _ & -> & _). fold (owner s g).
  destruct (used s g) eqn:Hg; [done|]. rewrite (inv_free_owner s Hi g Hg).
  replace (PARTITION_SYSTEM =? p) with false by (unfold PARTITION_SYSTEM; lia).
  by rewrite andb_false_r.
Qed.

Lemma pool_inv_scanned sp s R t : pool_inv s → scanned sp s R t → pool_inv t.
Proof.
  intros Hi Hs. pose proof Hs as (Hu & _ & Hw & Hb). split; [done| |].
  - intros p Hp. unfold usage. destruct Hb as (-> & _). fold (usage s p).
    rewrite (inv_usage s Hi) by done. symmetry. apply owned_count_same.
    intros g. by eapply owned_scanned; [|lia|].
  - intros f Hf. unfold owner. destruct Hb as (_ & _ & -> & _).
    apply (inv_free_owner s Hi). rewrite Hu in Hf. by destruct (used s f).
Qed.

Lemma frame_index_of f : f * FRAME_SIZE / FRAME_SIZE = f.
Proof. apply Z.div_mul. done. Qed.

Lemma usage_charge p frame s q :
  usage (charge p frame s) q = if p =? q then u64 (usage s p + 1) else usage s q.
Proof. unfold usage, charge; simpl. by rewrite aget_upd. Qed.

Lemma owner_charge p f s g :
  owner (charge p (f * FRAME_SIZE) s) g = if f =? g then u8 p else owner s g.
Proof. unfold owner, charge; simpl. by rewrite frame_index_of, aget_upd. Qed.

Lemma used_charge p frame s g : used (charge p frame s) g = used s g.
Proof. done. Qed.

(** The frame a scan hands out was free, hence nobody's. *)
Lemma hit_fresh sp s R f t : hit sp s R f t → used s f = false ∧ f ≠ 0 ∧ stack_frame sp f = false.
Proof.
  intros (_ & _ & Ha & _). unfold allocable in Ha.
  destruct (Z.eqb_spec f 0), (used s f), (stack_frame sp f); done.
Qed.

Lemma owned_hit sp s R f t p q g :
  pool_inv s → 1 ≤ q → hit sp s R f t →
  owned (charge p (f * FRAME_SIZE) t) q g =
    if g =? f then u8 p =? q else owned s q g.
Proof.
  intros Hi Hq Hh. pose proof Hh as (Hu & _ & _ & _ & Hb).
  unfold owned. rewrite used_charge, owner_charge, Hu.
  destruct (Z.eqb_spec g f) as [->|Hne]; [by rewrite Z.eqb_refl|].
  replace (f =? g) with false by lia.
  unfold owner. destruct Hb as (_ & _ & -> & _). fold (owner s g). simpl.
  destruct (used s g) eqn:Hg; [done|]. rewrite (inv_free_owner s Hi g Hg).
  replace (PARTITION_SYSTEM =? q) with false by (unfold PARTITION_SYSTEM; lia).
  by rewrite andb_false_r.
Qed.

(** Charging a fresh frame to a partition keeps the books balanced. *)
Lemma pool_inv_charge sp s R f t p :
  pool_inv s → 0 ≤ p < PARTITION_MAX → 0 ≤ f < TOTAL_FRAMES → hit sp s R f t →
  pool_inv (charge p (f * FRAME_SIZE) t).
Proof.
  intros Hi Hp Hf Hh. pose proof Hh as (Hu & _ & _ & Hw & Hb). split; [done| |].
  - intros q Hq. rewrite usage_charge. unfold usage. destruct Hb as (-> & _). fold (usage s p) (usage s q).
    pose proof (owned_count_bound s p). destruct (hit_fresh _ _ _ _ _ Hh) as (Hus & _).
    rewrite (owned_count_one s (charge p (f * FRAME_SIZE) t) q f) by
      (done || (intros g Hg; rewrite (owned_hit sp s R f t) by (done || lia);
                destruct (Z.eqb_spec g f); done)).
    rewrite (owned_hit sp s R f t), Z.eqb_refl, u8_partition by (done || lia).
    replace (owned s q f) with false by (unfold owned; by rewrite Hus).
    destruct (Z.eqb_spec p q) as [->|]; rewrite !(inv_usage s Hi) by done;
      rewrite ?u64_small by (unfold TOTAL_FRAMES in *; lia); lia.
  - intros g. rewrite used_charge, owner_charge, Hu.
    destruct (Z.eqb_spec g f) as [->|]; intros Hg; [done|]. replace (f =? g) with false by lia.
    unfold owner. destruct Hb as (_ & _ & -> & _). apply (inv_free_owner s Hi).
    simpl in Hg. by destruct (used s g).
Qed.

Lemma frame_base_nonzero f : f ≠ 0 → (f * FRAME_SIZE =? 0) = false.
Proof. intros. apply Z.eqb_neq. unfold FRAME_SIZE. lia. Qed.

(** What a partition allocation can do, in either scan direction. *)
Definition alloc_outcome (sp p : Z) (s : FramePool) (r : Z * FramePool) : Prop :=
  (fst r = 0 ∧ (snd r = s ∨ ∃ R, scanned sp s R (snd r))) ∨
  (∃ R f t, r = (f * FRAME_SIZE, charge p (f * FRAME_SIZE) t) ∧ 1 ≤ f < TOTAL_FRAMES ∧
            hit sp s R f t ∧ (quota s p = 0 ∨ usage s p < quota s p)).

Lemma allocate_for_partition_outcome sp p s :
  words_ok (physical_memory_bitmap s) →
  alloc_outcome sp p s (allocate_physical_ram_frame_for_partition sp p s).
Proof.
  intros Hw. unfold allocate_physical_ram_frame_for_partition.
  destruct (PARTITION_MAX <=? p); [left; auto|].
  destruct (negb (quota s p =? 0) && (quota s p <=? usage s p)) eqn:Hq; [left; auto|].
  destruct (alloc_raw_frame_cases sp s Hw) as [(f & t & -> & Hf & Hh)|(t & -> & Hs)].
  - rewrite frame_base_nonzero by lia. right. exists (region 1 f), f, t.
    split_and!; [done|lia|lia|done|lia].
  - left. simpl. split; [done|]. eauto.
Qed.

Lemma allocate_top_outcome sp p s :
  words_ok (physical_memory_bitmap s) →
  alloc_outcome sp p s (allocate_physical_ram_frame_for_partition_top sp p s).
Proof.
  intros Hw. unfold allocate_physical_ram_frame_for_partition_top.
  destruct (PARTITION_MAX <=? p); [left; auto|].
  destruct (negb (quota s p =? 0) && (quota s p <=? usage s p)) eqn:Hq; [left; auto|].
  pose proof (alloc_top_words_spec sp s (Z.to_nat (TOTAL_FRAMES / 64)) s) as H.
  rewrite total_words in H. rewrite Z2Nat.id in H by (vm_compute; done).
  specialize (H ltac:(lia)).
  assert (scanned sp s (region TOTAL_FRAMES TOTAL_FRAMES) s) as H0.
  { apply scanned_ext with (region 1 0); [intros; unfold region; zcase | by apply scanned_start]. }
  specialize (H H0). destruct (alloc_top_words _ _ _) as [[f|] t].
  - destruct H as [Hf Hh]. destruct (hit_fresh _ _ _ _ _ Hh) as (_ & Hf0 & _).
    right. exists (region (f + 1) TOTAL_FRAMES), f, t. split_and!; [done|lia|lia|done|lia].
  - left. simpl. eauto.
Qed.

Lemma pool_inv_outcome sp p s r :
  pool_inv s → 0 ≤ p < PARTITION_MAX → alloc_outcome sp p s r → pool_inv (snd r).
Proof.
  intros Hi Hp [[_ [-> | [R Hs]]]|(R & f & t & -> & Hf & Hh & _)].
  - done.
  - by eapply pool_inv_scanned.
  - simpl. eapply pool_inv_charge; [done|done|lia|done].
Qed.

(** * Contiguous runs *)

Lemma find_aligned_Some n start align nf p r :
  find_aligned n start align nf p = Some r →
  ∃ k, 0 ≤ k ∧ r = start + k * align ∧ r + nf ≤ TOTAL_FRAMES ∧ p r = true ∧
       ∀ j, 0 ≤ j < k → p (start + j * align) = false.
Proof.
  revert start. induction n as [|n IH]; intros start; cbn [find_aligned]; [done|].
  destruct (Z.leb_spec (start + nf) TOTAL_FRAMES); [|done].
  destruct (p start) eqn:Hp.
  - intros [= <-]. exists 0. split_and!; [lia|lia|lia|done|intros; lia].
  - intros (k & Hk & -> & Hr & Hpr & Hj)%IH. exists (k + 1).
    split_and!; [lia|lia|lia| |].
    + replace (start + (k + 1) * align) with (start + align + k * align) by lia. done.
    + intros j Hj'. destruct (Z.eq_dec j 0) as [->|]; [by rewrite Z.add_0_r|].
      replace (start + j * align) with (start + align + (j - 1) * align) by lia. apply Hj. lia.
Qed.

Lemma find_aligned_None n start align nf p :
  0 < align → 0 ≤ nf → TOTAL_FRAMES < start + Z.of_nat n * align →
  find_aligned n start align nf p = None →
  ∀ k, 0 ≤ k → start + k * align + nf ≤ TOTAL_FRAMES → p (start + k * align) = false.
Proof.
  intros Ha Hnf. revert start. induction n as [|n IH]; intros start Hn; cbn [find_aligned].
  { intros _ k Hk Hb. nia. }
  destruct (Z.leb_spec (start + nf) TOTAL_FRAMES) as [Hle|Hgt].
  - destruct (p start) eqn:Hp; [done|]. intros Hnone k Hk Hb.
    destruct (Z.eq_dec k 0) as [->|]; [by rewrite Z.add_0_r|].
    replace (start + k * align) with (start + align + (k - 1) * align) by lia.
    apply IH; [nia|done|lia|lia].
  - intros _ k Hk Hb. nia.
Qed.

Lemma bad_align_pos a : 0 ≤ a → bad_align a = false → 0 < a.
Proof. unfold bad_align. intros. destruct (Z.eqb_spec a 0); [done|lia]. Qed.

(** The state after [claim_frame] has been run over [start .. start + n). *)
Lemma claim_run_spec p n start s :
  let t := for_up n start (claim_frame p) s in
  (∀ g, used t g = ((start <=? g) && (g <? start + Z.of_nat n)) || used s g) ∧
  (∀ g, owner t g = if (start <=? g) && (g <? start + Z.of_nat n) then u8 p else owner s g) ∧
  (words_ok (physical_memory_bitmap s) → words_ok (physical_memory_bitmap t)) ∧
  partition_frame_usage t = partition_frame_usage s ∧
  partition_frame_quota t = partition_frame_quota s.
Proof.
  cbv zeta. apply (for_up_ind (λ j t,
    (∀ g, used t g = ((start <=? g) && (g <? j)) || used s g) ∧
    (∀ g, owner t g = if (start <=? g) && (g <? j) then u8 p else owner s g) ∧
    (words_ok (physical_memory_bitmap s) → words_ok (physical_memory_bitmap t)) ∧
    partition_frame_usage t = partition_frame_usage s ∧
    partition_frame_quota t = partition_frame_quota s)).
  - split_and!; try done; intros g; replace ((start <=? g) && (g <? start)) with false by lia; done.
  - intros j t Hj (Hu & Ho & Hw & Hus & Hq). split_and!; try done.
    + intros g. unfold claim_frame, used; simpl. rewrite bit_mark_spec. fold (used t g).
      rewrite Hu, orb_assoc. f_equal. zcase.
    + intros g. unfold claim_frame, owner; simpl. rewrite aget_upd. fold (owner t g). rewrite Ho.
      zcase.
    + intros. by apply words_ok_mark, Hw.
Qed.

Lemma run_is_usable_spec sp nf s start :
  run_is_usable sp nf s start = true ↔
  (∀ f, start ≤ f < start + Z.of_nat (Z.to_nat nf) → used s f = false ∧ stack_frame sp f = false).
Proof.
  unfold run_is_usable. destruct (find_up _ _ _) as [g|] eqn:Hg.
  - apply find_up_Some in Hg as (Hr & Hb & _). split; [done|]. intros Hall.
    destruct (Hall g) as [Hu Hs]; [lia|]. unfold run_blocker in Hb. rewrite Hu in Hb.
    unfold stack_frame in Hs. by rewrite Hs in Hb.
  - rewrite find_up_None in Hg. split; [|done]. intros _ f Hf. specialize (Hg f ltac:(lia)).
    unfold run_blocker in Hg. by apply orb_false_iff in Hg.
Qed.

(** C36: [allocate_contiguous_frames_for_partition].  On success the run is
    aligned, inside the pool, above frame 0, was entirely free and clear of the
    live stack, becomes owned by the partition frame for frame, and is the
    lowest aligned run with those properties; the partition's usage grows by
    the length of the run and stays within a non-zero quota.  On failure the
    pool is unchanged. *)
Theorem allocate_contiguous_spec (sp p nf align : Z) (s : FramePool) :
  0 ≤ p → 0 ≤ nf → 0 ≤ align → 0 ≤ usage s p ≤ TOTAL_FRAMES →
  let r := allocate_contiguous_frames_for_partition sp p nf align s in
  (fst r = 0 ∧ snd r = s) ∨
  (∃ start, fst r = start * FRAME_SIZE ∧ 1 ≤ start ∧ start + nf ≤ TOTAL_FRAMES ∧
     (align | start) ∧
     (∀ f, start ≤ f < start + nf → used s f = false ∧ stack_frame sp f = false) ∧
     (∀ f, used (snd r) f = ((start <=? f) && (f <? start + nf)) || used s f) ∧
     (∀ f, owner (snd r) f =
           if (start <=? f) && (f <? start + nf) then p else owner s f) ∧
     (∀ lower, align ≤ lower < start → (align | lower) →
        ∃ f, lower ≤ f < lower + nf ∧ (used s f = true ∨ stack_frame sp f = true)) ∧
     usage (snd r) p = usage s p + nf ∧
     (quota s p = 0 ∨ usage (snd r) p ≤ quota s p)).
Proof.
  intros Hp Hnf Hal Hus. cbv zeta. unfold allocate_contiguous_frames_for_partition.
  destruct (Z.leb_spec PARTITION_MAX p) as [|Hp2]; [left; auto|].
  destruct ((nf =? 0) || (TOTAL_FRAMES <? nf)) eqn:Hn; [left; auto|].
  destruct (bad_align align) eqn:Hba; [left; auto|]. apply bad_align_pos in Hba; [|done].
  assert (u64 (usage s p + nf) = usage s p + nf) as Hu64.
  { apply u64_small. unfold TOTAL_FRAMES in *. lia. }
  rewrite Hu64.
  destruct (negb (quota s p =? 0) && (quota s p <? usage s p + nf)) eqn:Hq; [left; auto|].
  destruct (find_aligned _ _ _ _ _) as [start|] eqn:Hfa; [|left; auto].
  right. apply find_aligned_Some in Hfa as (k & Hk & Hst & Hb & Hok & Hlow).
  exists start. destruct (claim_run_spec p (Z.to_nat nf) start s) as (Hu & Ho & _ & Hus' & Hq').
  rewrite run_is_usable_spec in Hok. rewrite Z2Nat.id in * by lia. simpl.
  set (t := for_up (Z.to_nat nf) start (claim_frame p) s) in *.
  assert (usage t p = usage s p) as Hut by (unfold usage; by rewrite Hus').
  split_and!; [done|nia|lia| |exact Hok|exact Hu| | | |].
  - exists (k + 1). lia.
  - intros f. rewrite <-(u8_partition p) by lia. apply Ho.
  - intros lower [Hl1 Hl2] [m Hm]. assert (0 ≤ m - 1 < k) as Hmk by nia.
    specialize (Hlow _ Hmk). replace (align + (m - 1) * align) with lower in Hlow by lia.
    unfold run_is_usable in Hlow. destruct (find_up _ _ _) as [f|] eqn:Hf; [|done].
    apply find_up_Some in Hf as (Hr & Hbl & _). exists f. rewrite Z2Nat.id in Hr by lia.
    split; [done|]. unfold run_blocker in Hbl. by apply orb_true_iff.
  - unfold usage at 1; simpl. by rewrite aget_upd_eq, Hut, Hu64.
  - unfold usage at 1; simpl. rewrite aget_upd_eq, Hut, Hu64. lia.
Qed.


Lemma owned_count_claim s p f q :
  used s f = false → 0 ≤ p < PARTITION_MAX → 0 ≤ f < TOTAL_FRAMES →
  owned_count (claim_frame p f s) q = owned_count s q + (if p =? q then 1 else 0).
Proof.
  intros Hu Hp Hf.
  assert (∀ g, owned (claim_frame p f s) q g = if g =? f then p =? q else owned s q g) as Ho.
  { intros g. unfold owned, claim_frame, used, owner; simpl. rewrite bit_mark_spec, aget_upd.
    rewrite u8_partition by done. fold (used s g) (owner s g). rewrite (Z.eqb_sym f g).
    by destruct (g =? f). }
  rewrite (owned_count_one s (claim_frame p f s) q f) by
    (done || (intros g Hg; rewrite Ho; zcase)).
  rewrite Ho, Z.eqb_refl. unfold owned. rewrite Hu. simpl. lia.
Qed.

Lemma owned_count_claim_run s p q n start :
  (∀ f, start ≤ f < start + Z.of_nat n → used s f = false) →
  0 ≤ p < PARTITION_MAX → 0 ≤ start → start + Z.of_nat n ≤ TOTAL_FRAMES →
  owned_count (for_up n start (claim_frame p) s) q =
  owned_count s q + (if p =? q then Z.of_nat n else 0).
Proof.
  intros Hfree Hp Hs Hn. induction n as [|n IH]; [simpl; destruct (p =? q); lia|].
  rewrite for_up_S_r. destruct (claim_run_spec p n start s) as (Hu & _).
  rewrite owned_count_claim, IH by
    (lia || (intros; apply Hfree; lia) || (rewrite Hu, Hfree by lia; zcase)).
  destruct (p =? q); lia.
Qed.

Lemma pool_inv_contiguous sp p nf align s :
  pool_inv s → 0 ≤ p < PARTITION_MAX → 0 ≤ nf → 0 ≤ align →
  pool_inv (snd (allocate_contiguous_frames_for_partition sp p nf align s)).
Proof.
  intros Hi Hp Hnf Hal. unfold allocate_contiguous_frames_for_partition.
  destruct (PARTITION_MAX <=? p); [done|].
  destruct ((nf =? 0) || (TOTAL_FRAMES <? nf)) eqn:Hn; [done|].
  destruct (bad_align align) eqn:Hba; [done|]. apply bad_align_pos in Hba; [|done].
  destruct (negb (quota s p =? 0) && _); [done|].
  destruct (find_aligned _ _ _ _ _) as [start|] eqn:Hfa; [|done]. simpl.
  apply find_aligned_Some in Hfa as (k & Hk & Hst & Hb & Hok & _).
  rewrite run_is_usable_spec in Hok.
  destruct (claim_run_spec p (Z.to_nat nf) start s) as (Hu & Ho & Hw & Hus & _).
  assert (∀ q, owned_count (for_up (Z.to_nat nf) start (claim_frame p) s) q =
               owned_count s q + (if p =? q then nf else 0)) as Hc.
  { intros q. rewrite owned_count_claim_run, Z2Nat.id by
      (lia || nia || (intros; by apply Hok)). done. }
  set (t := for_up _ _ _ _) in *. split; [by apply Hw, Hi| |].
  - intros q Hq. change (owned_count (set_usage _ t) q) with (owned_count t q).
    rewrite Hc. unfold usage at 1; simpl. rewrite aget_upd.
    unfold usage at 1. rewrite Hus. fold (usage s p) (usage s q).
    pose proof (owned_count_bound s p).
    destruct (Z.eqb_spec p q) as [->|]; rewrite !(inv_usage s Hi) by done;
      rewrite ?u64_small by (unfold TOTAL_FRAMES in *; lia); lia.
  - intros f Hf. change (owner t f = PARTITION_SYSTEM). change (used t f = false) in Hf.
    rewrite Hu in Hf. rewrite Ho. destruct (_ && _); [done|]. by apply (inv_free_owner s Hi).
Qed.

(** * Release *)

(** The one effect of a successful [free_raw_frame]. *)
Definition released (f : Z) (s t : FramePool) : Prop :=
  (∀ g, used t g = negb (g =? f) && used s g) ∧
  (∀ g, owner t g = if g =? f then PARTITION_SYSTEM else owner s g) ∧
  (words_ok (physical_memory_bitmap s) → words_ok (physical_memory_bitmap t)) ∧
  partition_frame_usage t = partition_frame_usage s ∧
  partition_frame_quota t = partition_frame_quota s.

Lemma released_intro f s :
  released f s (set_owner (frame_owner s).[f <- u8 PARTITION_SYSTEM]
        (set_bitmap (bit_clear (physical_memory_bitmap s) f) s)).
Proof.
  split_and!; try done.
  - intros g. apply bit_clear_spec.
  - intros g. unfold owner; simpl. rewrite aget_upd, Z.eqb_sym. done.
  - apply words_ok_clear.
Qed.

Lemma free_raw_frame_cases addr s :
  (free_raw_frame addr s = (1, s) ∧
     ¬ (∃ f, addr = f * FRAME_SIZE ∧ 1 ≤ f < TOTAL_FRAMES ∧ used s f = true)) ∨
  (∃ f t, free_raw_frame addr s = (0, t) ∧ addr = f * FRAME_SIZE ∧ f ≠ 0 ∧ f < TOTAL_FRAMES ∧
     used s f = true ∧ released f s t).
Proof.
  unfold free_raw_frame.
  destruct ((addr =? 0) || negb (addr mod FRAME_SIZE =? 0)) eqn:H1.
  { left. split; [done|]. intros (f & -> & Hf & _). rewrite Z.mod_mul in H1 by done.
    rewrite frame_base_nonzero in H1 by lia. done. }
  assert (addr = addr / FRAME_SIZE * FRAME_SIZE) as Ha.
  { apply orb_false_iff in H1 as [_ H1]. apply negb_false_iff, Z.eqb_eq in H1.
    rewrite (Z.div_mod addr FRAME_SIZE) at 1 by done. lia. }
  destruct ((addr / FRAME_SIZE =? 0) || (TOTAL_FRAMES <=? addr / FRAME_SIZE)) eqn:H2.
  { left. split; [done|]. intros (f & -> & Hf & _). rewrite frame_index_of in H2. lia. }
  destruct (used s (addr / FRAME_SIZE)) eqn:H3; simpl.
  - right. exists (addr / FRAME_SIZE). eexists. split_and!; [done|done|lia|lia|done|].
    apply released_intro.
  - left. split; [done|]. intros (f & -> & Hf & Hu). rewrite frame_index_of in H3. congruence.
Qed.

Lemma owned_released f s t p g :
  released f s t → 1 ≤ p → owned t p g = negb (g =? f) && owned s p g.
Proof.
  intros (Hu & Ho & _) Hp. unfold owned. rewrite Hu, Ho.
  destruct (g =? f); simpl; [|done]. unfold PARTITION_SYSTEM. lia.
Qed.

Lemma owned_count_released f s t p :
  released f s t → 1 ≤ p → 0 ≤ f < TOTAL_FRAMES →
  owned_count t p = owned_count s p - (if owned s p f then 1 else 0).
Proof.
  intros Hr Hp Hf. rewrite (owned_count_one s t p f) by
    (done || (intros g Hg; rewrite (owned_released f s t) by done; zcase)).
  rewrite (owned_released f s t p f), Z.eqb_refl by done. simpl. lia.
Qed.

(** C37: releasing a frame for the partition that owns it.  A frame address that
    is zero, misaligned, out of range or not allocated is refused with the pool
    unchanged (so a double free is refused); otherwise the frame becomes free
    and unowned, no other frame changes, and the usage drops by exactly one
    when it was positive. *)
Theorem free_for_partition_spec (frame p : Z) (s : FramePool) :
  0 ≤ p < PARTITION_MAX →
  let r := free_physical_ram_frame_for_partition frame p s in
  (fst r = 1 ∧ snd r = s ∧
     ¬ (∃ f, frame = f * FRAME_SIZE ∧ 1 ≤ f < TOTAL_FRAMES ∧ used s f = true)) ∨
  (∃ f, fst r = 0 ∧ frame = f * FRAME_SIZE ∧ f ≠ 0 ∧ f < TOTAL_FRAMES ∧ used s f = true ∧
     (∀ g, used (snd r) g = negb (g =? f) && used s g) ∧
     (∀ g, owner (snd r) g = if g =? f then PARTITION_SYSTEM else owner s g) ∧
     (∀ q, usage (snd r) q =
           if (q =? p) && (0 <? usage s p) then usage s p - 1 else usage s q) ∧
     free_physical_ram_frame_for_partition frame p (snd r) = (1, snd r)).
Proof.
  intros Hp. cbv zeta. unfold free_physical_ram_frame_for_partition.
  replace (PARTITION_MAX <=? p) with false by lia.
  destruct (free_raw_frame_cases frame s) as [[-> Hno]|(f & t & -> & -> & Hf0 & Hf & Hu & Hr)].
  { left. split_and!; [done..|exact Hno]. }
  right. exists f. simpl. pose proof Hr as (Hut & Hot & _ & Hus & _).
  assert (∀ q, usage t q = usage s q) as Hq by (intros; unfold usage; by rewrite Hus).
  split_and!; try done.
  - intros g. destruct (0 <? usage t p); apply Hut.
  - intros g. destruct (0 <? usage t p); apply Hot.
  - intros q. rewrite <-!Hq. destruct (Z.ltb_spec 0 (usage t p)) as [Hpos|]; [|by rewrite andb_false_r].
    unfold usage at 1, uncharge; simpl. rewrite aget_upd. fold (usage t q).
    rewrite andb_true_r, Z.eqb_sym. destruct (q =? p); [zcase|done].
  - destruct (free_raw_frame_cases (f * FRAME_SIZE)
      (if 0 <? usage t p then uncharge p 1 t else t)) as [[-> _]|(f' & t' & _ & He & _ & _ & Hu' & _)];
      [done|]. exfalso. assert (f' = f) as -> by (unfold FRAME_SIZE in He; lia).
    destruct (0 <? usage t p); change (used t f = true) in Hu'; rewrite Hut, Z.eqb_refl in Hu'; done.
Qed.


(** * Reclamation *)

(** A frame the sweep for partition [p] takes back. *)
Definition reclaimable (s : FramePool) (p f : Z) : bool :=
  negb (frame_pool_frame_is_machine_owned s f) && owned s p f.

(** What the sweep has done once it reaches frame [j]. *)
Definition swept (p : Z) (s : FramePool) (j : Z) (st : Z * FramePool) : Prop :=
  (∀ g, used (snd st) g = used s g && negb ((1 <=? g) && (g <? j) && reclaimable s p g)) ∧
  (∀ g, owner (snd st) g =
        if (1 <=? g) && (g <? j) && reclaimable s p g then PARTITION_SYSTEM else owner s g) ∧
  (∀ g, frame_pool_frame_is_machine_owned (snd st) g = frame_pool_frame_is_machine_owned s g) ∧
  fst st = count_up (Z.to_nat (j - 1)) 1 (reclaimable s p) ∧
  (words_ok (physical_memory_bitmap s) → words_ok (physical_memory_bitmap (snd st))) ∧
  partition_frame_usage (snd st) = partition_frame_usage s.

Lemma region_S j (R : Z → bool) g :
  1 ≤ j → (1 <=? g) && (g <? j + 1) && R g = (1 <=? g) && (g <? j) && R g || (g =? j) && R j.
Proof.
  intros Hj. destruct (Z.eqb_spec g j) as [->|].
  - replace (1 <=? j) with true by lia. replace (j <? j + 1) with true by lia.
    replace (j <? j) with false by lia. done.
  - replace (g <? j + 1) with (g <? j) by zcase. by rewrite orb_false_r.
Qed.

Lemma swept_step p s j st :
  0 ≤ p < PARTITION_MAX → 1 ≤ j → swept p s j st → swept p s (j + 1) (reclaim_one p j st).
Proof.
  intros Hp Hj (Hu & Ho & Hm & Hc & Hw & Hus). destruct st as [freed t]; simpl in *.
  assert (count_up (Z.to_nat (j + 1 - 1)) 1 (reclaimable s p) =
          freed + (if reclaimable s p j then 1 else 0)) as Hcount.
  { replace (Z.to_nat (j + 1 - 1)) with (Z.to_nat (j - 1) + 1)%nat by lia.
    rewrite count_up_app, <-Hc. simpl. rewrite Z2Nat.id by lia.
    replace (1 + (j - 1)) with j by lia. lia. }
  clear Hc. assert (used t j = used s j ∧ owner t j = owner s j) as [Huj Hoj].
  { rewrite Hu, Ho, Z.ltb_irrefl, andb_false_r. split; [apply andb_true_r | reflexivity]. }
  unfold swept. rewrite Hcount. clear Hcount.
  assert (reclaimable s p j = negb (frame_pool_frame_is_machine_owned s j) &&
           (used s j && (owner s j =? p))) as Hrc by done.
  pose proof (λ g, region_S j (reclaimable s p) g Hj) as Hreg.
  setoid_rewrite Hreg. clear Hreg.
  unfold reclaim_one. rewrite Hm, Hoj, Huj, u8_partition by done.
  destruct (reclaimable s p j) eqn:Hyes.
  - destruct (frame_pool_frame_is_machine_owned s j), (used s j), (owner s j =? p); try done.
    simpl. split_and!; try done.
    + intros g. rewrite andb_true_r. unfold used at 1; simpl. rewrite bit_clear_spec.
      fold (used t g). rewrite Hu. by destruct (g =? j), (used s g), ((1 <=? g) && _ && _).
    + intros g. rewrite andb_true_r. unfold owner at 1; simpl. rewrite aget_upd.
      fold (owner t g). rewrite Ho, (Z.eqb_sym j g). by destruct (g =? j), ((1 <=? g) && _ && _).
    + intros. by apply words_ok_clear, Hw.
  - replace (if frame_pool_frame_is_machine_owned s j then _ else _) with (freed, t) by
      (destruct (frame_pool_frame_is_machine_owned s j), (used s j), (owner s j =? p); done).
    simpl. split_and!; try done; try lia;
      intros g; rewrite andb_false_r, orb_false_r; [apply Hu | apply Ho].
Qed.

Lemma reclaim_swept p s :
  0 ≤ p < PARTITION_MAX →
  swept p s TOTAL_FRAMES
    (for_up (Z.to_nat (TOTAL_FRAMES - 1)) 1 (reclaim_one p) (0, s)).
Proof.
  intros Hp. replace TOTAL_FRAMES with (1 + Z.of_nat (Z.to_nat (TOTAL_FRAMES - 1))) at 1
    by (rewrite total_minus_1; lia).
  apply (for_up_ind (swept p s)).
  - split_and!; try done; intros g; replace ((1 <=? g) && (g <? 1)) with false by lia;
      [by rewrite andb_true_r | done].
  - intros j st Hj. apply swept_step; lia || done.
Qed.

Lemma swept_total p s st :
  swept p s TOTAL_FRAMES st →
  let t := set_usage (partition_frame_usage (snd st)).[p <- 0] (snd st) in
  (∀ g, 1 ≤ g < TOTAL_FRAMES →
     used t g = used s g && negb (reclaimable s p g) ∧
     owner t g = if reclaimable s p g then PARTITION_SYSTEM else owner s g) ∧
  (∀ g, 1 ≤ g < TOTAL_FRAMES → p ≠ PARTITION_SYSTEM → reclaimable t p g = false) ∧
  (∀ q, usage t q = if q =? p then 0 else usage s q) ∧
  u32 (fst st) = count_up (Z.to_nat (TOTAL_FRAMES - 1)) 1 (reclaimable s p).
Proof.
  intros (Hu & Ho & Hm & Hc & _ & Hus). cbv zeta.
  assert (∀ g, 1 ≤ g < TOTAL_FRAMES →
     used (snd st) g = used s g && negb (reclaimable s p g) ∧
     owner (snd st) g = if reclaimable s p g then PARTITION_SYSTEM else owner s g) as Hg.
  { intros g Hg. rewrite Hu, Ho. replace ((1 <=? g) && (g <? TOTAL_FRAMES)) with true by lia.
    split; reflexivity. }
  split_and!.
  - exact Hg.
  - intros g Hr Hsys.
    change (negb (frame_pool_frame_is_machine_owned (snd st) g) &&
            (used (snd st) g && (owner (snd st) g =? p)) = false).
    destruct (Hg g Hr) as [-> ->]. rewrite Hm. unfold reclaimable, owned.
    destruct (frame_pool_frame_is_machine_owned s g), (used s g); simpl; try done.
    destruct (owner s g =? p) eqn:E; simpl; [done | by rewrite E].
  - intros q. unfold usage at 1; simpl. rewrite aget_upd, Hus, Z.eqb_sym. done.
  - rewrite <-Hc. apply Z.mod_small. rewrite Hc.
    pose proof (count_up_bounds (Z.to_nat (TOTAL_FRAMES - 1)) 1 (reclaimable s p)) as Hb.
    rewrite total_minus_1 in Hb. unfold TOTAL_FRAMES in *. lia.
Qed.

(** [partition_reclaim_all_frames].  Afterwards the partition owns no
    reclaimable frame: every frame it owned outside the machine's own ranges is
    free and unowned, every other frame (other partitions' and the boot
    reservations') is untouched, its usage counter reads 0, and the returned
    number is exactly how many frames were given back. *)
Theorem reclaim_all_spec (p : Z) (s : FramePool) :
  0 ≤ p < PARTITION_MAX →
  let r := partition_reclaim_all_frames p s in
  (∀ g, 1 ≤ g < TOTAL_FRAMES →
     used (snd r) g = used s g && negb (reclaimable s p g) ∧
     owner (snd r) g = if reclaimable s p g then PARTITION_SYSTEM else owner s g) ∧
  (∀ g, 1 ≤ g < TOTAL_FRAMES → p ≠ PARTITION_SYSTEM → reclaimable (snd r) p g = false) ∧
  (∀ q, usage (snd r) q = if q =? p then 0 else usage s q) ∧
  fst r = count_up (Z.to_nat (TOTAL_FRAMES - 1)) 1 (reclaimable s p).
Proof.
  intros Hp. cbv zeta. unfold partition_reclaim_all_frames.
  replace (PARTITION_MAX <=? p) with false by lia.
  exact (swept_total p s _ (reclaim_swept p s Hp)).
Qed.

