(* ===== verification/FramePoolInv.v ===== *)
(** The frame pool as a state machine: every operation of [FramePool.v] as a
    step, the accounting invariant over all reachable pools, the machine's own
    frames staying out of every tenant's hands, and quota enforcement. *)

From stdpp Require Import base gmap list list_numbers.
From Stdlib Require Import ZArith Lia Bool.
From S2P Require Import Prelude FramePool FramePoolSpec.
#[local] Open Scope Z_scope.
#[local] Open Scope carr_scope.

#[local] Opaque Z.to_nat Z.div Z.modulo.

(** * The invariant *)

(** A frame inside one of the machine's own ranges is allocated and tagged
    PARTITION_SYSTEM, and frame 0 is nobody's, so no tenant can hold them or be
    handed them. *)
Definition machine_inv (s : FramePool) : Prop :=
  owner s 0 = PARTITION_SYSTEM ∧
  ∀ f, 0 ≤ f < TOTAL_FRAMES → frame_pool_frame_is_machine_owned s f = true →
       used s f = true ∧ owner s f = PARTITION_SYSTEM.

Definition same_marks (s t : FramePool) : Prop :=
  ∀ f, frame_pool_frame_is_machine_owned t f = frame_pool_frame_is_machine_owned s f.

Definition fp_ok (s : FramePool) : Prop := pool_inv s ∧ machine_inv s.

(** Boot: nothing has been handed to a tenant yet. *)
Definition booting (s : FramePool) : Prop := ∀ f, owner s f = PARTITION_SYSTEM.

Lemma same_marks_books s t : same_books s t → same_marks s t.
Proof.
  intros (_ & _ & _ & E1 & E2 & E3 & E4) f. unfold frame_pool_frame_is_machine_owned.
  by rewrite E1, E2, E3, E4.
Qed.

(** Machine frames survive any change that leaves allocated SYSTEM frames alone. *)
Lemma machine_inv_keep s t :
  machine_inv s → same_marks s t → owner t 0 = owner s 0 →
  (∀ f, 0 ≤ f < TOTAL_FRAMES → used s f = true → owner s f = PARTITION_SYSTEM →
        frame_pool_frame_is_machine_owned s f = true →
        used t f = true ∧ owner t f = PARTITION_SYSTEM) →
  machine_inv t.
Proof.
  intros [H0 Hm] Hs E0 Hk. split; [congruence|]. intros f Hf Hmo. rewrite Hs in Hmo.
  destruct (Hm f Hf Hmo). by apply Hk.
Qed.

(** * Allocation *)

Lemma machine_inv_outcome sp p s r :
  machine_inv s → alloc_outcome sp p s r → machine_inv (snd r).
Proof.
  intros Hm [[_ [-> | [R (Hu & _ & _ & Hb)]]]|(R & f & t & -> & Hf & Hh & _)]; [done| |].
  - apply (machine_inv_keep s); [exact Hm|exact (same_marks_books _ _ Hb)| |].
    { unfold owner. by destruct Hb as (_ & _ & -> & _). }
    intros g Hg Hus Ho _. rewrite Hu, Hus. unfold owner. destruct Hb as (_ & _ & -> & _). done.
  - destruct (hit_fresh _ _ _ _ _ Hh) as (Hfree & _). destruct Hh as (Hu & _ & _ & _ & Hb).
    apply (machine_inv_keep s); [exact Hm|exact (same_marks_books _ _ Hb)| |].
    { simpl. rewrite owner_charge. replace (f =? 0) with false by lia.
      unfold owner. by destruct Hb as (_ & _ & -> & _). }
    intros g Hg Hus Ho _. simpl. rewrite used_charge, owner_charge, Hu, Hus, orb_true_r.
    replace (f =? g) with false by (symmetry; apply Z.eqb_neq; congruence).
    unfold owner. destruct Hb as (_ & _ & -> & _). done.
Qed.

Lemma fp_ok_outcome sp p s r :
  fp_ok s → 0 ≤ p < PARTITION_MAX → alloc_outcome sp p s r → fp_ok (snd r).
Proof.
  intros [Hi Hm] Hp Ho. split; [by eapply pool_inv_outcome | by eapply machine_inv_outcome].
Qed.

Lemma same_marks_claim_run p n start s : same_marks s (for_up n start (claim_frame p) s).
Proof.
  apply (for_up_ind (λ _ t, same_marks s t)); [done|]. intros j t _ H f. apply H.
Qed.

Lemma fp_ok_contiguous sp p nf align s :
  fp_ok s → 0 ≤ p < PARTITION_MAX → 0 ≤ nf → 0 ≤ align →
  fp_ok (snd (allocate_contiguous_frames_for_partition sp p nf align s)).
Proof.
  intros [Hi Hm] Hp Hnf Hal. split; [by apply pool_inv_contiguous|].
  unfold allocate_contiguous_frames_for_partition.
  destruct (PARTITION_MAX <=? p); [done|].
  destruct ((nf =? 0) || (TOTAL_FRAMES <? nf)); [done|].
  destruct (bad_align align) eqn:Hba; [done|]. destruct (negb (quota s p =? 0) && _); [done|].
  destruct (find_aligned _ _ _ _ _) as [start|] eqn:Hfa; [|done]. simpl.
  apply find_aligned_Some in Hfa as (k & Hk & Hst & _ & Hok & _).
  apply bad_align_pos in Hba; [|done].
  rewrite run_is_usable_spec in Hok.
  destruct (claim_run_spec p (Z.to_nat nf) start s) as (Hu & Ho & _).
  apply (machine_inv_keep s); [exact Hm|exact (same_marks_claim_run p (Z.to_nat nf) start s)| |].
  { change (owner (for_up (Z.to_nat nf) start (claim_frame p) s) 0 = owner s 0). rewrite Ho.
    replace (start <=? 0) with false by nia. done. }
  intros f Hf Hus Hos _. set (t := for_up _ _ _ _) in *.
  change (used t f = true ∧ owner t f = PARTITION_SYSTEM). rewrite Hu, Ho, Hus, orb_true_r.
  destruct ((start <=? f) && (f <? start + Z.of_nat (Z.to_nat nf))) eqn:Hr; [|done].
  apply andb_true_iff in Hr as [?%Z.leb_le ?%Z.ltb_lt].
  destruct (Hok f) as [Hx _]; [done|]. congruence.
Qed.

(** * Release *)

Lemma released_marks f s : same_marks s (set_owner (frame_owner s).[f <- u8 PARTITION_SYSTEM]
        (set_bitmap (bit_clear (physical_memory_bitmap s) f) s)).
Proof. done. Qed.

(** Giving back a frame outside the machine's ranges. *)
Lemma machine_inv_released f s t :
  machine_inv s → same_marks s t → released f s t → f ≠ 0 →
  frame_pool_frame_is_machine_owned s f = false → machine_inv t.
Proof.
  intros Hm Hs (Hu & Ho & _) H0 Hf. apply (machine_inv_keep s); [exact Hm|done| |].
  { rewrite Ho. destruct (Z.eqb_spec 0 f); congruence. }
  intros g Hg Hus Hos Hmo. rewrite Hu, Ho. destruct (Z.eqb_spec g f) as [->|]; [congruence|done].
Qed.

(** The pool after frame [f] has left tenant [p], before the counter is adjusted. *)
Lemma pool_inv_uncharge f p s t u :
  pool_inv s → released f s t → 0 ≤ f < TOTAL_FRAMES → used s f = true →
  owner s f = p → (∀ q, 1 ≤ q → usage u q = if q =? p then usage s q - 1 else usage s q) →
  physical_memory_bitmap u = physical_memory_bitmap t → frame_owner u = frame_owner t →
  pool_inv u.
Proof.
  intros Hi Hr Hf Hus Hop Hu Eb Eo. pose proof Hr as (Hut & Hot & Hw & _).
  split; [rewrite Eb; apply Hw, Hi| |].
  - intros q Hq. rewrite Hu by lia. rewrite (inv_usage s Hi) by done.
    transitivity (owned_count t q).
    + rewrite (owned_count_released f s t) by (done || lia). unfold owned.
      rewrite Hus, Hop, (Z.eqb_sym p q). simpl. destruct (q =? p); lia.
    + apply owned_count_same. intros g. unfold owned, used, owner. by rewrite Eb, Eo.
  - intros g. unfold used, owner. rewrite Eb, Eo. fold (used t g) (owner t g).
    rewrite Hut, Hot. destruct (g =? f); [done|]. apply (inv_free_owner s Hi).
Qed.

Lemma owned_pos s p f : 0 ≤ f < TOTAL_FRAMES → owned s p f = true → 0 < owned_count s p.
Proof.
  intros Hf Ho. destruct (Z.lt_ge_cases 0 (owned_count s p)) as [|Hle]; [done|].
  pose proof (count_up_upd (Z.to_nat TOTAL_FRAMES) 0 (owned s p)
    (λ k, negb (k =? f) && owned s p k) f) as Hc. rewrite total_nat in Hc.
  rewrite Z.eqb_refl, Ho in Hc.
  pose proof (count_up_bounds (Z.to_nat TOTAL_FRAMES) 0 (λ k, negb (k =? f) && owned s p k)).
  unfold owned_count in Hle. rewrite Hc in H; [simpl in H; lia|lia|].
  intros k Hk. simpl. destruct (Z.eqb_spec k f); [done|done].
Qed.

Lemma tenant_not_machine s f p :
  machine_inv s → 0 ≤ f < TOTAL_FRAMES → owner s f = p → 1 ≤ p →
  frame_pool_frame_is_machine_owned s f = false.
Proof.
  intros Hm Hf Ho Hp. destruct (frame_pool_frame_is_machine_owned s f) eqn:E; [|done].
  destruct (proj2 Hm f Hf E) as [_ Hs]. unfold PARTITION_SYSTEM in Hs. lia.
Qed.

Lemma fp_ok_free p frame s :
  fp_ok s → 1 ≤ p < PARTITION_MAX → 0 ≤ frame → owner s (frame / FRAME_SIZE) = p →
  fp_ok (snd (free_physical_ram_frame_for_partition frame p s)).
Proof.
  intros [Hi Hm] Hp Hfr Ho. unfold free_physical_ram_frame_for_partition.
  replace (PARTITION_MAX <=? p) with false by lia.
  destruct (free_raw_frame_cases frame s) as [[-> _]|(f & t & E & -> & Hf0 & Hf & Hu & Hr)]; [done|].
  assert (same_marks s t) as Hmk.
  { unfold free_raw_frame in E. repeat case_match; simplify_eq. apply released_marks. }
  rewrite E. rewrite frame_index_of in Ho. pose proof Hr as (_ & _ & _ & Hus & _).
  assert (0 ≤ f) by (unfold FRAME_SIZE in Hfr; lia).
  assert (0 < usage t p) as Hpos.
  { unfold usage. rewrite Hus. fold (usage s p). rewrite (inv_usage s Hi) by done.
    apply (owned_pos s p f); [lia|]. unfold owned. rewrite Hu, Ho. apply Z.eqb_refl. }
  simpl. replace (0 <? usage t p) with true by lia. split.
  - apply (pool_inv_uncharge f p s t); try done. intros q Hq.
    unfold usage at 1, uncharge; simpl. rewrite aget_upd, (Z.eqb_sym p q).
    replace (1 <=? usage t p) with true by lia.
    unfold usage. rewrite Hus. by destruct (Z.eqb_spec q p) as [->|].
  - change (machine_inv t). apply (machine_inv_released f s); [done|exact Hmk|exact Hr|done|].
    apply (tenant_not_machine s f p); [done|lia|done|lia].
Qed.

(** * Reclamation *)

Lemma swept_owned p s st q f :
  machine_inv s → swept p s TOTAL_FRAMES st → 0 ≤ f < TOTAL_FRAMES → 1 ≤ p → 1 ≤ q →
  owned (snd st) q f = negb (q =? p) && owned s q f.
Proof.
  intros Hm (Hu & Ho & _) Hf Hp Hq. unfold owned. rewrite Hu, Ho. unfold reclaimable, owned.
  destruct (used s f) eqn:Hus; simpl; [|by rewrite andb_false_r].
  destruct (Z.eqb_spec f 0) as [->|].
  { simpl. rewrite (proj1 Hm). replace (PARTITION_SYSTEM =? q) with false
      by (unfold PARTITION_SYSTEM; lia). by rewrite andb_false_r. }
  replace ((1 <=? f) && (f <? TOTAL_FRAMES)) with true by lia. simpl.
  destruct (Z.eqb_spec (owner s f) p) as [He|He].
  - rewrite (tenant_not_machine s f p) by (done || lia). simpl. rewrite He. zcase.
  - rewrite andb_false_r. simpl. destruct (Z.eqb_spec q p) as [->|]; [|done]. simpl. lia.
Qed.

Lemma fp_ok_reclaim p s :
  fp_ok s → 1 ≤ p < PARTITION_MAX → fp_ok (snd (partition_reclaim_all_frames p s)).
Proof.
  intros [Hi Hm] Hp. unfold partition_reclaim_all_frames.
  replace (PARTITION_MAX <=? p) with false by lia. cbn [snd].
  assert (swept p s TOTAL_FRAMES (for_up (Z.to_nat (TOTAL_FRAMES - 1)) 1 (reclaim_one p) (0, s)))
    as Hsw by (apply reclaim_swept; lia).
  revert Hsw. generalize (for_up (Z.to_nat (TOTAL_FRAMES - 1)) 1 (reclaim_one p) (0, s)).
  intros st Hsw. pose proof Hsw as (Hu & Ho & Hmk & _ & Hw & Hus). split; [split|].
  - apply Hw, Hi.
  - intros q Hq. unfold usage; simpl. rewrite aget_upd, Hus. fold (usage s q).
    change (owned_count (set_usage _ (snd st)) q) with (owned_count (snd st) q).
    rewrite (inv_usage s Hi) by done. unfold owned_count.
    rewrite (count_up_ext _ _ (owned (snd st) q) (λ f, negb (q =? p) && owned s q f)) by
      (intros f Hf; rewrite total_nat in Hf; apply swept_owned; done || lia).
    rewrite Z.eqb_sym. destruct (q =? p); simpl; [|done].
    symmetry. by apply count_up_zero.
  - intros f. change (used (snd st) f = false → owner (snd st) f = PARTITION_SYSTEM).
    rewrite Hu, Ho. destruct (_ && reclaimable s p f); [done|].
    simpl. rewrite andb_true_r. apply (inv_free_owner s Hi).
  - apply (machine_inv_keep s); [done|exact Hmk| |]; change (owner (set_usage _ (snd st))) with (owner (snd st)).
    { by rewrite Ho. }
    intros f Hf Hus' Hos Hmo. change (used (snd st) f = true ∧ owner (snd st) f = PARTITION_SYSTEM).
    rewrite Hu, Ho, Hus', Hos. unfold reclaimable. rewrite Hmo. simpl. by rewrite andb_false_r.
Qed.

(** * Boot reservations *)

Lemma mark_used_spec f s g :
  0 ≤ f → used (fp_mark_used f s) g = ((g =? f) && (f <? TOTAL_FRAMES)) || used s g.
Proof.
  intros Hf. unfold fp_mark_used. destruct (Z.leb_spec TOTAL_FRAMES f).
  { replace (f <? TOTAL_FRAMES) with false by lia. by rewrite andb_false_r. }
  replace (f <? TOTAL_FRAMES) with true by lia. rewrite andb_true_r.
  destruct (used s f) eqn:Hu; [|apply used_mark].
  destruct (Z.eqb_spec g f) as [->|]; [by rewrite Hu|done].
Qed.

(** The frames a reservation of [lo .. hi) touches. *)
Definition within (lo hi g : Z) : bool := (lo <=? g) && (g <? hi) && (g <? TOTAL_FRAMES).

(** A run of [fp_mark_used] sets bits and nothing else of interest. *)
Lemma mark_run_spec n lo s :
  0 ≤ lo →
  let t := for_up n lo fp_mark_used s in
  (∀ g, used t g = within lo (lo + Z.of_nat n) g || used s g) ∧
  (words_ok (physical_memory_bitmap s) → words_ok (physical_memory_bitmap t)) ∧ same_books s t.
Proof.
  intros Hlo. cbv zeta. apply (for_up_ind (λ j t,
    (∀ g, used t g = within lo j g || used s g) ∧
    (words_ok (physical_memory_bitmap s) → words_ok (physical_memory_bitmap t)) ∧ same_books s t)).
  - split_and!; try done. intros g. by replace (within lo lo g) with false by (unfold within; lia).
  - intros j t Hj (Hu & Hw & Hb). split_and!.
    + intros g. rewrite mark_used_spec, Hu by lia. rewrite orb_assoc. f_equal. unfold within. zcase.
    + intros H. unfold fp_mark_used. destruct (_ <=? _); [by apply Hw|].
      destruct (used t j); [by apply Hw|]. by apply words_ok_mark, Hw.
    + unfold fp_mark_used. destruct (_ <=? _); [done|]. by destruct (used t j).
Qed.

(** While booting, marking a run keeps the books: nobody owns those frames. *)
Lemma pool_inv_marked s t (R : Z → bool) :
  pool_inv s → booting s → (∀ g, used t g = R g || used s g) →
  (words_ok (physical_memory_bitmap s) → words_ok (physical_memory_bitmap t)) →
  same_books s t → pool_inv t ∧ booting t.
Proof.
  intros Hi Hbt Hu Hw (Eu & _ & Eo & _).
  assert (booting t) as Hb' by (intros f; unfold owner; rewrite Eo; apply Hbt).
  split; [split|done].
  - apply Hw, Hi.
  - intros q Hq. unfold usage. rewrite Eu. fold (usage s q). rewrite (inv_usage s Hi) by done.
    unfold owned_count. rewrite !count_up_zero; [done| |]; intros k _; unfold owned;
      rewrite ?Hbt, ?Hb'; replace (PARTITION_SYSTEM =? q) with false
        by (unfold PARTITION_SYSTEM; lia); by rewrite andb_false_r.
  - intros f _. apply Hb'.
Qed.

(** New watermarks are sound when every frame they add has its bit set. *)
Lemma machine_inv_marks lo hi clo chi s t :
  machine_inv s → booting s → (∀ g, used s g = true → used t g = true) →
  frame_owner t = frame_owner s →
  (∀ f, 0 ≤ f < TOTAL_FRAMES → f < lo → f < reserved_below s ∨ used t f = true) →
  (∀ f, 0 ≤ f < TOTAL_FRAMES → hi ≤ f → reserved_above s ≤ f ∨ used t f = true) →
  (∀ f, 0 ≤ f < TOTAL_FRAMES → clo ≤ f < chi →
        contig_lo_frame s ≤ f < contig_hi_frame s ∨ used t f = true) →
  machine_inv (set_marks lo hi clo chi t).
Proof.
  intros [H0 Hm] Hbt Hus Eo Hlo Hhi Hc.
  assert (∀ f, owner (set_marks lo hi clo chi t) f = PARTITION_SYSTEM) as Ho.
  { intros f. unfold owner; simpl. rewrite Eo. apply Hbt. }
  split; [apply Ho|]. intros f Hf Hmo. split; [|apply Ho].
  change (used t f = true).
  unfold frame_pool_frame_is_machine_owned in Hmo; simpl in Hmo.
  assert (frame_pool_frame_is_machine_owned s f = true → used t f = true) as Hold.
  { intros E. apply Hus. by apply Hm. }
  unfold frame_pool_frame_is_machine_owned in Hold.
  destruct (Z.ltb_spec f lo) as [Hl|_].
  { destruct (Hlo f Hf Hl); [|done]. apply Hold. by replace (f <? _) with true by lia. }
  destruct (Z.leb_spec hi f) as [Hh|_].
  { destruct (Hhi f Hf Hh); [|done]. apply Hold. replace (reserved_above s <=? f) with true by lia.
    by destruct (f <? _). }
  destruct ((clo <=? f) && (f <? chi)) eqn:E; [|done]. apply andb_true_iff in E as [?%Z.leb_le ?%Z.ltb_lt].
  destruct (Hc f Hf ltac:(lia)) as [?|]; [|done]. apply Hold.
  replace ((contig_lo_frame s <=? f) && (f <? contig_hi_frame s)) with true by lia.
  by repeat case_match.
Qed.

Definition boot_ok (s : FramePool) : Prop := fp_ok s ∧ booting s.

Lemma set_marks_id s :
  set_marks (reserved_below s) (reserved_above s) (contig_lo_frame s) (contig_hi_frame s) s = s.
Proof. by destruct s. Qed.

(** A reservation: mark [lo .. lo + n), then move the watermarks no further
    than the frames just marked. *)
Lemma boot_ok_reserve n lo below above clo chi s :
  boot_ok s → 0 ≤ lo →
  let t := for_up n lo fp_mark_used s in
  (∀ f, 0 ≤ f < TOTAL_FRAMES → f < below → f < reserved_below s ∨ within lo (lo + Z.of_nat n) f) →
  (∀ f, 0 ≤ f < TOTAL_FRAMES → above ≤ f → reserved_above s ≤ f ∨ within lo (lo + Z.of_nat n) f) →
  (∀ f, 0 ≤ f < TOTAL_FRAMES → clo ≤ f < chi →
     contig_lo_frame s ≤ f < contig_hi_frame s ∨ within lo (lo + Z.of_nat n) f) →
  boot_ok (set_marks below above clo chi t).
Proof.
  intros [[Hi Hm] Hbt] Hlo t Hb Ha Hc.
  destruct (mark_run_spec n lo s Hlo) as (Hu & Hw & Hbk). fold t in Hu, Hw, Hbk.
  destruct (pool_inv_marked s t _ Hi Hbt Hu Hw Hbk) as [Hpi Hbt']. clearbody t.
  split; [split|]; [by destruct Hpi| |exact Hbt'].
  apply (machine_inv_marks _ _ _ _ s); [done|done| |by destruct Hbk as (_ & _ & ? & _)| | |].
  - intros g Hg. by rewrite Hu, Hg, orb_true_r.
  - intros f Hf H. destruct (Hb f Hf H) as [|E]; [auto|]. right. rewrite Hu. by apply Is_true_eq_true in E as ->.
  - intros f Hf H. destruct (Ha f Hf H) as [|E]; [auto|]. right. rewrite Hu. by apply Is_true_eq_true in E as ->.
  - intros f Hf H. destruct (Hc f Hf H) as [|E]; [auto|]. right. rewrite Hu. by apply Is_true_eq_true in E as ->.
Qed.

Ltac same_marks_of Hbk :=
  let E1 := fresh in let E2 := fresh in let E3 := fresh in let E4 := fresh in
  destruct Hbk as (_ & _ & _ & E1 & E2 & E3 & E4); rewrite ?E1, ?E2, ?E3, ?E4.

Lemma within_true lo hi f : lo ≤ f → f < hi → f < TOTAL_FRAMES → within lo hi f.
Proof. intros. unfold within. apply Is_true_eq_left. lia. Qed.

Lemma boot_ok_mark_only n lo s :
  boot_ok s → 0 ≤ lo → boot_ok (for_up n lo fp_mark_used s).
Proof.
  intros Hok Hlo. rewrite <-(set_marks_id (for_up n lo fp_mark_used s)).
  destruct (mark_run_spec n lo s Hlo) as (_ & _ & Hbk).
  apply boot_ok_reserve; [done|done|..]; same_marks_of Hbk; auto.
Qed.

Lemma boot_ok_reserve_below e s :
  boot_ok s → boot_ok (frame_pool_reserve_below e s).
Proof.
  intros Hok. unfold frame_pool_reserve_below.
  set (last := if TOTAL_FRAMES <? _ then _ else _).
  destruct (_ <? last) eqn:Hlt; [|by apply boot_ok_mark_only].
  destruct (mark_run_spec (Z.to_nat last) 0 s ltac:(lia)) as (_ & _ & Hbk).
  apply boot_ok_reserve; [done|lia|..]; same_marks_of Hbk; auto.
  intros f Hf Hr. right. apply within_true; lia.
Qed.

Lemma boot_ok_reserve_range lo hi s :
  boot_ok s → 0 ≤ lo → boot_ok (frame_pool_reserve_range lo hi s).
Proof.
  intros Hok Hlo. unfold frame_pool_reserve_range. destruct (hi <=? lo); [done|].
  assert (0 ≤ lo / FRAME_SIZE) as Hf by (by apply Z.div_pos).
  set (last := if TOTAL_FRAMES <? _ then _ else _). set (first := lo / FRAME_SIZE) in *.
  destruct ((_ <? last) && _) eqn:Hlt; [|by apply boot_ok_mark_only].
  apply andb_true_iff in Hlt as [_ Hlt%Z.eqb_eq].
  destruct (mark_run_spec (Z.to_nat (last - first)) first s Hf) as (_ & _ & Hbk).
  apply boot_ok_reserve; [done|done|..]; same_marks_of Hbk; auto.
  intros f Hf' Hr. right. apply within_true; lia.
Qed.

Lemma boot_ok_init ie sb stp s :
  boot_ok s → 0 ≤ sb → boot_ok (frame_pool_init ie sb stp s).
Proof.
  intros Hok Hsb. unfold frame_pool_init.
  assert (boot_ok (frame_pool_reserve_range sb stp (frame_pool_reserve_below ie s))) as H
    by (apply boot_ok_reserve_range, Hsb; by apply boot_ok_reserve_below).
  revert H. generalize (frame_pool_reserve_range sb stp (frame_pool_reserve_below ie s)).
  by intros t [[[] ] ].
Qed.

Lemma boot_ok_limit_ram top s :
  boot_ok s → 0 ≤ top → boot_ok (frame_pool_limit_ram top s).
Proof.
  intros Hok Ht. unfold frame_pool_limit_ram. destruct (top =? 0); [done|].
  assert (0 ≤ top / FRAME_SIZE) as Hf by (by apply Z.div_pos).
  destruct (Z.leb_spec TOTAL_FRAMES (top / FRAME_SIZE)); [done|].
  set (fa := top / FRAME_SIZE) in *.
  destruct (fa <? _) eqn:Hlt; [|by apply boot_ok_mark_only].
  destruct (mark_run_spec (Z.to_nat (TOTAL_FRAMES - fa)) fa s Hf) as (_ & _ & Hbk).
  apply boot_ok_reserve; [done|done|..]; same_marks_of Hbk; auto.
  intros f Hf' Hle. right. apply within_true; lia.
Qed.

(** The first contiguous reservation (the boot has exactly one). *)
Lemma boot_ok_contiguous nf al s :
  boot_ok s → 0 ≤ nf → 0 ≤ al → contig_lo_frame s = TOTAL_FRAMES → contig_hi_frame s = 0 →
  boot_ok (snd (frame_pool_reserve_contiguous nf al s)).
Proof.
  intros Hok Hnf Hal El Eh. unfold frame_pool_reserve_contiguous.
  destruct ((nf =? 0) || (TOTAL_FRAMES <? nf)) eqn:Hn; [done|].
  destruct (bad_align al) eqn:Hba; [done|]. apply bad_align_pos in Hba; [|done].
  destruct (find_aligned _ _ _ _ _) as [start|] eqn:Hfa; [|done].
  apply find_aligned_Some in Hfa as (k & Hk & Hst & Hb & _). cbn [snd].
  assert (0 ≤ start) as H0 by nia.
  destruct (mark_run_spec (Z.to_nat nf) start s H0) as (_ & _ & Hbk).
  apply boot_ok_reserve; [done|done|..]; same_marks_of Hbk; auto.
  rewrite El, Eh. intros f Hf Hr. right. apply within_true; [|destruct (0 <? start + nf) eqn:E| ]; try lia.
  destruct (start <? TOTAL_FRAMES) eqn:E; lia.
Qed.

(** * The pool as a state machine *)

(** One operation on the pool.  Boot reservations happen before any tenant holds
    a frame, the contiguous reservation happens once, and a tenant releases only
    frames it owns; everything else is unconditional. *)
Inductive fp_step : FramePool → FramePool → Prop :=
| step_reserve_below e s :
    booting s → fp_step s (frame_pool_reserve_below e s)
| step_reserve_range lo hi s :
    booting s → 0 ≤ lo → fp_step s (frame_pool_reserve_range lo hi s)
| step_init ie sb stp s :
    booting s → 0 ≤ sb → fp_step s (frame_pool_init ie sb stp s)
| step_limit_ram top s :
    booting s → 0 ≤ top → fp_step s (frame_pool_limit_ram top s)
| step_reserve_contiguous nf al s :
    booting s → 0 ≤ nf → 0 ≤ al → contig_lo_frame s = TOTAL_FRAMES → contig_hi_frame s = 0 →
    fp_step s (snd (frame_pool_reserve_contiguous nf al s))
| step_alloc sp p s :
    0 ≤ p → fp_step s (snd (allocate_physical_ram_frame_for_partition sp p s))
| step_alloc_top sp p s :
    0 ≤ p → fp_step s (snd (allocate_physical_ram_frame_for_partition_top sp p s))
| step_alloc_contiguous sp p nf al s :
    0 ≤ p → 0 ≤ nf → 0 ≤ al →
    fp_step s (snd (allocate_contiguous_frames_for_partition sp p nf al s))
| step_free p frame s :
    1 ≤ p → 0 ≤ frame → owner s (frame / FRAME_SIZE) = p →
    fp_step s (snd (free_physical_ram_frame_for_partition frame p s))
| step_reclaim p s :
    1 ≤ p → fp_step s (snd (partition_reclaim_all_frames p s))
| step_quota p q s :
    fp_step s (snd (partition_set_frame_quota p q s)).

Inductive fp_reachable : FramePool → Prop :=
| reach_boot : fp_reachable frame_pool_bss
| reach_step s t : fp_reachable s → fp_step s t → fp_reachable t.

Lemma fp_ok_bss : fp_ok frame_pool_bss.
Proof.
  split; [split|split].
  - intros i. unfold frame_pool_bss; simpl. rewrite aget_empty. done.
  - intros p Hp. change (0 = owned_count frame_pool_bss p). symmetry. by apply count_up_zero.
  - done.
  - done.
  - intros f Hf. unfold frame_pool_frame_is_machine_owned, frame_pool_bss; simpl.
    replace (f <? 0) with false by lia. replace (TOTAL_FRAMES <=? f) with false by lia. done.
Qed.

Lemma fp_ok_step s t : fp_ok s → fp_step s t → fp_ok t.
Proof.
  intros Hok Hs. destruct Hs.
  - by apply boot_ok_reserve_below.
  - by apply boot_ok_reserve_range.
  - by apply boot_ok_init.
  - by apply boot_ok_limit_ram.
  - by apply boot_ok_contiguous.
  - destruct (Z.lt_ge_cases p PARTITION_MAX).
    + apply (fp_ok_outcome sp p s); [done|lia|]. apply allocate_for_partition_outcome, Hok.
    + unfold allocate_physical_ram_frame_for_partition.
      by replace (PARTITION_MAX <=? p) with true by lia.
  - destruct (Z.lt_ge_cases p PARTITION_MAX).
    + apply (fp_ok_outcome sp p s); [done|lia|]. apply allocate_top_outcome, Hok.
    + unfold allocate_physical_ram_frame_for_partition_top.
      by replace (PARTITION_MAX <=? p) with true by lia.
  - destruct (Z.lt_ge_cases p PARTITION_MAX).
    + by apply fp_ok_contiguous.
    + unfold allocate_contiguous_frames_for_partition.
      by replace (PARTITION_MAX <=? p) with true by lia.
  - destruct (Z.lt_ge_cases p PARTITION_MAX).
    + by apply fp_ok_free.
    + unfold free_physical_ram_frame_for_partition.
      by replace (PARTITION_MAX <=? p) with true by lia.
  - destruct (Z.lt_ge_cases p PARTITION_MAX).
    + by apply fp_ok_reclaim.
    + unfold partition_reclaim_all_frames. by replace (PARTITION_MAX <=? p) with true by lia.
  - unfold partition_set_frame_quota. destruct (PARTITION_MAX <=? p); [done|].
    by destruct Hok as [[] ].
Qed.



(** * Quotas *)

Definition within_quota (s : FramePool) (p : Z) : Prop := quota s p = 0 ∨ usage s p ≤ quota s p.

Lemma within_quota_outcome sp p q s r :
  fp_ok s → 1 ≤ q < PARTITION_MAX → 0 ≤ p < PARTITION_MAX →
  alloc_outcome sp p s r → within_quota s q → within_quota (snd r) q.
Proof.
  intros [Hi _] Hq Hp [[_ [-> | [R (_ & _ & _ & Hb)]]]|(R & f & t & -> & Hf & Hh & Hquo)] Hw.
  - done.
  - unfold within_quota, usage, quota. by destruct Hb as (-> & -> & _).
  - destruct Hh as (_ & _ & _ & _ & (Eu & Eq & _)). unfold within_quota; simpl.
    rewrite usage_charge. change (quota (charge p _ t) q) with (quota t q).
    unfold quota, usage. rewrite Eu, Eq. fold (usage s p) (usage s q) (quota s q).
    destruct (Z.eqb_spec p q) as [->|]; [|done].
    pose proof (owned_count_bound s q). rewrite (inv_usage s Hi) in * by done.
    rewrite u64_small by (unfold TOTAL_FRAMES in *; lia). lia.
Qed.

Create Rewrite HintDb fp_books.

Lemma usage_mark_run n lo s :
  partition_frame_usage (for_up n lo fp_mark_used s) = partition_frame_usage s.
Proof.
  apply (for_up_ind (λ _ t, partition_frame_usage t = partition_frame_usage s)); [done|].
  intros j t _ <-. unfold fp_mark_used. by repeat case_match.
Qed.

Lemma usage_reserve_below e s :
  partition_frame_usage (frame_pool_reserve_below e s) = partition_frame_usage s.
Proof. unfold frame_pool_reserve_below. case_match; apply usage_mark_run. Qed.

Lemma usage_reserve_range lo hi s :
  partition_frame_usage (frame_pool_reserve_range lo hi s) = partition_frame_usage s.
Proof.
  unfold frame_pool_reserve_range. case_match; [done|]. case_match; apply usage_mark_run.
Qed.

#[export] Hint Rewrite usage_mark_run usage_reserve_below usage_reserve_range : fp_books.

Lemma usage_free frame p s q :
  0 ≤ usage s p → 0 ≤ p →
  usage (snd (free_physical_ram_frame_for_partition frame p s)) q ≤ usage s q.
Proof.
  intros Hus Hp. unfold free_physical_ram_frame_for_partition.
  destruct (PARTITION_MAX <=? p); [simpl; lia|].
  destruct (free_raw_frame_cases frame s) as [[-> _]|(f & t & -> & _ & _ & _ & _ & Hr)]; [simpl; lia|].
  destruct Hr as (_ & _ & _ & E & _). simpl.
  assert (∀ q, usage t q = usage s q) as Hq by (intros; unfold usage; by rewrite E).
  destruct (Z.ltb_spec 0 (usage t p)); [|rewrite Hq; lia].
  unfold usage at 1, uncharge; simpl. rewrite aget_upd. fold (usage t q). rewrite !Hq in *.
  destruct (Z.eqb_spec p q) as [->|]; [|lia]. zcase.
Qed.

Lemma usage_reclaim p s q :
  0 ≤ p → 0 ≤ usage s p → usage (snd (partition_reclaim_all_frames p s)) q ≤ usage s q.
Proof.
  intros Hp Hus. unfold partition_reclaim_all_frames. destruct (Z.leb_spec PARTITION_MAX p); [simpl; lia|].
  cbn [snd]. assert (partition_frame_usage
    (snd (for_up (Z.to_nat (TOTAL_FRAMES - 1)) 1 (reclaim_one p) (0, s))) = partition_frame_usage s) as E
    by (apply (reclaim_swept p s); lia).
  revert E. generalize (for_up (Z.to_nat (TOTAL_FRAMES - 1)) 1 (reclaim_one p) (0, s)).
  intros st E. unfold usage at 1; simpl. rewrite aget_upd, E. fold (usage s q).
  destruct (Z.eqb_spec p q) as [->|]; lia.
Qed.

Lemma usage_contiguous sp p nf al s :
  let t := snd (allocate_contiguous_frames_for_partition sp p nf al s) in
  partition_frame_usage t = partition_frame_usage s ∨
  (p < PARTITION_MAX ∧
   partition_frame_usage t = (partition_frame_usage s).[p <- u64 (usage s p + nf)] ∧
   partition_frame_quota t = partition_frame_quota s ∧
   (quota s p = 0 ∨ u64 (usage s p + nf) ≤ quota s p)).
Proof.
  cbv zeta. unfold allocate_contiguous_frames_for_partition.
  destruct (Z.leb_spec PARTITION_MAX p); [by left|].
  destruct ((nf =? 0) || _); [by left|]. destruct (bad_align al); [by left|].
  destruct (negb (quota s p =? 0) && _) eqn:Hq; [by left|].
  destruct (find_aligned _ _ _ _ _) as [start|]; [|by left]. right. simpl.
  destruct (claim_run_spec p (Z.to_nat nf) start s) as (_ & _ & _ & E1 & E2).
  unfold usage. rewrite E1, E2. split_and!; [done|done|done|].
  fold (usage s p). apply andb_false_iff in Hq as [Hq%negb_false_iff%Z.eqb_eq|Hq%Z.ltb_ge]; auto.
Qed.

(** C39: no allocation path lets a tenant exceed a non-zero quota.  In a
    reachable pool, any operation that does not change the tenant's quota and
    starts with the tenant within it leaves the tenant within it. *)
Theorem quota_never_exceeded (s t : FramePool) (p : Z) :
  fp_reachable s → fp_step s t → 1 ≤ p < PARTITION_MAX →
  quota t p = quota s p → within_quota s p → within_quota t p.
Proof.
  intros Hr Hs Hp Hq Hw.
  assert (fp_ok s) as Hok by (clear -Hr; induction Hr; [apply fp_ok_bss | by eapply fp_ok_step]).
  assert (∀ q, 1 ≤ q < PARTITION_MAX → 0 ≤ usage s q) as Hnn.
  { intros q H. rewrite (inv_usage s (proj1 Hok)) by done. apply owned_count_bound. }
  assert (usage t p ≤ usage s p → within_quota t p) as Hle.
  { unfold within_quota in *. rewrite Hq. lia. }
  assert (partition_frame_usage t = partition_frame_usage s → within_quota t p) as Heq.
  { intros E. apply Hle. unfold usage. rewrite E. lia. }
  destruct Hs as [e s Hb|lo hi s Hb|ie sb stp s Hb|top s Hb|nf al s Hb|sp p' s Hp'|sp p' s Hp'
                 |sp p' nf al s Hp'|p' frame s Hp' Hf Ho|p' s Hp'|p' q s].
  - apply Heq. by autorewrite with fp_books.
  - apply Heq. by autorewrite with fp_books.
  - apply Heq. unfold frame_pool_init; simpl. by autorewrite with fp_books.
  - apply Heq. unfold frame_pool_limit_ram. repeat case_match; simpl; by autorewrite with fp_books.
  - apply Heq. unfold frame_pool_reserve_contiguous. do 2 (case_match; [done|]).
    destruct (find_aligned _ _ _ _ _); [|done].
    simpl. by autorewrite with fp_books.
  - destruct (Z.lt_ge_cases p' PARTITION_MAX).
    + apply (within_quota_outcome sp p' p s); try done. apply allocate_for_partition_outcome, Hok.
    + apply Heq. unfold allocate_physical_ram_frame_for_partition.
      by replace (PARTITION_MAX <=? p') with true by lia.
  - destruct (Z.lt_ge_cases p' PARTITION_MAX).
    + apply (within_quota_outcome sp p' p s); try done. apply allocate_top_outcome, Hok.
    + apply Heq. unfold allocate_physical_ram_frame_for_partition_top.
      by replace (PARTITION_MAX <=? p') with true by lia.
  - destruct (usage_contiguous sp p' nf al s) as [E|(Hlt & E & Eq & Hquo)]; [by apply Heq|].
    unfold within_quota. rewrite Hq. unfold usage. rewrite E, aget_upd. fold (usage s p).
    destruct (Z.eqb_spec p' p) as [->|]; [exact Hquo|exact Hw].
  - destruct (Z.lt_ge_cases p' PARTITION_MAX).
    + apply Hle, usage_free; [apply Hnn|]; lia.
    + apply Heq. unfold free_physical_ram_frame_for_partition.
      by replace (PARTITION_MAX <=? p') with true by lia.
  - destruct (Z.lt_ge_cases p' PARTITION_MAX).
    + apply Hle, usage_reclaim; [|apply Hnn]; lia.
    + apply Heq. unfold partition_reclaim_all_frames. by replace (PARTITION_MAX <=? p') with true by lia.
  - apply Heq. unfold partition_set_frame_quota. by case_match.
Qed.

