(* ===== verification/FramePoolCount.v ===== *)
(** The system-wide frame counts: Kernighan's [popcount64] counts bits, the
    word-wise sum counts allocated frames, and [frame_pool_free_count] counts
    the frames a scan could consider. *)

From stdpp Require Import base gmap list list_numbers.
From Stdlib Require Import ZArith Lia Bool.
From S2P Require Import Prelude FramePool FramePoolSpec.
#[local] Open Scope Z_scope.
#[local] Open Scope carr_scope.

#[local] Opaque Z.to_nat Z.div Z.modulo.

(** [v & (v - 1)] clears exactly one set bit of a non-zero [v]. *)
Lemma land_pred_clears p :
  ∃ k, 0 ≤ k ∧ Z.testbit (Zpos p) k = true ∧
    ∀ n, 0 ≤ n → Z.testbit (Z.land (Zpos p) (Zpos p - 1)) n =
                 negb (n =? k) && Z.testbit (Zpos p) n.
Proof.
  induction p as [m _|m (k & Hk & Hb & IH)|].
  - exists 0. split_and!; [done|done|]. intros n Hn.
    replace (Zpos m~1 - 1) with (2 * Zpos m) by lia. rewrite Z.land_spec.
    replace (Zpos m~1) with (2 * Zpos m + 1) by lia.
    destruct (Z.eqb_spec n 0) as [->|]; [by rewrite Z.testbit_even_0, andb_false_r|].
    replace n with (Z.succ (n - 1)) by lia.
    rewrite Z.testbit_odd_succ, Z.testbit_even_succ by lia. simpl. by destruct (Z.testbit _ _).
  - exists (k + 1). replace (Zpos m~0) with (2 * Zpos m) by lia.
    split_and!; [lia|rewrite Z.add_1_r, Z.testbit_even_succ; done|]. intros n Hn.
    replace (2 * Zpos m - 1) with (2 * (Zpos m - 1) + 1) by lia. rewrite Z.land_spec.
    destruct (Z.eqb_spec n 0) as [->|]; [by rewrite Z.testbit_even_0, andb_false_r|].
    replace n with (Z.succ (n - 1)) by lia.
    rewrite Z.testbit_odd_succ, Z.testbit_even_succ by lia.
    rewrite <-Z.land_spec, IH by lia. do 2 f_equal. zcase.
  - exists 0. split_and!; [done|done|]. intros n Hn. simpl.
    rewrite Z.testbit_0_l. destruct (Z.eqb_spec n 0) as [->|]; [done|].
    replace n with (Z.succ (n - 1)) by lia. change 1 with (2 * 0 + 1).
    rewrite Z.testbit_odd_succ by lia. by rewrite Z.testbit_0_l.
Qed.

Definition bits64 (v : Z) : Z := count_up 64 0 (Z.testbit v).

Lemma bits64_step v :
  0 < v < 2 ^ 64 → 0 ≤ Z.land v (v - 1) < 2 ^ 64 ∧ bits64 (Z.land v (v - 1)) = bits64 v - 1.
Proof.
  intros Hv. destruct v as [|p|p]; try lia. destruct (land_pred_clears p) as (k & Hk & Hb & Hn).
  assert (k < 64) as Hk64.
  { destruct (Z.lt_ge_cases k 64); [done|]. rewrite (testbit_high _ 64) in Hb by lia. done. }
  split.
  - apply bits_range; [done|]. intros n Hn64. rewrite Hn by lia.
    by rewrite (testbit_high _ 64), andb_false_r by lia.
  - unfold bits64. rewrite (count_up_ext _ _ (Z.testbit (Z.land _ _))
      (λ n, negb (n =? k) && Z.testbit (Zpos p) n)) by (intros; apply Hn; lia).
    rewrite (count_up_upd 64 0 (Z.testbit (Zpos p)) _ k) by
      (lia || (intros n Hne; simpl; by destruct (Z.eqb_spec n k))).
    rewrite Z.eqb_refl, Hb. simpl. lia.
Qed.

Lemma popcount64_loop_spec fuel v c :
  0 ≤ v < 2 ^ 64 → bits64 v ≤ Z.of_nat fuel → popcount64_loop fuel v c = c + bits64 v.
Proof.
  revert v c. induction fuel as [|n IH]; intros v c Hv Hb; cbn [popcount64_loop].
  - pose proof (count_up_bounds 64 0 (Z.testbit v)). unfold bits64 in *. lia.
  - destruct (Z.eqb_spec v 0) as [->|].
    + unfold bits64. rewrite count_up_zero by (intros; apply Z.testbit_0_l). lia.
    + destruct (bits64_step v) as [Hr He]; [lia|]. rewrite IH by lia. lia.
Qed.

Lemma popcount64_bits v : 0 ≤ v < 2 ^ 64 → popcount64 v = bits64 v.
Proof.
  intros Hv. unfold popcount64. rewrite popcount64_loop_spec; [lia|done|].
  pose proof (count_up_bounds 64 0 (Z.testbit v)). unfold bits64. lia.
Qed.

(** [popcount64] returns the number of set bits of any 64-bit word, so its
    [while (v)] loop ends within 64 iterations. *)
Theorem popcount64_spec (v : Z) :
  0 ≤ v < 2 ^ 64 → popcount64 v = count_up 64 0 (Z.testbit v) ∧ 0 ≤ popcount64 v ≤ 64.
Proof.
  intros Hv. rewrite popcount64_bits by done. split; [done|].
  exact (count_up_bounds 64 0 (Z.testbit v)).
Qed.


Lemma bits64_frames s i :
  bits64 (physical_memory_bitmap s).[i] = count_up 64 (i * 64) (used s).
Proof.
  unfold bits64. assert (∀ n k, 0 ≤ k → k + Z.of_nat n ≤ 64 →
    count_up n k (Z.testbit (physical_memory_bitmap s).[i]) = count_up n (i * 64 + k) (used s)) as H.
  { induction n as [|n IH]; intros k Hk Hn; [done|]. cbn [count_up].
    rewrite IH by lia. rewrite Z.add_assoc. do 2 f_equal.
    destruct (frame_word_bit i k) as [E1 E2]; [lia|].
    unfold used. rewrite bit_is_set_testbit, E1, E2. done. }
  rewrite H by lia. by rewrite Z.add_0_r.
Qed.

Lemma allocated_words n s :
  words_ok (physical_memory_bitmap s) →
  for_up n 0 (fun i count => count + popcount64 (physical_memory_bitmap s).[i]) 0 =
  count_up (64 * n) 0 (used s).
Proof.
  intros Hw. induction n as [|n IH]; [done|].
  rewrite for_up_S_r, IH, popcount64_bits, bits64_frames by apply Hw.
  replace (64 * S n)%nat with (64 * n + 64)%nat by lia. rewrite count_up_app.
  do 2 f_equal. lia.
Qed.

Lemma total_64 : (64 * Z.to_nat (TOTAL_FRAMES / 64))%nat = Z.to_nat TOTAL_FRAMES.
Proof.
  apply Nat2Z.inj. rewrite total_nat, Nat2Z.inj_mul, <-total_words at 1.
  change (Z.of_nat 64) with 64. apply Z.mul_comm.
Qed.

Lemma allocated_count_frames s :
  words_ok (physical_memory_bitmap s) →
  frame_pool_allocated_count s = count_up (Z.to_nat TOTAL_FRAMES) 0 (used s).
Proof.
  intros Hw. unfold frame_pool_allocated_count. rewrite allocated_words by done.
  rewrite total_64. reflexivity.
Qed.

Lemma is_reserved_used s f :
  0 ≤ f → frame_pool_is_reserved s f = (TOTAL_FRAMES <=? f) || used s f.
Proof.
  intros Hf. unfold frame_pool_is_reserved. destruct (TOTAL_FRAMES <=? f); [done|]. simpl.
  unfold used. rewrite bit_is_set_testbit. rewrite Z.land_comm.
  assert (∀ x, Z.land 1 x = Z.b2z (Z.testbit x 0)) as Hl.
  { intros x. rewrite Z.land_comm. change 1 with (Z.ones 1).
    rewrite Z.land_ones, Z.bit0_mod by done. done. }
  rewrite Hl, Z.shiftr_spec, Z.add_0_l by done. by destruct (Z.testbit _ _).
Qed.

Lemma total_S : Z.to_nat TOTAL_FRAMES = (1 + Z.to_nat (TOTAL_FRAMES - 1))%nat.
Proof. apply Nat2Z.inj. rewrite total_nat, Nat2Z.inj_add, total_minus_1. reflexivity. Qed.

(** The counts agree with the bitmap.  [frame_pool_allocated_count] is the
    number of frames whose bit is set and [frame_pool_free_count] is exactly the
    number of frames of 1 .. TOTAL_FRAMES-1 whose bit is clear (frame 0, which is
    never handed out, is not counted as free whether or not it is reserved). *)
Theorem frame_counts_spec (s : FramePool) :
  words_ok (physical_memory_bitmap s) →
  frame_pool_allocated_count s = count_up (Z.to_nat TOTAL_FRAMES) 0 (used s) ∧
  frame_pool_free_count s = count_up (Z.to_nat (TOTAL_FRAMES - 1)) 1 (λ f, negb (used s f)).
Proof.
  intros Hw. rewrite <-allocated_count_frames by done. split; [done|].
  unfold frame_pool_free_count. rewrite is_reserved_used, allocated_count_frames, count_up_negb by done.
  rewrite total_minus_1, total_S.
  rewrite count_up_app. change (0 + Z.of_nat 1) with 1. cbn [count_up].
  replace (TOTAL_FRAMES <=? 0) with false by done. cbn [orb].
  destruct (used s 0); lia.
Qed.

