(* ===== verification/FramePoolWitness.v ===== *)
(** Concrete runs of the frame allocator: each theorem of the frame pool applied to
    a small pool, with its hypotheses discharged by evaluation. *)

From stdpp Require Import base gmap list list_numbers.
From Stdlib Require Import ZArith Lia Bool.
From S2P Require Import Prelude FramePool FramePoolSpec FramePoolInv FramePoolCount.
#[local] Open Scope Z_scope.
#[local] Open Scope carr_scope.

Lemma words_ok_sample : words_ok (physical_memory_bitmap sample_pool).
Proof. intros i. simpl. rewrite aget_upd. by destruct (0 =? i). Qed.

Lemma alloc_raw_frame_first_fit_witness :
  fst (alloc_raw_frame 0 sample_pool) = 4 * FRAME_SIZE ∧
  hit 0 sample_pool (region 1 4) 4 (snd (alloc_raw_frame 0 sample_pool)).
Proof. exact (alloc_raw_frame_first_fit 0 sample_pool words_ok_sample). Defined.

Lemma allocate_contiguous_spec_witness :
  let r := allocate_contiguous_frames_for_partition 0 1 2 4 sample_pool in
  fst r = 4 * FRAME_SIZE ∧ (∀ f, owner (snd r) f =
    if (4 <=? f) && (f <? 4 + 2) then 1 else owner sample_pool f).
Proof.
  cbv zeta. assert (fst (allocate_contiguous_frames_for_partition 0 1 2 4 sample_pool) = 4 * FRAME_SIZE)
    as E by reflexivity.
  destruct (allocate_contiguous_spec 0 1 2 4 sample_pool ltac:(lia) ltac:(lia) ltac:(lia) ltac:(done))
    as [[E0 _]|(st & Es & _ & _ & _ & _ & _ & Ho & _)]; rewrite E in *; [done|].
  split; [done|]. assert (st = 4) as -> by (unfold FRAME_SIZE in Es; lia). exact Ho.
Defined.

Lemma free_for_partition_spec_witness :
  let r := free_physical_ram_frame_for_partition (2 * FRAME_SIZE) 1 sample_pool in
  fst r = 0 ∧ used (snd r) 2 = false ∧
  free_physical_ram_frame_for_partition (2 * FRAME_SIZE) 1 (snd r) = (1, snd r).
Proof.
  cbv zeta. destruct (free_for_partition_spec (2 * FRAME_SIZE) 1 sample_pool ltac:(done))
    as [[E _]|(f & E & Ef & _ & _ & _ & Hu & _ & _ & Hd)]; [done|].
  assert (f = 2) as -> by (unfold FRAME_SIZE in Ef; lia). by rewrite Hu.
Defined.

Lemma reclaim_all_spec_witness :
  let r := partition_reclaim_all_frames 1 sample_pool in
  used (snd r) 2 = false ∧ usage (snd r) 1 = 0 ∧
  fst r = count_up (Z.to_nat (TOTAL_FRAMES - 1)) 1 (reclaimable sample_pool 1).
Proof.
  assert (1 ≤ 2 < TOTAL_FRAMES) as H2 by done.
  generalize (reclaim_all_spec 1 sample_pool ltac:(done)). cbv zeta.
  generalize (partition_reclaim_all_frames 1 sample_pool). intros r (Hu & _ & Hq & Hc).
  split; [|split; [rewrite (Hq 1); reflexivity | exact Hc]].
  rewrite (proj1 (Hu 2 H2)). reflexivity.
Defined.

(** A tenant with a quota of one frame that has taken it. *)
Definition sample_quota : FramePool := snd (partition_set_frame_quota 1 1 frame_pool_bss).
Definition sample_run : FramePool :=
  snd (allocate_physical_ram_frame_for_partition 0 1 sample_quota).

Lemma sample_quota_reachable : fp_reachable sample_quota.
Proof. eapply reach_step; [apply reach_boot | apply step_quota]. Qed.

Lemma sample_step : fp_step sample_quota sample_run.
Proof. by apply step_alloc. Qed.


Lemma quota_never_exceeded_witness : within_quota sample_run 1.
Proof.
  apply (quota_never_exceeded sample_quota sample_run 1 sample_quota_reachable sample_step);
    [done|reflexivity|right; done].
Defined.

Lemma popcount64_spec_witness : popcount64 0xF0F1 = 9 ∧ 0 ≤ popcount64 0xF0F1 ≤ 64.
Proof. destruct (popcount64_spec 0xF0F1 ltac:(lia)) as [E Hr]. split; [by rewrite E | exact Hr]. Defined.

Lemma frame_counts_spec_witness :
  frame_pool_allocated_count sample_pool = count_up (Z.to_nat TOTAL_FRAMES) 0 (used sample_pool) ∧
  frame_pool_free_count sample_pool =
    count_up (Z.to_nat (TOTAL_FRAMES - 1)) 1 (λ f, negb (used sample_pool f)).
Proof. exact (frame_counts_spec sample_pool words_ok_sample). Defined.
