(* ===== verification/CapWord.v ===== *)
(** The 64-bit capability word (kernel/cap.h, the word helpers of kernel/cap.c):
    packing, field extraction, the validity check and the REVOKED stamp, with the
    round trip between a word and its fields. *)

From stdpp Require Import base gmap list list_numbers.
From Stdlib Require Import ZArith Lia Bool.
From S2P Require Import Prelude.
#[local] Open Scope Z_scope.

Definition CAP_TYPE_SHIFT : Z := 61.
Definition CAP_TYPE_MASK : Z := 0x7.
Definition CAP_STATE_SHIFT : Z := 57.
Definition CAP_STATE_MASK : Z := 0xF.
Definition CAP_OBJ_SHIFT : Z := 40.
Definition CAP_OBJ_MASK : Z := 0x1FFFF.
Definition CAP_PERM_SHIFT : Z := 32.
Definition CAP_PERM_MASK : Z := 0xFF.
Definition CAP_OFF_SHIFT : Z := 16.
Definition CAP_OFF_MASK : Z := 0xFFFF.
Definition CAP_LEN_SHIFT : Z := 4.
Definition CAP_LEN_MASK : Z := 0xFFF.
Definition CAP_RSVD_MASK : Z := 0xF.

Definition CAP_TYPE_NONE : Z := 0.
Definition CAP_TYPE_MEM : Z := 1.
Definition CAP_TYPE_CHAN_R : Z := 2.
Definition CAP_TYPE_CHAN_W : Z := 3.
Definition CAP_TYPE_TRAMP : Z := 4.
Definition CAP_TYPE_DEV : Z := 5.
Definition CAP_TYPE_IO : Z := 6.
Definition CAP_TYPE_IRQ : Z := 7.

Definition CAP_STATE_VALID : Z := 0.
Definition CAP_STATE_REVOKED : Z := 2.

(** [(w >> SHIFT) & MASK], the way every user of a word reads a field. *)
Definition w_type (w : Z) : Z := Z.land (Z.shiftr w CAP_TYPE_SHIFT) CAP_TYPE_MASK.
Definition w_state (w : Z) : Z := Z.land (Z.shiftr w CAP_STATE_SHIFT) CAP_STATE_MASK.
Definition w_obj (w : Z) : Z := Z.land (Z.shiftr w CAP_OBJ_SHIFT) CAP_OBJ_MASK.
Definition w_perm (w : Z) : Z := Z.land (Z.shiftr w CAP_PERM_SHIFT) CAP_PERM_MASK.
Definition w_off (w : Z) : Z := Z.land (Z.shiftr w CAP_OFF_SHIFT) CAP_OFF_MASK.
Definition w_len (w : Z) : Z := Z.land (Z.shiftr w CAP_LEN_SHIFT) CAP_LEN_MASK.
Definition w_rsvd (w : Z) : Z := Z.land w CAP_RSVD_MASK.

(** [(w >> CAP_PERM_SHIFT) & bits], the unmasked permission test. *)
Definition w_has_perm (w bits : Z) : bool := negb (Z.land (Z.shiftr w CAP_PERM_SHIFT) bits =? 0).

Definition cap_word_make (type obj perms off len : Z) : Z :=
  Z.lor (Z.lor (Z.lor (Z.lor
    (Z.shiftl (Z.land type CAP_TYPE_MASK) CAP_TYPE_SHIFT)
    (Z.shiftl (Z.land obj CAP_OBJ_MASK) CAP_OBJ_SHIFT))
    (Z.shiftl (Z.land perms CAP_PERM_MASK) CAP_PERM_SHIFT))
    (Z.shiftl (Z.land off CAP_OFF_MASK) CAP_OFF_SHIFT))
    (Z.shiftl (Z.land len CAP_LEN_MASK) CAP_LEN_SHIFT).

Definition cap_word_valid (w : Z) : bool :=
  if w_type w =? CAP_TYPE_NONE then false
  else if negb (w_state w =? CAP_STATE_VALID) then false
  else if negb (w_rsvd w =? 0) then false
  else true.

Definition cap_word_stamp_revoked (w : Z) : Z :=
  Z.lor (Z.land w (u64_not (Z.shiftl CAP_STATE_MASK CAP_STATE_SHIFT)))
        (Z.shiftl CAP_STATE_REVOKED CAP_STATE_SHIFT).

(** The word of a free slot: the next free index in the object field. *)
Definition free_word (next : Z) : Z := Z.shiftl next CAP_OBJ_SHIFT.

(** * Field algebra *)

(** A field of [w] bits at [k]. *)
Definition field (x k w : Z) : Z := Z.land (Z.shiftr x k) (Z.ones w).

Lemma field_testbit x k w n :
  0 ≤ k → 0 ≤ w → 0 ≤ n → Z.testbit (field x k w) n = (n <? w) && Z.testbit x (n + k).
Proof.
  intros Hk Hw Hn. unfold field. rewrite Z.land_spec, Z.shiftr_spec by done.
  destruct (Z.ltb_spec n w).
  - rewrite Z.ones_spec_low by lia. apply andb_true_r.
  - rewrite Z.ones_spec_high by lia. apply andb_false_r.
Qed.

Lemma field_range x k w : 0 ≤ w → 0 ≤ field x k w < 2 ^ w.
Proof.
  intros Hw. unfold field. rewrite Z.land_ones by done. apply Z.mod_pos_bound. lia.
Qed.

Lemma field_lor x y k w : 0 ≤ k → 0 ≤ w → field (Z.lor x y) k w = Z.lor (field x k w) (field y k w).
Proof.
  intros Hk Hw. apply Z.bits_inj'. intros n Hn. rewrite Z.lor_spec, !field_testbit, Z.lor_spec by done.
  by destruct (n <? w), (Z.testbit x (n + k)), (Z.testbit y (n + k)).
Qed.

(** The bits a shifted, masked value occupies. *)
Lemma placed_testbit v j m n :
  0 ≤ j → 0 ≤ m → 0 ≤ n →
  Z.testbit (Z.shiftl (Z.land v (Z.ones m)) j) n = (j <=? n) && (n <? j + m) && Z.testbit v (n - j).
Proof.
  intros Hj Hm Hn. rewrite Z.shiftl_spec by done. rewrite Z.land_spec.
  destruct (Z.leb_spec j n) as [Hle|Hgt]; simpl.
  - destruct (Z.ltb_spec n (j + m)).
    + rewrite Z.ones_spec_low by lia. apply andb_true_r.
    + rewrite Z.ones_spec_high by lia. apply andb_false_r.
  - rewrite !Z.testbit_neg_r by lia. done.
Qed.

Lemma field_same v j m : 0 ≤ j → 0 ≤ m → field (Z.shiftl (Z.land v (Z.ones m)) j) j m = Z.land v (Z.ones m).
Proof.
  intros Hj Hm. apply Z.bits_inj'. intros n Hn.
  rewrite field_testbit, placed_testbit, Z.land_spec by lia.
  replace (n + j - j) with n by lia. replace (j <=? n + j) with true by lia. simpl.
  destruct (Z.ltb_spec n m).
  - rewrite Z.ones_spec_low by lia. replace (n + j <? j + m) with true by lia.
    by rewrite andb_true_r.
  - rewrite Z.ones_spec_high by lia. by rewrite andb_false_r.
Qed.

Lemma field_apart v j m k w :
  0 ≤ j → 0 ≤ m → 0 ≤ k → 0 ≤ w → j + m ≤ k ∨ k + w ≤ j →
  field (Z.shiftl (Z.land v (Z.ones m)) j) k w = 0.
Proof.
  intros Hj Hm Hk Hw Hd. apply Z.bits_inj'. intros n Hn.
  rewrite field_testbit, placed_testbit, Z.testbit_0_l by lia. zcase.
Qed.

Lemma land_mask_small v w : 0 ≤ v < 2 ^ w → Z.land v (Z.ones w) = v.
Proof.
  intros Hv. assert (0 ≤ w) by (destruct (Z.lt_ge_cases w 0); [rewrite Z.pow_neg_r in Hv by done; lia | done]).
  rewrite Z.land_ones by done. by apply Z.mod_small.
Qed.

Ltac fields :=
  change CAP_TYPE_MASK with (Z.ones 3) in *; change CAP_STATE_MASK with (Z.ones 4) in *;
  change CAP_OBJ_MASK with (Z.ones 17) in *; change CAP_PERM_MASK with (Z.ones 8) in *;
  change CAP_OFF_MASK with (Z.ones 16) in *; change CAP_LEN_MASK with (Z.ones 12) in *;
  change CAP_RSVD_MASK with (Z.ones 4) in *.

Lemma w_type_field w : w_type w = field w 61 3.
Proof. done. Qed.
Lemma w_state_field w : w_state w = field w 57 4.
Proof. done. Qed.
Lemma w_obj_field w : w_obj w = field w 40 17.
Proof. done. Qed.
Lemma w_perm_field w : w_perm w = field w 32 8.
Proof. done. Qed.
Lemma w_off_field w : w_off w = field w 16 16.
Proof. done. Qed.
Lemma w_len_field w : w_len w = field w 4 12.
Proof. done. Qed.
Lemma w_rsvd_field w : w_rsvd w = field w 0 4.
Proof. unfold w_rsvd, field. by rewrite Z.shiftr_0_r. Qed.

Create Rewrite HintDb cap_fields.
#[export] Hint Rewrite w_type_field w_state_field w_obj_field w_perm_field w_off_field
  w_len_field w_rsvd_field : cap_fields.

(** Every field of a packed word, before truncation is ruled out. *)
Lemma cap_word_make_fields ty o p f l :
  let w := cap_word_make ty o p f l in
  w_type w = Z.land ty (Z.ones 3) ∧ w_state w = 0 ∧ w_obj w = Z.land o (Z.ones 17) ∧
  w_perm w = Z.land p (Z.ones 8) ∧ w_off w = Z.land f (Z.ones 16) ∧
  w_len w = Z.land l (Z.ones 12) ∧ w_rsvd w = 0.
Proof.
  cbv zeta. autorewrite with cap_fields. unfold cap_word_make. fields.
  unfold CAP_TYPE_SHIFT, CAP_OBJ_SHIFT, CAP_PERM_SHIFT, CAP_OFF_SHIFT, CAP_LEN_SHIFT.
  rewrite !field_lor by lia.
  split_and!;
    repeat first [rewrite field_same by lia | rewrite field_apart by lia];
    rewrite ?Z.lor_0_l, ?Z.lor_0_r; done.
Qed.

Lemma cap_word_make_range ty o p f l : 0 ≤ cap_word_make ty o p f l < 2 ^ 64.
Proof.
  apply bits_range; [lia|]. intros n Hn. unfold cap_word_make. fields.
  unfold CAP_TYPE_SHIFT, CAP_OBJ_SHIFT, CAP_PERM_SHIFT, CAP_OFF_SHIFT, CAP_LEN_SHIFT.
  rewrite !Z.lor_spec, !placed_testbit by lia.
  repeat match goal with |- context [n <? ?b] => replace (n <? b) with false by lia end.
  by rewrite !andb_false_r.
Qed.

(** Packing and unpacking a capability word agree.  Whenever the arguments
    fit their fields, every accessor returns what [cap_word_make] was given, the
    state reads VALID and the reserved tag bits are zero. *)
Theorem cap_word_roundtrip (ty o p f l : Z) :
  0 ≤ ty < 2 ^ 3 → 0 ≤ o < 2 ^ 17 → 0 ≤ p < 2 ^ 8 → 0 ≤ f < 2 ^ 16 → 0 ≤ l < 2 ^ 12 →
  let w := cap_word_make ty o p f l in
  w_type w = ty ∧ w_state w = CAP_STATE_VALID ∧ w_obj w = o ∧ w_perm w = p ∧
  w_off w = f ∧ w_len w = l ∧ w_rsvd w = 0 ∧ 0 ≤ w < 2 ^ 64.
Proof.
  intros Ht Ho Hp Hf Hl w.
  destruct (cap_word_make_fields ty o p f l) as (E1 & E2 & E3 & E4 & E5 & E6 & E7).
  fold w in E1, E2, E3, E4, E5, E6, E7.
  rewrite land_mask_small in E1, E3, E4, E5, E6 by done.
  split_and!; try done; apply cap_word_make_range.
Qed.

Lemma cap_word_roundtrip_witness :
  w_obj (cap_word_make CAP_TYPE_MEM 1023 15 7 4095) = 1023 ∧
  w_len (cap_word_make CAP_TYPE_MEM 1023 15 7 4095) = 4095.
Proof.
  destruct (cap_word_roundtrip CAP_TYPE_MEM 1023 15 7 4095 ltac:(done) ltac:(done) ltac:(done)
    ltac:(done) ltac:(done)) as (_ & _ & Ho & _ & _ & Hl & _). split; [exact Ho | exact Hl].
Defined.


Lemma cap_word_make_valid ty o p f l :
  0 < ty < 2 ^ 3 → cap_word_valid (cap_word_make ty o p f l) = true.
Proof.
  intros Ht. destruct (cap_word_make_fields ty o p f l) as (E1 & E2 & _ & _ & _ & _ & E7).
  unfold cap_word_valid. rewrite E1, E2, E7, land_mask_small by lia.
  unfold CAP_TYPE_NONE. by replace (ty =? 0) with false by lia.
Qed.

Lemma stamp_testbit w n :
  0 ≤ w < 2 ^ 64 → 0 ≤ n →
  Z.testbit (cap_word_stamp_revoked w) n =
    if (57 <=? n) && (n <? 61) then n =? 58 else Z.testbit w n.
Proof.
  intros Hw Hn. unfold cap_word_stamp_revoked, u64_not. fields.
  rewrite Z.lor_spec, Z.land_spec, Z.lxor_spec.
  replace (2 ^ 64 - 1) with (Z.ones 64) by done.
  rewrite (Z.shiftl_spec (Z.ones 4)) by done.
  replace (Z.shiftl CAP_STATE_REVOKED CAP_STATE_SHIFT) with (Z.shiftl 1 58) by done.
  rewrite shiftl_1_testbit by lia. unfold CAP_STATE_SHIFT.
  assert (Z.testbit (Z.ones 4) (n - 57) = (57 <=? n) && (n <? 61)) as ->.
  { destruct (Z.leb_spec 57 n); simpl.
    - rewrite Z.testbit_ones by lia. zcase.
    - by rewrite Z.testbit_neg_r by lia. }
  rewrite Z.testbit_ones by lia.
  destruct ((57 <=? n) && (n <? 61)) eqn:E.
  - replace ((0 <=? n) && (n <? 64)) with true by lia. simpl. by rewrite andb_false_r.
  - replace (n =? 58) with false by lia. rewrite orb_false_r.
    destruct (Z.ltb_spec n 64).
    + replace (0 <=? n) with true by lia. simpl. apply andb_true_r.
    + by rewrite (testbit_high w 64) by lia.
Qed.

Lemma stamp_field w k m :
  0 ≤ w < 2 ^ 64 → 0 ≤ k → 0 ≤ m → k + m ≤ 57 ∨ 61 ≤ k →
  field (cap_word_stamp_revoked w) k m = field w k m.
Proof.
  intros Hw Hk Hm Hd. apply Z.bits_inj'. intros n Hn. rewrite !field_testbit by done.
  destruct (Z.ltb_spec n m); [|done]. simpl. rewrite stamp_testbit by lia.
  by replace ((57 <=? n + k) && (n + k <? 61)) with false by lia.
Qed.

Lemma stamp_state w : 0 ≤ w < 2 ^ 64 → w_state (cap_word_stamp_revoked w) = CAP_STATE_REVOKED.
Proof.
  intros Hw. rewrite w_state_field. apply Z.bits_inj'. intros n Hn. rewrite field_testbit by done.
  destruct (Z.ltb_spec n 4); simpl.
  - rewrite stamp_testbit by lia. replace ((57 <=? n + 57) && (n + 57 <? 61)) with true by lia.
    assert (n = 0 ∨ n = 1 ∨ n = 2 ∨ n = 3) as [-> | [-> | [-> | ->]]] by lia; done.
  - symmetry. by apply (testbit_high _ 4).
Qed.

(** The REVOKED stamp makes any word unusable and changes nothing else: the
    stamped word is refused by [cap_word_valid], its state reads REVOKED, and its
    type, object, permissions, offset, length and tag bits are those of the
    original. *)
Theorem stamp_revoked_spec (w : Z) :
  0 ≤ w < 2 ^ 64 →
  let w' := cap_word_stamp_revoked w in
  cap_word_valid w' = false ∧ w_state w' = CAP_STATE_REVOKED ∧ w_type w' = w_type w ∧
  w_obj w' = w_obj w ∧ w_perm w' = w_perm w ∧ w_off w' = w_off w ∧ w_len w' = w_len w ∧
  w_rsvd w' = w_rsvd w.
Proof.
  intros Hw w'. assert (w_state w' = CAP_STATE_REVOKED) as Hs by (by apply stamp_state).
  split_and!; try done; autorewrite with cap_fields; try (apply stamp_field; lia || done).
  unfold cap_word_valid. rewrite Hs. by destruct (w_type w' =? CAP_TYPE_NONE).
Qed.

Lemma stamp_revoked_spec_witness :
  let w := cap_word_make CAP_TYPE_MEM 5 3 0 2 in
  cap_word_valid w = true ∧ cap_word_valid (cap_word_stamp_revoked w) = false ∧
  w_obj (cap_word_stamp_revoked w) = 5.
Proof.
  cbv zeta. destruct (stamp_revoked_spec (cap_word_make CAP_TYPE_MEM 5 3 0 2) ltac:(done))
    as (Hv & _ & _ & Ho & _). split; [done|]. split; [exact Hv | by rewrite Ho].
Defined.


(** * Free slots *)

Lemma free_word_fields n :
  0 ≤ n < 2 ^ 17 → w_type (free_word n) = 0 ∧ w_obj (free_word n) = n.
Proof.
  intros Hn. autorewrite with cap_fields. unfold free_word, CAP_OBJ_SHIFT.
  rewrite <-(land_mask_small n 17) at 1 2 by done.
  rewrite field_apart, field_same by lia. split; [done | by apply land_mask_small].
Qed.

(** A free slot never passes the validity check. *)
Lemma free_word_invalid n : 0 ≤ n < 2 ^ 17 → cap_word_valid (free_word n) = false.
Proof. intros Hn. unfold cap_word_valid. by rewrite (proj1 (free_word_fields n Hn)). Qed.
