(* ===== verification/Sidecar.v ===== *)
(** The sidecar registry of kernel/cap.c: partition-scoped names, the per-name
    boot generations, and the manifest checksum. *)

From stdpp Require Import base gmap list list_numbers.
From Stdlib Require Import ZArith Lia Bool String Ascii.
From S2P Require Import Prelude.
#[local] Open Scope Z_scope.
#[local] Open Scope carr_scope.

Definition SIDECAR_REGISTRY_MAX : Z := 16.
Definition SIDECAR_REGISTRY_NAME_LEN : nat := 64.

(** A C string is its characters up to the terminating NUL.  A null [char*] is
    [None]. *)
Definition cstr := option string.

(** [sidecar_streq] *)
Fixpoint sidecar_streq (a b : string) : bool :=
  match a, b with
  | String x a', String y b' => if Ascii.eqb x y then sidecar_streq a' b' else false
  | EmptyString, EmptyString => true
  | _, _ => false
  end.

(** [sidecar_strcpy(d, s, n)]: at most [n - 1] characters. *)
Fixpoint str_take (n : nat) (s : string) : string :=
  match n, s with
  | S n', String c s' => String c (str_take n' s')
  | _, _ => EmptyString
  end.
Definition sidecar_strcpy (s : string) (n : nat) : string := str_take (n - 1) s.

(** [sidecar_prefix(s, pre)] *)
Fixpoint sidecar_prefix (s pre : string) : bool :=
  match pre, s with
  | EmptyString, _ => true
  | String p pre', String c s' => if Ascii.eqb c p then sidecar_prefix s' pre' else false
  | String _ _, EmptyString => false
  end.

(** [struct SidecarRegistryEntry] *)
Record SidecarRegistryEntry := mkEntry {
  e_name : string;
  e_pid : Z;
  e_partition_id : Z;
  e_gen : Z;
  e_active : Z
}.

#[export] Instance CZero_SidecarRegistryEntry : CZero SidecarRegistryEntry :=
  mkEntry EmptyString 0 0 0 0.

(** [struct SidecarGenCounter] *)
Record SidecarGenCounter := mkGen {
  g_name : string;
  g_partition_id : Z;
  g_seen : Z
}.

#[export] Instance CZero_SidecarGenCounter : CZero SidecarGenCounter := mkGen EmptyString 0 0.

Record SidecarRegistry := mkReg {
  sidecar_registry : gmap Z SidecarRegistryEntry;
  sidecar_gen_counters : gmap Z SidecarGenCounter
}.

Definition set_entries (v : gmap Z SidecarRegistryEntry) (r : SidecarRegistry) :=
  mkReg v (sidecar_gen_counters r).
Definition set_gens (v : gmap Z SidecarGenCounter) (r : SidecarRegistry) :=
  mkReg (sidecar_registry r) v.

Definition registry_bss : SidecarRegistry := mkReg ∅ ∅.

Definition reg_nat : nat := Z.to_nat SIDECAR_REGISTRY_MAX.

(** The (partition, name) match of a live registry entry. *)
Definition entry_matches (name : string) (partition_id : Z) (e : SidecarRegistryEntry) : bool :=
  negb (e_active e =? 0) && (e_partition_id e =? partition_id) && sidecar_streq (e_name e) name.

Definition counter_matches (name : string) (partition_id : Z) (c : SidecarGenCounter) : bool :=
  negb (g_seen c =? 0) && (g_partition_id c =? partition_id) && sidecar_streq (g_name c) name.

Definition sidecar_gen_next (name : cstr) (partition_id : Z) (r : SidecarRegistry)
  : Z * SidecarRegistry :=
  match name with
  | None => (0, r)
  | Some EmptyString => (0, r)
  | Some nm =>
      match find_up reg_nat 0 (fun i => counter_matches nm partition_id (sidecar_gen_counters r).[i]) with
      | Some i =>
          let c := (sidecar_gen_counters r).[i] in
          (g_seen c,
           set_gens (sidecar_gen_counters r).[i <- mkGen (g_name c) (g_partition_id c) (u32 (g_seen c + 1))] r)
      | None =>
          match find_up reg_nat 0 (fun i => g_seen (sidecar_gen_counters r).[i] =? 0) with
          | Some i =>
              (0, set_gens (sidecar_gen_counters r).[i <-
                     mkGen (sidecar_strcpy nm SIDECAR_REGISTRY_NAME_LEN) partition_id 1] r)
          | None => (0, r)
          end
      end
  end.

Definition sidecar_registry_init (r : SidecarRegistry) : SidecarRegistry :=
  for_up reg_nat 0
    (fun i r =>
       let e := (sidecar_registry r).[i] in
       let c := (sidecar_gen_counters r).[i] in
       mkReg (sidecar_registry r).[i <- mkEntry (e_name e) (e_pid e) (e_partition_id e) 0 0]
             (sidecar_gen_counters r).[i <- mkGen (g_name c) (g_partition_id c) 0]) r.

Definition sidecar_registry_register (name : cstr) (pid partition_id : Z) (r : SidecarRegistry)
  : Z * SidecarRegistry :=
  match name with
  | None => (-1, r)
  | Some EmptyString => (-1, r)
  | Some nm =>
      if pid =? 0 then (-1, r) else
      match find_up reg_nat 0 (fun i => entry_matches nm partition_id (sidecar_registry r).[i]) with
      | Some i =>
          let '(gen, r) := sidecar_gen_next name partition_id r in
          let e := (sidecar_registry r).[i] in
          (0, set_entries (sidecar_registry r).[i <-
                mkEntry (e_name e) pid (e_partition_id e) gen (e_active e)] r)
      | None =>
          match find_up reg_nat 0 (fun i => e_active (sidecar_registry r).[i] =? 0) with
          | Some i =>
              let '(gen, r) := sidecar_gen_next name partition_id r in
              (0, set_entries (sidecar_registry r).[i <-
                    mkEntry (sidecar_strcpy nm SIDECAR_REGISTRY_NAME_LEN) pid partition_id gen 1] r)
          | None => (-1, r)
          end
      end
  end.

Definition sidecar_registry_resolve (name : cstr) (partition_id : Z) (r : SidecarRegistry) : Z :=
  match name with
  | None => 0
  | Some nm =>
      match find_up reg_nat 0 (fun i => entry_matches nm partition_id (sidecar_registry r).[i]) with
      | Some i => e_pid (sidecar_registry r).[i]
      | None => 0
      end
  end.

Definition pid_matches (pid : Z) (e : SidecarRegistryEntry) : bool :=
  negb (e_active e =? 0) && (e_pid e =? pid).

Definition sidecar_registry_gen_of (pid : Z) (r : SidecarRegistry) : Z :=
  if pid =? 0 then 0 else
  match find_up reg_nat 0 (fun i => pid_matches pid (sidecar_registry r).[i]) with
  | Some i => e_gen (sidecar_registry r).[i]
  | None => 0
  end.

Definition sidecar_registry_count (r : SidecarRegistry) : Z :=
  count_up reg_nat 0 (fun i => negb (e_active (sidecar_registry r).[i] =? 0)).

Definition sidecar_registry_remove_pid (pid : Z) (r : SidecarRegistry) : SidecarRegistry :=
  for_up reg_nat 0
    (fun i r =>
       let e := (sidecar_registry r).[i] in
       if pid_matches pid e
       then set_entries (sidecar_registry r).[i <-
              mkEntry (e_name e) (e_pid e) (e_partition_id e) (e_gen e) 0] r
       else r) r.

(** * The manifest checksum *)

(** One bit of [crc = (crc >> 1) ^ (0xEDB88320u & (-(int)(crc & 1)))]. *)
Definition crc_bit (crc : Z) : Z :=
  Z.lxor (Z.shiftr crc 1) (Z.land 0xEDB88320 (u32 (- Z.land crc 1))).

Definition crc_byte (byte crc : Z) : Z :=
  for_up 8 0 (fun _ c => crc_bit c) (Z.lxor crc byte).

Definition cap_sidecar_crc32 (data : list Z) : Z :=
  Z.lxor (foldl (fun c b => crc_byte b c) 0xFFFFFFFF data) 0xFFFFFFFF.
