(* ===== verification/SidecarSpec.v ===== *)
(** The sidecar registry implements a directory: a finite map from (partition, name) to the
    process that serves it and its boot generation, with room for sixteen names; and the
    manifest checksum notices every change of a single byte. *)

From Stdlib Require Import ZArith Lia Bool String Ascii.
From stdpp Require Import base gmap list list_numbers strings.
From S2P Require Import Prelude Sidecar.
#[local] Open Scope Z_scope.
#[local] Open Scope carr_scope.

(** * Names *)

Lemma streq_eq a : ∀ b, sidecar_streq a b = true ↔ a = b.
Proof.
  induction a as [|x a IH]; intros [|y b]; cbn [sidecar_streq]; try done.
  destruct (Ascii.eqb_spec x y) as [->|Hne]; [rewrite IH; split; congruence|]. split; congruence.
Qed.

Lemma str_take_all n : ∀ s, (String.length s ≤ n)%nat → str_take n s = s.
Proof. induction n as [|n IH]; intros [|c s] Hl; cbn in *; try done; [lia|]. rewrite IH by lia. done. Qed.

(** * Lists of the occupied entries of an array *)

Section Occupied.
Context {A B : Type} (f : A → option B).

(** What the elements of [a] at the indices [l] contribute. *)
Definition occupied `{CZero A} (a : gmap Z A) (l : list Z) : list B := omap (λ i, f a.[i]) l.

Lemma occupied_upd `{CZero A} (a : gmap Z A) l i x : i ∉ l → occupied a.[i <- x] l = occupied a l.
Proof.
  intros Hi. induction l as [|j l IH]; [done|]. apply not_elem_of_cons in Hi as [Hne Hi]. unfold occupied in *. cbn.
  rewrite aget_upd_ne by done. by rewrite IH.
Qed.

(** One element stands apart from the rest. *)
Lemma occupied_split `{CZero A} (a : gmap Z A) l i : NoDup l → i ∈ l →
  ∃ rest, (i ∉ rest) ∧ ∀ x, occupied a.[i <- x] l ≡ₚ option_list (f x) ++ occupied a rest.
Proof.
  intros Hnd Hi. apply list_elem_of_split in Hi as (l1 & l2 & ->). exists (l1 ++ l2).
  rewrite <- Permutation_middle in Hnd. apply NoDup_cons in Hnd as [Hn _]. split; [done|]. intros x.
  assert (occupied a.[i <- x] (l1 ++ i :: l2) ≡ₚ occupied a.[i <- x] (i :: (l1 ++ l2))) as -> by (unfold occupied; by rewrite Permutation_middle).
  unfold occupied at 1. cbn. rewrite aget_upd_eq. fold (occupied a.[i <- x] (l1 ++ l2)). rewrite occupied_upd by done.
  by destruct (f x).
Qed.

Lemma occupied_same `{CZero A} (a : gmap Z A) l i : occupied a.[i <- a.[i]] l = occupied a l.
Proof.
  unfold occupied. induction l as [|j l IH]; [done|]. cbn. rewrite IH, aget_upd.
  by destruct (Z.eqb_spec i j) as [->|].
Qed.

Lemma occupied_in `{CZero A} (a : gmap Z A) l b : b ∈ occupied a l ↔ ∃ i, i ∈ l ∧ f a.[i] = Some b.
Proof. unfold occupied. by rewrite list_elem_of_omap. Qed.

End Occupied.

(** * Arrays as finite maps *)

Section Keyed.
Context {A K V : Type} `{CZero A} `{Countable K} (f : A → option (K * V)).

Definition as_map (a : gmap Z A) : gmap K V := list_to_map (occupied f a (seqZ 0 16)).
Definition keys_distinct (a : gmap Z A) : Prop := NoDup (occupied f a (seqZ 0 16)).*1.

Lemma in16 i : i ∈ seqZ 0 16 ↔ 0 ≤ i < 16.
Proof. rewrite elem_of_seqZ. lia. Qed.

Lemma as_map_lookup a k v : keys_distinct a → as_map a !! k = Some v ↔ ∃ i, 0 ≤ i < 16 ∧ f a.[i] = Some (k, v).
Proof.
  intros Hd. unfold as_map. rewrite <- elem_of_list_to_map by done. rewrite occupied_in. by setoid_rewrite in16.
Qed.

Lemma as_map_none a k : as_map a !! k = None ↔ ∀ i v, 0 ≤ i < 16 → f a.[i] ≠ Some (k, v).
Proof.
  unfold as_map. rewrite <- not_elem_of_list_to_map. split.
  - intros Hn i v Hi E. apply Hn, list_elem_of_fmap. exists (k, v). split; [done|]. apply occupied_in. exists i. split; [by apply in16|done].
  - intros Hn ((k' & v) & -> & Hin)%list_elem_of_fmap. apply occupied_in in Hin as (i & Hi%in16 & E). by apply (Hn i v Hi).
Qed.

Lemma as_map_size a : keys_distinct a → size (as_map a) = length (occupied f a (seqZ 0 16)).
Proof.
  intros Hd. unfold as_map, keys_distinct in *. revert Hd. generalize (occupied f a (seqZ 0 16)). intros l.
  induction l as [|[k v] l IH]; intros Hd; [apply map_size_empty|]. cbn in *. apply NoDup_cons in Hd as [Hn Hd].
  rewrite map_size_insert_None by (by apply not_elem_of_list_to_map). by rewrite IH.
Qed.

(** Writing a key into an element that held it, or into a free one when nobody holds it. *)
Lemma as_map_put a i x k v : keys_distinct a → 0 ≤ i < 16 → f x = Some (k, v) →
  (∀ w, f a.[i] = Some w → w.1 = k) → (f a.[i] = None → as_map a !! k = None) →
  keys_distinct a.[i <- x] ∧ as_map a.[i <- x] = <[k := v]> (as_map a).
Proof.
  intros Hd Hi Hx Hsame Hfree. pose proof (NoDup_seqZ 0 16) as Hnd.
  destruct (occupied_split f a (seqZ 0 16) i Hnd) as (rest & Hir & Hp); [by apply in16|].
  pose proof (Hp x) as Px. rewrite Hx in Px. cbn in Px. pose proof (Hp a.[i]) as Pa. rewrite occupied_same in Pa.
  assert ((k ∉ (occupied f a rest).*1) ∧ NoDup (occupied f a rest).*1) as [Hk Hnr].
  { unfold keys_distinct in Hd. rewrite Pa in Hd. destruct (f a.[i]) as [[k' v']|] eqn:Ea; cbn in Hd, Pa.
    - apply NoDup_cons in Hd as [Hn Hd]. by rewrite <- (Hsame _ eq_refl : k' = k).
    - split; [|done]. specialize (Hfree eq_refl). unfold as_map in Hfree. apply not_elem_of_list_to_map in Hfree. by rewrite Pa in Hfree. }
  assert (NoDup ((k, v) :: occupied f a rest).*1) as Hnd' by (cbn; by apply NoDup_cons).
  split; [unfold keys_distinct; by rewrite Px|]. unfold as_map.
  rewrite (list_to_map_proper (occupied f a.[i <- x] (seqZ 0 16)) ((k, v) :: occupied f a rest)) by (done || by rewrite Px). cbn.
  destruct (f a.[i]) as [[k' v']|] eqn:Ea; cbn in Pa.
  - pose proof (Hsame _ eq_refl) as E. cbn in E. subst k'. assert (NoDup ((k, v') :: occupied f a rest).*1) as Hnd2 by (cbn; by apply NoDup_cons).
    rewrite (list_to_map_proper (occupied f a (seqZ 0 16)) ((k, v') :: occupied f a rest)) by (done || by rewrite Pa). cbn. by rewrite insert_insert_eq.
  - rewrite (list_to_map_proper (occupied f a (seqZ 0 16)) (occupied f a rest)) by (done || by rewrite Pa). done.
Qed.

(** Freeing an element. *)
Lemma as_map_drop a i x : keys_distinct a → 0 ≤ i < 16 → f x = None →
  keys_distinct a.[i <- x] ∧
  as_map a.[i <- x] = match f a.[i] with Some (k, _) => delete k (as_map a) | None => as_map a end.
Proof.
  intros Hd Hi Hx. pose proof (NoDup_seqZ 0 16) as Hnd.
  destruct (occupied_split f a (seqZ 0 16) i Hnd) as (rest & Hir & Hp); [by apply in16|].
  pose proof (Hp x) as Px. rewrite Hx in Px. cbn in Px. pose proof (Hp a.[i]) as Pa. rewrite occupied_same in Pa.
  assert (NoDup (option_list (f a.[i]) ++ occupied f a rest).*1) as Hda by (unfold keys_distinct in Hd; by rewrite Pa in Hd).
  assert (NoDup (occupied f a rest).*1) as Hnr by (rewrite fmap_app in Hda; by apply NoDup_app in Hda as (_ & _ & ?)).
  split; [unfold keys_distinct; by rewrite Px|]. unfold as_map.
  rewrite (list_to_map_proper (occupied f a.[i <- x] (seqZ 0 16)) (occupied f a rest)) by (done || by rewrite Px).
  rewrite (list_to_map_proper (occupied f a (seqZ 0 16)) (option_list (f a.[i]) ++ occupied f a rest)) by (done || by rewrite Pa).
  destruct (f a.[i]) as [[k v]|]; [|done]. cbn in *. apply NoDup_cons in Hda as [Hn _].
  rewrite delete_insert_id; [done|by apply not_elem_of_list_to_map].
Qed.

Lemma occupied_length a l : (length (occupied f a l) ≤ length l)%nat.
Proof. unfold occupied. induction l as [|j l IH]; cbn; [done|]. destruct (f a.[j]); cbn; lia. Qed.

Lemma occupied_all a l : (∀ i, i ∈ l → f a.[i] ≠ None) ↔ length (occupied f a l) = length l.
Proof.
  induction l as [|j l IH]; [split; [done|intros _ i Hi; by apply not_elem_of_nil in Hi]|].
  pose proof (occupied_length a l) as Hle. unfold occupied in *. cbn. destruct (f a.[j]) eqn:Ej; cbn.
  - split.
    + intros Ha. f_equal. apply IH. intros i Hi. apply Ha. by right.
    + intros E i [->|Hi]%elem_of_cons; [by rewrite Ej|]. apply IH; [lia|done].
  - split; [|lia]. intros Ha. by destruct (Ha j ltac:(by left)).
Qed.

(** The array is full when the map has sixteen keys. *)
Lemma occupied_full a : keys_distinct a → (∀ i, 0 ≤ i < 16 → f a.[i] ≠ None) ↔ size (as_map a) = 16%nat.
Proof.
  intros Hd. rewrite as_map_size by done. rewrite <- (occupied_all a (seqZ 0 16)). by setoid_rewrite in16.
Qed.

Lemma occupied_bound a : keys_distinct a → (size (as_map a) ≤ 16)%nat.
Proof. intros Hd. rewrite as_map_size by done. etrans; [apply occupied_length|]. by rewrite length_seqZ. Qed.

Lemma occupied_count a : ∀ n i, count_up n i (λ j, match f a.[j] with Some _ => true | None => false end) =
  Z.of_nat (length (occupied f a (seqZ i (Z.of_nat n)))).
Proof.
  induction n as [|n IH]; intros i; [done|]. rewrite seqZ_cons by lia. unfold occupied in *. cbn [count_up omap list_omap].
  rewrite IH. replace (Z.pred (Z.of_nat (S n))) with (Z.of_nat n) by lia. unfold Z.succ. destruct (f a.[i]); cbn [length]; lia.
Qed.

End Keyed.

(** * The directory *)

(** The names in use with their process and generation, and how often each name has been
    registered since boot; at most sixteen of either. *)
Record directory := mkDir { names : gmap (Z * string) (Z * Z); gens : gmap (Z * string) Z }.

Definition dir_empty : directory := mkDir ∅ ∅.

Definition dir_gen_next (k : Z * string) (D : directory) : Z * directory :=
  match gens D !! k with
  | Some g => (g, mkDir (names D) (if u32 (g + 1) =? 0 then delete k (gens D) else <[k := u32 (g + 1)]> (gens D)))
  | None => (0, if decide (size (gens D) = 16%nat) then D else mkDir (names D) (<[k := 1]> (gens D)))
  end.

Definition dir_register (name : cstr) (pid p : Z) (D : directory) : Z * directory :=
  match name with
  | None | Some EmptyString => (-1, D)
  | Some nm =>
      if pid =? 0 then (-1, D) else
      if decide (names D !! (p, nm) = None ∧ size (names D) = 16%nat) then (-1, D) else
      let '(g, D') := dir_gen_next (p, nm) D in
      (0, mkDir (<[(p, nm) := (pid, g)]> (names D)) (gens D'))
  end.

Definition dir_resolve (name : cstr) (p : Z) (D : directory) : Z :=
  match name with
  | None => 0
  | Some nm => match names D !! (p, nm) with Some (pid, _) => pid | None => 0 end
  end.

Definition dir_of_pid (pid : Z) (D : directory) : gmap (Z * string) (Z * Z) := filter (λ kv, kv.2.1 = pid) (names D).

Definition dir_gen_of (pid : Z) (D : directory) : Z :=
  if pid =? 0 then 0 else match map_to_list (dir_of_pid pid D) with (_, (_, g)) :: _ => g | [] => 0 end.

Definition dir_remove_pid (pid : Z) (D : directory) : directory :=
  mkDir (filter (λ kv, kv.2.1 ≠ pid) (names D)) (gens D).

(** Operations, run on the registry and on the directory. *)
Inductive sop :=
| SRegister (name : cstr) (pid p : Z)
| SResolve (name : cstr) (p : Z)
| SRemove (pid : Z)
| SGenOf (pid : Z)
| SCount.

Definition sidecar_run (op : sop) (r : SidecarRegistry) : Z * SidecarRegistry :=
  match op with
  | SRegister name pid p => sidecar_registry_register name pid p r
  | SResolve name p => (sidecar_registry_resolve name p r, r)
  | SRemove pid => (0, sidecar_registry_remove_pid pid r)
  | SGenOf pid => (sidecar_registry_gen_of pid r, r)
  | SCount => (sidecar_registry_count r, r)
  end.

Definition dir_run (op : sop) (D : directory) : Z * directory :=
  match op with
  | SRegister name pid p => dir_register name pid p D
  | SResolve name p => (dir_resolve name p D, D)
  | SRemove pid => (0, dir_remove_pid pid D)
  | SGenOf pid => (dir_gen_of pid D, D)
  | SCount => (Z.of_nat (size (names D)), D)
  end.

(** Names fit the entry; the generation of a process is asked for where it goes by one name. *)
Definition sop_ok (op : sop) (D : directory) : Prop :=
  match op with
  | SRegister (Some nm) pid p => (String.length nm < SIDECAR_REGISTRY_NAME_LEN)%nat
  | SGenOf pid => ∀ k k' g g', names D !! k = Some (pid, g) → names D !! k' = Some (pid, g') → k = k'
  | _ => True
  end.

(** * The simulation *)

Definition entry_kv (e : SidecarRegistryEntry) : option ((Z * string) * (Z * Z)) :=
  if e_active e =? 0 then None else Some ((e_partition_id e, e_name e), (e_pid e, e_gen e)).
Definition counter_kv (c : SidecarGenCounter) : option ((Z * string) * Z) :=
  if g_seen c =? 0 then None else Some ((g_partition_id c, g_name c), g_seen c).

Record implements (r : SidecarRegistry) (D : directory) : Prop := {
  im_keys : keys_distinct entry_kv (sidecar_registry r);
  im_names : as_map entry_kv (sidecar_registry r) = names D;
  im_gkeys : keys_distinct counter_kv (sidecar_gen_counters r);
  im_gens : as_map counter_kv (sidecar_gen_counters r) = gens D
}.

Lemma entry_matches_kv nm p e : entry_matches nm p e = true ↔ entry_kv e = Some ((p, nm), (e_pid e, e_gen e)).
Proof.
  unfold entry_matches, entry_kv. destruct (e_active e =? 0); cbn [negb andb]; [done|].
  rewrite andb_true_iff, Z.eqb_eq, streq_eq. split; [by intros [-> ->]|by intros [= -> ->]].
Qed.

Lemma counter_matches_kv nm p c : counter_matches nm p c = true ↔ counter_kv c = Some ((p, nm), g_seen c).
Proof.
  unfold counter_matches, counter_kv. destruct (g_seen c =? 0); cbn [negb andb]; [done|].
  rewrite andb_true_iff, Z.eqb_eq, streq_eq. split; [by intros [-> ->]|by intros [= -> ->]].
Qed.

Lemma find16 P : match find_up reg_nat 0 P with
  | Some i => 0 ≤ i < 16 ∧ P i = true
  | None => ∀ i, 0 ≤ i < 16 → P i = false
  end.
Proof.
  destruct (find_up reg_nat 0 P) as [i|] eqn:E.
  - apply find_up_Some in E as (Hi & Hp & _). change (Z.of_nat reg_nat) with 16 in Hi. split; [lia|done].
  - intros i Hi. rewrite find_up_None in E. apply E. change (Z.of_nat reg_nat) with 16. lia.
Qed.

Lemma gen_next_simulates nm p r D : implements r D → nm ≠ EmptyString → (String.length nm < SIDECAR_REGISTRY_NAME_LEN)%nat →
  let res := sidecar_gen_next (Some nm) p r in let res' := dir_gen_next (p, nm) D in
  fst res = fst res' ∧ implements (snd res) (snd res') ∧ sidecar_registry (snd res) = sidecar_registry r ∧ names (snd res') = names D.
Proof.
  intros [K1 K2 K3 K4] Hne Hl. unfold sidecar_gen_next, dir_gen_next. destruct nm as [|c nm0]; [done|]. set (nm := String c nm0) in *.
  pose proof (find16 (λ i, counter_matches nm p (sidecar_gen_counters r).[i])) as F1.
  destruct (find_up reg_nat 0 (λ i, counter_matches nm p (sidecar_gen_counters r).[i])) as [i|].
  - destruct F1 as [Hi Hm%counter_matches_kv]. set (cn := (sidecar_gen_counters r).[i]) in *.
    assert (gens D !! (p, nm) = Some (g_seen cn)) as ->
      by (rewrite <- K4; apply (as_map_lookup counter_kv); [done|by exists i]).
    cbn [fst snd]. split; [done|]. split; [|done]. cbn [set_gens]. set (x := mkGen _ _ _).
    assert (g_partition_id cn = p ∧ g_name cn = nm) as [Ep En]
      by (unfold counter_kv in Hm; destruct (g_seen cn =? 0); [done|]; by injection Hm).
    destruct (Z.eqb_spec (u32 (g_seen cn + 1)) 0) as [E0|E0].
    + assert (counter_kv x = None) as Hx by (unfold counter_kv, x; cbn; by rewrite E0).
      destruct (as_map_drop counter_kv (sidecar_gen_counters r) i x K3 Hi Hx) as [H1 H2]. fold cn in H2. rewrite Hm in H2.
      split; try done. cbn. by rewrite H2, K4.
    + assert (counter_kv x = Some ((p, nm), u32 (g_seen cn + 1))) as Hx
        by (unfold counter_kv, x; cbn; rewrite (proj2 (Z.eqb_neq _ 0) E0); by rewrite Ep, En).
      destruct (as_map_put counter_kv (sidecar_gen_counters r) i x _ _ K3 Hi Hx) as [H1 H2];
        [fold cn; by intros w [= <-]%(eq_trans (eq_sym Hm))|fold cn; by rewrite Hm|].
      split; try done. cbn. by rewrite H2, K4.
  - assert (gens D !! (p, nm) = None) as Hnone.
    { rewrite <- K4. apply (as_map_none counter_kv). intros i v Hi Hv. specialize (F1 i Hi). cbn in F1.
      assert (v = g_seen (sidecar_gen_counters r).[i]) as -> by (unfold counter_kv in Hv; destruct (_ =? 0); [done|]; by injection Hv).
      apply counter_matches_kv in Hv. congruence. }
    rewrite Hnone. pose proof (find16 (λ i, g_seen (sidecar_gen_counters r).[i] =? 0)) as F2.
    destruct (find_up reg_nat 0 (λ i, g_seen (sidecar_gen_counters r).[i] =? 0)) as [i|].
    + destruct F2 as [Hi Hz]. assert (counter_kv (sidecar_gen_counters r).[i] = None) as Hfree by (unfold counter_kv; by rewrite Hz).
      rewrite decide_False.
      2: { rewrite <- K4. intros Hs. apply (proj2 (occupied_full counter_kv _ K3) Hs i Hi Hfree). }
      cbn [fst snd]. split; [done|]. split; [|done]. cbn [set_gens]. set (x := mkGen _ _ _).
      assert (counter_kv x = Some ((p, nm), 1)) as Hx
        by (unfold counter_kv, x; cbn [g_seen g_partition_id g_name]; unfold sidecar_strcpy; rewrite str_take_all; [done|unfold SIDECAR_REGISTRY_NAME_LEN in *; lia]).
      destruct (as_map_put counter_kv (sidecar_gen_counters r) i x _ _ K3 Hi Hx) as [H1 H2];
        [by intros w Hw; rewrite Hfree in Hw|by rewrite K4|].
      split; try done. cbn. by rewrite H2, K4.
    + rewrite decide_True.
      2: { rewrite <- K4. apply (occupied_full counter_kv _ K3). intros i Hi Hf. specialize (F2 i Hi). cbn in F2.
           unfold counter_kv in Hf. by rewrite F2 in Hf. }
      done.
Qed.

Lemma entry_kv_eq e k v : entry_kv e = Some (k, v) → e_active e ≠ 0 ∧ k = (e_partition_id e, e_name e) ∧ v = (e_pid e, e_gen e).
Proof. unfold entry_kv. destruct (Z.eqb_spec (e_active e) 0); [done|]. by intros [= <- <-]. Qed.

Lemma names_lookup r D k v : implements r D →
  names D !! k = Some v ↔ ∃ i, 0 ≤ i < 16 ∧ entry_kv (sidecar_registry r).[i] = Some (k, v).
Proof. intros [K1 K2 _ _]. rewrite <- K2. by apply as_map_lookup. Qed.

(** The name search finds the directory's entry. *)
Lemma find_name nm p r D : implements r D →
  match find_up reg_nat 0 (λ i, entry_matches nm p (sidecar_registry r).[i]) with
  | Some i => 0 ≤ i < 16 ∧ entry_kv (sidecar_registry r).[i] = Some ((p, nm), (e_pid (sidecar_registry r).[i], e_gen (sidecar_registry r).[i])) ∧
      names D !! (p, nm) = Some (e_pid (sidecar_registry r).[i], e_gen (sidecar_registry r).[i])
  | None => names D !! (p, nm) = None
  end.
Proof.
  intros Him. pose proof (find16 (λ i, entry_matches nm p (sidecar_registry r).[i])) as F.
  destruct (find_up reg_nat 0 _) as [i|].
  - destruct F as [Hi Hm%entry_matches_kv]. do 2 (split; [done|]). apply (names_lookup r D); [done|]. by exists i.
  - apply eq_None_not_Some. intros [v Hv]. apply (names_lookup r D) in Hv as (i & Hi & E); [|done].
    destruct (entry_kv_eq _ _ _ E) as (_ & _ & ->). apply entry_matches_kv in E. specialize (F i Hi). cbn in F. congruence.
Qed.

Lemma register_simulates name pid p r D : implements r D → sop_ok (SRegister name pid p) D →
  let res := sidecar_registry_register name pid p r in let res' := dir_register name pid p D in
  fst res = fst res' ∧ implements (snd res) (snd res').
Proof.
  intros Him Hok. unfold sidecar_registry_register, dir_register. destruct name as [[|c nm0]|]; [done| |done].
  set (nm := String c nm0) in *. cbn [sop_ok] in Hok. destruct (pid =? 0); [done|].
  pose proof (find_name nm p r D Him) as F1. pose proof (gen_next_simulates nm p r D Him) as HG. cbv zeta in HG.
  specialize (HG ltac:(done) Hok). destruct (dir_gen_next (p, nm) D) as [g' D'] eqn:ED. cbn [fst snd] in HG.
  destruct (find_up reg_nat 0 (λ i, entry_matches nm p (sidecar_registry r).[i])) as [i|].
  - destruct F1 as (Hi & Hkv & HD). rewrite decide_False by (by intros [? _]; congruence).
    destruct (sidecar_gen_next (Some nm) p r) as [g r1]. destruct HG as (Eg & [K1 K2 K3 K4] & Er & En). cbn [fst snd] in *. subst g'.
    split; [done|]. rewrite Er in *. destruct (entry_kv_eq _ _ _ Hkv) as (Ha & [= Ep Ename] & _). set (x := mkEntry _ _ _ _ _).
    assert (entry_kv x = Some ((p, nm), (pid, g))) as Hx
      by (unfold entry_kv, x; cbn; rewrite (proj2 (Z.eqb_neq _ 0) Ha); by rewrite <- Ep, <- Ename).
    destruct (as_map_put entry_kv (sidecar_registry r) i x _ _ K1 Hi Hx) as [H1 H2];
      [by intros w [= <-]%(eq_trans (eq_sym Hkv))|by rewrite Hkv|].
    split; try done. cbn. by rewrite H2, K2, En.
  - pose proof (find16 (λ i, e_active (sidecar_registry r).[i] =? 0)) as F2. pose proof (im_keys _ _ Him) as HK. pose proof (im_names _ _ Him) as HN.
    destruct (find_up reg_nat 0 (λ i, e_active (sidecar_registry r).[i] =? 0)) as [i|].
    + destruct F2 as [Hi Hz]. assert (entry_kv (sidecar_registry r).[i] = None) as Hfree by (unfold entry_kv; by rewrite Hz).
      rewrite decide_False.
      2: { intros [_ Hs]. rewrite <- HN in Hs. apply (proj2 (occupied_full entry_kv _ HK) Hs i Hi Hfree). }
      destruct (sidecar_gen_next (Some nm) p r) as [g r1]. destruct HG as (Eg & [K1 K2 K3 K4] & Er & En). cbn [fst snd] in *. subst g'.
      split; [done|]. rewrite Er in *. set (x := mkEntry _ _ _ _ _).
      assert (entry_kv x = Some ((p, nm), (pid, g))) as Hx
        by (unfold entry_kv, x; cbn [e_active e_partition_id e_name e_pid e_gen]; unfold sidecar_strcpy; rewrite str_take_all; [done|unfold SIDECAR_REGISTRY_NAME_LEN in *; lia]).
      destruct (as_map_put entry_kv (sidecar_registry r) i x _ _ K1 Hi Hx) as [H1 H2];
        [by intros w Hw; rewrite Hfree in Hw|by rewrite K2, En|].
      split; try done. cbn. by rewrite H2, K2, En.
    + rewrite decide_True; [done|]. split; [done|]. rewrite <- HN. apply (occupied_full entry_kv _ HK). intros i Hi Hf.
      specialize (F2 i Hi). cbn in F2. unfold entry_kv in Hf. by rewrite F2 in Hf.
Qed.

Lemma resolve_simulates name p r D : implements r D → sidecar_registry_resolve name p r = dir_resolve name p D.
Proof.
  intros Him. unfold sidecar_registry_resolve, dir_resolve. destruct name as [nm|]; [|done].
  pose proof (find_name nm p r D Him) as F. destruct (find_up reg_nat 0 _) as [i|]; [|by rewrite F].
  destruct F as (_ & _ & ->). done.
Qed.

Lemma count_simulates r D : implements r D → sidecar_registry_count r = Z.of_nat (size (names D)).
Proof.
  intros [K1 K2 _ _]. rewrite <- K2, as_map_size by done. unfold sidecar_registry_count.
  change 16 with (Z.of_nat reg_nat). rewrite <- occupied_count. apply count_up_ext. intros i _.
  unfold entry_kv. by destruct (_ =? 0).
Qed.

Lemma pid_matches_kv pid e : pid_matches pid e = true ↔ ∃ k g, entry_kv e = Some (k, (pid, g)) ∧ e_gen e = g.
Proof.
  unfold pid_matches, entry_kv. destruct (e_active e =? 0); cbn [negb andb]; [split; [done|by intros (? & ? & ? & _)]|].
  rewrite Z.eqb_eq. split; [intros ->; eauto|]. by intros (k & g & [= _ ->] & _).
Qed.

Lemma gen_of_simulates pid r D : implements r D → sop_ok (SGenOf pid) D → sidecar_registry_gen_of pid r = dir_gen_of pid D.
Proof.
  intros Him Hok. unfold sidecar_registry_gen_of, dir_gen_of. destruct (pid =? 0); [done|].
  pose proof (find16 (λ i, pid_matches pid (sidecar_registry r).[i])) as F.
  assert (∀ k v, (k, v) ∈ map_to_list (dir_of_pid pid D) ↔ names D !! k = Some v ∧ v.1 = pid) as Hin.
  { intros k v. rewrite elem_of_map_to_list. unfold dir_of_pid. by rewrite map_lookup_filter_Some. }
  destruct (find_up reg_nat 0 _) as [i|].
  - destruct F as [Hi (k & g & Hkv & Eg)%pid_matches_kv].
    assert (names D !! k = Some (pid, g)) as HD by (apply (names_lookup r D); [done|by exists i]).
    assert ((k, (pid, g)) ∈ map_to_list (dir_of_pid pid D)) as Hk by (by apply Hin).
    destruct (map_to_list (dir_of_pid pid D)) as [|[k' [pid' g']] l] eqn:El; [by apply not_elem_of_nil in Hk|].
    destruct (proj1 (Hin k' (pid', g')) ltac:(by left)) as [HD' E']. cbn in E'. subst pid'.
    rewrite (Hok _ _ _ _ HD' HD) in HD'. rewrite Eg. congruence.
  - destruct (map_to_list (dir_of_pid pid D)) as [|[k' [pid' g']] l] eqn:El; [done|].
    destruct (proj1 (Hin k' (pid', g')) ltac:(by left)) as [HD' E']. cbn in E'. subst pid'.
    apply (names_lookup r D) in HD' as (i & Hi & E); [|done]. specialize (F i Hi). cbn in F.
    assert (pid_matches pid (sidecar_registry r).[i] = true) by (apply pid_matches_kv; destruct (entry_kv_eq _ _ _ E) as (_ & _ & [= -> ->]); eauto). congruence.
Qed.

Lemma remove_simulates pid r D : implements r D → implements (sidecar_registry_remove_pid pid r) (dir_remove_pid pid D).
Proof.
  intros Him. destruct (Him) as [K1 K2 K3 K4]. set (a := sidecar_registry r) in *.
  pose (P := λ (j : Z) r', sidecar_gen_counters r' = sidecar_gen_counters r ∧ keys_distinct entry_kv (sidecar_registry r') ∧
    ∀ i, 0 ≤ i < 16 → (j ≤ i → (sidecar_registry r').[i] = a.[i]) ∧
      (i < j → entry_kv (sidecar_registry r').[i] = if pid_matches pid a.[i] then None else entry_kv a.[i])).
  assert (P 16 (sidecar_registry_remove_pid pid r)) as (Eg & Hd & Hi).
  { apply (for_up_ind P reg_nat 0); [split; [done|]; split; [done|]; intros i ?; split; [done|lia]|]. change (Z.of_nat reg_nat) with 16.
    intros j r' Hj (Eg & Hd & Hi). destruct (Hi j ltac:(lia)) as [Ej _]. specialize (Ej ltac:(lia)). cbv zeta. rewrite Ej.
    destruct (pid_matches pid a.[j]) eqn:Em.
    - split; [done|]. set (x := mkEntry _ _ _ _ _).
      destruct (as_map_drop entry_kv (sidecar_registry r') j x Hd ltac:(lia) eq_refl) as [Hd' _]. split; [done|].
      intros i Hr. cbn. rewrite aget_upd. destruct (Z.eqb_spec j i) as [<-|Hne]; [split; [lia|by rewrite Em]|].
      destruct (Hi i Hr) as [H1 H2]. split; intros ?; [apply H1; lia|apply H2; lia].
    - split; [done|]. split; [done|]. intros i Hr. destruct (Hi i Hr) as [H1 H2]. split; intros ?; [apply H1; lia|].
      destruct (decide (i = j)) as [->|Hne]; [by rewrite Ej, Em|apply H2; lia]. }
  split; [done| |by rewrite Eg|by rewrite Eg]. cbn [dir_remove_pid names]. apply map_eq. intros k. apply option_eq. intros v.
  rewrite as_map_lookup by done. rewrite map_lookup_filter_Some, (names_lookup r D) by done. fold a. cbn [snd].
  assert (∀ i, entry_kv a.[i] = Some (k, v) → pid_matches pid a.[i] = true ↔ v.1 = pid) as Hpm.
  { intros i E. destruct (entry_kv_eq _ _ _ E) as (_ & _ & ->). rewrite pid_matches_kv. rewrite E. cbn. split.
    - by intros (? & ? & [= _ ? _] & _).
    - intros ->. by exists k, (e_gen a.[i]). }
  split.
  - intros (i & Hr & E). rewrite (proj2 (Hi i Hr)) in E by lia. destruct (pid_matches pid a.[i]) eqn:Em; [done|].
    split; [by exists i|]. intros Ev. apply (Hpm i E) in Ev. congruence.
  - intros [(i & Hr & E) Hv]. exists i. split; [done|]. rewrite (proj2 (Hi i Hr)) by lia.
    destruct (pid_matches pid a.[i]) eqn:Em; [|done]. by apply (Hpm i E) in Em.
Qed.

Lemma run_simulates op r D : implements r D → sop_ok op D →
  fst (sidecar_run op r) = fst (dir_run op D) ∧ implements (snd (sidecar_run op r)) (snd (dir_run op D)).
Proof.
  intros Him Hok. destruct op; cbn [sidecar_run dir_run fst snd].
  - by apply register_simulates.
  - split; [by apply resolve_simulates|done].
  - split; [done|by apply remove_simulates].
  - split; [by apply gen_of_simulates|done].
  - split; [by apply count_simulates|done].
Qed.

Lemma cleared_implements r :
  (∀ i, 0 ≤ i < 16 → e_active (sidecar_registry r).[i] = 0 ∧ g_seen (sidecar_gen_counters r).[i] = 0) → implements r dir_empty.
Proof.
  intros Hz. assert (occupied entry_kv (sidecar_registry r) (seqZ 0 16) = []) as E1.
  { apply elem_of_nil_inv. intros b (i & Hi%in16 & E)%occupied_in. unfold entry_kv in E. by rewrite (proj1 (Hz i Hi)) in E. }
  assert (occupied counter_kv (sidecar_gen_counters r) (seqZ 0 16) = []) as E2.
  { apply elem_of_nil_inv. intros b (i & Hi%in16 & E)%occupied_in. unfold counter_kv in E. by rewrite (proj2 (Hz i Hi)) in E. }
  split; unfold keys_distinct, as_map; rewrite ?E1, ?E2; try done; apply NoDup_nil_2.
Qed.

Lemma init_simulates r : implements (sidecar_registry_init r) dir_empty.
Proof.
  apply cleared_implements. unfold sidecar_registry_init. change 16 with (0 + Z.of_nat reg_nat).
  apply (for_up_ind (λ j r', ∀ i, 0 ≤ i < j → e_active (sidecar_registry r').[i] = 0 ∧ g_seen (sidecar_gen_counters r').[i] = 0)); [lia|].
  intros j r' _ Hr i Hi. cbv zeta. cbn [sidecar_registry sidecar_gen_counters]. rewrite !aget_upd. destruct (Z.eqb_spec j i); [done|]. apply Hr. lia.
Qed.

(** * Sequences of calls *)

Fixpoint runs {St : Type} (step : sop → St → Z * St) (ops : list sop) (s : St) : list Z * St :=
  match ops with
  | [] => ([], s)
  | op :: ops => let '(v, s') := step op s in let '(vs, s'') := runs step ops s' in (v :: vs, s'')
  end.

Fixpoint sops_ok (ops : list sop) (D : directory) : Prop :=
  match ops with
  | [] => True
  | op :: ops => sop_ok op D ∧ sops_ok ops (snd (dir_run op D))
  end.

Lemma runs_simulate ops : ∀ r D, implements r D → sops_ok ops D →
  fst (runs sidecar_run ops r) = fst (runs dir_run ops D) ∧ implements (snd (runs sidecar_run ops r)) (snd (runs dir_run ops D)).
Proof.
  induction ops as [|op ops IH]; intros r D Him; [by intros _|]. intros [Hok Hoks]. cbn [runs].
  destruct (run_simulates op r D Him Hok) as [E1 Him1]. destruct (sidecar_run op r) as [v r1], (dir_run op D) as [v' D1]. cbn [fst snd] in *.
  destruct (IH r1 D1 Him1 Hoks) as [E2 Him2]. destruct (runs sidecar_run ops r1), (runs dir_run ops D1). cbn [fst snd] in *. by subst.
Qed.

(** C26. The sidecar registry is a directory: from any prior contents, after [sidecar_registry_init],
    every sequence of registrations, lookups, removals and counts returns what a finite map from
    (partition, name) to (process, generation) returns, with a second map counting how often each
    name was registered.  A name resolves in its own partition alone; a repeated registration
    replaces the process and has the next generation, also after the process was removed; the
    directory refuses a seventeenth name, and a name beyond the sixteen counters has generation 0 at
    every registration.
    Names are shorter than the 64-byte field, and a process whose generation is asked for goes by
    one name. *)
Theorem registry_refines r ops : sops_ok ops dir_empty →
  fst (runs sidecar_run ops (sidecar_registry_init r)) = fst (runs dir_run ops dir_empty) ∧
  implements (snd (runs sidecar_run ops (sidecar_registry_init r))) (snd (runs dir_run ops dir_empty)).
Proof. apply runs_simulate, init_simulates. Qed.

(** A service registered, restarted under another process and removed: seen from its own partition and from
    another, and its generation counted on. *)
Definition demo_calls : list sop :=
  [SRegister (Some "fs"%string) 5 1; SRegister (Some "fs"%string) 6 1; SResolve (Some "fs"%string) 1; SResolve (Some "fs"%string) 2;
   SGenOf 6; SRemove 6; SCount; SRegister (Some "fs"%string) 7 1; SGenOf 7].

Lemma demo_calls_ok : sops_ok demo_calls dir_empty.
Proof.
  assert (∀ (k0 : Z * string) pid g k k' h h', ({[ k0 := (pid, g) ]} : gmap (Z * string) (Z * Z)) !! k = Some (pid, h) →
    ({[ k0 := (pid, g) ]} : gmap (Z * string) (Z * Z)) !! k' = Some (pid, h') → k = k') as H1.
  { by intros k0 pid g k k' h h' [<- _]%lookup_singleton_Some [<- _]%lookup_singleton_Some. }
  cbn [sops_ok demo_calls sop_ok]. repeat split; try (cbn; unfold SIDECAR_REGISTRY_NAME_LEN; lia).
  - apply (H1 (1, "fs"%string) 6 1).
  - apply (H1 (1, "fs"%string) 7 2).
Qed.

Lemma registry_refines_witness :
  fst (runs sidecar_run demo_calls (sidecar_registry_init registry_bss)) = [0; 0; 6; 0; 1; 0; 0; 0; 2].
Proof. rewrite (proj1 (registry_refines registry_bss demo_calls demo_calls_ok)). vm_compute. reflexivity. Defined.
