(* ===== verification/Crc.v ===== *)
(** The manifest checksum detects every error burst of up to four bytes. *)

From stdpp Require Import base list list_numbers.
From Stdlib Require Import ZArith Lia Bool.
From S2P Require Import Prelude Sidecar.
#[local] Open Scope Z_scope.

Definition POLY : Z := 0xEDB88320.

(** The step is a shift with the polynomial fed back. *)
Lemma crc_bit_eq c : crc_bit c = Z.lxor (Z.shiftr c 1) (if Z.testbit c 0 then POLY else 0).
Proof.
  unfold crc_bit. f_equal. rewrite (Z.land_ones c 1 ltac:(lia) : Z.land c 1 = c mod 2). rewrite <- Z.bit0_mod.
  by destruct (Z.testbit c 0).
Qed.

Lemma crc_bit_lxor a b : crc_bit (Z.lxor a b) = Z.lxor (crc_bit a) (crc_bit b).
Proof.
  rewrite !crc_bit_eq, Z.shiftr_lxor, Z.lxor_spec. apply Z.bits_inj'. intros n _. rewrite !Z.lxor_spec.
  destruct (Z.testbit a 0), (Z.testbit b 0); cbn [xorb]; rewrite ?Z.bits_0;
    destruct (Z.testbit (Z.shiftr a 1) n), (Z.testbit (Z.shiftr b 1) n), (Z.testbit POLY n); done.
Qed.

Fixpoint crc_steps (n : nat) (c : Z) : Z := match n with O => c | S n => crc_steps n (crc_bit c) end.

Lemma crc_steps_add n m c : crc_steps (n + m) c = crc_steps m (crc_steps n c).
Proof. revert c. induction n as [|n IH]; intros c; [done|]. apply IH. Qed.

Lemma crc_steps_lxor n : ∀ a b, crc_steps n (Z.lxor a b) = Z.lxor (crc_steps n a) (crc_steps n b).
Proof. induction n as [|n IH]; intros a b; [done|]. cbn. by rewrite crc_bit_lxor, IH. Qed.

(** Bits above the first [n] only move down in [n] steps. *)
Lemma crc_steps_shift n : ∀ x, crc_steps n (Z.shiftl x (Z.of_nat n)) = x.
Proof.
  induction n as [|n IH]; intros x; [apply Z.shiftl_0_r|]. cbn [crc_steps]. rewrite crc_bit_eq, Z.shiftl_spec_low by lia.
  rewrite Z.lxor_0_r, Z.shiftr_shiftl_l by lia. replace (Z.of_nat (S n) - 1) with (Z.of_nat n) by lia. apply IH.
Qed.

Lemma crc_byte_steps b c : crc_byte b c = crc_steps 8 (Z.lxor c b).
Proof. unfold crc_byte. cbn [for_up crc_steps]. exact eq_refl. Qed.

(** The bytes of a word, the first lowest. *)
Fixpoint le (w : list Z) : Z := match w with [] => 0 | b :: w => Z.lxor b (Z.shiftl (le w) 8) end.

(** Consuming bytes one at a time is consuming them as one word. *)
Lemma crc_bytes_word w : ∀ c, foldl (λ c b, crc_byte b c) c w = crc_steps (8 * length w) (Z.lxor c (le w)).
Proof.
  induction w as [|b w IH]; intros c; [by rewrite Z.lxor_0_r|]. cbn [foldl le length]. rewrite IH, crc_byte_steps.
  replace (8 * S (length w))%nat with (8 + 8 * length w)%nat by lia. rewrite crc_steps_add. f_equal.
  rewrite <- Z.lxor_assoc, (crc_steps_lxor 8 (Z.lxor c b)). f_equal. symmetry. apply (crc_steps_shift 8).
Qed.

Definition byte (b : Z) : Prop := 0 ≤ b < 256.
Definition w32 (c : Z) : Prop := 0 ≤ c < 2 ^ 32.

Lemma w32_testbit c n : w32 c → 32 ≤ n → Z.testbit c n = false.
Proof.
  intros [H0 H1] Hn. destruct (decide (c = 0)) as [->|]; [apply Z.bits_0|]. apply Z.bits_above_log2; [lia|].
  apply Z.lt_le_trans with 32; [|done]. apply Z.log2_lt_pow2; lia.
Qed.

Lemma w32_bits c : 0 ≤ c → (∀ n, 32 ≤ n → Z.testbit c n = false) → w32 c.
Proof.
  intros H0 Hb. split; [done|]. destruct (Z.lt_ge_cases c (2 ^ 32)) as [|Hge]; [done|].
  assert (32 ≤ Z.log2 c) as Hl by (apply Z.log2_le_pow2; lia). specialize (Hb _ Hl). rewrite Z.bit_log2 in Hb; [done|lia].
Qed.

Lemma w32_lxor a b : w32 a → w32 b → w32 (Z.lxor a b).
Proof.
  intros Ha Hb. apply w32_bits; [apply Z.lxor_nonneg; unfold w32 in *; lia|]. intros n Hn.
  by rewrite Z.lxor_spec, !w32_testbit.
Qed.

Lemma crc_bit_w32 c : w32 c → w32 (crc_bit c).
Proof.
  intros Hc. rewrite crc_bit_eq. apply w32_lxor.
  - unfold w32 in *. rewrite Z.shiftr_div_pow2 by lia. change (2 ^ 1) with 2. split; [apply Z.div_pos; lia|]. apply Z.div_lt_upper_bound; lia.
  - destruct (Z.testbit c 0); unfold w32, POLY; lia.
Qed.

(** The top bit of the result is the bit shifted out, so a step loses nothing. *)
Lemma crc_bit_inj a b : w32 a → w32 b → crc_bit a = crc_bit b → a = b.
Proof.
  intros Ha Hb E. assert (∀ c, w32 c → Z.testbit (crc_bit c) 31 = Z.testbit c 0) as Htop.
  { intros c Hc. rewrite crc_bit_eq, Z.lxor_spec, Z.shiftr_spec by lia. rewrite (w32_testbit c (31 + 1)) by (done || lia).
    by destruct (Z.testbit c 0). }
  assert (Z.testbit a 0 = Z.testbit b 0) as E0 by (by rewrite <- (Htop a), <- (Htop b), E). rewrite !crc_bit_eq, E0 in E.
  assert (Z.shiftr a 1 = Z.shiftr b 1) as Es.
  { apply (f_equal (λ x, Z.lxor x (if Z.testbit b 0 then POLY else 0))) in E.
    by rewrite !Z.lxor_assoc, !Z.lxor_nilpotent, !Z.lxor_0_r in E. }
  apply Z.bits_inj'. intros n Hn. destruct (decide (n = 0)) as [->|]; [done|].
  replace n with (n - 1 + 1) by lia. rewrite <- !Z.shiftr_spec by lia. by rewrite Es.
Qed.

Lemma crc_steps_w32 n : ∀ c, w32 c → w32 (crc_steps n c).
Proof. induction n as [|n IH]; intros c Hc; [done|]. apply IH. by apply crc_bit_w32. Qed.

Lemma crc_steps_inj n : ∀ a b, w32 a → w32 b → crc_steps n a = crc_steps n b → a = b.
Proof.
  induction n as [|n IH]; intros a b Ha Hb E; [done|]. apply crc_bit_inj; [done..|]. apply IH; [by apply crc_bit_w32..|done].
Qed.

Lemma lxor_inj_r a b c : Z.lxor a b = Z.lxor a c → b = c.
Proof. intros E. apply (f_equal (Z.lxor a)) in E. by rewrite <- !Z.lxor_assoc, !Z.lxor_nilpotent, !Z.lxor_0_l in E. Qed.

Lemma lxor_inj_l a b c : Z.lxor a c = Z.lxor b c → a = b.
Proof. rewrite (Z.lxor_comm a), (Z.lxor_comm b). apply lxor_inj_r. Qed.

Lemma byte_high b n : byte b → 8 ≤ n → Z.testbit b n = false.
Proof.
  intros Hb Hn. destruct (decide (b = 0)) as [->|]; [apply Z.bits_0|]. unfold byte in Hb. apply Z.bits_above_log2; [lia|].
  apply Z.lt_le_trans with 8; [|done]. apply Z.log2_lt_pow2; lia.
Qed.

Lemma le_bound w : Forall byte w → 0 ≤ le w ∧ ∀ n, 8 * Z.of_nat (length w) ≤ n → Z.testbit (le w) n = false.
Proof.
  induction w as [|b w IH]; intros Hw; [split; [done|intros; apply Z.bits_0]|]. apply Forall_cons in Hw as [Hb Hw].
  destruct (IH Hw) as [H0 Hh]. cbn [le length]. split.
  - apply Z.lxor_nonneg. rewrite Z.shiftl_nonneg. unfold byte in Hb. lia.
  - intros n Hn. rewrite Z.lxor_spec, Z.shiftl_spec by lia. rewrite (byte_high b) by (done || lia). rewrite Hh by lia. done.
Qed.

Lemma le_w32 w : Forall byte w → (length w ≤ 4)%nat → w32 (le w).
Proof. intros Hw Hl. destruct (le_bound w Hw) as [H0 Hh]. apply w32_bits; [done|]. intros n Hn. apply Hh. lia. Qed.

Lemma le_inj w : ∀ w', Forall byte w → Forall byte w' → length w = length w' → le w = le w' → w = w'.
Proof.
  induction w as [|b w IH]; intros [|b' w'] Hw Hw' Hl E; [done..|]. apply Forall_cons in Hw as [Hb Hw]. apply Forall_cons in Hw' as [Hb' Hw'].
  cbn [le] in E. assert (∀ n, 0 ≤ n → Z.testbit b n = Z.testbit b' n) as Hbits.
  { intros n Hn. destruct (Z.lt_ge_cases n 8) as [Hlt|Hge]; [|by rewrite !byte_high].
    apply (f_equal (λ x, Z.testbit x n)) in E. rewrite !Z.lxor_spec, !Z.shiftl_spec_low in E by lia. by rewrite !xorb_false_r in E. }
  assert (b = b') as <- by (apply Z.bits_inj'; exact Hbits). f_equal. apply IH; [done..|by injection Hl|].
  apply lxor_inj_r in E. apply (f_equal (λ x, Z.shiftr x 8)) in E. by rewrite !Z.shiftr_shiftl_l, !Z.shiftl_0_r in E by lia.
Qed.

(** The register after a message. *)
Definition crc_from (c : Z) (w : list Z) : Z := foldl (λ c b, crc_byte b c) c w.

Lemma crc_from_w32 w : ∀ c, w32 c → Forall byte w → w32 (crc_from c w).
Proof.
  unfold crc_from. induction w as [|b w IH]; intros c Hc Hw; [done|]. apply Forall_cons in Hw as [Hb Hw]. cbn [foldl]. apply IH; [|done].
  rewrite crc_byte_steps. apply crc_steps_w32, w32_lxor; [done|]. unfold byte, w32 in *. lia.
Qed.

Lemma crc_from_inj w : ∀ c c', w32 c → w32 c' → Forall byte w → crc_from c w = crc_from c' w → c = c'.
Proof.
  unfold crc_from. induction w as [|b w IH]; intros c c' Hc Hc' Hw E; [done|]. apply Forall_cons in Hw as [Hb Hw]. cbn [foldl] in E.
  assert (w32 b) as Hb32 by (unfold byte, w32 in *; lia). rewrite !crc_byte_steps in E.
  apply IH in E; [|by apply crc_steps_w32, w32_lxor..|done]. apply crc_steps_inj in E; [|by apply w32_lxor..]. by apply lxor_inj_l in E.
Qed.

Lemma crc32_parts pre w post :
  cap_sidecar_crc32 (pre ++ w ++ post) = Z.lxor (crc_from (crc_from (crc_from 0xFFFFFFFF pre) w) post) 0xFFFFFFFF.
Proof. unfold cap_sidecar_crc32, crc_from. by rewrite !foldl_app. Qed.

(** C40. The checksum a sidecar manifest is accepted under tells two bodies apart that differ in up
    to four consecutive bytes: whatever surrounds them, and however long the body is. *)
Theorem crc32_detects_bursts pre w w' post :
  Forall byte pre → Forall byte w → Forall byte w' → Forall byte post →
  length w = length w' → (length w ≤ 4)%nat → w ≠ w' →
  cap_sidecar_crc32 (pre ++ w ++ post) ≠ cap_sidecar_crc32 (pre ++ w' ++ post).
Proof.
  intros Hpre Hw Hw' Hpost Hl H4 Hne E. rewrite !crc32_parts in E. apply lxor_inj_l in E.
  assert (w32 (crc_from 0xFFFFFFFF pre)) as Hc by (apply crc_from_w32; [unfold w32; lia|done]).
  revert Hc E. generalize (crc_from 0xFFFFFFFF pre). intros c Hc E.
  apply crc_from_inj in E; [|by apply crc_from_w32..|done]. unfold crc_from in E. rewrite !crc_bytes_word, <- Hl in E.
  apply crc_steps_inj in E; [|apply w32_lxor; [done|]; apply le_w32; (done || lia)..]. apply lxor_inj_r in E. by apply Hne, le_inj.
Qed.

Lemma crc32_detects_bursts_witness : cap_sidecar_crc32 [49; 50; 51] ≠ cap_sidecar_crc32 [49; 205; 255].
Proof.
  apply (crc32_detects_bursts [49] [50; 51] [205; 255] []); try done; rewrite ?Forall_cons, ?Forall_nil; unfold byte; try lia.
  cbn. lia.
Defined.
