(* ===== verification/CapState.v ===== *)
(** The state of the capability layer (kernel/cap.h, kernel/cap.c): the static
    tables as records of C arrays, the error monad in which the operations are
    written, the spinlocks, and the hooks through which cap.c reaches the rest of
    the kernel. *)

From stdpp Require Import base gmap list list_numbers.
From Stdlib Require Import ZArith Lia Bool.
From S2P Require Import Prelude FramePool Sidecar.
#[local] Open Scope Z_scope.
#[local] Open Scope carr_scope.

(** * Limits and codes (cap.h) *)

Definition CAP_NONE : Z := 0xFFFF.
Definition CAP_FREELIST_END : Z := 0xFFFF.
Definition CAP_CHAN_NONE : Z := 0xFFFFFFFF.
Definition CAP_OBJ_CHAN_NONE : Z := 0xFFFF.
Definition CAP_TABLE_MAX : Z := 16.
Definition CAP_TABLE_ENTRIES : Z := 512.
Definition CAP_MAP_MAX : Z := 64.
Definition CAP_OBJECT_MAX : Z := 1024.
Definition CAP_HOLDER_MAX : Z := 8192.
Definition CAP_CHAN_MAX : Z := 64.
Definition CHAN_QUEUE_DEPTH : Z := 16.
Definition CHAN_WAIT_MAX_CHANS : Z := 8.
Definition CAP_MSG_MAX_CAPS : Z := 4.
Definition CAP_MSG_MAX_PAYLOAD : Z := 4096.
Definition CAP_MSG_PAYLOAD_POOL : Z := 32.
Definition CAP_ARENA_SIZE : Z := 64 * 1024 * 1024.
Definition CAP_ARENA_FRAMES : Z := 16384.
Definition CAP_VIEW_MAX_PAGES : Z := 4096.
Definition CAP_IRQ_VECTORS : Z := 256.

Definition HOLDER_SLOT : Z := 0.
Definition HOLDER_QUEUE : Z := 1.
Definition CAP_OBJ_KIND_MEM : Z := 1.
Definition CAP_OBJ_KIND_CHAN : Z := 2.
Definition CAP_OBJ_KIND_DEV : Z := 3.

Definition CAP_PERM_R : Z := 1.
Definition CAP_PERM_W : Z := 2.
Definition CAP_PERM_X : Z := 4.
Definition CAP_PERM_MAP : Z := 8.
Definition CAP_PERM_DEV_WC : Z := 16.
Definition CAP_PERM_DEV_UC : Z := 32.
Definition CAP_PERM_BIND : Z := 1.
Definition CAP_PERM_SEND : Z := 1.
Definition CAP_PERM_RECV : Z := 2.

Definition CAP_EINVAL : Z := -1.
Definition CAP_EBADF : Z := -2.
Definition CAP_EAGAIN : Z := -3.
Definition CAP_ETABLEFULL : Z := -4.
Definition CAP_ECAPREVOKED : Z := -5.
Definition CAP_EALREADY : Z := -6.
Definition CAP_ENOMEM : Z := -7.
Definition CAP_ENOSPC : Z := -8.
Definition CAP_ERANGE : Z := -9.
Definition CAP_ENOSYS : Z := -10.
Definition CAP_ECONFLICT : Z := -11.

Definition CLOSE_PEER : Z := 1.
Definition CLOSE_PEER_DEAD : Z := 2.

(** * The structures *)

(** [struct ChanMsg]: one ring entry of a channel. *)
Record ChanMsg := mkMsg {
  m_cookie : Z;
  m_payload_len : Z;
  m_n_caps : Z;
  m_flags : Z;
  m_payload_idx : Z;
  m_cap_word : gmap Z Z;
  m_cap_off : gmap Z Z;
  m_cap_len : gmap Z Z;
  m_cap_rights : gmap Z Z;
  m_cap_flags : gmap Z Z
}.

#[export] Instance CZero_ChanMsg : CZero ChanMsg :=
  mkMsg 0 0 0 0 0 ∅ ∅ ∅ ∅ ∅.

Definition set_m_cookie (v : Z) (r : ChanMsg) : ChanMsg :=
  mkMsg v (m_payload_len r) (m_n_caps r) (m_flags r) (m_payload_idx r) (m_cap_word r)
    (m_cap_off r) (m_cap_len r) (m_cap_rights r) (m_cap_flags r).
Definition set_m_payload_len (v : Z) (r : ChanMsg) : ChanMsg :=
  mkMsg (m_cookie r) v (m_n_caps r) (m_flags r) (m_payload_idx r) (m_cap_word r) (m_cap_off r)
    (m_cap_len r) (m_cap_rights r) (m_cap_flags r).
Definition set_m_n_caps (v : Z) (r : ChanMsg) : ChanMsg :=
  mkMsg (m_cookie r) (m_payload_len r) v (m_flags r) (m_payload_idx r) (m_cap_word r)
    (m_cap_off r) (m_cap_len r) (m_cap_rights r) (m_cap_flags r).
Definition set_m_flags (v : Z) (r : ChanMsg) : ChanMsg :=
  mkMsg (m_cookie r) (m_payload_len r) (m_n_caps r) v (m_payload_idx r) (m_cap_word r)
    (m_cap_off r) (m_cap_len r) (m_cap_rights r) (m_cap_flags r).
Definition set_m_payload_idx (v : Z) (r : ChanMsg) : ChanMsg :=
  mkMsg (m_cookie r) (m_payload_len r) (m_n_caps r) (m_flags r) v (m_cap_word r) (m_cap_off r)
    (m_cap_len r) (m_cap_rights r) (m_cap_flags r).
Definition set_m_cap_word (v : gmap Z Z) (r : ChanMsg) : ChanMsg :=
  mkMsg (m_cookie r) (m_payload_len r) (m_n_caps r) (m_flags r) (m_payload_idx r) v
    (m_cap_off r) (m_cap_len r) (m_cap_rights r) (m_cap_flags r).
Definition set_m_cap_off (v : gmap Z Z) (r : ChanMsg) : ChanMsg :=
  mkMsg (m_cookie r) (m_payload_len r) (m_n_caps r) (m_flags r) (m_payload_idx r)
    (m_cap_word r) v (m_cap_len r) (m_cap_rights r) (m_cap_flags r).
Definition set_m_cap_len (v : gmap Z Z) (r : ChanMsg) : ChanMsg :=
  mkMsg (m_cookie r) (m_payload_len r) (m_n_caps r) (m_flags r) (m_payload_idx r)
    (m_cap_word r) (m_cap_off r) v (m_cap_rights r) (m_cap_flags r).
Definition set_m_cap_rights (v : gmap Z Z) (r : ChanMsg) : ChanMsg :=
  mkMsg (m_cookie r) (m_payload_len r) (m_n_caps r) (m_flags r) (m_payload_idx r)
    (m_cap_word r) (m_cap_off r) (m_cap_len r) v (m_cap_flags r).
Definition set_m_cap_flags (v : gmap Z Z) (r : ChanMsg) : ChanMsg :=
  mkMsg (m_cookie r) (m_payload_len r) (m_n_caps r) (m_flags r) (m_payload_idx r)
    (m_cap_word r) (m_cap_off r) (m_cap_len r) (m_cap_rights r) v.

(** [struct CapChannel]; index 0/1 of every array is the direction. *)
Record CapChannel := mkChan {
  c_end0_pid : Z;
  c_end1_pid : Z;
  c_qhead : gmap Z Z;
  c_qtail : gmap Z Z;
  c_qdepth : gmap Z Z;
  c_q : gmap Z (gmap Z ChanMsg);
  c_closed : gmap Z Z;
  c_close_evt : gmap Z Z;
  c_close_reason : gmap Z Z;
  c_close_detail : gmap Z Z;
  c_active : Z
}.

#[export] Instance CZero_CapChannel : CZero CapChannel :=
  mkChan 0 0 ∅ ∅ ∅ ∅ ∅ ∅ ∅ ∅ 0.

Definition set_c_end0_pid (v : Z) (r : CapChannel) : CapChannel :=
  mkChan v (c_end1_pid r) (c_qhead r) (c_qtail r) (c_qdepth r) (c_q r) (c_closed r)
    (c_close_evt r) (c_close_reason r) (c_close_detail r) (c_active r).
Definition set_c_end1_pid (v : Z) (r : CapChannel) : CapChannel :=
  mkChan (c_end0_pid r) v (c_qhead r) (c_qtail r) (c_qdepth r) (c_q r) (c_closed r)
    (c_close_evt r) (c_close_reason r) (c_close_detail r) (c_active r).
Definition set_c_qhead (v : gmap Z Z) (r : CapChannel) : CapChannel :=
  mkChan (c_end0_pid r) (c_end1_pid r) v (c_qtail r) (c_qdepth r) (c_q r) (c_closed r)
    (c_close_evt r) (c_close_reason r) (c_close_detail r) (c_active r).
Definition set_c_qtail (v : gmap Z Z) (r : CapChannel) : CapChannel :=
  mkChan (c_end0_pid r) (c_end1_pid r) (c_qhead r) v (c_qdepth r) (c_q r) (c_closed r)
    (c_close_evt r) (c_close_reason r) (c_close_detail r) (c_active r).
Definition set_c_qdepth (v : gmap Z Z) (r : CapChannel) : CapChannel :=
  mkChan (c_end0_pid r) (c_end1_pid r) (c_qhead r) (c_qtail r) v (c_q r) (c_closed r)
    (c_close_evt r) (c_close_reason r) (c_close_detail r) (c_active r).
Definition set_c_q (v : gmap Z (gmap Z ChanMsg)) (r : CapChannel) : CapChannel :=
  mkChan (c_end0_pid r) (c_end1_pid r) (c_qhead r) (c_qtail r) (c_qdepth r) v (c_closed r)
    (c_close_evt r) (c_close_reason r) (c_close_detail r) (c_active r).
Definition set_c_closed (v : gmap Z Z) (r : CapChannel) : CapChannel :=
  mkChan (c_end0_pid r) (c_end1_pid r) (c_qhead r) (c_qtail r) (c_qdepth r) (c_q r) v
    (c_close_evt r) (c_close_reason r) (c_close_detail r) (c_active r).
Definition set_c_close_evt (v : gmap Z Z) (r : CapChannel) : CapChannel :=
  mkChan (c_end0_pid r) (c_end1_pid r) (c_qhead r) (c_qtail r) (c_qdepth r) (c_q r)
    (c_closed r) v (c_close_reason r) (c_close_detail r) (c_active r).
Definition set_c_close_reason (v : gmap Z Z) (r : CapChannel) : CapChannel :=
  mkChan (c_end0_pid r) (c_end1_pid r) (c_qhead r) (c_qtail r) (c_qdepth r) (c_q r)
    (c_closed r) (c_close_evt r) v (c_close_detail r) (c_active r).
Definition set_c_close_detail (v : gmap Z Z) (r : CapChannel) : CapChannel :=
  mkChan (c_end0_pid r) (c_end1_pid r) (c_qhead r) (c_qtail r) (c_qdepth r) (c_q r)
    (c_closed r) (c_close_evt r) (c_close_reason r) v (c_active r).
Definition set_c_active (v : Z) (r : CapChannel) : CapChannel :=
  mkChan (c_end0_pid r) (c_end1_pid r) (c_qhead r) (c_qtail r) (c_qdepth r) (c_q r)
    (c_closed r) (c_close_evt r) (c_close_reason r) (c_close_detail r) v.

(** [struct CapHolder]: one place from which an object can be reached. *)
Record CapHolder := mkHolder {
  h_obj_id : Z;
  h_next : Z;
  h_prev : Z;
  h_pid : Z;
  h_ref : Z;
  h_kind : Z;
  h_qdir : Z;
  h_active : Z
}.

#[export] Instance CZero_CapHolder : CZero CapHolder :=
  mkHolder 0 0 0 0 0 0 0 0.

Definition set_h_next (v : Z) (r : CapHolder) : CapHolder :=
  mkHolder (h_obj_id r) v (h_prev r) (h_pid r) (h_ref r) (h_kind r) (h_qdir r) (h_active r).
Definition set_h_prev (v : Z) (r : CapHolder) : CapHolder :=
  mkHolder (h_obj_id r) (h_next r) v (h_pid r) (h_ref r) (h_kind r) (h_qdir r) (h_active r).
Definition set_h_ref (v : Z) (r : CapHolder) : CapHolder :=
  mkHolder (h_obj_id r) (h_next r) (h_prev r) (h_pid r) v (h_kind r) (h_qdir r) (h_active r).
Definition set_h_active (v : Z) (r : CapHolder) : CapHolder :=
  mkHolder (h_obj_id r) (h_next r) (h_prev r) (h_pid r) (h_ref r) (h_kind r) (h_qdir r) v.

(** [struct CapObject]. *)
Record CapObject := mkObj {
  o_id : Z;
  o_kind : Z;
  o_revoking : Z;
  o_active : Z;
  o_holder_head : Z;
  o_refcount : Z;
  o_max_perms : Z;
  o_phys_base : Z;
  o_npages : Z;
  o_chan_id : Z
}.

#[export] Instance CZero_CapObject : CZero CapObject :=
  mkObj 0 0 0 0 0 0 0 0 0 0.

Definition set_o_revoking (v : Z) (r : CapObject) : CapObject :=
  mkObj (o_id r) (o_kind r) v (o_active r) (o_holder_head r) (o_refcount r) (o_max_perms r)
    (o_phys_base r) (o_npages r) (o_chan_id r).
Definition set_o_active (v : Z) (r : CapObject) : CapObject :=
  mkObj (o_id r) (o_kind r) (o_revoking r) v (o_holder_head r) (o_refcount r) (o_max_perms r)
    (o_phys_base r) (o_npages r) (o_chan_id r).
Definition set_o_holder_head (v : Z) (r : CapObject) : CapObject :=
  mkObj (o_id r) (o_kind r) (o_revoking r) (o_active r) v (o_refcount r) (o_max_perms r)
    (o_phys_base r) (o_npages r) (o_chan_id r).
Definition set_o_refcount (v : Z) (r : CapObject) : CapObject :=
  mkObj (o_id r) (o_kind r) (o_revoking r) (o_active r) (o_holder_head r) v (o_max_perms r)
    (o_phys_base r) (o_npages r) (o_chan_id r).
Definition set_o_max_perms (v : Z) (r : CapObject) : CapObject :=
  mkObj (o_id r) (o_kind r) (o_revoking r) (o_active r) (o_holder_head r) (o_refcount r) v
    (o_phys_base r) (o_npages r) (o_chan_id r).
Definition set_o_phys_base (v : Z) (r : CapObject) : CapObject :=
  mkObj (o_id r) (o_kind r) (o_revoking r) (o_active r) (o_holder_head r) (o_refcount r)
    (o_max_perms r) v (o_npages r) (o_chan_id r).
Definition set_o_npages (v : Z) (r : CapObject) : CapObject :=
  mkObj (o_id r) (o_kind r) (o_revoking r) (o_active r) (o_holder_head r) (o_refcount r)
    (o_max_perms r) (o_phys_base r) v (o_chan_id r).
Definition set_o_chan_id (v : Z) (r : CapObject) : CapObject :=
  mkObj (o_id r) (o_kind r) (o_revoking r) (o_active r) (o_holder_head r) (o_refcount r)
    (o_max_perms r) (o_phys_base r) (o_npages r) v.

(** [struct CapMap]: a mapping derived from a capability. *)
Record CapMap := mkMap {
  mp_obj_id : Z;
  mp_cap_slot : Z;
  mp_npages : Z;
  mp_vaddr : Z;
  mp_active : Z
}.

#[export] Instance CZero_CapMap : CZero CapMap :=
  mkMap 0 0 0 0 0.

Definition set_mp_active (v : Z) (r : CapMap) : CapMap :=
  mkMap (mp_obj_id r) (mp_cap_slot r) (mp_npages r) (mp_vaddr r) v.

(** [struct CapTable]: one process's capability table. *)
Record CapTable := mkTable {
  t_pid : Z;
  t_freelist_head : Z;
  t_slots : gmap Z Z;
  t_maps : gmap Z CapMap
}.

#[export] Instance CZero_CapTable : CZero CapTable :=
  mkTable 0 0 ∅ ∅.

Definition set_t_pid (v : Z) (r : CapTable) : CapTable :=
  mkTable v (t_freelist_head r) (t_slots r) (t_maps r).
Definition set_t_freelist_head (v : Z) (r : CapTable) : CapTable :=
  mkTable (t_pid r) v (t_slots r) (t_maps r).
Definition set_t_slots (v : gmap Z Z) (r : CapTable) : CapTable :=
  mkTable (t_pid r) (t_freelist_head r) v (t_maps r).
Definition set_t_maps (v : gmap Z CapMap) (r : CapTable) : CapTable :=
  mkTable (t_pid r) (t_freelist_head r) (t_slots r) v.

(** * Locks and hooks *)

(** The spinlocks: one per table, channel and object, and the pool lock. *)
Inductive LockId := LTable (ti : Z) | LChan (c : Z) | LObj (o : Z) | LPool.

Definition lock_eqb (a b : LockId) : bool :=
  match a, b with
  | LTable x, LTable y => x =? y
  | LChan x, LChan y => x =? y
  | LObj x, LObj y => x =? y
  | LPool, LPool => true
  | _, _ => false
  end.

(** The calls that leave the capability layer. *)
Inductive Hook :=
| HMapPage (cr3 vaddr paddr perms : Z)
| HUnmapPage (cr3 vaddr : Z)
| HTlbFlush
| HIdentityMapUser (cr3 phys npages perms : Z)
| HWakeChan (chan_id : Z)
| HHandoff
| HWaitChan (chan_id : Z)
| HWaitChans (chan_ids : list Z) (park_syscall deadline : Z)
| HReleasePid (pid : Z)
| HIrqEoi (vector : Z)
| HIrqUnmask (vector : Z)
| HIrqSetMask (vector masked : Z)
| HIoRead (port size : Z)
| HIoWrite (port size val : Z).

(** The capability layer's statics, the frame pool it carves its arena from, the
    spinlocks currently held and the hooks called so far (most recent first). *)
Record KState := mkK {
  k_tables : gmap Z CapTable;
  k_table_pid : gmap Z Z;
  k_objects : gmap Z CapObject;
  k_obj_next : Z;
  k_holders : gmap Z CapHolder;
  k_holder_free : Z;
  k_channels : gmap Z CapChannel;
  k_chan_next : Z;
  k_chan_recycled : gmap Z Z;
  k_chan_recycled_n : Z;
  k_arena_base : Z;
  k_arena_bitmap : gmap Z Z;
  k_arena_owner : gmap Z Z;
  k_arena_free : Z;
  k_payload : gmap Z (gmap Z Z);
  k_payload_next : gmap Z Z;
  k_payload_free : Z;
  k_irq_chan : gmap Z Z;
  k_irq_budget : gmap Z Z;
  k_irq_pending : gmap Z Z;
  k_irq_draining : Z;
  k_registry : SidecarRegistry;
  k_frames : FramePool;
  k_locks : list LockId;
  k_trace : list Hook
}.

Definition set_k_tables (v : gmap Z CapTable) (r : KState) : KState :=
  mkK v (k_table_pid r) (k_objects r) (k_obj_next r) (k_holders r) (k_holder_free r)
    (k_channels r) (k_chan_next r) (k_chan_recycled r) (k_chan_recycled_n r) (k_arena_base r)
    (k_arena_bitmap r) (k_arena_owner r) (k_arena_free r) (k_payload r) (k_payload_next r)
    (k_payload_free r) (k_irq_chan r) (k_irq_budget r) (k_irq_pending r) (k_irq_draining r)
    (k_registry r) (k_frames r) (k_locks r) (k_trace r).
Definition set_k_table_pid (v : gmap Z Z) (r : KState) : KState :=
  mkK (k_tables r) v (k_objects r) (k_obj_next r) (k_holders r) (k_holder_free r)
    (k_channels r) (k_chan_next r) (k_chan_recycled r) (k_chan_recycled_n r) (k_arena_base r)
    (k_arena_bitmap r) (k_arena_owner r) (k_arena_free r) (k_payload r) (k_payload_next r)
    (k_payload_free r) (k_irq_chan r) (k_irq_budget r) (k_irq_pending r) (k_irq_draining r)
    (k_registry r) (k_frames r) (k_locks r) (k_trace r).
Definition set_k_objects (v : gmap Z CapObject) (r : KState) : KState :=
  mkK (k_tables r) (k_table_pid r) v (k_obj_next r) (k_holders r) (k_holder_free r)
    (k_channels r) (k_chan_next r) (k_chan_recycled r) (k_chan_recycled_n r) (k_arena_base r)
    (k_arena_bitmap r) (k_arena_owner r) (k_arena_free r) (k_payload r) (k_payload_next r)
    (k_payload_free r) (k_irq_chan r) (k_irq_budget r) (k_irq_pending r) (k_irq_draining r)
    (k_registry r) (k_frames r) (k_locks r) (k_trace r).
Definition set_k_obj_next (v : Z) (r : KState) : KState :=
  mkK (k_tables r) (k_table_pid r) (k_objects r) v (k_holders r) (k_holder_free r)
    (k_channels r) (k_chan_next r) (k_chan_recycled r) (k_chan_recycled_n r) (k_arena_base r)
    (k_arena_bitmap r) (k_arena_owner r) (k_arena_free r) (k_payload r) (k_payload_next r)
    (k_payload_free r) (k_irq_chan r) (k_irq_budget r) (k_irq_pending r) (k_irq_draining r)
    (k_registry r) (k_frames r) (k_locks r) (k_trace r).
Definition set_k_holders (v : gmap Z CapHolder) (r : KState) : KState :=
  mkK (k_tables r) (k_table_pid r) (k_objects r) (k_obj_next r) v (k_holder_free r)
    (k_channels r) (k_chan_next r) (k_chan_recycled r) (k_chan_recycled_n r) (k_arena_base r)
    (k_arena_bitmap r) (k_arena_owner r) (k_arena_free r) (k_payload r) (k_payload_next r)
    (k_payload_free r) (k_irq_chan r) (k_irq_budget r) (k_irq_pending r) (k_irq_draining r)
    (k_registry r) (k_frames r) (k_locks r) (k_trace r).
Definition set_k_holder_free (v : Z) (r : KState) : KState :=
  mkK (k_tables r) (k_table_pid r) (k_objects r) (k_obj_next r) (k_holders r) v (k_channels r)
    (k_chan_next r) (k_chan_recycled r) (k_chan_recycled_n r) (k_arena_base r)
    (k_arena_bitmap r) (k_arena_owner r) (k_arena_free r) (k_payload r) (k_payload_next r)
    (k_payload_free r) (k_irq_chan r) (k_irq_budget r) (k_irq_pending r) (k_irq_draining r)
    (k_registry r) (k_frames r) (k_locks r) (k_trace r).
Definition set_k_channels (v : gmap Z CapChannel) (r : KState) : KState :=
  mkK (k_tables r) (k_table_pid r) (k_objects r) (k_obj_next r) (k_holders r)
    (k_holder_free r) v (k_chan_next r) (k_chan_recycled r) (k_chan_recycled_n r)
    (k_arena_base r) (k_arena_bitmap r) (k_arena_owner r) (k_arena_free r) (k_payload r)
    (k_payload_next r) (k_payload_free r) (k_irq_chan r) (k_irq_budget r) (k_irq_pending r)
    (k_irq_draining r) (k_registry r) (k_frames r) (k_locks r) (k_trace r).
Definition set_k_chan_next (v : Z) (r : KState) : KState :=
  mkK (k_tables r) (k_table_pid r) (k_objects r) (k_obj_next r) (k_holders r)
    (k_holder_free r) (k_channels r) v (k_chan_recycled r) (k_chan_recycled_n r)
    (k_arena_base r) (k_arena_bitmap r) (k_arena_owner r) (k_arena_free r) (k_payload r)
    (k_payload_next r) (k_payload_free r) (k_irq_chan r) (k_irq_budget r) (k_irq_pending r)
    (k_irq_draining r) (k_registry r) (k_frames r) (k_locks r) (k_trace r).
Definition set_k_chan_recycled (v : gmap Z Z) (r : KState) : KState :=
  mkK (k_tables r) (k_table_pid r) (k_objects r) (k_obj_next r) (k_holders r)
    (k_holder_free r) (k_channels r) (k_chan_next r) v (k_chan_recycled_n r) (k_arena_base r)
    (k_arena_bitmap r) (k_arena_owner r) (k_arena_free r) (k_payload r) (k_payload_next r)
    (k_payload_free r) (k_irq_chan r) (k_irq_budget r) (k_irq_pending r) (k_irq_draining r)
    (k_registry r) (k_frames r) (k_locks r) (k_trace r).
Definition set_k_chan_recycled_n (v : Z) (r : KState) : KState :=
  mkK (k_tables r) (k_table_pid r) (k_objects r) (k_obj_next r) (k_holders r)
    (k_holder_free r) (k_channels r) (k_chan_next r) (k_chan_recycled r) v (k_arena_base r)
    (k_arena_bitmap r) (k_arena_owner r) (k_arena_free r) (k_payload r) (k_payload_next r)
    (k_payload_free r) (k_irq_chan r) (k_irq_budget r) (k_irq_pending r) (k_irq_draining r)
    (k_registry r) (k_frames r) (k_locks r) (k_trace r).
Definition set_k_arena_base (v : Z) (r : KState) : KState :=
  mkK (k_tables r) (k_table_pid r) (k_objects r) (k_obj_next r) (k_holders r)
    (k_holder_free r) (k_channels r) (k_chan_next r) (k_chan_recycled r) (k_chan_recycled_n r)
    v (k_arena_bitmap r) (k_arena_owner r) (k_arena_free r) (k_payload r) (k_payload_next r)
    (k_payload_free r) (k_irq_chan r) (k_irq_budget r) (k_irq_pending r) (k_irq_draining r)
    (k_registry r) (k_frames r) (k_locks r) (k_trace r).
Definition set_k_arena_bitmap (v : gmap Z Z) (r : KState) : KState :=
  mkK (k_tables r) (k_table_pid r) (k_objects r) (k_obj_next r) (k_holders r)
    (k_holder_free r) (k_channels r) (k_chan_next r) (k_chan_recycled r) (k_chan_recycled_n r)
    (k_arena_base r) v (k_arena_owner r) (k_arena_free r) (k_payload r) (k_payload_next r)
    (k_payload_free r) (k_irq_chan r) (k_irq_budget r) (k_irq_pending r) (k_irq_draining r)
    (k_registry r) (k_frames r) (k_locks r) (k_trace r).
Definition set_k_arena_owner (v : gmap Z Z) (r : KState) : KState :=
  mkK (k_tables r) (k_table_pid r) (k_objects r) (k_obj_next r) (k_holders r)
    (k_holder_free r) (k_channels r) (k_chan_next r) (k_chan_recycled r) (k_chan_recycled_n r)
    (k_arena_base r) (k_arena_bitmap r) v (k_arena_free r) (k_payload r) (k_payload_next r)
    (k_payload_free r) (k_irq_chan r) (k_irq_budget r) (k_irq_pending r) (k_irq_draining r)
    (k_registry r) (k_frames r) (k_locks r) (k_trace r).
Definition set_k_arena_free (v : Z) (r : KState) : KState :=
  mkK (k_tables r) (k_table_pid r) (k_objects r) (k_obj_next r) (k_holders r)
    (k_holder_free r) (k_channels r) (k_chan_next r) (k_chan_recycled r) (k_chan_recycled_n r)
    (k_arena_base r) (k_arena_bitmap r) (k_arena_owner r) v (k_payload r) (k_payload_next r)
    (k_payload_free r) (k_irq_chan r) (k_irq_budget r) (k_irq_pending r) (k_irq_draining r)
    (k_registry r) (k_frames r) (k_locks r) (k_trace r).
Definition set_k_payload (v : gmap Z (gmap Z Z)) (r : KState) : KState :=
  mkK (k_tables r) (k_table_pid r) (k_objects r) (k_obj_next r) (k_holders r)
    (k_holder_free r) (k_channels r) (k_chan_next r) (k_chan_recycled r) (k_chan_recycled_n r)
    (k_arena_base r) (k_arena_bitmap r) (k_arena_owner r) (k_arena_free r) v
    (k_payload_next r) (k_payload_free r) (k_irq_chan r) (k_irq_budget r) (k_irq_pending r)
    (k_irq_draining r) (k_registry r) (k_frames r) (k_locks r) (k_trace r).
Definition set_k_payload_next (v : gmap Z Z) (r : KState) : KState :=
  mkK (k_tables r) (k_table_pid r) (k_objects r) (k_obj_next r) (k_holders r)
    (k_holder_free r) (k_channels r) (k_chan_next r) (k_chan_recycled r) (k_chan_recycled_n r)
    (k_arena_base r) (k_arena_bitmap r) (k_arena_owner r) (k_arena_free r) (k_payload r) v
    (k_payload_free r) (k_irq_chan r) (k_irq_budget r) (k_irq_pending r) (k_irq_draining r)
    (k_registry r) (k_frames r) (k_locks r) (k_trace r).
Definition set_k_payload_free (v : Z) (r : KState) : KState :=
  mkK (k_tables r) (k_table_pid r) (k_objects r) (k_obj_next r) (k_holders r)
    (k_holder_free r) (k_channels r) (k_chan_next r) (k_chan_recycled r) (k_chan_recycled_n r)
    (k_arena_base r) (k_arena_bitmap r) (k_arena_owner r) (k_arena_free r) (k_payload r)
    (k_payload_next r) v (k_irq_chan r) (k_irq_budget r) (k_irq_pending r) (k_irq_draining r)
    (k_registry r) (k_frames r) (k_locks r) (k_trace r).
Definition set_k_irq_chan (v : gmap Z Z) (r : KState) : KState :=
  mkK (k_tables r) (k_table_pid r) (k_objects r) (k_obj_next r) (k_holders r)
    (k_holder_free r) (k_channels r) (k_chan_next r) (k_chan_recycled r) (k_chan_recycled_n r)
    (k_arena_base r) (k_arena_bitmap r) (k_arena_owner r) (k_arena_free r) (k_payload r)
    (k_payload_next r) (k_payload_free r) v (k_irq_budget r) (k_irq_pending r)
    (k_irq_draining r) (k_registry r) (k_frames r) (k_locks r) (k_trace r).
Definition set_k_irq_budget (v : gmap Z Z) (r : KState) : KState :=
  mkK (k_tables r) (k_table_pid r) (k_objects r) (k_obj_next r) (k_holders r)
    (k_holder_free r) (k_channels r) (k_chan_next r) (k_chan_recycled r) (k_chan_recycled_n r)
    (k_arena_base r) (k_arena_bitmap r) (k_arena_owner r) (k_arena_free r) (k_payload r)
    (k_payload_next r) (k_payload_free r) (k_irq_chan r) v (k_irq_pending r)
    (k_irq_draining r) (k_registry r) (k_frames r) (k_locks r) (k_trace r).
Definition set_k_irq_pending (v : gmap Z Z) (r : KState) : KState :=
  mkK (k_tables r) (k_table_pid r) (k_objects r) (k_obj_next r) (k_holders r)
    (k_holder_free r) (k_channels r) (k_chan_next r) (k_chan_recycled r) (k_chan_recycled_n r)
    (k_arena_base r) (k_arena_bitmap r) (k_arena_owner r) (k_arena_free r) (k_payload r)
    (k_payload_next r) (k_payload_free r) (k_irq_chan r) (k_irq_budget r) v (k_irq_draining r)
    (k_registry r) (k_frames r) (k_locks r) (k_trace r).
Definition set_k_irq_draining (v : Z) (r : KState) : KState :=
  mkK (k_tables r) (k_table_pid r) (k_objects r) (k_obj_next r) (k_holders r)
    (k_holder_free r) (k_channels r) (k_chan_next r) (k_chan_recycled r) (k_chan_recycled_n r)
    (k_arena_base r) (k_arena_bitmap r) (k_arena_owner r) (k_arena_free r) (k_payload r)
    (k_payload_next r) (k_payload_free r) (k_irq_chan r) (k_irq_budget r) (k_irq_pending r) v
    (k_registry r) (k_frames r) (k_locks r) (k_trace r).
Definition set_k_registry (v : SidecarRegistry) (r : KState) : KState :=
  mkK (k_tables r) (k_table_pid r) (k_objects r) (k_obj_next r) (k_holders r)
    (k_holder_free r) (k_channels r) (k_chan_next r) (k_chan_recycled r) (k_chan_recycled_n r)
    (k_arena_base r) (k_arena_bitmap r) (k_arena_owner r) (k_arena_free r) (k_payload r)
    (k_payload_next r) (k_payload_free r) (k_irq_chan r) (k_irq_budget r) (k_irq_pending r)
    (k_irq_draining r) v (k_frames r) (k_locks r) (k_trace r).
Definition set_k_frames (v : FramePool) (r : KState) : KState :=
  mkK (k_tables r) (k_table_pid r) (k_objects r) (k_obj_next r) (k_holders r)
    (k_holder_free r) (k_channels r) (k_chan_next r) (k_chan_recycled r) (k_chan_recycled_n r)
    (k_arena_base r) (k_arena_bitmap r) (k_arena_owner r) (k_arena_free r) (k_payload r)
    (k_payload_next r) (k_payload_free r) (k_irq_chan r) (k_irq_budget r) (k_irq_pending r)
    (k_irq_draining r) (k_registry r) v (k_locks r) (k_trace r).
Definition set_k_locks (v : list LockId) (r : KState) : KState :=
  mkK (k_tables r) (k_table_pid r) (k_objects r) (k_obj_next r) (k_holders r)
    (k_holder_free r) (k_channels r) (k_chan_next r) (k_chan_recycled r) (k_chan_recycled_n r)
    (k_arena_base r) (k_arena_bitmap r) (k_arena_owner r) (k_arena_free r) (k_payload r)
    (k_payload_next r) (k_payload_free r) (k_irq_chan r) (k_irq_budget r) (k_irq_pending r)
    (k_irq_draining r) (k_registry r) (k_frames r) v (k_trace r).
Definition set_k_trace (v : list Hook) (r : KState) : KState :=
  mkK (k_tables r) (k_table_pid r) (k_objects r) (k_obj_next r) (k_holders r)
    (k_holder_free r) (k_channels r) (k_chan_next r) (k_chan_recycled r) (k_chan_recycled_n r)
    (k_arena_base r) (k_arena_bitmap r) (k_arena_owner r) (k_arena_free r) (k_payload r)
    (k_payload_next r) (k_payload_free r) (k_irq_chan r) (k_irq_budget r) (k_irq_pending r)
    (k_irq_draining r) (k_registry r) (k_frames r) (k_locks r) v.

(** What the hooks answer.  Each answer may depend on everything the kernel has
    been asked to do so far; [cap_proc_cr3] is the page-table root of a process,
    0 when it has none, and [kernel_image_end] is the linker's symbol. *)
Class CapEnv := {
  cap_proc_cr3 : Z → Z;
  kernel_image_end : Z;
  cap_arch_map_page_ret : list Hook → Z → Z → Z → Z → Z;
  cap_io_read_ret : list Hook → Z → Z → Z
}.

(** The weak defaults of cap.c: no page tables, no scheduler. *)
Definition weak_env : CapEnv := {|
  cap_proc_cr3 := fun _ => 0;
  kernel_image_end := 0x200000;
  cap_arch_map_page_ret := fun _ _ _ _ _ => CAP_ENOSYS;
  cap_io_read_ret := fun _ _ _ => 0
|}.

(** A machine in which every process has a page table and mapping succeeds. *)
Definition paged_env : CapEnv := {|
  cap_proc_cr3 := fun pid => if pid =? 0 then 0 else pid * 4096;
  kernel_image_end := 0x200000;
  cap_arch_map_page_ret := fun _ _ _ _ _ => 0;
  cap_io_read_ret := fun _ port _ => port
|}.

(** * The monad *)

(** A C execution either returns or goes wrong: an access outside an array, or
    a spin that never ends (a lock already held, a list that is not one). *)
Inductive fault := OutOfBounds | Spin.
Inductive outcome (A : Type) := Ok (a : A) (s : KState) | Fault (f : fault).
Arguments Ok {A} a s.
Arguments Fault {A} f.

Definition M (A : Type) := KState → outcome A.

Definition ret {A} (a : A) : M A := fun s => Ok a s.
Definition throw {A} (f : fault) : M A := fun _ => Fault f.
Definition bind {A B} (m : M A) (k : A → M B) : M B := fun s =>
  match m s with
  | Ok a s' => k a s'
  | Fault f => Fault f
  end.
Definition gets {A} (f : KState → A) : M A := fun s => Ok (f s) s.
Definition modify (f : KState → KState) : M unit := fun s => Ok tt (f s).

Declare Scope cap_scope.
Delimit Scope cap_scope with cap.
Notation "'let*' x := m 'in' k" := (bind m (fun x => k))
  (at level 10, x name, m at level 200, k at level 200) : cap_scope.
Notation "'let*' ' p := m 'in' k" := (bind m (fun x => let 'p := x in k))
  (at level 10, p strict pattern, m at level 200, k at level 200) : cap_scope.
Notation "'do*' m ; k" := (bind m (fun _ => k))
  (at level 10, m at level 200, k at level 200) : cap_scope.
#[local] Open Scope cap_scope.

Definition hook (h : Hook) : M unit := modify (fun s => set_k_trace (h :: k_trace s) s).

(** An access to index [i] of an array of [n] elements. *)
Definition in_bounds (i n : Z) : M unit :=
  if (0 <=? i) && (i <? n) then ret tt else throw OutOfBounds.

(** [for (i = lo; i < lo + n; i++) body], carrying the loop's locals. *)
Fixpoint for_each {A} (n : nat) (i : Z) (body : Z → A → M A) (a : A) : M A :=
  match n with
  | O => ret a
  | S n' => let* a := body i a in for_each n' (i + 1) body a
  end.

(** How one iteration of a loop with [break] or [return] ends. *)
Inductive ctl (A R : Type) := Next (a : A) | Break (a : A) | Return (r : R).
Arguments Next {A R} a.
Arguments Break {A R} a.
Arguments Return {A R} r.

Fixpoint for_ctl {A R} (n : nat) (i : Z) (body : Z → A → M (ctl A R)) (a : A) : M (A + R) :=
  match n with
  | O => ret (inl a)
  | S n' =>
      let* c := body i a in
      match c with
      | Next a => for_ctl n' (i + 1) body a
      | Break a => ret (inl a)
      | Return r => ret (inr r)
      end
  end.

(** A [while] loop; running out of [fuel] is a spin. *)
Fixpoint while_ctl {A R} (fuel : nat) (body : A → M (ctl A R)) (a : A) : M (A + R) :=
  match fuel with
  | O => throw Spin
  | S n =>
      let* c := body a in
      match c with
      | Next a => while_ctl n body a
      | Break a => ret (inl a)
      | Return r => ret (inr r)
      end
  end.

(** * Spinlocks *)

Definition lock_held (l : LockId) (s : KState) : bool := existsb (lock_eqb l) (k_locks s).
Definition lock_drop (l : LockId) (ls : list LockId) : list LockId :=
  List.filter (fun l' => negb (lock_eqb l l')) ls.

Definition cap_lock (l : LockId) : M unit := fun s =>
  if lock_held l s then Fault Spin else Ok tt (set_k_locks (l :: k_locks s) s).
Definition cap_unlock (l : LockId) : M unit :=
  modify (fun s => set_k_locks (lock_drop l (k_locks s)) s).
Definition cap_lock_init (l : LockId) : M unit := cap_unlock l.

(** * Field accesses *)

Definition table (ti : Z) (s : KState) : CapTable := (k_tables s).[ti].
Definition object (o : Z) (s : KState) : CapObject := (k_objects s).[o].
Definition holder (h : Z) (s : KState) : CapHolder := (k_holders s).[h].
Definition channel (c : Z) (s : KState) : CapChannel := (k_channels s).[c].
Definition slot (ti i : Z) (s : KState) : Z := (t_slots (table ti s)).[i].
Definition message (c d e : Z) (s : KState) : ChanMsg := (c_q (channel c s)).[d].[e].

Definition upd_table (ti : Z) (f : CapTable → CapTable) (s : KState) : KState :=
  set_k_tables (k_tables s).[ti <- f (table ti s)] s.
Definition upd_object (o : Z) (f : CapObject → CapObject) (s : KState) : KState :=
  set_k_objects (k_objects s).[o <- f (object o s)] s.
Definition upd_holder (h : Z) (f : CapHolder → CapHolder) (s : KState) : KState :=
  set_k_holders (k_holders s).[h <- f (holder h s)] s.
Definition upd_channel (c : Z) (f : CapChannel → CapChannel) (s : KState) : KState :=
  set_k_channels (k_channels s).[c <- f (channel c s)] s.
Definition upd_slot (ti i w : Z) (s : KState) : KState :=
  upd_table ti (fun t => set_t_slots (t_slots t).[i <- w] t) s.
Definition upd_message (c d e : Z) (f : ChanMsg → ChanMsg) (s : KState) : KState :=
  upd_channel c (fun ch =>
    set_c_q (c_q ch).[d <- (c_q ch).[d].[e <- f ((c_q ch).[d].[e])]] ch) s.

(** [t->slots[i].word] and its assignment, with the array bound of the struct. *)
Definition get_slot (ti i : Z) : M Z := do* in_bounds i CAP_TABLE_ENTRIES; gets (slot ti i).
Definition set_slot (ti i w : Z) : M unit :=
  do* in_bounds i CAP_TABLE_ENTRIES; modify (upd_slot ti i w).
Definition get_holder (h : Z) : M CapHolder := do* in_bounds h CAP_HOLDER_MAX; gets (holder h).
Definition set_holder (h : Z) (f : CapHolder → CapHolder) : M unit :=
  do* in_bounds h CAP_HOLDER_MAX; modify (upd_holder h f).
Definition get_channel (c : Z) : M CapChannel := do* in_bounds c CAP_CHAN_MAX; gets (channel c).
Definition set_channel (c : Z) (f : CapChannel → CapChannel) : M unit :=
  do* in_bounds c CAP_CHAN_MAX; modify (upd_channel c f).
Definition get_object (o : Z) : M CapObject := gets (object o).
Definition set_object (o : Z) (f : CapObject → CapObject) : M unit := modify (upd_object o f).
