(* ===== verification/CapPools.v ===== *)
(** The pools of kernel/cap.c: channel ids, message payload buffers, capability
    tables and their slot freelists, objects, the holder pool with its per-object
    doubly linked lists, the shared-memory arena, and the mapping helpers. *)

From stdpp Require Import base gmap list list_numbers.
From Stdlib Require Import ZArith Lia Bool.
From S2P Require Import Prelude FramePool CapWord Sidecar CapState.
#[local] Open Scope Z_scope.
#[local] Open Scope carr_scope.
#[local] Open Scope cap_scope.

(** * Channel ids *)

Definition cap_chan_id_take : M Z :=
  do* cap_lock LPool;
  let* n := gets k_chan_recycled_n in
  let* next := gets k_chan_next in
  let* id :=
    if 0 <? n then
      do* modify (set_k_chan_recycled_n (n - 1));
      gets (fun s => (k_chan_recycled s).[n - 1])
    else if next <? CAP_CHAN_MAX then
      do* modify (set_k_chan_next (next + 1));
      ret next
    else ret CAP_CHAN_NONE in
  do* cap_unlock LPool;
  ret id.

Definition cap_chan_id_put (chan_id : Z) : M unit :=
  if CAP_CHAN_MAX <=? chan_id then ret tt else
  do* cap_lock LPool;
  let* n := gets k_chan_recycled_n in
  do* (if n <? CAP_CHAN_MAX then
         do* modify (fun s => set_k_chan_recycled (k_chan_recycled s).[n <- chan_id] s);
         modify (set_k_chan_recycled_n (n + 1))
       else ret tt);
  cap_unlock LPool.

(** * The payload staging pool *)

Definition cap_msg_payload_init : M unit :=
  do* modify (set_k_payload_free 0);
  do* for_each (Z.to_nat (CAP_MSG_PAYLOAD_POOL - 1)) 0
        (fun i _ => modify (fun s => set_k_payload_next (k_payload_next s).[i <- u16 (i + 1)] s)) tt;
  modify (fun s =>
    set_k_payload_next (k_payload_next s).[CAP_MSG_PAYLOAD_POOL - 1 <- CAP_FREELIST_END] s).

(** The compare-and-exchange succeeds the first time on one core. *)
Definition cap_msg_payload_alloc : M (option Z) :=
  let* head := gets k_payload_free in
  if head =? CAP_FREELIST_END then ret None else
  do* in_bounds head CAP_MSG_PAYLOAD_POOL;
  let* next := gets (fun s => (k_payload_next s).[head]) in
  do* modify (set_k_payload_free next);
  ret (Some head).

Definition cap_msg_payload_free (idx : Z) : M unit :=
  if (idx =? CAP_NONE) || (CAP_MSG_PAYLOAD_POOL <=? idx) then ret tt else
  let* head := gets k_payload_free in
  do* modify (fun s => set_k_payload_next (k_payload_next s).[idx <- head] s);
  modify (set_k_payload_free idx).

(** * Tables and slots *)

(** The index of [pid]'s table, binding a free one on first use; -1 when there
    is none. *)
Definition cap_table_index (pid : Z) : M Z :=
  if pid =? 0 then ret 0 else
  let* tp := gets k_table_pid in
  match find_up (Z.to_nat CAP_TABLE_MAX) 0 (fun i => tp.[i] =? pid) with
  | Some i => ret i
  | None =>
      match find_up (Z.to_nat (CAP_TABLE_MAX - 1)) 1 (fun i => tp.[i] =? 0) with
      | Some i =>
          do* modify (set_k_table_pid tp.[i <- pid]);
          do* modify (upd_table i (set_t_pid pid));
          ret i
      | None => ret (-1)
      end
  end.

(** Pure lookup: never binds. *)
Definition cap_table_find (pid : Z) (s : KState) : Z :=
  if pid =? 0 then 0 else
  match find_up (Z.to_nat CAP_TABLE_MAX) 0 (fun i => (k_table_pid s).[i] =? pid) with
  | Some i => i
  | None => -1
  end.

(** [i] runs down from CAP_TABLE_ENTRIES - 1 to 0. *)
Definition freelist_step (k : Z) (t : CapTable) : CapTable :=
  let i := CAP_TABLE_ENTRIES - 1 - k in
  set_t_freelist_head (u16 i) (set_t_slots (t_slots t).[i <- free_word (t_freelist_head t)] t).

Definition cap_table_freelist_init (ti : Z) : M unit :=
  modify (upd_table ti (fun t =>
    for_up (Z.to_nat CAP_TABLE_ENTRIES) 0 freelist_step (set_t_freelist_head CAP_FREELIST_END t))).

Definition cap_slot_push (ti idx : Z) : M unit :=
  let* t := gets (table ti) in
  do* set_slot ti idx (free_word (t_freelist_head t));
  modify (upd_table ti (set_t_freelist_head idx)).

Definition cap_slot_pop (ti : Z) : M (option Z) :=
  let* t := gets (table ti) in
  if t_freelist_head t =? CAP_FREELIST_END then ret None else
  let idx := t_freelist_head t in
  let* w := get_slot ti idx in
  let next := w_obj w in
  do* modify (upd_table ti (set_t_freelist_head
                (if next =? CAP_FREELIST_END then CAP_FREELIST_END else u16 next)));
  do* set_slot ti idx 0;
  ret (Some idx).

(** * Objects *)

(** [cap_object_get]: a live object with that id, or a null pointer. *)
Definition cap_object_get (obj_id : Z) (s : KState) : option Z :=
  if CAP_OBJECT_MAX <=? obj_id then None
  else if (o_active (object obj_id s) =? 0) || negb (o_id (object obj_id s) =? obj_id) then None
  else Some obj_id.

Definition cap_object_alloc (kind : Z) : M (option Z) :=
  do* cap_lock LPool;
  let* id := gets k_obj_next in
  if CAP_OBJECT_MAX <=? id then
    do* cap_unlock LPool; ret None
  else
    do* modify (set_k_obj_next (id + 1));
    do* cap_unlock LPool;
    do* cap_lock_init (LObj id);
    do* set_object id (fun _ => mkObj id kind 0 1 CAP_FREELIST_END 0 0 0 0 CAP_OBJ_CHAN_NONE);
    ret (Some id).

(** Every interrupt vector bound to channel [c] loses its binding. *)
Definition irq_forget (c : Z) (m : gmap Z Z) : gmap Z Z :=
  for_up (Z.to_nat CAP_IRQ_VECTORS) 0 (fun v m => if m.[v] =? c then m.[v <- CAP_NONE] else m) m.

Definition cap_object_destroy (obj_id : Z) : M unit :=
  let* o := get_object obj_id in
  do* (if negb (o_active o =? 0) && (o_kind o =? CAP_OBJ_KIND_CHAN) && (o_chan_id o <? CAP_CHAN_MAX)
       then
         do* modify (fun s => set_k_irq_chan (irq_forget (u16 (o_chan_id o)) (k_irq_chan s)) s);
         cap_chan_id_put (o_chan_id o)
       else ret tt);
  set_object obj_id (fun o =>
    set_o_refcount 0 (set_o_holder_head CAP_FREELIST_END (set_o_revoking 1 (set_o_active 0 o)))).

(** * Holders *)

Definition cap_holder_alloc (obj_id kind pid ref qdir : Z) : M (option Z) :=
  do* cap_lock LPool;
  let* h := gets k_holder_free in
  if h =? CAP_FREELIST_END then
    do* cap_unlock LPool; ret None
  else
    let* node := get_holder h in
    do* modify (set_k_holder_free (h_next node));
    do* cap_unlock LPool;
    do* set_holder h (fun _ => mkHolder obj_id CAP_FREELIST_END CAP_FREELIST_END pid ref kind qdir 1);
    ret (Some h).

Definition cap_holder_free (h : Z) : M unit :=
  do* set_holder h (fun n => set_h_prev CAP_FREELIST_END (set_h_active 0 n));
  do* cap_lock LPool;
  let* head := gets k_holder_free in
  do* set_holder h (set_h_next head);
  do* modify (set_k_holder_free h);
  cap_unlock LPool.

Definition cap_holder_link (h o : Z) : M unit :=
  let* ob := get_object o in
  do* set_holder h (set_h_next (o_holder_head ob));
  do* (if negb (o_holder_head ob =? CAP_FREELIST_END)
       then set_holder (o_holder_head ob) (set_h_prev h) else ret tt);
  set_object o (fun ob => set_o_refcount (u32 (o_refcount ob + 1)) (set_o_holder_head h ob)).

Definition cap_holder_insert (obj_id kind pid ref qdir : Z) : M Z :=
  let* r := cap_holder_alloc obj_id kind pid ref qdir in
  match r with
  | None => ret (-1)
  | Some h => do* cap_holder_link h obj_id; ret 0
  end.

Definition holder_matches (kind pid ref : Z) (n : CapHolder) : bool :=
  (h_kind n =? kind) && (h_pid n =? pid) && (h_ref n =? ref).

(** Unlink and free node [h] of object [o]'s list. *)
Definition holder_unlink (o h : Z) : M unit :=
  let* node := get_holder h in
  do* (if negb (h_prev node =? CAP_FREELIST_END)
       then set_holder (h_prev node) (set_h_next (h_next node))
       else set_object o (set_o_holder_head (h_next node)));
  let* node := get_holder h in
  do* (if negb (h_next node =? CAP_FREELIST_END)
       then set_holder (h_next node) (set_h_prev (h_prev node)) else ret tt);
  do* cap_holder_free h;
  set_object o (fun ob =>
    if 0 <? o_refcount ob then set_o_refcount (o_refcount ob - 1) ob else ob).

(** More iterations than there are nodes. *)
Definition holder_fuel : nat := Z.to_nat (CAP_HOLDER_MAX + 1).

Definition cap_holder_remove (obj_id kind pid ref : Z) : M unit :=
  let* o := get_object obj_id in
  do* while_ctl (R := unit) holder_fuel (fun h =>
    if h =? CAP_FREELIST_END then ret (Break h) else
    let* node := get_holder h in
    if holder_matches kind pid ref node then
      do* holder_unlink obj_id h; ret (Return tt)
    else ret (Next (h_next node))) (o_holder_head o);
  ret tt.

(** * The arena *)

Definition cap_arena_init : M unit :=
  let* fr := gets k_frames in
  let r := frame_pool_reserve_contiguous CAP_ARENA_FRAMES 512 fr in
  do* modify (set_k_frames (snd r));
  do* modify (set_k_arena_base (fst r));
  if fst r =? 0 then ret tt else modify (set_k_arena_free CAP_ARENA_FRAMES).

Definition cap_arena_frame_free (f : Z) (s : KState) : bool :=
  Z.land (k_arena_bitmap s).[Z.shiftr f 3] (Z.shiftl 1 (Z.land f 7)) =? 0.

Definition cap_frame_in_arena (paddr : Z) (s : KState) : bool :=
  negb (k_arena_base s =? 0) && (k_arena_base s <=? paddr) &&
  (paddr <? k_arena_base s + CAP_ARENA_SIZE).

Definition cap_arena_frame_mark (f owner : Z) (s : KState) : KState :=
  let byte := Z.shiftr f 3 in
  set_k_arena_owner (k_arena_owner s).[f <- owner]
    (set_k_arena_bitmap
       (k_arena_bitmap s).[byte <- u8 (Z.lor (k_arena_bitmap s).[byte] (Z.shiftl 1 (Z.land f 7)))] s).

Definition cap_arena_frame_clear (f : Z) (s : KState) : KState :=
  let byte := Z.shiftr f 3 in
  set_k_arena_free (u32 (k_arena_free s + 1))
    (set_k_arena_owner (k_arena_owner s).[f <- 0]
       (set_k_arena_bitmap
          (k_arena_bitmap s).[byte <- Z.land (k_arena_bitmap s).[byte]
                                         (u8_not (Z.shiftl 1 (Z.land f 7)))] s)).

(** No frame of [start, start + npages) is taken. *)
Definition arena_run_free (npages : Z) (s : KState) (start : Z) : bool :=
  match find_up (Z.to_nat npages) start (fun f => negb (cap_arena_frame_free f s)) with
  | Some _ => false | None => true
  end.

(** The start frame of a fresh run owned by [owner], or 0xFFFFFFFF. *)
Definition cap_arena_alloc_run (npages owner : Z) : M Z :=
  if (npages =? 0) || (CAP_ARENA_FRAMES <? npages) then ret 0xFFFFFFFF else
  let* found := gets (fun s =>
    find_up (Z.to_nat (CAP_ARENA_FRAMES - npages + 1)) 0 (arena_run_free npages s)) in
  match found with
  | None => ret 0xFFFFFFFF
  | Some start =>
      do* modify (for_up (Z.to_nat npages) start (fun f => cap_arena_frame_mark f owner));
      do* modify (fun s => set_k_arena_free (u32 (k_arena_free s - npages)) s);
      ret start
  end.

(** [for (i = 0; i < npages; i++) cap_arena_frame_clear(start + i)] *)
Definition arena_clear_run (start npages : Z) : M unit :=
  modify (for_up (Z.to_nat npages) start cap_arena_frame_clear).

(** * Mappings *)

Section Hooks.
Context `{CapEnv}.

Definition cap_arch_map_page (cr3 vaddr paddr perms : Z) : M Z :=
  let* tr := gets k_trace in
  do* hook (HMapPage cr3 vaddr paddr perms);
  ret (cap_arch_map_page_ret tr cr3 vaddr paddr perms).

(** [cap_arch_unmap_page] over the pages [0 .. n) from [vaddr]. *)
Definition unmap_pages (cr3 vaddr n : Z) : M unit :=
  for_each (Z.to_nat n) 0 (fun p _ => hook (HUnmapPage cr3 (u64 (vaddr + p * 4096)))) tt.

Definition upd_map (ti i : Z) (f : CapMap → CapMap) (s : KState) : KState :=
  upd_table ti (fun t => set_t_maps (t_maps t).[i <- f (t_maps t).[i]] t) s.

Definition cap_table_unmap_object (ti obj_id : Z) : M unit :=
  let* t := gets (table ti) in
  let cr3 := cap_proc_cr3 (t_pid t) in
  do* for_each (Z.to_nat CAP_MAP_MAX) 0 (fun i _ =>
    let* t := gets (table ti) in
    let m := (t_maps t).[i] in
    if (mp_active m =? 0) || negb (mp_obj_id m =? obj_id) then ret tt else
    do* unmap_pages cr3 (mp_vaddr m) (mp_npages m);
    modify (upd_map ti i (set_mp_active 0))) tt;
  if negb (cr3 =? 0) then hook HTlbFlush else ret tt.

End Hooks.

(** [lo < mhi && mlo < hi] for a live record of another object. *)
Definition map_conflicts (except_obj vaddr npages : Z) (m : CapMap) : bool :=
  if (mp_active m =? 0) || (mp_obj_id m =? except_obj) then false else
  (vaddr <? u64 (mp_vaddr m + mp_npages m * 4096)) && (mp_vaddr m <? u64 (vaddr + npages * 4096)).

Definition cap_maps_overlap (t : CapTable) (except_obj vaddr npages : Z) : bool :=
  match find_up (Z.to_nat CAP_MAP_MAX) 0
          (fun i => map_conflicts except_obj vaddr npages (t_maps t).[i]) with
  | Some _ => true | None => false
  end.
