(* ===== verification/CapOps.v ===== *)
(** The operations of kernel/cap.c that create capabilities: [cap_init],
    [cap_create_mem], [cap_arena_alloc], [cap_chan_create], and the release of a
    dead object's resources. *)

From stdpp Require Import base gmap list list_numbers.
From Stdlib Require Import ZArith Lia Bool.
From S2P Require Import Prelude FramePool CapWord Sidecar CapState CapPools.
#[local] Open Scope Z_scope.
#[local] Open Scope carr_scope.
#[local] Open Scope cap_scope.

(** * Initialisation *)

Definition cap_init : M unit :=
  do* for_each (Z.to_nat CAP_IRQ_VECTORS) 0 (fun i _ =>
        do* modify (fun s => set_k_irq_chan (k_irq_chan s).[i <- CAP_NONE] s);
        modify (fun s => set_k_irq_budget (k_irq_budget s).[i <- 0] s)) tt;
  do* for_each (Z.to_nat CAP_TABLE_MAX) 0 (fun i _ =>
        do* cap_lock_init (LTable i);
        do* modify (fun s => set_k_table_pid (k_table_pid s).[i <- 0] s);
        do* modify (upd_table i (set_t_pid 0));
        cap_table_freelist_init i) tt;
  do* for_each (Z.to_nat CAP_HOLDER_MAX) 0 (fun i _ =>
        modify (upd_holder i (fun n => set_h_next (u16 (i + 1)) (set_h_active 0 n)))) tt;
  do* modify (set_k_holder_free 0);
  do* modify (upd_holder (CAP_HOLDER_MAX - 1) (set_h_next CAP_FREELIST_END));
  do* modify (set_k_obj_next 0);
  do* modify (set_k_chan_next 0);
  do* modify (set_k_chan_recycled_n 0);
  do* cap_lock_init LPool;
  do* cap_arena_init;
  do* cap_msg_payload_init;
  modify (fun s => set_k_registry (sidecar_registry_init (k_registry s)) s).

(** The statics of the loaded image, over a frame pool. *)
Definition kernel_bss (frames : FramePool) : KState :=
  mkK ∅ ∅ ∅ 0 ∅ 0 ∅ 0 ∅ 0 0 ∅ ∅ 0 ∅ ∅ CAP_FREELIST_END ∅ ∅ ∅ 0 registry_bss frames [] [].

(** * cap_create_mem *)

(** The object-table scan: a live MEM object overlapping [phys_base, end). *)
Definition mem_overlaps (phys_base fin : Z) (o : CapObject) : bool :=
  if (o_active o =? 0) || negb (o_kind o =? CAP_OBJ_KIND_MEM) then false else
  (phys_base <? u64 (o_phys_base o + o_npages o * 4096)) && (o_phys_base o <? fin).

Definition any_mem_overlap (phys_base fin : Z) (s : KState) : bool :=
  match find_up (Z.to_nat CAP_OBJECT_MAX) 0 (fun i => mem_overlaps phys_base fin (object i s)) with
  | Some _ => true | None => false
  end.

(** [perm == 0 || (perm & ~(R|W|X|MAP))] *)
Definition bad_perm (perm : Z) : bool :=
  (perm =? 0) || negb (Z.ldiff perm (Z.lor (Z.lor CAP_PERM_R CAP_PERM_W)
                                            (Z.lor CAP_PERM_X CAP_PERM_MAP)) =? 0).

Section Create.
Context `{CapEnv}.

(** Returns the error code and [*out_idx]. *)
Definition cap_create_mem (pid phys_base npages perm : Z) : M (Z * Z) :=
  if (npages =? 0) || (CAP_VIEW_MAX_PAGES <? npages) then ret (CAP_EINVAL, CAP_NONE) else
  if bad_perm perm then ret (CAP_EINVAL, CAP_NONE) else
  if negb (Z.land phys_base 0xFFF =? 0) then ret (CAP_EINVAL, CAP_NONE) else
  let fin := u64 (phys_base + npages * 4096) in
  if (fin <=? phys_base) || (0x100000000 <? fin) then ret (CAP_ERANGE, CAP_NONE) else
  if (phys_base <? 0x100000) || ((phys_base <? kernel_image_end) && (0x100000 <? fin))
  then ret (CAP_ECONFLICT, CAP_NONE) else
  let* arena := gets k_arena_base in
  if negb (arena =? 0) && (phys_base <? arena + CAP_ARENA_SIZE) && (arena <? fin)
  then ret (CAP_ECONFLICT, CAP_NONE) else
  let* overlap := gets (any_mem_overlap phys_base fin) in
  if overlap then ret (CAP_ECONFLICT, CAP_NONE) else
  let* ti := cap_table_index pid in
  if ti <? 0 then ret (CAP_ETABLEFULL, CAP_NONE) else
  let* r := cap_object_alloc CAP_OBJ_KIND_MEM in
  match r with
  | None => ret (CAP_ENOMEM, CAP_NONE)
  | Some obj_id =>
      do* set_object obj_id (fun o =>
            set_o_npages npages (set_o_phys_base phys_base (set_o_max_perms perm o)));
      do* cap_lock (LTable ti);
      let* sl := cap_slot_pop ti in
      match sl with
      | None =>
          do* cap_unlock (LTable ti);
          do* cap_object_destroy obj_id;
          ret (CAP_ETABLEFULL, CAP_NONE)
      | Some idx =>
          do* cap_lock (LObj obj_id);
          let* e := cap_holder_insert obj_id HOLDER_SLOT (u16 pid) idx 0 in
          if negb (e =? 0) then
            do* cap_slot_push ti idx;
            do* cap_unlock (LObj obj_id);
            do* cap_unlock (LTable ti);
            do* cap_object_destroy obj_id;
            ret (CAP_ENOMEM, CAP_NONE)
          else
            do* set_slot ti idx (cap_word_make CAP_TYPE_MEM obj_id perm 0 npages);
            do* cap_unlock (LObj obj_id);
            do* cap_unlock (LTable ti);
            ret (0, idx)
      end
  end.

(** * cap_arena_alloc *)

Definition cap_arena_alloc (pid npages perm : Z) : M (Z * Z) :=
  if (npages =? 0) || (CAP_VIEW_MAX_PAGES <? npages) then ret (CAP_EINVAL, CAP_NONE) else
  if bad_perm perm then ret (CAP_EINVAL, CAP_NONE) else
  let* arena := gets k_arena_base in
  if arena =? 0 then ret (CAP_ENOMEM, CAP_NONE) else
  let* ti := cap_table_index pid in
  if ti <? 0 then ret (CAP_ETABLEFULL, CAP_NONE) else
  let* r := cap_object_alloc CAP_OBJ_KIND_MEM in
  match r with
  | None => ret (CAP_ENOMEM, CAP_NONE)
  | Some obj_id =>
      let* start := cap_arena_alloc_run npages obj_id in
      if start =? 0xFFFFFFFF then
        do* cap_object_destroy obj_id; ret (CAP_ENOSPC, CAP_NONE)
      else
      do* set_object obj_id (fun o =>
            set_o_npages npages (set_o_phys_base (arena + start * 4096) (set_o_max_perms perm o)));
      do* cap_lock (LTable ti);
      let* sl := cap_slot_pop ti in
      match sl with
      | None =>
          do* cap_unlock (LTable ti);
          do* arena_clear_run start npages;
          do* cap_object_destroy obj_id;
          ret (CAP_ETABLEFULL, CAP_NONE)
      | Some idx =>
          do* cap_lock (LObj obj_id);
          let* e := cap_holder_insert obj_id HOLDER_SLOT (u16 pid) idx 0 in
          if negb (e =? 0) then
            do* cap_slot_push ti idx;
            do* cap_unlock (LObj obj_id);
            do* cap_unlock (LTable ti);
            do* arena_clear_run start npages;
            do* cap_object_destroy obj_id;
            ret (CAP_ENOMEM, CAP_NONE)
          else
            do* set_slot ti idx (cap_word_make CAP_TYPE_MEM obj_id perm 0 npages);
            do* cap_unlock (LObj obj_id);
            do* cap_unlock (LTable ti);
            ret (0, idx)
      end
  end.

End Create.

(** * cap_chan_create *)

(** The per-direction reset of a (possibly recycled) channel. *)
Definition chan_reset (end0 end1 : Z) (ch : CapChannel) : CapChannel :=
  let z (m : gmap Z Z) := m.[0 <- 0].[1 <- 0] in
  mkChan end0 end1 (z (c_qhead ch)) (z (c_qtail ch)) (z (c_qdepth ch)) (c_q ch)
    (z (c_closed ch)) (z (c_close_evt ch)) (z (c_close_reason ch)) (z (c_close_detail ch)) 1.

(** Four holder nodes or none: on exhaustion the nodes already taken go back. *)
Definition alloc_four (obj_id pid far_holder_pid : Z) : M (option (Z * Z * Z * Z)) :=
  let* h1 := cap_holder_alloc obj_id HOLDER_SLOT pid 0 0 in
  match h1 with None => ret None | Some h1 =>
  let* h2 := cap_holder_alloc obj_id HOLDER_SLOT pid 1 0 in
  match h2 with None => do* cap_holder_free h1; ret None | Some h2 =>
  let* h3 := cap_holder_alloc obj_id HOLDER_SLOT far_holder_pid 2 0 in
  match h3 with None => do* cap_holder_free h1; do* cap_holder_free h2; ret None | Some h3 =>
  let* h4 := cap_holder_alloc obj_id HOLDER_SLOT far_holder_pid 3 0 in
  match h4 with
  | None => do* cap_holder_free h1; do* cap_holder_free h2; do* cap_holder_free h3; ret None
  | Some h4 => ret (Some (h1, h2, h3, h4))
  end end end end.

(** Pop [n] slots in turn, stopping at the first failure: the slots taken and
    whether all [n] were. *)
Fixpoint pop_slots (ti : Z) (n : nat) : M (list Z * bool) :=
  match n with
  | O => ret ([], true)
  | S n' =>
      let* r := cap_slot_pop ti in
      match r with
      | None => ret ([], false)
      | Some i => let* rest := pop_slots ti n' in ret (i :: fst rest, snd rest)
      end
  end.

Fixpoint push_slots (ti : Z) (l : list Z) : M unit :=
  match l with
  | [] => ret tt
  | i :: l' => do* cap_slot_push ti i; push_slots ti l'
  end.

(** Write a CHAN_R word into slot [rd] and a CHAN_W word into slot [wr]. *)
Definition write_ends (ti obj_id rd wr : Z) : M unit :=
  do* set_slot ti rd (cap_word_make CAP_TYPE_CHAN_R obj_id CAP_PERM_RECV 0 1);
  set_slot ti wr (cap_word_make CAP_TYPE_CHAN_W obj_id CAP_PERM_SEND 0 1).

(** The far end's slots, when they live in another table: [None] on failure. *)
Definition mint_far (fti obj_id : Z) : M (option (Z * Z)) :=
  do* cap_lock (LTable fti);
  let* r := pop_slots fti 2 in
  match r with
  | ([frd; fwr], true) =>
      do* write_ends fti obj_id frd fwr;
      do* cap_unlock (LTable fti);
      ret (Some (frd, fwr))
  | (popped, _) =>
      do* push_slots fti popped;
      do* cap_unlock (LTable fti);
      ret None
  end.

(** The caller's slots; with no far table ([fti < 0]) all four live here. *)
Definition mint_near (ti fti obj_id : Z) (far : Z * Z) : M (option (Z * Z * Z * Z)) :=
  do* cap_lock (LTable ti);
  let* r := pop_slots ti (if fti <? 0 then 4 else 2) in
  match r with
  | ([rd; wr; frd; fwr], true) =>
      do* write_ends ti obj_id rd wr;
      do* write_ends ti obj_id frd fwr;
      do* cap_unlock (LTable ti);
      ret (Some (rd, wr, frd, fwr))
  | ([rd; wr], true) =>
      do* write_ends ti obj_id rd wr;
      do* cap_unlock (LTable ti);
      ret (Some (rd, wr, fst far, snd far))
  | (popped, _) =>
      do* push_slots ti popped;
      do* cap_unlock (LTable ti);
      ret None
  end.

(** Returns the code and ([*out_rd], [*out_wr], [*out_far_rd], [*out_far_wr]). *)
Definition cap_chan_create (pid far_pid : Z) : M (Z * (Z * Z * Z * Z)) :=
  let none := (CAP_NONE, CAP_NONE, CAP_NONE, CAP_NONE) in
  let* ti := cap_table_index pid in
  if ti <? 0 then ret (CAP_ETABLEFULL, none) else
  let far := negb (far_pid =? 0) && negb (far_pid =? pid) in
  let* fti := if far then cap_table_index far_pid else ret (-1) in
  if far && (fti <? 0) then ret (CAP_ETABLEFULL, none) else
  let* chan_id := cap_chan_id_take in
  if chan_id =? CAP_CHAN_NONE then ret (CAP_ENOMEM, none) else
  do* cap_lock_init (LChan chan_id);
  do* set_channel chan_id (chan_reset (u16 pid) (u16 far_pid));
  let* r := cap_object_alloc CAP_OBJ_KIND_CHAN in
  match r with
  | None =>
      do* cap_chan_id_put chan_id;
      do* set_channel chan_id (set_c_active 0);
      ret (CAP_ENOMEM, none)
  | Some obj_id =>
  do* set_object obj_id (set_o_chan_id (u16 chan_id));
  let far_holder_pid := if negb (far_pid =? 0) then u16 far_pid else u16 pid in
  do* cap_lock (LObj obj_id);
  let* hs := alloc_four obj_id (u16 pid) far_holder_pid in
  match hs with
  | None =>
      do* cap_unlock (LObj obj_id);
      do* cap_object_destroy obj_id;
      ret (CAP_ENOMEM, none)
  | Some (h1, h2, h3, h4) =>
  do* cap_holder_link h1 obj_id;
  do* cap_holder_link h2 obj_id;
  do* cap_holder_link h3 obj_id;
  do* cap_holder_link h4 obj_id;
  do* cap_unlock (LObj obj_id);
  let* fslots := if 0 <=? fti then mint_far fti obj_id else ret (Some (CAP_NONE, CAP_NONE)) in
  let* slots := match fslots with
                | None => ret None
                | Some far_ends => mint_near ti fti obj_id far_ends
                end in
  match slots with
  | None =>
      do* cap_lock (LObj obj_id);
      do* cap_holder_remove obj_id HOLDER_SLOT (u16 pid) 0;
      do* cap_holder_remove obj_id HOLDER_SLOT (u16 pid) 1;
      do* cap_holder_remove obj_id HOLDER_SLOT far_holder_pid 2;
      do* cap_holder_remove obj_id HOLDER_SLOT far_holder_pid 3;
      do* cap_unlock (LObj obj_id);
      do* cap_object_destroy obj_id;
      do* set_channel chan_id (set_c_active 0);
      ret (CAP_ETABLEFULL, none)
  | Some (rd, wr, frd, fwr) =>
      do* cap_lock (LObj obj_id);
      do* set_holder h1 (set_h_ref rd);
      do* set_holder h2 (set_h_ref wr);
      do* set_holder h3 (set_h_ref frd);
      do* set_holder h4 (set_h_ref fwr);
      do* cap_unlock (LObj obj_id);
      ret (0, (rd, wr, frd, fwr))
  end end end.

(** * A dead object's resources *)

(** The arena frames returned, and the state. *)
Definition free_owned_frame (obj_id f : Z) (st : Z * KState) : Z * KState :=
  if (k_arena_owner (snd st)).[f] =? obj_id
  then (fst st + 1, cap_arena_frame_clear f (snd st)) else st.

Definition cap_object_free_resources (obj_id : Z) : M Z := fun s =>
  let o := object obj_id s in
  if o_kind o =? CAP_OBJ_KIND_MEM then
    let st := for_up (Z.to_nat CAP_ARENA_FRAMES) 0 (free_owned_frame obj_id) (0, s) in
    Ok (fst st) (snd st)
  else if (o_kind o =? CAP_OBJ_KIND_CHAN) && (o_chan_id o <? CAP_CHAN_MAX) then
    Ok 0 (upd_channel (o_chan_id o) (set_c_active 0) s)
  else Ok 0 s.
