(* ===== verification/CapMsg.v ===== *)
(** Capability transfer of kernel/cap.c: [cap_send], [cap_recv], [cap_send_msg],
    [cap_recv_msg] and the drain of a skipped message. *)

From stdpp Require Import base gmap list list_numbers.
From Stdlib Require Import ZArith Lia Bool.
From S2P Require Import Prelude FramePool CapWord Sidecar CapState CapPools CapOps.
#[local] Open Scope Z_scope.
#[local] Open Scope carr_scope.
#[local] Open Scope cap_scope.

(** * Ring entries *)

Definition set_message (c d e : Z) (f : ChanMsg → ChanMsg) : M unit :=
  do* in_bounds c CAP_CHAN_MAX; modify (upd_message c d e f).
Definition get_message (c d e : Z) : M ChanMsg :=
  do* in_bounds c CAP_CHAN_MAX; gets (message c d e).

(** The reset of one reused ring entry's capability arrays. *)
Definition zero_caps (m : ChanMsg) : ChanMsg :=
  for_up (Z.to_nat CAP_MSG_MAX_CAPS) 0 (fun i m =>
    set_m_cap_flags (m_cap_flags m).[i <- 0]
      (set_m_cap_rights (m_cap_rights m).[i <- 0]
        (set_m_cap_len (m_cap_len m).[i <- 0]
          (set_m_cap_off (m_cap_off m).[i <- 0]
            (set_m_cap_word (m_cap_word m).[i <- 0] m))))) m.

Definition set_cap_word (i w : Z) (m : ChanMsg) : ChanMsg :=
  set_m_cap_word (m_cap_word m).[i <- w] m.

(** [ch->qtail[d]++; ch->qdepth[d]++] *)
Definition enqueue (d : Z) (ch : CapChannel) : CapChannel :=
  set_c_qdepth (c_qdepth ch).[d <- u32 ((c_qdepth ch).[d] + 1)]
    (set_c_qtail (c_qtail ch).[d <- u32 ((c_qtail ch).[d] + 1)] ch).

(** [ch->qhead[d]++; ch->qdepth[d]--] *)
Definition dequeue (d : Z) (ch : CapChannel) : CapChannel :=
  set_c_qdepth (c_qdepth ch).[d <- u32 ((c_qdepth ch).[d] - 1)]
    (set_c_qhead (c_qhead ch).[d <- u32 ((c_qhead ch).[d] + 1)] ch).

(** The holder key of capability [i] of ring entry [e]. *)
Definition queue_ref (e i : Z) : Z := u16 (e * CAP_MSG_MAX_CAPS + i).

(** The write-end check shared by [cap_send] and [cap_send_msg]: CHAN_W with SEND
    or CHAN_R with RECV. *)
Definition send_end_ok (w : Z) : bool :=
  let ty := w_type w in
  if (ty =? CAP_TYPE_CHAN_W) && negb (w_has_perm w CAP_PERM_SEND) then false
  else if (ty =? CAP_TYPE_CHAN_R) && negb (w_has_perm w CAP_PERM_RECV) then false
  else if negb (ty =? CAP_TYPE_CHAN_W) && negb (ty =? CAP_TYPE_CHAN_R) then false
  else true.

Definition recv_end_ok (w : Z) : bool :=
  cap_word_valid w && (w_type w =? CAP_TYPE_CHAN_R) && w_has_perm w CAP_PERM_RECV.

(** The live channel object a word names, if any. *)
Definition chan_object (w : Z) (s : KState) : option Z :=
  match cap_object_get (w_obj w) s with
  | Some o => if o_kind (object o s) =? CAP_OBJ_KIND_CHAN then Some o else None
  | None => None
  end.

(** * cap_send *)

Definition cap_send (pid ch_w_idx cap_idx cookie : Z) : M Z :=
  let* ti := cap_table_index pid in
  if ti <? 0 then ret CAP_ETABLEFULL else
  do* cap_lock (LTable ti);
  let* w := get_slot ti ch_w_idx in
  if negb (cap_word_valid w) then do* cap_unlock (LTable ti); ret CAP_EBADF else
  if negb (send_end_ok w) then do* cap_unlock (LTable ti); ret CAP_EBADF else
  let* co := gets (chan_object w) in
  match co with
  | None => do* cap_unlock (LTable ti); ret CAP_EBADF
  | Some cobj =>
  let* chan_id := gets (fun s => o_chan_id (object cobj s)) in
  let* ch := get_channel chan_id in
  if c_active ch =? 0 then do* cap_unlock (LTable ti); ret CAP_EBADF else
  let dest := if pid =? c_end0_pid ch then 1 else 0 in
  let* pl :=
    if cap_idx =? CAP_NONE then ret (inl None) else
    let* pw := get_slot ti cap_idx in
    if negb (cap_word_valid pw) then ret (inr tt) else
    let* obj := gets (cap_object_get (w_obj pw)) in
    match obj with
    | None => ret (inr tt)
    | Some obj => ret (inl (Some (pw, obj)))
    end in
  match pl with
  | inr _ => do* cap_unlock (LTable ti); ret CAP_EINVAL
  | inl payload =>
  do* cap_lock (LChan chan_id);
  let* ch := get_channel chan_id in
  if CHAN_QUEUE_DEPTH <=? (c_qdepth ch).[dest] then
    do* cap_unlock (LChan chan_id); do* cap_unlock (LTable ti); ret CAP_EAGAIN
  else
  let entry := (c_qtail ch).[dest] mod CHAN_QUEUE_DEPTH in
  do* set_message chan_id dest entry zero_caps;
  let* moved :=
    match payload with
    | None =>
        do* set_message chan_id dest entry (fun m => set_cap_word 0 0 (set_m_n_caps 0 m));
        ret 0
    | Some (pw, obj) =>
        do* cap_lock (LObj obj);
        let* ob := get_object obj in
        if negb (o_revoking ob =? 0) then
          do* cap_unlock (LObj obj);
          do* cap_unlock (LChan chan_id);
          do* cap_unlock (LTable ti);
          ret CAP_ECAPREVOKED
        else
        let* hq := cap_holder_alloc (o_id ob) HOLDER_QUEUE (u16 chan_id) (queue_ref entry 0) dest in
        match hq with
        | None =>
            do* cap_unlock (LObj obj);
            do* cap_unlock (LChan chan_id);
            do* cap_unlock (LTable ti);
            ret CAP_ENOMEM
        | Some hq =>
            do* cap_holder_remove (o_id ob) HOLDER_SLOT (u16 pid) cap_idx;
            do* set_slot ti cap_idx 0;
            do* cap_slot_push ti cap_idx;
            do* cap_holder_link hq obj;
            do* set_message chan_id dest entry (fun m => set_m_n_caps 1 (set_cap_word 0 pw m));
            do* cap_unlock (LObj obj);
            ret 0
        end
    end in
  if negb (moved =? 0) then ret moved else
  do* set_message chan_id dest entry (fun m =>
        set_m_flags 0 (set_m_payload_idx CAP_NONE (set_m_payload_len 0 (set_m_cookie cookie m))));
  do* set_channel chan_id (enqueue dest);
  do* cap_unlock (LChan chan_id);
  do* cap_unlock (LTable ti);
  let* chan_id := gets (fun s => o_chan_id (object cobj s)) in
  do* hook (HWakeChan chan_id);
  do* hook HHandoff;
  ret 0
  end end.

(** * Dropping queued capabilities *)

(** Drop the capability word [i] of ring entry [e]: its queue holder goes, and
    the object with it at refcount 0.  Returns the arena frames freed and whether
    the object was destroyed. *)
Definition drop_queued (chan_id d e i : Z) : M (Z * bool) :=
  do* in_bounds i CAP_MSG_MAX_CAPS;
  let* m := get_message chan_id d e in
  let w := (m_cap_word m).[i] in
  if w =? 0 then ret (0, false) else
  let* xo := gets (cap_object_get (w_obj w)) in
  let* r :=
    match xo with
    | None => ret (0, false)
    | Some x =>
        do* cap_lock (LObj x);
        do* cap_holder_remove x HOLDER_QUEUE (u16 chan_id) (queue_ref e i);
        let* ob := get_object x in
        let* r := if o_refcount ob =? 0 then
                    let* fr := cap_object_free_resources x in
                    do* cap_object_destroy x;
                    ret (fr, true)
                  else ret (0, false) in
        do* cap_unlock (LObj x);
        ret r
    end in
  do* set_message chan_id d e (set_cap_word i 0);
  ret r.

Definition cap_msg_drain_tail (chan_id d e : Z) : M unit :=
  let* m := get_message chan_id d e in
  for_each (Z.to_nat (m_n_caps m - 1)) 1 (fun i _ => do* drop_queued chan_id d e i; ret tt) tt.

(** Release the payload buffer of a dequeued message and advance the queue. *)
Definition retire_message (chan_id d e : Z) : M unit :=
  do* set_message chan_id d e (set_m_payload_len 0);
  let* m := get_message chan_id d e in
  do* cap_msg_payload_free (m_payload_idx m);
  do* set_message chan_id d e (set_m_payload_idx CAP_NONE);
  set_channel chan_id (dequeue d).

(** * cap_recv *)

(** Skip a message whose first capability is dead or revoked. *)
Definition skip_message (chan_id d e : Z) : M Z :=
  do* cap_msg_drain_tail chan_id d e;
  do* set_message chan_id d e (set_m_n_caps 0);
  let* m := get_message chan_id d e in
  do* retire_message chan_id d e;
  ret (m_cookie m).

(** Install the capability word [i] of ring entry [e] into a fresh slot of table
    [ti]: the new slot, or an error with the message left queued. *)
Definition install_queued (pid ti chan_id d e i obj : Z) : M (Z + Z) :=
  let* sl := cap_slot_pop ti in
  match sl with
  | None => ret (inr CAP_ETABLEFULL)
  | Some nslot =>
      let* ob := get_object obj in
      let* hs := cap_holder_alloc (o_id ob) HOLDER_SLOT (u16 pid) nslot 0 in
      match hs with
      | None => do* cap_slot_push ti nslot; ret (inr CAP_ENOMEM)
      | Some hs =>
          do* cap_holder_remove (o_id ob) HOLDER_QUEUE (u16 chan_id) (queue_ref e i);
          do* cap_holder_link hs obj;
          let* m := get_message chan_id d e in
          do* set_slot ti nslot (m_cap_word m).[i];
          ret (inl nslot)
      end
  end.

Definition revoked_in_flight (w : Z) (ob : CapObject) : bool :=
  (w_state w =? CAP_STATE_REVOKED) || negb (o_revoking ob =? 0).

(** Returns the code, [*cookie_out] ([None] when it is not written) and
    [*out_cap]. *)
Definition cap_recv (pid ch_r_idx : Z) (block : bool) : M (Z * option Z * Z) :=
  let* ti := cap_table_index pid in
  if ti <? 0 then ret (CAP_ETABLEFULL, None, CAP_NONE) else
  do* cap_lock (LTable ti);
  let* w := get_slot ti ch_r_idx in
  if negb (recv_end_ok w) then do* cap_unlock (LTable ti); ret (CAP_EBADF, None, CAP_NONE) else
  let* co := gets (chan_object w) in
  match co with
  | None => do* cap_unlock (LTable ti); ret (CAP_EBADF, None, CAP_NONE)
  | Some cobj =>
  let* chan_id := gets (fun s => o_chan_id (object cobj s)) in
  let* ch := get_channel chan_id in
  if c_active ch =? 0 then do* cap_unlock (LTable ti); ret (CAP_EBADF, None, CAP_NONE) else
  let dir := if pid =? c_end0_pid ch then 0 else 1 in
  do* cap_lock (LChan chan_id);
  let* ch := get_channel chan_id in
  if (c_qdepth ch).[dir] =? 0 then
    do* cap_unlock (LChan chan_id);
    do* cap_unlock (LTable ti);
    do* (if block then hook (HWaitChan chan_id) else ret tt);
    ret (CAP_EAGAIN, None, CAP_NONE)
  else
  let entry := (c_qhead ch).[dir] mod CHAN_QUEUE_DEPTH in
  let* m := get_message chan_id dir entry in
  let* got :=
    if 0 <? m_n_caps m then
      let w0 := (m_cap_word m).[0] in
      let* obj := gets (cap_object_get (w_obj w0)) in
      match obj with
      | None =>
          let* ck := skip_message chan_id dir entry in
          do* cap_unlock (LChan chan_id);
          do* cap_unlock (LTable ti);
          ret (inr (CAP_ECAPREVOKED, Some ck, CAP_NONE))
      | Some obj =>
          do* cap_lock (LObj obj);
          let* ob := get_object obj in
          if revoked_in_flight w0 ob then
            let* ck := skip_message chan_id dir entry in
            do* cap_unlock (LObj obj);
            do* cap_unlock (LChan chan_id);
            do* cap_unlock (LTable ti);
            ret (inr (CAP_ECAPREVOKED, Some ck, CAP_NONE))
          else
          let* r := install_queued pid ti chan_id dir entry 0 obj in
          match r with
          | inr e =>
              do* cap_unlock (LObj obj);
              do* cap_unlock (LChan chan_id);
              do* cap_unlock (LTable ti);
              ret (inr (e, None, CAP_NONE))
          | inl nslot =>
              do* set_message chan_id dir entry (set_cap_word 0 0);
              do* cap_unlock (LObj obj);
              do* cap_msg_drain_tail chan_id dir entry;
              ret (inl nslot)
          end
      end
    else ret (inl CAP_NONE) in
  match got with
  | inr e => ret e
  | inl out =>
      let* m := get_message chan_id dir entry in
      do* retire_message chan_id dir entry;
      do* cap_unlock (LChan chan_id);
      do* cap_unlock (LTable ti);
      ret (0, Some (m_cookie m), out)
  end end.

(** * Messages with payload and several capabilities *)

(** [struct SLSCapDesc] *)
Record SLSCapDesc := mkDesc {
  d_slot : Z;
  d_offset : Z;
  d_len : Z;
  d_rights : Z;
  d_flags : Z
}.

(** [descs[i]] of the caller's array. *)
Definition get_desc (descs : list SLSCapDesc) (i : Z) : M SLSCapDesc :=
  match descs !! Z.to_nat i with
  | Some d => ret d
  | None => throw OutOfBounds
  end.

(** Copy [n] bytes of the caller's buffer into payload buffer [pidx]. *)
Definition stage_payload (pidx : Z) (bytes : list Z) (n : Z) : M unit :=
  if Z.of_nat (length bytes) <? n then throw OutOfBounds else
  modify (fun s =>
    set_k_payload
      (k_payload s).[pidx <- for_up (Z.to_nat n) 0
         (fun i row => row.[i <- u8 (nth (Z.to_nat i) bytes 0)]) (k_payload s).[pidx]] s).

(** The up-front validation: each descriptor names a valid MEM capability of the
    sender with a live object.  [None] is CAP_EINVAL. *)
Definition validate_descs (ti : Z) (descs : list SLSCapDesc) (n_caps : Z)
  : M (list (Z * Z) + unit) :=
  for_ctl (Z.to_nat n_caps) 0 (fun i acc =>
    let* d := get_desc descs i in
    let* pw := get_slot ti (d_slot d) in
    if negb (cap_word_valid pw) || negb (w_type pw =? CAP_TYPE_MEM) then ret (Return tt) else
    let* obj := gets (cap_object_get (w_obj pw)) in
    match obj with
    | None => ret (Return tt)
    | Some obj => ret (Next (acc ++ [(pw, obj)]))
    end) [].

(** Write descriptor [d] and word [w] into position [i] of a ring entry. *)
Definition put_cap (i w : Z) (d : SLSCapDesc) (m : ChanMsg) : ChanMsg :=
  set_m_cap_flags (m_cap_flags m).[i <- d_flags d]
    (set_m_cap_rights (m_cap_rights m).[i <- d_rights d]
      (set_m_cap_len (m_cap_len m).[i <- d_len d]
        (set_m_cap_off (m_cap_off m).[i <- d_offset d]
          (set_m_cap_word (m_cap_word m).[i <- w] m)))).

(** Move capability [i] from the sender's slot to the ring entry: [false] when a
    revocation or an empty holder pool stops the send. *)
Definition move_to_queue (pid ti chan_id d e i obj w : Z) (dsc : SLSCapDesc) : M bool :=
  do* cap_lock (LObj obj);
  let* ob := get_object obj in
  if negb (o_revoking ob =? 0) then do* cap_unlock (LObj obj); ret false else
  let* hq := cap_holder_alloc (o_id ob) HOLDER_QUEUE (u16 chan_id) (queue_ref e i) d in
  match hq with
  | None => do* cap_unlock (LObj obj); ret false
  | Some hq =>
      do* cap_holder_remove (o_id ob) HOLDER_SLOT (u16 pid) (d_slot dsc);
      do* set_slot ti (d_slot dsc) 0;
      do* cap_slot_push ti (d_slot dsc);
      do* cap_holder_link hq obj;
      do* set_message chan_id d e (put_cap i w dsc);
      do* cap_unlock (LObj obj);
      ret true
  end.

Definition move_all (pid ti chan_id d e : Z) (descs : list SLSCapDesc) (objs : list (Z * Z))
    (n_caps : Z) : M (Z * bool) :=
  let* r := for_ctl (R := unit) (Z.to_nat n_caps) 0 (fun i acc =>
    match objs !! Z.to_nat i with
    | None => throw OutOfBounds
    | Some (w, obj) =>
        let* dsc := get_desc descs i in
        let* ok := move_to_queue pid ti chan_id d e i obj w dsc in
        if ok then ret (Next (fst acc + 1, false)) else ret (Break (fst acc, true))
    end) (0, false) in
  match r with
  | inl a => ret a
  | inr _ => throw OutOfBounds
  end.

(** Undo the move of capability [i]: back to a fresh slot when one is left. *)
Definition move_back (pid ti chan_id d e i obj w : Z) : M unit :=
  do* cap_lock (LObj obj);
  let* sl := cap_slot_pop ti in
  do* match sl with
      | None => ret tt
      | Some sl =>
          let* ob := get_object obj in
          do* cap_holder_remove (o_id ob) HOLDER_QUEUE (u16 chan_id) (queue_ref e i);
          let* hs := cap_holder_alloc (o_id ob) HOLDER_SLOT (u16 pid) sl 0 in
          match hs with
          | Some hs => do* cap_holder_link hs obj; set_slot ti sl w
          | None => cap_slot_push ti sl
          end
      end;
  do* set_message chan_id d e (set_cap_word i 0);
  cap_unlock (LObj obj).

Definition free_staged (pidx : Z) : M unit :=
  if negb (pidx =? CAP_NONE) then cap_msg_payload_free pidx else ret tt.

Definition cap_send_msg (pid ch_w_idx : Z) (payload : option (list Z)) (payload_len : Z)
    (descs : list SLSCapDesc) (n_caps tag flags : Z) : M Z :=
  if CAP_MSG_MAX_CAPS <? n_caps then ret CAP_ERANGE else
  if CAP_MSG_MAX_PAYLOAD <? payload_len then ret CAP_ERANGE else
  if (0 <? payload_len) && match payload with None => true | Some _ => false end
  then ret CAP_EINVAL else
  let* ti := cap_table_index pid in
  if ti <? 0 then ret CAP_ETABLEFULL else
  do* cap_lock (LTable ti);
  let* w := get_slot ti ch_w_idx in
  if negb (cap_word_valid w) then do* cap_unlock (LTable ti); ret CAP_EBADF else
  if negb (send_end_ok w) then do* cap_unlock (LTable ti); ret CAP_EBADF else
  let* co := gets (chan_object w) in
  match co with
  | None => do* cap_unlock (LTable ti); ret CAP_EBADF
  | Some cobj =>
  let* chan_id := gets (fun s => o_chan_id (object cobj s)) in
  let* ch := get_channel chan_id in
  if c_active ch =? 0 then do* cap_unlock (LTable ti); ret CAP_EBADF else
  let dest := if pid =? c_end0_pid ch then 1 else 0 in
  if CHAN_QUEUE_DEPTH <=? (c_qdepth ch).[dest] then do* cap_unlock (LTable ti); ret CAP_EAGAIN else
  let* v := validate_descs ti descs n_caps in
  match v with
  | inr _ => do* cap_unlock (LTable ti); ret CAP_EINVAL
  | inl objs =>
  let* staged :=
    if 0 <? payload_len then
      let* p := cap_msg_payload_alloc in
      match p with
      | None => ret None
      | Some pidx =>
          do* stage_payload pidx (default [] payload) payload_len; ret (Some pidx)
      end
    else ret (Some CAP_NONE) in
  match staged with
  | None => do* cap_unlock (LTable ti); ret CAP_ENOSPC
  | Some pidx =>
  do* cap_lock (LChan chan_id);
  let* ch := get_channel chan_id in
  if CHAN_QUEUE_DEPTH <=? (c_qdepth ch).[dest] then
    do* cap_unlock (LChan chan_id); do* free_staged pidx; do* cap_unlock (LTable ti); ret CAP_EAGAIN
  else
  let entry := (c_qtail ch).[dest] mod CHAN_QUEUE_DEPTH in
  do* set_message chan_id dest entry zero_caps;
  let* mv := move_all pid ti chan_id dest entry descs objs n_caps in
  if snd mv then
    do* for_each (Z.to_nat (fst mv)) 0 (fun i _ =>
          match objs !! Z.to_nat i with
          | None => throw OutOfBounds
          | Some (w, obj) => move_back pid ti chan_id dest entry i obj w
          end) tt;
    do* set_message chan_id dest entry (set_m_n_caps 0);
    do* cap_unlock (LChan chan_id);
    do* free_staged pidx;
    do* cap_unlock (LTable ti);
    ret CAP_ECAPREVOKED
  else
  do* set_message chan_id dest entry (fun m =>
        set_m_payload_idx pidx (set_m_payload_len (u16 payload_len)
          (set_m_flags (u8 flags) (set_m_cookie tag (set_m_n_caps (u8 n_caps) m)))));
  do* set_channel chan_id (enqueue dest);
  do* cap_unlock (LChan chan_id);
  do* cap_unlock (LTable ti);
  let* chan_id := gets (fun s => o_chan_id (object cobj s)) in
  do* hook (HWakeChan chan_id);
  do* hook HHandoff;
  ret 0
  end end end.

(** What [cap_recv_msg] writes through its out-pointers. *)
Record RecvOut := mkRecv {
  r_code : Z;
  r_payload_len : Z;
  r_bytes : list Z;
  r_n_caps : Z;
  r_caps : list SLSCapDesc;
  r_tag : Z;
  r_flags : Z
}.

Definition recv_fail (code : Z) (caps : list SLSCapDesc) : RecvOut := mkRecv code 0 [] 0 caps 0 0.

(** The physical region of a granted MEM capability: the byte view
    [cap_off, cap_off + cap_len) clipped to the object, in whole pages. *)
Definition grant_region (ob : CapObject) (off len : Z) : Z * Z :=
  let region_bytes := o_npages ob * 4096 in
  if negb (len =? 0) && (off <? region_bytes) then
    let len := if region_bytes <? off + len then region_bytes - off else len in
    let first := Z.ldiff (u64 (o_phys_base ob + off)) 0xFFF in
    let last := Z.ldiff (u64 (o_phys_base ob + off + len - 1)) 0xFFF in
    (first, u32 ((last - first) / 4096 + 1))
  else (o_phys_base ob, o_npages ob).

Section Recv.
Context `{CapEnv}.

Definition identity_map_grant (pid obj w : Z) (m : ChanMsg) (i : Z) : M unit :=
  if w_type w =? CAP_TYPE_MEM then
    let cr3 := cap_proc_cr3 pid in
    if negb (cr3 =? 0) then
      let* ob := get_object obj in
      let r := grant_region ob (m_cap_off m).[i] (m_cap_len m).[i] in
      hook (HIdentityMapUser cr3 (fst r) (snd r) (m_cap_rights m).[i])
    else ret tt
  else ret tt.

(** The install loop of [cap_recv_msg]. *)
Definition install_caps (pid ti chan_id d e n : Z) : M (list SLSCapDesc + Z * list SLSCapDesc) :=
  for_ctl (Z.to_nat n) 0 (fun i acc =>
    do* in_bounds i CAP_MSG_MAX_CAPS;
    let* m := get_message chan_id d e in
    let w := (m_cap_word m).[i] in
    if w =? 0 then ret (Next acc) else
    let* obj := gets (cap_object_get (w_obj w)) in
    match obj with
    | None => ret (Next acc)
    | Some obj =>
        do* cap_lock (LObj obj);
        let* ob := get_object obj in
        if revoked_in_flight w ob then
          do* set_message chan_id d e (set_cap_word i 0);
          do* cap_unlock (LObj obj);
          ret (Next acc)
        else
        let* r := install_queued pid ti chan_id d e i obj in
        match r with
        | inr er => do* cap_unlock (LObj obj); ret (Return (er, acc))
        | inl nslot =>
            do* identity_map_grant pid obj w m i;
            do* set_message chan_id d e (set_cap_word i 0);
            do* cap_unlock (LObj obj);
            ret (Next (acc ++ [mkDesc nslot (m_cap_off m).[i] (m_cap_len m).[i]
                                      (m_cap_rights m).[i] (m_cap_flags m).[i]]))
        end
    end) [].

(** [buf_len] is the capacity of the caller's (non-null) buffer. *)
Definition cap_recv_msg (pid ch_r_idx buf_len max_caps : Z) : M RecvOut :=
  let max_caps := if CAP_MSG_MAX_CAPS <? max_caps then CAP_MSG_MAX_CAPS else max_caps in
  let* ti := cap_table_index pid in
  if ti <? 0 then ret (recv_fail CAP_ETABLEFULL []) else
  do* cap_lock (LTable ti);
  let* w := get_slot ti ch_r_idx in
  if negb (recv_end_ok w) then do* cap_unlock (LTable ti); ret (recv_fail CAP_EBADF []) else
  let* co := gets (chan_object w) in
  match co with
  | None => do* cap_unlock (LTable ti); ret (recv_fail CAP_EBADF [])
  | Some cobj =>
  let* chan_id := gets (fun s => o_chan_id (object cobj s)) in
  let* ch := get_channel chan_id in
  if c_active ch =? 0 then do* cap_unlock (LTable ti); ret (recv_fail CAP_EBADF []) else
  let dir := if pid =? c_end0_pid ch then 0 else 1 in
  do* cap_lock (LChan chan_id);
  let* ch := get_channel chan_id in
  if (c_qdepth ch).[dir] =? 0 then
    do* cap_unlock (LChan chan_id); do* cap_unlock (LTable ti); ret (recv_fail CAP_EAGAIN [])
  else
  let entry := (c_qhead ch).[dir] mod CHAN_QUEUE_DEPTH in
  let* m := get_message chan_id dir entry in
  let* inst := install_caps pid ti chan_id dir entry (Z.min (m_n_caps m) max_caps) in
  match inst with
  | inr (er, caps) =>
      do* cap_unlock (LChan chan_id); do* cap_unlock (LTable ti); ret (recv_fail er caps)
  | inl caps =>
  let* m := get_message chan_id dir entry in
  do* for_each (Z.to_nat (m_n_caps m)) 0 (fun i _ =>
        do* drop_queued chan_id dir entry i; ret tt) tt;
  let* m := get_message chan_id dir entry in
  let copy_len := Z.min (m_payload_len m) buf_len in
  do* (if 0 <? copy_len then in_bounds (m_payload_idx m) CAP_MSG_PAYLOAD_POOL else ret tt);
  let* bytes := gets (fun s =>
    map (fun i => (k_payload s).[m_payload_idx m].[Z.of_nat i]) (seq 0 (Z.to_nat copy_len))) in
  do* cap_msg_payload_free (m_payload_idx m);
  do* set_message chan_id dir entry (fun m =>
        set_m_flags 0 (set_m_n_caps 0 (set_m_payload_len 0 (set_m_payload_idx CAP_NONE m))));
  do* set_channel chan_id (dequeue dir);
  do* cap_unlock (LChan chan_id);
  do* cap_unlock (LTable ti);
  let* chan_id := gets (fun s => o_chan_id (object cobj s)) in
  do* hook (HWakeChan chan_id);
  ret (mkRecv 0 (m_payload_len m) bytes (Z.of_nat (length caps)) caps (u32 (m_cookie m)) (m_flags m))
  end end.

End Recv.
