(* ===== verification/CapRevoke.v ===== *)
(** Dropping, revoking and mapping capabilities (kernel/cap.c): [cap_arena_free],
    [cap_revoke], [cap_table_teardown], [cap_map], [cap_unmap] and the debug
    views. *)

From stdpp Require Import base gmap list list_numbers.
From Stdlib Require Import ZArith Lia Bool.
From S2P Require Import Prelude FramePool CapWord Sidecar CapState CapPools CapOps CapMsg.
#[local] Open Scope Z_scope.
#[local] Open Scope carr_scope.
#[local] Open Scope cap_scope.

(** * cap_arena_free *)

Definition cap_arena_free (pid cap_idx : Z) : M Z :=
  let* ti := cap_table_index pid in
  if ti <? 0 then ret CAP_ETABLEFULL else
  do* cap_lock (LTable ti);
  let* w := get_slot ti cap_idx in
  if negb (cap_word_valid w) || negb (w_type w =? CAP_TYPE_MEM) then
    do* cap_unlock (LTable ti); ret CAP_EINVAL
  else
  let* r := gets (cap_object_get (w_obj w)) in
  match r with
  | None => do* cap_unlock (LTable ti); ret CAP_EINVAL
  | Some obj =>
      do* cap_lock (LObj obj);
      let* ob := get_object obj in
      if negb (o_revoking ob =? 0) then
        do* cap_unlock (LObj obj); do* cap_unlock (LTable ti); ret CAP_ECAPREVOKED
      else
      do* cap_holder_remove obj HOLDER_SLOT (u16 pid) cap_idx;
      let* ob := get_object obj in
      do* (if o_refcount ob =? 0 then
             do* cap_object_free_resources obj; cap_object_destroy obj
           else ret tt);
      do* cap_unlock (LObj obj);
      do* set_slot ti cap_idx 0;
      do* cap_slot_push ti cap_idx;
      do* cap_unlock (LTable ti);
      ret 0
  end.

(** * cap_revoke *)

(** Stamp the word a queue holder stands for. *)
Definition stamp_queued (node : CapHolder) : M unit :=
  let entry := h_ref node / CAP_MSG_MAX_CAPS in
  let cap_i := h_ref node mod CAP_MSG_MAX_CAPS in
  do* in_bounds entry CHAN_QUEUE_DEPTH;
  set_message (h_pid node) (h_qdir node) entry (fun m =>
    set_cap_word cap_i (cap_word_stamp_revoked (m_cap_word m).[cap_i]) m).

(** Phase 1: detach the holder list node by node, stamping queued words; the
    result is the private chain's head and its length. *)
Definition revoke_detach (first : Z) : M (Z * Z) :=
  let* r := while_ctl (R := unit) holder_fuel (fun st =>
    let '(h, dead, n) := st in
    if (h =? CAP_FREELIST_END) || (CAP_HOLDER_MAX <=? n) then ret (Break st) else
    let* node := get_holder h in
    let next := h_next node in
    do* (if h_kind node =? HOLDER_QUEUE then stamp_queued node else ret tt);
    do* set_holder h (fun nd => set_h_prev CAP_FREELIST_END (set_h_next dead nd));
    ret (Next (next, h, n + 1))) (first, CAP_FREELIST_END, 0) in
  match r with
  | inl (_, dead, n) => ret (dead, n)
  | inr _ => throw Spin
  end.

(** Phase 2: zero and free the slot of every slot holder on the chain. *)
Definition revoke_slots (dead : Z) : M unit :=
  do* while_ctl (R := unit) holder_fuel (fun d =>
    if d =? CAP_FREELIST_END then ret (Break d) else
    let* node := get_holder d in
    do* (if negb (h_kind node =? HOLDER_SLOT) then ret tt else
         let* hti := cap_table_index (h_pid node) in
         if hti <? 0 then ret tt else
         do* cap_lock (LTable hti);
         do* set_slot hti (h_ref node) 0;
         do* cap_slot_push hti (h_ref node);
         cap_unlock (LTable hti));
    let* node := get_holder d in
    ret (Next (h_next node))) dead;
  ret tt.

(** Phase 4: free the chain's nodes. *)
Definition revoke_free (dead : Z) : M unit :=
  do* while_ctl (R := unit) holder_fuel (fun d =>
    if d =? CAP_FREELIST_END then ret (Break d) else
    let* node := get_holder d in
    do* cap_holder_free d;
    ret (Next (h_next node))) dead;
  ret tt.

Section Revoke.
Context `{CapEnv}.

Definition cap_revoke (pid cap_idx : Z) : M Z :=
  let* ti := cap_table_index pid in
  if ti <? 0 then ret CAP_ETABLEFULL else
  do* cap_lock (LTable ti);
  let* w := get_slot ti cap_idx in
  if negb (cap_word_valid w) then do* cap_unlock (LTable ti); ret CAP_EINVAL else
  let* r := gets (cap_object_get (w_obj w)) in
  match r with
  | None => do* cap_unlock (LTable ti); ret CAP_EINVAL
  | Some obj =>
      do* cap_unlock (LTable ti);
      do* cap_lock (LObj obj);
      let* ob := get_object obj in
      if negb (o_revoking ob =? 0) then do* cap_unlock (LObj obj); ret CAP_EALREADY else
      do* set_object obj (set_o_revoking 1);
      do* set_object obj (set_o_holder_head CAP_FREELIST_END);
      let* chain := revoke_detach (o_holder_head ob) in
      do* cap_unlock (LObj obj);
      do* revoke_slots (fst chain);
      do* for_each (Z.to_nat CAP_TABLE_MAX) 0 (fun ti _ =>
            do* cap_lock (LTable ti);
            do* cap_table_unmap_object ti obj;
            cap_unlock (LTable ti)) tt;
      do* cap_lock (LObj obj);
      do* set_object obj (fun ob =>
            set_o_refcount (if snd chain <=? o_refcount ob then o_refcount ob - snd chain else 0) ob);
      do* revoke_free (fst chain);
      let* ob := get_object obj in
      do* (if o_refcount ob =? 0 then
             do* cap_object_free_resources obj; cap_object_destroy obj
           else ret tt);
      do* cap_unlock (LObj obj);
      ret 0
  end.

(** * cap_table_teardown *)

(** One pass of the drain loop: drop the head message's capabilities.  Returns
    the running (arena frames freed, objects destroyed). *)
Definition drain_one (chan_id d : Z) (acc : Z * Z) : M (Z * Z) :=
  let* ch := get_channel chan_id in
  let entry := (c_qhead ch).[d] mod CHAN_QUEUE_DEPTH in
  let* acc := for_each (Z.to_nat CAP_MSG_MAX_CAPS) 0 (fun i acc =>
    let* r := drop_queued chan_id d entry i in
    ret (fst acc + fst r, snd acc + if snd r then 1 else 0)) acc in
  do* set_message chan_id d entry (set_m_n_caps 0);
  do* retire_message chan_id d entry;
  ret acc.

(** The depth never exceeds the ring, so one pass per ring entry drains it. *)
Definition drain_fuel : nat := Z.to_nat (CHAN_QUEUE_DEPTH + 1).

Definition cap_drain_queue (chan_id d : Z) (acc : Z * Z) : M (Z * Z) :=
  let* r := while_ctl (R := unit) drain_fuel (fun acc =>
    let* ch := get_channel chan_id in
    if 0 <? (c_qdepth ch).[d]
    then let* acc := drain_one chan_id d acc in ret (Next acc)
    else ret (Break acc)) acc in
  match r with
  | inl acc => ret acc
  | inr _ => throw Spin
  end.

(** Step 0: the valid slots, and the distinct channel objects read by them. *)
Definition teardown_snapshot (ti : Z) (s : KState) : list Z * list Z :=
  for_up (Z.to_nat CAP_TABLE_ENTRIES) 0 (fun i acc =>
    let w := slot ti i s in
    if negb (cap_word_valid w) then acc else
    let sl := fst acc ++ [i] in
    if w_type w =? CAP_TYPE_CHAN_R then
      let oid := w_obj w in
      if negb (existsb (Z.eqb oid) (snd acc)) && (Z.of_nat (length (snd acc)) <? CAP_CHAN_MAX)
      then (sl, snd acc ++ [oid]) else (sl, snd acc)
    else (sl, snd acc)) ([], []).

Fixpoint each {A B} (l : list A) (body : A → B → M B) (b : B) : M B :=
  match l with
  | [] => ret b
  | a :: l' => let* b := body a b in each l' body b
  end.

(** Step 1: pre-drain one channel's read queue. *)
Definition teardown_predrain (pid oid : Z) (acc : Z * Z) : M (Z * Z) :=
  let* co := gets (cap_object_get oid) in
  match co with
  | None => ret acc
  | Some co =>
      let* ob := get_object co in
      if negb (o_kind ob =? CAP_OBJ_KIND_CHAN) then ret acc else
      let* ch := get_channel (o_chan_id ob) in
      let dir := if pid =? c_end0_pid ch then 0 else 1 in
      do* cap_lock (LChan (o_chan_id ob));
      let* acc := cap_drain_queue (o_chan_id ob) dir acc in
      do* cap_unlock (LChan (o_chan_id ob));
      ret acc
  end.

(** Step 2: drop one slot's holder; the accumulator also collects the channels
    whose object died. *)
Definition teardown_slot (pid ti sl : Z) (acc : Z * Z * list Z) : M (Z * Z * list Z) :=
  let '(fr, ds, deadc) := acc in
  let* w := get_slot ti sl in
  let* r := gets (cap_object_get (w_obj w)) in
  match r with
  | None =>
      do* set_slot ti sl 0;
      do* cap_slot_push ti sl;
      ret acc
  | Some obj =>
      do* cap_lock (LObj obj);
      do* cap_holder_remove obj HOLDER_SLOT (u16 pid) sl;
      do* set_slot ti sl 0;
      do* cap_slot_push ti sl;
      let* ob := get_object obj in
      let* acc :=
        if o_refcount ob =? 0 then
          let deadc := if (o_kind ob =? CAP_OBJ_KIND_CHAN) && (Z.of_nat (length deadc) <? CAP_CHAN_MAX)
                      then deadc ++ [o_chan_id ob] else deadc in
          let* f := cap_object_free_resources obj in
          do* cap_object_destroy obj;
          ret (fr + f, ds + 1, deadc)
        else ret acc in
      do* cap_unlock (LObj obj);
      ret acc
  end.

(** Step 3: post-drain both queues of a dead channel. *)
Definition teardown_postdrain (c : Z) (acc : Z * Z) : M (Z * Z) :=
  do* cap_lock (LChan c);
  let* acc := cap_drain_queue (u16 c) 0 acc in
  let* acc := cap_drain_queue (u16 c) 1 acc in
  do* cap_unlock (LChan c);
  ret acc.

(** Step 4: unmap every mapping of the dying process. *)
Definition teardown_unmap (pid ti : Z) : M unit :=
  let cr3 := cap_proc_cr3 pid in
  for_each (Z.to_nat CAP_MAP_MAX) 0 (fun i _ =>
    let* t := gets (table ti) in
    let m := (t_maps t).[i] in
    if mp_active m =? 0 then ret tt else
    do* unmap_pages cr3 (mp_vaddr m) (mp_npages m);
    modify (upd_map ti i (set_mp_active 0))) tt.

(** Step 6: the peer-death close event of one channel. *)
Definition peer_death (pid d : Z) (ch : CapChannel) : CapChannel :=
  let ch := set_c_closed (c_closed ch).[d <- 1] ch in
  if (c_close_evt ch).[1 - d] =? 0 then
    set_c_close_detail (c_close_detail ch).[1 - d <- pid]
      (set_c_close_reason (c_close_reason ch).[1 - d <- CLOSE_PEER_DEAD]
        (set_c_close_evt (c_close_evt ch).[1 - d <- 1] ch))
  else ch.

Definition teardown_close (pid ci : Z) : M unit :=
  let* ch := get_channel ci in
  if c_active ch =? 0 then ret tt else
  let dying := if c_end0_pid ch =? pid then 0 else if c_end1_pid ch =? pid then 1 else -1 in
  if dying <? 0 then ret tt else
  do* cap_lock (LChan ci);
  do* set_channel ci (peer_death pid dying);
  do* cap_unlock (LChan ci);
  hook (HWakeChan ci).

(** Step 7: unbind the interrupt vectors of channels the process owned. *)
Definition teardown_irq (pid v : Z) : M unit :=
  let* c := gets (fun s => (k_irq_chan s).[v]) in
  if c =? CAP_NONE then ret tt else
  let* ich := get_channel c in
  if c_end0_pid ich =? pid then
    do* modify (fun s => set_k_irq_chan (k_irq_chan s).[v <- CAP_NONE] s);
    modify (fun s => set_k_irq_budget (k_irq_budget s).[v <- 0] s)
  else ret tt.

(** Returns (capabilities dropped, objects destroyed, arena frames returned), the
    numbers the kernel logs. *)
Definition cap_table_teardown (pid : Z) : M (Z * Z * Z) :=
  do* modify (fun s => set_k_registry (sidecar_registry_remove_pid pid (k_registry s)) s);
  let* ti := gets (cap_table_find pid) in
  if ti <? 0 then ret (0, 0, 0) else
  do* cap_lock (LTable ti);
  let* snap := gets (teardown_snapshot ti) in
  let* acc := each (snd snap) (teardown_predrain pid) (0, 0) in
  let* acc := each (fst snap) (teardown_slot pid ti) (acc, []) in
  let* acc := each (snd acc) teardown_postdrain (fst acc) in
  do* teardown_unmap pid ti;
  do* modify (fun s => set_k_table_pid (k_table_pid s).[ti <- 0] s);
  do* modify (upd_table ti (set_t_pid 0));
  do* cap_table_freelist_init ti;
  do* cap_unlock (LTable ti);
  do* for_each (Z.to_nat CAP_CHAN_MAX) 0 (fun ci _ => teardown_close pid ci) tt;
  do* for_each (Z.to_nat CAP_IRQ_VECTORS) 0 (fun v _ => teardown_irq pid v) tt;
  ret (Z.of_nat (length (fst snap)), snd acc, fst acc).

(** * cap_map / cap_unmap *)

(** The mapping loop with its roll-back: the failing code, if any. *)
Definition map_pages (cr3 vaddr paddr n flags : Z) : M (unit + Z) :=
  for_ctl (Z.to_nat n) 0 (fun i _ =>
    let* r := cap_arch_map_page cr3 (u64 (vaddr + i * 4096)) (u64 (paddr + i * 4096)) flags in
    if r <? 0 then
      do* unmap_pages cr3 vaddr i;
      do* hook HTlbFlush;
      ret (Return r)
    else ret (Next tt)) tt.

Definition cap_map (pid cap_idx vaddr flags : Z) : M Z :=
  let* ti := cap_table_index pid in
  if ti <? 0 then ret CAP_ETABLEFULL else
  do* cap_lock (LTable ti);
  let* w := get_slot ti cap_idx in
  if negb (cap_word_valid w) || negb (w_type w =? CAP_TYPE_MEM) then
    do* cap_unlock (LTable ti); ret CAP_EBADF else
  let perms := w_perm w in
  if Z.land perms CAP_PERM_MAP =? 0 then do* cap_unlock (LTable ti); ret CAP_EINVAL else
  if (flags =? 0) || negb (Z.ldiff flags 7 =? 0) then do* cap_unlock (LTable ti); ret CAP_EINVAL else
  if negb (Z.ldiff flags perms =? 0) then do* cap_unlock (LTable ti); ret CAP_EINVAL else
  if negb (Z.land vaddr 0xFFF =? 0) then do* cap_unlock (LTable ti); ret CAP_EINVAL else
  let off := w_off w in
  let len := w_len w in
  let vhi := u64 (vaddr + len * 4096) in
  if (len =? 0) || (vhi <=? vaddr) || (0x800000000000 <? vhi) then
    do* cap_unlock (LTable ti); ret CAP_ERANGE else
  let obj_id := w_obj w in
  let* r := gets (cap_object_get obj_id) in
  match r with
  | None => do* cap_unlock (LTable ti); ret CAP_EINVAL
  | Some obj =>
  let* ob := get_object obj in
  if negb (o_kind ob =? CAP_OBJ_KIND_MEM) then do* cap_unlock (LTable ti); ret CAP_EINVAL else
  if o_npages ob <? off + len then do* cap_unlock (LTable ti); ret CAP_ERANGE else
  let* t := gets (table ti) in
  if cap_maps_overlap t obj_id vaddr len then do* cap_unlock (LTable ti); ret CAP_ECONFLICT else
  do* cap_lock (LObj obj);
  let* ob := get_object obj in
  if negb (o_revoking ob =? 0) then
    do* cap_unlock (LObj obj); do* cap_unlock (LTable ti); ret CAP_ECAPREVOKED else
  let cr3 := cap_proc_cr3 pid in
  if cr3 =? 0 then do* cap_unlock (LObj obj); do* cap_unlock (LTable ti); ret CAP_ENOSYS else
  let* res := map_pages cr3 vaddr (o_phys_base ob + off * 4096) len flags in
  match res with
  | inr e => do* cap_unlock (LObj obj); do* cap_unlock (LTable ti); ret e
  | inl _ =>
  do* hook HTlbFlush;
  do* cap_unlock (LObj obj);
  let* t := gets (table ti) in
  match find_up (Z.to_nat CAP_MAP_MAX) 0 (fun i => mp_active (t_maps t).[i] =? 0) with
  | None => do* cap_unlock (LTable ti); ret CAP_ETABLEFULL
  | Some i =>
      do* modify (upd_map ti i (fun _ => mkMap obj_id cap_idx (u16 len) vaddr 1));
      do* cap_unlock (LTable ti);
      ret 0
  end end end.

Definition unmap_matches (cap_idx vaddr word_obj : Z) (m : CapMap) : bool :=
  if (mp_active m =? 0) || negb (mp_vaddr m =? vaddr) then false else
  (mp_cap_slot m =? cap_idx) || (negb (word_obj =? 0) && (mp_obj_id m =? word_obj)).

Definition cap_unmap (pid cap_idx vaddr : Z) : M Z :=
  let* ti := cap_table_index pid in
  if ti <? 0 then ret CAP_ETABLEFULL else
  do* cap_lock (LTable ti);
  let* w := get_slot ti cap_idx in
  let word_obj := if cap_word_valid w && (w_type w =? CAP_TYPE_MEM) then w_obj w else 0 in
  let* t := gets (table ti) in
  match find_up (Z.to_nat CAP_MAP_MAX) 0
          (fun i => unmap_matches cap_idx vaddr word_obj (t_maps t).[i]) with
  | None => do* cap_unlock (LTable ti); ret CAP_EINVAL
  | Some i =>
      let m := (t_maps t).[i] in
      do* unmap_pages (cap_proc_cr3 pid) (mp_vaddr m) (mp_npages m);
      do* hook HTlbFlush;
      do* modify (upd_map ti i (set_mp_active 0));
      do* cap_unlock (LTable ti);
      ret 0
  end.

End Revoke.

(** * Debug introspection *)

Definition cap_debug_objid (pid cap_idx : Z) : M Z :=
  let* ti := cap_table_index pid in
  if ti <? 0 then ret 0xFFFFFFFF else
  let* w := get_slot ti cap_idx in
  if negb (cap_word_valid w) then ret 0xFFFFFFFF else ret (w_obj w).

Definition cap_debug_refcount (obj_id : Z) (s : KState) : Z :=
  match cap_object_get obj_id s with
  | Some o => o_refcount (object o s)
  | None => 0xFFFFFFFF
  end.

Definition cap_debug_obj_phys (obj_id : Z) (s : KState) : Z :=
  match cap_object_get obj_id s with
  | Some o => if o_kind (object o s) =? CAP_OBJ_KIND_MEM then o_phys_base (object o s) else 0
  | None => 0
  end.

Definition cap_object_count (s : KState) : Z :=
  count_up (Z.to_nat CAP_OBJECT_MAX) 0 (fun i => negb (o_active (object i s) =? 0)).

Definition cap_arena_free_frames (s : KState) : Z := k_arena_free s.
