(* ===== verification/Chan.v ===== *)
(** The driver-facing channel interface (kernel/chan.c): slot resolution, the
    error map, deadlines, and the [k_chan_*], [k_cap_info], [k_io_*] and
    [k_dev_mmap] calls.

    Parking a process is the scheduler's business (kernel/process.c, or the weak
    defaults of cap.c): [ChanEnv] is the interface chan.c calls it through. *)

From stdpp Require Import base gmap list list_numbers.
From Stdlib Require Import ZArith Lia Bool.
From S2P Require Import Prelude FramePool CapWord Sidecar CapState CapPools CapOps CapMsg CapRevoke.
#[local] Open Scope Z_scope.
#[local] Open Scope carr_scope.
#[local] Open Scope cap_scope.

(** * Codes (cap.h) *)

Definition CAP_ERR_OK : Z := 0.
Definition CAP_ERR_NOTFOUND : Z := 1.
Definition CAP_ERR_REVOKED : Z := 2.
Definition CAP_ERR_RIGHTS : Z := 3.
Definition CAP_ERR_RANGE : Z := 4.
Definition CAP_ERR_SPACE : Z := 6.
Definition CAP_ERR_STATE : Z := 8.
Definition CAP_ERR_TYPE : Z := 9.
Definition CAP_ERR_PROTO : Z := 10.
Definition CAP_ERR_NOMEM : Z := 11.
Definition CAP_ERR_BUFSZ : Z := 12.
Definition CAP_ERR_TIMEOUT : Z := 13.

Definition CH_KIND_MSG : Z := 0.
Definition CH_KIND_CLOSE : Z := 1.
Definition CH_KIND_NONE : Z := 3.
Definition CH_F_NO_REPLY : Z := 2.
Definition CH_TIMEOUT_NONE : Z := 0xFFFFFFFFFFFFFFFF.

Definition SYS_SLS_CHAN_WAIT : Z := 311.
Definition SYS_SLS_CHAN_SEND : Z := 313.
Definition DEV_MMAP_WC : Z := 1.
Definition DEV_MMAP_UNCACHED : Z := 2.
Definition DEV_MMAP_USER_LIMIT : Z := 0x800000000000.
Definition DEV_MMAP_WINDOW_BASE : Z := 0x100000000.

Definition UINT64_MAX : Z := 0xFFFFFFFFFFFFFFFF.
Definition KERNEL_TICK_NS : Z := 1000000000 / 100.

(** * Slot resolution *)

Definition chan_table_for_pid (pid : Z) (s : KState) : Z :=
  match find_up (Z.to_nat CAP_TABLE_MAX) 0 (fun i => t_pid (table i s) =? pid) with
  | Some i => i
  | None => -1
  end.

Definition chan_word_valid (w : Z) : bool :=
  negb (w_type w =? CAP_TYPE_NONE) && (w_state w =? CAP_STATE_VALID) && (w_rsvd w =? 0).

(** The endpoint a slot names, [inl (chan_id, dir)], or the code that refuses it;
    [want_type] 0 accepts both ends. *)
Definition chan_resolve (pid sl want_type : Z) (s : KState) : Z * Z + Z :=
  let ti := chan_table_for_pid pid s in
  if ti <? 0 then inr CAP_ERR_NOTFOUND else
  if CAP_TABLE_ENTRIES <=? sl then inr CAP_ERR_RANGE else
  let w := slot ti sl s in
  if negb (chan_word_valid w) then inr CAP_ERR_REVOKED else
  let ty := w_type w in
  if negb (ty =? CAP_TYPE_CHAN_R) && negb (ty =? CAP_TYPE_CHAN_W) then inr CAP_ERR_TYPE else
  if negb (want_type =? 0) && negb (ty =? want_type) then inr CAP_ERR_TYPE else
  if (want_type =? CAP_TYPE_CHAN_R) && negb (w_has_perm w CAP_PERM_RECV) then inr CAP_ERR_RIGHTS else
  if (want_type =? CAP_TYPE_CHAN_W) && negb (w_has_perm w CAP_PERM_SEND) then inr CAP_ERR_RIGHTS else
  let obj_id := w_obj w in
  if CAP_OBJECT_MAX <=? obj_id then inr CAP_ERR_REVOKED else
  let o := object obj_id s in
  if (o_active o =? 0) || negb (o_kind o =? CAP_OBJ_KIND_CHAN) then inr CAP_ERR_REVOKED else
  let chan_id := o_chan_id o in
  if CAP_CHAN_MAX <=? chan_id then inr CAP_ERR_REVOKED else
  let ch := channel chan_id s in
  if c_active ch =? 0 then inr CAP_ERR_STATE else
  inl (chan_id, if pid =? c_end0_pid ch then 0 else 1).

(** The negative codes of the capability calls as transport codes. *)
Definition chan_map_err (cap_e : Z) : Z :=
  if cap_e =? 0 then CAP_ERR_OK else
  if cap_e =? CAP_EBADF then CAP_ERR_NOTFOUND else
  if cap_e =? CAP_ECAPREVOKED then CAP_ERR_REVOKED else
  if cap_e =? CAP_EINVAL then CAP_ERR_TYPE else
  if cap_e =? CAP_EAGAIN then CAP_ERR_TIMEOUT else
  if cap_e =? CAP_ENOMEM then CAP_ERR_NOMEM else
  if cap_e =? CAP_ENOSPC then CAP_ERR_NOMEM else
  if cap_e =? CAP_ERANGE then CAP_ERR_RANGE else
  if cap_e =? CAP_ETABLEFULL then CAP_ERR_SPACE else
  CAP_ERR_PROTO.

(** A relative deadline in nanoseconds as an absolute tick, given the tick
    counter: rounded up, saturating. *)
Definition chan_deadline_from_ns (timeout_ns now : Z) : Z :=
  let add := KERNEL_TICK_NS - 1 in
  let ticks := if UINT64_MAX - add <? timeout_ns then UINT64_MAX / KERNEL_TICK_NS
               else u64 (timeout_ns + add) / KERNEL_TICK_NS in
  if UINT64_MAX - ticks <? now then UINT64_MAX else u64 (now + ticks).

(** * The scheduler's side *)

(** [cap_wait_chans ids park_syscall deadline] returns 0 when the caller cannot
    park; [cap_park_deadline_take] returns the stored deadline and clears it. *)
Class ChanEnv := {
  cap_wait_chans : list Z → Z → Z → M Z;
  cap_park_deadline_take : M Z;
  kernel_tick_counter : KState → Z
}.

(** The weak defaults of cap.c: nobody can park. *)
Definition weak_chan_env : ChanEnv := {|
  cap_wait_chans := fun ids sc dl => do* hook (HWaitChans ids sc dl); ret 0;
  cap_park_deadline_take := ret 0;
  kernel_tick_counter := fun _ => 0
|}.

(** * Waiting *)

(** What a locked poll of one direction sees: the kind of the head entry. *)
Definition poll_kind (d : Z) (ch : CapChannel) : option Z :=
  if 0 <? (c_qdepth ch).[d] then Some CH_KIND_MSG
  else if negb ((c_close_evt ch).[d] =? 0) then Some CH_KIND_CLOSE
  else None.

Definition poll_one (chan_id d : Z) : M (option Z) :=
  do* cap_lock (LChan chan_id);
  let* ch := get_channel chan_id in
  do* cap_unlock (LChan chan_id);
  ret (poll_kind d ch).

(** The first ready endpoint of [eps]: its index and kind. *)
Fixpoint poll_all (i : Z) (eps : list (Z * Z)) : M (option (Z * Z)) :=
  match eps with
  | [] => ret None
  | (c, d) :: eps' =>
      let* r := poll_one c d in
      match r with
      | Some kind => ret (Some (i, kind))
      | None => poll_all (i + 1) eps'
      end
  end.

(** The resolve-and-poll pass over the caller's slots: [inl eps] when none is
    ready, [inr (code, idx, kind)] when the call returns. *)
Definition wait_scan (pid : Z) (chans : gmap Z Z) (n : Z) : M (list (Z * Z) + Z * Z * Z) :=
  for_ctl (Z.to_nat n) 0 (fun i eps =>
    let* r := gets (chan_resolve pid chans.[i] CAP_TYPE_CHAN_R) in
    match r with
    | inr e => ret (Return (e, 0, CH_KIND_NONE))
    | inl (chan_id, dir) =>
        let* ready := poll_one chan_id dir in
        match ready with
        | Some kind => ret (Return (CAP_ERR_OK, i, kind))
        | None => ret (Next (eps ++ [(chan_id, dir)]))
        end
    end) [].

(** One last poll before giving up on the deadline. *)
Definition final_poll (eps : list (Z * Z)) : M (Z * Z * Z) :=
  let* r := poll_all 0 eps in
  match r with
  | Some (i, kind) => ret (CAP_ERR_OK, i, kind)
  | None => ret (CAP_ERR_TIMEOUT, 0, CH_KIND_NONE)
  end.

Section Wait.
Context `{ChanEnv}.

Definition deadline_passed (deadline : Z) (s : KState) : bool :=
  negb (deadline =? 0) && (deadline <=? kernel_tick_counter s).

(** The deadline of this call: the stored one on a re-run, a fresh one when
    [bounded], 0 for none. *)
Definition call_deadline (timeout_ns : Z) (bounded : bool) : M Z :=
  let* stored := cap_park_deadline_take in
  let* now := gets kernel_tick_counter in
  ret (if (stored =? 0) && bounded then chan_deadline_from_ns timeout_ns now else stored).

(** The park loop; [fuel] bounds the number of parks. *)
Definition wait_park (fuel : nat) (eps : list (Z * Z)) (deadline : Z) : M (Z * Z * Z) :=
  let* r := while_ctl (A := unit) fuel (fun _ =>
    let* parked := cap_wait_chans (map fst eps) SYS_SLS_CHAN_WAIT deadline in
    if parked =? 0 then ret (Return (CAP_ERR_TIMEOUT, 0, CH_KIND_NONE)) else
    let* r := poll_all 0 eps in
    match r with
    | Some (i, kind) => ret (Return (CAP_ERR_OK, i, kind))
    | None =>
        let* late := gets (deadline_passed deadline) in
        if late then let* r := final_poll eps in ret (Return r) else ret (Next tt)
    end) tt in
  match r with
  | inr out => ret out
  | inl _ => throw Spin
  end.

(** Returns the code, [*out_idx] and [*out_kind]. *)
Definition k_chan_wait (fuel : nat) (pid : Z) (chans : gmap Z Z) (n timeout_ns : Z) : M (Z * Z * Z) :=
  if (n =? 0) || (CHAN_WAIT_MAX_CHANS <? n) then ret (CAP_ERR_PROTO, 0, CH_KIND_NONE) else
  let* deadline := call_deadline timeout_ns (negb (timeout_ns =? CH_TIMEOUT_NONE)) in
  let* r := wait_scan pid chans n in
  match r with
  | inr out => ret out
  | inl eps =>
      let* late := gets (deadline_passed deadline) in
      if late then final_poll eps else wait_park fuel eps deadline
  end.

End Wait.

(** * Receiving *)

(** [struct SLSChanCapRef]: a capability as [k_chan_recv] reports it. *)
Record SLSChanCapRef := mkRef {
  cr_handle : Z;
  cr_rights : Z;
  cr_flags : Z;
  cr_base : Z;
  cr_len : Z
}.

(** The code, [struct SLSChanRecvOut], the bytes written to the caller's buffer
    and the entries written to the caller's [slots]. *)
Record ChanRecvOut := mkOut {
  x_code : Z;
  x_kind : Z;
  x_flags : Z;
  x_tag : Z;
  x_len : Z;
  x_n_caps : Z;
  x_needed : Z;
  x_bytes : list Z;
  x_slots : list SLSChanCapRef
}.

Definition recv_none (code needed : Z) : ChanRecvOut := mkOut code CH_KIND_NONE 0 0 0 0 needed [] [].

(** The eight bytes of a CLOSE event. *)
Definition close_body (reason detail : Z) : list Z :=
  [u8 reason; u8 (Z.shiftr reason 8); u8 detail; u8 (Z.shiftr detail 8);
   u8 (Z.shiftr detail 16); u8 (Z.shiftr detail 24); 0; 0].

(** [slots[i]] for an installed capability. *)
Definition cap_ref (pid : Z) (d : SLSCapDesc) : M SLSChanCapRef :=
  let* oid := cap_debug_objid pid (d_slot d) in
  let* pbase := if negb (oid =? 0xFFFFFFFF) then gets (cap_debug_obj_phys oid) else ret 0 in
  ret (mkRef (d_slot d) (d_rights d) (d_flags d) (u64 (pbase + d_offset d)) (d_len d)).

Fixpoint cap_refs (pid : Z) (descs : list SLSCapDesc) : M (list SLSChanCapRef) :=
  match descs with
  | [] => ret []
  | d :: ds =>
      let* r := cap_ref pid d in
      let* rs := cap_refs pid ds in
      ret (r :: rs)
  end.

Section Recv.
Context `{CapEnv}.

(** [slots] tells whether the caller passed a [slots] array. *)
Definition k_chan_recv (pid chan buf_len : Z) (slots : bool) (n_slots : Z) : M ChanRecvOut :=
  let* r := gets (chan_resolve pid chan CAP_TYPE_CHAN_R) in
  match r with
  | inr e => ret (recv_none e 0)
  | inl (chan_id, dir) =>
  do* cap_lock (LChan chan_id);
  let* ch := get_channel chan_id in
  if (c_qdepth ch).[dir] =? 0 then
    if negb ((c_close_evt ch).[dir] =? 0) then
      let reason := (c_close_reason ch).[dir] in
      let detail := (c_close_detail ch).[dir] in
      if buf_len <? 8 then
        do* cap_unlock (LChan chan_id); ret (recv_none CAP_ERR_BUFSZ 8)
      else
      do* set_channel chan_id (fun ch => set_c_close_evt (c_close_evt ch).[dir <- 0] ch);
      do* cap_unlock (LChan chan_id);
      ret (mkOut CAP_ERR_OK CH_KIND_CLOSE 0 0 8 0 0 (close_body reason detail) [])
    else do* cap_unlock (LChan chan_id); ret (recv_none CAP_ERR_STATE 0)
  else
  let entry := (c_qhead ch).[dir] mod CHAN_QUEUE_DEPTH in
  let* m := get_message chan_id dir entry in
  let need := m_payload_len m in
  let needc := m_n_caps m in
  do* cap_unlock (LChan chan_id);
  if (buf_len <? need) || (n_slots <? needc) then
    ret (recv_none CAP_ERR_BUFSZ
           (Z.lor (Z.shiftl (Z.land needc 0xFFFF) 16) (Z.land need 0xFFFF)))
  else
  let* rr := cap_recv_msg pid chan buf_len (u16 n_slots) in
  if r_code rr <? 0 then ret (recv_none (chan_map_err (r_code rr)) 0) else
  let* refs := if slots then cap_refs pid (take (Z.to_nat n_slots) (r_caps rr)) else ret [] in
  ret (mkOut CAP_ERR_OK CH_KIND_MSG
         (if negb (Z.land (r_flags rr) 1 =? 0) then CH_F_NO_REPLY else 0)
         (r_tag rr) (r_payload_len rr) (r_n_caps rr) 0 (r_bytes rr) refs)
  end.

End Recv.

(** * Sending *)

Definition is_null {A} (p : option A) : bool := match p with None => true | Some _ => false end.

Section Send.
Context `{ChanEnv}.

(** [CHAN_W], or [CHAN_R] for a server's reply on its receive handle. *)
Definition send_resolve (pid chan : Z) (s : KState) : Z * Z + Z :=
  match chan_resolve pid chan CAP_TYPE_CHAN_W s with
  | inr e => if e =? CAP_ERR_TYPE then chan_resolve pid chan CAP_TYPE_CHAN_R s else inr e
  | r => r
  end.

Definition k_chan_send (pid chan tag flags : Z) (payload : option (list Z)) (payload_len : Z)
    (caps : option (list SLSCapDesc)) (n_caps timeout_ns : Z) : M Z :=
  if CAP_MSG_MAX_PAYLOAD <? payload_len then ret CAP_ERR_RANGE else
  if CAP_MSG_MAX_CAPS <? n_caps then ret CAP_ERR_RANGE else
  if (0 <? payload_len) && is_null payload then ret CAP_ERR_PROTO else
  if (0 <? n_caps) && is_null caps then ret CAP_ERR_PROTO else
  let no_reply := negb (Z.land flags CH_F_NO_REPLY =? 0) in
  if no_reply && (0 <? n_caps) then ret CAP_ERR_PROTO else
  let* deadline :=
    call_deadline timeout_ns (negb (timeout_ns =? 0) && negb (timeout_ns =? CH_TIMEOUT_NONE)) in
  let* r := gets (send_resolve pid chan) in
  match r with
  | inr e => ret e
  | inl (chan_id, dir) =>
  do* cap_lock (LChan chan_id);
  let* ch := get_channel chan_id in
  do* cap_unlock (LChan chan_id);
  if negb ((c_closed ch).[dir] =? 0) || negb ((c_closed ch).[1 - dir] =? 0) then ret CAP_ERR_STATE else
  let tflags := if no_reply then 1 else 0 in
  let* rr := cap_send_msg pid chan payload payload_len (default [] caps) n_caps tag tflags in
  if rr =? 0 then ret CAP_ERR_OK else
  if rr =? CAP_EAGAIN then
    let* late := gets (deadline_passed deadline) in
    if late then ret CAP_ERR_TIMEOUT else
    do* cap_wait_chans [chan_id] SYS_SLS_CHAN_SEND deadline;
    ret (chan_map_err rr)
  else ret (chan_map_err rr)
  end.

End Send.

(** * Closing *)

Definition close_end (dir reason detail : Z) (ch : CapChannel) : CapChannel :=
  set_c_close_detail (c_close_detail ch).[1 - dir <- detail]
    (set_c_close_reason (c_close_reason ch).[1 - dir <- reason]
      (set_c_close_evt (c_close_evt ch).[1 - dir <- 1]
        (set_c_closed (c_closed ch).[dir <- 1] ch))).

Definition k_chan_close (pid chan reason detail : Z) : M Z :=
  let* r := gets (chan_resolve pid chan 0) in
  match r with
  | inr e => ret e
  | inl (chan_id, dir) =>
  do* cap_lock (LChan chan_id);
  let* ch := get_channel chan_id in
  if negb ((c_closed ch).[dir] =? 0) then
    do* cap_unlock (LChan chan_id); ret CAP_ERR_OK
  else
  do* set_channel chan_id (close_end dir reason detail);
  do* cap_unlock (LChan chan_id);
  do* hook (HWakeChan chan_id);
  do* hook HHandoff;
  ret CAP_ERR_OK
  end.

(** * Introspection *)

(** [struct SLSCapInfoOut] with the code. *)
Record CapInfo := mkInfo {
  i_code : Z;
  i_ty : Z;
  i_rights : Z;
  i_base : Z;
  i_len : Z
}.

Definition k_cap_info (pid handle : Z) (s : KState) : CapInfo :=
  let ti := chan_table_for_pid pid s in
  if ti <? 0 then mkInfo CAP_ERR_NOTFOUND 0 0 0 0 else
  if CAP_TABLE_ENTRIES <=? handle then mkInfo CAP_ERR_RANGE 0 0 0 0 else
  let w := slot ti handle s in
  if negb (chan_word_valid w) then mkInfo CAP_ERR_REVOKED 0 0 0 0 else
  let ty := w_type w in
  let o := object (w_obj w) s in
  if (w_obj w <? CAP_OBJECT_MAX) && negb (o_active o =? 0) &&
     ((ty =? CAP_TYPE_MEM) || (ty =? CAP_TYPE_DEV))
  then mkInfo CAP_ERR_OK ty (w_perm w) (o_phys_base o) (u64 (o_npages o * 4096))
  else mkInfo CAP_ERR_OK ty (w_perm w) 0 0.

(** * Port I/O *)

(** The port an access names, or the code that refuses it. *)
Definition io_resolve (pid sl want_perm index size : Z) (s : KState) : Z + Z :=
  let ti := chan_table_for_pid pid s in
  if ti <? 0 then inr CAP_ERR_NOTFOUND else
  if CAP_TABLE_ENTRIES <=? sl then inr CAP_ERR_RANGE else
  let w := slot ti sl s in
  if negb (chan_word_valid w) then inr CAP_ERR_REVOKED else
  if negb (w_type w =? CAP_TYPE_IO) then inr CAP_ERR_TYPE else
  if Z.land (w_perm w) want_perm =? 0 then inr CAP_ERR_RIGHTS else
  if w_len w <? u32 (index + size) then inr CAP_ERR_RANGE else
  inl (u16 (w_obj w + index)).

Definition io_size_ok (size : Z) : bool := (size =? 1) || (size =? 2) || (size =? 4).

Section Io.
Context `{CapEnv}.

Definition cap_io_read (port size : Z) : M Z :=
  let* tr := gets k_trace in
  do* hook (HIoRead port size);
  ret (cap_io_read_ret tr port size).

(** Returns the code and [*out_val], when it is written. *)
Definition k_io_in (pid sl index size : Z) : M (Z * option Z) :=
  if negb (io_size_ok size) then ret (CAP_ERR_RANGE, None) else
  let* r := gets (io_resolve pid sl CAP_PERM_R index size) in
  match r with
  | inr e => ret (e, None)
  | inl port => let* v := cap_io_read port size in ret (CAP_ERR_OK, Some v)
  end.

Definition k_io_out (pid sl index size val : Z) : M Z :=
  if negb (io_size_ok size) then ret CAP_ERR_RANGE else
  let* r := gets (io_resolve pid sl CAP_PERM_W index size) in
  match r with
  | inr e => ret e
  | inl port => do* hook (HIoWrite port size val); ret CAP_ERR_OK
  end.

End Io.

(** * Mapping device memory *)

(** [lo < mhi && mlo < hi] for a live record. *)
Definition dev_map_meets (vaddr npages : Z) (m : CapMap) : bool :=
  negb (mp_active m =? 0) && (vaddr <? u64 (mp_vaddr m + mp_npages m * 4096)) &&
  (mp_vaddr m <? u64 (vaddr + npages * 4096)).

Definition dev_mmaps_overlap (t : CapTable) (vaddr npages : Z) : bool :=
  match find_up (Z.to_nat CAP_MAP_MAX) 0 (fun i => dev_map_meets vaddr npages (t_maps t).[i]) with
  | Some _ => true | None => false
  end.

(** The upward scan for a window: 64 records of at most 4095 pages block fewer
    than [dev_scan_fuel] page-aligned windows. *)
Definition dev_scan_fuel : nat := Z.to_nat (CAP_MAP_MAX * 8192).

Fixpoint dev_scan (fuel : nat) (t : CapTable) (len vaddr : Z) : option Z :=
  match fuel with
  | O => None
  | S n =>
      if DEV_MMAP_USER_LIMIT <=? vaddr then Some vaddr
      else if dev_mmaps_overlap t vaddr len then dev_scan n t len (vaddr + 0x1000)
      else Some vaddr
  end.

Definition hint_usable (t : CapTable) (len hint : Z) : bool :=
  (DEV_MMAP_WINDOW_BASE <=? hint) && (Z.land hint 0xFFF =? 0) &&
  (u64 (hint + len * 4096) <=? DEV_MMAP_USER_LIMIT) && negb (dev_mmaps_overlap t hint len).

Definition dev_window (t : CapTable) (len hint : Z) : M Z :=
  if hint_usable t len hint then ret hint
  else match dev_scan dev_scan_fuel t len DEV_MMAP_WINDOW_BASE with
       | Some v => ret v
       | None => throw Spin
       end.

(** The live object and the window of pages a DEV slot names. *)
Definition dev_resolve (pid sl : Z) (s : KState) : Z * Z + Z :=
  let ti := chan_table_for_pid pid s in
  if ti <? 0 then inr CAP_ERR_NOTFOUND else
  if CAP_TABLE_ENTRIES <=? sl then inr CAP_ERR_RANGE else
  let w := slot ti sl s in
  if negb (chan_word_valid w) then inr CAP_ERR_REVOKED else
  if negb (w_type w =? CAP_TYPE_DEV) then inr CAP_ERR_TYPE else
  if Z.land (w_perm w) (Z.lor CAP_PERM_R CAP_PERM_W) =? 0 then inr CAP_ERR_RIGHTS else
  if CAP_OBJECT_MAX <=? w_obj w then inr CAP_ERR_TYPE else
  let obj := object (w_obj w) s in
  if (o_active obj =? 0) || negb (o_kind obj =? CAP_OBJ_KIND_DEV) then inr CAP_ERR_TYPE else
  if w_len w =? 0 then inr CAP_ERR_RANGE else
  if u64 (o_npages obj * 4096) <? w_off w + w_len w * 4096 then inr CAP_ERR_RANGE else
  inl (ti, w).

Definition dev_map_perms (perms flags : Z) : Z :=
  let p := Z.land perms (Z.lor CAP_PERM_R CAP_PERM_W) in
  let p := if negb (Z.land flags DEV_MMAP_WC =? 0) then Z.lor p CAP_PERM_DEV_WC else p in
  if negb (Z.land flags DEV_MMAP_UNCACHED =? 0) then Z.lor p CAP_PERM_DEV_UC else p.

Section DevMmap.
Context `{CapEnv}.

(** Returns the code and [*out_vaddr]. *)
Definition k_dev_mmap (pid sl flags vaddr_hint : Z) : M (Z * Z) :=
  if negb (Z.ldiff flags (Z.lor DEV_MMAP_WC DEV_MMAP_UNCACHED) =? 0) then ret (CAP_ERR_RANGE, CAP_NONE) else
  let* r := gets (dev_resolve pid sl) in
  match r with
  | inr e => ret (e, CAP_NONE)
  | inl (ti, w) =>
  let obj_id := w_obj w in
  let len := w_len w in
  let* t := gets (table ti) in
  match find_up (Z.to_nat CAP_MAP_MAX) 0 (fun i =>
          negb (mp_active (t_maps t).[i] =? 0) && (mp_obj_id (t_maps t).[i] =? obj_id)) with
  | Some i => ret (CAP_ERR_OK, mp_vaddr (t_maps t).[i])
  | None =>
  let* vaddr := dev_window t len vaddr_hint in
  let cr3 := cap_proc_cr3 pid in
  if cr3 =? 0 then ret (CAP_ERR_STATE, CAP_NONE) else
  let* obj := get_object obj_id in
  let phys := u64 (o_phys_base obj + w_off w) in
  let* res := map_pages cr3 vaddr phys len (dev_map_perms (w_perm w) flags) in
  match res with
  | inr _ => ret (CAP_ERR_NOMEM, CAP_NONE)
  | inl _ =>
  do* hook HTlbFlush;
  let* t := gets (table ti) in
  match find_up (Z.to_nat CAP_MAP_MAX) 0 (fun i => mp_active (t_maps t).[i] =? 0) with
  | None => ret (CAP_ERR_SPACE, CAP_NONE)
  | Some i =>
      do* modify (upd_map ti i (fun _ => mkMap obj_id sl (u16 len) vaddr 1));
      ret (CAP_ERR_OK, vaddr)
  end end end end.

End DevMmap.
