(* ===== verification/Irq.v ===== *)
(** Device interrupts (kernel/cap.c): binding a vector to a notification channel,
    the latch the interrupt handler sets, the drain that delivers latched edges in
    process context, and the minting of interrupt, port and device capabilities
    for a new sidecar. *)

From stdpp Require Import base gmap list list_numbers.
From Stdlib Require Import ZArith Lia Bool.
From S2P Require Import Prelude FramePool CapWord Sidecar CapState CapPools CapOps CapMsg CapRevoke Chan.
#[local] Open Scope Z_scope.
#[local] Open Scope carr_scope.
#[local] Open Scope cap_scope.

(** * Latching and delivery *)

(** The handler: self-mask, latch, acknowledge; no lock is taken. *)
Definition irq_bit (v : Z) : Z := u32 (Z.shiftl 1 (Z.land v 31)).

Definition irq_latched (v : Z) (s : KState) : bool :=
  negb (Z.land (k_irq_pending s).[Z.shiftr v 5] (irq_bit v) =? 0).

Definition irq_latch (v : Z) (s : KState) : KState :=
  let i := Z.shiftr v 5 in
  set_k_irq_pending (k_irq_pending s).[i <- Z.lor (k_irq_pending s).[i] (irq_bit v)] s.

Definition irq_unlatch (v : Z) (s : KState) : KState :=
  let i := Z.shiftr v 5 in
  set_k_irq_pending (k_irq_pending s).[i <- Z.land (k_irq_pending s).[i] (u32_not (irq_bit v))] s.

Definition cap_irq_notify (vector : Z) : M unit :=
  if CAP_IRQ_VECTORS <=? vector then hook (HIrqEoi vector) else
  do* (if 0x21 <=? vector then hook (HIrqSetMask vector 1) else ret tt);
  do* modify (irq_latch vector);
  hook (HIrqEoi vector).

(** The message of an edge: its tag and one payload byte are the vector. *)
Definition irq_message (vector pidx : Z) (m : ChanMsg) : ChanMsg :=
  set_m_payload_idx pidx (set_m_payload_len 1 (set_m_flags 0 (set_m_cookie vector
    (set_m_n_caps 0 (zero_caps m))))).

(** Process-context delivery of one vector. *)
Definition cap_irq_notify_locked (vector : Z) : M unit :=
  let* chan_id := gets (fun s => (k_irq_chan s).[vector]) in
  if chan_id =? CAP_NONE then ret tt else
  let* ch := get_channel chan_id in
  if c_active ch =? 0 then ret tt else
  let* budget := gets (fun s => (k_irq_budget s).[vector]) in
  let budget := if budget =? 0 then CHAN_QUEUE_DEPTH else budget in
  do* cap_lock (LChan chan_id);
  let* ch := get_channel chan_id in
  if (budget <=? (c_qdepth ch).[0]) || (c_active ch =? 0) then cap_unlock (LChan chan_id) else
  let* p := cap_msg_payload_alloc in
  match p with
  | None => cap_unlock (LChan chan_id)
  | Some pidx =>
      do* modify (fun s => set_k_payload (k_payload s).[pidx <- (k_payload s).[pidx].[0 <- u8 vector]] s);
      let entry := (c_qtail ch).[0] mod CHAN_QUEUE_DEPTH in
      do* set_message chan_id 0 entry (irq_message vector pidx);
      do* set_channel chan_id (enqueue 0);
      do* cap_unlock (LChan chan_id);
      hook (HWakeChan chan_id)
  end.

Definition cap_irq_drain_pending : M unit :=
  let* draining := gets k_irq_draining in
  if negb (draining =? 0) then ret tt else
  do* modify (set_k_irq_draining 1);
  do* for_each (Z.to_nat CAP_IRQ_VECTORS) 0 (fun v _ =>
        let* latched := gets (irq_latched v) in
        if negb latched then ret tt else
        do* modify (irq_unlatch v);
        cap_irq_notify_locked v) tt;
  modify (set_k_irq_draining 0).

(** * k_irq_bind *)

(** Returns the code and [*out_chan_r]. *)
Definition k_irq_bind (pid sl budget : Z) : M (Z * Z) :=
  if CHAN_QUEUE_DEPTH <? budget then ret (CAP_ERR_RANGE, CAP_NONE) else
  let* ti := cap_table_index pid in
  if ti <? 0 then ret (CAP_ERR_NOTFOUND, CAP_NONE) else
  if CAP_TABLE_ENTRIES <=? sl then ret (CAP_ERR_RANGE, CAP_NONE) else
  let* w := get_slot ti sl in
  if negb (cap_word_valid w) then ret (CAP_ERR_REVOKED, CAP_NONE) else
  if negb (w_type w =? CAP_TYPE_IRQ) then ret (CAP_ERR_TYPE, CAP_NONE) else
  if negb (w_has_perm w CAP_PERM_BIND) then ret (CAP_ERR_RIGHTS, CAP_NONE) else
  let vector := w_obj w in
  if CAP_IRQ_VECTORS <=? vector then ret (CAP_ERR_RANGE, CAP_NONE) else
  let* bound := gets (fun s => (k_irq_chan s).[vector]) in
  if negb (bound =? CAP_NONE) then ret (CAP_ERR_STATE, CAP_NONE) else
  let* chan_id := cap_chan_id_take in
  if chan_id =? CAP_CHAN_NONE then ret (CAP_ERR_SPACE, CAP_NONE) else
  do* cap_lock_init (LChan chan_id);
  do* set_channel chan_id (chan_reset (u16 pid) 0);
  let* r := cap_object_alloc CAP_OBJ_KIND_CHAN in
  match r with
  | None =>
      do* set_channel chan_id (set_c_active 0);
      ret (CAP_ERR_NOMEM, CAP_NONE)
  | Some obj_id =>
  do* set_object obj_id (set_o_chan_id (u16 chan_id));
  do* cap_lock (LTable ti);
  let* rd := cap_slot_pop ti in
  match rd with
  | None =>
      do* cap_unlock (LTable ti);
      do* cap_object_destroy obj_id;
      do* set_channel chan_id (set_c_active 0);
      ret (CAP_ERR_SPACE, CAP_NONE)
  | Some rd =>
  do* set_slot ti rd (cap_word_make CAP_TYPE_CHAN_R obj_id CAP_PERM_RECV 0 1);
  do* cap_unlock (LTable ti);
  let* hs := cap_holder_alloc obj_id HOLDER_SLOT (u16 pid) rd 0 in
  match hs with
  | None =>
      do* cap_lock (LTable ti);
      do* set_slot ti rd 0;
      do* cap_slot_push ti rd;
      do* cap_unlock (LTable ti);
      do* cap_object_destroy obj_id;
      do* set_channel chan_id (set_c_active 0);
      ret (CAP_ERR_NOMEM, CAP_NONE)
  | Some hs =>
  do* cap_lock (LObj obj_id);
  do* cap_holder_link hs obj_id;
  do* cap_unlock (LObj obj_id);
  do* modify (fun s => set_k_irq_chan (k_irq_chan s).[vector <- u16 chan_id] s);
  do* modify (fun s => set_k_irq_budget (k_irq_budget s).[vector <- u16 budget] s);
  do* hook (HIrqUnmask vector);
  do* cap_lock (LTable ti);
  do* set_slot ti sl (cap_word_stamp_revoked w);
  do* cap_unlock (LTable ti);
  ret (CAP_ERR_OK, rd)
  end end end.

(** * k_irq_unbind / k_irq_mask *)

(** The shared validation: the channel of a CHAN_R slot and the vector it is
    registered under. *)
Definition irq_resolve (ti chan_r : Z) (s : KState) : Z * Z + Z :=
  if CAP_TABLE_ENTRIES <=? chan_r then inr CAP_ERR_RANGE else
  let w := slot ti chan_r s in
  if negb (cap_word_valid w) then inr CAP_ERR_REVOKED else
  if negb (w_type w =? CAP_TYPE_CHAN_R) then inr CAP_ERR_TYPE else
  if CAP_OBJECT_MAX <=? w_obj w then inr CAP_ERR_REVOKED else
  let o := object (w_obj w) s in
  if (o_active o =? 0) || negb (o_kind o =? CAP_OBJ_KIND_CHAN) then inr CAP_ERR_REVOKED else
  let chan_id := o_chan_id o in
  if CAP_CHAN_MAX <=? chan_id then inr CAP_ERR_REVOKED else
  match find_up (Z.to_nat CAP_IRQ_VECTORS) 0 (fun v => (k_irq_chan s).[v] =? u16 chan_id) with
  | None => inr CAP_ERR_STATE
  | Some vector => inl (chan_id, vector)
  end.

(** Returns the code and [*out_vector]. *)
Definition k_irq_unbind (pid chan_r : Z) : M (Z * Z) :=
  let* ti := cap_table_index pid in
  if ti <? 0 then ret (CAP_ERR_NOTFOUND, CAP_NONE) else
  let* r := gets (irq_resolve ti chan_r) in
  match r with
  | inr e => ret (e, CAP_NONE)
  | inl (chan_id, vector) =>
  let* ch := get_channel chan_id in
  if c_active ch =? 0 then ret (CAP_ERR_STATE, CAP_NONE) else
  do* modify (fun s => set_k_irq_chan (k_irq_chan s).[vector <- CAP_NONE] s);
  do* modify (fun s => set_k_irq_budget (k_irq_budget s).[vector <- 0] s);
  do* k_chan_close pid chan_r CLOSE_PEER vector;
  do* set_channel chan_id (fun ch => set_c_closed (c_closed ch).[1 <- 1] ch);
  do* hook (HWakeChan chan_id);
  ret (CAP_ERR_OK, u16 vector)
  end.

Definition k_irq_mask (pid chan_r mask : Z) : M Z :=
  let* ti := cap_table_index pid in
  if ti <? 0 then ret CAP_ERR_NOTFOUND else
  let* r := gets (irq_resolve ti chan_r) in
  match r with
  | inr e => ret e
  | inl (_, vector) =>
  do* hook (HIrqSetMask vector (if negb (mask =? 0) then 1 else 0));
  do* (if mask =? 0 then cap_irq_drain_pending else ret tt);
  ret CAP_ERR_OK
  end.

(** * Minting a sidecar's device capabilities *)

(** The fields of a manifest's capability record these loops read. *)
Record SidecarCap := mkSCap {
  sc_kind : Z;
  sc_rights : Z;
  sc_vector : Z;
  sc_phys_base : Z;
  sc_size_bytes : Z
}.

Definition SIDECAR_TAG_CAP_IRQ : Z := 0x0B.
Definition SIDECAR_TAG_CAP_IO : Z := 0x0C.
Definition SIDECAR_TAG_CAP_DEV : Z := 0x0D.

(** Pop a slot of [ti] and write a word that names no object into it. *)
Definition mint_word (ti w : Z) : M unit :=
  do* cap_lock (LTable ti);
  let* r := cap_slot_pop ti in
  match r with
  | None => cap_unlock (LTable ti)
  | Some idx => do* set_slot ti idx w; cap_unlock (LTable ti)
  end.

Definition mint_irq (pid : Z) (sc : SidecarCap) : M unit :=
  if negb (sc_kind sc =? SIDECAR_TAG_CAP_IRQ) then ret tt else
  if CAP_IRQ_VECTORS <=? sc_vector sc then ret tt else
  let* ti := cap_table_index pid in
  if ti <? 0 then ret tt else
  mint_word ti (cap_word_make CAP_TYPE_IRQ (sc_vector sc) (sc_rights sc) 0 1).

Definition mint_io (pid : Z) (sc : SidecarCap) : M unit :=
  if negb (sc_kind sc =? SIDECAR_TAG_CAP_IO) then ret tt else
  if (sc_phys_base sc =? 0) || (sc_size_bytes sc =? 0) then ret tt else
  if 0x10000 <? u64 (sc_phys_base sc + sc_size_bytes sc) then ret tt else
  let* ti := cap_table_index pid in
  if ti <? 0 then ret tt else
  mint_word ti (cap_word_make CAP_TYPE_IO (sc_phys_base sc) (sc_rights sc) 0 (u16 (sc_size_bytes sc))).

Definition mint_dev (pid : Z) (sc : SidecarCap) : M unit :=
  if negb (sc_kind sc =? SIDECAR_TAG_CAP_DEV) then ret tt else
  if (sc_phys_base sc =? 0) || (sc_size_bytes sc =? 0) then ret tt else
  if negb (Z.land (sc_phys_base sc) 0xFFF =? 0) then ret tt else
  let npages := u32 (u64 (sc_size_bytes sc + 4095) / 4096) in
  if (npages =? 0) || (CAP_LEN_MASK <? npages) then ret tt else
  let* ti := cap_table_index pid in
  if ti <? 0 then ret tt else
  let* r := cap_object_alloc CAP_OBJ_KIND_DEV in
  match r with
  | None => ret tt
  | Some obj_id =>
  do* set_object obj_id (fun o =>
        set_o_npages npages (set_o_phys_base (sc_phys_base sc) (set_o_max_perms (sc_rights sc) o)));
  do* cap_lock (LTable ti);
  let* sl := cap_slot_pop ti in
  match sl with
  | None =>
      do* cap_unlock (LTable ti);
      cap_object_destroy obj_id
  | Some idx =>
  do* cap_lock (LObj obj_id);
  let* e := cap_holder_insert obj_id HOLDER_SLOT (u16 pid) idx 0 in
  if negb (e =? 0) then
    do* cap_slot_push ti idx;
    do* cap_unlock (LObj obj_id);
    do* cap_unlock (LTable ti);
    cap_object_destroy obj_id
  else
    do* set_slot ti idx (cap_word_make CAP_TYPE_DEV obj_id (sc_rights sc) 0 npages);
    do* cap_unlock (LObj obj_id);
    cap_unlock (LTable ti)
  end end.

Fixpoint mint_each (mint : SidecarCap → M unit) (caps : list SidecarCap) : M unit :=
  match caps with
  | [] => ret tt
  | sc :: caps' => do* mint sc; mint_each mint caps'
  end.

(** The three passes of [cap_create_sidecar_in_personality] over the manifest. *)
Definition mint_device_caps (pid : Z) (caps : list SidecarCap) : M unit :=
  do* mint_each (mint_irq pid) caps;
  do* mint_each (mint_io pid) caps;
  mint_each (mint_dev pid) caps.
