(* ===== verification/Wp.v ===== *)
(** Weakest preconditions for the kernel monad of [CapState.v]: total correctness,
    so a proved specification also excludes out-of-bounds accesses, self-deadlock
    and unbounded spinning.  Loop rules, lock rules, and the linked-list
    predicates the pools are described with. *)

From stdpp Require Import base gmap list list_numbers.
From Stdlib Require Import ZArith Lia Bool.
From S2P Require Import Prelude FramePool CapWord Sidecar CapState.
#[local] Open Scope Z_scope.
#[local] Open Scope carr_scope.
#[local] Open Scope cap_scope.

(** [m] returns from [s], and its result satisfies [Q]. *)
Definition wp {A} (m : M A) (Q : A → KState → Prop) (s : KState) : Prop :=
  match m s with
  | Ok a s' => Q a s'
  | Fault _ => False
  end.

Section Rules.
Context {A B : Type}.
Implicit Types (s : KState).

Lemma wp_ret (a : A) Q s : wp (ret a) Q s = Q a s.
Proof. done. Qed.

Lemma wp_gets (f : KState → A) Q s : wp (gets f) Q s = Q (f s) s.
Proof. done. Qed.

Lemma wp_modify f Q s : wp (modify f) Q s = Q tt (f s).
Proof. done. Qed.

Lemma wp_bind (m : M A) (k : A → M B) Q s :
  wp (bind m k) Q s = wp m (λ a s', wp (k a) Q s') s.
Proof. unfold wp, bind. by destruct (m s). Qed.

Lemma wp_mono (m : M A) (Q R : A → KState → Prop) s :
  wp m Q s → (∀ a s', Q a s' → R a s') → wp m R s.
Proof. unfold wp. destruct (m s); auto. Qed.

(** A specification in terms of the run itself. *)
Lemma wp_Ok (m : M A) Q s : wp m Q s ↔ ∃ a s', m s = Ok a s' ∧ Q a s'.
Proof.
  unfold wp. split.
  - destruct (m s) as [a s'|]; [eauto | done].
  - by intros (a & s' & -> & ?).
Qed.

End Rules.

Lemma wp_in_bounds i n Q s : 0 ≤ i < n → wp (in_bounds i n) Q s = Q tt s.
Proof. intros. unfold in_bounds. by replace ((0 <=? i) && (i <? n)) with true by lia. Qed.

Lemma wp_hook h Q s : wp (hook h) Q s = Q tt (set_k_trace (h :: k_trace s) s).
Proof. done. Qed.

(** * Loops *)

Lemma wp_for_each {A} (I : Z → A → KState → Prop) n i (body : Z → A → M A) a s (Q : A → KState → Prop) :
  I i a s →
  (∀ j a s, i ≤ j < i + Z.of_nat n → I j a s → wp (body j a) (I (j + 1)) s) →
  (∀ a s, I (i + Z.of_nat n) a s → Q a s) →
  wp (for_each n i body a) Q s.
Proof.
  revert i a s. induction n as [|n IH]; intros i a s H0 Hstep HQ; cbn [for_each].
  { rewrite wp_ret. apply HQ. by rewrite Z.add_0_r. }
  rewrite wp_bind. eapply wp_mono; [apply Hstep; [lia|done]|].
  intros a' s' H'. apply IH; [done| |].
  - intros j ????. apply Hstep; [lia|done].
  - intros ?? Hf. apply HQ. by replace (i + Z.of_nat (S n)) with (i + 1 + Z.of_nat n) by lia.
Qed.

Lemma wp_for_ctl {A R} (I : Z → A → KState → Prop) n i (body : Z → A → M (ctl A R)) a s
    (Q : A + R → KState → Prop) :
  I i a s →
  (∀ j a s, i ≤ j < i + Z.of_nat n → I j a s →
     wp (body j a) (λ c s', match c with
                            | Next a => I (j + 1) a s'
                            | Break a => Q (inl a) s'
                            | Return r => Q (inr r) s'
                            end) s) →
  (∀ a s, I (i + Z.of_nat n) a s → Q (inl a) s) →
  wp (for_ctl n i body a) Q s.
Proof.
  revert i a s. induction n as [|n IH]; intros i a s H0 Hstep HQ; cbn [for_ctl].
  { rewrite wp_ret. apply HQ. by rewrite Z.add_0_r. }
  rewrite wp_bind. eapply wp_mono; [apply Hstep; [lia|done]|].
  intros [a'|a'|r] s' H'; [|done|done]. apply IH; [done| |].
  - intros j ????. apply Hstep; [lia|done].
  - intros ?? Hf. apply HQ. by replace (i + Z.of_nat (S n)) with (i + 1 + Z.of_nat n) by lia.
Qed.

(** A [while] loop with a decreasing measure stays within its fuel. *)
Lemma wp_while_ctl {A R} (I : A → KState → Prop) (measure : A → KState → nat) fuel
    (body : A → M (ctl A R)) a s (Q : A + R → KState → Prop) :
  I a s → (measure a s < fuel)%nat →
  (∀ a s, I a s → wp (body a) (λ c s', match c with
     | Next a' => I a' s' ∧ (measure a' s' < measure a s)%nat
     | Break a' => Q (inl a') s'
     | Return r => Q (inr r) s'
     end) s) →
  wp (while_ctl fuel body a) Q s.
Proof.
  intros H0 Hm Hstep. revert a s H0 Hm. induction fuel as [|n IH]; intros a s H0 Hm; [lia|].
  cbn [while_ctl]. rewrite wp_bind. eapply wp_mono; [by apply Hstep|].
  intros [a'|a'|r] s' H'; [|done|done]. destruct H' as [H1 H2]. apply IH; [done|lia].
Qed.

(** A [while] loop that consumes a list [l], one element per iteration. *)
Lemma wp_while_list {A X R} (I : list X → A → KState → Prop) fuel (body : A → M (ctl A R)) l a s
    (Q : A + R → KState → Prop) :
  I l a s → (length l < fuel)%nat →
  (∀ x l a s, I (x :: l) a s → wp (body a) (λ c s', match c with
     | Next a' => I l a' s'
     | Break a' => Q (inl a') s'
     | Return r => Q (inr r) s'
     end) s) →
  (∀ a s, I [] a s → wp (body a) (λ c s', match c with Break a' => Q (inl a') s' | _ => False end) s) →
  wp (while_ctl fuel body a) Q s.
Proof.
  intros H0 Hf Hstep Hnil. revert l a s H0 Hf. induction fuel as [|n IH]; intros l a s H0 Hf; [lia|].
  cbn [while_ctl]. rewrite wp_bind. destruct l as [|x l].
  - eapply wp_mono; [by apply Hnil|]. by intros [?|?|?] s'.
  - eapply wp_mono; [by eapply Hstep|]. intros [a'|a'|r] s' H'; [|done|done].
    apply (IH l); [done|cbn in Hf; lia].
Qed.

(** * Locks *)

Lemma lock_eqb_refl l : lock_eqb l l = true.
Proof. destruct l; simpl; auto using Z.eqb_refl. Qed.

Lemma lock_eqb_eq a b : lock_eqb a b = true ↔ a = b.
Proof.
  split; [|intros ->; apply lock_eqb_refl].
  destruct a, b; simpl; try done; intros ->%Z.eqb_eq; done.
Qed.

#[export] Instance LockId_eq_dec : EqDecision LockId.
Proof. solve_decision. Defined.

Lemma lock_held_false l s : l ∉ k_locks s → lock_held l s = false.
Proof.
  intros Hl. unfold lock_held. apply not_true_iff_false. rewrite existsb_exists.
  intros (x & Hx & ->%lock_eqb_eq). by apply Hl, list_elem_of_In.
Qed.

Lemma lock_drop_fresh l ls : l ∉ ls → lock_drop l ls = ls.
Proof.
  induction ls as [|x ls IH]; [done|]. intros Hl. simpl.
  destruct (lock_eqb l x) eqn:E.
  { apply lock_eqb_eq in E as ->. exfalso. apply Hl. by left. }
  simpl. rewrite IH; [done|]. intros ?. apply Hl. by right.
Qed.

Lemma lock_drop_head l ls : l ∉ ls → lock_drop l (l :: ls) = ls.
Proof. intros. simpl. rewrite lock_eqb_refl. by apply lock_drop_fresh. Qed.

Lemma wp_cap_lock l Q s :
  l ∉ k_locks s → wp (cap_lock l) Q s = Q tt (set_k_locks (l :: k_locks s) s).
Proof. intros Hl. unfold wp, cap_lock. by rewrite lock_held_false. Qed.

Lemma wp_cap_unlock l Q s :
  wp (cap_unlock l) Q s = Q tt (set_k_locks (lock_drop l (k_locks s)) s).
Proof. done. Qed.

Lemma set_k_locks_id s : set_k_locks (k_locks s) s = s.
Proof. by destruct s. Qed.

(** Discharge [l ∉ ls] for the concrete lock stacks of the operations. *)
Ltac lock_fresh :=
  cbn; rewrite ?not_elem_of_cons; split_and?; first [done | apply not_elem_of_nil | congruence | lia | idtac].

(** * State projections *)

(** Reduce a projection of an updated state. *)
Ltac kred :=
  cbn [upd_table upd_object upd_holder upd_channel upd_slot upd_message
       k_tables k_table_pid k_objects k_obj_next k_holders k_holder_free k_channels k_chan_next
       k_chan_recycled k_chan_recycled_n k_arena_base k_arena_bitmap k_arena_owner k_arena_free
       k_payload k_payload_next k_payload_free k_irq_chan k_irq_budget k_irq_pending
       k_irq_draining k_registry k_frames k_locks k_trace set_k_tables set_k_table_pid
       set_k_objects set_k_obj_next set_k_holders set_k_holder_free set_k_channels
       set_k_chan_next set_k_chan_recycled set_k_chan_recycled_n set_k_arena_base
       set_k_arena_bitmap set_k_arena_owner set_k_arena_free set_k_payload set_k_payload_next
       set_k_payload_free set_k_irq_chan set_k_irq_budget set_k_irq_pending set_k_irq_draining
       set_k_registry set_k_frames set_k_locks set_k_trace].
Ltac kred_in H :=
  cbn [upd_table upd_object upd_holder upd_channel upd_slot upd_message
       k_tables k_table_pid k_objects k_obj_next k_holders k_holder_free k_channels k_chan_next
       k_chan_recycled k_chan_recycled_n k_arena_base k_arena_bitmap k_arena_owner k_arena_free
       k_payload k_payload_next k_payload_free k_irq_chan k_irq_budget k_irq_pending
       k_irq_draining k_registry k_frames k_locks k_trace set_k_tables set_k_table_pid
       set_k_objects set_k_obj_next set_k_holders set_k_holder_free set_k_channels
       set_k_chan_next set_k_chan_recycled set_k_chan_recycled_n set_k_arena_base
       set_k_arena_bitmap set_k_arena_owner set_k_arena_free set_k_payload set_k_payload_next
       set_k_payload_free set_k_irq_chan set_k_irq_budget set_k_irq_pending set_k_irq_draining
       set_k_registry set_k_frames set_k_locks set_k_trace] in H.

(** * Linked lists *)

(** [l] is the list threaded from [a] through [nx]. *)
Fixpoint chain (nx : Z → Z) (a : Z) (l : list Z) : Prop :=
  match l with
  | [] => a = CAP_FREELIST_END
  | h :: t => a = h ∧ chain nx (nx h) t
  end.

(** [l] is the doubly linked list from [a], whose predecessor is [p]. *)
Fixpoint dchain (nx pv : Z → Z) (p a : Z) (l : list Z) : Prop :=
  match l with
  | [] => a = CAP_FREELIST_END
  | h :: t => a = h ∧ pv h = p ∧ dchain nx pv h (nx h) t
  end.

Lemma chain_ext nx nx' a l :
  (∀ x, x ∈ l → nx' x = nx x) → chain nx a l → chain nx' a l.
Proof.
  revert a. induction l as [|h t IH]; intros a Hx; [done|]. intros [-> Hc]. split; [done|].
  rewrite Hx by mem. apply IH; [|done]. intros. apply Hx. mem.
Qed.

Lemma dchain_ext nx pv nx' pv' p a l :
  (∀ x, x ∈ l → nx' x = nx x) → (∀ x, x ∈ l → pv' x = pv x) →
  dchain nx pv p a l → dchain nx' pv' p a l.
Proof.
  revert p a. induction l as [|h t IH]; intros p a Hn Hp; [done|]. intros (-> & Hpv & Hc).
  split_and!; [done|by rewrite Hp by mem|]. rewrite Hn by mem.
  apply IH; [| |done]; intros; [apply Hn | apply Hp]; mem.
Qed.

Lemma dchain_chain nx pv p a l : dchain nx pv p a l → chain nx a l.
Proof. revert p a. induction l as [|h t IH]; intros p a; [done|]. intros (-> & _ & Hc). split; eauto. Qed.

Lemma chain_inj nx a l l' :
  CAP_FREELIST_END ∉ l → CAP_FREELIST_END ∉ l' → chain nx a l → chain nx a l' → l = l'.
Proof.
  revert a l'. induction l as [|h t IH]; intros a [|h' t'] H1 H2.
  - done.
  - intros -> [<- _]. exfalso. apply H2. mem.
  - intros [-> _] ->. exfalso. apply H1. mem.
  - intros [-> Hc] [<- Hc']. f_equal. apply not_elem_of_cons in H1 as [_ H1], H2 as [_ H2]. by eapply IH.
Qed.

(** Adding a node at the head. *)
Lemma dchain_cons nx pv nx' pv' h a l :
  h ∉ l → dchain nx pv CAP_FREELIST_END a l →
  nx' h = a → pv' h = CAP_FREELIST_END →
  (∀ x, x ∈ l → nx' x = nx x) →
  (∀ x, x ∈ l → pv' x = if x =? a then h else pv x) →
  NoDup l →
  dchain nx' pv' CAP_FREELIST_END h (h :: l).
Proof.
  intros Hh Hd Hn Hp Hnx Hpv Hnd. split_and!; [done|done|]. rewrite Hn.
  destruct l as [|x t]; [done|]. destruct Hd as (-> & Hpx & Hc). apply NoDup_cons in Hnd as [Hx Hnd].
  split_and!; [done| |].
  - rewrite Hpv, Z.eqb_refl by mem. done.
  - rewrite Hnx by mem. eapply dchain_ext; [| |exact Hc].
    + intros. apply Hnx. mem.
    + intros y Hy. rewrite Hpv by mem. by destruct (Z.eqb_spec y x) as [->|].
Qed.

(** Removing the node [h] from the middle. *)
Lemma dchain_remove nx pv nx' pv' p a l1 h l2 :
  dchain nx pv p a (l1 ++ h :: l2) → NoDup (l1 ++ h :: l2) →
  p ∉ l1 ++ h :: l2 → CAP_FREELIST_END ∉ l1 ++ h :: l2 →
  (∀ x, x ∈ l1 ++ l2 → nx' x = if x =? pv h then nx h else nx x) →
  (∀ x, x ∈ l1 ++ l2 → pv' x = if x =? nx h then pv h else pv x) →
  dchain nx' pv' p (if l1 is [] then nx h else a) (l1 ++ l2) ∧
  (l1 = [] → pv h = p) ∧ (l1 ≠ [] → pv h ∈ l1) ∧
  (l2 = [] → nx h = CAP_FREELIST_END) ∧ (l2 ≠ [] → nx h ∈ l2).
Proof.
  revert p a. induction l1 as [|y l1 IH]; intros p a Hd Hnd Hp He Hnx Hpv; simpl in *.
  - destruct Hd as (-> & Hph & Hd). apply NoDup_cons in Hnd as [Hh Hnd].
    destruct l2 as [|x t]; simpl in *; [done|].
    destruct Hd as (Hx & Hpx & Hd). apply NoDup_cons in Hnd as [Hxt Hnd].
    split; [|split_and!; try done; intros _; rewrite Hx; left]. split_and!; [done| |].
    + rewrite Hpv by mem. by rewrite Hx, Z.eqb_refl.
    + assert (nx' x = nx x) as ->.
      { rewrite Hnx, Hph by mem. destruct (Z.eqb_spec x p) as [->|]; [|done].
        exfalso. apply Hp. mem. }
      eapply dchain_ext; [| |exact Hd].
      * intros z Hz. rewrite Hnx, Hph by mem. destruct (Z.eqb_spec z p) as [->|]; [|done].
        exfalso. apply Hp. mem.
      * intros z Hz. rewrite Hpv, Hx by mem. by destruct (Z.eqb_spec z x) as [->|].
  - destruct Hd as (-> & Hpy & Hd). apply NoDup_cons in Hnd as [Hy Hnd].
    destruct (IH y (nx y) Hd Hnd Hy) as (Hd' & H1 & H2 & H3 & H4).
    { by apply not_elem_of_cons in He as [_ He]. }
    { intros x Hx. apply Hnx. mem. }
    { intros x Hx. apply Hpv. mem. }
    assert (pv h ∈ y :: l1) as Hph.
    { destruct l1; [rewrite H1 by done; left | right; by apply H2]. }
    assert (y ≠ nx h) as Hne.
    { intros E. destruct l2; [rewrite H3 in E by done | specialize (H4 ltac:(done))].
      - apply He. rewrite E. left.
      - apply Hy. rewrite E. mem. }
    split; [|done]. split_and!; [done| |].
    + rewrite Hpv by mem. by destruct (Z.eqb_spec y (nx h)).
    + replace (nx' y) with (if l1 is [] then nx h else nx y); [done|].
      rewrite Hnx by mem. destruct l1 as [|z l1].
      * rewrite H1, Z.eqb_refl by done. done.
      * specialize (H2 ltac:(done)). destruct (Z.eqb_spec y (pv h)) as [E|]; [|done].
        exfalso. apply Hy. rewrite E. mem.
Qed.

Lemma elem_split_first {A} (P : A → bool) (l : list A) :
  (∀ x, x ∈ l → P x = false) ∨
  (∃ l1 x l2, l = l1 ++ x :: l2 ∧ P x = true ∧ ∀ y, y ∈ l1 → P y = false).
Proof.
  induction l as [|x l [IH|(l1 & y & l2 & -> & Hy & Hl)]].
  - left. intros x []%elem_of_nil.
  - destruct (P x) eqn:E.
    + right. exists [], x, l. split_and!; [done|done|].
      intros z []%elem_of_nil.
    + left. intros z [-> | Hz]%elem_of_cons; auto.
  - destruct (P x) eqn:E.
    + right. exists [], x, (l1 ++ y :: l2). split_and!; [done|done|].
      intros z []%elem_of_nil.
    + right. exists (x :: l1), y, l2. split_and!; [done|done|].
      intros z [-> | Hz]%elem_of_cons; auto.
Qed.
