(* ===== verification/HolderSpec.v ===== *)
(** The holder pool of kernel/cap.c as a set of lists: the free list, one doubly
    linked list per object and the nodes in hand, with the specification of each
    pool operation in those terms. *)

From stdpp Require Import base gmap list list_numbers.
From Stdlib Require Import ZArith Lia Bool.
From S2P Require Import Prelude FramePool CapWord Sidecar CapState CapPools Wp.
#[local] Open Scope Z_scope.
#[local] Open Scope carr_scope.
#[local] Open Scope cap_scope.

(** * Representation *)

(** A node without its links; an object without its holder list. *)
Definition hkey (n : CapHolder) := (h_obj_id n, h_pid n, h_ref n, h_kind n, h_qdir n, h_active n).
Definition ometa (o : CapObject) :=
  (o_id o, o_kind o, o_revoking o, o_active o, o_max_perms o, o_phys_base o, o_npages o, o_chan_id o).

Definition hnx (H : gmap Z CapHolder) (h : Z) : Z := h_next H.[h].
Definition hpv (H : gmap Z CapHolder) (h : Z) : Z := h_prev H.[h].

(** [fr] is the free list, [hold o] the holders of object [o], [L] the nodes that
    are allocated but on no list.  Every node is in exactly one of them, and the
    refcount of every object that is not being revoked is the length of its list. *)
Record hold_ok (H : gmap Z CapHolder) (f : Z) (O : gmap Z CapObject) (n : Z)
    (fr : list Z) (hold : Z → list Z) (L : list Z) : Prop := {
  ho_free : chain (hnx H) f fr;
  ho_free_nd : NoDup fr;
  ho_free_in : ∀ h, h ∈ fr → 0 ≤ h < CAP_HOLDER_MAX ∧ h_active H.[h] = 0;
  ho_list : ∀ o, 0 ≤ o < n → dchain (hnx H) (hpv H) CAP_FREELIST_END (o_holder_head O.[o]) (hold o);
  ho_nd : ∀ o, NoDup (hold o);
  ho_in : ∀ o h, h ∈ hold o →
    0 ≤ h < CAP_HOLDER_MAX ∧ h_active H.[h] = 1 ∧ h_obj_id H.[h] = o ∧ 0 ≤ o < n;
  ho_ref : ∀ o, 0 ≤ o < n → o_revoking O.[o] = 0 → o_refcount O.[o] = Z.of_nat (length (hold o));
  ho_loose_nd : NoDup L;
  ho_loose : ∀ h, h ∈ L →
    0 ≤ h < CAP_HOLDER_MAX ∧ h_active H.[h] = 1 ∧ h ∉ hold (h_obj_id H.[h]);
  ho_all : ∀ h, 0 ≤ h < CAP_HOLDER_MAX → h ∈ fr ∨ h ∈ L ∨ h ∈ hold (h_obj_id H.[h])
}.

Arguments ho_free {H f O n fr hold L} _.
Arguments ho_free_nd {H f O n fr hold L} _.
Arguments ho_free_in {H f O n fr hold L} _ _ _.
Arguments ho_list {H f O n fr hold L} _ _ _.
Arguments ho_nd {H f O n fr hold L} _ _.
Arguments ho_in {H f O n fr hold L} _ _ _ _.
Arguments ho_ref {H f O n fr hold L} _ _ _ _.
Arguments ho_loose_nd {H f O n fr hold L} _.
Arguments ho_loose {H f O n fr hold L} _ _ _.
Arguments ho_all {H f O n fr hold L} _ _ _.

Definition Hold (s : KState) (fr : list Z) (hold : Z → list Z) (L : list Z) : Prop :=
  hold_ok (k_holders s) (k_holder_free s) (k_objects s) (k_obj_next s) fr hold L.

(** The part of the state the pool operations write. *)
Definition hp (H : gmap Z CapHolder) (f : Z) (O : gmap Z CapObject) (s : KState) : KState :=
  set_k_objects O (set_k_holder_free f (set_k_holders H s)).

(** [hold] with the list of object [o] replaced. *)
Definition hold_upd (hold : Z → list Z) (o : Z) (l : list Z) : Z → list Z :=
  λ x, if x =? o then l else hold x.

Lemma hold_upd_eq hold o l : hold_upd hold o l o = l.
Proof. unfold hold_upd. by rewrite Z.eqb_refl. Qed.

Lemma hold_upd_ne hold o l x : x ≠ o → hold_upd hold o l x = hold x.
Proof. intros. unfold hold_upd. by destruct (Z.eqb_spec x o). Qed.

(** At most CAP_HOLDER_MAX nodes fit on a list. *)
Lemma nodup_range_length (l : list Z) (n : Z) :
  0 ≤ n → NoDup l → (∀ x, x ∈ l → 0 ≤ x < n) → Z.of_nat (length l) ≤ n.
Proof.
  intros Hn Hnd Hr. assert (length l ≤ length (seqZ 0 n))%nat as Hl.
  { apply submseteq_length, NoDup_submseteq; [done|].
    intros x Hx. apply elem_of_seqZ. specialize (Hr x Hx). lia. }
  rewrite length_seqZ in Hl. lia.
Qed.

Section Facts.
Context {H : gmap Z CapHolder} {f : Z} {O : gmap Z CapObject} {n : Z}
        {fr : list Z} {hold : Z → list Z} {L : list Z} (Hok : hold_ok H f O n fr hold L).

Lemma hold_length o : Z.of_nat (length (hold o)) ≤ CAP_HOLDER_MAX.
Proof.
  apply nodup_range_length; [done|apply Hok|]. intros x Hx. by apply (ho_in Hok o).
Qed.

Lemma free_not_held h o : h ∈ fr → h ∉ hold o.
Proof.
  intros Hf Hh. apply (ho_free_in Hok) in Hf as [_ Hf].
  apply (ho_in Hok) in Hh as (_ & Hh & _). congruence.
Qed.

Lemma free_not_loose h : h ∈ fr → h ∉ L.
Proof.
  intros Hf Hh. apply (ho_free_in Hok) in Hf as [_ Hf].
  apply (ho_loose Hok) in Hh as (_ & Hh & _). congruence.
Qed.

Lemma loose_not_held h o : h ∈ L → h ∉ hold o.
Proof.
  intros Hl Hh. apply (ho_loose Hok) in Hl as (_ & _ & Hl).
  pose proof Hh as (_ & _ & E & _)%(ho_in Hok). rewrite E in Hl. done.
Qed.

Lemma held_unique h o o' : h ∈ hold o → h ∈ hold o' → o = o'.
Proof.
  intros (_ & _ & E & _)%(ho_in Hok) (_ & _ & E' & _)%(ho_in Hok). congruence.
Qed.

Lemma end_not_held o : CAP_FREELIST_END ∉ hold o.
Proof. intros (Hr & _)%(ho_in Hok). unfold CAP_FREELIST_END, CAP_HOLDER_MAX in Hr. lia. Qed.

Lemma end_not_free : CAP_FREELIST_END ∉ fr.
Proof. intros (Hr & _)%(ho_free_in Hok). unfold CAP_FREELIST_END, CAP_HOLDER_MAX in Hr. lia. Qed.

Lemma head_held o : 0 ≤ o < n →
  (hold o = [] ∧ o_holder_head O.[o] = CAP_FREELIST_END) ∨
  (∃ h t, hold o = h :: t ∧ o_holder_head O.[o] = h ∧ 0 ≤ h < CAP_HOLDER_MAX).
Proof.
  intros Ho. pose proof (ho_list Hok o Ho) as Hd. destruct (hold o) as [|h t] eqn:E.
  - by left.
  - right. exists h, t. destruct Hd as [-> _]. split_and!; try done;
      apply (ho_in Hok o h); rewrite E; mem.
Qed.

End Facts.

(** * Allocation *)

Lemma hold_ok_alloc H f O n h fr hold L node :
  hold_ok H f O n (h :: fr) hold L →
  h_active node = 1 →
  hold_ok H.[h <- node] (h_next H.[h]) O n fr hold (h :: L).
Proof.
  intros Hok Ha. pose proof (ho_free_nd Hok) as [Hnh Hnd]%NoDup_cons.
  assert (∀ o, h ∉ hold o) as Hh by (intros; apply (free_not_held Hok); mem).
  assert (h ∉ L) as HhL by (apply (free_not_loose Hok); mem).
  assert (∀ x, x ≠ h → H.[h <- node].[x] = H.[x]) as E by (intros; by rewrite aget_upd_ne).
  assert (∀ o x, x ∈ hold o → H.[h <- node].[x] = H.[x]) as Eh.
  { intros o x Hx. apply E. intros ->. by apply (Hh o). }
  destruct Hok. split; try done.
  - destruct ho_free0 as [_ Hc]. eapply chain_ext; [|exact Hc].
    intros x Hx. unfold hnx. rewrite E; [done|]. by intros ->.
  - intros x Hx. rewrite E by (by intros ->). apply ho_free_in0. mem.
  - intros o Ho. eapply dchain_ext; [| |by apply ho_list0]; intros x Hx; unfold hnx, hpv; by rewrite (Eh o).
  - intros o x Hx. rewrite (Eh o) by done. by apply ho_in0.
  - by apply NoDup_cons.
  - intros x [-> | Hx]%elem_of_cons.
    + rewrite aget_upd_eq. split_and!; [apply ho_free_in0; mem|apply ho_free_in0; mem|done|apply Hh].
    + rewrite E by (by intros ->). by apply ho_loose0.
  - intros x Hx. destruct (decide (x = h)) as [->|Hne]; [right; left; mem|].
    rewrite E by done. destruct (ho_all0 x Hx) as [[->|?]%elem_of_cons|[?|?]]; [done|..]; auto.
    right; left; mem.
Qed.

Definition new_node (o k p r q : Z) : CapHolder :=
  mkHolder o CAP_FREELIST_END CAP_FREELIST_END p r k q 1.

Lemma wp_holder_alloc o k p r q (Q : option Z → KState → Prop) s fr hold L :
  Hold s fr hold L → LPool ∉ k_locks s →
  (fr = [] → Q None s) →
  (∀ h fr', fr = h :: fr' →
     let s' := hp (k_holders s).[h <- new_node o k p r q] (h_next (k_holders s).[h]) (k_objects s) s in
     Hold s' fr' hold (h :: L) → Q (Some h) s') →
  wp (cap_holder_alloc o k p r q) Q s.
Proof.
  intros Hok Hl Hnone Hsome. unfold cap_holder_alloc.
  rewrite wp_bind, wp_cap_lock by done. rewrite wp_bind, wp_gets. cbn [k_holder_free set_k_locks].
  pose proof (ho_free Hok) as Hc. destruct fr as [|h fr'].
  - rewrite Hc. rewrite Z.eqb_refl, wp_bind, wp_cap_unlock, wp_ret. cbn [k_locks set_k_locks].
    rewrite lock_drop_head by done. specialize (Hnone eq_refl). by destruct s.
  - destruct Hc as [-> _].
    destruct (ho_free_in Hok h) as [Hr _]; [mem|].
    replace (h =? CAP_FREELIST_END) with false by (unfold CAP_FREELIST_END, CAP_HOLDER_MAX in *; lia).
    unfold get_holder, set_holder. rewrite !wp_bind, wp_in_bounds, wp_gets by done.
    rewrite wp_bind, wp_modify, wp_bind, wp_cap_unlock, !wp_bind, wp_in_bounds, wp_modify, wp_ret by done.
    specialize (Hsome h fr' eq_refl (hold_ok_alloc _ _ _ _ _ _ _ _ (new_node o k p r q) Hok eq_refl)).
    destruct s; cbn -[lock_drop new_node] in *. by rewrite lock_drop_head by done.
Qed.

(** * Release *)

Lemma hold_ok_free H f O n fr hold l1 h l2 node :
  hold_ok H f O n fr hold (l1 ++ h :: l2) →
  h_active node = 0 → h_next node = f →
  hold_ok H.[h <- node] h O n (h :: fr) hold (l1 ++ l2).
Proof.
  intros Hok Ha Hn. assert (h ∈ l1 ++ h :: l2) as HhL by mem.
  assert (h ∉ fr) as Hhf by (intros ?; by apply (free_not_loose Hok h)).
  assert (∀ o, h ∉ hold o) as Hh by (intros; by apply (loose_not_held Hok)).
  pose proof (ho_loose Hok h HhL) as (Hr & _).
  pose proof (ho_loose_nd Hok) as HndL. apply NoDup_app in HndL as (Hnd1 & Hd & [Hnh2 Hnd2]%NoDup_cons).
  assert (∀ x, x ≠ h → H.[h <- node].[x] = H.[x]) as E by (intros; by rewrite aget_upd_ne).
  assert (∀ o x, x ∈ hold o → H.[h <- node].[x] = H.[x]) as Eh.
  { intros o x Hx. apply E. intros ->. by apply (Hh o). }
  destruct Hok. split; try done.
  - split; [done|]. unfold hnx at 2. rewrite aget_upd_eq, Hn. eapply chain_ext; [|exact ho_free0].
    intros x Hx. unfold hnx. rewrite E; [done|]. by intros ->.
  - by apply NoDup_cons.
  - intros x [-> | Hx]%elem_of_cons; [by rewrite aget_upd_eq|].
    rewrite E by (by intros ->). by apply ho_free_in0.
  - intros o Ho. eapply dchain_ext; [| |by apply ho_list0]; intros x Hx; unfold hnx, hpv; by rewrite (Eh o).
  - intros o x Hx. rewrite (Eh o) by done. by apply ho_in0.
  - apply NoDup_app. split_and!; [done| |done]. intros x Hx Hx2. apply (Hd x Hx). mem.
  - intros x Hx. assert (x ≠ h) as Hne.
    { intros ->. apply elem_of_app in Hx as [Hx|Hx]; [apply (Hd h Hx); mem|done]. }
    rewrite E by done. apply ho_loose0. mem.
  - intros x Hx. destruct (decide (x = h)) as [->|Hne]; [left; mem|]. rewrite E by done.
    destruct (ho_all0 x Hx) as [?|[?|?]]; [left; mem| |auto]. right; left.
    rewrite elem_of_app, elem_of_cons in *. tauto.
Qed.

(** The node [cap_holder_free] leaves behind. *)
Definition freed_node (n : CapHolder) (next : Z) : CapHolder :=
  set_h_next next (set_h_prev CAP_FREELIST_END (set_h_active 0 n)).

Lemma insert_insert_same {A} (m : gmap Z A) i x y : m.[i <- x].[i <- y] = m.[i <- y].
Proof. apply insert_insert_eq. Qed.

Lemma wp_holder_free h (Q : unit → KState → Prop) s :
  LPool ∉ k_locks s → 0 ≤ h < CAP_HOLDER_MAX →
  Q tt (hp (k_holders s).[h <- freed_node (holder h s) (k_holder_free s)] h (k_objects s) s) →
  wp (cap_holder_free h) Q s.
Proof.
  intros Hl Hr HQ. unfold cap_holder_free, set_holder.
  rewrite !wp_bind, wp_in_bounds, wp_modify by done.
  rewrite wp_bind, wp_cap_lock by done. rewrite wp_bind, wp_gets, !wp_bind, wp_in_bounds, wp_modify by done.
  rewrite wp_bind, wp_modify, wp_cap_unlock. unfold upd_holder, holder, freed_node in *.
  destruct s; cbn -[lock_drop] in *. rewrite lock_drop_head by done.
  rewrite aget_upd_eq, insert_insert_same. exact HQ.
Qed.

(** * Linking *)

Lemma hold_ok_link H f O n fr hold l1 h l2 o H' ob :
  hold_ok H f O n fr hold (l1 ++ h :: l2) → 0 ≤ o < n → o_revoking O.[o] = 0 →
  h_obj_id H.[h] = o → h_prev H.[h] = CAP_FREELIST_END →
  (∀ x, hkey H'.[x] = hkey H.[x]) →
  (∀ x, h_next H'.[x] = if x =? h then o_holder_head O.[o] else h_next H.[x]) →
  (∀ x, x ≠ CAP_FREELIST_END →
        h_prev H'.[x] = if x =? o_holder_head O.[o] then h else h_prev H.[x]) →
  o_holder_head ob = h → o_refcount ob = o_refcount O.[o] + 1 →
  hold_ok H' f O.[o <- ob] n fr (hold_upd hold o (h :: hold o)) (l1 ++ l2).
Proof.
  intros Hok Ho Hrev Hho Hhp Hkey Hnx Hpv Hhead Href.
  assert (h ∈ l1 ++ h :: l2) as HhL by mem.
  assert (h ∉ fr) as Hhf by (intros ?; by apply (free_not_loose Hok h)).
  assert (∀ o, h ∉ hold o) as Hh by (intros; by apply (loose_not_held Hok)).
  pose proof (ho_loose Hok h HhL) as (Hr & Hact & _).
  pose proof (ho_loose_nd Hok) as HndL. apply NoDup_app in HndL as (Hnd1 & Hd & [Hnh2 Hnd2]%NoDup_cons).
  assert (∀ x, h_active H'.[x] = h_active H.[x]) as Eact by (intros x; specialize (Hkey x); unfold hkey in Hkey; congruence).
  assert (∀ x, h_obj_id H'.[x] = h_obj_id H.[x]) as Eobj by (intros x; specialize (Hkey x); unfold hkey in Hkey; congruence).
  assert (∀ x, 0 ≤ x < CAP_HOLDER_MAX → x ≠ CAP_FREELIST_END) as Hne0.
  { unfold CAP_HOLDER_MAX, CAP_FREELIST_END. lia. }
  assert (∀ x, x ≠ CAP_FREELIST_END → x ≠ o_holder_head O.[o] → hpv H' x = hpv H x) as Epv.
  { intros x Hx0 Hx. unfold hpv. rewrite Hpv by done. by destruct (Z.eqb_spec x (o_holder_head O.[o])). }
  assert (∀ x, x ≠ h → hnx H' x = hnx H x) as Enx.
  { intros x Hx. unfold hnx. rewrite Hnx. by destruct (Z.eqb_spec x h). }
  assert (o_holder_head O.[o] ∈ hold o ∨ o_holder_head O.[o] = CAP_FREELIST_END) as Hhd.
  { destruct (head_held Hok o Ho) as [[_ ->]|(y & t & -> & -> & _)]; [auto|left; mem]. }
  assert (∀ x l, x ∈ hold_upd hold o (h :: hold o) l ↔ (x = h ∧ l = o) ∨ x ∈ hold l) as Hin.
  { intros x l. unfold hold_upd. destruct (Z.eqb_spec l o) as [->|].
    - rewrite elem_of_cons. intuition congruence.
    - intuition congruence. }
  split.
  - eapply chain_ext; [|apply Hok]. intros x Hx. apply Enx. by intros ->.
  - apply Hok.
  - intros x Hx. rewrite Eact. by apply (ho_free_in Hok).
  - intros x Hx. rewrite aget_upd. destruct (Z.eqb_spec o x) as [<-|Hne].
    + rewrite hold_upd_eq, Hhead. eapply dchain_cons; [apply Hh|by apply (ho_list Hok)|..].
      * unfold hnx. by rewrite Hnx, Z.eqb_refl.
      * rewrite Epv; [done|auto|]. intros E. destruct Hhd as [Hhd|Hhd]; rewrite <-E in Hhd; [by apply (Hh o)|].
        unfold CAP_FREELIST_END, CAP_HOLDER_MAX in *. lia.
      * intros y Hy. apply Enx. intros ->. by apply (Hh o).
      * intros y Hy. unfold hpv. apply Hpv. apply Hne0. by apply (ho_in Hok o).
      * apply Hok.
    + rewrite hold_upd_ne by done. eapply dchain_ext; [| |by apply (ho_list Hok)].
      * intros y Hy. apply Enx. intros ->. by apply (Hh x).
      * intros y Hy. apply Epv; [apply Hne0; by apply (ho_in Hok x)|]. intros ->. destruct Hhd as [Hhd|Hhd].
        -- apply Hne. by eapply (held_unique Hok).
        -- rewrite Hhd in Hy. by apply (end_not_held Hok x).
  - intros x. unfold hold_upd. destruct (x =? o); [|apply Hok]. apply NoDup_cons. split; [apply Hh|apply Hok].
  - intros x y [[-> ->]|Hy]%Hin.
    + rewrite Eact, Eobj. done.
    + rewrite Eact, Eobj. by apply (ho_in Hok).
  - intros x Hx. rewrite aget_upd. destruct (Z.eqb_spec o x) as [<-|Hne].
    + intros _. rewrite hold_upd_eq, Href, (ho_ref Hok) by done. simpl. lia.
    + rewrite hold_upd_ne by done. by apply (ho_ref Hok).
  - apply NoDup_app. split_and!; [done| |done]. intros x Hx Hx2. apply (Hd x Hx). mem.
  - intros x Hx. assert (x ≠ h) as Hne.
    { intros ->. apply elem_of_app in Hx as [Hx|Hx]; [apply (Hd h Hx); mem|done]. }
    rewrite Eact, Eobj. destruct (ho_loose Hok x) as (? & ? & ?); [mem|].
    split; [done|]. split; [done|]. intros [[? _]|?]%Hin; done.
  - intros x Hx. rewrite Eobj. rewrite Hin. destruct (decide (x = h)) as [->|Hne]; [right; right; left; done|].
    destruct (ho_all Hok x Hx) as [?|[?|?]]; [by left| |tauto]. right; left.
    rewrite elem_of_app, elem_of_cons in *. tauto.
Qed.

(** What linking, unlinking and freeing leave alone. *)
Definition keys_but (h : Z) (H H' : gmap Z CapHolder) : Prop := ∀ x, x ≠ h → hkey H'.[x] = hkey H.[x].
Definition metas (O O' : gmap Z CapObject) : Prop := ∀ x, ometa O'.[x] = ometa O.[x].

(** The node map after linking [h] in front of [hd]. *)
Definition link_map (H : gmap Z CapHolder) (h hd : Z) : gmap Z CapHolder :=
  let H1 := H.[h <- set_h_next hd H.[h]] in
  if hd =? CAP_FREELIST_END then H1 else H1.[hd <- set_h_prev h H1.[hd]].

Lemma link_map_get H h hd x :
  h ≠ hd →
  (link_map H h hd).[x] =
    if x =? h then set_h_next hd H.[h]
    else if (x =? hd) && negb (hd =? CAP_FREELIST_END) then set_h_prev h H.[hd] else H.[x].
Proof.
  intros Hne. unfold link_map. destruct (hd =? CAP_FREELIST_END).
  - rewrite aget_upd, (Z.eqb_sym h x), andb_false_r. done.
  - rewrite !aget_upd, andb_true_r, (Z.eqb_sym h x), (Z.eqb_sym hd x).
    replace (h =? hd) with false by lia.
    destruct (Z.eqb_spec x h) as [->|]; [|done]. by replace (h =? hd) with false by lia.
Qed.

Lemma wp_holder_link h o (Q : unit → KState → Prop) s fr hold l1 l2 :
  Hold s fr hold (l1 ++ h :: l2) → 0 ≤ o < k_obj_next s → o_revoking (object o s) = 0 →
  h_obj_id (holder h s) = o → h_prev (holder h s) = CAP_FREELIST_END →
  (∀ H' O', (∀ x, hkey H'.[x] = hkey (k_holders s).[x]) → metas (k_objects s) O' →
     (∀ x, x ≠ h → x ∉ hold o → H'.[x] = (k_holders s).[x]) →
     let s' := hp H' (k_holder_free s) O' s in
     Hold s' fr (hold_upd hold o (h :: hold o)) (l1 ++ l2) → Q tt s') →
  wp (cap_holder_link h o) Q s.
Proof.
  intros Hok Ho Hrev Hho Hhp HQ. assert (0 ≤ h < CAP_HOLDER_MAX) as Hr by (apply (ho_loose Hok); mem).
  assert (h ∉ hold o) as Hnh by (apply (loose_not_held Hok); mem).
  pose proof (hold_length Hok o) as Hlen.
  assert (u32 (o_refcount (object o s) + 1) = o_refcount (object o s) + 1) as Hu.
  { unfold object. rewrite (ho_ref Hok) by done. apply Z.mod_small. unfold CAP_HOLDER_MAX in *. lia. }
  set (hd := o_holder_head (k_objects s).[o]).
  assert (hd ∈ hold o ∧ 0 ≤ hd < CAP_HOLDER_MAX ∨ hd = CAP_FREELIST_END) as Hhd.
  { unfold hd. destruct (head_held Hok o Ho) as [[_ ->]|(y & t & -> & -> & ?)]; [by right|left; split; [mem|done]]. }
  assert (h ≠ hd) as Hne.
  { destruct Hhd as [[Hi _]|E]; [by intros -> | unfold CAP_FREELIST_END, CAP_HOLDER_MAX in *; lia]. }
  set (ob := set_o_refcount (o_refcount (object o s) + 1) (set_o_holder_head h (object o s))).
  assert (wp (cap_holder_link h o)
            (λ _ s', s' = hp (link_map (k_holders s) h hd) (k_holder_free s) (k_objects s).[o <- ob] s) s) as Hw.
  { unfold cap_holder_link, get_object, set_object, set_holder.
    rewrite wp_bind, wp_gets, !wp_bind, wp_in_bounds, wp_modify, wp_bind by done.
    change (o_holder_head (object o s)) with hd. clearbody hd. unfold ob. rewrite <-Hu. unfold link_map.
    destruct Hhd as [[_ Hhr]|E].
    - replace (hd =? CAP_FREELIST_END) with false by (unfold CAP_FREELIST_END, CAP_HOLDER_MAX in *; lia).
      simpl. rewrite wp_bind, wp_in_bounds, !wp_modify by done. by destruct s.
    - rewrite E, Z.eqb_refl. simpl. rewrite wp_ret, wp_modify. by destruct s. }
  eapply wp_mono; [exact Hw|]. intros [] ? ->.
  assert (∀ x, hkey (link_map (k_holders s) h hd).[x] = hkey (k_holders s).[x]) as Hkey.
  { intros x. rewrite link_map_get by done. destruct (Z.eqb_spec x h) as [->|]; [done|].
    destruct (Z.eqb_spec x hd) as [->|]; [|done]. by destruct (negb _). }
  apply HQ; [done| | |].
  - intros x. rewrite aget_upd. destruct (Z.eqb_spec o x) as [<-|]; done.
  - intros x Hx Hxo. rewrite link_map_get by done. destruct (Z.eqb_spec x h); [done|].
    destruct (Z.eqb_spec x hd) as [->|]; [|done].
    destruct Hhd as [[? _]|E]; [done|].
    replace (hd =? CAP_FREELIST_END) with true by lia. by rewrite andb_false_r.
  - apply (hold_ok_link (k_holders s) (k_holder_free s) (k_objects s) (k_obj_next s) fr hold
      l1 h l2 o (link_map (k_holders s) h hd) ob); try done; fold hd.
    + intros x. rewrite link_map_get by done.
      destruct (Z.eqb_spec x h) as [->|]; [done|]. destruct (Z.eqb_spec x hd) as [->|]; [|done].
      by destruct (negb _).
    + intros x Hx. rewrite link_map_get by done.
      destruct (Z.eqb_spec x h) as [->|]; [by replace (h =? hd) with false by lia|].
      destruct (Z.eqb_spec x hd) as [->|]; [|done].
      by replace (hd =? CAP_FREELIST_END) with false by lia.
Qed.

(** * Unlinking *)

Lemma hold_ok_unlink H f O n fr hold L o l1 h l2 H' ob :
  hold_ok H f O n fr hold L → 0 ≤ o < n → o_revoking O.[o] = 0 → hold o = l1 ++ h :: l2 →
  keys_but h H H' →
  (∀ x, x ≠ h → x ≠ CAP_FREELIST_END →
        h_next H'.[x] = if x =? h_prev H.[h] then h_next H.[h] else h_next H.[x]) →
  (∀ x, x ≠ h → x ≠ CAP_FREELIST_END →
        h_prev H'.[x] = if x =? h_next H.[h] then h_prev H.[h] else h_prev H.[x]) →
  h_active H'.[h] = 0 → h_next H'.[h] = f →
  o_holder_head ob =
    (if h_prev H.[h] =? CAP_FREELIST_END then h_next H.[h] else o_holder_head O.[o]) →
  o_refcount ob = o_refcount O.[o] - 1 →
  hold_ok H' h O.[o <- ob] n (h :: fr) (hold_upd hold o (l1 ++ l2)) L.
Proof.
  intros Hok Ho Hrev Eho Hkey Hnx Hpv Hact Hnext Hhead Href.
  pose proof (ho_nd Hok o) as Hnd. rewrite Eho in Hnd.
  pose proof Hnd as (Hnd1 & Hd12 & [Hh2 Hnd2]%NoDup_cons)%NoDup_app.
  assert (h ∉ l1) as Hh1 by (intros Hx; apply (Hd12 h Hx); mem).
  assert (h ∈ hold o) as Hho by (rewrite Eho; mem).
  assert (h ∉ fr) as Hhf by (intros ?; by apply (free_not_held Hok h o)).
  assert (h ∉ L) as HhL by (intros ?; by apply (loose_not_held Hok h o)).
  pose proof (ho_in Hok o h Hho) as (Hr & _ & Hobj & _).
  assert (∀ x, x ≠ h → h_active H'.[x] = h_active H.[x]) as Eact
    by (intros x Hx; specialize (Hkey x Hx); unfold hkey in Hkey; congruence).
  assert (∀ x, x ≠ h → h_obj_id H'.[x] = h_obj_id H.[x]) as Eobj
    by (intros x Hx; specialize (Hkey x Hx); unfold hkey in Hkey; congruence).
  assert (∀ x, 0 ≤ x < CAP_HOLDER_MAX → x ≠ CAP_FREELIST_END) as Hne0.
  { unfold CAP_HOLDER_MAX, CAP_FREELIST_END. lia. }
  assert (∀ l x, x ∈ hold_upd hold o (l1 ++ l2) l ↔ x ∈ hold l ∧ x ≠ h) as Hin.
  { intros l x. unfold hold_upd. destruct (Z.eqb_spec l o) as [->|Hl].
    - rewrite Eho, !elem_of_app, elem_of_cons. split; [|tauto].
      intros [?|?]; (split; [tauto|]); by intros ->.
    - split; [|tauto]. intros Hx. split; [done|]. intros ->. apply Hl. by apply (held_unique Hok h). }
  pose proof (ho_list Hok o Ho) as Hdc. rewrite Eho in Hdc.
  assert (CAP_FREELIST_END ∉ l1 ++ h :: l2) as Hend by (rewrite <-Eho; apply (end_not_held Hok)).
  edestruct (dchain_remove (hnx H) (hpv H) (hnx H') (hpv H') _ _ _ _ _ Hdc Hnd Hend Hend)
    as (Hdc' & Hp1 & Hp2 & Hn1 & Hn2).
  { intros x Hx. apply Hnx; [intros ->; mem|]. intros ->. mem. }
  { intros x Hx. apply Hpv; [intros ->; mem|]. intros ->. mem. }
  assert (∀ x, x ∉ hold o → x ≠ CAP_FREELIST_END → hnx H' x = hnx H x ∧ hpv H' x = hpv H x) as Eout.
  { intros x Hx Hxe. assert (x ≠ h) by (by intros ->). unfold hnx, hpv. rewrite Hnx, Hpv by done.
    split.
    - destruct (Z.eqb_spec x (h_prev H.[h])) as [->|]; [|done]. exfalso.
      destruct l1; [by apply Hxe, (Hp1 eq_refl)|]. apply Hx. rewrite Eho.
      specialize (Hp2 ltac:(done)). unfold hpv in Hp2. mem.
    - destruct (Z.eqb_spec x (h_next H.[h])) as [->|]; [|done]. exfalso.
      destruct l2; [by apply Hxe, (Hn1 eq_refl)|]. apply Hx. rewrite Eho.
      specialize (Hn2 ltac:(done)). unfold hnx in Hn2. mem. }
  split.
  - split; [done|]. unfold hnx at 2. rewrite Hnext. eapply chain_ext; [|apply Hok].
    intros x Hx. apply Eout; [by apply (free_not_held Hok)|]. apply Hne0. by apply (ho_free_in Hok).
  - apply NoDup_cons. split; [done|apply Hok].
  - intros x [-> | Hx]%elem_of_cons; [done|]. rewrite Eact by (by intros ->). by apply (ho_free_in Hok).
  - intros x Hx. rewrite aget_upd. destruct (Z.eqb_spec o x) as [<-|Hne].
    + rewrite hold_upd_eq, Hhead. replace (if h_prev H.[h] =? CAP_FREELIST_END then _ else _) with
        (if l1 is [] then hnx H h else o_holder_head O.[o]); [done|].
      destruct l1 as [|y l1].
      * specialize (Hp1 eq_refl). unfold hpv in Hp1. by rewrite Hp1, Z.eqb_refl.
      * specialize (Hp2 ltac:(done)). unfold hpv in Hp2.
        destruct (Z.eqb_spec (h_prev H.[h]) CAP_FREELIST_END) as [E|]; [|done].
        exfalso. apply Hend. rewrite <-E. mem.
    + rewrite hold_upd_ne by done. eapply dchain_ext; [| |by apply (ho_list Hok)];
        intros y Hy; (apply Eout; [|apply Hne0; by apply (ho_in Hok x)]);
        intros Hyo; apply Hne; by eapply (held_unique Hok).
  - intros x. unfold hold_upd. destruct (x =? o); [|apply Hok].
    apply NoDup_app. split_and!; [done| |done]. intros y Hy Hy2. apply (Hd12 y Hy). mem.
  - intros x y [Hy Hyh]%Hin. rewrite Eact, Eobj by done. by apply (ho_in Hok).
  - intros x Hx. rewrite aget_upd. destruct (Z.eqb_spec o x) as [<-|Hne].
    + intros _. rewrite hold_upd_eq, Href, (ho_ref Hok), Eho by done. rewrite !length_app. simpl. lia.
    + rewrite hold_upd_ne by done. by apply (ho_ref Hok).
  - apply Hok.
  - intros x Hx. assert (x ≠ h) as Hne by (by intros ->). rewrite Eact, Eobj by done.
    destruct (ho_loose Hok x Hx) as (? & ? & ?). split; [done|]. split; [done|].
    by intros [? _]%Hin.
  - intros x Hx. destruct (decide (x = h)) as [->|Hne]; [left; mem|]. rewrite Eobj, Hin by done.
    destruct (ho_all Hok x Hx) as [?|[?|?]]; [left; mem|auto|auto].
Qed.

(** The node map after unlinking and freeing [h]. *)
Definition unlink_map (H : gmap Z CapHolder) (h f : Z) : gmap Z CapHolder :=
  let n := H.[h] in
  let H1 := if h_prev n =? CAP_FREELIST_END then H
            else H.[h_prev n <- set_h_next (h_next n) H.[h_prev n]] in
  let H2 := if h_next n =? CAP_FREELIST_END then H1
            else H1.[h_next n <- set_h_prev (h_prev n) H1.[h_next n]] in
  H2.[h <- freed_node n f].

Lemma unlink_map_get H h f x :
  x ≠ h →
  let x' := (unlink_map H h f).[x] in
  hkey x' = hkey H.[x] ∧
  (x ≠ CAP_FREELIST_END →
     h_next x' = (if x =? h_prev H.[h] then h_next H.[h] else h_next H.[x]) ∧
     h_prev x' = (if x =? h_next H.[h] then h_prev H.[h] else h_prev H.[x])).
Proof.
  intros Hx. cbv zeta. unfold unlink_map. rewrite aget_upd_ne by done.
  set (p := h_prev H.[h]). set (q := h_next H.[h]).
  assert (∀ y, (if p =? CAP_FREELIST_END then H else H.[p <- set_h_next q H.[p]]).[y] =
            if (y =? p) && negb (p =? CAP_FREELIST_END) then set_h_next q H.[p] else H.[y]) as E1.
  { intros y. destruct (p =? CAP_FREELIST_END); [by rewrite andb_false_r|].
    by rewrite aget_upd, Z.eqb_sym, andb_true_r. }
  set (H1 := if p =? CAP_FREELIST_END then H else H.[p <- set_h_next q H.[p]]) in *.
  assert ((if q =? CAP_FREELIST_END then H1 else H1.[q <- set_h_prev p H1.[q]]).[x] =
            if (x =? q) && negb (q =? CAP_FREELIST_END) then set_h_prev p H1.[q] else H1.[x]) as E2.
  { destruct (q =? CAP_FREELIST_END); [by rewrite andb_false_r|].
    by rewrite aget_upd, Z.eqb_sym, andb_true_r. }
  rewrite E2. clear E2. split.
  - destruct (Z.eqb_spec x q) as [->|], (negb (q =? CAP_FREELIST_END)); simpl; rewrite ?E1;
      try (destruct ((q =? p) && _) eqn:E; [apply andb_true_iff in E as [->%Z.eqb_eq _]|]; done);
      destruct ((x =? p) && _) eqn:E; [apply andb_true_iff in E as [->%Z.eqb_eq _]| |
        apply andb_true_iff in E as [->%Z.eqb_eq _]|]; done.
  - intros He. destruct (Z.eqb_spec x q) as [->|Hq].
    + replace (q =? CAP_FREELIST_END) with false by lia. simpl. rewrite E1.
      destruct (Z.eqb_spec q p) as [<-|]; simpl; [|done].
      by replace (q =? CAP_FREELIST_END) with false by lia.
    + simpl. rewrite E1. destruct (Z.eqb_spec x p) as [->|]; simpl; [|done].
      by replace (p =? CAP_FREELIST_END) with false by lia.
Qed.

(** The neighbours of a held node are END or held by the same object. *)
Lemma neighbours H f O n fr hold L o l1 h l2 :
  hold_ok H f O n fr hold L → 0 ≤ o < n → hold o = l1 ++ h :: l2 →
  (h_prev H.[h] = CAP_FREELIST_END ∨ h_prev H.[h] ∈ hold o ∧ h_prev H.[h] ≠ h) ∧
  (h_next H.[h] = CAP_FREELIST_END ∨ h_next H.[h] ∈ hold o ∧ h_next H.[h] ≠ h).
Proof.
  intros Hok Ho Eho. pose proof (ho_nd Hok o) as Hnd. rewrite Eho in Hnd.
  pose proof Hnd as (_ & Hd12 & [Hh2 _]%NoDup_cons)%NoDup_app.
  assert (h ∉ l1) as Hh1 by (intros Hx; apply (Hd12 h Hx); mem).
  pose proof (ho_list Hok o Ho) as Hdc. rewrite Eho in Hdc.
  assert (CAP_FREELIST_END ∉ l1 ++ h :: l2) as Hend by (rewrite <-Eho; apply (end_not_held Hok)).
  edestruct (dchain_remove (hnx H) (hpv H)
      (λ x, if x =? hpv H h then hnx H h else hnx H x)
      (λ x, if x =? hnx H h then hpv H h else hpv H x) _ _ _ _ _ Hdc Hnd Hend Hend)
    as (_ & Hp1 & Hp2 & Hn1 & Hn2); [done|done|]. split.
  - destruct l1; [left; by apply Hp1|]. right. specialize (Hp2 ltac:(done)). unfold hpv in Hp2.
    split; [|by intros E; rewrite E in Hp2]. rewrite Eho. mem.
  - destruct l2; [left; by apply Hn1|]. right. specialize (Hn2 ltac:(done)). unfold hnx in Hn2.
    split; [|by intros E; rewrite E in Hn2]. rewrite Eho. mem.
Qed.

(** Nodes of other lists are untouched. *)
Lemma unlink_map_other H f O n fr hold L o l1 h l2 x :
  hold_ok H f O n fr hold L → 0 ≤ o < n → hold o = l1 ++ h :: l2 →
  x ∉ hold o → 0 ≤ x < CAP_HOLDER_MAX → (unlink_map H h f).[x] = H.[x].
Proof.
  intros Hok Ho Eho Hx Hr. assert (x ≠ h) as Hne by (intros ->; apply Hx; rewrite Eho; mem).
  assert (x ≠ CAP_FREELIST_END) as Hxe by (unfold CAP_FREELIST_END, CAP_HOLDER_MAX in *; lia).
  destruct (unlink_map_get H h f x Hne) as [Hk Hl]. destruct (Hl Hxe) as [En Ep].
  destruct (neighbours _ _ _ _ _ _ _ _ _ _ _ Hok Ho Eho) as [Hp Hn].
  replace (x =? h_prev H.[h]) with false in En.
  2: { symmetry. apply Z.eqb_neq. intros E. rewrite <-E in Hp. destruct Hp as [?|[? _]]; done. }
  replace (x =? h_next H.[h]) with false in Ep.
  2: { symmetry. apply Z.eqb_neq. intros E. rewrite <-E in Hn. destruct Hn as [?|[? _]]; done. }
  unfold hkey in Hk. destruct (unlink_map H h f).[x], H.[x]; simpl in *. congruence.
Qed.

Definition unlinked_obj (H : gmap Z CapHolder) (h : Z) (ob : CapObject) : CapObject :=
  set_o_refcount (o_refcount ob - 1)
    (if h_prev H.[h] =? CAP_FREELIST_END then set_o_holder_head (h_next H.[h]) ob else ob).

Lemma wp_holder_unlink_run o h s fr hold L l1 l2 :
  Hold s fr hold L → LPool ∉ k_locks s → 0 ≤ o < k_obj_next s → o_revoking (object o s) = 0 →
  hold o = l1 ++ h :: l2 →
  wp (holder_unlink o h)
    (λ _ s', s' = hp (unlink_map (k_holders s) h (k_holder_free s)) h
                    (k_objects s).[o <- unlinked_obj (k_holders s) h (k_objects s).[o]] s) s.
Proof.
  intros Hok Hl Ho Hrev Eho. assert (0 ≤ h < CAP_HOLDER_MAX) as Hr.
  { apply (ho_in Hok o). rewrite Eho. mem. }
  assert (0 < o_refcount (k_objects s).[o]) as Hrc.
  { rewrite (ho_ref Hok) by done. rewrite Eho, length_app. simpl. lia. }
  assert (∀ x, x = CAP_FREELIST_END ∨ x ∈ hold o ∧ x ≠ h →
            x = CAP_FREELIST_END ∨ 0 ≤ x < CAP_HOLDER_MAX ∧ x ≠ h) as Hhr.
  { intros x [?|[Hx ?]]; [by left|right]. split; [by apply (ho_in Hok o)|done]. }
  destruct (neighbours _ _ _ _ _ _ _ _ _ _ _ Hok Ho Eho) as [Hp%Hhr Hn%Hhr].
  unfold holder_unlink, get_holder, set_holder, set_object, unlink_map, unlinked_obj.
  rewrite !wp_bind, wp_in_bounds, wp_gets, wp_bind by done. unfold holder at 1 2 3.
  assert (∀ x, 0 ≤ x < CAP_HOLDER_MAX → (x =? CAP_FREELIST_END) = false) as Hf.
  { intros. unfold CAP_HOLDER_MAX, CAP_FREELIST_END in *. lia. }
  destruct Hp as [Ep|[Hpr Hpne]].
  - rewrite Ep, Z.eqb_refl. simpl. rewrite wp_modify, !wp_bind, wp_in_bounds, wp_gets, wp_bind by done.
    destruct Hn as [En|[Hnr Hnne]].
    + unfold upd_object at 1 2. unfold holder at 1 2. cbn [k_holders set_k_objects]. rewrite En, Z.eqb_refl. simpl.
      rewrite wp_ret, wp_bind. apply wp_holder_free; [done|done|].
      rewrite wp_modify. unfold upd_object, hp, holder, object. cbn [k_objects set_k_objects set_k_holders set_k_holder_free].
      rewrite aget_upd_eq. cbn [o_refcount set_o_holder_head]. replace (0 <? _) with true by lia.
      by rewrite insert_insert_same, En.
    + unfold upd_object at 1 2. unfold holder at 1 2. cbn [k_holders set_k_objects]. rewrite (Hf _ Hnr). simpl.
      rewrite wp_bind, wp_in_bounds, wp_modify, wp_bind by done. apply wp_holder_free; [done|done|].
      rewrite wp_modify. unfold upd_object, upd_holder, hp, holder, object.
      cbn [k_objects k_holders k_holder_free set_k_objects set_k_holders set_k_holder_free].
      rewrite !aget_upd_eq. cbn [o_refcount set_o_holder_head]. replace (0 <? _) with true by lia.
      by rewrite insert_insert_same, aget_upd_ne, ?Ep by done.
  - rewrite (Hf _ Hpr). simpl. rewrite wp_bind, wp_in_bounds, wp_modify, !wp_bind, wp_in_bounds, wp_gets, wp_bind by done.
    assert (∀ g, holder h (upd_holder (h_prev (k_holders s).[h]) g s) = (k_holders s).[h]) as Eh
      by (intros g; apply aget_upd_ne; done). rewrite !Eh.
    destruct Hn as [En|[Hnr Hnne]].
    + rewrite En, Z.eqb_refl. simpl. rewrite wp_ret, wp_bind. apply wp_holder_free; [done|done|].
      rewrite wp_modify. unfold upd_object, upd_holder, hp, holder, object.
      cbn [k_objects k_holders k_holder_free set_k_objects set_k_holders set_k_holder_free].
      replace (0 <? _) with true by lia. by rewrite aget_upd_ne, ?En by done.
    + rewrite (Hf _ Hnr). simpl. rewrite wp_bind, wp_in_bounds, wp_modify, wp_bind by done.
      apply wp_holder_free; [done|done|].
      rewrite wp_modify. unfold upd_object, upd_holder, hp, holder, object.
      cbn [k_objects k_holders k_holder_free set_k_objects set_k_holders set_k_holder_free].
      replace (0 <? _) with true by lia. by rewrite !aget_upd_ne by done.
Qed.

(** The loop's measure: how far the cursor is from the end of a list. *)
Fixpoint distance (nx : Z → Z) (fuel : nat) (a : Z) : nat :=
  match fuel with
  | O => O
  | S n => if a =? CAP_FREELIST_END then O else S (distance nx n (nx a))
  end.

Lemma distance_chain nx fuel a l :
  chain nx a l → CAP_FREELIST_END ∉ l → (length l ≤ fuel)%nat → distance nx fuel a = length l.
Proof.
  revert a fuel. induction l as [|h t IH]; intros a fuel Hc He Hf; simpl in *.
  - subst a. by destruct fuel.
  - destruct Hc as [-> Hc]. destruct fuel as [|fuel]; [lia|]. simpl. apply not_elem_of_cons in He as [He1 He2].
    replace (h =? CAP_FREELIST_END) with false by lia. f_equal. apply IH; [done|done|lia].
Qed.

(** A walk along a list of distinct nodes, with an arbitrary per-node body. *)
Lemma wp_walk {R} (nx : Z → Z) (l : list Z) (I : list Z → list Z → KState → Prop)
    (body : Z → M (ctl Z R)) a s (Q : Z + R → KState → Prop) fuel :
  CAP_FREELIST_END ∉ l → (length l < fuel)%nat → chain nx a l → I [] l s →
  (∀ l1 s, l1 = l → I l1 [] s →
     wp (body CAP_FREELIST_END) (λ c s', match c with
       | Next _ => False | Break b => Q (inl b) s' | Return r => Q (inr r) s' end) s) →
  (∀ l1 h l2 s, l = l1 ++ h :: l2 → I l1 (h :: l2) s →
     wp (body h) (λ c s', match c with
       | Next b => b = nx h ∧ I (l1 ++ [h]) l2 s'
       | Break b => Q (inl b) s' | Return r => Q (inr r) s' end) s) →
  wp (while_ctl fuel body a) Q s.
Proof.
  intros He Hf Hc HI Hend Hstep.
  apply (wp_while_ctl (λ b s', ∃ l1 l2, l = l1 ++ l2 ∧ chain nx b l2 ∧ I l1 l2 s')
           (λ b _, distance nx fuel b)).
  - by exists [], l.
  - rewrite (distance_chain nx fuel a l) by (done || lia). done.
  - intros b t (l1 & l2 & El & Hcb & HIb). destruct l2 as [|h l2].
    + simpl in Hcb. subst b. rewrite app_nil_r in El. eapply wp_mono; [by apply (Hend l1)|].
      by intros [|b|r] t'.
    + destruct Hcb as [-> Hcb]. eapply wp_mono; [by apply (Hstep l1 h l2)|].
      intros [b'|b'|r] t' Hb; [|done|done]. destruct Hb as [-> HI'].
      assert (CAP_FREELIST_END ∉ h :: l2) as He2 by (rewrite El in He; mem).
      assert (length (h :: l2) ≤ fuel)%nat as Hl2 by (rewrite El, length_app in Hf; lia).
      split.
      * exists (l1 ++ [h]), l2. by rewrite <-app_assoc.
      * rewrite (distance_chain nx fuel (nx h) l2), (distance_chain nx fuel h (h :: l2));
          simpl in *; [lia|done|done|lia|done|mem|lia].
Qed.

Lemma holder_fuel_length (l : list Z) :
  Z.of_nat (length l) ≤ CAP_HOLDER_MAX → (length l < holder_fuel)%nat.
Proof. intros. unfold holder_fuel. lia. Qed.

(** Removing the first holder of [o] with the given key, if there is one. *)
Lemma wp_holder_remove o k p r (Q : unit → KState → Prop) s fr hold L :
  Hold s fr hold L → LPool ∉ k_locks s → 0 ≤ o < k_obj_next s → o_revoking (object o s) = 0 →
  ((∀ h, h ∈ hold o → holder_matches k p r (holder h s) = false) → Q tt s) →
  (∀ l1 h l2 H' O', hold o = l1 ++ h :: l2 → holder_matches k p r (holder h s) = true →
     (∀ x, x ∈ l1 → holder_matches k p r (holder x s) = false) →
     keys_but h (k_holders s) H' → metas (k_objects s) O' →
     (∀ x, x ∉ hold o → 0 ≤ x < CAP_HOLDER_MAX → H'.[x] = (k_holders s).[x]) →
     let s' := hp H' h O' s in
     Hold s' (h :: fr) (hold_upd hold o (l1 ++ l2)) L → Q tt s') →
  wp (cap_holder_remove o k p r) Q s.
Proof.
  intros Hok Hl Ho Hrev Hnone Hsome. unfold cap_holder_remove, get_object. rewrite wp_bind, wp_gets, wp_bind.
  apply (wp_walk (hnx (k_holders s)) (hold o)
    (λ l1 l2 s', s' = s ∧ ∀ x, x ∈ l1 → holder_matches k p r (holder x s) = false)).
  - apply (end_not_held Hok).
  - apply holder_fuel_length, (hold_length Hok).
  - eapply dchain_chain, (ho_list Hok); done.
  - split; [done|]. intros x []%elem_of_nil.
  - intros l1 s' -> [-> Hno]. cbv beta. rewrite Z.eqb_refl, !wp_ret. by apply Hnone.
  - intros l1 h l2 s' El [-> Hno]. cbv beta.
    assert (0 ≤ h < CAP_HOLDER_MAX) as Hr by (apply (ho_in Hok o); rewrite El; mem).
    replace (h =? CAP_FREELIST_END) with false by (unfold CAP_FREELIST_END, CAP_HOLDER_MAX in *; lia).
    unfold get_holder. rewrite !wp_bind, wp_in_bounds, wp_gets by done.
    destruct (holder_matches k p r (holder h s)) eqn:Hm.
    + rewrite wp_bind. eapply wp_mono; [by eapply wp_holder_unlink_run|].
      intros [] ? ->. rewrite !wp_ret. apply (Hsome l1 h l2); try done.
      * intros x Hx. by apply unlink_map_get.
      * intros x. rewrite aget_upd. destruct (Z.eqb_spec o x) as [<-|]; [|done].
        unfold unlinked_obj. by destruct (_ =? _).
      * intros x Hx Hxr. by eapply unlink_map_other.
      * eapply hold_ok_unlink; try done.
        -- intros x Hx. by apply unlink_map_get.
        -- intros x Hx Hxe. by apply unlink_map_get.
        -- intros x Hx Hxe. by apply unlink_map_get.
        -- unfold unlink_map; cbn. by rewrite aget_upd_eq.
        -- unfold unlink_map; cbn. by rewrite aget_upd_eq.
        -- unfold unlinked_obj. by destruct (_ =? _).
    + rewrite wp_ret. split_and!; [done|done|]. intros x [Hx|Hx]%elem_of_app; [auto|]. by apply list_elem_of_singleton in Hx as ->.
Qed.
