(* ===== verification/CapInv.v ===== *)
(** The invariant of the capability layer (kernel/cap.c).

    Every capability table is split into a free list, slots in the hands of the
    running operation and live slots; every live slot that names an object which
    is not being revoked has exactly one holder node, and every attached holder
    node stands for a live slot or a queue position.  Objects, channel ids,
    channel rings, payload buffers and the physical regions of memory objects have
    an invariant each.  This file defines them and proves what the pool operations
    of [CapPools.v] do to them. *)

From stdpp Require Import base gmap list list_numbers.
From Stdlib Require Import ZArith Lia Bool.
From S2P Require Import Prelude FramePool CapWord Sidecar CapState CapPools CapOps CapMsg Wp.
From S2P Require Import HolderSpec.
#[local] Open Scope Z_scope.
#[local] Open Scope carr_scope.
#[local] Open Scope cap_scope.
#[local] Opaque Z.to_nat Z.div Z.modulo.

(** * Tables *)

Definition tslot (T : gmap Z CapTable) (ti i : Z) : Z := (t_slots T.[ti]).[i].

(** Which pid each table is bound to; table 0 is the kernel's. *)
Record pids_ok (T : gmap Z CapTable) (P : gmap Z Z) : Prop := {
  po_zero : P.[0] = 0;
  po_range : ∀ ti, 0 ≤ ti < CAP_TABLE_MAX → 0 ≤ P.[ti] < 2 ^ 16;
  po_inj : ∀ i j, 0 ≤ i < CAP_TABLE_MAX → 0 ≤ j < CAP_TABLE_MAX → P.[i] = P.[j] → P.[i] ≠ 0 → i = j;
  po_tab : ∀ ti, 0 ≤ ti < CAP_TABLE_MAX → t_pid T.[ti] = P.[ti]
}.

(** [tf ti] is the free list of table [ti] and [U] the slots in hand; the slots of
    an unbound table are all free. *)
Record slots_ok (T : gmap Z CapTable) (P : gmap Z Z) (tf : Z → list Z) (U : list (Z * Z)) : Prop := {
  so_chain : ∀ ti, 0 ≤ ti < CAP_TABLE_MAX →
    chain (λ i, w_obj (tslot T ti i)) (t_freelist_head T.[ti]) (tf ti);
  so_nd : ∀ ti, NoDup (tf ti);
  so_in : ∀ ti i, i ∈ tf ti → 0 ≤ i < CAP_TABLE_ENTRIES ∧ w_type (tslot T ti i) = CAP_TYPE_NONE;
  so_U_nd : NoDup U;
  so_U : ∀ ti i, (ti, i) ∈ U →
    0 ≤ ti < CAP_TABLE_MAX ∧ 0 ≤ i < CAP_TABLE_ENTRIES ∧ i ∉ tf ti;
  so_unbound : ∀ ti i, 0 < ti < CAP_TABLE_MAX → P.[ti] = 0 → 0 ≤ i < CAP_TABLE_ENTRIES → i ∈ tf ti
}.

(** A slot that is neither free nor in hand. *)
Definition live (tf : Z → list Z) (U : list (Z * Z)) (ti i : Z) : Prop :=
  0 ≤ ti < CAP_TABLE_MAX ∧ 0 ≤ i < CAP_TABLE_ENTRIES ∧ (i ∉ tf ti) ∧ ((ti, i) ∉ U).

(** * Slots and holders *)

(** The words whose object field names a reference-counted object. *)
Definition obj_word (w : Z) : bool :=
  (w_type w =? CAP_TYPE_MEM) || (w_type w =? CAP_TYPE_CHAN_R) || (w_type w =? CAP_TYPE_CHAN_W) ||
  (w_type w =? CAP_TYPE_DEV).

(** An interrupt capability that has been bound: it stays in its slot, stamped. *)
Definition spent_irq (w : Z) : Prop := w_type w = CAP_TYPE_IRQ ∧ w_state w = CAP_STATE_REVOKED.

(** Node [h] stands for slot [i] of the table of [pid]. *)
Definition slot_key (H : gmap Z CapHolder) (h pid i : Z) : Prop :=
  h_kind H.[h] = HOLDER_SLOT ∧ h_pid H.[h] = pid ∧ h_ref H.[h] = i.

(** [G] are the linked nodes not yet attached to the slot they are meant for. *)
Record links_ok (T : gmap Z CapTable) (P : gmap Z Z) (H : gmap Z CapHolder) (O : gmap Z CapObject)
    (n : Z) (tf : Z → list Z) (U : list (Z * Z)) (hold : Z → list Z) (G : list Z) : Prop := {
  lk_word : ∀ ti i, live tf U ti i →
    (cap_word_valid (tslot T ti i) = true ∨ spent_irq (tslot T ti i)) ∧ 0 ≤ tslot T ti i < 2 ^ 64;
  lk_obj : ∀ ti i, live tf U ti i → obj_word (tslot T ti i) = true → w_obj (tslot T ti i) < n;
  lk_holder : ∀ ti i, live tf U ti i → obj_word (tslot T ti i) = true →
    let o := w_obj (tslot T ti i) in
    o_active O.[o] = 1 → o_revoking O.[o] = 0 →
    ∃ h, h ∈ hold o ∧ (h ∉ G) ∧ slot_key H h P.[ti] i;
  lk_slot : ∀ o h, h ∈ hold o → h ∉ G → h_kind H.[h] = HOLDER_SLOT →
    ∃ ti, live tf U ti (h_ref H.[h]) ∧ P.[ti] = h_pid H.[h] ∧ w_obj (tslot T ti (h_ref H.[h])) = o ∧
      w_type (tslot T ti (h_ref H.[h])) ≠ CAP_TYPE_IRQ;
  lk_uniq : ∀ o h h' pid i, h ∈ hold o → h' ∈ hold o → h ∉ G → h' ∉ G →
    slot_key H h pid i → slot_key H h' pid i → h = h';
  lk_queue : ∀ o h, h ∈ hold o → h ∉ G → h_kind H.[h] ≠ HOLDER_SLOT →
    h_kind H.[h] = HOLDER_QUEUE ∧ 0 ≤ h_pid H.[h] < CAP_CHAN_MAX ∧
    0 ≤ h_ref H.[h] < CHAN_QUEUE_DEPTH * CAP_MSG_MAX_CAPS ∧ (h_qdir H.[h] = 0 ∨ h_qdir H.[h] = 1)
}.

(** * Objects and channel ids *)

Record objs_ok (O : gmap Z CapObject) (n : Z) (hold : Z → list Z) : Prop := {
  oo_n : 0 ≤ n ≤ CAP_OBJECT_MAX;
  oo_id : ∀ o, 0 ≤ o < n → o_id O.[o] = o;
  oo_active : ∀ o, o_active O.[o] = 0 ∨ o_active O.[o] = 1;
  oo_beyond : ∀ o, n ≤ o → o_active O.[o] = 0;
  oo_dead : ∀ o, 0 ≤ o < n → o_active O.[o] = 0 ∨ o_revoking O.[o] ≠ 0 → hold o = [];
  oo_chan : ∀ o, 0 ≤ o < n → o_active O.[o] = 1 → o_kind O.[o] = CAP_OBJ_KIND_CHAN →
    0 ≤ o_chan_id O.[o] < CAP_CHAN_MAX
}.

(** [c] is the channel of a live channel object. *)
Definition chan_used (O : gmap Z CapObject) (n c : Z) : Prop :=
  ∃ o, 0 ≤ o < n ∧ o_active O.[o] = 1 ∧ o_kind O.[o] = CAP_OBJ_KIND_CHAN ∧ o_chan_id O.[o] = c.

(** Live channel objects have distinct channels, none of which is recycled. *)
Record cids_ok (O : gmap Z CapObject) (n next : Z) (R : gmap Z Z) (rn : Z) : Prop := {
  ci_next : 0 ≤ next ≤ CAP_CHAN_MAX;
  ci_rn : 0 ≤ rn;
  ci_used : ∀ c, chan_used O n c → c < next;
  ci_excl : ∀ o o', 0 ≤ o < n → 0 ≤ o' < n → o_active O.[o] = 1 → o_active O.[o'] = 1 →
    o_kind O.[o] = CAP_OBJ_KIND_CHAN → o_kind O.[o'] = CAP_OBJ_KIND_CHAN →
    o_chan_id O.[o] = o_chan_id O.[o'] → o = o';
  ci_rec : ∀ i, 0 ≤ i < rn → 0 ≤ R.[i] < next ∧ ¬ chan_used O n R.[i];
  ci_rec_nd : ∀ i j, 0 ≤ i < rn → 0 ≤ j < rn → R.[i] = R.[j] → i = j
}.

(** A channel id that is nobody's. *)
Definition chan_fresh (s : KState) (c : Z) : Prop :=
  0 ≤ c < k_chan_next s ∧ ¬ chan_used (k_objects s) (k_obj_next s) c ∧
  (∀ i, 0 ≤ i < k_chan_recycled_n s → (k_chan_recycled s).[i] ≠ c).

(** * Channels *)

(** A word in a ring: empty, a valid capability, or a stamped word.  An empty
    position can be stamped too, so a stamped word may have no type. *)
Definition queue_word_ok (w : Z) : Prop :=
  w = 0 ∨ (0 ≤ w < 2 ^ 64 ∧ (cap_word_valid w = true ∨ w_state w = CAP_STATE_REVOKED) ∧ w_type w ≠ CAP_TYPE_IRQ).

Record msg_ok (m : ChanMsg) : Prop := {
  mo_caps : 0 ≤ m_n_caps m ≤ CAP_MSG_MAX_CAPS;
  mo_word : ∀ i, queue_word_ok (m_cap_word m).[i];
  mo_distinct : ∀ i j, 0 ≤ i < j → j < CAP_MSG_MAX_CAPS →
    w_type (m_cap_word m).[i] ≠ CAP_TYPE_NONE → w_type (m_cap_word m).[j] ≠ CAP_TYPE_NONE →
    w_obj (m_cap_word m).[i] ≠ w_obj (m_cap_word m).[j];
  mo_idx : 0 ≤ m_payload_idx m;
  mo_pay : 0 < m_payload_len m → m_payload_idx m < CAP_MSG_PAYLOAD_POOL
}.

Record chan_ok (ch : CapChannel) : Prop := {
  co_depth : ∀ d, 0 ≤ (c_qdepth ch).[d] ≤ CHAN_QUEUE_DEPTH;
  co_msg : ∀ d e, msg_ok (c_q ch).[d].[e]
}.

Definition chans_ok (C : gmap Z CapChannel) : Prop := ∀ c, chan_ok C.[c].

(** The payload free list stays inside the pool. *)
Definition pay_index (i : Z) : Prop := i = CAP_FREELIST_END ∨ 0 ≤ i < CAP_MSG_PAYLOAD_POOL.
Definition pays_ok (N : gmap Z Z) (f : Z) : Prop :=
  pay_index f ∧ ∀ i, 0 ≤ i < CAP_MSG_PAYLOAD_POOL → pay_index N.[i].

(** * Physical memory *)

Definition arena_used (bm : gmap Z Z) (f : Z) : bool :=
  negb (Z.land bm.[Z.shiftr f 3] (Z.shiftl 1 (Z.land f 7)) =? 0).

(** Object [o] owns a run of arena frames. *)
Definition arena_region (base : Z) (bm ow : gmap Z Z) (o : Z) (ob : CapObject) : Prop :=
  ∃ start, base ≠ 0 ∧ o_phys_base ob = base + start * 4096 ∧ 0 ≤ start ∧
    start + o_npages ob ≤ CAP_ARENA_FRAMES ∧
    ∀ f, start ≤ f < start + o_npages ob → arena_used bm f = true ∧ ow.[f] = o.

(** The byte range of a memory object. *)
Definition in_region (ob : CapObject) (a : Z) : Prop :=
  o_phys_base ob ≤ a < o_phys_base ob + o_npages ob * 4096.

(** Object [o] is a view of memory outside the arena. *)
Definition external_region (base : Z) (ob : CapObject) : Prop :=
  ∀ a, in_region ob a → base ≠ 0 → a < base ∨ base + CAP_ARENA_SIZE ≤ a.

Definition live_mem (O : gmap Z CapObject) (n o : Z) : Prop :=
  0 ≤ o < n ∧ o_active O.[o] = 1 ∧ o_kind O.[o] = CAP_OBJ_KIND_MEM.

Record mems_ok (O : gmap Z CapObject) (n base : Z) (bm ow : gmap Z Z) : Prop := {
  mm_base : 0 ≤ base ∧ base + CAP_ARENA_SIZE ≤ 2 ^ 32;
  mm_size : ∀ o, live_mem O n o → 0 ≤ o_npages O.[o] ∧ 0 ≤ o_phys_base O.[o] ∧
    o_phys_base O.[o] + o_npages O.[o] * 4096 ≤ 2 ^ 32;
  mm_region : ∀ o, live_mem O n o →
    arena_region base bm ow o O.[o] ∨ external_region base O.[o];
  mm_apart : ∀ o o' a, live_mem O n o → live_mem O n o' → o ≠ o' →
    in_region O.[o] a → in_region O.[o'] a → False
}.

(** A bound interrupt vector names the channel of a live object, its own; its
    budget fits the ring. *)
Record irqs_ok (O : gmap Z CapObject) (n : Z) (I B : gmap Z Z) : Prop := {
  iq_used : ∀ v, 0 ≤ v < CAP_IRQ_VECTORS → I.[v] = CAP_NONE ∨ chan_used O n I.[v];
  iq_inj : ∀ v v', 0 ≤ v < CAP_IRQ_VECTORS → 0 ≤ v' < CAP_IRQ_VECTORS →
    I.[v] ≠ CAP_NONE → I.[v] = I.[v'] → v = v';
  iq_budget : ∀ v, 0 ≤ v < CAP_IRQ_VECTORS → 0 ≤ B.[v] ≤ CHAN_QUEUE_DEPTH
}.

(** The mapping records of a table stay in the user half of the address space, and
    two records of different objects do not overlap. *)
Definition map_live (m : CapMap) : Prop := mp_active m ≠ 0.
Definition map_end (m : CapMap) : Z := mp_vaddr m + mp_npages m * 4096.

Record maps_ok (T : gmap Z CapTable) : Prop := {
  mr_range : ∀ ti i, 0 ≤ i < CAP_MAP_MAX → let m := (t_maps T.[ti]).[i] in map_live m →
    0 ≤ mp_vaddr m ∧ 0 ≤ mp_npages m < 4096 ∧ map_end m ≤ 2 ^ 47;
  mr_apart : ∀ ti i j, 0 ≤ i < CAP_MAP_MAX → 0 ≤ j < CAP_MAP_MAX →
    let m := (t_maps T.[ti]).[i] in let m' := (t_maps T.[ti]).[j] in
    map_live m → map_live m' → mp_obj_id m ≠ mp_obj_id m' →
    map_end m ≤ mp_vaddr m' ∨ map_end m' ≤ mp_vaddr m
}.

(** * The invariant *)

(** [hold o] are the holders of object [o], [L] the loose nodes, [U] the slots in
    hand and [G] the unattached nodes. *)
Record inv_at (T : gmap Z CapTable) (P : gmap Z Z) (H : gmap Z CapHolder) (f : Z)
    (O : gmap Z CapObject) (n : Z) (C : gmap Z CapChannel) (next : Z) (R : gmap Z Z) (rn : Z)
    (N : gmap Z Z) (pf base : Z) (bm ow I B : gmap Z Z)
    (hold : Z → list Z) (L : list Z) (U : list (Z * Z)) (G : list Z) : Prop := {
  inv_hold : ∃ fr, hold_ok H f O n fr hold L;
  inv_pids : pids_ok T P;
  inv_slots : ∃ tf, slots_ok T P tf U ∧ links_ok T P H O n tf U hold G;
  inv_objs : objs_ok O n hold;
  inv_cids : cids_ok O n next R rn;
  inv_chans : chans_ok C;
  inv_pays : pays_ok N pf;
  inv_mems : mems_ok O n base bm ow;
  inv_irqs : irqs_ok O n I B;
  inv_maps : maps_ok T
}.

Arguments inv_hold {T P H f O n C next R rn N pf base bm ow I B hold L U G} _.
Arguments inv_pids {T P H f O n C next R rn N pf base bm ow I B hold L U G} _.
Arguments inv_slots {T P H f O n C next R rn N pf base bm ow I B hold L U G} _.
Arguments inv_objs {T P H f O n C next R rn N pf base bm ow I B hold L U G} _.
Arguments inv_cids {T P H f O n C next R rn N pf base bm ow I B hold L U G} _.
Arguments inv_chans {T P H f O n C next R rn N pf base bm ow I B hold L U G} _ _.
Arguments inv_pays {T P H f O n C next R rn N pf base bm ow I B hold L U G} _.
Arguments inv_mems {T P H f O n C next R rn N pf base bm ow I B hold L U G} _.
Arguments inv_irqs {T P H f O n C next R rn N pf base bm ow I B hold L U G} _.
Arguments inv_maps {T P H f O n C next R rn N pf base bm ow I B hold L U G} _.

(** The invariant of a state: locks and hooks play no part. *)
Definition Inv (s : KState) : (Z → list Z) → list Z → list (Z * Z) → list Z → Prop :=
  inv_at (k_tables s) (k_table_pid s) (k_holders s) (k_holder_free s) (k_objects s) (k_obj_next s)
    (k_channels s) (k_chan_next s) (k_chan_recycled s) (k_chan_recycled_n s)
    (k_payload_next s) (k_payload_free s) (k_arena_base s) (k_arena_bitmap s) (k_arena_owner s)
    (k_irq_chan s) (k_irq_budget s).

(** No live object is half revoked. *)
Definition quiet (s : KState) : Prop :=
  ∀ o, 0 ≤ o < k_obj_next s → o_active (object o s) = 1 → o_revoking (object o s) = 0.

(** The invariant between system calls. *)
Definition kernel_ok (s : KState) : Prop :=
  (∃ hold, Inv s hold [] [] []) ∧ quiet s ∧ k_locks s = [].

(** * How the invariant moves *)

Lemma irqs_ok_mono O n O' n' I B :
  (∀ c, chan_used O n c → chan_used O' n' c) → irqs_ok O n I B → irqs_ok O' n' I B.
Proof. intros Hc [H1 H2 H3]. split; [|done|done]. intros v Hv. destruct (H1 v Hv); auto. Qed.

Lemma irqs_ok_clear O n I B v : irqs_ok O n I B → irqs_ok O n I.[v <- CAP_NONE] B.[v <- 0].
Proof.
  intros [H1 H2 H3]. split.
  - intros u Hu. rewrite aget_upd. destruct (_ =? _); [by left|auto].
  - intros u u' Hu Hu'. rewrite !aget_upd. destruct (Z.eqb_spec v u), (Z.eqb_spec v u'); intros; try congruence; auto.
  - intros u Hu. rewrite aget_upd. destruct (_ =? _); [done|auto].
Qed.

Lemma irq_chan_range O n hold I B v :
  irqs_ok O n I B → objs_ok O n hold → 0 ≤ v < CAP_IRQ_VECTORS →
  I.[v] = CAP_NONE ∨ 0 ≤ I.[v] < CAP_CHAN_MAX.
Proof.
  intros HI Ho Hv. destruct (iq_used _ _ _ _ HI v Hv) as [|(o & Hr & Ha & Hk & <-)]; [by left|].
  right. by apply (oo_chan _ _ _ Ho).
Qed.

Lemma maps_ok_same T T' : (∀ ti, t_maps T'.[ti] = t_maps T.[ti]) → maps_ok T → maps_ok T'.
Proof. intros E [H1 H2]. split; [intros ti i|intros ti i j]; rewrite E; [apply H1|apply H2]. Qed.

Lemma hkey_fields a b : hkey a = hkey b →
  h_obj_id a = h_obj_id b ∧ h_pid a = h_pid b ∧ h_ref a = h_ref b ∧ h_kind a = h_kind b ∧ h_qdir a = h_qdir b.
Proof. unfold hkey. intros [=]. done. Qed.

Lemma slot_key_ext H H' h pid i : hkey H'.[h] = hkey H.[h] → slot_key H h pid i ↔ slot_key H' h pid i.
Proof. unfold slot_key. intros (_ & -> & -> & -> & _)%hkey_fields. done. Qed.

(** The same slots stay live, the attached nodes keep their keys, and no object
    comes back to life. *)
Lemma links_ok_ext T P H O n tf U hold G T' P' H' O' n' tf' U' :
  links_ok T P H O n tf U hold G →
  (∀ ti i, live tf' U' ti i ↔ live tf U ti i) →
  (∀ ti i, live tf U ti i → tslot T' ti i = tslot T ti i ∧ P'.[ti] = P.[ti]) →
  (∀ o h, h ∈ hold o → hkey H'.[h] = hkey H.[h]) →
  (∀ o, 0 ≤ o < n → o_active O'.[o] = 1 → o_revoking O'.[o] = 0 → o_active O.[o] = 1 ∧ o_revoking O.[o] = 0) →
  n ≤ n' →
  links_ok T' P' H' O' n' tf' U' hold G.
Proof.
  intros Hl Hlive Hslot Hkey Hob Hn. destruct Hl as [Hw Ho Hh Hs Hu Hq].
  assert (∀ ti i, live tf' U' ti i → live tf U ti i ∧ tslot T' ti i = tslot T ti i ∧ P'.[ti] = P.[ti]) as Hl.
  { intros ti i Hl%Hlive. auto. }
  split.
  - intros ti i (Hl1 & E & _)%Hl. rewrite E. by apply Hw.
  - intros ti i (Hl1 & E & _)%Hl. rewrite E. intros. assert (w_obj (tslot T ti i) < n) by auto. lia.
  - intros ti i (Hl1 & E & EP)%Hl. rewrite E, EP. intros Hob1 o Ha Hr.
    assert (0 ≤ o < n) as Hrange by (split; [apply Z.land_nonneg; right; done | by apply (Ho ti i)]).
    destruct (Hob o Hrange Ha Hr) as [Ha' Hr'].
    destruct (Hh ti i Hl1 Hob1 Ha' Hr') as (h & Hin & HG & Hk). exists h. split_and!; try done;
      apply (slot_key_ext H H' h P.[ti] i (Hkey o h Hin)), Hk.
  - intros o h Hin HG. destruct (hkey_fields _ _ (Hkey o h Hin)) as (_ & -> & -> & -> & _). intros Hk.
    destruct (Hs o h Hin HG Hk) as (ti & Hl1 & E1 & E2). exists ti.
    destruct (Hslot _ _ Hl1) as [-> ->]. split; [by apply Hlive|done].
  - intros o h h' pid i H1 H2 HG1 HG2.
    rewrite <-(slot_key_ext H H' h), <-(slot_key_ext H H' h') by (by apply (Hkey o)). by apply (Hu o).
  - intros o h Hin HG. destruct (hkey_fields _ _ (Hkey o h Hin)) as (_ & -> & -> & -> & ->).
    by apply Hq with o.
Qed.

(** Nodes leave their object's list, and the slots they stood for go in hand. *)
Lemma links_ok_shrink T P H O n tf U hold G H' O' U' hold' :
  links_ok T P H O n tf U hold G →
  (∀ ti i, live tf U' ti i → live tf U ti i) →
  (∀ o h, h ∈ hold' o → h ∈ hold o ∧ hkey H'.[h] = hkey H.[h]) →
  (∀ o h ti, h ∈ hold o → h ∉ G → slot_key H h P.[ti] (h_ref H.[h]) →
     live tf U' ti (h_ref H.[h]) → o_active O'.[o] = 1 → o_revoking O'.[o] = 0 → h ∈ hold' o) →
  (∀ o h ti, h ∈ hold' o → h ∉ G → slot_key H h P.[ti] (h_ref H.[h]) →
     live tf U ti (h_ref H.[h]) → live tf U' ti (h_ref H.[h])) →
  (∀ o, 0 ≤ o < n → o_active O'.[o] = 1 → o_revoking O'.[o] = 0 → o_active O.[o] = 1 ∧ o_revoking O.[o] = 0) →
  links_ok T P H' O' n tf U' hold' G.
Proof.
  intros Hl Hlive Hsub Hkeep Hlive' Hob. destruct Hl as [Hw Ho Hh Hs Hu Hq]. split.
  - intros ti i Hl%Hlive. by apply Hw.
  - intros ti i Hl%Hlive. by apply Ho.
  - intros ti i Hl Hob1 o Ha Hr. pose proof (Hlive _ _ Hl) as Hl1.
    assert (0 ≤ o < n) as Hrange by (split; [apply Z.land_nonneg; right; done | by apply (Ho ti i)]).
    destruct (Hob o Hrange Ha Hr) as [Ha' Hr'].
    destruct (Hh ti i Hl1 Hob1 Ha' Hr') as (h & Hin & HG & Hk).
    assert (h_ref H.[h] = i) as Ei by apply Hk.
    assert (h ∈ hold' o) as Hin' by (apply (Hkeep o h ti); rewrite ?Ei; done).
    exists h. split_and!; try done; apply (slot_key_ext H H' h P.[ti] i); [by apply (Hsub o)|done].
  - intros o h Hin HG. destruct (Hsub o h Hin) as [Hin1 Hk].
    destruct (hkey_fields _ _ Hk) as (_ & -> & -> & -> & _). intros Hkind.
    destruct (Hs o h Hin1 HG Hkind) as (ti & Hl1 & E1 & E2). exists ti.
    split; [|done]. apply (Hlive' o h ti); try done; by split_and!.
  - intros o h h' pid i H1 H2 HG1 HG2.
    rewrite <-(slot_key_ext H H' h), <-(slot_key_ext H H' h') by (by apply (Hsub o)).
    apply (Hu o); try done; by apply Hsub.
  - intros o h Hin HG. destruct (Hsub o h Hin) as [Hin1 Hk].
    destruct (hkey_fields _ _ Hk) as (_ & -> & -> & -> & ->). by apply Hq with o.
Qed.

(** Dropping exemptions that no linked node uses. *)
Lemma links_ok_no_exempt T P H O n tf U hold G :
  links_ok T P H O n tf U hold G → (∀ o h, h ∈ hold o → h ∉ G) → links_ok T P H O n tf U hold [].
Proof.
  intros [Hw Ho Hh Hs Hu Hq] HG. split; try done.
  - intros ti i Hl Hob o Ha Hr. destruct (Hh ti i Hl Hob Ha Hr) as (h & ? & _ & ?).
    exists h. split_and!; [done|apply not_elem_of_nil|done..].
  - intros o h Hin _. apply Hs; [done|]. by apply (HG o).
  - intros o h h' pid i H1 H2 _ _. apply (Hu o); try done; by apply (HG o).
  - intros o h Hin _. apply Hq with o; [done|]. by apply (HG o).
Qed.

(** Linking an unattached node. *)
Lemma links_ok_link T P H O n tf U hold G H' O' o h :
  links_ok T P H O n tf U hold G → (∀ x, h ∉ hold x) →
  (∀ x, hkey H'.[x] = hkey H.[x]) → metas O O' →
  links_ok T P H' O' n tf U (hold_upd hold o (h :: hold o)) (h :: G).
Proof.
  intros [Hw Ho Hh Hs Hu Hq] Hfresh Hkey Hm.
  assert (∀ x y, y ∈ hold_upd hold o (h :: hold o) x → y ≠ h → y ∈ hold x) as Hin.
  { intros x y. unfold hold_upd. destruct (Z.eqb_spec x o) as [->|]; [|done].
    intros [->|?]%elem_of_cons ?; done. }
  assert (∀ y, (y ∉ h :: G) ↔ y ≠ h ∧ (y ∉ G)) as HG by (intros; apply not_elem_of_cons).
  split; try done.
  - intros ti i Hl Hob x Ha Hr.
    assert (o_active O'.[x] = o_active O.[x] ∧ o_revoking O'.[x] = o_revoking O.[x]) as [Ea Er]
      by (specialize (Hm x); unfold ometa in Hm; split; congruence).
    rewrite Ea in Ha. rewrite Er in Hr. destruct (Hh ti i Hl Hob Ha Hr) as (y & Hy & HyG & Hk).
    exists y. assert (y ≠ h) by (intros ->; by apply (Hfresh x)). split_and!.
    + fold x in Hy. unfold hold_upd. destruct (x =? o) eqn:E; [|done].
      apply Z.eqb_eq in E as ->. by right.
    + by apply HG.
    + by apply (slot_key_ext H H').
  - intros x y Hy [Hne HyG]%HG. destruct (hkey_fields _ _ (Hkey y)) as (_ & -> & -> & -> & _).
    apply Hs; [by apply Hin|done].
  - intros x y y' pid i H1 H2 [? ?]%HG [? ?]%HG.
    rewrite <-(slot_key_ext H H' y), <-(slot_key_ext H H' y') by done.
    apply (Hu x); auto.
  - intros x y Hy [Hne HyG]%HG. destruct (hkey_fields _ _ (Hkey y)) as (_ & -> & -> & -> & ->).
    apply Hq with x; [by apply Hin|done].
Qed.

(** A node with a queue position needs no exemption. *)
Lemma links_ok_attach_queue T P H O n tf U hold G h :
  links_ok T P H O n tf U hold (h :: G) →
  h_kind H.[h] = HOLDER_QUEUE → 0 ≤ h_pid H.[h] < CAP_CHAN_MAX →
  0 ≤ h_ref H.[h] < CHAN_QUEUE_DEPTH * CAP_MSG_MAX_CAPS → (h_qdir H.[h] = 0 ∨ h_qdir H.[h] = 1) →
  links_ok T P H O n tf U hold G.
Proof.
  intros [Hw Ho Hh Hs Hu Hq] Hk Hp Hr Hd.
  assert (∀ y pid i, slot_key H y pid i → y ≠ h) as Hns.
  { intros y pid i [E _] ->. rewrite Hk in E. done. }
  assert (∀ y, y ≠ h → (y ∉ G) → (y ∉ h :: G)) as HG by (intros; by apply not_elem_of_cons).
  split; try done.
  - intros ti i Hl Hob x Ha Hr1. destruct (Hh ti i Hl Hob Ha Hr1) as (y & Hy & HyG & Hky).
    exists y. apply not_elem_of_cons in HyG as [_ ?]. by split_and!; try apply Hky.
  - intros x y Hy HyG Hky. apply Hs; [done| |done]. apply HG; [|done]. intros ->. rewrite Hk in Hky. done.
  - intros x y y' pid i H1 H2 HG1 HG2 K1 K2. apply (Hu x y y' pid i); eauto.
  - intros x y Hy HyG. destruct (decide (y = h)) as [->|]; [done|]. by apply Hq with x; [|apply HG].
Qed.

(** A node meets the slot it was linked for. *)
Lemma links_ok_attach_slot T P H O n tf U1 U2 hold G h o ti i :
  links_ok T P H O n tf (U1 ++ (ti, i) :: U2) hold (h :: G) →
  slots_ok T P tf (U1 ++ (ti, i) :: U2) →
  h ∈ hold o → h ∉ G → (∀ x, h ∈ hold x → x = o) → slot_key H h P.[ti] i →
  (∀ tj j, live tf (U1 ++ (ti, i) :: U2) tj j → P.[tj] = P.[ti] → tj = ti) →
  cap_word_valid (tslot T ti i) = true → 0 ≤ tslot T ti i < 2 ^ 64 →
  w_obj (tslot T ti i) = o → w_type (tslot T ti i) ≠ CAP_TYPE_IRQ → o < n →
  links_ok T P H O n tf (U1 ++ U2) hold G.
Proof.
  intros [Hw Ho Hh Hs Hu Hq] Hso Hin HhG Huniq Hk Hti Hv Hrange Hobj Hty Hn.
  set (U := U1 ++ (ti, i) :: U2) in *.
  destruct (so_U _ _ _ _ Hso ti i) as (Hr1 & Hr2 & Hfree); [unfold U; mem|].
  pose proof (so_U_nd _ _ _ _ Hso) as Hnd. unfold U in Hnd.
  apply NoDup_app in Hnd as (_ & Hd & [Hn2 _]%NoDup_cons).
  assert (live tf (U1 ++ U2) ti i) as Hlive.
  { split_and!; try lia; [done|]. intros [H1|H1]%elem_of_app; [|done]. apply (Hd _ H1). mem. }
  assert (∀ tj j, live tf (U1 ++ U2) tj j → (tj = ti ∧ j = i) ∨ live tf U tj j) as Hcase.
  { intros tj j (L1 & L2 & L3 & L4). destruct (decide ((tj, j) = (ti, i))) as [[= -> ->]|Hne]; [by left|].
    right. split_and!; try lia; [done|]. unfold U. mem. }
  assert (∀ tj j, live tf U tj j → live tf (U1 ++ U2) tj j) as Hmono.
  { intros tj j (L1 & L2 & L3 & L4). split_and!; try lia; [done|]. unfold U in L4. mem. }
  assert (∀ y, (y ∉ h :: G) ↔ y ≠ h ∧ (y ∉ G)) as HG by (intros; apply not_elem_of_cons).
  assert (∀ x y, y ∈ hold x → (y ∉ G) → y ≠ h → ¬ slot_key H y P.[ti] i) as Hno.
  { intros x y Hy HyG Hne (K1 & K2 & K3). destruct (Hs x y Hy ltac:(by apply HG) K1) as (tj & Hl & E & _).
    rewrite K2 in E. rewrite K3 in Hl. apply (Hti _ _ Hl) in E. subst tj.
    destruct Hl as (_ & _ & _ & Hl). apply Hl. unfold U. mem. }
  split.
  - intros tj j [[-> ->]|Hl]%Hcase; [by split; [left|] | by apply Hw].
  - intros tj j [[-> ->]|Hl]%Hcase; [by rewrite Hobj | by apply Ho].
  - intros tj j [[-> ->]|Hl]%Hcase Hob x Ha Hr.
    + exists h. unfold x. rewrite Hobj. by split_and!; try apply Hk.
    + destruct (Hh tj j Hl Hob Ha Hr) as (y & Hy & [Hne HyG]%HG & Hky). exists y. by split_and!; try apply Hky.
  - intros x y Hy HyG Hky. destruct (decide (y = h)) as [->|Hne].
    + exists ti. destruct Hk as (_ & Hk2 & Hk3). rewrite Hk3. apply Huniq in Hy as ->. by split_and!.
    + destruct (Hs x y Hy ltac:(by apply HG) Hky) as (tj & Hl & E1 & E2). exists tj. split; [by apply Hmono|done].
  - intros x y y' pid j H1 H2 HG1 HG2 K1 K2.
    destruct (decide (y = h)) as [->|Hy], (decide (y' = h)) as [->|Hy']; [done|..].
    + exfalso. destruct Hk as (_ & Hk2 & Hk3). destruct K1 as (_ & E1 & E2).
      apply (Hno x y' H2 HG2 Hy'). by rewrite <-Hk2, <-Hk3, E1, E2.
    + exfalso. destruct Hk as (_ & Hk2 & Hk3). destruct K2 as (_ & E1 & E2).
      apply (Hno x y H1 HG1 Hy). by rewrite <-Hk2, <-Hk3, E1, E2.
    + apply (Hu x y y' pid j); try done; by apply HG.
  - intros x y Hy HyG Hky. destruct (decide (y = h)) as [->|Hne].
    + by destruct Hk.
    + by apply Hq with x; [|apply HG|].
Qed.
