(* ===== verification/ArenaSpec.v ===== *)
(** The shared-memory arena of kernel/cap.c: its bitmap frame by frame, the
    first-fit run allocator, and the release of the frames an object owns. *)

From stdpp Require Import base gmap list list_numbers.
From Stdlib Require Import ZArith Lia Bool.
From S2P Require Import Prelude FramePool CapWord Sidecar CapState CapPools CapOps Wp CapInv.
#[local] Open Scope Z_scope.
#[local] Open Scope carr_scope.
#[local] Open Scope cap_scope.
#[local] Opaque Z.to_nat Z.div Z.modulo.

(** * One frame's bit *)

Lemma byte_of f : Z.shiftr f 3 = f / 8.
Proof. by rewrite Z.shiftr_div_pow2. Qed.

Lemma bit_of f : Z.land f 7 = f mod 8.
Proof. change 7 with (Z.ones 3). by rewrite Z.land_ones. Qed.

Lemma arena_used_testbit bm f : arena_used bm f = Z.testbit bm.[f / 8] (f mod 8).
Proof.
  unfold arena_used. rewrite byte_of, bit_of, land_bit_testbit, negb_involutive; [done|].
  apply Z.mod_pos_bound. lia.
Qed.

Lemma split8_eq f g : f / 8 = g / 8 → f mod 8 = g mod 8 → f = g.
Proof. intros H1 H2. rewrite (Z.div_mod f 8), (Z.div_mod g 8) by lia. congruence. Qed.

Lemma arena_frame_free_used f s : cap_arena_frame_free f s = negb (arena_used (k_arena_bitmap s) f).
Proof. unfold cap_arena_frame_free, arena_used. by rewrite negb_involutive. Qed.

(** The bitmap after marking or clearing frame [f]. *)
Definition bm_mark (bm : gmap Z Z) (f : Z) : gmap Z Z :=
  bm.[Z.shiftr f 3 <- u8 (Z.lor bm.[Z.shiftr f 3] (Z.shiftl 1 (Z.land f 7)))].
Definition bm_clear (bm : gmap Z Z) (f : Z) : gmap Z Z :=
  bm.[Z.shiftr f 3 <- Z.land bm.[Z.shiftr f 3] (u8_not (Z.shiftl 1 (Z.land f 7)))].

Lemma testbit_u8 x k : 0 ≤ k < 8 → Z.testbit (u8 x) k = Z.testbit x k.
Proof. intros. unfold u8. by rewrite Z.mod_pow2_bits_low by lia. Qed.

Lemma bm_mark_used bm f g : arena_used (bm_mark bm f) g = (g =? f) || arena_used bm g.
Proof.
  rewrite !arena_used_testbit. unfold bm_mark. rewrite byte_of, bit_of.
  pose proof (Z.mod_pos_bound f 8 ltac:(lia)). pose proof (Z.mod_pos_bound g 8 ltac:(lia)).
  rewrite aget_upd. destruct (Z.eqb_spec (f / 8) (g / 8)) as [E|E].
  - rewrite testbit_u8, Z.lor_spec, shiftl_1_testbit, E by lia.
    destruct (Z.eqb_spec (g mod 8) (f mod 8)) as [E2|E2].
    + assert (f = g) as -> by (apply split8_eq; lia). rewrite Z.eqb_refl. by rewrite orb_true_r.
    + replace (g =? f) with false by (symmetry; apply Z.eqb_neq; intros ->; done). by rewrite orb_false_r.
  - by replace (g =? f) with false by (symmetry; apply Z.eqb_neq; intros ->; done).
Qed.

Lemma bm_clear_used bm f g : arena_used (bm_clear bm f) g = negb (g =? f) && arena_used bm g.
Proof.
  rewrite !arena_used_testbit. unfold bm_clear. rewrite byte_of, bit_of.
  pose proof (Z.mod_pos_bound f 8 ltac:(lia)). pose proof (Z.mod_pos_bound g 8 ltac:(lia)).
  rewrite aget_upd. destruct (Z.eqb_spec (f / 8) (g / 8)) as [E|E].
  - unfold u8_not. rewrite Z.land_spec, Z.lxor_spec, shiftl_1_testbit, ones_testbit, E by lia.
    replace (g mod 8 <? 8) with true by lia.
    destruct (Z.eqb_spec (g mod 8) (f mod 8)) as [E2|E2].
    + assert (f = g) as -> by (apply split8_eq; lia). rewrite Z.eqb_refl. apply andb_false_r.
    + replace (g =? f) with false by (symmetry; apply Z.eqb_neq; intros ->; done). apply andb_true_r.
  - by replace (g =? f) with false by (symmetry; apply Z.eqb_neq; intros ->; done).
Qed.

(** The arena part of the state. *)
Definition arena (bm ow : gmap Z Z) (fc : Z) (s : KState) : KState :=
  set_k_arena_free fc (set_k_arena_owner ow (set_k_arena_bitmap bm s)).

Lemma arena_id s : arena (k_arena_bitmap s) (k_arena_owner s) (k_arena_free s) s = s.
Proof. by destruct s. Qed.

Lemma arena_mark_eq f o bm ow fc s :
  cap_arena_frame_mark f o (arena bm ow fc s) = arena (bm_mark bm f) ow.[f <- o] fc s.
Proof. done. Qed.

Lemma arena_clear_eq f bm ow fc s :
  cap_arena_frame_clear f (arena bm ow fc s) = arena (bm_clear bm f) ow.[f <- 0] (u32 (fc + 1)) s.
Proof. done. Qed.

Definition in_run (start n f : Z) : bool := (start <=? f) && (f <? start + n).

(** * Runs *)

Lemma arena_mark_run o s n start :
  ∃ bm ow, for_up n start (λ f, cap_arena_frame_mark f o) s = arena bm ow (k_arena_free s) s ∧
    (∀ f, arena_used bm f = in_run start (Z.of_nat n) f || arena_used (k_arena_bitmap s) f) ∧
    (∀ f, ow.[f] = if in_run start (Z.of_nat n) f then o else (k_arena_owner s).[f]).
Proof.
  set (P j t := ∃ bm ow, t = arena bm ow (k_arena_free s) s ∧
    (∀ f, arena_used bm f = in_run start (j - start) f || arena_used (k_arena_bitmap s) f) ∧
    (∀ f, ow.[f] = if in_run start (j - start) f then o else (k_arena_owner s).[f])).
  assert (P (start + Z.of_nat n) (for_up n start (λ f, cap_arena_frame_mark f o) s)) as (bm & ow & E & Hb & Ho).
  { apply for_up_ind.
    - exists (k_arena_bitmap s), (k_arena_owner s). rewrite arena_id.
      split_and!; [done|intros f..]; replace (in_run start (start - start) f) with false
        by (unfold in_run; zcase); done.
    - intros j t Hj (bm & ow & -> & Hb & Ho). rewrite arena_mark_eq. eexists _, _. split; [done|].
      assert (∀ f, in_run start (j + 1 - start) f = (f =? j) || in_run start (j - start) f) as Hr
        by (intros f; unfold in_run; zcase).
      split; intros f.
      + by rewrite bm_mark_used, Hb, Hr, orb_assoc.
      + rewrite aget_upd, Hr, Z.eqb_sym. destruct (f =? j); [done|]. apply Ho. }
  exists bm, ow. replace (start + Z.of_nat n - start) with (Z.of_nat n) in * by lia. done.
Qed.

Lemma arena_clear_run_spec s n start :
  ∃ bm ow fc, for_up n start cap_arena_frame_clear s = arena bm ow fc s ∧
    (∀ f, arena_used bm f = negb (in_run start (Z.of_nat n) f) && arena_used (k_arena_bitmap s) f) ∧
    (∀ f, ow.[f] = if in_run start (Z.of_nat n) f then 0 else (k_arena_owner s).[f]).
Proof.
  set (P j t := ∃ bm ow fc, t = arena bm ow fc s ∧
    (∀ f, arena_used bm f = negb (in_run start (j - start) f) && arena_used (k_arena_bitmap s) f) ∧
    (∀ f, ow.[f] = if in_run start (j - start) f then 0 else (k_arena_owner s).[f])).
  assert (P (start + Z.of_nat n) (for_up n start cap_arena_frame_clear s)) as (bm & ow & fc & E & Hb & Ho).
  { apply for_up_ind.
    - exists (k_arena_bitmap s), (k_arena_owner s), (k_arena_free s). rewrite arena_id.
      split_and!; [done|intros f..]; replace (in_run start (start - start) f) with false
        by (unfold in_run; zcase); done.
    - intros j t Hj (bm & ow & fc & -> & Hb & Ho). rewrite arena_clear_eq. eexists _, _, _. split; [done|].
      assert (∀ f, in_run start (j + 1 - start) f = (f =? j) || in_run start (j - start) f) as Hr
        by (intros f; unfold in_run; zcase).
      split; intros f.
      + by rewrite bm_clear_used, Hb, Hr, negb_orb, andb_assoc.
      + rewrite aget_upd, Hr, Z.eqb_sym. destruct (f =? j); [done|]. apply Ho. }
  exists bm, ow, fc. replace (start + Z.of_nat n - start) with (Z.of_nat n) in * by lia. done.
Qed.

Lemma arena_run_free_true n s start :
  arena_run_free n s start = true ↔ ∀ f, start ≤ f < start + n → arena_used (k_arena_bitmap s) f = false.
Proof.
  unfold arena_run_free. destruct (find_up _ _ _) as [g|] eqn:E.
  - apply find_up_Some in E as (Hr & Hg & _). rewrite arena_frame_free_used, negb_involutive in Hg.
    split; [done|]. intros Hf. rewrite Hf in Hg by lia. done.
  - rewrite find_up_None in E. split; [|done]. intros _ f Hf. specialize (E f ltac:(lia)).
    by rewrite arena_frame_free_used, negb_involutive in E.
Qed.

(** [cap_arena_alloc_run]: refusal leaves the arena alone; success marks the
    lowest run of [n] free frames for [o]. *)
Lemma wp_arena_alloc_run n o s (Q : Z → KState → Prop) :
  0 ≤ n →
  ((n = 0 ∨ ∀ start, 0 ≤ start → start + n ≤ CAP_ARENA_FRAMES →
      ∃ f, start ≤ f < start + n ∧ arena_used (k_arena_bitmap s) f = true) → Q 0xFFFFFFFF s) →
  (∀ start bm ow fc, let s' := arena bm ow fc s in
     0 < n → 0 ≤ start → start + n ≤ CAP_ARENA_FRAMES →
     (∀ f, start ≤ f < start + n → arena_used (k_arena_bitmap s) f = false) →
     (∀ lower, 0 ≤ lower < start → ∃ f, lower ≤ f < lower + n ∧ arena_used (k_arena_bitmap s) f = true) →
     (∀ f, arena_used bm f = in_run start n f || arena_used (k_arena_bitmap s) f) →
     (∀ f, ow.[f] = if in_run start n f then o else (k_arena_owner s).[f]) →
     fc = u32 (k_arena_free s - n) →
     Q start s') →
  wp (cap_arena_alloc_run n o) Q s.
Proof.
  intros Hn Hfail Hok. unfold cap_arena_alloc_run.
  assert (∀ start, arena_run_free n s start = false →
            ∃ f, start ≤ f < start + n ∧ arena_used (k_arena_bitmap s) f = true) as Hblock.
  { intros start Hf. unfold arena_run_free in Hf. destruct (find_up _ _ _) as [g|] eqn:E; [|done].
    apply find_up_Some in E as (Hr & Hg & _). rewrite arena_frame_free_used, negb_involutive in Hg.
    exists g. split; [lia|done]. }
  destruct (Z.eqb_spec n 0) as [->|Hn0]; simpl.
  { rewrite wp_ret. apply Hfail. by left. }
  destruct (Z.ltb_spec CAP_ARENA_FRAMES n) as [Hbig|Hsmall].
  { rewrite wp_ret. apply Hfail. right. intros start ? ?. lia. }
  rewrite wp_bind, wp_gets. destruct (find_up _ _ _) as [start|] eqn:E.
  - apply find_up_Some in E as (Hr & Hst & Hlow). rewrite arena_run_free_true in Hst.
    rewrite wp_bind, wp_modify, wp_bind, wp_modify, wp_ret.
    destruct (arena_mark_run o s (Z.to_nat n) start) as (bm & ow & -> & Hb & Ho).
    rewrite Z2Nat.id in Hb, Ho by done.
    apply (Hok start bm ow (u32 (k_arena_free s - n))); try done; try lia.
    intros lower Hl. apply Hblock, Hlow. lia.
  - rewrite find_up_None in E. rewrite wp_ret. apply Hfail. right. intros start H0 H1.
    apply Hblock, E. lia.
Qed.

(** * Releasing an object's frames *)

Lemma free_owned_spec o s :
  let st := for_up (Z.to_nat CAP_ARENA_FRAMES) 0 (free_owned_frame o) (0, s) in
  ∃ bm ow fc, snd st = arena bm ow fc s ∧
    (∀ f, 0 ≤ f < CAP_ARENA_FRAMES →
       arena_used bm f = arena_used (k_arena_bitmap s) f && negb ((k_arena_owner s).[f] =? o) ∧
       ow.[f] = if (k_arena_owner s).[f] =? o then 0 else (k_arena_owner s).[f]).
Proof.
  cbv zeta. set (P j (st : Z * KState) := ∃ bm ow fc, snd st = arena bm ow fc s ∧
    (∀ f, arena_used bm f = arena_used (k_arena_bitmap s) f && negb (in_run 0 j f && ((k_arena_owner s).[f] =? o))) ∧
    (∀ f, ow.[f] = if in_run 0 j f && ((k_arena_owner s).[f] =? o) then 0 else (k_arena_owner s).[f])).
  pose proof (for_up_ind P (Z.to_nat CAP_ARENA_FRAMES) 0 (free_owned_frame o) (0, s)) as Hind.
  destruct Hind as (bm & ow & fc & E & Hb & Ho).
  - exists (k_arena_bitmap s), (k_arena_owner s), (k_arena_free s). rewrite arena_id.
    split_and!; [done|intros f..]; replace (in_run 0 0 f) with false by (unfold in_run; zcase); simpl;
      [by rewrite andb_true_r|done].
  - intros j [c t] Hj (bm & ow & fc & Et & Hb & Ho). simpl in Et. subst t.
    unfold free_owned_frame. cbn [snd]. change (k_arena_owner (arena bm ow fc s)) with ow.
    assert (∀ f, in_run 0 (j + 1) f = (f =? j) || in_run 0 j f) as Hr by (intros f; unfold in_run; zcase).
    assert (in_run 0 j j = false) as Hjj by (unfold in_run; zcase).
    rewrite Ho, Hjj. simpl. destruct (Z.eqb_spec (k_arena_owner s).[j] o) as [Ej|Ej].
    + cbn [snd]. rewrite arena_clear_eq. eexists _, _, _. split; [done|]. split; intros f.
      * rewrite bm_clear_used, Hb, Hr. destruct (Z.eqb_spec f j) as [->|]; simpl; [|done].
        rewrite Ej, Z.eqb_refl. simpl. by rewrite andb_false_r.
      * rewrite aget_upd, Hr, (Z.eqb_sym j f). destruct (Z.eqb_spec f j) as [->|]; simpl; [|apply Ho].
        by rewrite Ej, Z.eqb_refl.
    + eexists _, _, _. split; [done|]. split; intros f; rewrite Hr.
      * rewrite Hb. destruct (Z.eqb_spec f j) as [->|]; simpl; [|done].
        by replace ((k_arena_owner s).[j] =? o) with false by lia; rewrite Hjj.
      * rewrite Ho. destruct (Z.eqb_spec f j) as [->|]; simpl; [|done].
        by replace ((k_arena_owner s).[j] =? o) with false by lia; rewrite Hjj.
  - rewrite Z2Nat.id in Hb, Ho by done. exists bm, ow, fc. split; [exact E|]. intros f Hf.
    rewrite Hb, Ho. assert (in_run 0 (0 + CAP_ARENA_FRAMES) f = true) as -> by (unfold in_run; lia).
    split; reflexivity.
Qed.
