(* ===== verification/CapInvPools.v ===== *)
(** What the pool operations of kernel/cap.c do to the invariant: table lookup and
    binding, slot push and pop, holder allocation, linking and removal, object
    creation and destruction, channel ids, ring entries, payload buffers and the
    arena. *)

From stdpp Require Import base gmap list list_numbers.
From Stdlib Require Import ZArith Lia Bool.
From S2P Require Import Prelude FramePool CapWord Sidecar CapState CapPools CapOps CapMsg Wp.
From S2P Require Import HolderSpec CapInv ArenaSpec.
#[local] Open Scope Z_scope.
#[local] Open Scope carr_scope.
#[local] Open Scope cap_scope.
#[local] Opaque Z.to_nat Z.div Z.modulo.

(** * Tables *)

(** [ti] is the table bound to [pid]. *)
Definition table_of (P : gmap Z Z) (pid ti : Z) : Prop :=
  0 ≤ ti < CAP_TABLE_MAX ∧ P.[ti] = pid ∧ (pid = 0 → ti = 0).

Lemma table_of_inj T P pid ti tj :
  pids_ok T P → table_of P pid ti → 0 ≤ tj < CAP_TABLE_MAX → P.[tj] = pid → (pid = 0 → tj = 0) → tj = ti.
Proof.
  intros Hp (H1 & H2 & H3) H4 H5 H6. destruct (decide (pid = 0)) as [E|E].
  - rewrite H3, H6 by done. done.
  - apply (po_inj _ _ Hp); congruence || lia.
Qed.

Lemma table_find_spec s pid :
  pids_ok (k_tables s) (k_table_pid s) →
  (cap_table_find pid s = -1 ∧ pid ≠ 0 ∧ ∀ i, 0 ≤ i < CAP_TABLE_MAX → (k_table_pid s).[i] ≠ pid) ∨
  table_of (k_table_pid s) pid (cap_table_find pid s).
Proof.
  intros Hp. unfold cap_table_find. destruct (Z.eqb_spec pid 0) as [->|Hne].
  { right. split_and!; [done|done|apply Hp|done]. }
  destruct (find_up _ _ _) as [i|] eqn:E.
  - right. apply find_up_Some in E as (Hr & E%Z.eqb_eq & _). change (Z.to_nat CAP_TABLE_MAX) with 16%nat in Hr.
    split_and!; [lia|unfold CAP_TABLE_MAX; lia|done|done].
  - left. split_and!; [done|done|]. intros i Hi. rewrite find_up_None in E. specialize (E i).
    apply Z.eqb_neq, E. change (Z.to_nat CAP_TABLE_MAX) with 16%nat. unfold CAP_TABLE_MAX in Hi. lia.
Qed.

(** Slots of an unbound table are free. *)
Lemma live_bound T P tf U ti i : slots_ok T P tf U → live tf U ti i → P.[ti] = 0 → ti = 0.
Proof.
  intros Hs (H1 & H2 & H3 & _) HP. destruct (decide (ti = 0)); [done|].
  exfalso. apply H3. apply (so_unbound _ _ _ _ Hs); [unfold CAP_TABLE_MAX in *; lia|done|done].
Qed.

(** Binding an unbound table. *)
Lemma inv_bind s hold L U G i pid :
  Inv s hold L U G → 0 < pid < 2 ^ 16 → 0 < i < CAP_TABLE_MAX → (k_table_pid s).[i] = 0 →
  (∀ j, 0 ≤ j < CAP_TABLE_MAX → (k_table_pid s).[j] ≠ pid) →
  Inv (upd_table i (set_t_pid pid) (set_k_table_pid (k_table_pid s).[i <- pid] s)) hold L U G.
Proof.
  intros [Hho Hp (tf & Hs & Hl) Hob Hci Hch Hpa Hm Hir Hmr] Hpid Hi Hun Hnew.
  assert (∀ j, (k_tables s).[i <- set_t_pid pid (k_tables s).[i]].[j] =
               if i =? j then set_t_pid pid (k_tables s).[i] else (k_tables s).[j]) as ET.
  { intros j. apply aget_upd. }
  assert (∀ tj j, tslot (k_tables s).[i <- set_t_pid pid (k_tables s).[i]] tj j = tslot (k_tables s) tj j) as Es.
  { intros tj j. unfold tslot. rewrite ET. by destruct (Z.eqb_spec i tj) as [<-|]. }
  assert (∀ tj, tj ≠ i → (k_table_pid s).[i <- pid].[tj] = (k_table_pid s).[tj]) as EP
    by (intros; by rewrite aget_upd_ne).
  split; kred; unfold table; try done;
    [..|eapply maps_ok_same; [|exact Hmr]; intros tj; rewrite ET; by destruct (Z.eqb_spec i tj) as [<-|]].
  - destruct Hp as [H0 Hr Hinj Ht]. split.
    + rewrite EP by lia. done.
    + intros tj Htj. rewrite aget_upd. destruct (i =? tj); [lia|auto].
    + intros a b Ha Hb. rewrite !aget_upd. destruct (Z.eqb_spec i a) as [<-|], (Z.eqb_spec i b) as [<-|]; try done.
      * intros E. symmetry in E. by apply Hnew in E.
      * intros E. by apply Hnew in E.
      * auto.
    + intros tj Htj. rewrite ET, aget_upd. destruct (Z.eqb_spec i tj); [done|auto].
  - exists tf. split.
    + destruct Hs as [Hc Hnd Hin HU HU2 Hunb]. split; try done.
      * intros tj Htj. rewrite ET.
        replace (t_freelist_head _) with (t_freelist_head (k_tables s).[tj])
          by (by destruct (Z.eqb_spec i tj) as [<-|]).
        eapply chain_ext; [|by apply Hc]. intros x _. by rewrite Es.
      * intros tj j. rewrite Es. apply Hin.
      * intros tj j Htj. rewrite aget_upd. destruct (i =? tj); [lia|auto].
    + eapply links_ok_ext; [exact Hl|done| |done|done|done].
      intros tj j Hlive. split; [apply Es|]. apply EP. intros ->.
      assert (i = 0) by (by eapply live_bound). lia.
Qed.

(** The pid has no table and none is left to bind. *)
Definition no_table (pid : Z) (s : KState) : Prop :=
  ∀ ti, 0 ≤ ti < CAP_TABLE_MAX → (k_table_pid s).[ti] ≠ pid ∧ (0 < ti → (k_table_pid s).[ti] ≠ 0).

Lemma wp_table_index_full pid s hold L U G (Q : Z → KState → Prop) :
  Inv s hold L U G → 0 ≤ pid < 2 ^ 16 →
  (no_table pid s → Q (-1) s) →
  (∀ ti T' P', let s' := set_k_tables T' (set_k_table_pid P' s) in
     Inv s' hold L U G → table_of P' pid ti →
     (∀ tj j, slot tj j s' = slot tj j s) → (∀ tj, t_maps (table tj s') = t_maps (table tj s)) →
     (∀ tj p, table_of (k_table_pid s) p tj → table_of P' p tj) →
     (∀ tj, t_freelist_head (table tj s') = t_freelist_head (table tj s)) →
     (∀ tj, table_of (k_table_pid s) pid tj → s' = s) →
     Q ti s') →
  wp (cap_table_index pid) Q s.
Proof.
  intros HI Hpid Hfull HQ. pose proof (inv_pids HI) as Hp. unfold cap_table_index.
  assert (set_k_tables (k_tables s) (set_k_table_pid (k_table_pid s) s) = s) as Eid by (by destruct s).
  assert (∀ ti, table_of (k_table_pid s) pid ti → Q ti s) as Hsame.
  { intros ti Hti. specialize (HQ ti (k_tables s) (k_table_pid s)). cbv zeta in HQ. rewrite Eid in HQ. auto. }
  destruct (Z.eqb_spec pid 0) as [->|Hne].
  { rewrite wp_ret. apply Hsame. split_and!; [done|done|apply Hp|done]. }
  rewrite wp_bind, wp_gets. destruct (find_up _ 0 _) as [i|] eqn:E.
  { rewrite wp_ret. apply Hsame. apply find_up_Some in E as (Hr & E%Z.eqb_eq & _).
    change (Z.to_nat CAP_TABLE_MAX) with 16%nat in Hr. split_and!; [lia|unfold CAP_TABLE_MAX; lia|done|done]. }
  rewrite find_up_None in E.
  assert (∀ j, 0 ≤ j < CAP_TABLE_MAX → (k_table_pid s).[j] ≠ pid) as Hnew.
  { intros j Hj. apply Z.eqb_neq, E. change (Z.to_nat CAP_TABLE_MAX) with 16%nat. unfold CAP_TABLE_MAX in Hj. lia. }
  destruct (find_up _ 1 _) as [i|] eqn:E2.
  2: { rewrite wp_ret. apply Hfull. rewrite find_up_None in E2. intros j Hj. split; [by apply Hnew|]. intros H0.
       apply Z.eqb_neq, E2. change (Z.to_nat (CAP_TABLE_MAX - 1)) with 15%nat. unfold CAP_TABLE_MAX in Hj. lia. }
  apply find_up_Some in E2 as (Hr & E2%Z.eqb_eq & _).
  change (Z.to_nat (CAP_TABLE_MAX - 1)) with 15%nat in Hr.
  rewrite wp_bind, wp_modify, wp_bind, wp_modify, wp_ret.
  assert (0 < i < CAP_TABLE_MAX) as Hi by (unfold CAP_TABLE_MAX; lia).
  apply (HQ i (k_tables s).[i <- set_t_pid pid (table i s)] (k_table_pid s).[i <- pid]).
  - apply (inv_bind s hold L U G i pid); try done; lia.
  - split_and!; [lia|lia|apply aget_upd_eq|lia].
  - intros tj j. unfold slot, table. cbn. rewrite aget_upd. by destruct (Z.eqb_spec i tj) as [<-|].
  - intros tj. unfold table. cbn. rewrite aget_upd. by destruct (Z.eqb_spec i tj) as [<-|].
  - intros tj p (T1 & T2 & T3). split_and!; [lia|lia| |done]. rewrite aget_upd_ne; [done|].
    intros <-. rewrite E2 in T2. specialize (T3 (eq_sym T2)). lia.
  - intros tj. unfold table. cbn. rewrite aget_upd. by destruct (Z.eqb_spec i tj) as [<-|].
  - intros tj (T1 & T2 & _). by destruct (Hnew tj T1).
Qed.

Lemma wp_table_index_why pid s hold L U G (Q : Z → KState → Prop) :
  Inv s hold L U G → 0 ≤ pid < 2 ^ 16 →
  (no_table pid s → Q (-1) s) →
  (∀ ti T' P', let s' := set_k_tables T' (set_k_table_pid P' s) in
     Inv s' hold L U G → table_of P' pid ti →
     (∀ tj j, slot tj j s' = slot tj j s) → (∀ tj, t_maps (table tj s') = t_maps (table tj s)) →
     (∀ tj p, table_of (k_table_pid s) p tj → table_of P' p tj) →
     (∀ tj, t_freelist_head (table tj s') = t_freelist_head (table tj s)) →
     Q ti s') →
  wp (cap_table_index pid) Q s.
Proof. intros. eapply wp_table_index_full; eauto. Qed.

Lemma wp_table_index pid s hold L U G (Q : Z → KState → Prop) :
  Inv s hold L U G → 0 ≤ pid < 2 ^ 16 →
  Q (-1) s →
  (∀ ti T' P', let s' := set_k_tables T' (set_k_table_pid P' s) in
     Inv s' hold L U G → table_of P' pid ti →
     (∀ tj j, slot tj j s' = slot tj j s) → (∀ tj, t_maps (table tj s') = t_maps (table tj s)) →
     (∀ tj p, table_of (k_table_pid s) p tj → table_of P' p tj) →
     Q ti s') →
  wp (cap_table_index pid) Q s.
Proof. intros HI Hp Hf HQ. eapply wp_table_index_why; [done|done|done|]. intros. by apply HQ. Qed.

(** * Slots *)

(** Table [ti] with slot [i] set to [w] and the free list headed by [hd]. *)
Definition tab_upd (T : gmap Z CapTable) (ti i w hd : Z) : gmap Z CapTable :=
  T.[ti <- set_t_freelist_head hd (set_t_slots (t_slots T.[ti]).[i <- w] T.[ti])].

Lemma tab_upd_slot T ti i w hd tj j :
  tslot (tab_upd T ti i w hd) tj j = if (ti =? tj) && (i =? j) then w else tslot T tj j.
Proof.
  unfold tslot, tab_upd. rewrite aget_upd. destruct (Z.eqb_spec ti tj) as [<-|]; simpl; [|done].
  apply aget_upd.
Qed.

Lemma tab_upd_slot_ne T ti i w hd tj j : (tj, j) ≠ (ti, i) → tslot (tab_upd T ti i w hd) tj j = tslot T tj j.
Proof.
  intros Hne. rewrite tab_upd_slot. destruct (Z.eqb_spec ti tj) as [<-|]; [|done].
  destruct (Z.eqb_spec i j) as [<-|]; done.
Qed.

Lemma tab_upd_slot_eq T ti i w hd : tslot (tab_upd T ti i w hd) ti i = w.
Proof. by rewrite tab_upd_slot, !Z.eqb_refl. Qed.

Lemma tab_upd_head T ti i w hd tj :
  t_freelist_head (tab_upd T ti i w hd).[tj] = if ti =? tj then hd else t_freelist_head T.[tj].
Proof. unfold tab_upd. rewrite aget_upd. by destruct (ti =? tj). Qed.

Lemma tab_upd_pid T ti i w hd tj : t_pid (tab_upd T ti i w hd).[tj] = t_pid T.[tj].
Proof. unfold tab_upd. rewrite aget_upd. by destruct (Z.eqb_spec ti tj) as [<-|]. Qed.

Lemma tab_upd_maps T ti i w hd tj : t_maps (tab_upd T ti i w hd).[tj] = t_maps T.[tj].
Proof. unfold tab_upd. rewrite aget_upd. by destruct (Z.eqb_spec ti tj) as [<-|]. Qed.

Lemma pids_ok_tab_upd T P ti i w hd : pids_ok T P → pids_ok (tab_upd T ti i w hd) P.
Proof. intros [? ? ? Ht]. split; try done. intros tj Htj. rewrite tab_upd_pid. auto. Qed.

(** The free list of one table changes at its head, and the slot in question is
    not live before or after. *)
Lemma inv_slot_step s hold L U G U' ti i w hd tf' :
  Inv s hold L U G →
  (∀ tf, slots_ok (k_tables s) (k_table_pid s) tf U →
     slots_ok (tab_upd (k_tables s) ti i w hd) (k_table_pid s) (tf' tf) U' ∧
     (∀ tj j, live (tf' tf) U' tj j ↔ live tf U tj j) ∧ ¬ live tf U ti i) →
  Inv (set_k_tables (tab_upd (k_tables s) ti i w hd) s) hold L U' G.
Proof.
  intros [Hho Hp (tf & Hs & Hl) Hob Hci Hch Hpa Hm Hir Hmr] Hstep. destruct (Hstep tf Hs) as (Hs' & Hlive & Hno).
  split; kred; try done;
    [by apply pids_ok_tab_upd| |eapply maps_ok_same; [|exact Hmr]; intros; apply tab_upd_maps].
  exists (tf' tf). split; [done|]. eapply links_ok_ext; [exact Hl|done| |done|done|done].
  intros tj j Hlj. split; [|done]. apply tab_upd_slot_ne. intros [= -> ->]. done.
Qed.

Lemma live_pop tf U ti i l tj j :
  tf ti = i :: l → 0 ≤ ti → live (hold_upd tf ti l) ((ti, i) :: U) tj j ↔ live tf U tj j.
Proof.
  intros E Hti. unfold live. rewrite not_elem_of_cons. unfold hold_upd.
  destruct (Z.eqb_spec tj ti) as [->|Hne].
  - rewrite E, not_elem_of_cons. intuition congruence.
  - intuition congruence.
Qed.

Lemma slots_ok_pop T P tf U ti i l w hd :
  slots_ok T P tf U → 0 ≤ ti < CAP_TABLE_MAX → tf ti = i :: l → hd = w_obj (tslot T ti i) →
  (0 < ti → P.[ti] ≠ 0) →
  slots_ok (tab_upd T ti i w hd) P (hold_upd tf ti l) ((ti, i) :: U).
Proof.
  intros Hs Hti E Ehd Hb. pose proof (so_nd _ _ _ _ Hs ti) as Hnd. rewrite E in Hnd.
  apply NoDup_cons in Hnd as [Hil Hnd].
  assert (i ∈ tf ti) as Hin by (rewrite E; mem). destruct (so_in _ _ _ _ Hs ti i Hin) as [Hir _].
  destruct Hs as [Hc Hn Hi HU HU2 Hunb].
  assert (∀ tj j, j ∈ hold_upd tf ti l tj → j ∈ tf tj ∧ (tj, j) ≠ (ti, i)) as Hsub.
  { intros tj j. unfold hold_upd. destruct (Z.eqb_spec tj ti) as [->|Hne].
    - intros Hj. rewrite E. split; [mem|]. by intros [= ->].
    - intros Hj. split; [done|]. congruence. }
  split.
  - intros tj Htj. rewrite tab_upd_head. specialize (Hc tj Htj).
    destruct (Z.eqb_spec ti tj) as [<-|Hne].
    + rewrite hold_upd_eq. rewrite E in Hc. destruct Hc as [_ Hc]. rewrite <-Ehd in Hc.
      eapply chain_ext; [|exact Hc]. intros x Hx. cbn. rewrite tab_upd_slot_ne; [done|]. by intros [= ->].
    + rewrite hold_upd_ne by done. eapply chain_ext; [|exact Hc]. intros x Hx. cbn.
      rewrite tab_upd_slot_ne; [done|]. by intros [= -> _].
  - intros tj. unfold hold_upd. by destruct (tj =? ti).
  - intros tj j [Hj Hne]%Hsub. rewrite tab_upd_slot_ne by done. by apply Hi.
  - apply NoDup_cons. split; [|done]. intros (_ & _ & Hx)%HU2. done.
  - intros tj j [[= -> ->]|Hj]%elem_of_cons.
    + rewrite hold_upd_eq. done.
    + destruct (HU2 tj j Hj) as (? & ? & Hx). split_and!; try lia. by intros [? _]%Hsub.
  - intros tj j Htj HP Hj. assert (tj ≠ ti) by (intros ->; apply Hb; [lia|done]).
    rewrite hold_upd_ne by done. auto.
Qed.

Lemma live_push tf U1 U2 ti i tj j :
  (i ∉ tf ti) → ((ti, i) ∉ U1 ++ U2) →
  live (hold_upd tf ti (i :: tf ti)) (U1 ++ U2) tj j ↔ live tf (U1 ++ (ti, i) :: U2) tj j.
Proof.
  intros Hi HU. unfold live. rewrite !not_elem_of_app, not_elem_of_cons. unfold hold_upd.
  rewrite not_elem_of_app in HU.
  destruct (Z.eqb_spec tj ti) as [->|Hne].
  - rewrite not_elem_of_cons. destruct (decide (j = i)) as [->|]; intuition congruence.
  - intuition congruence.
Qed.

Lemma slots_ok_push T P tf U1 U2 ti i w :
  slots_ok T P tf (U1 ++ (ti, i) :: U2) →
  w_type w = CAP_TYPE_NONE → w_obj w = t_freelist_head T.[ti] →
  slots_ok (tab_upd T ti i w i) P (hold_upd tf ti (i :: tf ti)) (U1 ++ U2).
Proof.
  intros Hs Hwt Hwo. pose proof (so_U _ _ _ _ Hs ti i ltac:(mem)) as (Hti & Hi & Hfree).
  pose proof (so_U_nd _ _ _ _ Hs) as HndU. apply NoDup_app in HndU as (Hnd1 & Hd & [Hn2 Hnd2]%NoDup_cons).
  destruct Hs as [Hc Hn Hin _ HU2 Hunb]. split.
  - intros tj Htj. rewrite tab_upd_head. specialize (Hc tj Htj).
    destruct (Z.eqb_spec ti tj) as [<-|Hne].
    + rewrite hold_upd_eq. split; [done|]. cbn. rewrite tab_upd_slot_eq, Hwo.
      eapply chain_ext; [|exact Hc]. intros x Hx. cbn. rewrite tab_upd_slot_ne; [done|]. by intros [= ->].
    + rewrite hold_upd_ne by done. eapply chain_ext; [|exact Hc]. intros x Hx. cbn.
      rewrite tab_upd_slot_ne; [done|]. by intros [= -> _].
  - intros tj. unfold hold_upd. destruct (tj =? ti); [|done]. apply NoDup_cons. done.
  - intros tj j. unfold hold_upd. destruct (Z.eqb_spec tj ti) as [->|Hne].
    + intros [->|Hj]%elem_of_cons; [by rewrite tab_upd_slot_eq|].
      rewrite tab_upd_slot_ne by (by intros [= ->]). by apply Hin.
    + intros Hj. rewrite tab_upd_slot_ne by congruence. by apply Hin.
  - apply NoDup_app. split_and!; [done| |done]. intros x Hx Hx2. apply (Hd x Hx). mem.
  - intros tj j Hj. assert ((tj, j) ≠ (ti, i)) as Hne.
    { intros [= -> ->]. apply elem_of_app in Hj as [Hj|Hj]; [|done]. apply (Hd _ Hj). mem. }
    destruct (HU2 tj j ltac:(mem)) as (? & ? & Hx). split_and!; try lia.
    unfold hold_upd. destruct (Z.eqb_spec tj ti) as [->|]; [|done].
    apply not_elem_of_cons. split; [congruence|done].
  - intros tj j Htj HP Hj. unfold hold_upd. destruct (Z.eqb_spec tj ti) as [->|]; [right|]; auto.
Qed.

(** A slot in hand may be written freely. *)
Lemma slots_ok_write T P tf U ti i w :
  slots_ok T P tf U → (ti, i) ∈ U → slots_ok (tab_upd T ti i w (t_freelist_head T.[ti])) P tf U.
Proof.
  intros Hs HiU. pose proof (so_U _ _ _ _ Hs ti i HiU) as (Hti & Hi & Hfree).
  destruct Hs as [Hc Hn Hin HU HU2 Hunb].
  assert (∀ tj j, j ∈ tf tj → (tj, j) ≠ (ti, i)) as Hne by (intros tj j Hj [= -> ->]; done).
  split; try done.
  - intros tj Htj. rewrite tab_upd_head. replace (if ti =? tj then _ else _) with (t_freelist_head T.[tj])
      by (by destruct (Z.eqb_spec ti tj) as [<-|]).
    eapply chain_ext; [|by apply Hc]. intros x Hx. cbn. by rewrite tab_upd_slot_ne by auto.
  - intros tj j Hj. rewrite tab_upd_slot_ne by auto. by apply Hin.
Qed.

(** Only slot [i] of table [ti] differs. *)
Definition tab_frame (T T' : gmap Z CapTable) (ti i : Z) : Prop :=
  (∀ tj j, (tj, j) ≠ (ti, i) → tslot T' tj j = tslot T tj j) ∧
  (∀ tj, t_maps T'.[tj] = t_maps T.[tj] ∧ t_pid T'.[tj] = t_pid T.[tj]).

Lemma tab_upd_frame T ti i w hd : tab_frame T (tab_upd T ti i w hd) ti i.
Proof.
  split; [intros; by apply tab_upd_slot_ne|]. intros tj. by rewrite tab_upd_maps, tab_upd_pid.
Qed.

Lemma w_obj_range w : 0 ≤ w_obj w < 2 ^ 17.
Proof. rewrite w_obj_field. apply field_range. done. Qed.

Lemma w_type_range w : 0 ≤ w_type w < 2 ^ 3.
Proof. rewrite w_type_field. apply field_range. done. Qed.

Lemma wp_set_slot ti i w s (Q : unit → KState → Prop) :
  0 ≤ i < CAP_TABLE_ENTRIES →
  Q tt (set_k_tables (tab_upd (k_tables s) ti i w (t_freelist_head (table ti s))) s) →
  wp (set_slot ti i w) Q s.
Proof.
  intros Hi HQ. unfold set_slot. rewrite wp_bind, wp_in_bounds, wp_modify by done.
  unfold upd_slot, upd_table, tab_upd, table in *.
  replace (set_t_freelist_head _ _) with (set_t_slots (t_slots (k_tables s).[ti]).[i <- w] (k_tables s).[ti]) in HQ
    by (by destruct ((k_tables s).[ti])). done.
Qed.

Lemma inv_set_slot s hold L U G ti i w :
  Inv s hold L U G → (ti, i) ∈ U →
  Inv (set_k_tables (tab_upd (k_tables s) ti i w (t_freelist_head (table ti s))) s) hold L U G.
Proof.
  intros HI HU. apply (inv_slot_step s hold L U G U ti i w _ (λ tf, tf)); [done|].
  intros tf Hs. split_and!; [by apply slots_ok_write|done|]. intros (_ & _ & _ & Hx). done.
Qed.

Lemma wp_slot_pop_why ti s hold L U G (Q : option Z → KState → Prop) :
  Inv s hold L U G → 0 ≤ ti < CAP_TABLE_MAX → (0 < ti → (k_table_pid s).[ti] ≠ 0) →
  (t_freelist_head (table ti s) = CAP_FREELIST_END → Q None s) →
  (∀ i T', let s' := set_k_tables T' s in
     0 ≤ i < CAP_TABLE_ENTRIES → ((ti, i) ∉ U) → w_type (slot ti i s) = CAP_TYPE_NONE →
     tab_frame (k_tables s) T' ti i → slot ti i s' = 0 →
     Inv s' hold L ((ti, i) :: U) G → Q (Some i) s') →
  wp (cap_slot_pop ti) Q s.
Proof.
  intros HI Hti Hb Hnone HQ. destruct (inv_slots HI) as (tf & Hs & _).
  unfold cap_slot_pop. rewrite wp_bind, wp_gets.
  pose proof (so_chain _ _ _ _ Hs ti Hti) as Hc. unfold table. destruct (tf ti) as [|i l] eqn:E.
  { rewrite Hc, Z.eqb_refl, wp_ret. by apply Hnone. }
  destruct Hc as [Hhd Hc]. rewrite Hhd.
  assert (i ∈ tf ti) as Hin by (rewrite E; mem).
  destruct (so_in _ _ _ _ Hs ti i Hin) as [Hi Ht].
  replace (i =? CAP_FREELIST_END) with false by (unfold CAP_FREELIST_END, CAP_TABLE_ENTRIES in *; lia).
  unfold get_slot. rewrite !wp_bind, wp_in_bounds, wp_gets by done.
  set (nx := w_obj (slot ti i s)).
  assert (nx = CAP_FREELIST_END ∨ 0 ≤ nx < CAP_TABLE_ENTRIES) as Hnx.
  { destruct l as [|j l']; [by left|]. destruct Hc as [Hc _]. right.
    change (nx = j) in Hc. rewrite Hc. apply (so_in _ _ _ _ Hs ti). rewrite E. mem. }
  replace (if nx =? CAP_FREELIST_END then CAP_FREELIST_END else u16 nx) with nx.
  2: { destruct (Z.eqb_spec nx CAP_FREELIST_END); [done|].
       rewrite u16_small; [done|]. unfold CAP_TABLE_ENTRIES in *. lia. }
  rewrite wp_bind, wp_modify, wp_bind. apply wp_set_slot; [done|]. rewrite wp_ret.
  assert (((ti, i) ∉ U)) as HU by (intros (_ & _ & Hx)%(so_U _ _ _ _ Hs); done).
  assert (set_k_tables (tab_upd (k_tables (upd_table ti (set_t_freelist_head nx) s)) ti i 0
            (t_freelist_head (table ti (upd_table ti (set_t_freelist_head nx) s))))
            (upd_table ti (set_t_freelist_head nx) s) =
          set_k_tables (tab_upd (k_tables s) ti i 0 nx) s) as ->.
  { unfold tab_upd, upd_table, table. kred. rewrite !aget_upd_eq, insert_insert_same. done. }
  apply HQ; try done; [apply tab_upd_frame|apply tab_upd_slot_eq|].
  apply (inv_slot_step s hold L U G _ ti i 0 nx (λ tf, hold_upd tf ti (tail (tf ti)))); [done|].
  intros tf2 Hs2. assert (tf2 ti = i :: tail (tf2 ti)) as E2.
  { pose proof (so_chain _ _ _ _ Hs2 ti Hti) as Hc2. rewrite Hhd in Hc2.
    destruct (tf2 ti) as [|j l2]; [|by destruct Hc2 as [-> _]].
    exfalso. simpl in Hc2. unfold CAP_FREELIST_END, CAP_TABLE_ENTRIES in *. lia. }
  split_and!.
  - by apply slots_ok_pop.
  - intros tj j. apply live_pop; [done|lia].
  - intros (_ & _ & Hx & _). apply Hx. rewrite E2. mem.
Qed.

Lemma wp_slot_pop ti s hold L U G (Q : option Z → KState → Prop) :
  Inv s hold L U G → 0 ≤ ti < CAP_TABLE_MAX → (0 < ti → (k_table_pid s).[ti] ≠ 0) →
  Q None s →
  (∀ i T', let s' := set_k_tables T' s in
     0 ≤ i < CAP_TABLE_ENTRIES → ((ti, i) ∉ U) → w_type (slot ti i s) = CAP_TYPE_NONE →
     tab_frame (k_tables s) T' ti i → slot ti i s' = 0 →
     Inv s' hold L ((ti, i) :: U) G → Q (Some i) s') →
  wp (cap_slot_pop ti) Q s.
Proof. intros. eapply wp_slot_pop_why; eauto. Qed.

Lemma wp_slot_push ti i s hold L U1 U2 G (Q : unit → KState → Prop) :
  Inv s hold L (U1 ++ (ti, i) :: U2) G →
  (∀ T', let s' := set_k_tables T' s in
     tab_frame (k_tables s) T' ti i → w_type (slot ti i s') = CAP_TYPE_NONE →
     Inv s' hold L (U1 ++ U2) G → Q tt s') →
  wp (cap_slot_push ti i) Q s.
Proof.
  intros HI HQ. destruct (inv_slots HI) as (tf & Hs & _).
  pose proof (so_U _ _ _ _ Hs ti i ltac:(mem)) as (Hti & Hi & Hfree).
  assert (0 ≤ t_freelist_head (table ti s) < 2 ^ 17) as Hhd.
  { pose proof (so_chain _ _ _ _ Hs ti Hti) as Hc. unfold table. destruct (tf ti) as [|j l] eqn:E.
    - rewrite Hc. done.
    - destruct Hc as [-> _]. destruct (so_in _ _ _ _ Hs ti j) as [? _]; [rewrite E; mem|].
      unfold CAP_TABLE_ENTRIES in *. lia. }
  destruct (free_word_fields _ Hhd) as [Ht Ho].
  unfold cap_slot_push. rewrite wp_bind, wp_gets, wp_bind. apply wp_set_slot; [done|]. rewrite wp_modify.
  set (w := free_word (t_freelist_head (table ti s))) in *.
  assert (upd_table ti (set_t_freelist_head i)
            (set_k_tables (tab_upd (k_tables s) ti i w (t_freelist_head (table ti s))) s) =
          set_k_tables (tab_upd (k_tables s) ti i w i) s) as ->.
  { unfold tab_upd, upd_table, table. kred. rewrite aget_upd_eq, insert_insert_same. done. }
  apply HQ; [apply tab_upd_frame|unfold slot, table; kred; fold (tslot (tab_upd (k_tables s) ti i w i) ti i); by rewrite tab_upd_slot_eq|].
  apply (inv_slot_step s hold L (U1 ++ (ti, i) :: U2) G (U1 ++ U2) ti i w i (λ tf, hold_upd tf ti (i :: tf ti))); [done|].
  intros tf2 Hs2. pose proof (so_U _ _ _ _ Hs2 ti i ltac:(mem)) as (_ & _ & Hfree2).
  pose proof (so_U_nd _ _ _ _ Hs2) as HndU. apply NoDup_app in HndU as (_ & Hd & [Hn2 _]%NoDup_cons).
  split_and!.
  - by apply slots_ok_push.
  - intros tj j. apply live_push; [done|]. intros [H1|H1]%elem_of_app; [|done]. apply (Hd _ H1). mem.
  - intros (_ & _ & _ & Hx). apply Hx. mem.
Qed.

(** * Holders *)

Lemma metas_fields O O' o : metas O O' →
  o_id O'.[o] = o_id O.[o] ∧ o_kind O'.[o] = o_kind O.[o] ∧ o_revoking O'.[o] = o_revoking O.[o] ∧
  o_active O'.[o] = o_active O.[o] ∧ o_phys_base O'.[o] = o_phys_base O.[o] ∧
  o_npages O'.[o] = o_npages O.[o] ∧ o_chan_id O'.[o] = o_chan_id O.[o].
Proof. intros Hm. specialize (Hm o). unfold ometa in Hm. split_and!; congruence. Qed.

Lemma metas_refl O : metas O O.
Proof. done. Qed.

Lemma metas_sym O O' : metas O O' → metas O' O.
Proof. intros Hm x. by rewrite Hm. Qed.

Lemma metas_trans O1 O2 O3 : metas O1 O2 → metas O2 O3 → metas O1 O3.
Proof. intros H1 H2 x. by rewrite H2. Qed.

Lemma objs_ok_metas O O' n hold hold' :
  objs_ok O n hold → metas O O' →
  (∀ o, 0 ≤ o < n → o_active O.[o] = 0 ∨ o_revoking O.[o] ≠ 0 → hold o = [] → hold' o = []) →
  objs_ok O' n hold'.
Proof.
  intros [H1 H2 H3 H4 H5 H6] Hm Hh. split; [done|intros o..].
  - destruct (metas_fields _ _ o Hm) as (-> & _). auto.
  - destruct (metas_fields _ _ o Hm) as (_ & _ & _ & -> & _). auto.
  - destruct (metas_fields _ _ o Hm) as (_ & _ & _ & -> & _). auto.
  - destruct (metas_fields _ _ o Hm) as (_ & _ & -> & -> & _). auto.
  - destruct (metas_fields _ _ o Hm) as (_ & -> & _ & -> & _ & _ & ->). auto.
Qed.

(** The fields of an object that outlive a revocation in progress. *)
Definition cores (O O' : gmap Z CapObject) : Prop := ∀ o,
  o_id O'.[o] = o_id O.[o] ∧ o_kind O'.[o] = o_kind O.[o] ∧ o_active O'.[o] = o_active O.[o] ∧
  o_phys_base O'.[o] = o_phys_base O.[o] ∧ o_npages O'.[o] = o_npages O.[o] ∧ o_chan_id O'.[o] = o_chan_id O.[o].

Lemma cores_fields O O' o : cores O O' →
  o_id O'.[o] = o_id O.[o] ∧ o_kind O'.[o] = o_kind O.[o] ∧ o_active O'.[o] = o_active O.[o] ∧
  o_phys_base O'.[o] = o_phys_base O.[o] ∧ o_npages O'.[o] = o_npages O.[o] ∧ o_chan_id O'.[o] = o_chan_id O.[o].
Proof. intros Hc. apply Hc. Qed.

Lemma metas_cores O O' : metas O O' → cores O O'.
Proof. intros Hm o. by destruct (metas_fields _ _ o Hm) as (? & ? & _ & ? & ? & ? & ?). Qed.

Lemma chan_used_cores O O' n c : cores O O' → chan_used O' n c ↔ chan_used O n c.
Proof.
  intros Hm. unfold chan_used. split; intros (o & H); exists o;
    destruct (cores_fields _ _ o Hm) as (_ & E1 & E2 & _ & _ & E3); rewrite ?E1, ?E2, ?E3 in *; done.
Qed.

Lemma cids_ok_cores O O' n next R rn : cids_ok O n next R rn → cores O O' → cids_ok O' n next R rn.
Proof.
  intros [H1 H2 H3 H4 H5 H6] Hm. split; try done.
  - intros c. rewrite (chan_used_cores O O') by done. auto.
  - intros o o' Ho Ho'. destruct (cores_fields _ _ o Hm) as (_ & -> & -> & _ & _ & ->).
    destruct (cores_fields _ _ o' Hm) as (_ & -> & -> & _ & _ & ->). auto.
  - intros i Hi. rewrite (chan_used_cores O O') by done. auto.
Qed.

Lemma mems_ok_cores O O' n base bm ow : mems_ok O n base bm ow → cores O O' → mems_ok O' n base bm ow.
Proof.
  intros [H1 H2 H3 H4] Hm.
  assert (∀ o, live_mem O' n o ↔ live_mem O n o) as Hl.
  { intros o. unfold live_mem. destruct (cores_fields _ _ o Hm) as (_ & -> & -> & _). done. }
  assert (∀ o a, in_region O'.[o] a ↔ in_region O.[o] a) as Hr.
  { intros o a. unfold in_region. destruct (cores_fields _ _ o Hm) as (_ & _ & _ & -> & -> & _). done. }
  split; [done|intros o..].
  - intros Ho%Hl. destruct (cores_fields _ _ o Hm) as (_ & _ & _ & -> & -> & _). auto.
  - intros Ho%Hl. destruct (H3 o Ho) as [(st & Hst)|He].
    + left. exists st. destruct (cores_fields _ _ o Hm) as (_ & _ & _ & -> & -> & _). done.
    + right. intros a Ha%Hr. by apply He.
  - intros o' a Ho%Hl Ho'%Hl Hne Ha%Hr Ha'%Hr. by apply (H4 o o' a).
Qed.

Lemma irqs_ok_cores O O' n I B : irqs_ok O n I B → cores O O' → irqs_ok O' n I B.
Proof. intros HI Hc. apply (irqs_ok_mono O n); [|done]. intros c. by rewrite (chan_used_cores O O'). Qed.

Lemma cids_ok_metas O O' n next R rn : cids_ok O n next R rn → metas O O' → cids_ok O' n next R rn.
Proof. eauto using cids_ok_cores, metas_cores. Qed.

Lemma mems_ok_metas O O' n base bm ow : mems_ok O n base bm ow → metas O O' → mems_ok O' n base bm ow.
Proof. eauto using mems_ok_cores, metas_cores. Qed.

Lemma quiet_metas s s' : quiet s → metas (k_objects s) (k_objects s') → k_obj_next s' = k_obj_next s → quiet s'.
Proof.
  intros Hq Hm En o. rewrite En. unfold object.
  destruct (metas_fields _ _ o Hm) as (_ & _ & -> & -> & _). apply Hq.
Qed.

(** The pool and the objects' holder lists move, everything else stays. *)
Lemma inv_hp s hold L U G H' f' O' hold' L' U' G' :
  Inv s hold L U G → metas (k_objects s) O' →
  (∃ fr, Hold (hp H' f' O' s) fr hold' L') →
  (∀ tf, slots_ok (k_tables s) (k_table_pid s) tf U →
     links_ok (k_tables s) (k_table_pid s) (k_holders s) (k_objects s) (k_obj_next s) tf U hold G →
     slots_ok (k_tables s) (k_table_pid s) tf U' ∧
     links_ok (k_tables s) (k_table_pid s) H' O' (k_obj_next s) tf U' hold' G') →
  (∀ o, 0 ≤ o < k_obj_next s → o_active (object o s) = 0 ∨ o_revoking (object o s) ≠ 0 →
     hold o = [] → hold' o = []) →
  Inv (hp H' f' O' s) hold' L' U' G'.
Proof.
  intros [Hho Hp (tf & Hs & Hl) Hob Hci Hch Hpa Hm Hir Hmr] HO Hho' Hlk Hdead. unfold hp in *.
  split; kred; try done.
  - exists tf. by apply Hlk.
  - by eapply objs_ok_metas.
  - by eapply cids_ok_metas.
  - by eapply mems_ok_metas.
  - by eapply irqs_ok_cores; [|apply metas_cores].
Qed.

Lemma wp_inv_holder_alloc_why o k p r q s hold L U G (Q : option Z → KState → Prop) :
  Inv s hold L U G → LPool ∉ k_locks s →
  (k_holder_free s = CAP_FREELIST_END → Q None s) →
  (∀ h H' f', let s' := hp H' f' (k_objects s) s in
     0 ≤ h < CAP_HOLDER_MAX → (∀ x, h ∉ hold x) → (h ∉ L) →
     H'.[h] = new_node o k p r q → (∀ x, x ≠ h → H'.[x] = (k_holders s).[x]) →
     Inv s' hold (h :: L) U G → Q (Some h) s') →
  wp (cap_holder_alloc o k p r q) Q s.
Proof.
  intros HI Hl Hnone Hsome. destruct (inv_hold HI) as [fr Hok].
  eapply wp_holder_alloc; [exact Hok|done|intros ->; apply Hnone, (ho_free Hok)|]. intros h fr' -> s' Hok'.
  assert (∀ x, h ∉ hold x) as Hnh by (intros x; apply (free_not_held Hok); mem).
  apply Hsome; try done.
  - apply (ho_free_in Hok). mem.
  - apply (free_not_loose Hok). mem.
  - apply aget_upd_eq.
  - intros x Hx. by apply aget_upd_ne.
  - apply (inv_hp s hold L U G); [done|done|by exists fr'| |done].
    intros tf Hslk Hlk. split; [done|]. eapply links_ok_ext; [exact Hlk|done|done| |done|done].
    intros x y Hy. rewrite aget_upd_ne; [done|]. intros <-. by apply (Hnh x).
Qed.

Lemma wp_inv_holder_alloc o k p r q s hold L U G (Q : option Z → KState → Prop) :
  Inv s hold L U G → LPool ∉ k_locks s →
  Q None s →
  (∀ h H' f', let s' := hp H' f' (k_objects s) s in
     0 ≤ h < CAP_HOLDER_MAX → (∀ x, h ∉ hold x) → (h ∉ L) →
     H'.[h] = new_node o k p r q → (∀ x, x ≠ h → H'.[x] = (k_holders s).[x]) →
     Inv s' hold (h :: L) U G → Q (Some h) s') →
  wp (cap_holder_alloc o k p r q) Q s.
Proof. intros. eapply wp_inv_holder_alloc_why; eauto. Qed.

Lemma wp_inv_holder_free h s hold l1 l2 U G (Q : unit → KState → Prop) :
  Inv s hold (l1 ++ h :: l2) U G → LPool ∉ k_locks s →
  (∀ H' f', let s' := hp H' f' (k_objects s) s in
     (∀ x, x ≠ h → H'.[x] = (k_holders s).[x]) → h_active H'.[h] = 0 →
     Inv s' hold (l1 ++ l2) U G → Q tt s') →
  wp (cap_holder_free h) Q s.
Proof.
  intros HI Hl HQ. destruct (inv_hold HI) as [fr Hok].
  assert (0 ≤ h < CAP_HOLDER_MAX) as Hr by (apply (ho_loose Hok); mem).
  apply wp_holder_free; [done|done|]. apply HQ.
  - intros x Hx. by rewrite aget_upd_ne.
  - by rewrite aget_upd_eq.
  - apply (inv_hp s hold (l1 ++ h :: l2) U G); [done|done| | |done].
    + exists (h :: fr). apply (hold_ok_free _ _ _ _ _ _ _ _ _ _ Hok); done.
    + intros tf Hslk Hlk. split; [done|]. eapply links_ok_ext; [exact Hlk|done|done| |done|done].
      intros x y Hy. rewrite aget_upd_ne; [done|]. intros <-. apply (loose_not_held Hok h x); [mem|done].
Qed.

Lemma wp_inv_holder_link h o s hold l1 l2 U G (Q : unit → KState → Prop) :
  Inv s hold (l1 ++ h :: l2) U G → 0 ≤ o < k_obj_next s →
  o_active (object o s) = 1 → o_revoking (object o s) = 0 →
  h_obj_id (holder h s) = o → h_prev (holder h s) = CAP_FREELIST_END →
  (∀ H' O', let s' := hp H' (k_holder_free s) O' s in
     (∀ x, hkey H'.[x] = hkey (k_holders s).[x]) → metas (k_objects s) O' →
     (∀ x, x ≠ h → x ∉ hold o → H'.[x] = (k_holders s).[x]) →
     Inv s' (hold_upd hold o (h :: hold o)) (l1 ++ l2) U (h :: G) → Q tt s') →
  wp (cap_holder_link h o) Q s.
Proof.
  intros HI Ho Ha Hrev Hobj Hprev HQ. destruct (inv_hold HI) as [fr Hok].
  eapply wp_holder_link; [exact Hok|done|done|done|done|].
  intros H' O' Hkey Hm Hoth s' Hok'. apply HQ; [done|done|done|].
  apply (inv_hp s hold (l1 ++ h :: l2) U G); [done|done|by exists fr| |].
  - intros tf Hslk Hlk. split; [done|]. apply (links_ok_link _ _ (k_holders s) (k_objects s)); try done.
    intros x. apply (loose_not_held Hok). mem.
  - intros x Hx Hd Hnil. unfold hold_upd. destruct (Z.eqb_spec x o) as [->|]; [|done].
    destruct Hd; congruence.
Qed.

Lemma holder_matches_true k p r n :
  holder_matches k p r n = true ↔ h_kind n = k ∧ h_pid n = p ∧ h_ref n = r.
Proof. unfold holder_matches. rewrite !andb_true_iff, !Z.eqb_eq. tauto. Qed.

(** What both flavours of removal give the caller. *)
Definition removed (s : KState) (hold hold' : Z → list Z) (o : Z) (H' : gmap Z CapHolder)
    (O' : gmap Z CapObject) : Prop :=
  metas (k_objects s) O' ∧
  (∀ x, x ∉ hold o → 0 ≤ x < CAP_HOLDER_MAX → H'.[x] = (k_holders s).[x]) ∧
  (∀ x, x ≠ o → hold' x = hold x) ∧ (∀ h, h ∈ hold' o → h ∈ hold o ∧ hkey H'.[h] = hkey (k_holders s).[h]).

Lemma hold_upd_sub hold o l1 h l2 x y :
  hold o = l1 ++ h :: l2 → y ∈ hold_upd hold o (l1 ++ l2) x → y ∈ hold x.
Proof.
  intros E. unfold hold_upd. destruct (Z.eqb_spec x o) as [->|]; [|done]. rewrite E. intros. mem.
Qed.

Lemma hold_upd_keep hold o l1 h l2 x y :
  hold o = l1 ++ h :: l2 → y ∈ hold x → (x = o → y ≠ h) → y ∈ hold_upd hold o (l1 ++ l2) x.
Proof.
  intros E Hy Hne. unfold hold_upd. destruct (Z.eqb_spec x o) as [->|]; [|done].
  rewrite E, !elem_of_app, elem_of_cons in Hy. rewrite elem_of_app. specialize (Hne eq_refl). tauto.
Qed.

Lemma hold_upd_removed {H f O n fr hold L} (Hok : hold_ok H f O n fr hold L) o l1 h l2 :
  hold o = l1 ++ h :: l2 → ∀ x y, y ∈ hold_upd hold o (l1 ++ l2) x → y ∈ hold x ∧ y ≠ h.
Proof.
  intros Eho x y Hy. split; [by eapply hold_upd_sub|]. intros ->.
  assert (x = o) as -> by (eapply (held_unique Hok h); [by eapply hold_upd_sub|rewrite Eho; mem]).
  rewrite hold_upd_eq in Hy. pose proof (ho_nd Hok o) as Hnd. rewrite Eho in Hnd.
  apply NoDup_app in Hnd as (_ & Hd & [Hn2 _]%NoDup_cons).
  apply elem_of_app in Hy as [Hy|Hy]; [|done]. apply (Hd _ Hy). mem.
Qed.

Lemma hp_id s : hp (k_holders s) (k_holder_free s) (k_objects s) s = s.
Proof. by destruct s. Qed.

Lemma valid_not_free w : cap_word_valid w = true → w_type w ≠ CAP_TYPE_NONE.
Proof. unfold cap_word_valid. by destruct (Z.eqb_spec (w_type w) CAP_TYPE_NONE). Qed.

Lemma slots_ok_hand T P tf U ti i :
  slots_ok T P tf U → 0 ≤ ti < CAP_TABLE_MAX → 0 ≤ i < CAP_TABLE_ENTRIES →
  cap_word_valid (tslot T ti i) = true → ((ti, i) ∉ U) →
  slots_ok T P tf ((ti, i) :: U) ∧ live tf U ti i.
Proof.
  intros Hs Hti Hi Hv HU. assert (i ∉ tf ti) as Hf.
  { intros [_ Ht]%(so_in _ _ _ _ Hs). by apply valid_not_free in Hv. }
  split; [|done]. destruct Hs as [Hc Hn Hin Hnd HU2 Hunb]. split; try done.
  - by apply NoDup_cons.
  - intros tj j [[= -> ->]|Hj]%elem_of_cons; [done|auto].
Qed.

(** An object that [cap_object_get] returns. *)
Lemma object_get_Some s hold L U G w o :
  Inv s hold L U G → cap_object_get w s = Some o → 0 ≤ w →
  o = w ∧ 0 ≤ o < k_obj_next s ∧ o_active (object o s) = 1 ∧ o_id (object o s) = o.
Proof.
  intros HI. unfold cap_object_get. pose proof (inv_objs HI) as Ho.
  destruct (Z.leb_spec CAP_OBJECT_MAX w); [done|].
  destruct (Z.eqb_spec (o_active (object w s)) 0) as [E|E]; [done|]. simpl.
  destruct (Z.eqb_spec (o_id (object w s)) w) as [E2|E2]; [|done]. intros [= <-] Hw.
  destruct (Z.lt_ge_cases w (k_obj_next s)) as [Hlt|Hge].
  - split_and!; try done. by destruct (oo_active _ _ _ Ho w).
  - exfalso. apply E. by apply (oo_beyond _ _ _ Ho).
Qed.

(** An identifier that resolves to nothing is not that of a live object. *)
Lemma object_get_dead s hold L U G o :
  Inv s hold L U G → cap_object_get o s = None → 0 ≤ o < k_obj_next s → o_active (object o s) = 1 → False.
Proof.
  intros HI E Ho Ha. pose proof (oo_n _ _ _ (inv_objs HI)). pose proof (oo_id _ _ _ (inv_objs HI) o Ho) as Hid.
  unfold cap_object_get in E. change (o_id (object o s) = o) in Hid. rewrite Ha, Hid, Z.eqb_refl in E.
  destruct (Z.leb_spec CAP_OBJECT_MAX o); [lia|done].
Qed.

Lemma wp_inv_remove_slot o pid ti i s hold L U (Q : unit → KState → Prop) :
  Inv s hold L U [] → LPool ∉ k_locks s →
  table_of (k_table_pid s) pid ti → 0 ≤ i < CAP_TABLE_ENTRIES → ((ti, i) ∉ U) →
  cap_word_valid (slot ti i s) = true → w_obj (slot ti i s) = o →
  0 ≤ o < k_obj_next s → o_revoking (object o s) = 0 →
  (∀ hold' H' f' O', let s' := hp H' f' O' s in
     removed s hold hold' o H' O' → Inv s' hold' L ((ti, i) :: U) [] → Q tt s') →
  wp (cap_holder_remove o HOLDER_SLOT pid i) Q s.
Proof.
  intros HI Hl Hti Hi HU Hv Hobj Ho Hrev HQ. destruct (inv_hold HI) as [fr Hok].
  pose proof (inv_pids HI) as Hp.
  assert (∀ tf, slots_ok (k_tables s) (k_table_pid s) tf U →
    slots_ok (k_tables s) (k_table_pid s) tf ((ti, i) :: U) ∧ live tf U ti i) as Hhand.
  { intros tf Hs. apply slots_ok_hand; try done. apply Hti. }
  assert (∀ tf tj j, live tf ((ti, i) :: U) tj j ↔ live tf U tj j ∧ (tj, j) ≠ (ti, i)) as Hlive.
  { intros tf tj j. unfold live. rewrite not_elem_of_cons. intuition congruence. }
  eapply wp_holder_remove; [exact Hok|done|done|done|..].
  - intros Hnone. specialize (HQ hold (k_holders s) (k_holder_free s) (k_objects s)).
    cbv zeta in HQ. rewrite hp_id in HQ. apply HQ; [done|].
    rewrite <-(hp_id s). apply (inv_hp s hold L U []); [done|done|by exists fr| |done].
    intros tf Hs Hlk. split; [by apply Hhand|].
    eapply links_ok_shrink; [exact Hlk|by intros tj j [? _]%Hlive|done|done| |done].
    intros x h tj Hh _ (K1 & K2 & _) Hlv. apply Hlive. split; [done|]. intros [= -> E].
    destruct (lk_slot _ _ _ _ _ _ _ _ _ Hlk x h Hh (not_elem_of_nil _) K1) as (tk & Hl1 & E1 & E2 & _).
    assert (tk = ti) as ->.
    { eapply table_of_inj; [done|exact Hti|apply Hl1| |].
      - rewrite E1, K2. apply Hti.
      - intros ->. eapply live_bound; [exact Hs|exact Hl1|]. rewrite E1, K2. apply Hti. }
    rewrite E in E2. unfold slot, table in Hobj. unfold tslot in E2. rewrite Hobj in E2. subst x.
    specialize (Hnone h Hh). rewrite (proj2 (holder_matches_true _ _ _ _)) in Hnone; [done|].
    split_and!; [done| |done]. unfold holder. rewrite K2. apply Hti.
  - intros l1 h l2 H' O' Eho Hm Hfirst Hkey Hmt Hoth s' Hok'.
    apply holder_matches_true in Hm as (M1 & M2 & M3).
    pose proof (hold_upd_removed Hok o l1 h l2 Eho) as Hsub.
    apply (HQ (hold_upd hold o (l1 ++ l2)) H' h O').
    { split_and!; [done|done|intros; by apply hold_upd_ne|]. intros y [Hy Hne]%Hsub. split; [done|by apply Hkey]. }
    apply (inv_hp s hold L U []); [done|done|by exists (h :: fr)| |].
    + intros tf Hs Hlk. split; [by apply Hhand|].
      assert (h ∈ hold o) as Hho by (rewrite Eho; mem).
      eapply links_ok_shrink; [exact Hlk|by intros tj j [? _]%Hlive| | | |].
      * intros x y [Hy Hne]%Hsub. split; [done|by apply Hkey].
      * intros x y tj Hy _ (K1 & K2 & _) [Hlv Hne]%Hlive _ _. eapply hold_upd_keep; [done|done|].
        intros -> ->. apply Hne. unfold holder in *. rewrite M3. f_equal. symmetry.
        eapply (table_of_inj (k_tables s)); [done| |apply Hti| |apply Hti].
        -- split_and!; [apply Hlv|apply Hlv| |].
           ++ rewrite <-K2. exact M2.
           ++ intros ->. eapply live_bound; [exact Hs|exact Hlv|]. rewrite <-K2. exact M2.
        -- apply Hti.
      * intros x y tj [Hy Hne]%Hsub _ (K1 & K2 & _) Hlv. apply Hlive. split; [done|]. intros [= -> E].
        destruct (lk_slot _ _ _ _ _ _ _ _ _ Hlk x y Hy (not_elem_of_nil _) K1) as (tk & Hl1 & E1 & E2 & _).
        assert (tk = ti) as ->.
        { eapply table_of_inj; [done|exact Hti|apply Hl1| |].
          - rewrite E1, K2. apply Hti.
          - intros ->. eapply live_bound; [exact Hs|exact Hl1|]. rewrite E1, K2. apply Hti. }
        rewrite E in E2. unfold slot, table in Hobj. unfold tslot in E2. rewrite Hobj in E2. subst x.
        apply Hne. apply (lk_uniq _ _ _ _ _ _ _ _ _ Hlk o y h pid i Hy Hho); try apply not_elem_of_nil.
        -- split_and!; [done| |done]. rewrite K2. apply Hti.
        -- done.
      * intros x Hx. destruct (metas_fields _ _ x Hmt) as (_ & _ & -> & -> & _). done.
    + intros x Hx Hd Hnil. unfold hold_upd. destruct (Z.eqb_spec x o) as [->|]; [|done].
      rewrite Hnil in Eho. by destruct l1.
Qed.

Lemma wp_inv_remove_queue o p r s hold L U (Q : unit → KState → Prop) :
  Inv s hold L U [] → LPool ∉ k_locks s → 0 ≤ o < k_obj_next s → o_revoking (object o s) = 0 →
  (∀ hold' H' f' O', let s' := hp H' f' O' s in
     removed s hold hold' o H' O' → Inv s' hold' L U [] → Q tt s') →
  wp (cap_holder_remove o HOLDER_QUEUE p r) Q s.
Proof.
  intros HI Hl Ho Hrev HQ. destruct (inv_hold HI) as [fr Hok].
  eapply wp_holder_remove; [exact Hok|done|done|done|..].
  - intros _. specialize (HQ hold (k_holders s) (k_holder_free s) (k_objects s)).
    cbv zeta in HQ. rewrite hp_id in HQ. by apply HQ.
  - intros l1 h l2 H' O' Eho Hm Hfirst Hkey Hmt Hoth s' Hok'.
    apply holder_matches_true in Hm as (M1 & M2 & M3).
    pose proof (hold_upd_removed Hok o l1 h l2 Eho) as Hsub.
    apply (HQ (hold_upd hold o (l1 ++ l2)) H' h O').
    { split_and!; [done|done|intros; by apply hold_upd_ne|]. intros y [Hy Hne]%Hsub. split; [done|by apply Hkey]. }
    apply (inv_hp s hold L U []); [done|done|by exists (h :: fr)| |].
    + intros tf Hs Hlk. split; [done|]. eapply links_ok_shrink; [exact Hlk|done| | |done|].
      * intros x y [Hy Hne]%Hsub. split; [done|by apply Hkey].
      * intros x y tj Hy _ (K1 & _ & _) _ _ _. eapply hold_upd_keep; [done|done|].
        intros -> ->. unfold holder in M1. rewrite M1 in K1. done.
      * intros x Hx. destruct (metas_fields _ _ x Hmt) as (_ & _ & -> & -> & _). done.
    + intros x Hx Hd Hnil. unfold hold_upd. destruct (Z.eqb_spec x o) as [->|]; [|done].
      rewrite Hnil in Eho. by destruct l1.
Qed.

(** * Attaching nodes *)

Lemma inv_attach_queue s hold L U G h :
  Inv s hold L U (h :: G) →
  h_kind (holder h s) = HOLDER_QUEUE → 0 ≤ h_pid (holder h s) < CAP_CHAN_MAX →
  0 ≤ h_ref (holder h s) < CHAN_QUEUE_DEPTH * CAP_MSG_MAX_CAPS →
  (h_qdir (holder h s) = 0 ∨ h_qdir (holder h s) = 1) →
  Inv s hold L U G.
Proof.
  intros [Hho Hp (tf & Hs & Hl) Hob Hci Hch Hpa Hm Hir Hmr] H1 H2 H3 H4. split; try done.
  exists tf. split; [done|]. by eapply links_ok_attach_queue.
Qed.

Lemma slots_ok_release T P tf U1 U2 x : slots_ok T P tf (U1 ++ x :: U2) → slots_ok T P tf (U1 ++ U2).
Proof.
  intros [Hc Hn Hin Hnd HU2 Hunb]. split; try done.
  - apply NoDup_app in Hnd as (Hn1 & Hd & [Hx Hn2]%NoDup_cons). apply NoDup_app. split_and!; [done| |done].
    intros y Hy Hy2. apply (Hd y Hy). mem.
  - intros tj j Hj. apply HU2. mem.
Qed.

Lemma inv_attach_slot s hold L U1 U2 G h o pid ti i :
  Inv s hold L (U1 ++ (ti, i) :: U2) (h :: G) → table_of (k_table_pid s) pid ti →
  h ∈ hold o → h ∉ G → slot_key (k_holders s) h pid i →
  cap_word_valid (slot ti i s) = true → 0 ≤ slot ti i s < 2 ^ 64 → w_obj (slot ti i s) = o →
  w_type (slot ti i s) ≠ CAP_TYPE_IRQ →
  Inv s hold L (U1 ++ U2) G.
Proof.
  intros HI Hti Hin HG Hk Hv Hr Ho Hty. pose proof (inv_pids HI) as Hp. destruct (inv_hold HI) as [fr Hok].
  destruct HI as [Hho _ (tf & Hs & Hl) Hob Hci Hch Hpa Hm Hir Hmr]. split; try done.
  exists tf. split; [by eapply slots_ok_release|]. destruct Hti as (T1 & T2 & T3).
  eapply (links_ok_attach_slot _ _ _ _ _ _ _ _ _ _ h o ti i); try done.
  - intros x Hx. by apply (held_unique Hok h).
  - by rewrite T2.
  - intros tj j Hlv E. eapply (table_of_inj _ _ pid); [exact Hp|exact (conj T1 (conj T2 T3))|apply Hlv|congruence|].
    intros ->. eapply live_bound; [exact Hs|exact Hlv|]. congruence.
  - apply (ho_in Hok o h Hin).
Qed.

(** Exemptions no linked node uses may be dropped. *)
Lemma inv_no_exempt s hold L U G :
  Inv s hold L U G → (∀ o h, h ∈ hold o → h ∉ G) → Inv s hold L U [].
Proof.
  intros [Hho Hp (tf & Hs & Hl) Hob Hci Hch Hpa Hm Hir Hmr] HG. split; try done.
  exists tf. split; [done|]. by eapply links_ok_no_exempt.
Qed.

(** * Slots and nodes in hand, as sets *)

Lemma live_perm tf U U' ti i : U ≡ₚ U' → live tf U ti i ↔ live tf U' ti i.
Proof. intros HU. unfold live. by rewrite HU. Qed.

Lemma inv_perm_slots s hold L U U' G : U ≡ₚ U' → Inv s hold L U G → Inv s hold L U' G.
Proof.
  intros HU [Hho Hp (tf & Hs & Hl) Hob Hci Hch Hpa Hm Hir Hmr]. split; try done. exists tf. split.
  - destruct Hs as [H1 H2 H3 H4 H5 H6]. split; try done; [by rewrite <-HU|].
    intros ti i. rewrite <-HU. apply H5.
  - eapply links_ok_ext; [exact Hl| |done|done|done|done]. intros ti i. symmetry. by apply live_perm.
Qed.

Lemma inv_perm_loose s hold L L' U G : L ≡ₚ L' → Inv s hold L U G → Inv s hold L' U G.
Proof.
  intros HL [[fr Hok] Hp Hs Hob Hci Hch Hpa Hm Hir Hmr]. split; try done. exists fr.
  destruct Hok as [H1 H2 H3 H4 H5 H6 H7 H8 H9 H10]. split; try done.
  - by rewrite <-HL.
  - intros h. rewrite <-HL. apply H9.
  - intros h Hh. rewrite <-HL. by apply H10.
Qed.

(** A slot in hand may be left with a word that names no live object. *)
Lemma inv_release_word s hold L U1 U2 G ti i :
  Inv s hold L (U1 ++ (ti, i) :: U2) G →
  (cap_word_valid (slot ti i s) = true ∨ spent_irq (slot ti i s)) → 0 ≤ slot ti i s < 2 ^ 64 →
  (obj_word (slot ti i s) = true → w_obj (slot ti i s) < k_obj_next s ∧ o_active (object (w_obj (slot ti i s)) s) = 0) →
  Inv s hold L (U1 ++ U2) G.
Proof.
  intros [Hho Hp (tf & Hs & Hl) Hob Hci Hch Hpa Hm Hir Hmr] Hv Hr Hdead. split; try done. exists tf.
  split; [by eapply slots_ok_release|].
  assert (∀ tj j, live tf (U1 ++ U2) tj j → (tj = ti ∧ j = i) ∨ live tf (U1 ++ (ti, i) :: U2) tj j) as Hcase.
  { intros tj j (L1 & L2 & L3 & L4). destruct (decide ((tj, j) = (ti, i))) as [[= -> ->]|Hne]; [by left|].
    right. split; [done|]. split; [done|]. split; [done|]. mem. }
  assert (∀ tj j, live tf (U1 ++ (ti, i) :: U2) tj j → live tf (U1 ++ U2) tj j) as Hmono.
  { intros tj j (L1 & L2 & L3 & L4). split; [done|]. split; [done|]. split; [done|]. mem. }
  destruct Hl as [Hw Ho Hh Hsl Hu Hq]. split; try done.
  - intros tj j [[-> ->]|Hlv]%Hcase; [done|by apply Hw].
  - intros tj j [[-> ->]|Hlv]%Hcase; [by intros []%Hdead|by apply Ho].
  - intros tj j [[-> ->]|Hlv]%Hcase; [|by apply Hh]. intros [_ Ha]%Hdead o Ha1. exfalso.
    change (o_active (object o s) = 1) in Ha1. unfold o in Ha1. change (tslot (k_tables s) ti i) with (slot ti i s) in Ha1.
    congruence.
  - intros o h Hin HG Hk. destruct (Hsl o h Hin HG Hk) as (tj & Hlv & E). exists tj. split; [by apply Hmono|done].
Qed.

Lemma inv_release_dead s hold L U1 U2 G ti i :
  Inv s hold L (U1 ++ (ti, i) :: U2) G →
  cap_word_valid (slot ti i s) = true → 0 ≤ slot ti i s < 2 ^ 64 →
  w_obj (slot ti i s) < k_obj_next s → o_active (object (w_obj (slot ti i s)) s) = 0 →
  Inv s hold L (U1 ++ U2) G.
Proof. intros HI Hv Hr Hn Ha. eapply inv_release_word; [exact HI|by left|done|done]. Qed.

(** Pointing an unattached node at its slot. *)
Lemma inv_set_ref s hold L U G h r :
  Inv s hold L U G → h ∈ G → Inv (upd_holder h (set_h_ref r) s) hold L U G.
Proof.
  intros [[fr Hok] Hp (tf & Hs & Hl) Hob Hci Hch Hpa Hm Hir Hmr] HhG.
  set (H' := (k_holders s).[h <- set_h_ref r (holder h s)]).
  assert (∀ x, h_next H'.[x] = h_next (k_holders s).[x] ∧ h_prev H'.[x] = h_prev (k_holders s).[x] ∧
    h_obj_id H'.[x] = h_obj_id (k_holders s).[x] ∧ h_active H'.[x] = h_active (k_holders s).[x]) as E.
  { intros x. unfold H'. rewrite aget_upd. by destruct (Z.eqb_spec h x) as [<-|]. }
  assert (∀ x, x ≠ h → H'.[x] = (k_holders s).[x]) as Ene by (intros; unfold H'; by rewrite aget_upd_ne).
  split; kred; fold H'; try done.
  - exists fr. destruct Hok as [F1 F2 F3 F4 F5 F6 F7 F8 F9 F10]. split; try done.
    + eapply chain_ext; [|exact F1]. intros x _. apply E.
    + intros x. destruct (E x) as (_ & _ & _ & ->). apply F3.
    + intros o Ho. eapply dchain_ext; [| |by apply F4]; intros x _; apply E.
    + intros o x. destruct (E x) as (_ & _ & -> & ->). apply F6.
    + intros x. destruct (E x) as (_ & _ & -> & ->). apply F9.
    + intros x. destruct (E x) as (_ & _ & -> & _). apply F10.
  - exists tf. split; [done|]. destruct Hl as [Hw Ho Hh Hsl Hu Hq]. split; try done.
    + intros ti i Hlv Hob1 o Ha Hr. destruct (Hh ti i Hlv Hob1 Ha Hr) as (x & Hx & HxG & Hk).
      exists x. split; [done|]. split; [done|]. unfold slot_key. rewrite Ene by (by intros ->). done.
    + intros o x Hx HxG. rewrite Ene by (by intros ->). by apply Hsl.
    + intros o x y pid i Hx Hy HxG HyG. unfold slot_key. rewrite !Ene by (by intros ->). by apply (Hu o x y pid i).
    + intros o x Hx HxG. rewrite Ene by (by intros ->). by apply Hq with o.
Qed.

(** Removing the last of the unattached nodes of an object. *)
Lemma wp_inv_remove_exempt o k p r l h s hold L U G (Q : unit → KState → Prop) :
  Inv s hold L U G → LPool ∉ k_locks s → 0 ≤ o < k_obj_next s →
  o_active (object o s) = 1 → o_revoking (object o s) = 0 →
  hold o = l ++ [h] → (∀ x, x ∈ hold o → x ∈ G) →
  holder_matches k p r (holder h s) = true → (∀ x, x ∈ l → holder_matches k p r (holder x s) = false) →
  (∀ H' f' O', let s' := hp H' f' O' s in
     metas (k_objects s) O' → (∀ x, x ∈ l → hkey H'.[x] = hkey (k_holders s).[x]) →
     Inv s' (hold_upd hold o l) L U G → Q tt s') →
  wp (cap_holder_remove o k p r) Q s.
Proof.
  intros HI Hl Ho Hact Hrev Eh HG Hm Hno HQ. destruct (inv_hold HI) as [fr Hok].
  eapply wp_holder_remove; [exact Hok|done|done|done|..].
  - intros Hnone. rewrite (Hnone h) in Hm by (rewrite Eh; mem). done.
  - intros l1 x l2 H' O' Eho Hmx Hfirst Hkey Hmt Hoth s' Hok'.
    assert (l1 = l ∧ x = h ∧ l2 = []) as (-> & -> & ->).
    { assert (x ∉ l) as Hxl by (intros Hx; rewrite (Hno x Hx) in Hmx; done).
      assert (x = h) as ->.
      { assert (x ∈ l ++ [h]) as [Hx|Hx%list_elem_of_singleton]%elem_of_app by (rewrite <-Eh, Eho; mem); done. }
      pose proof (ho_nd Hok o) as Hnd. rewrite Eh in Hnd, Eho.
      destruct l2 as [|y l2 _] using rev_ind; [by apply app_inj_tail in Eho as [-> _]|].
      rewrite app_comm_cons, app_assoc in Eho. apply app_inj_tail in Eho as [El ->].
      exfalso. apply Hxl. rewrite El. mem. }
    rewrite app_nil_r in *.
    assert (∀ y z, z ∈ hold_upd hold o l y → z ∈ hold y ∧ z ≠ h) as Hsub.
    { intros y z. rewrite <-(app_nil_r l). by apply (hold_upd_removed Hok). }
    apply (HQ H' h O' Hmt).
    { intros y Hy. apply Hkey. intros ->. destruct (Hsub o h) as [_ ?]; [by rewrite hold_upd_eq|done]. }
    apply (inv_hp s hold L U G); [done|done|by exists (h :: fr)| |].
    + intros tf Hs Hlk. split; [done|]. eapply links_ok_shrink; [exact Hlk|done| | |done|].
      * intros y z [Hz Hne]%Hsub. split; [done|by apply Hkey].
      * intros y z tj Hz HzG _ _ _ _. unfold hold_upd. destruct (Z.eqb_spec y o) as [->|]; [|done].
        exfalso. apply HzG. by apply HG.
      * intros y Hy. destruct (metas_fields _ _ y Hmt) as (_ & _ & -> & -> & _). done.
    + intros y Hy Hd Hnil. unfold hold_upd. destruct (Z.eqb_spec y o) as [->|]; [|done].
      destruct Hd; congruence.
Qed.
