(* ===== verification/CapInvObj.v ===== *)
(** Object and channel-id life cycle against the invariant: creation, destruction,
    the recycling stack of channel ids, and the arena frames of memory objects. *)

From stdpp Require Import base gmap list list_numbers.
From Stdlib Require Import ZArith Lia Bool.
From S2P Require Import Prelude FramePool CapWord Sidecar CapState CapPools CapOps CapMsg Wp.
From S2P Require Import HolderSpec CapInv ArenaSpec CapInvPools.
#[local] Open Scope Z_scope.
#[local] Open Scope carr_scope.
#[local] Open Scope cap_scope.
#[local] Opaque Z.to_nat Z.div Z.modulo.

(** * Channel ids *)

Lemma irq_forget_get c I v :
  0 ≤ v < CAP_IRQ_VECTORS → (irq_forget c I).[v] = if I.[v] =? c then CAP_NONE else I.[v].
Proof.
  intros Hv. unfold irq_forget.
  pose proof (for_up_ind (λ j m, m.[v] = if (v <? j) && (I.[v] =? c) then CAP_NONE else I.[v])
    (Z.to_nat CAP_IRQ_VECTORS) 0 (λ v m, if m.[v] =? c then m.[v <- CAP_NONE] else m) I) as H.
  cbv beta in H. rewrite H.
  - rewrite Z2Nat.id by done. by replace (v <? 0 + CAP_IRQ_VECTORS) with true by lia.
  - by replace (v <? 0) with false by lia.
  - intros j m Hj Hm. destruct (Z.eqb_spec j v) as [->|Hne].
    + replace (v <? v) with false in Hm by lia. cbn in Hm. rewrite Hm.
      replace (v <? v + 1) with true by lia. cbn. destruct (I.[v] =? c); [apply aget_upd_eq|done].
    + replace (v <? j + 1) with (v <? j) by lia. rewrite <-Hm.
      destruct (m.[j] =? c); [by rewrite aget_upd_ne|done].
Qed.

(** Destroying a channel object forgets the vector bound to its channel. *)
Lemma irqs_ok_forget O n I B o ob :
  irqs_ok O n I B → o_active ob = 0 → irqs_ok O.[o <- ob] n (irq_forget (o_chan_id O.[o]) I) B.
Proof.
  intros [H1 H2 H3] Ha. split; [..|done].
  - intros v Hv. rewrite irq_forget_get by done. destruct (Z.eqb_spec I.[v] (o_chan_id O.[o])) as [|Hne]; [by left|].
    destruct (H1 v Hv) as [|(x & Hx & Hxa & Hxk & Hxc)]; [by left|]. right. exists x.
    assert (x ≠ o) by (intros ->; congruence). by rewrite aget_upd_ne.
  - intros v v' Hv Hv'. rewrite !irq_forget_get by done.
    destruct (I.[v] =? _); [done|]. intros Hn. destruct (I.[v'] =? _); [done|]. by apply H2.
Qed.

(** Destroying any other object leaves the bindings alone. *)
Lemma irqs_ok_kill O n I B o ob :
  irqs_ok O n I B → ¬ (o_active O.[o] = 1 ∧ o_kind O.[o] = CAP_OBJ_KIND_CHAN) → irqs_ok O.[o <- ob] n I B.
Proof.
  intros HI Hno. apply (irqs_ok_mono O n); [|done]. intros c (x & Hx & Hxa & Hxk & Hxc). exists x.
  assert (x ≠ o) by (intros ->; auto). by rewrite aget_upd_ne.
Qed.

#[local] Opaque irq_forget.

(** The channel-id allocator's part of the state. *)
Definition cids (next : Z) (R : gmap Z Z) (rn : Z) (s : KState) : KState :=
  set_k_chan_next next (set_k_chan_recycled R (set_k_chan_recycled_n rn s)).

Lemma cids_id s : cids (k_chan_next s) (k_chan_recycled s) (k_chan_recycled_n s) s = s.
Proof. by destruct s. Qed.

Lemma inv_cids_step s hold L U G next R rn :
  Inv s hold L U G → cids_ok (k_objects s) (k_obj_next s) next R rn → Inv (cids next R rn s) hold L U G.
Proof. intros [] Hc. split; done. Qed.

Lemma wp_chan_id_take s hold L U G (Q : Z → KState → Prop) :
  Inv s hold L U G → LPool ∉ k_locks s →
  Q CAP_CHAN_NONE s →
  (∀ c next R rn, let s' := cids next R rn s in
     0 ≤ c < CAP_CHAN_MAX → chan_fresh s' c → Inv s' hold L U G → Q c s') →
  wp cap_chan_id_take Q s.
Proof.
  intros HI Hl Hnone HQ. pose proof (inv_cids HI) as Hc. unfold cap_chan_id_take.
  rewrite wp_bind, wp_cap_lock, wp_bind, wp_gets, wp_bind, wp_gets, wp_bind by done. kred.
  destruct (Z.ltb_spec 0 (k_chan_recycled_n s)) as [Hn|Hn].
  { rewrite wp_bind, wp_modify, wp_gets, wp_bind, wp_cap_unlock, wp_ret. kred. rewrite lock_drop_head by done.
    set (n := k_chan_recycled_n s) in *. set (c := (k_chan_recycled s).[n - 1]).
    destruct (ci_rec _ _ _ _ _ Hc (n - 1)) as [Hr Hu]; [lia|]. pose proof (ci_next _ _ _ _ _ Hc) as Hnx.
    specialize (HQ c (k_chan_next s) (k_chan_recycled s) (n - 1)).
    replace (set_k_locks _ _) with (cids (k_chan_next s) (k_chan_recycled s) (n - 1) s) by (by destruct s).
    apply HQ; [unfold c; lia| |].
    - split_and!; try done; try (unfold cids, c; kred; lia).
      intros i Hi E. assert (i = n - 1); [|unfold cids in Hi; kred_in Hi; lia].
      apply (ci_rec_nd _ _ _ _ _ Hc); [unfold cids in Hi; kred_in Hi; lia|lia|done].
    - apply inv_cids_step; [done|]. destruct Hc as [H1 H2 H3 H4 H5 H6]. split; try done; try lia.
      + intros i Hi. apply H5. lia.
      + intros i j Hi Hj. apply H6; lia. }
  destruct (Z.ltb_spec (k_chan_next s) CAP_CHAN_MAX) as [Hx|Hx].
  - rewrite wp_bind, wp_modify, wp_ret, wp_bind, wp_cap_unlock, wp_ret. kred. rewrite lock_drop_head by done.
    set (c := k_chan_next s) in *.
    replace (set_k_locks _ _) with (cids (c + 1) (k_chan_recycled s) (k_chan_recycled_n s) s) by (by destruct s).
    pose proof (ci_next _ _ _ _ _ Hc) as Hnx. fold c in Hnx. apply HQ; [lia| |].
    + split_and!; try (unfold cids; kred; lia).
      intros Hu%(ci_used _ _ _ _ _ Hc). fold c in Hu. lia.
    + apply inv_cids_step; [done|]. destruct Hc as [H1 H2 H3 H4 H5 H6]. fold c in H3, H5. split; try done; try lia.
      intros d Hd. specialize (H3 d Hd). lia.
  - rewrite wp_ret, wp_bind, wp_cap_unlock, wp_ret. kred. rewrite lock_drop_head by done.
    by destruct s.
Qed.

(** [cap_chan_id_put]: the id goes on the stack when there is room. *)
Lemma wp_chan_id_put c s (Q : unit → KState → Prop) :
  LPool ∉ k_locks s →
  Q tt (if (CAP_CHAN_MAX <=? c) || negb (k_chan_recycled_n s <? CAP_CHAN_MAX) then s
        else cids (k_chan_next s) (k_chan_recycled s).[k_chan_recycled_n s <- c] (k_chan_recycled_n s + 1) s) →
  wp (cap_chan_id_put c) Q s.
Proof.
  intros Hl HQ. unfold cap_chan_id_put. destruct (CAP_CHAN_MAX <=? c); simpl in HQ; [by rewrite wp_ret|].
  rewrite wp_bind, wp_cap_lock, wp_bind, wp_gets, wp_bind by done. kred.
  destruct (k_chan_recycled_n s <? CAP_CHAN_MAX); simpl in HQ.
  - rewrite wp_bind, !wp_modify, wp_cap_unlock. kred. rewrite lock_drop_head by done. by destruct s.
  - rewrite wp_ret, wp_cap_unlock. kred. rewrite lock_drop_head by done. by destruct s.
Qed.

(** Pushing an id nobody uses. *)
Lemma cids_ok_put O n next R rn c :
  cids_ok O n next R rn → 0 ≤ c < next → ¬ chan_used O n c → (∀ i, 0 ≤ i < rn → R.[i] ≠ c) →
  cids_ok O n next R.[rn <- c] (rn + 1).
Proof.
  intros [H1 H2 H3 H4 H5 H6] Hc Hu Hd. split; try done; try lia.
  - intros i Hi. rewrite aget_upd. destruct (Z.eqb_spec rn i) as [<-|]; [done|]. apply H5. lia.
  - intros i j Hi Hj. rewrite !aget_upd. destruct (Z.eqb_spec rn i) as [<-|], (Z.eqb_spec rn j) as [<-|]; try done.
    + intros E. symmetry in E. apply Hd in E; [done|lia].
    + intros E. apply Hd in E; [done|lia].
    + apply H6; lia.
Qed.

Lemma wp_inv_chan_id_put c s hold L U G (Q : unit → KState → Prop) :
  Inv s hold L U G → LPool ∉ k_locks s → chan_fresh s c →
  (∀ next R rn, let s' := cids next R rn s in Inv s' hold L U G → Q tt s') →
  wp (cap_chan_id_put c) Q s.
Proof.
  intros HI Hl (F1 & F2 & F3) HQ. apply wp_chan_id_put; [done|].
  destruct (_ || _).
  - rewrite <-(cids_id s). apply HQ. by rewrite cids_id.
  - apply HQ. apply inv_cids_step; [done|]. apply cids_ok_put; try done. apply (inv_cids HI).
Qed.

(** * Object creation *)

Definition fresh_obj (id kind : Z) : CapObject := mkObj id kind 0 1 CAP_FREELIST_END 0 0 0 0 CAP_OBJ_CHAN_NONE.

(** The state with object [ob] created under the next id. *)
Definition with_obj (ob : CapObject) (s : KState) : KState :=
  set_k_objects (k_objects s).[k_obj_next s <- ob] (set_k_obj_next (k_obj_next s + 1) s).

Lemma upd_with_obj f ob s : upd_object (k_obj_next s) f (with_obj ob s) = with_obj (f ob) s.
Proof. unfold upd_object, with_obj, object. kred. by rewrite aget_upd_eq, insert_insert_same. Qed.

Lemma wp_object_alloc kind s (Q : option Z → KState → Prop) :
  LPool ∉ k_locks s → LObj (k_obj_next s) ∉ k_locks s →
  (CAP_OBJECT_MAX ≤ k_obj_next s → Q None s) →
  (k_obj_next s < CAP_OBJECT_MAX → Q (Some (k_obj_next s)) (with_obj (fresh_obj (k_obj_next s) kind) s)) →
  wp (cap_object_alloc kind) Q s.
Proof.
  intros Hl Ho Hnone Hsome. unfold cap_object_alloc, cap_lock_init, set_object.
  rewrite wp_bind, wp_cap_lock, wp_bind, wp_gets by done. kred.
  destruct (Z.leb_spec CAP_OBJECT_MAX (k_obj_next s)).
  - rewrite wp_bind, wp_cap_unlock, wp_ret. kred. rewrite lock_drop_head by done.
    specialize (Hnone ltac:(done)). by destruct s.
  - rewrite wp_bind, wp_modify, wp_bind, wp_cap_unlock, wp_bind, wp_cap_unlock, wp_bind, wp_modify, wp_ret.
    kred. rewrite lock_drop_head, lock_drop_fresh by done. specialize (Hsome ltac:(done)). by destruct s.
Qed.

Lemma hold_beyond s fr hold L o : Hold s fr hold L → k_obj_next s ≤ o → hold o = [].
Proof.
  intros Hok Ho. destruct (hold o) as [|h t] eqn:E; [done|].
  destruct (ho_in Hok o h) as (_ & _ & _ & Hr); [rewrite E; mem|lia].
Qed.

Lemma inv_new_object s hold L U G ob :
  Inv s hold L U G → k_obj_next s < CAP_OBJECT_MAX →
  let n := k_obj_next s in
  o_id ob = n → o_active ob = 1 → o_revoking ob = 0 → o_holder_head ob = CAP_FREELIST_END → o_refcount ob = 0 →
  (o_kind ob = CAP_OBJ_KIND_CHAN → chan_fresh s (o_chan_id ob)) →
  (o_kind ob = CAP_OBJ_KIND_MEM →
     0 ≤ o_npages ob ∧ 0 ≤ o_phys_base ob ∧ o_phys_base ob + o_npages ob * 4096 ≤ 2 ^ 32 ∧
     (arena_region (k_arena_base s) (k_arena_bitmap s) (k_arena_owner s) n ob ∨
      external_region (k_arena_base s) ob) ∧
     (∀ o a, live_mem (k_objects s) n o → in_region (object o s) a → in_region ob a → False)) →
  Inv (with_obj ob s) hold L U G.
Proof.
  intros HI Hmax n E1 E2 E3 E4 E5 Hchan Hmem. destruct (inv_hold HI) as [fr Hok].
  assert (hold n = []) as Hnil by (by eapply hold_beyond).
  destruct HI as [_ Hp (tf & Hs & Hl) Hob Hci Hch Hpa Hm Hir Hmr].
  pose proof (oo_n _ _ _ Hob) as Hn. fold n in Hn, Hmax.
  assert (∀ o, o ≠ n → (k_objects s).[n <- ob].[o] = (k_objects s).[o]) as EO by (intros; by rewrite aget_upd_ne).
  assert ((k_objects s).[n <- ob].[n] = ob) as En by apply aget_upd_eq.
  assert (∀ o, 0 ≤ o < n + 1 → o = n ∨ (0 ≤ o < n ∧ o ≠ n)) as Hcase by lia.
  unfold with_obj. split; kred; fold n; try done.
  - exists fr. destruct Hok as [F1 F2 F3 F4 F5 F6 F7 F8 F9 F10]. split; try done.
    + intros o [->|[Ho Hne]]%Hcase; kred; fold n.
      * by rewrite En, E4, Hnil.
      * rewrite EO by done. by apply F4.
    + intros o h Hh. destruct (F6 o h Hh) as (? & ? & ? & ?). split_and!; try done; kred; lia.
    + intros o [->|[Ho Hne]]%Hcase; kred; fold n.
      * by rewrite En, E5, Hnil.
      * rewrite EO by done. by apply F7.
  - exists tf. split; [done|]. eapply links_ok_ext; [exact Hl|done|done|done| |lia].
    intros o Ho. rewrite EO by lia. done.
  - destruct Hob as [H1 H2 H3 H4 H5 H6]. split; try lia.
    + intros o [->|[Ho Hne]]%Hcase; [by rewrite En|]. rewrite EO by done. auto.
    + intros o. rewrite aget_upd. destruct (n =? o); [by right|auto].
    + intros o Ho. rewrite EO by lia. apply H4. lia.
    + intros o [->|[Ho Hne]]%Hcase; [by rewrite Hnil|]. rewrite EO by done. auto.
    + intros o [->|[Ho Hne]]%Hcase.
      * rewrite En. intros _ Hk. destruct (Hchan Hk) as (Hr & _). pose proof (ci_next _ _ _ _ _ Hci). lia.
      * rewrite EO by done. auto.
  - assert (∀ c, chan_used (k_objects s).[n <- ob] (n + 1) c →
              chan_used (k_objects s) n c ∨ (o_kind ob = CAP_OBJ_KIND_CHAN ∧ o_chan_id ob = c)) as Hu.
    { intros c (o & [->|[Ho Hne]]%Hcase & Hoc).
      - rewrite En in Hoc. right. tauto.
      - rewrite EO in Hoc by done. left. by exists o. }
    destruct Hci as [H1 H2 H3 H4 H5 H6]. split; try done.
    + intros c [Hc|[Hk <-]]%Hu; [auto|]. by destruct (Hchan Hk) as ([? ?] & _).
    + intros o o' [->|[Ho Hne]]%Hcase [->|[Ho' Hne']]%Hcase; [done|..].
      * rewrite En, EO by done. intros _ Ha Hk Hk' E. exfalso. destruct (Hchan Hk) as (_ & Hx & _).
        apply Hx. rewrite E. by exists o'.
      * rewrite En, EO by done. intros Ha _ Hk Hk' E. exfalso. destruct (Hchan Hk') as (_ & Hx & _).
        apply Hx. rewrite <-E. by exists o.
      * rewrite !EO by done. auto.
    + intros i Hi. destruct (H5 i Hi) as [Hr Hx]. split; [done|]. intros [?|[Hk E]]%Hu; [done|].
      destruct (Hchan Hk) as (_ & _ & Hx'). by apply (Hx' i).
  - assert (∀ o, live_mem (k_objects s).[n <- ob] (n + 1) o →
              (o = n ∧ o_kind ob = CAP_OBJ_KIND_MEM) ∨ (live_mem (k_objects s) n o ∧ o ≠ n)) as Hu.
    { intros o ([->|[Ho Hne]]%Hcase & Hoc).
      - rewrite En in Hoc. left. tauto.
      - rewrite EO in Hoc by done. right. done. }
    destruct Hm as [H1 H2 H3 H4]. split; [done|intros o..].
    + intros [[-> Hk]|[Ho Hne]]%Hu; [rewrite En; by destruct (Hmem Hk) as (? & ? & ? & ? & ?)|]. rewrite EO by done. auto.
    + intros [[-> Hk]|[Ho Hne]]%Hu; [rewrite En; by destruct (Hmem Hk) as (? & ? & ? & ? & ?)|]. rewrite EO by done. auto.
    + intros o' a [[-> Hk]|[Ho Hne]]%Hu [[-> Hk']|[Ho' Hne']]%Hu Hoo; [done|..].
      * rewrite En, EO by done. intros Ha Ha'. destruct (Hmem Hk) as (_ & _ & _ & _ & Hx). by apply (Hx o' a).
      * rewrite En, EO by done. intros Ha Ha'. destruct (Hmem Hk') as (_ & _ & _ & _ & Hx). by apply (Hx o a).
      * rewrite !EO by done. by apply H4.
  - apply (irqs_ok_mono (k_objects s) n); [|done]. intros c (o & Ho & Hoc). exists o.
    rewrite EO by lia. split; [lia|done].
Qed.

(** * Object destruction *)

Definition dead_obj (ob : CapObject) : CapObject :=
  set_o_refcount 0 (set_o_holder_head CAP_FREELIST_END (set_o_revoking 1 (set_o_active 0 ob))).

(** The state with object [o] dead, its channel id recycled. *)
Definition killed (o : Z) (I : gmap Z Z) (next : Z) (R : gmap Z Z) (rn : Z) (s : KState) : KState :=
  set_k_objects (k_objects s).[o <- dead_obj (object o s)] (set_k_irq_chan I (cids next R rn s)).

(** The frames of the objects other than [o] survive the change of the arena. *)
Definition others_keep (s : KState) (o : Z) (bm ow : gmap Z Z) : Prop :=
  ∀ o' f, live_mem (k_objects s) (k_obj_next s) o' → o' ≠ o → 0 ≤ f < CAP_ARENA_FRAMES →
    arena_used (k_arena_bitmap s) f = true → (k_arena_owner s).[f] = o' →
    arena_used bm f = true ∧ ow.[f] = o'.

Lemma mems_ok_kill s o bm ow ob :
  mems_ok (k_objects s) (k_obj_next s) (k_arena_base s) (k_arena_bitmap s) (k_arena_owner s) →
  others_keep s o bm ow → o_active ob = 0 →
  mems_ok (k_objects s).[o <- ob] (k_obj_next s) (k_arena_base s) bm ow.
Proof.
  intros [H1 H2 H3 H4] Hkeep Ha.
  assert (∀ x, live_mem (k_objects s).[o <- ob] (k_obj_next s) x →
            live_mem (k_objects s) (k_obj_next s) x ∧ x ≠ o) as Hl.
  { intros x (Hx & Hxa & Hxk). assert (x ≠ o) as Hne by (intros ->; rewrite aget_upd_eq in Hxa; congruence).
    rewrite aget_upd_ne in Hxa, Hxk by done. done. }
  assert (∀ x, x ≠ o → (k_objects s).[o <- ob].[x] = (k_objects s).[x]) as E by (intros; by rewrite aget_upd_ne).
  split; [done|intros x..].
  - intros [Hx Hne]%Hl. rewrite E by done. auto.
  - intros [Hx Hne]%Hl. rewrite E by done. destruct (H3 x Hx) as [(st & B & P & S1 & S2 & Hf)|He]; [left|by right].
    exists st. split_and!; try done. intros f Hfr. destruct (Hf f Hfr) as [Hu Ho].
    apply Hkeep; try done. unfold CAP_ARENA_FRAMES in *. lia.
  - intros y a [Hx Hne]%Hl [Hy Hne']%Hl Hxy. rewrite !E by done. by apply H4.
Qed.

Lemma cids_ok_kill O n next R rn o ob :
  cids_ok O n next R rn → o_active ob = 0 → cids_ok O.[o <- ob] n next R rn.
Proof.
  intros [H1 H2 H3 H4 H5 H6] Ha.
  assert (∀ x, o_active O.[o <- ob].[x] = 1 → x ≠ o ∧ O.[o <- ob].[x] = O.[x]) as Hl.
  { intros x. rewrite aget_upd. destruct (Z.eqb_spec o x) as [<-|]; [congruence|]. auto. }
  assert (∀ c, chan_used O.[o <- ob] n c → chan_used O n c) as Hu.
  { intros c (x & Hx & Hxa & Hr). destruct (Hl x Hxa) as [_ E]. rewrite E in *. exists x. done. }
  split; try done.
  - intros c Hc%Hu. auto.
  - intros x y Hx Hy Hxa Hya. destruct (Hl x Hxa) as [_ E], (Hl y Hya) as [_ E']. rewrite E, E' in *. auto.
  - intros i Hi. destruct (H5 i Hi) as [? Hn]. split; [done|]. by intros ?%Hu.
Qed.

Lemma inv_kill s hold L U G o bm ow fc C I next R rn :
  Inv s hold L U G → 0 ≤ o < k_obj_next s → hold o = [] → others_keep s o bm ow → chans_ok C →
  cids_ok (k_objects s).[o <- dead_obj (object o s)] (k_obj_next s) next R rn →
  irqs_ok (k_objects s).[o <- dead_obj (object o s)] (k_obj_next s) I (k_irq_budget s) →
  Inv (killed o I next R rn (arena bm ow fc (set_k_channels C s))) hold L U G.
Proof.
  intros [[fr Hok] Hp (tf & Hs & Hl) Hob Hci Hch Hpa Hm Hir Hmr] Ho Hnil Hkeep HC HR HI.
  set (ob := dead_obj (object o s)) in *.
  assert (∀ x, x ≠ o → (k_objects s).[o <- ob].[x] = (k_objects s).[x]) as E by (intros; by rewrite aget_upd_ne).
  assert ((k_objects s).[o <- ob].[o] = ob) as Eo by apply aget_upd_eq.
  unfold killed, arena, cids. split; kred; try done; fold (object o s) ob.
  - exists fr. destruct Hok as [F1 F2 F3 F4 F5 F6 F7 F8 F9 F10]. split; try done; kred; fold ob.
    + intros x Hx. destruct (decide (x = o)) as [->|Hne].
      * unfold object. kred. fold (object o s) ob. by rewrite Eo, Hnil.
      * unfold object. kred. fold (object o s) ob. rewrite E by done. by apply F4.
    + intros x Hx. destruct (decide (x = o)) as [->|Hne].
      * unfold object. kred. fold (object o s) ob. by rewrite Eo, Hnil.
      * unfold object. kred. fold (object o s) ob. rewrite E by done. by apply F7.
  - exists tf. split; [done|]. eapply links_ok_ext; [exact Hl|done|done|done| |done].
    intros x Hx. rewrite aget_upd. destruct (Z.eqb_spec o x) as [<-|]; done.
  - destruct Hob as [H1 H2 H3 H4 H5 H6]. split; try done.
    + intros x Hx. rewrite aget_upd. destruct (Z.eqb_spec o x) as [<-|]; [|auto]. by apply H2.
    + intros x. rewrite aget_upd. destruct (o =? x); [by left|auto].
    + intros x Hx. rewrite E by lia. auto.
    + intros x Hx. rewrite aget_upd. destruct (Z.eqb_spec o x) as [<-|]; [done|auto].
    + intros x Hx. rewrite aget_upd. destruct (Z.eqb_spec o x) as [<-|]; [done|auto].
  - by apply mems_ok_kill.
Qed.

Lemma killed_eq o I next R rn s :
  upd_object o dead_obj (cids next R rn (set_k_irq_chan I s)) = killed o I next R rn s.
Proof. by destruct s. Qed.

Lemma killed_same o s :
  upd_object o dead_obj s =
  killed o (k_irq_chan s) (k_chan_next s) (k_chan_recycled s) (k_chan_recycled_n s) s.
Proof. by destruct s. Qed.

Lemma killed_irq o I s :
  upd_object o dead_obj (set_k_irq_chan I s) =
  killed o I (k_chan_next s) (k_chan_recycled s) (k_chan_recycled_n s) s.
Proof. by destruct s. Qed.

Lemma wp_object_destroy_gen s hold L U G o bm ow fc C (Q : unit → KState → Prop) :
  Inv s hold L U G → 0 ≤ o < k_obj_next s → hold o = [] → LPool ∉ k_locks s →
  others_keep s o bm ow → chans_ok C →
  (∀ I next R rn, let s' := killed o I next R rn (arena bm ow fc (set_k_channels C s)) in
     Inv s' hold L U G → Q tt s') →
  wp (cap_object_destroy o) Q (arena bm ow fc (set_k_channels C s)).
Proof.
  intros HI Ho Hnil Hl Hkeep HC HQ. set (s1 := arena bm ow fc (set_k_channels C s)) in *.
  assert (object o s1 = object o s) as Eob by done. pose proof (inv_cids HI) as Hci.
  pose proof (cids_ok_kill _ _ _ _ _ o (dead_obj (object o s)) Hci eq_refl) as Hci'.
  unfold cap_object_destroy, get_object, set_object. rewrite wp_bind, wp_gets, wp_bind, Eob.
  destruct (negb (o_active (object o s) =? 0) && (o_kind (object o s) =? CAP_OBJ_KIND_CHAN) &&
            (o_chan_id (object o s) <? CAP_CHAN_MAX)) eqn:Ec.
  - apply andb_true_iff in Ec as [Ec E3%Z.ltb_lt]. apply andb_true_iff in Ec as [E1 E2%Z.eqb_eq].
    apply negb_true_iff, Z.eqb_neq in E1.
    assert (o_active (k_objects s).[o] = 1) as Ha by (by destruct (oo_active _ _ _ (inv_objs HI) o)).
    assert (0 ≤ o_chan_id (object o s) < k_chan_next s) as Hc.
    { split; [by apply (oo_chan _ _ _ (inv_objs HI))|]. apply (ci_used _ _ _ _ _ Hci). by exists o. }
    rewrite wp_bind, wp_modify. apply wp_chan_id_put; [done|].
    rewrite wp_modify. replace (CAP_CHAN_MAX <=? o_chan_id (object o s)) with false by lia.
    set (I := irq_forget _ _).
    assert (irqs_ok (k_objects s).[o <- dead_obj (object o s)] (k_obj_next s) I (k_irq_budget s)) as HIr.
    { unfold I. rewrite u16_small by (unfold CAP_CHAN_MAX in *; lia). by apply irqs_ok_forget; [exact (inv_irqs HI)|]. }
    clearbody I. cbn [orb]. kred. fold dead_obj.
    destruct (Z.ltb_spec (k_chan_recycled_n s1) CAP_CHAN_MAX); cbn [negb].
    + rewrite killed_eq. apply HQ. apply inv_kill; try done. apply cids_ok_put; [done|done|..].
      * intros (x & Hx & Hxa & Hxk & Hxc). destruct (Z.eq_dec x o) as [->|Hne].
        { rewrite aget_upd_eq in Hxa. done. }
        rewrite aget_upd_ne in Hxa, Hxk, Hxc by done. apply Hne. by apply (ci_excl _ _ _ _ _ Hci).
      * intros i Hi Ei. destruct (ci_rec _ _ _ _ _ Hci i Hi) as [_ Hn]. apply Hn. exists o. done.
    + rewrite killed_irq. apply HQ. by apply inv_kill.
  - rewrite wp_ret, wp_modify. fold dead_obj. rewrite killed_same. apply HQ. apply inv_kill; try done.
    apply irqs_ok_kill; [exact (inv_irqs HI)|]. unfold object in Ec. intros [Ea Ek]. rewrite Ea, Ek in Ec.
    pose proof (oo_chan _ _ _ (inv_objs HI) o Ho Ea Ek). cbn in Ec. lia.
Qed.

Lemma others_keep_refl s o : others_keep s o (k_arena_bitmap s) (k_arena_owner s).
Proof. by intros o' f. Qed.

Lemma arena_chans_id s :
  arena (k_arena_bitmap s) (k_arena_owner s) (k_arena_free s) (set_k_channels (k_channels s) s) = s.
Proof. by destruct s. Qed.

Lemma wp_inv_object_destroy s hold L U G o (Q : unit → KState → Prop) :
  Inv s hold L U G → 0 ≤ o < k_obj_next s → hold o = [] → LPool ∉ k_locks s →
  (∀ I next R rn, let s' := killed o I next R rn s in Inv s' hold L U G → Q tt s') →
  wp (cap_object_destroy o) Q s.
Proof.
  intros HI Ho Hnil Hl HQ. rewrite <-(arena_chans_id s).
  eapply wp_object_destroy_gen; try done. exact (inv_chans HI).
Qed.

(** Channels up to their [active] flag. *)
Definition chans_same (C C' : gmap Z CapChannel) : Prop :=
  ∀ c, set_c_active 0 C'.[c] = set_c_active 0 C.[c].

Lemma chans_ok_same C C' : chans_ok C → chans_same C C' → chans_ok C'.
Proof.
  intros H E c. destruct (H c) as [Hd Hm]. specialize (E c). destruct C'.[c], C.[c]. simplify_eq/=. by split.
Qed.

Lemma wp_inv_free_destroy s hold L U G o (Q : Z → unit → KState → Prop) :
  Inv s hold L U G → 0 ≤ o < k_obj_next s → hold o = [] → LPool ∉ k_locks s →
  (∀ r I next R rn bm ow fc C, let s' := killed o I next R rn (arena bm ow fc (set_k_channels C s)) in
     Inv s' hold L U G → chans_same (k_channels s) C → Q r tt s') →
  wp (cap_object_free_resources o) (λ r s1, wp (cap_object_destroy o) (Q r) s1) s.
Proof.
  intros HI Ho Hnil Hl HQ. unfold wp at 1, cap_object_free_resources. pose proof (inv_chans HI) as HC.
  assert (∀ bm ow fc C r, others_keep s o bm ow → chans_same (k_channels s) C →
            wp (cap_object_destroy o) (Q r) (arena bm ow fc (set_k_channels C s))) as Hgo.
  { intros bm ow fc C r Hk HC'. eapply wp_object_destroy_gen; try done; [by eapply chans_ok_same|].
    intros. by apply HQ. }
  destruct (Z.eqb_spec (o_kind (object o s)) CAP_OBJ_KIND_MEM) as [Ek|Ek].
  - destruct (free_owned_spec o s) as (bm & ow & fc & -> & Hf).
    replace (arena bm ow fc s) with (arena bm ow fc (set_k_channels (k_channels s) s)) by (by destruct s).
    apply Hgo; [|done]. intros o' f _ Hne Hr Hu Eo. destruct (Hf f Hr) as [-> ->].
    rewrite Eo. replace (o' =? o) with false by lia. by rewrite Hu.
  - destruct ((o_kind (object o s) =? CAP_OBJ_KIND_CHAN) && (o_chan_id (object o s) <? CAP_CHAN_MAX)).
    + set (c := o_chan_id (object o s)).
      set (C := (k_channels s).[c <- set_c_active 0 (channel c s)]).
      replace (upd_channel c (set_c_active 0) s) with
        (arena (k_arena_bitmap s) (k_arena_owner s) (k_arena_free s) (set_k_channels C s)) by (by destruct s).
      apply Hgo; [apply others_keep_refl|]. intros x. unfold C. rewrite aget_upd.
      by destruct (Z.eqb_spec c x) as [<-|].
    + rewrite <-(arena_chans_id s). apply Hgo; [apply others_keep_refl|done].
Qed.

(** * Arena frames of a memory object *)

(** Frames change hands without touching those of a live object. *)
Lemma inv_arena s hold L U G bm ow fc :
  Inv s hold L U G →
  (∀ o f, live_mem (k_objects s) (k_obj_next s) o → 0 ≤ f < CAP_ARENA_FRAMES →
     arena_used (k_arena_bitmap s) f = true → (k_arena_owner s).[f] = o →
     arena_used bm f = true ∧ ow.[f] = o) →
  Inv (arena bm ow fc s) hold L U G.
Proof.
  intros [Hho Hp Hs Hob Hci Hch Hpa Hm Hir Hmr] Hk. split; try done. destruct Hm as [H1 H2 H3 H4]. split; try done.
  intros o Ho. destruct (H3 o Ho) as [(st & B & P & S1 & S2 & Hf)|He]; [left|by right].
  exists st. split_and!; try done. intros f Hfr. destruct (Hf f Hfr) as [Hu Hw].
  apply Hk; try done. unfold arena in Hfr. kred_in Hfr. lia.
Qed.

(** Everything of an object but its region and permission ceiling. *)
Definition obj_rest (ob : CapObject) :=
  (o_id ob, o_kind ob, o_revoking ob, o_active ob, o_holder_head ob, o_refcount ob, o_chan_id ob).

(** A live memory object gets its region. *)
Lemma inv_mem_fields s hold L U G o ob :
  Inv s hold L U G → live_mem (k_objects s) (k_obj_next s) o →
  obj_rest ob = obj_rest (object o s) →
  0 ≤ o_npages ob → 0 ≤ o_phys_base ob → o_phys_base ob + o_npages ob * 4096 ≤ 2 ^ 32 →
  (arena_region (k_arena_base s) (k_arena_bitmap s) (k_arena_owner s) o ob ∨
   external_region (k_arena_base s) ob) →
  (∀ x a, live_mem (k_objects s) (k_obj_next s) x → x ≠ o →
     in_region (object x s) a → in_region ob a → False) →
  Inv (set_k_objects (k_objects s).[o <- ob] s) hold L U G.
Proof.
  intros [[fr Hok] Hp (tf & Hs & Hl) Hob Hci Hch Hpa Hm Hir Hmr] Ho Hrest R1 R2 R3 Hreg Hdis.
  assert (∀ x, (k_objects s).[o <- ob].[x] = if o =? x then ob else (k_objects s).[x]) as EO
    by (intros; apply aget_upd).
  unfold obj_rest, object in Hrest. injection Hrest as E1 E2 E3 E4 E5 E6 E7.
  assert (∀ x, o_id (k_objects s).[o <- ob].[x] = o_id (k_objects s).[x] ∧
               o_kind (k_objects s).[o <- ob].[x] = o_kind (k_objects s).[x] ∧
               o_revoking (k_objects s).[o <- ob].[x] = o_revoking (k_objects s).[x] ∧
               o_active (k_objects s).[o <- ob].[x] = o_active (k_objects s).[x] ∧
               o_holder_head (k_objects s).[o <- ob].[x] = o_holder_head (k_objects s).[x] ∧
               o_refcount (k_objects s).[o <- ob].[x] = o_refcount (k_objects s).[x] ∧
               o_chan_id (k_objects s).[o <- ob].[x] = o_chan_id (k_objects s).[x]) as EF.
  { intros x. rewrite EO. destruct (Z.eqb_spec o x) as [<-|]; [|done]. by rewrite E1, E2, E3, E4, E5, E6, E7. }
  split; kred; try done.
  - exists fr. destruct Hok as [F1 F2 F3 F4 F5 F6 F7 F8 F9 F10]. split; try done; kred; intros x Hx;
      destruct (EF x) as (_ & _ & Q1 & _ & Q2 & Q3 & _); rewrite ?Q1, ?Q2, ?Q3; auto.
  - exists tf. split; [done|]. eapply links_ok_ext; [exact Hl|done|done|done| |done].
    intros x _. destruct (EF x) as (_ & _ & -> & -> & _). done.
  - destruct Hob as [H1 H2 H3 H4 H5 H6]. split; try done; intros x;
      destruct (EF x) as (Q1 & Q2 & Q3 & Q4 & _ & _ & Q5); rewrite ?Q1, ?Q2, ?Q3, ?Q4, ?Q5; auto.
  - assert (∀ c, chan_used (k_objects s).[o <- ob] (k_obj_next s) c ↔ chan_used (k_objects s) (k_obj_next s) c) as Hu.
    { intros c. split; intros (x & Hx); exists x; destruct (EF x) as (_ & Q1 & _ & Q2 & _ & _ & Q3);
        rewrite ?Q1, ?Q2, ?Q3 in *; done. }
    destruct Hci as [H1 H2 H3 H4 H5 H6]. split; try done.
    + intros c Hc%Hu. auto.
    + intros x y. destruct (EF x) as (_ & -> & _ & -> & _ & _ & ->), (EF y) as (_ & -> & _ & -> & _ & _ & ->). auto.
    + intros i Hi. rewrite Hu. auto.
  - assert (∀ x, live_mem (k_objects s).[o <- ob] (k_obj_next s) x → live_mem (k_objects s) (k_obj_next s) x) as Hlm.
    { intros x (Hx & Hxa). destruct (EF x) as (_ & Q1 & _ & Q2 & _). rewrite Q1, Q2 in Hxa. done. }
    destruct Hm as [H1 H2 H3 H4]. split; [done|intros x..].
    + intros Hx%Hlm. rewrite EO. destruct (Z.eqb_spec o x) as [<-|]; auto.
    + intros Hx%Hlm. rewrite EO. destruct (Z.eqb_spec o x) as [<-|]; auto.
    + intros y a Hx%Hlm Hy%Hlm Hxy. rewrite !EO.
      destruct (Z.eqb_spec o x) as [<-|Hne], (Z.eqb_spec o y) as [<-|Hne']; [done|..].
      * intros Ha Ha'. by apply (Hdis y a).
      * intros Ha Ha'. by apply (Hdis x a).
      * by apply H4.
  - apply (irqs_ok_mono (k_objects s) (k_obj_next s)); [|done]. intros c (x & Hx). exists x.
    destruct (EF x) as (_ & -> & _ & -> & _ & _ & ->). done.
Qed.

Lemma wp_inv_clear_destroy {B} s hold L U G o st np (k : unit → M B) (Q : B → KState → Prop) :
  Inv s hold L U G → 0 ≤ o < k_obj_next s → hold o = [] → LPool ∉ k_locks s → 0 ≤ np →
  (∀ f, in_run st np f = true → (k_arena_owner s).[f] = o) →
  (∀ I next R rn bm ow fc C, let s' := killed o I next R rn (arena bm ow fc (set_k_channels C s)) in
     Inv s' hold L U G → wp (k tt) Q s') →
  wp (arena_clear_run st np) (λ _ s1, wp (bind (cap_object_destroy o) k) Q s1) s.
Proof.
  intros HI Ho Hnil Hl Hnp Hown HQ. unfold arena_clear_run. rewrite wp_modify.
  destruct (arena_clear_run_spec s (Z.to_nat np) st) as (bm & ow & fc & -> & Hb & Hw).
  rewrite Z2Nat.id in Hb, Hw by done. rewrite wp_bind.
  replace (arena bm ow fc s) with (arena bm ow fc (set_k_channels (k_channels s) s)) by (by destruct s).
  eapply wp_object_destroy_gen; try done; [|exact (inv_chans HI)|].
  - intros o' f _ Hne Hr Hu Eo. rewrite Hb, Hw, Hu. destruct (in_run st np f) eqn:E; [|done].
    rewrite (Hown f E) in Eo. done.
  - intros. by apply HQ.
Qed.

Lemma wp_inv_free_destroy_k {B} s hold L U G o (k : Z → unit → M B) (Q : B → KState → Prop) :
  Inv s hold L U G → 0 ≤ o < k_obj_next s → hold o = [] → LPool ∉ k_locks s →
  (∀ r I next R rn bm ow fc C, let s' := killed o I next R rn (arena bm ow fc (set_k_channels C s)) in
     Inv s' hold L U G → chans_same (k_channels s) C → wp (k r tt) Q s') →
  wp (cap_object_free_resources o) (λ r s1, wp (bind (cap_object_destroy o) (k r)) Q s1) s.
Proof.
  intros HI Ho Hnil Hl HQ.
  eapply wp_mono; [apply (wp_inv_free_destroy s hold L U G o (λ r _ s', wp (k r tt) Q s')); done|].
  intros r s1 Hw. rewrite wp_bind. eapply wp_mono; [exact Hw|]. by intros [] s2.
Qed.
