(* ===== verification/CapCreateInv.v ===== *)
(** [cap_create_mem], [cap_arena_alloc] and [cap_chan_create] keep the invariant,
    on every path, and never fault. *)

From stdpp Require Import base gmap list list_numbers.
From Stdlib Require Import ZArith Lia Bool.
From S2P Require Import Prelude FramePool CapWord Sidecar CapState CapPools CapOps CapMsg Wp.
From S2P Require Import HolderSpec CapInv ArenaSpec CapInvPools CapInvObj.
#[local] Open Scope Z_scope.
#[local] Open Scope carr_scope.
#[local] Open Scope cap_scope.
#[local] Opaque Z.to_nat Z.div Z.modulo.

(** * Shared steps *)

Lemma quiet_kill o I next R rn s : quiet s → quiet (killed o I next R rn s).
Proof.
  intros Hq x Hx. unfold killed, object. kred. rewrite aget_upd.
  destruct (Z.eqb_spec o x) as [<-|]; [done|]. by apply Hq.
Qed.

Lemma quiet_new ob s : quiet s → o_revoking ob = 0 → quiet (with_obj ob s).
Proof.
  intros Hq Hr x Hx. unfold with_obj, object. kred. rewrite aget_upd.
  destruct (Z.eqb_spec (k_obj_next s) x) as [<-|Hne]; [done|]. apply Hq.
  unfold with_obj in Hx. kred_in Hx. lia.
Qed.

Lemma quiet_locks l s : quiet s → quiet (set_k_locks l s).
Proof. done. Qed.

Lemma inv_locks l s hold L U G : Inv s hold L U G → Inv (set_k_locks l s) hold L U G.
Proof. done. Qed.

(** A node for a slot in hand: allocated and linked, not yet attached. *)
Lemma wp_inv_holder_insert_why o pid i q s hold L U (Q : Z → KState → Prop) :
  Inv s hold L U [] → LPool ∉ k_locks s → 0 ≤ o < k_obj_next s →
  o_active (object o s) = 1 → o_revoking (object o s) = 0 →
  (k_holder_free s = CAP_FREELIST_END → Q (-1) s) →
  (∀ h H' f' O', let s' := hp H' f' O' s in let hold' := hold_upd hold o (h :: hold o) in
     metas (k_objects s) O' → slot_key H' h pid i → Inv s' hold' L U [h] → Q 0 s') →
  wp (cap_holder_insert o HOLDER_SLOT pid i q) Q s.
Proof.
  intros HI Hl Ho Ha Hr Hfail HQ. unfold cap_holder_insert. rewrite wp_bind.
  eapply wp_inv_holder_alloc_why; [exact HI|done|by rewrite wp_ret|].
  intros h H1 f1 s1 Hhr Hhf HhL Eh Hoth HI1. rewrite wp_bind.
  eapply (wp_inv_holder_link h o s1 hold [] L U []); try done.
  - unfold holder, s1. cbn. by rewrite Eh.
  - unfold holder, s1. cbn. by rewrite Eh.
  - intros H2 O2 s2 Hkey Hm Hoth2 HI2. rewrite wp_ret.
    apply (HQ h H2 f1 O2); try done.
    apply (slot_key_ext H1); [apply Hkey|]. unfold slot_key. rewrite Eh. done.
Qed.

Lemma wp_inv_holder_insert o pid i q s hold L U (Q : Z → KState → Prop) :
  Inv s hold L U [] → LPool ∉ k_locks s → 0 ≤ o < k_obj_next s →
  o_active (object o s) = 1 → o_revoking (object o s) = 0 →
  Q (-1) s →
  (∀ h H' f' O' hold', let s' := hp H' f' O' s in
     metas (k_objects s) O' → h ∈ hold' o → slot_key H' h pid i → Inv s' hold' L U [h] → Q 0 s') →
  wp (cap_holder_insert o HOLDER_SLOT pid i q) Q s.
Proof.
  intros HI Hl Ho Ha Hr Hfail HQ. eapply wp_inv_holder_insert_why; try done.
  intros h H' f' O' s' hold' Hm Hk HI'. apply (HQ h H' f' O' hold'); try done. unfold hold'. rewrite hold_upd_eq. mem.
Qed.

(** Writing the word of a slot in hand and attaching its node. *)
Lemma wp_inv_fill_slot o pid ti i w h s hold L U (Q : unit → KState → Prop) :
  Inv s hold L ((ti, i) :: U) [h] → table_of (k_table_pid s) pid ti → 0 ≤ i < CAP_TABLE_ENTRIES →
  h ∈ hold o → slot_key (k_holders s) h pid i →
  cap_word_valid w = true → 0 ≤ w < 2 ^ 64 → w_obj w = o → w_type w ≠ CAP_TYPE_IRQ →
  (∀ T', let s' := set_k_tables T' s in
     tab_frame (k_tables s) T' ti i → slot ti i s' = w → Inv s' hold L U [] → Q tt s') →
  wp (set_slot ti i w) Q s.
Proof.
  intros HI Hti Hi Hh Hk Hv Hw Ho Hty HQ. apply wp_set_slot; [done|].
  assert (slot ti i (set_k_tables (tab_upd (k_tables s) ti i w (t_freelist_head (table ti s))) s) = w) as Es
    by apply tab_upd_slot_eq.
  apply HQ; [apply tab_upd_frame|done|].
  apply (inv_attach_slot _ hold L [] U [] h o pid ti i); rewrite ?Es; try done; try apply not_elem_of_nil.
  apply inv_set_slot; [done|mem].
Qed.

Lemma word_make_ok ty o p f l :
  0 < ty < 2 ^ 3 → 0 ≤ o < CAP_OBJECT_MAX →
  let w := cap_word_make ty o p f l in
  cap_word_valid w = true ∧ 0 ≤ w < 2 ^ 64 ∧ w_obj w = o ∧ w_type w = ty.
Proof.
  intros Ht Ho w. destruct (cap_word_make_fields ty o p f l) as (E1 & _ & E3 & _).
  fold w in E1, E3. rewrite land_mask_small in E1, E3 by (unfold CAP_OBJECT_MAX in *; lia).
  split_and!; try done; [by apply cap_word_make_valid|apply cap_word_make_range..].
Qed.

Lemma table_of_bound P pid ti : table_of P pid ti → 0 < ti → P.[ti] ≠ 0.
Proof. intros (_ & -> & H) Hti ->. specialize (H eq_refl). lia. Qed.

Lemma kernel_ok_inv s : kernel_ok s → ∃ hold, Inv s hold [] [] [] ∧ quiet s ∧ k_locks s = [].
Proof. intros ([hold HI] & Hq & Hl). eauto. Qed.

Lemma kernel_ok_intro s hold : Inv s hold [] [] [] → quiet s → k_locks s = [] → kernel_ok s.
Proof. intros. split; eauto. Qed.

(** [l ∉ k_locks s] for a state whose lock stack is given by [H]. *)
Ltac states := repeat match goal with x := _ : KState |- _ => subst x end.
Ltac kst := states; unfold hp, killed, cids, arena, with_obj; kred.
Ltac lk H :=
  kst; unfold hp, killed, cids, arena, with_obj in H; kred_in H; rewrite ?H; rewrite ?not_elem_of_cons; repeat split;
  first [apply not_elem_of_nil | discriminate | congruence].

(** Release the lock on top of the stack. *)
Ltac unlock H :=
  states; unfold hp, killed, cids, arena, with_obj in H; kred_in H; rewrite wp_cap_unlock; kred;
  unfold hp, killed, cids, arena, with_obj; kred; rewrite ?H; rewrite lock_drop_head by lk H.

(** Closing a proof at a system-call boundary. *)
Ltac finish_ok := eapply kernel_ok_intro; [eassumption| |].

(** * Giving a caller a slot *)

(** The common end of [cap_create_mem] and [cap_arena_alloc]. *)
Definition grant_slot (ti o pid w : Z) (fail : Z → M (Z * Z)) : M (Z * Z) :=
  do* cap_lock (LTable ti);
  let* sl := cap_slot_pop ti in
  match sl with
  | None => do* cap_unlock (LTable ti); fail CAP_ETABLEFULL
  | Some idx =>
      do* cap_lock (LObj o);
      let* e := cap_holder_insert o HOLDER_SLOT (u16 pid) idx 0 in
      if negb (e =? 0) then
        do* cap_slot_push ti idx;
        do* cap_unlock (LObj o);
        do* cap_unlock (LTable ti);
        fail CAP_ENOMEM
      else
        do* set_slot ti idx w;
        do* cap_unlock (LObj o);
        do* cap_unlock (LTable ti);
        ret (0, idx)
  end.

(** No page of any process was mapped or unmapped, and no hook called. *)
Definition maps_kept (s s' : KState) : Prop :=
  (∀ tj, t_maps (table tj s') = t_maps (table tj s)) ∧ k_trace s' = k_trace s.

(** A free slot of table [ti] now holds [w] and object [o] has one more holder;
    every other slot is as it was. *)
Record granted (ti i o w : Z) (s s' : KState) : Prop := {
  gr_range : 0 ≤ i < CAP_TABLE_ENTRIES;
  gr_was : w_type (slot ti i s) = CAP_TYPE_NONE;
  gr_slot : slot ti i s' = w;
  gr_frame : ∀ tj j, (tj, j) ≠ (ti, i) → slot tj j s' = slot tj j s;
  gr_metas : metas (k_objects s) (k_objects s');
  gr_ref : o_refcount (object o s') = o_refcount (object o s) + 1;
  gr_next : k_obj_next s' = k_obj_next s;
  gr_pids : k_table_pid s' = k_table_pid s;
  gr_arena : k_arena_base s' = k_arena_base s ∧ k_arena_bitmap s' = k_arena_bitmap s ∧ k_arena_owner s' = k_arena_owner s;
  gr_channels : k_channels s' = k_channels s;
  gr_maps : maps_kept s s'
}.

Record not_granted (s s' : KState) : Prop := {
  ng_quiet : quiet s';
  ng_locks : k_locks s' = [];
  ng_objects : k_objects s' = k_objects s;
  ng_next : k_obj_next s' = k_obj_next s;
  ng_arena : k_arena_base s' = k_arena_base s ∧ k_arena_bitmap s' = k_arena_bitmap s ∧ k_arena_owner s' = k_arena_owner s
}.

(** Why a slot could not be given. *)
Definition no_room (ti e : Z) (s : KState) : Prop :=
  e = CAP_ETABLEFULL ∧ t_freelist_head (table ti s) = CAP_FREELIST_END ∨
  e = CAP_ENOMEM ∧ k_holder_free s = CAP_FREELIST_END.

Lemma wp_grant_slot ti o pid w fail s hold (Q : Z * Z → KState → Prop) :
  Inv s hold [] [] [] → quiet s → k_locks s = [] → table_of (k_table_pid s) pid ti → 0 ≤ pid < 2 ^ 16 →
  0 ≤ o < k_obj_next s → o_active (object o s) = 1 → o_revoking (object o s) = 0 →
  cap_word_valid w = true → 0 ≤ w < 2 ^ 64 → w_obj w = o → w_type w ≠ CAP_TYPE_IRQ →
  (∀ e s', no_room ti e s → Inv s' hold [] [] [] → not_granted s s' → wp (fail e) Q s') →
  (∀ i s', kernel_ok s' → granted ti i o w s s' → Q (0, i) s') →
  wp (grant_slot ti o pid w fail) Q s.
Proof.
  intros HI Hq Hl Hti Hpid Ho Ha Hr Hv Hw Hwo Hty Hfail HQ. destruct (inv_hold HI) as [fr0 Hok0].
  pose proof (ho_ref Hok0 o Ho Hr) as Href.
  unfold grant_slot. rewrite wp_bind, wp_cap_lock by lk Hl. rewrite wp_bind.
  set (s1 := set_k_locks _ s). assert (k_locks s1 = [LTable ti]) as Hl1 by (unfold s1; kred; by rewrite Hl).
  eapply (wp_slot_pop_why ti s1 hold [] [] []); [exact HI|apply Hti|by apply (table_of_bound _ pid)|..].
  { intros Hend. rewrite wp_bind, wp_cap_unlock, Hl1, lock_drop_head by apply not_elem_of_nil.
    apply Hfail; [by left|exact HI|by split]. }
  intros i T2 s2 Hi _ Hwas [F2 M2] Hs0 HI2. assert (k_locks s2 = [LTable ti]) as Hl2 by exact Hl1.
  rewrite wp_bind, wp_cap_lock by lk Hl2. rewrite wp_bind.
  set (s3 := set_k_locks _ s2). assert (k_locks s3 = [LObj o; LTable ti]) as Hl3 by (unfold s3; kred; by rewrite Hl2).
  eapply (wp_inv_holder_insert_why o (u16 pid) i 0 s3); [exact HI2|lk Hl3|done|done|done|..].
  { intros Hend. change (negb (-1 =? 0)) with true. cbv iota. rewrite wp_bind.
    eapply (wp_slot_push ti i s3 hold [] [] [] []); [exact HI2|].
    intros T4 s4 _ _ HI4. assert (k_locks s4 = [LObj o; LTable ti]) as Hl4 by exact Hl3.
    rewrite wp_bind, wp_cap_unlock, Hl4, lock_drop_head, wp_bind, wp_cap_unlock by lk Hl4.
    change (k_locks (set_k_locks [LTable ti] s4)) with [LTable ti]. rewrite lock_drop_head by apply not_elem_of_nil.
    apply Hfail; [by right|exact HI4|by split]. }
  intros h H4 f4 O4 s4 hold4 Hm4 Hk4 HI4. change (negb (0 =? 0)) with false. cbv iota. rewrite wp_bind.
  eapply (wp_inv_fill_slot o pid ti i w h s4 hold4); [exact HI4|exact Hti|done| | |done|done|done|done|].
  { unfold hold4. rewrite hold_upd_eq. mem. }
  { by rewrite u16_small in Hk4 by done. }
  intros T5 s5 [F5 M5] E5 HI5. assert (k_locks s5 = [LObj o; LTable ti]) as Hl5 by exact Hl3.
  rewrite wp_bind, wp_cap_unlock, Hl5, lock_drop_head, wp_bind, wp_cap_unlock by lk Hl5.
  change (k_locks (set_k_locks [LTable ti] s5)) with [LTable ti]. rewrite lock_drop_head, wp_ret by apply not_elem_of_nil.
  apply HQ.
  { apply (kernel_ok_intro _ hold4); [exact HI5|by apply (quiet_metas s)|done]. }
  split; try done.
  - intros tj j Hne. change (tslot T5 tj j = slot tj j s). rewrite F5 by done. by apply (F2 tj j).
  - change (o_refcount O4.[o] = o_refcount (object o s) + 1). destruct (inv_hold HI5) as [fr5 Hok5].
    assert (o_revoking O4.[o] = 0) as Hr4 by (by destruct (metas_fields _ _ o Hm4) as (_ & _ & -> & _)).
    pose proof (ho_ref Hok5 o Ho Hr4) as Href5. unfold hold4 in Href5. rewrite hold_upd_eq in Href5. simpl length in Href5.
    change (o_refcount (k_objects s5).[o]) with (o_refcount O4.[o]) in Href5. unfold object. lia.
  - split; [|done]. intros tj. destruct (M2 tj) as [E2 _], (M5 tj) as [E5' _]. unfold table. etrans; [exact E5'|exact E2].
Qed.

(** * cap_create_mem *)

Lemma u64_nowrap a b : 0 ≤ a < 2 ^ 64 → 0 ≤ b ≤ 2 ^ 32 → a < u64 (a + b) → u64 (a + b) = a + b.
Proof.
  intros Ha Hb. unfold u64. destruct (Z.lt_ge_cases (a + b) (2 ^ 64)) as [Hlt|Hge].
  - intros _. apply Z.mod_small. lia.
  - replace (a + b) with ((a + b - 2 ^ 64) + 1 * 2 ^ 64) by lia. rewrite Z_mod_plus_full, Z.mod_small by lia. lia.
Qed.

(** A view that passed the checks overlaps no live memory object. *)
Lemma no_mem_overlap s hold L U G phys fin o a :
  Inv s hold L U G → any_mem_overlap phys fin s = false → live_mem (k_objects s) (k_obj_next s) o →
  in_region (object o s) a → phys ≤ a < fin → False.
Proof.
  intros HI Hno (Hor & Ha & Hk) Hin Hr. pose proof (oo_n _ _ _ (inv_objs HI)) as Hn.
  unfold any_mem_overlap in Hno. destruct (find_up _ _ _) eqn:E; [done|]. rewrite find_up_None in E.
  specialize (E o ltac:(unfold CAP_OBJECT_MAX in *; lia)). unfold mem_overlaps in E. unfold object in *.
  rewrite Ha, Hk in E. simpl in E.
  destruct (mm_size _ _ _ _ _ (inv_mems HI) o) as (S1 & S2 & S3); [done|].
  unfold in_region in Hin. rewrite u64_small in E by lia. lia.
Qed.

Lemma create_mem_region s hold phys np :
  Inv s hold [] [] [] → 0 ≤ phys → phys + np * 4096 ≤ 2 ^ 32 → 0 ≤ np →
  any_mem_overlap phys (phys + np * 4096) s = false →
  negb (k_arena_base s =? 0) && (phys <? k_arena_base s + CAP_ARENA_SIZE) &&
    (k_arena_base s <? phys + np * 4096) = false →
  ∀ ob, o_phys_base ob = phys → o_npages ob = np →
  external_region (k_arena_base s) ob ∧
  ∀ o a, live_mem (k_objects s) (k_obj_next s) o → in_region (object o s) a → in_region ob a → False.
Proof.
  intros HI Hp Hf Hnp Hov Har ob Eb En. split.
  - intros a Ha Hb. unfold in_region in Ha. rewrite Eb, En in Ha. lia.
  - intros o a Ho Ha Ha'. unfold in_region in Ha'. rewrite Eb, En in Ha'.
    by eapply (no_mem_overlap s hold [] [] []).
Qed.

Lemma land_page v : Z.land v 0xFFF = v mod 4096.
Proof. change 0xFFF with (Z.ones 12). by rewrite Z.land_ones. Qed.

(** The view's pages overlap no live memory object's. *)
Lemma any_overlap_spec s hold L U G phys fin :
  Inv s hold L U G →
  any_mem_overlap phys fin s = false ↔
  ∀ o, live_mem (k_objects s) (k_obj_next s) o →
    fin ≤ o_phys_base (object o s) ∨ o_phys_base (object o s) + o_npages (object o s) * 4096 ≤ phys.
Proof.
  intros HI. pose proof (oo_n _ _ _ (inv_objs HI)) as Hn. unfold any_mem_overlap.
  assert (∀ o, live_mem (k_objects s) (k_obj_next s) o →
    mem_overlaps phys fin (object o s) = false ↔
    fin ≤ o_phys_base (object o s) ∨ o_phys_base (object o s) + o_npages (object o s) * 4096 ≤ phys) as Hone.
  { intros o Ho. pose proof Ho as (_ & Ha & Hk). destruct (mm_size _ _ _ _ _ (inv_mems HI) o Ho) as (S1 & S2 & S3).
    unfold mem_overlaps. unfold object in *. rewrite Ha, Hk. simpl. rewrite u64_small by lia.
    rewrite andb_false_iff, !Z.ltb_ge. lia. }
  split.
  - intros Hno o Ho. apply Hone; [done|]. destruct (find_up _ _ _) eqn:E; [done|]. rewrite find_up_None in E.
    apply E. destruct Ho as (Ho & _). unfold CAP_OBJECT_MAX in *. lia.
  - intros Hall. destruct (find_up _ _ _) as [o|] eqn:E; [|done]. apply find_up_Some in E as (Hr & E & _).
    assert (live_mem (k_objects s) (k_obj_next s) o) as Ho.
    { unfold mem_overlaps in E. destruct (o_active (object o s) =? 0) eqn:E1; [done|]. apply Z.eqb_neq in E1.
      destruct (o_kind (object o s) =? CAP_OBJ_KIND_MEM) eqn:E2; [|done]. apply Z.eqb_eq in E2.
      destruct (oo_active _ _ _ (inv_objs HI) o) as [|Ea]; [done|]. split; [|done].
      destruct (Z.lt_ge_cases o (k_obj_next s)) as [|Hge%(oo_beyond _ _ _ (inv_objs HI))]; [lia|congruence]. }
    by rewrite (proj2 (Hone o Ho) (Hall o Ho)) in E.
Qed.

Section CreateMem.
Context `{CE : CapEnv}.

(** The views [cap_create_mem] accepts: whole pages above 1 MiB and below 4 GiB, off
    the kernel image, off the arena and off every live memory object. *)
Record view_ok (phys np perm : Z) (s : KState) : Prop := {
  vo_pages : 1 ≤ np ≤ CAP_VIEW_MAX_PAGES;
  vo_perm : bad_perm perm = false;
  vo_align : phys mod 4096 = 0;
  vo_range : 0x100000 ≤ phys ∧ phys + np * 4096 ≤ 2 ^ 32;
  vo_image : kernel_image_end ≤ phys;
  vo_arena : k_arena_base s = 0 ∨ k_arena_base s + CAP_ARENA_SIZE ≤ phys ∨ phys + np * 4096 ≤ k_arena_base s;
  vo_apart : ∀ o, live_mem (k_objects s) (k_obj_next s) o →
    phys + np * 4096 ≤ o_phys_base (object o s) ∨
    o_phys_base (object o s) + o_npages (object o s) * 4096 ≤ phys
}.

(** A new memory object under the next id, and its capability in a slot that was free. *)
Record mem_created (pid phys np perm : Z) (s : KState) (i : Z) (s' : KState) (ti o : Z) : Prop := {
  mc_table : table_of (k_table_pid s') pid ti;
  mc_fresh : o = k_obj_next s ∧ k_obj_next s' = o + 1;
  mc_slot : 0 ≤ i < CAP_TABLE_ENTRIES ∧ w_type (slot ti i s) = CAP_TYPE_NONE ∧
    slot ti i s' = cap_word_make CAP_TYPE_MEM o perm 0 np;
  mc_others : ∀ tj j, (tj, j) ≠ (ti, i) → slot tj j s' = slot tj j s;
  mc_object : let ob := object o s' in o_active ob = 1 ∧ o_kind ob = CAP_OBJ_KIND_MEM ∧ o_phys_base ob = phys ∧
    o_npages ob = np ∧ o_max_perms ob = perm ∧ o_refcount ob = 1;
  mc_maps : maps_kept s s'
}.

(** A table or a pool has nothing left. *)
Definition exhausted (pid : Z) (s : KState) : Prop :=
  no_table pid s ∨ CAP_OBJECT_MAX ≤ k_obj_next s ∨ k_holder_free s = CAP_FREELIST_END ∨
  ∃ ti, 0 ≤ ti < CAP_TABLE_MAX ∧ t_freelist_head (table ti s) = CAP_FREELIST_END.

Inductive create_outcome (pid phys np perm : Z) (s : KState) (r : Z * Z) (s' : KState) : Prop :=
| create_refused : ¬ view_ok phys np perm s → fst r ∈ [CAP_EINVAL; CAP_ERANGE; CAP_ECONFLICT] → s' = s →
    create_outcome pid phys np perm s r s'
| create_exhausted : view_ok phys np perm s → exhausted pid s → fst r ∈ [CAP_ETABLEFULL; CAP_ENOMEM] →
    create_outcome pid phys np perm s r s'
| create_done i ti o : view_ok phys np perm s → r = (0, i) → mem_created pid phys np perm s i s' ti o →
    create_outcome pid phys np perm s r s'.

(** A grant of a fresh memory object is a creation. *)
Lemma granted_created s s2 s3 ti i o pid phys np perm ob :
  (∀ tj j, slot tj j s2 = slot tj j s) → maps_kept s s2 → k_obj_next s = o → k_obj_next s2 = o + 1 → table_of (k_table_pid s2) pid ti →
  object o s2 = ob → o_active ob = 1 → o_kind ob = CAP_OBJ_KIND_MEM → o_phys_base ob = phys → o_npages ob = np →
  o_max_perms ob = perm → o_refcount ob = 0 → granted ti i o (cap_word_make CAP_TYPE_MEM o perm 0 np) s2 s3 →
  mem_created pid phys np perm s i s3 ti o.
Proof.
  intros Hsl [Hm Ht] En0 En Hti Eo Ha Hk Hp Hnp Hpm Hr [G1 G2 G3 G4 G5 G6 G7 G8 G9 G10 [Hm' Ht']].
  destruct (metas_fields _ _ o G5) as (_ & M1 & _ & M2 & M3 & M4 & _).
  assert (o_max_perms (k_objects s3).[o] = o_max_perms (k_objects s2).[o]) as M5
    by (specialize (G5 o); unfold ometa in G5; congruence).
  split; [by rewrite G8|by rewrite G7| | | |split; [intros tj; by rewrite Hm'|by rewrite Ht']].
  - by rewrite <-Hsl.
  - intros tj j Hne. by rewrite <-Hsl, G4.
  - change (k_objects s2).[o] with (object o s2) in *. change (k_objects s3).[o] with (object o s3) in *.
    cbv zeta. rewrite M1, M2, M3, M4, M5, G6, Eo. do 5 (split; [done|]). by rewrite Hr.
Qed.

Lemma create_mem_ok pid phys np perm s :
  kernel_ok s → 0 ≤ pid < 2 ^ 16 → 0 ≤ phys < 2 ^ 64 → 0 ≤ np →
  wp (cap_create_mem pid phys np perm) (λ r s', kernel_ok s' ∧ create_outcome pid phys np perm s r s') s.
Proof.
  intros Hs Hpid Hphys Hnp. pose proof Hs as (hold & HI & Hq & Hl)%kernel_ok_inv. unfold cap_create_mem. cbv zeta.
  assert (∀ e, ¬ view_ok phys np perm s → e ∈ [CAP_EINVAL; CAP_ERANGE; CAP_ECONFLICT] →
    kernel_ok s ∧ create_outcome pid phys np perm s (e, CAP_NONE) s) as Href.
  { intros e Hno He. split; [done|]. by apply create_refused. }
  destruct ((np =? 0) || (CAP_VIEW_MAX_PAGES <? np)) eqn:E1; [rewrite wp_ret; apply Href; [intros [[??] _ _ _ _ _ _]; lia|mem]|].
  destruct (bad_perm perm) eqn:Eb; [rewrite wp_ret; apply Href; [intros [_ ? _ _ _ _ _]; congruence|mem]|].
  rewrite land_page. destruct (Z.eqb_spec (phys mod 4096) 0) as [Eal|Hal]; cbn [negb];
    [|rewrite wp_ret; apply Href; [by intros [_ _ ? _ _ _ _]|mem]].
  apply orb_false_iff in E1 as [E0%Z.eqb_neq E1%Z.ltb_ge]. assert (np * 4096 ≤ 2 ^ 32) as Hsz by (unfold CAP_VIEW_MAX_PAGES in E1; lia).
  destruct ((u64 (phys + np * 4096) <=? phys) || (0x100000000 <? u64 (phys + np * 4096))) eqn:E2.
  { rewrite wp_ret. apply Href; [|mem]. intros [_ _ _ [R1 R2] _ _ _]. rewrite u64_small in E2 by lia. lia. }
  apply orb_false_iff in E2 as [E2%Z.leb_gt E3%Z.ltb_ge]. rewrite u64_nowrap in * by lia.
  destruct (_ || _) eqn:E6; [rewrite wp_ret; apply Href; [intros [_ _ _ ? ? _ _]; lia|mem]|]. rewrite wp_bind, wp_gets.
  destruct (negb _ && _ && _) eqn:E4; [rewrite wp_ret; apply Href; [intros [_ _ _ _ _ ? _]; lia|mem]|]. rewrite wp_bind, wp_gets.
  destruct (any_mem_overlap _ _ s) eqn:E5.
  { rewrite wp_ret. apply Href; [|mem]. intros [_ _ _ _ _ _ Hap]. apply (any_overlap_spec s hold [] [] []) in Hap; [congruence|done]. }
  assert (view_ok phys np perm s) as Hview.
  { split; try done; try lia. by apply (any_overlap_spec s hold [] [] []). }
  clear Href. rewrite wp_bind.
  eapply wp_table_index_why; [exact HI|done|intros; simpl; split; [done|apply create_exhausted; [done|by left|mem]]|].
  intros ti T1 P1 s1 HI1 Hti Hsl Hmp _ Hfl. replace (ti <? 0) with false by (symmetry; apply Z.ltb_ge, Hti).
  assert (∀ ob, o_phys_base ob = phys → o_npages ob = np →
    external_region (k_arena_base s1) ob ∧
    ∀ o a, live_mem (k_objects s1) (k_obj_next s1) o → in_region (object o s1) a → in_region ob a → False) as Hreg.
  { apply (create_mem_region s1 hold); try done; lia. }
  assert (k_locks s1 = []) as Hl1 by exact Hl.
  rewrite wp_bind. apply wp_object_alloc; [lk Hl1|lk Hl1|..]; intros Hmax.
  { rewrite wp_ret. split; [by finish_ok|]. apply create_exhausted; [done|by right; left|mem]. }
  unfold set_object. rewrite wp_bind, wp_modify, upd_with_obj.
  set (ob := set_o_npages _ _). set (o := k_obj_next s1) in *.
  pose proof (oo_n _ _ _ (inv_objs HI1)) as Hn.
  assert (Inv (with_obj ob s1) hold [] [] []) as HI2.
  { apply inv_new_object; try done. intros _. destruct (Hreg ob eq_refl eq_refl) as [R1 R2].
    split_and!; try done; simpl; lia || by right. }
  assert (quiet (with_obj ob s1)) as Hq2 by (by apply quiet_new).
  assert (hold o = []) as Hnil by (destruct (inv_hold HI1) as [fr Hok]; by eapply hold_beyond).
  assert (∀ tj j, slot tj j (with_obj ob s1) = slot tj j s) as Hsl2 by exact Hsl.
  assert (maps_kept s (with_obj ob s1)) as Hmk by (by split; [exact Hmp|]).
  set (s2 := with_obj ob s1) in *. assert (k_locks s2 = []) as Hl2 by exact Hl.
  assert (k_table_pid s2 = P1) as EP by done. assert (k_obj_next s2 = o + 1 ∧ k_obj_next s = o) as [En En0] by done.
  assert (k_holder_free s2 = k_holder_free s) as Ef by done.
  assert (object o s2 = ob) as Eo by apply aget_upd_eq.
  assert (0 ≤ o < CAP_OBJECT_MAX) as Ho by (split; [apply Hn|done]).
  assert (∀ tj, t_freelist_head (table tj s2) = t_freelist_head (table tj s)) as Hfl2 by exact Hfl.
  clear HI1 Hreg Hn Hl1 Hmax Hsl Hmp Hfl. clearbody s2 o.
  destruct (word_make_ok CAP_TYPE_MEM o perm 0 np) as (W1 & W2 & W3 & W4); [done|lia|].
  apply (wp_grant_slot ti o pid (cap_word_make CAP_TYPE_MEM o perm 0 np)
    (λ e, do* cap_object_destroy o; ret (e, CAP_NONE)) s2 hold); rewrite ?Eo, ?W4; try done; [by rewrite EP|lia|..].
  - intros e s3 Hroom HI3 [Hq3 Hl3 EO3 En3 _]. rewrite wp_bind.
    eapply (wp_inv_object_destroy _ hold [] [] []); [exact HI3|rewrite En3; lia|done|lk Hl3|].
    intros I nx R rn s4 HI4. rewrite wp_ret. split; [finish_ok; [by apply quiet_kill|done]|].
    apply create_exhausted; [done| |]; [|destruct Hroom as [[-> _]|[-> _]]; cbn; mem].
    right. right. destruct Hroom as [[_ Hroom]|[_ Hroom]]; [right; exists ti; split; [apply Hti|by rewrite <-Hfl2]|].
    left. by rewrite <-Ef.
  - intros i s3 Hs3 G. split; [done|]. apply (create_done _ _ _ _ _ _ _ i ti o); [done|done|].
    apply (granted_created s s2 s3 ti i o pid _ _ _ ob); try done; by rewrite EP.
Qed.

End CreateMem.

(** * cap_arena_alloc *)

(** The region of a fresh run is apart from every other memory object's. *)
Lemma arena_run_apart s hold L U G o ob st x a :
  Inv s hold L U G → live_mem (k_objects s) (k_obj_next s) x → x ≠ o →
  o_phys_base ob = k_arena_base s + st * 4096 → 0 ≤ st → st + o_npages ob ≤ CAP_ARENA_FRAMES →
  k_arena_base s ≠ 0 →
  (∀ f, in_run st (o_npages ob) f = true → (k_arena_owner s).[f] = o) →
  in_region (object x s) a → in_region ob a → False.
Proof.
  intros HI Hx Hne Hb Hst Hend Hbase Hown Ha Ha'. unfold in_region in Ha'. rewrite Hb in Ha'.
  destruct (mm_region _ _ _ _ _ (inv_mems HI) x Hx) as [(st' & _ & P & S1 & S2 & Hf)|He].
  - unfold in_region, object in Ha. rewrite P in Ha.
    set (f := (a - k_arena_base s) / 4096).
    assert (st' ≤ f < st' + o_npages (k_objects s).[x]) as Hr'.
    { unfold f. split; [apply Z.div_le_lower_bound|apply Z.div_lt_upper_bound]; lia. }
    assert (in_run st (o_npages ob) f = true) as Hr.
    { unfold in_run. rewrite andb_true_iff, Z.leb_le, Z.ltb_lt. unfold f.
      split; [apply Z.div_le_lower_bound|apply Z.div_lt_upper_bound]; lia. }
    destruct (Hf f Hr') as [_ Ho]. rewrite (Hown f Hr) in Ho. done.
  - specialize (He a Ha Hbase). unfold CAP_ARENA_SIZE, CAP_ARENA_FRAMES in *. lia.
Qed.

(** The run starting at [st] is the lowest free run of [np] frames. *)
Record lowest_run (bm : gmap Z Z) (np st : Z) : Prop := {
  lr_range : 0 ≤ st ∧ st + np ≤ CAP_ARENA_FRAMES;
  lr_free : ∀ f, st ≤ f < st + np → arena_used bm f = false;
  lr_first : ∀ lower, 0 ≤ lower < st → ∃ f, lower ≤ f < lower + np ∧ arena_used bm f = true
}.

(** Exactly the frames of the run are taken, for object [o]. *)
Record run_taken (s s' : KState) (np st o : Z) : Prop := {
  rt_used : ∀ f, arena_used (k_arena_bitmap s') f = in_run st np f || arena_used (k_arena_bitmap s) f;
  rt_owner : ∀ f, (k_arena_owner s').[f] = if in_run st np f then o else (k_arena_owner s).[f]
}.

Inductive alloc_outcome (pid np perm : Z) (s : KState) (r : Z * Z) (s' : KState) : Prop :=
| alloc_refused : np = 0 ∨ CAP_VIEW_MAX_PAGES < np ∨ bad_perm perm = true → r = (CAP_EINVAL, CAP_NONE) → s' = s →
    alloc_outcome pid np perm s r s'
| alloc_no_arena : k_arena_base s = 0 → r = (CAP_ENOMEM, CAP_NONE) → s' = s → alloc_outcome pid np perm s r s'
| alloc_exhausted : exhausted pid s → fst r ∈ [CAP_ETABLEFULL; CAP_ENOMEM] → alloc_outcome pid np perm s r s'
| alloc_no_run : (∀ st, 0 ≤ st → st + np ≤ CAP_ARENA_FRAMES → ∃ f, st ≤ f < st + np ∧ arena_used (k_arena_bitmap s) f = true) →
    r = (CAP_ENOSPC, CAP_NONE) → alloc_outcome pid np perm s r s'
| alloc_done i ti o st : r = (0, i) → lowest_run (k_arena_bitmap s) np st →
    mem_created pid (k_arena_base s + st * 4096) np perm s i s' ti o → run_taken s s' np st o →
    alloc_outcome pid np perm s r s'.

Section ArenaAlloc.
Context `{CE : CapEnv}.

Lemma arena_alloc_ok pid np perm s :
  kernel_ok s → 0 ≤ pid < 2 ^ 16 → 0 ≤ np →
  wp (cap_arena_alloc pid np perm) (λ r s', kernel_ok s' ∧ alloc_outcome pid np perm s r s') s.
Proof.
  intros Hs Hpid Hnp. pose proof Hs as (hold & HI & Hq & Hl)%kernel_ok_inv. unfold cap_arena_alloc.
  destruct ((np =? 0) || (CAP_VIEW_MAX_PAGES <? np)) eqn:E1; [rewrite wp_ret; split; [done|apply alloc_refused; [lia|done|done]]|].
  destruct (bad_perm perm) eqn:Ep; [rewrite wp_ret; split; [done|apply alloc_refused; [by right; right|done|done]]|].
  rewrite wp_bind, wp_gets.
  apply orb_false_iff in E1 as [E0%Z.eqb_neq E1%Z.ltb_ge]. unfold CAP_VIEW_MAX_PAGES in E1.
  destruct (Z.eqb_spec (k_arena_base s) 0) as [|Hbase]; [rewrite wp_ret; split; [done|by apply alloc_no_arena]|]. rewrite wp_bind.
  set (base := k_arena_base s) in *.
  eapply wp_table_index_why; [exact HI|done|intros; simpl; split; [done|apply alloc_exhausted; [by left|mem]]|].
  intros ti T1 P1 s1 HI1 Hti Hsl Hmp _ Hfl. replace (ti <? 0) with false by (symmetry; apply Z.ltb_ge, Hti).
  assert (k_locks s1 = []) as Hl1 by exact Hl. assert (quiet s1) as Hq1 by exact Hq.
  assert (maps_kept s s1) as Hmk1 by done.
  assert (k_arena_base s1 = base) as Eb1 by done. assert (k_table_pid s1 = P1) as EP1 by done.
  assert (k_obj_next s1 = k_obj_next s ∧ k_holder_free s1 = k_holder_free s ∧ k_arena_bitmap s1 = k_arena_bitmap s ∧
    k_arena_owner s1 = k_arena_owner s) as (En1 & Ef1 & Ebm1 & Eow1) by done.
  clearbody s1. rewrite wp_bind. apply wp_object_alloc; [lk Hl1|lk Hl1|..]; intros Hmax.
  { rewrite wp_ret. split; [by finish_ok|]. apply alloc_exhausted; [right; left; by rewrite <-En1|mem]. }
  set (o := k_obj_next s1) in *. set (ob0 := fresh_obj o CAP_OBJ_KIND_MEM).
  pose proof (oo_n _ _ _ (inv_objs HI1)) as Hn. fold o in Hn.
  assert (hold o = []) as Hnil by (destruct (inv_hold HI1) as [fr Hok]; by eapply hold_beyond).
  pose proof (mm_base _ _ _ _ _ (inv_mems HI1)) as Hmb. rewrite Eb1 in Hmb.
  assert (Inv (with_obj ob0 s1) hold [] [] []) as HI2.
  { apply inv_new_object; try done. intros _. split_and!; try done.
    - right. intros a Ha. unfold in_region in Ha. simpl in Ha. lia.
    - intros x a _ _ Ha. unfold in_region in Ha. simpl in Ha. lia. }
  assert (quiet (with_obj ob0 s1)) as Hq2 by (by apply quiet_new).
  set (s2 := with_obj ob0 s1) in *. assert (k_locks s2 = []) as Hl2 by exact Hl1.
  assert (k_table_pid s2 = P1) as EP by done. assert (k_obj_next s2 = o + 1) as En by done.
  assert (k_holder_free s2 = k_holder_free s ∧ k_arena_bitmap s2 = k_arena_bitmap s ∧ k_arena_owner s2 = k_arena_owner s)
    as (Ef2 & Ebm2 & Eow2) by done.
  assert (∀ tj j, slot tj j s2 = slot tj j s) as Hsl2 by exact Hsl. assert (maps_kept s s2) as Hmk2 by exact Hmk1.
  assert (∀ tj, t_freelist_head (table tj s2) = t_freelist_head (table tj s)) as Hfl2 by exact Hfl.
  assert (k_obj_next s = o) as En0 by done.
  assert (object o s2 = ob0) as Eo by apply aget_upd_eq. assert (k_arena_base s2 = base) as Eb by done.
  assert (0 ≤ o < CAP_OBJECT_MAX) as Ho by lia.
  assert (∀ x, live_mem (k_objects s2) (k_obj_next s2) x → x ≠ o → live_mem (k_objects s1) o x) as Hlive.
  { intros x (Hx & Hxa) Hne. unfold s2, with_obj in Hxa. kred_in Hxa. fold o in Hxa. rewrite aget_upd_ne in Hxa by done.
    split; [lia|done]. }
  clear HI1 Hn Hl1 Hmax Eb1 EP1 Hq1 Hsl Hmk1 Hmp Hfl En1 Ef1 Ebm1 Eow1. clearbody s2 o. rewrite wp_bind.
  apply wp_arena_alloc_run; [done|..].
  { intros Hno. simpl. rewrite wp_bind.
    eapply (wp_inv_object_destroy _ hold [] [] []); [exact HI2|lia|done|lk Hl2|].
    intros I nx R rn s3 HI3. rewrite wp_ret. split; [finish_ok; [by apply quiet_kill|done]|].
    apply alloc_no_run; [|done]. destruct Hno; [lia|]. by rewrite <-Ebm2. }
  intros st bm ow fc s3 Hn0 Hst Hend Hfree Hfirst Hbm How _.
  replace (st =? 0xFFFFFFFF) with false by (unfold CAP_ARENA_FRAMES in Hend; lia).
  assert (Inv s3 hold [] [] []) as HI3.
  { apply inv_arena; [done|]. intros x f Hx Hf Hu Hw. rewrite Hbm, Hu, orb_true_r, How. split; [done|].
    destruct (in_run st np f) eqn:Er; [|done]. exfalso. unfold in_run in Er.
    rewrite Hfree in Hu by lia. done. }
  unfold set_object. rewrite wp_bind, wp_modify. set (ob := set_o_npages np (set_o_phys_base (base + st * 4096) (set_o_max_perms perm ob0))).
  assert (∀ f, in_run st np f = true → (k_arena_owner s3).[f] = o) as Hown.
  { intros f Hf. unfold s3, arena. kred. by rewrite How, Hf. }
  assert (Inv (upd_object o (λ ob, set_o_npages np (set_o_phys_base (base + st * 4096) (set_o_max_perms perm ob))) s3)
            hold [] [] []) as HI4.
  { unfold upd_object. change (object o s3) with (object o s2). rewrite Eo. fold ob.
    assert (live_mem (k_objects s3) (k_obj_next s3) o) as Hlo.
    { split; [change (k_obj_next s3) with (k_obj_next s2); lia|].
      change (k_objects s3).[o] with (object o s2). by rewrite Eo. }
    apply (inv_mem_fields s3 hold [] [] [] o ob); try done; try (simpl; lia).
    - change (object o s3) with (object o s2). by rewrite Eo.
    - simpl. unfold CAP_ARENA_FRAMES, CAP_ARENA_SIZE in *. lia.
    - left. exists st. change (k_arena_base s3) with (k_arena_base s2). rewrite Eb. split_and!; try done.
      + intros f Hf. simpl in Hf. unfold s3, arena. kred. rewrite Hbm, How.
        by replace (in_run st np f) with true by (unfold in_run; lia).
    - intros x a Hx Hne. eapply (arena_run_apart s3); try done.
      + simpl. change (k_arena_base s3) with (k_arena_base s2). by rewrite Eb.
      + change (k_arena_base s3) with (k_arena_base s2). by rewrite Eb. }
  assert (quiet (upd_object o (λ ob, set_o_npages np (set_o_phys_base (base + st * 4096) (set_o_max_perms perm ob))) s3))
    as Hq4.
  { intros x Hx. unfold upd_object, object. kred. rewrite aget_upd. destruct (Z.eqb_spec o x) as [<-|]; [|by apply Hq2].
    change (k_objects s3).[o] with (object o s2). rewrite Eo. done. }
  set (s4 := upd_object _ _ s3) in *. assert (k_locks s4 = []) as Hl4 by exact Hl2.
  assert (k_table_pid s4 = P1) as EP4 by exact EP. assert (k_obj_next s4 = o + 1) as En4 by exact En.
  assert (object o s4 = ob) as Eo4.
  { unfold s4, upd_object, object. kred. rewrite aget_upd_eq. fold (object o s3).
    change (object o s3) with (object o s2). by rewrite Eo. }
  assert (k_holder_free s4 = k_holder_free s) as Ef4 by exact Ef2.
  assert (∀ tj j, slot tj j s4 = slot tj j s) as Hsl4 by exact Hsl2.
  assert (∀ tj, t_freelist_head (table tj s4) = t_freelist_head (table tj s)) as Hfl4 by exact Hfl2.
  assert (maps_kept s s4) as Hmk4 by exact Hmk2.
  assert (run_taken s s4 np st o) as Hrun by (rewrite Ebm2 in Hbm; rewrite Eow2 in How; by split).
  assert (lowest_run (k_arena_bitmap s) np st) as Hlow by (rewrite Ebm2 in Hfree, Hfirst; by split).
  change (k_arena_owner s3) with (k_arena_owner s4) in Hown.
  clear HI2 HI3 Hq2 Hl2 EP En Eo Eb Hmk2 Hlive Hfree Hfirst Hbm How Hsl2 Hfl2 Ef2 Ebm2 Eow2. clearbody s4. clear s3.
  destruct (word_make_ok CAP_TYPE_MEM o perm 0 np) as (W1 & W2 & W3 & W4); [done|lia|].
  apply (wp_grant_slot ti o pid (cap_word_make CAP_TYPE_MEM o perm 0 np)
    (λ e, do* arena_clear_run st np; do* cap_object_destroy o; ret (e, CAP_NONE)) s4 hold);
    rewrite ?Eo4, ?W4; try done; [by rewrite EP4|lia|..].
  - intros e s5 Hroom HI5 [Hq5 Hl5 _ En5 (_ & _ & Eow5)]. rewrite wp_bind.
    eapply (wp_inv_clear_destroy _ hold [] [] [] o); [exact HI5|rewrite En5; lia|done|lk Hl5|done|by rewrite Eow5|].
    intros I nx R rn bm' ow' fc' C s6 HI6. rewrite wp_ret. split; [finish_ok; [by apply quiet_kill|done]|].
    apply alloc_exhausted; [|destruct Hroom as [[-> _]|[-> _]]; cbn; mem].
    right. right. destruct Hroom as [[_ Hroom]|[_ Hroom]]; [right; exists ti; split; [apply Hti|by rewrite <-Hfl4]|].
    left. by rewrite <-Ef4.
  - intros i s5 Hs5 G. split; [done|]. apply (alloc_done _ _ _ _ _ _ i ti o st); [done|done| |].
    + apply (granted_created s s4 s5 ti i o pid _ _ _ ob); try done; by rewrite EP4.
    + destruct Hrun as [R1 R2], G as [_ _ _ _ _ _ _ _ (_ & G1 & G2) _ _]. split; intros f; by rewrite ?G1, ?G2.
Qed.

End ArenaAlloc.
