(* ===== verification/CapChanInv.v ===== *)
(** [cap_chan_create] keeps the invariant and never faults: the four-holder
    allocation with its roll-back, the slots of both ends, and the failure paths. *)

From stdpp Require Import base gmap list list_numbers.
From Stdlib Require Import ZArith Lia Bool.
From S2P Require Import Prelude FramePool CapWord Sidecar CapState CapPools CapOps CapMsg Wp.
From S2P Require Import HolderSpec CapInv ArenaSpec CapInvPools CapInvObj CapCreateInv.
#[local] Open Scope Z_scope.
#[local] Open Scope carr_scope.
#[local] Open Scope cap_scope.
#[local] Opaque Z.to_nat Z.div Z.modulo.

(** * Channels *)

Lemma inv_set_channels s hold L U G C :
  Inv s hold L U G → chans_ok C → Inv (set_k_channels C s) hold L U G.
Proof. intros [] HC. by split. Qed.

Lemma chans_ok_upd C c ch : chans_ok C → chan_ok ch → chans_ok C.[c <- ch].
Proof. intros HC Hch x. rewrite aget_upd. by destruct (c =? x). Qed.

Lemma wp_inv_set_channel c f s hold L U G (Q : unit → KState → Prop) :
  Inv s hold L U G → 0 ≤ c < CAP_CHAN_MAX → chan_ok (f (channel c s)) →
  (let s' := set_k_channels (k_channels s).[c <- f (channel c s)] s in Inv s' hold L U G → Q tt s') →
  wp (set_channel c f) Q s.
Proof.
  intros HI Hc Hok HQ. unfold set_channel. rewrite wp_bind, wp_in_bounds, wp_modify by done. apply HQ.
  apply inv_set_channels; [done|]. apply chans_ok_upd; [exact (inv_chans HI)|done].
Qed.

Lemma chan_ok_reset a b ch : chan_ok ch → chan_ok (chan_reset a b ch).
Proof.
  intros [Hd Hm]. split; [|done]. intros d. unfold chan_reset. cbn [c_qdepth]. rewrite !aget_upd.
  destruct (1 =? d); [done|]. by destruct (0 =? d).
Qed.

Lemma chan_ok_active v ch : chan_ok ch → chan_ok (set_c_active v ch).
Proof. intros [Hd Hm]. by split. Qed.

(** * Four nodes or none *)

Lemma hp_hp H1 f1 O1 H2 f2 O2 s : hp H2 f2 O2 (hp H1 f1 O1 s) = hp H2 f2 O2 s.
Proof. done. Qed.

Lemma wp_alloc_four o p fp s hold U (Q : option (Z * Z * Z * Z) → KState → Prop) :
  Inv s hold [] U [] → LPool ∉ k_locks s →
  (∀ H' f', let s' := hp H' f' (k_objects s) s in Inv s' hold [] U [] → Q None s') →
  (∀ h1 h2 h3 h4 H' f', let s' := hp H' f' (k_objects s) s in
     Inv s' hold [h4; h3; h2; h1] U [] →
     H'.[h1] = new_node o HOLDER_SLOT p 0 0 → H'.[h2] = new_node o HOLDER_SLOT p 1 0 →
     H'.[h3] = new_node o HOLDER_SLOT fp 2 0 → H'.[h4] = new_node o HOLDER_SLOT fp 3 0 →
     Q (Some (h1, h2, h3, h4)) s') →
  wp (alloc_four o p fp) Q s.
Proof.
  intros HI Hl Hnone Hsome. unfold alloc_four. rewrite wp_bind.
  eapply wp_inv_holder_alloc; [exact HI|done|rewrite wp_ret|].
  { specialize (Hnone (k_holders s) (k_holder_free s)). cbv zeta in Hnone. rewrite hp_id in Hnone. by apply Hnone. }
  intros h1 H1 f1 s1 _ _ _ E1 Eo1 HI1. rewrite wp_bind.
  eapply wp_inv_holder_alloc; [exact HI1|done|rewrite wp_bind|].
  { eapply (wp_inv_holder_free h1 _ hold [] []); [exact HI1|done|].
    intros H' f' s' _ _ HI'. rewrite wp_ret. by apply (Hnone H' f'). }
  intros h2 H2 f2 s2 _ _ N2 E2 Eo2 HI2. apply not_elem_of_cons in N2 as [N21 _]. rewrite wp_bind.
  eapply wp_inv_holder_alloc; [exact HI2|done|rewrite wp_bind|].
  { eapply (wp_inv_holder_free h1 _ hold [h2] []); [exact HI2|done|].
    intros H' f' s' _ _ HI'. rewrite wp_bind.
    eapply (wp_inv_holder_free h2 _ hold [] []); [exact HI'|done|].
    intros H'' f'' s'' _ _ HI''. rewrite wp_ret. by apply (Hnone H'' f''). }
  intros h3 H3 f3 s3 _ _ N3 E3 Eo3 HI3. rewrite !not_elem_of_cons in N3. destruct N3 as (N32 & N31 & _). rewrite wp_bind.
  eapply wp_inv_holder_alloc; [exact HI3|done|rewrite wp_bind|].
  { eapply (wp_inv_holder_free h1 _ hold [h3; h2] []); [exact HI3|done|].
    intros H' f' s' _ _ HI'. rewrite wp_bind.
    eapply (wp_inv_holder_free h2 _ hold [h3] []); [exact HI'|done|].
    intros H'' f'' s'' _ _ HI''. rewrite wp_bind.
    eapply (wp_inv_holder_free h3 _ hold [] []); [exact HI''|done|].
    intros H5 f5 s5 _ _ HI5. rewrite wp_ret. by apply (Hnone H5 f5). }
  intros h4 H4 f4 s4 _ _ N4 E4 Eo4 HI4. rewrite !not_elem_of_cons in N4. destruct N4 as (N43 & N42 & N41 & _).
  rewrite wp_ret. apply (Hsome h1 h2 h3 h4 H4 f4); [done|..|done].
  - rewrite Eo4 by done. unfold s3, s2, s1, hp; kred. rewrite Eo3 by done. unfold s2, s1, hp; kred. by rewrite Eo2.
  - rewrite Eo4 by done. unfold s3, s2, s1, hp; kred. by rewrite Eo3.
  - by rewrite Eo4.
Qed.

(** * Slots of an end *)

(** No slot of another table changes. *)
Definition other_tables (T T' : gmap Z CapTable) (ti : Z) : Prop :=
  ∀ tj j, tj ≠ ti → tslot T' tj j = tslot T tj j.

Lemma other_tables_frame T T' T'' ti i :
  tab_frame T T' ti i → other_tables T' T'' ti → other_tables T T'' ti.
Proof. intros [Hf _] Ho tj j Hne. rewrite Ho by done. apply Hf. congruence. Qed.

Lemma wp_pop_slots ti n s hold L U G (Q : list Z * bool → KState → Prop) :
  Inv s hold L U G → 0 ≤ ti < CAP_TABLE_MAX → (0 < ti → (k_table_pid s).[ti] ≠ 0) →
  (∀ l b T', let s' := set_k_tables T' s in
     (if b : bool then length l = n else (length l < n)%nat) →
     (∀ i, i ∈ l → 0 ≤ i < CAP_TABLE_ENTRIES) → other_tables (k_tables s) T' ti →
     Inv s' hold L (map (pair ti) l ++ U) G → Q (l, b) s') →
  wp (pop_slots ti n) Q s.
Proof.
  revert s U Q. induction n as [|n IH]; intros s U Q HI Hti Hb HQ; cbn [pop_slots].
  { rewrite wp_ret. specialize (HQ [] true (k_tables s)). cbv zeta in HQ.
    replace (set_k_tables (k_tables s) s) with s in HQ by (by destruct s).
    apply HQ; [done|by intros i ?%elem_of_nil|done|done]. }
  rewrite wp_bind. eapply wp_slot_pop; [exact HI|done|done|..].
  { rewrite wp_ret. specialize (HQ [] false (k_tables s)). cbv zeta in HQ.
    replace (set_k_tables (k_tables s) s) with s in HQ by (by destruct s).
    apply HQ; [simpl; lia|by intros i ?%elem_of_nil|done|done]. }
  intros i T1 s1 Hi _ _ Hfr _ HI1. rewrite wp_bind. eapply (IH s1 ((ti, i) :: U)); [done|done|done|].
  intros l b T2 s2 Hlen Hin Hoth HI2. rewrite wp_ret. cbn [fst snd].
  apply (HQ (i :: l) b T2); [destruct b; simpl; lia|intros j [->|Hj]%elem_of_cons; auto|by eapply other_tables_frame|].
  eapply inv_perm_slots; [|exact HI2]. cbn [map app]. symmetry. apply Permutation_middle.
Qed.

Lemma wp_push_slots ti l s hold L U G (Q : unit → KState → Prop) :
  Inv s hold L (map (pair ti) l ++ U) G →
  (∀ T', let s' := set_k_tables T' s in other_tables (k_tables s) T' ti → Inv s' hold L U G → Q tt s') →
  wp (push_slots ti l) Q s.
Proof.
  revert s. induction l as [|i l IH]; intros s HI HQ; cbn [push_slots].
  { rewrite wp_ret. specialize (HQ (k_tables s)). cbv zeta in HQ.
    replace (set_k_tables (k_tables s) s) with s in HQ by (by destruct s). by apply HQ. }
  rewrite wp_bind. eapply (wp_slot_push ti i s hold L [] _ G); [exact HI|].
  intros T1 s1 Hfr _ HI1. apply IH; [done|]. intros T2 s2 Hoth HI2.
  apply (HQ T2); [by eapply other_tables_frame|done].
Qed.

(** A slot in hand that carries a word of a live object. *)
Definition carries (s : KState) (o ti i : Z) : Prop :=
  0 ≤ i < CAP_TABLE_ENTRIES ∧ cap_word_valid (slot ti i s) = true ∧ 0 ≤ slot ti i s < 2 ^ 64 ∧
  w_obj (slot ti i s) = o ∧ w_type (slot ti i s) ≠ CAP_TYPE_IRQ.

Lemma carries_frame s T' o ti i tj j :
  carries s o tj j → tab_frame (k_tables s) T' ti i → (tj, j) ≠ (ti, i) → carries (set_k_tables T' s) o tj j.
Proof.
  intros (H1 & H2) [Hf _] Hne. unfold carries, slot, table in *. kred.
  change ((t_slots T'.[tj]).[j]) with (tslot T' tj j). rewrite Hf by done. done.
Qed.

Lemma wp_write_ends ti o rd wr s hold L U G (Q : unit → KState → Prop) :
  Inv s hold L U G → (ti, rd) ∈ U → (ti, wr) ∈ U → rd ≠ wr → 0 ≤ o < CAP_OBJECT_MAX →
  0 ≤ rd < CAP_TABLE_ENTRIES → 0 ≤ wr < CAP_TABLE_ENTRIES →
  (∀ T', let s' := set_k_tables T' s in
     Inv s' hold L U G → carries s' o ti rd → carries s' o ti wr →
     (∀ tj j, carries s o tj j → (tj, j) ≠ (ti, rd) → (tj, j) ≠ (ti, wr) → carries s' o tj j) → Q tt s') →
  wp (write_ends ti o rd wr) Q s.
Proof.
  intros HI Hrd Hwr Hne Ho Hr1 Hr2 HQ. unfold write_ends. rewrite wp_bind.
  destruct (word_make_ok CAP_TYPE_CHAN_R o CAP_PERM_RECV 0 1) as (W1 & W2 & W3 & W4); [done|done|].
  destruct (word_make_ok CAP_TYPE_CHAN_W o CAP_PERM_SEND 0 1) as (V1 & V2 & V3 & V4); [done|done|].
  apply wp_set_slot; [done|].
  pose proof (inv_set_slot s hold L U G ti rd (cap_word_make CAP_TYPE_CHAN_R o CAP_PERM_RECV 0 1) HI Hrd) as HI1.
  pose proof (tab_upd_frame (k_tables s) ti rd (cap_word_make CAP_TYPE_CHAN_R o CAP_PERM_RECV 0 1)
                (t_freelist_head (table ti s))) as F1.
  set (T1 := tab_upd _ _ _ _ _) in *.
  assert (carries (set_k_tables T1 s) o ti rd) as C1.
  { split; [done|]. unfold slot, table. kred. change ((t_slots T1.[ti]).[rd]) with (tslot T1 ti rd).
    unfold T1. rewrite tab_upd_slot_eq, W4. done. }
  clearbody T1. set (s1 := set_k_tables T1 s) in *. apply wp_set_slot; [done|].
  pose proof (inv_set_slot s1 hold L U G ti wr (cap_word_make CAP_TYPE_CHAN_W o CAP_PERM_SEND 0 1) HI1 Hwr) as HI2.
  pose proof (tab_upd_frame (k_tables s1) ti wr (cap_word_make CAP_TYPE_CHAN_W o CAP_PERM_SEND 0 1)
                (t_freelist_head (table ti s1))) as F2.
  set (T2 := tab_upd _ _ _ _ _) in *.
  assert (carries (set_k_tables T2 s1) o ti wr) as C2.
  { split; [done|]. unfold slot, table. kred. change ((t_slots T2.[ti]).[wr]) with (tslot T2 ti wr).
    unfold T2. rewrite tab_upd_slot_eq, V4. done. }
  clearbody T2. apply (HQ T2); [exact HI2| |exact C2|].
  - apply (carries_frame s1 T2 o ti wr ti rd); [done|done|]. by intros [= ].
  - intros tj j Hc N1 N2. apply (carries_frame s1 T2 o ti wr tj j); [|done|done].
    by apply (carries_frame s T1 o ti rd tj j).
Qed.

Lemma inv_hand_nodup s hold L U G : Inv s hold L U G → NoDup U.
Proof. intros HI. destruct (inv_slots HI) as (tf & Hs & _). apply Hs. Qed.

Lemma tables_locked T ls s : set_k_locks (k_locks s) (set_k_tables T (set_k_locks ls s)) = set_k_tables T s.
Proof. by destruct s. Qed.

Lemma tables_locked2 T1 T2 ls s :
  set_k_locks (k_locks s) (set_k_tables T2 (set_k_tables T1 (set_k_locks ls s))) = set_k_tables T2 s.
Proof. by destruct s. Qed.

Lemma tables_locked3 T1 T2 T3 ls s :
  set_k_locks (k_locks s) (set_k_tables T3 (set_k_tables T2 (set_k_tables T1 (set_k_locks ls s)))) = set_k_tables T3 s.
Proof. by destruct s. Qed.

Lemma wp_mint_far fti o s hold L U G (Q : option (Z * Z) → KState → Prop) :
  Inv s hold L U G → LTable fti ∉ k_locks s → 0 ≤ fti < CAP_TABLE_MAX → (0 < fti → (k_table_pid s).[fti] ≠ 0) →
  0 ≤ o < CAP_OBJECT_MAX →
  (∀ T', let s' := set_k_tables T' s in Inv s' hold L U G → Q None s') →
  (∀ a b T', let s' := set_k_tables T' s in
     Inv s' hold L ((fti, a) :: (fti, b) :: U) G → carries s' o fti a → carries s' o fti b → Q (Some (a, b)) s') →
  wp (mint_far fti o) Q s.
Proof.
  intros HI Hl Hti Hb Ho Hnone Hsome. unfold mint_far. rewrite wp_bind, wp_cap_lock by done. rewrite wp_bind.
  eapply (wp_pop_slots fti 2 _ hold L U G); [exact HI|done|done|]. intros l b T1 s1 Hlen Hin Hoth1 HI1.
  assert (∀ m, wp (do* push_slots fti l; do* cap_unlock (LTable fti); ret m) Q s1 ↔
               wp (push_slots fti l) (λ _ s2, Q m (set_k_locks (lock_drop (LTable fti) (k_locks s2)) s2)) s1) as Hpush.
  { intros m. rewrite wp_bind. done. }
  assert (wp (do* push_slots fti l; do* cap_unlock (LTable fti); ret None) Q s1) as Hfail.
  { apply Hpush. eapply (wp_push_slots fti l _ hold L U G); [exact HI1|]. intros T2 s2 _ HI2.
    unfold s2, s1. kred. rewrite lock_drop_head, tables_locked2 by done. by apply Hnone. }
  destruct l as [|a [|c [|d l]]], b; try exact Hfail; simpl in Hlen; try lia.
  pose proof (inv_hand_nodup _ _ _ _ _ HI1) as Hnd. cbn [map app] in Hnd, HI1.
  apply NoDup_cons in Hnd as [Hac _]. rewrite wp_bind.
  eapply (wp_write_ends fti o a c _ hold L _ G); [exact HI1|mem|mem| |done|apply Hin; mem|apply Hin; mem|].
  { intros ->. apply Hac. mem. }
  intros T2 s2 HI2 C1 C2 _. rewrite wp_bind, wp_cap_unlock, wp_ret. unfold s2, s1. kred.
  rewrite lock_drop_head, tables_locked2 by done. by apply Hsome.
Qed.

Lemma wp_mint_near ti fti o far s hold L U G (Q : option (Z * Z * Z * Z) → KState → Prop) :
  Inv s hold L U G → LTable ti ∉ k_locks s → 0 ≤ ti < CAP_TABLE_MAX → (0 < ti → (k_table_pid s).[ti] ≠ 0) →
  0 ≤ o < CAP_OBJECT_MAX → (0 ≤ fti → fti ≠ ti) →
  (∀ T', let s' := set_k_tables T' s in
     Inv s' hold L U G → (∀ i, (fti, i) ∈ U → carries s o fti i → carries s' o fti i) → Q None s') →
  (∀ a b c d T', let s' := set_k_tables T' s in
     (if fti <? 0 then Inv s' hold L ((ti, a) :: (ti, b) :: (ti, c) :: (ti, d) :: U) G ∧
                       carries s' o ti c ∧ carries s' o ti d
      else Inv s' hold L ((ti, a) :: (ti, b) :: U) G ∧ c = fst far ∧ d = snd far ∧
           (∀ i, carries s o fti i → carries s' o fti i)) →
     carries s' o ti a → carries s' o ti b → Q (Some (a, b, c, d)) s') →
  wp (mint_near ti fti o far) Q s.
Proof.
  intros HI Hl Hti Hb Ho Hne Hnone Hsome. unfold mint_near. rewrite wp_bind, wp_cap_lock by done. rewrite wp_bind.
  set (n := if fti <? 0 then 4%nat else 2%nat).
  eapply (wp_pop_slots ti n _ hold L U G); [exact HI|done|done|]. intros l b T1 s1 Hlen Hin Hoth1 HI1.
  assert (∀ T i, other_tables (k_tables s) T ti → 0 ≤ fti → carries s o fti i → carries (set_k_tables T s) o fti i) as Hcar.
  { intros T i Hoth Hf (C1 & C2). unfold carries, slot, table in *. kred.
    change ((t_slots T.[fti]).[i]) with (tslot T fti i). rewrite Hoth by auto. done. }
  assert (wp (do* push_slots ti l; do* cap_unlock (LTable ti); ret None) Q s1) as Hfail.
  { rewrite wp_bind. eapply (wp_push_slots ti l _ hold L U G); [exact HI1|]. intros T2 s2 Hoth2 HI2.
    rewrite wp_bind, wp_cap_unlock, wp_ret. unfold s2, s1. kred. rewrite lock_drop_head, tables_locked2 by done.
    apply Hnone; [done|]. intros i HiU. apply Hcar.
    - intros tj j Hj. rewrite Hoth2 by done. by apply Hoth1.
    - destruct (inv_slots HI) as (tf & Hs & _). by apply (so_U _ _ _ _ Hs fti i). }
  pose proof (inv_hand_nodup _ _ _ _ _ HI1) as Hnd.
  destruct l as [|x1 [|x2 [|x3 [|x4 [|x5 l]]]]], b; try exact Hfail; simpl in Hlen;
    unfold n in Hlen; destruct (fti <? 0) eqn:Ef; try lia; cbn [map app] in *.
  - apply NoDup_cons in Hnd as [H12 _]. rewrite wp_bind.
    eapply (wp_write_ends ti o x1 x2 _ hold L _ G); [exact HI1|mem|mem| |done|apply Hin; mem|apply Hin; mem|].
    { intros ->. apply H12. mem. }
    intros T2 s2 HI2 C1 C2 Hc. rewrite wp_bind, wp_cap_unlock, wp_ret. unfold s2, s1. kred.
    rewrite lock_drop_head, tables_locked2 by done. apply Hsome; [|done|done].
    split_and!; try done. intros i Hi.
    assert (fti ≠ ti) by (apply Hne; lia).
    apply (Hc fti i); [|congruence|congruence]. apply Hcar; [done|lia|done].
  - apply NoDup_cons in Hnd as [H1 Hnd]. apply NoDup_cons in Hnd as [H2 Hnd]. apply NoDup_cons in Hnd as [H3 _].
    rewrite wp_bind.
    eapply (wp_write_ends ti o x1 x2 _ hold L _ G); [exact HI1|mem|mem| |done|apply Hin; mem|apply Hin; mem|].
    { intros ->. apply H1. mem. }
    intros T2 s2 HI2 C1 C2 _. rewrite wp_bind.
    eapply (wp_write_ends ti o x3 x4 _ hold L _ G); [exact HI2|mem|mem| |done|apply Hin; mem|apply Hin; mem|].
    { intros ->. apply H3. mem. }
    intros T3 s3 HI3 C3 C4 Hc. rewrite wp_bind, wp_cap_unlock, wp_ret. unfold s3, s2, s1. kred.
    rewrite lock_drop_head, tables_locked3 by done. apply Hsome; [done|..].
    + apply (Hc ti x1); [done|..]; intros [= ->]; apply H1; mem.
    + apply (Hc ti x2); [done|..]; intros [= ->]; apply H2; mem.
Qed.

(** * cap_chan_create *)

(** Attaching a node of [cap_chan_create] to the slot minted for it. *)
Lemma wp_set_ref h r s (Q : unit → KState → Prop) :
  0 ≤ h < CAP_HOLDER_MAX → Q tt (upd_holder h (set_h_ref r) s) → wp (set_holder h (set_h_ref r)) Q s.
Proof. intros Hh HQ. unfold set_holder. by rewrite wp_bind, wp_in_bounds, wp_modify. Qed.

(** What is left to attach: node [h] with its pid, and its slot. *)
Lemma inv_attach_ref s hold L U G h o pid ti i :
  Inv s hold L ((ti, i) :: U) (h :: G) → table_of (k_table_pid s) pid ti →
  h ∈ hold o → h ∉ G → h_kind (holder h s) = HOLDER_SLOT → h_pid (holder h s) = pid → carries s o ti i →
  Inv (upd_holder h (set_h_ref i) s) hold L U G.
Proof.
  intros HI Hti Hh HG Hk Hp (C1 & C2 & C3 & C4 & C5).
  apply (inv_attach_slot _ hold L [] U G h o pid ti i); try done.
  - apply inv_set_ref; [done|mem].
  - unfold slot_key, upd_holder. kred. rewrite aget_upd_eq. done.
Qed.

Lemma inv_exempt_ext s hold L U G G' :
  (∀ x, x ∈ G ↔ x ∈ G') → Inv s hold L U G → Inv s hold L U G'.
Proof.
  intros HG [Hho Hp (tf & Hs & Hl) Hob Hci Hch Hpa Hm Hir Hmr]. split; try done. exists tf. split; [done|].
  destruct Hl as [Hw Ho Hh Hsl Hu Hq]. split; try done.
  - intros ti i Hlv Hob1 o Ha Hr. destruct (Hh ti i Hlv Hob1 Ha Hr) as (h & H1 & H2 & H3).
    exists h. rewrite <-HG. done.
  - intros o h. rewrite <-HG. apply Hsl.
  - intros o h h' pid i. rewrite <-!HG. apply Hu.
  - intros o h. rewrite <-HG. apply Hq.
Qed.

(** Linking the four nodes of a new channel object. *)
Lemma wp_link_four {B} o p fp h1 h2 h3 h4 s hold U (k : unit → M B) (Q : B → KState → Prop) :
  Inv s hold [h4; h3; h2; h1] U [] → hold o = [] → 0 ≤ o < k_obj_next s →
  o_active (object o s) = 1 → o_revoking (object o s) = 0 →
  holder h1 s = new_node o HOLDER_SLOT p 0 0 → holder h2 s = new_node o HOLDER_SLOT p 1 0 →
  holder h3 s = new_node o HOLDER_SLOT fp 2 0 → holder h4 s = new_node o HOLDER_SLOT fp 3 0 →
  (∀ H' O' hold', let s' := hp H' (k_holder_free s) O' s in
     metas (k_objects s) O' → (∀ x, hkey H'.[x] = hkey (k_holders s).[x]) →
     hold' o = [h4; h3; h2; h1] → Inv s' hold' [] U [h4; h3; h2; h1] → wp (k tt) Q s') →
  wp (cap_holder_link h1 o) (λ _ s1, wp (do* cap_holder_link h2 o; do* cap_holder_link h3 o;
    bind (cap_holder_link h4 o) k) Q s1) s.
Proof.
  intros HI Hnil Ho Ha Hr E1 E2 E3 E4 HQ. destruct (inv_hold HI) as [fr Hok].
  pose proof (ho_loose_nd Hok) as Hnd. rewrite !NoDup_cons, !not_elem_of_cons in Hnd.
  destruct Hnd as ((N43 & N42 & N41 & _) & (N32 & N31 & _) & (N21 & _) & _).
  assert (∀ O, metas (k_objects s) O → o_active O.[o] = 1 ∧ o_revoking O.[o] = 0) as Hmeta.
  { intros O Hm. destruct (metas_fields _ _ o Hm) as (_ & _ & -> & -> & _). done. }
  eapply (wp_inv_holder_link h1 o s hold [h4; h3; h2] [] U []); try done; [by rewrite E1|by rewrite E1|].
  intros H1 O1 s1 K1 M1 F1 HI1. rewrite wp_bind. rewrite Hnil in HI1, F1.
  destruct (Hmeta O1 M1) as [A1 R1].
  assert (∀ x, x ≠ h1 → H1.[x] = holder x s) as G1 by (intros; apply F1; [done|apply not_elem_of_nil]).
  set (hold1 := hold_upd hold o [h1]) in *. assert (hold1 o = [h1]) as X1 by apply hold_upd_eq.
  eapply (wp_inv_holder_link h2 o s1 hold1 [h4; h3] [] U [h1]); try done.
  { change (h_obj_id H1.[h2] = o). by rewrite G1, E2. }
  { change (h_prev H1.[h2] = CAP_FREELIST_END). by rewrite G1, E2. }
  intros H2 O2 s2 K2 M2 F2 HI2. rewrite wp_bind. rewrite X1 in HI2, F2. cbn [app] in HI2.
  pose proof (metas_trans _ _ _ M1 M2) as M12. destruct (Hmeta O2 M12) as [A2 R2].
  assert (∀ x, x ≠ h1 → x ≠ h2 → H2.[x] = holder x s) as G2.
  { intros x ? ?. rewrite F2; [by apply G1|done|]. by apply not_elem_of_cons; split; [|apply not_elem_of_nil]. }
  set (hold2 := hold_upd hold1 o [h2; h1]) in *. assert (hold2 o = [h2; h1]) as X2 by apply hold_upd_eq.
  eapply (wp_inv_holder_link h3 o s2 hold2 [h4] [] U [h2; h1]); try done.
  { change (h_obj_id H2.[h3] = o). by rewrite G2, E3. }
  { change (h_prev H2.[h3] = CAP_FREELIST_END). by rewrite G2, E3. }
  intros H3 O3 s3 K3 M3 F3 HI3. rewrite wp_bind. rewrite X2 in HI3, F3. cbn [app] in HI3.
  pose proof (metas_trans _ _ _ M12 M3) as M13. destruct (Hmeta O3 M13) as [A3 R3].
  set (hold3 := hold_upd hold2 o [h3; h2; h1]) in *. assert (hold3 o = [h3; h2; h1]) as X3 by apply hold_upd_eq.
  assert (H3.[h4] = holder h4 s) as G3.
  { rewrite F3; [by apply G2|done|]. rewrite !not_elem_of_cons. by split_and!; [..|apply not_elem_of_nil]. }
  eapply (wp_inv_holder_link h4 o s3 hold3 [] [] U [h3; h2; h1]); try done.
  { change (h_obj_id H3.[h4] = o). by rewrite G3, E4. }
  { change (h_prev H3.[h4] = CAP_FREELIST_END). by rewrite G3, E4. }
  intros H4 O4 s4 K4 M4 F4 HI4. rewrite X3 in HI4. cbn [app] in HI4.
  apply (HQ H4 O4 (hold_upd hold3 o [h4; h3; h2; h1])); try done.
  - by eapply metas_trans.
  - intros x. rewrite K4. change (k_holders s3) with H3. rewrite K3. change (k_holders s2) with H2.
    rewrite K2. change (k_holders s1) with H1. apply K1.
  - apply hold_upd_eq.
Qed.

(** Attaching them. *)
Lemma wp_attach_four {B} o p fp ti tf a b c d h1 h2 h3 h4 s hold (k : unit → M B) (Q : B → KState → Prop) :
  Inv s hold [] [(ti, a); (ti, b); (tf, c); (tf, d)] [h4; h3; h2; h1] → hold o = [h4; h3; h2; h1] →
  table_of (k_table_pid s) p ti → table_of (k_table_pid s) fp tf →
  carries s o ti a → carries s o ti b → carries s o tf c → carries s o tf d →
  slot_key (k_holders s) h1 p 0 → slot_key (k_holders s) h2 p 1 →
  slot_key (k_holders s) h3 fp 2 → slot_key (k_holders s) h4 fp 3 →
  (∀ H', let s' := set_k_holders H' s in Inv s' hold [] [] [] → wp (k tt) Q s') →
  wp (set_holder h1 (set_h_ref a)) (λ _ s1, wp (do* set_holder h2 (set_h_ref b);
    do* set_holder h3 (set_h_ref c); bind (set_holder h4 (set_h_ref d)) k) Q s1) s.
Proof.
  intros HI Hh Hti Htf Ca Cb Cc Cd K1 K2 K3 K4 HQ. destruct (inv_hold HI) as [fr Hok].
  pose proof (ho_nd Hok o) as Hnd. rewrite Hh, !NoDup_cons, !not_elem_of_cons in Hnd.
  destruct Hnd as ((N43 & N42 & N41 & _) & (N32 & N31 & _) & (N21 & _) & _).
  assert (∀ x, x ∈ [h4; h3; h2; h1] → 0 ≤ x < CAP_HOLDER_MAX) as Hr.
  { intros x Hx. apply (ho_in Hok o). by rewrite Hh. }
  apply wp_set_ref; [apply Hr; mem|]. rewrite wp_bind.
  assert (Inv (upd_holder h1 (set_h_ref a) s) hold [] [(ti, b); (tf, c); (tf, d)] [h4; h3; h2]) as HI1.
  { apply (inv_attach_ref s hold [] _ [h4; h3; h2] h1 o p ti a); try done; try apply K1; [|rewrite Hh; mem|].
    - eapply inv_exempt_ext; [|exact HI]. intros x. mem.
    - rewrite !not_elem_of_cons. by split_and!; [..|apply not_elem_of_nil]. }
  apply wp_set_ref; [apply Hr; mem|]. rewrite wp_bind.
  assert (∀ x, x ≠ h1 → holder x (upd_holder h1 (set_h_ref a) s) = holder x s) as G1
    by (intros; unfold holder, upd_holder; kred; by rewrite aget_upd_ne).
  set (s1 := upd_holder h1 (set_h_ref a) s) in *.
  assert (Inv (upd_holder h2 (set_h_ref b) s1) hold [] [(tf, c); (tf, d)] [h4; h3]) as HI2.
  { apply (inv_attach_ref s1 hold [] _ [h4; h3] h2 o p ti b); try done; try (rewrite G1 by done; apply K2); [|rewrite Hh; mem|].
    - eapply inv_exempt_ext; [|exact HI1]. intros x. mem.
    - rewrite !not_elem_of_cons. by split_and!; [..|apply not_elem_of_nil]. }
  apply wp_set_ref; [apply Hr; mem|]. rewrite wp_bind.
  assert (∀ x, x ≠ h1 → x ≠ h2 → holder x (upd_holder h2 (set_h_ref b) s1) = holder x s) as G2.
  { intros. unfold holder, upd_holder at 1. kred. rewrite aget_upd_ne by done. by apply G1. }
  set (s2 := upd_holder h2 (set_h_ref b) s1) in *.
  assert (Inv (upd_holder h3 (set_h_ref c) s2) hold [] [(tf, d)] [h4]) as HI3.
  { apply (inv_attach_ref s2 hold [] _ [h4] h3 o fp tf c); try done; try (rewrite G2 by done; apply K3); [|rewrite Hh; mem|].
    - eapply inv_exempt_ext; [|exact HI2]. intros x. mem.
    - rewrite !not_elem_of_cons. by split_and!; [..|apply not_elem_of_nil]. }
  apply wp_set_ref; [apply Hr; mem|].
  assert (holder h4 (upd_holder h3 (set_h_ref c) s2) = holder h4 s) as G3.
  { unfold holder, upd_holder at 1. kred. rewrite aget_upd_ne by done. by apply G2. }
  set (s3 := upd_holder h3 (set_h_ref c) s2) in *.
  assert (Inv (upd_holder h4 (set_h_ref d) s3) hold [] [] []) as HI4.
  { apply (inv_attach_ref s3 hold [] [] [] h4 o fp tf d); try done; try (rewrite G3; apply K4); [rewrite Hh; mem|].
    apply not_elem_of_nil. }
  by apply (HQ (k_holders (upd_holder h4 (set_h_ref d) s3))).
Qed.

Lemma inv_release_all s hold L U G o :
  o < k_obj_next s → o_active (object o s) = 0 → (∀ ti i, (ti, i) ∈ U → carries s o ti i) →
  Inv s hold L U G → Inv s hold L [] G.
Proof.
  intros Ho Ha. induction U as [|[ti i] U IH]; intros Hc HI; [done|].
  apply IH; [intros; apply Hc; mem|]. destruct (Hc ti i) as (_ & Hv & Hr & Ew & _); [mem|].
  apply (inv_release_dead s hold L [] U G ti i HI); rewrite ?Ew; done.
Qed.

Lemma slot_key_matches H h p i p' i' :
  slot_key H h p i → holder_matches HOLDER_SLOT p' i' H.[h] = (p =? p') && (i =? i').
Proof. intros (E1 & E2 & E3). unfold holder_matches. by rewrite E1, E2, E3. Qed.

Lemma slot_key_hkey H H' h p i : hkey H'.[h] = hkey H.[h] → slot_key H h p i → slot_key H' h p i.
Proof. intros E. by apply slot_key_ext. Qed.

(** Taking the oldest end of a channel under construction off its object. *)
Lemma wp_drop_end o p i l h s hold U G (Q : unit → KState → Prop) :
  Inv s hold [] U G → quiet s → LPool ∉ k_locks s → 0 ≤ o < k_obj_next s → o_active (object o s) = 1 →
  hold o = l ++ [h] → (∀ x, x ∈ hold o → x ∈ G) →
  slot_key (k_holders s) h p i → Forall (λ x, ∃ p' i', slot_key (k_holders s) x p' i' ∧ i' ≠ i) l →
  (∀ s' hold', k_locks s' = k_locks s → k_obj_next s' = k_obj_next s → k_tables s' = k_tables s →
     quiet s' → o_active (object o s') = 1 → hold' o = l → (∀ x, x ≠ o → hold' x = hold x) →
     (∀ x q j, x ∈ l → slot_key (k_holders s) x q j → slot_key (k_holders s') x q j) →
     Inv s' hold' [] U G → Q tt s') →
  wp (cap_holder_remove o HOLDER_SLOT p i) Q s.
Proof.
  intros HI Hq Hl Ho Ha Hh HG Hk Hks HQ. rewrite Forall_forall in Hks.
  eapply (wp_inv_remove_exempt o HOLDER_SLOT p i l h s hold [] U G); try done; [by apply Hq|..].
  - unfold holder. by rewrite (slot_key_matches _ _ _ _ _ _ Hk), !Z.eqb_refl.
  - intros x (p' & i' & Hx & Hne)%Hks. unfold holder. rewrite (slot_key_matches _ _ _ _ _ _ Hx).
    apply Z.eqb_neq in Hne as ->. apply andb_false_r.
  - intros H' f' O' s' Hm Hkey HI'. apply (HQ s' (hold_upd hold o l)); try done.
    + by apply (quiet_metas s).
    + change (o_active O'.[o] = 1). by destruct (metas_fields _ _ o Hm) as (_ & _ & _ & -> & _).
    + apply hold_upd_eq.
    + intros. by apply hold_upd_ne.
    + intros x q j Hx. apply slot_key_hkey, Hkey, Hx.
Qed.

(** The roll-back of a channel whose slots could not be had. *)
Lemma chan_fail_ok {B} (r : B) o c p fp h1 h2 h3 h4 s hold U :
  Inv s hold [] U [h4; h3; h2; h1] → quiet s → k_locks s = [] → hold o = [h4; h3; h2; h1] →
  slot_key (k_holders s) h1 p 0 → slot_key (k_holders s) h2 p 1 →
  slot_key (k_holders s) h3 fp 2 → slot_key (k_holders s) h4 fp 3 →
  0 ≤ o < k_obj_next s → o_active (object o s) = 1 → 0 ≤ c < CAP_CHAN_MAX →
  (∀ ti i, (ti, i) ∈ U → carries s o ti i) →
  wp (do* cap_lock (LObj o);
      do* cap_holder_remove o HOLDER_SLOT p 0;
      do* cap_holder_remove o HOLDER_SLOT p 1;
      do* cap_holder_remove o HOLDER_SLOT fp 2;
      do* cap_holder_remove o HOLDER_SLOT fp 3;
      do* cap_unlock (LObj o);
      do* cap_object_destroy o;
      do* set_channel c (set_c_active 0);
      ret r) (λ _ s', kernel_ok s') s.
Proof.
  intros HI Hq Hl Hh K1 K2 K3 K4 Ho Ha Hc HU. rewrite wp_bind, wp_cap_lock by lk Hl. rewrite wp_bind, Hl.
  assert (∀ x h, x ≠ o → h ∈ hold x → h ∉ [h4; h3; h2; h1]) as Hoth.
  { intros x h Hx Hin Hin'. destruct (inv_hold HI) as [fr Hok]. rewrite <-Hh in Hin'. apply Hx.
    by eapply (held_unique Hok). }
  eapply (wp_drop_end o p 0 [h4; h3; h2] h1 _ hold U); [exact HI|..]; try done.
  { kred. apply not_elem_of_cons; split; [done|apply not_elem_of_nil]. } { intros x. by rewrite Hh. }
  { repeat constructor; eexists _, _; (split; [eassumption|done]). }
  intros s1 hold1 L1 N1 T1 Q1 A1 X1 Y1 F1 I1. rewrite wp_bind. kred_in L1. kred_in N1. kred_in T1.
  eapply (wp_drop_end o p 1 [h4; h3] h2 s1 hold1 U); [exact I1|..]; try done; try (by rewrite N1).
  { rewrite L1. apply not_elem_of_cons; split; [done|apply not_elem_of_nil]. } { intros x. rewrite X1. mem. }
  { apply F1; [mem|done]. }
  { repeat constructor; eexists _, _; (split; [apply F1; [mem|eassumption]|done]). }
  intros s2 hold2 L2 N2 T2 Q2 A2 X2 Y2 F2 I2. rewrite wp_bind. rewrite L1 in L2. rewrite N1 in N2. rewrite T1 in T2.
  eapply (wp_drop_end o fp 2 [h4] h3 s2 hold2 U); [exact I2|..]; try done; try (by rewrite N2).
  { rewrite L2. apply not_elem_of_cons; split; [done|apply not_elem_of_nil]. } { intros x. rewrite X2. mem. }
  { apply F2, F1; [mem|mem|done]. }
  { repeat constructor; eexists _, _; (split; [apply F2, F1; [mem|mem|eassumption]|done]). }
  intros s3 hold3 L3 N3 T3 Q3 A3 X3 Y3 F3 I3. rewrite wp_bind. rewrite L2 in L3. rewrite N2 in N3. rewrite T2 in T3.
  eapply (wp_drop_end o fp 3 [] h4 s3 hold3 U); [exact I3|..]; try done; try (by rewrite N3).
  { rewrite L3. apply not_elem_of_cons; split; [done|apply not_elem_of_nil]. } { intros x. rewrite X3. mem. }
  { apply F3, F2, F1; [mem|mem|mem|done]. }
  intros s4 hold4 L4 N4 T4 Q4 A4 X4 Y4 _ I4. rewrite L3 in L4. rewrite N3 in N4. rewrite T3 in T4.
  assert (Inv s4 hold4 [] U []) as I5.
  { eapply inv_no_exempt; [exact I4|]. intros x h. destruct (decide (x = o)) as [->|Hx].
    - rewrite X4. by intros ?%not_elem_of_nil.
    - rewrite Y4, Y3, Y2, Y1 by done. by apply Hoth. }
  assert (∀ ti i, (ti, i) ∈ U → carries s4 o ti i) as HU4.
  { intros t i Hin%HU. unfold carries, slot, table. by rewrite T4. }
  clear HI I1 I2 I3 I4 HU. rewrite wp_bind. unlock L4. rewrite wp_bind.
  eapply (wp_inv_object_destroy _ hold4 [] U []); [exact I5|by kred; rewrite N4|done|apply not_elem_of_nil|].
  intros I nx R rn s5 HI6. rewrite wp_bind.
  assert (Inv s5 hold4 [] [] []) as HI7.
  { eapply (inv_release_all _ _ _ U _ o); [| |exact HU4|exact HI6]; [by kst; rewrite N4; apply Ho|].
    unfold s5, object, killed. kred. by rewrite aget_upd_eq. }
  assert (quiet s5) as Hq5 by (by apply quiet_kill). assert (k_locks s5 = []) as Hl5 by done. clearbody s5.
  eapply wp_inv_set_channel; [exact HI7|done|apply chan_ok_active, (inv_chans HI7); done|].
  intros s6 HI8. rewrite wp_ret. by finish_ok.
Qed.

(** What the lock on a fresh channel's slot record leaves of an empty lock list. *)
Lemma lock_init_quiet l s : k_locks s = [] → set_k_locks (lock_drop l (k_locks s)) s = s.
Proof. intros E. rewrite E. destruct s. by cbn in E; subst. Qed.

(** [cap_chan_create] from the point where the two tables are known. *)
Lemma chan_slots_ok o c pid far_pid ti fti h1 h2 h3 h4 s hold :
  let p := u16 pid in
  let fp := if negb (far_pid =? 0) then u16 far_pid else u16 pid in
  let none := (CAP_NONE, CAP_NONE, CAP_NONE, CAP_NONE) in
  Inv s hold [] [] [h4; h3; h2; h1] → quiet s → k_locks s = [] → hold o = [h4; h3; h2; h1] →
  slot_key (k_holders s) h1 p 0 → slot_key (k_holders s) h2 p 1 →
  slot_key (k_holders s) h3 fp 2 → slot_key (k_holders s) h4 fp 3 →
  0 ≤ o < k_obj_next s → o < CAP_OBJECT_MAX → o_active (object o s) = 1 → 0 ≤ c < CAP_CHAN_MAX →
  table_of (k_table_pid s) p ti → table_of (k_table_pid s) fp (if fti <? 0 then ti else fti) →
  (0 ≤ fti → fti ≠ ti) →
  wp (let* fslots := if 0 <=? fti then mint_far fti o else ret (Some (CAP_NONE, CAP_NONE)) in
      let* slots := match fslots with
                    | None => ret None
                    | Some far_ends => mint_near ti fti o far_ends
                    end in
      match slots with
      | None =>
          do* cap_lock (LObj o);
          do* cap_holder_remove o HOLDER_SLOT p 0;
          do* cap_holder_remove o HOLDER_SLOT p 1;
          do* cap_holder_remove o HOLDER_SLOT fp 2;
          do* cap_holder_remove o HOLDER_SLOT fp 3;
          do* cap_unlock (LObj o);
          do* cap_object_destroy o;
          do* set_channel c (set_c_active 0);
          ret (CAP_ETABLEFULL, none)
      | Some (rd, wr, frd, fwr) =>
          do* cap_lock (LObj o);
          do* set_holder h1 (set_h_ref rd);
          do* set_holder h2 (set_h_ref wr);
          do* set_holder h3 (set_h_ref frd);
          do* set_holder h4 (set_h_ref fwr);
          do* cap_unlock (LObj o);
          ret (0, (rd, wr, frd, fwr))
      end) (λ _ s', kernel_ok s') s.
Proof.
  intros p fp none HI Hq Hl Hh K1 K2 K3 K4 Ho Hmax Ha Hc Ht Htf Hne. rewrite wp_bind.
  assert (∀ T' a b x y, let s' := set_k_tables T' s in
    Inv s' hold [] [(ti, a); (ti, b); (if fti <? 0 then ti else fti, x); (if fti <? 0 then ti else fti, y)]
      [h4; h3; h2; h1] →
    carries s' o ti a → carries s' o ti b → carries s' o (if fti <? 0 then ti else fti) x →
    carries s' o (if fti <? 0 then ti else fti) y →
    wp (do* cap_lock (LObj o); do* set_holder h1 (set_h_ref a); do* set_holder h2 (set_h_ref b);
        do* set_holder h3 (set_h_ref x); do* set_holder h4 (set_h_ref y); do* cap_unlock (LObj o);
        ret (0, (a, b, x, y))) (λ _ s', kernel_ok s') s') as Hok.
  { intros T' a b x y s' HI' Ca Cb Cx Cy. rewrite wp_bind, wp_cap_lock by lk Hl. rewrite wp_bind.
    eapply (wp_attach_four o p fp ti (if fti <? 0 then ti else fti) a b x y); try done.
    intros H' s1 HI1. rewrite wp_bind. unlock Hl. rewrite wp_ret. by finish_ok. }
  destruct (fti <? 0) eqn:Ef; [apply Z.ltb_lt in Ef|apply Z.ltb_ge in Ef].
  - replace (0 <=? fti) with false by (symmetry; apply Z.leb_gt; lia). rewrite wp_ret, wp_bind.
    eapply (wp_mint_near ti fti o); [exact HI|by rewrite Hl; apply not_elem_of_nil|apply Ht|..];
      [by apply (table_of_bound _ p)|lia|done|..].
    + intros T' s' HI' _. eapply (chan_fail_ok _ _ _ p fp h1 h2 h3 h4 _ hold []); try done.
      by intros ? ? ?%not_elem_of_nil.
    + intros a b x y T' s'. replace (fti <? 0) with true by (symmetry; by apply Z.ltb_lt).
      intros (HI' & Cx & Cy) Ca Cb. by apply Hok.
  - replace (0 <=? fti) with true by (symmetry; by apply Z.leb_le).
    eapply (wp_mint_far fti o); [exact HI|by rewrite Hl; apply not_elem_of_nil|apply Htf|..];
      [by apply (table_of_bound _ fp)|lia|..].
    + intros T' s' HI'. rewrite wp_bind, wp_ret.
      eapply (chan_fail_ok _ _ _ p fp h1 h2 h3 h4 _ hold []); try done.
      by intros ? ? ?%not_elem_of_nil.
    + intros x y T1 s1 HI1 Cx Cy. rewrite wp_bind.
      eapply (wp_mint_near ti fti o); [exact HI1|lk Hl|apply Ht|..]; [by apply (table_of_bound _ p)|lia|done|..].
      * intros T' s' HI' Hk. eapply (chan_fail_ok _ _ _ p fp h1 h2 h3 h4 _ hold); try done.
        intros t i Hin. repeat (apply elem_of_cons in Hin as [[= -> ->]|Hin]);
          [by apply Hk; [mem|]|by apply Hk; [mem|]|by apply not_elem_of_nil in Hin].
      * intros a b x' y' T' s'. replace (fti <? 0) with false by (symmetry; by apply Z.ltb_ge).
        intros (HI' & -> & -> & Hk) Ca Cb. apply (Hok T' a b x y); try done; by apply Hk.
Qed.

Lemma chan_create_ok pid far_pid s :
  kernel_ok s → 0 ≤ pid < 2 ^ 16 → 0 ≤ far_pid < 2 ^ 16 →
  wp (cap_chan_create pid far_pid) (λ _ s', kernel_ok s') s.
Proof.
  intros Hs Hpid Hfpid. pose proof Hs as (hold & HI & Hq & Hl)%kernel_ok_inv. unfold cap_chan_create. cbv zeta.
  rewrite wp_bind. eapply wp_table_index; [exact HI|done|exact Hs|].
  intros ti T1 P1 s1 HI1 Hti _ _ _. replace (ti <? 0) with false by (symmetry; apply Z.ltb_ge, Hti).
  assert (k_locks s1 = []) as Hl1 by exact Hl. assert (quiet s1) as Hq1 by exact Hq.
  change P1 with (k_table_pid s1) in Hti. clearbody s1. rewrite wp_bind.
  set (far := negb (far_pid =? 0) && negb (far_pid =? pid)).
  match goal with |- wp _ ?K _ => assert (∀ fti s2, Inv s2 hold [] [] [] → quiet s2 → k_locks s2 = [] →
    table_of (k_table_pid s2) pid ti →
    (if far then table_of (k_table_pid s2) far_pid fti ∧ fti ≠ ti else fti = -1) → K fti s2) as Hrest end.
  { clear s Hs HI Hq Hl s1 HI1 Hti Hl1 Hq1. intros fti s HI Hq Hl Hti Hfti.
    assert (far && (fti <? 0) = false) as ->.
    { destruct far; [|done]. apply Z.ltb_ge, Hfti. }
    rewrite wp_bind. eapply wp_chan_id_take; [exact HI|lk Hl|by simpl; finish_ok|].
    intros c next R rn s1 Hc Hfresh HI1.
    replace (c =? CAP_CHAN_NONE) with false by (symmetry; apply Z.eqb_neq; unfold CAP_CHAN_NONE, CAP_CHAN_MAX in *; lia).
    assert (k_locks s1 = []) as Hl1 by exact Hl. assert (quiet s1) as Hq1 by exact Hq.
    change (k_table_pid s) with (k_table_pid s1) in Hti, Hfti. clearbody s1. clear s HI Hq Hl.
    rewrite wp_bind. unfold cap_lock_init. rewrite wp_cap_unlock, lock_init_quiet, wp_bind by done.
    eapply wp_inv_set_channel; [exact HI1|done|by apply chan_ok_reset, (inv_chans HI1)|].
    intros s2 HI2. assert (k_locks s2 = []) as Hl2 by exact Hl1. assert (quiet s2) as Hq2 by exact Hq1.
    assert (chan_fresh s2 c) as Hf2 by exact Hfresh. change (k_table_pid s1) with (k_table_pid s2) in Hti, Hfti.
    clearbody s2. clear s1 HI1 Hl1 Hq1 Hfresh.
    rewrite wp_bind. apply wp_object_alloc; [lk Hl2|lk Hl2|..]; intros Hmax.
    { rewrite wp_bind. eapply wp_inv_chan_id_put; [exact HI2|lk Hl2|done|].
      intros nx R' rn' s3 HI3. rewrite wp_bind.
      eapply wp_inv_set_channel; [exact HI3|done|by apply chan_ok_active, (inv_chans HI3)|].
      intros s4 HI4. rewrite wp_ret. by finish_ok. }
    unfold set_object. rewrite wp_bind, wp_modify, upd_with_obj.
    set (ob := set_o_chan_id _ _). set (o := k_obj_next s2) in *.
    assert (u16 c = c) as Euc by (apply u16_small; unfold CAP_CHAN_MAX in Hc; lia).
    assert (Inv (with_obj ob s2) hold [] [] []) as HI3.
    { apply inv_new_object; try done. intros _. simpl. by rewrite Euc. }
    assert (quiet (with_obj ob s2)) as Hq3 by (by apply quiet_new).
    pose proof (oo_n _ _ _ (inv_objs HI2)) as Hn.
    assert (hold o = []) as Hnil by (destruct (inv_hold HI2) as [fr Hok]; by eapply hold_beyond).
    set (s3 := with_obj ob s2) in *. assert (k_locks s3 = []) as Hl3 by exact Hl2.
    assert (0 ≤ o < k_obj_next s3) as Ho by (change (k_obj_next s3) with (o + 1); lia).
    assert (object o s3 = ob) as Eo by apply aget_upd_eq.
    change (k_table_pid s2) with (k_table_pid s3) in Hti, Hfti.
    clear HI2 Hl2 Hq2 Hf2 Hn. clearbody s3 o. clear s2.
    rewrite wp_bind, wp_cap_lock by lk Hl3. rewrite wp_bind.
    apply (wp_alloc_four o _ _ _ hold []); [exact HI3|lk Hl3|..].
    { intros H' f' s4 HI4. rewrite wp_bind. unlock Hl3. rewrite wp_bind.
      eapply (wp_inv_object_destroy _ hold [] [] []); [exact HI4|done|done|apply not_elem_of_nil|].
      intros I nx R' rn' s5 HI5. rewrite wp_ret. finish_ok; [by apply quiet_kill|done]. }
    intros h1 h2 h3 h4 H' f' s4 HI4 E1 E2 E3 E4. rewrite wp_bind.
    eapply (wp_link_four o (u16 pid) (if negb (far_pid =? 0) then u16 far_pid else u16 pid) h1 h2 h3 h4 s4 hold []);
      try done; [by change (o_active (object o s3) = 1); rewrite Eo
                |by change (o_revoking (object o s3) = 0); rewrite Eo|].
    intros H5 O5 hold5 s5 M5 K5 X5 HI5. rewrite wp_bind. unlock Hl3.
    match goal with |- wp _ _ ?s => set (s6 := s) end.
    eapply (chan_slots_ok o c pid far_pid ti fti h1 h2 h3 h4 s6 hold5); try done.
    + by apply (quiet_metas s3).
    + apply (slot_key_hkey H'); [apply K5|]. unfold slot_key. by rewrite E1.
    + apply (slot_key_hkey H'); [apply K5|]. unfold slot_key. by rewrite E2.
    + apply (slot_key_hkey H'); [apply K5|]. unfold slot_key. by rewrite E3.
    + apply (slot_key_hkey H'); [apply K5|]. unfold slot_key. by rewrite E4.
    + change (o_active O5.[o] = 1). destruct (metas_fields _ _ o M5) as (_ & _ & _ & -> & _).
      change (o_active (object o s3) = 1). by rewrite Eo.
    + by rewrite u16_small.
    + unfold far in Hfti. destruct (far_pid =? 0) eqn:E0; simpl in Hfti |- *.
      { subst fti. by rewrite u16_small. }
      destruct (far_pid =? pid) eqn:Ep; simpl in Hfti.
      { apply Z.eqb_eq in Ep as ->. subst fti. by rewrite u16_small. }
      destruct Hfti as [Hft _]. replace (fti <? 0) with false by (symmetry; apply Z.ltb_ge, Hft).
      by rewrite u16_small.
    + destruct far; [by intros; apply Hfti|lia]. }
  destruct far eqn:Efar.
  - eapply wp_table_index; [exact HI1|done|by finish_ok|].
    intros fti T2 P2 s2 HI2 Hfti _ _ Hkeep. apply Hrest; try done; [by apply Hkeep|].
    split; [done|]. intros ->. destruct Hfti as (_ & E1 & _). destruct (Hkeep _ _ Hti) as (_ & E2 & _).
    apply andb_true_iff in Efar as [_ E%negb_true_iff%Z.eqb_neq]. congruence.
  - rewrite wp_ret. by apply Hrest.
Qed.
