(* ===== verification/CapMsgInv.v ===== *)
(** [cap_send], [cap_recv], [cap_send_msg] and [cap_recv_msg] keep the invariant, on
    every path, and never fault: ring entries, the moves of a capability between a
    slot and a ring entry, and the operations built from them. *)

From stdpp Require Import base gmap list list_numbers.
From Stdlib Require Import ZArith Lia Bool.
From S2P Require Import Prelude FramePool CapWord Sidecar CapState CapPools CapOps CapMsg Wp.
From S2P Require Import HolderSpec CapInv ArenaSpec CapInvPools CapInvObj CapCreateInv.
From S2P Require Import CapChanInv.
#[local] Open Scope Z_scope.
#[local] Open Scope carr_scope.
#[local] Open Scope cap_scope.
#[local] Opaque Z.to_nat Z.div Z.modulo.

(** * Ring entries *)

(** Channels up to the contents of their rings and their [active] flag. *)
Definition rings_same (C C' : gmap Z CapChannel) : Prop :=
  ∀ c, set_c_active 0 (set_c_q ∅ C'.[c]) = set_c_active 0 (set_c_q ∅ C.[c]).

Lemma rings_same_refl C : rings_same C C.
Proof. done. Qed.

Lemma rings_same_trans C1 C2 C3 : rings_same C1 C2 → rings_same C2 C3 → rings_same C1 C3.
Proof. intros H1 H2 c. by rewrite H2. Qed.

Lemma rings_same_chans C C' : chans_same C C' → rings_same C C'.
Proof.
  intros H c. specialize (H c). destruct C'.[c], C.[c]. by simplify_eq/=.
Qed.

Lemma rings_same_depth C C' c : rings_same C C' → c_qdepth C'.[c] = c_qdepth C.[c].
Proof. intros H. specialize (H c). destruct C'.[c], C.[c]. by simplify_eq/=. Qed.

Lemma chans_same_q C C' c : chans_same C C' → c_q C'.[c] = c_q C.[c].
Proof. intros H. specialize (H c). destruct C'.[c], C.[c]. by simplify_eq/=. Qed.

Lemma rings_same_upd C c q : rings_same C C.[c <- set_c_q q C.[c]].
Proof.
  intros x. rewrite aget_upd. destruct (Z.eqb_spec c x) as [<-|]; [|done]. by destruct C.[c].
Qed.

Lemma wp_get_message c d e s (Q : ChanMsg → KState → Prop) :
  0 ≤ c < CAP_CHAN_MAX → wp (get_message c d e) Q s = Q (message c d e s) s.
Proof. intros Hc. unfold get_message. by rewrite wp_bind, wp_in_bounds, wp_gets. Qed.

Lemma wp_get_channel c s (Q : CapChannel → KState → Prop) :
  0 ≤ c < CAP_CHAN_MAX → wp (get_channel c) Q s = Q (channel c s) s.
Proof. intros Hc. unfold get_channel. by rewrite wp_bind, wp_in_bounds, wp_gets. Qed.

Lemma wp_get_slot ti i s (Q : Z → KState → Prop) :
  0 ≤ i < CAP_TABLE_ENTRIES → wp (get_slot ti i) Q s = Q (slot ti i s) s.
Proof. intros Hi. unfold get_slot. by rewrite wp_bind, wp_in_bounds, wp_gets. Qed.

Lemma wp_get_object o s (Q : CapObject → KState → Prop) : wp (get_object o) Q s = Q (object o s) s.
Proof. apply wp_gets. Qed.

(** Writing one ring entry. *)
Lemma wp_inv_set_message c d e f s hold L U G (Q : unit → KState → Prop) :
  Inv s hold L U G → 0 ≤ c < CAP_CHAN_MAX → msg_ok (f (message c d e s)) →
  (∀ C', let s' := set_k_channels C' s in
     rings_same (k_channels s) C' → message c d e s' = f (message c d e s) →
     Inv s' hold L U G → Q tt s') →
  wp (set_message c d e f) Q s.
Proof.
  intros HI Hc Hm HQ. unfold set_message. rewrite wp_bind, wp_in_bounds, wp_modify by done.
  unfold upd_message, upd_channel. apply HQ.
  - apply rings_same_upd.
  - unfold message, channel. kred. by rewrite aget_upd_eq; cbn; rewrite !aget_upd_eq.
  - apply inv_set_channels; [done|]. apply chans_ok_upd; [exact (inv_chans HI)|].
    destruct (inv_chans HI c) as [Hd Hq]. split; [done|]. intros d' e'. cbn. rewrite aget_upd.
    destruct (Z.eqb_spec d d') as [<-|]; [|apply Hq]. rewrite aget_upd.
    destruct (Z.eqb_spec e e') as [<-|]; [exact Hm|apply Hq].
Qed.

Lemma inv_msg s hold L U G c d e : Inv s hold L U G → msg_ok (message c d e s).
Proof. intros HI. apply (inv_chans HI c). Qed.

Lemma valid_queue_word w :
  cap_word_valid w = true → 0 ≤ w < 2 ^ 64 → w_type w ≠ CAP_TYPE_IRQ → queue_word_ok w ∧ w ≠ 0.
Proof.
  intros Hv Hr Ht. split; [right; auto|by intros ->].
Qed.

(** An occupied ring word that is not stamped is a valid word. *)
Lemma queue_word_valid w :
  queue_word_ok w → w ≠ 0 → w_state w ≠ CAP_STATE_REVOKED →
  cap_word_valid w = true ∧ 0 ≤ w < 2 ^ 64 ∧ w_type w ≠ CAP_TYPE_IRQ.
Proof. intros [->|(Hr & [Hv|] & Ht)] Hn Hs; done. Qed.

(** Emptying a position. *)
Lemma msg_ok_clear i m : msg_ok m → msg_ok (set_cap_word i 0 m).
Proof.
  intros [H1 H2 H3 H4 H5]. split; try done.
  - intros j. cbn. rewrite aget_upd. destruct (i =? j); [by left|apply H2].
  - intros j k Hj Hk. cbn. rewrite !aget_upd. destruct (i =? j); [done|]. destruct (i =? k); [done|]. by apply H3.
Qed.

Lemma zero_caps_spec m :
  m_n_caps (zero_caps m) = m_n_caps m ∧ m_payload_idx (zero_caps m) = m_payload_idx m ∧
  m_payload_len (zero_caps m) = m_payload_len m ∧
  ∀ j, (m_cap_word (zero_caps m)).[j] = if (0 <=? j) && (j <? CAP_MSG_MAX_CAPS) then 0 else (m_cap_word m).[j].
Proof.
  unfold zero_caps.
  apply (for_up_ind (λ k m', m_n_caps m' = m_n_caps m ∧ m_payload_idx m' = m_payload_idx m ∧
    m_payload_len m' = m_payload_len m ∧
    ∀ j, (m_cap_word m').[j] = if (0 <=? j) && (j <? k) then 0 else (m_cap_word m).[j])).
  - split_and!; try done. intros j. by zcase; try lia.
  - intros k m' Hk (E1 & E2 & E3 & Hw). split_and!; [exact E1|exact E2|exact E3|]. intros j. cbn. rewrite aget_upd, Hw.
    destruct (Z.eqb_spec k j) as [<-|Hne].
    + by replace (k <? k + 1) with true by lia; replace (0 <=? k) with true by lia.
    + replace (j <? k + 1) with (j <? k) by lia. done.
Qed.

(** A message whose positions below [k] hold the listed words and nothing else. *)
Lemma msg_ok_zero m : msg_ok m → msg_ok (zero_caps m).
Proof.
  intros [H1 H2 H3 H4 H5]. destruct (zero_caps_spec m) as (E1 & E2 & E3 & Hw). split; rewrite ?E1, ?E2, ?E3; try done.
  - intros j. rewrite Hw. destruct (_ && _); [by left|apply H2].
  - intros i j Hi Hj. rewrite Hw. by replace ((0 <=? i) && (i <? CAP_MSG_MAX_CAPS)) with true by lia.
Qed.

(** Filling an empty position with an object no other position names. *)
Lemma msg_ok_fill i w m :
  msg_ok m → 0 ≤ i < CAP_MSG_MAX_CAPS → queue_word_ok w →
  (∀ j, 0 ≤ j < CAP_MSG_MAX_CAPS → j ≠ i → (m_cap_word m).[j] ≠ 0 → w_obj (m_cap_word m).[j] ≠ w_obj w) →
  msg_ok (set_cap_word i w m).
Proof.
  intros [H1 H2 H3 H4 H5] Hi Hw Hd. split; try done.
  - intros j. cbn. rewrite aget_upd. by destruct (i =? j).
  - intros j k Hj Hk. cbn. rewrite !aget_upd. destruct (Z.eqb_spec i j) as [<-|], (Z.eqb_spec i k) as [<-|].
    + lia.
    + intros _ Hnz E. apply (Hd k); [lia|lia| |done]. by intros E0; rewrite E0 in Hnz.
    + intros Hnz _. apply Hd; [lia|done|]. by intros E0; rewrite E0 in Hnz.
    + by apply H3.
Qed.

Lemma chan_ok_enqueue d ch : chan_ok ch → (c_qdepth ch).[d] < CHAN_QUEUE_DEPTH → chan_ok (enqueue d ch).
Proof.
  intros [Hd Hm] Hlt. split; [|done]. intros x. cbn. rewrite aget_upd. specialize (Hd x) as Hx.
  destruct (Z.eqb_spec d x) as [<-|]; [|done]. unfold CHAN_QUEUE_DEPTH in *. rewrite u32_small; lia.
Qed.

Lemma chan_ok_dequeue d ch : chan_ok ch → (c_qdepth ch).[d] ≠ 0 → chan_ok (dequeue d ch).
Proof.
  intros [Hd Hm] Hlt. split; [|done]. intros x. cbn. rewrite aget_upd. specialize (Hd x) as Hx.
  destruct (Z.eqb_spec d x) as [<-|]; [|done]. unfold CHAN_QUEUE_DEPTH in *. rewrite u32_small; lia.
Qed.

(** * What a slot word names *)

(** A slot that holds a valid word is occupied. *)
Lemma inv_slot_word s hold L U G ti i :
  Inv s hold L U G → 0 ≤ ti < CAP_TABLE_MAX → 0 ≤ i < CAP_TABLE_ENTRIES → ((ti, i) ∉ U) →
  cap_word_valid (slot ti i s) = true → 0 ≤ slot ti i s < 2 ^ 64.
Proof.
  intros HI Hti Hi HU Hv. destruct (inv_slots HI) as (tf & Hs & Hl).
  destruct (slots_ok_hand _ _ _ _ ti i Hs) as [_ Hlv]; try done. by apply (lk_word _ _ _ _ _ _ _ _ _ Hl).
Qed.

(** A pid that has a valid word had its table before the call. *)
Lemma table_was_bound s hold pid ti i P' :
  Inv s hold [] [] [] → table_of P' pid ti → (∀ tj p, table_of (k_table_pid s) p tj → table_of P' p tj) →
  0 ≤ i < CAP_TABLE_ENTRIES → cap_word_valid (slot ti i s) = true → table_of (k_table_pid s) pid ti.
Proof.
  intros HI Hti Hkeep Hi Hv. destruct (decide ((k_table_pid s).[ti] = 0 ∧ 0 < ti)) as [[E0 Hpos]|Hb].
  - exfalso. destruct (inv_slots HI) as (tf & Hso & _). destruct Hti as (Ht & _).
    destruct (so_in _ _ _ _ Hso ti i) as [_ E]; [apply (so_unbound _ _ _ _ Hso); [lia|done|done]|].
    by apply valid_not_free in Hv.
  - destruct Hti as (Ht & EP & Hz).
    assert (table_of (k_table_pid s) (k_table_pid s).[ti] ti) as Ht'.
    { split; [done|]. split; [done|]. intros E. lia. }
    destruct (Hkeep _ _ Ht') as (_ & E' & _). rewrite <-EP, E'. exact Ht'.
Qed.

(** The channel object a word names. *)
Lemma chan_object_Some s hold L U G w o :
  Inv s hold L U G → chan_object w s = Some o →
  0 ≤ o < k_obj_next s ∧ o_active (object o s) = 1 ∧ 0 ≤ o_chan_id (object o s) < CAP_CHAN_MAX.
Proof.
  intros HI. unfold chan_object. destruct (cap_object_get (w_obj w) s) as [x|] eqn:E; [|done].
  destruct (Z.eqb_spec (o_kind (object x s)) CAP_OBJ_KIND_CHAN) as [Ek|]; [|done]. intros [= <-].
  destruct (object_get_Some s hold L U G _ _ HI E) as (_ & Hx & Ha & _); [apply w_obj_range|].
  do 2 (split; [done|]). by apply (oo_chan _ _ _ (inv_objs HI)).
Qed.

Lemma payload_object s hold L U G w o :
  Inv s hold L U G → quiet s → cap_object_get (w_obj w) s = Some o →
  o = w_obj w ∧ 0 ≤ o < k_obj_next s ∧ o_active (object o s) = 1 ∧ o_id (object o s) = o ∧
  o_revoking (object o s) = 0.
Proof.
  intros HI Hq E. destruct (object_get_Some s hold L U G _ _ HI E) as (E1 & Hx & Ha & Hid); [apply w_obj_range|].
  do 4 (split; [done|]). by apply Hq.
Qed.

(** * Moving a capability *)

Lemma tab_frame_trans T1 T2 T3 ti i : tab_frame T1 T2 ti i → tab_frame T2 T3 ti i → tab_frame T1 T3 ti i.
Proof.
  intros [A1 B1] [A2 B2]. split.
  - intros tj j Hne. by rewrite A2, A1.
  - intros tj. destruct (B2 tj) as [-> ->]. apply B1.
Qed.

(** From a slot to a ring entry: the sequence shared by [cap_send] and
    [cap_send_msg]. *)
Lemma wp_move_out {B} pid ti i o c r d s hold (kn ks : M B) (Q : B → KState → Prop) :
  Inv s hold [] [] [] → LPool ∉ k_locks s → table_of (k_table_pid s) pid ti → 0 ≤ i < CAP_TABLE_ENTRIES →
  cap_word_valid (slot ti i s) = true → w_obj (slot ti i s) = o → 0 ≤ o < k_obj_next s →
  o_active (object o s) = 1 → o_revoking (object o s) = 0 →
  0 ≤ c < CAP_CHAN_MAX → 0 ≤ r < CHAN_QUEUE_DEPTH * CAP_MSG_MAX_CAPS → d = 0 ∨ d = 1 →
  wp kn Q s →
  (∀ hold' H' f' O' T', let s' := set_k_tables T' (hp H' f' O' s) in
     metas (k_objects s) O' → tab_frame (k_tables s) T' ti i → w_type (slot ti i s') = CAP_TYPE_NONE →
     Inv s' hold' [] [] [] → wp ks Q s') →
  wp (cap_holder_alloc o HOLDER_QUEUE c r d) (λ hq s1, wp (match hq with
     | None => kn
     | Some hq => do* cap_holder_remove o HOLDER_SLOT pid i; do* set_slot ti i 0; do* cap_slot_push ti i;
                  do* cap_holder_link hq o; ks
     end) Q s1) s.
Proof.
  intros HI Hl Hti Hi Hv Hw Ho Ha Hr Hc Hrr Hd Hkn Hks.
  eapply wp_inv_holder_alloc; [exact HI|done|done|].
  intros h H1 f1 s1 Hh Hfree _ E1 Eoth HI1. rewrite wp_bind.
  eapply (wp_inv_remove_slot o pid ti i s1 hold [h] []); try done; [apply not_elem_of_nil|].
  intros hold2 H2 f2 O2 s2 (M2 & F2 & X2 & Y2) HI2. rewrite wp_bind.
  apply wp_set_slot; [done|]. set (s3 := set_k_tables _ s2). rewrite wp_bind.
  assert (Inv s3 hold2 [h] [(ti, i)] []) as HI3 by (apply inv_set_slot; [done|mem]).
  eapply (wp_slot_push ti i s3 hold2 [h] [] [] []); [exact HI3|].
  intros T4 s4 F4 N4 HI4. rewrite wp_bind.
  assert (H2.[h] = new_node o HOLDER_QUEUE c r d) as Eh.
  { rewrite F2; [exact E1|apply Hfree|done]. }
  destruct (metas_fields _ _ o M2) as (_ & _ & R2 & A2 & _).
  eapply (wp_inv_holder_link h o s4 hold2 [] [] [] []); try done.
  { change (o_active O2.[o] = 1). by rewrite A2. } { change (o_revoking O2.[o] = 0). by rewrite R2. }
  { change (h_obj_id H2.[h] = o). by rewrite Eh. } { change (h_prev H2.[h] = CAP_FREELIST_END). by rewrite Eh. }
  intros H5 O5 s5 K5 M5 F5 HI5.
  destruct (hkey_fields _ _ (K5 h)) as (_ & Ep & Er & Ek & Ed). change (k_holders s4) with H2 in Ep, Er, Ek, Ed.
  rewrite Eh in Ep, Er, Ek, Ed.
  apply (Hks (hold_upd hold2 o (h :: hold2 o)) H5 f2 O5 T4).
  - by eapply metas_trans.
  - eapply tab_frame_trans; [apply tab_upd_frame|exact F4].
  - done.
  - eapply (inv_attach_queue s5 _ [] [] [] h); [exact HI5|exact Ek|..].
    + change (0 ≤ h_pid H5.[h] < CAP_CHAN_MAX). by rewrite Ep.
    + change (0 ≤ h_ref H5.[h] < CHAN_QUEUE_DEPTH * CAP_MSG_MAX_CAPS). by rewrite Er.
    + change (h_qdir H5.[h] = 0 ∨ h_qdir H5.[h] = 1). by rewrite Ed.
Qed.

(** From a ring entry to a slot. *)
Lemma wp_install_queued pid ti c d e i o s hold (Q : Z + Z → KState → Prop) :
  Inv s hold [] [] [] → LPool ∉ k_locks s → table_of (k_table_pid s) pid ti → 0 ≤ pid < 2 ^ 16 →
  0 ≤ c < CAP_CHAN_MAX → 0 ≤ o < k_obj_next s → o_active (object o s) = 1 → o_revoking (object o s) = 0 →
  cap_word_valid (m_cap_word (message c d e s)).[i] = true → 0 ≤ (m_cap_word (message c d e s)).[i] < 2 ^ 64 →
  w_obj (m_cap_word (message c d e s)).[i] = o → w_type (m_cap_word (message c d e s)).[i] ≠ CAP_TYPE_IRQ →
  (∀ er T', let s' := set_k_tables T' s in Inv s' hold [] [] [] → er ≠ 0 → Q (inr er) s') →
  (∀ ns hold' H' f' O' T', let s' := set_k_tables T' (hp H' f' O' s) in
     0 ≤ ns < CAP_TABLE_ENTRIES → metas (k_objects s) O' → tab_frame (k_tables s) T' ti ns →
     slot ti ns s' = (m_cap_word (message c d e s)).[i] → Inv s' hold' [] [] [] → Q (inl ns) s') →
  wp (install_queued pid ti c d e i o) Q s.
Proof.
  intros HI Hl Hti Hpid Hc Ho Ha Hr Hv Hw Hobj Hty Herr HQ. unfold install_queued. rewrite wp_bind.
  assert (o_id (object o s) = o) as Hid by by apply (oo_id _ _ _ (inv_objs HI)).
  eapply (wp_slot_pop ti s hold [] [] []); [exact HI|apply Hti|by apply (table_of_bound _ pid)|..].
  { specialize (Herr CAP_ETABLEFULL (k_tables s)). destruct s. by apply Herr. }
  intros ns T1 s1 Hns _ _ F1 E1 HI1. rewrite wp_bind, wp_get_object.
  change (object o s1) with (object o s). rewrite Hid, wp_bind, u16_small by done.
  eapply (wp_inv_holder_alloc o HOLDER_SLOT pid ns 0 s1 hold [] [(ti, ns)] []); [exact HI1|done|..].
  { rewrite wp_bind. eapply (wp_slot_push ti ns s1 hold [] [] [] []); [exact HI1|].
    intros T2 s2 _ _ HI2. by apply (Herr CAP_ENOMEM T2). }
  intros h H2 f2 s2 Hh Hfree _ E2 Eoth HI2. rewrite wp_bind.
  eapply (wp_inv_remove_queue o _ _ s2 hold [h] [(ti, ns)]); try done.
  intros hold3 H3 f3 O3 s3 (M3 & F3 & X3 & Y3) HI3. rewrite wp_bind.
  assert (H3.[h] = new_node o HOLDER_SLOT pid ns 0) as Eh.
  { rewrite F3; [exact E2|apply Hfree|done]. }
  destruct (metas_fields _ _ o M3) as (_ & _ & R3 & A3 & _).
  eapply (wp_inv_holder_link h o s3 hold3 [] [] [(ti, ns)] []); try done.
  { change (o_active O3.[o] = 1). by rewrite A3. } { change (o_revoking O3.[o] = 0). by rewrite R3. }
  { change (h_obj_id H3.[h] = o). by rewrite Eh. } { change (h_prev H3.[h] = CAP_FREELIST_END). by rewrite Eh. }
  intros H4 O4 s4 K4 M4 F4 HI4. rewrite wp_bind, wp_get_message, wp_bind by done.
  change (message c d e s4) with (message c d e s).
  eapply (wp_inv_fill_slot o pid ti ns _ h s4 (hold_upd hold3 o (h :: hold3 o)) [] []); try done.
  - rewrite hold_upd_eq. mem.
  - apply (slot_key_ext H3); [apply K4|]. unfold slot_key. rewrite Eh. done.
  - intros T5 s5 F5 E5 HI5. rewrite wp_ret.
    apply (HQ ns (hold_upd hold3 o (h :: hold3 o)) H4 f3 O4 T5); try done.
    + by eapply metas_trans.
    + by eapply tab_frame_trans; [exact F1|].
Qed.

(** * cap_send *)

Lemma queue_ref_range e i : 0 ≤ e < CHAN_QUEUE_DEPTH → 0 ≤ i < CAP_MSG_MAX_CAPS →
  queue_ref e i = e * CAP_MSG_MAX_CAPS + i ∧ 0 ≤ queue_ref e i < CHAN_QUEUE_DEPTH * CAP_MSG_MAX_CAPS.
Proof.
  unfold queue_ref, CHAN_QUEUE_DEPTH, CAP_MSG_MAX_CAPS. intros He Hi. rewrite u16_small; lia.
Qed.

Lemma entry_range a : 0 ≤ a mod CHAN_QUEUE_DEPTH < CHAN_QUEUE_DEPTH.
Proof. by apply Z.mod_pos_bound. Qed.

(** The end of a successful send. *)
Lemma send_tail_ok o c d e f ti s hold :
  Inv s hold [] [] [] → quiet s → k_locks s = [LChan c; LTable ti] → 0 ≤ c < CAP_CHAN_MAX →
  (c_qdepth (channel c s)).[d] < CHAN_QUEUE_DEPTH → msg_ok (f (message c d e s)) →
  wp (do* set_message c d e f;
      do* set_channel c (enqueue d);
      do* cap_unlock (LChan c);
      do* cap_unlock (LTable ti);
      let* chan_id := gets (fun s => o_chan_id (object o s)) in
      do* hook (HWakeChan chan_id);
      do* hook HHandoff;
      ret 0) (λ _ s', kernel_ok s') s.
Proof.
  intros HI Hq Hl Hc Hd Hm. rewrite wp_bind.
  eapply wp_inv_set_message; [exact HI|done|done|]. intros C1 s1 R1 _ HI1. rewrite wp_bind.
  eapply wp_inv_set_channel; [exact HI1|done| |].
  { apply chan_ok_enqueue; [apply (inv_chans HI1)|]. unfold channel. change (k_channels s1) with C1.
    by rewrite (rings_same_depth _ _ c R1). }
  intros s2 HI2. rewrite wp_bind. unlock Hl. rewrite wp_bind. unlock Hl.
  rewrite wp_bind, wp_gets, wp_bind, wp_hook, wp_bind, wp_hook, wp_ret. by finish_ok.
Qed.

(** The capability to send is not an interrupt capability: those name a vector, not
    an object. *)
Definition not_irq (pid i : Z) (s : KState) : Prop :=
  ∀ ti, table_of (k_table_pid s) pid ti → w_type (slot ti i s) ≠ CAP_TYPE_IRQ.

Lemma send_ok pid ch_w cap_idx cookie s :
  kernel_ok s → 0 ≤ pid < 2 ^ 16 → 0 ≤ ch_w < CAP_TABLE_ENTRIES →
  cap_idx = CAP_NONE ∨ 0 ≤ cap_idx < CAP_TABLE_ENTRIES → not_irq pid cap_idx s →
  wp (cap_send pid ch_w cap_idx cookie) (λ _ s', kernel_ok s') s.
Proof.
  intros Hs Hpid Hw Hcap Hirq. pose proof Hs as (hold & HI & Hq & Hl)%kernel_ok_inv. unfold cap_send. cbv zeta.
  rewrite wp_bind. eapply wp_table_index; [exact HI|done|exact Hs|].
  intros ti T1 P1 s1 HI1 Hti Eslot _ Hbound. replace (ti <? 0) with false by (symmetry; apply Z.ltb_ge, Hti).
  assert (0 ≤ cap_idx < CAP_TABLE_ENTRIES → cap_word_valid (slot ti cap_idx s1) = true →
    w_type (slot ti cap_idx s1) ≠ CAP_TYPE_IRQ) as Hirq1.
  { rewrite !Eslot. intros Hci Hv. apply Hirq. by eapply (table_was_bound s hold pid ti cap_idx P1). }
  assert (k_locks s1 = []) as Hl1 by exact Hl. assert (quiet s1) as Hq1 by exact Hq.
  change P1 with (k_table_pid s1) in Hti, Hbound. clearbody s1. clear s Hs HI Hq Hl Hirq Eslot Hbound.
  rewrite wp_bind, wp_cap_lock by lk Hl1. rewrite Hl1. set (s2 := set_k_locks _ s1).
  assert (Inv s2 hold [] [] []) as HI2 by exact HI1. assert (quiet s2) as Hq2 by exact Hq1.
  assert (k_locks s2 = [LTable ti]) as Hl2 by done. change (k_table_pid s1) with (k_table_pid s2) in Hti.
  change (slot ti cap_idx s1) with (slot ti cap_idx s2) in Hirq1.
  clearbody s2. clear s1 HI1 Hq1 Hl1.
  assert (∀ A (a : A), wp (do* cap_unlock (LTable ti); ret a) (λ _ s', kernel_ok s') s2) as Hfail.
  { intros A a. rewrite wp_bind. unlock Hl2. rewrite wp_ret. by finish_ok. }
  rewrite wp_bind, wp_get_slot by done.
  destruct (negb (cap_word_valid _)); [apply Hfail|]. destruct (negb (send_end_ok _)); [apply Hfail|].
  rewrite wp_bind, wp_gets. destruct (chan_object _ s2) as [co|] eqn:Eco; [|apply Hfail].
  destruct (chan_object_Some _ _ _ _ _ _ _ HI2 Eco) as (Hco & Aco & Hc). rewrite wp_bind, wp_gets.
  set (c := o_chan_id _) in *. rewrite wp_bind, wp_get_channel by done.
  destruct (c_active _ =? 0); [apply Hfail|]. set (d := if _ =? _ then 1 else 0).
  assert (d = 0 ∨ d = 1) as Hd by (unfold d; destruct (_ =? _); auto). clearbody d c. rewrite wp_bind.
  match goal with |- wp _ ?K _ => assert (∀ pl,
    match pl with
    | inl (Some (pw, o)) => pw = slot ti cap_idx s2 ∧ 0 ≤ cap_idx < CAP_TABLE_ENTRIES ∧
        cap_word_valid pw = true ∧ cap_object_get (w_obj pw) s2 = Some o
    | _ => True
    end → K pl s2) as Hrest end.
  { intros [pl|[]] Hpl; [|apply Hfail]. rewrite wp_bind, wp_cap_lock by lk Hl2. rewrite Hl2.
    set (s3 := set_k_locks _ s2). assert (Inv s3 hold [] [] []) as HI3 by exact HI2.
    rewrite wp_bind, wp_get_channel by done.
    destruct (Z.leb_spec CHAN_QUEUE_DEPTH (c_qdepth (channel c s3)).[d]) as [|Hroom].
    { rewrite wp_bind. unlock Hl2. rewrite wp_bind. unlock Hl2. rewrite wp_ret. by finish_ok. }
    pose proof (entry_range (c_qtail (channel c s3)).[d]) as He. set (e := _ mod _) in *. clearbody e.
    rewrite wp_bind. eapply wp_inv_set_message; [exact HI3|done|by apply msg_ok_zero; eapply inv_msg|].
    intros C4 s4 R4 E4 HI4. rewrite wp_bind.
    assert ((c_qdepth (channel c s4)).[d] < CHAN_QUEUE_DEPTH) as Hroom4.
    { unfold channel. change (k_channels s4) with C4. by rewrite (rings_same_depth _ _ c R4). }
    assert (∀ j, 0 ≤ j < CAP_MSG_MAX_CAPS → (m_cap_word (message c d e s4)).[j] = 0) as Hz.
    { intros j Hj. rewrite E4. destruct (zero_caps_spec (message c d e s3)) as (_ & _ & _ & ->).
      by replace ((0 <=? j) && (j <? CAP_MSG_MAX_CAPS)) with true by lia. }
    assert (k_locks s4 = [LChan c; LTable ti]) as Hl4 by done. assert (quiet s4) as Hq4 by exact Hq2.
    destruct pl as [[pw o]|].
    - destruct Hpl as (-> & Hci & Hv & Eo).
      destruct (payload_object s2 hold _ _ _ _ _ HI2 Hq2 Eo) as (Eow & Ho & Ha & Hid & Hr).
      pose proof (Hirq1 Hci Hv) as Hty.
      assert (0 ≤ slot ti cap_idx s2 < 2 ^ 64) as Hwr.
      { eapply inv_slot_word; [exact HI2|apply Hti|done|apply not_elem_of_nil|done]. }
      rewrite wp_bind, wp_cap_lock by lk Hl4. rewrite Hl4, wp_bind, wp_get_object.
      set (s5 := set_k_locks _ s4). change (object o s5) with (object o s2). rewrite Hr, Hid. simpl negb. cbv iota.
      rewrite wp_bind.
      destruct (queue_ref_range e 0 He) as [_ Hqr]; [done|].
      rewrite (u16_small pid), (u16_small c) by (done || unfold CAP_CHAN_MAX in Hc; lia).
      eapply (wp_move_out pid ti cap_idx o c (queue_ref e 0) d s5 hold); try done; [lk Hl4| |].
      { rewrite wp_bind. unlock Hl4. rewrite wp_bind. unlock Hl4. rewrite wp_bind. unlock Hl4.
        rewrite wp_ret. simpl. by finish_ok. }
      intros hold6 H6 f6 O6 T6 s6 M6 _ _ HI6. rewrite wp_bind.
      destruct (valid_queue_word _ Hv Hwr Hty) as [Hqw _].
      eapply wp_inv_set_message; [exact HI6|done| |].
      { assert (msg_ok (set_cap_word 0 (slot ti cap_idx s2) (message c d e s6))) as [].
        { apply msg_ok_fill; [by eapply inv_msg|done|done|]. intros j Hj _.
          change (message c d e s6) with (message c d e s4). by rewrite Hz. }
        by split. }
      intros C7 s7 R7 E7 HI7. rewrite wp_bind. unlock Hl4. rewrite wp_ret. simpl negb. cbv iota.
      eapply (send_tail_ok _ _ _ _ _ _ _ hold6); [exact HI7|by apply (quiet_metas s2)|done|done| |].
      + unfold channel. kred. rewrite (rings_same_depth _ _ c R7). exact Hroom4.
      + pose proof (inv_msg _ _ _ _ _ c d e HI7) as []. by split.
    - rewrite wp_bind. eapply wp_inv_set_message; [exact HI4|done| |].
      { pose proof (msg_ok_clear 0 _ (inv_msg _ _ _ _ _ c d e HI4)) as []. by split. }
      intros C7 s7 R7 E7 HI7. rewrite wp_ret. simpl negb. cbv iota.
      eapply (send_tail_ok _ _ _ _ _ _ _ hold); [exact HI7|exact Hq4|done|done| |].
      + unfold s7, channel. kred. rewrite (rings_same_depth _ _ c R7). exact Hroom4.
      + pose proof (inv_msg _ _ _ _ _ c d e HI7) as []. by split. }
  destruct (Z.eqb_spec cap_idx CAP_NONE) as [|Hne]; [rewrite wp_ret; by apply (Hrest (inl None))|].
  destruct Hcap as [|Hcap]; [done|]. rewrite wp_bind, wp_get_slot by done.
  destruct (cap_word_valid (slot ti cap_idx s2)) eqn:Hv; simpl negb; cbv iota;
    [|rewrite wp_ret; by apply (Hrest (inr tt))].
  rewrite wp_bind, wp_gets.
  destruct (cap_object_get _ s2) as [o|] eqn:Eo; rewrite wp_ret;
    [by apply (Hrest (inl (Some (_, o))))|by apply (Hrest (inr tt))].
Qed.

(** * Dropping queued capabilities *)

(** What dropping capabilities of one ring entry leaves alone. *)
Record drops (c d e : Z) (s s' : KState) : Prop := {
  dr_locks : k_locks s' = k_locks s;
  dr_tables : k_tables s' = k_tables s;
  dr_pids : k_table_pid s' = k_table_pid s;
  dr_next : k_obj_next s' = k_obj_next s;
  dr_rings : rings_same (k_channels s) (k_channels s');
  dr_caps : m_n_caps (message c d e s') = m_n_caps (message c d e s);
  dr_word : ∀ j, (m_cap_word (message c d e s')).[j] = (m_cap_word (message c d e s)).[j] ∨
                 (m_cap_word (message c d e s')).[j] = 0
}.

Lemma drops_refl c d e s : drops c d e s s.
Proof. split; auto using rings_same_refl. Qed.

Lemma drops_trans c d e s1 s2 s3 : drops c d e s1 s2 → drops c d e s2 s3 → drops c d e s1 s3.
Proof.
  intros [A1 A2 A3 A4 A5 A6 A7] [B1 B2 B3 B4 B5 B6 B7]. split; try congruence.
  intros j. destruct (B7 j) as [->| ->]; auto.
Qed.

Lemma ref_zero s hold L U G o : Inv s hold L U G → 0 ≤ o < k_obj_next s → o_revoking (object o s) = 0 →
  o_refcount (object o s) = 0 → hold o = [].
Proof.
  intros HI Ho Hr Hz. destruct (inv_hold HI) as [fr Hok]. pose proof (ho_ref Hok o Ho Hr) as E.
  unfold object in Hz. rewrite Hz in E. destruct (hold o); [done|]. simpl in E. lia.
Qed.

Lemma wp_drop_queued c d e i s hold (Q : Z * bool → KState → Prop) :
  Inv s hold [] [] [] → quiet s → LPool ∉ k_locks s → 0 ≤ c < CAP_CHAN_MAX → 0 ≤ i < CAP_MSG_MAX_CAPS →
  ((m_cap_word (message c d e s)).[i] ≠ 0 → LObj (w_obj (m_cap_word (message c d e s)).[i]) ∉ k_locks s) →
  (∀ r s' hold', drops c d e s s' → quiet s' → Inv s' hold' [] [] [] → Q r s') →
  wp (drop_queued c d e i) Q s.
Proof.
  intros HI Hq Hl Hc Hi Hlo HQ. unfold drop_queued.
  rewrite wp_bind, wp_in_bounds, wp_bind, wp_get_message by done. cbv zeta.
  destruct (Z.eqb_spec (m_cap_word (message c d e s)).[i] 0) as [Ez|Hnz].
  { rewrite wp_ret. by apply (HQ _ s hold); [apply drops_refl|..]. }
  specialize (Hlo Hnz). set (w := (m_cap_word (message c d e s)).[i]) in *. rewrite wp_bind, wp_gets, wp_bind.
  match goal with |- wp _ ?K _ => assert (∀ r s1 hold1, drops c d e s s1 → quiet s1 → Inv s1 hold1 [] [] [] →
    K r s1) as Hrest end.
  { intros r s1 hold1 D1 Hq1 HI1. rewrite wp_bind.
    eapply wp_inv_set_message; [exact HI1|done|by apply msg_ok_clear; eapply inv_msg|].
    intros C2 s2 R2 E2 HI2. rewrite wp_ret. apply (HQ _ s2 hold1); [|exact Hq1|done].
    eapply drops_trans; [exact D1|]. split; try done.
    - by rewrite E2.
    - intros j. rewrite E2. cbn. rewrite aget_upd. destruct (i =? j); auto. }
  destruct (cap_object_get (w_obj w) s) as [x|] eqn:Eo; [|rewrite wp_ret; by apply (Hrest _ s hold); [apply drops_refl|..]].
  destruct (payload_object s hold _ _ _ _ _ HI Hq Eo) as (Ex & Hx & Ha & Hid & Hr). rewrite <-Ex in Hlo.
  rewrite wp_bind, wp_cap_lock by done. set (s1 := set_k_locks _ s). rewrite wp_bind.
  eapply (wp_inv_remove_queue x _ _ s1 hold [] []); try done.
  { unfold s1. kred. rewrite not_elem_of_cons. by split. }
  intros hold2 H2 f2 O2 s2 (M2 & F2 & X2 & Y2) HI2. rewrite wp_bind, wp_get_object, wp_bind.
  assert (quiet s2) as Hq2 by (by apply (quiet_metas s)).
  destruct (Z.eqb_spec (o_refcount (object x s2)) 0) as [Ez|_].
  - destruct (metas_fields _ _ x M2) as (_ & _ & R2 & A2 & _). rewrite wp_bind.
    eapply (wp_inv_free_destroy_k s2 hold2 [] [] [] x); [exact HI2|done| | |].
    { eapply ref_zero; [exact HI2|done| |done]. change (o_revoking O2.[x] = 0). by rewrite R2. }
    { unfold s2, s1, hp. kred. rewrite not_elem_of_cons. by split. }
    intros r I nx R rn bm ow fc C s3 HI3 HC. rewrite wp_ret, wp_bind, wp_cap_unlock, wp_ret.
    set (s4 := set_k_locks _ s3).
    assert (k_channels s3 = C) as EC by done.
    assert (k_locks s4 = k_locks s) as El.
    { unfold s4, s3, s2, s1, killed, cids, arena, hp. kred. by rewrite lock_drop_head. }
    assert (quiet s3) as Hq3 by (apply quiet_kill; exact Hq2).
    apply (Hrest _ s4 hold2); [|by apply quiet_locks|by apply inv_locks]. split; try reflexivity; [exact El|..].
    + by apply rings_same_chans.
    + unfold message, channel. change (k_channels s4) with C. by rewrite (chans_same_q _ _ c HC).
    + intros j. left. unfold message, channel. change (k_channels s4) with C. by rewrite (chans_same_q _ _ c HC).
  - rewrite wp_ret, wp_bind, wp_cap_unlock, wp_ret. set (s4 := set_k_locks _ s2).
    assert (k_locks s4 = k_locks s) as El.
    { unfold s4, s2, s1, hp. kred. by rewrite lock_drop_head. }
    apply (Hrest _ s4 hold2); [|exact Hq2|exact HI2]. split; auto using rings_same_refl.
Qed.

Lemma wp_drop_range n i0 c d e s hold (Q : unit → KState → Prop) :
  Inv s hold [] [] [] → quiet s → LPool ∉ k_locks s → 0 ≤ c < CAP_CHAN_MAX →
  0 ≤ i0 → i0 + Z.of_nat n ≤ CAP_MSG_MAX_CAPS →
  (∀ j, i0 ≤ j < i0 + Z.of_nat n → (m_cap_word (message c d e s)).[j] ≠ 0 →
     LObj (w_obj (m_cap_word (message c d e s)).[j]) ∉ k_locks s) →
  (∀ s' hold', drops c d e s s' → quiet s' → Inv s' hold' [] [] [] → Q tt s') →
  wp (for_each n i0 (fun i _ => do* drop_queued c d e i; ret tt) tt) Q s.
Proof.
  intros HI Hq Hl Hc Hi0 Hn Hlo HQ.
  apply (wp_for_each (λ _ _ s', ∃ hold', drops c d e s s' ∧ quiet s' ∧ Inv s' hold' [] [] [])).
  - exists hold. by split; [apply drops_refl|].
  - intros j [] s1 Hj (hold1 & D1 & Hq1 & HI1). rewrite wp_bind.
    eapply (wp_drop_queued c d e j s1 hold1); [exact HI1|done| |done|lia| |].
    + by rewrite (dr_locks _ _ _ _ _ D1).
    + intros Hnz. rewrite (dr_locks _ _ _ _ _ D1). destruct (dr_word _ _ _ _ _ D1 j) as [E|E]; [|done].
      rewrite E in *. by apply Hlo.
    + intros r s2 hold2 D2 Hq2 HI2. rewrite wp_ret. exists hold2. split; [by eapply drops_trans|done].
  - intros [] s1 (hold1 & D1 & Hq1 & HI1). by apply (HQ s1 hold1).
Qed.

Lemma wp_drain_tail c d e s hold (Q : unit → KState → Prop) :
  Inv s hold [] [] [] → quiet s → LPool ∉ k_locks s → 0 ≤ c < CAP_CHAN_MAX →
  (∀ j, 1 ≤ j < m_n_caps (message c d e s) → (m_cap_word (message c d e s)).[j] ≠ 0 →
     LObj (w_obj (m_cap_word (message c d e s)).[j]) ∉ k_locks s) →
  (∀ s' hold', drops c d e s s' → quiet s' → Inv s' hold' [] [] [] → Q tt s') →
  wp (cap_msg_drain_tail c d e) Q s.
Proof.
  intros HI Hq Hl Hc Hlo HQ. unfold cap_msg_drain_tail. rewrite wp_bind, wp_get_message by done.
  pose proof (mo_caps _ (inv_msg _ _ _ _ _ c d e HI)) as Hm.
  unfold CAP_MSG_MAX_CAPS in Hm.
  eapply wp_drop_range; [exact HI|done|done|done|lia|unfold CAP_MSG_MAX_CAPS; lia| |exact HQ].
  intros j Hj. apply Hlo. lia.
Qed.

(** Releasing the payload buffer of a message. *)
Lemma wp_payload_free i s hold L U G (Q : unit → KState → Prop) :
  Inv s hold L U G → 0 ≤ i →
  (∀ N f, let s' := set_k_payload_free f (set_k_payload_next N s) in Inv s' hold L U G → Q tt s') →
  wp (cap_msg_payload_free i) Q s.
Proof.
  intros HI Hi HQ. unfold cap_msg_payload_free. destruct (Z.eqb_spec i CAP_NONE) as [|Hne]; simpl.
  { rewrite wp_ret. specialize (HQ (k_payload_next s) (k_payload_free s)). destruct s. by apply HQ. }
  destruct (Z.leb_spec CAP_MSG_PAYLOAD_POOL i) as [|Hlt]; simpl.
  { rewrite wp_ret. specialize (HQ (k_payload_next s) (k_payload_free s)). destruct s. by apply HQ. }
  rewrite wp_bind, wp_gets, wp_bind, wp_modify, wp_modify.
  apply (HQ (k_payload_next s).[i <- k_payload_free s] i).
  destruct HI as [A1 A2 A3 A4 A5 A6 [P1 P2] A8 A9]. split; try done. split; [by right|].
  intros j Hj. kred. rewrite aget_upd. destruct (i =? j); [exact P1|by apply P2].
Qed.

(** The queue is one message shorter, and the tables are as they were. *)
Record retired (c d : Z) (s s' : KState) : Prop := {
  re_locks : k_locks s' = k_locks s;
  re_tables : k_tables s' = k_tables s;
  re_pids : k_table_pid s' = k_table_pid s;
  re_next : k_obj_next s' = k_obj_next s;
  re_depth : (c_qdepth (channel c s')).[d] = (c_qdepth (channel c s)).[d] - 1
}.

Lemma wp_retire c d e s hold (Q : unit → KState → Prop) :
  Inv s hold [] [] [] → quiet s → 0 ≤ c < CAP_CHAN_MAX → (c_qdepth (channel c s)).[d] ≠ 0 →
  (∀ s', retired c d s s' → quiet s' → Inv s' hold [] [] [] → Q tt s') →
  wp (retire_message c d e) Q s.
Proof.
  intros HI Hq Hc Hd HQ. unfold retire_message. rewrite wp_bind.
  eapply wp_inv_set_message; [exact HI|done| |].
  { pose proof (inv_msg _ _ _ _ _ c d e HI) as []. by split. }
  intros C1 s1 R1 E1 HI1. rewrite wp_bind, wp_get_message, wp_bind by done.
  eapply wp_payload_free; [exact HI1|apply (inv_msg _ _ _ _ _ c d e HI1)|].
  intros N f s2 HI2. rewrite wp_bind. eapply wp_inv_set_message; [exact HI2|done| |].
  { change (message c d e s2) with (message c d e s1). rewrite E1.
    pose proof (inv_msg _ _ _ _ _ c d e HI) as []. by split. }
  intros C3 s3 R3 E3 HI3.
  assert (c_qdepth (channel c s3) = c_qdepth (channel c s)) as Ed.
  { unfold channel. change (k_channels s3) with C3. rewrite (rings_same_depth _ _ c R3).
    change (k_channels s2) with C1. by rewrite (rings_same_depth _ _ c R1). }
  pose proof (co_depth _ (inv_chans HI c) d) as Hdp.
  eapply wp_inv_set_channel; [exact HI3|done| |].
  { apply chan_ok_dequeue; [apply (inv_chans HI3)|]. by rewrite Ed. }
  intros s4 HI4. apply HQ; [|exact Hq|done]. split; try done.
  unfold channel, s4. kred. rewrite aget_upd_eq. cbn. rewrite aget_upd_eq, Ed.
  change (c_qdepth (k_channels s).[c]) with (c_qdepth (channel c s)) in *. unfold CHAN_QUEUE_DEPTH in Hdp.
  rewrite u32_small; lia.
Qed.

(** * cap_recv *)

(** The message a receive through slot [ch_r] of table [ti] would take. *)
Definition head_message (ti pid ch_r : Z) (s : KState) : option ChanMsg :=
  match chan_object (slot ti ch_r s) s with
  | None => None
  | Some o =>
      let c := o_chan_id (object o s) in
      let d := if pid =? c_end0_pid (channel c s) then 0 else 1 in
      if (c_qdepth (channel c s)).[d] =? 0 then None
      else Some (message c d ((c_qhead (channel c s)).[d] mod CHAN_QUEUE_DEPTH) s)
  end.

(** No capability of the message has been received already. *)
Definition whole_message (m : ChanMsg) : Prop :=
  ∀ j, 0 ≤ j < m_n_caps m → w_type (m_cap_word m).[j] ≠ CAP_TYPE_NONE.

Definition recv_whole (pid ch_r : Z) (s : KState) : Prop :=
  ∀ ti m, table_of (k_table_pid s) pid ti → head_message ti pid ch_r s = Some m → whole_message m.

Lemma wp_skip c d e s hold (Q : Z → KState → Prop) :
  Inv s hold [] [] [] → quiet s → LPool ∉ k_locks s → 0 ≤ c < CAP_CHAN_MAX →
  (∀ j, 1 ≤ j < m_n_caps (message c d e s) → (m_cap_word (message c d e s)).[j] ≠ 0 →
     LObj (w_obj (m_cap_word (message c d e s)).[j]) ∉ k_locks s) →
  (c_qdepth (channel c s)).[d] ≠ 0 →
  (∀ r s' hold', k_locks s' = k_locks s → quiet s' → Inv s' hold' [] [] [] → Q r s') →
  wp (skip_message c d e) Q s.
Proof.
  intros HI Hq Hl Hc Hlo Hd HQ. unfold skip_message. rewrite wp_bind.
  eapply wp_drain_tail; [exact HI|done|done|done|done|]. intros s1 hold1 D1 Hq1 HI1. rewrite wp_bind.
  eapply wp_inv_set_message; [exact HI1|done| |].
  { pose proof (inv_msg _ _ _ _ _ c d e HI1) as []. by split. }
  intros C2 s2 R2 E2 HI2. rewrite wp_bind, wp_get_message, wp_bind by done.
  eapply wp_retire; [exact HI2|exact Hq1|done| |].
  { unfold channel. change (k_channels s2) with C2. rewrite (rings_same_depth _ _ c R2).
    by rewrite (rings_same_depth _ _ c (dr_rings _ _ _ _ _ D1)). }
  intros s3 R3 Hq3 HI3. rewrite wp_ret. apply (HQ _ s3 hold1); try done.
  rewrite (re_locks _ _ _ _ R3). exact (dr_locks _ _ _ _ _ D1).
Qed.

(** The end of a receive. *)
Lemma recv_tail_ok {B} c d e ti (r : ChanMsg → B) s hold :
  Inv s hold [] [] [] → quiet s → k_locks s = [LChan c; LTable ti] → 0 ≤ c < CAP_CHAN_MAX →
  (c_qdepth (channel c s)).[d] ≠ 0 →
  wp (let* m := get_message c d e in
      do* retire_message c d e;
      do* cap_unlock (LChan c);
      do* cap_unlock (LTable ti);
      ret (r m)) (λ _ s', kernel_ok s') s.
Proof.
  intros HI Hq Hl Hc Hd. rewrite wp_bind, wp_get_message, wp_bind by done.
  eapply wp_retire; [exact HI|done|done|done|].
  intros s1 R1 Hq1 HI1. pose proof (re_locks _ _ _ _ R1) as Hl1. rewrite Hl in Hl1.
  rewrite wp_bind. unlock Hl1. rewrite wp_bind. unlock Hl1. rewrite wp_ret. by finish_ok.
Qed.

Lemma recv_ok pid ch_r block s :
  kernel_ok s → 0 ≤ pid < 2 ^ 16 → 0 ≤ ch_r < CAP_TABLE_ENTRIES → recv_whole pid ch_r s →
  wp (cap_recv pid ch_r block) (λ _ s', kernel_ok s') s.
Proof.
  intros Hs Hpid Hw Hwhole. pose proof Hs as (hold & HI & Hq & Hl)%kernel_ok_inv. unfold cap_recv. cbv zeta.
  rewrite wp_bind. eapply wp_table_index; [exact HI|done|exact Hs|].
  intros ti T1 P1 s1 HI1 Hti Hsl _ Hkeep. replace (ti <? 0) with false by (symmetry; apply Z.ltb_ge, Hti).
  assert (recv_end_ok (slot ti ch_r s1) = true → ∀ m, head_message ti pid ch_r s1 = Some m → whole_message m) as Hwh.
  { unfold recv_end_ok. intros [[Hv _]%andb_true_iff _]%andb_true_iff m. unfold head_message. rewrite Hsl in Hv |- *.
    apply (Hwhole ti m). by eapply table_was_bound. }
  clear Hwhole Hkeep Hsl.
  assert (k_locks s1 = []) as Hl1 by exact Hl. assert (quiet s1) as Hq1 by exact Hq.
  change P1 with (k_table_pid s1) in Hti. clearbody s1. clear s Hs HI Hq Hl.
  rewrite wp_bind, wp_cap_lock by lk Hl1. rewrite Hl1. set (s2 := set_k_locks _ s1).
  assert (Inv s2 hold [] [] []) as HI2 by exact HI1. assert (quiet s2) as Hq2 by exact Hq1.
  assert (k_locks s2 = [LTable ti]) as Hl2 by done. change (k_table_pid s1) with (k_table_pid s2) in Hti.
  change (recv_end_ok (slot ti ch_r s2) = true → ∀ m, head_message ti pid ch_r s2 = Some m → whole_message m) in Hwh.
  clearbody s2. clear s1 HI1 Hq1 Hl1.
  assert (∀ A (a : A), wp (do* cap_unlock (LTable ti); ret a) (λ _ s', kernel_ok s') s2) as Hfail.
  { intros A a. rewrite wp_bind. unlock Hl2. rewrite wp_ret. by finish_ok. }
  rewrite wp_bind, wp_get_slot by done. destruct (recv_end_ok _); [|apply Hfail].
  specialize (Hwh eq_refl). unfold head_message in Hwh. simpl negb. cbv iota.
  rewrite wp_bind, wp_gets. destruct (chan_object _ s2) as [co|] eqn:Eco; [|apply Hfail].
  destruct (chan_object_Some _ _ _ _ _ _ _ HI2 Eco) as (Hco & Aco & Hc). rewrite wp_bind, wp_gets.
  cbv zeta in Hwh. set (c := o_chan_id _) in *. rewrite wp_bind, wp_get_channel by done.
  destruct (c_active _ =? 0); [apply Hfail|]. set (d := if _ =? _ then 0 else 1) in *. clearbody d c.
  rewrite wp_bind, wp_cap_lock by lk Hl2. rewrite Hl2. set (s3 := set_k_locks _ s2).
  change (channel c s2) with (channel c s3) in Hwh.
  change (message c d ((c_qhead (channel c s3)).[d] mod CHAN_QUEUE_DEPTH) s2) with
    (message c d ((c_qhead (channel c s3)).[d] mod CHAN_QUEUE_DEPTH) s3) in Hwh.
  assert (Inv s3 hold [] [] []) as HI3 by exact HI2. assert (quiet s3) as Hq3 by exact Hq2.
  assert (k_locks s3 = [LChan c; LTable ti]) as Hl3 by done. change (k_table_pid s2) with (k_table_pid s3) in Hti.
  clearbody s3. clear Eco Hco Aco s2 HI2 Hq2 Hl2 Hfail.
  assert (∀ A (a : A) s4 hold4, Inv s4 hold4 [] [] [] → quiet s4 → k_locks s4 = k_locks s3 →
    wp (do* cap_unlock (LChan c); do* cap_unlock (LTable ti); ret a) (λ _ s', kernel_ok s') s4) as Hfail.
  { intros A a s4 hold4 HI4 Hq4 Hl4. rewrite Hl3 in Hl4. rewrite wp_bind. unlock Hl4. rewrite wp_bind. unlock Hl4.
    rewrite wp_ret. by finish_ok. }
  rewrite wp_bind, wp_get_channel by done.
  destruct (Z.eqb_spec (c_qdepth (channel c s3)).[d] 0) as [|Hroom].
  { rewrite wp_bind. unlock Hl3. rewrite wp_bind. unlock Hl3. rewrite wp_bind.
    destruct block; [rewrite wp_hook|]; rewrite wp_ret; by finish_ok. }
  pose proof (entry_range (c_qhead (channel c s3)).[d]) as He. set (e := _ mod _) in *. clearbody e.
  rewrite wp_bind, wp_get_message, wp_bind by done. set (m := message c d e s3) in *.
  pose proof (inv_msg _ _ _ _ _ c d e HI3) as Hm. fold m in Hm. specialize (Hwh m eq_refl).
  destruct (Z.ltb_spec 0 (m_n_caps m)) as [Hpos|].
  2: { rewrite wp_ret. eapply recv_tail_ok; done. }
  rewrite wp_bind, wp_gets. destruct (cap_object_get _ s3) as [o|] eqn:Eo.
  2: { rewrite wp_bind. eapply wp_skip; [exact HI3|done|lk Hl3|done| |done|].
       { intros j _ _. lk Hl3. }
       intros r s4 hold4 Hl4 Hq4 HI4. rewrite Hl3 in Hl4. rewrite wp_bind. unlock Hl4. rewrite wp_bind. unlock Hl4.
       rewrite !wp_ret. by finish_ok. }
  destruct (payload_object s3 hold _ _ _ _ _ HI3 Hq3 Eo) as (Eow & Ho & Ha & Hid & Hr).
  rewrite wp_bind, wp_cap_lock by lk Hl3. set (s4 := set_k_locks _ s3).
  assert (Inv s4 hold [] [] []) as HI4 by exact HI3. assert (quiet s4) as Hq4 by exact Hq3.
  assert (k_locks s4 = [LObj o; LChan c; LTable ti]) as Hl4 by (unfold s4; kred; by rewrite Hl3).
  rewrite wp_bind, wp_get_object. change (object o s4) with (object o s3). unfold revoked_in_flight. rewrite Hr.
  rewrite orb_false_r. destruct (Z.eqb_spec (w_state (m_cap_word m).[0]) CAP_STATE_REVOKED) as [Erev|Hnrev].
  { rewrite wp_bind. eapply (wp_skip c d e s4 hold); [exact HI4|done|lk Hl4|done| |done|].
    { intros j Hj Hnz. change (message c d e s4) with m in Hj. rewrite Hl4. apply not_elem_of_cons. split; [|lk Hl3]. intros [= E]. rewrite Eow in E.
      pose proof (mo_caps _ Hm). revert E. apply not_eq_sym, (mo_distinct _ Hm); [lia|lia|apply Hwh; lia|].
      apply Hwh. lia. }
    intros r s5 hold5 Hl5 Hq5 HI5. rewrite Hl4 in Hl5. rewrite wp_bind. unlock Hl5. rewrite wp_bind. unlock Hl5.
    rewrite wp_bind. unlock Hl5. rewrite !wp_ret. by finish_ok. }
  assert ((m_cap_word m).[0] ≠ 0) as Hnz.
  { intros E0. assert (0 ≤ 0 < m_n_caps m) as H0 by lia. apply (Hwh 0 H0). by rewrite E0. }
  destruct (queue_word_valid _ (mo_word _ Hm 0) Hnz Hnrev) as (Hv & Hvr & Hty). rewrite wp_bind.
  eapply (wp_install_queued pid ti c d e 0 o s4 hold); try done; [lk Hl4| |].
  { intros er T' s5 HI5 _. rewrite wp_bind. unlock Hl4. rewrite wp_bind. unlock Hl4.
    rewrite wp_bind. unlock Hl4. rewrite !wp_ret. by finish_ok. }
  intros ns hold5 H5 f5 O5 T5 s5 _ M5 _ _ HI5. rewrite wp_bind.
  eapply wp_inv_set_message; [exact HI5|done|by apply msg_ok_clear; eapply inv_msg|].
  intros C6 s6 R6 E6 HI6. rewrite wp_bind, wp_cap_unlock, wp_bind. set (s7 := set_k_locks _ s6).
  assert (k_locks s7 = [LChan c; LTable ti]) as Hl7.
  { unfold s7, s6, s5, hp. kred. rewrite Hl4. rewrite lock_drop_head by lk Hl3. done. }
  assert (Inv s7 hold5 [] [] []) as HI7 by exact HI6.
  assert (quiet s7) as Hq7 by (by apply (quiet_metas s3)).
  assert ((c_qdepth (channel c s7)).[d] ≠ 0) as Hroom7.
  { unfold channel. change (k_channels s7) with C6. by rewrite (rings_same_depth _ _ c R6). }
  clearbody s7. eapply wp_drain_tail; [exact HI7|done|lk Hl7|done| |].
  { intros j _ _. lk Hl7. }
  intros s8 hold8 D8 Hq8 HI8. rewrite wp_ret. eapply recv_tail_ok; [exact HI8|done| |done|].
  - by rewrite (dr_locks _ _ _ _ _ D8).
  - unfold channel. by rewrite (rings_same_depth _ _ c (dr_rings _ _ _ _ _ D8)).
Qed.
