(* ===== verification/CapVecInv.v ===== *)
(** [cap_send_msg] and [cap_recv_msg], the transfers of several capabilities with a
    payload, keep the invariant on every path and never fault. *)

From stdpp Require Import base gmap list list_numbers.
From Stdlib Require Import ZArith Lia Bool.
From S2P Require Import Prelude FramePool CapWord Sidecar CapState CapPools CapOps CapMsg Wp.
From S2P Require Import HolderSpec CapInv ArenaSpec CapInvPools CapInvObj CapCreateInv.
From S2P Require Import CapChanInv CapMsgInv.
#[local] Open Scope Z_scope.
#[local] Open Scope carr_scope.
#[local] Open Scope cap_scope.
#[local] Opaque Z.to_nat Z.div Z.modulo.

(** * Moving one capability of a message *)

(** What the moves of a message leave alone. *)
Record moves (s s' : KState) : Prop := {
  mv_locks : k_locks s' = k_locks s;
  mv_pids : k_table_pid s' = k_table_pid s;
  mv_next : k_obj_next s' = k_obj_next s;
  mv_metas : metas (k_objects s) (k_objects s');
  mv_rings : rings_same (k_channels s) (k_channels s')
}.

Lemma moves_refl s : moves s s.
Proof. by split. Qed.

Lemma moves_trans s1 s2 s3 : moves s1 s2 → moves s2 s3 → moves s1 s3.
Proof.
  intros [A1 A2 A3 A4 A5] [B1 B2 B3 B4 B5]. split; congruence.
Qed.

Lemma moves_quiet s s' : moves s s' → quiet s → quiet s'.
Proof. intros [_ _ E M _] Hq. by apply (quiet_metas s). Qed.

Lemma moves_object s s' o : moves s s' → 0 ≤ o < k_obj_next s → o_active (object o s) = 1 →
  0 ≤ o < k_obj_next s' ∧ o_active (object o s') = 1.
Proof.
  intros [_ _ -> M _] Ho Ha. split; [done|]. unfold object. by destruct (metas_fields _ _ o M) as (_ & _ & _ & -> & _).
Qed.

Lemma wp_move_to_queue pid ti c d e i o w dsc s hold (Q : bool → KState → Prop) :
  Inv s hold [] [] [] → quiet s → LPool ∉ k_locks s → LObj o ∉ k_locks s →
  table_of (k_table_pid s) pid ti → 0 ≤ pid < 2 ^ 16 → 0 ≤ d_slot dsc < CAP_TABLE_ENTRIES →
  slot ti (d_slot dsc) s = w → cap_word_valid w = true → w_type w = CAP_TYPE_MEM → w_obj w = o →
  0 ≤ o < k_obj_next s → o_active (object o s) = 1 →
  0 ≤ c < CAP_CHAN_MAX → (d = 0 ∨ d = 1) → 0 ≤ e < CHAN_QUEUE_DEPTH → 0 ≤ i < CAP_MSG_MAX_CAPS →
  (∀ j, 0 ≤ j < CAP_MSG_MAX_CAPS → j ≠ i → (m_cap_word (message c d e s)).[j] ≠ 0 →
     w_obj (m_cap_word (message c d e s)).[j] ≠ o) →
  Q false s →
  (∀ s' hold', moves s s' → tab_frame (k_tables s) (k_tables s') ti (d_slot dsc) →
     message c d e s' = put_cap i w dsc (message c d e s) → Inv s' hold' [] [] [] → Q true s') →
  wp (move_to_queue pid ti c d e i o w dsc) Q s.
Proof.
  intros HI Hq Hl Hlo Hti Hpid Hsl Ew Hv Hty Eo Ho Ha Hc Hd He Hi Hdist Hfalse Htrue. unfold move_to_queue.
  rewrite wp_bind, wp_cap_lock by done. set (s1 := set_k_locks _ s). rewrite wp_bind, wp_get_object.
  change (object o s1) with (object o s). rewrite (Hq o Ho Ha). simpl negb. cbv iota.
  assert (o_id (object o s) = o) as -> by by apply (oo_id _ _ _ (inv_objs HI)).
  assert (0 ≤ w < 2 ^ 64) as Hwr.
  { rewrite <-Ew. eapply inv_slot_word; [exact HI|apply Hti|done|apply not_elem_of_nil|by rewrite Ew]. }
  rewrite wp_bind, (u16_small pid), (u16_small c) by (done || unfold CAP_CHAN_MAX in Hc; lia).
  destruct (queue_ref_range e i He Hi) as [_ Hqr].
  assert (LPool ∉ k_locks s1) as Hl1 by (unfold s1; kred; rewrite not_elem_of_cons; done).
  eapply (wp_move_out pid ti (d_slot dsc) o c (queue_ref e i) d s1 hold); try done; try (by change (slot ti (d_slot dsc) s1) with (slot ti (d_slot dsc) s); rewrite Ew); [by apply Hq| |].
  { rewrite wp_bind, wp_cap_unlock, wp_ret. unfold s1. kred. rewrite lock_drop_head by done.
    replace (set_k_locks (k_locks s) _) with s by (by destruct s). done. }
  intros hold2 H2 f2 O2 T2 s2 M2 F2 _ HI2. rewrite wp_bind.
  destruct (valid_queue_word _ Hv Hwr) as [Hqw _]; [by rewrite Hty|].
  eapply wp_inv_set_message; [exact HI2|done| |].
  { assert (msg_ok (set_cap_word i w (message c d e s2))) as [].
    { apply msg_ok_fill; [by eapply inv_msg|done|done|]. by rewrite Eo. }
    by split. }
  intros C3 s3 R3 E3 HI3. rewrite wp_bind, wp_cap_unlock, wp_ret. set (s4 := set_k_locks _ s3).
  apply (Htrue s4 hold2); try done. split; try done.
  unfold s4, s3, s2, s1, hp. kred. by rewrite lock_drop_head.
Qed.

Lemma wp_move_back pid ti c d e i o w s hold (Q : unit → KState → Prop) :
  Inv s hold [] [] [] → quiet s → LPool ∉ k_locks s → LObj o ∉ k_locks s →
  table_of (k_table_pid s) pid ti → 0 ≤ pid < 2 ^ 16 →
  cap_word_valid w = true → 0 ≤ w < 2 ^ 64 → w_type w = CAP_TYPE_MEM → w_obj w = o →
  0 ≤ o < k_obj_next s → o_active (object o s) = 1 → 0 ≤ c < CAP_CHAN_MAX →
  (∀ s' hold', moves s s' → Inv s' hold' [] [] [] → Q tt s') →
  wp (move_back pid ti c d e i o w) Q s.
Proof.
  intros HI Hq Hl Hlo Hti Hpid Hv Hw Hty Eo Ho Ha Hc HQ. unfold move_back. pose proof (Hq o Ho Ha) as Hr.
  assert (o_id (object o s) = o) as Hid by by apply (oo_id _ _ _ (inv_objs HI)).
  rewrite wp_bind, wp_cap_lock by done. set (s1 := set_k_locks _ s). rewrite wp_bind.
  assert (LPool ∉ k_locks s1) as Hl1 by (unfold s1; kred; rewrite not_elem_of_cons; done).
  match goal with |- wp _ ?K _ => assert (∀ s2 hold2, moves s1 s2 → Inv s2 hold2 [] [] [] →
    wp (do* set_message c d e (set_cap_word i 0); cap_unlock (LObj o)) Q s2) as Hrest end.
  { intros s2 hold2 M2 HI2. rewrite wp_bind.
    eapply wp_inv_set_message; [exact HI2|done|by apply msg_ok_clear; eapply inv_msg|].
    intros C3 s3 R3 E3 HI3. rewrite wp_cap_unlock. apply (HQ _ hold2); [|exact HI3].
    destruct M2 as [B1 B2 B3 B4 B5]. split; kred; [|done|done|done|by eapply rings_same_trans].
    unfold s3. kred. rewrite B1. unfold s1. kred. by rewrite lock_drop_head. }
  eapply (wp_slot_pop ti s1 hold [] [] []); [exact HI|apply Hti|by apply (table_of_bound _ pid)|..].
  { rewrite wp_bind, wp_ret. by apply (Hrest s1 hold); [apply moves_refl|]. }
  intros sl T2 s2 Hsl _ _ F2 E2 HI2. rewrite wp_bind, wp_bind, wp_get_object.
  change (object o s2) with (object o s). rewrite Hid, wp_bind.
  eapply (wp_inv_remove_queue o _ _ s2 hold [] [(ti, sl)]); try done.
  intros hold3 H3 f3 O3 s3 (M3 & F3 & X3 & Y3) HI3. rewrite wp_bind, u16_small by done.
  destruct (metas_fields _ _ o M3) as (_ & _ & R3 & A3 & _).
  eapply (wp_inv_holder_alloc o HOLDER_SLOT pid sl 0 s3 hold3 [] [(ti, sl)] []); [exact HI3|done|..].
  { eapply (wp_slot_push ti sl s3 hold3 [] [] [] []); [exact HI3|].
    intros T4 s4 _ _ HI4. apply (Hrest s4 hold3); [|done]. by split. }
  intros h H4 f4 s4 Hh Hfree _ E4 Eoth HI4. rewrite wp_bind.
  eapply (wp_inv_holder_link h o s4 hold3 [] [] [(ti, sl)] []); try done.
  { change (o_active O3.[o] = 1). by rewrite A3. } { change (o_revoking O3.[o] = 0). by rewrite R3. }
  { change (h_obj_id H4.[h] = o). by rewrite E4. } { change (h_prev H4.[h] = CAP_FREELIST_END). by rewrite E4. }
  intros H5 O5 s5 K5 M5 F5 HI5.
  eapply (wp_inv_fill_slot o pid ti sl _ h s5 (hold_upd hold3 o (h :: hold3 o)) [] []); try done; [| |by rewrite Hty|].
  - rewrite hold_upd_eq. mem.
  - apply (slot_key_ext H4); [apply K5|]. unfold slot_key. rewrite E4. done.
  - intros T6 s6 F6 E6 HI6. apply (Hrest s6 (hold_upd hold3 o (h :: hold3 o))); [|done].
    split; try done. by eapply metas_trans.
Qed.

(** * cap_send_msg *)

(** What the validation of the descriptors establishes. *)
Definition validated (ti : Z) (descs : list SLSCapDesc) (s : KState) (objs : list (Z * Z)) : Prop :=
  ∀ k w o, objs !! k = Some (w, o) → ∃ dsc, descs !! k = Some dsc ∧ slot ti (d_slot dsc) s = w ∧
    cap_word_valid w = true ∧ w_type w = CAP_TYPE_MEM ∧ cap_object_get (w_obj w) s = Some o.

Lemma wp_validate ti descs n s (Q : list (Z * Z) + unit → KState → Prop) :
  0 ≤ n ≤ Z.of_nat (length descs) → Forall (λ dsc, 0 ≤ d_slot dsc < CAP_TABLE_ENTRIES) descs →
  Q (inr tt) s →
  (∀ objs, Z.of_nat (length objs) = n → validated ti descs s objs → Q (inl objs) s) →
  wp (validate_descs ti descs n) Q s.
Proof.
  intros Hn Hd Hfail HQ. unfold validate_descs.
  apply (wp_for_ctl (λ i objs s', s' = s ∧ Z.of_nat (length objs) = i ∧ validated ti descs s objs)).
  - done.
  - intros j objs s1 Hj (-> & Hlen & Hv). unfold get_desc.
    destruct (lookup_lt_is_Some_2 descs (Z.to_nat j)) as [dsc Ed]; [lia|]. rewrite Ed, wp_bind, wp_ret.
    rewrite Forall_lookup in Hd. rewrite wp_bind, wp_get_slot by (by eapply Hd).
    destruct (_ || _) eqn:Ev; [rewrite wp_ret; exact Hfail|]. apply orb_false_iff in Ev as [Ev%negb_false_iff Et%negb_false_iff%Z.eqb_eq].
    rewrite wp_bind, wp_gets. destruct (cap_object_get _ s) as [o|] eqn:Eo; rewrite wp_ret; [|exact Hfail]. split_and!; [done| |].
    + rewrite length_app. simpl. lia.
    + intros k w x. rewrite lookup_app_Some. intros [Hk|[Hk1 Hk2]]; [by apply Hv|].
      apply list_lookup_singleton_Some in Hk2 as [Hk2 [= <- <-]].
      exists dsc. split; [|done]. by replace k with (Z.to_nat j) by lia.
  - intros objs s1 (-> & Hlen & Hv). apply HQ; [lia|done].
Qed.

(** The descriptors of a message name distinct objects of the sender. *)
Definition grants_distinct (ti : Z) (descs : list SLSCapDesc) (s : KState) : Prop :=
  ∀ i j di dj, (i < j)%nat → descs !! i = Some di → descs !! j = Some dj →
    cap_word_valid (slot ti (d_slot di) s) = true → cap_word_valid (slot ti (d_slot dj) s) = true →
    w_obj (slot ti (d_slot di) s) ≠ w_obj (slot ti (d_slot dj) s).

Section Send.
Context (pid ti c d e : Z) (descs : list SLSCapDesc) (objs : list (Z * Z)) (s : KState).
Hypothesis Hq : quiet s.
Hypothesis Hl : (LPool ∉ k_locks s) ∧ ∀ o, LObj o ∉ k_locks s.
Hypothesis Hti : table_of (k_table_pid s) pid ti.
Hypothesis Hpid : 0 ≤ pid < 2 ^ 16.
Hypothesis Hc : 0 ≤ c < CAP_CHAN_MAX.
Hypothesis Hd : d = 0 ∨ d = 1.
Hypothesis He : 0 ≤ e < CHAN_QUEUE_DEPTH.
Hypothesis Hlen : Z.of_nat (length objs) ≤ CAP_MSG_MAX_CAPS.
Hypothesis Hslots : Forall (λ dsc, 0 ≤ d_slot dsc < CAP_TABLE_ENTRIES) descs.
Hypothesis Hvalid : validated ti descs s objs.
Hypothesis Hdistinct : grants_distinct ti descs s.

(** A validated descriptor. *)
Lemma validated_object hold k w o :
  Inv s hold [] [] [] → objs !! k = Some (w, o) →
  ∃ dsc, descs !! k = Some dsc ∧ 0 ≤ d_slot dsc < CAP_TABLE_ENTRIES ∧ slot ti (d_slot dsc) s = w ∧
    cap_word_valid w = true ∧ 0 ≤ w < 2 ^ 64 ∧ w_obj w = o ∧ 0 ≤ o < k_obj_next s ∧ o_active (object o s) = 1 ∧
    w_type w = CAP_TYPE_MEM.
Proof.
  intros HI Hk. destruct (Hvalid k w o Hk) as (dsc & Ed & Es & Hv & Ht & Eo). exists dsc.
  assert (0 ≤ d_slot dsc < CAP_TABLE_ENTRIES) as Hs by (rewrite Forall_lookup in Hslots; by eapply Hslots).
  destruct (payload_object s hold _ _ _ _ _ HI Hq Eo) as (E1 & E2 & E3 & _).
  do 4 (split; [done|]). split; [|by split; [|split; [|split]]].
  rewrite <-Es. eapply inv_slot_word; [exact HI|apply Hti|done|apply not_elem_of_nil|by rewrite Es].
Qed.

(** The state of the transfer when [j] capabilities have moved. *)
Definition moved (j : Z) (s' : KState) : Prop :=
  moves s s' ∧
  (∀ k dsc, j ≤ Z.of_nat k → (k < length objs)%nat → descs !! k = Some dsc →
     slot ti (d_slot dsc) s' = slot ti (d_slot dsc) s) ∧
  (∀ k w o, Z.of_nat k < j → objs !! k = Some (w, o) → (m_cap_word (message c d e s')).[Z.of_nat k] = w) ∧
  (∀ k, j ≤ k < CAP_MSG_MAX_CAPS → (m_cap_word (message c d e s')).[k] = 0).

Lemma moved_locks j s' : moved j s' → (LPool ∉ k_locks s') ∧ ∀ o, LObj o ∉ k_locks s'.
Proof. intros [[-> _ _ _ _] _]. exact Hl. Qed.

Lemma wp_move_all hold (Q : Z * bool → KState → Prop) :
  Inv s hold [] [] [] →
  (∀ k, 0 ≤ k < CAP_MSG_MAX_CAPS → (m_cap_word (message c d e s)).[k] = 0) →
  (∀ k fail s' hold', 0 ≤ k ≤ Z.of_nat (length objs) → moves s s' → Inv s' hold' [] [] [] → Q (k, fail) s') →
  wp (move_all pid ti c d e descs objs (Z.of_nat (length objs))) Q s.
Proof.
  intros HI Hz HQ. unfold move_all. rewrite wp_bind.
  apply (wp_for_ctl (λ j acc s', acc = (j, false) ∧ moved j s' ∧ ∃ hold', Inv s' hold' [] [] [])).
  - split; [done|]. split; [|by exists hold]. split; [apply moves_refl|]. split; [done|]. split; [intros; lia|done].
  - intros j acc s1 Hj (-> & Hm & hold1 & HI1). destruct (moved_locks j s1 Hm) as [Hl1 Hl2].
    rewrite Nat2Z.id in Hj. destruct Hm as (M1 & S1 & W1 & Z1).
    destruct (lookup_lt_is_Some_2 objs (Z.to_nat j)) as [[w o] Ek]; [lia|]. rewrite Ek.
    destruct (validated_object hold _ w o HI Ek) as (dsc & Ed & Hs & Es & Hv & Hw & Eo & Ho & Ha & Hty).
    unfold get_desc. rewrite Ed, wp_bind, wp_ret, wp_bind.
    destruct (moves_object s s1 o M1 Ho Ha) as [Ho1 Ha1]. pose proof (moves_quiet s s1 M1 Hq) as Hq1.
    assert (slot ti (d_slot dsc) s1 = w) as Es1 by (rewrite (S1 (Z.to_nat j)); [done|lia|lia|done]).
    eapply (wp_move_to_queue pid ti c d e j o w dsc s1 hold1); try done.
    + by rewrite (mv_pids _ _ M1).
    + lia.
    + intros k Hk Hne Hnz. destruct (Z.lt_ge_cases k j) as [Hlt|Hge]; [|rewrite Z1 in Hnz by lia; done].
      destruct (lookup_lt_is_Some_2 objs (Z.to_nat k)) as [[wk ok] Ekk]; [lia|].
      destruct (validated_object hold _ wk ok HI Ekk) as (dk & Edk & _ & Esk & Hvk & _ & Eok & _).
      pose proof (W1 (Z.to_nat k) wk ok) as Ewk. rewrite Z2Nat.id in Ewk by lia. rewrite Ewk by (done || lia).
      rewrite <-Eo, <-Esk, <-Es.
      apply (Hdistinct (Z.to_nat k) (Z.to_nat j)); [lia|done|done|by rewrite Esk|by rewrite Es].
    + rewrite wp_ret, wp_ret. apply (HQ j true s1 hold1); [lia|done|done].
    + intros s2 hold2 M2 F2 E2 HI2. rewrite wp_ret. split; [done|]. split; [|by exists hold2].
      split; [by eapply moves_trans|]. split; [|split].
      * intros k dk Hk Hkl Edk. rewrite <-(S1 k dk) by (done || lia). apply F2. intros [= E].
        destruct (lookup_lt_is_Some_2 objs k Hkl) as [[wk ok] Ekk].
        destruct (validated_object hold _ wk ok HI Ekk) as (dk' & Edk' & _ & Esk & Hvk & _).
        assert (dk' = dk) as -> by congruence.
        apply (Hdistinct (Z.to_nat j) k dsc dk); [lia|done|done|by rewrite Es|by rewrite Esk|by rewrite E].
      * intros k wk ok Hk Ekk. rewrite E2. cbn. rewrite aget_upd.
        destruct (Z.eqb_spec j (Z.of_nat k)) as [->|]; [rewrite Nat2Z.id in Ek; congruence|].
        apply (W1 k wk ok); [lia|done].
      * intros k Hk. rewrite E2. cbn. rewrite aget_upd. destruct (Z.eqb_spec j k); [lia|]. apply Z1. lia.
  - intros acc s1 (-> & Hm & hold1 & HI1). rewrite wp_ret. apply (HQ _ false s1 hold1); [lia|apply Hm|done].
Qed.

Lemma wp_move_back_all hold k s1 hold1 (Q : unit → KState → Prop) :
  Inv s hold [] [] [] → 0 ≤ k ≤ Z.of_nat (length objs) → moves s s1 → Inv s1 hold1 [] [] [] →
  (∀ s' hold', moves s s' → Inv s' hold' [] [] [] → Q tt s') →
  wp (for_each (Z.to_nat k) 0 (fun i _ =>
        match objs !! Z.to_nat i with
        | None => throw OutOfBounds
        | Some (w, obj) => move_back pid ti c d e i obj w
        end) tt) Q s1.
Proof.
  intros HI Hk M1 HI1 HQ.
  apply (wp_for_each (λ _ _ s', moves s s' ∧ ∃ hold', Inv s' hold' [] [] [])).
  - split; [done|by exists hold1].
  - intros j [] s2 Hj (M2 & hold2 & HI2).
    destruct (lookup_lt_is_Some_2 objs (Z.to_nat j)) as [[w o] Ek]; [lia|]. rewrite Ek.
    destruct (validated_object hold _ w o HI Ek) as (dsc & Ed & Hs & Es & Hv & Hw & Eo & Ho & Ha & Hty).
    destruct (moves_object s s2 o M2 Ho Ha) as [Ho2 Ha2]. pose proof (moves_quiet s s2 M2 Hq) as Hq2.
    eapply (wp_move_back pid ti c d e j o w s2 hold2); try done.
    + rewrite (mv_locks _ _ M2). apply Hl.
    + rewrite (mv_locks _ _ M2). apply Hl.
    + by rewrite (mv_pids _ _ M2).
    + intros s3 hold3 M3 HI3. split; [by eapply moves_trans|by exists hold3].
  - intros [] s2 (M2 & hold2 & HI2). by apply (HQ s2 hold2).
Qed.

End Send.

(** Binding a table to the sender keeps its grants distinct. *)
Lemma grants_table s hold pid ti descs P' :
  Inv s hold [] [] [] → table_of P' pid ti → (∀ tj p, table_of (k_table_pid s) p tj → table_of P' p tj) →
  (∀ tj, table_of (k_table_pid s) pid tj → grants_distinct tj descs s) →
  Forall (λ dsc, 0 ≤ d_slot dsc < CAP_TABLE_ENTRIES) descs → grants_distinct ti descs s.
Proof.
  intros HI Hti Hkeep Hg Hs i j di dj Hij Hi Hj Hv Hv'. rewrite Forall_lookup in Hs.
  apply (Hg ti) with (i := i) (j := j); try done. eapply (table_was_bound s hold pid ti (d_slot di)); try done. by eapply Hs.
Qed.

Lemma wp_payload_alloc s hold L U G (Q : option Z → KState → Prop) :
  Inv s hold L U G → Q None s →
  (∀ i f, let s' := set_k_payload_free f s in
     0 ≤ i < CAP_MSG_PAYLOAD_POOL → Inv s' hold L U G → Q (Some i) s') →
  wp cap_msg_payload_alloc Q s.
Proof.
  intros HI Hnone HQ. unfold cap_msg_payload_alloc. rewrite wp_bind, wp_gets.
  destruct (Z.eqb_spec (k_payload_free s) CAP_FREELIST_END) as [|Hne]; [by rewrite wp_ret|].
  pose proof HI as [A1 A2 A3 A4 A5 A6 [P1 P2] A8 A9]. destruct P1 as [|P1]; [done|].
  rewrite wp_bind, wp_in_bounds, wp_bind, wp_gets, wp_bind, wp_modify, wp_ret by done.
  apply HQ; [done|]. split; try done. split; [by apply P2|done].
Qed.

Lemma wp_free_staged i s hold L U G (Q : unit → KState → Prop) :
  Inv s hold L U G → 0 ≤ i →
  (∀ N f, let s' := set_k_payload_free f (set_k_payload_next N s) in Inv s' hold L U G → Q tt s') →
  wp (free_staged i) Q s.
Proof.
  intros HI Hi HQ. unfold free_staged. destruct (negb _); [by eapply wp_payload_free|].
  rewrite wp_ret. specialize (HQ (k_payload_next s) (k_payload_free s)). destruct s. by apply HQ.
Qed.

(** The caller's side of [cap_send_msg]: slot numbers below the table size, buffers as
    long as announced, and descriptors that name distinct objects. *)
Record send_args (pid ch_w : Z) (payload : option (list Z)) (payload_len : Z)
    (descs : list SLSCapDesc) (n_caps : Z) (s : KState) : Prop := {
  sa_pid : 0 ≤ pid < 2 ^ 16;
  sa_chan : 0 ≤ ch_w < CAP_TABLE_ENTRIES;
  sa_caps : 0 ≤ n_caps ≤ Z.of_nat (length descs);
  sa_slots : Forall (λ dsc, 0 ≤ d_slot dsc < CAP_TABLE_ENTRIES) descs;
  sa_plen : 0 ≤ payload_len;
  sa_len : ∀ bytes, payload = Some bytes → payload_len ≤ Z.of_nat (length bytes);
  sa_distinct : ∀ ti, table_of (k_table_pid s) pid ti → grants_distinct ti descs s
}.

Lemma send_msg_ok pid ch_w payload payload_len descs n_caps tag flags s :
  kernel_ok s → send_args pid ch_w payload payload_len descs n_caps s →
  wp (cap_send_msg pid ch_w payload payload_len descs n_caps tag flags) (λ _ s', kernel_ok s') s.
Proof.
  intros Hs [Hpid Hw Hn Hsl Hpl0 Hlen Hdist]. pose proof Hs as (hold & HI & Hq & Hl)%kernel_ok_inv.
  unfold cap_send_msg. cbv zeta.
  destruct (Z.ltb_spec CAP_MSG_MAX_CAPS n_caps) as [|Hmax]; [by rewrite wp_ret|].
  destruct (Z.ltb_spec CAP_MSG_MAX_PAYLOAD payload_len) as [|Hpl]; [by rewrite wp_ret|].
  destruct (_ && _) eqn:Epl; [by rewrite wp_ret|].
  rewrite wp_bind. eapply wp_table_index; [exact HI|done|exact Hs|].
  intros ti T1 P1 s1 HI1 Hti Hslots _ Hkeep. replace (ti <? 0) with false by (symmetry; apply Z.ltb_ge, Hti).
  assert (grants_distinct ti descs s1) as Hg.
  { assert (grants_distinct ti descs s) as Hg by (by eapply grants_table).
    intros i j di dj. rewrite !Hslots. apply Hg. }
  assert (k_locks s1 = []) as Hl1 by exact Hl. assert (quiet s1) as Hq1 by exact Hq.
  change P1 with (k_table_pid s1) in Hti. clearbody s1. clear s Hs HI Hq Hl Hdist Hslots Hkeep.
  rewrite wp_bind, wp_cap_lock by lk Hl1. rewrite Hl1. set (s2 := set_k_locks _ s1).
  assert (Inv s2 hold [] [] []) as HI2 by exact HI1. assert (quiet s2) as Hq2 by exact Hq1.
  assert (k_locks s2 = [LTable ti]) as Hl2 by done. change (k_table_pid s1) with (k_table_pid s2) in Hti.
  change (grants_distinct ti descs s2) in Hg.
  clearbody s2. clear s1 HI1 Hq1 Hl1.
  assert (∀ A (a : A), wp (do* cap_unlock (LTable ti); ret a) (λ _ s', kernel_ok s') s2) as Hfail.
  { intros A a. rewrite wp_bind. unlock Hl2. rewrite wp_ret. by finish_ok. }
  rewrite wp_bind, wp_get_slot by done.
  destruct (negb (cap_word_valid _)); [apply Hfail|]. destruct (negb (send_end_ok _)); [apply Hfail|].
  rewrite wp_bind, wp_gets. destruct (chan_object _ s2) as [co|] eqn:Eco; [|apply Hfail].
  destruct (chan_object_Some _ _ _ _ _ _ _ HI2 Eco) as (Hco & Aco & Hc). rewrite wp_bind, wp_gets.
  set (c := o_chan_id _) in *. rewrite wp_bind, wp_get_channel by done.
  destruct (c_active _ =? 0); [apply Hfail|]. set (d := if _ =? _ then 1 else 0).
  assert (d = 0 ∨ d = 1) as Hd by (unfold d; destruct (_ =? _); auto). clearbody d c.
  destruct (CHAN_QUEUE_DEPTH <=? _); [apply Hfail|]. rewrite wp_bind.
  apply wp_validate; [done|done|apply Hfail|]. intros objs Hobjs Hvalid. rewrite wp_bind.
  match goal with |- wp _ ?K _ => assert (∀ pidx s3, 
    (0 ≤ pidx < CAP_MSG_PAYLOAD_POOL ∨ (pidx = CAP_NONE ∧ payload_len ≤ 0)) →
    Inv s3 hold [] [] [] → quiet s3 → k_locks s3 = [LTable ti] → table_of (k_table_pid s3) pid ti →
    grants_distinct ti descs s3 → validated ti descs s3 objs → K (Some pidx) s3) as Hrest end.
  { clear s2 Hti HI2 Hq2 Hl2 Hg Hfail Eco Hco Aco Hvalid. intros pidx s3 Hpidx HI3 Hq3 Hl3 Hti Hg Hvalid.
    assert (0 ≤ pidx) as Hp0 by (destruct Hpidx as [|[-> _]]; [lia|done]).
    assert (∀ A (a : A) s4 hold4, Inv s4 hold4 [] [] [] → quiet s4 → k_locks s4 = [LChan c; LTable ti] →
      wp (do* cap_unlock (LChan c); do* free_staged pidx; do* cap_unlock (LTable ti); ret a)
        (λ _ s', kernel_ok s') s4) as Hfail.
    { intros A a s4 hold4 HI4 Hq4 Hl4. rewrite wp_bind. unlock Hl4. rewrite wp_bind.
      eapply wp_free_staged; [exact HI4|done|]. intros N f s5 HI5. rewrite wp_bind. unlock Hl4.
      rewrite wp_ret. by finish_ok. }
    rewrite wp_bind, wp_cap_lock by lk Hl3. rewrite Hl3. set (s4 := set_k_locks _ s3).
    assert (Inv s4 hold [] [] []) as HI4 by exact HI3. rewrite wp_bind, wp_get_channel by done.
    destruct (Z.leb_spec CHAN_QUEUE_DEPTH (c_qdepth (channel c s4)).[d]) as [|Hroom]; [by eapply Hfail|].
    pose proof (entry_range (c_qtail (channel c s4)).[d]) as He. set (e := _ mod _) in *. clearbody e.
    rewrite wp_bind. eapply wp_inv_set_message; [exact HI4|done|by apply msg_ok_zero; eapply inv_msg|].
    intros C5 s5 R5 E5 HI5. rewrite wp_bind.
    assert ((c_qdepth (channel c s5)).[d] < CHAN_QUEUE_DEPTH) as Hroom5.
    { unfold channel. change (k_channels s5) with C5. by rewrite (rings_same_depth _ _ c R5). }
    assert (∀ j, 0 ≤ j < CAP_MSG_MAX_CAPS → (m_cap_word (message c d e s5)).[j] = 0) as Hz.
    { intros j Hj. rewrite E5. destruct (zero_caps_spec (message c d e s4)) as (_ & _ & _ & ->).
      by replace ((0 <=? j) && (j <? CAP_MSG_MAX_CAPS)) with true by lia. }
    assert (k_locks s5 = [LChan c; LTable ti]) as Hl5 by done. assert (quiet s5) as Hq5 by exact Hq3.
    assert (validated ti descs s5 objs) as Hv5 by exact Hvalid.
    assert (grants_distinct ti descs s5) as Hg5 by exact Hg.
    change (k_table_pid s3) with (k_table_pid s5) in Hti. clearbody s5. clear s3 s4 HI3 Hq3 Hl3 HI4 Hroom Hvalid Hg R5 E5.
    assert ((LPool ∉ k_locks s5) ∧ ∀ o, LObj o ∉ k_locks s5) as Hlk by (split; [lk Hl5|intros o; lk Hl5]).
    rewrite <-Hobjs. eapply (wp_move_all pid ti c d e descs objs s5); try done; [lia|].
    intros k fail s6 hold6 Hk M6 HI6. cbn [fst snd]. destruct fail.
    - rewrite wp_bind. eapply (wp_move_back_all pid ti c d e descs objs s5); try done.
      intros s7 hold7 M7 HI7. rewrite wp_bind. eapply wp_inv_set_message; [exact HI7|done| |].
      { pose proof (inv_msg _ _ _ _ _ c d e HI7) as []. by split. }
      intros C8 s8 R8 E8 HI8. eapply Hfail; [exact HI8|exact (moves_quiet _ _ M7 Hq5)|].
      unfold s8. kred. by rewrite (mv_locks _ _ M7).
    - eapply (send_tail_ok _ _ _ _ _ _ _ hold6); [exact HI6|by eapply moves_quiet| |done| |].
      + by rewrite (mv_locks _ _ M6).
      + unfold channel. by rewrite (rings_same_depth _ _ c (mv_rings _ _ M6)).
      + pose proof (inv_msg _ _ _ _ _ c d e HI6) as [? ? ? ? ?]. unfold CAP_MSG_MAX_CAPS in *. split; try done; cbn.
        * rewrite u8_small by lia. unfold CAP_MSG_MAX_CAPS. lia.
        * destruct Hpidx as [Hpi|[-> Hneg]]; [lia|]. by replace payload_len with 0 by lia. }
  destruct (Z.ltb_spec 0 payload_len) as [Hpos|Hneg].
  - rewrite wp_bind. eapply wp_payload_alloc; [exact HI2|rewrite wp_ret; apply Hfail|].
    intros i f s3 Hi HI3. rewrite wp_bind. unfold stage_payload.
    destruct payload as [bytes|]; [|done]. specialize (Hlen bytes eq_refl).
    replace (Z.of_nat (length (default [] (Some bytes))) <? payload_len) with false by (symmetry; apply Z.ltb_ge; simpl; lia).
    rewrite wp_modify, wp_ret. apply Hrest; try done. by left.
  - rewrite wp_ret. apply Hrest; try done. by right.
Qed.

(** * cap_recv_msg *)

Section Recv.
Context `{CapEnv}.

Lemma wp_identity_map pid o w m i s (Q : unit → KState → Prop) :
  (∀ t, Q tt (set_k_trace t s)) → wp (identity_map_grant pid o w m i) Q s.
Proof.
  intros HQ. assert (Q tt s) as HQs by (specialize (HQ (k_trace s)); by destruct s).
  unfold identity_map_grant. cbv zeta. destruct (_ =? _); [|by rewrite wp_ret].
  destruct (negb _); [|by rewrite wp_ret]. rewrite wp_bind, wp_get_object, wp_hook. apply HQ.
Qed.

(** The descriptors a receive reports name slots of the receiver's table. *)
Definition in_table (caps : list SLSCapDesc) : Prop := Forall (λ d, 0 ≤ d_slot d < CAP_TABLE_ENTRIES) caps.

Lemma wp_install_caps pid ti c d e n s hold (Q : list SLSCapDesc + Z * list SLSCapDesc → KState → Prop) :
  Inv s hold [] [] [] → quiet s → (LPool ∉ k_locks s) ∧ (∀ o, LObj o ∉ k_locks s) →
  table_of (k_table_pid s) pid ti → 0 ≤ pid < 2 ^ 16 → 0 ≤ c < CAP_CHAN_MAX → n ≤ CAP_MSG_MAX_CAPS →
  (∀ r s' hold', moves s s' → in_table (match r with inl l => l | inr (_, l) => l end) →
     Inv s' hold' [] [] [] → Q r s') →
  wp (install_caps pid ti c d e n) Q s.
Proof.
  intros HI Hq [Hl Hlo] Hti Hpid Hc Hn HQ. unfold install_caps.
  apply (wp_for_ctl (λ _ acc s', moves s s' ∧ in_table acc ∧ ∃ hold', Inv s' hold' [] [] [])).
  - split; [apply moves_refl|]. split; [by constructor|by exists hold].
  - intros j acc s1 Hj (M1 & B1 & hold1 & HI1). pose proof (moves_quiet _ _ M1 Hq) as Hq1.
    rewrite <-(mv_locks _ _ M1) in Hl, Hlo. rewrite <-(mv_pids _ _ M1) in Hti.
    unfold CAP_MSG_MAX_CAPS in *. rewrite wp_bind, wp_in_bounds, wp_bind, wp_get_message by (done || lia). cbv zeta.
    destruct (Z.eqb_spec (m_cap_word (message c d e s1)).[j] 0) as [Ez|Hnz]; [rewrite wp_ret; eauto|].
    rewrite wp_bind, wp_gets. destruct (cap_object_get _ s1) as [o|] eqn:Eo; [|rewrite wp_ret; eauto].
    destruct (payload_object s1 hold1 _ _ _ _ _ HI1 Hq1 Eo) as (Eow & Ho & Ha & Hid & Hr).
    rewrite wp_bind, wp_cap_lock by done. set (s2 := set_k_locks _ s1). rewrite wp_bind, wp_get_object.
    assert (∀ l, lock_drop (LObj o) (LObj o :: k_locks s1) = l → l = k_locks s1) as Hdrop.
    { intros l <-. by rewrite lock_drop_head. }
    assert (LPool ∉ k_locks s2) as Hl2 by (unfold s2; kred; rewrite not_elem_of_cons; done).
    change (object o s2) with (object o s1). unfold revoked_in_flight. rewrite Hr, orb_false_r.
    destruct (Z.eqb_spec (w_state (m_cap_word (message c d e s1)).[j]) CAP_STATE_REVOKED) as [Erev|Hnrev].
    { rewrite wp_bind. eapply (wp_inv_set_message c d e _ s2 hold1); [exact HI1|done|by apply msg_ok_clear; eapply inv_msg|].
      intros C3 s3 R3 E3 HI3. rewrite wp_bind, wp_cap_unlock, wp_ret. split; [|split; [done|by exists hold1]].
      eapply moves_trans; [exact M1|]. split; try done. unfold s3, s2. kred. by rewrite lock_drop_head. }
    destruct (queue_word_valid _ (mo_word _ (inv_msg _ _ _ _ _ c d e HI1) j) Hnz Hnrev) as (Hv & Hvr & Hty). rewrite wp_bind.
    eapply (wp_install_queued pid ti c d e j o s2 hold1);
      [exact HI1|done|done|done|done|done|exact Ha|exact Hr|exact Hv|exact Hvr|exact (eq_sym Eow)|exact Hty|..].
    { intros er T' s3 HI3 _. rewrite wp_bind, wp_cap_unlock, wp_ret. apply (HQ _ _ hold1); [|exact B1|exact HI3].
      eapply moves_trans; [exact M1|]. split; try done. unfold s3, s2. kred. by rewrite lock_drop_head. }
    intros ns hold3 H3 f3 O3 T3 s3 Hns M3 _ _ HI3. rewrite wp_bind. apply wp_identity_map. intros t. rewrite wp_bind.
    eapply (wp_inv_set_message c d e _ _ hold3); [exact HI3|done|by apply msg_ok_clear; eapply inv_msg; exact HI3|].
    intros C4 s4 R4 E4 HI4. rewrite wp_bind, wp_cap_unlock, wp_ret.
    split; [|split; [by apply Forall_app; split; [|constructor]|by exists hold3]].
    eapply moves_trans; [exact M1|]. split; try done. unfold s4, s3, s2, hp. kred. by rewrite lock_drop_head.
  - intros acc s1 (M1 & B1 & hold1 & HI1). by apply (HQ _ _ hold1).
Qed.

Lemma recv_msg_ok pid ch_r buf_len max_caps s :
  kernel_ok s → 0 ≤ pid < 2 ^ 16 → 0 ≤ ch_r < CAP_TABLE_ENTRIES → 0 ≤ max_caps → 0 ≤ buf_len →
  wp (cap_recv_msg pid ch_r buf_len max_caps) (λ r s', kernel_ok s' ∧ in_table (r_caps r)) s.
Proof.
  intros Hs Hpid Hw Hmc Hbl. pose proof Hs as (hold & HI & Hq & Hl)%kernel_ok_inv. unfold cap_recv_msg. cbv zeta.
  set (mc := if CAP_MSG_MAX_CAPS <? max_caps then _ else _).
  assert (mc ≤ CAP_MSG_MAX_CAPS) as Hmc' by (unfold mc; destruct (Z.ltb_spec CAP_MSG_MAX_CAPS max_caps); lia).
  clearbody mc.
  rewrite wp_bind. eapply wp_table_index; [exact HI|done|by split; [|constructor]|].
  intros ti T1 P1 s1 HI1 Hti _ _ _. replace (ti <? 0) with false by (symmetry; apply Z.ltb_ge, Hti).
  assert (k_locks s1 = []) as Hl1 by exact Hl. assert (quiet s1) as Hq1 by exact Hq.
  change P1 with (k_table_pid s1) in Hti. clearbody s1. clear s Hs HI Hq Hl.
  rewrite wp_bind, wp_cap_lock by lk Hl1. rewrite Hl1. set (s2 := set_k_locks _ s1).
  assert (Inv s2 hold [] [] []) as HI2 by exact HI1. assert (quiet s2) as Hq2 by exact Hq1.
  assert (k_locks s2 = [LTable ti]) as Hl2 by done. change (k_table_pid s1) with (k_table_pid s2) in Hti.
  clearbody s2. clear s1 HI1 Hq1 Hl1.
  assert (∀ r, wp (do* cap_unlock (LTable ti); ret (recv_fail r [])) (λ r s', kernel_ok s' ∧ in_table (r_caps r)) s2) as Hfail.
  { intros r. rewrite wp_bind. unlock Hl2. rewrite wp_ret. split; [by finish_ok|by constructor]. }
  rewrite wp_bind, wp_get_slot by done. destruct (negb (recv_end_ok _)); [apply Hfail|].
  rewrite wp_bind, wp_gets. destruct (chan_object _ s2) as [co|] eqn:Eco; [|apply Hfail].
  destruct (chan_object_Some _ _ _ _ _ _ _ HI2 Eco) as (Hco & Aco & Hc). rewrite wp_bind, wp_gets.
  set (c := o_chan_id _) in *. rewrite wp_bind, wp_get_channel by done.
  destruct (c_active _ =? 0); [apply Hfail|]. set (d := if _ =? _ then 0 else 1). clearbody d c.
  rewrite wp_bind, wp_cap_lock by lk Hl2. rewrite Hl2. set (s3 := set_k_locks _ s2).
  assert (Inv s3 hold [] [] []) as HI3 by exact HI2. assert (quiet s3) as Hq3 by exact Hq2.
  assert (k_locks s3 = [LChan c; LTable ti]) as Hl3 by done. change (k_table_pid s2) with (k_table_pid s3) in Hti.
  clearbody s3. clear Eco Hco Aco s2 HI2 Hq2 Hl2 Hfail.
  assert (∀ r caps s4 hold4, in_table caps → Inv s4 hold4 [] [] [] → quiet s4 → k_locks s4 = k_locks s3 →
    wp (do* cap_unlock (LChan c); do* cap_unlock (LTable ti); ret (recv_fail r caps))
      (λ r s', kernel_ok s' ∧ in_table (r_caps r)) s4) as Hfail.
  { intros r caps s4 hold4 Hcaps HI4 Hq4 Hl4. rewrite Hl3 in Hl4. rewrite wp_bind. unlock Hl4. rewrite wp_bind. unlock Hl4.
    rewrite wp_ret. split; [by finish_ok|done]. }
  rewrite wp_bind, wp_get_channel by done.
  destruct (Z.eqb_spec (c_qdepth (channel c s3)).[d] 0) as [|Hroom]; [by eapply Hfail; [constructor|..]|].
  set (e := _ mod _) in *. clearbody e. rewrite wp_bind, wp_get_message, wp_bind by done.
  eapply (wp_install_caps pid ti c d e _ s3 hold); try done; [split; [lk Hl3|intros o; lk Hl3]|lia|].
  intros [caps|[er caps]] s4 hold4 M4 B4 HI4; pose proof (moves_quiet _ _ M4 Hq3) as Hq4;
    pose proof (mv_locks _ _ M4) as Hl4; [|by eapply Hfail].
  pose proof (mo_caps _ (inv_msg _ _ _ _ _ c d e HI4)) as Hm4. rewrite Hl3 in Hl4.
  rewrite wp_bind, wp_get_message, wp_bind by done. unfold CAP_MSG_MAX_CAPS in Hm4.
  eapply wp_drop_range; [exact HI4|done|lk Hl4|done|lia|unfold CAP_MSG_MAX_CAPS; lia|intros; lk Hl4|].
  intros s5 hold5 D5 Hq5 HI5. rewrite wp_bind, wp_get_message, wp_bind by done.
  pose proof (inv_msg _ _ _ _ _ c d e HI5) as Hm5. set (m := message c d e s5) in *.
  match goal with |- wp _ ?K _ => assert (K tt s5) as Hrest end.
  { rewrite wp_bind, wp_gets, wp_bind. eapply wp_payload_free; [exact HI5|apply (mo_idx _ Hm5)|].
    intros N f s6 HI6. rewrite wp_bind. eapply wp_inv_set_message; [exact HI6|done| |].
    { change (message c d e s6) with m. destruct Hm5. by split. }
    intros C7 s7 R7 E7 HI7. rewrite wp_bind. eapply wp_inv_set_channel; [exact HI7|done| |].
    { apply chan_ok_dequeue; [apply (inv_chans HI7)|]. unfold channel. change (k_channels s7) with C7.
      rewrite (rings_same_depth _ _ c R7). change (k_channels s6) with (k_channels s5).
      rewrite (rings_same_depth _ _ c (dr_rings _ _ _ _ _ D5)), (rings_same_depth _ _ c (mv_rings _ _ M4)). done. }
    intros s8 HI8. pose proof (dr_locks _ _ _ _ _ D5) as Hl5. rewrite Hl4 in Hl5.
    rewrite wp_bind. unlock Hl5. rewrite wp_bind. unlock Hl5. rewrite wp_bind, wp_gets, wp_bind, wp_hook, wp_ret.
    split; [by finish_ok|done]. }
  destruct (Z.ltb_spec 0 (Z.min (m_payload_len m) buf_len)) as [Hlt|]; [|by rewrite wp_ret].
  rewrite wp_in_bounds; [done|]. split; [apply (mo_idx _ Hm5)|apply (mo_pay _ Hm5); lia].
Qed.

End Recv.
