(* ===== verification/CapDropInv.v ===== *)
(** [cap_arena_free], the queue drain and the dropping of one slot of a dying table
    keep the invariant, on every path, and never fault. *)

From stdpp Require Import base gmap list list_numbers.
From Stdlib Require Import ZArith Lia Bool.
From S2P Require Import Prelude FramePool CapWord Sidecar CapState CapPools CapOps CapMsg.
From S2P Require Import CapRevoke Wp HolderSpec CapInv ArenaSpec CapInvPools CapInvObj.
From S2P Require Import CapCreateInv CapChanInv CapMsgInv.
#[local] Open Scope Z_scope.
#[local] Open Scope carr_scope.
#[local] Open Scope cap_scope.
#[local] Opaque Z.to_nat Z.div Z.modulo.

(** * Dropping the last reference *)

(** What a drop leaves alone. *)
Record keeps (s s' : KState) : Prop := {
  kp_locks : k_locks s' = k_locks s;
  kp_tables : k_tables s' = k_tables s;
  kp_pids : k_table_pid s' = k_table_pid s;
  kp_next : k_obj_next s' = k_obj_next s;
  kp_rings : rings_same (k_channels s) (k_channels s')
}.

Lemma keeps_refl s : keeps s s.
Proof. by split. Qed.

Lemma keeps_trans s1 s2 s3 : keeps s1 s2 → keeps s2 s3 → keeps s1 s3.
Proof. intros [A1 A2 A3 A4 A5] [B1 B2 B3 B4 B5]. split; congruence. Qed.

(** * cap_arena_free *)

Lemma arena_free_ok pid i s :
  kernel_ok s → 0 ≤ pid < 2 ^ 16 → 0 ≤ i < CAP_TABLE_ENTRIES →
  wp (cap_arena_free pid i) (λ _ s', kernel_ok s') s.
Proof.
  intros Hs Hpid Hi. pose proof Hs as (hold & HI & Hq & Hl)%kernel_ok_inv. unfold cap_arena_free.
  rewrite wp_bind. eapply wp_table_index; [exact HI|done|exact Hs|].
  intros ti T1 P1 s1 HI1 Hti _ _ _. replace (ti <? 0) with false by (symmetry; apply Z.ltb_ge, Hti).
  assert (k_locks s1 = []) as Hl1 by exact Hl. assert (quiet s1) as Hq1 by exact Hq.
  change P1 with (k_table_pid s1) in Hti. clearbody s1. clear s Hs HI Hq Hl.
  rewrite wp_bind, wp_cap_lock by lk Hl1. rewrite Hl1. set (s2 := set_k_locks _ s1).
  assert (Inv s2 hold [] [] []) as HI2 by exact HI1. assert (quiet s2) as Hq2 by exact Hq1.
  assert (k_locks s2 = [LTable ti]) as Hl2 by done. change (k_table_pid s1) with (k_table_pid s2) in Hti.
  clearbody s2. clear s1 HI1 Hq1 Hl1.
  assert (∀ A (a : A), wp (do* cap_unlock (LTable ti); ret a) (λ _ s', kernel_ok s') s2) as Hfail.
  { intros A a. rewrite wp_bind. unlock Hl2. rewrite wp_ret. by finish_ok. }
  rewrite wp_bind, wp_get_slot by done.
  destruct (_ || _) eqn:Ev; [apply Hfail|]. apply orb_false_iff in Ev as [Ev%negb_false_iff _].
  rewrite wp_bind, wp_gets. destruct (cap_object_get _ s2) as [o|] eqn:Eo; [|apply Hfail].
  destruct (payload_object s2 hold _ _ _ _ _ HI2 Hq2 Eo) as (Eow & Ho & Ha & Hid & Hr).
  rewrite wp_bind, wp_cap_lock by lk Hl2. set (s3 := set_k_locks _ s2). rewrite wp_bind, wp_get_object.
  change (object o s3) with (object o s2). rewrite Hr. simpl negb. cbv iota. rewrite wp_bind, u16_small by done.
  eapply (wp_inv_remove_slot o pid ti i s3 hold [] []); try done; [lk Hl2|apply not_elem_of_nil|].
  intros hold4 H4 f4 O4 s4 (M4 & _) HI4. rewrite wp_bind, wp_get_object.
  destruct (metas_fields _ _ o M4) as (_ & _ & R4 & A4 & _).
  assert (quiet s4) as Hq4 by (by apply (quiet_metas s2)).
  assert (k_locks s4 = [LObj o; LTable ti]) as Hl4 by (kst; by rewrite Hl2).
  match goal with |- wp (bind ?m ?k) ?Q _ => assert (∀ s5, keeps s4 s5 → quiet s5 → Inv s5 hold4 [] [(ti, i)] [] →
    wp (k tt) Q s5) as Hrest end.
  { intros s5 [K1 _ K3 _ _] Hq5 HI5. rewrite Hl4 in K1. rewrite wp_bind. unlock K1. rewrite wp_bind.
    apply wp_set_slot; [done|]. rewrite wp_bind.
    eapply (wp_slot_push ti i _ hold4 [] [] [] []); [apply inv_set_slot; [exact HI5|mem]|].
    intros T6 s6 _ _ HI6. rewrite wp_bind. unlock K1. rewrite wp_ret. by finish_ok. }
  rewrite wp_bind. destruct (Z.eqb_spec (o_refcount (object o s4)) 0) as [Ez|_].
  - rewrite wp_bind. eapply (wp_inv_free_destroy s4 hold4 [] [(ti, i)] [] o); [exact HI4|done| |lk Hl4|].
    { eapply ref_zero; [exact HI4|done| |done]. change (o_revoking O4.[o] = 0). by rewrite R4. }
    intros r I nx R rn bm ow fc C s5 HI5 HC. apply (Hrest s5); [|by apply quiet_kill|exact HI5].
    split; try reflexivity. by apply rings_same_chans.
  - rewrite wp_ret. by apply (Hrest s4); [apply keeps_refl|..].
Qed.

(** * Draining a queue *)

Lemma wp_drain_one c d acc s hold (Q : Z * Z → KState → Prop) :
  Inv s hold [] [] [] → quiet s → (LPool ∉ k_locks s) ∧ (∀ o, LObj o ∉ k_locks s) →
  0 ≤ c < CAP_CHAN_MAX → (c_qdepth (channel c s)).[d] ≠ 0 →
  (∀ a s' hold', retired c d s s' → quiet s' → Inv s' hold' [] [] [] → Q a s') →
  wp (drain_one c d acc) Q s.
Proof.
  intros HI Hq [Hl Hlo] Hc Hd HQ. unfold drain_one. rewrite wp_bind, wp_get_channel by done. cbv zeta.
  set (e := _ mod _). clearbody e. rewrite wp_bind.
  apply (wp_for_each (λ _ _ s', ∃ hold', drops c d e s s' ∧ quiet s' ∧ Inv s' hold' [] [] [])).
  - exists hold. by split; [apply drops_refl|].
  - intros j a s1 Hj (hold1 & D1 & Hq1 & HI1). rewrite wp_bind. unfold CAP_MSG_MAX_CAPS in Hj.
    eapply (wp_drop_queued c d e j s1 hold1); [exact HI1|done| |done|unfold CAP_MSG_MAX_CAPS; lia| |].
    + by rewrite (dr_locks _ _ _ _ _ D1).
    + intros _. rewrite (dr_locks _ _ _ _ _ D1). apply Hlo.
    + intros r s2 hold2 D2 Hq2 HI2. rewrite wp_ret. exists hold2. split; [by eapply drops_trans|done].
  - intros a s1 (hold1 & D1 & Hq1 & HI1). rewrite wp_bind.
    eapply wp_inv_set_message; [exact HI1|done| |].
    { pose proof (inv_msg _ _ _ _ _ c d e HI1) as []. by split. }
    intros C2 s2 R2 E2 HI2. rewrite wp_bind.
    assert (c_qdepth (channel c s2) = c_qdepth (channel c s)) as Ed.
    { unfold channel. change (k_channels s2) with C2. rewrite (rings_same_depth _ _ c R2).
      by rewrite (rings_same_depth _ _ c (dr_rings _ _ _ _ _ D1)). }
    eapply wp_retire; [exact HI2|exact Hq1|done|by rewrite Ed|].
    intros s3 [B1 B2 B3 B4 B5] Hq3 HI3. rewrite wp_ret. apply (HQ _ s3 hold1); try done.
    destruct D1 as [A1 A2 A3 A4 _ _ _]. split; [..|by rewrite B5, Ed].
    + by rewrite B1.
    + by rewrite B2.
    + by rewrite B3.
    + by rewrite B4.
Qed.

(** What a drain leaves alone. *)
Record drained (s s' : KState) : Prop := {
  dn_locks : k_locks s' = k_locks s;
  dn_tables : k_tables s' = k_tables s;
  dn_pids : k_table_pid s' = k_table_pid s;
  dn_next : k_obj_next s' = k_obj_next s
}.

Lemma drained_refl s : drained s s.
Proof. by split. Qed.

Lemma drained_trans s1 s2 s3 : drained s1 s2 → drained s2 s3 → drained s1 s3.
Proof. intros [A1 A2 A3 A4] [B1 B2 B3 B4]. split; congruence. Qed.

Lemma wp_drain_queue c d acc s hold (Q : Z * Z → KState → Prop) :
  Inv s hold [] [] [] → quiet s → (LPool ∉ k_locks s) ∧ (∀ o, LObj o ∉ k_locks s) →
  0 ≤ c < CAP_CHAN_MAX →
  (∀ a s' hold', drained s s' → quiet s' → (c_qdepth (channel c s')).[d] = 0 → Inv s' hold' [] [] [] → Q a s') →
  wp (cap_drain_queue c d acc) Q s.
Proof.
  intros HI Hq Hlk Hc HQ. unfold cap_drain_queue. rewrite wp_bind.
  apply (wp_while_ctl (λ _ s', ∃ hold', drained s s' ∧ quiet s' ∧ Inv s' hold' [] [] [])
    (λ _ s', Z.to_nat (c_qdepth (channel c s')).[d])).
  - exists hold. by split; [apply drained_refl|].
  - pose proof (co_depth _ (inv_chans HI c) d) as Hdp. change ((k_channels s).[c]) with (channel c s) in Hdp.
    unfold drain_fuel. unfold CHAN_QUEUE_DEPTH in *. lia.
  - intros a s1 (hold1 & D1 & Hq1 & HI1). rewrite wp_bind, wp_get_channel by done.
    pose proof (co_depth _ (inv_chans HI1 c) d) as Hdp. change ((k_channels s1).[c]) with (channel c s1) in Hdp.
    destruct (Z.ltb_spec 0 (c_qdepth (channel c s1)).[d]) as [Hpos|Hz].
    + rewrite wp_bind. eapply wp_drain_one; [exact HI1|done| |done|lia|].
      { by rewrite (dn_locks _ _ D1). }
      intros a2 s2 hold2 [B1 B2 B3 B4 B5] Hq2 HI2. rewrite wp_ret. split; [|rewrite B5; lia].
      exists hold2. split; [|done]. eapply drained_trans; [exact D1|]. by split.
    + rewrite !wp_ret. apply (HQ _ s1 hold1); try done. lia.
Qed.

(** * cap_table_teardown *)

(** A slot no holder stands for can be taken in hand: its object is gone, or it
    holds an interrupt capability. *)
Lemma inv_take_slot s hold L U ti i :
  Inv s hold L U [] → 0 ≤ ti < CAP_TABLE_MAX → 0 ≤ i < CAP_TABLE_ENTRIES → ((ti, i) ∉ U) →
  cap_word_valid (slot ti i s) = true →
  hold (w_obj (slot ti i s)) = [] ∨ w_type (slot ti i s) = CAP_TYPE_IRQ →
  Inv s hold L ((ti, i) :: U) [].
Proof.
  intros HI Hti Hi HU Hv Hnil. destruct (inv_hold HI) as [fr Hok].
  rewrite <-(hp_id s). apply (inv_hp s hold L U []); [done|done|by exists fr| |done].
  intros tf Hs Hlk. destruct (slots_ok_hand _ _ _ _ ti i Hs) as [Hs' Hlv0]; try done. split; [done|].
  assert (∀ tj j, live tf ((ti, i) :: U) tj j ↔ live tf U tj j ∧ (tj, j) ≠ (ti, i)) as Hlive.
  { intros tj j. unfold live. rewrite not_elem_of_cons. intuition congruence. }
  eapply links_ok_shrink; [exact Hlk|by intros tj j [? _]%Hlive|done|done| |done].
  intros x h tj Hh _ (K1 & K2 & K3) Hlv. apply Hlive. split; [done|]. intros [= -> E].
  destruct (lk_slot _ _ _ _ _ _ _ _ _ Hlk x h Hh (not_elem_of_nil _) K1) as (tk & Hl1 & E1 & E2 & E3).
  assert (tk = ti) as ->.
  { destruct (decide ((k_table_pid s).[ti] = 0)) as [Ez|Hnz].
    - rewrite (live_bound _ _ _ _ ti i Hs Hlv0 Ez). apply (live_bound _ _ _ _ tk _ Hs Hl1). by rewrite E1, K2.
    - apply (po_inj _ _ (inv_pids HI)); [apply Hl1|done|by rewrite E1, K2|by rewrite E1, K2]. }
  rewrite E in E2, E3. change (tslot (k_tables s) ti i) with (slot ti i s) in E2, E3.
  destruct Hnil as [Hnil|]; [|done]. rewrite <-E2, Hnil in Hh. by apply not_elem_of_nil in Hh.
Qed.

Lemma inv_take_dead s hold L U ti i :
  Inv s hold L U [] → 0 ≤ ti < CAP_TABLE_MAX → 0 ≤ i < CAP_TABLE_ENTRIES → ((ti, i) ∉ U) →
  cap_word_valid (slot ti i s) = true → hold (w_obj (slot ti i s)) = [] →
  Inv s hold L ((ti, i) :: U) [].
Proof. intros. apply inv_take_slot; auto. Qed.

Lemma object_get_None s hold L U G w :
  Inv s hold L U G → 0 ≤ w → cap_object_get w s = None → hold w = [].
Proof.
  intros HI Hw. unfold cap_object_get. destruct (inv_hold HI) as [fr Hok]. pose proof (inv_objs HI) as Hob.
  destruct (Z.lt_ge_cases w (k_obj_next s)) as [Hlt|Hge]; [|intros; by eapply hold_beyond].
  pose proof (oo_n _ _ _ Hob). destruct (Z.leb_spec CAP_OBJECT_MAX w); [lia|].
  assert (o_id (object w s) = w) as -> by (apply (oo_id _ _ _ Hob); lia). rewrite Z.eqb_refl. simpl. rewrite ?orb_false_r.
  destruct (Z.eqb_spec (o_active (object w s)) 0) as [E|]; [|done]. intros _.
  apply (oo_dead _ _ _ Hob); [lia|by left].
Qed.

(** Iterating over a list. *)
Lemma wp_each {A B} (I : list A → B → KState → Prop) (l : list A) (body : A → B → M B) b s
    (Q : B → KState → Prop) :
  I l b s →
  (∀ a l b s, I (a :: l) b s → wp (body a b) (I l) s) →
  (∀ b s, I [] b s → Q b s) →
  wp (each l body b) Q s.
Proof.
  intros H0 Hstep HQ. revert b s H0. induction l as [|a l IH]; intros b s H0; cbn [each].
  - rewrite wp_ret. by apply HQ.
  - rewrite wp_bind. eapply wp_mono; [by apply Hstep|]. intros b' s' H'. by apply IH.
Qed.

(** The slots of the dying table that are still to drop. *)
Record to_drop (ti pid : Z) (l : list Z) (s : KState) : Prop := {
  td_locks : k_locks s = [LTable ti];
  td_table : table_of (k_table_pid s) pid ti;
  td_nodup : NoDup l;
  td_range : ∀ i, i ∈ l → 0 ≤ i < CAP_TABLE_ENTRIES;
  td_valid : ∀ i, i ∈ l → cap_word_valid (slot ti i s) = true;
  td_all : ∀ i, 0 ≤ i < CAP_TABLE_ENTRIES → cap_word_valid (slot ti i s) = true → i ∈ l
}.

Lemma to_drop_step ti pid i l s s' T :
  to_drop ti pid (i :: l) s → k_locks s' = [LTable ti] → k_table_pid s' = k_table_pid s →
  k_tables s' = T → tab_frame (k_tables s) T ti i → w_type (slot ti i s') = CAP_TYPE_NONE →
  to_drop ti pid l s'.
Proof.
  intros [H1 H2 H3 H4 H5 H6] El Ep <- [F _] Hty. apply NoDup_cons in H3 as [Hni Hnd].
  assert (∀ j, j ≠ i → slot ti j s' = slot ti j s) as Hs by (intros j Hj; apply F; congruence).
  split; try done.
  - by rewrite Ep.
  - intros j Hj. apply H4. by right.
  - intros j Hj. rewrite Hs by (intros ->; done). apply H5. by right.
  - intros j Hj Hv. destruct (decide (j = i)) as [->|Hne].
    + by apply valid_not_free in Hv.
    + rewrite Hs in Hv by done. apply H6 in Hv; [|done]. by apply elem_of_cons in Hv as [|].
Qed.

(** Dropping one slot. *)
Lemma wp_teardown_slot pid ti i l acc s hold (Q : Z * Z * list Z → KState → Prop) :
  Inv s hold [] [] [] → quiet s → to_drop ti pid (i :: l) s → 0 ≤ pid < 2 ^ 16 →
  Forall (λ c, 0 ≤ c < CAP_CHAN_MAX) (snd acc) →
  (∀ acc' s' hold', Inv s' hold' [] [] [] → quiet s' → to_drop ti pid l s' →
     Forall (λ c, 0 ≤ c < CAP_CHAN_MAX) (snd acc') → Q acc' s') →
  wp (teardown_slot pid ti i acc) Q s.
Proof.
  intros HI Hq Htd Hpid Hacc HQ. pose proof Htd as [Hl Hti _ Hrange Hvalid _]. destruct acc as [[fr ds] deadc].
  cbn in Hacc. assert (0 ≤ i < CAP_TABLE_ENTRIES) as Hi by (apply Hrange; mem).
  assert (cap_word_valid (slot ti i s) = true) as Hv by (apply Hvalid; mem).
  unfold teardown_slot. rewrite wp_bind, wp_get_slot, wp_bind, wp_gets by done.
  destruct (cap_object_get _ s) as [o|] eqn:Eo.
  2: { assert (Inv s hold [] [(ti, i)] []) as HI1.
       { apply inv_take_dead; try done; [apply Hti|apply not_elem_of_nil|]. eapply object_get_None; [exact HI| |done].
         apply w_obj_range. }
       rewrite wp_bind. apply wp_set_slot; [done|]. rewrite wp_bind.
       eapply (wp_slot_push ti i _ hold [] [] [] []); [apply inv_set_slot; [exact HI1|mem]|].
       intros T2 s2 F2 N2 HI2. rewrite wp_ret. apply (HQ _ s2 hold); try done.
       eapply to_drop_step; [exact Htd|done|done|done| |done]. eapply tab_frame_trans; [apply tab_upd_frame|exact F2]. }
  destruct (payload_object s hold _ _ _ _ _ HI Hq Eo) as (Eow & Ho & Ha & Hid & Hr).
  rewrite wp_bind, wp_cap_lock by lk Hl. set (s1 := set_k_locks _ s). rewrite wp_bind, u16_small by done.
  eapply (wp_inv_remove_slot o pid ti i s1 hold [] []); try done; [lk Hl|apply not_elem_of_nil|].
  intros hold2 H2 f2 O2 s2 (M2 & _) HI2. rewrite wp_bind.
  apply wp_set_slot; [done|]. rewrite wp_bind.
  eapply (wp_slot_push ti i _ hold2 [] [] [] []); [apply inv_set_slot; [exact HI2|mem]|].
  intros T3 s3 F3 N3 HI3. rewrite wp_bind, wp_get_object, wp_bind.
  destruct (metas_fields _ _ o M2) as (_ & _ & R2 & A2 & _).
  assert (quiet s3) as Hq3 by (by apply (quiet_metas s)).
  assert (k_locks s3 = [LObj o; LTable ti]) as Hl3 by (kst; by rewrite Hl).
  match goal with |- wp _ ?K _ => assert (∀ acc' s4, keeps s3 s4 → quiet s4 → Inv s4 hold2 [] [] [] →
    Forall (λ c, 0 ≤ c < CAP_CHAN_MAX) (snd acc') → K acc' s4) as Hrest end.
  { intros acc' s4 [K1 K2 K3 K4 _] Hq4 HI4 Hf4. rewrite Hl3 in K1. rewrite wp_bind. unlock K1. rewrite wp_ret.
    match goal with |- Q _ ?s => apply (HQ acc' s hold2); try done end.
    eapply to_drop_step; [exact Htd|done|exact K3|exact K2| |].
    - eapply tab_frame_trans; [apply tab_upd_frame|exact F3].
    - unfold slot, table. kred. rewrite K2. exact N3. }
  assert (o_revoking (object o s3) = 0) as Hr3 by (change (o_revoking O2.[o] = 0); by rewrite R2).
  destruct (Z.eqb_spec (o_refcount (object o s3)) 0) as [Ez|_].
  - cbv zeta. rewrite wp_bind. eapply (wp_inv_free_destroy_k s3 hold2 [] [] [] o); [exact HI3|done| |lk Hl3|].
    { by eapply ref_zero. }
    intros r I nx R rn bm ow fc C s4 HI4 HC. rewrite wp_ret. apply (Hrest _ s4); [|by apply quiet_kill|exact HI4|].
    + split; try reflexivity. by apply rings_same_chans.
    + cbn. destruct (Z.eqb_spec (o_kind (object o s3)) CAP_OBJ_KIND_CHAN) as [Ek|]; simpl; [|done].
      destruct (_ <? _); [|done]. apply Forall_app. split; [done|]. apply Forall_singleton.
      apply (oo_chan _ _ _ (inv_objs HI3)); [done| |done]. change (o_active O2.[o] = 1). by rewrite A2.
  - rewrite wp_ret. by apply (Hrest _ s3); [apply keeps_refl|..].
Qed.
