(* ===== verification/CapTeardownInv.v ===== *)
(** [cap_table_teardown] keeps the invariant and never faults: the free list of a
    fresh table, unbinding a table, the drains and drops of the dying process, and
    the close events of its channels. *)

From stdpp Require Import base gmap list list_numbers.
From Stdlib Require Import ZArith Lia Bool.
From S2P Require Import Prelude FramePool CapWord Sidecar CapState CapPools CapOps CapMsg.
From S2P Require Import CapRevoke Wp HolderSpec CapInv ArenaSpec CapInvPools CapInvObj.
From S2P Require Import CapCreateInv CapChanInv CapMsgInv CapDropInv.
#[local] Open Scope Z_scope.
#[local] Open Scope carr_scope.
#[local] Open Scope cap_scope.
#[local] Opaque Z.to_nat Z.div Z.modulo.

(** * The free list of a fresh table *)

Definition fresh_next (i : Z) : Z := if i =? CAP_TABLE_ENTRIES - 1 then CAP_FREELIST_END else i + 1.

Record fresh_table (t : CapTable) : Prop := {
  ft_head : t_freelist_head t = 0;
  ft_slot : ∀ i, 0 ≤ i < CAP_TABLE_ENTRIES → (t_slots t).[i] = free_word (fresh_next i)
}.

Lemma freelist_fresh t :
  let t' := for_up (Z.to_nat CAP_TABLE_ENTRIES) 0 freelist_step (set_t_freelist_head CAP_FREELIST_END t) in
  fresh_table t' ∧ t_pid t' = t_pid t ∧ t_maps t' = t_maps t.
Proof.
  intros t'.
  assert (t_freelist_head t' = (if Z.of_nat (Z.to_nat CAP_TABLE_ENTRIES) =? 0 then CAP_FREELIST_END
                                else CAP_TABLE_ENTRIES - Z.of_nat (Z.to_nat CAP_TABLE_ENTRIES)) ∧
    (∀ i, CAP_TABLE_ENTRIES - Z.of_nat (Z.to_nat CAP_TABLE_ENTRIES) ≤ i < CAP_TABLE_ENTRIES →
       (t_slots t').[i] = free_word (fresh_next i)) ∧ t_pid t' = t_pid t ∧ t_maps t' = t_maps t)
    as (H1 & H2 & H3 & H4).
  { apply (for_up_ind (λ k t', t_freelist_head t' = (if k =? 0 then CAP_FREELIST_END else CAP_TABLE_ENTRIES - k) ∧
      (∀ i, CAP_TABLE_ENTRIES - k ≤ i < CAP_TABLE_ENTRIES → (t_slots t').[i] = free_word (fresh_next i)) ∧
      t_pid t' = t_pid t ∧ t_maps t' = t_maps t)).
    - split; [done|]. split; [intros; lia|done].
    - rewrite Z2Nat.id by done. intros k u Hk (E1 & E2 & E3 & E4). unfold freelist_step.
      cbn [t_freelist_head t_slots t_pid t_maps set_t_freelist_head set_t_slots].
      unfold CAP_TABLE_ENTRIES in *. split; [|split; [|done]].
      + replace (k + 1 =? 0) with false by lia. rewrite u16_small; lia.
      + intros i Hi. rewrite aget_upd. destruct (Z.eqb_spec (512 - 1 - k) i) as [<-|]; [|apply E2; lia].
        rewrite E1. unfold fresh_next, CAP_TABLE_ENTRIES. f_equal.
        destruct (Z.eqb_spec k 0), (Z.eqb_spec (512 - 1 - k) (512 - 1)); lia. }
  clearbody t'. rewrite Z2Nat.id in H1, H2 by done. split; [|done]. split; [exact H1|]. intros i Hi. apply H2. lia.
Qed.

Lemma chain_seqZ nx n a :
  (∀ i, a ≤ i < a + Z.of_nat n → nx i = if i =? a + Z.of_nat n - 1 then CAP_FREELIST_END else i + 1) →
  chain nx (if (n =? 0)%nat then CAP_FREELIST_END else a) (seqZ a (Z.of_nat n)).
Proof.
  revert a. induction n as [|n IH]; intros a Hnx; [done|].
  rewrite seqZ_cons by lia. cbn [chain Nat.eqb]. split; [done|]. rewrite Hnx by lia.
  replace (Z.pred (Z.of_nat (S n))) with (Z.of_nat n) by lia. unfold Z.succ.
  replace (a =? a + Z.of_nat (S n) - 1) with (n =? 0)%nat.
  2: { destruct (Nat.eqb_spec n 0), (Z.eqb_spec a (a + Z.of_nat (S n) - 1)); lia. }
  apply IH. intros i Hi. rewrite Hnx by lia.
  by replace (a + 1 + Z.of_nat n - 1) with (a + Z.of_nat (S n) - 1) by lia.
Qed.

Lemma fresh_next_range i : 0 ≤ i < CAP_TABLE_ENTRIES → 0 ≤ fresh_next i < 2 ^ 17.
Proof. unfold fresh_next, CAP_TABLE_ENTRIES, CAP_FREELIST_END. destruct (_ =? _); lia. Qed.

(** The free list of a fresh table holds all its slots. *)
Lemma fresh_chain t : fresh_table t →
  chain (λ i, w_obj (t_slots t).[i]) (t_freelist_head t) (seqZ 0 CAP_TABLE_ENTRIES) ∧
  ∀ i, 0 ≤ i < CAP_TABLE_ENTRIES → w_type (t_slots t).[i] = CAP_TYPE_NONE.
Proof.
  intros [E1 E2]. split.
  - rewrite E1. apply (chain_seqZ _ (Z.to_nat CAP_TABLE_ENTRIES) 0). rewrite Z2Nat.id by done. intros i Hi.
    rewrite E2 by done. by rewrite (proj2 (free_word_fields _ (fresh_next_range i Hi))).
  - intros i Hi. rewrite E2 by done. apply (free_word_fields _ (fresh_next_range i Hi)).
Qed.

(** Unbinding a table that holds no capability. *)
Lemma inv_unbind s hold ti t :
  Inv s hold [] [] [] → 0 ≤ ti < CAP_TABLE_MAX → fresh_table t → t_pid t = 0 →
  t_maps t = t_maps (table ti s) →
  (∀ i, 0 ≤ i < CAP_TABLE_ENTRIES → cap_word_valid (slot ti i s) = false) →
  Inv (set_k_tables (k_tables s).[ti <- t] (set_k_table_pid (k_table_pid s).[ti <- 0] s)) hold [] [] [].
Proof.
  intros [Hho Hp (tf & Hs & Hl) Hob Hci Hch Hpa Hm Hir Hmr] Hti Hft Hpid Hmaps Hnone.
  assert (∀ tj j, tj ≠ ti → tslot (k_tables s).[ti <- t] tj j = tslot (k_tables s) tj j) as Es.
  { intros tj j Hne. unfold tslot. by rewrite aget_upd_ne. }
  destruct (fresh_chain t Hft) as [Hchain Htype].
  set (tf' := λ tj, if tj =? ti then seqZ 0 CAP_TABLE_ENTRIES else tf tj).
  assert (∀ j, live tf [] ti j → w_type (tslot (k_tables s) ti j) = CAP_TYPE_IRQ) as Hspent.
  { intros j Hlv. destruct (lk_word _ _ _ _ _ _ _ _ _ Hl ti j Hlv) as [[Hv|[Ht _]] _]; [|done].
    change (tslot (k_tables s) ti j) with (slot ti j s) in Hv. rewrite Hnone in Hv by apply Hlv. done. }
  assert (∀ i, i ∈ seqZ 0 CAP_TABLE_ENTRIES ↔ 0 ≤ i < CAP_TABLE_ENTRIES) as Hseq.
  { intros i. rewrite elem_of_seqZ. done. }
  split; kred; try done;
    [..|eapply maps_ok_same; [|exact Hmr]; intros tj; rewrite aget_upd; by destruct (Z.eqb_spec ti tj) as [<-|]].
  - destruct Hp as [H0 Hr Hinj Ht]. split.
    + rewrite aget_upd. by destruct (ti =? 0).
    + intros tj Htj. rewrite aget_upd. destruct (ti =? tj); [done|auto].
    + intros a b Ha Hb. rewrite !aget_upd. destruct (ti =? a), (ti =? b); try done; auto; congruence.
    + intros tj Htj. rewrite !aget_upd. destruct (ti =? tj); [done|auto].
  - exists tf'. split.
    + destruct Hs as [Hc Hnd Hin HU HU2 Hunb]. split; try done; unfold tf'.
      * intros tj Htj. destruct (Z.eqb_spec tj ti) as [->|Hne].
        -- rewrite aget_upd_eq. unfold tslot. eapply chain_ext; [|exact Hchain]. intros x _. by rewrite aget_upd_eq.
        -- rewrite aget_upd_ne by done. eapply chain_ext; [|by apply Hc]. intros x _. by rewrite Es.
      * intros tj. destruct (_ =? _); [apply NoDup_seqZ|apply Hnd].
      * intros tj j. destruct (Z.eqb_spec tj ti) as [->|Hne]; [|rewrite Es by done; apply Hin].
        rewrite Hseq. intros Hj. split; [done|]. unfold tslot. rewrite aget_upd_eq. by apply Htype.
      * by intros tj j ?%not_elem_of_nil.
      * intros tj j Htj. rewrite aget_upd. destruct (Z.eqb_spec tj ti) as [->|Hne]; [rewrite Hseq; done|].
        destruct (Z.eqb_spec ti tj); [done|auto].
    + assert (∀ tj j, live tf' [] tj j ↔ live tf [] tj j ∧ tj ≠ ti) as Hlive.
      { intros tj j. unfold live, tf'. destruct (Z.eqb_spec tj ti) as [->|Hne]; [|tauto]. rewrite Hseq. tauto. }
      destruct Hl as [Hw Ho Hh Hsl Hu Hq].
      assert (∀ tj j, live tf' [] tj j → live tf [] tj j ∧ tslot (k_tables s).[ti <- t] tj j = tslot (k_tables s) tj j ∧
        (k_table_pid s).[ti <- 0].[tj] = (k_table_pid s).[tj]) as Hsame.
      { intros tj j [Hlv Hne]%Hlive. split; [done|]. by rewrite Es, aget_upd_ne. }
      split; try done.
      * intros tj j (Hlv & -> & _)%Hsame. by apply Hw.
      * intros tj j (Hlv & -> & _)%Hsame. by apply Ho.
      * intros tj j (Hlv & -> & ->)%Hsame. by apply Hh.
      * intros x h Hh' HG Hk. destruct (Hsl x h Hh' HG Hk) as (tj & Hlv & E1 & E2 & E3). exists tj.
        assert (tj ≠ ti) as Hne by (intros ->; by apply E3, Hspent). rewrite Es, aget_upd_ne by done.
        split; [|done]. apply Hlive. by split.
Qed.

(** * The snapshot of the dying table *)

Lemma snapshot_spec ti s :
  NoDup (fst (teardown_snapshot ti s)) ∧
  ∀ i, i ∈ fst (teardown_snapshot ti s) ↔ 0 ≤ i < CAP_TABLE_ENTRIES ∧ cap_word_valid (slot ti i s) = true.
Proof.
  cut (NoDup (fst (teardown_snapshot ti s)) ∧ ∀ i, i ∈ fst (teardown_snapshot ti s) ↔
         0 ≤ i < 0 + Z.of_nat (Z.to_nat CAP_TABLE_ENTRIES) ∧ cap_word_valid (slot ti i s) = true).
  { rewrite Z2Nat.id by done. exact id. }
  unfold teardown_snapshot.
  apply (for_up_ind (λ k acc, NoDup (fst acc) ∧
    ∀ i, i ∈ fst acc ↔ 0 ≤ i < k ∧ cap_word_valid (slot ti i s) = true)).
  - split; [apply NoDup_nil_2|]. intros i. rewrite elem_of_nil. lia.
  - intros k acc Hk [Hnd Hin].
    assert (fst (if negb (cap_word_valid (slot ti k s)) then acc else
      if w_type (slot ti k s) =? CAP_TYPE_CHAN_R then
        if negb (existsb (Z.eqb (w_obj (slot ti k s))) (snd acc)) && (Z.of_nat (length (snd acc)) <? CAP_CHAN_MAX)
        then (fst acc ++ [k], snd acc ++ [w_obj (slot ti k s)]) else (fst acc ++ [k], snd acc)
      else (fst acc ++ [k], snd acc)) = if cap_word_valid (slot ti k s) then fst acc ++ [k] else fst acc) as ->.
    { destruct (cap_word_valid (slot ti k s)); [|reflexivity]. cbn [negb].
      destruct (_ =? _); [|reflexivity]. destruct (_ && _); reflexivity. }
    destruct (cap_word_valid (slot ti k s)) eqn:Ev.
    + split.
      * apply NoDup_app. split; [done|]. split; [|apply NoDup_singleton].
        intros x Hx. rewrite list_elem_of_singleton. intros ->. apply Hin in Hx. lia.
      * intros i. rewrite elem_of_app, list_elem_of_singleton, Hin. split.
        -- intros [[Hi Hv]| ->]; [split; [lia|done]|split; [lia|done]].
        -- intros [Hi Hv]. destruct (decide (i = k)); [by right|left]. split; [lia|done].
    + split; [done|]. intros i. rewrite Hin. split; intros [Hi Hv]; (split; [|done]); [lia|].
      destruct (decide (i = k)) as [->|]; [congruence|lia].
Qed.

Lemma snapshot_chans ti s : Forall (λ o, 0 ≤ o) (snd (teardown_snapshot ti s)).
Proof.
  unfold teardown_snapshot. apply (for_up_ind (λ _ acc, Forall (λ o, 0 ≤ o) (snd acc))); [by constructor|].
  intros k acc _ Hacc. destruct (negb _); [done|]. cbv zeta.
  destruct (_ =? _); [|done]. destruct (_ && _); [|done]. apply Forall_app. split; [done|].
  apply Forall_singleton, w_obj_range.
Qed.

(** * Changes to the mapping records only *)

Definition tabs_same (T T' : gmap Z CapTable) : Prop :=
  ∀ ti, t_pid T'.[ti] = t_pid T.[ti] ∧ t_freelist_head T'.[ti] = t_freelist_head T.[ti] ∧
    t_slots T'.[ti] = t_slots T.[ti].

(** Only mapping records and hooks changed. *)
Definition maps_only (s s' : KState) : Prop :=
  ∃ T tr, s' = set_k_trace tr (set_k_tables T s) ∧ tabs_same (k_tables s) T ∧ (maps_ok (k_tables s) → maps_ok T).

Lemma maps_only_refl s : maps_only s s.
Proof. exists (k_tables s), (k_trace s). split; [by destruct s|done]. Qed.

Lemma maps_only_trans s1 s2 s3 : maps_only s1 s2 → maps_only s2 s3 → maps_only s1 s3.
Proof.
  intros (T & tr & -> & H1 & M1) (T' & tr' & -> & H2 & M2). exists T', tr'. split; [done|]. split; [|auto]. intros ti.
  destruct (H1 ti) as (A1 & A2 & A3), (H2 ti) as (B1 & B2 & B3). kred_in B1. kred_in B2. kred_in B3.
  split_and!; congruence.
Qed.

Lemma maps_only_trace tr s : maps_only s (set_k_trace tr s).
Proof. exists (k_tables s), tr. split; [by destruct s|done]. Qed.

Lemma maps_only_upd ti i f s :
  (maps_ok (k_tables s) → maps_ok (k_tables (upd_map ti i f s))) → maps_only s (upd_map ti i f s).
Proof.
  exists (k_tables (upd_map ti i f s)), (k_trace s). split; [by destruct s|]. split; [|done]. intros tj.
  unfold upd_map, upd_table, table. kred. rewrite aget_upd.
  destruct (Z.eqb_spec ti tj) as [->|]; done.
Qed.

Lemma upd_map_get ti i f s tj j :
  (t_maps (k_tables (upd_map ti i f s)).[tj]).[j] =
    if (ti =? tj) && (i =? j) then f (t_maps (table ti s)).[i] else (t_maps (table tj s)).[j].
Proof.
  unfold upd_map, upd_table, table. kred. rewrite aget_upd. destruct (Z.eqb_spec ti tj) as [<-|]; [|done].
  cbn. rewrite aget_upd. by destruct (i =? j).
Qed.

(** Retiring a record keeps the others apart. *)
Lemma maps_only_retire ti i s : maps_only s (upd_map ti i (set_mp_active 0) s).
Proof.
  apply maps_only_upd. intros [H1 H2].
  assert (∀ tj j, map_live (t_maps (k_tables (upd_map ti i (set_mp_active 0) s)).[tj]).[j] →
    (t_maps (k_tables (upd_map ti i (set_mp_active 0) s)).[tj]).[j] = (t_maps (k_tables s).[tj]).[j]) as E.
  { intros tj j. rewrite upd_map_get. by destruct (_ && _). }
  split.
  - intros tj j Hj m Hm. unfold m in *. rewrite E in * by done. by apply H1.
  - intros tj j j' Hj Hj' m m' Hm Hm'. pose proof (E _ _ Hm) as Em. pose proof (E _ _ Hm') as Em'. fold m in Em. fold m' in Em'.
    rewrite Em in *. rewrite Em' in *. by apply H2.
Qed.

Lemma maps_only_inv s s' hold L U G : maps_only s s' → Inv s hold L U G → Inv s' hold L U G.
Proof.
  intros (T & tr & -> & HT & HM) [Hho Hp (tf & Hs & Hl) Hob Hci Hch Hpa Hm Hir Hmr].
  assert (∀ ti i, tslot T ti i = tslot (k_tables s) ti i) as Es.
  { intros ti i. unfold tslot. by destruct (HT ti) as (_ & _ & ->). }
  split; kred; try done; [..|by apply HM].
  - destruct Hp as [H0 Hr Hinj Ht]. split; try done. intros ti Hti. by rewrite (proj1 (HT ti)), Ht.
  - exists tf. split.
    + destruct Hs as [Hc Hnd Hin HU HU2 Hunb]. split; try done.
      * intros ti Hti. rewrite (proj1 (proj2 (HT ti))). eapply chain_ext; [|by apply Hc]. intros x _. by rewrite Es.
      * intros ti i. rewrite Es. apply Hin.
    + eapply links_ok_ext; [exact Hl|done| |done|done|done]. intros ti i _. by rewrite Es.
Qed.

Lemma maps_only_quiet s s' : maps_only s s' → quiet s → quiet s'.
Proof. by intros (T & tr & -> & _ & _). Qed.

Lemma maps_only_locks s s' : maps_only s s' → k_locks s' = k_locks s.
Proof. by intros (T & tr & -> & _ & _). Qed.

Lemma maps_only_pids s s' : maps_only s s' → k_table_pid s' = k_table_pid s.
Proof. by intros (T & tr & -> & _ & _). Qed.

Lemma maps_only_slot s s' ti i : maps_only s s' → slot ti i s' = slot ti i s.
Proof. intros (T & tr & -> & HT & _). unfold slot, table. kred. by destruct (HT ti) as (_ & _ & ->). Qed.

(** The calls that unmap [n] pages from [va], most recent first. *)
Definition unmap_calls (cr3 va n : Z) : list Hook :=
  reverse ((λ p, HUnmapPage cr3 (u64 (va + p * 4096))) <$> seqZ 0 n).

Lemma set_k_trace_id s : set_k_trace (k_trace s) s = s.
Proof. by destruct s. Qed.

Lemma seqZ_snoc j : 0 ≤ j → seqZ 0 (j + 1) = seqZ 0 j ++ [j].
Proof. intros Hj. rewrite seqZ_app by lia. done. Qed.

Lemma wp_unmap_exact cr3 va n s (Q : unit → KState → Prop) :
  Q tt (set_k_trace (unmap_calls cr3 va n ++ k_trace s) s) → wp (unmap_pages cr3 va n) Q s.
Proof.
  intros HQ. unfold unmap_pages.
  apply (wp_for_each (λ j _ s', s' = set_k_trace (unmap_calls cr3 va j ++ k_trace s) s)).
  - by rewrite <-(set_k_trace_id s) at 1.
  - intros j [] s1 Hj ->. rewrite wp_hook. unfold unmap_calls. rewrite seqZ_snoc by lia.
    by rewrite fmap_app, reverse_app.
  - intros [] s1 ->. destruct (Z.le_gt_cases 0 n); [by rewrite Z2Nat.id by lia|].
    replace (Z.to_nat n) with 0%nat by lia. unfold unmap_calls in HQ. by rewrite seqZ_nil in HQ by lia.
Qed.

Lemma wp_unmap_pages cr3 va n s (Q : unit → KState → Prop) :
  (∀ s', maps_only s s' → Q tt s') → wp (unmap_pages cr3 va n) Q s.
Proof. intros HQ. apply wp_unmap_exact, HQ, maps_only_trace. Qed.

(** * cap_table_teardown *)

Section Teardown.
Context `{!CapEnv}.

(** Only the given table is locked. *)
Lemma wp_predrain pid oid ti acc s hold (Q : Z * Z → KState → Prop) :
  Inv s hold [] [] [] → quiet s → k_locks s = [LTable ti] → 0 ≤ oid →
  (∀ a s' hold', drained s s' → quiet s' → Inv s' hold' [] [] [] → Q a s') →
  wp (teardown_predrain pid oid acc) Q s.
Proof.
  intros HI Hq Hl Ho HQ. unfold teardown_predrain. rewrite wp_bind, wp_gets.
  destruct (cap_object_get oid s) as [co|] eqn:Eo.
  2: { rewrite wp_ret. by apply (HQ _ s hold); [apply drained_refl|..]. }
  destruct (object_get_Some s hold _ _ _ _ _ HI Eo Ho) as (_ & Hco & Ha & _).
  rewrite wp_bind, wp_get_object. destruct (Z.eqb_spec (o_kind (object co s)) CAP_OBJ_KIND_CHAN) as [Ek|]; simpl negb; cbv iota.
  2: { rewrite wp_ret. by apply (HQ _ s hold); [apply drained_refl|..]. }
  assert (0 ≤ o_chan_id (object co s) < CAP_CHAN_MAX) as Hc by (by apply (oo_chan _ _ _ (inv_objs HI))).
  set (c := o_chan_id (object co s)) in *. clearbody c.
  rewrite wp_bind, wp_get_channel by done. cbv zeta. rewrite wp_bind, wp_cap_lock by lk Hl. rewrite wp_bind.
  eapply wp_drain_queue; [apply inv_locks; exact HI|by apply quiet_locks| |done|].
  { rewrite Hl. split; [|intros o]; kred; rewrite !not_elem_of_cons; repeat split; try done; apply not_elem_of_nil. }
  intros a s1 hold1 [D1 D2 D3 D4] Hq1 _ HI1. kred_in D1. rewrite Hl in D1. rewrite wp_bind. unlock D1. rewrite wp_ret.
  apply (HQ _ _ hold1); [by split|by apply quiet_locks|by apply inv_locks].
Qed.

Lemma wp_postdrain c ti acc s hold (Q : Z * Z → KState → Prop) :
  Inv s hold [] [] [] → quiet s → k_locks s = [LTable ti] → 0 ≤ c < CAP_CHAN_MAX →
  (∀ a s' hold', drained s s' → quiet s' → Inv s' hold' [] [] [] → Q a s') →
  wp (teardown_postdrain c acc) Q s.
Proof.
  intros HI Hq Hl Hc HQ. unfold teardown_postdrain. rewrite wp_bind, wp_cap_lock by lk Hl. rewrite wp_bind.
  rewrite u16_small by (unfold CAP_CHAN_MAX in Hc; lia).
  assert ((LPool ∉ [LChan c; LTable ti]) ∧ ∀ o, LObj o ∉ [LChan c; LTable ti]) as Hlk.
  { split; [|intros o]; rewrite !not_elem_of_cons; repeat split; try done; apply not_elem_of_nil. }
  eapply wp_drain_queue; [apply inv_locks; exact HI|by apply quiet_locks|kred; by rewrite Hl|done|].
  intros a s1 hold1 D1 Hq1 _ HI1. rewrite wp_bind.
  pose proof (dn_locks _ _ D1) as L1. kred_in L1. rewrite Hl in L1.
  eapply wp_drain_queue; [exact HI1|done|by rewrite L1|done|].
  intros b s2 hold2 D2 Hq2 _ HI2. destruct (drained_trans _ _ _ D1 D2) as [E1 E2 E3 E4]. kred_in E1. rewrite Hl in E1.
  rewrite wp_bind. unlock E1. rewrite wp_ret.
  apply (HQ _ _ hold2); [by split|by apply quiet_locks|by apply inv_locks].
Qed.

Lemma wp_teardown_unmap pid ti s (Q : unit → KState → Prop) :
  (∀ s', maps_only s s' → Q tt s') → wp (teardown_unmap pid ti) Q s.
Proof.
  intros HQ. unfold teardown_unmap. apply (wp_for_each (λ _ _ s', maps_only s s')).
  - apply maps_only_refl.
  - intros j [] s1 _ H1. rewrite wp_bind, wp_gets. cbv zeta. destruct (_ =? 0); [done|].
    rewrite wp_bind. apply wp_unmap_pages. intros s2 H2. rewrite wp_modify.
    eapply maps_only_trans; [exact H1|]. eapply maps_only_trans; [exact H2|apply maps_only_retire].
  - intros [] s1 H1. by apply HQ.
Qed.

Lemma chan_ok_peer_death pid d ch : chan_ok ch → chan_ok (peer_death pid d ch).
Proof. intros []. unfold peer_death. cbv zeta. destruct (_ =? 0); by split. Qed.

Lemma close_ok pid ci s :
  kernel_ok s → 0 ≤ ci < CAP_CHAN_MAX →
  wp (teardown_close pid ci) (λ _ s', kernel_ok s' ∧ k_table_pid s' = k_table_pid s) s.
Proof.
  intros Hs Hc. pose proof Hs as (hold & HI & Hq & Hl)%kernel_ok_inv. unfold teardown_close.
  rewrite wp_bind, wp_get_channel by done. destruct (_ =? 0); [by rewrite wp_ret|]. cbv zeta.
  set (dying := if _ =? _ then _ else _). clearbody dying. destruct (_ <? 0); [by rewrite wp_ret|].
  rewrite wp_bind, wp_cap_lock by lk Hl. rewrite wp_bind. rewrite Hl.
  eapply wp_inv_set_channel; [apply inv_locks; exact HI|done|apply chan_ok_peer_death; apply (inv_chans HI)|].
  intros s1 HI1. rewrite wp_bind. rewrite wp_cap_unlock, wp_hook. unfold s1. kred.
  rewrite lock_drop_head by apply not_elem_of_nil. split; [|done]. by finish_ok.
Qed.

Lemma irq_ok pid v s :
  kernel_ok s → 0 ≤ v < CAP_IRQ_VECTORS →
  wp (teardown_irq pid v) (λ _ s', kernel_ok s' ∧ k_table_pid s' = k_table_pid s) s.
Proof.
  intros Hs Hv. pose proof Hs as (hold & HI & Hq & Hl)%kernel_ok_inv. unfold teardown_irq.
  rewrite wp_bind, wp_gets. destruct (Z.eqb_spec (k_irq_chan s).[v] CAP_NONE) as [|Hne]; [by rewrite wp_ret|].
  destruct (irq_chan_range _ _ _ _ _ v (inv_irqs HI) (inv_objs HI) Hv) as [|Hc]; [done|]. rewrite wp_bind, wp_get_channel by done.
  destruct (_ =? pid); [|by rewrite wp_ret]. rewrite wp_bind, !wp_modify. split; [|done].
  apply (kernel_ok_intro _ hold); [|exact Hq|exact Hl].
  destruct HI as [Hho Hp Hsl Hob Hci Hch Hpa Hm Hir Hmr]. split; kred; try done.
  by apply irqs_ok_clear.
Qed.

Lemma to_drop_drained ti pid l s s' : to_drop ti pid l s → drained s s' → to_drop ti pid l s'.
Proof.
  intros [H1 H2 H3 H4 H5 H6] [E1 E2 E3 E4].
  assert (∀ i, slot ti i s' = slot ti i s) as Es by (intros; unfold slot, table; by rewrite E2).
  split; try done; try congruence; intros i; rewrite Es; auto.
Qed.

Lemma to_drop_maps ti pid l s s' : to_drop ti pid l s → maps_only s s' → to_drop ti pid l s'.
Proof.
  intros [H1 H2 H3 H4 H5 H6] Hm. pose proof (λ i, maps_only_slot s s' ti i Hm) as Es.
  split; try done; [by rewrite (maps_only_locks _ _ Hm)|by rewrite (maps_only_pids _ _ Hm)|..];
    intros i; rewrite Es; auto.
Qed.

Lemma upd_table_twice ti f g s : upd_table ti f (upd_table ti g s) = upd_table ti (λ t, f (g t)) s.
Proof. unfold upd_table, table. destruct s. kred. by rewrite aget_upd_eq, insert_insert_same. Qed.

(** The dying process's holders are dropped and its table is empty: the steps of
    teardown up to the unbinding. *)
Lemma wp_teardown_drop {B} pid ti s hold (k : Z * Z → M B) (Q : B → KState → Prop) :
  Inv s hold [] [] [] → quiet s → k_locks s = [LTable ti] → table_of (k_table_pid s) pid ti →
  0 ≤ pid < 2 ^ 16 →
  (∀ a s' hold', Inv s' hold' [] [] [] → quiet s' → to_drop ti pid [] s' → wp (k a) Q s') →
  wp (let* acc := each (snd (teardown_snapshot ti s)) (teardown_predrain pid) (0, 0) in
      let* acc := each (fst (teardown_snapshot ti s)) (teardown_slot pid ti) (acc, []) in
      let* acc := each (snd acc) teardown_postdrain (fst acc) in
      do* teardown_unmap pid ti; k acc) Q s.
Proof.
  intros HI Hq Hl Hti Hpid HQ. rewrite wp_bind.
  destruct (snapshot_spec ti s) as [Hnd Hin]. pose proof (snapshot_chans ti s) as Hch.
  set (sl := fst (teardown_snapshot ti s)) in *. set (cs := snd (teardown_snapshot ti s)) in *. clearbody sl cs.
  apply (wp_each (λ l _ s', ∃ hold', Forall (λ o, 0 ≤ o) l ∧ drained s s' ∧ quiet s' ∧ Inv s' hold' [] [] [])).
  { exists hold. by split; [|split; [apply drained_refl|]]. }
  { intros o l a s1 (hold1 & [Ho Hf]%Forall_cons & D1 & Hq1 & HI1).
    eapply wp_predrain; [exact HI1|done|by rewrite (dn_locks _ _ D1)|done|].
    intros a2 s2 hold2 D2 Hq2 HI2. exists hold2. by split; [|split; [by eapply drained_trans|]]. }
  intros a1 s1 (hold1 & _ & D1 & Hq1 & HI1). rewrite wp_bind.
  assert (to_drop ti pid sl s1) as T1.
  { eapply to_drop_drained; [|exact D1]. split; try done.
    - intros i Hi. by apply Hin in Hi as [].
    - intros i Hi. by apply Hin in Hi as [].
    - intros i Hi Hv. by apply Hin. }
  apply (wp_each (λ l acc s', ∃ hold', Inv s' hold' [] [] [] ∧ quiet s' ∧ to_drop ti pid l s' ∧
    Forall (λ c, 0 ≤ c < CAP_CHAN_MAX) (snd acc))).
  { exists hold1. by do 3 (split; [done|]). }
  { intros i l a s2 (hold2 & HI2 & Hq2 & T2 & F2).
    eapply wp_teardown_slot; [exact HI2|done|exact T2|done|done|].
    intros acc' s3 hold3 HI3 Hq3 T3 F3. exists hold3. by do 3 (split; [done|]). }
  intros a2 s2 (hold2 & HI2 & Hq2 & T2 & F2). rewrite wp_bind.
  apply (wp_each (λ l acc s', ∃ hold', Inv s' hold' [] [] [] ∧ quiet s' ∧ to_drop ti pid [] s' ∧
    Forall (λ c, 0 ≤ c < CAP_CHAN_MAX) l)).
  { exists hold2. by do 3 (split; [done|]). }
  { intros c l a s3 (hold3 & HI3 & Hq3 & T3 & [Hc F3]%Forall_cons).
    eapply wp_postdrain; [exact HI3|done|apply T3|done|].
    intros a4 s4 hold4 D4 Hq4 HI4. exists hold4. do 2 (split; [done|]). split; [|done].
    by eapply to_drop_drained. }
  intros a3 s3 (hold3 & HI3 & Hq3 & T3 & _). rewrite wp_bind. apply wp_teardown_unmap.
  intros s4 M4. apply (HQ _ s4 hold3).
  - by eapply maps_only_inv.
  - by eapply maps_only_quiet.
  - by eapply to_drop_maps.
Qed.

Lemma teardown_ok pid s :
  kernel_ok s → 0 ≤ pid < 2 ^ 16 →
  wp (cap_table_teardown pid) (λ _ s', kernel_ok s' ∧
    (pid ≠ 0 → ∀ ti, 0 ≤ ti < CAP_TABLE_MAX → (k_table_pid s').[ti] ≠ pid)) s.
Proof.
  intros Hs Hpid. pose proof Hs as (hold & HI & Hq & Hl)%kernel_ok_inv. unfold cap_table_teardown.
  rewrite wp_bind, wp_modify. set (s1 := set_k_registry _ s).
  assert (Inv s1 hold [] [] []) as HI1 by exact HI. assert (quiet s1) as Hq1 by exact Hq.
  assert (k_locks s1 = []) as Hl1 by exact Hl. clearbody s1. clear s Hs HI Hq Hl.
  rewrite wp_bind, wp_gets.
  destruct (table_find_spec s1 pid (inv_pids HI1)) as [(-> & _ & Hno)|Hti].
  { change (-1 <? 0) with true. cbv iota. rewrite wp_ret. split; [by finish_ok|done]. }
  replace (cap_table_find pid s1 <? 0) with false by (symmetry; apply Z.ltb_ge, Hti).
  set (ti := cap_table_find pid s1) in *. clearbody ti. pose proof Hti as (Hti1 & Hti2 & Hti3).
  rewrite wp_bind, wp_cap_lock by lk Hl1. rewrite Hl1. set (s2 := set_k_locks _ s1).
  assert (Inv s2 hold [] [] []) as HI2 by exact HI1. assert (quiet s2) as Hq2 by exact Hq1.
  assert (k_locks s2 = [LTable ti]) as Hl2 by done. change (k_table_pid s1) with (k_table_pid s2) in Hti.
  clearbody s2. clear s1 HI1 Hq1 Hl1 Hti2. rewrite wp_bind, wp_gets.
  set (n := Z.of_nat _). clearbody n. apply (wp_teardown_drop pid ti s2 hold); try done.
  intros a s3 hold3 HI3 Hq3 [L3 T3 _ _ _ Hall]. rewrite wp_bind, wp_modify, wp_bind, wp_modify.
  unfold cap_table_freelist_init. rewrite wp_bind, wp_modify, wp_bind, wp_cap_unlock. rewrite upd_table_twice.
  destruct (freelist_fresh (set_t_pid 0 (table ti s3))) as (Hft & Hft2 & Hft3).
  unfold upd_table. change (table ti (set_k_table_pid _ s3)) with (table ti s3). cbv beta.
  set (fresh := for_up _ _ _ _) in *. clearbody fresh. kred.
  match goal with |- wp _ _ (set_k_locks _ ?s) => set (s4 := s) end.
  assert (Inv s4 hold3 [] [] []) as HI4.
  { apply (inv_unbind s3); [exact HI3|done|exact Hft|exact Hft2|exact Hft3|]. intros i Hi.
    destruct (cap_word_valid _) eqn:Ev; [|done]. by apply Hall, elem_of_nil in Ev. }
  rewrite L3, lock_drop_head by apply not_elem_of_nil. set (s5 := set_k_locks _ s4).
  assert (kernel_ok s5) as Hs5 by (apply (kernel_ok_intro s5 hold3); [exact HI4|exact Hq3|reflexivity]).
  assert (pid ≠ 0 → ∀ tj, 0 ≤ tj < CAP_TABLE_MAX → (k_table_pid s5).[tj] ≠ pid) as Hp5.
  { intros Hnz tj Htj. change (k_table_pid s5) with (k_table_pid s3).[ti <- 0]. rewrite aget_upd.
    destruct (Z.eqb_spec ti tj) as [->|Hne]; [congruence|]. intros E. apply Hne. symmetry.
    by apply (table_of_inj _ _ pid ti tj (inv_pids HI3)). }
  clearbody s5. clear s4 HI4. rewrite wp_bind.
  apply (wp_for_each (λ _ _ s', kernel_ok s' ∧ k_table_pid s' = k_table_pid s5)); [done| |].
  { intros c [] s6 Hc [Hs6 E6]. eapply wp_mono; [by apply close_ok|]. intros _ s7 [? E7]. by rewrite E7. }
  intros _ s6 [Hs6 E6]. rewrite wp_bind.
  apply (wp_for_each (λ _ _ s', kernel_ok s' ∧ k_table_pid s' = k_table_pid s5)); [done| |].
  { intros v [] s7 Hv [Hs7 E7]. eapply wp_mono; [by apply irq_ok|]. intros _ s8 [? E8]. by rewrite E8. }
  intros _ s7 [Hs7 E7]. rewrite wp_ret. by rewrite E7.
Qed.

End Teardown.
