(* ===== verification/CapMapInv.v ===== *)
(** [cap_map] and [cap_unmap] keep the invariant; a mapping never exceeds the
    capability it is made from. *)

From stdpp Require Import base gmap list list_numbers.
From Stdlib Require Import ZArith Lia Bool.
From S2P Require Import Prelude FramePool CapWord Sidecar CapState CapPools CapOps CapMsg.
From S2P Require Import CapRevoke Wp HolderSpec CapInv ArenaSpec CapInvPools CapInvObj.
From S2P Require Import CapCreateInv CapChanInv CapMsgInv CapDropInv CapTeardownInv.
#[local] Open Scope Z_scope.
#[local] Open Scope carr_scope.
#[local] Open Scope cap_scope.
#[local] Opaque Z.to_nat Z.div Z.modulo.

(** * A new mapping record *)

Lemma maps_overlap_false t o va n i :
  cap_maps_overlap t o va n = false → 0 ≤ i < CAP_MAP_MAX →
  let m := (t_maps t).[i] in
  map_live m → mp_obj_id m ≠ o → 0 ≤ map_end m < 2 ^ 64 → 0 ≤ va + n * 4096 < 2 ^ 64 →
  map_end m ≤ va ∨ va + n * 4096 ≤ mp_vaddr m.
Proof.
  unfold cap_maps_overlap. destruct (find_up _ _ _) eqn:E; [done|]. intros _ Hi Hm Ho He Hn.
  set (m := (t_maps t).[i]) in *.
  pose proof (proj1 (find_up_None _ _ _) E i ltac:(rewrite Z2Nat.id by done; lia)) as Hc. unfold map_conflicts in Hc.
  fold m in Hc. rewrite (proj2 (Z.eqb_neq _ _) Hm), (proj2 (Z.eqb_neq _ _) Ho) in Hc. simpl in Hc.
  change (mp_vaddr m + mp_npages m * 4096) with (map_end m) in Hc. rewrite !u64_small in Hc by done. lia.
Qed.

Lemma maps_ok_record ti i o sl va n s :
  maps_ok (k_tables s) → 0 ≤ va → 0 ≤ n < 4096 → va + n * 4096 ≤ 2 ^ 47 →
  (∀ j, 0 ≤ j < CAP_MAP_MAX → map_live (t_maps (table ti s)).[j] → mp_obj_id (t_maps (table ti s)).[j] ≠ o →
    0 ≤ map_end (t_maps (table ti s)).[j] < 2 ^ 64 →
    map_end (t_maps (table ti s)).[j] ≤ va ∨ va + n * 4096 ≤ mp_vaddr (t_maps (table ti s)).[j]) →
  maps_ok (k_tables (upd_map ti i (λ _, mkMap o sl (u16 n) va 1) s)).
Proof.
  intros [H1 H2] Hva Hn Hend Hapart. rewrite u16_small by lia.
  assert (∀ j, 0 ≤ j < CAP_MAP_MAX → map_live (t_maps (table ti s)).[j] → mp_obj_id (t_maps (table ti s)).[j] ≠ o →
    map_end (t_maps (table ti s)).[j] ≤ va ∨ va + n * 4096 ≤ mp_vaddr (t_maps (table ti s)).[j]) as Hnew.
  { intros j Hj Hm Ho. destruct (H1 ti j Hj Hm) as (A & B & D). change (k_tables s).[ti] with (table ti s) in *.
    unfold map_end in *. apply Hapart; try done; unfold map_end; lia. }
  split.
  - intros tj j Hj. rewrite upd_map_get. destruct (_ && _); [|by apply H1]. unfold map_end. cbn. lia.
  - intros tj j j' Hj Hj'. rewrite !upd_map_get.
    destruct (Z.eqb_spec ti tj) as [<-|]; simpl; [|by apply H2].
    destruct (Z.eqb_spec i j) as [<-|], (Z.eqb_spec i j') as [<-|]; simpl.
    + done.
    + intros _ Hm Ho. unfold map_end at 1. cbn. destruct (Hnew j' Hj' Hm); [done|by right|by left].
    + intros Hm _ Ho. unfold map_end at 2. cbn. destruct (Hnew j Hj Hm); [done|by left|by right].
    + by apply H2.
Qed.

(** * cap_map *)

Lemma w_len_range w : 0 ≤ w_len w < 2 ^ 12.
Proof. rewrite w_len_field. apply field_range. done. Qed.

Section Map.
Context `{!CapEnv}.

(** The calls that map [n] pages, most recent first. *)
Definition map_calls (cr3 va pa n fl : Z) : list Hook :=
  reverse ((λ i, HMapPage cr3 (u64 (va + i * 4096)) (u64 (pa + i * 4096)) fl) <$> seqZ 0 n).

Lemma map_calls_snoc cr3 va pa n fl : 0 ≤ n →
  map_calls cr3 va pa (n + 1) fl = HMapPage cr3 (u64 (va + n * 4096)) (u64 (pa + n * 4096)) fl :: map_calls cr3 va pa n fl.
Proof. intros Hn. unfold map_calls. rewrite seqZ_snoc by lia. by rewrite fmap_app, reverse_app. Qed.

(** What the page tables answer to call [j], made after the history [tr]; and that they took
    the first [n] calls. *)
Definition call_result (cr3 va pa fl : Z) (tr : list Hook) (j : Z) : Z :=
  cap_arch_map_page_ret (map_calls cr3 va pa j fl ++ tr) cr3 (u64 (va + j * 4096)) (u64 (pa + j * 4096)) fl.
Definition calls_accepted (cr3 va pa n fl : Z) (tr : list Hook) : Prop := ∀ j, 0 ≤ j < n → 0 ≤ call_result cr3 va pa fl tr j.

Lemma wp_map_pages cr3 va pa n fl s (Q : unit + Z → KState → Prop) :
  0 ≤ n → (calls_accepted cr3 va pa n fl (k_trace s) → Q (inl tt) (set_k_trace (map_calls cr3 va pa n fl ++ k_trace s) s)) →
  (∀ i r, 0 ≤ i < n → r < 0 → calls_accepted cr3 va pa i fl (k_trace s) → r = call_result cr3 va pa fl (k_trace s) i →
     Q (inr r) (set_k_trace (HTlbFlush :: unmap_calls cr3 va i ++ map_calls cr3 va pa (i + 1) fl ++ k_trace s) s)) →
  wp (map_pages cr3 va pa n fl) Q s.
Proof.
  intros Hn Hok Hfail. unfold map_pages.
  apply (wp_for_ctl (λ j _ s', s' = set_k_trace (map_calls cr3 va pa j fl ++ k_trace s) s ∧ calls_accepted cr3 va pa j fl (k_trace s))).
  - split; [by rewrite <-(set_k_trace_id s) at 1|intros j Hj; lia].
  - intros j [] s1 Hj [-> Hacc]. rewrite Z2Nat.id in Hj by done. rewrite wp_bind. unfold cap_arch_map_page.
    rewrite wp_bind, wp_gets, wp_bind, wp_hook, wp_ret. set (r := cap_arch_map_page_ret _ _ _ _ _).
    assert (HMapPage cr3 (u64 (va + j * 4096)) (u64 (pa + j * 4096)) fl :: map_calls cr3 va pa j fl ++ k_trace s =
      map_calls cr3 va pa (j + 1) fl ++ k_trace s) as Ecalls by (by rewrite map_calls_snoc by lia).
    kred. destruct (Z.ltb_spec r 0) as [Hr|Hr].
    + rewrite wp_bind. apply wp_unmap_exact. rewrite wp_bind, wp_hook, wp_ret. kred. rewrite Ecalls.
      by apply Hfail; [lia|..].
    + rewrite wp_ret. rewrite Ecalls. split; [done|]. intros k Hk. destruct (decide (k = j)) as [->|]; [exact Hr|].
      apply Hacc. lia.
  - intros [] s1 [-> Hacc]. rewrite Z2Nat.id in * by lia. by apply Hok.
Qed.

(** The authority under which slot [i] of process [pid] is mapped at [va]. *)
Record map_grant (pid i va fl : Z) (s : KState) (ti : Z) : Prop := {
  mg_table : table_of (k_table_pid s) pid ti;
  mg_valid : cap_word_valid (slot ti i s) = true;
  mg_type : w_type (slot ti i s) = CAP_TYPE_MEM;
  mg_object : live_mem (k_objects s) (k_obj_next s) (w_obj (slot ti i s));
  mg_map : Z.land (w_perm (slot ti i s)) CAP_PERM_MAP ≠ 0;
  mg_rights : fl ≠ 0 ∧ Z.ldiff fl 7 = 0 ∧ Z.ldiff fl (w_perm (slot ti i s)) = 0;
  mg_align : Z.land va 0xFFF = 0;
  mg_user : 0 < w_len (slot ti i s) ∧ va + w_len (slot ti i s) * 4096 ≤ 2 ^ 47;
  mg_within : w_off (slot ti i s) + w_len (slot ti i s) ≤ o_npages (object (w_obj (slot ti i s)) s);
  mg_cr3 : cap_proc_cr3 pid ≠ 0
}.

(** Objects, table owners and slots are as they were. *)
Definition caps_kept (s s' : KState) : Prop :=
  k_objects s' = k_objects s ∧ k_obj_next s' = k_obj_next s ∧ k_table_pid s' = k_table_pid s ∧
  ∀ tj k, slot tj k s' = slot tj k s.

Lemma caps_kept_maps s s1 s2 : caps_kept s s1 → maps_only s1 s2 → caps_kept s s2.
Proof.
  intros (E1 & E2 & E3 & E4) M. pose proof M as (T & tr & -> & _ & _). do 3 (split; [done|]).
  intros tj k. by rewrite (maps_only_slot s1).
Qed.

(** Record [j] of table [ti] is now [rec]; all others, and the owners of the tables, are as
    they were. *)
Definition map_recorded (ti j : Z) (rec : CapMap) (s s' : KState) : Prop :=
  (∀ tj k, (t_maps (table tj s')).[k] = if (ti =? tj) && (j =? k) then rec else (t_maps (table tj s)).[k]) ∧
  ∀ tj, t_pid (table tj s') = t_pid (table tj s).

(** The page-table calls of one [cap_map]: none, when there is no grant or another object is
    mapped in the way; all the pages of the view; or the pages up to a refusal, undone. *)
Inductive map_outcome (pid i va fl : Z) (s : KState) (r : Z) (s' : KState) : Prop :=
| map_refused : r ≠ 0 → k_trace s' = k_trace s →
    (∀ ti, map_grant pid i va fl s ti →
       cap_maps_overlap (table ti s) (w_obj (slot ti i s)) va (w_len (slot ti i s)) = true) →
    map_outcome pid i va fl s r s'
| map_undone ti k :
    map_grant pid i va fl s ti → r < 0 → 0 ≤ k < w_len (slot ti i s) →
    let cr3 := cap_proc_cr3 pid in
    let pa := o_phys_base (object (w_obj (slot ti i s)) s) + w_off (slot ti i s) * 4096 in
    calls_accepted cr3 va pa k fl (k_trace s) → r = call_result cr3 va pa fl (k_trace s) k →
    k_trace s' = HTlbFlush :: unmap_calls cr3 va k ++ map_calls cr3 va pa (k + 1) fl ++ k_trace s →
    map_outcome pid i va fl s r s'
| map_done ti :
    map_grant pid i va fl s ti →
    let w := slot ti i s in
    let pa := o_phys_base (object (w_obj w) s) + w_off w * 4096 in
    calls_accepted (cap_proc_cr3 pid) va pa (w_len w) fl (k_trace s) →
    k_trace s' = HTlbFlush :: map_calls (cap_proc_cr3 pid) va pa (w_len w) fl ++ k_trace s →
    (r = CAP_ETABLEFULL ∧ (∀ tj, t_maps (table tj s') = t_maps (table tj s)) ∧
       (∀ j, 0 ≤ j < CAP_MAP_MAX → map_live (t_maps (table ti s)).[j]) ∨
     r = 0 ∧ ∃ j, 0 ≤ j < CAP_MAP_MAX ∧ ¬ map_live (t_maps (table ti s)).[j] ∧
       map_recorded ti j (mkMap (w_obj w) i (w_len w) va 1) s s' ∧ caps_kept s s') →
    map_outcome pid i va fl s r s'.

(** The end of [cap_map]: the pages are mapped and the record is written. *)
Lemma wp_record pid i va fl ti s s4 hold :
  map_grant pid i va fl s ti → 0 ≤ va → Inv s4 hold [] [] [] → quiet s4 → k_locks s4 = [LTable ti] →
  let w := slot ti i s in
  calls_accepted (cap_proc_cr3 pid) va (o_phys_base (object (w_obj w) s) + w_off w * 4096) (w_len w) fl (k_trace s) →
  k_trace s4 = HTlbFlush :: map_calls (cap_proc_cr3 pid) va (o_phys_base (object (w_obj w) s) + w_off w * 4096)
    (w_len w) fl ++ k_trace s →
  (∀ tj, t_maps (table tj s4) = t_maps (table tj s) ∧ t_pid (table tj s4) = t_pid (table tj s)) →
  cap_maps_overlap (table ti s4) (w_obj w) va (w_len w) = false → caps_kept s s4 →
  wp (match find_up (Z.to_nat CAP_MAP_MAX) 0 (λ j, mp_active (t_maps (table ti s4)).[j] =? 0) with
      | None => do* cap_unlock (LTable ti); ret CAP_ETABLEFULL
      | Some j =>
          do* modify (upd_map ti j (λ _, mkMap (w_obj w) i (u16 (w_len w)) va 1));
          do* cap_unlock (LTable ti);
          ret 0
      end) (λ r s', kernel_ok s' ∧ map_outcome pid i va fl s r s') s4.
Proof.
  intros HG Hva HI4 Hq4 Hl4 w Hacc Et4 Em4 Eov4 Hck4. unfold w in *. clear w.
  pose proof (w_len_range (slot ti i s)) as Hlen. pose proof (mg_user _ _ _ _ _ _ HG) as [_ Hend].
  destruct (find_up _ _ _) as [j|] eqn:Ej.
  - apply find_up_Some in Ej as (Hj & Hj2%Z.eqb_eq & _). rewrite Z2Nat.id in Hj by done.
    rewrite wp_bind, wp_modify, wp_bind. set (s5 := upd_map _ _ _ _).
    assert (maps_only s4 s5) as M5.
    { apply maps_only_upd. intros Hmo. apply maps_ok_record; try done; try lia.
      intros k Hk Hm Ho He. apply (maps_overlap_false _ _ _ _ k Eov4); try done; lia. }
    pose proof (maps_only_locks _ _ M5) as Hl5. rewrite Hl4 in Hl5.
    assert (k_trace s5 = k_trace s4) as Et5 by done.
    assert (map_recorded ti j (mkMap (w_obj (slot ti i s)) i (w_len (slot ti i s)) va 1) s s5) as Ej5.
    { split.
      - intros tj k. unfold s5, table. rewrite upd_map_get, u16_small by lia. by rewrite (proj1 (Em4 tj)).
      - intros tj. rewrite <-(proj2 (Em4 tj)). destruct M5 as (T5 & tr5 & E5 & HT5 & _). rewrite E5. apply HT5. }
    pose proof (caps_kept_maps _ _ _ Hck4 M5) as Hck5.
    clearbody s5. rewrite wp_cap_unlock, wp_ret, Hl5, lock_drop_head by apply not_elem_of_nil. split.
    + apply (kernel_ok_intro _ hold); [|by apply quiet_locks, (maps_only_quiet s4)|done].
      by apply inv_locks, (maps_only_inv s4).
    + eapply map_done; [exact HG|done|kred; congruence|]. right. split; [done|]. exists j. split; [lia|]. split; [|by split].
      rewrite <-(proj1 (Em4 ti)). unfold map_live. rewrite Hj2. by intros [].
  - rewrite wp_bind. unlock Hl4. rewrite wp_ret. split; [by finish_ok|].
    eapply map_done; [exact HG|done|done|]. left. split; [done|]. split; [intros tj; apply Em4|]. intros j Hj.
    rewrite <-(proj1 (Em4 ti)). unfold map_live. rewrite find_up_None in Ej. specialize (Ej j ltac:(rewrite Z2Nat.id by done; lia)).
    by apply Z.eqb_neq in Ej.
Qed.

Lemma map_ok pid i va fl s :
  kernel_ok s → 0 ≤ pid < 2 ^ 16 → 0 ≤ i < CAP_TABLE_ENTRIES → 0 ≤ va < 2 ^ 64 →
  wp (cap_map pid i va fl) (λ r s', kernel_ok s' ∧ map_outcome pid i va fl s r s') s.
Proof.
  intros Hs Hpid Hi Hva. pose proof Hs as (hold & HI & Hq & Hl)%kernel_ok_inv. unfold cap_map.
  rewrite wp_bind. eapply wp_table_index_full; [exact HI|done| |].
  { intros Hno. split; [done|]. apply map_refused; [done|done|]. intros ti HG. exfalso.
    destruct (mg_table _ _ _ _ _ _ HG) as (Hti & Ep & _). by destruct (Hno ti Hti). }
  intros ti T1 P1 s1 HI1 Hti Eslot Emaps Hbound _ Hstay.
  assert (∀ tj, map_grant pid i va fl s tj → tj = ti) as Hsame.
  { intros tj HG. destruct (Hbound tj pid (mg_table _ _ _ _ _ _ HG)) as (? & ? & ?). by eapply (table_of_inj _ _ pid ti tj (inv_pids HI1)). }
  replace (ti <? 0) with false by (symmetry; apply Z.ltb_ge, Hti).
  rewrite wp_bind, wp_cap_lock by lk Hl. set (s2 := set_k_locks _ s1).
  assert (∀ r, r ≠ 0 → (map_grant pid i va fl s ti →
      cap_maps_overlap (table ti s) (w_obj (slot ti i s)) va (w_len (slot ti i s)) = true) →
    wp (do* cap_unlock (LTable ti); ret r) (λ r s', kernel_ok s' ∧ map_outcome pid i va fl s r s') s2) as Hwhy.
  { intros r Hr Hov. rewrite wp_bind. unlock Hl. rewrite wp_ret. split; [by finish_ok|].
    apply map_refused; [done|done|]. intros tj HG. pose proof (Hsame tj HG) as ->. by apply Hov. }
  assert (∀ r, r ≠ 0 → (map_grant pid i va fl s ti → False) →
    wp (do* cap_unlock (LTable ti); ret r) (λ r s', kernel_ok s' ∧ map_outcome pid i va fl s r s') s2) as Hfail.
  { intros r Hr Hno. apply Hwhy; [done|]. intros HG. by destruct (Hno HG). }
  rewrite wp_bind, wp_get_slot by done. change (slot ti i s2) with (slot ti i s1). rewrite Eslot.
  destruct (_ || _) eqn:E1.
  { apply Hfail; [done|]. intros HG. by rewrite (mg_valid _ _ _ _ _ _ HG), (mg_type _ _ _ _ _ _ HG) in E1. }
  apply orb_false_iff in E1 as [Ev%negb_false_iff Et%negb_false_iff%Z.eqb_eq].
  destruct (Z.eqb_spec (Z.land (w_perm (slot ti i s)) CAP_PERM_MAP) 0) as [|Hmap].
  { apply Hfail; [done|]. intros HG. by apply (mg_map _ _ _ _ _ _ HG). }
  destruct (_ || _) eqn:E2.
  { apply Hfail; [done|]. intros HG. destruct (mg_rights _ _ _ _ _ _ HG) as (H1 & H2 & _).
    by rewrite H2, (proj2 (Z.eqb_neq fl 0) H1) in E2. }
  apply orb_false_iff in E2 as [Ef%Z.eqb_neq Ef2%negb_false_iff%Z.eqb_eq].
  destruct (Z.eqb_spec (Z.ldiff fl (w_perm (slot ti i s))) 0) as [Ef3|]; simpl negb; cbv iota.
  2: { apply Hfail; [done|]. intros HG. by destruct (mg_rights _ _ _ _ _ _ HG) as (_ & _ & ?). }
  destruct (Z.eqb_spec (Z.land va 0xFFF) 0) as [Eal|]; simpl negb; cbv iota.
  2: { apply Hfail; [done|]. intros HG. by pose proof (mg_align _ _ _ _ _ _ HG). }
  cbv zeta. destruct (_ || _) eqn:E3.
  { apply Hfail; [done|]. intros HG. destruct (mg_user _ _ _ _ _ _ HG) as [H1 H2]. rewrite u64_small in E3 by lia.
    destruct (Z.eqb_spec (w_len (slot ti i s)) 0), (Z.leb_spec (va + w_len (slot ti i s) * 4096) va),
      (Z.ltb_spec 0x800000000000 (va + w_len (slot ti i s) * 4096)); (done || lia). }
  apply orb_false_iff in E3 as [[Eln%Z.eqb_neq Evh%Z.leb_gt]%orb_false_iff Evm%Z.ltb_ge].
  rewrite wp_bind, wp_gets. destruct (cap_object_get _ s2) as [o|] eqn:Eo.
  2: { apply Hfail; [done|]. intros HG. destruct (mg_object _ _ _ _ _ _ HG) as (H1 & H2 & _).
       by apply (object_get_dead _ _ _ _ _ _ HI1 Eo). }
  destruct (payload_object s2 hold _ _ _ _ _ HI1 Hq Eo) as (Eow & Ho & Ha & Hid & Hr).
  rewrite wp_bind, wp_get_object. destruct (Z.eqb_spec (o_kind (object o s2)) CAP_OBJ_KIND_MEM) as [Ek|]; simpl negb; cbv iota.
  2: { apply Hfail; [done|]. intros HG. destruct (mg_object _ _ _ _ _ _ HG) as (_ & _ & H3). by rewrite <-Eow in H3. }
  destruct (Z.ltb_spec (o_npages (object o s2)) (w_off (slot ti i s) + w_len (slot ti i s))) as [Hlt|Hin].
  { apply Hfail; [done|]. intros HG. pose proof (mg_within _ _ _ _ _ _ HG) as Hwi. rewrite <-Eow in Hwi.
    change (object o s2) with (object o s) in Hlt. lia. }
  rewrite wp_bind, wp_gets. destruct (cap_maps_overlap (table ti s2) _ _ _) eqn:Eov.
  { apply Hwhy; [done|]. intros _. rewrite <-Eov. unfold cap_maps_overlap. by rewrite <-(Emaps ti). }
  rewrite wp_bind, wp_cap_lock by lk Hl. set (s3 := set_k_locks _ s2). rewrite wp_bind, wp_get_object.
  change (object o s3) with (object o s2). rewrite Hr. simpl negb. cbv iota.
  destruct (Z.eqb_spec (cap_proc_cr3 pid) 0) as [|Hcr3].
  { rewrite wp_bind. unlock Hl. rewrite wp_bind. rewrite wp_cap_unlock. kred. rewrite lock_drop_head by apply not_elem_of_nil.
    rewrite wp_ret. split; [by finish_ok|]. apply map_refused; [done|done|]. intros tj HG. by destruct (mg_cr3 _ _ _ _ _ _ HG). }
  pose proof (w_len_range (slot ti i s)) as Hlen. rewrite u64_nowrap in Evm by lia.
  assert (table_of (k_table_pid s) pid ti) as Hti0 by (by eapply (table_was_bound s hold pid ti i P1)).
  assert (map_grant pid i va fl s ti) as HG.
  { rewrite Eow in *. split; try done. by split; [lia|]. }
  rewrite wp_bind. apply wp_map_pages; [lia| |].
  2: { intros k r Hk Hneg Hacc Er. rewrite wp_bind. unlock Hl. rewrite wp_bind, wp_cap_unlock. kred.
       rewrite lock_drop_head by apply not_elem_of_nil. rewrite wp_ret. split; [by finish_ok|].
       eapply map_undone; [exact HG|done|done|..]; by rewrite <-Eow. }
  intros Hacc. rewrite wp_bind, wp_hook, wp_bind. unlock Hl. rewrite wp_bind, wp_gets.
  eapply (wp_record pid i va fl ti s _ hold); [exact HG|lia|exact HI1|exact Hq|reflexivity|by rewrite <-Eow|by rewrite <-Eow| |exact Eov|].
  - intros tj. split; [apply Emaps|]. change (t_pid (table tj (set_k_tables T1 (set_k_table_pid P1 s))) = t_pid (table tj s)).
    by rewrite (Hstay ti Hti0).
  - do 2 (split; [done|]). split; [|exact Eslot]. change (k_table_pid (set_k_tables T1 (set_k_table_pid P1 s)) = k_table_pid s).
    by rewrite (Hstay ti Hti0).
Qed.
(** * cap_unmap *)

Lemma unmap_ok pid i va s :
  kernel_ok s → 0 ≤ pid < 2 ^ 16 → 0 ≤ i < CAP_TABLE_ENTRIES →
  wp (cap_unmap pid i va) (λ r s', kernel_ok s' ∧
    (r ≠ 0 ∧ k_trace s' = k_trace s ∨
     r = 0 ∧ ∃ ti j, 0 ≤ j < CAP_MAP_MAX ∧ let m := (t_maps (table ti s)).[j] in
       map_live m ∧ mp_vaddr m = va ∧ ¬ map_live (t_maps (table ti s')).[j] ∧
       k_trace s' = HTlbFlush :: unmap_calls (cap_proc_cr3 pid) va (mp_npages m) ++ k_trace s)) s.
Proof.
  intros Hs Hpid Hi. pose proof Hs as (hold & HI & Hq & Hl)%kernel_ok_inv. unfold cap_unmap.
  rewrite wp_bind. eapply wp_table_index; [exact HI|done|by split; [|left]|].
  intros ti T1 P1 s1 HI1 Hti Eslot Emaps _. replace (ti <? 0) with false by (symmetry; apply Z.ltb_ge, Hti).
  rewrite wp_bind, wp_cap_lock by lk Hl. set (s2 := set_k_locks _ s1).
  rewrite wp_bind, wp_get_slot by done. cbv zeta. rewrite wp_bind, wp_gets.
  destruct (find_up _ _ _) as [j|] eqn:Ej.
  2: { rewrite wp_bind. unlock Hl. rewrite wp_ret. split; [by finish_ok|by left]. }
  apply find_up_Some in Ej as (Hj & Hm & _). rewrite Z2Nat.id in Hj by done.
  change (table ti s2) with (table ti s1) in *. rewrite (Emaps ti) in *.
  unfold unmap_matches in Hm. destruct (_ || _) eqn:Em; [done|].
  apply orb_false_iff in Em as [Ea%Z.eqb_neq Eva%negb_false_iff%Z.eqb_eq]. rewrite Eva.
  rewrite wp_bind. apply wp_unmap_exact. rewrite wp_bind, wp_hook, wp_bind, wp_modify, wp_bind. kred.
  match goal with |- context [upd_map ti j (set_mp_active 0) ?s] => set (s3 := s) end.
  pose proof (maps_only_retire ti j s3) as M4. pose proof (maps_only_locks _ _ M4) as Hl4.
  pose proof (upd_map_get ti j (set_mp_active 0) s3 ti j) as Eg. rewrite !Z.eqb_refl in Eg. cbn [andb] in Eg.
  assert (k_trace (upd_map ti j (set_mp_active 0) s3) = k_trace s3) as Et4 by done.
  set (s4 := upd_map _ _ _ s3) in *. clearbody s4. rewrite wp_cap_unlock, wp_ret, Hl4.
  change (k_locks s3) with (LTable ti :: k_locks s). rewrite Hl, lock_drop_head by apply not_elem_of_nil. split.
  - apply (kernel_ok_intro _ hold); [|apply quiet_locks, (maps_only_quiet s3); [done|exact Hq]|done].
    apply inv_locks, (maps_only_inv s3); [done|exact HI1].
  - right. split; [done|]. exists ti, j. split; [lia|]. split; [done|]. split; [done|].
    unfold table. kred. split; [|by rewrite Et4]. rewrite Eg. by intros [].
Qed.

End Map.
