(* ===== verification/CapRevokeInv.v ===== *)
(** [cap_revoke] keeps the invariant, never faults, and leaves nothing of the
    object behind: no slot, no mapping record and no live object. *)

From stdpp Require Import base gmap list list_numbers.
From Stdlib Require Import ZArith Lia Bool.
From S2P Require Import Prelude FramePool CapWord Sidecar CapState CapPools CapOps CapMsg.
From S2P Require Import CapRevoke Wp HolderSpec CapInv ArenaSpec CapInvPools CapInvObj.
From S2P Require Import CapCreateInv CapChanInv CapMsgInv CapDropInv CapTeardownInv.
#[local] Open Scope Z_scope.
#[local] Open Scope carr_scope.
#[local] Open Scope cap_scope.
#[local] Opaque Z.to_nat Z.div Z.modulo.

(** * Stamping a queued word *)

Lemma stamp_range w : 0 ≤ w < 2 ^ 64 → 0 ≤ cap_word_stamp_revoked w < 2 ^ 64.
Proof.
  intros Hw. apply bits_range; [done|]. intros n Hn. rewrite stamp_testbit by lia. replace ((57 <=? n) && (n <? 61)) with false by lia.
  by apply testbit_high with 64.
Qed.

Lemma stamp_queue_word w : queue_word_ok w →
  queue_word_ok (cap_word_stamp_revoked w) ∧ w_type (cap_word_stamp_revoked w) = w_type w ∧
  w_obj (cap_word_stamp_revoked w) = w_obj w.
Proof.
  intros Hw. assert (0 ≤ w < 2 ^ 64 ∧ w_type w ≠ CAP_TYPE_IRQ) as [Hr Ht] by (by destruct Hw as [->|(? & _ & ?)]).
  assert (w_type (cap_word_stamp_revoked w) = w_type w ∧ w_obj (cap_word_stamp_revoked w) = w_obj w) as [E1 E2].
  { autorewrite with cap_fields. split; apply stamp_field; lia || done. }
  split; [|done]. right. split; [by apply stamp_range|]. split; [right; by apply stamp_state|by rewrite E1].
Qed.

Lemma msg_ok_stamp i m : msg_ok m → msg_ok (set_cap_word i (cap_word_stamp_revoked (m_cap_word m).[i]) m).
Proof.
  intros [H1 H2 H3 H4 H5]. destruct (stamp_queue_word _ (H2 i)) as (W1 & W2 & W3).
  assert (∀ j, let w := (m_cap_word m).[i <- cap_word_stamp_revoked (m_cap_word m).[i]].[j] in
    queue_word_ok w ∧ w_type w = w_type (m_cap_word m).[j] ∧ w_obj w = w_obj (m_cap_word m).[j]) as Hw.
  { intros j. cbv zeta. rewrite aget_upd. by destruct (Z.eqb_spec i j) as [<-|]. }
  split; try done; cbn.
  - intros j. apply Hw.
  - intros j k Hj Hk. destruct (Hw j) as (_ & -> & ->), (Hw k) as (_ & -> & ->). by apply H3.
Qed.

Lemma wp_stamp_queued node s (Q : unit → KState → Prop) :
  chans_ok (k_channels s) → 0 ≤ h_pid node < CAP_CHAN_MAX →
  0 ≤ h_ref node < CHAN_QUEUE_DEPTH * CAP_MSG_MAX_CAPS →
  (∀ C', chans_ok C' → Q tt (set_k_channels C' s)) → wp (stamp_queued node) Q s.
Proof.
  intros HC Hp Hrf HQ. unfold stamp_queued. cbv zeta.
  rewrite wp_bind, wp_in_bounds by (unfold CHAN_QUEUE_DEPTH, CAP_MSG_MAX_CAPS in *; split; [apply Z.div_pos|apply Z.div_lt_upper_bound]; lia).
  unfold set_message. rewrite wp_bind, wp_in_bounds, wp_modify by done. apply HQ. unfold channel.
  apply chans_ok_upd; [done|]. destruct (HC (h_pid node)) as [H1 H2]. split; [done|]. intros d e. cbn.
  rewrite aget_upd. destruct (Z.eqb_spec (h_qdir node) d) as [<-|]; [|done]. rewrite aget_upd.
  destruct (_ =? _); [|done]. apply msg_ok_stamp, H2.
Qed.

(** * Detaching the holder list *)

Definition is_slot (H : gmap Z CapHolder) (h : Z) : bool := h_kind H.[h] =? HOLDER_SLOT.

(** The slots the nodes of [l] stand for; [tb] gives the table of a pid. *)
Definition slots_of (H : gmap Z CapHolder) (tb : Z → Z) (l : list Z) : list (Z * Z) :=
  (λ h, (tb (h_pid H.[h]), h_ref H.[h])) <$> filter (λ h, is_slot H h = true) l.

Lemma slots_of_cons H tb h l :
  slots_of H tb (h :: l) = if is_slot H h then (tb (h_pid H.[h]), h_ref H.[h]) :: slots_of H tb l else slots_of H tb l.
Proof. unfold slots_of. rewrite filter_cons. destruct (is_slot H h) eqn:E; by rewrite ?decide_True, ?decide_False by done. Qed.

Lemma elem_of_slots H tb l ti i :
  (ti, i) ∈ slots_of H tb l ↔ ∃ h, h ∈ l ∧ is_slot H h = true ∧ ti = tb (h_pid H.[h]) ∧ i = h_ref H.[h].
Proof.
  unfold slots_of. rewrite list_elem_of_fmap. split.
  - intros (h & [= -> ->] & [Hs Hl]%list_elem_of_filter). eauto.
  - intros (h & Hl & Hs & -> & ->). exists h. split; [done|]. by apply list_elem_of_filter.
Qed.

(** The object being revoked, its list detached. *)
Definition revoked_obj (ob : CapObject) : CapObject := set_o_holder_head CAP_FREELIST_END (set_o_revoking 1 ob).

Lemma hp_objects O s :
  set_k_channels (k_channels s) (hp (k_holders s) (k_holder_free s) O s) = set_k_objects O s.
Proof. by destruct s. Qed.

Section Detach.
Context (s : KState) (hold : Z → list Z) (o : Z).
Context (HI : Inv s hold [] [] []) (Ho : 0 ≤ o < k_obj_next s).
Context (Ha : o_active (object o s) = 1) (Hr : o_revoking (object o s) = 0).

Definition tbl (pid : Z) : Z := cap_table_find pid s.
Definition held_slots (l : list Z) : list (Z * Z) := slots_of (k_holders s) tbl l.

(** The slot of a slot holder is found through its pid. *)
Lemma held_slot tf x h :
  slots_ok (k_tables s) (k_table_pid s) tf [] →
  links_ok (k_tables s) (k_table_pid s) (k_holders s) (k_objects s) (k_obj_next s) tf [] hold [] →
  h ∈ hold x → is_slot (k_holders s) h = true →
  let ti := tbl (h_pid (k_holders s).[h]) in
  table_of (k_table_pid s) (h_pid (k_holders s).[h]) ti ∧ live tf [] ti (h_ref (k_holders s).[h]) ∧
  w_obj (tslot (k_tables s) ti (h_ref (k_holders s).[h])) = x.
Proof.
  intros Hs Hl Hh Hk%Z.eqb_eq ti.
  destruct (lk_slot _ _ _ _ _ _ _ _ _ Hl x h Hh (not_elem_of_nil _) Hk) as (tj & Hlv & EP & Ew & _).
  assert (h_pid (k_holders s).[h] = 0 → tj = 0) as H0 by (intros E0; eapply live_bound; [exact Hs|exact Hlv|congruence]).
  destruct (table_find_spec s (h_pid (k_holders s).[h]) (inv_pids HI)) as [(_ & _ & Hno)|Htb].
  { destruct (Hno tj); [apply Hlv|done]. }
  change (cap_table_find _ s) with ti in Htb. clearbody ti.
  assert (tj = ti) as <- by (apply (table_of_inj _ _ _ _ _ (inv_pids HI) Htb); [apply Hlv|done|done]).
  split; [exact Htb|]. by split.
Qed.

Lemma held_slots_nodup tf :
  slots_ok (k_tables s) (k_table_pid s) tf [] →
  links_ok (k_tables s) (k_table_pid s) (k_holders s) (k_objects s) (k_obj_next s) tf [] hold [] →
  NoDup (held_slots (hold o)).
Proof.
  intros Hs Hl. destruct (inv_hold HI) as [fr Hok]. unfold held_slots, slots_of.
  apply NoDup_fmap_2_strong; [|apply NoDup_filter, (ho_nd Hok)].
  intros a b [Ka Hina]%list_elem_of_filter [Kb Hinb]%list_elem_of_filter [= E1 E2].
  destruct (held_slot tf o a Hs Hl Hina Ka) as ((_ & Pa & _) & _).
  destruct (held_slot tf o b Hs Hl Hinb Kb) as ((_ & Pb & _) & _).
  apply (lk_uniq _ _ _ _ _ _ _ _ _ Hl o a b (h_pid (k_holders s).[a]) (h_ref (k_holders s).[a]) Hina Hinb
           (not_elem_of_nil _) (not_elem_of_nil _)).
  - split; [by apply Z.eqb_eq|done].
  - split; [by apply Z.eqb_eq|]. split; [|by rewrite E2]. by rewrite <-Pb, <-E1, Pa.
Qed.

Lemma hold_ok_detach fr H' :
  hold_ok (k_holders s) (k_holder_free s) (k_objects s) (k_obj_next s) fr hold [] →
  (∀ x, hkey H'.[x] = hkey (k_holders s).[x]) → (∀ x, x ∉ hold o → H'.[x] = (k_holders s).[x]) →
  hold_ok H' (k_holder_free s) (k_objects s).[o <- revoked_obj (object o s)] (k_obj_next s) fr
    (hold_upd hold o []) (hold o).
Proof using Ho Hr.
  intros Hok Hkey Hsame.
  assert (∀ x h, h ∈ hold_upd hold o [] x → x ≠ o ∧ h ∈ hold x) as Hin.
  { intros x h. unfold hold_upd. destruct (Z.eqb_spec x o) as [->|]; [|done]. by intros ?%not_elem_of_nil. }
  assert (∀ x, x ≠ o → ∀ h, h ∈ hold x → H'.[h] = (k_holders s).[h]) as Hoth.
  { intros x Hx h Hh. apply Hsame. intros Hh2. apply Hx. by eapply (held_unique Hok). }
  assert (∀ h, h_active H'.[h] = h_active (k_holders s).[h] ∧ h_obj_id H'.[h] = h_obj_id (k_holders s).[h]) as Hf.
  { intros h. specialize (Hkey h). unfold hkey in Hkey. split; congruence. }
  pose proof Hok as [H1 H2 H3 H4 H5 H6 H7 H8 H9 H10].
  split; try done.
  - eapply chain_ext; [|exact H1]. intros x Hx. unfold hnx. by rewrite Hsame by (by eapply (free_not_held Hok)).
  - intros h Hh. rewrite (proj1 (Hf h)). by apply H3.
  - intros x Hx. rewrite aget_upd. destruct (Z.eqb_spec o x) as [<-|Hne]; [by rewrite hold_upd_eq|].
    rewrite hold_upd_ne by done. eapply dchain_ext; [..|by apply H4]; intros h Hh; unfold hnx, hpv; by rewrite (Hoth x).
  - intros x. unfold hold_upd. destruct (_ =? _); [apply NoDup_nil_2|apply H5].
  - intros x h [_ Hh]%Hin. rewrite (proj1 (Hf h)), (proj2 (Hf h)). by apply H6.
  - intros x Hx. rewrite aget_upd. destruct (Z.eqb_spec o x) as [<-|Hne]; [done|]. rewrite hold_upd_ne by done. by apply H7.
  - intros h Hh. destruct (H6 o h Hh) as (B1 & B2 & B3 & B4). rewrite (proj1 (Hf h)), (proj2 (Hf h)), B3, hold_upd_eq.
    do 2 (split; [done|]). apply not_elem_of_nil.
  - intros h Hh. rewrite (proj2 (Hf h)). destruct (H10 h Hh) as [|[?%not_elem_of_nil|Hx]]; [by left|done|]. right.
    destruct (decide (h_obj_id (k_holders s).[h] = o)) as [E|E]; [left; by rewrite <-E|right; by rewrite hold_upd_ne].
Qed.

Lemma slots_ok_detach tf :
  slots_ok (k_tables s) (k_table_pid s) tf [] →
  links_ok (k_tables s) (k_table_pid s) (k_holders s) (k_objects s) (k_obj_next s) tf [] hold [] →
  slots_ok (k_tables s) (k_table_pid s) tf (held_slots (hold o)).
Proof using HI.
  intros Hs Hl. pose proof (held_slots_nodup tf Hs Hl) as Hnd. pose proof Hs as [H1 H2 H3 H4 H5 H6]. split; try done.
  intros ti i (h & Hh & Hk & -> & ->)%elem_of_slots.
  destruct (held_slot tf o h Hs Hl Hh Hk) as (_ & (A & B & D & _) & _). done.
Qed.

Lemma links_ok_detach tf H' :
  slots_ok (k_tables s) (k_table_pid s) tf [] →
  links_ok (k_tables s) (k_table_pid s) (k_holders s) (k_objects s) (k_obj_next s) tf [] hold [] →
  (∀ x, hkey H'.[x] = hkey (k_holders s).[x]) →
  links_ok (k_tables s) (k_table_pid s) H' (k_objects s).[o <- revoked_obj (object o s)] (k_obj_next s) tf
    (held_slots (hold o)) (hold_upd hold o []) [].
Proof using HI.
  intros Hs Hl Hkey.
  assert (∀ x h, h ∈ hold_upd hold o [] x → x ≠ o ∧ h ∈ hold x) as Hin.
  { intros x h. unfold hold_upd. destruct (Z.eqb_spec x o) as [->|]; [|done]. by intros ?%not_elem_of_nil. }
  eapply links_ok_shrink; [exact Hl|..].
  - intros ti i (A & B & D & _). do 3 (split; [done|]). apply not_elem_of_nil.
  - intros x h [_ Hh]%Hin. done.
  - intros x h ti Hh _ _ _. rewrite aget_upd. destruct (Z.eqb_spec o x) as [<-|Hne]; [done|].
    intros _ _. by rewrite hold_upd_ne.
  - intros x h ti [Hne Hh]%Hin _ (K1 & K2 & _) (A & B & D & _). do 3 (split; [done|]).
    intros (h' & Hh' & Hk' & Et & Er)%elem_of_slots.
    destruct (held_slot tf o h' Hs Hl Hh' Hk') as (_ & _ & W1). rewrite <-Et, <-Er in W1.
    destruct (held_slot tf x h Hs Hl Hh) as (Htb & _ & W2); [by apply Z.eqb_eq|].
    assert (ti = tbl (h_pid (k_holders s).[h])) as E.
    { destruct (held_slot tf o h' Hs Hl Hh' Hk') as (_ & Hlv & _). rewrite <-Et, <-Er in Hlv.
      apply (table_of_inj _ _ _ _ _ (inv_pids HI) Htb); [done|by rewrite K2|].
      intros E0. eapply live_bound; [exact Hs|exact Hlv|congruence]. }
    rewrite <-E in W2. congruence.
  - intros x Hx. rewrite aget_upd. by destruct (Z.eqb_spec o x) as [<-|].
Qed.

Lemma cores_revoked : cores (k_objects s) (k_objects s).[o <- revoked_obj (object o s)].
Proof. intros x. rewrite aget_upd. by destruct (Z.eqb_spec o x) as [<-|]. Qed.

Lemma inv_detach H' C' :
  (∀ x, hkey H'.[x] = hkey (k_holders s).[x]) → (∀ x, x ∉ hold o → H'.[x] = (k_holders s).[x]) → chans_ok C' →
  Inv (set_k_channels C' (hp H' (k_holder_free s) (k_objects s).[o <- revoked_obj (object o s)] s))
    (hold_upd hold o []) (hold o) (held_slots (hold o)) [].
Proof using HI Ho Hr.
  intros Hkey Hsame HC. pose proof HI as [[fr Hok] Hp (tf & Hs & Hl) Hob Hci _ Hpa Hm Hir Hmr].
  split; unfold hp; kred; try done.
  - exists fr. by apply hold_ok_detach.
  - exists tf. split; [by apply slots_ok_detach|by apply links_ok_detach].
  - destruct Hob as [H1 H2 H3 H4 H5 H6]. split; [done|intros x..];
      destruct (cores_revoked x) as (E1 & E2 & E3 & _ & _ & E4); rewrite ?E1, ?E2, ?E3, ?E4; auto.
    rewrite aget_upd. unfold hold_upd. destruct (Z.eqb_spec o x) as [<-|Hne]; [by rewrite Z.eqb_refl|].
    destruct (Z.eqb_spec x o); [done|]. by apply H5.
  - eapply cids_ok_cores; [exact Hci|apply cores_revoked].
  - eapply mems_ok_cores; [exact Hm|apply cores_revoked].
  - eapply irqs_ok_cores; [exact Hir|apply cores_revoked].
Qed.

(** Every usable slot that names the object is among the detached ones. *)
Lemma detach_all ti i :
  0 ≤ ti < CAP_TABLE_MAX → 0 ≤ i < CAP_TABLE_ENTRIES → cap_word_valid (slot ti i s) = true →
  obj_word (slot ti i s) = true → w_obj (slot ti i s) = o → (ti, i) ∈ held_slots (hold o).
Proof using HI Ha Hr.
  intros Hti Hi Hv Hw E. destruct (inv_slots HI) as (tf & Hs & Hl).
  destruct (slots_ok_hand _ _ _ _ ti i Hs Hti Hi Hv (not_elem_of_nil _)) as [_ Hlv].
  destruct (lk_holder _ _ _ _ _ _ _ _ _ Hl ti i Hlv Hw) as (h & Hh & _ & K1 & K2 & K3).
  { change (o_active (k_objects s).[w_obj (slot ti i s)] = 1). by rewrite E. }
  { change (o_revoking (k_objects s).[w_obj (slot ti i s)] = 0). by rewrite E. }
  change (tslot _ ti i) with (slot ti i s) in Hh. rewrite E in Hh.
  apply elem_of_slots. exists h. split; [done|]. split; [by apply Z.eqb_eq|]. split; [|done].
  destruct (held_slot tf o h Hs Hl Hh) as (Htb & _ & _); [by apply Z.eqb_eq|].
  apply (table_of_inj _ _ _ _ _ (inv_pids HI) Htb); [done|by rewrite K2|].
  intros E0. eapply live_bound; [exact Hs|exact Hlv|congruence].
Qed.

(** The loop of phase 1. *)
Definition detached (C' : gmap Z CapChannel) (H' : gmap Z CapHolder) : KState :=
  set_k_channels C' (hp H' (k_holder_free s) (k_objects s).[o <- revoked_obj (object o s)] s).

Record detaching (l1 l2 : list Z) (h dead n : Z) (H' : gmap Z CapHolder) (C' : gmap Z CapChannel) : Prop := {
  de_split : hold o = l1 ++ l2;
  de_rest : chain (hnx (k_holders s)) h l2;
  de_dead : chain (hnx H') dead (reverse l1);
  de_n : n = Z.of_nat (length l1);
  de_key : ∀ x, hkey H'.[x] = hkey (k_holders s).[x];
  de_same : ∀ x, x ∉ l1 → H'.[x] = (k_holders s).[x];
  de_chans : chans_ok C'
}.

Lemma detaching_step l1 l2 h next dead n H' C C' :
  detaching l1 (h :: l2) next dead n H' C → chans_ok C' →
  detaching (l1 ++ [h]) l2 (hnx (k_holders s) h) h (n + 1)
    H'.[h <- set_h_prev CAP_FREELIST_END (set_h_next dead H'.[h])] C'.
Proof using HI.
  intros [H1 H2 H3 H4 H5 H6 H7] HC. destruct (inv_hold HI) as [fr Hok].
  pose proof (ho_nd Hok o) as Hnd. rewrite H1 in Hnd. apply NoDup_app in Hnd as (_ & Hd & [Hn2 _]%NoDup_cons).
  assert (h ∉ l1) as Hh1 by (intros Hh; apply (Hd h Hh); left).
  split; try done.
  - by rewrite H1, <-app_assoc.
  - apply H2.
  - rewrite reverse_snoc. split; [done|]. unfold hnx at 2. rewrite aget_upd_eq. cbn.
    eapply chain_ext; [|exact H3]. intros x Hx. rewrite elem_of_reverse in Hx. unfold hnx. rewrite aget_upd_ne; [done|].
    intros ->. by apply Hh1.
  - rewrite length_app, H4. cbn. lia.
  - intros x. rewrite aget_upd. destruct (Z.eqb_spec h x) as [<-|]; [by rewrite <-H5|done].
  - intros x [Hx1 Hx2]%not_elem_of_app. rewrite aget_upd. apply not_elem_of_cons in Hx2 as [Hx2 _].
    destruct (Z.eqb_spec h x); [congruence|by apply H6].
Qed.

Lemma wp_revoke_detach (Q : Z * Z → KState → Prop) :
  (∀ dead H' C', detaching (hold o) [] CAP_FREELIST_END dead (Z.of_nat (length (hold o))) H' C' →
     Q (dead, Z.of_nat (length (hold o))) (detached C' H')) →
  wp (revoke_detach (o_holder_head (object o s))) Q
    (set_k_objects (k_objects s).[o <- revoked_obj (object o s)] s).
Proof using HI Ho.
  intros HQ. destruct (inv_hold HI) as [fr Hok]. pose proof (hold_length Hok o) as Hlen.
  unfold revoke_detach. rewrite wp_bind.
  apply (wp_while_ctl (λ st s', ∃ l1 l2 H' C', detaching l1 l2 (fst (fst st)) (snd (fst st)) (snd st) H' C' ∧ s' = detached C' H')
    (λ st _, Z.to_nat (Z.of_nat (length (hold o)) - snd st))).
  - exists [], (hold o), (k_holders s), (k_channels s). split; [|symmetry; apply hp_objects].
    split; try done; [eapply dchain_chain, (ho_list Hok); done|apply (inv_chans HI)].
  - cbn. unfold holder_fuel. lia.
  - intros [[h dead] n] s1 (l1 & l2 & H1 & C1 & D & ->). cbn in D. pose proof D as [E Hc _ En _ Hsm HC1].
    destruct l2 as [|x l2].
    + cbn in Hc. subst h. rewrite Z.eqb_refl. simpl orb. cbv iota. rewrite wp_ret, wp_ret.
      rewrite app_nil_r in E. subst l1. rewrite En. apply HQ. by rewrite <-En.
    + destruct Hc as [-> Hc].
      assert (x ∈ hold o) as Hx by (rewrite E; mem).
      destruct (ho_in Hok o x Hx) as (Hxr & _).
      assert (Z.of_nat (length (hold o)) = n + 1 + Z.of_nat (length l2)) as El.
      { rewrite E, length_app, En. cbn. lia. }
      destruct (Z.eqb_spec x CAP_FREELIST_END) as [->|_]; [unfold CAP_HOLDER_MAX, CAP_FREELIST_END in *; lia|].
      destruct (Z.leb_spec CAP_HOLDER_MAX n); [lia|]. simpl orb. cbv iota.
      assert (x ∉ l1) as Hx1.
      { pose proof (ho_nd Hok o) as Hnd. rewrite E in Hnd. apply NoDup_app in Hnd as (_ & Hd & _).
        intros Hx1. apply (Hd x Hx1). left. }
      unfold get_holder. rewrite wp_bind, wp_bind, wp_in_bounds, wp_gets by done.
      change (holder x (detached C1 H1)) with H1.[x]. rewrite Hsm by done.
      assert (∀ C2, chans_ok C2 → wp (set_holder x (λ nd, set_h_prev CAP_FREELIST_END (set_h_next dead nd)))
        (λ _ s', ∃ l1 l2 H' C', detaching l1 l2 (h_next (k_holders s).[x]) x (n + 1) H' C' ∧ s' = detached C' H')
        (detached C2 H1)) as Hset.
      { intros C2 HC2. unfold set_holder. rewrite wp_bind, wp_in_bounds, wp_modify by done.
        exists (l1 ++ [x]), l2. eexists _, C2. split; [by eapply detaching_step|reflexivity]. }
      rewrite wp_bind. destruct (Z.eqb_spec (h_kind (k_holders s).[x]) HOLDER_QUEUE) as [Eq|Eq].
      * destruct (inv_slots HI) as (tf & _ & Hl).
        destruct (lk_queue _ _ _ _ _ _ _ _ _ Hl o x Hx (not_elem_of_nil _)) as (_ & Q1 & Q2 & _); [by rewrite Eq|].
        apply wp_stamp_queued; [done|done|done|]. intros C2 HC2. rewrite wp_bind.
        eapply wp_mono; [by apply Hset|]. intros [] s3 HI3. rewrite wp_ret. split; [done|cbn; lia].
      * rewrite wp_ret, wp_bind. eapply wp_mono; [by apply Hset|]. intros [] s3 HI3. rewrite wp_ret.
        split; [done|cbn; lia].
Qed.

End Detach.

(** * Zeroing the slots *)

Lemma wp_table_index_bound pid ti s (Q : Z → KState → Prop) :
  pids_ok (k_tables s) (k_table_pid s) → table_of (k_table_pid s) pid ti → Q ti s → wp (cap_table_index pid) Q s.
Proof.
  intros Hp (H1 & H2 & H3) HQ. unfold cap_table_index. destruct (Z.eqb_spec pid 0) as [->|Hne].
  { rewrite wp_ret. by rewrite <-H3. }
  rewrite wp_bind, wp_gets. destruct (find_up _ _ _) as [i|] eqn:E.
  - apply find_up_Some in E as (Hi & Ei%Z.eqb_eq & _). rewrite Z2Nat.id in Hi by done. rewrite wp_ret.
    replace i with ti; [done|]. apply (po_inj _ _ Hp); [done|lia|congruence|congruence].
  - pose proof (proj1 (find_up_None _ _ _) E ti ltac:(rewrite Z2Nat.id by done; lia)) as Hn. cbn in Hn.
    apply Z.eqb_neq in Hn. done.
Qed.

(** Mapping records, table owners and the history of hook calls are as they were. *)
Definition records_kept (s s' : KState) : Prop :=
  (∀ tj, t_maps (table tj s') = t_maps (table tj s) ∧ t_pid (table tj s') = t_pid (table tj s)) ∧ k_trace s' = k_trace s.

Lemma records_kept_trans s1 s2 s3 : records_kept s1 s2 → records_kept s2 s3 → records_kept s1 s3.
Proof.
  intros [H1 E1] [H2 E2]. split; [|congruence]. intros tj. destruct (H1 tj), (H2 tj). split; congruence.
Qed.

(** The nodes of [r] are still to sweep. *)
Record sweeping (o : Z) (tb : Z → Z) (hold : Z → list Z) (L : list Z) (r : list Z) (s0 s : KState) : Prop := {
  sw_inv : Inv s hold L (slots_of (k_holders s0) tb r) [];
  sw_locks : k_locks s = [];
  sw_holders : k_holders s = k_holders s0;
  sw_objects : k_objects s = k_objects s0;
  sw_next : k_obj_next s = k_obj_next s0;
  sw_pids : k_table_pid s = k_table_pid s0;
  sw_all : ∀ ti i, 0 ≤ ti < CAP_TABLE_MAX → 0 ≤ i < CAP_TABLE_ENTRIES → cap_word_valid (slot ti i s) = true →
    obj_word (slot ti i s) = true → w_obj (slot ti i s) = o → (ti, i) ∈ slots_of (k_holders s0) tb r;
  sw_kept : records_kept s0 s
}.

Lemma wp_sweep_slot o tb hold L h r s0 s (Q : unit → KState → Prop) :
  sweeping o tb hold L (h :: r) s0 s → is_slot (k_holders s0) h = true →
  table_of (k_table_pid s0) (h_pid (k_holders s0).[h]) (tb (h_pid (k_holders s0).[h])) →
  (∀ s', sweeping o tb hold L r s0 s' → Q tt s') →
  wp (let* hti := cap_table_index (h_pid (k_holders s0).[h]) in
      if hti <? 0 then ret tt else
      do* cap_lock (LTable hti);
      do* set_slot hti (h_ref (k_holders s0).[h]) 0;
      do* cap_slot_push hti (h_ref (k_holders s0).[h]);
      cap_unlock (LTable hti)) Q s.
Proof.
  intros [HI Hl EH EO En EP Hall Hkept] Hk Htb HQ. rewrite slots_of_cons, Hk in HI, Hall.
  set (ti := tb _) in *. set (i := h_ref _) in *. clearbody ti i. rewrite wp_bind. rewrite <-EP in Htb.
  apply (wp_table_index_bound _ ti); [apply (inv_pids HI)|done|].
  replace (ti <? 0) with false by (symmetry; apply Z.ltb_ge, Htb).
  assert (0 ≤ i < CAP_TABLE_ENTRIES) as Hi.
  { destruct (inv_slots HI) as (tf & Hs & _). apply (so_U _ _ _ _ Hs ti i). left. }
  rewrite wp_bind, wp_cap_lock by lk Hl. rewrite wp_bind. apply wp_set_slot; [done|]. rewrite wp_bind.
  eapply (wp_slot_push ti i _ hold L [] _ []); [apply inv_set_slot; [apply inv_locks; exact HI|left]|].
  intros T2 s2 F2 N2 HI2. rewrite wp_cap_unlock. apply HQ. unfold s2. kred.
  rewrite Hl, lock_drop_head by apply not_elem_of_nil.
  match goal with |- sweeping _ _ _ _ _ _ ?s => set (s3 := s) end.
  assert (records_kept s0 s3) as Hkept3.
  { eapply records_kept_trans; [exact Hkept|]. split; [|done]. intros tj. destruct F2 as [_ F2].
    destruct (F2 tj) as [E1 E2]. change (table tj s3) with T2.[tj]. rewrite E1, E2. kred. by rewrite tab_upd_maps, tab_upd_pid. }
  split; try done. intros tj j Htj Hj Hv Hw Eo.
  destruct (decide ((tj, j) = (ti, i))) as [[= -> ->]|Hne].
  { by apply valid_not_free in Hv. }
  assert (slot tj j s3 = slot tj j s) as Es.
  { destruct F2 as [F2 _]. change (tslot T2 tj j = slot tj j s). rewrite F2 by done. by apply tab_upd_slot_ne. }
  rewrite Es in Hv, Hw, Eo. pose proof (Hall tj j Htj Hj Hv Hw Eo) as [E|Hin]%elem_of_cons; done.
Qed.

Lemma wp_revoke_slots o tb hold L l dead s (Q : unit → KState → Prop) :
  sweeping o tb hold L l s s → chain (hnx (k_holders s)) dead l → (length l < holder_fuel)%nat →
  (∀ h, h ∈ l → 0 ≤ h < CAP_HOLDER_MAX ∧ (is_slot (k_holders s) h = true →
     table_of (k_table_pid s) (h_pid (k_holders s).[h]) (tb (h_pid (k_holders s).[h])))) →
  (∀ s', sweeping o tb hold L [] s s' → Q tt s') →
  wp (revoke_slots dead) Q s.
Proof.
  intros Hsw Hch Hf Hl HQ. unfold revoke_slots. rewrite wp_bind.
  apply (wp_while_list (λ r d s', sweeping o tb hold L r s s' ∧ chain (hnx (k_holders s)) d r ∧ ∀ h, h ∈ r → h ∈ l)
    _ _ l); [by split|done| |].
  - intros h r d s1 (Hs1 & [-> Hc] & Hin).
    destruct (Hl h) as [Hr Htb]; [apply Hin; left|].
    destruct (Z.eqb_spec h CAP_FREELIST_END) as [->|_]; [unfold CAP_HOLDER_MAX, CAP_FREELIST_END in *; lia|].
    unfold get_holder. rewrite wp_bind, wp_bind, wp_in_bounds, wp_gets by done.
    unfold holder. rewrite (sw_holders _ _ _ _ _ _ _ Hs1).
    assert (∀ s2, sweeping o tb hold L r s s2 →
      wp (let* node := let* _ := in_bounds h CAP_HOLDER_MAX in gets (λ s0, (k_holders s0).[h]) in ret (@Next _ unit (h_next node)))
        (λ c s', match c with
           | Next d' => sweeping o tb hold L r s s' ∧ chain (hnx (k_holders s)) d' r ∧ ∀ h, h ∈ r → h ∈ l
           | Break a' => wp (ret tt) Q s' | Return r => wp (ret tt) Q s' end) s2) as Hnext.
    { intros s2 Hs2. rewrite wp_bind, wp_bind, wp_in_bounds, wp_gets, wp_ret by done.
      rewrite (sw_holders _ _ _ _ _ _ _ Hs2). split; [done|]. split; [done|]. intros x Hx. apply Hin. by right. }
    rewrite wp_bind. destruct (Z.eqb_spec (h_kind (k_holders s).[h]) HOLDER_SLOT) as [Ek|Ek]; simpl negb; cbv iota.
    + assert (is_slot (k_holders s) h = true) as Hk by (by apply Z.eqb_eq).
      eapply wp_sweep_slot; [exact Hs1|done|by apply Htb|exact Hnext].
    + rewrite wp_ret. apply Hnext.
      assert (is_slot (k_holders s) h = false) as Hk by (by apply Z.eqb_neq).
      destruct Hs1 as [A1 A2 A3 A4 A5 A6 A7 A8]. rewrite slots_of_cons, Hk in A1, A7. by split.
  - intros d s1 (Hs1 & -> & _). rewrite Z.eqb_refl. rewrite !wp_ret. by apply HQ.
Qed.

Lemma slots_of_same H H' tb l : (∀ x, hkey H'.[x] = hkey H.[x]) → slots_of H' tb l = slots_of H tb l.
Proof.
  intros E. induction l as [|h l IH]; [done|]. rewrite !slots_of_cons, IH.
  unfold is_slot. by destruct (hkey_fields _ _ (E h)) as (_ & -> & -> & -> & _).
Qed.

Lemma slots_of_perm H tb l l' : l ≡ₚ l' → slots_of H tb l ≡ₚ slots_of H tb l'.
Proof. intros E. unfold slots_of. by rewrite E. Qed.

Section Start.
Context (s : KState) (hold : Z → list Z) (o : Z).
Context (HI : Inv s hold [] [] []) (Ho : 0 ≤ o < k_obj_next s).
Context (Ha : o_active (object o s) = 1) (Hr : o_revoking (object o s) = 0).
Context (dead : Z) (H' : gmap Z CapHolder) (C' : gmap Z CapChannel).
Context (D : detaching s hold o (hold o) [] CAP_FREELIST_END dead (Z.of_nat (length (hold o))) H' C').
Let s' := set_k_locks [] (detached s o C' H').

Lemma start_sweep : sweeping o (tbl s) (hold_upd hold o []) (hold o) (reverse (hold o)) s' s'.
Proof using HI Ho Ha Hr D.
  destruct D as [_ _ _ _ D5 D6 D7].
  assert (held_slots s (hold o) ≡ₚ slots_of H' (tbl s) (reverse (hold o))) as Hp.
  { rewrite (slots_of_same (k_holders s) H') by done. apply slots_of_perm. by rewrite reverse_Permutation. }
  split; try done.
  - change (k_holders s') with H'. eapply inv_perm_slots; [exact Hp|].
    apply inv_locks. by apply inv_detach.
  - change (k_holders s') with H'. change (slot ?a ?b s') with (slot a b s).
    intros ti i Hti Hi Hv Hw E. rewrite <-Hp. by apply detach_all.
Qed.

Lemma start_tables h : h ∈ hold o →
  0 ≤ h < CAP_HOLDER_MAX ∧ (is_slot (k_holders s') h = true →
    table_of (k_table_pid s') (h_pid (k_holders s').[h]) (tbl s (h_pid (k_holders s').[h]))).
Proof using HI D.
  intros Hh. destruct (inv_hold HI) as [fr Hok]. split; [by apply (ho_in Hok o)|].
  change (k_holders s') with H'. unfold is_slot.
  destruct (hkey_fields _ _ (de_key _ _ _ _ _ _ _ _ _ _ D h)) as (_ & -> & _ & -> & _). intros Hk.
  destruct (inv_slots HI) as (tf & Hs & Hl). by destruct (held_slot s hold HI tf o h Hs Hl Hh Hk) as (Htb & _).
Qed.

End Start.

(** * Unmapping everywhere *)

Section Unmap.
Context `{!CapEnv}.

(** Table [ti] has no live record of object [o]. *)
Definition unmapped (o ti : Z) (s : KState) : Prop :=
  ∀ i, 0 ≤ i < CAP_MAP_MAX → map_live (t_maps (table ti s)).[i] → mp_obj_id (t_maps (table ti s)).[i] ≠ o.

(** Page [va] of the process of table [ti] is recorded as showing object [o]: one of the
    first [n] records of the table names it. *)
Definition recorded (n o ti : Z) (s : KState) (cr3 va : Z) : Prop :=
  ∃ i p, 0 ≤ i < n ∧ let m := (t_maps (table ti s)).[i] in
    map_live m ∧ mp_obj_id m = o ∧ 0 ≤ p < mp_npages m ∧
    cr3 = cap_proc_cr3 (t_pid (table ti s)) ∧ va = u64 (mp_vaddr m + p * 4096).

(** The calls [l] unmap the pages of [P] and nothing else. *)
Definition unmaps (P : Z → Z → Prop) (l : list Hook) : Prop :=
  (∀ h, h ∈ l → h = HTlbFlush ∨ ∃ r va, h = HUnmapPage r va ∧ P r va) ∧ (∀ r va, P r va → HUnmapPage r va ∈ l).

Lemma unmaps_nil (P : Z → Z → Prop) : (∀ r va, ¬ P r va) → unmaps P [].
Proof. intros Hn. split; [by intros h ?%not_elem_of_nil|]. intros r va Hp. by destruct (Hn r va). Qed.

Lemma unmaps_app (P P1 P2 : Z → Z → Prop) l1 l2 : unmaps P1 l1 → unmaps P2 l2 → (∀ r va, P r va ↔ P1 r va ∨ P2 r va) →
  unmaps P (l1 ++ l2).
Proof.
  intros [A1 B1] [A2 B2] HP. split.
  - intros h [Hh|Hh]%elem_of_app; [destruct (A1 h Hh) as [|(r & va & -> & Hp)]|destruct (A2 h Hh) as [|(r & va & -> & Hp)]];
      (by left) || (right; exists r, va; split; [done|apply HP; tauto]).
  - intros r va [Hp|Hp]%HP; apply elem_of_app; [left|right]; auto.
Qed.

Lemma unmaps_ext (P P' : Z → Z → Prop) l : (∀ r va, P r va ↔ P' r va) → unmaps P l → unmaps P' l.
Proof.
  intros HP [A B]. split; [|intros r va Hp; by apply B, HP].
  intros h Hh. destruct (A h Hh) as [|(r & va & -> & Hp)]; [by left|right]. exists r, va. split; [done|by apply HP].
Qed.

Lemma unmaps_calls cr3 va n :
  unmaps (λ r v, r = cr3 ∧ ∃ p, 0 ≤ p < n ∧ v = u64 (va + p * 4096)) (unmap_calls cr3 va n).
Proof.
  unfold unmap_calls. split.
  - intros h. rewrite elem_of_reverse, list_elem_of_fmap. intros (p & -> & Hp%elem_of_seqZ). right.
    exists cr3, (u64 (va + p * 4096)). split; [done|]. split; [done|]. exists p. split; [lia|done].
  - intros r v (-> & p & Hp & ->). rewrite elem_of_reverse, list_elem_of_fmap. exists p. split; [done|]. apply elem_of_seqZ. lia.
Qed.

Lemma unmaps_flush P l : unmaps P l → unmaps P (HTlbFlush :: l).
Proof.
  intros [A B]. split; [|intros r va Hp; right; auto]. intros h [->|Hh]%elem_of_cons; [by left|auto].
Qed.

Lemma recorded_succ k o ti s cr3 va : 0 ≤ k → let m := (t_maps (table ti s)).[k] in
  recorded (k + 1) o ti s cr3 va ↔
  (map_live m ∧ mp_obj_id m = o) ∧ (cr3 = cap_proc_cr3 (t_pid (table ti s)) ∧ ∃ p, 0 ≤ p < mp_npages m ∧ va = u64 (mp_vaddr m + p * 4096)) ∨
  recorded k o ti s cr3 va.
Proof.
  intros Hk. cbv zeta. split.
  - intros (i & p & Hi & H1 & H2 & H3 & H4 & H5). destruct (decide (i = k)) as [->|].
    + left. do 2 (split; [done|]). by exists p.
    + right. exists i, p. split; [lia|done].
  - intros [([H1 H2] & H4 & p & H3 & H5)|(i & p & Hi & Hx)]; [exists k, p; split; [lia|done]|exists i, p; split; [lia|done]].
Qed.

Lemma wp_unmap_object ti o s (Q : unit → KState → Prop) :
  (∀ s' l, maps_only s s' → unmapped o ti s' → (∀ tj, tj ≠ ti → t_maps (table tj s') = t_maps (table tj s)) →
     k_trace s' = l ++ k_trace s → unmaps (recorded CAP_MAP_MAX o ti s) l → Q tt s') →
  wp (cap_table_unmap_object ti o) Q s.
Proof.
  intros HQ. unfold cap_table_unmap_object. rewrite wp_bind, wp_gets. cbv zeta. rewrite wp_bind.
  apply (wp_for_each (λ k _ s', maps_only s s' ∧ (∀ tj, tj ≠ ti → t_maps (table tj s') = t_maps (table tj s)) ∧
    (∀ i, 0 ≤ i < k → map_live (t_maps (table ti s')).[i] → mp_obj_id (t_maps (table ti s')).[i] ≠ o) ∧
    (∀ i, k ≤ i → (t_maps (table ti s')).[i] = (t_maps (table ti s)).[i]) ∧
    ∃ l, k_trace s' = l ++ k_trace s ∧ unmaps (recorded k o ti s) l)).
  - split; [apply maps_only_refl|]. split; [done|]. split; [intros; lia|]. split; [done|]. exists []. split; [done|].
    apply unmaps_nil. intros r va (i & p & Hi & _). lia.
  - intros k [] s1 Hk (M1 & T1 & U1 & K1 & l1 & Et1 & L1). rewrite wp_bind, wp_gets.
    set (m := (t_maps (table ti s1)).[k]). assert (m = (t_maps (table ti s)).[k]) as Emk by (by apply K1).
    destruct (_ || _) eqn:Em.
    + rewrite wp_ret. assert (¬ (map_live m ∧ mp_obj_id m = o)) as Hno.
      { intros [Hm Hmo]. apply orb_true_iff in Em as [Em%Z.eqb_eq|Em%negb_true_iff%Z.eqb_neq]; done. }
      split; [done|]. split; [done|]. split.
      { intros i Hi. destruct (decide (i = k)) as [->|]; [|apply U1; lia]. fold m. intros Hm Hmo. by apply Hno. }
      split; [intros i Hi; apply K1; lia|]. exists l1. split; [done|]. eapply unmaps_ext; [|exact L1]. intros r va.
      rewrite recorded_succ by lia. rewrite <-Emk. tauto.
    + apply orb_false_iff in Em as [Ea%Z.eqb_neq Eo%negb_false_iff%Z.eqb_eq].
      rewrite wp_bind. apply wp_unmap_exact. rewrite wp_modify. set (cr3 := cap_proc_cr3 _).
      set (s2 := set_k_trace _ s1). assert (∀ tj, table tj s2 = table tj s1) as E2 by done.
      assert (maps_only s s2) as M2 by (eapply maps_only_trans; [exact M1|apply maps_only_trace]).
      assert (k_trace s2 = (unmap_calls cr3 (mp_vaddr m) (mp_npages m) ++ l1) ++ k_trace s) as Et2
        by (unfold s2; kred; by rewrite Et1, app_assoc). clearbody s2.
      split; [eapply maps_only_trans; [exact M2|apply maps_only_retire]|].
      assert (∀ tj j, (t_maps (table tj (upd_map ti k (set_mp_active 0) s2))).[j] =
        if (ti =? tj) && (k =? j) then set_mp_active 0 m else (t_maps (table tj s1)).[j]) as Eg.
      { intros tj j. unfold table at 1. rewrite upd_map_get, !E2. done. }
      split.
      * intros tj Hne. rewrite <-T1, <-E2 by done. unfold upd_map, upd_table, table. kred. by rewrite aget_upd_ne.
      * split; [|split].
        -- intros i Hi. rewrite Eg, Z.eqb_refl. simpl. destruct (Z.eqb_spec k i) as [<-|]; [by intros []|].
           apply U1. lia.
        -- intros i Hi. rewrite Eg, Z.eqb_refl. simpl. rewrite (proj2 (Z.eqb_neq k i)) by lia. apply K1. lia.
        -- eexists. split; [exact Et2|]. eapply unmaps_app; [apply unmaps_calls|exact L1|]. intros r va.
           rewrite recorded_succ by lia. rewrite <-Emk. unfold map_live in *. tauto.
  - intros [] s1 (M1 & T1 & U1 & _ & l1 & Et1 & L1). rewrite Z2Nat.id in * by done. destruct (negb _).
    + rewrite wp_hook. apply (HQ _ (HTlbFlush :: l1)); [|exact U1|exact T1|kred; by rewrite Et1|by apply unmaps_flush].
      eapply maps_only_trans; [exact M1|apply maps_only_trace].
    + rewrite wp_ret. by apply (HQ _ l1).
Qed.

Lemma maps_only_relock l s s' :
  maps_only (set_k_locks l s) s' → maps_only s (set_k_locks (k_locks s) s').
Proof. intros (T & tr & -> & H1 & H2). exists T, tr. split; [by destruct s|by split]. Qed.

(** Page [va] of address space [cr3] is recorded as showing object [o]. *)
Definition recorded_page (n o : Z) (s : KState) (cr3 va : Z) : Prop :=
  ∃ ti, 0 ≤ ti < n ∧ recorded CAP_MAP_MAX o ti s cr3 va.

Lemma recorded_page_succ k o s cr3 va : 0 ≤ k →
  recorded_page (k + 1) o s cr3 va ↔ recorded CAP_MAP_MAX o k s cr3 va ∨ recorded_page k o s cr3 va.
Proof.
  intros Hk. split.
  - intros (ti & Hti & Hp). destruct (decide (ti = k)) as [->|]; [by left|right]. exists ti. split; [lia|done].
  - intros [Hp|(ti & Hti & Hp)]; [exists k|exists ti]; (split; [lia|done]).
Qed.

Lemma recorded_same n o ti s s' cr3 va : t_maps (table ti s') = t_maps (table ti s) → t_pid (table ti s') = t_pid (table ti s) →
  recorded n o ti s' cr3 va ↔ recorded n o ti s cr3 va.
Proof. intros E1 E2. unfold recorded. by rewrite E1, E2. Qed.

Lemma maps_only_tpid s s' ti : maps_only s s' → t_pid (table ti s') = t_pid (table ti s).
Proof. intros (T & tr & -> & HT & _). apply HT. Qed.

Lemma wp_unmap_everywhere o s (Q : unit → KState → Prop) :
  k_locks s = [] →
  (∀ s' l, maps_only s s' → (∀ ti, 0 ≤ ti < CAP_TABLE_MAX → unmapped o ti s') →
     k_trace s' = l ++ k_trace s → unmaps (recorded_page CAP_TABLE_MAX o s) l → Q tt s') →
  wp (for_each (Z.to_nat CAP_TABLE_MAX) 0 (λ ti _,
        do* cap_lock (LTable ti); do* cap_table_unmap_object ti o; cap_unlock (LTable ti)) tt) Q s.
Proof.
  intros Hl HQ.
  apply (wp_for_each (λ k _ s', maps_only s s' ∧ (∀ ti, 0 ≤ ti < k → unmapped o ti s') ∧
    (∀ ti, k ≤ ti → t_maps (table ti s') = t_maps (table ti s)) ∧
    ∃ l, k_trace s' = l ++ k_trace s ∧ unmaps (recorded_page k o s) l)).
  - split; [apply maps_only_refl|]. split; [intros; lia|]. split; [done|]. exists []. split; [done|].
    apply unmaps_nil. intros r va (ti & Hti & _). lia.
  - intros k [] s1 Hk (M1 & U1 & K1 & l1 & Et1 & P1). pose proof (maps_only_locks _ _ M1) as Hl1. rewrite Hl in Hl1.
    rewrite wp_bind, wp_cap_lock by lk Hl1. rewrite wp_bind. apply wp_unmap_object. intros s2 l2 M2 U2 T2 Et2 P2.
    rewrite wp_cap_unlock. pose proof (maps_only_locks _ _ M2) as Hl2. kred_in Hl2. rewrite Hl2, Hl1.
    rewrite lock_drop_head by apply not_elem_of_nil. split; [|split; [|split]].
    + eapply maps_only_trans; [exact M1|]. rewrite <-Hl1. by eapply maps_only_relock.
    + intros ti Hti. destruct (decide (ti = k)) as [->|Hne]; [exact U2|].
      intros i Hi. change (table ti (set_k_locks [] s2)) with (table ti s2). rewrite T2 by done.
      apply U1; lia.
    + intros ti Hti. change (table ti (set_k_locks [] s2)) with (table ti s2). rewrite T2 by lia. apply K1. lia.
    + exists (l2 ++ l1). split; [kred; rewrite Et2; kred; by rewrite Et1, app_assoc|].
      eapply unmaps_app; [exact P2|exact P1|]. intros r va. rewrite recorded_page_succ by lia.
      rewrite <-(recorded_same CAP_MAP_MAX o k s s1); [done|apply (K1 k); lia|by apply (maps_only_tpid s)].
  - intros [] s1 (M1 & U1 & _ & l1 & Et1 & P1). rewrite Z2Nat.id in * by done. by apply (HQ _ l1).
Qed.

End Unmap.

(** * Freeing the chain *)

Lemma inv_refcount s hold L U G o r :
  Inv s hold L U G → o_revoking (object o s) ≠ 0 → Inv (upd_object o (set_o_refcount r) s) hold L U G.
Proof.
  intros HI Hr. set (O' := (k_objects s).[o <- set_o_refcount r (object o s)]).
  assert (∀ x, ometa O'.[x] = ometa (k_objects s).[x] ∧ o_holder_head O'.[x] = o_holder_head (k_objects s).[x] ∧
    (o_revoking (k_objects s).[x] = 0 → o_refcount O'.[x] = o_refcount (k_objects s).[x])) as E.
  { intros x. unfold O'. rewrite aget_upd. destruct (Z.eqb_spec o x) as [<-|]; [|done].
    do 2 (split; [done|]). intros E0. by destruct Hr. }
  assert (metas (k_objects s) O') as Hm by (intros x; apply E).
  replace (upd_object o (set_o_refcount r) s) with (hp (k_holders s) (k_holder_free s) O' s) by (by destruct s).
  apply (inv_hp s hold L U G); [done|done| | |done].
  - destruct (inv_hold HI) as [fr Hok]. exists fr. destruct Hok as [H1 H2 H3 H4 H5 H6 H7 H8 H9 H10].
    unfold Hold, hp. kred. split; try done.
    + intros x Hx. destruct (E x) as (_ & -> & _). by apply H4.
    + intros x Hx. destruct (metas_fields _ _ x Hm) as (_ & _ & -> & _). intros E0.
      rewrite (proj2 (proj2 (E x))) by done. by apply H7.
  - intros tf Hs Hl. split; [done|]. eapply links_ok_ext; [exact Hl|done|done|done| |done].
    intros x _. by destruct (metas_fields _ _ x Hm) as (_ & _ & -> & -> & _).
Qed.

Lemma wp_revoke_free hold l dead U s (Q : unit → KState → Prop) :
  Inv s hold l U [] → chain (hnx (k_holders s)) dead l → LPool ∉ k_locks s →
  (∀ H' f', let s' := hp H' f' (k_objects s) s in Inv s' hold [] U [] → Q tt s') →
  wp (revoke_free dead) Q s.
Proof.
  intros HI Hch Hlk HQ. unfold revoke_free. rewrite wp_bind.
  apply (wp_while_list (λ r d s', ∃ H' f', s' = hp H' f' (k_objects s) s ∧ Inv s' hold r U [] ∧ chain (hnx H') d r) _ _ l).
  - exists (k_holders s), (k_holder_free s). by rewrite hp_id.
  - destruct (inv_hold HI) as [fr Hok]. apply holder_fuel_length, nodup_range_length; [done|apply Hok|].
    intros x Hx. by apply (ho_loose Hok).
  - intros h r d s1 (H1 & f1 & -> & HI1 & -> & Hc). destruct (inv_hold HI1) as [fr Hok].
    destruct (ho_loose Hok h) as (Hr & _ & _); [left|]. pose proof (ho_loose_nd Hok) as [Hn _]%NoDup_cons.
    destruct (Z.eqb_spec h CAP_FREELIST_END) as [->|_]; [unfold CAP_HOLDER_MAX, CAP_FREELIST_END in *; lia|].
    unfold get_holder. rewrite wp_bind, wp_bind, wp_in_bounds, wp_gets, wp_bind by done.
    eapply (wp_inv_holder_free h _ hold [] r U []); [exact HI1|exact Hlk|].
    intros H2 f2 s2 Hsame _ HI2. rewrite wp_ret. exists H2, f2. split; [reflexivity|]. split; [exact HI2|].
    eapply chain_ext; [|exact Hc]. intros x Hx. unfold hnx. rewrite Hsame; [done|]. by intros ->.
  - intros d s1 (H1 & f1 & -> & HI1 & ->). rewrite Z.eqb_refl, !wp_ret. by apply HQ.
Qed.

(** * cap_revoke *)

(** Only object [o] is being revoked. *)
Definition quiet_but (o : Z) (s : KState) : Prop :=
  ∀ x, 0 ≤ x < k_obj_next s → x ≠ o → o_active (object x s) = 1 → o_revoking (object x s) = 0.

Lemma quiet_but_kill o I next R rn s : quiet_but o s → quiet (killed o I next R rn s).
Proof.
  intros Hq x Hx. unfold killed, object. kred. rewrite aget_upd.
  destruct (Z.eqb_spec o x) as [<-|]; [done|]. by apply Hq.
Qed.

(** Object [o] is gone for good, its tables as they were. *)
Record gone (o : Z) (s s' : KState) : Prop := {
  go_dead : o_active (object o s') = 0;
  go_next : k_obj_next s' = k_obj_next s;
  go_tables : k_tables s' = k_tables s;
  go_pids : k_table_pid s' = k_table_pid s;
  go_trace : k_trace s' = k_trace s
}.

Lemma gone_locks o l s s' : gone o s s' → gone o s (set_k_locks l s').
Proof. by intros []. Qed.

Lemma wp_revoke_finish o dead l s hold (Q : Z → KState → Prop) :
  Inv s hold l [] [] → k_locks s = [] → quiet_but o s → 0 ≤ o < k_obj_next s → hold o = [] →
  o_revoking (object o s) ≠ 0 → o_refcount (object o s) = Z.of_nat (length l) →
  chain (hnx (k_holders s)) dead l →
  (∀ s', Inv s' hold [] [] [] → quiet s' → k_locks s' = [] → gone o s s' → Q 0 s') →
  wp (do* cap_lock (LObj o);
      do* set_object o (λ ob, set_o_refcount (if Z.of_nat (length l) <=? o_refcount ob
                                              then o_refcount ob - Z.of_nat (length l) else 0) ob);
      do* revoke_free dead;
      let* ob := get_object o in
      do* (if o_refcount ob =? 0 then do* cap_object_free_resources o; cap_object_destroy o else ret tt);
      do* cap_unlock (LObj o);
      ret 0) Q s.
Proof.
  intros HI Hl Hq Ho Hnil Hr Href Hch HQ. rewrite wp_bind, wp_cap_lock by lk Hl. rewrite wp_bind.
  unfold set_object. rewrite wp_modify. rewrite Hl. set (s1 := set_k_locks _ s).
  set (s2 := upd_object o _ s1).
  assert (s2 = upd_object o (set_o_refcount 0) s1) as E2.
  { unfold s2, upd_object. change (object o s1) with (object o s). rewrite Href, Z.leb_refl, Z.sub_diag. done. }
  assert (Inv s2 hold l [] []) as HI2 by (rewrite E2; apply inv_refcount; [exact HI|exact Hr]).
  assert (k_locks s2 = [LObj o]) as Hl2 by done.
  assert (quiet_but o s2) as Hq2.
  { rewrite E2. intros x Hx Hne. unfold object, upd_object. kred. rewrite aget_upd_ne by done. by apply Hq. }
  assert (o_refcount (object o s2) = 0) as Href2.
  { rewrite E2. unfold object at 1, upd_object. kred. by rewrite aget_upd_eq. }
  assert (k_holders s2 = k_holders s ∧ k_obj_next s2 = k_obj_next s ∧ k_tables s2 = k_tables s ∧
          k_table_pid s2 = k_table_pid s ∧ k_trace s2 = k_trace s) as (EH & En & ET & EP & Etr) by done.
  clearbody s2. clear E2. rewrite wp_bind. eapply wp_revoke_free; [exact HI2|by rewrite EH|lk Hl2|].
  intros H3 f3 s3 HI3. rewrite wp_bind, wp_get_object. change (object o s3) with (object o s2). rewrite Href2.
  rewrite Z.eqb_refl, wp_bind, wp_bind.
  eapply (wp_inv_free_destroy s3 hold [] [] [] o); [exact HI3| |done|lk Hl2|].
  { change (k_obj_next s3) with (k_obj_next s2). by rewrite En. }
  intros r I nx R rn bm ow fc C s4 HI4 _. rewrite wp_bind.
  assert (k_locks s4 = [LObj o]) as Hl4 by exact Hl2. assert (quiet s4) as Hq4 by (apply quiet_but_kill; exact Hq2).
  assert (gone o s s4) as Hg.
  { split; [|exact En|exact ET|exact EP|exact Etr]. unfold s4, killed, object. kred. by rewrite aget_upd_eq. }
  clearbody s4. rewrite wp_cap_unlock, wp_ret, Hl4, lock_drop_head by apply not_elem_of_nil.
  apply HQ; [by apply inv_locks|by apply quiet_locks|reflexivity|by apply gone_locks].
Qed.

Section Revoke.
Context `{!CapEnv}.

(** What a completed revocation of the object in slot [i] of [pid] leaves. *)
Record revoked_all (pid i : Z) (s s' : KState) (o : Z) : Prop := {
  rv_object : ∃ ti, table_of (k_table_pid s) pid ti ∧ o = w_obj (slot ti i s) ∧ cap_word_valid (slot ti i s) = true;
  rv_was : 0 ≤ o < k_obj_next s ∧ o_active (object o s) = 1;
  rv_dead : o_active (object o s') = 0;
  rv_next : k_obj_next s' = k_obj_next s;
  rv_slots : ∀ ti j, 0 ≤ ti < CAP_TABLE_MAX → 0 ≤ j < CAP_TABLE_ENTRIES →
    cap_word_valid (slot ti j s') = true → obj_word (slot ti j s') = true → w_obj (slot ti j s') ≠ o;
  rv_maps : ∀ ti, 0 ≤ ti < CAP_TABLE_MAX → unmapped o ti s';
  rv_calls : ∃ l, k_trace s' = l ++ k_trace s ∧ unmaps (recorded_page CAP_TABLE_MAX o s) l
}.

(** Slot [i] of [pid] holds a capability for a live object. *)
Definition names_live (pid i : Z) (s : KState) : Prop :=
  ∃ ti, table_of (k_table_pid s) pid ti ∧ cap_word_valid (slot ti i s) = true ∧
    0 ≤ w_obj (slot ti i s) < k_obj_next s ∧ o_active (object (w_obj (slot ti i s)) s) = 1.

(** Revocation is refused exactly when there is nothing to revoke. *)
Inductive revoke_outcome (pid i : Z) (s : KState) (r : Z) (s' : KState) : Prop :=
| revoke_refused : ¬ names_live pid i s → r ≠ 0 → k_objects s' = k_objects s →
    (∀ ti j, slot ti j s' = slot ti j s) → revoke_outcome pid i s r s'
| revoke_done o : names_live pid i s → r = 0 → revoked_all pid i s s' o → revoke_outcome pid i s r s'.

(** From the linearization point on. *)
Lemma wp_revoke_object o s hold (Q : Z → KState → Prop) :
  Inv s hold [] [] [] → quiet s → k_locks s = [LObj o] → 0 ≤ o < k_obj_next s → o_active (object o s) = 1 →
  (∀ s', kernel_ok s' → o_active (object o s') = 0 → k_obj_next s' = k_obj_next s →
     (∀ ti j, 0 ≤ ti < CAP_TABLE_MAX → 0 ≤ j < CAP_TABLE_ENTRIES →
        cap_word_valid (slot ti j s') = true → obj_word (slot ti j s') = true → w_obj (slot ti j s') ≠ o) →
     (∀ ti, 0 ≤ ti < CAP_TABLE_MAX → unmapped o ti s') →
     (∃ l, k_trace s' = l ++ k_trace s ∧ unmaps (recorded_page CAP_TABLE_MAX o s) l) → Q 0 s') →
  wp (do* set_object o (set_o_revoking 1);
      do* set_object o (set_o_holder_head CAP_FREELIST_END);
      let* chain := revoke_detach (o_holder_head (object o s)) in
      do* cap_unlock (LObj o);
      do* revoke_slots (fst chain);
      do* for_each (Z.to_nat CAP_TABLE_MAX) 0 (fun ti _ =>
            do* cap_lock (LTable ti);
            do* cap_table_unmap_object ti o;
            cap_unlock (LTable ti)) tt;
      do* cap_lock (LObj o);
      do* set_object o (fun ob =>
            set_o_refcount (if snd chain <=? o_refcount ob then o_refcount ob - snd chain else 0) ob);
      do* revoke_free (fst chain);
      let* ob := get_object o in
      do* (if o_refcount ob =? 0 then do* cap_object_free_resources o; cap_object_destroy o else ret tt);
      do* cap_unlock (LObj o);
      ret 0) Q s.
Proof.
  intros HI Hq Hl Ho Ha HQ. assert (o_revoking (object o s) = 0) as Hr by (by apply Hq).
  destruct (inv_hold HI) as [fr Hok]. pose proof (ho_ref Hok o Ho Hr) as Href.
  unfold set_object. rewrite wp_bind, wp_modify, wp_bind, wp_modify, wp_bind.
  replace (upd_object o _ (upd_object o _ s)) with (set_k_objects (k_objects s).[o <- revoked_obj (object o s)] s)
    by (unfold upd_object, object; kred; by rewrite aget_upd_eq, insert_insert_same).
  apply (wp_revoke_detach s hold o HI Ho). intros dead H1 C1 D.
  assert (k_locks (detached s o C1 H1) = [LObj o]) as L1 by exact Hl.
  rewrite wp_bind, wp_cap_unlock, L1, lock_drop_head by apply not_elem_of_nil. cbn [fst snd].
  pose proof (start_sweep s hold o HI Ho Ha Hr _ _ _ D) as Hsw.
  set (s2 := set_k_locks [] (detached s o C1 H1)) in *. rewrite wp_bind.
  eapply wp_revoke_slots; [exact Hsw|exact (de_dead _ _ _ _ _ _ _ _ _ _ D)| | |].
  { rewrite length_reverse. apply holder_fuel_length, (hold_length Hok). }
  { intros h Hh. rewrite elem_of_reverse in Hh. by apply (start_tables s hold o HI _ _ _ D). }
  intros s3 [HI3 L3 EH3 EO3 En3 EP3 Hno3 [Hrk Etr3]]. rewrite wp_bind. apply wp_unmap_everywhere; [done|].
  intros s4 l4 M4 U4 Et4 P4. pose proof (maps_only_inv _ _ _ _ _ _ M4 HI3) as HI4. pose proof (maps_only_locks _ _ M4) as L4.
  rewrite L3 in L4. pose proof (λ ti i, maps_only_slot _ _ ti i M4) as Es4.
  assert (∃ l, k_trace s4 = l ++ k_trace s ∧ unmaps (recorded_page CAP_TABLE_MAX o s) l) as Hcalls.
  { exists l4. split; [by rewrite Et4, Etr3|]. eapply unmaps_ext; [|exact P4]. intros r va. unfold recorded_page.
    assert (∀ ti, recorded CAP_MAP_MAX o ti s3 r va ↔ recorded CAP_MAP_MAX o ti s r va) as Hsame by (intros ti; apply recorded_same; apply (Hrk ti)).
    split; intros (ti & Hti & Hp); exists ti; (split; [done|by apply Hsame]). }
  destruct M4 as (T4 & tr4 & E4 & _ & _).
  assert (k_holders s4 = H1 ∧ k_objects s4 = (k_objects s).[o <- revoked_obj (object o s)] ∧ k_obj_next s4 = k_obj_next s)
    as (EH4 & EO4 & En4) by (subst s4; kred; rewrite EH3, EO3, En3; done).
  clear E4 EH3 EO3 En3 EP3. clearbody s2. rewrite <-(length_reverse (hold o)).
  assert (∀ x, object x s4 = if o =? x then revoked_obj (object o s) else object x s) as Eo4.
  { intros x. unfold object at 1. rewrite EO4. apply aget_upd. }
  assert (object o s4 = revoked_obj (object o s)) as Eoo by (by rewrite Eo4, Z.eqb_refl).
  eapply (wp_revoke_finish o dead (reverse (hold o)) s4 (hold_upd hold o [])).
  - eapply inv_perm_loose; [|exact HI4]. by rewrite reverse_Permutation.
  - done.
  - intros x Hx Hne. rewrite Eo4. destruct (Z.eqb_spec o x); [congruence|]. apply Hq. by rewrite <-En4.
  - by rewrite En4.
  - apply hold_upd_eq.
  - by rewrite Eoo.
  - rewrite Eoo, length_reverse. exact Href.
  - rewrite EH4. exact (de_dead _ _ _ _ _ _ _ _ _ _ D).
  - intros s5 HI5 Hq5 L5 [G1 G2 G3 G4 G5]. apply HQ.
    + by eapply kernel_ok_intro.
    + done.
    + congruence.
    + intros ti j Hti Hj. unfold slot, table. rewrite G3. fold (table ti s4). fold (slot ti j s4). rewrite Es4.
      intros Hv Hw E. by apply (Hno3 ti j Hti Hj Hv Hw), not_elem_of_nil in E.
    + intros ti Hti. specialize (U4 ti Hti). unfold unmapped, table in *. by rewrite G3.
    + by rewrite G5.
Qed.

Lemma revoke_ok pid i s :
  kernel_ok s → 0 ≤ pid < 2 ^ 16 → 0 ≤ i < CAP_TABLE_ENTRIES →
  wp (cap_revoke pid i) (λ r s', kernel_ok s' ∧ revoke_outcome pid i s r s') s.
Proof.
  intros Hs Hpid Hi. pose proof Hs as (hold & HI & Hq & Hl)%kernel_ok_inv. unfold cap_revoke.
  rewrite wp_bind. eapply wp_table_index_full; [exact HI|done|..].
  { intros Hno. change (-1 <? 0) with true. cbv iota. rewrite wp_ret. split; [done|]. apply revoke_refused; try done.
    intros (ti & (Hr & E & _) & _). by destruct (Hno ti Hr). }
  intros ti T1 P1 s1 HI1 Hti Eslot _ Hbound _ Hsame. replace (ti <? 0) with false by (symmetry; apply Z.ltb_ge, Hti).
  rewrite wp_bind, wp_cap_lock by lk Hl. set (s2 := set_k_locks _ s1).
  assert (¬ names_live pid i s →
    wp (do* cap_unlock (LTable ti); ret CAP_EINVAL) (λ r s', kernel_ok s' ∧ revoke_outcome pid i s r s') s2) as Hfail.
  { intros Hno. rewrite wp_bind. unlock Hl. rewrite wp_ret. split; [by finish_ok|by apply revoke_refused]. }
  assert (∀ tj, table_of (k_table_pid s) pid tj → tj = ti) as Htj.
  { intros tj (A & B & D)%Hbound. by eapply table_of_inj; [apply (inv_pids HI1)|exact Hti|..]. }
  rewrite wp_bind, wp_get_slot by done. change (slot ti i s2) with (slot ti i s1). rewrite Eslot.
  destruct (cap_word_valid (slot ti i s)) eqn:Ev; simpl negb; cbv iota.
  2: { apply Hfail. intros (tj & ->%Htj & Hv & _). congruence. }
  rewrite wp_bind, wp_gets. destruct (cap_object_get _ s2) as [o|] eqn:Eo.
  2: { apply Hfail. intros (tj & ->%Htj & _ & Ho & Ha). by eapply (object_get_dead s2 hold). }
  destruct (payload_object s2 hold _ _ _ _ _ HI1 Hq Eo) as (Eow & Ho & Ha & Hid & Hr).
  assert (table_of (k_table_pid s) pid ti) as Hti0 by (by eapply (table_was_bound s hold pid ti i P1)).
  assert (o_revoking (object o s) = 0) as Hr0 by exact Hr. assert (o_active (object o s) = 1) as Ha0 by exact Ha.
  rewrite wp_bind. unlock Hl. rewrite wp_bind, wp_cap_lock by (kred; apply not_elem_of_nil). kred.
  match goal with |- wp _ _ ?s => set (s3 := s) end.
  assert (k_trace s3 = k_trace s ∧ ∀ tj, table tj s3 = table tj s) as [Etr Etab].
  { split; [done|]. intros tj. change (table tj (set_k_tables T1 (set_k_table_pid P1 s)) = table tj s). by rewrite (Hsame ti Hti0). }
  assert (Inv s3 hold [] [] []) as HI3 by exact HI1. assert (quiet s3) as Hq3 by exact Hq.
  assert (k_locks s3 = [LObj o]) as Hl3 by reflexivity. assert (0 ≤ o < k_obj_next s3) as Ho3 by exact Ho.
  assert (∀ x, object x s3 = object x s) as Eobj by (intros; reflexivity).
  assert (k_obj_next s3 = k_obj_next s) as En by reflexivity. clearbody s3.
  rewrite wp_bind, wp_get_object, Eobj, Hr0. simpl negb. cbv iota. rewrite <-Eobj. eapply wp_revoke_object; [exact HI3|done|done|done|by rewrite Eobj|].
  intros s4 Hs4 Hd4 En4 Hno4 Hu4 (l4 & Et4 & P4). split; [done|]. rewrite En in Ho3. apply (revoke_done _ _ _ _ _ o); [|done|].
  - exists ti. by rewrite <-Eow.
  - split; try done; [by exists ti|congruence|]. exists l4. rewrite <-Etr. split; [done|].
    eapply unmaps_ext; [|exact P4]. intros r va. unfold recorded_page, recorded. by setoid_rewrite Etab.
Qed.

End Revoke.
