(* ===== verification/ChanInv.v ===== *)
(** The channel interface (kernel/chan.c) keeps the invariant.  Slot resolution
    agrees with the lookups of cap.c and only ever yields a live endpoint; every
    call returns to the caller with the kernel invariant intact; a wait with a
    deadline ends. *)

From stdpp Require Import base gmap list list_numbers.
From Stdlib Require Import ZArith Lia Bool.
From S2P Require Import Prelude FramePool CapWord Sidecar CapState CapPools CapOps CapMsg CapRevoke Chan Wp.
From S2P Require Import HolderSpec CapInv ArenaSpec CapInvPools CapInvObj CapCreateInv CapChanInv CapMsgInv.
From S2P Require Import CapVecInv CapDropInv CapTeardownInv CapMapInv.
#[local] Open Scope Z_scope.
#[local] Open Scope carr_scope.
#[local] Open Scope cap_scope.
#[local] Opaque Z.to_nat Z.div Z.modulo.

(** * Resolution *)

Lemma chan_word_valid_eq w : chan_word_valid w = cap_word_valid w.
Proof. unfold chan_word_valid, cap_word_valid. by destruct (_ =? _), (_ =? _), (_ =? _). Qed.

Lemma chan_table_eq pid s :
  pids_ok (k_tables s) (k_table_pid s) → chan_table_for_pid pid s = cap_table_find pid s.
Proof.
  intros Hp. unfold chan_table_for_pid, cap_table_find.
  rewrite (find_up_ext _ _ _ (λ i, (k_table_pid s).[i] =? pid)).
  2: { intros j Hj. rewrite Z2Nat.id in Hj by done. unfold table. by rewrite (po_tab _ _ Hp). }
  destruct (Z.eqb_spec pid 0) as [->|]; [|done].
  change (Z.to_nat CAP_TABLE_MAX) with 16%nat. cbn [find_up]. by rewrite (po_zero _ _ Hp).
Qed.

(** What a resolved endpoint is: the caller's own slot, valid, of the wanted type
    and right, naming a live channel object. *)
Record endpoint (pid sl want : Z) (s : KState) (c d : Z) (ti : Z) : Prop := {
  ep_table : table_of (k_table_pid s) pid ti;
  ep_slot : 0 ≤ sl < CAP_TABLE_ENTRIES;
  ep_valid : cap_word_valid (slot ti sl s) = true;
  ep_type : w_type (slot ti sl s) = CAP_TYPE_CHAN_R ∨ w_type (slot ti sl s) = CAP_TYPE_CHAN_W;
  ep_want : want ≠ 0 → w_type (slot ti sl s) = want;
  ep_recv : want = CAP_TYPE_CHAN_R → w_has_perm (slot ti sl s) CAP_PERM_RECV = true;
  ep_send : want = CAP_TYPE_CHAN_W → w_has_perm (slot ti sl s) CAP_PERM_SEND = true;
  ep_object : chan_used (k_objects s) (k_obj_next s) c;
  ep_names : let ob := object (w_obj (slot ti sl s)) s in o_active ob = 1 ∧ o_chan_id ob = c;
  ep_range : 0 ≤ c < CAP_CHAN_MAX;
  ep_active : c_active (channel c s) ≠ 0;
  ep_dir : d = if pid =? c_end0_pid (channel c s) then 0 else 1
}.

Lemma ep_dir01 pid sl want s c d ti : endpoint pid sl want s c d ti → d = 0 ∨ d = 1.
Proof. intros H. rewrite (ep_dir _ _ _ _ _ _ _ H). destruct (_ =? _); auto. Qed.

(** Peel one refusal off a decision chain. *)
Ltac pass H E :=
  match type of H with
  | (if ?b then inr _ else _) = inl _ => destruct b eqn:E; [discriminate H|]
  end.

Lemma chan_resolve_spec pid sl want s hold L U G c d :
  Inv s hold L U G → 0 ≤ sl → chan_resolve pid sl want s = inl (c, d) →
  ∃ ti, endpoint pid sl want s c d ti.
Proof.
  intros HI Hsl. unfold chan_resolve. rewrite (chan_table_eq pid s (inv_pids HI)). cbv zeta. intros H.
  destruct (table_find_spec s pid (inv_pids HI)) as [(E & _)|Ht]; [by rewrite E in H|].
  set (ti := cap_table_find pid s) in *. clearbody ti.
  pass H E1. pass H E2. pass H E3. rewrite chan_word_valid_eq in E3. set (w := slot ti sl s) in *.
  pass H E4. pass H E5. pass H E6. pass H E7. pass H E8. pass H E9. pass H E10. pass H E11.
  injection H as Hc Hd. pose proof (proj1 (w_obj_range w)).
  apply orb_false_iff in E9 as [E9a E9b%negb_false_iff%Z.eqb_eq].
  assert (o_active (object (w_obj w) s) = 1) as Ha.
  { destruct (oo_active _ _ _ (inv_objs HI) (w_obj w)) as [E|]; [|done]. unfold object in E9a. by rewrite E in E9a. }
  assert (0 ≤ w_obj w < k_obj_next s) as Hn.
  { split; [done|]. apply Z.nle_gt. intros Hge. pose proof (oo_beyond _ _ _ (inv_objs HI) _ Hge) as E.
    unfold object in Ha. congruence. }
  subst c. exists ti. split; try done; fold w.
  - lia.
  - by apply negb_false_iff.
  - lia.
  - lia.
  - intros ->. change (CAP_TYPE_CHAN_R =? CAP_TYPE_CHAN_R) with true in E6. cbn [andb] in E6. by apply negb_false_iff.
  - intros ->. change (CAP_TYPE_CHAN_W =? CAP_TYPE_CHAN_W) with true in E7. cbn [andb] in E7. by apply negb_false_iff.
  - exists (w_obj w). split; [done|]. split; [exact Ha|]. split; [exact E9b|done].
  - by apply (oo_chan _ _ _ (inv_objs HI)).
  - by apply Z.eqb_neq.
Qed.

(** * Polling *)

Lemma wp_poll_one c d s (Q : option Z → KState → Prop) :
  0 ≤ c < CAP_CHAN_MAX → k_locks s = [] → Q (poll_kind d (channel c s)) s → wp (poll_one c d) Q s.
Proof.
  intros Hc Hl HQ. unfold poll_one. rewrite wp_bind, wp_cap_lock by (rewrite Hl; apply not_elem_of_nil).
  rewrite Hl, wp_bind, wp_get_channel, wp_bind, wp_cap_unlock, wp_ret by done. kred.
  rewrite lock_drop_head by apply not_elem_of_nil.
  replace (set_k_locks [] (set_k_locks [LChan c] s)) with s; [done|].
  destruct s. cbn in *. by rewrite Hl.
Qed.

(** The endpoint a poll over [eps] reports. *)
Fixpoint first_ready (i : Z) (eps : list (Z * Z)) (s : KState) : option (Z * Z) :=
  match eps with
  | [] => None
  | (c, d) :: eps' =>
      match poll_kind d (channel c s) with
      | Some kind => Some (i, kind)
      | None => first_ready (i + 1) eps' s
      end
  end.

Definition in_chans (eps : list (Z * Z)) : Prop := Forall (λ e, 0 ≤ fst e < CAP_CHAN_MAX) eps.

Lemma wp_poll_all i eps s (Q : option (Z * Z) → KState → Prop) :
  in_chans eps → k_locks s = [] → Q (first_ready i eps s) s → wp (poll_all i eps) Q s.
Proof.
  intros Hc Hl. revert i. induction Hc as [|[c d] eps Hc Heps IH]; intros i HQ; cbn [poll_all first_ready] in *.
  { by rewrite wp_ret. }
  rewrite wp_bind. apply wp_poll_one; [done|done|]. destruct (poll_kind _ _); [by rewrite wp_ret|by apply IH].
Qed.

(** An answer of a wait: a code other than CAP_ERR_OK, or the first ready endpoint
    among [eps] with the kind of its head entry. *)
Definition wait_answer (eps : list (Z * Z)) (out : Z * Z * Z) (s : KState) : Prop :=
  let '(code, i, kind) := out in
  code = CAP_ERR_OK → first_ready 0 eps s = Some (i, kind).

Lemma wp_final_poll eps s (Q : Z * Z * Z → KState → Prop) :
  in_chans eps → k_locks s = [] → (∀ out, wait_answer eps out s → Q out s) → wp (final_poll eps) Q s.
Proof.
  intros Hc Hl HQ. unfold final_poll. rewrite wp_bind. apply wp_poll_all; [done|done|].
  destruct (first_ready 0 eps s) as [[i kind]|] eqn:E; rewrite wp_ret; apply HQ; [by intros _|by intros ?].
Qed.

(** * Waiting *)

(** [eps] are the endpoints of the caller's first handles. *)
Definition resolved (pid : Z) (chans : gmap Z Z) (eps : list (Z * Z)) (s : KState) : Prop :=
  ∀ i c d, eps !! i = Some (c, d) → ∃ ti, endpoint pid chans.[Z.of_nat i] CAP_TYPE_CHAN_R s c d ti.

Lemma resolved_in_chans pid chans eps s : resolved pid chans eps s → in_chans eps.
Proof.
  intros H. apply Forall_lookup. intros i [c d] Hi. destruct (H i c d Hi) as [ti Hep]. exact (ep_range _ _ _ _ _ _ _ Hep).
Qed.

Lemma resolved_snoc pid chans eps s c d ti :
  resolved pid chans eps s → endpoint pid chans.[Z.of_nat (length eps)] CAP_TYPE_CHAN_R s c d ti →
  resolved pid chans (eps ++ [(c, d)]) s.
Proof.
  intros H Hep i c' d' [Hi|[Hi1 Hi2]]%lookup_app_Some; [by apply H|].
  apply list_lookup_singleton_Some in Hi2 as [Hi2 [= <- <-]]. exists ti.
  by replace i with (length eps) by lia.
Qed.

Lemma first_ready_app i eps eps' s :
  first_ready i eps s = None → first_ready i (eps ++ eps') s = first_ready (i + Z.of_nat (length eps)) eps' s.
Proof.
  revert i. induction eps as [|[c d] eps IH]; intros i; cbn [first_ready app length].
  { intros _. f_equal. lia. }
  destruct (poll_kind _ _); [done|]. intros H. rewrite IH by done. f_equal. lia.
Qed.

Lemma first_ready_range i eps s j kind :
  first_ready i eps s = Some (j, kind) → i ≤ j < i + Z.of_nat (length eps).
Proof.
  revert i. induction eps as [|[c d] eps IH]; intros i; cbn [first_ready length]; [done|].
  destruct (poll_kind _ _); [intros [= <- _]; lia|]. intros H%IH. lia.
Qed.

Lemma wp_wait_scan pid chans n s hold (Q : list (Z * Z) + Z * Z * Z → KState → Prop) :
  Inv s hold [] [] [] → k_locks s = [] → 0 ≤ n → (∀ i, 0 ≤ chans.[i]) →
  (∀ e, e ≠ CAP_ERR_OK → Q (inr (e, 0, CH_KIND_NONE)) s) →
  (∀ eps i kind, resolved pid chans eps s → first_ready 0 eps s = Some (i, kind) → 0 ≤ i < n →
     Q (inr (CAP_ERR_OK, i, kind)) s) →
  (∀ eps, resolved pid chans eps s → length eps = Z.to_nat n → first_ready 0 eps s = None → Q (inl eps) s) →
  wp (wait_scan pid chans n) Q s.
Proof.
  intros HI Hl Hn Hch Herr Hrdy Hno. unfold wait_scan.
  apply (wp_for_ctl (λ j eps s', s' = s ∧ resolved pid chans eps s ∧ Z.of_nat (length eps) = j ∧
    first_ready 0 eps s = None)).
  - split; [done|]. split; [by intros i c d ?|]. done.
  - intros j eps s' Hj (-> & Hr & Hlen & Hf). rewrite Z2Nat.id in Hj by done. rewrite wp_bind, wp_gets.
    destruct (chan_resolve pid chans.[j] CAP_TYPE_CHAN_R s) as [[c d]|e] eqn:E.
    + destruct (chan_resolve_spec _ _ _ _ _ _ _ _ _ _ HI (Hch j) E) as [ti Hep].
      assert (resolved pid chans (eps ++ [(c, d)]) s) as Hr' by (eapply resolved_snoc; [done|by rewrite Hlen]).
      rewrite wp_bind. apply wp_poll_one; [exact (ep_range _ _ _ _ _ _ _ Hep)|done|].
      assert (first_ready 0 (eps ++ [(c, d)]) s = match poll_kind d (channel c s) with Some k => Some (j, k) | None => None end) as Hf'.
      { rewrite first_ready_app by done. cbn. by rewrite Hlen. }
      destruct (poll_kind d (channel c s)) as [kind|]; rewrite wp_ret.
      * by apply (Hrdy (eps ++ [(c, d)])); [|done|lia].
      * split; [done|]. split; [done|]. split; [rewrite length_app; cbn; lia|done].
    + rewrite wp_ret. apply Herr. intros ->.
      unfold chan_resolve in E. cbv zeta in E. repeat (case_match; [discriminate|]). discriminate.
  - intros eps s' (-> & Hr & Hlen & Hf). apply Hno; [done|lia|done].
Qed.

(** What the scheduler promises: it runs with no lock held and gives back a state
    that satisfies the invariant; the tick counter never goes back, and a park that
    returns because an interrupt ended it has let a tick pass. *)
Class ChanEnvOk (E : ChanEnv) : Prop := {
  env_tick : ∀ s, 0 ≤ kernel_tick_counter s;
  env_wait : ∀ ids sc dl s, kernel_ok s →
    wp (cap_wait_chans ids sc dl) (λ r s', kernel_ok s' ∧
      (r ≠ 0 → kernel_tick_counter s < kernel_tick_counter s')) s;
  env_take : ∀ s, kernel_ok s →
    wp cap_park_deadline_take (λ dl s', 0 ≤ dl ∧ ∃ tr, s' = set_k_trace tr s) s
}.

Section Wait.
Context `{!ChanEnv, !ChanEnvOk _}.

(** A wait with a deadline needs no more parks than there are ticks until it. *)
Lemma wp_wait_park fuel eps dl s (Q : Z * Z * Z → KState → Prop) :
  kernel_ok s → in_chans eps → dl ≠ 0 → dl ≤ kernel_tick_counter s + Z.of_nat fuel → (0 < fuel)%nat →
  (∀ out s', kernel_ok s' → wait_answer eps out s' → Q out s') →
  wp (wait_park fuel eps dl) Q s.
Proof.
  intros Hs Hc Hdl Hfuel Hpos HQ. unfold wait_park. rewrite wp_bind.
  apply (wp_while_ctl (λ _ s', kernel_ok s') (λ _ s', Z.to_nat (Z.max 0 (dl - kernel_tick_counter s' - 1)))).
  - done.
  - lia.
  - intros [] s1 Hs1. rewrite wp_bind. eapply wp_mono; [by apply env_wait|]. intros parked s2 [Hs2 Ht].
    destruct (Z.eqb_spec parked 0) as [|Hp]; [rewrite !wp_ret; apply HQ; [done|by intros ?]|].
    specialize (Ht Hp). pose proof Hs2 as (_ & _ & Hl2). rewrite wp_bind. apply wp_poll_all; [done|done|].
    destruct (first_ready 0 eps s2) as [[i kind]|] eqn:E; [rewrite !wp_ret; apply HQ; [done|by intros _]|].
    rewrite wp_bind, wp_gets. destruct (deadline_passed dl s2) eqn:El.
    + rewrite wp_bind. apply wp_final_poll; [done|done|]. intros out Hout. rewrite !wp_ret. by apply HQ.
    + rewrite wp_ret. split; [done|]. unfold deadline_passed in El.
      assert (kernel_tick_counter s2 < dl) by lia. lia.
Qed.

Lemma wp_call_deadline timeout_ns bounded s :
  kernel_ok s → wp (call_deadline timeout_ns bounded) (λ _ s', ∃ tr, s' = set_k_trace tr s) s.
Proof.
  intros Hs. unfold call_deadline. rewrite wp_bind. eapply wp_mono; [by apply env_take|]. intros st s1 (_ & tr & ->).
  rewrite wp_bind, wp_gets, wp_ret. by exists tr.
Qed.

(** The deadline this call waits for, and the state it is computed in. *)
Definition call_at (timeout_ns dl : Z) (s s1 : KState) : Prop :=
  call_deadline timeout_ns (negb (timeout_ns =? CH_TIMEOUT_NONE)) s = Ok dl s1.

(** What a wait answers: on success an index below [n], the first of the caller's
    endpoints that is ready when the call returns, and the kind of its head. *)
Definition wait_result (pid : Z) (chans : gmap Z Z) (n timeout_ns : Z) (s : KState)
    (out : Z * Z * Z) (s' : KState) : Prop :=
  let '(code, i, kind) := out in
  code = CAP_ERR_OK → 0 ≤ i < n ∧
  ∃ dl s1 eps, call_at timeout_ns dl s s1 ∧ resolved pid chans eps s1 ∧ first_ready 0 eps s' = Some (i, kind).

Lemma wait_ok fuel pid chans n timeout_ns s :
  kernel_ok s → 0 ≤ n → (∀ i, 0 ≤ chans.[i]) →
  (∀ dl s1, call_at timeout_ns dl s s1 → dl ≠ 0 ∧ dl ≤ kernel_tick_counter s1 + Z.of_nat fuel) → (0 < fuel)%nat →
  wp (k_chan_wait fuel pid chans n timeout_ns) (λ out s',
    kernel_ok s' ∧ wait_result pid chans n timeout_ns s out s') s.
Proof.
  intros Hs Hn Hch Hdl Hfuel. unfold k_chan_wait.
  destruct ((n =? 0) || (CHAN_WAIT_MAX_CHANS <? n)); [rewrite wp_ret; split; [done|by intros ?]|]. rewrite wp_bind.
  assert (wp (call_deadline timeout_ns (negb (timeout_ns =? CH_TIMEOUT_NONE))) (λ dl s', kernel_ok s') s) as Hcd.
  { eapply wp_mono; [by apply wp_call_deadline|]. by intros dl s1 (tr & ->). }
  apply wp_Ok in Hcd as (dl & s1 & E1 & Hs1). apply wp_Ok. exists dl, s1. split; [done|].
  destruct (Hdl dl s1 E1) as [Hdl0 Hdl1]. clear Hdl Hs. pose proof Hs1 as (hold & HI1 & Hq1 & Hl1)%kernel_ok_inv.
  rewrite wp_bind. eapply (wp_wait_scan pid chans n s1 hold); try done.
  - intros eps i kind Hr Hf Hi. rewrite wp_ret. split; [done|]. intros _. split; [done|]. by exists dl, s1, eps.
  - intros eps Hr Hlen Hf. pose proof (resolved_in_chans _ _ _ _ Hr) as Hc. rewrite wp_bind, wp_gets.
    assert (∀ out s', kernel_ok s' → wait_answer eps out s' →
      kernel_ok s' ∧ wait_result pid chans n timeout_ns s out s') as Hfin.
    { intros [[code i] kind] s' Hs' Hout. split; [done|]. intros Ec. specialize (Hout Ec).
      split; [|by exists dl, s1, eps]. apply first_ready_range in Hout. lia. }
    destruct (deadline_passed dl s1).
    + apply wp_final_poll; [done|done|]. intros out. by apply Hfin.
    + by apply wp_wait_park.
Qed.

End Wait.

(** * Receiving *)

Lemma unlock_id c s : k_locks s = [] → set_k_locks (lock_drop (LChan c) [LChan c]) (set_k_locks [LChan c] s) = s.
Proof. intros Hl. rewrite lock_drop_head by apply not_elem_of_nil. destruct s. cbn in *. by rewrite Hl. Qed.

Lemma chan_ok_close_evt v ch : chan_ok ch → chan_ok (set_c_close_evt v ch).
Proof. intros [H1 H2]. by split. Qed.

Lemma wp_table_index_ok pid s (Q : Z → KState → Prop) :
  kernel_ok s → 0 ≤ pid < 2 ^ 16 → Q (-1) s →
  (∀ ti T' P', let s' := set_k_tables T' (set_k_table_pid P' s) in
     kernel_ok s' → table_of P' pid ti → (∀ tj j, slot tj j s' = slot tj j s) → Q ti s') →
  wp (cap_table_index pid) Q s.
Proof.
  intros Hs Hpid Hno HQ. pose proof Hs as (hold & HI & Hq & Hl)%kernel_ok_inv.
  eapply wp_table_index; [exact HI|done|done|]. intros ti T1 P1 s1 HI1 Hti Hsl _ _.
  apply HQ; [by finish_ok|done|done].
Qed.

Lemma wp_cap_ref pid d s (Q : SLSChanCapRef → KState → Prop) :
  kernel_ok s → 0 ≤ pid < 2 ^ 16 → 0 ≤ d_slot d < CAP_TABLE_ENTRIES →
  (∀ r s', kernel_ok s' → cr_handle r = d_slot d → Q r s') → wp (cap_ref pid d) Q s.
Proof.
  intros Hs Hpid Hd HQ. unfold cap_ref, cap_debug_objid. rewrite wp_bind, wp_bind.
  assert (∀ oid s', kernel_ok s' → wp (let* pbase := if negb (oid =? 0xFFFFFFFF)
    then gets (cap_debug_obj_phys oid) else ret 0 in
    ret (mkRef (d_slot d) (d_rights d) (d_flags d) (u64 (pbase + d_offset d)) (d_len d))) Q s') as Hk.
  { intros oid s' Hs'. rewrite wp_bind. destruct (negb _); rewrite ?wp_gets, ?wp_ret; by apply HQ. }
  apply wp_table_index_ok; [done|done|..].
  { change (-1 <? 0) with true. cbv iota. rewrite wp_ret. by apply Hk. }
  intros ti T1 P1 s1 Hs1 Hti _. replace (ti <? 0) with false by (symmetry; apply Z.ltb_ge, Hti).
  rewrite wp_bind, wp_get_slot by done. destruct (negb _); rewrite wp_ret; by apply Hk.
Qed.

Lemma wp_cap_refs pid ds s (Q : list SLSChanCapRef → KState → Prop) :
  kernel_ok s → 0 ≤ pid < 2 ^ 16 → in_table ds →
  (∀ rs s', kernel_ok s' → cr_handle <$> rs = d_slot <$> ds → Q rs s') → wp (cap_refs pid ds) Q s.
Proof.
  intros Hs Hpid Hds. revert s Q Hs. induction Hds as [|d ds Hd Hds IH]; intros s Q Hs HQ; cbn [cap_refs].
  { rewrite wp_ret. by apply HQ. }
  rewrite wp_bind. apply wp_cap_ref; [done..|]. intros r s1 Hs1 Er. rewrite wp_bind. apply IH; [done|].
  intros rs s2 Hs2 Ers. rewrite wp_ret. apply HQ; [done|]. cbn. by rewrite Er, Ers.
Qed.

(** [needed] of a refused receive: the capabilities and bytes of the head message. *)
Definition needs (m : ChanMsg) : Z :=
  Z.lor (Z.shiftl (Z.land (m_n_caps m) 0xFFFF) 16) (Z.land (m_payload_len m) 0xFFFF).

Definition head_message (c d : Z) (s : KState) : ChanMsg :=
  message c d ((c_qhead (channel c s)).[d] mod CHAN_QUEUE_DEPTH) s.

(** The outcomes of a receive that does not consume a message: a refusal leaves the
    state as it was; a CLOSE event comes only from an empty queue, and its flag is
    all that changes. *)
Inductive recv_quiet (pid chan buf_len n_slots : Z) (s : KState) (r : ChanRecvOut) (s' : KState) : Prop :=
| recv_refused e : chan_resolve pid chan CAP_TYPE_CHAN_R s = inr e → r = recv_none e 0 → s' = s →
    recv_quiet pid chan buf_len n_slots s r s'
| recv_empty c d ti : endpoint pid chan CAP_TYPE_CHAN_R s c d ti → (c_qdepth (channel c s)).[d] = 0 →
    (c_close_evt (channel c s)).[d] = 0 → r = recv_none CAP_ERR_STATE 0 → s' = s →
    recv_quiet pid chan buf_len n_slots s r s'
| recv_close_small c d ti : endpoint pid chan CAP_TYPE_CHAN_R s c d ti → (c_qdepth (channel c s)).[d] = 0 →
    (c_close_evt (channel c s)).[d] ≠ 0 → buf_len < 8 → r = recv_none CAP_ERR_BUFSZ 8 → s' = s →
    recv_quiet pid chan buf_len n_slots s r s'
| recv_close c d ti : endpoint pid chan CAP_TYPE_CHAN_R s c d ti → (c_qdepth (channel c s)).[d] = 0 →
    (c_close_evt (channel c s)).[d] ≠ 0 → 8 ≤ buf_len →
    r = mkOut CAP_ERR_OK CH_KIND_CLOSE 0 0 8 0 0
          (close_body (c_close_reason (channel c s)).[d] (c_close_detail (channel c s)).[d]) [] →
    s' = upd_channel c (λ ch, set_c_close_evt (c_close_evt ch).[d <- 0] ch) s →
    recv_quiet pid chan buf_len n_slots s r s'
| recv_small c d ti : endpoint pid chan CAP_TYPE_CHAN_R s c d ti → (c_qdepth (channel c s)).[d] ≠ 0 →
    buf_len < m_payload_len (head_message c d s) ∨ n_slots < m_n_caps (head_message c d s) →
    r = recv_none CAP_ERR_BUFSZ (needs (head_message c d s)) → s' = s →
    recv_quiet pid chan buf_len n_slots s r s'.

(** The caller's buffers hold the head message whole. *)
Definition recv_fits (pid chan buf_len n_slots : Z) (s : KState) : Prop :=
  ∃ c d ti, endpoint pid chan CAP_TYPE_CHAN_R s c d ti ∧ (c_qdepth (channel c s)).[d] ≠ 0 ∧
    m_payload_len (head_message c d s) ≤ buf_len ∧ m_n_caps (head_message c d s) ≤ n_slots.

Section Recv.
Context `{!CapEnv}.

(** Receiving splits into the quiet outcomes above and a [cap_recv_msg] on buffers
    large enough for the head message. *)
Lemma wp_chan_recv pid chan buf_len slots n_slots s (Q : ChanRecvOut → KState → Prop) :
  kernel_ok s → 0 ≤ pid < 2 ^ 16 → 0 ≤ chan → 0 ≤ buf_len → 0 ≤ n_slots →
  (∀ r s', kernel_ok s' → recv_quiet pid chan buf_len n_slots s r s' → Q r s') →
  (recv_fits pid chan buf_len n_slots s → ∀ rr s1, cap_recv_msg pid chan buf_len (u16 n_slots) s = Ok rr s1 →
     r_code rr < 0 → kernel_ok s1 → Q (recv_none (chan_map_err (r_code rr)) 0) s1) →
  (recv_fits pid chan buf_len n_slots s → ∀ rr s1 refs s2,
     cap_recv_msg pid chan buf_len (u16 n_slots) s = Ok rr s1 → 0 ≤ r_code rr → kernel_ok s2 →
     (slots = true → cr_handle <$> refs = d_slot <$> take (Z.to_nat n_slots) (r_caps rr)) →
     Q (mkOut CAP_ERR_OK CH_KIND_MSG (if negb (Z.land (r_flags rr) 1 =? 0) then CH_F_NO_REPLY else 0)
          (r_tag rr) (r_payload_len rr) (r_n_caps rr) 0 (r_bytes rr) refs) s2) →
  wp (k_chan_recv pid chan buf_len slots n_slots) Q s.
Proof.
  intros Hs Hpid Hch Hbl Hns Hquiet Hfail Hok. unfold k_chan_recv.
  pose proof Hs as (hold & HI & Hq & Hl)%kernel_ok_inv. rewrite wp_bind, wp_gets.
  destruct (chan_resolve _ _ _ s) as [[c d]|e] eqn:E; [|rewrite wp_ret; apply Hquiet; [done|by eapply recv_refused]].
  destruct (chan_resolve_spec _ _ _ _ _ _ _ _ _ _ HI Hch E) as [ti Hep].
  pose proof (ep_range _ _ _ _ _ _ _ Hep) as Hc.
  rewrite wp_bind, wp_cap_lock by (rewrite Hl; apply not_elem_of_nil). rewrite Hl, wp_bind, wp_get_channel by done.
  change (channel c (set_k_locks [LChan c] s)) with (channel c s).
  destruct (Z.eqb_spec (c_qdepth (channel c s)).[d] 0) as [Hd|Hd].
  { destruct (Z.eqb_spec (c_close_evt (channel c s)).[d] 0) as [He|He]; cbn [negb].
    - rewrite wp_bind, wp_cap_unlock, wp_ret. kred. rewrite unlock_id by done. apply Hquiet; [done|].
      by eapply recv_empty.
    - destruct (Z.ltb_spec buf_len 8).
      + rewrite wp_bind, wp_cap_unlock, wp_ret. kred. rewrite unlock_id by done. apply Hquiet; [done|].
        by eapply recv_close_small.
      + rewrite wp_bind. eapply (wp_inv_set_channel c _ _ hold); [by apply inv_locks|done| |].
        { apply chan_ok_close_evt. apply (inv_chans HI). }
        intros s2 HI2. rewrite wp_bind, wp_cap_unlock, wp_ret. unfold s2. kred.
        rewrite lock_drop_head by apply not_elem_of_nil. apply Hquiet; [|eapply recv_close; try done].
        * by apply (kernel_ok_intro _ hold); [exact HI2|exact Hq|].
        * destruct s. cbn in *. by rewrite Hl. }
  rewrite wp_bind, wp_get_message, wp_bind, wp_cap_unlock by done. kred. rewrite unlock_id by done.
  change (message c d _ _) with (head_message c d s).
  destruct (Z.ltb_spec buf_len (m_payload_len (head_message c d s)));
    [cbn [orb]; rewrite wp_ret; apply Hquiet; [done|eapply recv_small; try done; by left]|].
  destruct (Z.ltb_spec n_slots (m_n_caps (head_message c d s)));
    [cbn [orb]; rewrite wp_ret; apply Hquiet; [done|eapply recv_small; try done; by right]|].
  cbn [orb]. assert (recv_fits pid chan buf_len n_slots s) as Hfits by (by exists c, d, ti).
  assert (0 ≤ u16 n_slots) as Hu by (apply Z.mod_pos_bound; done).
  pose proof (recv_msg_ok pid chan buf_len (u16 n_slots) s Hs Hpid (ep_slot _ _ _ _ _ _ _ Hep) Hu Hbl) as Hrm.
  apply wp_Ok in Hrm as (rr & s1 & E1 & Hs1 & Hcaps). rewrite wp_bind. apply wp_Ok. exists rr, s1. split; [done|].
  destruct (Z.ltb_spec (r_code rr) 0); [rewrite wp_ret; by eapply Hfail|]. rewrite wp_bind.
  destruct slots.
  - apply wp_cap_refs; [done|done|by apply Forall_take|]. intros rs s2 Hs2 Ers. rewrite wp_ret. by eapply Hok.
  - rewrite !wp_ret. by eapply Hok.
Qed.

Lemma chan_recv_ok pid chan buf_len slots n_slots s :
  kernel_ok s → 0 ≤ pid < 2 ^ 16 → 0 ≤ chan → 0 ≤ buf_len → 0 ≤ n_slots →
  wp (k_chan_recv pid chan buf_len slots n_slots) (λ _ s', kernel_ok s') s.
Proof. intros. by apply wp_chan_recv. Qed.

End Recv.

(** * Sending *)

Lemma send_resolve_spec pid chan s hold L U G c d :
  Inv s hold L U G → 0 ≤ chan → send_resolve pid chan s = inl (c, d) →
  ∃ want ti, endpoint pid chan want s c d ti ∧ (want = CAP_TYPE_CHAN_W ∨ want = CAP_TYPE_CHAN_R).
Proof.
  intros HI Hch. unfold send_resolve. destruct (chan_resolve _ _ CAP_TYPE_CHAN_W s) as [[c' d']|e] eqn:E.
  - intros [= <- <-]. destruct (chan_resolve_spec _ _ _ _ _ _ _ _ _ _ HI Hch E) as [ti H]. eauto.
  - destruct (_ =? _); [|done]. intros E'.
    destruct (chan_resolve_spec _ _ _ _ _ _ _ _ _ _ HI Hch E') as [ti H]. eauto.
Qed.

Section Send.
Context `{!ChanEnv, !ChanEnvOk _}.

(** The arguments of a send: what [cap_send_msg] asks of them, once chan.c has
    checked the sizes and the pointers. *)
Definition chan_send_args (pid chan : Z) (payload : option (list Z)) (payload_len : Z)
    (caps : option (list SLSCapDesc)) (n_caps : Z) (s : KState) : Prop :=
  0 ≤ chan ∧ (0 ≤ chan < CAP_TABLE_ENTRIES → send_args pid chan payload payload_len (default [] caps) n_caps s).

(** A send enqueues nothing on a channel with a closed side. *)
Lemma chan_send_ok pid chan tag flags payload payload_len caps n_caps timeout_ns s :
  kernel_ok s → chan_send_args pid chan payload payload_len caps n_caps s →
  wp (k_chan_send pid chan tag flags payload payload_len caps n_caps timeout_ns) (λ r s',
    kernel_ok s' ∧
    (∀ c d, send_resolve pid chan s = inl (c, d) →
       (c_closed (channel c s)).[d] ≠ 0 ∨ (c_closed (channel c s)).[1 - d] ≠ 0 →
       r ≠ CAP_ERR_OK ∧ ∃ tr, s' = set_k_trace tr s)) s.
Proof.
  intros Hs [Hch Hargs]. unfold k_chan_send. cbv zeta.
  assert (∀ e, e ≠ CAP_ERR_OK → kernel_ok s ∧ ∀ c d, send_resolve pid chan s = inl (c, d) →
    (c_closed (channel c s)).[d] ≠ 0 ∨ (c_closed (channel c s)).[1 - d] ≠ 0 →
       e ≠ CAP_ERR_OK ∧ ∃ tr, s = set_k_trace tr s) as Hearly.
  { intros e He. split; [done|]. intros c d _ _. split; [done|]. exists (k_trace s). by destruct s. }
  destruct (_ <? payload_len); [rewrite wp_ret; by apply Hearly|].
  destruct (_ <? n_caps); [rewrite wp_ret; by apply Hearly|].
  destruct (_ && is_null payload); [rewrite wp_ret; by apply Hearly|].
  destruct (_ && is_null caps); [rewrite wp_ret; by apply Hearly|].
  destruct (_ && (0 <? n_caps)); [rewrite wp_ret; by apply Hearly|].
  rewrite wp_bind. eapply wp_mono; [by apply wp_call_deadline|]. intros dl s1 (tr & ->).
  set (s1 := set_k_trace tr s). assert (kernel_ok s1) as Hs1 by exact Hs.
  pose proof Hs1 as (hold & HI & Hq & Hl)%kernel_ok_inv. rewrite wp_bind, wp_gets.
  change (send_resolve pid chan s) with (send_resolve pid chan s1).
  destruct (send_resolve pid chan s1) as [[c d]|e] eqn:E; [|rewrite wp_ret; by split].
  destruct (send_resolve_spec _ _ _ _ _ _ _ _ _ HI Hch E) as (want & ti & Hep & _).
  pose proof (ep_range _ _ _ _ _ _ _ Hep) as Hc. pose proof (Hargs (ep_slot _ _ _ _ _ _ _ Hep)) as Ha.
  rewrite wp_bind, wp_cap_lock by (rewrite Hl; apply not_elem_of_nil).
  rewrite Hl, wp_bind, wp_get_channel, wp_bind, wp_cap_unlock by done. kred. rewrite unlock_id by done.
  change (channel c (set_k_locks [LChan c] s1)) with (channel c s). change (channel c s1) with (channel c s) in *.
  destruct (negb _ || negb _) eqn:Ecl.
  { rewrite wp_ret. split; [done|]. intros c' d' _ _. split; [done|]. by exists tr. }
  apply orb_false_iff in Ecl as [Ec1%negb_false_iff%Z.eqb_eq Ec2%negb_false_iff%Z.eqb_eq].
  assert (∀ r s', kernel_ok s' → kernel_ok s' ∧ ∀ c' d', (inl (c, d) : Z * Z + Z) = inl (c', d') →
    (c_closed (channel c' s)).[d'] ≠ 0 ∨ (c_closed (channel c' s)).[1 - d'] ≠ 0 →
       r ≠ CAP_ERR_OK ∧ ∃ tr, s' = set_k_trace tr s) as Hopen.
  { intros r s' Hs'. split; [done|]. intros c' d' [= <- <-]. tauto. }
  assert (send_args pid chan payload payload_len (default [] caps) n_caps s1) as Ha1 by (destruct Ha; by split).
  rewrite wp_bind. eapply wp_mono; [by apply send_msg_ok|]. intros rr s2 Hs2.
  destruct (rr =? 0); [rewrite wp_ret; by apply Hopen|]. destruct (rr =? CAP_EAGAIN); [|rewrite wp_ret; by apply Hopen].
  rewrite wp_bind, wp_gets. destruct (deadline_passed dl s2); [rewrite wp_ret; by apply Hopen|].
  rewrite wp_bind. eapply wp_mono; [by apply env_wait|]. intros p s3 [Hs3 _]. rewrite wp_ret. by apply Hopen.
Qed.

End Send.

(** * Closing *)

Lemma chan_ok_close dir reason detail ch : chan_ok ch → chan_ok (close_end dir reason detail ch).
Proof. intros [H1 H2]. by split. Qed.

(** Closing marks the caller's end and leaves the peer exactly one event; a second
    close changes nothing. *)
Inductive close_outcome (pid chan reason detail : Z) (s : KState) (r : Z) (s' : KState) : Prop :=
| close_refused : chan_resolve pid chan 0 s = inr r → s' = s → close_outcome pid chan reason detail s r s'
| close_again c d ti : endpoint pid chan 0 s c d ti → (c_closed (channel c s)).[d] ≠ 0 → r = CAP_ERR_OK → s' = s →
    close_outcome pid chan reason detail s r s'
| close_done c d ti : endpoint pid chan 0 s c d ti → (c_closed (channel c s)).[d] = 0 → r = CAP_ERR_OK →
    s' = set_k_trace (HHandoff :: HWakeChan c :: k_trace s) (upd_channel c (close_end d reason detail) s) →
    close_outcome pid chan reason detail s r s'.

Lemma chan_close_ok pid chan reason detail s :
  kernel_ok s → 0 ≤ chan →
  wp (k_chan_close pid chan reason detail) (λ r s', kernel_ok s' ∧ close_outcome pid chan reason detail s r s') s.
Proof.
  intros Hs Hch. unfold k_chan_close. pose proof Hs as (hold & HI & Hq & Hl)%kernel_ok_inv. rewrite wp_bind, wp_gets.
  destruct (chan_resolve _ _ _ s) as [[c d]|e] eqn:E; [|rewrite wp_ret; split; [done|by apply close_refused]].
  destruct (chan_resolve_spec _ _ _ _ _ _ _ _ _ _ HI Hch E) as [ti Hep].
  pose proof (ep_range _ _ _ _ _ _ _ Hep) as Hc.
  rewrite wp_bind, wp_cap_lock by (rewrite Hl; apply not_elem_of_nil). rewrite Hl, wp_bind, wp_get_channel by done.
  change (channel c (set_k_locks [LChan c] s)) with (channel c s).
  destruct (Z.eqb_spec (c_closed (channel c s)).[d] 0) as [Ecl|Ecl]; cbn [negb].
  - rewrite wp_bind. eapply (wp_inv_set_channel c _ _ hold); [by apply inv_locks|done| |].
    { apply chan_ok_close. apply (inv_chans HI). }
    intros s2 HI2. rewrite wp_bind, wp_cap_unlock, wp_bind, wp_hook, wp_bind, wp_hook, wp_ret. unfold s2. kred.
    rewrite lock_drop_head by apply not_elem_of_nil. split.
    + by apply (kernel_ok_intro _ hold); [exact HI2|exact Hq|].
    + eapply close_done; [done|done|done|]. unfold upd_channel. destruct s. cbn in *. by rewrite Hl.
  - rewrite wp_bind, wp_cap_unlock, wp_ret. kred. rewrite unlock_id by done. split; [done|].
    by eapply close_again.
Qed.
