(* ===== verification/DevInv.v ===== *)
(** Port I/O and device memory (kernel/chan.c): port accesses stay inside the range
    of an I/O capability, and [k_dev_mmap] finds a free window above the identity
    map and maps exactly the pages of the capability into it. *)

From stdpp Require Import base gmap list list_numbers.
From Stdlib Require Import ZArith Lia Bool.
From S2P Require Import Prelude FramePool CapWord Sidecar CapState CapPools CapOps CapMsg CapRevoke Chan Wp.
From S2P Require Import HolderSpec CapInv ArenaSpec CapInvPools CapInvObj CapCreateInv CapChanInv CapMsgInv.
From S2P Require Import CapVecInv CapDropInv CapTeardownInv CapMapInv ChanInv.
#[local] Open Scope Z_scope.
#[local] Open Scope carr_scope.
#[local] Open Scope cap_scope.
#[local] Opaque Z.to_nat Z.div Z.modulo.

(** * Port I/O *)

(** The authority of a port access: a valid I/O word of the caller that carries
    [perm] and whose port count covers the access. *)
Record io_grant (pid sl perm index size : Z) (s : KState) (w : Z) : Prop := {
  ig_slot : ∃ ti, table_of (k_table_pid s) pid ti ∧ w = slot ti sl s;
  ig_valid : cap_word_valid w = true;
  ig_type : w_type w = CAP_TYPE_IO;
  ig_perm : Z.land (w_perm w) perm ≠ 0;
  ig_range : index + size ≤ w_len w
}.

Lemma io_resolve_spec pid sl perm index size s hold L U G port :
  Inv s hold L U G → 0 ≤ index < 2 ^ 16 → 0 ≤ size < 2 ^ 8 →
  io_resolve pid sl perm index size s = inl port →
  ∃ w, io_grant pid sl perm index size s w ∧ port = u16 (w_obj w + index).
Proof.
  intros HI Hi Hsz. unfold io_resolve. rewrite (chan_table_eq pid s (inv_pids HI)). cbv zeta. intros H.
  destruct (table_find_spec s pid (inv_pids HI)) as [(E & _)|Ht]; [by rewrite E in H|].
  set (ti := cap_table_find pid s) in *. clearbody ti.
  pass H E1. pass H E2. pass H E3. pass H E4. pass H E5. pass H E6. injection H as <-.
  exists (slot ti sl s). split; [|done]. split.
  - by exists ti.
  - rewrite <-chan_word_valid_eq. by apply negb_false_iff.
  - by apply Z.eqb_eq, negb_false_iff.
  - by apply Z.eqb_neq.
  - unfold u32 in E6. rewrite Z.mod_small in E6 by lia. lia.
Qed.

Lemma io_refusal pid sl perm index size s e : io_resolve pid sl perm index size s = inr e → e ≠ CAP_ERR_OK.
Proof.
  unfold io_resolve. cbv zeta. intros E ->. repeat (case_match; [discriminate|]). discriminate.
Qed.

Section Io.
Context `{!CapEnv}.

(** A read touches a port only under an I/O capability with the R right that covers
    the whole access; otherwise nothing happens. *)
Lemma io_in_ok pid sl index size s :
  kernel_ok s → 0 ≤ index < 2 ^ 16 → 0 ≤ size < 2 ^ 8 →
  wp (k_io_in pid sl index size) (λ r s', kernel_ok s' ∧
    (fst r ≠ CAP_ERR_OK ∧ snd r = None ∧ s' = s ∨
     fst r = CAP_ERR_OK ∧ ∃ w, io_grant pid sl CAP_PERM_R index size s w ∧
       s' = set_k_trace (HIoRead (u16 (w_obj w + index)) size :: k_trace s) s)) s.
Proof.
  intros Hs Hi Hsz. pose proof Hs as (hold & HI & Hq & Hl)%kernel_ok_inv. unfold k_io_in.
  destruct (negb (io_size_ok size)); [rewrite wp_ret; by split; [|left]|]. rewrite wp_bind, wp_gets.
  destruct (io_resolve _ _ _ _ _ s) as [port|e] eqn:E.
  - destruct (io_resolve_spec _ _ _ _ _ _ _ _ _ _ _ HI Hi Hsz E) as (w & Hg & ->).
    unfold cap_io_read. rewrite wp_bind, wp_bind, wp_gets, wp_bind, wp_hook, !wp_ret. split; [done|]. right. eauto.
  - rewrite wp_ret. split; [done|]. left. split; [|done]. by eapply io_refusal.
Qed.

Lemma io_out_ok pid sl index size val s :
  kernel_ok s → 0 ≤ index < 2 ^ 16 → 0 ≤ size < 2 ^ 8 →
  wp (k_io_out pid sl index size val) (λ r s', kernel_ok s' ∧
    (r ≠ CAP_ERR_OK ∧ s' = s ∨
     r = CAP_ERR_OK ∧ ∃ w, io_grant pid sl CAP_PERM_W index size s w ∧
       s' = set_k_trace (HIoWrite (u16 (w_obj w + index)) size val :: k_trace s) s)) s.
Proof.
  intros Hs Hi Hsz. pose proof Hs as (hold & HI & Hq & Hl)%kernel_ok_inv. unfold k_io_out.
  destruct (negb (io_size_ok size)); [rewrite wp_ret; by split; [|left]|]. rewrite wp_bind, wp_gets.
  destruct (io_resolve _ _ _ _ _ s) as [port|e] eqn:E.
  - destruct (io_resolve_spec _ _ _ _ _ _ _ _ _ _ _ HI Hi Hsz E) as (w & Hg & ->).
    rewrite wp_bind, wp_hook, wp_ret. split; [done|]. right. eauto.
  - rewrite wp_ret. split; [done|]. left. split; [|done]. by eapply io_refusal.
Qed.

End Io.

(** * The window scan *)

Lemma pigeonhole n m (f : Z → Z) :
  0 ≤ n → 0 ≤ m → (∀ j, 0 ≤ j < n → 0 ≤ f j < m) →
  (∀ i j, 0 ≤ i < n → 0 ≤ j < n → f i = f j → i = j) → n ≤ m.
Proof.
  intros Hn Hm Hr Hinj.
  assert (length (f <$> seqZ 0 n) ≤ length (seqZ 0 m))%nat as H.
  { apply submseteq_length, NoDup_submseteq.
    - apply NoDup_fmap_2_strong; [|apply NoDup_seqZ]. intros x y Hx Hy. rewrite !elem_of_seqZ in *. apply Hinj; lia.
    - intros x (j & -> & Hj)%list_elem_of_fmap. rewrite elem_of_seqZ in *. specialize (Hr j). lia. }
  rewrite length_fmap, !length_seqZ in H. lia.
Qed.

(** A record the window at [v] runs into. *)
Definition blocks (t : CapTable) (len v i : Z) : Prop :=
  0 ≤ i < CAP_MAP_MAX ∧ map_live (t_maps t).[i] ∧
  v < map_end (t_maps t).[i] ∧ mp_vaddr (t_maps t).[i] < v + len * 4096.

(** The records of a table lie in the user half. *)
Definition user_maps (t : CapTable) : Prop :=
  ∀ i, 0 ≤ i < CAP_MAP_MAX → map_live (t_maps t).[i] →
    0 ≤ mp_vaddr (t_maps t).[i] ∧ 0 ≤ mp_npages (t_maps t).[i] < 4096 ∧ map_end (t_maps t).[i] ≤ 2 ^ 47.

Lemma dev_overlap_spec t v len :
  user_maps t → 0 ≤ v → 0 ≤ len < 4096 → v + len * 4096 < 2 ^ 64 →
  if dev_mmaps_overlap t v len then ∃ i, blocks t len v i else ∀ i, ¬ blocks t len v i.
Proof.
  intros Hu Hv Hlen Hend. unfold dev_mmaps_overlap. destruct (find_up _ _ _) as [i|] eqn:E.
  - apply find_up_Some in E as (Hi & Hm & _). rewrite Z2Nat.id in Hi by done. exists i. unfold dev_map_meets in Hm.
    assert (map_live (t_maps t).[i]) as Hlive by (unfold map_live; lia).
    destruct (Hu i Hi Hlive) as (A & B & D). split; [done|]. split; [done|].
    change (mp_vaddr (t_maps t).[i] + mp_npages (t_maps t).[i] * 4096) with (map_end (t_maps t).[i]) in Hm.
    assert (0 ≤ map_end (t_maps t).[i]) by (unfold map_end; lia).
    rewrite !u64_small in Hm by lia. lia.
  - intros i (Hi & Hlive & H1 & H2). destruct (Hu i Hi Hlive) as (A & B & D).
    pose proof (proj1 (find_up_None _ _ _) E i ltac:(rewrite Z2Nat.id by done; lia)) as Hm. unfold dev_map_meets in Hm.
    change (mp_vaddr (t_maps t).[i] + mp_npages (t_maps t).[i] * 4096) with (map_end (t_maps t).[i]) in Hm.
    assert (0 ≤ map_end (t_maps t).[i]) by (unfold map_end; lia). unfold map_live in Hlive.
    rewrite !u64_small in Hm by lia. lia.
Qed.

(** The scan stops at a window that meets no record, or runs out of fuel over
    blocked windows. *)
Lemma dev_scan_spec fuel t len v :
  match dev_scan fuel t len v with
  | Some v' => ∃ j, 0 ≤ j < Z.of_nat fuel ∧ v' = v + j * 4096 ∧
      (DEV_MMAP_USER_LIMIT ≤ v' ∨ dev_mmaps_overlap t v' len = false)
  | None => ∀ j, 0 ≤ j < Z.of_nat fuel → dev_mmaps_overlap t (v + j * 4096) len = true
  end.
Proof.
  revert v. induction fuel as [|n IH]; intros v; cbn [dev_scan]; [intros; lia|].
  destruct (Z.leb_spec DEV_MMAP_USER_LIMIT v); [exists 0; split_and!; [lia|lia|lia|by left]|].
  destruct (dev_mmaps_overlap t v len) eqn:E; [|exists 0; split_and!; [lia|lia|lia|by right]].
  specialize (IH (v + 0x1000)). destruct (dev_scan n t len (v + 0x1000)) as [v'|].
  - destruct IH as (j & Hj & -> & Hd). exists (j + 1). split; [lia|]. split; [lia|done].
  - intros j Hj. destruct (Z.eqb_spec j 0) as [->|]; [by rewrite Z.mul_0_l, Z.add_0_r|].
    replace (v + j * 4096) with (v + 0x1000 + (j - 1) * 4096) by lia. apply IH. lia.
Qed.

(** At most 64 * 8190 consecutive windows are blocked. *)
Lemma blocked_bound t len v n :
  user_maps t → 0 ≤ len < 4096 → 0 ≤ n → (∀ j, 0 ≤ j < n → ∃ i, blocks t len (v + j * 4096) i) →
  n ≤ CAP_MAP_MAX * 8190.
Proof.
  intros Hu Hlen Hn Hb.
  set (hit := λ j, default 0 (find_up (Z.to_nat CAP_MAP_MAX) 0
    (λ i, bool_decide (map_live (t_maps t).[i] ∧ v + j * 4096 < map_end (t_maps t).[i] ∧
                       mp_vaddr (t_maps t).[i] < v + j * 4096 + len * 4096)))).
  assert (∀ j, 0 ≤ j < n → blocks t len (v + j * 4096) (hit j)) as Hhit.
  { intros j Hj. unfold hit. destruct (find_up _ _ _) as [i|] eqn:E; cbn [default].
    - apply find_up_Some in E as (Hi & Hm%bool_decide_eq_true & _). rewrite Z2Nat.id in Hi by done. by split.
    - destruct (Hb j Hj) as (i & Hi & Hi2). exfalso.
      pose proof (proj1 (find_up_None _ _ _) E i ltac:(rewrite Z2Nat.id by done; lia)) as Hm.
      by apply bool_decide_eq_false in Hm. }
  set (low := λ i, (mp_vaddr (t_maps t).[i] - v) / 4096 - len + 1).
  assert (∀ j, 0 ≤ j < n → 0 ≤ j - low (hit j) < 8190) as Hk.
  { intros j Hj. destruct (Hhit j Hj) as (Hi & Hlive & H1 & H2). destruct (Hu _ Hi Hlive) as (_ & B & _).
    unfold low, map_end in *. set (a := mp_vaddr _) in *. set (p := mp_npages _) in *.
    pose proof (Z.div_mod (a - v) 4096 ltac:(done)). pose proof (Z.mod_pos_bound (a - v) 4096 ltac:(done)). lia. }
  apply (pigeonhole n _ (λ j, hit j * 8190 + (j - low (hit j)))); [done|done|..].
  - intros j Hj. specialize (Hk j Hj). destruct (Hhit j Hj) as (Hi & _). unfold CAP_MAP_MAX in *. lia.
  - intros i j Hi Hj E. pose proof (Hk i Hi). pose proof (Hk j Hj).
    assert (hit i = hit j) as Eh by lia. rewrite Eh in E. lia.
Qed.

(** A window for [len] pages: page aligned, above the identity map, in the user
    half, and clear of every record of the table. *)
Record free_window (t : CapTable) (len v : Z) : Prop := {
  fw_low : DEV_MMAP_WINDOW_BASE ≤ v;
  fw_high : v + len * 4096 ≤ DEV_MMAP_USER_LIMIT;
  fw_align : v mod 4096 = 0;
  fw_clear : ∀ i, ¬ blocks t len v i
}.

(** A hint whose end does not wrap around. *)
Definition hint_ok (hint : Z) : Prop := 0 ≤ hint ≤ 2 ^ 64 - 2 ^ 24.


Lemma wp_dev_window t len hint s (Q : Z → KState → Prop) :
  user_maps t → 0 ≤ len < 4096 → hint_ok hint →
  (∀ v, free_window t len v → Q v s) → wp (dev_window t len hint) Q s.
Proof.
  intros Hu Hlen Hh HQ. unfold dev_window, hint_ok in *. destruct (hint_usable t len hint) eqn:E.
  - unfold hint_usable in E. apply andb_true_iff in E as [E E4%negb_true_iff].
    apply andb_true_iff in E as [E E3%Z.leb_le]. apply andb_true_iff in E as [E1%Z.leb_le E2%Z.eqb_eq].
    rewrite u64_small in E3 by (unfold DEV_MMAP_WINDOW_BASE in *; lia). rewrite wp_ret. apply HQ. split; try done.
    + by rewrite <-land_page.
    + pose proof (dev_overlap_spec t hint len Hu) as Ho. rewrite E4 in Ho. apply Ho; lia.
  - pose proof (dev_scan_spec dev_scan_fuel t len DEV_MMAP_WINDOW_BASE) as Hsc.
    assert (Z.of_nat dev_scan_fuel = CAP_MAP_MAX * 8192) as Ef by (unfold dev_scan_fuel; by rewrite Z2Nat.id).
    rewrite Ef in Hsc. clear E Ef. destruct (dev_scan _ _ _ _) as [v|].
    + destruct Hsc as (j & Hj & -> & Hd). rewrite wp_ret. apply HQ.
      unfold CAP_MAP_MAX, DEV_MMAP_WINDOW_BASE, DEV_MMAP_USER_LIMIT in *. destruct Hd as [|Hd]; [lia|]. split; try done.
      * unfold DEV_MMAP_WINDOW_BASE. lia.
      * unfold DEV_MMAP_USER_LIMIT. lia.
      * rewrite Z.mod_add by done. done.
      * pose proof (dev_overlap_spec t (0x100000000 + j * 4096) len Hu) as Ho. rewrite Hd in Ho. apply Ho; lia.
    + exfalso. assert (CAP_MAP_MAX * 8192 ≤ CAP_MAP_MAX * 8190) as H; [|unfold CAP_MAP_MAX in H; lia].
      apply (blocked_bound t len DEV_MMAP_WINDOW_BASE); [done|done|done|]. intros j Hj.
      pose proof (dev_overlap_spec t (DEV_MMAP_WINDOW_BASE + j * 4096) len Hu) as Ho. rewrite (Hsc j Hj) in Ho.
      unfold CAP_MAP_MAX, DEV_MMAP_WINDOW_BASE in *. apply Ho; lia.
Qed.

(** * k_dev_mmap *)

(** The authority of a device mapping. *)
Record dev_grant (pid sl : Z) (s : KState) (ti : Z) : Prop := {
  dg_table : table_of (k_table_pid s) pid ti;
  dg_slot : 0 ≤ sl < CAP_TABLE_ENTRIES;
  dg_valid : cap_word_valid (slot ti sl s) = true;
  dg_type : w_type (slot ti sl s) = CAP_TYPE_DEV;
  dg_rights : Z.land (w_perm (slot ti sl s)) (Z.lor CAP_PERM_R CAP_PERM_W) ≠ 0;
  dg_object : let ob := object (w_obj (slot ti sl s)) s in o_active ob = 1 ∧ o_kind ob = CAP_OBJ_KIND_DEV;
  dg_len : 0 < w_len (slot ti sl s) < 4096;
  dg_within : w_off (slot ti sl s) + w_len (slot ti sl s) * 4096 ≤ u64 (o_npages (object (w_obj (slot ti sl s)) s) * 4096)
}.

Lemma dev_resolve_spec pid sl s hold L U G ti w :
  Inv s hold L U G → 0 ≤ sl → dev_resolve pid sl s = inl (ti, w) → w = slot ti sl s ∧ dev_grant pid sl s ti.
Proof.
  intros HI Hsl. unfold dev_resolve. rewrite (chan_table_eq pid s (inv_pids HI)). cbv zeta. intros H.
  destruct (table_find_spec s pid (inv_pids HI)) as [(E & _)|Ht]; [by rewrite E in H|].
  set (tj := cap_table_find pid s) in *. clearbody tj.
  pass H E1. pass H E2. pass H E3. pass H E4. pass H E5. pass H E6. pass H E7. pass H E8. pass H E9.
  injection H as <- <-. split; [done|]. apply orb_false_iff in E7 as [E7a E7b%negb_false_iff%Z.eqb_eq].
  pose proof (w_len_range (slot tj sl s)) as Hlen. split; try done.
  - lia.
  - rewrite <-chan_word_valid_eq. by apply negb_false_iff.
  - by apply Z.eqb_eq, negb_false_iff.
  - by apply Z.eqb_neq.
  - split; [|done]. destruct (oo_active _ _ _ (inv_objs HI) (w_obj (slot tj sl s))) as [E|]; [|done].
    unfold object in E7a. by rewrite E in E7a.
  - lia.
  - lia.
Qed.

(** The window a device mapping went to: the record an earlier call left, or a free
    window whose pages were mapped, in order, to the pages of the capability. *)
Inductive dev_outcome `{!CapEnv} (pid sl flags : Z) (s : KState) (r : Z * Z) (s' : KState) : Prop :=
| dev_refused : fst r ≠ CAP_ERR_OK → k_trace s' = k_trace s → dev_outcome pid sl flags s r s'
| dev_undone ti v k : dev_grant pid sl s ti → fst r ≠ CAP_ERR_OK → 0 ≤ k < w_len (slot ti sl s) →
    let cr3 := cap_proc_cr3 pid in
    let pa := u64 (o_phys_base (object (w_obj (slot ti sl s)) s) + w_off (slot ti sl s)) in
    calls_accepted cr3 v pa k (dev_map_perms (w_perm (slot ti sl s)) flags) (k_trace s) →
    call_result cr3 v pa (dev_map_perms (w_perm (slot ti sl s)) flags) (k_trace s) k < 0 →
    k_trace s' = HTlbFlush :: unmap_calls cr3 v k ++
      map_calls cr3 v pa (k + 1) (dev_map_perms (w_perm (slot ti sl s)) flags) ++ k_trace s →
    dev_outcome pid sl flags s r s'
| dev_again ti i : dev_grant pid sl s ti → 0 ≤ i < CAP_MAP_MAX → map_live (t_maps (table ti s)).[i] →
    mp_obj_id (t_maps (table ti s)).[i] = w_obj (slot ti sl s) →
    r = (CAP_ERR_OK, mp_vaddr (t_maps (table ti s)).[i]) → s' = s → dev_outcome pid sl flags s r s'
| dev_mapped ti v : dev_grant pid sl s ti → free_window (table ti s) (w_len (slot ti sl s)) v →
    let w := slot ti sl s in
    let pa := u64 (o_phys_base (object (w_obj w) s) + w_off w) in
    calls_accepted (cap_proc_cr3 pid) v pa (w_len w) (dev_map_perms (w_perm w) flags) (k_trace s) →
    k_trace s' = HTlbFlush :: map_calls (cap_proc_cr3 pid) v pa (w_len w) (dev_map_perms (w_perm w) flags) ++ k_trace s →
    r = (CAP_ERR_SPACE, CAP_NONE) ∨
    r = (CAP_ERR_OK, v) ∧ (∃ i, 0 ≤ i < CAP_MAP_MAX ∧ ¬ map_live (t_maps (table ti s)).[i] ∧
      (t_maps (table ti s')).[i] = mkMap (w_obj w) sl (w_len w) v 1) →
    dev_outcome pid sl flags s r s'.

Section DevMmap.
Context `{!CapEnv}.

Lemma dev_mmap_ok pid sl flags hint s :
  kernel_ok s → 0 ≤ sl → hint_ok hint →
  wp (k_dev_mmap pid sl flags hint) (λ r s', kernel_ok s' ∧ dev_outcome pid sl flags s r s') s.
Proof.
  intros Hs Hsl Hh. pose proof Hs as (hold & HI & Hq & Hl)%kernel_ok_inv. unfold k_dev_mmap.
  destruct (negb _); [rewrite wp_ret; split; [done|by apply dev_refused]|]. rewrite wp_bind, wp_gets.
  destruct (dev_resolve pid sl s) as [[ti w]|e] eqn:E.
  2: { rewrite wp_ret. split; [done|]. apply dev_refused; [|done]. cbn. intros ->. unfold dev_resolve in E.
       cbv zeta in E. repeat (case_match; [discriminate|]). discriminate. }
  destruct (dev_resolve_spec _ _ _ _ _ _ _ _ _ HI Hsl E) as [-> HG]. clear E.
  pose proof (dg_len _ _ _ _ HG) as Hlen. cbv zeta. rewrite wp_bind, wp_gets.
  destruct (find_up _ _ _) as [i|] eqn:Ef.
  { apply find_up_Some in Ef as (Hi & Hm & _). rewrite Z2Nat.id in Hi by done. apply andb_true_iff in Hm as [Hm Ho%Z.eqb_eq].
    rewrite wp_ret. split; [done|]. apply (dev_again _ _ _ _ _ _ ti i); try done. unfold map_live. lia. }
  assert (user_maps (table ti s)) as Hu by (intros i Hi Hm; by apply (mr_range _ (inv_maps HI))).
  clear Ef. rewrite wp_bind. apply wp_dev_window; [done|lia|done|]. intros v Hv.
  destruct (Z.eqb_spec (cap_proc_cr3 pid) 0); [rewrite wp_ret; split; [done|by apply dev_refused]|].
  rewrite wp_bind, wp_get_object, wp_bind. apply wp_map_pages; [lia| |].
  2: { intros k r Hk Hr Hacc Er. rewrite wp_ret. split; [exact Hs|]. eapply dev_undone; [done|done|done|done| |done]. by rewrite <-Er. }
  intros Hacc. rewrite wp_bind, wp_hook, wp_bind, wp_gets. kred. set (s1 := set_k_trace _ _).
  change (t_maps (table ti s1)) with (t_maps (table ti s)). destruct (find_up _ _ _) as [i|] eqn:Ei.
  2: { rewrite wp_ret. split; [exact Hs|]. eapply dev_mapped; [done|done|done|done|by left]. }
  apply find_up_Some in Ei as (Hi & Hi2%Z.eqb_eq & _). rewrite Z2Nat.id in Hi by done.
  rewrite wp_bind, wp_modify, wp_ret.
  assert (maps_only s (upd_map ti i (λ _, mkMap (w_obj (slot ti sl s)) sl (u16 (w_len (slot ti sl s))) v 1) s1)) as M.
  { apply (maps_only_trans _ s1); [apply (maps_only_trace (k_trace s1) s)|]. apply maps_only_upd. intros Hmo.
    pose proof (fw_high _ _ _ Hv) as Hhi. pose proof (fw_low _ _ _ Hv) as Hlo.
    unfold DEV_MMAP_USER_LIMIT, DEV_MMAP_WINDOW_BASE in *. apply maps_ok_record; try done; try lia.
    intros j Hj Hm Ho He. pose proof (fw_clear _ _ _ Hv j) as Hb. unfold blocks in Hb.
    change (table ti s1) with (table ti s) in *.
    destruct (Z.le_gt_cases (map_end (t_maps (table ti s)).[j]) v); [by left|]. right.
    apply Z.nlt_ge. intros Hlt. by apply Hb. }
  split.
  - apply (kernel_ok_intro _ hold); [by eapply maps_only_inv|by eapply maps_only_quiet|].
    by rewrite (maps_only_locks _ _ M).
  - eapply dev_mapped; [done|done|done|done|]. right. split; [done|]. exists i. split; [lia|]. split.
    + unfold map_live. rewrite Hi2. by intros [].
    + unfold table at 1. rewrite upd_map_get, !Z.eqb_refl. cbn. by rewrite u16_small by lia.
Qed.

End DevMmap.
