(* ===== verification/IrqInv.v ===== *)
(** Interrupt delivery keeps the invariant (kernel/cap.c): the latch, the drain that
    turns latched edges into channel messages, binding, unbinding and masking a
    vector, and the minting of device capabilities. *)

From stdpp Require Import base gmap list list_numbers.
From Stdlib Require Import ZArith Lia Bool.
From S2P Require Import Prelude FramePool CapWord Sidecar CapState CapPools CapOps CapMsg CapRevoke Chan Irq Wp.
From S2P Require Import HolderSpec CapInv ArenaSpec CapInvPools CapInvObj CapCreateInv CapChanInv CapMsgInv.
From S2P Require Import CapVecInv CapDropInv CapTeardownInv CapMapInv CapRevokeInv ChanInv.
#[local] Open Scope Z_scope.
#[local] Open Scope carr_scope.
#[local] Open Scope cap_scope.
#[local] Opaque Z.to_nat Z.div Z.modulo.

(** * The latch *)

Lemma irq_bit_pow v : irq_bit v = 2 ^ (v mod 32).
Proof.
  unfold irq_bit. change 31 with (Z.ones 5). rewrite Z.land_ones, Z.shiftl_1_l by done. change (2 ^ 5) with 32.
  pose proof (Z.mod_pos_bound v 32 ltac:(done)). apply u32_small. split; [lia|]. apply Z.pow_lt_mono_r; lia.
Qed.

Lemma irq_latched_bit v s : irq_latched v s = Z.testbit (k_irq_pending s).[v / 32] (v mod 32).
Proof.
  unfold irq_latched. rewrite irq_bit_pow, Z.shiftr_div_pow2 by done. rewrite <- (Z.shiftl_1_l (v mod 32)).
  rewrite land_bit_testbit by (by apply Z.mod_pos_bound). apply negb_involutive.
Qed.

Lemma same_irq v u : v / 32 = u / 32 → v mod 32 = u mod 32 → v = u.
Proof. intros. rewrite (Z.div_mod v 32), (Z.div_mod u 32) by done. congruence. Qed.

(** The handler's latch sets the vector's bit and no other. *)
Lemma irq_latch_spec v u s : irq_latched u (irq_latch v s) = (v =? u) || irq_latched u s.
Proof.
  rewrite !irq_latched_bit. unfold irq_latch. kred. rewrite irq_bit_pow, Z.shiftr_div_pow2 by done.
  change (2 ^ 5) with 32. rewrite aget_upd. pose proof (Z.mod_pos_bound v 32 ltac:(done)).
  pose proof (Z.mod_pos_bound u 32 ltac:(done)). destruct (Z.eqb_spec (v / 32) (u / 32)) as [E|E].
  - rewrite Z.lor_spec, Z.pow2_bits_eqb, E by lia. destruct (Z.eqb_spec (v mod 32) (u mod 32)) as [E2|E2].
    + rewrite (same_irq v u E E2), Z.eqb_refl. by rewrite orb_true_r.
    + destruct (Z.eqb_spec v u) as [->|]; [done|]. apply orb_false_r.
  - destruct (Z.eqb_spec v u) as [->|]; done.
Qed.

Lemma irq_unlatch_spec v u s : irq_latched u (irq_unlatch v s) = negb (v =? u) && irq_latched u s.
Proof.
  rewrite !irq_latched_bit. unfold irq_unlatch. kred. rewrite irq_bit_pow, Z.shiftr_div_pow2 by done.
  change (2 ^ 5) with 32. rewrite aget_upd. pose proof (Z.mod_pos_bound v 32 ltac:(done)).
  pose proof (Z.mod_pos_bound u 32 ltac:(done)). destruct (Z.eqb_spec (v / 32) (u / 32)) as [E|E].
  - unfold u32_not. rewrite Z.land_spec, Z.lxor_spec, Z.pow2_bits_eqb, E by lia.
    change (2 ^ 32 - 1) with (Z.ones 32). rewrite Z.ones_spec_low by lia.
    destruct (Z.eqb_spec (v mod 32) (u mod 32)) as [E2|E2].
    + rewrite (same_irq v u E E2), Z.eqb_refl. by rewrite andb_false_r.
    + destruct (Z.eqb_spec v u) as [->|]; [done|]. by rewrite andb_true_r.
  - destruct (Z.eqb_spec v u) as [->|]; done.
Qed.

Lemma irq_notify_ok v s : kernel_ok s →
  wp (cap_irq_notify v) (λ _ s', kernel_ok s' ∧
    (v < CAP_IRQ_VECTORS → ∀ u, irq_latched u s' = (v =? u) || irq_latched u s) ∧
    k_channels s' = k_channels s) s.
Proof.
  intros Hs. unfold cap_irq_notify. destruct (Z.leb_spec CAP_IRQ_VECTORS v); [rewrite wp_hook; split; [done|]; split; [lia|done]|].
  rewrite wp_bind. destruct (_ <=? v); rewrite ?wp_hook, ?wp_ret, wp_bind, wp_modify, wp_hook;
    (split; [exact Hs|]); (split; [|done]); intros _ u; apply (irq_latch_spec v u s).
Qed.

(** * Delivery *)

Lemma msg_ok_irq v p m : msg_ok m → 0 ≤ p < CAP_MSG_PAYLOAD_POOL → msg_ok (irq_message v p m).
Proof.
  intros Hm Hp. apply msg_ok_zero in Hm. unfold irq_message. revert Hm. generalize (zero_caps m).
  clear m. intros m [H1 H2 H3 H4 H5]. split; cbn; [done|exact H2|exact H3|lia|lia].
Qed.

(** What delivering an edge may change: the ring its vector is bound to, by one
    message carrying the vector, within the budget; the payload pool; the trace. *)
Record irq_step (v : Z) (s s' : KState) : Prop := {
  is_pending : k_irq_pending s' = k_irq_pending s;
  is_chan : k_irq_chan s' = k_irq_chan s;
  is_budget : k_irq_budget s' = k_irq_budget s;
  is_others : ∀ c, c ≠ (k_irq_chan s).[v] → channel c s' = channel c s;
  is_one : ∀ c, c = (k_irq_chan s).[v] → channel c s' = channel c s ∨
    let b := (k_irq_budget s).[v] in
    (c_qdepth (channel c s)).[0] < (if b =? 0 then CHAN_QUEUE_DEPTH else b) ∧
    c_active (channel c s) ≠ 0 ∧
    ∃ p q, channel c s' = enqueue 0 (set_c_q q (channel c s)) ∧
      q.[0].[(c_qtail (channel c s)).[0] mod CHAN_QUEUE_DEPTH] = irq_message v p (c_q (channel c s)).[0].[(c_qtail (channel c s)).[0] mod CHAN_QUEUE_DEPTH]
}.

Lemma irq_step_refl v s : irq_step v s s.
Proof. split; try done. by left. Qed.

Lemma wp_irq_notify_locked v s (Q : unit → KState → Prop) :
  kernel_ok s → 0 ≤ v < CAP_IRQ_VECTORS →
  (∀ s', kernel_ok s' → irq_step v s s' → Q tt s') → wp (cap_irq_notify_locked v) Q s.
Proof.
  intros Hs Hv HQ. pose proof Hs as (hold & HI & Hq & Hl)%kernel_ok_inv. unfold cap_irq_notify_locked.
  assert (Q tt s) as Hsame by (apply HQ; [done|apply irq_step_refl]).
  rewrite wp_bind, wp_gets. set (c := (k_irq_chan s).[v]).
  destruct (Z.eqb_spec c CAP_NONE) as [|Hne]; [by rewrite wp_ret|].
  destruct (irq_chan_range _ _ _ _ _ v (inv_irqs HI) (inv_objs HI) Hv) as [|Hc]; [done|]. fold c in Hc.
  rewrite wp_bind, wp_get_channel by done.
  destruct (Z.eqb_spec (c_active (channel c s)) 0) as [|Ha]; [by rewrite wp_ret|].
  rewrite wp_bind, wp_gets. set (b := if _ =? 0 then _ else _).
  assert (b ≤ CHAN_QUEUE_DEPTH) as Hbd by (unfold b; destruct (_ =? 0); [done|by apply (iq_budget _ _ _ _ (inv_irqs HI))]).
  rewrite wp_bind, wp_cap_lock by (rewrite Hl; apply not_elem_of_nil). rewrite Hl, wp_bind, wp_get_channel by done.
  change (channel c (set_k_locks [LChan c] s)) with (channel c s).
  destruct (Z.leb_spec b (c_qdepth (channel c s)).[0]) as [|Hroom];
    [cbn [orb]; rewrite wp_cap_unlock; kred; by rewrite unlock_id|].
  destruct (Z.eqb_spec (c_active (channel c s)) 0) as [|_]; [done|]. cbn [orb]. rewrite wp_bind.
  eapply wp_payload_alloc; [by apply inv_locks|rewrite wp_cap_unlock; kred; by rewrite unlock_id|].
  intros p f s1 Hp HI1. rewrite wp_bind, wp_modify, wp_bind. set (s2 := set_k_payload _ s1).
  set (e := _ mod _).
  unfold set_message. rewrite wp_bind, wp_in_bounds, wp_modify by done. set (s3 := upd_message _ _ _ _ s2).
  assert (Inv s3 hold [] [] []) as HI3.
  { apply (inv_set_channels s2); [exact HI1|]. apply chans_ok_upd; [exact (inv_chans HI)|].
    destruct (inv_chans HI c) as [H1 H2]. split; [exact H1|]. intros d x. cbn. rewrite !aget_upd.
    destruct (0 =? d); [|apply H2]. rewrite aget_upd. destruct (e =? x); [|apply H2]. by apply msg_ok_irq. }
  assert (channel c s3 = set_c_q (c_q (channel c s)).[0 <- (c_q (channel c s)).[0].[e <- irq_message v p (c_q (channel c s)).[0].[e]]] (channel c s)) as E3
    by apply aget_upd_eq.
  assert (∀ x, x ≠ c → channel x s3 = channel x s) as E3' by (intros; by apply aget_upd_ne).
  assert (k_locks s3 = [LChan c]) as Hl3 by done. assert (quiet s3) as Hq3 by exact Hq.
  assert (k_irq_pending s3 = k_irq_pending s ∧ k_irq_chan s3 = k_irq_chan s ∧ k_irq_budget s3 = k_irq_budget s) as E3'' by done.
  clearbody s3. clear s1 s2 HI1. rewrite wp_bind. unfold set_channel. rewrite wp_bind, wp_in_bounds, wp_modify by done.
  set (s4 := upd_channel _ _ s3). rewrite wp_bind, wp_cap_unlock, wp_hook.
  assert (channel c s4 = enqueue 0 (channel c s3)) as E4 by apply aget_upd_eq.
  assert (∀ x, x ≠ c → channel x s4 = channel x s3) as E4' by (intros; by apply aget_upd_ne).
  apply HQ.
  - apply (kernel_ok_intro _ hold); [|exact Hq3|unfold s4; kred; rewrite Hl3; by apply lock_drop_head, not_elem_of_nil].
    apply (inv_set_channels s3); [exact HI3|]. apply chans_ok_upd; [exact (inv_chans HI3)|].
    apply chan_ok_enqueue; [exact (inv_chans HI3 c)|]. rewrite E3. cbn. lia.
  - split; try apply E3''.
    + intros x Hx. change (channel x s4 = channel x s). by rewrite E4', E3'.
    + intros x ->. right. split; [exact Hroom|]. split; [exact Ha|]. exists p. fold c.
      eexists. change (channel c (set_k_trace _ _)) with (channel c s4). rewrite E4, E3. split; [done|].
      fold e. by rewrite !aget_upd_eq.
Qed.

Lemma unlatch_ok v s : kernel_ok s → kernel_ok (irq_unlatch v s).
Proof. done. Qed.

(** Draining delivers every latched vector and leaves none latched. *)
Lemma wp_irq_drain s (Q : unit → KState → Prop) :
  kernel_ok s →
  (∀ s', kernel_ok s' → k_irq_chan s' = k_irq_chan s → k_irq_draining s' = k_irq_draining s →
     (k_irq_draining s = 0 → ∀ v, 0 ≤ v < CAP_IRQ_VECTORS → irq_latched v s' = false) →
     (∀ c, (∀ v, 0 ≤ v < CAP_IRQ_VECTORS → (k_irq_chan s).[v] = c → irq_latched v s = false) →
        channel c s' = channel c s) → Q tt s') →
  wp cap_irq_drain_pending Q s.
Proof.
  intros Hs HQ. unfold cap_irq_drain_pending. rewrite wp_bind, wp_gets.
  destruct (Z.eqb_spec (k_irq_draining s) 0) as [E0|E0]; cbn [negb]; [|rewrite wp_ret; by apply HQ].
  rewrite wp_bind, wp_modify, wp_bind. set (s0 := set_k_irq_draining 1 s).
  apply (wp_for_each (λ j _ s', kernel_ok s' ∧ k_irq_chan s' = k_irq_chan s ∧
    (∀ v, 0 ≤ v < CAP_IRQ_VECTORS → irq_latched v s' = (j <=? v) && irq_latched v s) ∧
    (∀ c, (∀ v, 0 ≤ v < CAP_IRQ_VECTORS → (k_irq_chan s).[v] = c → irq_latched v s = false) →
       channel c s' = channel c s))).
  - split; [done|]. split; [done|]. split; [|done]. intros v Hv. by replace (0 <=? v) with true by lia.
  - intros j [] s1 Hj (Hs1 & Ec & Hlat & Hch). rewrite Z2Nat.id in Hj by done. rewrite wp_bind, wp_gets.
    pose proof (Hlat j Hj) as Hlj. rewrite Z.leb_refl in Hlj. cbn [andb] in Hlj. rewrite Hlj.
    destruct (irq_latched j s) eqn:Ej; cbn [negb].
    + rewrite wp_bind, wp_modify. apply wp_irq_notify_locked; [by apply unlatch_ok|lia|].
      intros s2 Hs2 [I1 I2 I3 I4 I5]. split; [done|]. split; [by rewrite I2|]. split.
      * intros v Hv. rewrite irq_latched_bit, I1, <-irq_latched_bit, irq_unlatch_spec, Hlat by done.
        destruct (Z.eqb_spec j v) as [<-|Hne]; cbn; [by replace (j + 1 <=? j) with false by lia|].
        by replace (j + 1 <=? v) with (j <=? v) by lia.
      * intros c Hc. rewrite I4; [by apply Hch|]. intros ->.
        change (k_irq_chan (irq_unlatch j s1)) with (k_irq_chan s1) in Hc. rewrite Ec in Hc.
        by rewrite (Hc j) in Ej by (lia || done).
    + rewrite wp_ret. split; [done|]. split; [done|]. split; [|done]. intros v Hv. rewrite Hlat by done.
      destruct (Z.eqb_spec j v) as [<-|Hne]; [by rewrite Ej, !andb_false_r|].
      by replace (j + 1 <=? v) with (j <=? v) by lia.
  - intros [] s1 (Hs1 & Ec & Hlat & Hch). rewrite wp_modify. apply HQ; try done.
    intros _ v Hv. change (irq_latched v s1 = false). rewrite Hlat by done. rewrite Z2Nat.id by done.
    by replace (0 + CAP_IRQ_VECTORS <=? v) with false by lia.
Qed.

(** * Unbinding and masking *)

Lemma irq_resolve_spec ti chan_r s hold L U G c v :
  Inv s hold L U G → irq_resolve ti chan_r s = inl (c, v) →
  0 ≤ c < CAP_CHAN_MAX ∧ 0 ≤ v < CAP_IRQ_VECTORS ∧ (k_irq_chan s).[v] = c ∧ chan_r < CAP_TABLE_ENTRIES.
Proof.
  intros HI H. unfold irq_resolve in H. cbv zeta in H. pass H E1. pass H E2. pass H E3. pass H E4. pass H E5. pass H E6.
  destruct (find_up _ _ _) as [u|] eqn:Ef; [|done]. injection H as <- <-.
  apply find_up_Some in Ef as (Hu & Ev%Z.eqb_eq & _). rewrite Z2Nat.id in Hu by done.
  apply orb_false_iff in E5 as [E5a E5b%negb_false_iff%Z.eqb_eq]. set (o := w_obj (slot ti chan_r s)) in *.
  assert (o_active (object o s) = 1) as Ha.
  { destruct (oo_active _ _ _ (inv_objs HI) o) as [E|]; [|done]. unfold object in E5a. by rewrite E in E5a. }
  assert (0 ≤ o < k_obj_next s) as Hn.
  { split; [apply w_obj_range|]. apply Z.nle_gt. intros Hge.
    pose proof (oo_beyond _ _ _ (inv_objs HI) _ Hge) as E. unfold object in Ha. congruence. }
  assert (0 ≤ o_chan_id (object o s) < CAP_CHAN_MAX) as Hc by (by apply (oo_chan _ _ _ (inv_objs HI))).
  rewrite u16_small in Ev by (unfold CAP_CHAN_MAX in *; lia). split_and!; lia.
Qed.

Lemma irq_mask_ok pid chan_r mask s :
  kernel_ok s → 0 ≤ pid < 2 ^ 16 →
  wp (k_irq_mask pid chan_r mask) (λ r s', kernel_ok s' ∧
    (r = CAP_ERR_OK → mask = 0 → k_irq_draining s = 0 →
       ∀ v, 0 ≤ v < CAP_IRQ_VECTORS → irq_latched v s' = false)) s.
Proof.
  intros Hs Hpid. unfold k_irq_mask. rewrite wp_bind. apply wp_table_index_ok; [done|done|..].
  { change (-1 <? 0) with true. cbv iota. rewrite wp_ret. by split. }
  intros ti T1 P1 s1 Hs1 Hti _. replace (ti <? 0) with false by (symmetry; apply Z.ltb_ge, Hti).
  rewrite wp_bind, wp_gets. destruct (irq_resolve ti chan_r s1) as [[c v]|e] eqn:E.
  - rewrite wp_bind, wp_hook, wp_bind. destruct (Z.eqb_spec mask 0) as [->|Hm].
    + apply wp_irq_drain; [exact Hs1|]. intros s2 Hs2 _ _ Hl _. rewrite wp_ret. split; [done|]. intros _ _. exact Hl.
    + rewrite !wp_ret. split; [exact Hs1|]. done.
  - rewrite wp_ret. split; [done|]. intros ->. unfold irq_resolve in E. cbv zeta in E.
    repeat (case_match; try discriminate).
Qed.

Lemma chan_ok_closed v ch : chan_ok ch → chan_ok (set_c_closed v ch).
Proof. intros [H1 H2]. by split. Qed.

Lemma forget_ok v s : kernel_ok s →
  kernel_ok (set_k_irq_budget (k_irq_budget s).[v <- 0] (set_k_irq_chan (k_irq_chan s).[v <- CAP_NONE] s)).
Proof.
  intros (hold & HI & Hq & Hl)%kernel_ok_inv. apply (kernel_ok_intro _ hold); [|exact Hq|exact Hl].
  destruct HI as [Hho Hp Hsl Hob Hci Hch Hpa Hm Hir Hmr]. split; kred; try done. by apply irqs_ok_clear.
Qed.

(** Unbinding frees the vector of the caller's channel, and only that one, and
    closes the kernel's end. *)
Lemma irq_unbind_ok pid chan_r s :
  kernel_ok s → 0 ≤ pid < 2 ^ 16 → 0 ≤ chan_r →
  wp (k_irq_unbind pid chan_r) (λ r s', kernel_ok s' ∧
    (fst r ≠ CAP_ERR_OK ∧ k_irq_chan s' = k_irq_chan s ∨
     ∃ v c, r = (CAP_ERR_OK, v) ∧ 0 ≤ v < CAP_IRQ_VECTORS ∧ (k_irq_chan s).[v] = c ∧
       k_irq_chan s' = (k_irq_chan s).[v <- CAP_NONE] ∧ (c_closed (channel c s')).[1] = 1)) s.
Proof.
  intros Hs Hpid Hr. unfold k_irq_unbind. rewrite wp_bind. apply wp_table_index_ok; [done|done|..].
  { change (-1 <? 0) with true. cbv iota. rewrite wp_ret. split; [done|by left]. }
  intros ti T1 P1 s1 Hs1 Hti _. replace (ti <? 0) with false by (symmetry; apply Z.ltb_ge, Hti).
  rewrite wp_bind, wp_gets. destruct (irq_resolve ti chan_r s1) as [[c v]|e] eqn:E.
  2: { rewrite wp_ret. split; [done|]. left. split; [|done]. cbn. intros ->. unfold irq_resolve in E. cbv zeta in E.
       repeat (case_match; try discriminate). }
  pose proof Hs1 as (hold & HI & Hq & Hl)%kernel_ok_inv.
  destruct (irq_resolve_spec _ _ _ _ _ _ _ _ _ HI E) as (Hc & Hv & Ecv & _). change (k_irq_chan s1) with (k_irq_chan s) in Ecv.
  rewrite wp_bind, wp_get_channel by done. destruct (_ =? 0); [rewrite wp_ret; split; [done|by left]|].
  rewrite wp_bind, wp_modify, wp_bind, wp_modify. kred. pose proof (forget_ok v s1 Hs1) as Hs2.
  set (s2 := set_k_irq_budget _ _) in *. change (k_irq_budget s1) with (k_irq_budget s) in s2.
  change (k_irq_chan s1) with (k_irq_chan s) in s2.
  rewrite wp_bind. eapply wp_mono; [by apply chan_close_ok|]. intros r s3 [Hs3 Hout].
  assert (k_irq_chan s3 = (k_irq_chan s).[v <- CAP_NONE]) as E3 by (by destruct Hout as [? ->|? ? ? ? ? ? ->|? ? ? ? ? ? ->]).
  clear Hout. pose proof Hs3 as (hold3 & HI3 & Hq3 & Hl3)%kernel_ok_inv. rewrite wp_bind.
  eapply wp_inv_set_channel; [exact HI3|done|apply chan_ok_closed, (inv_chans HI3)|].
  intros s4 HI4. rewrite wp_bind, wp_hook, wp_ret. split.
  - by apply (kernel_ok_intro _ hold3); [exact HI4|exact Hq3|exact Hl3].
  - right. exists v, c. split; [by rewrite u16_small by (unfold CAP_IRQ_VECTORS in *; lia)|].
    split; [done|]. split; [done|]. split; [exact E3|]. unfold channel, s4. kred. rewrite aget_upd_eq.
    apply aget_upd_eq.
Qed.

(** * Minting *)

Lemma word_make_valid ty o p f l :
  0 < ty < 2 ^ 3 → let w := cap_word_make ty o p f l in
  cap_word_valid w = true ∧ 0 ≤ w < 2 ^ 64 ∧ w_type w = ty.
Proof.
  intros Ht w. destruct (cap_word_make_fields ty o p f l) as (E1 & _). fold w in E1.
  rewrite land_mask_small in E1 by lia. split_and!; try done; [by apply cap_word_make_valid|apply cap_word_make_range..].
Qed.

(** A word that names no object goes into a fresh slot. *)
Lemma mint_word_ok ti pid w s :
  kernel_ok s → table_of (k_table_pid s) pid ti → cap_word_valid w = true → 0 ≤ w < 2 ^ 64 → obj_word w = false →
  wp (mint_word ti w) (λ _ s', kernel_ok s') s.
Proof.
  intros Hs Hti Hv Hw Hobj. pose proof Hs as (hold & HI & Hq & Hl)%kernel_ok_inv. unfold mint_word.
  rewrite wp_bind, wp_cap_lock, wp_bind by lk Hl. rewrite Hl. set (s1 := set_k_locks _ s).
  eapply (wp_slot_pop ti s1 hold [] [] []); [exact HI|apply Hti|by apply (table_of_bound _ pid)|..].
  { rewrite wp_cap_unlock. change (k_locks s1) with [LTable ti]. rewrite lock_drop_head by apply not_elem_of_nil.
    by apply (kernel_ok_intro _ hold); [exact HI|exact Hq|]. }
  intros i T2 s2 Hi _ _ _ _ HI2. rewrite wp_bind. apply wp_set_slot; [done|]. set (s3 := set_k_tables _ s2).
  assert (slot ti i s3 = w) as Es by apply tab_upd_slot_eq.
  rewrite wp_cap_unlock. apply (kernel_ok_intro _ hold); [|exact Hq|unfold s3; kred; by apply lock_drop_head, not_elem_of_nil].
  apply inv_locks. apply (inv_release_word s3 hold [] [] [] [] ti i); rewrite ?Es; [|by left|done|].
  - by apply inv_set_slot; [|mem].
  - by rewrite Hobj.
Qed.

Lemma not_obj_word w ty : w_type w = ty → CAP_TYPE_IO ≤ ty → obj_word w = false.
Proof. intros E H. unfold obj_word. rewrite E. unfold CAP_TYPE_IO, CAP_TYPE_MEM, CAP_TYPE_CHAN_R, CAP_TYPE_CHAN_W, CAP_TYPE_DEV in *. lia. Qed.

Lemma mint_at_ok pid w s :
  kernel_ok s → 0 ≤ pid < 2 ^ 16 → cap_word_valid w = true → 0 ≤ w < 2 ^ 64 → obj_word w = false →
  wp (let* ti := cap_table_index pid in if ti <? 0 then ret tt else mint_word ti w) (λ _ s', kernel_ok s') s.
Proof.
  intros Hs Hpid Hv Hw Ho. rewrite wp_bind. apply wp_table_index_ok; [done|done|..].
  { change (-1 <? 0) with true. cbv iota. by rewrite wp_ret. }
  intros ti T1 P1 s1 Hs1 Hti _. replace (ti <? 0) with false by (symmetry; apply Z.ltb_ge, Hti).
  by apply (mint_word_ok ti pid).
Qed.

Lemma mint_irq_ok pid sc s : kernel_ok s → 0 ≤ pid < 2 ^ 16 → wp (mint_irq pid sc) (λ _ s', kernel_ok s') s.
Proof.
  intros Hs Hpid. unfold mint_irq. destruct (negb _); [by rewrite wp_ret|]. destruct (_ <=? _); [by rewrite wp_ret|].
  destruct (word_make_valid CAP_TYPE_IRQ (sc_vector sc) (sc_rights sc) 0 1) as (W1 & W2 & W3); [done|].
  apply mint_at_ok; try done. by eapply not_obj_word.
Qed.

Lemma mint_io_ok pid sc s : kernel_ok s → 0 ≤ pid < 2 ^ 16 → wp (mint_io pid sc) (λ _ s', kernel_ok s') s.
Proof.
  intros Hs Hpid. unfold mint_io. destruct (negb _); [by rewrite wp_ret|]. destruct (_ || _); [by rewrite wp_ret|].
  destruct (_ <? _); [by rewrite wp_ret|].
  destruct (word_make_valid CAP_TYPE_IO (sc_phys_base sc) (sc_rights sc) 0 (u16 (sc_size_bytes sc))) as (W1 & W2 & W3); [done|].
  apply mint_at_ok; try done. by eapply not_obj_word.
Qed.

Lemma mint_dev_ok pid sc s : kernel_ok s → 0 ≤ pid < 2 ^ 16 → wp (mint_dev pid sc) (λ _ s', kernel_ok s') s.
Proof.
  intros Hs Hpid. unfold mint_dev. destruct (negb _); [by rewrite wp_ret|]. destruct (_ || _); [by rewrite wp_ret|].
  destruct (negb _); [by rewrite wp_ret|]. cbv zeta. set (np := u32 _). clearbody np.
  destruct (_ || _); [by rewrite wp_ret|]. rewrite wp_bind. apply wp_table_index_ok; [done|done|..].
  { change (-1 <? 0) with true. cbv iota. by rewrite wp_ret. }
  intros ti T1 P1 s1 Hs1 Hti _. replace (ti <? 0) with false by (symmetry; apply Z.ltb_ge, Hti).
  change P1 with (k_table_pid s1) in Hti. clearbody s1. clear s Hs T1 P1.
  pose proof Hs1 as (hold & HI & Hq & Hl)%kernel_ok_inv.
  rewrite wp_bind. apply wp_object_alloc; [lk Hl|lk Hl|by intros; rewrite wp_ret|].
  intros Hmax. unfold set_object. rewrite wp_bind, wp_modify, upd_with_obj.
  set (ob := set_o_npages _ _). set (o := k_obj_next s1) in *. pose proof (oo_n _ _ _ (inv_objs HI)) as Hn.
  assert (Inv (with_obj ob s1) hold [] [] []) as HI2 by (by apply inv_new_object).
  assert (quiet (with_obj ob s1)) as Hq2 by (by apply quiet_new).
  set (s2 := with_obj ob s1) in *. assert (k_locks s2 = []) as Hl2 by exact Hl.
  change (k_table_pid s1) with (k_table_pid s2) in Hti. assert (k_obj_next s2 = o + 1) as En by done.
  assert (object o s2 = ob) as Eo by apply aget_upd_eq.
  assert (hold o = []) as Hnil by (destruct (inv_hold HI) as [fr Hok]; by eapply hold_beyond).
  assert (0 ≤ o < CAP_OBJECT_MAX) as Ho by (split; [apply Hn|done]).
  clear HI Hn Hl Hmax Hs1 Hq. clearbody s2 o. rewrite wp_bind, wp_cap_lock by lk Hl2. rewrite wp_bind.
  eapply (wp_slot_pop ti _ hold [] [] []); [exact HI2|apply Hti|by apply (table_of_bound _ pid)|..].
  { rewrite wp_bind. unlock Hl2.
    eapply (wp_inv_object_destroy _ hold [] [] []); [exact HI2|kst; lia|done|apply not_elem_of_nil|].
    intros I nx R rn s3 HI3. finish_ok; [by apply quiet_kill|done]. }
  intros i T3 s3 Hi _ _ Hfr Hs0 HI3. rewrite wp_bind, wp_cap_lock by lk Hl2.
  rewrite wp_bind. eapply (wp_inv_holder_insert o); [exact HI3|lk Hl2|kst; lia|..].
  { change (o_active (object o s2) = 1). by rewrite Eo. }
  { change (o_revoking (object o s2) = 0). by rewrite Eo. }
  { cbn [negb Z.eqb]. rewrite wp_bind. eapply (wp_slot_push ti i _ hold [] [] [] []); [exact HI3|].
    intros T4 s4 _ _ HI4. rewrite wp_bind. unlock Hl2. rewrite wp_bind. unlock Hl2.
    eapply (wp_inv_object_destroy _ hold [] [] []); [exact HI4|kst; lia|done|apply not_elem_of_nil|].
    intros I nx R rn s5 HI5. finish_ok; [by apply quiet_kill|done]. }
  intros h H4 f4 O4 hold4 s4 Hm4 Hh4 Hk4 HI4. cbn [negb Z.eqb]. rewrite wp_bind.
  destruct (word_make_ok CAP_TYPE_DEV o (sc_rights sc) 0 np) as (W1 & W2 & W3 & W4); [done|lia|].
  eapply (wp_inv_fill_slot o pid ti i _ h); [exact HI4|exact Hti|done|done| |done|done|done|by rewrite W4|].
  { by rewrite u16_small in Hk4 by done. }
  intros T5 s5 _ _ HI5. rewrite wp_bind. unlock Hl2. unlock Hl2.
  finish_ok; [|done]. by eapply quiet_metas.
Qed.

Lemma mint_each_ok (mint : SidecarCap → M unit) caps s :
  (∀ sc s, kernel_ok s → wp (mint sc) (λ _ s', kernel_ok s') s) →
  kernel_ok s → wp (mint_each mint caps) (λ _ s', kernel_ok s') s.
Proof.
  intros Hm. revert s. induction caps as [|sc caps IH]; intros s Hs; cbn [mint_each]; [by rewrite wp_ret|].
  rewrite wp_bind. eapply wp_mono; [by apply Hm|]. intros [] s1. apply IH.
Qed.

Lemma mint_device_caps_ok pid caps s :
  kernel_ok s → 0 ≤ pid < 2 ^ 16 → wp (mint_device_caps pid caps) (λ _ s', kernel_ok s') s.
Proof.
  intros Hs Hpid. unfold mint_device_caps. rewrite wp_bind.
  eapply wp_mono; [apply mint_each_ok; [|exact Hs]; intros; by apply mint_irq_ok|]. intros [] s1 Hs1. rewrite wp_bind.
  eapply wp_mono; [apply mint_each_ok; [|exact Hs1]; intros; by apply mint_io_ok|]. intros [] s2 Hs2.
  apply mint_each_ok; [|exact Hs2]. intros. by apply mint_dev_ok.
Qed.

(** * k_irq_bind *)

(** A fresh channel is bound to no vector. *)
Lemma fresh_unbound s hold L U G c v :
  Inv s hold L U G → chan_fresh s c → 0 ≤ c < CAP_CHAN_MAX → 0 ≤ v < CAP_IRQ_VECTORS → (k_irq_chan s).[v] ≠ c.
Proof.
  intros HI (_ & Hf & _) Hc Hv E. destruct (iq_used _ _ _ _ (inv_irqs HI) v Hv) as [E0|Hu].
  - rewrite E0 in E. unfold CAP_NONE, CAP_CHAN_MAX in *. lia.
  - rewrite E in Hu. done.
Qed.

Lemma irqs_ok_bind O n I B v c b :
  irqs_ok O n I B → chan_used O n c → (∀ u, 0 ≤ u < CAP_IRQ_VECTORS → I.[u] ≠ c) → 0 ≤ b ≤ CHAN_QUEUE_DEPTH →
  irqs_ok O n I.[v <- c] B.[v <- b].
Proof.
  intros [H1 H2 H3] Hc Hn Hb. split.
  - intros u Hu. rewrite aget_upd. destruct (_ =? _); [by right|auto].
  - intros u u' Hu Hu'. rewrite !aget_upd. destruct (Z.eqb_spec v u), (Z.eqb_spec v u'); intros Hne E; try congruence.
    + symmetry in E. by apply Hn in E.
    + by apply Hn in E.
    + auto.
  - intros u Hu. rewrite aget_upd. destruct (_ =? _); [done|auto].
Qed.

(** The caller's interrupt capability is spent: the slot keeps it, stamped. *)
Lemma spend_irq_ok ti i w s hold :
  Inv s hold [] [] [] → 0 ≤ ti < CAP_TABLE_MAX → 0 ≤ i < CAP_TABLE_ENTRIES → slot ti i s = w →
  cap_word_valid w = true → w_type w = CAP_TYPE_IRQ →
  Inv (set_k_tables (tab_upd (k_tables s) ti i (cap_word_stamp_revoked w) (t_freelist_head (table ti s))) s) hold [] [] [].
Proof.
  intros HI Hti Hi Ew Hv Ht. set (s' := set_k_tables _ s).
  assert (0 ≤ w < 2 ^ 64) as Hr.
  { rewrite <-Ew. eapply inv_slot_word; [exact HI|done|done|apply not_elem_of_nil|by rewrite Ew]. }
  assert (slot ti i s' = cap_word_stamp_revoked w) as Es by apply tab_upd_slot_eq.
  assert (w_type (cap_word_stamp_revoked w) = CAP_TYPE_IRQ) as Et by (rewrite !w_type_field in *; rewrite stamp_field by lia; done).
  apply (inv_release_word s' hold [] [] [] [] ti i); rewrite ?Es.
  - apply inv_set_slot; [|mem]. apply inv_take_slot; rewrite ?Ew; try done; [apply not_elem_of_nil|by right].
  - right. split; [done|]. by apply stamp_state.
  - by apply stamp_range.
  - intros Ho. by rewrite (not_obj_word _ _ Et) in Ho.
Qed.

(** What a successful bind leaves: the vector has the channel of a fresh object, the
    caller's new slot reads it, and the interrupt capability is spent. *)
Record irq_bound (pid sl budget : Z) (s : KState) (rd : Z) (s' : KState) (ti c : Z) : Prop := {
  ib_table : table_of (k_table_pid s') pid ti;
  ib_word : cap_word_valid (slot ti sl s) = true ∧ w_type (slot ti sl s) = CAP_TYPE_IRQ;
  ib_right : w_has_perm (slot ti sl s) CAP_PERM_BIND = true;
  ib_free : (k_irq_chan s).[w_obj (slot ti sl s)] = CAP_NONE;
  ib_vector : w_obj (slot ti sl s) < CAP_IRQ_VECTORS;
  ib_chan : k_irq_chan s' = (k_irq_chan s).[w_obj (slot ti sl s) <- c];
  ib_spent : slot ti sl s' = cap_word_stamp_revoked (slot ti sl s);
  ib_end : w_type (slot ti rd s') = CAP_TYPE_CHAN_R ∧ o_chan_id (object (w_obj (slot ti rd s')) s') = c;
  ib_owner : c_end0_pid (channel c s') = pid ∧ (c_qdepth (channel c s')).[0] = 0
}.

Definition bind_outcome (pid sl budget : Z) (s : KState) (r : Z * Z) (s' : KState) : Prop :=
  (fst r ≠ CAP_ERR_OK ∧ snd r = CAP_NONE) ∨
  (fst r = CAP_ERR_OK ∧ ∃ ti c, irq_bound pid sl budget s (snd r) s' ti c).

(** The last steps of [k_irq_bind]: register the vector and spend the capability. *)
Lemma bind_register_ok pid sl rd budget ti c w s0 s hold :
  Inv s hold [] [] [] → quiet s → k_locks s = [] → k_irq_chan s = k_irq_chan s0 →
  0 ≤ c < CAP_CHAN_MAX → 0 ≤ budget ≤ CHAN_QUEUE_DEPTH → 0 ≤ sl < CAP_TABLE_ENTRIES → rd ≠ sl →
  table_of (k_table_pid s) pid ti →
  w_type (slot ti rd s) = CAP_TYPE_CHAN_R → 0 ≤ w_obj (slot ti rd s) < k_obj_next s →
  o_active (object (w_obj (slot ti rd s)) s) = 1 → o_kind (object (w_obj (slot ti rd s)) s) = CAP_OBJ_KIND_CHAN →
  o_chan_id (object (w_obj (slot ti rd s)) s) = c →
  (∀ v, 0 ≤ v < CAP_IRQ_VECTORS → (k_irq_chan s).[v] ≠ c) → c_end0_pid (channel c s) = pid → (c_qdepth (channel c s)).[0] = 0 →
  slot ti sl s = w → slot ti sl s0 = w → cap_word_valid w = true → w_type w = CAP_TYPE_IRQ →
  w_has_perm w CAP_PERM_BIND = true → (k_irq_chan s0).[w_obj w] = CAP_NONE → w_obj w < CAP_IRQ_VECTORS →
  wp (do* modify (fun s => set_k_irq_chan (k_irq_chan s).[w_obj w <- u16 c] s);
      do* modify (fun s => set_k_irq_budget (k_irq_budget s).[w_obj w <- u16 budget] s);
      do* hook (HIrqUnmask (w_obj w));
      do* cap_lock (LTable ti);
      do* set_slot ti sl (cap_word_stamp_revoked w);
      do* cap_unlock (LTable ti);
      ret (CAP_ERR_OK, rd)) (λ r s', kernel_ok s' ∧ bind_outcome pid sl budget s0 r s') s.
Proof.
  intros HI Hq Hl Eirq Hc Hb Hsl Hne Hti Hrt Hro Hra Hrk Hrc Hfresh Hown Hdep Ew Ew0 Hv Ht Hperm Hfree Hvec.
  rewrite wp_bind, wp_modify, wp_bind, wp_modify, wp_bind, wp_hook, !u16_small
    by (unfold CAP_CHAN_MAX, CHAN_QUEUE_DEPTH in *; lia).
  set (s1 := set_k_trace _ _).
  assert (Inv s1 hold [] [] []) as HI1.
  { destruct HI as [Hho Hp Hs Hob Hci Hch Hpa Hm Hir Hmr]. split; try done.
    apply irqs_ok_bind; try done. by exists (w_obj (slot ti rd s)). }
  assert (slot ti sl s1 = w) as Ew1 by done. assert (k_locks s1 = []) as Hl1 by done.
  assert (quiet s1) as Hq1 by exact Hq.
  assert (k_irq_chan s1 = (k_irq_chan s0).[w_obj w <- c]) as Ei1 by (by rewrite <-Eirq).
  assert (k_channels s1 = k_channels s ∧ k_objects s1 = k_objects s ∧ k_table_pid s1 = k_table_pid s ∧
    slot ti rd s1 = slot ti rd s) as (EC & EO & EP & Er) by done. clearbody s1.
  rewrite wp_bind, wp_cap_lock by lk Hl1. rewrite wp_bind. apply wp_set_slot; [done|].
  set (s2 := set_k_tables _ _).
  assert (Inv s2 hold [] [] []) as HI2.
  { apply (spend_irq_ok ti sl w (set_k_locks (LTable ti :: k_locks s1) s1) hold); try done. apply Hti. }
  rewrite wp_bind, wp_cap_unlock. change (k_locks s2) with (LTable ti :: k_locks s1).
  rewrite Hl1, lock_drop_head by apply not_elem_of_nil. rewrite wp_ret.
  split; [by finish_ok|]. right. split; [done|]. exists ti, c. simpl snd. set (s3 := set_k_locks [] s2).
  assert (slot ti rd s3 = slot ti rd s) as Er3.
  { rewrite <-Er. apply (tab_upd_slot_ne (k_tables s1)). congruence. }
  split; rewrite ?Ew0, ?Er3; try done.
  - change (k_table_pid s3) with (k_table_pid s1). by rewrite EP.
  - apply (tab_upd_slot_eq (k_tables s1)).
  - split; [done|]. unfold object. change (k_objects s3) with (k_objects s1). by rewrite EO.
  - unfold channel. change (k_channels s3) with (k_channels s1). by rewrite EC.
Qed.

(** [k_irq_bind] from the point where the channel object exists. *)
Lemma bind_slots_ok pid sl budget ti c w o s0 s hold :
  Inv s hold [] [] [] → quiet s → k_locks s = [] → hold o = [] → 0 ≤ o < k_obj_next s → o < CAP_OBJECT_MAX →
  o_active (object o s) = 1 → o_revoking (object o s) = 0 → o_kind (object o s) = CAP_OBJ_KIND_CHAN →
  o_chan_id (object o s) = c → 0 ≤ c < CAP_CHAN_MAX →
  (∀ v, 0 ≤ v < CAP_IRQ_VECTORS → (k_irq_chan s).[v] ≠ c) → c_end0_pid (channel c s) = pid → (c_qdepth (channel c s)).[0] = 0 →
  0 ≤ pid < 2 ^ 16 → 0 ≤ sl < CAP_TABLE_ENTRIES → 0 ≤ budget ≤ CHAN_QUEUE_DEPTH →
  table_of (k_table_pid s) pid ti → slot ti sl s = w → slot ti sl s0 = w → cap_word_valid w = true → w_type w = CAP_TYPE_IRQ →
  w_has_perm w CAP_PERM_BIND = true → (k_irq_chan s0).[w_obj w] = CAP_NONE → w_obj w < CAP_IRQ_VECTORS →
  k_irq_chan s = k_irq_chan s0 →
  wp (do* cap_lock (LTable ti);
      let* rd := cap_slot_pop ti in
      match rd with
      | None =>
          do* cap_unlock (LTable ti);
          do* cap_object_destroy o;
          do* set_channel c (set_c_active 0);
          ret (CAP_ERR_SPACE, CAP_NONE)
      | Some rd =>
      do* set_slot ti rd (cap_word_make CAP_TYPE_CHAN_R o CAP_PERM_RECV 0 1);
      do* cap_unlock (LTable ti);
      let* hs := cap_holder_alloc o HOLDER_SLOT (u16 pid) rd 0 in
      match hs with
      | None =>
          do* cap_lock (LTable ti);
          do* set_slot ti rd 0;
          do* cap_slot_push ti rd;
          do* cap_unlock (LTable ti);
          do* cap_object_destroy o;
          do* set_channel c (set_c_active 0);
          ret (CAP_ERR_NOMEM, CAP_NONE)
      | Some hs =>
      do* cap_lock (LObj o);
      do* cap_holder_link hs o;
      do* cap_unlock (LObj o);
      do* modify (fun s => set_k_irq_chan (k_irq_chan s).[w_obj w <- u16 c] s);
      do* modify (fun s => set_k_irq_budget (k_irq_budget s).[w_obj w <- u16 budget] s);
      do* hook (HIrqUnmask (w_obj w));
      do* cap_lock (LTable ti);
      do* set_slot ti sl (cap_word_stamp_revoked w);
      do* cap_unlock (LTable ti);
      ret (CAP_ERR_OK, rd)
      end end) (λ r s', kernel_ok s' ∧ bind_outcome pid sl budget s0 r s') s.
Proof.
  intros HI Hq Hl Hnil Ho Hmax Ha Hr Hk Ec Hc Hfresh Hown Hdep Hpid Hsl Hb Hti Ew Ew0 Hv Ht Hperm Hfree Hvec Eirq.
  rewrite wp_bind, wp_cap_lock by lk Hl. rewrite wp_bind, Hl. set (s1 := set_k_locks _ s).
  assert (∀ s2 hold2 e, Inv s2 hold2 [] [] [] → quiet s2 → k_locks s2 = [] → hold2 o = [] → k_obj_next s2 = k_obj_next s →
    e ≠ CAP_ERR_OK →
    wp (do* cap_object_destroy o; do* set_channel c (set_c_active 0); ret (e, CAP_NONE))
      (λ r s', kernel_ok s' ∧ bind_outcome pid sl budget s0 r s') s2) as Hfail.
  { intros s2 hold2 e HI2 Hq2 Hl2 Hn2 En2 He. rewrite wp_bind.
    eapply (wp_inv_object_destroy _ hold2 [] [] []); [exact HI2|by rewrite En2|done|lk Hl2|].
    intros I nx R rn s3 HI3. rewrite wp_bind.
    eapply wp_inv_set_channel; [exact HI3|done|apply chan_ok_active, (inv_chans HI3)|].
    intros s4 HI4. rewrite wp_ret. split; [|by left]. finish_ok; [by apply quiet_kill|done]. }
  eapply (wp_slot_pop ti s1 hold [] [] []); [exact HI|apply Hti|by apply (table_of_bound _ pid)|..].
  { rewrite wp_bind, wp_cap_unlock. change (k_locks s1) with [LTable ti]. rewrite lock_drop_head by apply not_elem_of_nil.
    by apply (Hfail _ hold). }
  intros rd T2 s2 Hrd _ Hold2 F2 _ HI2. rewrite wp_bind. apply wp_set_slot; [done|]. set (wr := cap_word_make _ _ _ _ _).
  set (s3 := set_k_tables _ s2). assert (slot ti rd s3 = wr) as Erd by apply tab_upd_slot_eq.
  assert (Inv s3 hold [] [(ti, rd)] []) as HI3 by (by apply inv_set_slot; [|mem]).
  assert (rd ≠ sl) as Hne.
  { intros ->. change (slot ti sl s1) with (slot ti sl s) in Hold2. rewrite Ew, Ht in Hold2. done. }
  assert (slot ti sl s3 = w) as Esl.
  { change (tslot (tab_upd (k_tables s2) ti rd wr (t_freelist_head (table ti s2))) ti sl = w).
    rewrite tab_upd_slot_ne by congruence. rewrite <-Ew. apply F2. congruence. }
  destruct (word_make_ok CAP_TYPE_CHAN_R o CAP_PERM_RECV 0 1) as (W1 & W2 & W3 & W4); [done|lia|]. fold wr in W1, W2, W3, W4.
  rewrite wp_bind, wp_cap_unlock. change (k_locks s3) with [LTable ti]. rewrite lock_drop_head by apply not_elem_of_nil.
  set (s4 := set_k_locks [] s3). assert (Inv s4 hold [] [(ti, rd)] []) as HI4 by exact HI3.
  assert (slot ti rd s4 = wr ∧ slot ti sl s4 = w) as [Erd4 Esl4] by done.
  assert (k_objects s4 = k_objects s ∧ k_obj_next s4 = k_obj_next s ∧ k_table_pid s4 = k_table_pid s ∧
    k_irq_chan s4 = k_irq_chan s ∧ k_channels s4 = k_channels s) as (EO4 & En4 & EP4 & EI4 & EC4) by done.
  assert (quiet s4) as Hq4 by exact Hq. assert (k_locks s4 = []) as Hl4 by done.
  clearbody s4. clear s1 s2 s3 T2 F2 Hold2 HI2 HI3 Erd Esl.
  rewrite u16_small, wp_bind by done.
  eapply (wp_inv_holder_alloc o HOLDER_SLOT pid rd 0 s4 hold [] [(ti, rd)] []); [exact HI4|lk Hl4|..].
  { rewrite wp_bind, wp_cap_lock by lk Hl4. rewrite wp_bind. apply wp_set_slot; [done|].
    set (s5 := set_k_tables _ _). assert (Inv s5 hold [] [(ti, rd)] []) as HI5 by (by apply inv_set_slot; [|mem]).
    rewrite wp_bind. eapply (wp_slot_push ti rd s5 hold [] [] [] []); [exact HI5|].
    intros T6 s6 _ _ HI6. rewrite wp_bind, wp_cap_unlock. change (k_locks s6) with (LTable ti :: k_locks s4).
    rewrite Hl4, lock_drop_head by apply not_elem_of_nil. by apply (Hfail _ hold). }
  intros h H5 f5 s5 Hh Hnh _ E5 _ HI5. rewrite wp_bind, wp_cap_lock by lk Hl4. rewrite wp_bind.
  assert (∀ x, object x s5 = object x s) as EO5 by (intros x; unfold object; change (k_objects s5) with (k_objects s4); by rewrite EO4).
  eapply (wp_inv_holder_link h o _ hold [] [] [(ti, rd)] []); [apply inv_locks; exact HI5|kst; by rewrite En4|..].
  { change (o_active (object o s5) = 1). by rewrite EO5. } { change (o_revoking (object o s5) = 0). by rewrite EO5. }
  { change (h_obj_id H5.[h] = o). by rewrite E5. } { change (h_prev H5.[h] = CAP_FREELIST_END). by rewrite E5. }
  intros H6 O6 s6 K6 M6 _ HI6.
  assert (Inv s6 (hold_upd hold o (h :: hold o)) [] [] []) as HI7.
  { apply (inv_attach_slot s6 _ [] [] [] [] h o pid ti rd); try done.
    - by change (k_table_pid s6) with (k_table_pid s4); rewrite EP4.
    - rewrite hold_upd_eq. mem.
    - apply not_elem_of_nil.
    - apply (slot_key_ext H5); [apply K6|]. unfold slot_key. by rewrite E5.
    - by change (slot ti rd s6) with (slot ti rd s4); rewrite Erd4.
    - by change (slot ti rd s6) with (slot ti rd s4); rewrite Erd4.
    - by change (slot ti rd s6) with (slot ti rd s4); rewrite Erd4.
    - by change (slot ti rd s6) with (slot ti rd s4); rewrite Erd4, W4. }
  rewrite wp_bind, wp_cap_unlock. change (k_locks s6) with (LObj o :: k_locks s4). rewrite Hl4, lock_drop_head by apply not_elem_of_nil.
  assert (ometa (object o s6) = ometa (object o s)) as Em by (change (k_objects s5) with (k_objects s4) in M6; rewrite <-EO5; apply M6).
  unfold ometa in Em. injection Em as _ M2 M3 M4 _ _ _ M8.
  assert (slot ti rd s6 = wr ∧ slot ti sl s6 = w) as [Erd6 Esl6] by done.
  apply (bind_register_ok pid sl rd budget ti c w s0 (set_k_locks [] s6) (hold_upd hold o (h :: hold o)));
    change (slot ti rd (set_k_locks [] s6)) with (slot ti rd s6); rewrite ?Erd6, ?W3; try done.
  - by apply (quiet_metas s4).
  - change (k_irq_chan s4 = k_irq_chan s0). by rewrite EI4.
  - change (table_of (k_table_pid s4) pid ti). by rewrite EP4.
  - change (0 ≤ o < k_obj_next s4). by rewrite En4.
  - change (o_active (object o s6) = 1). by rewrite M4.
  - change (o_kind (object o s6) = CAP_OBJ_KIND_CHAN). by rewrite M2.
  - change (o_chan_id (object o s6) = c). by rewrite M8.
  - intros v Hv0. change ((k_irq_chan s4).[v] ≠ c). rewrite EI4. by apply Hfresh.
  - change (c_end0_pid (k_channels s4).[c] = pid). by rewrite EC4.
  - change ((c_qdepth (k_channels s4).[c]).[0] = 0). by rewrite EC4.
Qed.

(** [k_irq_bind] keeps the invariant; on success the vector is bound to a fresh,
    empty channel of the caller, and the interrupt capability is spent. *)
Lemma irq_bind_ok pid sl budget s :
  kernel_ok s → 0 ≤ pid < 2 ^ 16 → 0 ≤ sl → 0 ≤ budget →
  wp (k_irq_bind pid sl budget) (λ r s', kernel_ok s' ∧ bind_outcome pid sl budget s r s') s.
Proof.
  intros Hs Hpid Hsl Hb. unfold k_irq_bind.
  destruct (Z.ltb_spec CHAN_QUEUE_DEPTH budget); [rewrite wp_ret; split; [done|by left]|].
  rewrite wp_bind. apply wp_table_index_ok; [done|done|..].
  { change (-1 <? 0) with true. cbv iota. rewrite wp_ret. split; [done|by left]. }
  intros ti T1 P1 s1 Hs1 Hti Hsame. replace (ti <? 0) with false by (symmetry; apply Z.ltb_ge, Hti).
  destruct (Z.leb_spec CAP_TABLE_ENTRIES sl); [rewrite wp_ret; split; [done|by left]|].
  rewrite wp_bind, wp_get_slot by done.
  set (w := slot ti sl s1). assert (w = slot ti sl s) as Es by apply Hsame.
  destruct (cap_word_valid w) eqn:Hv; cbn [negb]; [|rewrite wp_ret; split; [done|by left]].
  destruct (Z.eqb_spec (w_type w) CAP_TYPE_IRQ) as [Ht|]; cbn [negb]; [|rewrite wp_ret; split; [done|by left]].
  destruct (w_has_perm w CAP_PERM_BIND) eqn:Hp; cbn [negb]; [|rewrite wp_ret; split; [done|by left]].
  destruct (Z.leb_spec CAP_IRQ_VECTORS (w_obj w)); [rewrite wp_ret; split; [done|by left]|].
  rewrite wp_bind, wp_gets.
  destruct (Z.eqb_spec (k_irq_chan s1).[w_obj w] CAP_NONE) as [Hfree|]; cbn [negb]; [|rewrite wp_ret; split; [done|by left]].
  pose proof Hs1 as (hold & HI & Hq & Hl)%kernel_ok_inv. change (k_irq_chan s1) with (k_irq_chan s) in Hfree.
  rewrite wp_bind. eapply wp_chan_id_take; [exact HI|lk Hl|simpl; split; [by finish_ok|by left]|].
  intros c next R rn s2 Hc Hfc HI2.
  replace (c =? CAP_CHAN_NONE) with false by (symmetry; apply Z.eqb_neq; unfold CAP_CHAN_NONE, CAP_CHAN_MAX in *; lia).
  assert (k_irq_chan s2 = k_irq_chan s ∧ slot ti sl s2 = w) as [Ei2 Ew2] by done.
  assert (k_locks s2 = []) as Hl2 by exact Hl. assert (quiet s2) as Hq2 by exact Hq.
  change (table_of (k_table_pid s2) pid ti) in Hti. clearbody w s2.
  rewrite wp_bind. unfold cap_lock_init. rewrite wp_cap_unlock, lock_init_quiet, wp_bind by done.
  eapply wp_inv_set_channel; [exact HI2|done|by apply chan_ok_reset, (inv_chans HI2)|].
  intros s3 HI3. assert (k_locks s3 = []) as Hl3 by exact Hl2. assert (quiet s3) as Hq3 by exact Hq2.
  assert (chan_fresh s3 c) as Hf3 by exact Hfc.
  assert (channel c s3 = chan_reset (u16 pid) 0 (channel c s2)) as Ec3 by apply aget_upd_eq.
  assert (k_irq_chan s3 = k_irq_chan s ∧ slot ti sl s3 = w) as [Ei3 Ew3] by done.
  change (table_of (k_table_pid s3) pid ti) in Hti. clearbody s3.
  rewrite wp_bind. apply wp_object_alloc; [lk Hl3|lk Hl3|..]; intros Hmax.
  { rewrite wp_bind. eapply wp_inv_set_channel; [exact HI3|done|by apply chan_ok_active, (inv_chans HI3)|].
    intros s4 HI4. rewrite wp_ret. split; [by finish_ok|by left]. }
  unfold set_object. rewrite wp_bind, wp_modify, upd_with_obj.
  set (ob := set_o_chan_id _ _). set (o := k_obj_next s3) in *.
  assert (u16 c = c) as Euc by (apply u16_small; unfold CAP_CHAN_MAX in Hc; lia).
  pose proof (oo_n _ _ _ (inv_objs HI3)) as Hn.
  assert (object o (with_obj ob s3) = ob) as Eo by apply aget_upd_eq.
  apply (bind_slots_ok pid sl budget ti c w o s _ hold); rewrite ?Eo; try done.
  - apply inv_new_object; try done. intros _. simpl. by rewrite Euc.
  - by apply quiet_new.
  - destruct (inv_hold HI3) as [fr Hok]. by eapply hold_beyond.
  - change (0 ≤ o < o + 1). lia.
  - intros v Hv0. by apply (fresh_unbound s3 hold [] [] []).
  - change (c_end0_pid (channel c s3) = pid). rewrite Ec3. by apply u16_small.
  - change ((c_qdepth (channel c s3)).[0] = 0). rewrite Ec3. unfold chan_reset. cbn [c_qdepth]. by rewrite !aget_upd.
Qed.
