(* ===== verification/CapInit.v ===== *)
(** [cap_init] run on the loaded image establishes the invariant. *)

From stdpp Require Import base gmap list list_numbers.
From Stdlib Require Import ZArith Lia Bool.
From S2P Require Import Prelude FramePool FramePoolSpec CapWord Sidecar CapState CapPools CapOps CapMsg.
From S2P Require Import CapRevoke Wp HolderSpec CapInv ArenaSpec CapInvPools CapInvObj.
From S2P Require Import CapCreateInv CapTeardownInv.
#[local] Open Scope Z_scope.
#[local] Open Scope carr_scope.
#[local] Open Scope cap_scope.
#[local] Opaque Z.to_nat Z.div Z.modulo.

(** * The loops of [cap_init] *)

Lemma wp_init_irqs s (Q : unit → KState → Prop) :
  (∀ I B, (∀ v, 0 ≤ v < CAP_IRQ_VECTORS → I.[v] = CAP_NONE ∧ B.[v] = 0) →
     Q tt (set_k_irq_budget B (set_k_irq_chan I s))) →
  wp (for_each (Z.to_nat CAP_IRQ_VECTORS) 0 (λ i _,
        do* modify (λ s, set_k_irq_chan (k_irq_chan s).[i <- CAP_NONE] s);
        modify (λ s, set_k_irq_budget (k_irq_budget s).[i <- 0] s)) tt) Q s.
Proof.
  intros HQ. apply (wp_for_each (λ k _ s', ∃ I B, (∀ v, 0 ≤ v < k → I.[v] = CAP_NONE ∧ B.[v] = 0) ∧
    s' = set_k_irq_budget B (set_k_irq_chan I s))).
  - exists (k_irq_chan s), (k_irq_budget s). split; [intros; lia|by destruct s].
  - intros k [] s1 Hk (I & B & HI & ->). rewrite wp_bind, !wp_modify. kred.
    exists I.[k <- CAP_NONE], B.[k <- 0]. split; [|done]. intros v Hv. rewrite !aget_upd.
    destruct (Z.eqb_spec k v); [done|]. apply HI. lia.
  - intros [] s1 (I & B & HI & ->). rewrite Z2Nat.id in HI by done. by apply HQ.
Qed.

(** A table as [cap_init] leaves it. *)
Definition new_table (maps : gmap Z CapMap) (t : CapTable) : Prop :=
  fresh_table t ∧ t_pid t = 0 ∧ t_maps t = maps.

Lemma wp_init_tables s (Q : unit → KState → Prop) :
  k_locks s = [] →
  (∀ T P, (∀ ti, 0 ≤ ti < CAP_TABLE_MAX → new_table (t_maps (table ti s)) T.[ti] ∧ P.[ti] = 0) →
     (∀ ti, t_maps T.[ti] = t_maps (table ti s)) →
     Q tt (set_k_tables T (set_k_table_pid P s))) →
  wp (for_each (Z.to_nat CAP_TABLE_MAX) 0 (λ i _,
        do* cap_lock_init (LTable i);
        do* modify (λ s, set_k_table_pid (k_table_pid s).[i <- 0] s);
        do* modify (upd_table i (set_t_pid 0));
        cap_table_freelist_init i) tt) Q s.
Proof.
  intros Hl HQ. apply (wp_for_each (λ k _ s', ∃ T P,
    (∀ ti, 0 ≤ ti < k → new_table (t_maps (table ti s)) T.[ti] ∧ P.[ti] = 0) ∧
    (∀ ti, t_maps T.[ti] = t_maps (table ti s)) ∧ s' = set_k_tables T (set_k_table_pid P s))).
  - exists (k_tables s), (k_table_pid s). split; [intros; lia|]. split; [done|by destruct s].
  - intros k [] s1 Hk (T & P & HT & HM & ->). unfold cap_lock_init, cap_table_freelist_init.
    rewrite wp_bind, wp_cap_unlock, wp_bind, wp_modify, wp_bind, !wp_modify, upd_table_twice.
    unfold upd_table, table. kred. rewrite Hl. cbn [lock_drop List.filter].
    destruct (freelist_fresh (set_t_pid 0 T.[k])) as (F1 & F2 & F3).
    set (t' := for_up _ _ _ _) in *. clearbody t'. exists T.[k <- t'], P.[k <- 0]. split_and!.
    + intros ti Hti. rewrite !aget_upd. destruct (Z.eqb_spec k ti) as [<-|]; [|apply HT; lia].
      split; [|done]. split; [done|]. split; [done|]. rewrite F3. apply HM.
    + intros ti. rewrite aget_upd. destruct (Z.eqb_spec k ti) as [<-|]; [rewrite F3; apply HM|apply HM].
    + rewrite <-Hl. by destruct s.
  - intros [] s1 (T & P & HT & HM & ->). rewrite Z2Nat.id in HT by done. by apply HQ.
Qed.

Lemma wp_init_holders s (Q : unit → KState → Prop) :
  (∀ H, (∀ h, 0 ≤ h < CAP_HOLDER_MAX → h_next H.[h] = h + 1 ∧ h_active H.[h] = 0) → Q tt (set_k_holders H s)) →
  wp (for_each (Z.to_nat CAP_HOLDER_MAX) 0 (λ i _,
        modify (upd_holder i (λ n, set_h_next (u16 (i + 1)) (set_h_active 0 n)))) tt) Q s.
Proof.
  intros HQ. apply (wp_for_each (λ k _ s', ∃ H, (∀ h, 0 ≤ h < k → h_next H.[h] = h + 1 ∧ h_active H.[h] = 0) ∧
    s' = set_k_holders H s)).
  - exists (k_holders s). split; [intros; lia|by destruct s].
  - intros k [] s1 Hk (H & HH & ->). rewrite wp_modify. unfold upd_holder. kred. eexists. split; [|reflexivity].
    intros h Hh. rewrite aget_upd. destruct (Z.eqb_spec k h) as [<-|]; [|apply HH; lia].
    cbn. rewrite u16_small by (unfold CAP_HOLDER_MAX in *; lia). done.
  - intros [] s1 (H & HH & ->). rewrite Z2Nat.id in HH by done. by apply HQ.
Qed.

Lemma wp_payload_init s (Q : unit → KState → Prop) :
  (∀ N, pays_ok N 0 → Q tt (set_k_payload_next N (set_k_payload_free 0 s))) →
  wp cap_msg_payload_init Q s.
Proof.
  intros HQ. unfold cap_msg_payload_init. rewrite wp_bind, wp_modify, wp_bind.
  apply (wp_for_each (λ k _ s', ∃ N, (∀ i, 0 ≤ i < k → N.[i] = i + 1) ∧
    s' = set_k_payload_next N (set_k_payload_free 0 s))).
  - exists (k_payload_next s). split; [intros; lia|by destruct s].
  - intros k [] s1 Hk (N & HN & ->). rewrite wp_modify. kred. eexists. split; [|reflexivity].
    intros i Hi. rewrite aget_upd. destruct (Z.eqb_spec k i) as [<-|]; [|apply HN; lia].
    apply u16_small. unfold CAP_MSG_PAYLOAD_POOL in *. lia.
  - intros [] s1 (N & HN & ->). rewrite wp_modify. kred. apply HQ. split; [by right|].
    intros i Hi. rewrite aget_upd. unfold pay_index. destruct (Z.eqb_spec (CAP_MSG_PAYLOAD_POOL - 1) i); [by left|].
    right. rewrite HN; unfold CAP_MSG_PAYLOAD_POOL in *; lia.
Qed.

Lemma reserve_base nf al fr :
  0 ≤ nf → 0 ≤ al → let base := fst (frame_pool_reserve_contiguous nf al fr) in
  0 ≤ base ∧ (base ≠ 0 → base + nf * 4096 ≤ 2 ^ 32).
Proof.
  intros Hnf Hal. unfold frame_pool_reserve_contiguous. destruct (_ || _); [done|].
  destruct (bad_align al) eqn:Ea; [done|]. apply bad_align_pos in Ea; [|done].
  destruct (find_aligned _ _ _ _ _) as [r|] eqn:E; [|done]. cbn [fst].
  apply find_aligned_Some in E as (k & Hk & -> & Hr & _). unfold FRAME_SIZE, TOTAL_FRAMES in *. nia.
Qed.

Lemma wp_arena_init s (Q : unit → KState → Prop) :
  (∀ base fc frames, 0 ≤ base ∧ base + CAP_ARENA_SIZE ≤ 2 ^ 32 →
     base = fst (frame_pool_reserve_contiguous CAP_ARENA_FRAMES 512 (k_frames s)) →
     Q tt (set_k_arena_free fc (set_k_arena_base base (set_k_frames frames s)))) →
  wp cap_arena_init Q s.
Proof.
  intros HQ. unfold cap_arena_init. rewrite wp_bind, wp_gets. cbv zeta.
  pose proof (reserve_base CAP_ARENA_FRAMES 512 (k_frames s) ltac:(done) ltac:(done)) as [H0 H1].
  destruct (frame_pool_reserve_contiguous _ _ _) as [base fr]. cbn [fst snd] in *.
  rewrite wp_bind, wp_modify, wp_bind, wp_modify. destruct (Z.eqb_spec base 0) as [->|Hne].
  - rewrite wp_ret. specialize (HQ 0 (k_arena_free s) fr). destruct s. by apply HQ.
  - rewrite wp_modify. apply HQ; [|done]. split; [done|]. by apply H1 in Hne.
Qed.

(** * The invariant of a new kernel *)

Lemma chain_seqZ_pos nx a n : 0 < n →
  (∀ i, a ≤ i < a + n → nx i = if i =? a + n - 1 then CAP_FREELIST_END else i + 1) → chain nx a (seqZ a n).
Proof.
  intros Hn Hnx. rewrite <-(Z2Nat.id n) in Hnx |- * by lia. set (m := Z.to_nat n) in *.
  assert (m ≠ 0%nat) as Hm by lia. clearbody m. pose proof (chain_seqZ nx m a Hnx) as Hc.
  by rewrite (proj2 (Nat.eqb_neq m 0) Hm) in Hc.
Qed.

(** The fresh pools and empty tables make up the invariant. *)
Lemma inv_new s :
  (∀ ti, 0 ≤ ti < CAP_TABLE_MAX → fresh_table (table ti s) ∧ t_pid (table ti s) = 0 ∧ (k_table_pid s).[ti] = 0) →
  (∀ ti, t_maps (table ti s) = ∅) →
  k_holder_free s = 0 →
  (∀ h, 0 ≤ h < CAP_HOLDER_MAX →
     h_next (holder h s) = (if h =? CAP_HOLDER_MAX - 1 then CAP_FREELIST_END else h + 1) ∧ h_active (holder h s) = 0) →
  k_objects s = ∅ → k_obj_next s = 0 → k_channels s = ∅ → k_chan_next s = 0 → k_chan_recycled_n s = 0 →
  pays_ok (k_payload_next s) (k_payload_free s) →
  (0 ≤ k_arena_base s ∧ k_arena_base s + CAP_ARENA_SIZE ≤ 2 ^ 32) →
  (∀ v, 0 ≤ v < CAP_IRQ_VECTORS → (k_irq_chan s).[v] = CAP_NONE ∧ (k_irq_budget s).[v] = 0) →
  Inv s (λ _, []) [] [] [].
Proof.
  intros HT HM Hf HH EO En EC Ecn Ern Hp Hb Hi.
  assert (∀ i n, i ∈ seqZ 0 n ↔ 0 ≤ i < n) as Hseq by (intros; rewrite elem_of_seqZ; lia).
  split; rewrite ?EO, ?En, ?EC, ?Ecn, ?Ern; try done.
  - assert (∃ fr, chain (hnx (k_holders s)) 0 fr ∧ NoDup fr ∧ ∀ i, i ∈ fr ↔ 0 ≤ i < CAP_HOLDER_MAX) as (fr & Hc & Hnd & Hfr).
    { exists (seqZ 0 CAP_HOLDER_MAX). split; [|split; [apply NoDup_seqZ|intros; apply Hseq]].
      apply chain_seqZ_pos; [done|]. intros i Hi0. exact (proj1 (HH i Hi0)). }
    exists fr. split; try done.
    + by rewrite Hf.
    + intros h Hh%Hfr. split; [done|]. by apply HH.
    + intros o Ho. lia.
    + intros; apply NoDup_nil_2.
    + by intros o h ?%not_elem_of_nil.
    + apply NoDup_nil_2.
    + by intros h ?%not_elem_of_nil.
    + intros h Hh. left. by apply Hfr.
  - split.
    + by destruct (HT 0) as (_ & _ & E).
    + intros ti Hti. by destruct (HT ti Hti) as (_ & _ & ->).
    + intros i j Hi0 Hj0 _ Hne. by destruct (HT i Hi0) as (_ & _ & E).
    + intros ti Hti. destruct (HT ti Hti) as (_ & E & ->). exact E.
  - exists (λ ti, if (0 <=? ti) && (ti <? CAP_TABLE_MAX) then seqZ 0 CAP_TABLE_ENTRIES else []). split.
    + split; try done.
      * intros ti Hti. replace ((0 <=? ti) && (ti <? CAP_TABLE_MAX)) with true by lia.
        destruct (HT ti Hti) as (Hft & _). apply (fresh_chain _ Hft).
      * intros ti. destruct (_ && _); [apply NoDup_seqZ|apply NoDup_nil_2].
      * intros ti i. destruct (_ && _) eqn:E; [|by intros ?%not_elem_of_nil]. intros Hii%Hseq. split; [done|].
        destruct (HT ti) as (Hft & _); [lia|]. by apply (fresh_chain _ Hft).
      * apply NoDup_nil_2.
      * by intros ti i ?%not_elem_of_nil.
      * intros ti i Hti _ Hii. replace ((0 <=? ti) && (ti <? CAP_TABLE_MAX)) with true by lia. by apply Hseq.
    + assert (∀ ti i, ¬ live (λ ti, if (0 <=? ti) && (ti <? CAP_TABLE_MAX) then seqZ 0 CAP_TABLE_ENTRIES else []) [] ti i) as Hnl.
      { intros ti i (A & B & D & _). replace ((0 <=? ti) && (ti <? CAP_TABLE_MAX)) with true in D by lia.
        rewrite Hseq in D. done. }
      split; try (intros ti i Hlv; by destruct (Hnl ti i));
        [by intros o h ?%not_elem_of_nil|by intros o h h' pid i ?%not_elem_of_nil|by intros o h ?%not_elem_of_nil].
  - split; [done|intros; lia|intros; by left|done|done|intros; lia].
  - split; try done; try (intros; lia). intros c (o & Ho & _). lia.
  - intros c. split; [done|]. intros d e. split; try done. intros i. by left.
  - split; [done|intros o [Ho _]; lia|intros o [Ho _]; lia|intros o o' a [Ho _]; lia].
  - split.
    + intros v Hv. left. by apply Hi.
    + intros v v' Hv _ Hne. by rewrite (proj1 (Hi v Hv)) in Hne.
    + intros v Hv. by rewrite (proj2 (Hi v Hv)).
  - split; intros ti; change (k_tables s).[ti] with (table ti s); rewrite HM; done.
Qed.

(** What boot leaves besides the invariant: empty tables, full pools, no object, and
    the arena where the frame pool put it. *)
Record booted (frames : FramePool) (s : KState) : Prop := {
  bt_tables : ∀ ti, 0 ≤ ti < CAP_TABLE_MAX → (k_table_pid s).[ti] = 0 ∧ fresh_table (table ti s);
  bt_maps : ∀ ti, t_maps (table ti s) = ∅;
  bt_objects : k_objects s = ∅ ∧ k_obj_next s = 0;
  bt_channels : k_channels s = ∅ ∧ k_chan_next s = 0;
  bt_holders : k_holder_free s = 0;
  bt_arena : k_arena_base s = fst (frame_pool_reserve_contiguous CAP_ARENA_FRAMES 512 frames) ∧ k_arena_bitmap s = ∅;
  bt_irq : ∀ v, 0 ≤ v < CAP_IRQ_VECTORS → (k_irq_chan s).[v] = CAP_NONE ∧ (k_irq_budget s).[v] = 0;
  bt_trace : k_trace s = []
}.

Lemma init_ok frames :
  wp cap_init (λ _ s', kernel_ok s' ∧ booted frames s') (kernel_bss frames).
Proof.
  unfold cap_init. rewrite wp_bind. apply wp_init_irqs. intros I B HI. rewrite wp_bind.
  apply wp_init_tables; [done|]. intros T P HT HM. rewrite wp_bind. apply wp_init_holders. intros H HH.
  rewrite wp_bind, wp_modify, wp_bind, wp_modify, wp_bind, wp_modify, wp_bind, wp_modify, wp_bind, wp_modify.
  unfold cap_lock_init. rewrite wp_bind, wp_cap_unlock. kred. cbn [lock_drop List.filter].
  rewrite wp_bind. apply wp_arena_init. intros base free frames' Hbase Ebase. rewrite wp_bind.
  apply wp_payload_init. intros N HN. rewrite wp_modify. split.
  - eapply kernel_ok_intro; [apply inv_new|..]; kred; try done.
    + intros ti Hti. unfold table. kred. destruct (HT ti Hti) as [(F1 & F2 & _) F3]. by split.
    + intros h Hh. unfold holder, upd_holder. kred. rewrite aget_upd. destruct (HH h Hh) as [E1 E2].
      rewrite (Z.eqb_sym h). destruct (Z.eqb_spec (CAP_HOLDER_MAX - 1) h) as [<-|]; [|done]. split; [done|].
      exact E2.
  - split; kred; try done. intros ti Hti. unfold table. kred. by destruct (HT ti Hti) as [(F1 & _ & _) F3].
Qed.

(** On the pool of the loaded image the arena starts at the first 2 MiB boundary. *)
Lemma bss_arena : fst (frame_pool_reserve_contiguous CAP_ARENA_FRAMES 512 frame_pool_bss) = 512 * FRAME_SIZE.
Proof.
  unfold frame_pool_reserve_contiguous. change ((CAP_ARENA_FRAMES =? 0) || (TOTAL_FRAMES <? CAP_ARENA_FRAMES)) with false.
  change (bad_align 512) with false. cbv iota.
  assert (run_is_free frame_pool_bss CAP_ARENA_FRAMES 512 = true) as Hfree.
  { unfold run_is_free. destruct (find_up _ _ _) as [f|] eqn:E; [|done]. by apply find_up_Some in E as (_ & E & _). }
  assert (∃ n, Z.to_nat TOTAL_FRAMES = S n) as [n ->].
  { exists (Z.to_nat (TOTAL_FRAMES - 1)). rewrite <-Z2Nat.inj_succ by done. done. }
  cbn [find_aligned]. change (512 + CAP_ARENA_FRAMES <=? TOTAL_FRAMES) with true. cbv iota. rewrite Hfree. done.
Qed.
