(* ===== verification/CapSystem.v ===== *)
(** The capability kernel as a transition system: the operations of kernel/cap.c and
    kernel/chan.c, what each needs of its caller, the states they reach from
    [cap_init], and what holds in every one of them. *)

From stdpp Require Import base gmap list list_numbers.
From Stdlib Require Import ZArith Lia Bool.
From S2P Require Import Prelude FramePool CapWord Sidecar CapState CapPools CapOps CapMsg CapRevoke Chan Irq Wp.
From S2P Require Import HolderSpec CapInv ArenaSpec CapInvPools CapInvObj CapCreateInv CapChanInv CapMsgInv.
From S2P Require Import CapVecInv CapDropInv CapTeardownInv CapMapInv CapRevokeInv ChanInv DevInv IrqInv CapInit.
#[local] Open Scope Z_scope.
#[local] Open Scope carr_scope.
#[local] Open Scope cap_scope.

(** * Operations *)

Inductive kop :=
| OpCreateMem (pid phys_base npages perm : Z)
| OpArenaAlloc (pid npages perm : Z)
| OpArenaFree (pid cap_idx : Z)
| OpChanCreate (pid far_pid : Z)
| OpSend (pid ch_w cap_idx cookie : Z)
| OpRecv (pid ch_r : Z) (block : bool)
| OpSendMsg (pid ch_w : Z) (payload : option (list Z)) (payload_len : Z) (descs : list SLSCapDesc) (n_caps tag flags : Z)
| OpRecvMsg (pid ch_r buf_len max_caps : Z)
| OpRevoke (pid cap_idx : Z)
| OpTeardown (pid : Z)
| OpMap (pid cap_idx vaddr flags : Z)
| OpUnmap (pid cap_idx vaddr : Z)
| OpChanWait (fuel : nat) (pid : Z) (chans : gmap Z Z) (n timeout_ns : Z)
| OpChanRecv (pid chan buf_len : Z) (slots : bool) (n_slots : Z)
| OpChanSend (pid chan tag flags : Z) (payload : option (list Z)) (payload_len : Z) (caps : option (list SLSCapDesc)) (n_caps timeout_ns : Z)
| OpChanClose (pid chan reason detail : Z)
| OpIoIn (pid slot index size : Z)
| OpIoOut (pid slot index size val : Z)
| OpDevMmap (pid slot flags vaddr_hint : Z)
| OpIrqNotify (vector : Z)
| OpIrqDrain
| OpIrqBind (pid slot budget : Z)
| OpIrqUnbind (pid chan_r : Z)
| OpIrqMask (pid chan_r mask : Z)
| OpMintDevices (pid : Z) (caps : list SidecarCap).

(** A pid the scheduler hands out, and a slot index a handler passes on. *)
Definition pid_ok (pid : Z) : Prop := 0 ≤ pid < 2 ^ 16.
Definition idx_ok (i : Z) : Prop := 0 ≤ i < CAP_TABLE_ENTRIES.

Section System.
Context `{CE : !CapEnv} `{CH : !ChanEnv}.

(** An operation with its outputs dropped. *)
Definition drop {A} (m : M A) : M unit := do* m; ret tt.

Definition krun (op : kop) : M unit :=
  match op with
  | OpCreateMem pid phys_base npages perm => drop (cap_create_mem pid phys_base npages perm)
  | OpArenaAlloc pid npages perm => drop (cap_arena_alloc pid npages perm)
  | OpArenaFree pid cap_idx => drop (cap_arena_free pid cap_idx)
  | OpChanCreate pid far_pid => drop (cap_chan_create pid far_pid)
  | OpSend pid ch_w cap_idx cookie => drop (cap_send pid ch_w cap_idx cookie)
  | OpRecv pid ch_r block => drop (cap_recv pid ch_r block)
  | OpSendMsg pid ch_w payload payload_len descs n_caps tag flags =>
      drop (cap_send_msg pid ch_w payload payload_len descs n_caps tag flags)
  | OpRecvMsg pid ch_r buf_len max_caps => drop (cap_recv_msg pid ch_r buf_len max_caps)
  | OpRevoke pid cap_idx => drop (cap_revoke pid cap_idx)
  | OpTeardown pid => drop (cap_table_teardown pid)
  | OpMap pid cap_idx vaddr flags => drop (cap_map pid cap_idx vaddr flags)
  | OpUnmap pid cap_idx vaddr => drop (cap_unmap pid cap_idx vaddr)
  | OpChanWait fuel pid chans n timeout_ns => drop (k_chan_wait fuel pid chans n timeout_ns)
  | OpChanRecv pid chan buf_len slots n_slots => drop (k_chan_recv pid chan buf_len slots n_slots)
  | OpChanSend pid chan tag flags payload payload_len caps n_caps timeout_ns =>
      drop (k_chan_send pid chan tag flags payload payload_len caps n_caps timeout_ns)
  | OpChanClose pid chan reason detail => drop (k_chan_close pid chan reason detail)
  | OpIoIn pid slot index size => drop (k_io_in pid slot index size)
  | OpIoOut pid slot index size val => drop (k_io_out pid slot index size val)
  | OpDevMmap pid slot flags vaddr_hint => drop (k_dev_mmap pid slot flags vaddr_hint)
  | OpIrqNotify vector => cap_irq_notify vector
  | OpIrqDrain => cap_irq_drain_pending
  | OpIrqBind pid slot budget => drop (k_irq_bind pid slot budget)
  | OpIrqUnbind pid chan_r => drop (k_irq_unbind pid chan_r)
  | OpIrqMask pid chan_r mask => drop (k_irq_mask pid chan_r mask)
  | OpMintDevices pid caps => drop (mint_device_caps pid caps)
  end.

(** What each operation needs: machine ranges of the arguments, the slot indices the
    entry points do not check themselves, and the calling conventions of the message
    operations. *)
Definition kguard (op : kop) (s : KState) : Prop :=
  match op with
  | OpCreateMem pid phys_base npages _ => pid_ok pid ∧ 0 ≤ phys_base < 2 ^ 64 ∧ 0 ≤ npages
  | OpArenaAlloc pid npages _ => pid_ok pid ∧ 0 ≤ npages
  | OpArenaFree pid i | OpRevoke pid i | OpUnmap pid i _ => pid_ok pid ∧ idx_ok i
  | OpChanCreate pid far_pid => pid_ok pid ∧ pid_ok far_pid
  | OpSend pid ch_w i _ => pid_ok pid ∧ idx_ok ch_w ∧ (i = CAP_NONE ∨ idx_ok i) ∧ not_irq pid i s
  | OpRecv pid ch_r _ => pid_ok pid ∧ idx_ok ch_r ∧ recv_whole pid ch_r s
  | OpSendMsg pid ch_w payload payload_len descs n_caps _ _ => send_args pid ch_w payload payload_len descs n_caps s
  | OpRecvMsg pid ch_r buf_len max_caps => pid_ok pid ∧ idx_ok ch_r ∧ 0 ≤ max_caps ∧ 0 ≤ buf_len
  | OpTeardown pid => pid_ok pid
  | OpMap pid i vaddr _ => pid_ok pid ∧ idx_ok i ∧ 0 ≤ vaddr < 2 ^ 64
  | OpChanWait fuel _ chans n timeout_ns => 0 ≤ n ∧ (∀ i, 0 ≤ chans.[i]) ∧
      (∀ dl s1, call_at timeout_ns dl s s1 → dl ≠ 0 ∧ dl ≤ kernel_tick_counter s1 + Z.of_nat fuel) ∧ (0 < fuel)%nat
  | OpChanRecv pid chan buf_len _ n_slots => pid_ok pid ∧ 0 ≤ chan ∧ 0 ≤ buf_len ∧ 0 ≤ n_slots
  | OpChanSend pid chan _ _ payload payload_len caps n_caps _ => chan_send_args pid chan payload payload_len caps n_caps s
  | OpChanClose _ chan _ _ => 0 ≤ chan
  | OpIoIn _ _ index size | OpIoOut _ _ index size _ => 0 ≤ index < 2 ^ 16 ∧ 0 ≤ size < 2 ^ 8
  | OpDevMmap _ slot _ hint => 0 ≤ slot ∧ hint_ok hint
  | OpIrqNotify _ | OpIrqDrain => True
  | OpIrqBind pid slot budget => pid_ok pid ∧ 0 ≤ slot ∧ 0 ≤ budget
  | OpIrqUnbind pid chan_r => pid_ok pid ∧ 0 ≤ chan_r
  | OpIrqMask pid _ _ => pid_ok pid
  | OpMintDevices pid _ => pid_ok pid
  end.

Inductive kreach (frames : FramePool) : KState → Prop :=
| kr_boot s : cap_init (kernel_bss frames) = Ok tt s → kreach frames s
| kr_step op s s' : kreach frames s → kguard op s → krun op s = Ok tt s' → kreach frames s'.

(** * Every operation keeps the invariant *)

Lemma wp_drop {A} (m : M A) P s :
  wp m (λ r s', kernel_ok s' ∧ P r s') s → wp (drop m) (λ _ s', kernel_ok s') s.
Proof. intros H. unfold drop. rewrite wp_bind. eapply wp_mono; [exact H|]. intros r s' [Hs _]. by rewrite wp_ret. Qed.

Lemma wp_drop' {A} (m : M A) s :
  wp m (λ _ s', kernel_ok s') s → wp (drop m) (λ _ s', kernel_ok s') s.
Proof. intros H. unfold drop. rewrite wp_bind. eapply wp_mono; [exact H|]. intros r s' Hs. by rewrite wp_ret. Qed.

Lemma krun_ok `{!ChanEnvOk CH} op s :
  kernel_ok s → kguard op s → wp (krun op) (λ _ s', kernel_ok s') s.
Proof.
  intros Hs G. destruct op; cbn [kguard krun] in *; unfold pid_ok, idx_ok in G; destruct_and? G.
  - by eapply wp_drop, create_mem_ok.
  - by eapply wp_drop, arena_alloc_ok.
  - by apply wp_drop', arena_free_ok.
  - by apply wp_drop', chan_create_ok.
  - by apply wp_drop', send_ok.
  - by apply wp_drop', recv_ok.
  - by apply wp_drop', send_msg_ok.
  - by eapply wp_drop, recv_msg_ok.
  - by eapply wp_drop, revoke_ok.
  - by eapply wp_drop, teardown_ok.
  - by eapply wp_drop, map_ok.
  - by eapply wp_drop, unmap_ok.
  - by eapply wp_drop, wait_ok.
  - by apply wp_drop', chan_recv_ok.
  - by eapply wp_drop, chan_send_ok.
  - by eapply wp_drop, chan_close_ok.
  - by eapply wp_drop, io_in_ok.
  - by eapply wp_drop, io_out_ok.
  - by eapply wp_drop, dev_mmap_ok.
  - eapply wp_mono; [by apply irq_notify_ok|]. by intros [] s' [? _].
  - by apply wp_irq_drain.
  - by eapply wp_drop, irq_bind_ok.
  - by eapply wp_drop, irq_unbind_ok.
  - by eapply wp_drop, irq_mask_ok.
  - by apply wp_drop', mint_device_caps_ok.
Qed.

(** A total-correctness fact at an actual run. *)
Lemma wp_at {A} (m : M A) (Q : A → KState → Prop) s a s' : wp m Q s → m s = Ok a s' → Q a s'.
Proof. intros (b & s2 & E & H)%wp_Ok E'. rewrite E in E'. by simplify_eq. Qed.

Lemma kreach_kernel_ok `{!ChanEnvOk CH} frames s : kreach frames s → kernel_ok s.
Proof.
  induction 1 as [s E|op s s' _ IH G E].
  - exact (proj1 (wp_at _ _ _ _ _ (init_ok frames) E)).
  - exact (wp_at _ _ _ _ _ (krun_ok op s IH G) E).
Qed.

Lemma boot_returns frames : ∃ s, cap_init (kernel_bss frames) = Ok tt s ∧ kernel_ok s ∧ booted frames s.
Proof.
  assert (∀ (m : M unit) Q s, wp m Q s → ∃ s', m s = Ok tt s' ∧ Q tt s') as Hrun.
  { by intros m Q s ([] & s' & E & H)%wp_Ok; exists s'. }
  exact (Hrun _ _ _ (init_ok frames)).
Qed.
End System.
