(* ===== verification/CapTheorems.v ===== *)
(** What holds in every state the capability kernel can reach, whatever sequence of
    operations led there. *)

From stdpp Require Import base gmap list list_numbers.
From Stdlib Require Import ZArith Lia Bool.
From S2P Require Import Prelude FramePool CapWord Sidecar CapState CapPools CapOps CapMsg CapRevoke Chan Irq Wp.
From S2P Require Import HolderSpec CapInv ArenaSpec CapInvPools CapInvObj CapCreateInv CapChanInv CapMsgInv.
From S2P Require Import CapVecInv CapDropInv CapTeardownInv CapMapInv CapRevokeInv ChanInv DevInv IrqInv CapInit CapSystem.
#[local] Open Scope Z_scope.
#[local] Open Scope carr_scope.
#[local] Open Scope cap_scope.
#[local] Opaque Z.to_nat.

(** * Specifications *)

(** Object [o]'s holder list is [l]: its length is the reference count, and its slot
    nodes are exactly the table slots with a usable capability for [o]. *)
Record accounted (s : KState) (o : Z) (l : list Z) : Prop := {
  ac_list : dchain (hnx (k_holders s)) (hpv (k_holders s)) CAP_FREELIST_END (o_holder_head (object o s)) l;
  ac_count : o_refcount (object o s) = Z.of_nat (length l);
  ac_nodup : NoDup l;
  ac_nodes : ∀ h, h ∈ l → 0 ≤ h < CAP_HOLDER_MAX ∧ h_active (holder h s) = 1 ∧ h_obj_id (holder h s) = o;
  ac_slot : ∀ pid ti i, table_of (k_table_pid s) pid ti → 0 ≤ i < CAP_TABLE_ENTRIES →
    cap_word_valid (slot ti i s) = true → obj_word (slot ti i s) = true → w_obj (slot ti i s) = o →
    ∃ h, h ∈ l ∧ slot_key (k_holders s) h pid i ∧ ∀ h', h' ∈ l → slot_key (k_holders s) h' pid i → h' = h;
  ac_back : ∀ h, h ∈ l → h_kind (holder h s) = HOLDER_SLOT →
    ∃ ti, table_of (k_table_pid s) (h_pid (holder h s)) ti ∧
      cap_word_valid (slot ti (h_ref (holder h s)) s) = true ∧ w_obj (slot ti (h_ref (holder h s)) s) = o
}.

(** Two live memory objects share no physical address, and each lies below 4 GiB. *)
Definition memory_isolated (s : KState) : Prop :=
  (∀ o, live_mem (k_objects s) (k_obj_next s) o →
     0 ≤ o_phys_base (object o s) ∧ o_phys_base (object o s) + o_npages (object o s) * 4096 ≤ 2 ^ 32) ∧
  (∀ o o' a, live_mem (k_objects s) (k_obj_next s) o → live_mem (k_objects s) (k_obj_next s) o' → o ≠ o' →
     in_region (object o s) a → ¬ in_region (object o' s) a).

(** Each live channel object has a channel of its own, and no channel that is in use
    waits on the recycling stack. *)
Definition channels_owned (s : KState) : Prop :=
  (∀ o o', 0 ≤ o < k_obj_next s → 0 ≤ o' < k_obj_next s → o_active (object o s) = 1 → o_active (object o' s) = 1 →
     o_kind (object o s) = CAP_OBJ_KIND_CHAN → o_kind (object o' s) = CAP_OBJ_KIND_CHAN →
     o_chan_id (object o s) = o_chan_id (object o' s) → o = o') ∧
  (∀ i o, 0 ≤ i < k_chan_recycled_n s → 0 ≤ o < k_obj_next s → o_active (object o s) = 1 →
     o_kind (object o s) = CAP_OBJ_KIND_CHAN → (k_chan_recycled s).[i] ≠ o_chan_id (object o s)).

(** Rings never overflow and messages stay within the descriptor and payload limits. *)
Definition rings_bounded (s : KState) : Prop :=
  ∀ c d, 0 ≤ (c_qdepth (channel c s)).[d] ≤ CHAN_QUEUE_DEPTH ∧
    ∀ e, 0 ≤ m_n_caps ((c_q (channel c s)).[d]).[e] ≤ CAP_MSG_MAX_CAPS.

(** A bound vector delivers to the channel of a live object, no two vectors to the same
    one, and its budget fits the ring. *)
Definition vectors_owned (s : KState) : Prop :=
  (∀ v, 0 ≤ v < CAP_IRQ_VECTORS → (k_irq_chan s).[v] ≠ CAP_NONE →
     ∃ o, 0 ≤ o < k_obj_next s ∧ o_active (object o s) = 1 ∧ o_kind (object o s) = CAP_OBJ_KIND_CHAN ∧
       o_chan_id (object o s) = (k_irq_chan s).[v]) ∧
  (∀ v v', 0 ≤ v < CAP_IRQ_VECTORS → 0 ≤ v' < CAP_IRQ_VECTORS → (k_irq_chan s).[v] ≠ CAP_NONE →
     (k_irq_chan s).[v] = (k_irq_chan s).[v'] → v = v') ∧
  (∀ v, 0 ≤ v < CAP_IRQ_VECTORS → 0 ≤ (k_irq_budget s).[v] ≤ CHAN_QUEUE_DEPTH).

(** The mapping records of a table lie in the user half, those of different objects
    apart. *)
Definition mappings_apart (s : KState) : Prop :=
  ∀ ti i, 0 ≤ i < CAP_MAP_MAX → let m := (t_maps (table ti s)).[i] in map_live m →
    0 ≤ mp_vaddr m ∧ map_end m ≤ 2 ^ 47 ∧
    ∀ j, 0 ≤ j < CAP_MAP_MAX → let m' := (t_maps (table ti s)).[j] in map_live m' → mp_obj_id m ≠ mp_obj_id m' →
      map_end m ≤ mp_vaddr m' ∨ map_end m' ≤ mp_vaddr m.

(** The scheduler's weak defaults keep what the channel calls rely on. *)
#[export] Instance weak_chan_ok : ChanEnvOk weak_chan_env.
Proof.
  split; [done|..].
  - intros ids sc dl s Hs. change (cap_wait_chans ids sc dl) with (do* hook (HWaitChans ids sc dl); ret 0).
    rewrite wp_bind, wp_hook, wp_ret. split; [|done].
    pose proof Hs as (hold & HI & Hq & Hl)%kernel_ok_inv. by apply (kernel_ok_intro _ hold).
  - intros s Hs. change cap_park_deadline_take with (ret 0 : M Z). rewrite wp_ret. split; [done|]. exists (k_trace s). by destruct s.
Qed.

(** * Holder lists *)

Lemma inv_accounted s hold o :
  Inv s hold [] [] [] → quiet s → 0 ≤ o < k_obj_next s → o_active (object o s) = 1 → accounted s o (hold o).
Proof.
  intros HI Hq Ho Ha. destruct (inv_hold HI) as [fr Hok]. pose proof (inv_pids HI) as Hp.
  destruct (inv_slots HI) as (tf & Hs & Hl). assert (o_revoking (object o s) = 0) as Hr by (by apply Hq).
  split.
  - by apply (ho_list Hok).
  - by apply (ho_ref Hok).
  - apply (ho_nd Hok).
  - intros h Hh. by destruct (ho_in Hok o h Hh) as (? & ? & ? & _).
  - intros pid ti i (T1 & T2 & T3) Hi Hv Hw E.
    destruct (slots_ok_hand _ _ _ _ ti i Hs T1 Hi Hv (not_elem_of_nil _)) as [_ Hlv].
    destruct (lk_holder _ _ _ _ _ _ _ _ _ Hl ti i Hlv Hw) as (h & Hh & _ & Hk).
    { change (o_active (object (w_obj (slot ti i s)) s) = 1). by rewrite E. }
    { change (o_revoking (object (w_obj (slot ti i s)) s) = 0). by rewrite E. }
    change (tslot (k_tables s) ti i) with (slot ti i s) in Hh. rewrite E in Hh. rewrite T2 in Hk.
    exists h. split; [done|]. split; [done|]. intros h' Hh' Hk'.
    by apply (lk_uniq _ _ _ _ _ _ _ _ _ Hl o h' h pid i Hh' Hh); try apply not_elem_of_nil.
  - intros h Hh Hk. destruct (lk_slot _ _ _ _ _ _ _ _ _ Hl o h Hh (not_elem_of_nil _) Hk) as (ti & Hlv & E1 & E2 & E3).
    exists ti. split; [|split; [|done]].
    + split; [apply Hlv|]. split; [done|]. intros E0. eapply live_bound; [exact Hs|exact Hlv|]. rewrite E1. exact E0.
    + by destruct (lk_word _ _ _ _ _ _ _ _ _ Hl ti _ Hlv) as [[?|[? _]] _].
Qed.

(** * Reachable states *)

Section Reachable.
Context `{CE : !CapEnv} `{CH : !ChanEnv} `{OK : !ChanEnvOk CH}.


(** C2: physical isolation.  In every reachable state two live memory objects share no
    physical address and all of them lie below 4 GiB. *)
Theorem memory_isolation frames s : kreach frames s → memory_isolated s.
Proof.
  intros ((hold & HI) & _)%kreach_kernel_ok. destruct (inv_mems HI) as [_ Hsz _ Hap]. split.
  - intros o (? & ? & ?)%Hsz. done.
  - intros o o' a Ho Ho' Hne Ha Ha'. by apply (Hap o o' a).
Qed.





(** * Operations on reachable states *)

(** C16: [cap_create_mem] returns in every reachable state.  It refuses exactly the views
    that are empty, too large, ill-permitted, unaligned, out of range or overlapping the
    kernel image, the arena or a live object; it fails otherwise only when a pool is
    exhausted; and on success a fresh object with exactly that range has one holder, the
    caller's new slot, every other slot being as it was. *)
Theorem create_mem_spec frames pid phys np perm s :
  kreach frames s → pid_ok pid → 0 ≤ phys < 2 ^ 64 → 0 ≤ np →
  ∃ r s', cap_create_mem pid phys np perm s = Ok r s' ∧ create_outcome pid phys np perm s r s'.
Proof.
  intros Hs%kreach_kernel_ok Hpid Hp Hnp. apply wp_Ok. eapply wp_mono; [by apply create_mem_ok|]. by intros r s' [_ ?].
Qed.

(** C15: [cap_arena_alloc] returns in every reachable state; on success it has taken the
    lowest free run of arena frames of that length, marked exactly those frames as the
    new object's, and put its capability in a free slot of the caller.  It reports
    [CAP_ENOSPC] only when no run is free. *)
Theorem arena_alloc_spec frames pid np perm s :
  kreach frames s → pid_ok pid → 0 ≤ np →
  ∃ r s', cap_arena_alloc pid np perm s = Ok r s' ∧ alloc_outcome pid np perm s r s'.
Proof.
  intros Hs%kreach_kernel_ok Hpid Hnp. apply wp_Ok. eapply wp_mono; [by apply arena_alloc_ok|]. by intros r s' [_ ?].
Qed.

(** C14: [cap_revoke] returns in every reachable state.  It is refused, with nothing
    changed, exactly when the slot names no live object; otherwise the object is dead, no
    usable slot of any process names it, no mapping record of any process does, and the
    pages of the records it had were the ones unmapped. *)
Theorem revoke_spec frames pid i s :
  kreach frames s → pid_ok pid → idx_ok i →
  ∃ r s', cap_revoke pid i s = Ok r s' ∧ revoke_outcome pid i s r s'.
Proof.
  intros Hs%kreach_kernel_ok Hpid Hi. apply wp_Ok. eapply wp_mono; [by apply revoke_ok|]. by intros r s' [_ ?].
Qed.

(** C17: [cap_map] maps all pages of a capability or none: it is refused before the first
    page, or fails at page [k] and unmaps the [k] pages it had mapped, or maps every page
    of the object's range at consecutive addresses and records the mapping. *)
Theorem map_spec frames pid i va fl s :
  kreach frames s → pid_ok pid → idx_ok i → 0 ≤ va < 2 ^ 64 →
  ∃ r s', cap_map pid i va fl s = Ok r s' ∧ map_outcome pid i va fl s r s'.
Proof.
  intros Hs%kreach_kernel_ok Hpid Hi Hva. apply wp_Ok. eapply wp_mono; [by apply map_ok|]. by intros r s' [_ ?].
Qed.

End Reachable.
