(* ===== verification/ChanTheorems.v ===== *)
(** What the driver-facing calls do in a reachable state: channels (kernel/chan.c),
    port and device access, and interrupt delivery. *)

From stdpp Require Import base gmap list list_numbers.
From Stdlib Require Import ZArith Lia Bool.
From S2P Require Import Prelude FramePool CapWord Sidecar CapState CapPools CapOps CapMsg CapRevoke Chan Irq Wp.
From S2P Require Import HolderSpec CapInv ArenaSpec CapInvPools CapInvObj CapCreateInv CapChanInv CapMsgInv.
From S2P Require Import CapVecInv CapDropInv CapTeardownInv CapMapInv CapRevokeInv ChanInv DevInv IrqInv CapInit CapSystem.
#[local] Open Scope Z_scope.
#[local] Open Scope carr_scope.
#[local] Open Scope cap_scope.
#[local] Opaque Z.to_nat.

(** * Specifications *)

(** A release undoes exactly one recorded mapping. *)
Definition unmap_outcome `{!CapEnv} (pid va : Z) (s : KState) (r : Z) (s' : KState) : Prop :=
  (r ≠ 0 ∧ k_trace s' = k_trace s) ∨
  (r = 0 ∧ ∃ ti j, 0 ≤ j < CAP_MAP_MAX ∧ let m := (t_maps (table ti s)).[j] in
     map_live m ∧ mp_vaddr m = va ∧ ¬ map_live (t_maps (table ti s')).[j] ∧
     k_trace s' = HTlbFlush :: unmap_calls (cap_proc_cr3 pid) va (mp_npages m) ++ k_trace s).

(** A receive takes a message only into buffers that hold all of it. *)
Inductive chan_recv_outcome `{!CapEnv} (pid chan buf_len : Z) (slots : bool) (n_slots : Z) (s : KState)
    (r : ChanRecvOut) (s' : KState) : Prop :=
| cro_quiet : recv_quiet pid chan buf_len n_slots s r s' → chan_recv_outcome pid chan buf_len slots n_slots s r s'
| cro_failed rr : recv_fits pid chan buf_len n_slots s → cap_recv_msg pid chan buf_len (u16 n_slots) s = Ok rr s' →
    r_code rr < 0 → r = recv_none (chan_map_err (r_code rr)) 0 → chan_recv_outcome pid chan buf_len slots n_slots s r s'
| cro_message rr s1 refs : recv_fits pid chan buf_len n_slots s → cap_recv_msg pid chan buf_len (u16 n_slots) s = Ok rr s1 →
    0 ≤ r_code rr →
    (slots = true → cr_handle <$> refs = d_slot <$> take (Z.to_nat n_slots) (r_caps rr)) →
    r = mkOut CAP_ERR_OK CH_KIND_MSG (if negb (Z.land (r_flags rr) 1 =? 0) then CH_F_NO_REPLY else 0)
          (r_tag rr) (r_payload_len rr) (r_n_caps rr) 0 (r_bytes rr) refs →
    chan_recv_outcome pid chan buf_len slots n_slots s r s'.

(** A send into a channel with a closed end is refused before it touches anything. *)
Definition send_closed (pid chan : Z) (s : KState) (r : Z) (s' : KState) : Prop :=
  ∀ c d, send_resolve pid chan s = inl (c, d) →
    (c_closed (channel c s)).[d] ≠ 0 ∨ (c_closed (channel c s)).[1 - d] ≠ 0 →
    r ≠ CAP_ERR_OK ∧ ∃ tr, s' = set_k_trace tr s.

(** A port access happens only under a grant that covers it. *)
Definition io_outcome (pid sl perm index size : Z) (access : Z → Hook) (s : KState) (code : Z) (s' : KState) : Prop :=
  (code ≠ CAP_ERR_OK ∧ s' = s) ∨
  (code = CAP_ERR_OK ∧ ∃ w, io_grant pid sl perm index size s w ∧
     s' = set_k_trace (access (u16 (w_obj w + index)) :: k_trace s) s).

Definition unbind_outcome (s : KState) (r : Z * Z) (s' : KState) : Prop :=
  (fst r ≠ CAP_ERR_OK ∧ k_irq_chan s' = k_irq_chan s) ∨
  (∃ v c, r = (CAP_ERR_OK, v) ∧ 0 ≤ v < CAP_IRQ_VECTORS ∧ (k_irq_chan s).[v] = c ∧
     k_irq_chan s' = (k_irq_chan s).[v <- CAP_NONE] ∧ (c_closed (channel c s')).[1] = 1).

(** A drain hands over every latched edge and touches only the channels of latched
    vectors. *)
Definition drained (s s' : KState) : Prop :=
  k_irq_chan s' = k_irq_chan s ∧
  (k_irq_draining s = 0 → ∀ v, 0 ≤ v < CAP_IRQ_VECTORS → irq_latched v s' = false) ∧
  (∀ c, (∀ v, 0 ≤ v < CAP_IRQ_VECTORS → (k_irq_chan s).[v] = c → irq_latched v s = false) →
     channel c s' = channel c s).

(** * Deadlines *)

Lemma deadline_min t now :
  0 ≤ t < 2 ^ 64 → 0 ≤ now < 2 ^ 64 →
  chan_deadline_from_ns t now =
  Z.min UINT64_MAX (now + Z.min (UINT64_MAX / KERNEL_TICK_NS) ((t + (KERNEL_TICK_NS - 1)) / KERNEL_TICK_NS)).
Proof.
  intros Ht Hn. unfold chan_deadline_from_ns, UINT64_MAX. change KERNEL_TICK_NS with 10000000. cbv zeta.
  assert (∀ a, 0 ≤ a → 0 ≤ a / 10000000 ≤ a) as Hd
    by (intros a Ha; split; [by apply Z.div_pos|apply Z.div_le_upper_bound; lia]).
  set (tk := if _ <? t then _ else _).
  assert (tk = Z.min (0xFFFFFFFFFFFFFFFF / 10000000) ((t + (10000000 - 1)) / 10000000)) as ->.
  { unfold tk. destruct (Z.ltb_spec (0xFFFFFFFFFFFFFFFF - (10000000 - 1)) t) as [Hgt|Hle].
    - rewrite Z.min_l; [done|]. apply Z.div_le_mono; lia.
    - rewrite u64_small by lia. rewrite Z.min_r; [done|]. apply Z.div_le_mono; lia. }
  pose proof (Hd 0xFFFFFFFFFFFFFFFF ltac:(lia)). pose proof (Hd (t + (10000000 - 1)) ltac:(lia)).
  set (a := 0xFFFFFFFFFFFFFFFF / 10000000) in *. set (b := (t + (10000000 - 1)) / 10000000) in *. clearbody a b.
  destruct (Z.ltb_spec (0xFFFFFFFFFFFFFFFF - Z.min a b) now); [lia|]. rewrite u64_small by lia. lia.
Qed.

(** C34: a relative timeout becomes the absolute tick [now + ⌈timeout / tick⌉], saturating:
    it never wraps into the past and a longer timeout never gives an earlier deadline. *)
Theorem deadline_spec t now :
  0 ≤ t < 2 ^ 64 → 0 ≤ now < 2 ^ 64 →
  now ≤ chan_deadline_from_ns t now < 2 ^ 64 ∧
  (t ≤ UINT64_MAX - (KERNEL_TICK_NS - 1) →
     chan_deadline_from_ns t now = Z.min UINT64_MAX (now + (t + (KERNEL_TICK_NS - 1)) / KERNEL_TICK_NS)) ∧
  (∀ t', t ≤ t' < 2 ^ 64 → chan_deadline_from_ns t now ≤ chan_deadline_from_ns t' now).
Proof.
  intros Ht Hn. change KERNEL_TICK_NS with 10000000. rewrite deadline_min by done. change KERNEL_TICK_NS with 10000000.
  assert (0 ≤ UINT64_MAX / 10000000) as H1 by (by apply Z.div_pos).
  assert (0 ≤ (t + (10000000 - 1)) / 10000000) as H2 by (apply Z.div_pos; lia).
  split; [unfold UINT64_MAX in *; lia|]. split.
  - intros Hle. rewrite (Z.min_r (UINT64_MAX / _)); [done|]. apply Z.div_le_mono; lia.
  - intros t' Ht'. rewrite deadline_min by lia. change KERNEL_TICK_NS with 10000000.
    assert ((t + (10000000 - 1)) / 10000000 ≤ (t' + (10000000 - 1)) / 10000000) by (apply Z.div_le_mono; lia). lia.
Qed.

Lemma deadline_spec_witness :
  chan_deadline_from_ns 10000001 7 = 9 ∧ chan_deadline_from_ns 10000001 7 ≤ chan_deadline_from_ns (2 ^ 64 - 2) 7.
Proof.
  split; [reflexivity|].
  apply (deadline_spec 10000001 7 ltac:(lia) ltac:(lia)). lia.
Defined.

(** * Calls in a reachable state *)

Section Calls.
Context `{CE : !CapEnv} `{CH : !ChanEnv} `{OK : !ChanEnvOk CH}.

(** [cap_unmap] returns in every reachable state; it succeeds only on a recorded
    mapping, unmaps exactly that record's pages and clears the record. *)
Theorem unmap_spec frames pid i va s :
  kreach frames s → pid_ok pid → idx_ok i →
  ∃ r s', cap_unmap pid i va s = Ok r s' ∧ unmap_outcome pid va s r s'.
Proof.
  intros Hs%kreach_kernel_ok Hpid Hi. apply wp_Ok. eapply wp_mono; [by apply unmap_ok|]. by intros r s' [_ ?].
Qed.

(** [cap_table_teardown] returns in every reachable state and the dead process has no
    table left. *)
Theorem teardown_spec frames pid s :
  kreach frames s → pid_ok pid →
  ∃ r s', cap_table_teardown pid s = Ok r s' ∧
    (pid ≠ 0 → ∀ ti, 0 ≤ ti < CAP_TABLE_MAX → (k_table_pid s').[ti] ≠ pid).
Proof.
  intros Hs%kreach_kernel_ok Hpid. apply wp_Ok. eapply wp_mono; [by apply teardown_ok|]. by intros r s' [_ ?].
Qed.



(** [k_chan_send] returns, and a send into a channel either end of which is closed is
    refused with the state unchanged. *)
Theorem chan_send_spec frames pid chan tag flags payload payload_len caps n_caps timeout_ns s :
  kreach frames s → chan_send_args pid chan payload payload_len caps n_caps s →
  ∃ r s', k_chan_send pid chan tag flags payload payload_len caps n_caps timeout_ns s = Ok r s' ∧
    send_closed pid chan s r s'.
Proof.
  intros Hs%kreach_kernel_ok Ha. apply wp_Ok. eapply wp_mono; [by apply chan_send_ok|]. by intros r s' [_ ?].
Qed.

(** [k_chan_close] closes an end once: the first close raises the peer's close event
    with the reason and detail given and wakes it; a second one succeeds without a change. *)
Theorem chan_close_spec frames pid chan reason detail s :
  kreach frames s → 0 ≤ chan →
  ∃ r s', k_chan_close pid chan reason detail s = Ok r s' ∧ close_outcome pid chan reason detail s r s'.
Proof.
  intros Hs%kreach_kernel_ok Hc. apply wp_Ok. eapply wp_mono; [by apply chan_close_ok|]. by intros r s' [_ ?].
Qed.

(** [k_io_in] reads a port only under a valid port capability of the caller with the
    read right whose range covers the access; otherwise nothing happens. *)
Theorem io_in_spec frames pid sl index size s :
  kreach frames s → 0 ≤ index < 2 ^ 16 → 0 ≤ size < 2 ^ 8 →
  ∃ r s', k_io_in pid sl index size s = Ok r s' ∧
    io_outcome pid sl CAP_PERM_R index size (λ port, HIoRead port size) s (fst r) s'.
Proof.
  intros Hs%kreach_kernel_ok Hi Hz. apply wp_Ok. eapply wp_mono; [by apply io_in_ok|].
  intros r s' (_ & [(? & _ & ?)|?]); [by left|by right].
Qed.

(** [k_io_out] writes a port only under a valid port capability of the caller with the
    write right whose range covers the access; otherwise nothing happens. *)
Theorem io_out_spec frames pid sl index size val s :
  kreach frames s → 0 ≤ index < 2 ^ 16 → 0 ≤ size < 2 ^ 8 →
  ∃ r s', k_io_out pid sl index size val s = Ok r s' ∧
    io_outcome pid sl CAP_PERM_W index size (λ port, HIoWrite port size val) s r s'.
Proof.
  intros Hs%kreach_kernel_ok Hi Hz. apply wp_Ok. eapply wp_mono; [by apply io_out_ok|].
  by intros r s' (_ & ?).
Qed.


(** [cap_irq_notify], run from an interrupt handler, latches exactly its vector and
    touches no channel. *)
Theorem irq_notify_spec frames v s :
  kreach frames s →
  ∃ s', cap_irq_notify v s = Ok tt s' ∧ k_channels s' = k_channels s ∧
    (v < CAP_IRQ_VECTORS → ∀ u, irq_latched u s' = (v =? u) || irq_latched u s).
Proof.
  intros Hs%kreach_kernel_ok. destruct (proj1 (wp_Ok _ _ _) (irq_notify_ok v s Hs)) as ([] & s' & E & _ & H1 & H2).
  by exists s'.
Qed.

(** [cap_irq_drain_pending] returns, leaves no vector latched, and touches only the
    channels whose vectors were latched. *)
Theorem irq_drain_spec frames s :
  kreach frames s → ∃ s', cap_irq_drain_pending s = Ok tt s' ∧ drained s s'.
Proof.
  intros Hs%kreach_kernel_ok. assert (wp cap_irq_drain_pending (λ _ s', drained s s') s) as H.
  { apply wp_irq_drain; [done|]. intros s' _ E1 _ E2 E3. by split. }
  destruct (proj1 (wp_Ok _ _ _) H) as ([] & s' & E & Hd). by exists s'.
Qed.

(** [k_irq_bind] succeeds only on an interrupt capability with the bind right for a
    vector that is free; the vector is then bound to a fresh empty channel owned by the
    caller, whose receive end is in the slot returned, and the interrupt capability is
    spent. *)
Theorem irq_bind_spec frames pid sl budget s :
  kreach frames s → pid_ok pid → 0 ≤ sl → 0 ≤ budget →
  ∃ r s', k_irq_bind pid sl budget s = Ok r s' ∧ bind_outcome pid sl budget s r s'.
Proof.
  intros Hs%kreach_kernel_ok Hpid Hsl Hb. apply wp_Ok. eapply wp_mono; [by apply irq_bind_ok|]. by intros r s' [_ ?].
Qed.

(** [k_irq_unbind] frees exactly the vector of the caller's channel and closes that
    channel, or refuses and leaves every binding as it was. *)
Theorem irq_unbind_spec frames pid chan_r s :
  kreach frames s → pid_ok pid → 0 ≤ chan_r →
  ∃ r s', k_irq_unbind pid chan_r s = Ok r s' ∧ unbind_outcome s r s'.
Proof.
  intros Hs%kreach_kernel_ok Hpid Hc. apply wp_Ok. eapply wp_mono; [by apply irq_unbind_ok|]. by intros r s' [_ ?].
Qed.

End Calls.
