(* ===== verification/CapWitness.v ===== *)
(** Concrete runs of the capability kernel: boot on the loaded image's frame pool, a
    memory capability for process 1, and the theorems applied to them. *)

From stdpp Require Import base gmap list list_numbers.
From Stdlib Require Import ZArith Lia Bool.
From S2P Require Import Prelude FramePool CapWord Sidecar CapState CapPools CapOps CapMsg CapRevoke Chan Irq Wp.
From S2P Require Import HolderSpec CapInv ArenaSpec CapInvPools CapInvObj CapCreateInv CapChanInv CapMsgInv.
From S2P Require Import CapVecInv CapDropInv CapTeardownInv CapMapInv CapRevokeInv ChanInv DevInv IrqInv CapInit.
From S2P Require Import CapSystem CapTheorems ChanTheorems.
#[local] Open Scope Z_scope.
#[local] Open Scope carr_scope.
#[local] Open Scope cap_scope.
#[local] Opaque Z.to_nat.
#[local] Existing Instance paged_env.
#[local] Existing Instance weak_chan_env.

(** * The runs *)

Lemma demo_boot : ∃ s, kreach frame_pool_bss s ∧ booted frame_pool_bss s.
Proof. destruct (boot_returns frame_pool_bss) as (s & E & _ & Hb). exists s. split; [by apply kr_boot|done]. Qed.

(** Two pages at 256 MiB, readable, writable and mappable. *)
Definition demo_phys : Z := 0x10000000.
Definition demo_perm : Z := 11.

Lemma demo_view s : booted frame_pool_bss s → view_ok demo_phys 2 demo_perm s.
Proof.
  intros [_ _ [EO En] _ _ [Ea _] _ _]. rewrite bss_arena in Ea. split; try done.
  - right. left. rewrite Ea. done.
  - intros o (Ho & _). rewrite En in Ho. lia.
Qed.

Lemma demo_room pid s : booted frame_pool_bss s → pid ≠ 0 → ¬ exhausted pid s.
Proof.
  intros [Ht _ [EO En] _ Eh _ _ _] Hp [H|[H|[H|(ti & Hti & H)]]].
  - destruct (H 1 ltac:(done)) as [_ H1]. by destruct (Ht 1 ltac:(done)) as [E _]; apply H1.
  - rewrite En in H. unfold CAP_OBJECT_MAX in H. lia.
  - by rewrite Eh in H.
  - destruct (Ht ti Hti) as [_ [E _]]. by rewrite E in H.
Qed.

(** Process 1 creates a view right after boot. *)
Lemma demo_mem : ∃ s0 s1 i ti, kreach frame_pool_bss s0 ∧ booted frame_pool_bss s0 ∧
  cap_create_mem 1 demo_phys 2 demo_perm s0 = Ok (0, i) s1 ∧
  mem_created 1 demo_phys 2 demo_perm s0 i s1 ti 0 ∧ kreach frame_pool_bss s1.
Proof.
  destruct demo_boot as (s0 & Hr & Hb). pose proof (kreach_kernel_ok _ _ Hr) as Hk.
  pose proof (create_mem_ok 1 demo_phys 2 demo_perm s0 Hk ltac:(done) ltac:(done) ltac:(done)) as Hw.
  destruct (proj1 (wp_Ok _ _ _) Hw) as (r & s1 & E & _ & O).
  destruct O as [No|_ Hex|i ti o _ -> Hc]; [by destruct (No (demo_view _ Hb))|by destruct (demo_room 1 _ Hb ltac:(done) Hex)|].
  assert (o = 0) as -> by (destruct (mc_fresh _ _ _ _ _ _ _ _ _ Hc) as [-> _]; apply (bt_objects _ _ Hb)).
  exists s0, s1, i, ti. do 4 (split; [done|]).
  apply (kr_step _ (OpCreateMem 1 demo_phys 2 demo_perm) s0); [done|done|]. cbn [krun]. unfold drop, bind. by rewrite E.
Qed.

(** The new capability names a live object. *)
Lemma demo_names s0 s1 i ti :
  mem_created 1 demo_phys 2 demo_perm s0 i s1 ti 0 → names_live 1 i s1.
Proof.
  intros [Ht [E0 En] (Hi & _ & Ew) _ (Ha & _) _]. exists ti. split; [done|].
  destruct (word_make_ok CAP_TYPE_MEM 0 demo_perm 0 2) as (W1 & _ & W3 & _); [done|done|]. rewrite Ew, W3.
  split; [done|]. split; [lia|done].
Qed.

(** * The theorems at these runs *)


Lemma memory_isolation_witness :
  ∃ s, live_mem (k_objects s) (k_obj_next s) 0 ∧ in_region (object 0 s) demo_phys ∧ memory_isolated s.
Proof.
  destruct demo_mem as (s0 & s1 & i & ti & _ & _ & _ & [_ [E0 En] _ _ (Ha & Hk & Hp & Hn & _) _] & Hr).
  exists s1. split; [split; [lia|done]|]. split; [|exact (memory_isolation frame_pool_bss s1 Hr)].
  unfold in_region. rewrite Hp, Hn. done.
Defined.





Lemma create_mem_spec_witness :
  ∃ s0 i ti s1, booted frame_pool_bss s0 ∧ cap_create_mem 1 demo_phys 2 demo_perm s0 = Ok (0, i) s1 ∧
    mem_created 1 demo_phys 2 demo_perm s0 i s1 ti 0.
Proof.
  destruct demo_boot as (s0 & Hr & Hb).
  destruct (create_mem_spec frame_pool_bss 1 demo_phys 2 demo_perm s0 Hr ltac:(done) ltac:(done) ltac:(done))
    as (r & s1 & E & O).
  destruct O as [No|_ Hex|i ti o _ -> Hc]; [by destruct (No (demo_view _ Hb))|by destruct (demo_room 1 _ Hb ltac:(done) Hex)|].
  exists s0, i, ti, s1. do 2 (split; [done|]).
  assert (o = 0) as <- by (destruct (mc_fresh _ _ _ _ _ _ _ _ _ Hc) as [-> _]; apply (bt_objects _ _ Hb)). done.
Defined.

(** Right after boot the arena's first three frames are the lowest free run. *)
Lemma arena_alloc_spec_witness :
  ∃ s0 i ti s1, booted frame_pool_bss s0 ∧ cap_arena_alloc 1 3 demo_perm s0 = Ok (0, i) s1 ∧
    mem_created 1 (512 * FRAME_SIZE) 3 demo_perm s0 i s1 ti 0 ∧ run_taken s0 s1 3 0 0.
Proof.
  destruct demo_boot as (s0 & Hr & Hb).
  destruct (arena_alloc_spec frame_pool_bss 1 3 demo_perm s0 Hr ltac:(done) ltac:(done)) as (r & s1 & E & O).
  destruct (bt_arena _ _ Hb) as [Ea Eb]. rewrite bss_arena in Ea.
  assert (∀ f, arena_used (k_arena_bitmap s0) f = false) as Hfree by (intros f; by rewrite Eb).
  destruct O as [[|[|]] _ _|E0|Hex|Hno|i ti o st -> [[Hst _] _ Hfirst] Hc Ht]; try done.
  - by rewrite Ea in E0.
  - by destruct (demo_room 1 _ Hb ltac:(done) Hex).
  - destruct (Hno 0 ltac:(done) ltac:(done)) as (f & _ & Hf). by rewrite Hfree in Hf.
  - assert (st = 0) as ->.
    { destruct (Z.eq_dec st 0); [done|]. destruct (Hfirst 0 ltac:(lia)) as (f & _ & Hf). by rewrite Hfree in Hf. }
    assert (o = 0) as -> by (destruct (mc_fresh _ _ _ _ _ _ _ _ _ Hc) as [-> _]; apply (bt_objects _ _ Hb)).
    rewrite Ea, Z.mul_0_l, Z.add_0_r in Hc. exists s0, i, ti, s1. done.
Defined.

(** Process 1 revokes the view it created. *)
Lemma revoke_spec_witness :
  ∃ s1 i s2, o_active (object 0 s1) = 1 ∧ cap_revoke 1 i s1 = Ok 0 s2 ∧ revoked_all 1 i s1 s2 0.
Proof.
  destruct demo_mem as (s0 & s1 & i & ti & _ & _ & _ & Hc & Hr). pose proof (demo_names _ _ _ _ Hc) as Hn.
  pose proof Hc as [Ht [E0 En] (Hi & _ & Ew) _ (Ha & _) _].
  destruct (revoke_spec frame_pool_bss 1 i s1 Hr ltac:(done) Hi) as (r & s2 & E & O).
  destruct O as [No|o _ -> Hall]; [done|]. exists s1, i, s2. do 2 (split; [done|]).
  pose proof (rv_object _ _ _ _ _ Hall) as (tj & Htj & Eo & _).
  assert (tj = ti) as ->.
  { destruct (kreach_kernel_ok _ _ Hr) as ((hold & HI) & _). destruct Htj as (A & B & D).
    eapply table_of_inj; [apply (inv_pids HI)|exact Ht|..]; done. }
  destruct (word_make_ok CAP_TYPE_MEM 0 demo_perm 0 2) as (_ & _ & W3 & _); [done|done|].
  rewrite Ew, W3 in Eo. by subst o.
Defined.

(** Process 1 asks to map the view at 4 MiB. *)
Lemma map_spec_witness :
  ∃ s1 i r s2, names_live 1 i s1 ∧ cap_map 1 i 0x400000 3 s1 = Ok r s2 ∧ map_outcome 1 i 0x400000 3 s1 r s2.
Proof.
  destruct demo_mem as (s0 & s1 & i & ti & _ & _ & _ & Hc & Hr). pose proof (demo_names _ _ _ _ Hc) as Hn.
  destruct Hc as [_ _ (Hi & _ & _) _ _ _].
  destruct (map_spec frame_pool_bss 1 i 0x400000 3 s1 Hr ltac:(done) Hi ltac:(done)) as (r & s2 & E & O).
  by exists s1, i, r, s2.
Defined.

Lemma unmap_spec_witness :
  ∃ s1 i r s2, names_live 1 i s1 ∧ cap_unmap 1 i 0x400000 s1 = Ok r s2 ∧ unmap_outcome 1 0x400000 s1 r s2.
Proof.
  destruct demo_mem as (s0 & s1 & i & ti & _ & _ & _ & Hc & Hr). pose proof (demo_names _ _ _ _ Hc) as Hn.
  destruct Hc as [_ _ (Hi & _ & _) _ _ _].
  destruct (unmap_spec frame_pool_bss 1 i 0x400000 s1 Hr ltac:(done) Hi) as (r & s2 & E & O).
  by exists s1, i, r, s2.
Defined.

(** Process 1 dies holding the view it created. *)
Lemma teardown_spec_witness :
  ∃ s1 i r s2, names_live 1 i s1 ∧ cap_table_teardown 1 s1 = Ok r s2 ∧
    ∀ ti, 0 ≤ ti < CAP_TABLE_MAX → (k_table_pid s2).[ti] ≠ 1.
Proof.
  destruct demo_mem as (s0 & s1 & i & ti & _ & _ & _ & Hc & Hr). pose proof (demo_names _ _ _ _ Hc) as Hn.
  destruct (teardown_spec frame_pool_bss 1 s1 Hr ltac:(done)) as (r & s2 & E & O).
  exists s1, i, r, s2. do 2 (split; [done|]). by apply O.
Defined.



Lemma chan_send_spec_witness :
  ∃ s r s', booted frame_pool_bss s ∧ k_chan_send 1 0 7 0 (Some [1; 2]) 2 None 0 0 s = Ok r s' ∧ send_closed 1 0 s r s'.
Proof.
  destruct demo_boot as (s & Hr & Hb).
  destruct (chan_send_spec frame_pool_bss 1 0 7 0 (Some [1; 2]) 2 None 0 0 s Hr) as (r & s' & E & O).
  { split; [done|]. intros _. split; try done. by intros bytes [= <-]. }
  by exists s, r, s'.
Defined.

Lemma chan_close_spec_witness :
  ∃ s r s', booted frame_pool_bss s ∧ k_chan_close 1 0 1 0 s = Ok r s' ∧ close_outcome 1 0 1 0 s r s'.
Proof.
  destruct demo_boot as (s & Hr & Hb).
  destruct (chan_close_spec frame_pool_bss 1 0 1 0 s Hr) as (r & s' & E & O); [done|]. by exists s, r, s'.
Defined.

Lemma io_in_spec_witness :
  ∃ s r s', booted frame_pool_bss s ∧ k_io_in 1 0 4 2 s = Ok r s' ∧
    io_outcome 1 0 CAP_PERM_R 4 2 (λ port, HIoRead port 2) s (fst r) s'.
Proof.
  destruct demo_boot as (s & Hr & Hb).
  destruct (io_in_spec frame_pool_bss 1 0 4 2 s Hr) as (r & s' & E & O); [done..|]. by exists s, r, s'.
Defined.

Lemma io_out_spec_witness :
  ∃ s r s', booted frame_pool_bss s ∧ k_io_out 1 0 4 2 0xFF s = Ok r s' ∧
    io_outcome 1 0 CAP_PERM_W 4 2 (λ port, HIoWrite port 2 0xFF) s r s'.
Proof.
  destruct demo_boot as (s & Hr & Hb).
  destruct (io_out_spec frame_pool_bss 1 0 4 2 0xFF s Hr) as (r & s' & E & O); [done..|]. by exists s, r, s'.
Defined.


Lemma irq_notify_spec_witness :
  ∃ s s', booted frame_pool_bss s ∧ cap_irq_notify 33 s = Ok tt s' ∧ irq_latched 33 s' = true.
Proof.
  destruct demo_boot as (s & Hr & Hb).
  destruct (irq_notify_spec frame_pool_bss 33 s Hr) as (s' & E & _ & O).
  exists s, s'. do 2 (split; [done|]). by rewrite O.
Defined.

(** An edge on vector 33 is latched, then drained. *)
Lemma irq_drain_spec_witness :
  ∃ s s', irq_latched 33 s = true ∧ cap_irq_drain_pending s = Ok tt s' ∧ drained s s'.
Proof.
  destruct demo_boot as (s0 & Hr0 & Hb). pose proof (kreach_kernel_ok _ _ Hr0) as Hk.
  destruct (proj1 (wp_Ok _ _ _) (irq_notify_ok 33 s0 Hk)) as ([] & s & E0 & _ & Hlat & _).
  assert (kreach frame_pool_bss s) as Hr by (by apply (kr_step _ (OpIrqNotify 33) s0)).
  destruct (irq_drain_spec frame_pool_bss s Hr) as (s' & E & O). exists s, s'. split; [by rewrite Hlat|done].
Defined.

Lemma irq_bind_spec_witness :
  ∃ s r s', booted frame_pool_bss s ∧ k_irq_bind 1 0 4 s = Ok r s' ∧ bind_outcome 1 0 4 s r s'.
Proof.
  destruct demo_boot as (s & Hr & Hb).
  destruct (irq_bind_spec frame_pool_bss 1 0 4 s Hr) as (r & s' & E & O); [done..|]. by exists s, r, s'.
Defined.

Lemma irq_unbind_spec_witness :
  ∃ s r s', booted frame_pool_bss s ∧ k_irq_unbind 1 0 s = Ok r s' ∧ unbind_outcome s r s'.
Proof.
  destruct demo_boot as (s & Hr & Hb).
  destruct (irq_unbind_spec frame_pool_bss 1 0 s Hr) as (r & s' & E & O); [done..|]. by exists s, r, s'.
Defined.
