(* ===== verification/Paging.v ===== *)
(** Four-level page tables, [src/arch/x86/user_paging.c], over the boot identity map that
    [src/arch/x86/boot.asm] builds.

    Physical memory is a map from the address of a 64-bit word to its value, so a table
    pointer is an address and [tbl[i]] is the word at [tbl + 8 * i]; page tables are
    allocated from and returned to the frame pool of [FramePool].  [xlat] is the processor's
    walk of the tables, with the large pages of the upper levels and the rights of a page
    as the conjunction of the rights of every level.  Linker symbols (the boot tables, the
    image end) and the stack pointer are the class [Machine]. *)

From stdpp Require Import base gmap list list_numbers.
From Stdlib Require Import ZArith Lia Bool.
From S2P Require Import Prelude FramePool CapState CapPools.
#[local] Open Scope Z_scope.
#[local] Open Scope carr_scope.

Definition USER_PTE_PRESENT : Z := 1.
Definition USER_PTE_WRITE : Z := 2.
Definition USER_PTE_USER : Z := 4.
Definition USER_PTE_PWT : Z := 8.
Definition USER_PTE_PCD : Z := 16.
Definition USER_PTE_NOEXEC : Z := 2 ^ 63.
Definition USER_PTE_FRAME_MASK : Z := 0x000FFFFFFFFFF000.
Definition PTE_PS : Z := 128.

(** [e & f], as a condition. *)
Definition has (e f : Z) : bool := negb (Z.land e f =? 0).
Definition frame_of (e : Z) : Z := Z.land e USER_PTE_FRAME_MASK.

Definition PML4_IDX (va : Z) : Z := Z.land (Z.shiftr va 39) 0x1FF.
Definition PDPT_IDX (va : Z) : Z := Z.land (Z.shiftr va 30) 0x1FF.
Definition PD_IDX (va : Z) : Z := Z.land (Z.shiftr va 21) 0x1FF.
Definition PT_IDX (va : Z) : Z := Z.land (Z.shiftr va 12) 0x1FF.

(** * The machine *)

Class Machine := {
  p4_table : Z;
  p3_table : Z;
  p2_table_0 : Z;
  p2_table_1 : Z;
  p2_table_2 : Z;
  p2_table_3 : Z;
  image_end : Z;
  current_sp : Z
}.

(** A translation cached for the SIMI objects, shared by the processes that run it. *)
Record SimiActivation := mkAct {
  a_valid : Z;
  a_retired : Z;
  a_mappers : Z;
  a_code_pages : Z;
  a_frame : gmap Z Z
}.
#[export] Instance CZero_SimiActivation : CZero SimiActivation := mkAct 0 0 0 0 ∅.

Definition SIMI_MAX_ACTIVATIONS : Z := 16.

Record Mach := mkMach {
  m_frames : FramePool;
  m_mem : gmap Z Z;
  m_acts : gmap Z SimiActivation
}.

Definition set_m_frames (f : FramePool) (m : Mach) : Mach := mkMach f (m_mem m) (m_acts m).
Definition set_m_mem (w : gmap Z Z) (m : Mach) : Mach := mkMach (m_frames m) w (m_acts m).
Definition set_m_acts (a : gmap Z SimiActivation) (m : Mach) : Mach := mkMach (m_frames m) (m_mem m) a.

(** [tbl[i]] and [tbl[i] = e]. *)
Definition pte (m : Mach) (tbl i : Z) : Z := (m_mem m).[tbl + 8 * i].
Definition set_pte (tbl i e : Z) (m : Mach) : Mach := set_m_mem (m_mem m).[tbl + 8 * i <- e] m.

Module X86.
Section Tables.
Context {MA : Machine}.

(** * The boot identity map *)

Definition p2_table (k : Z) : Z :=
  if k =? 0 then p2_table_0 else if k =? 1 then p2_table_1
  else if k =? 2 then p2_table_2 else p2_table_3.

(** The page-table part of [_start]: one PML4 slot, four PDPT slots, and 2048 large pages;
    the rest of the six tables is zeroed with the image's [.bss]. *)
Definition boot_page_tables (w : gmap Z Z) : gmap Z Z :=
  let w := w.[p4_table <- Z.lor p3_table 3] in
  let w := for_up 4 0 (fun k w => w.[p3_table + 8 * k <- Z.lor (p2_table k) 3]) w in
  for_up (Z.to_nat 2048) 0 (fun c w =>
    w.[p2_table (c / 512) + 8 * (c mod 512) <- Z.lor (u32 (0x200000 * c)) 0x83]) w.

(** * Tables *)

Definition alloc_page_table (m : Mach) : Z * Mach :=
  let '(t, fp) := allocate_physical_ram_frame current_sp (m_frames m) in
  let m := set_m_frames fp m in
  if t =? 0 then (0, m) else (t, for_up 512 0 (fun i => set_pte t i 0) m).

Definition table_entry (child : Z) : Z :=
  Z.lor (Z.lor (Z.lor (frame_of child) USER_PTE_PRESENT) USER_PTE_WRITE) USER_PTE_USER.

Definition get_or_alloc (parent idx : Z) (m : Mach) : Z * Mach :=
  if negb (has (pte m parent idx) USER_PTE_PRESENT) then
    let '(child, m) := alloc_page_table m in
    if child =? 0 then (0, m) else (child, set_pte parent idx (table_entry child) m)
  else (frame_of (pte m parent idx), m).

Definition clone_kernel_slots (dst src : Z) (m : Mach) : Mach :=
  for_up 512 0 (fun i m =>
    let e := pte m src i in
    if negb (has e USER_PTE_PRESENT) then m
    else if negb (has e USER_PTE_USER) then set_pte dst i e m else m) m.

Definition user_clone_page_table (m : Mach) : Z * Mach :=
  let '(new_pml4, m) := alloc_page_table m in
  if new_pml4 =? 0 then (0, m) else (new_pml4, clone_kernel_slots new_pml4 p4_table m).

Definition user_map_page (pml4 vaddr paddr flags : Z) (m : Mach) : Mach :=
  let '(pdpt, m) := get_or_alloc pml4 (PML4_IDX vaddr) m in
  if pdpt =? 0 then m else
  let '(pd, m) := get_or_alloc pdpt (PDPT_IDX vaddr) m in
  if pd =? 0 then m else
  let '(pt, m) := get_or_alloc pd (PD_IDX vaddr) m in
  if pt =? 0 then m else
  set_pte pt (PT_IDX vaddr) (Z.lor (frame_of paddr) flags) m.

Definition copy_table (dst src : Z) (m : Mach) : Mach :=
  for_up 512 0 (fun i m => set_pte dst i (pte m src i) m) m.

Definition own_table (parent idx copy_existing : Z) (m : Mach) : Z * Mach :=
  let e := pte m parent idx in
  if has e USER_PTE_PRESENT && has e USER_PTE_USER then (frame_of e, m) else
  let '(fresh, m) := alloc_page_table m in
  if fresh =? 0 then (0, m) else
  let m := if negb (copy_existing =? 0) && has e USER_PTE_PRESENT
           then copy_table fresh (frame_of e) m else m in
  (fresh, set_pte parent idx (table_entry fresh) m).

(** A 2 MiB page as 512 small ones: same frames, same flags but for the size bit. *)
Definition replicate_huge (pt pe : Z) (m : Mach) : Mach :=
  let base := frame_of pe in
  let keep := Z.land pe (u64_not (Z.lor USER_PTE_FRAME_MASK PTE_PS)) in
  for_up 512 0 (fun i => set_pte pt i (Z.lor (u64 (base + i * 4096)) keep)) m.

(** The page table of [vaddr] in a directory the process owns. *)
Definition own_pt (pd idx : Z) (m : Mach) : Z * Mach :=
  let pe := pte m pd idx in
  if has pe USER_PTE_PRESENT && has pe USER_PTE_USER then (frame_of pe, m) else
  let '(pt, m) := alloc_page_table m in
  if pt =? 0 then (0, m) else
  let m := if has pe USER_PTE_PRESENT then
             if has pe PTE_PS then replicate_huge pt pe m else copy_table pt (frame_of pe) m
           else m in
  (pt, set_pte pd idx (table_entry pt) m).

(** The write right a re-mapping of the same user frame keeps. *)
Definition kept_write (prev paddr : Z) : Z :=
  if has prev USER_PTE_PRESENT && has prev USER_PTE_USER && (frame_of prev =? frame_of paddr)
  then Z.land prev USER_PTE_WRITE else 0.

Definition user_map_page_safe (pml4 vaddr paddr flags : Z) (m : Mach) : Z * Mach :=
  let '(pdpt, m) := own_table pml4 (PML4_IDX vaddr) 1 m in
  if pdpt =? 0 then (-1, m) else
  let '(pd, m) := own_table pdpt (PDPT_IDX vaddr) 1 m in
  if pd =? 0 then (-1, m) else
  let '(pt, m) := own_pt pd (PD_IDX vaddr) m in
  if pt =? 0 then (-1, m) else
  let prev := pte m pt (PT_IDX vaddr) in
  (0, set_pte pt (PT_IDX vaddr)
        (Z.lor (Z.lor (frame_of paddr) flags) (kept_write prev paddr)) m).

(** [for (p = i; p < i + n; p++)], returning -1 at the first page that fails. *)
Fixpoint map_identity_from (n : nat) (i pml4 phys flags : Z) (m : Mach) : Z * Mach :=
  match n with
  | O => (0, m)
  | S n' =>
      let va := u64 (phys + i * 4096) in
      let '(r, m) := user_map_page_safe pml4 va va flags m in
      if r <? 0 then (-1, m) else map_identity_from n' (i + 1) pml4 phys flags m
  end.

Definition user_map_identity (pml4 phys npages flags : Z) (m : Mach) : Z * Mach :=
  map_identity_from (Z.to_nat npages) 0 pml4 phys flags m.

Definition cap_arch_identity_map_user (pml4_phys phys npages cap_perms : Z) (m : Mach) : Z * Mach :=
  let leaf := Z.lor (Z.lor USER_PTE_PRESENT USER_PTE_USER) USER_PTE_NOEXEC in
  let leaf := if has cap_perms 2 then Z.lor leaf USER_PTE_WRITE else leaf in
  user_map_identity pml4_phys phys npages leaf m.

Definition present_child (m : Mach) (parent idx : Z) : Z :=
  if has (pte m parent idx) USER_PTE_PRESENT then frame_of (pte m parent idx) else 0.

Definition user_unmap_page (pml4 vaddr : Z) (m : Mach) : Mach :=
  let pdpt := present_child m pml4 (PML4_IDX vaddr) in
  if pdpt =? 0 then m else
  let pd := present_child m pdpt (PDPT_IDX vaddr) in
  if pd =? 0 then m else
  let pt := present_child m pd (PD_IDX vaddr) in
  if pt =? 0 then m else
  set_pte pt (PT_IDX vaddr) 0 m.

(** * The hooks of the capability layer *)

Definition leaf_flags (cap_perms : Z) : Z :=
  let flags := Z.lor USER_PTE_PRESENT USER_PTE_USER in
  let flags := if has cap_perms 2 then Z.lor flags USER_PTE_WRITE else flags in
  let flags := if negb (has cap_perms 4) then Z.lor flags USER_PTE_NOEXEC else flags in
  let flags := if has cap_perms CAP_PERM_DEV_UC then Z.lor flags USER_PTE_PCD else flags in
  if has cap_perms CAP_PERM_DEV_WC then Z.lor flags USER_PTE_PWT else flags.

Definition cap_arch_map_page (pml4_phys vaddr paddr cap_perms : Z) (m : Mach) : Z * Mach :=
  if pml4_phys =? 0 then (-1, m) else
  user_map_page_safe pml4_phys vaddr paddr (leaf_flags cap_perms) m.

Definition cap_arch_unmap_page (pml4_phys vaddr : Z) (m : Mach) : Z * Mach :=
  if pml4_phys =? 0 then (-1, m) else (0, user_unmap_page pml4_phys vaddr m).

(** * Releasing an address space *)

Definition simi_activation_slot_reset (i : Z) (m : Mach) : Mach :=
  set_m_acts (m_acts m).[i <- czero] m.

(** The first valid activation that has the frame among its code pages. *)
Definition find_activation (paddr : Z) (m : Mach) : option Z :=
  find_up (Z.to_nat SIMI_MAX_ACTIVATIONS) 0 (fun i =>
    let act := (m_acts m).[i] in
    negb (a_valid act =? 0) &&
    match find_up (Z.to_nat (a_code_pages act)) 0 (fun p => (a_frame act).[p] =? paddr) with
    | Some _ => true | None => false
    end).

Definition free_code_pages (act : SimiActivation) (m : Mach) : Mach :=
  for_up (Z.to_nat (a_code_pages act)) 0 (fun q m =>
    set_m_frames (snd (free_physical_ram_frame (a_frame act).[q] (m_frames m))) m) m.

(** The answer, the updated [seen] bitmap, and the machine. *)
Definition simi_frame_is_cached (paddr seen : Z) (m : Mach) : bool * Z * Mach :=
  if paddr =? 0 then (false, seen, m) else
  match find_activation paddr m with
  | None => (false, seen, m)
  | Some i =>
      if has seen (Z.shiftl 1 i) then (true, seen, m) else
      let seen := Z.lor seen (Z.shiftl 1 i) in
      let act := (m_acts m).[i] in
      let act := if 0 <? a_mappers act then
        mkAct (a_valid act) (a_retired act) (a_mappers act - 1) (a_code_pages act) (a_frame act) else act in
      let m := set_m_acts (m_acts m).[i <- act] m in
      if (a_mappers act =? 0) && negb (a_retired act =? 0)
      then (true, seen, simi_activation_slot_reset i (free_code_pages act m))
      else (true, seen, m)
  end.

Section Free.
Context (arena_base : Z).

Definition user_frame_refused (pa : Z) : bool :=
  if pa <? image_end then true
  else negb (arena_base =? 0) && (arena_base <=? pa) && (pa <? arena_base + CAP_ARENA_SIZE).

Definition free_user_frame (pa freed : Z) (m : Mach) : Z * Mach :=
  let '(r, fp) := free_physical_ram_frame_for_partition pa
                    (frame_pool_frame_owner (m_frames m) (pa / 4096)) (m_frames m) in
  (if r =? 0 then freed + 1 else freed, set_m_frames fp m).

Definition free_leaf (pa freed seen : Z) (m : Mach) : Z * Z * Mach :=
  if user_frame_refused pa then (freed, seen, m) else
  let '(cached, seen, m) := simi_frame_is_cached pa seen m in
  if (cached : bool) then (freed, seen, m) else
  let '(freed, m) := free_user_frame pa freed m in (freed, seen, m).

(** [levels] is [3 - depth]: entries at depth 3 are leaves, so the recursion is at most four
    tables deep.  The running result is (frames freed, seen bitmap, machine). *)
Fixpoint user_free_subtree (levels : nat) (top : bool) (tbl : Z) (st : Z * Z * Mach) : Z * Z * Mach :=
  for_up 512 0 (fun i st =>
    let '(freed, seen, m) := st in
    let e := pte m tbl i in
    if negb (has e USER_PTE_PRESENT) then st
    else if negb (has e USER_PTE_USER) then st
    else match levels with
    | O => free_leaf (frame_of e) freed seen m
    | S l =>
        if negb top && has e PTE_PS then free_leaf (frame_of e) freed seen m else
        let child := frame_of e in
        let '(freed, seen, m) := user_free_subtree l false child (freed, seen, m) in
        if user_frame_refused child then (freed, seen, m) else
        let '(freed, m) := free_user_frame child freed m in (freed, seen, m)
    end) st.

(** Returns the number of frames freed, which the kernel logs. *)
Definition user_destroy_page_table (pml4_phys : Z) (m : Mach) : Z * Mach :=
  if pml4_phys =? 0 then (0, m) else
  let '(freed, _, m) := user_free_subtree 3 true pml4_phys (0, 0, m) in
  if user_frame_refused pml4_phys then (freed, m) else free_user_frame pml4_phys freed m.

End Free.
End Tables.
End X86.

(** * The processor's walk *)

Record rights := mkR { r_user : bool; r_write : bool; r_noexec : bool }.

Definition rights_of (e : Z) : rights :=
  mkR (has e USER_PTE_USER) (has e USER_PTE_WRITE) (has e USER_PTE_NOEXEC).
Definition meet (a b : rights) : rights :=
  mkR (r_user a && r_user b) (r_write a && r_write b) (r_noexec a || r_noexec b).

(** The page frame and rights of the page at the indices [ix] below table [tbl]; an entry
    with the size bit above the last level maps a large page ([top]: the PML4 has none). *)
Fixpoint xwalk (m : Mach) (top : bool) (tbl : Z) (ix : list Z) (a : rights) : option (Z * rights) :=
  match ix with
  | [] => None
  | i :: rest =>
      let e := pte m tbl i in
      if negb (has e USER_PTE_PRESENT) then None else
      let a := meet a (rights_of e) in
      match rest with
      | [] => Some (frame_of e, a)
      | i1 :: rest' =>
          if negb top && has e PTE_PS then
            match rest' with
            | [] => Some (Z.land (frame_of e) (Z.lnot 0x1FFFFF) + i1 * 4096, a)
            | i0 :: _ => Some (Z.land (frame_of e) (Z.lnot 0x3FFFFFFF) + (i1 * 512 + i0) * 4096, a)
            end
          else xwalk m false (frame_of e) rest a
      end
  end.

Definition va_path (va : Z) : list Z := [PML4_IDX va; PDPT_IDX va; PD_IDX va; PT_IDX va].

Definition xlat (m : Mach) (pml4 va : Z) : option (Z * rights) :=
  xwalk m true pml4 (va_path va) (mkR true true false).
