(* ===== verification/PagingSpec.v ===== *)
(** Address spaces: the well-formedness of page tables over the boot identity map.

    [node] follows the entries a process owns (present and user); [tables_ok] says that the
    tables so reached are allocated frames, that no table has two places in any of the
    address spaces, and that every entry is either such a table or the boot map's own entry.
    [xlat_leaf] reads the processor's walk off those tables, and [attach] is the one way in
    which the operations of [Paging] grow an address space. *)

From stdpp Require Import base gmap list list_numbers.
From Stdlib Require Import ZArith Lia Bool.
From S2P Require Import Prelude FramePool FramePoolSpec CapState CapPools Paging.
Import X86.
#[local] Open Scope Z_scope.
#[local] Open Scope carr_scope.

(** * Entries *)

Lemma has_testbit e k : 0 ≤ k → has e (2 ^ k) = Z.testbit e k.
Proof. intros. unfold has. by rewrite <- Z.shiftl_1_l, land_bit_testbit, negb_involutive. Qed.

Lemma has_present e : has e USER_PTE_PRESENT = Z.testbit e 0.
Proof. by apply (has_testbit e 0). Qed.
Lemma has_write e : has e USER_PTE_WRITE = Z.testbit e 1.
Proof. by apply (has_testbit e 1). Qed.
Lemma has_user e : has e USER_PTE_USER = Z.testbit e 2.
Proof. by apply (has_testbit e 2). Qed.
Lemma has_ps e : has e PTE_PS = Z.testbit e 7.
Proof. by apply (has_testbit e 7). Qed.
Lemma has_noexec e : has e USER_PTE_NOEXEC = Z.testbit e 63.
Proof. by apply (has_testbit e 63). Qed.

Lemma frame_mask_testbit k : 0 ≤ k → Z.testbit USER_PTE_FRAME_MASK k = (12 <=? k) && (k <? 52).
Proof.
  intros Hk. change USER_PTE_FRAME_MASK with (Z.shiftl (2 ^ 40 - 1) 12).
  destruct (Z.leb_spec 12 k).
  - rewrite Z.shiftl_spec, ones_testbit by lia. simpl. zcase.
  - rewrite Z.shiftl_spec_low by lia. done.
Qed.

Lemma frame_of_testbit e k : 0 ≤ k → Z.testbit (frame_of e) k = (12 <=? k) && (k <? 52) && Z.testbit e k.
Proof. intros. unfold frame_of. rewrite Z.land_spec, frame_mask_testbit by done. apply andb_comm. Qed.

(** A page-aligned physical address. *)
Definition page (a : Z) : Prop := 0 ≤ a < 2 ^ 52 ∧ a mod 4096 = 0.

Lemma page_testbit a k : page a → (k < 12 ∨ 52 ≤ k) → Z.testbit a k = false.
Proof.
  intros [Hr Hm] [Hk|Hk]; [|by apply (testbit_high a 52)].
  destruct (decide (0 ≤ k)); [|apply Z.testbit_neg_r; lia].
  assert (Z.testbit (a mod 2 ^ 12) k = Z.testbit a k) as <- by (apply Z.mod_pow2_bits_low; lia).
  change (2 ^ 12) with 4096. rewrite Hm. apply Z.testbit_0_l.
Qed.

Lemma frame_of_page a : page a → frame_of a = a.
Proof.
  intros H. apply Z.bits_inj'. intros k Hk. rewrite frame_of_testbit by done.
  destruct (Z.leb_spec 12 k), (Z.ltb_spec k 52); simpl; try done; symmetry; apply page_testbit; (done || lia).
Qed.

Lemma frame_of_is_page e : page (frame_of e).
Proof.
  split.
  - apply bits_range; [done|]. intros n Hn. rewrite frame_of_testbit by lia. zcase.
  - apply Z.bits_inj'. intros k Hk. change 4096 with (2 ^ 12). destruct (decide (k < 12)).
    + rewrite Z.mod_pow2_bits_low, frame_of_testbit, Z.testbit_0_l by lia. zcase.
    + rewrite Z.mod_pow2_bits_high, Z.testbit_0_l by lia. done.
Qed.

(** Flags outside the frame field leave it alone. *)
Lemma frame_of_lor a fl : frame_of fl = 0 → frame_of (Z.lor a fl) = frame_of a.
Proof.
  intros H. unfold frame_of in *. rewrite Z.land_lor_distr_l, H. apply Z.lor_0_r.
Qed.

Lemma lor_testbit_flag a fl k : page a → (k < 12 ∨ 52 ≤ k) → Z.testbit (Z.lor a fl) k = Z.testbit fl k.
Proof. intros. rewrite Z.lor_spec, page_testbit by done. done. Qed.

Lemma has_lor a fl k : page a → 0 ≤ k → (k < 12 ∨ 52 ≤ k) → has (Z.lor a fl) (2 ^ k) = has fl (2 ^ k).
Proof. intros. rewrite !has_testbit by done. by apply lor_testbit_flag. Qed.

Lemma has_low e fl k : page e → 0 ≤ k → (k < 12 ∨ 52 ≤ k) → has (Z.lor e fl) (2 ^ k) = Z.testbit fl k.
Proof. intros. rewrite has_testbit by done. by apply lor_testbit_flag. Qed.

Lemma rights_lor a fl : page a → rights_of (Z.lor a fl) = rights_of fl.
Proof.
  intros. unfold rights_of. rewrite !has_user, !has_write, !has_noexec, !lor_testbit_flag by (done || lia). done.
Qed.

(** * Indices and table addresses *)

Definition idx (i : Z) : Prop := 0 ≤ i < 512.

Lemma land_511 x : Z.land x 0x1FF = x mod 512.
Proof. change 0x1FF with (Z.ones 9). by rewrite Z.land_ones. Qed.

Lemma idx_range va : idx (PML4_IDX va) ∧ idx (PDPT_IDX va) ∧ idx (PD_IDX va) ∧ idx (PT_IDX va).
Proof.
  unfold PML4_IDX, PDPT_IDX, PD_IDX, PT_IDX, idx. rewrite !land_511.
  split_and!; apply Z.mod_pos_bound; done.
Qed.

(** The frames page tables live in. *)
Definition table_addr (t : Z) : Prop := 0 < t < 2 ^ 32 ∧ t mod 4096 = 0.

Lemma table_page t : table_addr t → page t.
Proof. intros [? ?]. split; [lia|done]. Qed.

Lemma slot_inj t i u j : t mod 4096 = 0 → u mod 4096 = 0 → idx i → idx j → t + 8 * i = u + 8 * j → t = u ∧ i = j.
Proof.
  unfold idx. intros Ht Hu Hi Hj E.
  rewrite (Z.div_mod t 4096), (Z.div_mod u 4096) in E |- * by done. lia.
Qed.

Lemma pte_set m t i e u j :
  t mod 4096 = 0 → u mod 4096 = 0 → idx i → idx j →
  pte (set_pte t i e m) u j = if decide (t = u ∧ i = j) then e else pte m u j.
Proof.
  intros Ht Hu Hi Hj. unfold pte, set_pte. simpl. destruct (decide _) as [[-> ->]|Hne].
  - by rewrite aget_upd_eq.
  - rewrite aget_upd_ne; [done|]. intros E. by apply Hne, (slot_inj t i u j).
Qed.

Lemma pte_set_eq m t i e : pte (set_pte t i e m) t i = e.
Proof. unfold pte, set_pte. simpl. by rewrite aget_upd_eq. Qed.

(** * The boot identity map *)

Section Spaces.
Context {MA : Machine}.

(** The boot map's entry [i] of the table at [p]: the three levels it has, and the 4 KiB
    entries that stand for its large pages at the fourth. *)
Definition boot_entry (p : list Z) (i : Z) : Z :=
  match p with
  | [] => if i =? 0 then Z.lor p3_table 3 else 0
  | [a] => if (a =? 0) && (i <? 4) then Z.lor (p2_table i) 3 else 0
  | [a; b] => if (a =? 0) && (b <? 4) then Z.lor ((b * 512 + i) * 0x200000) 0x83 else 0
  | [a; b; c] => if (a =? 0) && (b <? 4) then Z.lor (((b * 512 + c) * 512 + i) * 4096) 3 else 0
  | _ => 0
  end.

Definition boot_tables : list Z := [p4_table; p3_table; p2_table_0; p2_table_1; p2_table_2; p2_table_3].

Record boot_map (m : Mach) : Prop := {
  bm_p4 : ∀ i, idx i → pte m p4_table i = boot_entry [] i;
  bm_p3 : ∀ i, idx i → pte m p3_table i = boot_entry [0] i;
  bm_p2 : ∀ k i, 0 ≤ k < 4 → idx i → pte m (p2_table k) i = boot_entry [0; k] i;
  bm_addr : ∀ t, t ∈ boot_tables → table_addr t;
  bm_used : ∀ t, t ∈ boot_tables → used (m_frames m) (t / 4096) = true
}.

(** * Owned tables *)

(** An entry the process owns. *)
Definition owned_entry (e : Z) : bool := has e USER_PTE_PRESENT && has e USER_PTE_USER.

Fixpoint node (m : Mach) (t : Z) (p : list Z) : option Z :=
  match p with
  | [] => Some t
  | i :: q => if owned_entry (pte m t i) then node m (frame_of (pte m t i)) q else None
  end.

Definition path_ok (p : list Z) : Prop := (length p ≤ 3)%nat ∧ Forall idx p.

Record tables_ok (m : Mach) (roots : list Z) : Prop := {
  tk_words : words_ok (physical_memory_bitmap (m_frames m));
  tk_boot : boot_map m;
  tk_node : ∀ r p t, r ∈ roots → path_ok p → node m r p = Some t →
    table_addr t ∧ used (m_frames m) (t / 4096) = true ∧ t ∉ boot_tables;
  tk_inj : ∀ r p r' p' t, r ∈ roots → r' ∈ roots → path_ok p → path_ok p' →
    node m r p = Some t → node m r' p' = Some t → r = r' ∧ p = p';
  tk_entry : ∀ r p t i, r ∈ roots → path_ok p → (length p ≤ 2)%nat → idx i → node m r p = Some t →
    pte m t i = boot_entry p i ∨ ∃ c, table_addr c ∧ pte m t i = table_entry c
}.

Lemma node_app m t p q : node m t (p ++ q) = node m t p ≫= λ u, node m u q.
Proof.
  revert t. induction p as [|i p IH]; intros t; [done|]. simpl. destruct (owned_entry _); [apply IH|done].
Qed.

Lemma node_snoc m t p i :
  node m t (p ++ [i]) = node m t p ≫= λ u, if owned_entry (pte m u i) then Some (frame_of (pte m u i)) else None.
Proof. by rewrite node_app. Qed.

Lemma path_ok_snoc p i : path_ok p → (length p ≤ 2)%nat → idx i → path_ok (p ++ [i]).
Proof.
  intros [Hl Hf] Hp Hi. split; [rewrite length_app; simpl; lia|]. apply Forall_app. split; [done|]. by apply Forall_singleton.
Qed.

Lemma path_ok_snoc_inv p i : path_ok (p ++ [i]) → path_ok p ∧ (length p ≤ 2)%nat ∧ idx i.
Proof.
  intros [Hl Hf]. rewrite length_app in Hl. simpl in Hl. apply Forall_app in Hf as [Hf Hi].
  rewrite Forall_singleton in Hi.
  split; [|split; [lia|done]]. split; [lia|done].
Qed.

(** * The fields of the entries that occur *)

Lemma p2_in_boot k : p2_table k ∈ boot_tables.
Proof. unfold p2_table, boot_tables. repeat case_match; set_solver. Qed.

Lemma table_entry_eq c : table_addr c → table_entry c = Z.lor c 7.
Proof.
  intros H. unfold table_entry. rewrite frame_of_page by (by apply table_page). by rewrite <- !Z.lor_assoc.
Qed.

Lemma frame_of_low fl : 0 ≤ fl < 4096 → frame_of fl = 0.
Proof.
  intros H. apply Z.bits_inj'. intros k Hk. rewrite frame_of_testbit, Z.testbit_0_l by done.
  destruct (Z.leb_spec 12 k); [|done]. rewrite (testbit_high fl 12) by (done || lia). apply andb_false_r.
Qed.

Lemma frame_of_entry a fl : page a → 0 ≤ fl < 4096 → frame_of (Z.lor a fl) = a.
Proof. intros Ha Hf. rewrite frame_of_lor by (by apply frame_of_low). by apply frame_of_page. Qed.

Lemma table_entry_owned c : table_addr c → owned_entry (table_entry c) = true ∧ frame_of (table_entry c) = c ∧
  has (table_entry c) PTE_PS = false ∧ rights_of (table_entry c) = mkR true true false.
Proof.
  intros H. pose proof (table_page c H) as Hp. rewrite table_entry_eq by done. unfold owned_entry.
  rewrite frame_of_entry, rights_lor by (done || lia).
  rewrite has_present, has_user, has_ps, !lor_testbit_flag by (done || lia). done.
Qed.

Definition supervisor : rights := mkR false true false.
Definition full : rights := mkR true true false.

Lemma boot_flags a fl : page a → fl = 3 ∨ fl = 0x83 → let e := Z.lor a fl in
  has e USER_PTE_PRESENT = true ∧ owned_entry e = false ∧ frame_of e = a ∧ rights_of e = supervisor ∧
  has e PTE_PS = (fl =? 0x83).
Proof.
  intros Ha Hfl e. unfold e, owned_entry. rewrite frame_of_entry, rights_lor by (done || lia).
  rewrite has_present, has_user, has_ps, !lor_testbit_flag by (done || lia).
  destruct Hfl as [-> | ->]; done.
Qed.

Lemma large_page k c : 0 ≤ k < 4 → idx c → page ((k * 512 + c) * 0x200000).
Proof.
  unfold idx. split; [lia|]. replace ((k * 512 + c) * 2097152) with ((k * 512 + c) * 512 * 4096) by lia. by apply Z.mod_mul.
Qed.

Lemma small_page k c i : 0 ≤ k < 4 → idx c → idx i → page (((k * 512 + c) * 512 + i) * 4096).
Proof. unfold idx. split; [lia|]. by apply Z.mod_mul. Qed.

(** What one entry maps as a last-level entry. *)
Definition leaf (e : Z) : option (Z * rights) :=
  if has e USER_PTE_PRESENT then Some (frame_of e, rights_of e) else None.

Lemma leaf_0 : leaf 0 = None.
Proof. done. Qed.

Lemma boot_small b c i : 0 ≤ b < 4 → idx c → idx i →
  leaf (Z.lor (((b * 512 + c) * 512 + i) * 4096) 3) = Some (((b * 512 + c) * 512 + i) * 4096, supervisor).
Proof.
  intros Hb Hc Hi. unfold leaf.
  destruct (boot_flags (((b * 512 + c) * 512 + i) * 4096) 3) as (-> & _ & -> & -> & _); [by apply small_page|by left|done].
Qed.

Lemma large_base k c : 0 ≤ k < 4 → idx c →
  Z.land ((k * 512 + c) * 0x200000) (Z.lnot 0x1FFFFF) = (k * 512 + c) * 0x200000.
Proof.
  intros. change 2097151 with (Z.ones 21). rewrite <- Z.ldiff_land, Z.ldiff_ones_r by done.
  rewrite Z.shiftr_div_pow2, Z.shiftl_mul_pow2 by done. change (2 ^ 21) with 2097152. rewrite Z.div_mul by done. done.
Qed.

Lemma walk_p2 m k c i a : boot_map m → 0 ≤ k < 4 → idx c → idx i →
  xwalk m false (p2_table k) [c; i] a = Some (((k * 512 + c) * 512 + i) * 4096, meet a supervisor).
Proof.
  intros Hb Hk Hc Hi. cbn [xwalk]. rewrite (bm_p2 m Hb) by done. simpl boot_entry.
  destruct (Z.ltb_spec k 4); [|lia].
  destruct (boot_flags ((k * 512 + c) * 2097152) 131) as (-> & _ & -> & -> & ->); [by apply large_page|by right|].
  cbn [negb andb Z.eqb Pos.eqb]. rewrite large_base by done. repeat f_equal. lia.
Qed.

Lemma walk_p3 m b c i a : boot_map m → idx b → idx c → idx i →
  xwalk m false p3_table [b; c; i] a =
  if b <? 4 then Some (((b * 512 + c) * 512 + i) * 4096, meet (meet a supervisor) supervisor) else None.
Proof.
  intros Hb Hi3 Hc Hi. cbn [xwalk]. rewrite (bm_p3 m Hb) by done. simpl boot_entry.
  destruct (Z.ltb_spec b 4); [|done].
  destruct (boot_flags (p2_table b) 3) as (-> & _ & -> & -> & ->);
    [apply table_page, (bm_addr m Hb), p2_in_boot|by left|].
  cbn [negb andb Z.eqb]. apply walk_p2; [done|unfold idx in *; lia|done|done].
Qed.

Lemma meet_full a : meet full a = a.
Proof. by destruct a. Qed.

Lemma meet_full_r a : meet a full = a.
Proof. destruct a. unfold meet. simpl. by rewrite !andb_true_r, orb_false_r. Qed.

Lemma walk_table m top t i j rest a : has (pte m t i) USER_PTE_PRESENT = true → negb top && has (pte m t i) PTE_PS = false →
  xwalk m top t (i :: j :: rest) a = xwalk m false (frame_of (pte m t i)) (j :: rest) (meet a (rights_of (pte m t i))).
Proof. intros E1 E2. cbn [xwalk]. by rewrite E1, E2. Qed.

Lemma walk_absent m top t i rest a : has (pte m t i) USER_PTE_PRESENT = false → xwalk m top t (i :: rest) a = None.
Proof. intros E. cbn [xwalk]. by rewrite E. Qed.

Lemma walk_owned m top t i j rest a c : table_addr c → pte m t i = table_entry c →
  xwalk m top t (i :: j :: rest) a = xwalk m false c (j :: rest) a.
Proof.
  intros Hc E. destruct (table_entry_owned c Hc) as (Ho & Hf & Hps & Hr). apply andb_true_iff in Ho as [Ho _].
  rewrite walk_table; rewrite E; [|done|by rewrite Hps, andb_false_r]. by rewrite Hf, Hr, meet_full_r.
Qed.

Lemma node_owned m t i p c : table_addr c → pte m t i = table_entry c → node m t (i :: p) = node m c p.
Proof. intros Hc E. simpl. rewrite E. by destruct (table_entry_owned c Hc) as (-> & -> & _). Qed.

Lemma boot_entry_cases m p i : boot_map m → path_ok p → idx i →
  boot_entry p i = 0 ∨ ∃ a fl, page a ∧ (fl = 3 ∨ fl = 0x83) ∧ boot_entry p i = Z.lor a fl.
Proof.
  intros Hb [_ Hp] Hi. assert (∀ t, t ∈ boot_tables → page t) as Ht by (intros; by apply table_page, (bm_addr m Hb)).
  destruct p as [|a [|b [|c [|]]]]; simpl; [| | | |by left].
  - destruct (i =? 0); [right|by left]. exists p3_table, 3. split; [apply Ht; unfold boot_tables; set_solver|auto].
  - destruct ((a =? 0) && (i <? 4)); [right|by left]. exists (p2_table i), 3. split; [apply Ht, p2_in_boot|auto].
  - destruct ((a =? 0) && (b <? 4)) eqn:E; [right|by left]. apply andb_true_iff in E as [_ E%Z.ltb_lt].
    apply Forall_cons in Hp as [_ Hp]. rewrite Forall_singleton in Hp.
    exists ((b * 512 + i) * 0x200000), 0x83. split; [apply large_page; unfold idx in *; lia|auto].
  - destruct ((a =? 0) && (b <? 4)) eqn:E; [right|by left]. apply andb_true_iff in E as [_ E%Z.ltb_lt].
    apply Forall_cons in Hp as [_ Hp]. apply Forall_cons in Hp as [Hb' Hp]. rewrite Forall_singleton in Hp.
    exists (((b * 512 + c) * 512 + i) * 4096), 3. split; [apply small_page; unfold idx in *; lia|auto].
Qed.

Lemma boot_not_owned m p i : boot_map m → path_ok p → idx i → owned_entry (boot_entry p i) = false.
Proof.
  intros Hb Hp Hi. destruct (boot_entry_cases m p i Hb Hp Hi) as [->|(a & fl & Ha & Hfl & ->)]; [done|].
  by apply boot_flags.
Qed.

Lemma node_boot m t i p q : boot_map m → path_ok p → idx i → pte m t i = boot_entry p i → node m t (i :: q) = None.
Proof. intros Hb Hp Hi E. simpl. rewrite E. by rewrite (boot_not_owned m). Qed.

(** What the processor finds at an address is what the last-level table of the process says,
    and the boot map's page where the process has no such table. *)
Definition page_entry (m : Mach) (r va : Z) : Z :=
  match node m r [PML4_IDX va; PDPT_IDX va; PD_IDX va] with
  | Some t => pte m t (PT_IDX va)
  | None => boot_entry [PML4_IDX va; PDPT_IDX va; PD_IDX va] (PT_IDX va)
  end.

Lemma walk_boot4 m t i4 i3 i2 i1 : boot_map m → idx i4 → idx i3 → idx i2 → idx i1 →
  pte m t i4 = boot_entry [] i4 → xwalk m true t [i4; i3; i2; i1] full = leaf (boot_entry [i4; i3; i2] i1).
Proof.
  intros Hb H4 H3 H2 H1 E. simpl boot_entry in *. destruct (Z.eqb_spec i4 0) as [->|]; [|by rewrite walk_absent; rewrite ?E].
  destruct (boot_flags p3_table 3) as (Fp & _ & Ff & Fr & _);
    [apply table_page, (bm_addr m Hb); unfold boot_tables; set_solver|by left|].
  rewrite walk_table by (by rewrite ?E). rewrite E, Ff, Fr, meet_full, walk_p3 by done. destruct (Z.ltb_spec i3 4) as [Hlt|]; [|done].
  cbn [andb]. rewrite boot_small by (done || (unfold idx in *; lia)). done.
Qed.

Lemma walk_boot3 m t i4 i3 i2 i1 : boot_map m → idx i3 → idx i2 → idx i1 →
  pte m t i3 = boot_entry [i4] i3 → xwalk m false t [i3; i2; i1] full = leaf (boot_entry [i4; i3; i2] i1).
Proof.
  intros Hb H3 H2 H1 E. simpl boot_entry in *. destruct (Z.eqb_spec i4 0) as [->|]; [|by rewrite walk_absent; rewrite ?E].
  cbn [andb] in *. destruct (Z.ltb_spec i3 4) as [Hlt|]; [|by rewrite walk_absent; rewrite ?E].
  destruct (boot_flags (p2_table i3) 3) as (Fp & _ & Ff & Fr & Fps);
    [apply table_page, (bm_addr m Hb), p2_in_boot|by left|].
  rewrite walk_table by (by rewrite E, ?Fps). rewrite E, Ff, Fr, meet_full, walk_p2 by (done || (unfold idx in *; lia)).
  cbn [andb]. rewrite boot_small by (done || (unfold idx in *; lia)). done.
Qed.

Lemma walk_boot2 m t i4 i3 i2 i1 : idx i3 → idx i2 → idx i1 →
  pte m t i2 = boot_entry [i4; i3] i2 → xwalk m false t [i2; i1] full = leaf (boot_entry [i4; i3; i2] i1).
Proof.
  intros H3 H2 H1 E. cbn [xwalk]. rewrite E. simpl boot_entry. destruct (Z.eqb_spec i4 0) as [->|]; [|done].
  cbn [andb]. destruct (Z.ltb_spec i3 4) as [Hlt|]; [|done].
  destruct (boot_flags ((i3 * 512 + i2) * 2097152) 131) as (-> & _ & -> & -> & ->);
    [apply large_page; unfold idx in *; lia|by right|].
  cbn [negb andb Z.eqb Pos.eqb]. rewrite meet_full, large_base by (done || (unfold idx in *; lia)).
  rewrite boot_small by (done || (unfold idx in *; lia)). repeat f_equal. lia.
Qed.

Lemma va_path_ok va : path_ok [PML4_IDX va; PDPT_IDX va; PD_IDX va].
Proof. destruct (idx_range va) as (? & ? & ? & _). split; [simpl; lia|]. rewrite !Forall_cons, Forall_nil. done. Qed.

Lemma xlat_leaf m roots r va : tables_ok m roots → r ∈ roots → xlat m r va = leaf (page_entry m r va).
Proof.
  intros HT Hr. destruct (idx_range va) as (H4 & H3 & H2 & H1). unfold xlat, page_entry, va_path.
  generalize dependent (PML4_IDX va). generalize dependent (PDPT_IDX va). generalize dependent (PD_IDX va).
  generalize dependent (PT_IDX va). intros i1 H1 i2 H2 i3 H3 i4 H4. pose proof (tk_boot m roots HT) as Hb. fold full.
  assert (path_ok []) as P0 by (split; [simpl; lia|done]).
  assert (path_ok [i4]) as P1 by (apply (path_ok_snoc []); (done || simpl; lia)).
  assert (path_ok [i4; i3]) as P2 by (apply (path_ok_snoc [i4]); (done || simpl; lia)).
  destruct (tk_entry m roots HT r [] r i4 Hr P0 ltac:(simpl; lia) H4 eq_refl) as [E4|(c4 & A4 & E4)].
  { rewrite (node_boot m r i4 [] _ Hb P0 H4 E4). by apply walk_boot4. }
  rewrite (walk_owned m true r i4 i3 _ _ c4 A4 E4), (node_owned m r i4 _ c4 A4 E4).
  assert (node m r [i4] = Some c4) as N4 by (by rewrite (node_owned m r i4 [] c4)).
  destruct (tk_entry m roots HT r [i4] c4 i3 Hr P1 ltac:(simpl; lia) H3 N4) as [E3|(c3 & A3 & E3)].
  { rewrite (node_boot m c4 i3 [i4] _ Hb P1 H3 E3). by apply walk_boot3. }
  rewrite (walk_owned m false c4 i3 i2 _ _ c3 A3 E3), (node_owned m c4 i3 _ c3 A3 E3).
  assert (node m r [i4; i3] = Some c3) as N3 by (by rewrite (node_owned m r i4 [i3] c4), (node_owned m c4 i3 [] c3)).
  destruct (tk_entry m roots HT r [i4; i3] c3 i2 Hr P2 ltac:(simpl; lia) H2 N3) as [E2|(c2 & A2 & E2)].
  { rewrite (node_boot m c3 i2 [i4; i3] _ Hb P2 H2 E2). by apply walk_boot2. }
  rewrite (walk_owned m false c3 i2 i1 _ _ c2 A2 E2), (node_owned m c3 i2 _ c2 A2 E2). cbn [xwalk node].
  unfold leaf. rewrite meet_full. by destruct (has _ USER_PTE_PRESENT).
Qed.

(** * Growing an address space *)

(** [m'] is [m] with a fresh table [f], a copy of the boot map's, hung at entry [i] of the
    table [t] at path [p]. *)
Record attached (m m' : Mach) (p : list Z) (t i f : Z) : Prop := {
  at_words : words_ok (physical_memory_bitmap (m_frames m'));
  at_used : ∀ g, used (m_frames m) g = true → used (m_frames m') g = true;
  at_addr : table_addr f;
  at_fresh : used (m_frames m) (f / 4096) = false;
  at_taken : used (m_frames m') (f / 4096) = true;
  at_old : pte m t i = boot_entry p i;
  at_link : pte m' t i = table_entry f;
  at_new : ∀ j, idx j → pte m' f j = boot_entry (p ++ [i]) j;
  at_else : ∀ a, a / 4096 ≠ f / 4096 → a ≠ t + 8 * i → (m_mem m').[a] = (m_mem m).[a]
}.

Lemma table_frame t : table_addr t → t = t / 4096 * 4096.
Proof. intros [_ H]. rewrite (Z.div_mod t 4096) at 1 by done. rewrite H. lia. Qed.

Lemma slot_frame t i : t mod 4096 = 0 → idx i → (t + 8 * i) / 4096 = t / 4096.
Proof.
  unfold idx. intros Ht Hi. rewrite (Z.div_mod t 4096), Ht, Z.add_0_r by done.
  rewrite Z.mul_comm, Z.div_add_l by done. rewrite (Z.div_small (8 * i)) by lia. rewrite Z.div_mul by done. lia.
Qed.

Section Attach.
Context (m m' : Mach) (roots : list Z) (r : Z) (p : list Z) (t i f : Z).
Context (HT : tables_ok m roots) (Hr : r ∈ roots) (Hp : path_ok p) (Hl : (length p ≤ 2)%nat) (Hi : idx i).
Context (Ht : node m r p = Some t) (HA : attached m m' p t i f).

Lemma attach_else u j : table_addr u → idx j → u ≠ f → ¬ (u = t ∧ j = i) → pte m' u j = pte m u j.
Proof.
  intros Hu Hj Hf Hn. pose proof (at_addr _ _ _ _ _ _ HA) as Af. apply (at_else _ _ _ _ _ _ HA).
  - rewrite slot_frame by (done || apply Hu). intros E. apply Hf. rewrite (table_frame u Hu), (table_frame f Af). congruence.
  - destruct (tk_node m roots HT r p t Hr Hp Ht) as ([_ At] & _). intros E. apply Hn.
    apply (slot_inj u j t i); (done || apply Hu).
Qed.

Lemma attach_fresh u : used (m_frames m) (u / 4096) = true → u ≠ f.
Proof. intros H ->. rewrite (at_fresh _ _ _ _ _ _ HA) in H. done. Qed.

Lemma attach_was_free q : node m r (p ++ i :: q) = None.
Proof.
  rewrite node_app, Ht. simpl. rewrite (at_old _ _ _ _ _ _ HA), (boot_not_owned m); [done| |done|done].
  by apply tk_boot in HT.
Qed.

Lemma attach_boot : boot_map m'.
Proof.
  pose proof (tk_boot m roots HT) as Hb.
  assert (∀ u j, u ∈ boot_tables → idx j → pte m' u j = pte m u j) as He.
  { intros u j Hu Hj. apply attach_else; [by apply (bm_addr m Hb)|done|apply attach_fresh, (bm_used m Hb), Hu|].
    intros [-> _]. by destruct (tk_node m roots HT r p t Hr Hp Ht) as (_ & _ & []). }
  split.
  - intros j Hj. rewrite He by (done || (unfold boot_tables; set_solver)). by apply (bm_p4 m Hb).
  - intros j Hj. rewrite He by (done || (unfold boot_tables; set_solver)). by apply (bm_p3 m Hb).
  - intros k j Hk Hj. rewrite He by (done || apply p2_in_boot). by apply (bm_p2 m Hb).
  - apply (bm_addr m Hb).
  - intros u Hu. by apply (at_used _ _ _ _ _ _ HA), (bm_used m Hb).
Qed.

Lemma attach_node r' q : r' ∈ roots → path_ok q →
  node m' r' q = if decide (r' = r ∧ q = p ++ [i]) then Some f else node m r' q.
Proof.
  intros Hr'. induction q as [|k q IH] using rev_ind; intros Hq.
  { destruct (decide _) as [[_ E]|]; [by destruct p|done]. }
  apply path_ok_snoc_inv in Hq as (Hq & Hlq & Hk). rewrite !node_snoc, IH by done. clear IH.
  destruct (decide (r' = r ∧ q = p ++ [i])) as [[-> ->]|Hne].
  - simpl. rewrite (at_new _ _ _ _ _ _ HA) by done. rewrite (boot_not_owned m'); [|apply attach_boot|done|done].
    rewrite attach_was_free. destruct (decide _) as [[_ E]|]; [|done].
    apply (f_equal length) in E. rewrite !length_app in E. simpl in E. lia.
  - destruct (node m r' q) as [u|] eqn:Eu; simpl.
    + destruct (tk_node m roots HT r' q u Hr' Hq Eu) as (Au & Uu & _).
      destruct (decide (u = t ∧ k = i)) as [[-> ->]|Hn].
      * destruct (tk_inj m roots HT r' q r p t) as [-> ->]; [done..|].
        rewrite decide_True by done. rewrite (at_link _ _ _ _ _ _ HA).
        by destruct (table_entry_owned f (at_addr _ _ _ _ _ _ HA)) as (-> & -> & _).
      * rewrite attach_else by (done || by apply attach_fresh). destruct (decide _) as [[-> E]|]; [|done].
        apply app_inj_tail in E as [-> ->]. rewrite Ht in Eu. injection Eu as <-. tauto.
    + destruct (decide _) as [[-> E]|]; [|done]. apply app_inj_tail in E as [-> ->]. congruence.
Qed.

Lemma attach_tables_ok : tables_ok m' roots.
Proof.
  split.
  - apply (at_words _ _ _ _ _ _ HA).
  - apply attach_boot.
  - intros r' q u Hr' Hq. rewrite attach_node by done. destruct (decide _).
    + intros [= <-]. split; [apply (at_addr _ _ _ _ _ _ HA)|]. split; [apply (at_taken _ _ _ _ _ _ HA)|].
      intros Hu. by apply (attach_fresh f); [apply (bm_used m (tk_boot m roots HT))|].
    + intros Hu. destruct (tk_node m roots HT r' q u Hr' Hq Hu) as (? & ? & ?). split; [done|].
      split; [by apply (at_used _ _ _ _ _ _ HA)|done].
  - intros r1 p1 r2 p2 u H1 H2 P1 P2. rewrite !attach_node by done.
    assert (∀ r' q, r' ∈ roots → path_ok q → node m r' q ≠ Some f) as Hf.
    { intros r' q Hr' Hq Hu. destruct (tk_node m roots HT r' q f Hr' Hq Hu) as (_ & Hu' & _). by apply attach_fresh in Hu'. }
    destruct (decide _) as [[-> ->]|], (decide _) as [[-> ->]|]; [done| | |].
    + intros [= <-] Hu. by apply Hf in Hu.
    + intros Hu [= <-]. by apply Hf in Hu.
    + by apply (tk_inj m roots HT).
  - intros r' q u j Hr' Hq Hlq Hj. rewrite attach_node by done. destruct (decide _) as [[-> ->]|].
    + intros [= <-]. left. by apply (at_new _ _ _ _ _ _ HA).
    + intros Hu. destruct (tk_node m roots HT r' q u Hr' Hq Hu) as (Au & Uu & _).
      destruct (decide (u = t ∧ j = i)) as [[-> ->]|].
      * right. exists f. split; [apply (at_addr _ _ _ _ _ _ HA)|apply (at_link _ _ _ _ _ _ HA)].
      * rewrite attach_else by (done || by apply attach_fresh). by apply (tk_entry m roots HT r').
Qed.

Lemma attach_entry r' va : r' ∈ roots → page_entry m' r' va = page_entry m r' va.
Proof.
  intros Hr'. destruct (idx_range va) as (H4 & H3 & H2 & H1). unfold page_entry.
  assert (path_ok [PML4_IDX va; PDPT_IDX va; PD_IDX va]) as Hq by (apply va_path_ok).
  rewrite attach_node by done. destruct (decide _) as [[-> E]|].
  - rewrite E. rewrite attach_was_free. by apply (at_new _ _ _ _ _ _ HA).
  - destruct (node m r' _) as [u|] eqn:Eu; [|done].
    destruct (tk_node m roots HT r' _ u Hr' Hq Eu) as (Au & Uu & _).
    apply attach_else; [done|done|by apply attach_fresh|]. intros [-> _].
    destruct (tk_inj m roots HT r' _ r p t Hr' Hr Hq Hp Eu Ht) as [_ E]. rewrite <- E in Hl. simpl in Hl. lia.
Qed.

End Attach.

(** * Writing a last-level entry *)

Section Leaf.
Context (m : Mach) (roots : list Z) (r : Z) (q : list Z) (t i e : Z).
Context (HT : tables_ok m roots) (Hr : r ∈ roots) (Hq : path_ok q) (Hl : length q = 3%nat) (Hi : idx i).
Context (Ht : node m r q = Some t).

Lemma leaf_else u j : table_addr u → idx j → ¬ (u = t ∧ j = i) → pte (set_pte t i e m) u j = pte m u j.
Proof.
  intros Hu Hj Hn. destruct (tk_node m roots HT r q t Hr Hq Ht) as ([_ At] & _).
  rewrite pte_set by (done || apply Hu). rewrite decide_False; [done|]. intros [-> ->]. tauto.
Qed.

Lemma leaf_not_upper r' p u : r' ∈ roots → path_ok p → (length p ≤ 2)%nat → node m r' p = Some u → u ≠ t.
Proof. intros Hr' Hp Hlp Hu ->. destruct (tk_inj m roots HT r' p r q t Hr' Hr Hp Hq Hu Ht) as [_ ->]. lia. Qed.

Lemma leaf_node r' p : r' ∈ roots → path_ok p → node (set_pte t i e m) r' p = node m r' p.
Proof.
  intros Hr'. induction p as [|k p IH] using rev_ind; [done|]. intros (Hp & Hlp & Hk)%path_ok_snoc_inv.
  rewrite !node_snoc, IH by done. destruct (node m r' p) as [u|] eqn:Eu; [|done]. simpl.
  destruct (tk_node m roots HT r' p u Hr' Hp Eu) as (Au & _). rewrite leaf_else; [done|done|done|].
  intros [-> _]. by apply (leaf_not_upper r' p t).
Qed.

Lemma leaf_tables_ok : tables_ok (set_pte t i e m) roots.
Proof.
  pose proof (tk_boot m roots HT) as Hb. destruct (tk_node m roots HT r q t Hr Hq Ht) as (_ & _ & Hnb).
  assert (∀ u j, u ∈ boot_tables → idx j → pte (set_pte t i e m) u j = pte m u j) as He.
  { intros u j Hu Hj. apply leaf_else; [by apply (bm_addr m Hb)|done|]. intros [-> _]. done. }
  split.
  - apply (tk_words m roots HT).
  - split.
    + intros j Hj. rewrite He by (done || (unfold boot_tables; set_solver)). by apply (bm_p4 m Hb).
    + intros j Hj. rewrite He by (done || (unfold boot_tables; set_solver)). by apply (bm_p3 m Hb).
    + intros k j Hk Hj. rewrite He by (done || apply p2_in_boot). by apply (bm_p2 m Hb).
    + apply (bm_addr m Hb).
    + apply (bm_used m Hb).
  - intros r' p u Hr' Hp. rewrite leaf_node by done. by apply (tk_node m roots HT).
  - intros r1 p1 r2 p2 u H1 H2 P1 P2. rewrite !leaf_node by done. by apply (tk_inj m roots HT).
  - intros r' p u j Hr' Hp Hlp Hj. rewrite leaf_node by done. intros Hu.
    destruct (tk_node m roots HT r' p u Hr' Hp Hu) as (Au & _). rewrite leaf_else; [by apply (tk_entry m roots HT r')|done|done|].
    intros [-> _]. by apply (leaf_not_upper r' p t).
Qed.

Lemma leaf_entry r' va : r' ∈ roots →
  page_entry (set_pte t i e m) r' va =
  if decide (r' = r ∧ [PML4_IDX va; PDPT_IDX va; PD_IDX va] = q ∧ PT_IDX va = i) then e else page_entry m r' va.
Proof.
  intros Hr'. pose proof (va_path_ok va) as Hv. destruct (idx_range va) as (_ & _ & _ & H1). unfold page_entry.
  rewrite leaf_node by done. destruct (decide _) as [(-> & -> & ->)|Hn].
  { rewrite Ht. apply pte_set_eq. }
  destruct (node m r' _) as [u|] eqn:Eu; [|done]. destruct (tk_node m roots HT r' _ u Hr' Hv Eu) as (Au & _).
  apply leaf_else; [done|done|]. intros [-> E]. apply Hn.
  by destruct (tk_inj m roots HT r' _ r q t Hr' Hr Hv Hq Eu Ht) as [-> ->].
Qed.

End Leaf.

(** * Filling a table *)

Definition same_outside (t : Z) (m m' : Mach) : Prop := ∀ a, a / 4096 ≠ t / 4096 → (m_mem m').[a] = (m_mem m).[a].

Lemma fill_spec t (g : Z → Mach → Z) (h : Z → Z) m : table_addr t →
  (∀ j m1, idx j → same_outside t m m1 → g j m1 = h j) →
  let m' := for_up 512 0 (λ j m, set_pte t j (g j m) m) m in
  m_frames m' = m_frames m ∧ m_acts m' = m_acts m ∧ same_outside t m m' ∧ ∀ j, idx j → pte m' t j = h j.
Proof.
  intros [_ At] Hg m'.
  assert (m_frames m' = m_frames m ∧ m_acts m' = m_acts m ∧ same_outside t m m' ∧
    ∀ j, 0 ≤ j < 0 + Z.of_nat 512 → pte m' t j = h j) as (? & ? & ? & Hj).
  { apply (for_up_ind (λ n m', m_frames m' = m_frames m ∧ m_acts m' = m_acts m ∧ same_outside t m m' ∧
      ∀ j, 0 ≤ j < n → pte m' t j = h j)); [done || split_and!; try done; intros; lia|].
    intros n m1 Hn (Ef & Ea & Ho & Hv). split_and!; [done|done| |].
    - intros a Ha. simpl. rewrite aget_upd_ne; [by apply Ho|]. intros <-. by rewrite slot_frame in Ha by (done || (unfold idx; lia)).
    - intros j Hj. rewrite pte_set by (done || (unfold idx; lia)). destruct (decide _) as [[_ <-]|].
      + apply Hg; [unfold idx; lia|done].
      + apply Hv. lia. }
  split_and!; [done..|]. intros j Hj'. apply Hj. unfold idx in Hj'. lia.
Qed.

(** A frame for a table: fresh, zeroed, with the rest of memory untouched. *)
Definition table_allocated (m : Mach) (t : Z) (m' : Mach) : Prop :=
  words_ok (physical_memory_bitmap (m_frames m')) ∧ (∀ g, used (m_frames m) g = true → used (m_frames m') g = true) ∧
  m_acts m' = m_acts m ∧
  ((t = 0 ∧ m_mem m' = m_mem m ∧ (∀ g, 1 ≤ g < TOTAL_FRAMES → allocable current_sp (m_frames m) g = false)) ∨
   (table_addr t ∧ used (m_frames m) (t / 4096) = false ∧ used (m_frames m') (t / 4096) = true ∧
    same_outside t m m' ∧ ∀ j, idx j → pte m' t j = 0)).

Lemma alloc_page_table_spec m : words_ok (physical_memory_bitmap (m_frames m)) →
  table_allocated m (fst (alloc_page_table m)) (snd (alloc_page_table m)).
Proof.
  intros Hw. unfold alloc_page_table, allocate_physical_ram_frame.
  destruct (alloc_raw_frame_cases current_sp (m_frames m) Hw) as [(f & fp & E & Hf & Hu & _ & Ha & Hw' & Hs)|(fp & E & Hu & Hn & Hw' & Hs)];
    rewrite E.
  - assert ((f * FRAME_SIZE =? 0) = false) as -> by (apply Z.eqb_neq; unfold FRAME_SIZE; lia). cbv zeta iota beta.
    assert ((f * FRAME_SIZE =? 0) = false) as -> by (apply Z.eqb_neq; unfold FRAME_SIZE; lia). cbn [fst snd].
    assert (table_addr (f * FRAME_SIZE)) as At.
    { unfold FRAME_SIZE, TOTAL_FRAMES in *. split; [lia|by apply Z.mod_mul]. }
    assert (f * FRAME_SIZE / 4096 = f) as Ef by (by apply Z.div_mul).
    destruct (fill_spec (f * FRAME_SIZE) (λ _ _, 0) (λ _, 0) (set_m_frames (charge PARTITION_SYSTEM (f * FRAME_SIZE) fp) m) At) as (E1 & E2 & E3 & E4); [done|].
    change (for_up 512 0 (λ i, set_pte (f * FRAME_SIZE) i 0)) with (for_up 512 0 (λ i m, set_pte (f * FRAME_SIZE) i 0 m)).
    unfold table_allocated. rewrite E1, E2, Ef. split; [done|]. split; [|split; [done|right]].
    + intros g Hg. simpl. rewrite used_charge, Hu, Hg. by destruct (g =? f).
    + split; [done|]. split; [|split; [|done]].
      * unfold allocable in Ha. destruct (used (m_frames m) f); [|done]. by rewrite andb_false_r in Ha.
      * simpl. rewrite used_charge, Hu, Z.eqb_refl. done.
  - simpl. split; [done|]. split; [intros g Hg; simpl; by rewrite Hu, Hg|]. split; [done|left]. split; [done|]. split; [done|].
    intros g Hg. apply Hn. unfold region. destruct Hg. zcase.
Qed.

End Spaces.
