(* ===== verification/PagingOps.v ===== *)
(** The operations of [Paging] on well-formed address spaces: every step keeps [tables_ok],
    leaves every translation but the requested one alone, and writes only to the tables of
    the address space it works on or to frames that were free. *)

From stdpp Require Import base gmap list list_numbers.
From Stdlib Require Import ZArith Lia Bool.
From S2P Require Import Prelude FramePool FramePoolSpec CapState CapPools Paging PagingSpec.
Import X86.
#[local] Open Scope Z_scope.
#[local] Open Scope carr_scope.

Section Ops.
Context {MA : Machine}.

(** The effect on memory stays within the tables of the address space [r] and the frames that
    were free. *)
Record confined (roots : list Z) (r : Z) (m m' : Mach) : Prop := {
  cf_back : ∀ r' p t, r' ∈ roots → path_ok p → node m' r' p = Some t →
    node m r' p = Some t ∨ used (m_frames m) (t / 4096) = false;
  cf_used : ∀ g, used (m_frames m) g = true → used (m_frames m') g = true;
  cf_writes : ∀ a, (m_mem m').[a] ≠ (m_mem m).[a] →
    used (m_frames m) (a / 4096) = false ∨ ∃ p t, path_ok p ∧ node m r p = Some t ∧ a / 4096 = t / 4096
}.

Lemma confined_refl roots r m : confined roots r m m.
Proof. by split; auto. Qed.

Lemma confined_trans roots r m1 m2 m3 : r ∈ roots → confined roots r m1 m2 → confined roots r m2 m3 → confined roots r m1 m3.
Proof.
  intros Hr [A4 A5 A6] [B4 B5 B6].
  assert (∀ g, used (m_frames m2) g = false → used (m_frames m1) g = false) as Hu.
  { intros g Hg. destruct (used (m_frames m1) g) eqn:E; [|done]. apply A5 in E. congruence. }
  split.
  - intros r' p t Hr' Hp Ht. destruct (B4 r' p t Hr' Hp Ht) as [H|H]; [by apply A4|]. right. by apply Hu.
  - intros. by apply B5, A5.
  - intros a Ha. destruct (decide ((m_mem m2).[a] = (m_mem m1).[a])) as [E|E]; [|by apply A6].
    rewrite <- E in Ha. destruct (B6 a Ha) as [H|(p & t & Hp & Ht & Ea)]; [left; by apply Hu|].
    destruct (A4 r p t Hr Hp Ht) as [H|H]; [right; by exists p, t|left; by rewrite Ea].
Qed.

(** [m'] is [m] with tables added to the address space [r]: the same translations. *)
Record grows (roots : list Z) (r : Z) (m m' : Mach) : Prop := {
  gr_ok : tables_ok m' roots;
  gr_entry : ∀ r' va, r' ∈ roots → page_entry m' r' va = page_entry m r' va;
  gr_node : ∀ r' p t, r' ∈ roots → path_ok p → node m r' p = Some t → node m' r' p = Some t;
  gr_conf : confined roots r m m'
}.

Lemma grows_refl roots r m : tables_ok m roots → grows roots r m m.
Proof. intros. split; auto. apply confined_refl. Qed.

Lemma grows_trans roots r m1 m2 m3 : r ∈ roots → grows roots r m1 m2 → grows roots r m2 m3 → grows roots r m1 m3.
Proof.
  intros Hr [A1 A2 A3 A4] [B1 B2 B3 B4]. split; [done| | |by eapply confined_trans].
  - intros. by rewrite B2, A2.
  - intros. apply B3; [done|done|]. by apply A3.
Qed.

Lemma node_mem m m' r p : m_mem m' = m_mem m → node m' r p = node m r p.
Proof.
  intros E. revert r. induction p as [|i p IH]; intros r; [done|]. simpl. unfold pte. rewrite E, IH. done.
Qed.

Lemma page_entry_mem m m' r va : m_mem m' = m_mem m → page_entry m' r va = page_entry m r va.
Proof. intros E. unfold page_entry. rewrite (node_mem m m') by done. unfold pte. by rewrite E. Qed.

(** Frames taken out of the pool without a write. *)
Lemma grows_frames roots r m m' : tables_ok m roots → m_mem m' = m_mem m →
  words_ok (physical_memory_bitmap (m_frames m')) → (∀ g, used (m_frames m) g = true → used (m_frames m') g = true) →
  grows roots r m m'.
Proof.
  intros [T1 [B1 B2 B3 B4 B5] T3 T4 T5] E Hw Hu.
  assert (∀ t i, pte m' t i = pte m t i) as Ep by (intros; unfold pte; by rewrite E).
  split; [split| | |split].
  - done.
  - split; intros; rewrite ?Ep; auto.
  - intros r' p t. rewrite (node_mem m m') by done. intros ? ? Ht. apply T3 in Ht as (? & ? & ?); auto.
  - intros r1 p1 r2 p2 t. rewrite !(node_mem m m') by done. apply T4.
  - intros r' p t i. rewrite (node_mem m m'), Ep by done. apply T5.
  - intros. by apply page_entry_mem.
  - intros r' p t. by rewrite (node_mem m m').
  - intros r' p t. rewrite (node_mem m m') by done. auto.
  - done.
  - intros a Ha. by rewrite E in Ha.
Qed.

Lemma attach_grows m m' roots r p t i f :
  tables_ok m roots → r ∈ roots → path_ok p → (length p ≤ 2)%nat → idx i → node m r p = Some t →
  attached m m' p t i f → grows roots r m m'.
Proof.
  intros HT Hr Hp Hl Hi Ht HA. split; [| | |split].
  - by apply (attach_tables_ok m m' roots r p t i f).
  - intros. by apply (attach_entry m m' roots r p t i f).
  - intros r' q u Hr' Hq Hu. rewrite (attach_node m m' roots r p t i f) by done.
    destruct (decide _) as [[-> ->]|]; [|done]. by rewrite (attach_was_free m m' roots r p t i f HT Hp Hi Ht HA []) in Hu.
  - intros r' q u Hr' Hq. rewrite (attach_node m m' roots r p t i f) by done.
    destruct (decide _) as [[-> ->]|]; [|by left]. intros [= <-]. right. apply (at_fresh _ _ _ _ _ _ HA).
  - apply (at_used _ _ _ _ _ _ HA).
  - intros a Ha. destruct (decide (a / 4096 = f / 4096)) as [E|E]; [left; rewrite E; apply (at_fresh _ _ _ _ _ _ HA)|].
    destruct (decide (a = t + 8 * i)) as [->|E']; [|by rewrite (at_else _ _ _ _ _ _ HA) in Ha].
    right. exists p, t. split; [done|]. split; [done|]. apply slot_frame; [|done]. by apply (tk_node m roots HT r p t).
Qed.

(** * Boot tables and their copies *)

Lemma boot_absent m p i j : boot_map m → path_ok p → (length p ≤ 2)%nat → idx i →
  has (boot_entry p i) USER_PTE_PRESENT = false → boot_entry (p ++ [i]) j = 0.
Proof.
  intros Hb Hp Hl Hi H. destruct (boot_entry_cases m p i Hb Hp Hi) as [E|(a & fl & Ha & Hfl & E)].
  2: { destruct (boot_flags a fl Ha Hfl) as (Hh & _). rewrite E, Hh in H. done. }
  clear H. assert (∀ a fl, fl = 3 ∨ fl = 0x83 → Z.lor a fl ≠ 0) as Hn.
  { intros a fl Hfl E0. apply Z.lor_eq_0_iff in E0 as [_ ->]. lia. }
  destruct p as [|a [|b [|]]]; simpl in *; [| | |lia].
  - destruct (i =? 0); [|done]. exfalso. by apply (Hn _ 3 (or_introl eq_refl) E).
  - destruct (a =? 0), (i <? 4); try done. exfalso. by apply (Hn _ 3 (or_introl eq_refl) E).
  - destruct ((a =? 0) && (b <? 4)); [|done]. exfalso. by apply (Hn _ 0x83 (or_intror eq_refl) E).
Qed.

Lemma boot_child m p i : boot_map m → path_ok p → (length p ≤ 1)%nat → idx i →
  has (boot_entry p i) USER_PTE_PRESENT = true →
  frame_of (boot_entry p i) ∈ boot_tables ∧ ∀ j, idx j → pte m (frame_of (boot_entry p i)) j = boot_entry (p ++ [i]) j.
Proof.
  intros Hb Hp Hl Hi. assert (∀ t, t ∈ boot_tables → frame_of (Z.lor t 3) = t) as Hf.
  { intros t Ht. apply frame_of_entry; [by apply table_page, (bm_addr m Hb)|lia]. }
  destruct p as [|a [|]]; [| |simpl in Hl; lia]; cbn [boot_entry app].
  - destruct (Z.eqb_spec i 0) as [->|]; [|done]. intros _.
    rewrite Hf by (unfold boot_tables; set_solver). split; [unfold boot_tables; set_solver|]. apply (bm_p3 m Hb).
  - destruct (Z.eqb_spec a 0) as [->|]; [|done]. destruct (Z.ltb_spec i 4); [|done]. intros _.
    cbn [andb]. rewrite Hf by apply p2_in_boot. split; [apply p2_in_boot|]. intros j Hj. rewrite (bm_p2 m Hb) by (done || (unfold idx in *; lia)).
    cbn [boot_entry]. destruct (Z.ltb_spec i 4); [done|lia].
Qed.

(** A freshly allocated table that has received the boot map's entries, hung at [t[i]]. *)
Lemma alloc_attached m m1 m2 roots r p t i f :
  tables_ok m roots → r ∈ roots → path_ok p → (length p ≤ 2)%nat → idx i → node m r p = Some t →
  pte m t i = boot_entry p i → table_allocated m f m1 → f ≠ 0 →
  m_frames m2 = m_frames m1 → same_outside f m1 m2 → (∀ j, idx j → pte m2 f j = boot_entry (p ++ [i]) j) →
  attached m (set_pte t i (table_entry f) m2) p t i f.
Proof.
  intros HT Hr Hp Hl Hi Ht Eold (Hw & Hu & _ & [[-> _]|(Af & Ff & Fu & Ho & _)]) Hf0 Ef Ho2 Hn; [done|].
  destruct (tk_node m roots HT r p t Hr Hp Ht) as (At & Ut & _).
  assert (t ≠ f) as Hne by (intros ->; congruence).
  split; simpl; rewrite ?Ef; try done.
  - apply pte_set_eq.
  - intros j Hj. rewrite pte_set by (done || apply At || apply Af). rewrite decide_False by tauto. by apply Hn.
  - intros a Ha Hat. rewrite aget_upd_ne by done. by rewrite Ho2, Ho.
Qed.

Lemma copy_table_spec dst src m : table_addr dst → table_addr src → dst ≠ src →
  let m' := copy_table dst src m in
  m_frames m' = m_frames m ∧ same_outside dst m m' ∧ ∀ j, idx j → pte m' dst j = pte m src j.
Proof.
  intros Hd Hs Hne. destruct (fill_spec dst (λ j m, pte m src j) (λ j, pte m src j) m Hd) as (E1 & _ & E3 & E4); [|done].
  intros j m1 Hj Ho. apply Ho. rewrite slot_frame by (done || apply Hs). intros E. apply Hne.
  rewrite (table_frame dst Hd), (table_frame src Hs). congruence.
Qed.

(** The size bit and the frame of a large page are dropped from its replicas' flags. *)
Lemma large_keep k c : 0 ≤ k < 4 → idx c →
  Z.land (Z.lor ((k * 512 + c) * 0x200000) 0x83) (u64_not (Z.lor USER_PTE_FRAME_MASK PTE_PS)) = 3.
Proof.
  intros Hk Hc. pose proof (large_page k c Hk Hc) as Hp. apply Z.bits_inj'. intros n Hn.
  rewrite Z.land_spec. destruct (decide (n < 12 ∨ 52 ≤ n)) as [H|H].
  - rewrite lor_testbit_flag by done. destruct H as [H|H].
    + assert (n = 0 ∨ n = 1 ∨ n = 2 ∨ n = 3 ∨ n = 4 ∨ n = 5 ∨ n = 6 ∨ n = 7 ∨ n = 8 ∨ n = 9 ∨ n = 10 ∨ n = 11) as Hc12 by lia.
      repeat destruct Hc12 as [->|Hc12]; try subst n; reflexivity.
    + rewrite (testbit_high 131 8), (testbit_high 3 8) by (done || lia). done.
  - rewrite (testbit_high 3 8) by (done || lia). apply andb_false_iff. right.
    assert (Z.testbit (Z.lor USER_PTE_FRAME_MASK PTE_PS) n = true) as Ht.
    { rewrite Z.lor_spec, frame_mask_testbit by lia. apply orb_true_iff. left. zcase. }
    unfold u64_not. rewrite Z.lxor_spec, Ht. rewrite ones_testbit by lia. zcase.
Qed.

Lemma replicate_spec pt k c m : table_addr pt → 0 ≤ k < 4 → idx c →
  let m' := replicate_huge pt (Z.lor ((k * 512 + c) * 0x200000) 0x83) m in
  m_frames m' = m_frames m ∧ same_outside pt m m' ∧ ∀ j, idx j → pte m' pt j = boot_entry [0; k; c] j.
Proof.
  intros Hpt Hk Hc. unfold replicate_huge. rewrite large_keep by done.
  rewrite frame_of_entry by (done || by apply large_page). cbv zeta.
  destruct (fill_spec pt (λ j _, Z.lor (u64 ((k * 512 + c) * 2097152 + j * 4096)) 3) (boot_entry [0; k; c]) m Hpt)
    as (E1 & _ & E3 & E4); [|done].
  intros j _ Hj _. unfold idx in *. cbn [boot_entry]. destruct (Z.ltb_spec k 4); [|lia]. cbn [andb Z.eqb].
  f_equal. rewrite u64_small by lia. lia.
Qed.

(** No frame of the pool can be handed out. *)
Definition no_frames (m : Mach) : Prop := ∀ g, 1 ≤ g < TOTAL_FRAMES → allocable current_sp (m_frames m) g = false.

(** The table of the process at [p ++ [i]], found or made; or the pool is exhausted. *)
Definition child_owned (roots : list Z) (r : Z) (p : list Z) (i : Z) (m : Mach) (res : Z * Mach) : Prop :=
  grows roots r m (snd res) ∧
  ((fst res = 0 ∧ no_frames m) ∨ (fst res ≠ 0 ∧ node (snd res) r (p ++ [i]) = Some (fst res))).

Section Child.
Context (m : Mach) (roots : list Z) (r : Z) (p : list Z) (t i : Z).
Context (HT : tables_ok m roots) (Hr : r ∈ roots) (Hp : path_ok p) (Hi : idx i) (Ht : node m r p = Some t).

Lemma child_found : owned_entry (pte m t i) = true → (length p ≤ 2)%nat →
  child_owned roots r p i m (frame_of (pte m t i), m).
Proof.
  intros Ho Hl. split; [by apply grows_refl|right].
  destruct (tk_entry m roots HT r p t i Hr Hp Hl Hi Ht) as [E|(c & Ac & E)].
  - rewrite E, (boot_not_owned m) in Ho; [done|by apply tk_boot in HT|done|done].
  - simpl. rewrite E. destruct (table_entry_owned c Ac) as (Eo & Ef & _). rewrite Ef. split; [apply Z.neq_sym, Z.lt_neq, Ac|].
    by rewrite node_snoc, Ht; simpl; rewrite E, Eo, Ef.
Qed.

Lemma child_boot : owned_entry (pte m t i) = false → (length p ≤ 2)%nat → pte m t i = boot_entry p i.
Proof.
  intros Ho Hl. destruct (tk_entry m roots HT r p t i Hr Hp Hl Hi Ht) as [E|(c & Ac & E)]; [done|].
  rewrite E in Ho. destruct (table_entry_owned c Ac) as (Eo & _). congruence.
Qed.

(** The pool refused. *)
Lemma child_refused m1 : table_allocated m 0 m1 → child_owned roots r p i m (0, m1).
Proof.
  intros (Hw & Hu & _ & [(_ & Em & Hn)|([? _] & _)]); [|lia].
  split; [by apply grows_frames|by left].
Qed.

(** The pool gave [f], and it was filled with the boot map's entries. *)
Lemma child_made m1 m2 f : (length p ≤ 2)%nat → pte m t i = boot_entry p i → table_allocated m f m1 → f ≠ 0 →
  m_frames m2 = m_frames m1 → same_outside f m1 m2 → (∀ j, idx j → pte m2 f j = boot_entry (p ++ [i]) j) →
  child_owned roots r p i m (f, set_pte t i (table_entry f) m2).
Proof.
  intros Hl Eold Ha Hf Ef Ho Hn.
  assert (attached m (set_pte t i (table_entry f) m2) p t i f) as HA by (by eapply (alloc_attached m m1 m2)).
  split; [by eapply attach_grows|right]. split; [done|].
  rewrite (attach_node m _ roots r p t i f) by (done || by apply path_ok_snoc). by rewrite decide_True.
Qed.

End Child.

Ltac allocate m m1 f HT :=
  let H := fresh "Ha" in
  pose proof (alloc_page_table_spec m (tk_words m _ HT)) as H;
  destruct (alloc_page_table m) as [f m1]; cbn [fst snd] in H.

Lemma own_table_ok m roots r p t i :
  tables_ok m roots → r ∈ roots → path_ok p → (length p ≤ 1)%nat → idx i → node m r p = Some t →
  child_owned roots r p i m (own_table t i 1 m).
Proof.
  intros HT Hr Hp Hl Hi Ht. unfold own_table. fold (owned_entry (pte m t i)).
  destruct (owned_entry (pte m t i)) eqn:Eo; [apply child_found; (done || lia)|].
  pose proof (child_boot m roots r p t i HT Hr Hp Hi Ht Eo ltac:(lia)) as Eb. rewrite Eb.
  pose proof (tk_boot m roots HT) as Hb. allocate m m1 f HT.
  destruct (Z.eqb_spec f 0) as [->|Hf]; [by apply child_refused|].
  pose proof Ha as (_ & _ & _ & [[? _]|(Af & Ff & Fu & Ho & Hz)]); [done|].
  cbn [negb Z.eqb andb]. destruct (has (boot_entry p i) USER_PTE_PRESENT) eqn:Ep.
  - destruct (boot_child m p i Hb Hp Hl Hi Ep) as (Hin & Hsrc). set (src := frame_of (boot_entry p i)) in *.
    assert (table_addr src) as As by (by apply (bm_addr m Hb)).
    assert (f ≠ src) as Hne by (intros ->; rewrite (bm_used m Hb) in Ff by done; done).
    destruct (copy_table_spec f src m1 Af As Hne) as (E1 & E2 & E3).
    apply (child_made m roots r p t i HT Hr Hp Hi Ht m1); [lia|done|done|done|done|done|].
    intros j Hj. rewrite E3 by done. rewrite <- Hsrc by done. apply Ho. rewrite slot_frame by (done || apply As).
    intros E. apply Hne. rewrite (table_frame f Af), (table_frame src As). congruence.
  - apply (child_made m roots r p t i HT Hr Hp Hi Ht m1); [lia|done|done|done|done|done|].
    intros j Hj. rewrite Hz by done. symmetry. apply (boot_absent m); (done || lia).
Qed.

Lemma own_pt_ok m roots r a b t i :
  tables_ok m roots → r ∈ roots → path_ok [a; b] → idx i → node m r [a; b] = Some t →
  child_owned roots r [a; b] i m (own_pt t i m).
Proof.
  intros HT Hr Hp Hi Ht. unfold own_pt. fold (owned_entry (pte m t i)).
  destruct (owned_entry (pte m t i)) eqn:Eo; [by apply child_found|].
  pose proof (child_boot m roots r _ t i HT Hr Hp Hi Ht Eo ltac:(done)) as Eb. rewrite Eb.
  pose proof (tk_boot m roots HT) as Hb. allocate m m1 f HT.
  destruct (Z.eqb_spec f 0) as [->|Hf]; [by apply child_refused|].
  pose proof Ha as (_ & _ & _ & [[? _]|(Af & Ff & Fu & Ho & Hz)]); [done|].
  destruct (has (boot_entry [a; b] i) USER_PTE_PRESENT) eqn:Ep.
  - cbn [boot_entry] in Ep |- *. destruct (Z.eqb_spec a 0) as [->|]; [|done]. destruct (Z.ltb_spec b 4); [|done].
    cbn [andb] in Ep |- *. destruct Hp as [_ Hp]. rewrite !Forall_cons in Hp. destruct Hp as (_ & Hib & _).
    assert (0 ≤ b < 4) as Hb4 by (unfold idx in Hib; lia).
    destruct (boot_flags ((b * 512 + i) * 2097152) 131) as (_ & _ & _ & _ & ->); [by apply large_page|by right|].
    cbn [Z.eqb Pos.eqb]. destruct (replicate_spec f b i m1 Af Hb4 Hi) as (E1 & E2 & E3).
    by eapply (child_made m roots r [0; b] t i HT Hr); [split; [simpl; lia|rewrite !Forall_cons, Forall_nil; unfold idx in *; lia]|..].
  - apply (child_made m roots r _ t i HT Hr Hp Hi Ht m1); [done..|].
    intros j Hj. rewrite Hz by done. symmetry. by apply (boot_absent m).
Qed.

(** * One page *)

(** [m'] is [m] with the entry of [va]'s page in the address space [r] set to [e]. *)
Record remapped (roots : list Z) (r va e : Z) (m m' : Mach) : Prop := {
  rm_ok : tables_ok m' roots;
  rm_entry : ∀ r' va', r' ∈ roots →
    page_entry m' r' va' = if decide (r' = r ∧ va_path va' = va_path va) then e else page_entry m r' va';
  rm_node : ∀ r' p t, r' ∈ roots → path_ok p → node m r' p = Some t → node m' r' p = Some t;
  rm_path : ∃ t, node m' r [PML4_IDX va; PDPT_IDX va; PD_IDX va] = Some t;
  rm_conf : confined roots r m m'
}.

Lemma va_path_eq va va' :
  va_path va' = va_path va ↔
  [PML4_IDX va'; PDPT_IDX va'; PD_IDX va'] = [PML4_IDX va; PDPT_IDX va; PD_IDX va] ∧ PT_IDX va' = PT_IDX va.
Proof. unfold va_path. split; [intros [= -> -> -> ->]; done|intros [[= -> -> ->] ->]; done]. Qed.

Lemma leaf_remapped roots r va e m m1 t : r ∈ roots → grows roots r m m1 →
  node m1 r [PML4_IDX va; PDPT_IDX va; PD_IDX va] = Some t →
  remapped roots r va e m (set_pte t (PT_IDX va) e m1).
Proof.
  intros Hr [A1 A2 A3 [A4 A5 A6]] Ht. pose proof (va_path_ok va) as Hq. destruct (idx_range va) as (_ & _ & _ & Hi).
  split; [| | | |split].
  - by eapply leaf_tables_ok.
  - intros r' va' Hr'. rewrite (leaf_entry m1 roots r [PML4_IDX va; PDPT_IDX va; PD_IDX va] t) by done. rewrite A2 by done.
    apply decide_ext. by rewrite va_path_eq.
  - intros r' p u Hr' Hp Hu. rewrite (leaf_node m1 roots r [PML4_IDX va; PDPT_IDX va; PD_IDX va] t) by done. by apply A3.
  - exists t. by rewrite (leaf_node m1 roots r [PML4_IDX va; PDPT_IDX va; PD_IDX va] t).
  - intros r' p u Hr' Hp. rewrite (leaf_node m1 roots r [PML4_IDX va; PDPT_IDX va; PD_IDX va] t) by done. by apply A4.
  - done.
  - intros a. simpl. destruct (decide (t + 8 * PT_IDX va = a)) as [<-|Hne].
    + intros _. destruct (tk_node m1 roots A1 r _ t Hr Hq Ht) as ([_ At] & _). rewrite slot_frame by done.
      destruct (A4 r _ t Hr Hq Ht) as [H|H]; [right; by eexists _, t|by left].
    + rewrite aget_upd_ne by done. apply A6.
Qed.

Lemma no_frames_mono roots r m m' : grows roots r m m' → no_frames m → no_frames m'.
Proof.
  intros G Hn g Hg. specialize (Hn g Hg). unfold allocable in *.
  destruct (used (m_frames m) g) eqn:E; [by rewrite (cf_used _ _ _ _ (gr_conf _ _ _ _ G) g E), andb_false_r|].
  destruct (used (m_frames m') g); [by rewrite andb_false_r|done].
Qed.

(** A page mapped, or every translation left alone for want of frames. *)
Definition page_outcome (roots : list Z) (r va e : Z) (m : Mach) (res : Z * Mach) : Prop :=
  (fst res = 0 ∧ remapped roots r va e m (snd res)) ∨
  (fst res = -1 ∧ grows roots r m (snd res) ∧ no_frames (snd res)).

Definition mapping_entry (m : Mach) (r va pa fl : Z) : Z :=
  Z.lor (Z.lor (frame_of pa) fl) (kept_write (page_entry m r va) pa).

Lemma user_map_page_safe_ok m roots r va pa fl : tables_ok m roots → r ∈ roots →
  page_outcome roots r va (mapping_entry m r va pa fl) m (user_map_page_safe r va pa fl m).
Proof.
  intros HT Hr. destruct (idx_range va) as (H4 & H3 & H2 & H1). unfold user_map_page_safe.
  pose proof (own_table_ok m roots r [] r (PML4_IDX va) HT Hr ltac:(split; [simpl; lia|done]) ltac:(simpl; lia) H4 eq_refl) as C1.
  destruct (own_table r (PML4_IDX va) 1 m) as [pdpt m1]. destruct C1 as (G1 & C1); cbn [fst snd app] in *.
  destruct C1 as [[-> Hn]|(Hz & N1)]; [right; split; [done|]; split; [done|exact (no_frames_mono roots r _ _ G1 Hn)]|].
  rewrite (proj2 (Z.eqb_neq pdpt 0) Hz).
  pose proof (own_table_ok m1 roots r [PML4_IDX va] pdpt (PDPT_IDX va) (gr_ok _ _ _ _ G1) Hr
    ltac:(by apply (path_ok_snoc []); [split; [simpl; lia|done]|simpl; lia|]) ltac:(simpl; lia) H3 N1) as C2.
  destruct (own_table pdpt (PDPT_IDX va) 1 m1) as [pd m2]. destruct C2 as (G2 & C2); cbn [fst snd app] in *.
  pose proof (grows_trans roots r m m1 m2 Hr G1 G2) as G12.
  destruct C2 as [[-> Hn]|(Hz2 & N2)]; [right; split; [done|]; split; [done|exact (no_frames_mono roots r _ _ G2 Hn)]|].
  rewrite (proj2 (Z.eqb_neq pd 0) Hz2).
  pose proof (own_pt_ok m2 roots r (PML4_IDX va) (PDPT_IDX va) pd (PD_IDX va) (gr_ok _ _ _ _ G2) Hr
    ltac:(split; [simpl; lia|rewrite !Forall_cons, Forall_nil; done]) H2 N2) as C3.
  destruct (own_pt pd (PD_IDX va) m2) as [pt m3]. destruct C3 as (G3 & C3); cbn [fst snd app] in *.
  pose proof (grows_trans roots r m m2 m3 Hr G12 G3) as G.
  destruct C3 as [[-> Hn]|(Hz3 & N3)]; [right; split; [done|]; split; [done|exact (no_frames_mono roots r _ _ G3 Hn)]|].
  rewrite (proj2 (Z.eqb_neq pt 0) Hz3). left. split; [done|]. cbn [snd].
  replace (pte m3 pt (PT_IDX va)) with (page_entry m r va); [by eapply leaf_remapped|].
  rewrite <- (gr_entry _ _ _ _ G r va Hr). unfold page_entry. by rewrite N3.
Qed.

Lemma path_ok_cons i p : path_ok (i :: p) → idx i ∧ path_ok p.
Proof. intros [Hl Hf]. apply Forall_cons in Hf as [Hi Hf]. split; [done|]. split; [simpl in Hl; lia|done]. Qed.

(** An owned table is what the non-allocating walk finds. *)
Lemma present_child_node m t i p u : node m t (i :: p) = Some u →
  owned_entry (pte m t i) = true ∧ present_child m t i = frame_of (pte m t i) ∧ node m (frame_of (pte m t i)) p = Some u.
Proof.
  simpl. unfold present_child. destruct (owned_entry (pte m t i)) eqn:E; [|done].
  intros H. split; [done|]. split; [|done]. apply andb_true_iff in E as [-> _]. done.
Qed.

Lemma node_nonzero m roots r p t : tables_ok m roots → r ∈ roots → path_ok p → node m r p = Some t → (t =? 0) = false.
Proof. intros HT Hr Hp Ht. apply Z.eqb_neq. destruct (tk_node m roots HT r p t Hr Hp Ht) as ([? _] & _). lia. Qed.

Lemma user_unmap_page_ok m roots r va t : tables_ok m roots → r ∈ roots →
  node m r [PML4_IDX va; PDPT_IDX va; PD_IDX va] = Some t →
  user_unmap_page r va m = set_pte t (PT_IDX va) 0 m ∧ remapped roots r va 0 m (user_unmap_page r va m).
Proof.
  intros HT Hr Ht. assert (user_unmap_page r va m = set_pte t (PT_IDX va) 0 m) as E.
  { pose proof (va_path_ok va) as Hq. unfold user_unmap_page.
    destruct (present_child_node m r _ _ _ Ht) as (O1 & -> & N1).
    destruct (present_child_node m _ _ _ _ N1) as (O2 & -> & N2).
    destruct (present_child_node m _ _ _ _ N2) as (O3 & -> & [= <-]).
    destruct (path_ok_cons _ _ Hq) as [H4 H32]. destruct (path_ok_cons _ _ H32) as [H3 _].
    rewrite (node_nonzero m roots r [PML4_IDX va]); [|done|done|by apply (path_ok_snoc []); [split; [simpl; lia|done]|simpl; lia|]|by simpl; rewrite O1].
    rewrite (node_nonzero m roots r [PML4_IDX va; PDPT_IDX va]);
      [|done|done|split; [simpl; lia|rewrite !Forall_cons, Forall_nil; done]|by simpl; rewrite O1, O2].
    by rewrite (node_nonzero m roots r _ _ HT Hr Hq Ht). }
  rewrite E. split; [done|]. eapply leaf_remapped; [done|by apply grows_refl|done].
Qed.

(** The unsafe walk is safe where the boot map has nothing. *)
Lemma get_or_alloc_ok m roots r p t i :
  tables_ok m roots → r ∈ roots → path_ok p → (length p ≤ 2)%nat → idx i → node m r p = Some t →
  boot_entry p i = 0 → child_owned roots r p i m (get_or_alloc t i m).
Proof.
  intros HT Hr Hp Hl Hi Ht Eb0. unfold get_or_alloc.
  destruct (owned_entry (pte m t i)) eqn:Eo.
  { pose proof (proj1 (proj1 (andb_true_iff _ _) Eo)) as ->. cbn [negb]. by apply child_found. }
  pose proof (child_boot m roots r p t i HT Hr Hp Hi Ht Eo Hl) as Eb. rewrite Eb, Eb0. cbn [negb has Z.land Z.eqb].
  allocate m m1 f HT. destruct (Z.eqb_spec f 0) as [->|Hf]; [by apply child_refused|].
  pose proof Ha as (_ & _ & _ & [[? _]|(Af & Ff & Fu & Ho & Hz)]); [done|].
  apply (child_made m roots r p t i HT Hr Hp Hi Ht m1); [done..|].
  intros j Hj. rewrite Hz by done. symmetry. apply (boot_absent m); [by apply tk_boot in HT|done..|]. by rewrite Eb0.
Qed.

Lemma boot_beyond va i : PML4_IDX va ≠ 0 → boot_entry [] (PML4_IDX va) = 0 ∧ boot_entry [PML4_IDX va] i = 0 ∧
  ∀ j, boot_entry [PML4_IDX va; i] j = 0.
Proof. intros H. cbn [boot_entry]. rewrite (proj2 (Z.eqb_neq _ 0) H). done. Qed.

(** [user_map_page] has no result: the page is mapped, or the pool ran dry and it is not. *)
Lemma user_map_page_ok m roots r va pa fl : tables_ok m roots → r ∈ roots → PML4_IDX va ≠ 0 →
  let m' := user_map_page r va pa fl m in
  remapped roots r va (Z.lor (frame_of pa) fl) m m' ∨ (grows roots r m m' ∧ no_frames m').
Proof.
  intros HT Hr Hva. destruct (idx_range va) as (H4 & H3 & H2 & H1). unfold user_map_page.
  destruct (boot_beyond va (PDPT_IDX va) Hva) as (B1 & B2 & B3).
  pose proof (get_or_alloc_ok m roots r [] r (PML4_IDX va) HT Hr ltac:(split; [simpl; lia|done]) ltac:(simpl; lia) H4 eq_refl B1) as C1.
  destruct (get_or_alloc r (PML4_IDX va) m) as [pdpt m1]. destruct C1 as (G1 & C1); cbn [fst snd app] in *.
  destruct C1 as [[-> Hn]|(Hz & N1)]; [right; split; [done|exact (no_frames_mono roots r _ _ G1 Hn)]|].
  rewrite (proj2 (Z.eqb_neq pdpt 0) Hz).
  pose proof (get_or_alloc_ok m1 roots r [PML4_IDX va] pdpt (PDPT_IDX va) (gr_ok _ _ _ _ G1) Hr
    ltac:(by apply (path_ok_snoc []); [split; [simpl; lia|done]|simpl; lia|]) ltac:(simpl; lia) H3 N1 B2) as C2.
  destruct (get_or_alloc pdpt (PDPT_IDX va) m1) as [pd m2]. destruct C2 as (G2 & C2); cbn [fst snd app] in *.
  pose proof (grows_trans roots r m m1 m2 Hr G1 G2) as G12.
  destruct C2 as [[-> Hn]|(Hz2 & N2)]; [right; split; [done|exact (no_frames_mono roots r _ _ G2 Hn)]|].
  rewrite (proj2 (Z.eqb_neq pd 0) Hz2).
  pose proof (get_or_alloc_ok m2 roots r [PML4_IDX va; PDPT_IDX va] pd (PD_IDX va) (gr_ok _ _ _ _ G2) Hr
    ltac:(split; [simpl; lia|rewrite !Forall_cons, Forall_nil; done]) ltac:(simpl; lia) H2 N2 (B3 _)) as C3.
  destruct (get_or_alloc pd (PD_IDX va) m2) as [pt m3]. destruct C3 as (G3 & C3); cbn [fst snd app] in *.
  pose proof (grows_trans roots r m m2 m3 Hr G12 G3) as G.
  destruct C3 as [[-> Hn]|(Hz3 & N3)]; [right; split; [done|exact (no_frames_mono roots r _ _ G3 Hn)]|].
  rewrite (proj2 (Z.eqb_neq pt 0) Hz3). left. by eapply leaf_remapped.
Qed.

(** * A new address space *)

Section Root.
Context (m m' : Mach) (roots : list Z) (t : Z).
Context (HT : tables_ok m roots) (Ha : table_allocated m t m') (Ht0 : t ≠ 0).

Lemma root_fresh : table_addr t ∧ used (m_frames m) (t / 4096) = false ∧ used (m_frames m') (t / 4096) = true.
Proof using Ha Ht0. destruct Ha as (_ & _ & _ & [[? _]|(? & ? & ? & _)]); done. Qed.

Lemma root_not_used u : used (m_frames m) (u / 4096) = true → u ≠ t.
Proof using Ha Ht0. intros Hu ->. destruct root_fresh as (_ & Hf & _). congruence. Qed.

Context (m2 : Mach) (Ef : m_frames m2 = m_frames m') (Ho : same_outside t m' m2).

Lemma root_else u j : table_addr u → idx j → u ≠ t → pte m2 u j = pte m u j.
Proof using Ha Ht0 Ho.
  intros Hu Hj Hne. destruct root_fresh as (At & _).
  assert ((u + 8 * j) / 4096 ≠ t / 4096) as Hd.
  { rewrite slot_frame by (done || apply Hu). intros E. apply Hne. rewrite (table_frame u Hu), (table_frame t At). congruence. }
  unfold pte. rewrite Ho by done. destruct Ha as (_ & _ & _ & [[? _]|(_ & _ & _ & Ho1 & _)]); [done|by apply Ho1].
Qed.

Lemma root_boot : boot_map m2.
Proof using HT Ha Ht0 Ef Ho.
  pose proof (tk_boot m roots HT) as Hb.
  assert (∀ u j, u ∈ boot_tables → idx j → pte m2 u j = pte m u j) as He.
  { intros u j Hu Hj. apply root_else; [by apply (bm_addr m Hb)|done|]. by apply root_not_used, (bm_used m Hb). }
  split.
  - intros j Hj. rewrite He by (done || (unfold boot_tables; set_solver)). by apply (bm_p4 m Hb).
  - intros j Hj. rewrite He by (done || (unfold boot_tables; set_solver)). by apply (bm_p3 m Hb).
  - intros k j Hk Hj. rewrite He by (done || apply p2_in_boot). by apply (bm_p2 m Hb).
  - apply (bm_addr m Hb).
  - intros u Hu. rewrite Ef. apply Ha. by apply (bm_used m Hb).
Qed.

Lemma root_old r p : r ∈ roots → path_ok p → node m2 r p = node m r p.
Proof using HT Ha Ht0 Ef Ho.
  intros Hr. induction p as [|k p IH] using rev_ind; [done|]. intros (Hp & Hl & Hk)%path_ok_snoc_inv.
  rewrite !node_snoc, IH by done. destruct (node m r p) as [u|] eqn:Eu; [|done]. simpl.
  destruct (tk_node m roots HT r p u Hr Hp Eu) as (Au & Uu & _). rewrite root_else; [done|done|done|by apply root_not_used].
Qed.

Context (Hn : ∀ j, idx j → pte m2 t j = boot_entry [] j).

Lemma root_new p : path_ok p → node m2 t p = if decide (p = []) then Some t else None.
Proof using All.
  destruct p as [|i p]; [done|]. intros [Hi Hp]%path_ok_cons. simpl. rewrite Hn by done.
  rewrite (boot_not_owned m2); [done|apply root_boot|split; [simpl; lia|done]|done].
Qed.

Lemma root_tables_ok : (t ∉ roots) ∧ tables_ok m2 (t :: roots).
Proof using All.
  destruct root_fresh as (At & Ft & Ut). assert (∀ r p u, r ∈ roots → path_ok p → node m r p = Some u → u ≠ t) as Hne.
  { intros r p u Hr Hp Hu. apply root_not_used. by apply (tk_node m roots HT r p u). }
  split; [intros Hin; apply (Hne t [] t Hin); [split; [simpl; lia|done]|done|done]|]. split.
  - rewrite Ef. apply Ha.
  - apply root_boot.
  - intros r p u [->|Hr]%elem_of_cons Hp.
    + rewrite root_new by done. destruct (decide _); [intros [= <-]|done]. split; [done|]. split; [by rewrite Ef|].
      intros Hin. by apply (root_not_used t); [apply (bm_used m (tk_boot m roots HT))|].
    + rewrite root_old by done. intros Hu. destruct (tk_node m roots HT r p u Hr Hp Hu) as (? & Uu & ?). split; [done|].
      split; [|done]. rewrite Ef. by apply Ha.
  - intros r1 p1 r2 p2 u [->|H1]%elem_of_cons [->|H2]%elem_of_cons P1 P2; rewrite ?root_new, ?root_old by done.
    + by destruct (decide (p1 = [])) as [->|], (decide (p2 = [])) as [->|].
    + destruct (decide _); [intros [= <-] Hu|done]. by apply Hne in Hu.
    + intros Hu. destruct (decide _); [intros [= <-]|done]. by apply Hne in Hu.
    + by apply (tk_inj m roots HT).
  - intros r p u j [->|Hr]%elem_of_cons Hp Hl Hj.
    + rewrite root_new by done. destruct (decide _) as [->|]; [intros [= <-]|done]. left. by apply Hn.
    + rewrite root_old by done. intros Hu. destruct (tk_node m roots HT r p u Hr Hp Hu) as (Au & _).
      rewrite root_else by (done || by eapply Hne). by apply (tk_entry m roots HT r).
Qed.

Lemma root_entry r va : r ∈ roots → page_entry m2 r va = page_entry m r va.
Proof using All.
  intros Hr. pose proof (va_path_ok va) as Hv. destruct (idx_range va) as (_ & _ & _ & H1). unfold page_entry.
  rewrite root_old by done. destruct (node m r _) as [u|] eqn:Eu; [|done].
  destruct (tk_node m roots HT r _ u Hr Hv Eu) as (Au & Uu & _). apply root_else; [done|done|by apply root_not_used].
Qed.

Lemma root_blank va : page_entry m2 t va = boot_entry [PML4_IDX va; PDPT_IDX va; PD_IDX va] (PT_IDX va).
Proof using All. unfold page_entry. rewrite root_new by apply va_path_ok. done. Qed.

End Root.

Lemma clone_spec t m1 : table_addr t → boot_map m1 → p4_table ≠ t → (∀ j, idx j → pte m1 t j = 0) →
  let m2 := clone_kernel_slots t p4_table m1 in
  m_frames m2 = m_frames m1 ∧ same_outside t m1 m2 ∧ ∀ j, idx j → pte m2 t j = boot_entry [] j.
Proof.
  intros At Hb Hne Hz m2. assert (table_addr p4_table) as A4 by (apply (bm_addr m1 Hb); unfold boot_tables; set_solver).
  assert (m_frames m2 = m_frames m1 ∧ same_outside t m1 m2 ∧
    ∀ j, idx j → pte m2 t j = if j <? 0 + Z.of_nat 512 then boot_entry [] j else 0) as (? & ? & Hj).
  { apply (for_up_ind (λ n m', m_frames m' = m_frames m1 ∧ same_outside t m1 m' ∧
      ∀ j, idx j → pte m' t j = if j <? n then boot_entry [] j else 0)).
    { split; [done|]. split; [done|]. intros j Hj. rewrite Hz by done. destruct (Z.ltb_spec j 0); [unfold idx in Hj; lia|done]. }
    intros n m' Hn (E1 & E2 & E3). assert (idx n) as Hin by (unfold idx; lia).
    assert (pte m' p4_table n = boot_entry [] n) as Ep.
    { unfold pte. rewrite E2; [by apply (bm_p4 m1 Hb)|]. rewrite slot_frame by (done || apply A4). intros E. apply Hne.
      rewrite (table_frame t At), (table_frame p4_table A4). congruence. }
    cbv beta zeta. rewrite Ep. destruct (boot_entry_cases m1 [] n Hb) as [E0|(a & fl & Ha & Hfl & Ee)]; [split; [simpl; lia|done]|done| |].
    - rewrite E0. cbn [negb has Z.land Z.eqb]. split; [done|]. split; [done|]. intros j Hj. rewrite E3 by done.
      destruct (decide (j = n)) as [->|]; [|f_equal; zcase]. rewrite E0. by repeat destruct (_ <? _).
    - rewrite Ee. destruct (boot_flags a fl Ha Hfl) as (-> & Hown & _).
      destruct (has (Z.lor a fl) USER_PTE_USER) eqn:Eu.
      { unfold owned_entry in Hown. rewrite Eu, andb_true_r in Hown. destruct (boot_flags a fl Ha Hfl) as (Hp & _). congruence. }
      cbn [negb]. split; [done|]. split.
      + intros x Hx. simpl. rewrite aget_upd_ne; [by apply E2|]. intros <-. by rewrite slot_frame in Hx by (done || apply At).
      + intros j Hj. rewrite pte_set by (done || apply At). destruct (decide _) as [[_ <-]|Hd].
        * rewrite (proj2 (Z.ltb_lt n (n + 1))) by lia. done.
        * rewrite E3 by done. assert (j ≠ n) by (intros ->; tauto). f_equal. zcase. }
  split; [done|]. split; [done|]. intros j Hj'. rewrite Hj by done. destruct (Z.ltb_spec j (0 + Z.of_nat 512)); [done|unfold idx in Hj'; lia].
Qed.

(** A blank address space beside the others, or no frame for its root. *)
Lemma user_clone_page_table_ok m roots : tables_ok m roots →
  let '(t, m') := user_clone_page_table m in
  (t = 0 ∧ no_frames m' ∧ tables_ok m' roots ∧ m_mem m' = m_mem m) ∨
  (t ≠ 0 ∧ (t ∉ roots) ∧ tables_ok m' (t :: roots) ∧
   (∀ va, page_entry m' t va = boot_entry [PML4_IDX va; PDPT_IDX va; PD_IDX va] (PT_IDX va)) ∧
   (∀ r va, r ∈ roots → page_entry m' r va = page_entry m r va) ∧
   used (m_frames m) (t / 4096) = false ∧ same_outside t m m' ∧
   (∀ p, path_ok p → p ≠ [] → node m' t p = None) ∧ m_acts m' = m_acts m).
Proof.
  intros HT. unfold user_clone_page_table. allocate m m1 t HT. destruct (Z.eqb_spec t 0) as [->|Ht0].
  { left. destruct Ha as (Hw & Hu & _ & [(_ & Em & Hn)|([? _] & _)]); [|lia].
    pose proof (grows_frames roots 0 m m1 HT Em Hw Hu) as G. split; [done|].
    split; [by eapply no_frames_mono|]. split; [apply G|done]. }
  right. assert (boot_map m1) as Hb1 by (by eapply (root_boot m m1 roots t HT Ha Ht0 m1)).
  destruct (root_fresh m m1 t Ha Ht0) as (At & Hfree & _).
  assert (p4_table ≠ t) as Hne.
  { apply (root_not_used m m1 t Ha Ht0), (bm_used m (tk_boot m roots HT)). unfold boot_tables. set_solver. }
  destruct (clone_spec t m1 At Hb1 Hne) as (E1 & E2 & E3).
  { destruct Ha as (_ & _ & _ & [[? _]|(_ & _ & _ & _ & Hz)]); done. }
  destruct (root_tables_ok m m1 roots t HT Ha Ht0 _ E1 E2 E3) as (Hni & HT').
  split; [done|]. split; [done|]. split; [done|]. split; [|split; [|split; [done|split; [|split]]]].
  - intros va. by apply (root_blank m m1 roots t HT Ha Ht0 _ E1 E2 E3).
  - intros r va Hr. by apply (root_entry m m1 roots t HT Ha Ht0 _ E1 E2 E3).
  - intros a Hn. rewrite E2 by done. by destruct Ha as (_ & _ & _ & [[? _]|(_ & _ & _ & Ho & _)]); [|apply Ho].
  - intros p Hp Hnil. rewrite (root_new m m1 roots t HT Ha Ht0 _ E1 E2 E3) by done. by rewrite decide_False.
  - etrans; [|apply Ha]. unfold clone_kernel_slots. apply (for_up_ind (λ _ m', m_acts m' = m_acts m1)); [done|].
    intros j m' _ E. by repeat destruct (negb _).
Qed.

End Ops.
