(* ===== verification/PagingFree.v ===== *)
(** Tearing an address space down: [user_destroy_page_table] returns the tables and the
    private pages of one process and nothing that another address space, the kernel image,
    the capability arena or the shared code cache still needs. *)

From stdpp Require Import base gmap list list_numbers.
From Stdlib Require Import ZArith Lia Bool.
From S2P Require Import Prelude FramePool FramePoolSpec CapState CapPools Paging PagingSpec PagingOps.
Import X86.
#[local] Open Scope Z_scope.
#[local] Open Scope carr_scope.

Section Free.
Context {MA : Machine}.

Definition owners_ok (s : FramePool) : Prop := ∀ f, 0 ≤ owner s f < PARTITION_MAX.

(** The frames of the valid activations. *)
Definition act_frame (m : Mach) (pa : Z) : Prop :=
  ∃ i q, a_valid (m_acts m).[i] ≠ 0 ∧ 0 ≤ q < a_code_pages (m_acts m).[i] ∧ pa = (a_frame (m_acts m).[i]).[q].

(** [m'] is [m] with frames of [P] returned to the pool. *)
Record shrinks (P : Z → Prop) (m m' : Mach) : Prop := {
  sh_mem : m_mem m' = m_mem m;
  sh_words : words_ok (physical_memory_bitmap (m_frames m'));
  sh_owner : owners_ok (m_frames m');
  sh_used : ∀ g, used (m_frames m') g = true → used (m_frames m) g = true;
  sh_only : ∀ g, used (m_frames m) g = true → used (m_frames m') g = false → P g;
  sh_acts : ∀ pa, act_frame m' pa → act_frame m pa
}.

Lemma shrinks_refl P m : words_ok (physical_memory_bitmap (m_frames m)) → owners_ok (m_frames m) → shrinks P m m.
Proof. intros. split; auto. intros g E1 E2. congruence. Qed.

Lemma shrinks_trans P m1 m2 m3 : shrinks P m1 m2 → shrinks P m2 m3 → shrinks P m1 m3.
Proof.
  intros [A1 A2 A3 A4 A5 A6] [B1 B2 B3 B4 B5 B6]. split; auto; [congruence|].
  intros g H1 H3. destruct (used (m_frames m2) g) eqn:E; auto.
Qed.

Lemma shrinks_unused P m m' g : shrinks P m m' → used (m_frames m) g = false → used (m_frames m') g = false.
Proof. intros H E. destruct (used (m_frames m') g) eqn:E'; [|done]. apply (sh_used _ _ _ H) in E'. congruence. Qed.

(** A frame address the pool knows. *)
Definition pool_frame (pa : Z) : Prop := 1 ≤ pa / 4096 < TOTAL_FRAMES ∧ pa mod 4096 = 0.

(** What a release does to the pool: the frame's bit, if it was set, and nothing else. *)
Definition frees (pa : Z) (s t : FramePool) : Prop :=
  words_ok (physical_memory_bitmap t) ∧ owners_ok t ∧ (∀ g, used t g = true → used s g = true) ∧
  (∀ g, used s g = true → used t g = false → g = pa / 4096) ∧ (pool_frame pa → used t (pa / 4096) = false).

Lemma free_raw_frees pa s : words_ok (physical_memory_bitmap s) → owners_ok s → frees pa s (snd (free_raw_frame pa s)).
Proof.
  intros Hw Ho. destruct (free_raw_frame_cases pa s) as [[-> Hn]|(f & t & -> & -> & Hf0 & Hf & Hu & (R1 & R2 & R3 & _))].
  - split; [done|]. split; [done|]. split; [done|]. split; [intros; simpl in *; congruence|].
    intros [Hr Hm]. simpl. destruct (used s (pa / 4096)) eqn:E; [|done]. destruct Hn. exists (pa / 4096).
    split; [|split; [lia|done]]. unfold FRAME_SIZE. rewrite (Z.div_mod pa 4096) at 1 by done. lia.
  - simpl. unfold frees, FRAME_SIZE. rewrite Z.div_mul by done. split; [by apply R3|]. split.
    { intros g. rewrite R2. destruct (g =? f); [done|apply Ho]. }
    split; [intros g; rewrite R1; by destruct (used s g); rewrite ?andb_false_r|]. split.
    + intros g Hg. rewrite R1, Hg, andb_true_r. intros H%negb_false_iff%Z.eqb_eq. done.
    + intros _. by rewrite R1, Z.eqb_refl.
Qed.

Lemma free_for_partition_frees pa p s : 0 ≤ p < PARTITION_MAX → words_ok (physical_memory_bitmap s) → owners_ok s →
  frees pa s (snd (free_physical_ram_frame_for_partition pa p s)).
Proof.
  intros Hp Hw Ho. pose proof (free_raw_frees pa s Hw Ho) as H. unfold free_physical_ram_frame_for_partition.
  destruct (Z.leb_spec PARTITION_MAX p); [lia|]. destruct (free_raw_frame pa s) as [r t]. simpl in H.
  destruct (negb (r =? 0)); [done|]. by destruct (0 <? usage t p).
Qed.

Lemma free_frame_frees pa s : words_ok (physical_memory_bitmap s) → owners_ok s →
  frees pa s (snd (free_physical_ram_frame pa s)).
Proof.
  intros Hw Ho. pose proof (free_raw_frees pa s Hw Ho) as H. unfold free_physical_ram_frame.
  destruct (free_raw_frame pa s) as [r t]. simpl in H. destruct (negb (r =? 0)); [done|]. by destruct (0 <? usage t _).
Qed.

Lemma frees_shrinks (P : Z → Prop) pa m t : frees pa (m_frames m) t → P (pa / 4096) → shrinks P m (set_m_frames t m).
Proof.
  intros (Hw & Ho & Hu & Hx & _) HP. split; [done|done|done|done| |done].
  intros g H1 H2. by rewrite (Hx g H1 H2).
Qed.

Lemma frame_owner_range s f : owners_ok s → 0 ≤ frame_pool_frame_owner s f < PARTITION_MAX.
Proof. intros H. unfold frame_pool_frame_owner. destruct (TOTAL_FRAMES <=? f); [done|apply H]. Qed.

Lemma free_user_frame_ok (P : Z → Prop) pa freed m : words_ok (physical_memory_bitmap (m_frames m)) → owners_ok (m_frames m) →
  P (pa / 4096) → let '(_, m') := free_user_frame pa freed m in
  shrinks P m m' ∧ (pool_frame pa → used (m_frames m') (pa / 4096) = false).
Proof.
  intros Hw Ho HP. unfold free_user_frame.
  pose proof (free_for_partition_frees pa _ _ (frame_owner_range _ (pa / 4096) Ho) Hw Ho) as H.
  destruct (free_physical_ram_frame_for_partition _ _ _) as [r t]. simpl in H.
  split; [by eapply frees_shrinks|]. apply H.
Qed.

(** * The shared code cache *)

Lemma free_code_pages_ok (P : Z → Prop) act m : words_ok (physical_memory_bitmap (m_frames m)) → owners_ok (m_frames m) →
  (∀ q, 0 ≤ q < a_code_pages act → P ((a_frame act).[q] / 4096)) → shrinks P m (free_code_pages act m).
Proof.
  intros Hw Ho HP. unfold free_code_pages.
  apply (for_up_ind (λ _ m', shrinks P m m')); [by apply shrinks_refl|].
  intros q m1 Hq H. eapply shrinks_trans; [exact H|].
  eapply frees_shrinks; [apply free_frame_frees; apply H|]. apply HP. lia.
Qed.

Lemma act_frame_upd m i act pa : (∀ q, a_valid act ≠ 0 → 0 ≤ q < a_code_pages act → act_frame m (a_frame act).[q]) →
  act_frame (set_m_acts (m_acts m).[i <- act] m) pa → act_frame m pa.
Proof.
  intros H (j & q & Hv & Hq & ->). simpl in *. rewrite aget_upd in *. destruct (i =? j); [by apply H|by exists j, q].
Qed.

Lemma simi_frame_is_cached_ok (P : Z → Prop) pa seen m : words_ok (physical_memory_bitmap (m_frames m)) → owners_ok (m_frames m) →
  (∀ x, act_frame m x → P (x / 4096)) →
  let '(cached, _, m') := simi_frame_is_cached pa seen m in
  shrinks P m m' ∧ (if cached then act_frame m pa else m' = m).
Proof.
  intros Hw Ho HP. unfold simi_frame_is_cached. destruct (Z.eqb_spec pa 0) as [->|Hpa].
  { split; [by apply shrinks_refl|done]. }
  destruct (find_activation pa m) as [i|] eqn:E; [|split; [by apply shrinks_refl|done]].
  apply find_up_Some in E as (_ & E & _). apply andb_true_iff in E as [Ev E]. apply negb_true_iff, Z.eqb_neq in Ev.
  destruct (find_up (Z.to_nat (a_code_pages _)) _ _) as [p|] eqn:Ep; [|done].
  apply find_up_Some in Ep as (Hp & Ep & _). apply Z.eqb_eq in Ep.
  assert (0 ≤ p < a_code_pages (m_acts m).[i]) as Hp' by lia.
  assert (act_frame m pa) as Hact by (exists i, p; done).
  destruct (has seen (Z.shiftl 1 i)); [split; [by apply shrinks_refl|done]|]. cbv zeta.
  set (act := if 0 <? a_mappers (m_acts m).[i] then _ else _).
  assert (a_valid act = a_valid (m_acts m).[i] ∧ a_code_pages act = a_code_pages (m_acts m).[i] ∧
    a_frame act = a_frame (m_acts m).[i]) as (A1 & A2 & A3) by (unfold act; by destruct (0 <? _)).
  assert (∀ q, 0 ≤ q < a_code_pages act → act_frame m (a_frame act).[q]) as Hq.
  { intros q Hq. exists i, q. rewrite A2 in Hq. rewrite A3. done. }
  assert (shrinks P m (set_m_acts (m_acts m).[i <- act] m)) as S1.
  { split; [done|done|done|done|intros; simpl in *; congruence|]. intros x. apply act_frame_upd. auto. }
  destruct (_ && _); [|by split].
  split; [|done]. eapply shrinks_trans; [exact S1|]. eapply shrinks_trans.
  { apply (free_code_pages_ok P act); [done|done|]. intros q Hq'. by apply HP, Hq. }
  assert (shrinks P (set_m_acts (m_acts m).[i <- act] m) (free_code_pages act (set_m_acts (m_acts m).[i <- act] m))) as S2.
  { apply (free_code_pages_ok P act); [done|done|]. intros q Hq'. by apply HP, Hq. }
  split; [done|apply S2|apply S2|done|intros; simpl in *; congruence|].
  intros x. apply act_frame_upd. done.
Qed.

(** * The walk *)

Section Walk.
Context (arena : Z) (m0 : Mach) (roots : list Z) (r : Z) (HT : tables_ok m0 roots) (Hr : r ∈ roots).

(** Places of tables and, one level below the last, of pages. *)
Definition place_ok (p : list Z) : Prop := (length p ≤ 4)%nat ∧ Forall idx p.

(** The frames the walk may release. *)
Definition private (g : Z) : Prop :=
  (∃ p u, place_ok p ∧ node m0 r p = Some u ∧ user_frame_refused arena u = false ∧ g = u / 4096) ∨
  (∃ u, act_frame m0 u ∧ g = u / 4096).

(** The frame at a place is back in the pool, or is one of those that must stay. *)
Definition gone (p : list Z) (u : Z) (m : Mach) : Prop :=
  user_frame_refused arena u = true ∨ (length p = 4%nat ∧ act_frame m0 u) ∨ (pool_frame u → used (m_frames m) (u / 4096) = false).

Definition cleared (p : list Z) (m : Mach) : Prop :=
  ∀ i q u, place_ok (p ++ i :: q) → node m0 r (p ++ i :: q) = Some u → gone (p ++ i :: q) u m.

Lemma gone_mono p u m m' : shrinks private m m' → gone p u m → gone p u m'.
Proof. intros S [H|[H|H]]; [by left|by right; left|right; right]. intros Hp. by eapply shrinks_unused; [|apply H]. Qed.

Lemma free_leaf_ok p pa freed seen m : shrinks private m0 m → place_ok p → length p = 4%nat → node m0 r p = Some pa →
  let '(_, _, m') := free_leaf arena pa freed seen m in shrinks private m m' ∧ gone p pa m'.
Proof.
  intros S Hp Hl Hn. unfold free_leaf. destruct (user_frame_refused arena pa) eqn:Er.
  { split; [apply shrinks_refl; apply S|by left]. }
  assert (private (pa / 4096)) as HP by (left; by exists p, pa).
  assert (∀ x, act_frame m x → private (x / 4096)) as HA by (intros x Hx; right; exists x; split; [by apply (sh_acts _ _ _ S)|done]).
  pose proof (simi_frame_is_cached_ok private pa seen m (sh_words _ _ _ S) (sh_owner _ _ _ S) HA) as HC.
  destruct (simi_frame_is_cached pa seen m) as [[[] seen'] m'].
  - destruct HC as [S' Ha]. split; [done|]. right. left. split; [done|]. by apply (sh_acts _ _ _ S).
  - destruct HC as [_ ->]. pose proof (free_user_frame_ok private pa freed m (sh_words _ _ _ S) (sh_owner _ _ _ S) HP) as HF.
    destruct (free_user_frame pa freed m) as [? m'']. destruct HF as [S' Hu]. split; [done|]. by right; right.
Qed.

Lemma node_step p i t : node m0 r p = Some t →
  node m0 r (p ++ [i]) = if owned_entry (pte m0 t i) then Some (frame_of (pte m0 t i)) else None.
Proof. intros H. by rewrite node_snoc, H. Qed.

Lemma node_below p i q t : node m0 r p = Some t → owned_entry (pte m0 t i) = false → node m0 r (p ++ i :: q) = None.
Proof. intros H E. rewrite node_app, H. simpl. by rewrite E. Qed.

(** Freeing a table once everything below it is gone. *)
Lemma free_table_ok p c freed m : shrinks private m0 m → place_ok p → node m0 r p = Some c → cleared p m →
  let '(_, m') := if user_frame_refused arena c then (freed, m) else free_user_frame c freed m in
  shrinks private m m' ∧ gone p c m' ∧ cleared p m'.
Proof.
  intros S Hp Hn Hc. destruct (user_frame_refused arena c) eqn:Er.
  { split; [apply shrinks_refl; apply S|]. split; [by left|done]. }
  assert (private (c / 4096)) as HP by (left; by exists p, c).
  pose proof (free_user_frame_ok private c freed m (sh_words _ _ _ S) (sh_owner _ _ _ S) HP) as HF.
  destruct (free_user_frame c freed m) as [? m']. destruct HF as [S' Hu]. split; [done|]. split; [by right; right|].
  intros i q u Hq Hu'. eapply gone_mono; [exact S'|by apply Hc].
Qed.

Definition entry_cleared (p : list Z) (i : Z) (m : Mach) : Prop :=
  ∀ q u, place_ok (p ++ i :: q) → node m0 r (p ++ i :: q) = Some u → gone (p ++ i :: q) u m.

Lemma loop_ok p (body : Z → Z * Z * Mach → Z * Z * Mach) st : shrinks private m0 (snd st) →
  (∀ i st, idx i → shrinks private m0 (snd st) →
     shrinks private (snd st) (snd (body i st)) ∧ entry_cleared p i (snd (body i st))) →
  shrinks private (snd st) (snd (for_up 512 0 body st)) ∧ cleared p (snd (for_up 512 0 body st)).
Proof.
  intros S Hb.
  assert (shrinks private (snd st) (snd (for_up 512 0 body st)) ∧
    ∀ i, 0 ≤ i < 0 + Z.of_nat 512 → entry_cleared p i (snd (for_up 512 0 body st))) as [S' Hc].
  { apply (for_up_ind (λ n st', shrinks private (snd st) (snd st') ∧ ∀ i, 0 ≤ i < n → entry_cleared p i (snd st'))).
    { split; [apply shrinks_refl; apply S|intros; lia]. }
    intros n st1 Hn (S1 & C1). assert (idx n) as Hi by (unfold idx; lia).
    destruct (Hb n st1 Hi (shrinks_trans _ _ _ _ S S1)) as [S2 C2]. split; [by eapply shrinks_trans|].
    intros i Hi' q u Hq Hu. destruct (decide (i = n)) as [->|]; [by apply C2|].
    eapply gone_mono; [exact S2|]. apply C1; (done || lia). }
  split; [done|]. intros i q u Hq Hu. apply Hc; [|done|done].
  destruct Hq as [_ Hq]. apply Forall_app in Hq as [_ Hq]. apply Forall_cons in Hq as [Hq _]. unfold idx in Hq. lia.
Qed.

Lemma place_ok_snoc p i : place_ok p → (length p ≤ 3)%nat → idx i → place_ok (p ++ [i]).
Proof.
  intros [_ Hf] Hl Hi. split; [rewrite length_app; simpl; lia|]. apply Forall_app. split; [done|]. by apply Forall_singleton.
Qed.

Lemma entry_step p i c m : node m0 r (p ++ [i]) = Some c → gone (p ++ [i]) c m → cleared (p ++ [i]) m → entry_cleared p i m.
Proof.
  intros Hn Hg Hc q u Hq Hu. destruct q as [|j q]; [congruence|].
  assert (p ++ i :: j :: q = (p ++ [i]) ++ j :: q) as E by (by rewrite <- app_assoc). rewrite E in *. by apply Hc.
Qed.

Lemma subtree_ok l : ∀ p t st, (length p + l = 3)%nat → place_ok p → node m0 r p = Some t → shrinks private m0 (snd st) →
  let st' := user_free_subtree arena l (bool_decide (l = 3%nat)) t st in
  shrinks private (snd st) (snd st') ∧ cleared p (snd st').
Proof.
  induction l as [|l IH]; intros p t st Hl Hp Ht S; cbn [user_free_subtree]; apply loop_ok; try done;
    intros i [[freed seen] m] Hi Sm; cbn [snd] in Sm |- *; unfold pte; rewrite (sh_mem _ _ _ Sm); fold (pte m0 t i).
  - destruct (owned_entry (pte m0 t i)) eqn:Eo.
    + pose proof (proj1 (andb_true_iff _ _) Eo) as [-> ->]. cbn [negb].
      assert (node m0 r (p ++ [i]) = Some (frame_of (pte m0 t i))) as Hn by (by rewrite (node_step p i t Ht), Eo).
      assert (place_ok (p ++ [i])) as Hpi by (apply place_ok_snoc; (done || lia)).
      pose proof (free_leaf_ok (p ++ [i]) _ freed seen m Sm Hpi ltac:(rewrite length_app; simpl; lia) Hn) as HL.
      destruct (free_leaf _ _ _ _ _) as [[? ?] m']. destruct HL as [S' Hg]. split; [done|].
      eapply entry_step; [done|done|]. intros j q u [Hq _]. rewrite !length_app in Hq. simpl in Hq. lia.
    + match goal with |- shrinks _ _ (snd ?x) ∧ _ => assert (x = (freed, seen, m)) as -> end.
      { unfold owned_entry in Eo. destruct (has _ USER_PTE_PRESENT), (has _ USER_PTE_USER); done. }
      split; [apply shrinks_refl; apply Sm|]. intros q u _. by rewrite (node_below p i q t).
  - destruct (owned_entry (pte m0 t i)) eqn:Eo.
    + pose proof (proj1 (andb_true_iff _ _) Eo) as [-> ->]. cbn [negb].
      assert (path_ok p) as Hp' by (split; [lia|apply Hp]).
      destruct (tk_entry m0 roots HT r p t i Hr Hp' ltac:(lia) Hi Ht) as [E|(c & Ac & E)].
      { rewrite E, (boot_not_owned m0) in Eo; [done|by apply tk_boot in HT|done|done]. }
      destruct (table_entry_owned c Ac) as (_ & Ef & Eps & _). rewrite E, Eps, Ef, andb_false_r.
      assert (node m0 r (p ++ [i]) = Some c) as Hn by (by rewrite (node_step p i t Ht), Eo, E, Ef).
      assert (place_ok (p ++ [i])) as Hpi by (apply place_ok_snoc; (done || lia)).
      destruct (IH (p ++ [i]) c (freed, seen, m)) as [S1 C1]; [rewrite length_app; simpl; lia|done|done|done|].
      rewrite bool_decide_false in S1, C1 by lia.
      destruct (user_free_subtree arena l false c (freed, seen, m)) as [[freed1 seen1] m1]. cbn [snd] in S1, C1.
      pose proof (free_table_ok (p ++ [i]) c freed1 m1 (shrinks_trans _ _ _ _ Sm S1) Hpi Hn C1) as HF.
      assert (∃ x, (if user_frame_refused arena c then (freed1, seen1, m1)
        else let '(freed, m) := free_user_frame c freed1 m1 in (freed, seen1, m)) = (x, seen1,
        snd (if user_frame_refused arena c then (freed1, m1) else free_user_frame c freed1 m1))) as [x ->].
      { destruct (user_frame_refused arena c); [by eexists|]. by destruct (free_user_frame c freed1 m1); eexists. }
      destruct (if user_frame_refused arena c then _ else _) as [? m2]. destruct HF as (S2 & G2 & C2). cbn [snd].
      split; [by eapply shrinks_trans|]. by eapply entry_step.
    + match goal with |- shrinks _ _ (snd ?x) ∧ _ => assert (x = (freed, seen, m)) as -> end.
      { unfold owned_entry in Eo. destruct (has _ USER_PTE_PRESENT), (has _ USER_PTE_USER); done. }
      split; [apply shrinks_refl; apply Sm|]. intros q u _. by rewrite (node_below p i q t).
Qed.

Lemma destroy_ok : r ≠ 0 → words_ok (physical_memory_bitmap (m_frames m0)) → owners_ok (m_frames m0) →
  let res := user_destroy_page_table arena r m0 in
  shrinks private m0 (snd res) ∧ ∀ p u, place_ok p → node m0 r p = Some u → gone p u (snd res).
Proof.
  intros Hr0 Hw Ho. unfold user_destroy_page_table. rewrite (proj2 (Z.eqb_neq r 0) Hr0).
  assert (place_ok []) as P0 by (split; [simpl; lia|done]).
  assert (shrinks private m0 m0) as S0 by (by apply shrinks_refl).
  destruct (subtree_ok 3 [] r (0, 0, m0)) as [S1 C1]; [done..|]. rewrite bool_decide_true in S1, C1 by done.
  destruct (user_free_subtree arena 3 true r (0, 0, m0)) as [[freed seen] m1]. cbn [snd] in S1, C1.
  pose proof (free_table_ok [] r freed m1 S1 P0 eq_refl C1) as HF. cbv zeta.
  destruct (if user_frame_refused arena r then _ else _) as [n m2]. destruct HF as (S2 & G2 & C2). cbn [snd].
  split; [by eapply shrinks_trans|]. intros [|i q] u Hp Hu; [by injection Hu as <-|]. by apply (C2 i q u).
Qed.

(** No frame the walk may release is a table of another address space or of the boot map. *)
Definition nothing_shared : Prop :=
  (∀ t, t ∈ boot_tables → t < image_end) ∧
  (∀ p u, place_ok p → length p = 4%nat → node m0 r p = Some u →
     ∀ r' q t, r' ∈ roots → r' ≠ r → path_ok q → node m0 r' q = Some t → t / 4096 ≠ u / 4096) ∧
  (∀ u, act_frame m0 u → (∀ t, t ∈ boot_tables → t / 4096 ≠ u / 4096) ∧
     ∀ r' q t, r' ∈ roots → r' ≠ r → path_ok q → node m0 r' q = Some t → t / 4096 ≠ u / 4096).

Lemma place_path p : place_ok p → length p ≠ 4%nat → path_ok p.
Proof. intros [Hl Hf] Hn. split; [lia|done]. Qed.

Lemma destroy_keeps_tables m r' q t : nothing_shared → shrinks private m0 m → r' ∈ roots → r' ≠ r → path_ok q →
  node m0 r' q = Some t → used (m_frames m) (t / 4096) = true.
Proof using HT Hr.
  intros (_ & Hl & Ha) S Hr' Hne Hq Ht. destruct (used (m_frames m) (t / 4096)) eqn:E; [done|exfalso].
  destruct (tk_node m0 roots HT r' q t Hr' Hq Ht) as (At & Ut & _).
  destruct (sh_only _ _ _ S _ Ut E) as [(p & u & Hp & Hu & _ & Eg)|(u & Hu & Eg)].
  - destruct (decide (length p = 4%nat)) as [E4|E4]; [by apply (Hl p u Hp E4 Hu r' q t)|].
    pose proof (place_path p Hp E4) as Hp'. destruct (tk_node m0 roots HT r p u Hr Hp' Hu) as (Au & _).
    assert (t = u) as -> by (rewrite (table_frame t At), (table_frame u Au); congruence).
    by destruct (tk_inj m0 roots HT r' q r p u Hr' Hr Hq Hp' Ht Hu) as [-> _].
  - by apply (proj2 (Ha u Hu) r' q t).
Qed.

Lemma destroy_keeps_boot m t : nothing_shared → shrinks private m0 m → t ∈ boot_tables → used (m_frames m) (t / 4096) = true.
Proof using HT Hr.
  intros (Hi & _ & Ha) S Ht. destruct (used (m_frames m) (t / 4096)) eqn:E; [done|exfalso].
  pose proof (tk_boot m0 roots HT) as Hb. pose proof (bm_addr m0 Hb t Ht) as At.
  destruct (sh_only _ _ _ S _ (bm_used m0 Hb t Ht) E) as [(p & u & Hp & Hu & Href & Eg)|(u & Hu & Eg)].
  - unfold user_frame_refused in Href. destruct (Z.ltb_spec u image_end) as [|Hge]; [done|]. specialize (Hi t Ht).
    rewrite (table_frame t At) in Hi. assert (page u) as [_ Hu0].
    { destruct p as [|i p] using rev_ind; [injection Hu as <-; apply table_page, (tk_node m0 roots HT r [] r Hr); [split; [simpl; lia|done]|done]|].
      rewrite node_snoc in Hu. destruct (node m0 r p); [|done]. simpl in Hu. destruct (owned_entry _); [|done].
      injection Hu as <-. apply frame_of_is_page. }
    rewrite (Z.div_mod u 4096) in Hge by done. lia.
  - by apply (proj1 (Ha u Hu) t).
Qed.

Lemma destroy_tables_ok m : nothing_shared → shrinks private m0 m → tables_ok m (filter (λ x, x ≠ r) roots).
Proof using HT Hr.
  intros Hs S. assert (∀ t i, pte m t i = pte m0 t i) as Ep by (intros; unfold pte; by rewrite (sh_mem _ _ _ S)).
  assert (∀ x p, node m x p = node m0 x p) as En by (intros; apply node_mem, S).
  pose proof (tk_boot m0 roots HT) as [B1 B2 B3 B4 B5]. split.
  - apply S.
  - split; intros; rewrite ?Ep; auto. by apply destroy_keeps_boot.
  - intros x p t [Hx Hin]%list_elem_of_filter Hp. rewrite En. intros Ht. destruct (tk_node m0 roots HT x p t Hin Hp Ht) as (? & _ & ?).
    split; [done|]. split; [|done]. by eapply destroy_keeps_tables.
  - intros x p y q t [_ Hx]%list_elem_of_filter [_ Hy]%list_elem_of_filter. rewrite !En. by apply (tk_inj m0 roots HT).
  - intros x p t i [_ Hx]%list_elem_of_filter. rewrite En, Ep. by apply (tk_entry m0 roots HT).
Qed.

End Walk.
End Free.
