(* ===== verification/PagingRoom.v ===== *)
(** Mapping a page succeeds while the frame pool has room: each level of the walk takes at
    most one frame, so three free frames are enough for any page. *)

From stdpp Require Import base gmap list list_numbers.
From Stdlib Require Import ZArith Lia Bool.
From S2P Require Import Prelude FramePool FramePoolSpec CapState Paging PagingSpec PagingOps.
Import X86.
#[local] Open Scope Z_scope.
#[local] Open Scope carr_scope.

Section Room.
Context {MA : Machine}.

(** At least [n] frames can still be allocated. *)
Definition room (n : nat) (m : Mach) : Prop :=
  ∃ l, NoDup l ∧ length l = n ∧ ∀ f, f ∈ l → 1 ≤ f < TOTAL_FRAMES ∧ allocable current_sp (m_frames m) f = true.

(** At most one frame was taken. *)
Definition takes_one (m m' : Mach) : Prop :=
  ∃ f, ∀ g, g ≠ f → allocable current_sp (m_frames m) g = true → allocable current_sp (m_frames m') g = true.

Lemma takes_one_refl m m' : m_frames m' = m_frames m → takes_one m m'.
Proof. intros E. exists 0. by rewrite E. Qed.

Lemma takes_one_frames m m1 m2 : takes_one m m1 → m_frames m2 = m_frames m1 → takes_one m m2.
Proof. intros [f H] E. exists f. by rewrite E. Qed.

Lemma room_takes n m m' : room (S n) m → takes_one m m' → room n m'.
Proof.
  intros (l & Hd & Hl & Ha) [f H]. destruct (decide (f ∈ l)) as [Hf|Hf].
  - apply list_elem_of_split in Hf as (l1 & l2 & ->). exists (l1 ++ l2).
    rewrite length_app in Hl. simpl in Hl. pose proof Hd as Hd'. rewrite <- Permutation_middle in Hd'.
    apply NoDup_cons in Hd' as [Hn Hd']. split; [done|]. split; [rewrite length_app; lia|].
    intros g Hg. destruct (Ha g) as [Hr Hg']; [apply elem_of_app in Hg as [?|?]; apply elem_of_app; [by left|by right; right]|]. split; [done|]. apply H; [|done]. by intros ->.
  - destruct l as [|x l]; [done|]. apply NoDup_cons in Hd as [_ Hd]. exists l. split; [done|]. simpl in Hl. split; [lia|].
    intros g Hg. destruct (Ha g) as [Hr Hg']; [by right|]. split; [done|]. apply H; [|done]. intros ->. apply Hf. by right.
Qed.

Lemma room_frames n m : room (S n) m → ¬ no_frames m.
Proof. intros ([|f l] & _ & Hl & Ha) Hn; [done|]. destruct (Ha f) as [Hr Hf]; [by left|]. by rewrite Hn in Hf. Qed.

Lemma room_le n k m : (n ≤ k)%nat → room k m → room n m.
Proof.
  intros Hn (l & Hd & Hl & Ha). exists (take n l). split; [by eapply sublist_NoDup, sublist_take|].
  split; [rewrite length_take; lia|]. intros f Hf. apply Ha. by eapply elem_of_sublist, sublist_take.
Qed.

Lemma frames_kept (t : Z) (g : Z → Mach → Z) n i m : m_frames (for_up n i (λ j m, set_pte t j (g j m) m) m) = m_frames m.
Proof. apply (for_up_ind (λ _ m', m_frames m' = m_frames m)); [done|]. intros j m' _ E. exact E. Qed.

Lemma alloc_takes_one m : words_ok (physical_memory_bitmap (m_frames m)) → takes_one m (snd (alloc_page_table m)).
Proof.
  intros Hw. unfold alloc_page_table, allocate_physical_ram_frame.
  assert (∀ fp, m_frames (snd (if fst fp =? 0 then (0, set_m_frames (snd fp) m)
    else (fst fp, for_up 512 0 (λ i, set_pte (fst fp) i 0) (set_m_frames (snd fp) m)))) = snd fp) as Hm.
  { intros [t fp]. cbn [fst snd]. destruct (t =? 0); [done|]. cbn [snd]. by rewrite (frames_kept t (λ _ _, 0)). }
  destruct (alloc_raw_frame_cases current_sp (m_frames m) Hw) as [(f & fp & E & Hf & S1 & _)|(fp & E & S1 & _)]; rewrite E.
  - rewrite (frame_base_nonzero f) by lia. specialize (Hm (f * FRAME_SIZE, charge PARTITION_SYSTEM (f * FRAME_SIZE) fp)).
    cbn [fst snd] in Hm. exists f. intros g Hg. rewrite Hm. unfold allocable. rewrite used_charge, S1.
    rewrite (proj2 (Z.eqb_neq g f) Hg). destruct (stack_frame current_sp g); [by rewrite andb_false_r|].
    cbn [orb]. by rewrite andb_false_r, orb_false_r.
  - specialize (Hm (0, fp)). cbn [fst snd Z.eqb] in *. exists 0. intros g _. rewrite Hm. unfold allocable. rewrite S1.
    destruct (stack_frame current_sp g); [by rewrite andb_false_r|]. by rewrite andb_false_r, orb_false_r.
Qed.

Lemma set_pte_frames t i e m : m_frames (set_pte t i e m) = m_frames m.
Proof. done. Qed.

Lemma own_table_takes_one t i m : words_ok (physical_memory_bitmap (m_frames m)) → takes_one m (snd (own_table t i 1 m)).
Proof.
  intros Hw. unfold own_table. destruct (_ && _); [by apply takes_one_refl|]. pose proof (alloc_takes_one m Hw) as H.
  destruct (alloc_page_table m) as [f m1]. cbn [snd] in H. destruct (f =? 0); [done|]. cbn [snd].
  eapply takes_one_frames; [exact H|]. rewrite set_pte_frames. destruct (_ && _); [|done]. unfold copy_table. by rewrite (frames_kept f (λ j m, pte m _ j)).
Qed.

Lemma own_pt_takes_one t i m : words_ok (physical_memory_bitmap (m_frames m)) → takes_one m (snd (own_pt t i m)).
Proof.
  intros Hw. unfold own_pt. destruct (_ && _); [by apply takes_one_refl|]. pose proof (alloc_takes_one m Hw) as H.
  destruct (alloc_page_table m) as [f m1]. cbn [snd] in H. destruct (f =? 0); [done|]. cbn [snd].
  eapply takes_one_frames; [exact H|]. rewrite set_pte_frames. destruct (has _ _); [|done]. destruct (has _ PTE_PS).
  - unfold replicate_huge. apply (frames_kept f (λ j _, _)).
  - unfold copy_table. by rewrite (frames_kept f (λ j m, pte m _ j)).
Qed.

(** With a frame to spare, a table of the walk can always be owned. *)
Lemma child_room n roots r p i m res : room (S n) m → child_owned roots r p i m res → takes_one m (snd res) →
  fst res ≠ 0 ∧ node (snd res) r (p ++ [i]) = Some (fst res) ∧ tables_ok (snd res) roots ∧ room n (snd res).
Proof.
  intros Hm [G [[_ Hn]|[H0 Hc]]] Ht; [by destruct (room_frames _ _ Hm)|].
  do 2 (split; [done|]). split; [apply G|by eapply room_takes].
Qed.

(** Three frames are enough to map any page. *)
Lemma map_page_room n m roots r va pa fl : tables_ok m roots → r ∈ roots → room (3 + n) m →
  fst (user_map_page_safe r va pa fl m) = 0 ∧ room n (snd (user_map_page_safe r va pa fl m)).
Proof.
  intros HT Hr Hm. destruct (idx_range va) as (H4 & H3 & H2 & H1). unfold user_map_page_safe.
  pose proof (own_table_ok m roots r [] r _ HT Hr ltac:(split; [simpl; lia|done]) ltac:(simpl; lia) H4 eq_refl) as C1.
  destruct (child_room _ _ _ _ _ _ _ Hm C1 (own_table_takes_one _ _ _ (tk_words _ _ HT))) as (Z1 & N1 & T1 & R1).
  destruct (own_table r _ 1 m) as [t1 m1]. cbn [fst snd app] in *. rewrite (proj2 (Z.eqb_neq t1 0) Z1).
  assert (path_ok [PML4_IDX va]) as P1 by (split; [simpl; lia|rewrite !Forall_cons, Forall_nil; done]).
  pose proof (own_table_ok m1 roots r _ t1 _ T1 Hr P1 ltac:(simpl; lia) H3 N1) as C2.
  destruct (child_room _ _ _ _ _ _ _ R1 C2 (own_table_takes_one _ _ _ (tk_words _ _ T1))) as (Z2 & N2 & T2 & R2).
  destruct (own_table t1 _ 1 m1) as [t2 m2]. cbn [fst snd app] in *. rewrite (proj2 (Z.eqb_neq t2 0) Z2).
  assert (path_ok [PML4_IDX va; PDPT_IDX va]) as P2 by (split; [simpl; lia|rewrite !Forall_cons, Forall_nil; done]).
  pose proof (own_pt_ok m2 roots r _ _ t2 _ T2 Hr P2 H2 N2) as C3.
  destruct (child_room _ _ _ _ _ _ _ R2 C3 (own_pt_takes_one _ _ _ (tk_words _ _ T2))) as (Z3 & _ & _ & R3).
  destruct (own_pt t2 _ m2) as [t3 m3]. cbn [fst snd] in *. rewrite (proj2 (Z.eqb_neq t3 0) Z3). done.
Qed.

(** One frame is enough to clone the kernel's address space. *)
Lemma clone_room n m roots : tables_ok m roots → room (S n) m →
  fst (user_clone_page_table m) ≠ 0 ∧ room n (snd (user_clone_page_table m)).
Proof.
  intros HT Hm. pose proof (alloc_page_table_spec m (tk_words _ _ HT)) as (_ & _ & _ & Ha).
  pose proof (room_takes _ _ _ Hm (alloc_takes_one m (tk_words _ _ HT))) as R. unfold user_clone_page_table.
  destruct (alloc_page_table m) as [t m1]. cbn [fst snd] in *.
  destruct Ha as [(_ & _ & Hn)|(Ht & Hu & _)]; [by destruct (room_frames _ _ Hm)|].
  assert (t ≠ 0) as H0 by (intros ->; destruct Ht as [[Hr _] _]; done || lia).
  rewrite (proj2 (Z.eqb_neq t 0) H0). split; [done|]. cbn [snd].
  assert (m_frames (clone_kernel_slots t p4_table m1) = m_frames m1) as E.
  { unfold clone_kernel_slots. apply (for_up_ind (λ _ m', m_frames m' = m_frames m1)); [done|].
    intros j m' _ E. by repeat destruct (negb _). }
  destruct R as (l & Hd & Hl & HR). exists l. by rewrite E.
Qed.

End Room.
