(* ===== verification/PagingTheorems.v ===== *)
(** What the page-table code guarantees.

    An address space promises a function from pages to frames and rights ([view]).  [pop]
    lists the operations the kernel performs on address spaces, [prun] runs them, and
    [promise] is what each does to the views: [paging_refines] shows that in every state the
    operations can reach, the tables in memory implement the promise. *)

From stdpp Require Import base gmap list list_numbers.
From Stdlib Require Import ZArith Lia Bool.
From S2P Require Import Prelude FramePool FramePoolSpec CapState CapPools Paging PagingSpec PagingOps PagingFree.
Import X86.
#[local] Open Scope Z_scope.
#[local] Open Scope carr_scope.

(** * Pages *)

Lemma va_path_div va : 0 ≤ va < 2 ^ 48 →
  va / 4096 = ((PML4_IDX va * 512 + PDPT_IDX va) * 512 + PD_IDX va) * 512 + PT_IDX va.
Proof.
  intros H. unfold PML4_IDX, PDPT_IDX, PD_IDX, PT_IDX. rewrite !land_511, !Z.shiftr_div_pow2 by done.
  change (2 ^ 39) with (4096 * 134217728). change (2 ^ 30) with (4096 * 262144). change (2 ^ 21) with (4096 * 512).
  change (2 ^ 12) with 4096. rewrite <- !Z.div_div by done.
  assert (0 ≤ va / 4096 < 2 ^ 36) as Hp by (split; [apply Z.div_pos; lia|apply Z.div_lt_upper_bound; lia]).
  generalize dependent (va / 4096). intros n Hn.
  change 134217728 with (512 * 262144). change 262144 with (512 * 512). rewrite <- !Z.div_div by done.
  assert (0 ≤ n / 512 / 512 / 512 < 512) as H4.
  { split; [repeat apply Z.div_pos; lia|]. repeat (apply Z.div_lt_upper_bound; [lia|]). lia. }
  rewrite (Z.mod_small _ _ H4).
  pose proof (Z.div_mod n 512 ltac:(done)). pose proof (Z.div_mod (n / 512) 512 ltac:(done)).
  pose proof (Z.div_mod (n / 512 / 512) 512 ltac:(done)). lia.
Qed.

Lemma same_page va va' : 0 ≤ va < 2 ^ 48 → 0 ≤ va' < 2 ^ 48 → va_path va' = va_path va ↔ va' / 4096 = va / 4096.
Proof.
  intros H H'. split.
  - intros [= E4 E3 E2 E1]. rewrite !va_path_div by done. congruence.
  - intros E. unfold va_path, PML4_IDX, PDPT_IDX, PD_IDX, PT_IDX. rewrite !Z.shiftr_div_pow2 by done.
    change (2 ^ 39) with (4096 * 134217728). change (2 ^ 30) with (4096 * 262144). change (2 ^ 21) with (4096 * 512).
    change (2 ^ 12) with 4096. rewrite <- !Z.div_div by done. by rewrite E.
Qed.

(** * Rights of a mapping *)

(** The write right a page keeps when the same frame is mapped over it again. *)
Definition keeps_write (old : option (Z * rights)) (pa : Z) : bool :=
  match old with
  | Some (f, a) => r_user a && (f =? frame_of pa) && r_write a
  | None => false
  end.

Definition granted_rights (perms : Z) (kept : bool) : rights :=
  mkR true (has perms 2 || kept) (negb (has perms 4)).

Lemma leaf_flags_rights perms : frame_of (leaf_flags perms) = 0 ∧ has (leaf_flags perms) USER_PTE_PRESENT = true ∧
  rights_of (leaf_flags perms) = mkR true (has perms 2) (negb (has perms 4)).
Proof.
  unfold leaf_flags. destruct (has perms 2), (has perms 4), (has perms CAP_PERM_DEV_UC), (has perms CAP_PERM_DEV_WC); done.
Qed.

Lemma kept_write_eq prev pa : kept_write prev pa = if keeps_write (leaf prev) pa then USER_PTE_WRITE else 0.
Proof.
  unfold kept_write, leaf. destruct (has prev USER_PTE_PRESENT); [|done]. cbn [keeps_write rights_of r_user r_write andb].
  destruct (has prev USER_PTE_USER); [|done]. destruct (frame_of prev =? frame_of pa); [|done]. cbn [andb].
  unfold has. destruct (Z.eqb_spec (Z.land prev USER_PTE_WRITE) 0) as [E|E]; [done|]. simpl.
  pose proof (has_write prev) as Hw. unfold has in Hw. rewrite (proj2 (Z.eqb_neq _ 0) E) in Hw.
  apply Z.bits_inj'. intros k Hk. rewrite Z.land_spec. change USER_PTE_WRITE with (2 ^ 1). rewrite Z.pow2_bits_eqb by done.
  destruct (Z.eqb_spec 1 k) as [<-|]; [by rewrite <- Hw|apply andb_false_r].
Qed.

Section Paging.
Context {MA : Machine}.

Lemma mapping_leaf m r va pa perms :
  leaf (mapping_entry m r va pa (leaf_flags perms)) =
  Some (frame_of pa, granted_rights perms (keeps_write (leaf (page_entry m r va)) pa)).
Proof.
  unfold mapping_entry. rewrite kept_write_eq. set (k := keeps_write _ _). rewrite <- Z.lor_assoc.
  destruct (leaf_flags_rights perms) as (Ef & Ep & Er). pose proof (frame_of_is_page pa) as Hp.
  set (fl := Z.lor (leaf_flags perms) (if k then USER_PTE_WRITE else 0)).
  assert (frame_of fl = 0) as Efl by (unfold fl; rewrite frame_of_lor; [done|by destruct k]).
  assert (∀ b, 0 ≤ b → has fl (2 ^ b) = has (leaf_flags perms) (2 ^ b) || (k && (b =? 1))) as Hh.
  { intros b Hb. rewrite !has_testbit by done. unfold fl. rewrite Z.lor_spec. f_equal. destruct k; [|apply Z.testbit_0_l].
    change USER_PTE_WRITE with (2 ^ 1). rewrite Z.pow2_bits_eqb by done. apply Z.eqb_sym. }
  unfold leaf. rewrite has_present, lor_testbit_flag, <- has_present by (done || lia).
  pose proof (Hh 0 ltac:(done)) as H0. pose proof (Hh 1 ltac:(done)) as H1. pose proof (Hh 2 ltac:(done)) as H2.
  pose proof (Hh 63 ltac:(done)) as H63. change (2 ^ 0) with USER_PTE_PRESENT in H0. change (2 ^ 1) with USER_PTE_WRITE in H1.
  change (2 ^ 2) with USER_PTE_USER in H2. change (2 ^ 63) with USER_PTE_NOEXEC in H63. rewrite H0, Ep. cbn [orb]. rewrite frame_of_lor, rights_lor by done.
  rewrite (frame_of_page (frame_of pa)) by done. unfold rights_of, granted_rights in *.
  injection Er as E1 E2 E3. rewrite H2, H1, H63, E1, E2, E3. by destruct k, (has perms 2), (has perms 4).
Qed.

(** * Operations on address spaces *)

Inductive pop :=
| PClone
| PMap (r va pa perms : Z)
| PIdentity (r phys npages perms : Z)
| PUnmap (r va : Z)
| PDestroy (arena r : Z).

(** Run an operation; the roots are the PML4 tables handed out so far. *)
Definition prun (op : pop) (m : Mach) (roots : list Z) : Z * Mach * list Z :=
  match op with
  | PClone => let '(t, m') := user_clone_page_table m in (t, m', if t =? 0 then roots else t :: roots)
  | PMap r va pa perms => (cap_arch_map_page r va pa perms m, roots)
  | PIdentity r phys npages perms => (cap_arch_identity_map_user r phys npages perms m, roots)
  | PUnmap r va => (cap_arch_unmap_page r va m, roots)
  | PDestroy arena r => (user_destroy_page_table arena r m, filter (λ x, x ≠ r) roots)
  end.

(** What a page of an address space gives access to. *)
Definition view (m : Mach) (r va : Z) : option (Z * rights) := xlat m r va.

(** The boot map: the first 4 GiB onto themselves, for the kernel only. *)
Definition boot_view (va : Z) : option (Z * rights) :=
  if va <? 2 ^ 32 then Some (va / 4096 * 4096, supervisor) else None.

(** The address space has a page table of its own for the page. *)
Definition has_table (m : Mach) (r va : Z) : Prop := ∃ t, node m r [PML4_IDX va; PDPT_IDX va; PD_IDX va] = Some t.

(** The arguments the callers pass: an address space that exists, addresses of the low
    canonical half, pages to unmap that the process had mapped at some time (so that it owns
    their page table), and an address space to destroy that maps no table of another. *)
Definition pguard (op : pop) (m : Mach) (roots : list Z) : Prop :=
  match op with
  | PClone => True
  | PMap r va pa perms => r ∈ roots ∧ 0 ≤ va < 2 ^ 48
  | PIdentity r phys npages perms => r ∈ roots ∧ 0 ≤ phys ∧ 0 ≤ npages ∧ phys + npages * 4096 ≤ 2 ^ 48
  | PUnmap r va => r ∈ roots ∧ 0 ≤ va < 2 ^ 48 ∧ has_table m r va
  | PDestroy arena r => r ∈ roots ∧ owners_ok (m_frames m) ∧ nothing_shared m roots r
  end.

(** The address spaces [V'] are [V] but for the page of [va] in [r], which becomes [x]. *)
Definition updated (V V' : Z → Z → option (Z * rights)) (roots : list Z) (r va : Z) (x : option (Z * rights)) : Prop :=
  ∀ r' va', r' ∈ roots → 0 ≤ va' < 2 ^ 48 →
  V' r' va' = if decide (r' = r ∧ va' / 4096 = va / 4096) then x else V r' va'.

Definition unchanged (V V' : Z → Z → option (Z * rights)) (roots : list Z) : Prop :=
  ∀ r va, r ∈ roots → 0 ≤ va < 2 ^ 48 → V' r va = V r va.

(** The first [k] pages from [phys] mapped onto themselves. *)
Definition identity_updated (V V' : Z → Z → option (Z * rights)) (roots : list Z) (r phys k perms : Z) : Prop :=
  ∀ r' va', r' ∈ roots → 0 ≤ va' < 2 ^ 48 →
  V' r' va' = if decide (r' = r ∧ phys / 4096 ≤ va' / 4096 < phys / 4096 + k)
              then Some (frame_of va', mkR true (has perms 2 || keeps_write (V r va') va') true) else V r' va'.

(** What each operation promises: the result and the effect on the views; the only reason to
    fail is that no frame is left ([full]). *)
Definition promise (op : pop) (roots : list Z) (V : Z → Z → option (Z * rights)) (res : Z)
    (V' : Z → Z → option (Z * rights)) (full : Prop) : Prop :=
  match op with
  | PClone => unchanged V V' roots ∧ (res = 0 ∧ full ∨ ((res ∉ roots) ∧ ∀ va, 0 ≤ va < 2 ^ 48 → V' res va = boot_view va))
  | PMap r va pa perms =>
      (res = 0 ∧ updated V V' roots r va (Some (frame_of pa, granted_rights perms (keeps_write (V r va) pa)))) ∨
      (res = -1 ∧ full ∧ unchanged V V' roots)
  | PIdentity r phys n perms =>
      (res = 0 ∧ identity_updated V V' roots r phys n perms) ∨
      (res = -1 ∧ full ∧ ∃ k, 0 ≤ k < n ∧ identity_updated V V' roots r phys k perms)
  | PUnmap r va => res = 0 ∧ updated V V' roots r va None
  | PDestroy arena r => unchanged V V' (filter (λ x, x ≠ r) roots)
  end.

Lemma boot_view_eq va : 0 ≤ va < 2 ^ 48 →
  leaf (boot_entry [PML4_IDX va; PDPT_IDX va; PD_IDX va] (PT_IDX va)) = boot_view va.
Proof.
  intros H. destruct (idx_range va) as (H4 & H3 & H2 & H1). pose proof (va_path_div va H) as E. unfold idx in *.
  unfold boot_view. cbn [boot_entry]. destruct (Z.ltb_spec va (2 ^ 32)) as [Hlt|Hge].
  - assert (va / 4096 < 2 ^ 20) by (apply Z.div_lt_upper_bound; lia).
    assert (PML4_IDX va = 0 ∧ PDPT_IDX va < 4) as [E4 E3] by lia.
    rewrite E4, (proj2 (Z.ltb_lt _ 4) E3). cbn [Z.eqb andb]. rewrite boot_small by (unfold idx; lia). rewrite E, E4. done.
  - assert (2 ^ 20 ≤ va / 4096) by (apply Z.div_le_lower_bound; lia).
    destruct (Z.eqb_spec (PML4_IDX va) 0) as [E4|]; [|done]. destruct (Z.ltb_spec (PDPT_IDX va) 4); [lia|done].
Qed.

Lemma remapped_updated m m' roots r va e : tables_ok m roots → remapped roots r va e m m' → 0 ≤ va < 2 ^ 48 →
  updated (view m) (view m') roots r va (leaf e).
Proof.
  intros HT R Hva r' va' Hr' Hva'. unfold view. rewrite (xlat_leaf m' roots), (xlat_leaf m roots) by (done || apply R).
  rewrite (rm_entry _ _ _ _ _ _ R) by done. pose proof (same_page va va' Hva Hva') as E.
  destruct (decide (r' = r ∧ va_path va' = va_path va)) as [[-> Ep]|Hn].
  - rewrite decide_True by tauto. done.
  - rewrite decide_False by tauto. done.
Qed.

Lemma grows_unchanged m m' roots r : tables_ok m roots → grows roots r m m' → unchanged (view m) (view m') roots.
Proof.
  intros HT G r' va Hr _. unfold view. rewrite (xlat_leaf m' roots), (xlat_leaf m roots) by (done || apply G).
  by rewrite (gr_entry _ _ _ _ G).
Qed.

Lemma map_refines m roots r va pa perms : tables_ok m roots → r ∈ roots → 0 ≤ va < 2 ^ 48 →
  let res := cap_arch_map_page r va pa perms m in
  tables_ok (snd res) roots ∧ promise (PMap r va pa perms) roots (view m) (fst res) (view (snd res)) (no_frames (snd res)).
Proof.
  intros HT Hr Hva. unfold cap_arch_map_page.
  rewrite (node_nonzero m roots r [] r HT Hr ltac:(split; [simpl; lia|done]) eq_refl).
  destruct (user_map_page_safe_ok m roots r va pa (leaf_flags perms) HT Hr) as [[E R]|(E & G & Hn)]; cbv zeta; rewrite E.
  - split; [apply R|]. left. split; [done|]. pose proof (remapped_updated _ _ _ _ _ _ HT R Hva) as U.
    rewrite mapping_leaf in U. unfold view. by rewrite (xlat_leaf m roots).
  - split; [apply G|]. right. do 2 (split; [done|]). by eapply grows_unchanged.
Qed.

Lemma user_node m roots r va f a : tables_ok m roots → r ∈ roots → view m r va = Some (f, a) → r_user a = true →
  ∃ t, node m r [PML4_IDX va; PDPT_IDX va; PD_IDX va] = Some t.
Proof.
  intros HT Hr. unfold view. rewrite (xlat_leaf m roots) by done. unfold page_entry. destruct (idx_range va) as (_ & _ & _ & H1).
  destruct (node m r _) as [t|]; [by eexists|]. pose proof (tk_boot m roots HT) as Hb.
  destruct (boot_entry_cases m _ (PT_IDX va) Hb (va_path_ok va) H1) as [->|(b & fl & Hbp & Hfl & ->)]; [done|].
  unfold leaf. destruct (boot_flags b fl Hbp Hfl) as (-> & _ & _ & -> & _). intros [= <- <-]. done.
Qed.

Lemma unmap_refines m roots r va : tables_ok m roots → pguard (PUnmap r va) m roots →
  let res := cap_arch_unmap_page r va m in
  tables_ok (snd res) roots ∧ promise (PUnmap r va) roots (view m) (fst res) (view (snd res)) (no_frames (snd res)).
Proof.
  intros HT (Hr & Hva & t & Ht). unfold cap_arch_unmap_page.
  rewrite (node_nonzero m roots r [] r HT Hr ltac:(split; [simpl; lia|done]) eq_refl).
  destruct (user_unmap_page_ok m roots r va t HT Hr Ht) as [_ R]. cbn [fst snd].
  split; [apply R|]. split; [done|]. by apply (remapped_updated _ _ _ _ _ _ HT R).
Qed.

Lemma frame_of_div va : 0 ≤ va < 2 ^ 52 → frame_of va = va / 4096 * 4096.
Proof.
  intros H. apply Z.bits_inj'. intros k Hk. rewrite frame_of_testbit by done. change 4096 with (2 ^ 12).
  rewrite <- Z.shiftl_mul_pow2, <- Z.shiftr_div_pow2 by done. rewrite Z.shiftl_spec by done. destruct (Z.leb_spec 12 k).
  - rewrite Z.shiftr_spec by lia. replace (k - 12 + 12) with k by lia. cbn [andb].
    destruct (Z.ltb_spec k 52); [done|]. cbn [andb]. symmetry. by apply (testbit_high va 52).
  - cbn [andb]. symmetry. apply Z.testbit_neg_r. lia.
Qed.

Lemma view_page m r va va' : 0 ≤ va < 2 ^ 48 → 0 ≤ va' < 2 ^ 48 → va' / 4096 = va / 4096 → view m r va' = view m r va.
Proof. intros H H' E. unfold view, xlat. by rewrite (proj2 (same_page va va' H H') E). Qed.

(** Pages [base .. base + k) of [r] mapped onto themselves. *)
Definition range_updated (V V' : Z → Z → option (Z * rights)) (roots : list Z) (r base k perms : Z) : Prop :=
  ∀ r' va', r' ∈ roots → 0 ≤ va' < 2 ^ 48 →
  V' r' va' = if decide (r' = r ∧ base ≤ va' / 4096 < base + k)
              then Some (frame_of va', granted_rights perms (keeps_write (V r va') va')) else V r' va'.

Lemma range_updated_step m m1 V' roots r va k perms : r ∈ roots → 0 ≤ va < 2 ^ 48 → 0 ≤ k →
  updated (view m) (view m1) roots r va (Some (frame_of va, granted_rights perms (keeps_write (view m r va) va))) →
  range_updated (view m1) V' roots r (va / 4096 + 1) k perms →
  range_updated (view m) V' roots r (va / 4096) (k + 1) perms.
Proof.
  intros Hr Hva Hk U R r' va' Hr' Hva'. rewrite (R r' va' Hr' Hva').
  destruct (decide (r' = r ∧ va / 4096 ≤ va' / 4096 < va / 4096 + (k + 1))) as [[-> Hin]|Hn].
  - destruct (decide (va' / 4096 = va / 4096)) as [E|E].
    + rewrite decide_False by lia. rewrite (U r va' Hr' Hva'), decide_True by done.
      rewrite (view_page m r va va') by done. rewrite !frame_of_div by lia. rewrite E.
      unfold keeps_write. rewrite !frame_of_div by lia. by rewrite E.
    + rewrite decide_True by lia. rewrite (U r va' Hr' Hva'), decide_False by tauto. done.
  - rewrite decide_False by lia. rewrite (U r' va' Hr' Hva'), decide_False; [done|]. intros [-> E]. apply Hn. lia.
Qed.

Lemma map_identity_from_ok n : ∀ i m roots r phys perms, tables_ok m roots → r ∈ roots →
  0 ≤ i → 0 ≤ phys → phys + (i + Z.of_nat n) * 4096 ≤ 2 ^ 48 →
  let res := map_identity_from n i r phys (leaf_flags perms) m in
  tables_ok (snd res) roots ∧ confined roots r m (snd res) ∧
  ((fst res = 0 ∧ range_updated (view m) (view (snd res)) roots r (phys / 4096 + i) (Z.of_nat n) perms) ∨
   (fst res = -1 ∧ no_frames (snd res) ∧ ∃ k, 0 ≤ k < Z.of_nat n ∧ range_updated (view m) (view (snd res)) roots r (phys / 4096 + i) k perms)).
Proof.
  induction n as [|n IH]; intros i m roots r phys perms HT Hr Hi Hp Hb; cbn [map_identity_from]; cbv zeta.
  { split; [done|]. split; [apply confined_refl|]. left. split; [done|]. intros r' va' _ _. rewrite decide_False by lia. done. }
  rewrite u64_small by lia. set (va := phys + i * 4096).
  assert (va / 4096 = phys / 4096 + i) as Ed by (unfold va; rewrite Z.div_add; done).
  assert (0 ≤ va < 2 ^ 48) as Hva by (unfold va; lia).
  destruct (user_map_page_safe_ok m roots r va va (leaf_flags perms) HT Hr) as [[E R]|(E & G & Hn)];
    destruct (user_map_page_safe r va va (leaf_flags perms) m) as [x m1]; cbn [fst snd] in *; subst x; cbn [Z.ltb Z.compare].
  - pose proof (remapped_updated _ _ _ _ _ _ HT R Hva) as U. rewrite mapping_leaf, <- (xlat_leaf m roots) in U by done.
    destruct (IH (i + 1) m1 roots r phys perms (rm_ok _ _ _ _ _ _ R) Hr) as (HT' & Hc & [[E' R']|(E' & Hn & k & Hk & R')]); [lia|lia|lia| |];
      pose proof (confined_trans roots r m m1 _ Hr (rm_conf _ _ _ _ _ _ R) Hc) as Hc'.
    + do 2 (split; [done|]). left. split; [done|]. rewrite <- Ed. replace (Z.of_nat (S n)) with (Z.of_nat n + 1) by lia.
      apply (range_updated_step m m1); [done|done|lia|done|]. by rewrite Ed, <- Z.add_assoc.
    + do 2 (split; [done|]). right. do 2 (split; [done|]). exists (k + 1). split; [lia|]. rewrite <- Ed.
      apply (range_updated_step m m1); [done|done|lia|done|]. by rewrite Ed, <- Z.add_assoc.
  - split; [apply G|]. split; [apply G|]. right. do 2 (split; [done|]). exists 0. split; [lia|]. intros r' va' Hr' Hva'. rewrite decide_False by lia.
    by apply (grows_unchanged _ _ _ _ HT G).
Qed.

Lemma identity_refines m roots r phys n perms : tables_ok m roots → pguard (PIdentity r phys n perms) m roots →
  let res := cap_arch_identity_map_user r phys n perms m in
  tables_ok (snd res) roots ∧ promise (PIdentity r phys n perms) roots (view m) (fst res) (view (snd res)) (no_frames (snd res)).
Proof.
  intros HT (Hr & Hp & Hn & Hb). unfold cap_arch_identity_map_user, user_map_identity. set (q := if has perms 2 then 2 else 0).
  assert ((if has perms 2 then Z.lor (Z.lor (Z.lor USER_PTE_PRESENT USER_PTE_USER) USER_PTE_NOEXEC) USER_PTE_WRITE
    else Z.lor (Z.lor USER_PTE_PRESENT USER_PTE_USER) USER_PTE_NOEXEC) = leaf_flags q) as -> by (unfold q; by destruct (has perms 2)).
  assert (∀ k, granted_rights q k = mkR true (has perms 2 || k) true) as Hg by (unfold q; by destruct (has perms 2)).
  destruct (map_identity_from_ok (Z.to_nat n) 0 m roots r phys q HT Hr) as (HT' & _ & H); [lia|lia|lia|].
  split; [done|]. rewrite Z2Nat.id, Z.add_0_r in H by done.
  assert (∀ V' k, range_updated (view m) V' roots r (phys / 4096) k q → identity_updated (view m) V' roots r phys k perms) as Hi.
  { intros V' k R r' va' Hr' Hva'. rewrite (R r' va' Hr' Hva'). by rewrite Hg. }
  destruct H as [[E R]|(E & Hf & k & Hk & R)]; [left; split; [done|by apply Hi]|right].
  do 2 (split; [done|]). exists k. split; [done|by apply Hi].
Qed.

Lemma clone_refines m roots : tables_ok m roots →
  let '(t, m', roots') := prun PClone m roots in
  tables_ok m' roots' ∧ promise PClone roots (view m) t (view m') (no_frames m').
Proof.
  intros HT. cbn [prun]. pose proof (user_clone_page_table_ok m roots HT) as H.
  destruct (user_clone_page_table m) as [t m']. destruct H as [(-> & Hf & HT' & Em)|(Ht & Hni & HT' & Hb & Ho & _)].
  - split; [done|]. split; [|by left]. intros r va Hr _. unfold view. rewrite (xlat_leaf m' roots), (xlat_leaf m roots) by done.
    by rewrite (page_entry_mem m m').
  - rewrite (proj2 (Z.eqb_neq t 0) Ht). split; [done|]. split.
    + intros r va Hr _. unfold view. rewrite (xlat_leaf m' (t :: roots)) by (done || by right).
      rewrite (xlat_leaf m roots) by done. by rewrite Ho.
    + right. split; [done|]. intros va Hva. unfold view. rewrite (xlat_leaf m' (t :: roots)) by (done || by left).
      rewrite Hb. by apply boot_view_eq.
Qed.

(** * Boot *)

(** The six boot tables are distinct page frames below 4 GiB. *)
Record layout_ok : Prop := {
  ly_addr : ∀ t, t ∈ boot_tables → table_addr t;
  ly_nodup : NoDup boot_tables
}.

Definition at_slot (w : gmap Z Z) (t i : Z) : Z := w.[t + 8 * i].

Lemma at_slot_upd w t i e u j : table_addr t → table_addr u → idx i → idx j →
  at_slot w.[t + 8 * i <- e] u j = if decide (t = u ∧ i = j) then e else at_slot w u j.
Proof. intros [_ Ht] [_ Hu] Hi Hj. apply (pte_set (mkMach frame_pool_bss w ∅) t i e u j Ht Hu Hi Hj). Qed.

Lemma p2_distinct : layout_ok → p3_table ≠ p4_table ∧ (∀ k, p2_table k ≠ p3_table ∧ p2_table k ≠ p4_table) ∧
  ∀ k k', 0 ≤ k < 4 → 0 ≤ k' < 4 → p2_table k = p2_table k' → k = k'.
Proof.
  intros [_ Hn]. assert (∀ i j x y, boot_tables !! i = Some x → boot_tables !! j = Some y → x = y → i = j) as Hi.
  { intros i j x y Hx Hy ->. by eapply NoDup_lookup. }
  assert (∀ k, ∃ i, (2 ≤ i)%nat ∧ boot_tables !! i = Some (p2_table k)) as Hp.
  { intros k. unfold p2_table. destruct (k =? 0); [by exists 2%nat; split; [lia|]|]. destruct (k =? 1); [by exists 3%nat; split; [lia|]|].
    destruct (k =? 2); [by exists 4%nat; split; [lia|]|by exists 5%nat; split; [lia|]]. }
  split; [intros E; by specialize (Hi 1%nat 0%nat _ _ eq_refl eq_refl E)|]. split.
  - intros k. destruct (Hp k) as (i & Hi2 & Hk). split; intros E.
    + specialize (Hi i 1%nat _ _ Hk eq_refl E). lia.
    + specialize (Hi i 0%nat _ _ Hk eq_refl E). lia.
  - assert (∀ k, 0 ≤ k < 4 → boot_tables !! Z.to_nat (k + 2) = Some (p2_table k)) as Hk4.
    { intros k Hk. assert (k = 0 ∨ k = 1 ∨ k = 2 ∨ k = 3) as [->|[->|[->| ->]]] by lia; done. }
    intros k k' Hk Hk' E. specialize (Hi _ _ _ _ (Hk4 k Hk) (Hk4 k' Hk') E). lia.
Qed.

Lemma boot_pd_ok w : layout_ok → (∀ k i, 0 ≤ k < 4 → idx i → at_slot w (p2_table k) i = 0) →
  let w' := for_up (Z.to_nat 2048) 0 (λ c w,
    w.[p2_table (c / 512) + 8 * (c mod 512) <- Z.lor (u32 (0x200000 * c)) 0x83]) w in
  (∀ k i, 0 ≤ k < 4 → idx i → at_slot w' (p2_table k) i = boot_entry [0; k] i) ∧
  (∀ t i, t = p3_table ∨ t = p4_table → idx i → at_slot w' t i = at_slot w t i).
Proof.
  intros HL Hz w'. destruct (p2_distinct HL) as (_ & Hne & Hinj).
  assert (∀ t, t = p3_table ∨ t = p4_table → t ∈ boot_tables) as Hin.
  { intros t Ht. unfold boot_tables. rewrite !elem_of_cons. tauto. }
  assert ((∀ k i, 0 ≤ k < 4 → idx i →
      at_slot w' (p2_table k) i = if k * 512 + i <? 0 + Z.of_nat (Z.to_nat 2048) then boot_entry [0; k] i else 0) ∧
    (∀ t i, t = p3_table ∨ t = p4_table → idx i → at_slot w' t i = at_slot w t i)) as [H1 H2].
  { apply (for_up_ind (λ n w', (∀ k i, 0 ≤ k < 4 → idx i →
      at_slot w' (p2_table k) i = if k * 512 + i <? n then boot_entry [0; k] i else 0) ∧
      (∀ t i, t = p3_table ∨ t = p4_table → idx i → at_slot w' t i = at_slot w t i))).
    { split; [|done]. intros k i Hk Hi. rewrite Hz by done. destruct (Z.ltb_spec (k * 512 + i) 0); [unfold idx in Hi; lia|done]. }
    intros c w1 Hc (A1 & A2). rewrite Z2Nat.id in Hc by done.
    pose proof (Z.div_mod c 512 ltac:(done)) as Ec. pose proof (Z.mod_pos_bound c 512 ltac:(done)) as Hm.
    assert (0 ≤ c / 512 < 4) as Hd by (split; [apply Z.div_pos; lia|apply Z.div_lt_upper_bound; lia]).
    split.
    - intros k i Hk Hi. rewrite at_slot_upd by (done || apply (ly_addr HL), p2_in_boot).
      destruct (decide _) as [[E <-]|Hn].
      + apply Hinj in E as <-; [|done|done]. destruct (Z.ltb_spec (c / 512 * 512 + c mod 512) (c + 1)); [|lia].
        cbn [boot_entry]. rewrite (proj2 (Z.ltb_lt (c / 512) 4)) by lia. cbn [Z.eqb andb]. rewrite u32_small by lia. f_equal. lia.
      + rewrite A1 by done. assert (k * 512 + i ≠ c).
        { intros E. apply Hn. unfold idx in Hi. assert (c / 512 = k ∧ c mod 512 = i) as [-> ->] by lia. done. }
        destruct (Z.ltb_spec (k * 512 + i) c), (Z.ltb_spec (k * 512 + i) (c + 1)); (done || lia).
    - intros t i Ht Hi. rewrite at_slot_upd by (done || (apply (ly_addr HL), p2_in_boot) || (by apply (ly_addr HL), Hin)).
      rewrite decide_False; [by apply A2|]. intros [E _]. destruct (Hne (c / 512)) as [? ?], Ht; congruence. }
  split; [|done]. intros k i Hk Hi. rewrite H1 by done. rewrite Z2Nat.id by done.
  destruct (Z.ltb_spec (k * 512 + i) (0 + 2048)); [done|unfold idx in Hi; lia].
Qed.

Lemma boot_page_tables_ok w : layout_ok → (∀ t i, t ∈ boot_tables → idx i → at_slot w t i = 0) →
  let w' := boot_page_tables w in
  (∀ i, idx i → at_slot w' p4_table i = boot_entry [] i) ∧ (∀ i, idx i → at_slot w' p3_table i = boot_entry [0] i) ∧
  (∀ k i, 0 ≤ k < 4 → idx i → at_slot w' (p2_table k) i = boot_entry [0; k] i).
Proof.
  intros HL Hz. destruct (p2_distinct HL) as (H34 & Hne & Hinj). unfold boot_page_tables.
  assert (p4_table ∈ boot_tables ∧ p3_table ∈ boot_tables) as [I4 I3] by (unfold boot_tables; rewrite !elem_of_cons; tauto).
  pose proof (ly_addr HL _ I4) as A4. pose proof (ly_addr HL _ I3) as A3.
  set (w1 := w.[p4_table <- Z.lor p3_table 3]).
  assert (∀ t i, table_addr t → idx i → at_slot w1 t i = if decide (p4_table = t ∧ 0 = i) then Z.lor p3_table 3 else at_slot w t i) as E1.
  { intros t i Ht Hi. unfold w1. replace p4_table with (p4_table + 8 * 0) at 1 by lia. by apply at_slot_upd. }
  clearbody w1. set (w2 := for_up 4 0 _ w1).
  assert (∀ t i, table_addr t → idx i → at_slot w2 t i =
    if (p3_table =? t) && (i <? 0 + Z.of_nat 4) then Z.lor (p2_table i) 3 else at_slot w1 t i) as E2.
  { apply (for_up_ind (λ n w', ∀ t i, table_addr t → idx i → at_slot w' t i =
      if (p3_table =? t) && (i <? n) then Z.lor (p2_table i) 3 else at_slot w1 t i)).
    { intros t i Ht Hi. destruct (Z.ltb_spec i 0); [unfold idx in Hi; lia|by rewrite andb_false_r]. }
    intros n w' Hn IH t i Ht Hi. rewrite at_slot_upd by (done || (unfold idx; lia)). rewrite IH by done.
    destruct (Z.eqb_spec p3_table t) as [<-|]; [|by rewrite decide_False by tauto]. cbn [andb].
    destruct (Z.ltb_spec i n), (Z.ltb_spec i (n + 1)); try lia; [rewrite decide_False by lia; done| |by rewrite decide_False by lia].
    assert (i = n) as -> by lia. by rewrite decide_True. }
  clearbody w2. destruct (boot_pd_ok w2 HL) as [H1 H2].
  { intros k i Hk Hi. pose proof (ly_addr HL _ (p2_in_boot k)) as A2. destruct (Hne k) as [N3 N4].
    rewrite E2 by done. destruct (Z.eqb_spec p3_table (p2_table k)); [congruence|]. cbn [andb].
    rewrite E1 by done. rewrite decide_False by (intros [? _]; congruence). apply Hz; [apply p2_in_boot|done]. }
  split; [|split; [|done]]; intros i Hi; rewrite H2, E2, E1 by (done || tauto).
  - destruct (Z.eqb_spec p3_table p4_table); [congruence|]. cbn [boot_entry andb].
    destruct (decide _) as [[_ <-]|Hd]; [done|]. rewrite Hz by done. destruct (Z.eqb_spec i 0) as [->|]; [|done]. tauto.
  - rewrite Z.eqb_refl. cbn [boot_entry Z.eqb andb]. change (0 + Z.of_nat 4) with 4. destruct (Z.ltb_spec i 4); [done|].
    rewrite decide_False by (intros [? _]; congruence). by rewrite Hz.
Qed.

(** A machine as [_start] leaves it: the boot tables written over zeroed memory, in frames
    the pool has withheld. *)
Record booted_machine (m : Mach) : Prop := {
  bo_layout : layout_ok;
  bo_mem : ∃ w, m_mem m = boot_page_tables w ∧ ∀ t i, t ∈ boot_tables → idx i → at_slot w t i = 0;
  bo_words : words_ok (physical_memory_bitmap (m_frames m));
  bo_used : ∀ t, t ∈ boot_tables → used (m_frames m) (t / 4096) = true
}.

Lemma booted_tables_ok m : booted_machine m → tables_ok m [].
Proof.
  intros [HL (w & Em & Hz) Hw Hu]. pose proof (boot_page_tables_ok w HL Hz) as H. cbv zeta in H.
  generalize dependent (boot_page_tables w). intros w' Em (H4 & H3 & H2). clear w Hz.
  split; [done| |intros; exfalso; by eapply not_elem_of_nil..]. split; [| | |apply HL|done]; intros; unfold pte; rewrite Em; [by apply H4|by apply H3|by apply H2].
Qed.

(** The states the operations reach. *)
Inductive preach : Mach → list Z → Prop :=
| preach_boot m : booted_machine m → preach m []
| preach_step op m roots res m' roots' :
    preach m roots → pguard op m roots → prun op m roots = (res, m', roots') → preach m' roots'.

Lemma prun_ok op m roots : tables_ok m roots → pguard op m roots →
  let '(res, m', roots') := prun op m roots in tables_ok m' roots' ∧ promise op roots (view m) res (view m') (no_frames m').
Proof.
  intros HT HG. destruct op as [|r va pa perms|r phys n perms|r va|arena r].
  - by apply clone_refines.
  - destruct HG as [Hr Hva]. pose proof (map_refines m roots r va pa perms HT Hr Hva) as H. cbn [prun].
    by destruct (cap_arch_map_page r va pa perms m).
  - pose proof (identity_refines m roots r phys n perms HT HG) as H. cbn [prun].
    by destruct (cap_arch_identity_map_user r phys n perms m).
  - pose proof (unmap_refines m roots r va HT HG) as H. cbn [prun]. by destruct (cap_arch_unmap_page r va m).
  - destruct HG as (Hr & Ho & Hs). cbn [prun].
    assert (r ≠ 0) as Hr0 by (by apply Z.eqb_neq, (node_nonzero m roots r [] r HT Hr ltac:(split; [simpl; lia|done]))).
    destruct (destroy_ok arena m roots r HT Hr Hr0 (tk_words m roots HT) Ho) as [S _].
    destruct (user_destroy_page_table arena r m) as [n m']. cbn [snd] in S.
    pose proof (destroy_tables_ok arena m roots r HT Hr m' Hs S) as HT'. split; [done|].
    intros x va Hx _. pose proof Hx as [_ Hin]%list_elem_of_filter. unfold view.
    rewrite (xlat_leaf m' _ _ _ HT' Hx), (xlat_leaf m roots) by done. by rewrite (page_entry_mem m m') by apply S.
Qed.

Lemma preach_ok m roots : preach m roots → tables_ok m roots.
Proof.
  induction 1 as [m Hb|op m roots res m' roots' _ IH HG E]; [by apply booted_tables_ok|].
  pose proof (prun_ok op m roots IH HG) as H. rewrite E in H. apply H.
Qed.

(** C3: The page tables in memory implement address spaces: in every state reachable from
    boot, whatever sequence of clones, mappings, unmappings and teardowns led there, each
    operation changes what the processor finds at an address exactly as it promises - the
    requested page of the requested address space, and no page of any other - or, when the
    frame pool is exhausted, reports it with the translations unchanged. *)
Theorem paging_refines op m roots :
  preach m roots → pguard op m roots →
  let '(res, m', roots') := prun op m roots in preach m' roots' ∧ promise op roots (view m) res (view m') (no_frames m').
Proof.
  intros HR HG. pose proof (prun_ok op m roots (preach_ok m roots HR) HG) as H.
  destruct (prun op m roots) as [[res m'] roots'] eqn:E. split; [by eapply preach_step|apply H].
Qed.

(** * What is written *)

(** The address space an operation works on; [PClone] makes a new one. *)
Definition op_root (op : pop) : option Z :=
  match op with
  | PClone => None
  | PMap r _ _ _ | PIdentity r _ _ _ | PUnmap r _ | PDestroy _ r => Some r
  end.

Lemma op_root_in op m roots r : pguard op m roots → op_root op = Some r → r ∈ roots.
Proof. intros HG Er. destruct op; try done; injection Er as <-; apply HG. Qed.

(** Address [a] lies in a table of the operation's own address space. *)
Definition own_table_at (op : pop) (m : Mach) (a : Z) : Prop :=
  ∃ r p t, op_root op = Some r ∧ path_ok p ∧ node m r p = Some t ∧ a / 4096 = t / 4096.

Definition writes_ok (op : pop) (m m' : Mach) : Prop :=
  ∀ a, (m_mem m').[a] ≠ (m_mem m).[a] → used (m_frames m) (a / 4096) = false ∨ own_table_at op m a.

Lemma confined_writes op roots r m m' : op_root op = Some r → confined roots r m m' → writes_ok op m m'.
Proof.
  intros Er C a Ha. destruct (cf_writes _ _ _ _ C a Ha) as [|(p & t & Hp & Ht & E)]; [by left|right].
  by exists r, p, t.
Qed.

Lemma prun_writes op m roots : tables_ok m roots → pguard op m roots →
  let '(_, m', _) := prun op m roots in writes_ok op m m'.
Proof.
  intros HT HG. destruct op as [|r va pa perms|r phys n perms|r va|arena r]; cbn [prun].
  - pose proof (user_clone_page_table_ok m roots HT) as H. destruct (user_clone_page_table m) as [t m'].
    destruct H as [(_ & _ & _ & E)|(_ & _ & _ & _ & _ & Hf & Ho & _)]; intros a Ha; [by rewrite E in Ha|left].
    destruct (decide (a / 4096 = t / 4096)) as [->|Hn]; [done|]. by destruct Ha; apply Ho.
  - destruct HG as [Hr Hva]. unfold cap_arch_map_page. rewrite (node_nonzero m roots r [] r HT Hr ltac:(split; [simpl; lia|done]) eq_refl).
    destruct (user_map_page_safe_ok m roots r va pa (leaf_flags perms) HT Hr) as [[_ R]|(_ & G & _)];
      destruct (user_map_page_safe _ _ _ _ m); cbn [snd] in *;
      [by apply (confined_writes _ roots r); [|apply R]|by apply (confined_writes _ roots r); [|apply G]].
  - destruct HG as (Hr & Hp & Hn & Hb). unfold cap_arch_identity_map_user, user_map_identity.
    set (q := if has perms 2 then 2 else 0).
    assert ((if has perms 2 then Z.lor (Z.lor (Z.lor USER_PTE_PRESENT USER_PTE_USER) USER_PTE_NOEXEC) USER_PTE_WRITE
      else Z.lor (Z.lor USER_PTE_PRESENT USER_PTE_USER) USER_PTE_NOEXEC) = leaf_flags q) as -> by (unfold q; by destruct (has perms 2)).
    destruct (map_identity_from_ok (Z.to_nat n) 0 m roots r phys q HT Hr) as (_ & C & _); [lia|lia|lia|].
    destruct (map_identity_from _ _ _ _ _ m). by apply (confined_writes _ roots r).
  - destruct HG as (Hr & Hva & t & Ht). unfold cap_arch_unmap_page.
    rewrite (node_nonzero m roots r [] r HT Hr ltac:(split; [simpl; lia|done]) eq_refl).
    destruct (user_unmap_page_ok m roots r va t HT Hr Ht) as [_ R]. by apply (confined_writes _ roots r); [|apply R].
  - destruct HG as (Hr & Ho & Hs).
    assert (r ≠ 0) as Hr0 by (by apply Z.eqb_neq, (node_nonzero m roots r [] r HT Hr ltac:(split; [simpl; lia|done]))).
    destruct (destroy_ok arena m roots r HT Hr Hr0 (tk_words m roots HT) Ho) as [S _].
    destruct (user_destroy_page_table arena r m) as [n m']. cbn [snd] in S. intros a Ha. by rewrite (sh_mem _ _ _ S) in Ha.
Qed.

Lemma same_frame t u : table_addr t → table_addr u → t / 4096 = u / 4096 → t = u.
Proof. intros Ht Hu E. by rewrite (table_frame t Ht), (table_frame u Hu), E. Qed.

(** C18: An operation on an address space writes only the frames it takes from the pool and
    tables of that address space.  The boot tables and the page tables of every other
    address space keep every entry, and so does all memory in use for anything else. *)
Theorem paging_confined op m roots :
  preach m roots → pguard op m roots →
  let '(_, m', _) := prun op m roots in
  writes_ok op m m' ∧
  (∀ t i, t ∈ boot_tables → idx i → pte m' t i = pte m t i) ∧
  (∀ r p t i, r ∈ roots → op_root op ≠ Some r → path_ok p → node m r p = Some t → idx i → pte m' t i = pte m t i).
Proof.
  intros HR HG. pose proof (preach_ok m roots HR) as HT. pose proof (prun_writes op m roots HT HG) as HW.
  destruct (prun op m roots) as [[res m'] roots']. split; [done|].
  assert (∀ t i, table_addr t → used (m_frames m) (t / 4096) = true → idx i →
    (∀ r p u, op_root op = Some r → path_ok p → node m r p = Some u → t ≠ u) → pte m' t i = pte m t i) as Hkeep.
  { intros t i Ht Hu Hi Hn. unfold pte. destruct (decide ((m_mem m').[t + 8 * i] = (m_mem m).[t + 8 * i])) as [|Hd]; [done|].
    destruct (HW _ Hd) as [Hf|(r & p & u & Er & Hp & Hx & E)]; rewrite slot_frame in * by (done || apply Ht); [congruence|].
    destruct (Hn r p u Er Hp Hx). apply same_frame; [done| |done].
    assert (r ∈ roots) as Hr by (by eapply op_root_in). by apply (tk_node _ _ HT r p). }
  split.
  - intros t i Ht Hi. apply Hkeep; [by apply (bm_addr _ (tk_boot _ _ HT))|by apply (bm_used _ (tk_boot _ _ HT))|done|].
    intros r p u Er Hp Hx ->. assert (r ∈ roots) as Hr by (by eapply op_root_in).
    by destruct (tk_node _ _ HT r p u Hr Hp Hx) as (_ & _ & []).
  - intros r p t i Hr Hne Hp Ht Hi. destruct (tk_node _ _ HT r p t Hr Hp Ht) as (Ha & Hu & _). apply Hkeep; try done.
    intros r' p' u Er Hp' Hx ->. assert (r' ∈ roots) as Hr' by (by eapply op_root_in).
    destruct (tk_inj _ _ HT r p r' p' u Hr Hr' Hp Hp' Ht Hx) as [-> _]. done.
Qed.


End Paging.
