(* ===== verification/CapPaging.v ===== *)
(** The capability layer on top of the page tables.

    The hooks [cap_arch_map_page] and [cap_arch_unmap_page] that cap.c calls are the
    functions of user_paging.c.  [hook_effect] says what a hook call does to the machine,
    [replay] runs a history of calls, and [paging_env] answers each call the way the page
    tables do in the state the earlier calls left.  The theorems follow [cap_map] down to
    what the processor finds at every address of every address space. *)

From stdpp Require Import base gmap list list_numbers.
From Stdlib Require Import ZArith Lia Bool.
From S2P Require Import Prelude FramePool FramePoolSpec CapWord CapState CapPools CapOps CapRevoke Wp CapInv CapInvPools.
From S2P Require Import Chan ChanInv CapTeardownInv CapMapInv CapRevokeInv CapInit CapSystem Paging PagingSpec PagingOps PagingFree PagingRoom PagingTheorems.
#[local] Open Scope Z_scope.
#[local] Open Scope carr_scope.
#[local] Opaque Z.to_nat.

Section CapPaging.
Context {MA : Machine}.

(** * Hook calls on the machine *)

Definition hook_effect (h : Hook) (m : Mach) : Mach :=
  match h with
  | HMapPage cr3 va pa perms => snd (X86.cap_arch_map_page cr3 va pa perms m)
  | HUnmapPage cr3 va => snd (X86.cap_arch_unmap_page cr3 va m)
  | HIdentityMapUser cr3 phys npages perms => snd (X86.cap_arch_identity_map_user cr3 phys npages perms m)
  | _ => m
  end.

(** Run a history of calls, most recent first. *)
Definition replay (tr : list Hook) (m : Mach) : Mach := foldr hook_effect m tr.

(** The calls made since the history was [tr0]. *)
Definition since (tr0 tr : list Hook) : list Hook := take (length tr - length tr0) tr.

(** The kernel above page tables that were in state [m] when the history was [tr0]. *)
Definition paging_env (cr3_of : Z → Z) (m : Mach) (tr0 : list Hook) : CapEnv := {|
  cap_proc_cr3 := cr3_of;
  kernel_image_end := image_end;
  cap_arch_map_page_ret := λ tr cr3 va pa perms, fst (X86.cap_arch_map_page cr3 va pa perms (replay (since tr0 tr) m));
  cap_io_read_ret := λ _ _ _, 0
|}.

Lemma since_app l tr0 : since tr0 (l ++ tr0) = l.
Proof. unfold since. rewrite length_app, Nat.add_sub. apply take_app_length. Qed.

Lemma replay_app l1 l2 m : replay (l1 ++ l2) m = replay l1 (replay l2 m).
Proof. apply foldr_app. Qed.

(** * Runs of pages *)

Definition space : Type := Z → Z → option (Z * rights).

(** The [n] pages from [va] of address space [r] show the frames from [pa]. *)
Definition pages_mapped (V V' : space) (roots : list Z) (r va pa n fl : Z) : Prop :=
  ∀ r' va', r' ∈ roots → 0 ≤ va' < 2 ^ 48 →
  let f := pa + (va' / 4096 - va / 4096) * 4096 in
  V' r' va' = if decide (r' = r ∧ va / 4096 ≤ va' / 4096 < va / 4096 + n)
              then Some (frame_of f, granted_rights fl (keeps_write (V r va') f)) else V r' va'.

(** The [n] pages from [va] of [r] show nothing. *)
Definition pages_removed (V V' : space) (roots : list Z) (r va n : Z) : Prop :=
  ∀ r' va', r' ∈ roots → 0 ≤ va' < 2 ^ 48 →
  V' r' va' = if decide (r' = r ∧ va / 4096 ≤ va' / 4096 < va / 4096 + n) then None else V r' va'.

Lemma page_div va j : (va + j * 4096) / 4096 = va / 4096 + j.
Proof. by rewrite Z.div_add. Qed.

Lemma pages_mapped_step V V1 V2 roots r va pa n fl : r ∈ roots → 0 ≤ n → 0 ≤ va → va + n * 4096 < 2 ^ 48 →
  (∀ x y, 0 ≤ x < 2 ^ 48 → 0 ≤ y < 2 ^ 48 → x / 4096 = y / 4096 → V r x = V r y) →
  pages_mapped V V1 roots r va pa n fl →
  updated V1 V2 roots r (va + n * 4096)
    (Some (frame_of (pa + n * 4096), granted_rights fl (keeps_write (V1 r (va + n * 4096)) (pa + n * 4096)))) →
  pages_mapped V V2 roots r va pa (n + 1) fl.
Proof.
  intros Hr Hn Hva Hend HV H1 H2 r' va' Hr' Hva'. cbv zeta. rewrite (H2 r' va' Hr' Hva'), page_div.
  destruct (decide (r' = r ∧ va' / 4096 = va / 4096 + n)) as [[-> E]|Hne].
  - rewrite decide_True by lia. replace (pa + (va' / 4096 - va / 4096) * 4096) with (pa + n * 4096) by lia.
    do 4 f_equal. rewrite (H1 r (va + n * 4096)) by (done || lia). rewrite page_div, decide_False by lia.
    apply HV; [lia|done|]. by rewrite page_div.
  - rewrite (H1 r' va' Hr' Hva'). destruct (decide (r' = r ∧ va / 4096 ≤ va' / 4096 < va / 4096 + n)) as [[-> Hin]|Hout].
    + by rewrite decide_True by lia.
    + rewrite decide_False; [done|]. intros [-> Hin]. apply Hne. split; [done|]. lia.
Qed.

(** The calls of [map_pages] when each is accepted: the pages are mapped. *)
Lemma replay_map_calls m roots r va pa fl n : preach m roots → r ∈ roots → 0 ≤ va → 0 ≤ pa → 0 ≤ n →
  va + n * 4096 ≤ 2 ^ 47 → pa + n * 4096 ≤ 2 ^ 47 →
  (∀ j, 0 ≤ j < n → 0 ≤ fst (X86.cap_arch_map_page r (u64 (va + j * 4096)) (u64 (pa + j * 4096)) fl
                               (replay (map_calls r va pa j fl) m))) →
  let m' := replay (map_calls r va pa n fl) m in
  preach m' roots ∧ pages_mapped (view m) (view m') roots r va pa n fl.
Proof.
  intros HR Hr Hva Hpa Hn. revert n Hn. apply (natlike_ind (λ n, va + n * 4096 ≤ 2 ^ 47 → pa + n * 4096 ≤ 2 ^ 47 →
    (∀ j, 0 ≤ j < n → 0 ≤ fst (X86.cap_arch_map_page r (u64 (va + j * 4096)) (u64 (pa + j * 4096)) fl
                               (replay (map_calls r va pa j fl) m))) →
    let m' := replay (map_calls r va pa n fl) m in
    preach m' roots ∧ pages_mapped (view m) (view m') roots r va pa n fl)).
  { intros _ _ _. split; [done|]. intros r' va' _ _. cbv zeta. by rewrite decide_False by lia. }
  intros n Hn IH Hv Hp Hacc. unfold Z.succ in *. destruct IH as [HR1 HM1]; [lia|lia|intros; apply Hacc; lia|].
  specialize (Hacc n ltac:(lia)). rewrite map_calls_snoc by done. cbn [replay foldr hook_effect]. fold (replay (map_calls r va pa n fl) m).
  set (m1 := replay _ m) in *. clearbody m1. rewrite !u64_small in * by lia.
  assert (pguard (PMap r (va + n * 4096) (pa + n * 4096) fl) m1 roots) as HG by (split; [done|lia]).
  pose proof (map_refines m1 roots r (va + n * 4096) (pa + n * 4096) fl (preach_ok _ _ HR1) Hr ltac:(lia)) as [_ HP].
  cbv zeta in HP. destruct (X86.cap_arch_map_page r _ _ fl m1) as [res m2] eqn:E. cbn [fst snd] in *. split.
  - apply (preach_step (PMap r (va + n * 4096) (pa + n * 4096) fl) m1 roots res); [done|done|]. cbn [prun]. by rewrite E.
  - destruct HP as [[_ U]|(-> & _)]; [|done]. apply (pages_mapped_step (view m) (view m1)); try done; try lia.
    intros x y Hx Hy Exy. by apply view_page.
Qed.

(** Unmapping keeps every page table and takes no frame. *)
Lemma unmap_keeps m roots r va r' va' : tables_ok m roots → pguard (PUnmap r va) m roots → r' ∈ roots →
  has_table m r' va' → has_table (snd (X86.cap_arch_unmap_page r va m)) r' va'.
Proof.
  intros HT (Hr & Hva & t & Ht) Hr' [u Hu]. unfold X86.cap_arch_unmap_page.
  rewrite (node_nonzero m roots r [] r HT Hr ltac:(split; [simpl; lia|done]) eq_refl). cbn [snd].
  destruct (user_unmap_page_ok m roots r va t HT Hr Ht) as [_ R]. exists u. apply (rm_node _ _ _ _ _ _ R); [done|apply va_path_ok|done].
Qed.

Lemma unmap_frames r va m : m_frames (snd (X86.cap_arch_unmap_page r va m)) = m_frames m.
Proof. unfold X86.cap_arch_unmap_page, X86.user_unmap_page. by repeat case_match. Qed.

Lemma pages_removed_step V V1 V2 roots r va n : 0 ≤ n →
  pages_removed V V1 roots r va n → updated V1 V2 roots r (va + n * 4096) None → pages_removed V V2 roots r va (n + 1).
Proof.
  intros Hn H1 H2 r' va' Hr' Hva'. rewrite (H2 r' va' Hr' Hva'), page_div.
  destruct (decide (r' = r ∧ va' / 4096 = va / 4096 + n)) as [[-> E]|Hne]; [by rewrite decide_True by lia|].
  rewrite (H1 r' va' Hr' Hva'). destruct (decide (r' = r ∧ va / 4096 ≤ va' / 4096 < va / 4096 + n)) as [[-> Hin]|Hout].
  - by rewrite decide_True by lia.
  - rewrite decide_False; [done|]. intros [-> Hin]. apply Hne. split; [done|]. lia.
Qed.

Lemma unmap_calls_snoc cr3 va n : 0 ≤ n →
  unmap_calls cr3 va (n + 1) = HUnmapPage cr3 (u64 (va + n * 4096)) :: unmap_calls cr3 va n.
Proof. intros Hn. unfold unmap_calls. rewrite seqZ_snoc by lia. by rewrite fmap_app, reverse_app. Qed.

(** The calls of [unmap_pages] on pages whose tables the process owns: the pages are gone. *)
Lemma replay_unmap_calls m roots r va n : preach m roots → r ∈ roots → 0 ≤ va → 0 ≤ n → va + n * 4096 ≤ 2 ^ 47 →
  (∀ j, 0 ≤ j < n → has_table m r (va + j * 4096)) →
  let m' := replay (unmap_calls r va n) m in
  preach m' roots ∧ pages_removed (view m) (view m') roots r va n ∧ m_frames m' = m_frames m ∧
  ∀ r' va', r' ∈ roots → has_table m r' va' → has_table m' r' va'.
Proof.
  intros HR Hr Hva Hn. revert n Hn. apply (natlike_ind (λ n, va + n * 4096 ≤ 2 ^ 47 →
    (∀ j, 0 ≤ j < n → has_table m r (va + j * 4096)) →
    let m' := replay (unmap_calls r va n) m in
    preach m' roots ∧ pages_removed (view m) (view m') roots r va n ∧ m_frames m' = m_frames m ∧
    ∀ r' va', r' ∈ roots → has_table m r' va' → has_table m' r' va')).
  { intros _ _. split; [done|]. split; [|done]. intros r' va' _ _. by rewrite decide_False by lia. }
  intros n Hn IH Hv Ht. unfold Z.succ in *. destruct IH as (HR1 & HM1 & HF1 & HT1); [lia|intros; apply Ht; lia|].
  rewrite unmap_calls_snoc by done. cbn [replay foldr hook_effect]. fold (replay (unmap_calls r va n) m).
  set (m1 := replay _ m) in *. clearbody m1. rewrite u64_small in * by lia.
  assert (pguard (PUnmap r (va + n * 4096)) m1 roots) as HG.
  { split; [done|]. split; [lia|]. apply HT1; [done|]. apply Ht. lia. }
  pose proof (preach_ok _ _ HR1) as HK. pose proof (unmap_refines m1 roots r (va + n * 4096) HK HG) as [_ [_ U]].
  pose proof (unmap_frames r (va + n * 4096) m1) as HF.
  assert (∀ r' va', r' ∈ roots → has_table m1 r' va' → has_table (snd (X86.cap_arch_unmap_page r (va + n * 4096) m1)) r' va') as HK'
    by (intros; by apply (unmap_keeps m1 roots)).
  destruct (X86.cap_arch_unmap_page r _ m1) as [res m2] eqn:E. cbn [snd] in *. split_and!.
  - apply (preach_step (PUnmap r (va + n * 4096)) m1 roots res); [done|done|]. cbn [prun]. by rewrite E.
  - by apply (pages_removed_step (view m) (view m1)).
  - congruence.
  - intros. apply HK', HT1; done.
Qed.

Lemma pages_mapped_table m m' roots r va pa n fl j : tables_ok m' roots → r ∈ roots → 0 ≤ va → 0 ≤ j < n → va + n * 4096 ≤ 2 ^ 47 →
  pages_mapped (view m) (view m') roots r va pa n fl → has_table m' r (va + j * 4096).
Proof.
  intros HT Hr Hva Hj Hend HM. specialize (HM r (va + j * 4096) Hr ltac:(lia)). cbv zeta in HM.
  rewrite page_div, decide_True in HM by lia. by eapply user_node.
Qed.

(** Rolling back [n] mapped pages removes them; what they replaced does not come back. *)
Lemma rolled_back V V1 V2 V3 roots r va pa n fl : 0 ≤ n → pages_mapped V V1 roots r va pa n fl → unchanged V1 V2 roots →
  pages_removed V2 V3 roots r va n → pages_removed V V3 roots r va n.
Proof.
  intros Hn H1 H2 H3 r' va' Hr' Hva'. rewrite (H3 r' va' Hr' Hva'). destruct (decide _) as [|Hne]; [done|].
  rewrite (H2 r' va' Hr' Hva'), (H1 r' va' Hr' Hva'). by rewrite decide_False.
Qed.

(** * cap_map *)

(** A kernel state some run led to, whatever the hooks answered on the way. *)
Inductive reached (frames : FramePool) : KState → Prop :=
| reached_boot s : cap_init (kernel_bss frames) = Ok tt s → reached frames s
| reached_step (E : CapEnv) (C : ChanEnv) op s s' :
    ChanEnvOk C → reached frames s → kguard op s → krun op s = Ok tt s' → reached frames s'.

Lemma reached_ok frames s : reached frames s → kernel_ok s.
Proof.
  induction 1 as [s E|E C op s s' HC _ IH G Er].
  - exact (proj1 (wp_at _ _ _ _ _ (init_ok frames) E)).
  - exact (wp_at _ _ _ _ _ (krun_ok op s IH G) Er).
Qed.

Lemma kreach_reached {E : CapEnv} {C : ChanEnv} frames s : ChanEnvOk C → kreach frames s → reached frames s.
Proof. intros HC. induction 1 as [s H|op s s' _ IH G H]; [by apply reached_boot|by eapply reached_step]. Qed.

Section Compose.
Context (cr3_of : Z → Z) (m : Mach) (roots : list Z) (s : KState).

(** The kernel in state [s] over the machine in state [m]. *)
Definition here : CapEnv := paging_env cr3_of m (k_trace s).
#[local] Existing Instance here.

(** The machine once the kernel is in state [s']. *)
Definition machine_at (s' : KState) : Mach := replay (since (k_trace s) (k_trace s')) m.

(** The first frame a capability shows. *)
Definition view_base (w : Z) : Z := o_phys_base (object (w_obj w) s) + w_off w * 4096.

(** What [cap_map] does to the address spaces: nothing, when there is no grant or another
    object is in the way; the capability's pages, with the granted rights, in the caller's
    address space; or, out of frames, it removes the pages it had mapped. *)
Inductive space_outcome (pid i va fl r : Z) (s' : KState) : Prop :=
| space_kept : r ≠ 0 → machine_at s' = m →
    (∀ ti, map_grant pid i va fl s ti →
       cap_maps_overlap (table ti s) (w_obj (slot ti i s)) va (w_len (slot ti i s)) = true) →
    space_outcome pid i va fl r s'
| space_undone ti k : map_grant pid i va fl s ti → r = -1 → no_frames (machine_at s') → 0 ≤ k < w_len (slot ti i s) →
    pages_removed (view m) (view (machine_at s')) roots (cr3_of pid) va k → space_outcome pid i va fl r s'
| space_mapped ti : map_grant pid i va fl s ti →
    (r = 0 ∨ r = CAP_ETABLEFULL ∧ ∀ j, 0 ≤ j < CAP_MAP_MAX → map_live (t_maps (table ti s)).[j]) →
    pages_mapped (view m) (view (machine_at s')) roots (cr3_of pid) va (view_base (slot ti i s)) (w_len (slot ti i s)) fl →
    space_outcome pid i va fl r s'.

Lemma call_result_here r va pa fl j :
  call_result r va pa fl (k_trace s) j =
  fst (X86.cap_arch_map_page r (u64 (va + j * 4096)) (u64 (pa + j * 4096)) fl (replay (map_calls r va pa j fl) m)).
Proof. unfold call_result. cbn [cap_arch_map_page_ret here paging_env]. by rewrite since_app. Qed.

(** Where the pages of a grant lie. *)
Lemma grant_range pid i va fl ti : kernel_ok s → map_grant pid i va fl s ti → 0 ≤ va →
  let w := slot ti i s in
  0 ≤ w_len w ∧ va + w_len w * 4096 ≤ 2 ^ 47 ∧ 0 ≤ view_base w ∧ view_base w + w_len w * 4096 ≤ 2 ^ 47.
Proof.
  intros ((hold & HI) & _) HG Hva w. destruct (mg_user _ _ _ _ _ _ HG) as [H1 H2].
  destruct (mm_size _ _ _ _ _ (inv_mems HI) _ (mg_object _ _ _ _ _ _ HG)) as (S1 & S2 & S3).
  pose proof (mg_within _ _ _ _ _ _ HG) as Hw. unfold object in *. unfold view_base, object, w.
  assert (0 ≤ w_off (slot ti i s)) by (rewrite w_off_field; apply field_range; done). lia.
Qed.

Lemma grant_pages pid i va fl ti k : kernel_ok s → preach m roots → cr3_of pid ∈ roots → map_grant pid i va fl s ti →
  0 ≤ va → 0 ≤ k ≤ w_len (slot ti i s) →
  let pa := view_base (slot ti i s) in
  calls_accepted (cr3_of pid) va pa k fl (k_trace s) →
  let m' := replay (map_calls (cr3_of pid) va pa k fl) m in
  preach m' roots ∧ pages_mapped (view m) (view m') roots (cr3_of pid) va pa k fl.
Proof.
  intros Hs HR Hr HG Hva Hk pa Hacc. destruct (grant_range _ _ _ _ _ Hs HG Hva) as (R1 & R2 & R3 & R4). fold pa in R3, R4.
  apply replay_map_calls; try done; try lia. intros j Hj. rewrite <- call_result_here. by apply Hacc.
Qed.

Lemma no_frames_eq m1 m2 : m_frames m2 = m_frames m1 → no_frames m1 → no_frames m2.
Proof. intros E H g Hg. rewrite E. by apply H. Qed.

(** The call that is refused changes no translation; the pages before it are taken back. *)
Lemma grant_undone pid i va fl ti k : kernel_ok s → preach m roots → cr3_of pid ∈ roots → map_grant pid i va fl s ti →
  0 ≤ va → 0 ≤ k < w_len (slot ti i s) →
  let pa := view_base (slot ti i s) in
  calls_accepted (cr3_of pid) va pa k fl (k_trace s) → call_result (cr3_of pid) va pa fl (k_trace s) k < 0 →
  let m' := replay (HTlbFlush :: unmap_calls (cr3_of pid) va k ++ map_calls (cr3_of pid) va pa (k + 1) fl) m in
  call_result (cr3_of pid) va pa fl (k_trace s) k = -1 ∧ no_frames m' ∧ preach m' roots ∧
  pages_removed (view m) (view m') roots (cr3_of pid) va k.
Proof.
  intros Hs HR Hr HG Hva Hk pa Hacc Hneg. set (r := cr3_of pid) in *.
  destruct (grant_range _ _ _ _ _ Hs HG Hva) as (R1 & R2 & R3 & R4). fold pa in R3, R4.
  destruct (grant_pages _ _ _ _ _ k Hs HR Hr HG Hva ltac:(lia) Hacc) as [HR1 HM1]. fold r pa in HR1, HM1.
  rewrite call_result_here in *. rewrite map_calls_snoc by lia. cbn [replay foldr hook_effect app]. fold (replay
    (unmap_calls r va k ++ HMapPage r (u64 (va + k * 4096)) (u64 (pa + k * 4096)) fl :: map_calls r va pa k fl) m).
  rewrite replay_app. cbn [replay foldr hook_effect]. fold (replay (map_calls r va pa k fl) m).
  set (m1 := replay (map_calls r va pa k fl) m) in *. clearbody m1. rewrite !u64_small in * by lia.
  pose proof (map_refines m1 roots r (va + k * 4096) (pa + k * 4096) fl (preach_ok _ _ HR1) Hr ltac:(lia)) as [_ HP].
  assert (pguard (PMap r (va + k * 4096) (pa + k * 4096) fl) m1 roots) as HG1 by (split; [done|lia]).
  cbv zeta in HP. destruct (X86.cap_arch_map_page r _ _ fl m1) as [res m2] eqn:E. cbn [fst snd] in *.
  destruct HP as [[-> _]|(-> & Hn & U)]; [lia|]. split; [done|].
  assert (preach m2 roots) as HR2 by (eapply (preach_step _ m1 roots (-1)); [done|exact HG1|cbn [prun]; by rewrite E]).
  change (foldr hook_effect m2 (unmap_calls r va k)) with (replay (unmap_calls r va k) m2).
  destruct (replay_unmap_calls m2 roots r va k HR2 Hr Hva ltac:(lia) ltac:(lia)) as (HR3 & HM3 & HF & _).
  { intros j Hj. pose proof (pages_mapped_table m m1 roots r va pa k fl j (preach_ok _ _ HR1) Hr Hva Hj ltac:(lia) HM1) as [t Ht].
    specialize (HM1 r (va + j * 4096) Hr ltac:(lia)). cbv zeta in HM1. rewrite page_div, decide_True in HM1 by lia.
    eapply (user_node m2 roots); [by apply preach_ok|done|rewrite (U r) by (done || lia); exact HM1|done]. }
  split; [by eapply no_frames_eq|]. split; [done|]. eapply (rolled_back (view m) (view m1) (view m2)); try done; lia.
Qed.

Lemma map_here pid i va fl : kernel_ok s → preach m roots → cr3_of pid ∈ roots →
  0 ≤ pid < 2 ^ 16 → 0 ≤ i < CAP_TABLE_ENTRIES → 0 ≤ va < 2 ^ 64 →
  ∃ r s', cap_map pid i va fl s = Ok r s' ∧ kernel_ok s' ∧ map_outcome pid i va fl s r s' ∧
    preach (machine_at s') roots ∧ space_outcome pid i va fl r s'.
Proof.
  intros Hs HR Hr Hpid Hi Hva. destruct (proj1 (wp_Ok _ _ _) (map_ok pid i va fl s Hs Hpid Hi Hva)) as (r & s' & E & Hs' & O).
  exists r, s'. do 3 (split; [done|]). destruct O as [Hr0 Et Hno|ti k HG Hneg Hk cr3 pa Hacc -> Et|ti HG w pa Hacc Et Hrec].
  - assert (machine_at s' = m) as Em.
    { unfold machine_at. rewrite Et. change (k_trace s) with ([] ++ k_trace s) at 2. by rewrite since_app. }
    split; [by rewrite Em|by apply space_kept].
  - change (cap_proc_cr3 pid) with (cr3_of pid) in *. subst cr3.
    destruct (grant_undone pid i va fl ti k Hs HR Hr HG ltac:(lia) Hk Hacc Hneg) as (E1 & Hn & HR' & HM).
    assert (machine_at s' = replay (HTlbFlush :: unmap_calls (cr3_of pid) va k ++
      map_calls (cr3_of pid) va (view_base (slot ti i s)) (k + 1) fl) m) as Em.
    { unfold machine_at. rewrite Et. rewrite app_assoc, app_comm_cons, since_app. done. }
    rewrite Em. split; [done|]. by eapply (space_undone _ _ _ _ _ _ ti k); rewrite ?Em.
  - change (cap_proc_cr3 pid) with (cr3_of pid) in *. subst w.
    destruct (grant_range _ _ _ _ _ Hs HG ltac:(lia)) as (R1 & _).
    destruct (grant_pages pid i va fl ti _ Hs HR Hr HG ltac:(lia) (conj R1 (Z.le_refl _)) Hacc) as [HR' HM].
    assert (machine_at s' = replay (map_calls (cr3_of pid) va (view_base (slot ti i s)) (w_len (slot ti i s)) fl) m) as Em.
    { unfold machine_at. rewrite Et, app_comm_cons, since_app. done. }
    rewrite Em. split; [done|]. apply (space_mapped _ _ _ _ _ _ ti); [done| |by rewrite Em].
    destruct Hrec as [(-> & _ & Hfull)|[-> _]]; [by right|by left].
Qed.

(** Frames enough for every page: no call is refused. *)
Lemma replay_room m1 r va pa fl n k : preach m1 roots → r ∈ roots → 0 ≤ va → 0 ≤ pa → 0 ≤ n →
  va + n * 4096 ≤ 2 ^ 47 → pa + n * 4096 ≤ 2 ^ 47 → room (Z.to_nat (3 * (n + k))) m1 → 0 ≤ k →
  (∀ j, 0 ≤ j < n → 0 ≤ fst (X86.cap_arch_map_page r (u64 (va + j * 4096)) (u64 (pa + j * 4096)) fl
                               (replay (map_calls r va pa j fl) m1))) →
  room (Z.to_nat (3 * k)) (replay (map_calls r va pa n fl) m1).
Proof.
  intros HR Hr Hva Hpa Hn. revert n Hn k. apply (natlike_ind (λ n, ∀ k, va + n * 4096 ≤ 2 ^ 47 → pa + n * 4096 ≤ 2 ^ 47 →
    room (Z.to_nat (3 * (n + k))) m1 → 0 ≤ k → (∀ j, 0 ≤ j < n → 0 ≤ fst (X86.cap_arch_map_page r (u64 (va + j * 4096))
      (u64 (pa + j * 4096)) fl (replay (map_calls r va pa j fl) m1))) →
    room (Z.to_nat (3 * k)) (replay (map_calls r va pa n fl) m1))).
  { intros k _ _ Hm _ _. by rewrite Z.add_0_l in Hm. }
  intros n Hn IH k Hv Hp Hm Hk Hacc. unfold Z.succ in *.
  specialize (IH (k + 1) ltac:(lia) ltac:(lia)). replace (n + (k + 1)) with (n + 1 + k) in IH by lia.
  specialize (IH Hm ltac:(lia) ltac:(intros; apply Hacc; lia)).
  destruct (replay_map_calls m1 roots r va pa fl n) as [HR1 _]; [done|done|lia|lia|lia|lia|lia|intros; apply Hacc; lia|].
  rewrite map_calls_snoc by done. cbn [replay foldr hook_effect]. fold (replay (map_calls r va pa n fl) m1).
  set (m2 := replay _ m1) in *. pose proof (preach_ok _ _ HR1) as HT. replace (Z.to_nat (3 * (k + 1))) with (3 + Z.to_nat (3 * k))%nat in IH by lia.
  unfold X86.cap_arch_map_page. rewrite (node_nonzero m2 roots r [] r HT Hr ltac:(split; [simpl; lia|done]) eq_refl).
  by apply (map_page_room _ m2 roots).
Qed.

Lemma map_room pid i va fl ti r s' : kernel_ok s → preach m roots → cr3_of pid ∈ roots → 0 ≤ va →
  map_grant pid i va fl s ti → cap_maps_overlap (table ti s) (w_obj (slot ti i s)) va (w_len (slot ti i s)) = false →
  (∃ j, 0 ≤ j < CAP_MAP_MAX ∧ ¬ map_live (t_maps (table ti s)).[j]) →
  room (Z.to_nat (3 * w_len (slot ti i s))) m → map_outcome pid i va fl s r s' → r = 0.
Proof.
  intros Hs HR Hr Hva HG Hov (j & Hj & Hfree) Hroom O.
  assert (∀ tj, map_grant pid i va fl s tj → tj = ti) as Hsame.
  { intros tj HG'. destruct Hs as ((hold & HI) & _). destruct (mg_table _ _ _ _ _ _ HG') as (? & ? & ?).
    by eapply (table_of_inj _ _ pid ti tj (inv_pids HI)); [apply HG|..]. }
  destruct O as [_ _ Hno|tj k HG' Hneg Hk cr3 pa Hacc Er _|tj HG' w pa _ _ [(_ & _ & Hfull)|[-> _]]]; [|exfalso| |done].
  - by rewrite (Hno ti HG) in Hov.
  - pose proof (Hsame tj HG') as ->. change (cap_proc_cr3 pid) with (cr3_of pid) in cr3. subst cr3.
    change (o_phys_base (object (w_obj (slot ti i s)) s) + w_off (slot ti i s) * 4096) with (view_base (slot ti i s)) in pa.
    destruct (grant_range _ _ _ _ _ Hs HG Hva) as (R1 & R2 & R3 & R4). fold pa in R3, R4.
    destruct (grant_pages pid i va fl ti k Hs HR Hr HG Hva ltac:(lia) Hacc) as [HR1 _].
    rewrite call_result_here in Er. unfold calls_accepted in Hacc. setoid_rewrite call_result_here in Hacc.
    pose proof (replay_room m (cr3_of pid) va pa fl k (w_len (slot ti i s) - k) HR Hr Hva R3) as Hm.
    replace (k + (w_len (slot ti i s) - k)) with (w_len (slot ti i s)) in Hm by lia.
    specialize (Hm ltac:(lia) ltac:(lia) ltac:(lia) Hroom ltac:(lia) Hacc). pose proof (preach_ok _ _ HR1) as HT.
    apply (room_le (3 + 0)) in Hm; [|lia].
    change (replay (map_calls (cr3_of pid) va (view_base (slot ti i s)) k fl) m) with (replay (map_calls (cr3_of pid) va pa k fl) m) in *.
    set (m1 := replay _ m) in *. unfold X86.cap_arch_map_page in Er.
    rewrite (node_nonzero m1 roots _ [] _ HT Hr ltac:(split; [simpl; lia|done]) eq_refl) in Er.
    destruct (map_page_room 0 m1 roots (cr3_of pid) (u64 (va + k * 4096)) (u64 (pa + k * 4096)) (X86.leaf_flags fl) HT Hr Hm) as [E0 _].
    lia.
  - rewrite (Hsame tj HG') in *. by destruct Hfree; apply Hfull.
Qed.


(** C20: A mapping that should succeed does: with a grant, no other object in the way, a free
    mapping record and three free frames per page, [cap_map] returns 0 and every page of the
    capability is visible to the processor. *)
Theorem cap_map_succeeds frames pid i va fl ti :
  reached frames s → preach m roots → cr3_of pid ∈ roots →
  0 ≤ pid < 2 ^ 16 → 0 ≤ i < CAP_TABLE_ENTRIES → 0 ≤ va < 2 ^ 64 →
  map_grant pid i va fl s ti → cap_maps_overlap (table ti s) (w_obj (slot ti i s)) va (w_len (slot ti i s)) = false →
  (∃ j, 0 ≤ j < CAP_MAP_MAX ∧ ¬ map_live (t_maps (table ti s)).[j]) →
  room (Z.to_nat (3 * w_len (slot ti i s))) m →
  ∃ s', cap_map pid i va fl s = Ok 0 s' ∧
    pages_mapped (view m) (view (machine_at s')) roots (cr3_of pid) va (view_base (slot ti i s)) (w_len (slot ti i s)) fl.
Proof.
  intros Hs%reached_ok HR Hr Hpid Hi Hva HG Hov Hrec Hroom.
  destruct (map_here pid i va fl Hs HR Hr Hpid Hi Hva) as (r & s' & E & _ & O & _ & S).
  pose proof (map_room pid i va fl ti r s' Hs HR Hr ltac:(lia) HG Hov Hrec Hroom O) as ->. exists s'. split; [done|].
  destruct S as [Hr0 _ _|tj k _ Hm1 _ _ _|tj HG' _ HM]; [done|done|].
  pose proof Hs as ((hold & HI) & _). destruct (mg_table _ _ _ _ _ _ HG') as (? & ? & ?).
  assert (tj = ti) as -> by (by eapply (table_of_inj _ _ pid ti tj (inv_pids HI)); [apply HG|..]). done.
Qed.

(** * cap_revoke *)

(** The address space of every process with a live mapping record exists and has page tables
    for the pages of the record; [cap_map] makes it so when it writes the record. *)
Definition records_backed : Prop :=
  ∀ ti j p, 0 ≤ ti < CAP_TABLE_MAX → 0 ≤ j < CAP_MAP_MAX →
  let mp := (t_maps (table ti s)).[j] in
  map_live mp → 0 ≤ p < mp_npages mp →
  cr3_of (t_pid (table ti s)) ∈ roots ∧ has_table m (cr3_of (t_pid (table ti s))) (mp_vaddr mp + p * 4096).

(** The page of [va] in [r] is recorded as showing object [o]. *)
Definition shows (o r va : Z) : Prop := ∃ v, recorded_page CAP_TABLE_MAX o s r v ∧ va / 4096 = v / 4096.

Lemma recorded_guard o r v : kernel_ok s → records_backed → recorded_page CAP_TABLE_MAX o s r v → pguard (PUnmap r v) m roots.
Proof.
  intros ((hold & HI) & _) HB (ti & Hti & j & p & Hj & Hm & _ & Hp & -> & ->).
  destruct (HB ti j p Hti Hj Hm Hp) as [Hr Ht].
  destruct (mr_range _ (inv_maps HI) ti j Hj Hm) as (R1 & R2 & R3). unfold map_end in *.
  change (k_tables s).[ti] with (table ti s) in *. rewrite u64_small by lia. split; [done|]. split; [lia|done].
Qed.

(** Unmapping any collection of pages whose tables exist removes them, one by one. *)
Lemma replay_unmaps P l : preach m roots → unmaps P l → (∀ r v, P r v → pguard (PUnmap r v) m roots) →
  let m' := replay l m in
  preach m' roots ∧
  (∀ r v va, P r v → 0 ≤ va < 2 ^ 48 → va / 4096 = v / 4096 → view m' r va = None) ∧
  (∀ r va, r ∈ roots → 0 ≤ va < 2 ^ 48 → (∀ v, P r v → va / 4096 ≠ v / 4096) → view m' r va = view m r va).
Proof.
  intros HR [HP1 HP2] HG. cbv zeta.
  assert (preach (replay l m) roots ∧ (∀ r va, r ∈ roots → has_table m r va → has_table (replay l m) r va) ∧
    (∀ r v va, HUnmapPage r v ∈ l → 0 ≤ va < 2 ^ 48 → va / 4096 = v / 4096 → view (replay l m) r va = None) ∧
    (∀ r va, r ∈ roots → 0 ≤ va < 2 ^ 48 → (∀ v, HUnmapPage r v ∈ l → va / 4096 ≠ v / 4096) → view (replay l m) r va = view m r va))
    as (H1 & _ & H3 & H4).
  { clear HP2. induction l as [|h l IH].
    { split; [done|]. split; [done|]. split; [by intros r v va ?%not_elem_of_nil|done]. }
    destruct IH as (R1 & T1 & V1 & K1); [intros; apply HP1; by right|].
    destruct (HP1 h) as [->|(r & v & -> & Hp)]; [by left| |].
    { split; [done|]. split; [done|]. split; [intros r v va [?|?]%elem_of_cons; [done|by eapply V1]|].
      intros r va Hr Hva Hn. apply K1; [done|done|]. intros v Hv. apply Hn. by right. }
    cbn [replay foldr hook_effect]. fold (replay l m). set (m1 := replay l m) in *. clearbody m1.
    pose proof (HG r v Hp) as (Hr & Hv & Ht). assert (pguard (PUnmap r v) m1 roots) as HG1 by (split; [done|split; [done|by apply T1]]).
    pose proof (preach_ok _ _ R1) as HT. pose proof (unmap_refines m1 roots r v HT HG1) as [_ [_ U]].
    pose proof (λ r' va', unmap_keeps m1 roots r v r' va' HT HG1) as HK.
    destruct (X86.cap_arch_unmap_page r v m1) as [res m2] eqn:E. cbn [snd] in *. split_and!.
    - eapply (preach_step (PUnmap r v) m1 roots res); [done|done|cbn [prun]; by rewrite E].
    - auto.
    - intros r' v' va Hin Hva Hpg. assert (r' ∈ roots) as Hr'.
      { apply elem_of_cons in Hin as [[= -> ->]|Hin]; [done|]. destruct (HP1 (HUnmapPage r' v')) as [|(? & ? & [= -> ->] & Hp')];
          [by right|done|]. apply (HG _ _ Hp'). }
      rewrite (U r' va Hr' Hva). destruct (decide _) as [|Hne]; [done|]. apply elem_of_cons in Hin as [[= -> ->]|Hin]; [tauto|by eapply V1].
    - intros r' va Hr' Hva Hn. rewrite (U r' va Hr' Hva). rewrite decide_False.
      + apply K1; [done|done|]. intros v' Hv'. apply Hn. by right.
      + intros [-> Hpg]. by destruct (Hn v ltac:(by left)). }
  split; [done|]. split.
  - intros r v va Hp. by apply H3, HP2.
  - intros r va Hr Hva Hn. apply H4; [done|done|]. intros v Hv. destruct (HP1 _ Hv) as [|(? & ? & [= -> ->] & Hp)]; [done|by apply Hn].
Qed.

(** C4: Revoking a live object takes its recorded pages away from every process: wherever a
    mapping record showed the object, the processor finds nothing afterwards, and every other
    translation of every address space is as it was. *)
Theorem cap_revoke_pages frames pid i :
  reached frames s → preach m roots → records_backed → 0 ≤ pid < 2 ^ 16 → 0 ≤ i < CAP_TABLE_ENTRIES → names_live pid i s →
  ∃ s' o, cap_revoke pid i s = Ok 0 s' ∧ (∃ ti, table_of (k_table_pid s) pid ti ∧ o = w_obj (slot ti i s)) ∧
    preach (machine_at s') roots ∧
    (∀ r va, 0 ≤ va < 2 ^ 48 → shows o r va → view (machine_at s') r va = None) ∧
    (∀ r va, r ∈ roots → 0 ≤ va < 2 ^ 48 → ¬ shows o r va → view (machine_at s') r va = view m r va).
Proof.
  intros Hs%reached_ok HR HB Hpid Hi Hlive.
  destruct (proj1 (wp_Ok _ _ _) (revoke_ok pid i s Hs Hpid Hi)) as (r0 & s' & E & _ & O).
  destruct O as [No|o _ -> Hall]; [done|]. destruct (rv_calls _ _ _ _ _ Hall) as (l & Et & HU).
  destruct (rv_object _ _ _ _ _ Hall) as (ti & Hti & Eo & _).
  destruct (replay_unmaps _ l HR HU (λ r v, recorded_guard o r v Hs HB)) as (HR' & H1 & H2).
  assert (machine_at s' = replay l m) as Em by (unfold machine_at; by rewrite Et, since_app).
  exists s', o. rewrite Em. split; [done|]. split; [by exists ti|]. split; [done|]. split.
  - intros r va Hva (v & Hv & Ep). by eapply H1.
  - intros r va Hr Hva Hn. apply H2; [done|done|]. intros v Hv Ep. apply Hn. by exists v.
Qed.

End Compose.

End CapPaging.
