(* ===== verification/PagingWitness.v ===== *)
(** Concrete address spaces: a machine with the first 256 MiB in use, one process, and the
    theorems about page tables applied to them. *)

From stdpp Require Import base gmap list list_numbers.
From Stdlib Require Import ZArith Lia Bool.
From S2P Require Import Prelude FramePool FramePoolSpec FramePoolInv CapWord Sidecar CapState CapPools CapOps CapRevoke Chan.
From S2P Require Import Wp CapInv CapInvPools CapInvObj CapCreateInv CapTeardownInv CapMapInv CapRevokeInv ChanInv.
From S2P Require Import CapInit CapSystem CapTheorems CapWitness.
From S2P Require Import Paging PagingSpec PagingOps PagingFree PagingRoom PagingTheorems CapPaging.
#[local] Open Scope Z_scope.
#[local] Open Scope carr_scope.
#[local] Opaque Z.to_nat for_up.

(** * The machine *)

#[local] Instance demo_machine : Machine := {|
  p4_table := 0x101000; p3_table := 0x102000;
  p2_table_0 := 0x103000; p2_table_1 := 0x104000; p2_table_2 := 0x105000; p2_table_3 := 0x106000;
  image_end := 0x200000; current_sp := 0x180000
|}.

Lemma reserve_below_frames a s : let t := frame_pool_reserve_below a s in
  (∀ g, used t g = within 0 (u64 (a + FRAME_SIZE - 1) / FRAME_SIZE) g || used s g) ∧
  (words_ok (physical_memory_bitmap s) → words_ok (physical_memory_bitmap t)) ∧ frame_owner t = frame_owner s.
Proof.
  unfold frame_pool_reserve_below. assert (0 ≤ u64 (a + FRAME_SIZE - 1) / FRAME_SIZE) as Hl.
  { apply Z.div_pos; [|done]. apply Z.mod_pos_bound. done. }
  generalize dependent (u64 (a + FRAME_SIZE - 1) / FRAME_SIZE). intros last Hl.
  set (n := if TOTAL_FRAMES <? last then TOTAL_FRAMES else last).
  assert (∀ g, within 0 (0 + n) g = within 0 last g) as Hn.
  { intros g. unfold n, within. destruct (Z.ltb_spec TOTAL_FRAMES last); lia. }
  assert (0 ≤ n) as Hn0 by (unfold n, TOTAL_FRAMES; destruct (_ <? _); lia). clearbody n.
  destruct (mark_run_spec (Z.to_nat n) 0 s ltac:(done)) as (Hu & Hw & (_ & _ & Eo & _)). rewrite Z2Nat.id in Hu by done.
  generalize dependent (for_up (Z.to_nat n) 0 fp_mark_used s). intros t Hu Hw Eo.
  assert (∀ g, used t g = within 0 last g || used s g) as Ht by (intros g; by rewrite <-Hn).
  by destruct (reserved_below t <? n).
Qed.

Definition demo_pool : FramePool := frame_pool_reserve_below demo_phys frame_pool_bss.

Lemma demo_pool_spec : (∀ f, used demo_pool f = (0 <=? f) && (f <? 65536)) ∧
  words_ok (physical_memory_bitmap demo_pool) ∧ frame_owner demo_pool = ∅.
Proof.
  destruct (reserve_below_frames demo_phys frame_pool_bss) as (Hu & Hw & Eo). fold demo_pool in *.
  generalize dependent demo_pool. intros t Hu Hw Eo. split; [|split; [by apply Hw|done]].
  intros f. rewrite Hu. change (u64 (demo_phys + FRAME_SIZE - 1) / FRAME_SIZE) with 65536.
  change (used frame_pool_bss f) with (bit_is_set ∅ f). rewrite bit_is_set_testbit.
  change ((∅ : gmap Z Z).[f / 64]) with 0. rewrite Z.testbit_0_l, orb_false_r. unfold within, TOTAL_FRAMES. lia.
Qed.
#[local] Opaque demo_pool.

Definition demo_m0 : Mach := mkMach demo_pool (X86.boot_page_tables ∅) ∅.

Lemma demo_booted : booted_machine demo_m0.
Proof.
  destruct demo_pool_spec as (Hu & Hw & _). split; [split| |done|].
  - intros t. unfold boot_tables. rewrite !elem_of_cons, elem_of_nil. unfold table_addr. cbn.
    intros [->|[->|[->|[->|[->|[->|[]]]]]]]; done.
  - unfold boot_tables. cbn. repeat (apply NoDup_cons; split; [rewrite ?elem_of_cons, elem_of_nil; lia|]). by apply NoDup_nil_2.
  - exists ∅. split; [done|]. intros t i _ _. done.
  - intros t. cbn [m_frames demo_m0]. rewrite Hu. unfold boot_tables. rewrite !elem_of_cons, elem_of_nil. cbn.
    intros [->|[->|[->|[->|[->|[->|[]]]]]]]; done.
Qed.

Lemma demo_allocable f : 65536 ≤ f → allocable current_sp demo_pool f = true.
Proof.
  intros Hf. destruct demo_pool_spec as (Hu & _). unfold allocable. rewrite Hu.
  unfold stack_frame, fp_frame_contains, FRAME_SIZE. cbn [current_sp demo_machine]. lia.
Qed.

Lemma demo_free_frames : room 7 demo_m0.
Proof.
  exists (seqZ 65536 7). split; [apply NoDup_seqZ|]. split; [by rewrite length_seqZ|]. intros f [Hf1 Hf2]%elem_of_seqZ.
  split; [unfold TOTAL_FRAMES; lia|by apply demo_allocable].
Qed.


(** * One process *)

Lemma alloc_table_frames m : m_frames (snd (X86.alloc_page_table m)) = snd (allocate_physical_ram_frame current_sp (m_frames m)) ∧
  fst (X86.alloc_page_table m) = fst (allocate_physical_ram_frame current_sp (m_frames m)).
Proof.
  unfold X86.alloc_page_table. destruct (allocate_physical_ram_frame current_sp (m_frames m)) as [t fp].
  destruct (Z.eqb_spec t 0) as [->|]; [done|]. split; [|done]. cbn [snd]. by rewrite (frames_kept t (λ _ _, 0)).
Qed.

Lemma clone_frames m : fst (X86.user_clone_page_table m) = fst (X86.alloc_page_table m) ∧
  m_frames (snd (X86.user_clone_page_table m)) = m_frames (snd (X86.alloc_page_table m)).
Proof.
  unfold X86.user_clone_page_table. destruct (X86.alloc_page_table m) as [t m1]. destruct (Z.eqb_spec t 0) as [->|]; [done|].
  split; [done|]. cbn [snd]. unfold X86.clone_kernel_slots. apply (for_up_ind (λ _ m', m_frames m' = m_frames m1)); [done|].
  intros j m' _ E. by repeat destruct (negb _).
Qed.

(** The first frame the pool can give is the one at [demo_phys]. *)
Lemma demo_alloc : fst (allocate_physical_ram_frame current_sp demo_pool) = demo_phys ∧
  owners_ok (snd (allocate_physical_ram_frame current_sp demo_pool)).
Proof.
  destruct demo_pool_spec as (Hu & Hw & Eo). pose proof demo_allocable as Ha. generalize dependent demo_pool. intros pool Hu Hw Eo Ha.
  unfold allocate_physical_ram_frame. destruct (alloc_raw_frame_cases current_sp pool Hw) as [(f & t & -> & Hf & S1 & S2 & S3 & _ & Hb)|(t & -> & _ & S2 & _)].
  - assert (f = 65536) as ->.
    { destruct (Z.lt_trichotomy f 65536) as [Hlt|[->|Hgt]]; [|done|].
      - unfold allocable in S3. rewrite Hu in S3. lia.
      - specialize (S2 65536). rewrite Ha in S2 by done. unfold region in S2. lia. }
    rewrite frame_base_nonzero by done. split; [done|]. cbn [snd]. intros g. rewrite owner_charge. case_match; [done|].
    destruct Hb as (_ & _ & E & _). unfold owner. rewrite E, Eo. done.
  - specialize (S2 65536 eq_refl). by rewrite Ha in S2.
Qed.

Lemma first_process n m0 t : preach m0 [] → room (S n) m0 → m_acts m0 = ∅ → t ≠ 0 →
  fst (allocate_physical_ram_frame current_sp (m_frames m0)) = t →
  owners_ok (snd (allocate_physical_ram_frame current_sp (m_frames m0))) →
  ∃ m1, prun PClone m0 [] = (t, m1, [t]) ∧ preach m1 [t] ∧ room n m1 ∧
    owners_ok (m_frames m1) ∧ m_acts m1 = ∅ ∧ (∀ va, 0 ≤ va < 2 ^ 48 → view m1 t va = boot_view va) ∧
    (∀ p, path_ok p → p ≠ [] → node m1 t p = None).
Proof.
  intros HR0 Hroom0 Ha0 Ht E1 Ho. pose proof (preach_ok _ _ HR0) as HT0.
  destruct (clone_room n m0 [] HT0 Hroom0) as [_ Hroom].
  destruct (clone_frames m0) as [F1 F2]. destruct (alloc_table_frames m0) as [F3 F4].
  rewrite F3 in F2. rewrite F4, E1 in F1. rewrite <- F2 in Ho.
  pose proof (user_clone_page_table_ok m0 [] HT0) as HC. rewrite Ha0 in HC.
  pose proof (prun_ok PClone m0 [] HT0 I) as HP. destruct (prun PClone m0 []) as [[t' m1] roots'] eqn:EP.
  pose proof EP as EP'. cbn [prun] in EP. destruct (X86.user_clone_page_table m0) as [t1 m1']. cbn [fst snd] in *.
  subst t1. rewrite (proj2 (Z.eqb_neq t 0) Ht) in EP. injection EP as <- <- <-.
  destruct HC as [(? & _)|(_ & _ & _ & _ & _ & _ & _ & Hn & Ea)]; [done|].
  exists m1'. split; [done|]. split; [by apply (preach_step PClone m0 [] t)|]. do 3 (split; [done|]). split; [|done].
  destruct HP as [_ [_ [[? _]|[_ Hb]]]]; done.
Qed.

(** Process 1's address space, a copy of the kernel's; its PML4 is the frame at [demo_phys]. *)
Lemma demo_process : ∃ m1, prun PClone demo_m0 [] = (demo_phys, m1, [demo_phys]) ∧ preach m1 [demo_phys] ∧ room 6 m1 ∧
  owners_ok (m_frames m1) ∧ m_acts m1 = ∅ ∧ (∀ va, 0 ≤ va < 2 ^ 48 → view m1 demo_phys va = boot_view va) ∧
  (∀ p, path_ok p → p ≠ [] → node m1 demo_phys p = None).
Proof.
  destruct demo_alloc as [E1 Ho].
  apply (first_process 6 demo_m0 demo_phys (preach_boot _ demo_booted) demo_free_frames eq_refl ltac:(discriminate) E1 Ho).
Qed.

(** Mapping a page into it. *)
Lemma paging_refines_witness : ∃ m1, preach m1 [demo_phys] ∧
  let '(res, m', roots') := prun (PMap demo_phys 0x40000000000 0x30000000 3) m1 [demo_phys] in
  preach m' roots' ∧ promise (PMap demo_phys 0x40000000000 0x30000000 3) [demo_phys] (view m1) res (view m') (no_frames m').
Proof.
  destruct demo_process as (m1 & _ & HR & _). exists m1. split; [done|].
  apply (paging_refines (PMap demo_phys 0x40000000000 0x30000000 3) m1 [demo_phys] HR). split; [by left|done].
Defined.

Lemma paging_confined_witness : ∃ m1, preach m1 [demo_phys] ∧
  let '(_, m', _) := prun (PMap demo_phys 0x40000000000 0x30000000 3) m1 [demo_phys] in
  writes_ok (PMap demo_phys 0x40000000000 0x30000000 3) m1 m'.
Proof.
  destruct demo_process as (m1 & _ & HR & _). exists m1. split; [done|].
  pose proof (paging_confined (PMap demo_phys 0x40000000000 0x30000000 3) m1 [demo_phys] HR ltac:(split; [by left|done])) as H.
  destruct (prun _ m1 [demo_phys]) as [[res m'] roots']. apply H.
Defined.

Lemma demo_private m1 : m_acts m1 = ∅ → (∀ p, path_ok p → p ≠ [] → node m1 demo_phys p = None) → nothing_shared m1 [demo_phys] demo_phys.
Proof.
  intros Ea Hn. split; [|split].
  - intros t. unfold boot_tables. rewrite !elem_of_cons, elem_of_nil. cbn. intros [->|[->|[->|[->|[->|[->|[]]]]]]]; done.
  - intros p u [Hl Hf] H4 Hp. exfalso. destruct p as [|a [|b [|c [|d []]]]]; try done.
    change [a; b; c; d] with ([a; b; c] ++ [d]) in *. apply Forall_app in Hf as [Hf _]. rewrite node_app in Hp.
    rewrite Hn in Hp; [done|by split; [simpl; lia|]|done].
  - intros u (i & q & Hv & _). by rewrite Ea in Hv.
Qed.

Lemma demo_pool_frame : pool_frame demo_phys.
Proof. done. Qed.


(** * Process 1 maps the view it created *)

Definition demo_cr3 (pid : Z) : Z := if pid =? 1 then demo_phys else 0.

#[local] Existing Instance paged_env.
#[local] Existing Instance weak_chan_env.

Lemma demo_reached s : kreach frame_pool_bss s → reached frame_pool_bss s.
Proof. apply kreach_reached, _. Qed.


Lemma no_maps_overlap t o va n : t_maps t = ∅ → cap_maps_overlap t o va n = false.
Proof.
  intros E. unfold cap_maps_overlap. destruct (find_up _ _ _) as [j|] eqn:Ej; [|done].
  apply find_up_Some in Ej as (_ & Ej & _). by rewrite E in Ej.
Qed.

Definition demo_word : Z := cap_word_make CAP_TYPE_MEM 0 demo_perm 0 2.

Lemma demo_word_fields : w_type demo_word = CAP_TYPE_MEM ∧ cap_word_valid demo_word = true ∧ w_obj demo_word = 0 ∧
  w_perm demo_word = demo_perm ∧ w_len demo_word = 2 ∧ w_off demo_word = 0.
Proof. by vm_compute. Qed.

Lemma demo_grant m s0 s i ti va : mem_created 1 demo_phys 2 demo_perm s0 i s ti 0 → Z.land va 0xFFF = 0 → va + 2 * 4096 ≤ 2 ^ 47 →
  @map_grant (here demo_cr3 m s) 1 i va 3 s ti.
Proof.
  intros [Ht [E0 En] (Hi & _ & Ew) _ (Ha & Hk & Hp & Hnp & _) _] Hal Hend. fold demo_word in Ew.
  destruct demo_word_fields as (F1 & F2 & F3 & F4 & F5 & F6).
  split; rewrite ?Ew, ?F1, ?F2, ?F3, ?F4, ?F5, ?F6; try done.
  - split; [lia|]. by split.
  - rewrite Hnp. lia.
Qed.

(** Process 1 maps its view at 1 MiB, where the kernel image lies: the mapping succeeds, the
    kernel's page is gone from the address space, and the frame that took its place - writable
    by the process - is the process's own PML4. *)
Lemma cap_map_succeeds_witness : ∃ m s i s', preach m [demo_phys] ∧ view m demo_phys 0x100000 = Some (0x100000, supervisor) ∧
  @cap_map (here demo_cr3 m s) 1 i 0x100000 3 s = Ok 0 s' ∧
  view (machine_at m s s') demo_phys 0x100000 = Some (demo_phys, mkR true true true).
Proof.
  destruct demo_process as (m & _ & HR & Hroom & _ & _ & Hb & _).
  destruct demo_mem as (s0 & s & i & ti & _ & Hb0 & _ & Hc & Hr).
  pose proof (demo_grant m s0 s i ti 0x100000 Hc ltac:(done) ltac:(done)) as HG.
  destruct Hc as [_ _ (Hi & _ & Ew) _ (_ & _ & Hp & _) [Hm _]]. fold demo_word in Ew.
  destruct demo_word_fields as (_ & _ & F3 & _ & F5 & F6).
  assert (t_maps (table ti s) = ∅) as Em by (rewrite Hm; apply (bt_maps _ _ Hb0)).
  assert (Z.to_nat (3 * 2) = 6%nat) as E6 by done.
  destruct (cap_map_succeeds demo_cr3 m [demo_phys] s frame_pool_bss 1 i 0x100000 3 ti) as (s' & E & HM);
    [by apply demo_reached|exact HR|by left|lia|exact Hi|lia|exact HG|by apply no_maps_overlap| |by rewrite Ew, F5, E6|].
  { exists 0. rewrite Em. split; [done|]. intros H. by apply H. }
  exists m, s, i, s'. split; [done|]. split; [by rewrite Hb|]. split; [done|].
  specialize (HM demo_phys 0x100000 ltac:(by left) ltac:(lia)). unfold view_base in HM. rewrite Ew, F3, F5, F6, Hp in HM.
  cbv zeta in HM. rewrite decide_True, Hb in HM by (done || lia). exact HM.
Defined.

(** Process 1 maps the view at 4 MiB and revokes it. *)
Lemma demo_mapped : ∃ m s i, reached frame_pool_bss s ∧ preach m [demo_phys] ∧ records_backed demo_cr3 m [demo_phys] s ∧
  0 ≤ i < CAP_TABLE_ENTRIES ∧ names_live 1 i s ∧ (∀ ti, table_of (k_table_pid s) 1 ti → w_obj (slot ti i s) = 0) ∧
  view m demo_phys 0x400000 = Some (demo_phys, mkR true true true) ∧
  shows demo_cr3 m s 0 demo_phys 0x400000.
Proof.
  destruct demo_process as (m & _ & HR & Hroom & _ & _ & Hb & _).
  destruct demo_mem as (s0 & s & i & ti & _ & Hb0 & _ & Hc & Hr). pose proof (demo_names _ _ _ _ Hc) as Hn.
  pose proof (demo_grant m s0 s i ti 0x400000 Hc ltac:(done) ltac:(done)) as HG. pose proof (kreach_kernel_ok _ _ Hr) as Hs.
  destruct Hc as [Ht _ (Hi & _ & Ew) _ (_ & _ & Hp & _) [Hm _]]. fold demo_word in Ew.
  destruct demo_word_fields as (_ & _ & F3 & _ & F5 & F6).
  assert (t_maps (table ti s) = ∅) as Em by (rewrite Hm; apply (bt_maps _ _ Hb0)).
  assert (∀ tj k, ¬ map_live (t_maps (table tj s)).[k]) as Hnone.
  { intros tj k Hl. rewrite Hm, (bt_maps _ _ Hb0) in Hl. by apply Hl. }
  destruct (map_here demo_cr3 m [demo_phys] s 1 i 0x400000 3 Hs HR ltac:(by left) ltac:(done) Hi ltac:(done)) as (r & s2 & E & Hs2 & O & HR2 & S).
  assert (Z.to_nat (3 * 2) = 6%nat) as E6 by done.
  assert (r = 0) as ->.
  { eapply (map_room demo_cr3 m [demo_phys] s 1 i 0x400000 3 ti r s2 Hs HR ltac:(by left) ltac:(done) HG); [by apply no_maps_overlap| |by rewrite Ew, F5, E6|exact O].
    exists 0. split; [done|]. apply Hnone. }
  assert (∀ tj, table_of (k_table_pid s) 1 tj → tj = ti) as Huniq.
  { intros tj (A & B & D). destruct Hs as ((hold & HI) & _). by eapply (table_of_inj _ _ 1 ti tj (inv_pids HI)). }
  destruct O as [? _ _|? ? _ ? _ ? ? _ _ _|tj HG' w pa _ _ [(? & _)|(_ & j & Hj & _ & [Hrec Hpid] & (EO & En & EP & Es))]]; try done.
  destruct S as [? _ _|? ? _ ? _ _ _|tk HG2 _ HM]; try done.
  pose proof (Huniq tj (mg_table _ _ _ _ _ _ HG')) as ->. pose proof (Huniq tk (mg_table _ _ _ _ _ _ HG2)) as ->.
  subst w. rewrite Ew, F3, F5 in Hrec. unfold view_base in HM. rewrite Ew, F3, F5, F6, Hp in HM.
  assert (demo_cr3 1 = demo_phys) as E1 by done. rewrite E1 in HM.
  assert (t_pid (table ti s2) = 1) as Epid.
  { rewrite Hpid. destruct Hs as ((hold & HI) & _). destruct Ht as (A & B & _). by rewrite <- (po_tab _ _ (inv_pids HI) ti A) in B. }
  exists (machine_at m s s2), s2, i. split.
  { apply (reached_step _ (here demo_cr3 m s) weak_chan_env (OpMap 1 i 0x400000 3) s); [apply _|by apply demo_reached|done|].
    cbn [krun]. unfold drop, bind. by rewrite E. }
  split; [done|]. split; [|split; [done|split; [|split; [|split]]]].
  - intros tk k p _ Hk. cbv zeta. rewrite Hrec. destruct ((ti =? tk) && (j =? k)) eqn:Ek; [|intros Hl; by destruct (Hnone tk k)].
    apply andb_true_iff in Ek as [<-%Z.eqb_eq <-%Z.eqb_eq]. cbn [mp_npages mp_vaddr]. intros _ Hpp. rewrite Epid, E1.
    split; [by left|]. eapply (pages_mapped_table m); [by apply preach_ok|by left|done|exact Hpp|done|exact HM].
  - destruct Hn as (tk & Htk & Hv & Ho & Ha). exists tk. rewrite EP, Es, En. unfold object in *. by rewrite EO.
  - intros tk Htk. rewrite EP in Htk. rewrite (Huniq tk Htk), Es, Ew. done.
  - specialize (HM demo_phys 0x400000 ltac:(by left) ltac:(lia)). cbv zeta in HM. rewrite decide_True, Hb in HM by (done || lia). exact HM.
  - exists 0x400000. split; [|done]. exists ti. split; [apply Ht|]. exists j, 0. split; [done|]. cbv zeta. rewrite Hrec, !Z.eqb_refl.
    cbn [andb mp_obj_id mp_npages mp_vaddr]. rewrite Epid. done.
Qed.

Lemma cap_revoke_pages_witness : ∃ m s i s', view m demo_phys 0x400000 = Some (demo_phys, mkR true true true) ∧
  @cap_revoke (here demo_cr3 m s) 1 i s = Ok 0 s' ∧ view (machine_at m s s') demo_phys 0x400000 = None.
Proof.
  destruct demo_mapped as (m & s & i & Hs & HR & HB & Hi & Hn & Ho & Hv & Hsh).
  destruct (cap_revoke_pages demo_cr3 m [demo_phys] s frame_pool_bss 1 i Hs HR HB ltac:(lia) Hi Hn)
    as (s' & o & E & (ti & Hti & ->) & _ & H1 & _).
  exists m, s, i, s'. split; [done|]. split; [done|]. apply H1; [lia|]. by rewrite (Ho ti Hti).
Defined.
