(* ===== verification/SimiInterp.v ===== *)
(** The in-kernel interpreter of SIMI bytecode: kernel/simi_interp.c, with the object look-ups
    of kernel/simi_runtime.c it is bound to.

    A context is plain data; arrays are total maps read at zero where unwritten.  [Wild] is the
    outcome of an access outside the array the source indexes: C leaves it undefined, and in the
    kernel it reads or writes whatever lies there. *)

From stdpp Require Import base gmap list list_numbers.
From Stdlib Require Import ZArith Lia Bool String.
From S2P Require Import Prelude Sidecar.
#[local] Open Scope Z_scope.
#[local] Open Scope carr_scope.

(** * The instruction set (simi_interp.h) *)

(** The operation codes, in the order that numbers them. *)
Inductive Opcode :=
| OP_ADD | OP_SUB | OP_MUL | OP_DIV | OP_MOD | OP_AND | OP_OR | OP_XOR | OP_NOT
| OP_SHL | OP_SHR | OP_SAR | OP_NEG | OP_MOV | OP_LOADI | OP_LOADI64 | OP_CMP
| OP_BR | OP_BC | OP_CALL | OP_RET | OP_LOAD | OP_STORE | OP_LEA | OP_PTRADD
| OP_ENTER | OP_LEAVE
| OP_RESOLVE | OP_OBJSIZE | OP_OBJTYPE
| OP_JMPR
| OP_CAS | OP_ATOMIC_ADD.

Definition opcodes : list Opcode :=
  [OP_ADD; OP_SUB; OP_MUL; OP_DIV; OP_MOD; OP_AND; OP_OR; OP_XOR; OP_NOT;
   OP_SHL; OP_SHR; OP_SAR; OP_NEG; OP_MOV; OP_LOADI; OP_LOADI64; OP_CMP;
   OP_BR; OP_BC; OP_CALL; OP_RET; OP_LOAD; OP_STORE; OP_LEA; OP_PTRADD;
   OP_ENTER; OP_LEAVE; OP_RESOLVE; OP_OBJSIZE; OP_OBJTYPE; OP_JMPR; OP_CAS; OP_ATOMIC_ADD].

Definition OP_COUNT : Z := 33.

(** The number of an operation code. *)
Definition op_number (op : Opcode) : Z :=
  match op with
  | OP_ADD => 0 | OP_SUB => 1 | OP_MUL => 2 | OP_DIV => 3 | OP_MOD => 4 | OP_AND => 5 | OP_OR => 6 | OP_XOR => 7 | OP_NOT => 8
  | OP_SHL => 9 | OP_SHR => 10 | OP_SAR => 11 | OP_NEG => 12 | OP_MOV => 13 | OP_LOADI => 14 | OP_LOADI64 => 15 | OP_CMP => 16
  | OP_BR => 17 | OP_BC => 18 | OP_CALL => 19 | OP_RET => 20 | OP_LOAD => 21 | OP_STORE => 22 | OP_LEA => 23 | OP_PTRADD => 24
  | OP_ENTER => 25 | OP_LEAVE => 26 | OP_RESOLVE => 27 | OP_OBJSIZE => 28 | OP_OBJTYPE => 29 | OP_JMPR => 30
  | OP_CAS => 31 | OP_ATOMIC_ADD => 32
  end.

Definition opcode_of (n : Z) : option Opcode := if n <? 0 then None else opcodes !! Z.to_nat n.

Definition T_I8 : Z := 0.
Definition T_I16 : Z := 1.
Definition T_I32 : Z := 2.
Definition T_I64 : Z := 3.
Definition T_U8 : Z := 4.
Definition T_U16 : Z := 5.
Definition T_U32 : Z := 6.
Definition T_U64 : Z := 7.
Definition T_F32 : Z := 8.
Definition T_F64 : Z := 9.
Definition T_BOOL : Z := 11.
Definition T_OBJREF : Z := 12.

Definition REL_GEU : Z := 9.
Definition FLAG_IMM : Z := 1.
Definition FLAG_INVERT : Z := 1.
Definition SIMI_MAX_NAME : Z := 32.

Definition simi_type_signed (t : Z) : bool := (t =? T_I8) || (t =? T_I16) || (t =? T_I32) || (t =? T_I64).
Definition simi_op (w : Z) : Z := Z.land (Z.shiftr w 56) 0xFF.
Definition simi_type (w : Z) : Z := Z.land (Z.shiftr w 52) 0xF.
Definition simi_rd (w : Z) : Z := Z.land (Z.shiftr w 42) 0x3FF.
Definition simi_ra (w : Z) : Z := Z.land (Z.shiftr w 32) 0x3FF.
Definition simi_rb_raw (w : Z) : Z := Z.land (Z.shiftr w 4) 0xFFFFFFF.
Definition simi_flags (w : Z) : Z := Z.land w 0xF.
Definition simi_rb_reg (w : Z) : Z := Z.land (simi_rb_raw w) 0x3FF.

(** Two's complement readings. *)
Definition s32 (x : Z) : Z := if x <? 2 ^ 31 then x else x - 2 ^ 32.
Definition s64 (x : Z) : Z := if x <? 2 ^ 63 then x else x - 2 ^ 64.

Definition simi_imm28 (w : Z) : Z :=
  let raw := simi_rb_raw w in
  s32 (if Z.land raw 0x8000000 =? 0 then raw else Z.lor raw 0xF0000000).

(** * Programs and contexts *)

Definition SIMI_MAX_FRAMES : Z := 32.
Definition SIMI_NREGS : Z := 1024.
Definition SIMI_MEM_SIZE : Z := 64 * 1024.

(** [SimiEntry] *)
Record SimiEntry := mkSimiEntry { entry_name : string; entry_offset : Z }.
#[export] Instance CZero_SimiEntry : CZero SimiEntry := mkSimiEntry EmptyString 0.

(** [SimiObject]; a name of the pool is its 32 characters. *)
Record SimiObject := mkObject {
  num_instr : Z;
  num_literals : Z;
  num_entries : Z;
  num_names : Z;
  instr : gmap Z Z;
  literals : gmap Z Z;
  entries : gmap Z SimiEntry;
  pool_names : gmap Z (gmap Z Z)
}.

(** [struct SimiFrame]; [f_pad] is the padding after the last field. *)
Record SimiFrame := mkFrame {
  regs : gmap Z Z;
  cap_tag : gmap Z Z;
  declared_nregs : Z;
  return_pc : Z;
  caller_frame : Z;
  f_pad : Z
}.
#[export] Instance CZero_SimiFrame : CZero SimiFrame := mkFrame ∅ ∅ 0 0 0 0.

Definition set_reg (r v t : Z) (f : SimiFrame) : SimiFrame :=
  mkFrame (regs f).[r <- v] (cap_tag f).[r <- t] (declared_nregs f) (return_pc f) (caller_frame f) (f_pad f).
Definition set_declared (n : Z) (f : SimiFrame) : SimiFrame :=
  mkFrame (regs f) (cap_tag f) n (return_pc f) (caller_frame f) (f_pad f).

(** [SimiStatus] *)
Definition SIMI_STATUS_OK : Z := 0.
Definition SIMI_STATUS_HALTED : Z := 1.
Definition SIMI_STATUS_TRAP_PC_RANGE : Z := 2.
Definition SIMI_STATUS_TRAP_BAD_OPCODE : Z := 3.
Definition SIMI_STATUS_TRAP_DIV_ZERO : Z := 4.
Definition SIMI_STATUS_TRAP_DIV_OVERFLOW : Z := 5.
Definition SIMI_STATUS_TRAP_MOD_ZERO : Z := 6.
Definition SIMI_STATUS_TRAP_MEM_BOUNDS : Z := 7.
Definition SIMI_STATUS_TRAP_CALL_OVERFLOW : Z := 8.
Definition SIMI_STATUS_TRAP_LITERAL_RANGE : Z := 9.
Definition SIMI_STATUS_TRAP_NAME_RANGE : Z := 10.
Definition SIMI_STATUS_TRAP_JMPR_RANGE : Z := 11.
Definition SIMI_STATUS_TRAP_BAD_RELATION : Z := 12.
Definition SIMI_STATUS_TRAP_SAR_UNSIGNED : Z := 13.
Definition SIMI_STATUS_TRAP_MOD_FLOAT : Z := 14.
Definition SIMI_STATUS_TRAP_FLOAT_UNSUPPORTED : Z := 15.

(** [struct SimiContext]; a null [obj] is [None]. *)
Record SimiContext := mkCtx {
  pc : Z;
  frame_top : Z;
  steps : Z;
  result : Z;
  status : Z;
  trap_pc : Z;
  frames : gmap Z SimiFrame;
  mem : gmap Z Z;
  obj : option SimiObject
}.

Definition set_pc (v : Z) (c : SimiContext) : SimiContext :=
  mkCtx v (frame_top c) (steps c) (result c) (status c) (trap_pc c) (frames c) (mem c) (obj c).
Definition set_top (v : Z) (c : SimiContext) : SimiContext :=
  mkCtx (pc c) v (steps c) (result c) (status c) (trap_pc c) (frames c) (mem c) (obj c).
Definition set_steps (v : Z) (c : SimiContext) : SimiContext :=
  mkCtx (pc c) (frame_top c) v (result c) (status c) (trap_pc c) (frames c) (mem c) (obj c).
Definition set_frames (v : gmap Z SimiFrame) (c : SimiContext) : SimiContext :=
  mkCtx (pc c) (frame_top c) (steps c) (result c) (status c) (trap_pc c) v (mem c) (obj c).
Definition set_mem (v : gmap Z Z) (c : SimiContext) : SimiContext :=
  mkCtx (pc c) (frame_top c) (steps c) (result c) (status c) (trap_pc c) (frames c) v (obj c).
Definition set_halted (r : Z) (c : SimiContext) : SimiContext :=
  mkCtx (pc c) (frame_top c) (steps c) r SIMI_STATUS_HALTED (trap_pc c) (frames c) (mem c) (obj c).

(** * Object look-ups (simi_runtime.c) *)

(** The fields of [struct SLSObjectEntry] the look-ups read. *)
Record SLSObjectEntry := mkObjEntry {
  o_name : gmap Z Z;
  o_type : Z;
  o_base_vaddr : Z;
  o_size_pages : Z;
  o_active : Z
}.
#[export] Instance CZero_SLSObjectEntry : CZero SLSObjectEntry := mkObjEntry ∅ 0 0 0 0.

(** The kernel a running program sees, by the number of instructions it has retired: the catalog,
    the owner of the calling process (0 for kernel context), and the authority decision of
    [catalog_check_access(uid, name, PERM_READ)]. *)
Class World := {
  object_catalog : Z → gmap Z SLSObjectEntry;
  object_catalog_count : Z → nat;
  current_uid : Z → Z;
  may_read : Z → Z → gmap Z Z → bool
}.

Section Runtime.
Context `{World}.

Definition SIMI_RT_PAGE_SIZE : Z := 4096.

(** [rt_name_matches] *)
Definition rt_name_matches (name_ptr catalog_name : gmap Z Z) : bool :=
  match find_up (Z.to_nat SIMI_MAX_NAME) 0 (λ i, negb (name_ptr.[i] =? catalog_name.[i]) || (name_ptr.[i] =? 0)) with
  | Some i => name_ptr.[i] =? catalog_name.[i]
  | None => false
  end.

Definition simi_rt_resolve (t : Z) (name : gmap Z Z) : Z :=
  match find_up (object_catalog_count t) 0
          (λ i, negb (o_active (object_catalog t).[i] =? 0) && rt_name_matches name (o_name (object_catalog t).[i])) with
  | Some i =>
      if may_read t (current_uid t) (o_name (object_catalog t).[i]) then o_base_vaddr (object_catalog t).[i] else 0
  | None => 0
  end.

Definition find_vaddr (t base_vaddr : Z) : option Z :=
  find_up (object_catalog_count t) 0
    (λ i, negb (o_active (object_catalog t).[i] =? 0) && (o_base_vaddr (object_catalog t).[i] =? base_vaddr)).

Definition simi_rt_objsize (t base_vaddr : Z) : Z :=
  if base_vaddr =? 0 then 0 else
  match find_vaddr t base_vaddr with
  | Some i => u64 (o_size_pages (object_catalog t).[i] * SIMI_RT_PAGE_SIZE)
  | None => 0
  end.

Definition simi_rt_objtype (t base_vaddr : Z) : Z :=
  if base_vaddr =? 0 then 0xFFFFFFFF else
  match find_vaddr t base_vaddr with
  | Some i => o_type (object_catalog t).[i]
  | None => 0xFFFFFFFF
  end.

End Runtime.

(** * The interpreter (simi_interp.c) *)

(** The end of one instruction: on to the next, the status [simi_interp_run] returns, or an access
    outside an array. *)
Inductive outcome :=
| Running (c : SimiContext)
| Stopped (s : Z) (c : SimiContext)
| Wild.

Definition si_width_of (t : Z) : Z :=
  if (t =? T_I8) || (t =? T_U8) || (t =? T_BOOL) then 1 else
  if (t =? T_I16) || (t =? T_U16) then 2 else
  if (t =? T_I32) || (t =? T_U32) || (t =? T_F32) then 4 else 8.

Definition si_operand_b (w : Z) (fr : SimiFrame) : Z :=
  if Z.land (simi_flags w) FLAG_IMM =? 0 then (regs fr).[simi_rb_reg w] else u64 (simi_imm28 w).

Definition si_streq : string → string → bool := sidecar_streq.

(** [si_set_tag] stores 0 or 1. *)
Definition tag_value (val : Z) : Z := if val =? 0 then 0 else 1.

Definition si_trap (s : Z) (c : SimiContext) : outcome :=
  Stopped s (mkCtx (pc c) (frame_top c) (steps c) (result c) s (pc c) (frames c) (mem c) (obj c)).

Definition si_is_float (type : Z) : bool := (type =? T_F32) || (type =? T_F64).

(** [si_memcpy] between a little-endian word and the flat memory. *)
Fixpoint mem_read (n : nat) (m : gmap Z Z) (addr : Z) : Z :=
  match n with
  | O => 0
  | S n' => m.[addr] + 256 * mem_read n' m (addr + 1)
  end.
Fixpoint mem_write (n : nat) (m : gmap Z Z) (addr v : Z) : gmap Z Z :=
  match n with
  | O => m
  | S n' => mem_write n' m.[addr <- v mod 256] (addr + 1) (v / 256)
  end.

(** The bounds test of LOAD, STORE and the atomics, and the bytes they then touch. *)
Definition mem_out (addr wdt : Z) : bool := SIMI_MEM_SIZE <? u64 (addr + wdt).
Definition mem_within (addr wdt : Z) : bool := (0 <=? addr) && (addr + wdt <=? SIMI_MEM_SIZE).

Definition with_frame (fr : SimiFrame) (c : SimiContext) : SimiContext := set_frames (frames c).[frame_top c <- fr] c.
Definition next (c : SimiContext) : SimiContext := set_pc (u32 (pc c + 1)) c.

(** [fr->regs[rd] = v; si_set_tag(fr, rd, val); ctx->pc++; break;] *)
Definition put (rd v val : Z) (fr : SimiFrame) (c : SimiContext) : outcome :=
  Running (next (with_frame (set_reg rd v (tag_value val) fr) c)).

(** The relations of OP_CMP. *)
Definition si_relation (flags a b : Z) : option bool :=
  match flags with
  | 0 => Some (a =? b)
  | 1 => Some (negb (a =? b))
  | 2 => Some (s64 a <? s64 b)
  | 3 => Some (s64 a <=? s64 b)
  | 4 => Some (s64 b <? s64 a)
  | 5 => Some (s64 b <=? s64 a)
  | 6 => Some (a <? b)
  | 7 => Some (a <=? b)
  | 8 => Some (b <? a)
  | 9 => Some (b <=? a)
  | _ => None
  end.

(** The arguments of OP_CALL: registers 0 to 7 with their tags, the others cleared. *)
Definition call_frame (fr nf : SimiFrame) (top ret : Z) : SimiFrame :=
  for_up 8 0 (λ i f, set_reg i (regs fr).[i] (tag_value (cap_tag fr).[i]) f)
    (mkFrame ∅ ∅ (declared_nregs nf) ret top (f_pad nf)).

Section Interp.
Context `{World}.

(** The body of the switch for operation [op] of word [w] in frame [fr]. *)
Definition si_exec (o : SimiObject) (w : Z) (op : Opcode) (fr : SimiFrame) (c : SimiContext) : outcome :=
  let type := simi_type w in
  let rd := simi_rd w in
  let ra := simi_ra w in
  let a := (regs fr).[ra] in
  let b := si_operand_b w fr in
  let wdt := si_width_of type in
  match op with
  | OP_ENTER => Running (next (with_frame (set_declared (simi_rb_raw w) fr) c))
  | OP_LEAVE => Running (next c)
  | OP_ADD => if si_is_float type then si_trap SIMI_STATUS_TRAP_FLOAT_UNSUPPORTED c else put rd (u64 (a + b)) 0 fr c
  | OP_SUB => if si_is_float type then si_trap SIMI_STATUS_TRAP_FLOAT_UNSUPPORTED c else put rd (u64 (a - b)) 0 fr c
  | OP_MUL => if si_is_float type then si_trap SIMI_STATUS_TRAP_FLOAT_UNSUPPORTED c else put rd (u64 (a * b)) 0 fr c
  | OP_DIV =>
      if si_is_float type then si_trap SIMI_STATUS_TRAP_FLOAT_UNSUPPORTED c else
      if b =? 0 then si_trap SIMI_STATUS_TRAP_DIV_ZERO c else
      if simi_type_signed type then
        if (s64 a =? - 2 ^ 63) && (s64 b =? -1) then si_trap SIMI_STATUS_TRAP_DIV_OVERFLOW c
        else put rd (u64 (Z.quot (s64 a) (s64 b))) 0 fr c
      else put rd (a / b) 0 fr c
  | OP_MOD =>
      if si_is_float type then si_trap SIMI_STATUS_TRAP_MOD_FLOAT c else
      if b =? 0 then si_trap SIMI_STATUS_TRAP_MOD_ZERO c else
      if simi_type_signed type then
        if (s64 a =? - 2 ^ 63) && (s64 b =? -1) then put rd 0 0 fr c
        else put rd (u64 (Z.rem (s64 a) (s64 b))) 0 fr c
      else put rd (a mod b) 0 fr c
  | OP_AND => put rd (Z.land a b) 0 fr c
  | OP_OR => put rd (Z.lor a b) 0 fr c
  | OP_XOR => put rd (Z.lxor a b) 0 fr c
  | OP_NOT => put rd (u64_not a) 0 fr c
  | OP_NEG => if si_is_float type then si_trap SIMI_STATUS_TRAP_FLOAT_UNSUPPORTED c else put rd (u64 (- s64 a)) 0 fr c
  | OP_SHL => put rd (u64 (Z.shiftl a (Z.land b 0x3F))) 0 fr c
  | OP_SHR => put rd (Z.shiftr a (Z.land b 0x3F)) 0 fr c
  | OP_SAR =>
      if simi_type_signed type then put rd (u64 (Z.shiftr (s64 a) (Z.land b 0x3F))) 0 fr c
      else si_trap SIMI_STATUS_TRAP_SAR_UNSIGNED c
  | OP_MOV => put rd a (cap_tag fr).[ra] fr c
  | OP_LOADI => put rd (u64 (simi_imm28 w)) 0 fr c
  | OP_LOADI64 =>
      if num_literals o <=? simi_rb_raw w then si_trap SIMI_STATUS_TRAP_LITERAL_RANGE c
      else put rd (literals o).[simi_rb_raw w] 0 fr c
  | OP_CMP =>
      if si_is_float type then si_trap SIMI_STATUS_TRAP_FLOAT_UNSUPPORTED c else
      match si_relation (simi_flags w) a (regs fr).[simi_rb_reg w] with
      | Some r => put rd (if r then 1 else 0) 0 fr c
      | None => si_trap SIMI_STATUS_TRAP_BAD_RELATION c
      end
  | OP_BR => Running (set_pc (u32 (pc c + 1 + simi_imm28 w)) c)
  | OP_BC =>
      let taken := if Z.land (simi_flags w) FLAG_INVERT =? 0 then negb (a =? 0) else a =? 0 in
      Running (if taken then set_pc (u32 (pc c + 1 + simi_imm28 w)) c else next c)
  | OP_CALL =>
      if SIMI_MAX_FRAMES <=? frame_top c + 1 then si_trap SIMI_STATUS_TRAP_CALL_OVERFLOW c else
      let top := frame_top c in
      let nf := call_frame fr (frames c).[top + 1] top (u32 (pc c + 1)) in
      Running (set_pc (u32 (pc c + 1 + simi_imm28 w)) (set_top (top + 1) (set_frames (frames c).[top + 1 <- nf] c)))
  | OP_JMPR =>
      if num_instr o <=? a then si_trap SIMI_STATUS_TRAP_JMPR_RANGE c else Running (set_pc (u32 a) c)
  | OP_RET =>
      if frame_top c =? 0 then Stopped SIMI_STATUS_HALTED (set_halted (regs (frames c).[0]).[0] c) else
      let top := caller_frame fr in
      if (0 <=? top) && (top <? SIMI_MAX_FRAMES) then
        Running (set_pc (return_pc fr)
                   (set_top top (set_frames (frames c).[top <- set_reg 0 (regs fr).[0] (tag_value (cap_tag fr).[0]) (frames c).[top]] c)))
      else Wild
  | OP_LOAD =>
      let addr := u64 (a + u64 (simi_imm28 w)) in
      if mem_out addr wdt then si_trap SIMI_STATUS_TRAP_MEM_BOUNDS c else
      if mem_within addr wdt then
        let v := mem_read (Z.to_nat wdt) (mem c) addr in
        let v' := if simi_type_signed type && (wdt <? 8)
                  then let shift := 64 - wdt * 8 in u64 (Z.shiftr (s64 (u64 (Z.shiftl v shift))) shift)
                  else v in
        put rd v' 0 fr c
      else Wild
  | OP_STORE =>
      let addr := u64 (a + u64 (simi_imm28 w)) in
      if mem_out addr wdt then si_trap SIMI_STATUS_TRAP_MEM_BOUNDS c else
      if mem_within addr wdt then Running (next (set_mem (mem_write (Z.to_nat wdt) (mem c) addr (regs fr).[rd]) c))
      else Wild
  | OP_CAS | OP_ATOMIC_ADD =>
      if negb (Z.land (simi_flags w) FLAG_IMM =? 0) then si_trap SIMI_STATUS_TRAP_BAD_OPCODE c else
      if negb (wdt =? 4) && negb (wdt =? 8) then si_trap SIMI_STATUS_TRAP_BAD_OPCODE c else
      if mem_out a wdt then si_trap SIMI_STATUS_TRAP_MEM_BOUNDS c else
      if mem_within a wdt then
        let old := mem_read (Z.to_nat wdt) (mem c) a in
        let rb := (regs fr).[simi_rb_reg w] in
        let m := match op with
                 | OP_CAS =>
                     let mask := if wdt =? 8 then 2 ^ 64 - 1 else 0xFFFFFFFF in
                     if old =? Z.land rb mask then mem_write (Z.to_nat wdt) (mem c) a (regs fr).[rd] else mem c
                 | _ => mem_write (Z.to_nat wdt) (mem c) a (u64 (old + rb))
                 end in
        put rd old 0 fr (set_mem m c)
      else Wild
  | OP_LEA => put rd (u64 (a + u64 (simi_imm28 w))) 0 fr c
  | OP_PTRADD => put rd (u64 (a + b * wdt)) 0 fr c
  | OP_RESOLVE =>
      if num_names o <=? simi_rb_raw w then si_trap SIMI_STATUS_TRAP_NAME_RANGE c else
      let result := simi_rt_resolve (steps c) (pool_names o).[simi_rb_raw w] in
      put rd result result fr c
  | OP_OBJSIZE => put rd (if (cap_tag fr).[ra] =? 0 then 0 else simi_rt_objsize (steps c) a) 0 fr c
  | OP_OBJTYPE => put rd (if (cap_tag fr).[ra] =? 0 then 0xFFFFFFFF else simi_rt_objtype (steps c) a) 0 fr c
  end.

(** One turn of the loop of [simi_interp_run]. *)
Definition si_step (c : SimiContext) : outcome :=
  match obj c with
  | None => Wild
  | Some o =>
      if num_instr o <=? pc c then si_trap SIMI_STATUS_TRAP_PC_RANGE c else
      if (0 <=? frame_top c) && (frame_top c <? SIMI_MAX_FRAMES) then
        let w := (instr o).[pc c] in
        let fr := (frames c).[frame_top c] in
        let c := set_steps (u64 (steps c + 1)) c in
        match opcode_of (simi_op w) with
        | Some op => si_exec o w op fr c
        | None => si_trap SIMI_STATUS_TRAP_BAD_OPCODE c
        end
      else Wild
  end.

Fixpoint si_loop (budget : nat) (c : SimiContext) : outcome :=
  match budget with
  | O => Stopped SIMI_STATUS_OK c
  | S n =>
      match si_step c with
      | Running c' => si_loop n c'
      | out => out
      end
  end.

(** [simi_interp_run]: the status returned and the context left behind. *)
Definition simi_interp_run (c : SimiContext) (budget : nat) : outcome :=
  if negb (status c =? SIMI_STATUS_OK) then Stopped (status c) c else
  if frame_top c <? 0 then si_trap SIMI_STATUS_TRAP_PC_RANGE c else
  si_loop budget c.

(** [simi_interp_init]: the return value and the new context. *)
Definition simi_interp_init (o : option SimiObject) (name : cstr) : Z * SimiContext :=
  let zero := mkCtx 0 0 0 0 SIMI_STATUS_OK 0 ∅ ∅ o in
  let refused := mkCtx 0 0 0 0 SIMI_STATUS_TRAP_PC_RANGE 0 ∅ ∅ o in
  match o, name with
  | Some ob, Some nm =>
      let entry_pc := match find_up (Z.to_nat (num_entries ob)) 0 (λ i, si_streq (entry_name (entries ob).[i]) nm) with
                      | Some i => entry_offset (entries ob).[i]
                      | None => 0xFFFFFFFF
                      end in
      if entry_pc =? 0xFFFFFFFF then (1, refused)
      else (0, mkCtx entry_pc 0 0 0 SIMI_STATUS_OK 0 (∅ : gmap Z SimiFrame).[0 <- mkFrame ∅ ∅ 0 0 (-1) 0] ∅ o)
  | _, _ => (1, refused)
  end.

End Interp.

(** [simi_interp_isa_fingerprint] *)
Definition simi_interp_isa_fingerprint : Z :=
  Z.lor (Z.lor (Z.lor (Z.lor (Z.lor (Z.lor (Z.lor
    (Z.shiftl OP_COUNT 56) (Z.shiftl (op_number OP_JMPR) 48)) (Z.shiftl (op_number OP_RESOLVE) 40)) (Z.shiftl (op_number OP_RET) 32))
    (Z.shiftl T_OBJREF 24)) (Z.shiftl REL_GEU 16)) (Z.shiftl SIMI_MAX_NAME 8)) FLAG_IMM.
