(* ===== verification/SimiSpec.v ===== *)
(** The SIMI interpreter keeps its context well formed, its capability tags genuine and its
    accesses inside the context, up to the addresses whose bounds test wraps around. *)

From stdpp Require Import base gmap list list_numbers.
From Stdlib Require Import ZArith Lia Bool String.
From S2P Require Import Prelude Sidecar SimiInterp.
#[local] Open Scope Z_scope.
#[local] Open Scope carr_scope.

Definition w64 (x : Z) : Prop := 0 ≤ x < 2 ^ 64.
Definition u32_range (x : Z) : Prop := 0 ≤ x < 2 ^ 32.

(** * Words *)

Create HintDb simi.

Lemma u64_w64 x : w64 (u64 x).
Proof. apply Z.mod_pos_bound. lia. Qed.
Lemma u32_in_range x : u32_range (u32 x).
Proof. apply Z.mod_pos_bound. lia. Qed.

Lemma w64_bits x : 0 ≤ x → (∀ n, 64 ≤ n → Z.testbit x n = false) → w64 x.
Proof.
  intros H0 Hb. split; [done|]. destruct (Z.lt_ge_cases x (2 ^ 64)) as [|Hge]; [done|].
  assert (64 ≤ Z.log2 x) as Hl by (apply Z.log2_le_pow2; lia). specialize (Hb _ Hl). rewrite Z.bit_log2 in Hb; [done|lia].
Qed.

Lemma land_w64 a b : w64 a → w64 b → w64 (Z.land a b).
Proof.
  intros Ha Hb. apply w64_bits; [apply Z.land_nonneg; unfold w64 in *; lia|]. intros n Hn.
  by rewrite Z.land_spec, (testbit_high a 64).
Qed.
Lemma lor_w64 a b : w64 a → w64 b → w64 (Z.lor a b).
Proof.
  intros Ha Hb. apply w64_bits; [apply Z.lor_nonneg; unfold w64 in *; lia|]. intros n Hn.
  by rewrite Z.lor_spec, (testbit_high a 64), (testbit_high b 64).
Qed.
Lemma lxor_w64 a b : w64 a → w64 b → w64 (Z.lxor a b).
Proof.
  intros Ha Hb. apply w64_bits; [apply Z.lxor_nonneg; unfold w64 in *; lia|]. intros n Hn.
  by rewrite Z.lxor_spec, (testbit_high a 64), (testbit_high b 64).
Qed.
Lemma not_w64 a : w64 a → w64 (u64_not a).
Proof. intros Ha. apply lxor_w64; [done|]. unfold w64. lia. Qed.
Lemma div_w64 a b : w64 a → w64 b → b ≠ 0 → w64 (a / b).
Proof.
  unfold w64. intros Ha Hb Hne. split; [apply Z.div_pos; lia|]. apply Z.le_lt_trans with a; [|lia].
  apply Z.div_le_upper_bound; [lia|]. nia.
Qed.
Lemma mod_w64 a b : w64 a → w64 b → b ≠ 0 → w64 (a mod b).
Proof. unfold w64. intros Ha Hb Hne. pose proof (Z.mod_pos_bound a b). lia. Qed.
Lemma shiftr_w64 a n : w64 a → 0 ≤ n → w64 (Z.shiftr a n).
Proof.
  unfold w64. intros Ha Hn. rewrite Z.shiftr_div_pow2 by done. assert (0 < 2 ^ n) by (apply Z.pow_pos_nonneg; lia).
  split; [apply Z.div_pos; lia|]. apply Z.le_lt_trans with a; [|lia]. apply Z.div_le_upper_bound; [done|]. nia.
Qed.
Lemma bool_w64 (b : bool) : w64 (if b then 1 else 0).
Proof. unfold w64. destruct b; lia. Qed.

Lemma land_shift_nonneg b : 0 ≤ Z.land b 0x3F.
Proof. apply Z.land_nonneg. right. lia. Qed.

(** The statuses are small numbers. *)
#[export] Hint Extern 1 (u32_range _) => (split; [by vm_compute|by vm_compute]) : simi.
#[export] Hint Resolve u64_w64 u32_in_range land_w64 lor_w64 lxor_w64 not_w64 div_w64 mod_w64 shiftr_w64 bool_w64 land_shift_nonneg : simi.

Lemma mem_read_bound n : ∀ m addr, (∀ a, 0 ≤ m.[a] < 256) → 0 ≤ mem_read n m addr < 256 ^ Z.of_nat n.
Proof.
  induction n as [|n IH]; intros m addr Hm; [cbn; lia|]. cbn [mem_read]. specialize (IH m (addr + 1) Hm). specialize (Hm addr).
  rewrite Nat2Z.inj_succ, Z.pow_succ_r by lia. lia.
Qed.

Lemma mem_write_bytes n : ∀ m addr v, (∀ a, 0 ≤ m.[a] < 256) → ∀ a, 0 ≤ (mem_write n m addr v).[a] < 256.
Proof.
  induction n as [|n IH]; intros m addr v Hm; [done|]. cbn [mem_write]. apply IH. intros a. rewrite aget_upd.
  destruct (addr =? a); [apply Z.mod_pos_bound; lia|apply Hm].
Qed.

Lemma width_cases t : si_width_of t = 1 ∨ si_width_of t = 2 ∨ si_width_of t = 4 ∨ si_width_of t = 8.
Proof. unfold si_width_of. repeat case_match; lia. Qed.

Lemma mem_read_w64 t m addr : (∀ a, 0 ≤ m.[a] < 256) → w64 (mem_read (Z.to_nat (si_width_of t)) m addr).
Proof.
  intros Hm. pose proof (mem_read_bound (Z.to_nat (si_width_of t)) m addr Hm) as Hb. pose proof (width_cases t) as Hw. unfold w64.
  rewrite Z2Nat.id in Hb by lia. assert (256 ^ si_width_of t ≤ 256 ^ 8) by (apply Z.pow_le_mono_r; lia). lia.
Qed.

(** * Well-formed programs, kernels and contexts *)

Record program_ok (o : SimiObject) : Prop := {
  po_instr : ∀ i, w64 (instr o).[i];
  po_literals : ∀ i, w64 (literals o).[i];
  po_count : u32_range (num_instr o);
  po_entries : ∀ i, u32_range (entry_offset (entries o).[i])
}.

(** The look-ups return words. *)
Class WorldOk `{World} : Prop := {
  vaddr_w64 : ∀ t i, w64 (o_base_vaddr (object_catalog t).[i]);
  type_w64 : ∀ t i, w64 (o_type (object_catalog t).[i])
}.

(** Frame [i] of the call stack: its caller is the frame below. *)
Record frame_ok (i : Z) (f : SimiFrame) : Prop := {
  fo_regs : ∀ r, w64 (regs f).[r];
  fo_tags : ∀ r, (cap_tag f).[r] = 0 ∨ (cap_tag f).[r] = 1;
  fo_caller : caller_frame f = i - 1;
  fo_return : u32_range (return_pc f)
}.

Record wf (o : SimiObject) (c : SimiContext) : Prop := {
  wf_obj : obj c = Some o;
  wf_pc : u32_range (pc c);
  wf_top : 0 ≤ frame_top c < SIMI_MAX_FRAMES;
  wf_frames : ∀ i, 0 ≤ i ≤ frame_top c → frame_ok i (frames c).[i];
  wf_mem : ∀ a, 0 ≤ (mem c).[a] < 256;
  wf_words : w64 (steps c) ∧ w64 (result c) ∧ u32_range (status c) ∧ u32_range (trap_pc c)
}.

(** An outcome whose context, if it has one, satisfies [P]. *)
Definition after (P : SimiContext → Prop) (out : outcome) : Prop :=
  match out with Running c | Stopped _ c => P c | Wild => True end.

Tactic Notation "ctx_simpl" := cbn [pc frame_top steps result status trap_pc frames mem obj set_pc set_top set_steps set_frames set_mem set_halted next with_frame].
Tactic Notation "ctx_simpl" "in" hyp(H) := cbn [pc frame_top steps result status trap_pc frames mem obj set_pc set_top set_steps set_frames set_mem set_halted next with_frame] in H.

Section Invariant.
Context `{HW : World} {HWok : WorldOk}.

(** What tagged values satisfy after so many instructions: what a name of the program resolves to,
    from then on, where the instruction count is in range. *)
Context (minted : SimiObject → Z → Z → Prop) (ok : Z → Prop).
Context (minted_later : ∀ o s v, ok s → minted o s v → minted o (u64 (s + 1)) v).
Context (minted_now : ∀ o s k, ok s → 0 ≤ k < num_names o → simi_rt_resolve (u64 (s + 1)) (pool_names o).[k] ≠ 0 →
  minted o (u64 (s + 1)) (simi_rt_resolve (u64 (s + 1)) (pool_names o).[k])).

Definition genuine (o : SimiObject) (c : SimiContext) : Prop :=
  ∀ i r, 0 ≤ i ≤ frame_top c → (cap_tag (frames c).[i]).[r] ≠ 0 → minted o (steps c) (regs (frames c).[i]).[r].

Definition frame_genuine (o : SimiObject) (s : Z) (f : SimiFrame) : Prop :=
  ∀ r, (cap_tag f).[r] ≠ 0 → minted o s (regs f).[r].

Lemma tag_value_01 v : tag_value v = 0 ∨ tag_value v = 1.
Proof. unfold tag_value. destruct (v =? 0); auto. Qed.
Lemma tag_value_ne v : tag_value v ≠ 0 → v ≠ 0.
Proof. unfold tag_value. destruct (Z.eqb_spec v 0); [done|done]. Qed.

Record inv (o : SimiObject) (c : SimiContext) : Prop := { inv_wf : wf o c; inv_genuine : genuine o c }.

Lemma set_reg_ok i r v t f : frame_ok i f → w64 v → frame_ok i (set_reg r v (tag_value t) f).
Proof.
  intros [F1 F2 F3 F4] Hv. split; cbn; [..|done|done]; intros r'; rewrite aget_upd; destruct (r =? r'); auto using tag_value_01.
Qed.

Lemma set_reg_genuine o s r v t f : frame_genuine o s f → (t ≠ 0 → minted o s v) → frame_genuine o s (set_reg r v (tag_value t) f).
Proof.
  intros Hf Hv r'. cbn. rewrite !aget_upd. destruct (r =? r'); [|apply Hf]. intros Ht. by apply Hv, tag_value_ne.
Qed.

Lemma inv_with_frame o c fr : inv o c → frame_ok (frame_top c) fr → frame_genuine o (steps c) fr → inv o (with_frame fr c).
Proof.
  intros [[W1 W2 W3 W4 W5 W6] G] Hok Hg. split; [split; try done|]; cbn.
  - intros i Hi. rewrite aget_upd. destruct (Z.eqb_spec (frame_top c) i) as [<-|]; [done|by apply W4].
  - intros i r Hi. cbn. rewrite aget_upd. destruct (Z.eqb_spec (frame_top c) i) as [<-|]; [apply Hg|by apply G].
Qed.

Lemma inv_set_pc o c v : inv o c → u32_range v → inv o (set_pc v c).
Proof. intros [[W1 W2 W3 W4 W5 W6] G] Hv. by split; [split|]. Qed.

Lemma inv_next o c : inv o c → inv o (next c).
Proof. intros Hi. apply inv_set_pc; auto with simi. Qed.

Lemma inv_set_mem o c m : inv o c → (∀ a, 0 ≤ m.[a] < 256) → inv o (set_mem m c).
Proof. intros [[W1 W2 W3 W4 W5 W6] G] Hv. by split; [split|]. Qed.

Lemma inv_trap o c s : inv o c → u32_range s → after (inv o) (si_trap s c).
Proof.
  intros [[W1 W2 W3 W4 W5 W6] G] Hs. split; [split; try done|done]. cbn. tauto.
Qed.

Lemma inv_steps o c : inv o c → ok (steps c) → inv o (set_steps (u64 (steps c + 1)) c).
Proof.
  intros [[W1 W2 W3 W4 W5 W6] G] Hs. split; [split; try done; ctx_simpl; split; [apply u64_w64|tauto]|].
  intros i r Hi Ht. apply minted_later; [done|]. by apply G.
Qed.

Lemma top_frame o c : inv o c → frame_ok (frame_top c) (frames c).[frame_top c] ∧ frame_genuine o (steps c) (frames c).[frame_top c].
Proof. intros [[W1 W2 W3 W4 W5 W6] G]. split; [apply W4; lia|]. intros r. apply G. lia. Qed.

Lemma inv_put o c rd v t : inv o c → w64 v → (t ≠ 0 → minted o (steps c) v) →
  after (inv o) (put rd v t (frames c).[frame_top c] c).
Proof.
  intros Hi Hv Ht. destruct (top_frame o c Hi). apply inv_next, inv_with_frame; [done|by apply set_reg_ok|by apply set_reg_genuine].
Qed.

(** A register that is written untagged. *)
Lemma inv_put0 o c rd v : inv o c → w64 v → after (inv o) (put rd v 0 (frames c).[frame_top c] c).
Proof. intros. by apply inv_put. Qed.

Lemma operand_w64 w fr : (∀ r, w64 (regs fr).[r]) → w64 (si_operand_b w fr).
Proof. intros Hr. unfold si_operand_b. case_match; [apply Hr|apply u64_w64]. Qed.

Lemma call_frame_spec fr nf top ret : let f := call_frame fr nf top ret in
  (∀ r, (regs f).[r] = if (0 <=? r) && (r <? 8) then (regs fr).[r] else 0) ∧
  (∀ r, (cap_tag f).[r] = if (0 <=? r) && (r <? 8) then tag_value (cap_tag fr).[r] else 0) ∧
  return_pc f = ret ∧ caller_frame f = top ∧ declared_nregs f = declared_nregs nf ∧ f_pad f = f_pad nf.
Proof.
  cbv zeta. unfold call_frame.
  apply (for_up_ind (λ j f, (∀ r, (regs f).[r] = if (0 <=? r) && (r <? j) then (regs fr).[r] else 0) ∧
    (∀ r, (cap_tag f).[r] = if (0 <=? r) && (r <? j) then tag_value (cap_tag fr).[r] else 0) ∧
    return_pc f = ret ∧ caller_frame f = top ∧ declared_nregs f = declared_nregs nf ∧ f_pad f = f_pad nf) 8 0).
  - cbn [regs cap_tag]. repeat split; intros r; rewrite aget_empty; destruct (Z.leb_spec 0 r), (Z.ltb_spec r 0); try lia; done.
  - intros j f Hj (Hr & Ht & Hrest). split; [|split; [|exact Hrest]]; intros r; cbn; rewrite aget_upd, ?Hr, ?Ht;
      destruct (Z.eqb_spec j r), (Z.leb_spec 0 r), (Z.ltb_spec r j), (Z.ltb_spec r (j + 1)); try lia; by subst.
Qed.

Lemma inv_call o c pc' : inv o c → frame_top c + 1 < SIMI_MAX_FRAMES → u32_range pc' →
  inv o (set_pc pc' (set_top (frame_top c + 1) (set_frames (frames c).[frame_top c + 1 <-
    call_frame (frames c).[frame_top c] (frames c).[frame_top c + 1] (frame_top c) (u32 (pc c + 1))] c))).
Proof.
  intros Hi Hlt Hpc. destruct (top_frame o c Hi) as [[T1 T2 T3 T4] Tg]. apply inv_set_pc; [|done]. destruct Hi as [[W1 W2 W3 W4 W5 W6] G].
  destruct (call_frame_spec (frames c).[frame_top c] (frames c).[frame_top c + 1] (frame_top c) (u32 (pc c + 1))) as (S1 & S2 & S3 & S4 & _).
  split; [split; ctx_simpl; try done; [lia|]|]; intros i; ctx_simpl; rewrite aget_upd.
  - intros Hi. destruct (Z.eqb_spec (frame_top c + 1) i) as [<-|]; [|apply W4; lia].
    split; [intros r; rewrite S1|intros r; rewrite S2|rewrite S4; lia|rewrite S3; auto with simi].
    + case_match; [apply T1|unfold w64; lia].
    + case_match; [apply tag_value_01|by left].
  - intros r Hi. destruct (Z.eqb_spec (frame_top c + 1) i) as [<-|]; [|apply G; lia].
    rewrite S1, S2. case_match; [|done]. intros Ht%tag_value_ne. by apply Tg.
Qed.

Lemma inv_ret o c : inv o c → frame_top c ≠ 0 → let fr := (frames c).[frame_top c] in let top := caller_frame fr in
  top = frame_top c - 1 ∧
  inv o (set_pc (return_pc fr)
    (set_top top (set_frames (frames c).[top <- set_reg 0 (regs fr).[0] (tag_value (cap_tag fr).[0]) (frames c).[top]] c))).
Proof.
  intros Hi Hne. cbv zeta. destruct (top_frame o c Hi) as [[T1 T2 T3 T4] Tg]. split; [done|]. apply inv_set_pc; [|done]. rewrite T3.
  destruct Hi as [[W1 W2 W3 W4 W5 W6] G]. assert (0 ≤ frame_top c - 1 ≤ frame_top c) as Hr by lia. pose proof (W4 _ Hr) as Wc.
  split; [split; ctx_simpl; try done; [lia|]|]; intros i; ctx_simpl; rewrite aget_upd.
  - intros Hi. destruct (Z.eqb_spec (frame_top c - 1) i) as [<-|]; [by apply set_reg_ok|apply W4; lia].
  - intros r Hi. destruct (Z.eqb_spec (frame_top c - 1) i) as [<-|]; [|apply G; lia].
    apply set_reg_genuine; [|apply Tg]. intros r'. apply G. lia.
Qed.

Lemma resolve_w64 t name : w64 (simi_rt_resolve t name).
Proof. unfold simi_rt_resolve. repeat case_match; try apply vaddr_w64; unfold w64; lia. Qed.
Lemma objsize_w64 t v : w64 (simi_rt_objsize t v).
Proof. unfold simi_rt_objsize. repeat case_match; auto with simi; unfold w64; lia. Qed.
Lemma objtype_w64 t v : w64 (simi_rt_objtype t v).
Proof. unfold simi_rt_objtype. repeat case_match; try apply type_w64; unfold w64; lia. Qed.

Lemma rb_raw_nonneg w : 0 ≤ simi_rb_raw w.
Proof. apply Z.land_nonneg. right. lia. Qed.

#[local] Hint Resolve resolve_w64 objsize_w64 objtype_w64 operand_w64 mem_read_w64 inv_trap inv_next inv_set_pc : simi.

Lemma inv_store o c n addr v : inv o c → inv o (set_mem (mem_write n (mem c) addr v) c).
Proof. intros Hi. apply inv_set_mem; [done|]. apply mem_write_bytes, (wf_mem _ _ (inv_wf _ _ Hi)). Qed.

Lemma inv_atomic o c rd v m : inv o c → w64 v → (m = mem c ∨ ∃ n addr x, m = mem_write n (mem c) addr x) →
  after (inv o) (put rd v 0 (frames c).[frame_top c] (set_mem m c)).
Proof.
  intros Hi Hv Hm. apply (inv_put0 o (set_mem m c)); [|done].
  destruct Hm as [->|(n & addr & x & ->)]; [|by apply inv_store]. apply inv_set_mem; [done|]. apply (wf_mem _ _ (inv_wf _ _ Hi)).
Qed.

(** Deciding the guards of an operation, each refusal a trap. *)
Ltac guards := repeat match goal with
  | |- after _ (if ?a <=? ?b then _ else _) => destruct (Z.leb_spec a b)
  | |- after _ (if ?a =? ?b then _ else _) => destruct (Z.eqb_spec a b)
  | |- after _ (if ?b then _ else _) => destruct b eqn:?
  | |- after _ (si_trap _ _) => apply inv_trap; auto with simi
  end.

Lemma exec_inv o w op c : program_ok o → inv o c →
  (∀ k, 0 ≤ k < num_names o → simi_rt_resolve (steps c) (pool_names o).[k] ≠ 0 → minted o (steps c) (simi_rt_resolve (steps c) (pool_names o).[k])) →
  after (inv o) (si_exec o w op (frames c).[frame_top c] c).
Proof.
  intros Ho Hi Hs. destruct (top_frame o c Hi) as [Tok Tg]. pose proof (fo_regs _ _ Tok) as Tr. pose proof (wf_mem _ _ (inv_wf _ _ Hi)) as Wm.
  assert (w64 (si_operand_b w (frames c).[frame_top c])) as Hb by auto with simi.
  destruct op; cbn [si_exec]; cbv zeta; guards; try (apply inv_put0; [done|]; (case_match || idtac); auto with simi; unfold w64; lia).
  - apply inv_put; [done..|apply Tg].
  - apply inv_put0; [done|]. apply Ho.
  - destruct (si_relation _ _ _); [|apply inv_trap; auto with simi]. apply inv_put0; auto with simi.
  - apply inv_set_pc; auto with simi.
  - cbn. case_match; [apply inv_set_pc|apply inv_next]; auto with simi.
  - apply inv_call; auto with simi.
  - destruct Hi as [[W1 W2 W3 W4 W5 W6] G]. split; [split; try done|done]. ctx_simpl. pose proof (fo_regs _ _ (W4 0 ltac:(lia)) 0). assert (u32_range SIMI_STATUS_HALTED) by auto with simi. tauto.
  - by apply inv_ret.
  - done.
  - done.
  - apply inv_next, inv_store, Hi.
  - done.
  - apply inv_next, inv_with_frame; [done| |exact Tg]. by destruct Tok.
  - by apply inv_next.
  - apply inv_put; [done|auto with simi|]. intros Hne. pose proof (rb_raw_nonneg w). apply Hs; [lia|done].
  - apply inv_set_pc; auto with simi.
  - apply inv_atomic; auto with simi. match goal with |- context [if ?b then mem_write _ _ _ _ else _] => destruct b end; eauto.
  - done.
  - apply inv_atomic; eauto with simi.
  - done.
Qed.

(** An operation retires no other instruction, and leaves a running context unstopped. *)
Definition kept (c : SimiContext) (out : outcome) : Prop :=
  match out with
  | Running c' => steps c' = steps c ∧ status c' = status c ∧ (0 ≤ frame_top c → 0 ≤ frame_top c')
  | Stopped s c' => steps c' = steps c ∧ status c' = s ∧ s ≠ SIMI_STATUS_OK
  | Wild => True
  end.

Lemma exec_kept o w op fr c : kept c (si_exec o w op fr c).
Proof.
  destruct op; cbn [si_exec]; cbv zeta; repeat match goal with |- kept _ (if ?b then _ else _) => destruct b eqn:? end;
    try done; try (by repeat split); try (by destruct (si_relation _ _ _)); try (repeat split; ctx_simpl; lia).
  cbn. by case_match.
Qed.

Lemma step_inv o c : program_ok o → inv o c → ok (steps c) → after (inv o) (si_step c).
Proof.
  intros Ho Hi Hs. unfold si_step. rewrite (wf_obj _ _ (inv_wf _ _ Hi)). case_match; [apply inv_trap; auto with simi|].
  case_match; [|done]. pose proof (inv_steps o c Hi Hs) as Hi'. destruct (opcode_of _) as [op|]; [|apply inv_trap; auto with simi].
  apply (exec_inv o (instr o).[pc c] op _ Ho Hi'). intros k. by apply minted_now.
Qed.

(** [n] instructions that retire one after the other. *)
Inductive goes : nat → SimiContext → SimiContext → Prop :=
| goes_0 c : goes 0 c c
| goes_S n c c1 c2 : si_step c = Running c1 → goes n c1 c2 → goes (S n) c c2.

Lemma loop_inv o n : ∀ c, program_ok o → inv o c → (∀ m c', (m < n)%nat → goes m c c' → ok (steps c')) → after (inv o) (si_loop n c).
Proof.
  induction n as [|n IH]; intros c Ho Hi Hok; [done|]. cbn [si_loop].
  pose proof (step_inv o c Ho Hi (Hok 0%nat c ltac:(lia) (goes_0 c))) as HS.
  destruct (si_step c) as [c'|s c'|] eqn:E; [|done..]. apply IH; [done..|]. intros m c'' Hm Hg. apply (Hok (S m)); [lia|by apply goes_S with c'].
Qed.

Lemma init_inv o name c : program_ok o → simi_interp_init (Some o) name = (0, c) → inv o c ∧ steps c = 0 ∧ status c = SIMI_STATUS_OK.
Proof.
  intros Ho E. unfold simi_interp_init in E. destruct name as [nm|]; [|done]. destruct (find_up _ _ _) as [i|]; [|done].
  destruct (_ =? _); [done|]. injection E as <-. split; [|done]. split; [split|]; ctx_simpl.
  - done.
  - apply Ho.
  - unfold SIMI_MAX_FRAMES. lia.
  - intros j Hj. assert (j = 0) as -> by lia. rewrite aget_upd_eq. split; cbn; try done; try (by left); unfold w64, u32_range; lia.
  - intros a. rewrite aget_empty. unfold czero, CZero_Z. lia.
  - unfold w64, u32_range. repeat split; by vm_compute.
  - intros j r Hj. ctx_simpl in Hj. assert (j = 0) as -> by lia. ctx_simpl. by rewrite aget_upd_eq.
Qed.

End Invariant.

Section Confined.
Context `{HW : World} {HWok : WorldOk}.

(** Well-formedness alone: nothing is asked of tagged values. *)
Definition plain (_ : SimiObject) (_ _ : Z) : Prop := True.

Lemma wf_plain o c : wf o c → inv plain o c.
Proof. by intros. Qed.

Lemma step_wf o c : program_ok o → wf o c → after (wf o) (si_step c).
Proof.
  intros Ho Hw. pose proof (step_inv plain (λ _, True) ltac:(done) ltac:(done) o c Ho (wf_plain o c Hw) I) as HS.
  by destruct (si_step c); [destruct HS..|].
Qed.

Lemma loop_wf o n c : program_ok o → wf o c → after (wf o) (si_loop n c).
Proof.
  intros Ho Hw. pose proof (loop_inv plain (λ _, True) ltac:(done) ltac:(done) o n c Ho (wf_plain o c Hw) ltac:(done)) as HS.
  by destruct (si_loop n c); [destruct HS..|].
Qed.

Lemma init_wf o name c : program_ok o → simi_interp_init (Some o) name = (0, c) → wf o c ∧ steps c = 0 ∧ status c = SIMI_STATUS_OK.
Proof. intros Ho E. destruct (init_inv plain o name c Ho E) as [[Hw _] H]. done. Qed.

(** * Accesses outside the memory *)

(** The next instruction is a memory operation whose last byte lies at or beyond 2{^64}, where the
    sum of the bounds test wraps around. *)
Definition wraps (o : SimiObject) (c : SimiContext) : Prop :=
  pc c < num_instr o ∧
  let w := (instr o).[pc c] in
  let a := (regs (frames c).[frame_top c]).[simi_ra w] in
  let wdt := si_width_of (simi_type w) in
  match opcode_of (simi_op w) with
  | Some OP_LOAD | Some OP_STORE => 2 ^ 64 - wdt ≤ u64 (a + u64 (simi_imm28 w))
  | Some OP_CAS | Some OP_ATOMIC_ADD => Z.land (simi_flags w) FLAG_IMM = 0 ∧ (wdt = 4 ∨ wdt = 8) ∧ 2 ^ 64 - wdt ≤ a
  | _ => False
  end.

Lemma mem_bounds addr t : w64 addr → let wdt := si_width_of t in
  (2 ^ 64 - wdt ≤ addr ∧ mem_out addr wdt = false ∧ mem_within addr wdt = false) ∨
  (addr < 2 ^ 64 - wdt ∧ mem_out addr wdt = negb (mem_within addr wdt)).
Proof.
  intros Ha. cbv zeta. pose proof (width_cases t) as Hw. unfold mem_out, mem_within, w64, SIMI_MEM_SIZE in *.
  destruct (Z.le_gt_cases (2 ^ 64 - si_width_of t) addr) as [Hle|Hlt]; [left|right]; (split; [done|]).
  - unfold u64. replace (addr + si_width_of t) with (addr + si_width_of t - 2 ^ 64 + 1 * 2 ^ 64) at 1 by lia.
    rewrite Z.mod_add by lia. rewrite Z.mod_small by lia. lia.
  - rewrite u64_small by lia. lia.
Qed.

(** The access is made outside the memory exactly there. *)
Lemma access_wild addr t (s : Z) c x : w64 addr → let wdt := si_width_of t in x ≠ Wild →
  (if mem_out addr wdt then si_trap s c else if mem_within addr wdt then x else Wild) = Wild ↔ 2 ^ 64 - wdt ≤ addr.
Proof.
  intros Ha. cbv zeta. intros Hx. destruct (mem_bounds addr t Ha) as [(H1 & -> & ->)|(H1 & ->)]; [done|].
  split; [|lia]. by destruct (mem_within addr (si_width_of t)).
Qed.

Lemma atomic_wild flags wdt (s : Z) c x (P : Prop) : (x = Wild ↔ P) →
  (if negb (flags =? 0) then si_trap s c else if negb (wdt =? 4) && negb (wdt =? 8) then si_trap s c else x) = Wild ↔
  flags = 0 ∧ (wdt = 4 ∨ wdt = 8) ∧ P.
Proof.
  intros HP. destruct (Z.eqb_spec flags 0); cbn [negb]; [|split; [done|by intros [? _]]].
  destruct (Z.eqb_spec wdt 4), (Z.eqb_spec wdt 8); cbn [negb andb]; rewrite ?HP; try tauto. split; [done|]. intros (_ & ? & _). lia.
Qed.

Lemma step_wild o c : wf o c → si_step c = Wild ↔ wraps o c.
Proof.
  intros [W1 W2 W3 W4 W5 W6]. unfold si_step, wraps. rewrite W1. destruct (Z.leb_spec (num_instr o) (pc c)) as [|Hlt]; [split; [done|lia]|].
  assert (((0 <=? frame_top c) && (frame_top c <? SIMI_MAX_FRAMES)) = true) as -> by lia.
  destruct (W4 (frame_top c) ltac:(lia)) as [Tr _ Tc _].
  assert (∀ P Q : Prop, Q ↔ P → P ↔ (pc c < num_instr o ∧ Q)) as Hand by tauto. apply Hand. clear Hand.
  destruct (opcode_of (simi_op (instr o).[pc c])) as [op|]; [|done]. set (w := (instr o).[pc c]). symmetry.
  destruct op; cbn [si_exec]; cbv zeta; ctx_simpl; try (by repeat case_match); try (apply access_wild; [auto with simi|done]).
  - destruct (Z.eqb_spec (frame_top c) 0); [done|]. rewrite Tc.
    assert (((0 <=? frame_top c - 1) && (frame_top c - 1 <? SIMI_MAX_FRAMES)) = true) as -> by lia. done.
  - apply atomic_wild, access_wild; [auto with simi|done].
  - apply atomic_wild, access_wild; [auto with simi|done].
Qed.

Lemma loop_wild o n : ∀ c, program_ok o → wf o c → si_loop n c = Wild ↔ ∃ m c', (m < n)%nat ∧ goes m c c' ∧ wraps o c'.
Proof.
  induction n as [|n IH]; intros c Ho Hi; [split; [done|by intros (m & c' & ? & _); lia]|]. cbn [si_loop].
  pose proof (step_wf o c Ho Hi) as HS. pose proof (step_wild o c Hi) as HW0.
  destruct (si_step c) as [c1|s c1|] eqn:E; cbn in HS.
  - rewrite (IH c1 Ho HS). split.
    + intros (m & c' & Hm & Hg & Hw). exists (S m), c'. split; [lia|]. split; [by apply goes_S with c1|done].
    + intros (m & c' & Hm & Hg & Hw). inversion Hg as [|m' ? c1' ? E' Hg']; subst; [apply HW0 in Hw; done|].
      rewrite E in E'. injection E' as <-. exists m', c'. split; [lia|done].
  - split; [done|]. intros (m & c' & Hm & Hg & Hw). inversion Hg as [|m' ? c1' ? E' Hg']; subst; [by apply HW0 in Hw|congruence].
  - split; [|done]. intros _. exists 0%nat, c. split; [lia|]. split; [apply goes_0|by apply HW0].
Qed.

Lemma run_loop c n : status c = SIMI_STATUS_OK → 0 ≤ frame_top c → simi_interp_run c n = si_loop n c.
Proof. intros E Ht. unfold simi_interp_run. rewrite E. cbn [negb Z.eqb SIMI_STATUS_OK]. by destruct (Z.ltb_spec (frame_top c) 0); [lia|]. Qed.

Lemma resolve_spec t name v : simi_rt_resolve t name = v → v ≠ 0 → ∃ j, 0 ≤ j < Z.of_nat (object_catalog_count t) ∧
  o_active (object_catalog t).[j] ≠ 0 ∧ rt_name_matches name (o_name (object_catalog t).[j]) = true ∧
  may_read t (current_uid t) (o_name (object_catalog t).[j]) = true ∧ v = o_base_vaddr (object_catalog t).[j].
Proof.
  intros <-. unfold simi_rt_resolve. destruct (find_up _ _ _) as [j|] eqn:E; [|done]. apply find_up_Some in E as (Hj & Hp & _).
  apply andb_true_iff in Hp as [Ha Hm]. intros Hne. exists j. destruct (may_read _ _ _); [|done]. repeat split; (done || lia).
Qed.

(** A value the kernel handed out: one of the program's names resolved to it at an instruction of
    the run. *)
Definition minted (o : SimiObject) (until v : Z) : Prop :=
  ∃ t k, 1 ≤ t ≤ until ∧ 0 ≤ k < num_names o ∧ v = simi_rt_resolve t (pool_names o).[k] ∧ v ≠ 0.

Definition in_range (s : Z) : Prop := 0 ≤ s < 2 ^ 64 - 1.

Lemma minted_later o s v : in_range s → minted o s v → minted o (u64 (s + 1)) v.
Proof.
  unfold in_range. intros Hs (t & k & Ht & Hk & E). rewrite u64_small by lia. exists t, k. repeat split; (lia || apply Hk || apply E).
Qed.

Lemma minted_now o s k : in_range s → 0 ≤ k < num_names o → simi_rt_resolve (u64 (s + 1)) (pool_names o).[k] ≠ 0 →
  minted o (u64 (s + 1)) (simi_rt_resolve (u64 (s + 1)) (pool_names o).[k]).
Proof. unfold in_range. intros Hs Hk Hne. rewrite u64_small in * by lia. exists (s + 1), k. repeat split; (lia || done). Qed.

Lemma goes_steps m c c' : goes m c c' → 0 ≤ steps c → steps c + Z.of_nat m < 2 ^ 64 → steps c' = steps c + Z.of_nat m.
Proof.
  induction 1 as [|n c c1 c2 E Hg IH]; intros H0 Hs; [lia|].
  assert (steps c1 = steps c + 1) as E1; [|rewrite IH; lia]. unfold si_step in E. destruct (obj c) as [o|]; [|done].
  destruct (num_instr o <=? pc c); [done|]. destruct (_ && _); [|done]. destruct (opcode_of _) as [op|]; [|done].
  pose proof (exec_kept o (instr o).[pc c] op (frames c).[frame_top c] (set_steps (u64 (steps c + 1)) c)) as HK.
  rewrite E in HK. destruct HK as [-> _]. ctx_simpl. apply u64_small. lia.
Qed.



End Confined.
