(* ===== verification/SimiResume.v ===== *)
(** Running a SIMI context in slices, and the contexts that run alike.

    Two contexts are [same] when they agree on everything a program can observe: the live frames
    and the memory, not the frames above the stack nor the declared register count, which no
    instruction reads. *)

From stdpp Require Import base gmap list list_numbers.
From Stdlib Require Import ZArith Lia Bool String Setoid Morphisms.
From S2P Require Import Prelude Sidecar SimiInterp SimiSpec.
#[local] Open Scope Z_scope.
#[local] Open Scope carr_scope.

(** * Slices *)

Section Slices.
Context `{HW : World}.

Lemma step_kept c : match si_step c with
  | Running c' => status c' = status c ∧ (0 ≤ frame_top c → 0 ≤ frame_top c')
  | Stopped s c' => status c' = s ∧ s ≠ SIMI_STATUS_OK
  | Wild => True
  end.
Proof.
  unfold si_step. destruct (obj c) as [o|]; [|done]. destruct (num_instr o <=? pc c); [by split|].
  destruct (_ && _); [|done]. destruct (opcode_of _) as [op|]; [|by split].
  pose proof (exec_kept o (instr o).[pc c] op (frames c).[frame_top c] (set_steps (u64 (steps c + 1)) c)) as HK.
  unfold kept in HK. destruct (si_exec _ _ _ _ _); ctx_simpl in HK; tauto.
Qed.

Lemma loop_add a b : ∀ c, status c = SIMI_STATUS_OK → 0 ≤ frame_top c →
  si_loop (a + b) c = match si_loop a c with Stopped _ c' => simi_interp_run c' b | out => out end.
Proof.
  induction a as [|a IH]; intros c Hs Ht; [cbn; by rewrite run_loop|]. cbn [Nat.add si_loop]. pose proof (step_kept c) as HK.
  destruct (si_step c) as [c'|s c'|]; [|..|done].
  - apply IH; [by rewrite (proj1 HK)|tauto].
  - destruct HK as [E Hne]. unfold simi_interp_run. rewrite E. by rewrite (proj2 (Z.eqb_neq _ _) Hne).
Qed.

Lemma run_split c a b :
  simi_interp_run c (a + b) = match simi_interp_run c a with Stopped _ c' => simi_interp_run c' b | out => out end.
Proof.
  unfold simi_interp_run at 1 2. destruct (Z.eqb_spec (status c) SIMI_STATUS_OK) as [E|Hne]; cbn [negb].
  2: { unfold simi_interp_run. by rewrite (proj2 (Z.eqb_neq _ _) Hne). }
  destruct (Z.ltb_spec (frame_top c) 0) as [Hlt|Hge]; [done|]. by apply loop_add.
Qed.

(** C29. A budget may be spent in slices: running [a + b] instructions is running [a] and then [b]
    from the context left behind, whatever happens in between; a context that halted or trapped in
    the first slice reports the same status again and changes no more. *)
Theorem run_in_slices c a b :
  simi_interp_run c (a + b) = match simi_interp_run c a with Stopped _ c' => simi_interp_run c' b | out => out end.
Proof. apply run_split. Qed.

End Slices.

(** * Contexts that run alike *)

Record same_frame (f g : SimiFrame) : Prop := {
  sf_regs : ∀ r, 0 ≤ r < SIMI_NREGS → (regs f).[r] = (regs g).[r];
  sf_tags : ∀ r, 0 ≤ r < SIMI_NREGS → (cap_tag f).[r] = (cap_tag g).[r];
  sf_return : return_pc f = return_pc g;
  sf_caller : caller_frame f = caller_frame g
}.

(** Frame by frame below the depth limit. *)
Record linked (c : SimiContext) : Prop := {
  lk_top : frame_top c < SIMI_MAX_FRAMES;
  lk_caller : ∀ i, 0 ≤ i ≤ frame_top c → caller_frame (frames c).[i] = i - 1
}.

Record same (c d : SimiContext) : Prop := {
  sm_linked : linked c;
  sm_pc : pc c = pc d;
  sm_top : frame_top c = frame_top d;
  sm_steps : steps c = steps d;
  sm_result : result c = result d;
  sm_status : status c = status d;
  sm_trap : trap_pc c = trap_pc d;
  sm_obj : obj c = obj d;
  sm_frames : ∀ i, 0 ≤ i ≤ frame_top c → same_frame (frames c).[i] (frames d).[i];
  sm_mem : ∀ a, 0 ≤ a < SIMI_MEM_SIZE → (mem c).[a] = (mem d).[a]
}.

Definition osame (x y : outcome) : Prop :=
  match x, y with
  | Running c, Running d => same c d
  | Stopped s c, Stopped s' d => s = s' ∧ same c d
  | Wild, Wild => True
  | _, _ => False
  end.

#[export] Instance same_frame_equiv : Equivalence same_frame.
Proof.
  split.
  - by intros f.
  - intros f g [H1 H2 H3 H4]. split; [intros r Hr; symmetry; by apply H1|intros r Hr; symmetry; by apply H2|done..].
  - intros f g h [H1 H2 H3 H4] [G1 G2 G3 G4]. split; [intros r Hr; rewrite H1, G1; done|intros r Hr; rewrite H2, G2; done|congruence..].
Qed.

Lemma same_linked_r c d : same c d → linked d.
Proof.
  intros [[L1 L2] E1 E2 _ _ _ _ _ E8 _]. split; rewrite <- E2; [done|]. intros i Hi. rewrite <- (sf_caller _ _ (E8 i Hi)). by apply L2.
Qed.

#[export] Instance same_per : PER same.
Proof.
  split.
  - intros c d H. pose proof (same_linked_r c d H) as L. destruct H as [_ E1 E2 E3 E4 E5 E6 E7 E8 E9]. split; try done.
    + intros i Hi. symmetry. apply E8. by rewrite E2.
    + intros a Ha. symmetry. by apply E9.
  - intros c d e [L E1 E2 E3 E4 E5 E6 E7 E8 E9] [L' F1 F2 F3 F4 F5 F6 F7 F8 F9]. split; try congruence.
    + intros i Hi. transitivity (frames d).[i]; [by apply E8|]. apply F8. by rewrite <- E2.
    + intros a Ha. rewrite E9 by done. by apply F9.
Qed.

Lemma same_refl c : linked c → same c c.
Proof. by split. Qed.

(** Register numbers are ten bits. *)
Lemma reg_range x : 0 ≤ Z.land x 0x3FF < SIMI_NREGS.
Proof. change 0x3FF with (Z.ones 10). rewrite Z.land_ones by lia. apply Z.mod_pos_bound. unfold SIMI_NREGS. lia. Qed.

Section Alike.
Context `{HW : World}.

Lemma set_reg_same r v t f g : same_frame f g → same_frame (set_reg r v t f) (set_reg r v t g).
Proof.
  intros [H1 H2 H3 H4]. split; cbn; try done; intros r' Hr; rewrite !aget_upd; destruct (r =? r'); auto.
Qed.

Lemma top_same c d : same c d → 0 ≤ frame_top c → same_frame (frames c).[frame_top c] (frames d).[frame_top c].
Proof. intros H Ht. apply (sm_frames _ _ H). lia. Qed.

Lemma set_pc_same c d v : same c d → same (set_pc v c) (set_pc v d).
Proof. intros [[L1 L2] E1 E2 E3 E4 E5 E6 E7 E8 E9]. by split; [split|..]. Qed.

Lemma next_same c d : same c d → same (next c) (next d).
Proof. intros H. unfold next. rewrite (sm_pc _ _ H). by apply set_pc_same. Qed.

Lemma with_frame_same c d f g : same c d → same_frame f g → caller_frame f = caller_frame (frames c).[frame_top c] →
  same (with_frame f c) (with_frame g d).
Proof.
  intros [[L1 L2] E1 E2 E3 E4 E5 E6 E7 E8 E9] Hf Hc. split; ctx_simpl; try done; [split; [done|]|]; ctx_simpl; intros i Hi; rewrite <- ?E2, !aget_upd;
    (destruct (Z.eqb_spec (frame_top c) i) as [<-|]; [|auto]); [rewrite Hc; by apply L2|done].
Qed.

Lemma put_same c d rd v t : same c d → 0 ≤ frame_top c →
  osame (put rd v t (frames c).[frame_top c] c) (put rd v t (frames d).[frame_top c] d).
Proof. intros H Ht. apply next_same, with_frame_same; [done|by apply set_reg_same, top_same|done]. Qed.

Lemma trap_same c d s : same c d → osame (si_trap s c) (si_trap s d).
Proof. intros [[L1 L2] E1 E2 E3 E4 E5 E6 E7 E8 E9]. split; [done|]. by split; [split|..]. Qed.

Lemma set_mem_same c d m m' : same c d → (∀ a, 0 ≤ a < SIMI_MEM_SIZE → m.[a] = m'.[a]) → same (set_mem m c) (set_mem m' d).
Proof. intros [[L1 L2] E1 E2 E3 E4 E5 E6 E7 E8 E9] Hm. by split; [split|..]. Qed.

Lemma mem_read_same n m m' : (∀ a, 0 ≤ a < SIMI_MEM_SIZE → m.[a] = m'.[a]) →
  ∀ addr, 0 ≤ addr → addr + Z.of_nat n ≤ SIMI_MEM_SIZE → mem_read n m addr = mem_read n m' addr.
Proof.
  intros Hm. induction n as [|n IH]; intros addr H0 Hle; [done|]. cbn [mem_read]. rewrite Hm, IH by lia. done.
Qed.

Lemma mem_write_same n : ∀ m m' addr v, (∀ a, 0 ≤ a < SIMI_MEM_SIZE → m.[a] = m'.[a]) →
  ∀ a, 0 ≤ a < SIMI_MEM_SIZE → (mem_write n m addr v).[a] = (mem_write n m' addr v).[a].
Proof.
  induction n as [|n IH]; intros m m' addr v Hm; [done|]. cbn [mem_write]. apply IH. intros a Ha. rewrite !aget_upd.
  destruct (addr =? a); auto.
Qed.

Lemma same_top_frame c d : same c d → 0 ≤ frame_top c →
  let f := (frames c).[frame_top c] in let g := (frames d).[frame_top c] in
  (∀ x, (regs g).[Z.land x 0x3FF] = (regs f).[Z.land x 0x3FF]) ∧ (∀ x, (cap_tag g).[Z.land x 0x3FF] = (cap_tag f).[Z.land x 0x3FF]) ∧
  (∀ w, si_operand_b w g = si_operand_b w f).
Proof.
  intros H Ht. cbv zeta. destruct (top_same c d H Ht) as [S1 S2 S3 S4]. assert (∀ x, (regs (frames d).[frame_top c]).[Z.land x 0x3FF] = (regs (frames c).[frame_top c]).[Z.land x 0x3FF]) as Hr.
  { intros x. symmetry. apply S1, reg_range. }
  split; [done|]. split; [intros x; symmetry; apply S2, reg_range|]. intros w. unfold si_operand_b, simi_rb_reg. by rewrite Hr.
Qed.

Lemma call_same c d v : same c d → 0 ≤ frame_top c → frame_top c + 1 < SIMI_MAX_FRAMES →
  let call (e : SimiContext) := set_pc v (set_top (frame_top c + 1) (set_frames (frames e).[frame_top c + 1 <-
    call_frame (frames e).[frame_top c] (frames e).[frame_top c + 1] (frame_top c) (u32 (pc c + 1))] e)) in
  same (call c) (call d).
Proof.
  intros H Ht Hlt. cbv zeta. apply set_pc_same. pose proof (top_same c d H Ht) as S. destruct H as [[L1 L2] E1 E2 E3 E4 E5 E6 E7 E8 E9].
  pose proof (call_frame_spec (frames c).[frame_top c] (frames c).[frame_top c + 1] (frame_top c) (u32 (pc c + 1))) as (C1 & C2 & C3 & C4 & _).
  pose proof (call_frame_spec (frames d).[frame_top c] (frames d).[frame_top c + 1] (frame_top c) (u32 (pc c + 1))) as (D1 & D2 & D3 & D4 & _).
  split; ctx_simpl; try done; [split; ctx_simpl; [done|]|]; intros i Hi; rewrite !aget_upd; (destruct (Z.eqb_spec (frame_top c + 1) i) as [<-|]).
  - rewrite C4. lia.
  - apply L2. lia.
  - split; [intros r Hr; rewrite C1, D1|intros r Hr; rewrite C2, D2|by rewrite C3, D3|by rewrite C4, D4]; case_match; try done.
    + by apply S.
    + f_equal. by apply S.
  - apply E8. lia.
Qed.

Lemma ret_same c d : same c d → 0 < frame_top c →
  let ret (e : SimiContext) := let fr := (frames e).[frame_top c] in let top := caller_frame fr in
    set_pc (return_pc fr) (set_top top (set_frames (frames e).[top <- set_reg 0 (regs fr).[0] (tag_value (cap_tag fr).[0]) (frames e).[top]] e)) in
  same (ret c) (ret d).
Proof.
  intros H Ht. cbv zeta. destruct (top_same c d H ltac:(lia)) as [S1 S2 S3 S4]. destruct H as [[L1 L2] E1 E2 E3 E4 E5 E6 E7 E8 E9].
  rewrite <- S3, <- S4, <- S1, <- S2 by (unfold SIMI_NREGS; lia). rewrite (L2 (frame_top c) ltac:(lia)). apply set_pc_same.
  split; ctx_simpl; try done; [split; ctx_simpl; [lia|]|]; intros i Hi; rewrite !aget_upd; (destruct (Z.eqb_spec (frame_top c - 1) i) as [<-|]).
  - apply L2. lia.
  - apply L2. lia.
  - apply set_reg_same, E8. lia.
  - apply E8. lia.
Qed.

(** The memory operations agree where the access is made inside the memory. *)
Lemma within_read c d t addr : same c d → mem_within addr (si_width_of t) = true →
  mem_read (Z.to_nat (si_width_of t)) (mem d) addr = mem_read (Z.to_nat (si_width_of t)) (mem c) addr.
Proof.
  intros H Hw. unfold mem_within in Hw. pose proof (width_cases t). symmetry. apply mem_read_same; [apply (sm_mem _ _ H)|lia..].
Qed.

Ltac guards2 := repeat match goal with
  | |- osame (if ?b then _ else _) _ => destruct b eqn:?
  | |- osame (si_trap _ _) _ => by apply trap_same
  | |- osame (put _ _ _ _ _) _ => by apply put_same
  end.

Lemma exec_same o w op c d : same c d → 0 ≤ frame_top c →
  osame (si_exec o w op (frames c).[frame_top c] c) (si_exec o w op (frames d).[frame_top c] d).
Proof.
  intros H Ht. destruct (same_top_frame c d H Ht) as (Hr & Htag & Hb). pose proof (sm_mem _ _ H) as Hm.
  pose proof (sf_caller _ _ (top_same c d H Ht)) as Hcal.
  destruct op; cbn [si_exec]; cbv zeta; unfold simi_rd, simi_ra, simi_rb_reg in *;
    rewrite ?Hr, ?Htag, ?Hb, <- ?(sm_steps _ _ H), <- ?(sm_pc _ _ H), <- ?(sm_top _ _ H); guards2; try done.
  - destruct (si_relation _ _ _); guards2.
  - by apply set_pc_same.
  - cbn. match goal with |- same (if ?b then _ else _) _ => destruct b end; [by apply set_pc_same|by apply next_same].
  - apply call_same; (done || lia).
  - assert (frame_top c = 0) as E0 by lia. pose proof (top_same c d H Ht) as S. rewrite E0 in S. rewrite (sf_regs _ _ S 0) by (unfold SIMI_NREGS; lia).
    split; [done|]. destruct H as [[L1 L2] E1 E2 E3 E4 E5 E6 E7 E8 E9]. by split; [split|..].
  - match goal with |- osame _ (if ?b then _ else _) => replace b with true by (by rewrite <- Hcal) end. apply ret_same; (done || lia).
  - match goal with |- osame _ (if ?b then _ else _) => replace b with false by (by rewrite <- Hcal) end. done.
  - rewrite (within_read c d) by done. by apply put_same.
  - apply next_same, set_mem_same; [done|]. by apply mem_write_same.
  - apply next_same, with_frame_same; [done| |done]. by destruct (top_same c d H Ht).
  - by apply next_same.
  - by apply set_pc_same.
  - rewrite (within_read c d) by done. apply (put_same (set_mem _ c) (set_mem _ d)); [|done]. apply set_mem_same; [done|].
    match goal with |- context [if ?b then mem_write _ _ _ _ else _] => destruct b end; [by apply mem_write_same|done].
  - rewrite (within_read c d) by done. apply (put_same (set_mem _ c) (set_mem _ d)); [|done]. apply set_mem_same; [done|]. by apply mem_write_same.
Qed.

#[export] Instance step_proper : Proper (same ==> osame) si_step.
Proof.
  intros c d H. unfold si_step. rewrite <- (sm_obj _ _ H), <- (sm_pc _ _ H), <- (sm_top _ _ H). destruct (obj c) as [o|]; [|done].
  destruct (num_instr o <=? pc c); [by apply trap_same|]. destruct (_ && _) eqn:Et; [|done]. rewrite <- (sm_steps _ _ H).
  assert (same (set_steps (u64 (steps c + 1)) c) (set_steps (u64 (steps c + 1)) d)) as H'
    by (destruct H as [[L1 L2] E1 E2 E3 E4 E5 E6 E7 E8 E9]; split; [by split|done..]).
  destruct (opcode_of _) as [op|]; [|by apply trap_same]. apply (exec_same o _ op _ _ H'). ctx_simpl. lia.
Qed.

Lemma loop_same n : ∀ c d, same c d → osame (si_loop n c) (si_loop n d).
Proof.
  induction n as [|n IH]; intros c d H; [done|]. cbn [si_loop]. pose proof (step_proper c d H) as HS.
  destruct (si_step c), (si_step d); try done. by apply IH.
Qed.

(** Contexts that are the same run alike. *)
#[export] Instance run_proper : Proper (same ==> eq ==> osame) simi_interp_run.
Proof.
  intros c d H n ? <-. unfold simi_interp_run. rewrite <- (sm_status _ _ H), <- (sm_top _ _ H).
  destruct (negb _); [done|]. destruct (_ <? 0); [by apply trap_same|by apply loop_same].
Qed.

End Alike.

Lemma wf_linked o c : wf o c → linked c.
Proof. intros [W1 W2 W3 W4 W5 W6]. split; [lia|]. intros i Hi. by apply W4. Qed.
