(* ===== verification/SimiCkpt.v ===== *)
(** Checkpoint and restore of a SIMI context: kernel/simi_ckpt.c.

    A checkpoint is the bytes of a packed header, of the live frames as they lie in memory
    (little-endian, with the padding at the end of a frame) and of the flat memory. *)

From stdpp Require Import base gmap list list_numbers.
From Stdlib Require Import ZArith Lia Bool.
From S2P Require Import Prelude Bytes Sidecar SimiInterp SimiSpec SimiResume.
#[local] Open Scope Z_scope.
#[local] Open Scope carr_scope.

(** * Memory layout *)

(** [n] array elements of [w] bytes, from index [i]. *)
Fixpoint array_bytes (w n : nat) (i : Z) (a : gmap Z Z) : list Z :=
  match n with
  | O => []
  | S n' => le_bytes w a.[i] ++ array_bytes w n' (i + 1) a
  end.
Fixpoint read_array (w n : nat) (i : Z) (bs : list Z) : gmap Z Z * list Z :=
  match n with
  | O => (∅, bs)
  | S n' =>
      let '(v, bs) := take_word w bs in
      let '(a, bs) := read_array w n' (i + 1) bs in
      (a.[i <- v], bs)
  end.

Definition nregs : nat := Z.to_nat SIMI_NREGS.
Definition mem_size : nat := Z.to_nat SIMI_MEM_SIZE.
Definition SIZEOF_FRAME : Z := 9232.
Definition SIZEOF_HEADER : Z := 80.

(** [struct SimiFrame] *)
Definition frame_bytes (f : SimiFrame) : list Z :=
  array_bytes 8 nregs 0 (regs f) ++ array_bytes 1 nregs 0 (cap_tag f) ++
  le_bytes 4 (declared_nregs f) ++ le_bytes 4 (return_pc f) ++ le_bytes 4 (caller_frame f) ++ le_bytes 4 (f_pad f).
Definition read_frame (bs : list Z) : SimiFrame * list Z :=
  let '(rs, bs) := read_array 8 nregs 0 bs in
  let '(ts, bs) := read_array 1 nregs 0 bs in
  let '(dn, bs) := take_word 4 bs in
  let '(rp, bs) := take_word 4 bs in
  let '(cf, bs) := take_word 4 bs in
  let '(pd, bs) := take_word 4 bs in
  (mkFrame rs ts dn rp (s32 cf) pd, bs).

Fixpoint frames_bytes (n : nat) (i : Z) (fs : gmap Z SimiFrame) : list Z :=
  match n with
  | O => []
  | S n' => frame_bytes fs.[i] ++ frames_bytes n' (i + 1) fs
  end.
Fixpoint read_frames (n : nat) (i : Z) (bs : list Z) : gmap Z SimiFrame * list Z :=
  match n with
  | O => (∅, bs)
  | S n' =>
      let '(f, bs) := read_frame bs in
      let '(fs, bs) := read_frames n' (i + 1) bs in
      (fs.[i <- f], bs)
  end.

(** [struct SimiCkptHeader] *)
Record SimiCkptHeader := mkHeader {
  h_magic : Z;
  h_format_version : Z;
  h_frame_bytes : Z;
  h_isa_fingerprint : Z;
  h_program_hash : Z;
  h_pc : Z;
  h_frame_top : Z;
  h_num_frames : Z;
  h_mem_bytes : Z;
  h_steps : Z;
  h_result : Z;
  h_status : Z;
  h_trap_pc : Z;
  h_payload_checksum : Z
}.

Definition header_bytes (h : SimiCkptHeader) : list Z :=
  le_bytes 8 (h_magic h) ++ le_bytes 4 (h_format_version h) ++ le_bytes 4 (h_frame_bytes h) ++
  le_bytes 8 (h_isa_fingerprint h) ++ le_bytes 8 (h_program_hash h) ++
  le_bytes 4 (h_pc h) ++ le_bytes 4 (h_frame_top h) ++ le_bytes 4 (h_num_frames h) ++ le_bytes 4 (h_mem_bytes h) ++
  le_bytes 8 (h_steps h) ++ le_bytes 8 (h_result h) ++ le_bytes 4 (h_status h) ++ le_bytes 4 (h_trap_pc h) ++
  le_bytes 8 (h_payload_checksum h).
Definition read_header (bs : list Z) : SimiCkptHeader * list Z :=
  let '(magic, bs) := take_word 8 bs in
  let '(version, bs) := take_word 4 bs in
  let '(fbytes, bs) := take_word 4 bs in
  let '(isa, bs) := take_word 8 bs in
  let '(hash, bs) := take_word 8 bs in
  let '(pc, bs) := take_word 4 bs in
  let '(top, bs) := take_word 4 bs in
  let '(nframes, bs) := take_word 4 bs in
  let '(mbytes, bs) := take_word 4 bs in
  let '(steps, bs) := take_word 8 bs in
  let '(result, bs) := take_word 8 bs in
  let '(status, bs) := take_word 4 bs in
  let '(trap, bs) := take_word 4 bs in
  let '(sum, bs) := take_word 8 bs in
  (mkHeader magic version fbytes isa hash pc (s32 top) nframes mbytes steps result status trap sum, bs).

(** * Hashes *)

Definition CK_FNV_OFFSET : Z := 1469598103934665603.
Definition CK_FNV_PRIME : Z := 1099511628211.

Definition ck_fold (h : Z) (data : list Z) : Z := foldl (λ h b, u64 (Z.lxor h b * CK_FNV_PRIME)) h data.

(** The first [num * 8] bytes of an array of 64-bit words, the product a 32-bit one. *)
Definition words_prefix (num : Z) (a : gmap Z Z) : list Z := take (Z.to_nat (u32 (num * 8))) (array_bytes 8 (Z.to_nat num) 0 a).
Definition names_prefix (num : Z) (a : gmap Z (gmap Z Z)) : list Z :=
  take (Z.to_nat (u32 (num * SIMI_MAX_NAME)))
    (concat (map (λ k, array_bytes 1 (Z.to_nat SIMI_MAX_NAME) 0 a.[k]) (seqZ 0 num))).

Definition simi_ckpt_program_hash (o : option SimiObject) : Z :=
  match o with
  | None => 0
  | Some o =>
      let h := ck_fold CK_FNV_OFFSET (le_bytes 4 (num_instr o)) in
      let h := ck_fold h (words_prefix (num_instr o) (instr o)) in
      let h := ck_fold h (le_bytes 4 (num_literals o)) in
      let h := ck_fold h (words_prefix (num_literals o) (literals o)) in
      let h := ck_fold h (le_bytes 4 (num_names o)) in
      let h := ck_fold h (names_prefix (num_names o) (pool_names o)) in
      if h =? 0 then 1 else h
  end.

(** * Save and load *)

Definition SIMI_CKPT_MAGIC : Z := 0x53494D49434B5054.
Definition SIMI_CKPT_FORMAT_VERSION : Z := 1.

Definition SIMI_CKPT_OK : Z := 0.
Definition SIMI_CKPT_ERR_BUFFER_TOO_SMALL : Z := 1.
Definition SIMI_CKPT_ERR_TRUNCATED : Z := 2.
Definition SIMI_CKPT_ERR_BAD_MAGIC : Z := 3.
Definition SIMI_CKPT_ERR_BAD_VERSION : Z := 4.
Definition SIMI_CKPT_ERR_ISA_MISMATCH : Z := 5.
Definition SIMI_CKPT_ERR_LAYOUT_MISMATCH : Z := 6.
Definition SIMI_CKPT_ERR_PROGRAM_MISMATCH : Z := 7.
Definition SIMI_CKPT_ERR_CHECKSUM : Z := 8.
Definition SIMI_CKPT_ERR_BAD_STATE : Z := 9.

Definition ck_num_frames (c : SimiContext) : Z := if frame_top c <? 0 then 0 else frame_top c + 1.

Definition simi_ckpt_size (c : SimiContext) : Z := SIZEOF_HEADER + ck_num_frames c * SIZEOF_FRAME + SIMI_MEM_SIZE.

(** [simi_interp_live_bytes]: what lies outside the frames and the memory, the live frames and the
    memory. *)
Definition simi_interp_live_bytes (c : SimiContext) : Z := 40 + ck_num_frames c * SIZEOF_FRAME + SIMI_MEM_SIZE.

(** [simi_ckpt_save] into a buffer of [cap] bytes: the status of a refusal, or the bytes written,
    whose number is [*out_len]. *)
Definition simi_ckpt_save (c : SimiContext) (cap : Z) : Z + list Z :=
  if SIMI_MAX_FRAMES <=? frame_top c then inl SIMI_CKPT_ERR_BAD_STATE else
  let nframes := ck_num_frames c in
  if cap <? simi_ckpt_size c then inl SIMI_CKPT_ERR_BUFFER_TOO_SMALL else
  let fbytes := frames_bytes (Z.to_nat nframes) 0 (frames c) in
  let mbytes := array_bytes 1 mem_size 0 (mem c) in
  let sum := ck_fold (ck_fold CK_FNV_OFFSET fbytes) mbytes in
  let h := mkHeader SIMI_CKPT_MAGIC SIMI_CKPT_FORMAT_VERSION SIZEOF_FRAME simi_interp_isa_fingerprint
             (simi_ckpt_program_hash (obj c)) (pc c) (frame_top c) nframes SIMI_MEM_SIZE
             (steps c) (result c) (status c) (trap_pc c) sum in
  inr (header_bytes h ++ fbytes ++ mbytes).

(** [simi_ckpt_load] of [buf] into [ctx], re-bound to the image [o]: the status and the context. *)
Definition simi_ckpt_load (ctx : SimiContext) (buf : list Z) (o : option SimiObject) : Z * SimiContext :=
  let len := Z.of_nat (length buf) in
  if len <? SIZEOF_HEADER then (SIMI_CKPT_ERR_TRUNCATED, ctx) else
  let '(h, p) := read_header buf in
  if negb (h_magic h =? SIMI_CKPT_MAGIC) then (SIMI_CKPT_ERR_BAD_MAGIC, ctx) else
  if negb (h_format_version h =? SIMI_CKPT_FORMAT_VERSION) then (SIMI_CKPT_ERR_BAD_VERSION, ctx) else
  if negb (h_isa_fingerprint h =? simi_interp_isa_fingerprint) then (SIMI_CKPT_ERR_ISA_MISMATCH, ctx) else
  if negb (h_frame_bytes h =? SIZEOF_FRAME) then (SIMI_CKPT_ERR_LAYOUT_MISMATCH, ctx) else
  if negb (h_mem_bytes h =? SIMI_MEM_SIZE) then (SIMI_CKPT_ERR_LAYOUT_MISMATCH, ctx) else
  if SIMI_MAX_FRAMES <? h_num_frames h then (SIMI_CKPT_ERR_LAYOUT_MISMATCH, ctx) else
  let expect_top := if h_num_frames h =? 0 then -1 else h_num_frames h - 1 in
  if negb (h_frame_top h =? expect_top) then (SIMI_CKPT_ERR_BAD_STATE, ctx) else
  let need := u32 (SIZEOF_HEADER + h_num_frames h * SIZEOF_FRAME + h_mem_bytes h) in
  if len <? need then (SIMI_CKPT_ERR_TRUNCATED, ctx) else
  if negb (h_program_hash h =? simi_ckpt_program_hash o) then (SIMI_CKPT_ERR_PROGRAM_MISMATCH, ctx) else
  let fsize := Z.to_nat (h_num_frames h * SIZEOF_FRAME) in
  let sum := ck_fold (ck_fold CK_FNV_OFFSET (take fsize p)) (take (Z.to_nat (h_mem_bytes h)) (drop fsize p)) in
  if negb (sum =? h_payload_checksum h) then (SIMI_CKPT_ERR_CHECKSUM, ctx) else
  (SIMI_CKPT_OK,
   mkCtx (h_pc h) (h_frame_top h) (h_steps h) (h_result h) (h_status h) (h_trap_pc h)
     (fst (read_frames (Z.to_nat (h_num_frames h)) 0 p))
     (fst (read_array 1 (Z.to_nat (h_mem_bytes h)) 0 (drop fsize p))) o).

(** * What is read back *)

Lemma array_bytes_length w n : ∀ i a, length (array_bytes w n i a) = (n * w)%nat.
Proof. induction n as [|n IH]; intros i a; [done|]. cbn [array_bytes]. rewrite length_app, le_bytes_length, IH. lia. Qed.

Lemma read_array_bytes w n : ∀ i a rest, ∃ a', read_array w n i (array_bytes w n i a ++ rest) = (a', rest) ∧
  ∀ j, i ≤ j < i + Z.of_nat n → a'.[j] = a.[j] mod 256 ^ Z.of_nat w.
Proof.
  induction n as [|n IH]; intros i a rest; [exists ∅; split; [done|lia]|]. cbn [array_bytes read_array]. rewrite <- app_assoc, take_word_bytes.
  destruct (IH (i + 1) a rest) as (a' & -> & Ha). eexists. split; [done|]. intros j Hj. rewrite aget_upd.
  destruct (Z.eqb_spec i j) as [<-|]; [done|]. apply Ha. lia.
Qed.

Lemma frame_bytes_length f : length (frame_bytes f) = Z.to_nat SIZEOF_FRAME.
Proof.
  unfold frame_bytes. rewrite !length_app, !array_bytes_length, !le_bytes_length. unfold nregs, SIMI_NREGS, SIZEOF_FRAME. lia.
Qed.

Lemma frames_bytes_length n : ∀ i fs, length (frames_bytes n i fs) = (n * Z.to_nat SIZEOF_FRAME)%nat.
Proof. induction n as [|n IH]; intros i fs; [done|]. cbn [frames_bytes]. rewrite length_app, frame_bytes_length, IH. lia. Qed.

Lemma s32_mod x : - 2 ^ 31 ≤ x < 2 ^ 31 → s32 (x mod 2 ^ 32) = x.
Proof.
  intros Hx. unfold s32. destruct (Z.lt_ge_cases x 0) as [Hneg|Hpos].
  - replace (x mod 2 ^ 32) with (x + 2 ^ 32); [destruct (Z.ltb_spec (x + 2 ^ 32) (2 ^ 31)); lia|].
    rewrite <- (Z.mod_add x 1) by lia. rewrite Z.mod_small; lia.
  - rewrite Z.mod_small by lia. destruct (Z.ltb_spec x (2 ^ 31)); lia.
Qed.

Lemma read_frame_bytes i f rest : 0 ≤ i < SIMI_MAX_FRAMES → frame_ok i f →
  ∃ f', read_frame (frame_bytes f ++ rest) = (f', rest) ∧ same_frame f f'.
Proof.
  intros Hi [F1 F2 F3 F4]. unfold read_frame, frame_bytes. rewrite <- !app_assoc.
  destruct (read_array_bytes 8 nregs 0 (regs f) (array_bytes 1 nregs 0 (cap_tag f) ++
    le_bytes 4 (declared_nregs f) ++ le_bytes 4 (return_pc f) ++ le_bytes 4 (caller_frame f) ++ le_bytes 4 (f_pad f) ++ rest)) as (rs & -> & Hrs).
  destruct (read_array_bytes 1 nregs 0 (cap_tag f) (
    le_bytes 4 (declared_nregs f) ++ le_bytes 4 (return_pc f) ++ le_bytes 4 (caller_frame f) ++ le_bytes 4 (f_pad f) ++ rest)) as (ts & -> & Hts).
  rewrite !take_word_bytes. eexists. split; [done|]. unfold nregs in *. change (256 ^ Z.of_nat 8) with (2 ^ 64) in Hrs. change (256 ^ Z.of_nat 1) with 256 in Hts.
  unfold SIMI_MAX_FRAMES in Hi.
  split; cbn [regs cap_tag return_pc caller_frame].
  - intros r Hr. rewrite Hrs by lia. by rewrite Z.mod_small by apply F1.
  - intros r Hr. rewrite Hts by lia. destruct (F2 r) as [-> | ->]; done.
  - change (256 ^ Z.of_nat 4) with (2 ^ 32). by rewrite Z.mod_small by apply F4.
  - change (256 ^ Z.of_nat 4) with (2 ^ 32). rewrite F3, s32_mod; lia.
Qed.

Lemma read_frames_bytes n : ∀ i fs rest, 0 ≤ i → i + Z.of_nat n ≤ SIMI_MAX_FRAMES → (∀ j, i ≤ j < i + Z.of_nat n → frame_ok j fs.[j]) →
  ∃ fs', read_frames n i (frames_bytes n i fs ++ rest) = (fs', rest) ∧ ∀ j, i ≤ j < i + Z.of_nat n → same_frame fs.[j] fs'.[j].
Proof.
  induction n as [|n IH]; intros i fs rest H0 Hi Hok; [exists ∅; split; [done|lia]|]. cbn [frames_bytes read_frames]. rewrite <- app_assoc.
  destruct (read_frame_bytes i fs.[i] (frames_bytes n (i + 1) fs ++ rest)) as (f' & -> & Hf); [lia|apply Hok; lia|].
  destruct (IH (i + 1) fs rest) as (fs' & -> & Hfs); [lia..|intros j Hj; apply Hok; lia|]. eexists. split; [done|].
  intros j Hj. rewrite aget_upd. destruct (Z.eqb_spec i j) as [<-|]; [done|]. apply Hfs. lia.
Qed.

Lemma header_bytes_length h : length (header_bytes h) = Z.to_nat SIZEOF_HEADER.
Proof. unfold header_bytes. rewrite !length_app, !le_bytes_length. done. Qed.

(** A header of words is read back. *)
Record header_ok (h : SimiCkptHeader) : Prop := {
  ho_words : Forall w64 [h_magic h; h_isa_fingerprint h; h_program_hash h; h_steps h; h_result h; h_payload_checksum h];
  ho_u32 : Forall u32_range [h_format_version h; h_frame_bytes h; h_pc h; h_num_frames h; h_mem_bytes h; h_status h; h_trap_pc h];
  ho_top : - 2 ^ 31 ≤ h_frame_top h < 2 ^ 31
}.

Lemma read_header_bytes h rest : header_ok h → read_header (header_bytes h ++ rest) = (h, rest).
Proof.
  intros [H1 H2 H3]. unfold read_header, header_bytes. rewrite <- !app_assoc, !take_word_bytes.
  change (256 ^ Z.of_nat 4) with (2 ^ 32). change (256 ^ Z.of_nat 8) with (2 ^ 64). rewrite s32_mod by done.
  rewrite !Forall_cons in H1. rewrite !Forall_cons in H2. unfold w64, u32_range in *. destruct h; cbn in *. f_equal. f_equal; try done; apply Z.mod_small; lia.
Qed.

Lemma ck_fold_w64 data : ∀ h, w64 h → w64 (ck_fold h data).
Proof. unfold ck_fold. induction data as [|b data IH]; intros h Hh; [done|]. cbn [foldl]. apply IH, u64_w64. Qed.

Lemma program_hash_w64 o : w64 (simi_ckpt_program_hash o).
Proof.
  unfold simi_ckpt_program_hash. destruct o as [o|]; [|unfold w64; lia]. cbv zeta.
  case_match; [unfold w64; lia|]. repeat apply ck_fold_w64. unfold w64, CK_FNV_OFFSET. lia.
Qed.

Lemma program_hash_nonzero o : simi_ckpt_program_hash (Some o) ≠ 0.
Proof.
  unfold simi_ckpt_program_hash. cbv zeta. generalize (ck_fold (ck_fold (ck_fold (ck_fold (ck_fold (ck_fold CK_FNV_OFFSET (le_bytes 4 (num_instr o)))
    (words_prefix (num_instr o) (instr o))) (le_bytes 4 (num_literals o))) (words_prefix (num_literals o) (literals o))) (le_bytes 4 (num_names o)))
    (names_prefix (num_names o) (pool_names o))). intros h. destruct (Z.eqb_spec h 0); [lia|done].
Qed.

(** The checkpoint a context saves. *)
Definition checkpoint (c : SimiContext) : list Z :=
  let fbytes := frames_bytes (Z.to_nat (ck_num_frames c)) 0 (frames c) in
  let mbytes := array_bytes 1 mem_size 0 (mem c) in
  header_bytes (mkHeader SIMI_CKPT_MAGIC SIMI_CKPT_FORMAT_VERSION SIZEOF_FRAME simi_interp_isa_fingerprint
    (simi_ckpt_program_hash (obj c)) (pc c) (frame_top c) (ck_num_frames c) SIMI_MEM_SIZE
    (steps c) (result c) (status c) (trap_pc c) (ck_fold (ck_fold CK_FNV_OFFSET fbytes) mbytes)) ++ fbytes ++ mbytes.

Lemma save_spec c cap : frame_top c < SIMI_MAX_FRAMES → simi_ckpt_save c cap = if cap <? simi_ckpt_size c then inl SIMI_CKPT_ERR_BUFFER_TOO_SMALL else inr (checkpoint c).
Proof. intros Ht. unfold simi_ckpt_save. destruct (Z.leb_spec SIMI_MAX_FRAMES (frame_top c)); [lia|done]. Qed.

Lemma num_frames_wf o c : wf o c → ck_num_frames c = frame_top c + 1 ∧ 1 ≤ ck_num_frames c ≤ SIMI_MAX_FRAMES.
Proof. intros [_ _ Ht _ _ _]. unfold ck_num_frames. destruct (Z.ltb_spec (frame_top c) 0); lia. Qed.

Lemma num_frames_nonneg c : 0 ≤ ck_num_frames c.
Proof. unfold ck_num_frames. destruct (Z.ltb_spec (frame_top c) 0); lia. Qed.

Lemma checkpoint_length c : Z.of_nat (length (checkpoint c)) = simi_ckpt_size c.
Proof.
  pose proof (num_frames_nonneg c) as Hn. unfold checkpoint. cbv zeta.
  rewrite !length_app, header_bytes_length, frames_bytes_length, array_bytes_length. unfold mem_size, simi_ckpt_size, SIZEOF_HEADER, SIZEOF_FRAME, SIMI_MEM_SIZE. lia.
Qed.

Lemma checkpoint_header_ok o c sum : wf o c → w64 sum →
  header_ok (mkHeader SIMI_CKPT_MAGIC SIMI_CKPT_FORMAT_VERSION SIZEOF_FRAME simi_interp_isa_fingerprint
    (simi_ckpt_program_hash (obj c)) (pc c) (frame_top c) (ck_num_frames c) SIMI_MEM_SIZE
    (steps c) (result c) (status c) (trap_pc c) sum).
Proof.
  intros Hw Hs. destruct (num_frames_wf o c Hw) as [_ Hn]. destruct Hw as [_ W2 W3 _ _ (W4 & W5 & W6 & W7)]. unfold SIMI_MAX_FRAMES in *.
  assert (w64 SIMI_CKPT_MAGIC ∧ w64 simi_interp_isa_fingerprint) as [? ?] by (unfold w64; repeat split; by vm_compute).
  split; cbn [h_magic h_isa_fingerprint h_program_hash h_steps h_result h_payload_checksum h_format_version h_frame_bytes h_pc h_num_frames h_mem_bytes h_status h_trap_pc h_frame_top];
    [repeat apply Forall_cons_2; try apply Forall_nil_2; auto using program_hash_w64..|lia];
    unfold u32_range, SIMI_CKPT_FORMAT_VERSION, SIZEOF_FRAME, SIMI_MEM_SIZE; lia.
Qed.

(** Loading it succeeds on the same program, and gives the context back. *)
Lemma load_checkpoint o c : wf o c → ∃ c', (∀ d, simi_ckpt_load d (checkpoint c) (Some o) = (SIMI_CKPT_OK, c')) ∧ same c c'.
Proof.
  intros Hw. pose proof (checkpoint_length c) as Hlen. destruct (num_frames_wf o c Hw) as [En Hn]. pose proof Hw as [W1 W2 W3 W4 W5 W6].
  set (fbytes := frames_bytes (Z.to_nat (ck_num_frames c)) 0 (frames c)). set (mbytes := array_bytes 1 mem_size 0 (mem c)).
  destruct (read_frames_bytes (Z.to_nat (ck_num_frames c)) 0 (frames c) mbytes) as (fs' & Ef & Hf); [lia..|intros j Hj; apply W4; lia|].
  destruct (read_array_bytes 1 mem_size 0 (mem c) []) as (m' & Em & Hm). rewrite app_nil_r in Em. fold fbytes in Ef. fold mbytes in Em.
  exists (mkCtx (pc c) (frame_top c) (steps c) (result c) (status c) (trap_pc c) fs' m' (Some o)). split.
  - intros d. unfold simi_ckpt_load. rewrite Hlen. unfold simi_ckpt_size. destruct (Z.ltb_spec (SIZEOF_HEADER + ck_num_frames c * SIZEOF_FRAME + SIMI_MEM_SIZE) SIZEOF_HEADER) as [Hlt|_].
    { exfalso. unfold SIZEOF_HEADER, SIZEOF_FRAME, SIMI_MEM_SIZE in *. lia. }
    unfold checkpoint. cbv zeta. fold fbytes mbytes.
    rewrite read_header_bytes by (apply (checkpoint_header_ok o); [done|]; repeat apply ck_fold_w64; unfold w64, CK_FNV_OFFSET; lia).
    cbn [h_magic h_isa_fingerprint h_program_hash h_steps h_result h_payload_checksum h_format_version h_frame_bytes h_pc h_num_frames h_mem_bytes h_status h_trap_pc h_frame_top].
    rewrite !Z.eqb_refl. cbn [negb]. destruct (Z.ltb_spec SIMI_MAX_FRAMES (ck_num_frames c)); [lia|]. destruct (Z.eqb_spec (ck_num_frames c) 0); [lia|].
    rewrite (proj2 (Z.eqb_eq (frame_top c) _)) by lia. cbn [negb]. rewrite u32_small by (unfold SIZEOF_HEADER, SIZEOF_FRAME, SIMI_MEM_SIZE, SIMI_MAX_FRAMES in *; lia).
    rewrite Z.ltb_irrefl, W1, Z.eqb_refl. cbn [negb].
    assert (Z.to_nat (ck_num_frames c * SIZEOF_FRAME) = length fbytes) as -> by (unfold fbytes; rewrite frames_bytes_length; unfold SIZEOF_FRAME; lia).
    rewrite take_app_length, drop_app_length. fold mem_size. rewrite (take_ge mbytes) by (unfold mbytes; rewrite array_bytes_length; lia).
    rewrite Z.eqb_refl. cbn [negb]. by rewrite Ef, Em.
  - clear Ef Em. split; ctx_simpl; [by apply (wf_linked o)|exact eq_refl..|exact W1| |].
    + intros i Hi. apply Hf. lia.
    + intros a Ha. rewrite Hm by (unfold mem_size; lia). by rewrite Z.mod_small by apply W5.
Qed.

Lemma load_refused d buf o : fst (simi_ckpt_load d buf o) ≠ SIMI_CKPT_OK → snd (simi_ckpt_load d buf o) = d.
Proof.
  unfold simi_ckpt_load. destruct (_ <? SIZEOF_HEADER); [done|]. destruct (read_header buf) as [h p].
  repeat match goal with |- context [if ?b then (_, d) else _] => destruct b; [done|] end. done.
Qed.

(** C21. A checkpoint resumes where it was taken: the bytes saved from a well-formed context are
    exactly [simi_ckpt_size] many; loading them against the same program image is accepted,
    whatever the target held before; and the restored context runs like the original, with the
    same statuses, results, memory and live registers after any number of instructions.  A buffer
    that is refused, whatever it holds, leaves the target untouched. *)
Theorem ckpt_roundtrip `{World} o c cap d : wf o c → simi_ckpt_size c ≤ cap →
  (∃ bs c', simi_ckpt_save c cap = inr bs ∧ Z.of_nat (length bs) = simi_ckpt_size c ∧
    simi_ckpt_load d bs (Some o) = (SIMI_CKPT_OK, c') ∧
    ∀ n, osame (simi_interp_run c n) (simi_interp_run c' n)) ∧
  (∀ buf o', fst (simi_ckpt_load d buf o') ≠ SIMI_CKPT_OK → snd (simi_ckpt_load d buf o') = d).
Proof.
  intros Hw Hcap. split; [|apply load_refused]. destruct (load_checkpoint o c Hw) as (c' & Hl & Hs). exists (checkpoint c), c'.
  split; [rewrite save_spec by apply Hw; by destruct (Z.ltb_spec cap (simi_ckpt_size c)); [lia|]|].
  split; [apply checkpoint_length|]. split; [done|]. intros n. by apply run_proper.
Qed.
