(* ===== verification/SimiMigrate.v ===== *)
(** Live migration of a SIMI context: kernel/simi_ctx_migrate.c.

    The sender cuts a checkpoint into chunks; the receiver takes them in whatever order and
    multiplicity they arrive, and restores the context when the last one is in.  What net/dspp.c
    puts on the wire is a list of messages. *)

From stdpp Require Import base gmap list list_numbers.
From Stdlib Require Import ZArith Lia Bool.
From S2P Require Import Prelude Bytes Sidecar SimiInterp SimiSpec SimiResume SimiCkpt.
#[local] Open Scope Z_scope.
#[local] Open Scope carr_scope.

Definition DSPP_CTX_CHUNK_BYTES : Z := 1024.
Definition DSPP_CTX_NAME_LEN : nat := 64.
Definition CM_MAX_CKPT_BYTES : Z := SIZEOF_HEADER + SIMI_MAX_FRAMES * SIZEOF_FRAME + SIMI_MEM_SIZE.
Definition CM_MAX_IMAGES : Z := 16.
Definition SIMI_CTX_REGISTRY_MAX : Z := 32.

Definition SIMI_CTXMIG_OK : Z := 0.
Definition SIMI_CTXMIG_ERR_BUSY : Z := 1.
Definition SIMI_CTXMIG_ERR_TOO_LARGE : Z := 2.
Definition SIMI_CTXMIG_ERR_NO_TRANSFER : Z := 3.
Definition SIMI_CTXMIG_ERR_BAD_CHUNK : Z := 4.
Definition SIMI_CTXMIG_ERR_NO_PROGRAM : Z := 5.
Definition SIMI_CTXMIG_ERR_RESTORE : Z := 6.

(** [cm_strncpy] of a possibly null name. *)
Definition cm_strncpy (s : cstr) (n : nat) : String.string :=
  match s with Some s => str_take (n - 1) s | None => String.EmptyString end.

(** * State *)

(** [cm_rx] *)
Record Rx := mkRx {
  rx_active : Z;
  rx_transfer_id : Z;
  rx_total_bytes : Z;
  rx_total_chunks : Z;
  rx_chunks_seen : Z;
  rx_program_hash : Z;
  rx_ctx_name : String.string;
  rx_chunk_present : gmap Z Z;
  rx_buf : gmap Z Z
}.

(** A slot of [cm_reg]: the context is a pointer, 0 when null. *)
Record RegSlot := mkSlot { s_active : Z; s_partition_id : Z; s_name : String.string; s_ctx : Z }.
#[export] Instance CZero_RegSlot : CZero RegSlot := mkSlot 0 0 String.EmptyString 0.

Record Migrator := mkMig {
  cm_images : gmap Z Z;
  cm_image_count : Z;
  cm_rx : Rx;
  cm_landed_ctx : SimiContext;
  cm_landed_valid : Z;
  cm_reg : gmap Z RegSlot
}.

Definition rx_zero : Rx := mkRx 0 0 0 0 0 0 String.EmptyString ∅ ∅.
Definition ctx_zero : SimiContext := mkCtx 0 0 0 0 0 0 ∅ ∅ None.

Definition set_rx (v : Rx) (m : Migrator) : Migrator :=
  mkMig (cm_images m) (cm_image_count m) v (cm_landed_ctx m) (cm_landed_valid m) (cm_reg m).
Definition set_landed (c : SimiContext) (v : Z) (m : Migrator) : Migrator :=
  mkMig (cm_images m) (cm_image_count m) (cm_rx m) c v (cm_reg m).
Definition set_landed_valid (v : Z) (m : Migrator) : Migrator := set_landed (cm_landed_ctx m) v m.
Definition set_images (a : gmap Z Z) (n : Z) (m : Migrator) : Migrator :=
  mkMig a n (cm_rx m) (cm_landed_ctx m) (cm_landed_valid m) (cm_reg m).
Definition set_reg_slots (v : gmap Z RegSlot) (m : Migrator) : Migrator :=
  mkMig (cm_images m) (cm_image_count m) (cm_rx m) (cm_landed_ctx m) (cm_landed_valid m) v.

Definition rx_stop (x : Rx) : Rx :=
  mkRx 0 (rx_transfer_id x) (rx_total_bytes x) (rx_total_chunks x) (rx_chunks_seen x) (rx_program_hash x)
    (rx_ctx_name x) (rx_chunk_present x) (rx_buf x).

(** The kernel memory the pointers lead to. *)
Class Heap := { image_at : Z → SimiObject; ctx_at : Z → SimiContext }.

(** What is sent to another node. *)
Inductive message :=
| CtxBegin (transfer_id dest_node partition_id : Z) (name : cstr) (total_bytes total_chunks program_hash : Z)
| CtxChunk (transfer_id dest_node partition_id chunk_index : Z) (data : list Z).

(** * Operations *)

Section Migrate.
Context `{Heap}.

Definition simi_ctx_migrate_register_image (p : Z) (m : Migrator) : Migrator :=
  if (p =? 0) || (CM_MAX_IMAGES <=? cm_image_count m) then m else
  match find_up (Z.to_nat (cm_image_count m)) 0 (λ i, (cm_images m).[i] =? p) with
  | Some _ => m
  | None => set_images (cm_images m).[cm_image_count m <- p] (cm_image_count m + 1) m
  end.

Definition simi_ctx_migrate_clear_images (m : Migrator) : Migrator :=
  set_images (for_up (Z.to_nat CM_MAX_IMAGES) 0 (λ i a, a.[i <- 0]) (cm_images m)) 0 m.

(** The pointer found, 0 for none. *)
Definition cm_find_image (program_hash : Z) (m : Migrator) : Z :=
  if program_hash =? 0 then 0 else
  match find_up (Z.to_nat (cm_image_count m)) 0
          (λ i, negb ((cm_images m).[i] =? 0) && (simi_ckpt_program_hash (Some (image_at (cm_images m).[i])) =? program_hash)) with
  | Some i => (cm_images m).[i]
  | None => 0
  end.

Definition simi_ctx_migrate_landed (m : Migrator) : SimiContext := cm_landed_ctx m.
Definition simi_ctx_migrate_arrived (m : Migrator) : Z := cm_landed_valid m.

Definition simi_ctx_migrate_reset (m : Migrator) : Migrator := set_landed ctx_zero 0 (set_rx rx_zero m).

(** The chunks of [buf], [len] bytes of it. *)
Fixpoint send_chunks (n : nat) (i tid dest part : Z) (buf : list Z) : list message :=
  match n with
  | O => []
  | S n' =>
      let off := u32 (i * DSPP_CTX_CHUNK_BYTES) in
      let take_n := Z.min (u32 (Z.of_nat (length buf) - off)) DSPP_CTX_CHUNK_BYTES in
      CtxChunk tid dest part i (take (Z.to_nat take_n) (drop (Z.to_nat off) buf)) :: send_chunks n' (i + 1) tid dest part buf
  end.

(** [simi_ctx_migrate_send]: the number of chunks and the messages. *)
Definition simi_ctx_migrate_send (c : SimiContext) (tid dest part : Z) (name : cstr) : Z * list message :=
  match simi_ckpt_save c CM_MAX_CKPT_BYTES with
  | inl _ => (0, [])
  | inr buf =>
      let len := Z.of_nat (length buf) in
      if len =? 0 then (0, []) else
      let total := u32 (len + DSPP_CTX_CHUNK_BYTES - 1) / DSPP_CTX_CHUNK_BYTES in
      (total, CtxBegin tid dest part name len total (simi_ckpt_program_hash (obj c)) :: send_chunks (Z.to_nat total) 0 tid dest part buf)
  end.

Definition simi_ctx_register (part : Z) (name : cstr) (p : Z) (m : Migrator) : Z * Migrator :=
  if p =? 0 then (1, m) else
  match find_up (Z.to_nat SIMI_CTX_REGISTRY_MAX) 0 (λ i, negb (s_active (cm_reg m).[i] =? 0) && (s_ctx (cm_reg m).[i] =? p)) with
  | Some _ => (0, m)
  | None =>
      match find_up (Z.to_nat SIMI_CTX_REGISTRY_MAX) 0 (λ i, s_active (cm_reg m).[i] =? 0) with
      | Some i => (0, set_reg_slots (cm_reg m).[i <- mkSlot 1 part (cm_strncpy name DSPP_CTX_NAME_LEN) p] m)
      | None => (1, m)
      end
  end.

Definition simi_ctx_unregister (p : Z) (m : Migrator) : Migrator :=
  for_up (Z.to_nat SIMI_CTX_REGISTRY_MAX) 0
    (λ i m, let s := (cm_reg m).[i] in
            if negb (s_active s =? 0) && (s_ctx s =? p)
            then set_reg_slots (cm_reg m).[i <- mkSlot 0 (s_partition_id s) (s_name s) 0] m else m) m.

Definition simi_ctx_registered_count (part : Z) (m : Migrator) : Z :=
  count_up (Z.to_nat SIMI_CTX_REGISTRY_MAX) 0 (λ i, negb (s_active (cm_reg m).[i] =? 0) && (s_partition_id (cm_reg m).[i] =? part)).

(** [simi_ctx_migrate_send_partition]: how many contexts were sent, and the messages. *)
Definition simi_ctx_migrate_send_partition (part dest : Z) (m : Migrator) : Z * list message :=
  for_up (Z.to_nat SIMI_CTX_REGISTRY_MAX) 0
    (λ i '(sent, out),
       let s := (cm_reg m).[i] in
       if (s_active s =? 0) || negb (s_partition_id s =? part) then (sent, out) else
       let tid := Z.lor (Z.lor (u64 (Z.shiftl part 40)) (Z.shiftl dest 8)) i in
       let '(n, msgs) := simi_ctx_migrate_send (ctx_at (s_ctx s)) tid dest part (Some (s_name s)) in
       (if 0 <? n then sent + 1 else sent, out ++ msgs)) (0, []).

Definition simi_ctx_migrate_recv_begin (tid : Z) (name : cstr) (total_bytes total_chunks hash : Z) (m : Migrator) : Z * Migrator :=
  let x := cm_rx m in
  if negb (rx_active x =? 0) && negb (rx_transfer_id x =? tid) then (SIMI_CTXMIG_ERR_BUSY, m) else
  if (total_bytes =? 0) || (CM_MAX_CKPT_BYTES <? total_bytes) then (SIMI_CTXMIG_ERR_TOO_LARGE, m) else
  let expect := u32 ((total_bytes + DSPP_CTX_CHUNK_BYTES - 1) / DSPP_CTX_CHUNK_BYTES) in
  if negb (total_chunks =? expect) then (SIMI_CTXMIG_ERR_BAD_CHUNK, m) else
  if cm_find_image hash m =? 0 then (SIMI_CTXMIG_ERR_NO_PROGRAM, m) else
  (SIMI_CTXMIG_OK,
   set_landed_valid 0 (set_rx (mkRx 1 tid total_bytes total_chunks 0 hash (cm_strncpy name DSPP_CTX_NAME_LEN) ∅ ∅) m)).

(** [cm_memcpy] into and out of the reassembly buffer. *)
Fixpoint buf_write (off : Z) (data : list Z) (a : gmap Z Z) : gmap Z Z :=
  match data with
  | [] => a
  | b :: data' => buf_write (off + 1) data' a.[off <- b]
  end.
Definition buf_bytes (n : Z) (a : gmap Z Z) : list Z := map (λ i, a.[i]) (seqZ 0 n).

(** Everything is in: find the program again and restore. *)
Definition recv_complete (m : Migrator) : Z * Migrator :=
  let x := cm_rx m in
  let p := cm_find_image (rx_program_hash x) m in
  if p =? 0 then (SIMI_CTXMIG_ERR_NO_PROGRAM, set_rx (rx_stop x) m) else
  let '(cs, c) := simi_ckpt_load (cm_landed_ctx m) (buf_bytes (rx_total_bytes x) (rx_buf x)) (Some (image_at p)) in
  let m := set_landed c (cm_landed_valid m) (set_rx (rx_stop x) m) in
  if negb (cs =? SIMI_CKPT_OK) then (SIMI_CTXMIG_ERR_RESTORE, m) else (SIMI_CTXMIG_OK, set_landed_valid 1 m).

Definition simi_ctx_migrate_recv_chunk (tid idx : Z) (data : list Z) (m : Migrator) : Z * Migrator :=
  let x := cm_rx m in
  let n := Z.of_nat (length data) in
  if (rx_active x =? 0) || negb (rx_transfer_id x =? tid) then (SIMI_CTXMIG_ERR_NO_TRANSFER, m) else
  if rx_total_chunks x <=? idx then (SIMI_CTXMIG_ERR_BAD_CHUNK, m) else
  if (n =? 0) || (DSPP_CTX_CHUNK_BYTES <? n) then (SIMI_CTXMIG_ERR_BAD_CHUNK, m) else
  let off := u32 (idx * DSPP_CTX_CHUNK_BYTES) in
  if rx_total_bytes x <? off + n then (SIMI_CTXMIG_ERR_BAD_CHUNK, m) else
  let is_last := u32 (idx + 1) =? rx_total_chunks x in
  if negb is_last && negb (n =? DSPP_CTX_CHUNK_BYTES) then (SIMI_CTXMIG_ERR_BAD_CHUNK, m) else
  if is_last && negb (off + n =? rx_total_bytes x) then (SIMI_CTXMIG_ERR_BAD_CHUNK, m) else
  let fresh := (rx_chunk_present x).[idx] =? 0 in
  let x' := mkRx (rx_active x) (rx_transfer_id x) (rx_total_bytes x) (rx_total_chunks x)
              (if fresh then u32 (rx_chunks_seen x + 1) else rx_chunks_seen x) (rx_program_hash x) (rx_ctx_name x)
              (if fresh then (rx_chunk_present x).[idx <- 1] else rx_chunk_present x)
              (buf_write off data (rx_buf x)) in
  let m := set_rx x' m in
  if rx_chunks_seen x' <? rx_total_chunks x' then (SIMI_CTXMIG_OK, m) else recv_complete m.

(** A message arriving at the receiver. *)
Definition recv (msg : message) (m : Migrator) : Z * Migrator :=
  match msg with
  | CtxBegin tid _ _ name bytes chunks hash => simi_ctx_migrate_recv_begin tid name bytes chunks hash m
  | CtxChunk tid _ _ idx data => simi_ctx_migrate_recv_chunk tid idx data m
  end.

End Migrate.

(** * Reassembly *)

Section Reassembly.
Context `{Heap}.

Definition chunk_of (bs : list Z) (i : Z) : list Z :=
  take (Z.to_nat DSPP_CTX_CHUNK_BYTES) (drop (Z.to_nat (i * DSPP_CTX_CHUNK_BYTES)) bs).

(** A checkpoint that fits the buffer, and how many chunks it takes. *)
Definition fits (bs : list Z) : Prop := 0 < Z.of_nat (length bs) ≤ CM_MAX_CKPT_BYTES.
Definition chunks_of (bs : list Z) : Z := (Z.of_nat (length bs) + DSPP_CTX_CHUNK_BYTES - 1) / DSPP_CTX_CHUNK_BYTES.

Lemma chunks_bounds bs : fits bs → let t := chunks_of bs in
  0 < t ∧ (t - 1) * 1024 < Z.of_nat (length bs) ≤ t * 1024 ∧ t < 2 ^ 20.
Proof.
  intros Hf. cbv zeta. unfold fits, chunks_of, DSPP_CTX_CHUNK_BYTES in *.
  assert (CM_MAX_CKPT_BYTES < 2 ^ 19) as Hm by done.
  pose proof (Z.div_mod (Z.of_nat (length bs) + 1024 - 1) 1024 ltac:(lia)) as E.
  pose proof (Z.mod_pos_bound (Z.of_nat (length bs) + 1024 - 1) 1024 ltac:(lia)). lia.
Qed.

Lemma chunk_of_length bs i : fits bs → 0 ≤ i < chunks_of bs →
  Z.of_nat (length (chunk_of bs i)) = Z.min (Z.of_nat (length bs) - i * 1024) 1024.
Proof.
  intros Hf Hi. pose proof (chunks_bounds bs Hf) as Hb. cbv zeta in Hb. unfold chunk_of, DSPP_CTX_CHUNK_BYTES.
  rewrite length_take, length_drop. lia.
Qed.

Lemma send_chunks_eq n : ∀ i tid dest part bs, fits bs → 0 ≤ i → i + Z.of_nat n = chunks_of bs →
  send_chunks n i tid dest part bs = map (λ j, CtxChunk tid dest part j (chunk_of bs j)) (seqZ i (Z.of_nat n)).
Proof.
  induction n as [|n IH]; intros i tid dest part bs Hf H0 Hn; [done|]. pose proof (chunks_bounds bs Hf) as Hb. cbv zeta in Hb.
  rewrite seqZ_cons by lia. cbn [send_chunks map]. rewrite IH by (done || lia). replace (Z.pred (Z.of_nat (S n))) with (Z.of_nat n) by lia.
  f_equal. f_equal. unfold chunk_of, DSPP_CTX_CHUNK_BYTES. rewrite !(u32_small (i * 1024)), u32_small by lia.
  destruct (Z.le_gt_cases (Z.of_nat (length bs) - i * 1024) 1024) as [Hle|Hgt].
  - rewrite Z.min_l by done. rewrite (take_ge (drop (Z.to_nat (i * 1024)) bs)), (take_ge (drop (Z.to_nat (i * 1024)) bs)); rewrite ?length_drop; (done || lia).
  - by rewrite Z.min_r by lia.
Qed.

Lemma buf_write_spec data : ∀ off a k, (buf_write off data a).[k] =
  if (off <=? k) && (k <? off + Z.of_nat (length data)) then default 0 (data !! Z.to_nat (k - off)) else a.[k].
Proof.
  induction data as [|b data IH]; intros off a k; cbn [buf_write length].
  { destruct (Z.leb_spec off k), (Z.ltb_spec k (off + Z.of_nat 0)); (done || lia). }
  rewrite IH, aget_upd. destruct (Z.leb_spec (off + 1) k), (Z.ltb_spec k (off + 1 + Z.of_nat (length data))), (Z.leb_spec off k),
    (Z.ltb_spec k (off + Z.of_nat (S (length data)))), (Z.eqb_spec off k); cbn [andb]; try lia; try done.
  - replace (Z.to_nat (k - off)) with (S (Z.to_nat (k - (off + 1)))) by lia. done.
  - subst. by rewrite Z.sub_diag.
Qed.

Lemma buf_bytes_eq bs a : (∀ k, 0 ≤ k < Z.of_nat (length bs) → Some a.[k] = bs !! Z.to_nat k) → buf_bytes (Z.of_nat (length bs)) a = bs.
Proof.
  intros Ha. unfold buf_bytes. apply list_eq. intros i. change (map ?f ?l) with (f <$> l). rewrite list_lookup_fmap.
  destruct (decide (i < length bs)%nat) as [Hi|Hi].
  - rewrite lookup_seqZ_lt by lia. cbn. rewrite Ha by lia. f_equal. lia.
  - rewrite lookup_seqZ_ge by lia. symmetry. cbn. apply lookup_ge_None_2. lia.
Qed.

Lemma count_up_all n : ∀ i p, count_up n i p = Z.of_nat n → ∀ k, i ≤ k < i + Z.of_nat n → p k = true.
Proof.
  induction n as [|n IH]; intros i p E k Hk; [lia|]. cbn [count_up] in E. pose proof (count_up_bounds n (i + 1) p) as Hb.
  destruct (p i) eqn:Ei; [|lia]. destruct (decide (k = i)) as [->|]; [done|]. apply (IH (i + 1)); lia.
Qed.

(** The receiver in the middle of transfer [tid] of [bs], for the program found under [hash]. *)
Record collecting (m : Migrator) (tid hash : Z) (bs : list Z) (x : Rx) : Prop := {
  co_rx : cm_rx m = x;
  co_active : rx_active x = 1;
  co_tid : rx_transfer_id x = tid;
  co_bytes : rx_total_bytes x = Z.of_nat (length bs);
  co_chunks : rx_total_chunks x = chunks_of bs;
  co_hash : rx_program_hash x = hash;
  co_seen : rx_chunks_seen x = count_up (Z.to_nat (chunks_of bs)) 0 (λ i, negb ((rx_chunk_present x).[i] =? 0));
  co_more : rx_chunks_seen x < chunks_of bs;
  co_data : ∀ i, 0 ≤ i < chunks_of bs → (rx_chunk_present x).[i] ≠ 0 →
    ∀ k, i * 1024 ≤ k < (i + 1) * 1024 → k < Z.of_nat (length bs) → Some (rx_buf x).[k] = bs !! Z.to_nat k
}.

Definition same_images (m m' : Migrator) : Prop := cm_images m' = cm_images m ∧ cm_image_count m' = cm_image_count m.

Lemma find_image_same m m' hash : same_images m m' → cm_find_image hash m' = cm_find_image hash m.
Proof. intros [E1 E2]. unfold cm_find_image. by rewrite E1, E2. Qed.

(** The receiver's record after chunk [i]. *)
Definition rx_with (i : Z) (data : list Z) (x : Rx) : Rx :=
  let fresh := (rx_chunk_present x).[i] =? 0 in
  mkRx (rx_active x) (rx_transfer_id x) (rx_total_bytes x) (rx_total_chunks x)
    (if fresh then u32 (rx_chunks_seen x + 1) else rx_chunks_seen x) (rx_program_hash x) (rx_ctx_name x)
    (if fresh then (rx_chunk_present x).[i <- 1] else rx_chunk_present x)
    (buf_write (i * 1024) data (rx_buf x)).

(** A chunk of the transfer is taken in. *)
Lemma recv_chunk_accepts m tid hash bs x i : collecting m tid hash bs x → fits bs → 0 ≤ i < chunks_of bs →
  simi_ctx_migrate_recv_chunk tid i (chunk_of bs i) m =
    let x' := rx_with i (chunk_of bs i) x in
    if rx_chunks_seen x' <? rx_total_chunks x then (SIMI_CTXMIG_OK, set_rx x' m) else recv_complete (set_rx x' m).
Proof.
  intros [C1 C2 C3 C4 C5 C6 C7 C8 C9] Hf Hi. pose proof (chunks_bounds bs Hf) as Hb. cbv zeta in Hb.
  pose proof (chunk_of_length bs i Hf Hi) as Hl. unfold simi_ctx_migrate_recv_chunk. rewrite C1, C2, C3, C4, C5, Hl, Z.eqb_refl.
  unfold DSPP_CTX_CHUNK_BYTES. rewrite !u32_small by lia. cbn [negb orb Z.eqb].
  destruct (Z.leb_spec (chunks_of bs) i); [lia|].
  destruct (Z.eqb_spec (Z.min (Z.of_nat (length bs) - i * 1024) 1024) 0); [lia|].
  destruct (Z.ltb_spec 1024 (Z.min (Z.of_nat (length bs) - i * 1024) 1024)); [lia|]. cbn [orb].
  destruct (Z.ltb_spec (Z.of_nat (length bs)) (i * 1024 + Z.min (Z.of_nat (length bs) - i * 1024) 1024)); [lia|].
  destruct (Z.eqb_spec (i + 1) (chunks_of bs)), (Z.eqb_spec (Z.min (Z.of_nat (length bs) - i * 1024) 1024) 1024),
    (Z.eqb_spec (i * 1024 + Z.min (Z.of_nat (length bs) - i * 1024) 1024) (Z.of_nat (length bs))); cbn [negb andb]; try lia; unfold rx_with; by rewrite ?C2, ?C3, ?C4, ?C5.
Qed.

Lemma rx_with_spec tid hash bs m x i : collecting m tid hash bs x → fits bs → 0 ≤ i < chunks_of bs →
  let x' := rx_with i (chunk_of bs i) x in
  rx_chunks_seen x' = count_up (Z.to_nat (chunks_of bs)) 0 (λ j, negb ((rx_chunk_present x').[j] =? 0)) ∧
  (∀ j, (rx_chunk_present x').[j] ≠ 0 ↔ (rx_chunk_present x).[j] ≠ 0 ∨ j = i) ∧
  (∀ j, 0 ≤ j < chunks_of bs → (rx_chunk_present x').[j] ≠ 0 →
    ∀ k, j * 1024 ≤ k < (j + 1) * 1024 → k < Z.of_nat (length bs) → Some (rx_buf x').[k] = bs !! Z.to_nat k).
Proof.
  intros [C1 C2 C3 C4 C5 C6 C7 C8 C9] Hf Hi. cbv zeta. pose proof (chunks_bounds bs Hf) as Hb. cbv zeta in Hb.
  assert (∀ j, (rx_chunk_present (rx_with i (chunk_of bs i) x)).[j] ≠ 0 ↔ (rx_chunk_present x).[j] ≠ 0 ∨ j = i) as Hp.
  { intros j. unfold rx_with. cbn [rx_chunk_present]. destruct (Z.eqb_spec (rx_chunk_present x).[i] 0) as [E|E].
    - rewrite aget_upd. destruct (Z.eqb_spec i j) as [<-|]; [|split; [tauto|by intros [|]]]. split; [by right|done].
    - split; [tauto|]. by intros [?| ->]. }
  split; [|split; [exact Hp|]].
  - unfold rx_with. cbn [rx_chunks_seen rx_chunk_present]. destruct (Z.eqb_spec (rx_chunk_present x).[i] 0) as [E|E]; [|exact C7].
    rewrite (count_up_upd _ 0 (λ j, negb ((rx_chunk_present x).[j] =? 0)) _ i), <- C7;
      [|lia|intros k Hk; rewrite aget_upd; by rewrite (proj2 (Z.eqb_neq i k)) by done].
    rewrite aget_upd_eq, E. cbn [negb Z.eqb]. pose proof (count_up_bounds (Z.to_nat (chunks_of bs)) 0 (λ j, negb ((rx_chunk_present x).[j] =? 0))).
    rewrite u32_small; lia.
  - intros j Hj Hpj k Hk Hkl. unfold rx_with. cbn [rx_buf]. rewrite buf_write_spec, chunk_of_length by done.
    destruct (decide (j = i)) as [->|Hne].
    + destruct (Z.leb_spec (i * 1024) k); [|lia]. destruct (Z.ltb_spec k (i * 1024 + Z.min (Z.of_nat (length bs) - i * 1024) 1024)); [|lia]. cbn [andb].
      unfold chunk_of, DSPP_CTX_CHUNK_BYTES. rewrite lookup_take_lt, lookup_drop by lia. replace (Z.to_nat (i * 1024) + Z.to_nat (k - i * 1024))%nat with (Z.to_nat k) by lia.
      destruct (lookup_lt_is_Some_2 bs (Z.to_nat k)) as [b ->]; [lia|done].
    + destruct (Z.leb_spec (i * 1024) k), (Z.ltb_spec k (i * 1024 + Z.min (Z.of_nat (length bs) - i * 1024) 1024)); cbn [andb]; try lia;
        (apply (C9 j); [done| |done..]; by apply Hp in Hpj as [|]).
Qed.

(** The effect of a chunk: either more are missing, or the context has landed. *)
Lemma chunk_step m tid hash bs x i c' : collecting m tid hash bs x → fits bs → 0 ≤ i < chunks_of bs → cm_find_image hash m ≠ 0 →
  (∀ d, simi_ckpt_load d bs (Some (image_at (cm_find_image hash m))) = (SIMI_CKPT_OK, c')) →
  let m' := snd (simi_ctx_migrate_recv_chunk tid i (chunk_of bs i) m) in
  same_images m m' ∧
  ((∃ x', collecting m' tid hash bs x' ∧ ∀ j, (rx_chunk_present x).[j] ≠ 0 ∨ j = i → (rx_chunk_present x').[j] ≠ 0) ∨
   (cm_landed_valid m' = 1 ∧ cm_landed_ctx m' = c')).
Proof.
  intros HC Hf Hi Hp Hl. cbv zeta. rewrite (recv_chunk_accepts m tid hash bs x i HC Hf Hi). cbv zeta.
  destruct (rx_with_spec tid hash bs m x i HC Hf Hi) as (W1 & W2 & W3). pose proof (chunks_bounds bs Hf) as Hb. cbv zeta in Hb. destruct HC as [C1 C2 C3 C4 C5 C6 C7 C8 C9].
  set (x' := rx_with i (chunk_of bs i) x) in *. rewrite C5. destruct (Z.ltb_spec (rx_chunks_seen x') (chunks_of bs)) as [Hlt|Hge].
  - split; [done|]. left. exists x'. split; [|intros j; apply W2]. by split.
  - assert (∀ k, 0 ≤ k < chunks_of bs → (rx_chunk_present x').[k] ≠ 0) as Hall.
    { intros k Hk. pose proof (count_up_bounds (Z.to_nat (chunks_of bs)) 0 (λ j, negb ((rx_chunk_present x').[j] =? 0))) as Hc.
      pose proof (count_up_all (Z.to_nat (chunks_of bs)) 0 (λ j, negb ((rx_chunk_present x').[j] =? 0)) ltac:(lia) k ltac:(lia)) as E. by apply negb_true_iff, Z.eqb_neq in E. }
    assert (buf_bytes (rx_total_bytes x') (rx_buf x') = bs) as Ebuf.
    { unfold x', rx_with. cbn [rx_total_bytes]. rewrite C4. apply buf_bytes_eq. intros k Hk.
      assert (0 ≤ k / 1024 < chunks_of bs) as Hj by (split; [apply Z.div_pos; lia|apply Z.div_lt_upper_bound; lia]).
      apply (W3 (k / 1024) Hj (Hall _ Hj)); [|lia]. pose proof (Z.div_mod k 1024 ltac:(lia)). pose proof (Z.mod_pos_bound k 1024 ltac:(lia)). lia. }
    unfold recv_complete. cbn [cm_rx set_rx cm_landed_ctx cm_landed_valid]. rewrite Ebuf.
    assert (rx_program_hash x' = hash) as -> by exact C6. rewrite (find_image_same m (set_rx x' m)) by done.
    rewrite (proj2 (Z.eqb_neq _ 0) Hp), Hl. by split; [|right].
Qed.

(** A message of another transfer changes nothing while one is in flight. *)
Definition foreign (tid : Z) (e : message) : Prop :=
  match e with CtxBegin t _ _ _ _ _ _ | CtxChunk t _ _ _ _ => t ≠ tid end.

Lemma foreign_ignored m tid hash bs x e : collecting m tid hash bs x → foreign tid e → snd (recv e m) = m.
Proof.
  intros [C1 C2 C3 C4 C5 C6 C7 C8 C9] He. destruct e as [t d p nm tb tc h|t d p i data]; cbn [recv foreign] in *.
  - unfold simi_ctx_migrate_recv_begin. rewrite C1, C2, C3. by rewrite (proj2 (Z.eqb_neq tid t)) by done.
  - unfold simi_ctx_migrate_recv_chunk. rewrite C1, C2, C3. by rewrite (proj2 (Z.eqb_neq tid t)) by done.
Qed.

Definition receive (es : list message) (m : Migrator) : Migrator := foldl (λ m e, snd (recv e m)) m es.

Lemma receive_all tid hash bs c' dest part es : ∀ m x, collecting m tid hash bs x → fits bs → cm_find_image hash m ≠ 0 →
  (∀ d, simi_ckpt_load d bs (Some (image_at (cm_find_image hash m))) = (SIMI_CKPT_OK, c')) →
  Forall (λ e, foreign tid e ∨ ∃ i, 0 ≤ i < chunks_of bs ∧ e = CtxChunk tid dest part i (chunk_of bs i)) es →
  (∀ i, 0 ≤ i < chunks_of bs → (rx_chunk_present x).[i] ≠ 0 ∨ CtxChunk tid dest part i (chunk_of bs i) ∈ es) →
  ∃ k, cm_landed_valid (receive (take k es) m) = 1 ∧ cm_landed_ctx (receive (take k es) m) = c'.
Proof.
  induction es as [|e es IH]; intros m x HC Hf Hp Hl Hes Hcov.
  - exfalso. assert (∀ i, 0 ≤ i < chunks_of bs → (rx_chunk_present x).[i] ≠ 0) as Hall by (intros i Hi; destruct (Hcov i Hi) as [|Hin]; [done|by apply not_elem_of_nil in Hin]).
    pose proof (co_more _ _ _ _ _ HC) as Hm. rewrite (co_seen _ _ _ _ _ HC) in Hm.
    pose proof (count_up_negb (Z.to_nat (chunks_of bs)) 0 (λ i, (rx_chunk_present x).[i] =? 0)) as E. rewrite E in Hm.
    rewrite count_up_zero in Hm; [lia|]. intros k Hk. specialize (Hall k ltac:(lia)). lia.
  - apply Forall_cons in Hes as [He Hes]. destruct He as [He|(i & Hi & ->)].
    + destruct (IH m x HC Hf Hp Hl Hes) as (k & Hk).
      { intros i Hi. destruct (Hcov i Hi) as [|Hin]; [by left|]. right. apply elem_of_cons in Hin as [<-|]; done. }
      exists (S k). unfold receive in *. cbn [take foldl]. by rewrite (foreign_ignored m tid hash bs x).
    + destruct (chunk_step m tid hash bs x i c' HC Hf Hi Hp Hl) as [Him [(x' & HC' & Hpr)|Hland]]; [|by exists 1%nat].
      set (m' := snd (simi_ctx_migrate_recv_chunk tid i (chunk_of bs i) m)) in *. pose proof (find_image_same m m' hash Him) as Ef.
      destruct (IH m' x' HC' Hf) as (k & Hk); [by rewrite Ef|by rewrite Ef|done| |].
      { intros j Hj. destruct (Hcov j Hj) as [|Hin]; [left; apply Hpr; by left|]. apply elem_of_cons in Hin as [E|]; [|by right].
        left. apply Hpr. right. by injection E. }
      exists (S k). unfold receive in *. cbn [take foldl recv]. by fold m'.
Qed.

End Reassembly.

(** * Moving a computation *)

Section Moving.
Context `{Heap} `{World} {HWok : WorldOk}.

Lemma checkpoint_fits c : frame_top c < SIMI_MAX_FRAMES → fits (checkpoint c).
Proof.
  intros Ht. unfold fits. rewrite checkpoint_length. assert (0 ≤ ck_num_frames c ≤ SIMI_MAX_FRAMES) as Hn
    by (unfold ck_num_frames, SIMI_MAX_FRAMES in *; destruct (Z.ltb_spec (frame_top c) 0); lia).
  unfold simi_ckpt_size, CM_MAX_CKPT_BYTES, SIZEOF_HEADER, SIZEOF_FRAME, SIMI_MEM_SIZE. lia.
Qed.

Lemma send_spec c tid dest part name : frame_top c < SIMI_MAX_FRAMES → let bs := checkpoint c in
  simi_ctx_migrate_send c tid dest part name =
    (chunks_of bs, CtxBegin tid dest part name (Z.of_nat (length bs)) (chunks_of bs) (simi_ckpt_program_hash (obj c)) ::
                   map (λ i, CtxChunk tid dest part i (chunk_of bs i)) (seqZ 0 (chunks_of bs))).
Proof.
  intros Hw. cbv zeta. pose proof (checkpoint_fits c Hw) as Hf. pose proof (chunks_bounds _ Hf) as Hb. cbv zeta in Hb.
  unfold simi_ctx_migrate_send. rewrite (save_spec c _ Hw), <- (checkpoint_length c).
  unfold fits in Hf. destruct (Z.ltb_spec CM_MAX_CKPT_BYTES (Z.of_nat (length (checkpoint c)))); [lia|].
  destruct (Z.eqb_spec (Z.of_nat (length (checkpoint c))) 0); [lia|].
  rewrite u32_small by (unfold DSPP_CTX_CHUNK_BYTES; lia). fold (chunks_of (checkpoint c)). cbv zeta.
  rewrite send_chunks_eq by (done || lia). by rewrite Z2Nat.id by lia.
Qed.

Lemma begin_collects m tid name bs hash : fits bs → rx_active (cm_rx m) = 0 ∨ rx_transfer_id (cm_rx m) = tid → cm_find_image hash m ≠ 0 →
  let m' := snd (simi_ctx_migrate_recv_begin tid name (Z.of_nat (length bs)) (chunks_of bs) hash m) in
  same_images m m' ∧ ∃ x, collecting m' tid hash bs x.
Proof.
  intros Hf Hfree Hp. cbv zeta. pose proof (chunks_bounds _ Hf) as Hb. cbv zeta in Hb. unfold simi_ctx_migrate_recv_begin.
  assert ((negb (rx_active (cm_rx m) =? 0) && negb (rx_transfer_id (cm_rx m) =? tid)) = false) as -> by lia.
  unfold fits in Hf. destruct (Z.eqb_spec (Z.of_nat (length bs)) 0); [lia|]. destruct (Z.ltb_spec CM_MAX_CKPT_BYTES (Z.of_nat (length bs))); [lia|]. cbn [orb].
  fold (chunks_of bs). rewrite u32_small by lia. rewrite Z.eqb_refl. cbn [negb]. rewrite (proj2 (Z.eqb_neq _ 0) Hp). split; [done|].
  eexists. split; try done; cbn [snd set_landed_valid set_landed set_rx cm_rx rx_chunks_seen rx_chunk_present].
  - rewrite count_up_zero; [done|]. intros k _. done.
  - lia.
Qed.

(** C6. Live migration is transparent.  A program that has run [a] instructions here can be sent:
    the messages are one BEGIN and the chunks of its checkpoint.  At a receiver with no other
    transfer in flight that finds this program under its hash, once the BEGIN and then every chunk
    has arrived - in any order, any number of times, mixed with messages of other transfers - the
    context has landed, and running it for [b] more instructions there ends like running the
    program for [a + b] instructions here, on the same catalog. *)
Theorem migration_transparent o name c0 a s c tid dest part label :
  program_ok o → simi_interp_init (Some o) name = (0, c0) → simi_interp_run c0 a = Stopped s c →
  ∃ begin chunks, simi_ctx_migrate_send c tid dest part label = (Z.of_nat (length chunks), begin :: chunks) ∧ chunks ≠ [] ∧
  ∀ m es, rx_active (cm_rx m) = 0 ∨ rx_transfer_id (cm_rx m) = tid →
    cm_find_image (simi_ckpt_program_hash (Some o)) m ≠ 0 → image_at (cm_find_image (simi_ckpt_program_hash (Some o)) m) = o →
    Forall (λ e, foreign tid e ∨ e ∈ chunks) es → (∀ e, e ∈ chunks → e ∈ es) →
    ∃ k, let m' := receive (begin :: take k es) m in
      cm_landed_valid m' = 1 ∧ ∀ b, osame (simi_interp_run c0 (a + b)) (simi_interp_run (cm_landed_ctx m') b).
Proof.
  intros Ho Hinit Hrun. destruct (init_wf o name c0 Ho Hinit) as (Hi0 & E0 & Es).
  assert (wf o c) as Hw.
  { rewrite run_loop in Hrun by (done || apply Hi0). pose proof (loop_wf o a c0 Ho Hi0) as HI. by rewrite Hrun in HI. }
  destruct (load_checkpoint o c Hw) as (c' & Hl & Hs). pose proof (checkpoint_fits c (proj2 (wf_top _ _ Hw))) as Hf. pose proof (chunks_bounds _ Hf) as Hb. cbv zeta in Hb.
  rewrite (send_spec c tid dest part label (proj2 (wf_top _ _ Hw))), (wf_obj _ _ Hw). cbv zeta. set (bs := checkpoint c) in *. eexists _, _. split; [rewrite length_map, length_seqZ; f_equal; lia|].
  split; [rewrite seqZ_cons by lia; done|]. intros m es Hfree Hp Him Hes Hcov.
  destruct (begin_collects m tid label bs (simi_ckpt_program_hash (Some o)) Hf Hfree Hp) as [Hsame (x & HC)].
  set (m1 := snd (simi_ctx_migrate_recv_begin tid label (Z.of_nat (length bs)) (chunks_of bs) (simi_ckpt_program_hash (Some o)) m)) in *.
  pose proof (find_image_same m m1 (simi_ckpt_program_hash (Some o)) Hsame) as Ef.
  assert (∀ e, e ∈ map (λ i, CtxChunk tid dest part i (chunk_of bs i)) (seqZ 0 (chunks_of bs)) ↔
    ∃ i, 0 ≤ i < chunks_of bs ∧ e = CtxChunk tid dest part i (chunk_of bs i)) as Hin.
  { intros e. rewrite list_elem_of_fmap. setoid_rewrite elem_of_seqZ. split; intros (i & H1 & H2); exists i; (split; [lia || done|lia || done]). }
  destruct (receive_all tid (simi_ckpt_program_hash (Some o)) bs c' dest part es m1 x HC Hf) as (k & Hv & Hc).
  - by rewrite Ef.
  - by rewrite Ef, Him.
  - eapply Forall_impl; [exact Hes|]. intros e [|He]; [by left|right; by apply Hin].
  - intros i Hi. right. apply Hcov, Hin. by exists i.
  - exists k. cbv zeta. unfold receive in *. cbn [foldl recv]. fold m1. split; [done|]. intros b. rewrite Hc, run_split, Hrun. by apply run_proper.
Qed.

End Moving.
