(* ===== verification/SimiWorkload.v ===== *)
(** The pool of live execution contexts: kernel/workload_ctx.c.

    A slot holds a parsed program and the context that runs it.  Pointers to slot [i]'s program and
    context are the number [i + 1]; the registries of kernel/simi_ctx_migrate.c hold such pointers. *)

From stdpp Require Import base gmap list list_numbers.
From Stdlib Require Import ZArith Lia Bool Ascii.
From Stdlib Require String.
From S2P Require Import Prelude Bytes Sidecar SimiInterp SimiSpec SimiResume SimiCkpt SimiMigrate.
#[local] Open Scope Z_scope.
#[local] Open Scope carr_scope.

Definition WLCTX_MAX : Z := 8.
Definition WLCTX_NAME_LEN : nat := 64.
Definition WLCTX_ENTRY_LEN : nat := 32.
Definition WLCTX_MAX_INSTR : Z := 4096.
Definition WLCTX_MAX_LITERALS : Z := 1024.
Definition WLCTX_MAX_ENTRIES : Z := 32.
Definition WLCTX_MAX_NAMES : Z := 32.
Definition WC_SIMI_MAGIC : Z := 0x314D4954.
Definition SIZEOF_ENTRY : Z := 36.
Definition SIZEOF_NAME : Z := 32.

Definition WLCTX_OK : Z := 0.
Definition WLCTX_ERR_FULL : Z := 1.
Definition WLCTX_ERR_NOT_FOUND : Z := 2.
Definition WLCTX_ERR_BAD_IMAGE : Z := 3.
Definition WLCTX_ERR_TOO_BIG : Z := 4.
Definition WLCTX_ERR_NO_ENTRY : Z := 5.
Definition WLCTX_ERR_EXISTS : Z := 6.

(** [struct WLCtxSlot] *)
Record WLCtxSlot := mkWl {
  w_active : Z;
  w_workload : String.string;
  w_entry : String.string;
  w_partition_id : Z;
  w_ctx : SimiContext;
  w_obj : SimiObject
}.
#[export] Instance CZero_WLCtxSlot : CZero WLCtxSlot :=
  mkWl 0 String.EmptyString String.EmptyString 0 ctx_zero (mkObject 0 0 0 0 ∅ ∅ ∅ ∅).

(** The pool and the migration registries. *)
Record Pool := mkPool { wl_slots : gmap Z WLCtxSlot; wl_mig : Migrator }.

Definition slot_ptr (i : Z) : Z := i + 1.

(** The kernel memory behind the pointers. *)
Definition pool_heap (s : Pool) : Heap := {|
  image_at p := w_obj (wl_slots s).[p - 1];
  ctx_at p := w_ctx (wl_slots s).[p - 1]
|}.

Definition set_slot (i : Z) (w : WLCtxSlot) (s : Pool) : Pool := mkPool (wl_slots s).[i <- w] (wl_mig s).
Definition set_active (v : Z) (w : WLCtxSlot) : WLCtxSlot :=
  mkWl v (w_workload w) (w_entry w) (w_partition_id w) (w_ctx w) (w_obj w).
Definition set_ctx (c : SimiContext) (w : WLCtxSlot) : WLCtxSlot :=
  mkWl (w_active w) (w_workload w) (w_entry w) (w_partition_id w) c (w_obj w).
Definition set_program (c : SimiContext) (o : SimiObject) (w : WLCtxSlot) : WLCtxSlot :=
  mkWl (w_active w) (w_workload w) (w_entry w) (w_partition_id w) c o.

Definition wl_nat : nat := Z.to_nat WLCTX_MAX.

(** [wc_strcpy] *)
Definition wc_strcpy (s : String.string) (n : nat) : String.string := str_take (n - 1) s.
Definition wc_streq : String.string → String.string → bool := sidecar_streq.

Definition wlctx_init (s : Pool) : Pool :=
  let s := for_up wl_nat 0 (λ i s, set_slot i (set_active 0 (wl_slots s).[i]) s) s in
  mkPool (wl_slots s) (simi_ctx_migrate_clear_images (wl_mig s)).

Definition wc_find (workload : cstr) (s : Pool) : option Z :=
  match workload with
  | None => None
  | Some nm => find_up wl_nat 0 (λ i, negb (w_active (wl_slots s).[i] =? 0) && wc_streq (w_workload (wl_slots s).[i]) nm)
  end.

Definition wlctx_has (workload : cstr) (s : Pool) : bool := match wc_find workload s with Some _ => true | None => false end.

(** A pointer, 0 for none. *)
Definition wlctx_get (workload : cstr) (s : Pool) : Z := match wc_find workload s with Some i => slot_ptr i | None => 0 end.

Definition wlctx_status_of (workload : cstr) (s : Pool) : Z :=
  match wc_find workload s with Some i => s32 (status (w_ctx (wl_slots s).[i])) | None => -1 end.

Definition wlctx_count (s : Pool) : Z := count_up wl_nat 0 (λ i, negb (w_active (wl_slots s).[i] =? 0)).

(** * Parsing an uploaded image *)

(** The characters up to the terminator; without one, to the end of the table. *)
Fixpoint cstring (bs : list Z) : String.string :=
  match bs with
  | [] => String.EmptyString
  | b :: bs' => if b =? 0 then String.EmptyString else String.String (ascii_of_N (Z.to_N b)) (cstring bs')
  end.

Fixpoint read_entries (n : nat) (i : Z) (bs : list Z) : gmap Z SimiEntry :=
  match n with
  | O => ∅
  | S n' =>
      (read_entries n' (i + 1) (drop (Z.to_nat SIZEOF_ENTRY) bs)).[i <-
        mkSimiEntry (cstring bs) (le_word (take 4 (drop (Z.to_nat SIZEOF_NAME) bs)))]
  end.
Fixpoint read_names (n : nat) (i : Z) (bs : list Z) : gmap Z (gmap Z Z) :=
  match n with
  | O => ∅
  | S n' => (read_names n' (i + 1) (drop (Z.to_nat SIZEOF_NAME) bs)).[i <- fst (read_array 1 (Z.to_nat SIZEOF_NAME) 0 bs)]
  end.

Definition wc_rd32 (bs : list Z) : Z := le_word (take 4 bs).

(** [wc_parse] of an image of [length img] bytes: a refusal, or the program. *)
Definition wc_parse (img : option (list Z)) : Z + SimiObject :=
  match img with
  | None => inl WLCTX_ERR_BAD_IMAGE
  | Some img =>
      let size := Z.of_nat (length img) in
      if size <? 20 then inl WLCTX_ERR_BAD_IMAGE else
      if negb (wc_rd32 img =? WC_SIMI_MAGIC) then inl WLCTX_ERR_BAD_IMAGE else
      let n_instr := wc_rd32 (drop 4 img) in
      let n_lit := wc_rd32 (drop 8 img) in
      let n_ent := wc_rd32 (drop 12 img) in
      let n_nam := wc_rd32 (drop 16 img) in
      if (WLCTX_MAX_INSTR <? n_instr) || (WLCTX_MAX_LITERALS <? n_lit) || (WLCTX_MAX_ENTRIES <? n_ent) || (WLCTX_MAX_NAMES <? n_nam)
      then inl WLCTX_ERR_TOO_BIG else
      let need := u64 (20 + n_instr * 8 + n_lit * 8 + n_ent * SIZEOF_ENTRY + n_nam * SIZEOF_NAME) in
      if size <? need then inl WLCTX_ERR_BAD_IMAGE else
      let p := drop 20 img in
      let '(instr, p) := read_array 8 (Z.to_nat n_instr) 0 p in
      let '(literals, p) := read_array 8 (Z.to_nat n_lit) 0 p in
      let ents := take (Z.to_nat (n_ent * SIZEOF_ENTRY)) p in
      let p := drop (Z.to_nat (n_ent * SIZEOF_ENTRY)) p in
      inr (mkObject n_instr n_lit n_ent n_nam instr literals (read_entries (Z.to_nat n_ent) 0 ents) (read_names (Z.to_nat n_nam) 0 p))
  end.

(** * Operations *)

Definition default_entry (entry : cstr) : String.string :=
  match entry with Some e => e | None => String.String "m" (String.String "a" (String.String "i" (String.String "n" String.EmptyString))) end.

Definition wlctx_start (workload : cstr) (img : option (list Z)) (entry : cstr) (part : Z) (s : Pool) : Z * Pool :=
  match workload with
  | None | Some String.EmptyString => (WLCTX_ERR_NOT_FOUND, s)
  | Some nm =>
      match wc_find workload s with
      | Some _ => (WLCTX_ERR_EXISTS, s)
      | None =>
          match find_up wl_nat 0 (λ i, w_active (wl_slots s).[i] =? 0) with
          | None => (WLCTX_ERR_FULL, s)
          | Some i =>
              match wc_parse img with
              | inl rc => (rc, s)
              | inr o =>
                  let '(rc, c) := simi_interp_init (Some o) (Some (default_entry entry)) in
                  let w := set_program c o (wl_slots s).[i] in
                  if negb (rc =? 0) then (WLCTX_ERR_NO_ENTRY, set_slot i w s) else
                  let w := mkWl 1 (wc_strcpy nm WLCTX_NAME_LEN) (wc_strcpy (default_entry entry) WLCTX_ENTRY_LEN) part c o in
                  let s := set_slot i w s in
                  let m := simi_ctx_migrate_register_image (slot_ptr i) (wl_mig s) in
                  let '(_, m) := simi_ctx_register part (Some nm) (slot_ptr i) m in
                  (WLCTX_OK, mkPool (wl_slots s) m)
              end
          end
      end
  end.

Definition wlctx_stop (workload : cstr) (s : Pool) : Z * Pool :=
  match wc_find workload s with
  | None => (WLCTX_ERR_NOT_FOUND, s)
  | Some i =>
      (WLCTX_OK, set_slot i (set_active 0 (wl_slots s).[i]) (mkPool (wl_slots s) (simi_ctx_unregister (slot_ptr i) (wl_mig s))))
  end.

Definition wlctx_restart (workload : cstr) (s : Pool) : Z * Pool :=
  match wc_find workload s with
  | None => (WLCTX_ERR_NOT_FOUND, s)
  | Some i =>
      let w := (wl_slots s).[i] in
      let '(rc, c) := simi_interp_init (Some (w_obj w)) (Some (w_entry w)) in
      (if negb (rc =? 0) then WLCTX_ERR_NO_ENTRY else WLCTX_OK, set_slot i (set_ctx c w) s)
  end.

Section Step.
Context `{World}.

(** [wlctx_step_all]: how many contexts ran, [None] when one left its memory. *)
Definition wlctx_step_all (budget : nat) (s : Pool) : option (Z * Pool) :=
  for_up wl_nat 0
    (λ i acc, match acc with
              | None => None
              | Some (stepped, s) =>
                  let w := (wl_slots s).[i] in
                  if (w_active w =? 0) || negb (status (w_ctx w) =? SIMI_STATUS_OK) then Some (stepped, s) else
                  match simi_interp_run (w_ctx w) budget with
                  | Stopped _ c | Running c => Some (stepped + 1, set_slot i (set_ctx c w) s)
                  | Wild => None
                  end
              end) (Some (0, s)).

End Step.
