(* ===== verification/SimiPool.v ===== *)
(** Every live workload runs a well-formed program in a well-formed context, and the contexts
    registered for migration are exactly the live workloads. *)

From stdpp Require Import base gmap list list_numbers.
From Stdlib Require Import ZArith Lia Bool.
From Stdlib Require String.
From S2P Require Import Prelude Bytes Sidecar SimiInterp SimiSpec SimiResume SimiCkpt SimiMigrate SimiWorkload.
#[local] Open Scope Z_scope.
#[local] Open Scope carr_scope.

(** * Parsed programs *)

Definition bytes (bs : list Z) : Prop := Forall (λ b, 0 ≤ b < 256) bs.

Lemma le_word_bound bs : bytes bs → 0 ≤ le_word bs < 256 ^ Z.of_nat (length bs).
Proof.
  induction bs as [|b bs IH]; intros Hb; [cbn; lia|]. apply Forall_cons in Hb as [Hb Hbs]. specialize (IH Hbs). cbn [le_word length].
  rewrite Nat2Z.inj_succ, Z.pow_succ_r by lia. lia.
Qed.

Lemma le_word_take n bs : bytes bs → 0 ≤ le_word (take n bs) < 256 ^ Z.of_nat n.
Proof.
  intros Hb. pose proof (le_word_bound (take n bs) (Forall_take _ n bs Hb)) as H. rewrite length_take in H.
  split; [lia|]. eapply Z.lt_le_trans; [apply H|]. apply Z.pow_le_mono_r; lia.
Qed.

Lemma read_array_words n : ∀ i bs, bytes bs → (∀ j, w64 (fst (read_array 8 n i bs)).[j]) ∧ bytes (snd (read_array 8 n i bs)).
Proof.
  induction n as [|n IH]; intros i bs Hb; [split; [intros j; cbn [read_array fst]; rewrite aget_empty; unfold w64, czero, CZero_Z; lia|done]|].
  cbn [read_array]. unfold take_word. specialize (IH (i + 1) (drop 8 bs) (Forall_drop _ 8 bs Hb)).
  destruct (read_array 8 n (i + 1) (drop 8 bs)) as [a rest]. cbn [fst snd] in *. split; [|apply IH].
  intros j. rewrite aget_upd. destruct (i =? j); [|apply IH]. exact (le_word_take 8 bs Hb).
Qed.

Lemma read_entries_offsets n : ∀ i bs, bytes bs → ∀ j, u32_range (entry_offset (read_entries n i bs).[j]).
Proof.
  induction n as [|n IH]; intros i bs Hb j; [cbn [read_entries]; rewrite aget_empty; unfold u32_range; cbn; lia|]. cbn [read_entries]. rewrite aget_upd.
  destruct (i =? j); [|apply IH; by apply Forall_drop]. exact (le_word_take 4 _ (Forall_drop _ _ bs Hb)).
Qed.

(** What is accepted is a well-formed program, all of it inside the image. *)
Lemma wc_parse_ok img o : bytes img → wc_parse (Some img) = inr o →
  program_ok o ∧ 20 + num_instr o * 8 + num_literals o * 8 + num_entries o * SIZEOF_ENTRY + num_names o * SIZEOF_NAME ≤ Z.of_nat (length img).
Proof.
  intros Hb. unfold wc_parse. destruct (_ <? 20); [done|]. destruct (negb _); [done|].
  assert (∀ k, 0 ≤ wc_rd32 (drop k img)) as Hpos by (intros k; apply (le_word_take 4); by apply Forall_drop).
  destruct (_ || _) eqn:Ecap; [done|]. destruct (Z.ltb_spec (Z.of_nat (length img))
    (u64 (20 + wc_rd32 (drop 4 img) * 8 + wc_rd32 (drop 8 img) * 8 + wc_rd32 (drop 12 img) * SIZEOF_ENTRY + wc_rd32 (drop 16 img) * SIZEOF_NAME))) as [|Hneed]; [done|].
  pose proof (read_array_words (Z.to_nat (wc_rd32 (drop 4 img))) 0 (drop 20 img) (Forall_drop _ 20 img Hb)) as [R1 B1].
  destruct (read_array 8 _ 0 (drop 20 img)) as [ins p]. cbn [fst snd] in *.
  pose proof (read_array_words (Z.to_nat (wc_rd32 (drop 8 img))) 0 p B1) as [R2 B2]. destruct (read_array 8 _ 0 p) as [lits p2]. cbn [fst snd] in *.
  intros [= <-]. unfold WLCTX_MAX_INSTR, WLCTX_MAX_LITERALS, WLCTX_MAX_ENTRIES, WLCTX_MAX_NAMES, SIZEOF_ENTRY, SIZEOF_NAME in *.
  pose proof (Hpos 4%nat). pose proof (Hpos 8%nat). pose proof (Hpos 12%nat). pose proof (Hpos 16%nat). rewrite u64_small in Hneed by lia.
  split; [split; cbn [instr literals num_instr entries]|cbn [num_instr num_literals num_entries num_names]; lia].
  - exact R1.
  - exact R2.
  - unfold u32_range. lia.
  - apply read_entries_offsets. by apply Forall_take.
Qed.

(** * Lists of occupied positions *)

Lemma omap_split {A B} (l : list A) i : NoDup l → i ∈ l → ∃ rest, (i ∉ rest) ∧ (∀ x, x ∈ rest → x ∈ l) ∧
  ∀ g : A → option B, Permutation (omap g l) (option_list (g i) ++ omap g rest).
Proof.
  intros Hnd Hi. apply list_elem_of_split in Hi as (l1 & l2 & ->). exists (l1 ++ l2).
  rewrite <- Permutation_middle in Hnd. apply NoDup_cons in Hnd as [Hn _]. split; [done|].
  split; [intros x; rewrite !elem_of_app, elem_of_cons; tauto|]. intros g.
  assert (omap g (l1 ++ i :: l2) ≡ₚ omap g (i :: (l1 ++ l2))) as -> by (by rewrite Permutation_middle). cbn. by destruct (g i).
Qed.

Lemma omap_ext_in {A B} (f g : A → option B) (l : list A) : (∀ x, x ∈ l → f x = g x) → omap f l = omap g l.
Proof.
  induction l as [|x l IH]; intros Hfg; [done|]. cbn. rewrite (Hfg x) by left. rewrite IH; [done|]. intros y Hy. apply Hfg. by right.
Qed.

(** Changing a function at one position. *)
Lemma omap_upd {A B} (f g : A → option B) (l : list A) i : NoDup l → i ∈ l → (∀ x, x ∈ l → x ≠ i → g x = f x) →
  ∃ rest, omap f l ≡ₚ option_list (f i) ++ rest ∧ omap g l ≡ₚ option_list (g i) ++ rest.
Proof.
  intros Hnd Hi Hfg. destruct (omap_split (B := B) l i Hnd Hi) as (rest & Hn & Hsub & Hp). exists (omap f rest).
  split; [apply Hp|]. rewrite Hp. f_equiv. rewrite (omap_ext_in g f); [done|]. intros x Hx. apply Hfg; [by apply Hsub|by intros ->].
Qed.

Lemma omap_filter {A B} (f g : A → option B) (P : B → Prop) `{∀ b, Decision (P b)} (l : list A) :
  (∀ x, x ∈ l → g x = match f x with Some b => if decide (P b) then Some b else None | None => None end) →
  omap g l = filter P (omap f l).
Proof.
  induction l as [|x l IH]; intros Hg; [done|]. cbn. rewrite (Hg x) by left. rewrite IH by (intros y Hy; apply Hg; by right).
  destruct (f x) as [b|]; [|done]. rewrite filter_cons. by destruct (decide (P b)).
Qed.

(** * The pool *)

(** The live workloads: pointer, partition and name. *)
Definition live_at (sl : gmap Z WLCtxSlot) (i : Z) : option (Z * Z * String.string) :=
  let w := sl.[i] in if w_active w =? 0 then None else Some (slot_ptr i, w_partition_id w, w_workload w).
Definition live (s : Pool) : list (Z * Z * String.string) := omap (live_at (wl_slots s)) (seqZ 0 WLCTX_MAX).

(** The registered contexts. *)
Definition reg_entry (r : RegSlot) : option (Z * Z * String.string) :=
  if s_active r =? 0 then None else Some (s_ctx r, s_partition_id r, s_name r).
Definition registered (m : Migrator) : list (Z * Z * String.string) := omap (λ j, reg_entry (cm_reg m).[j]) (seqZ 0 SIMI_CTX_REGISTRY_MAX).

Definition images (m : Migrator) : list Z := map (λ j, (cm_images m).[j]) (seqZ 0 (cm_image_count m)).

(** A context that runs, or one that could not be restarted. *)
Definition refused (o : SimiObject) : SimiContext := mkCtx 0 0 0 0 SIMI_STATUS_TRAP_PC_RANGE 0 ∅ ∅ (Some o).
Definition ctx_good (o : SimiObject) (c : SimiContext) : Prop := wf o c ∨ c = refused o.

Record pool_ok (s : Pool) : Prop := {
  pk_slots : ∀ i, 0 ≤ i < WLCTX_MAX → w_active (wl_slots s).[i] ≠ 0 → program_ok (w_obj (wl_slots s).[i]) ∧ ctx_good (w_obj (wl_slots s).[i]) (w_ctx (wl_slots s).[i]);
  pk_reg : registered (wl_mig s) ≡ₚ live s;
  pk_count : 0 ≤ cm_image_count (wl_mig s);
  pk_images : NoDup (images (wl_mig s)) ∧ ∀ p, p ∈ images (wl_mig s) → 1 ≤ p ≤ WLCTX_MAX;
  pk_found : ∀ i, 0 ≤ i < WLCTX_MAX → w_active (wl_slots s).[i] ≠ 0 → slot_ptr i ∈ images (wl_mig s)
}.

(** * The registries *)

Definition images_ok (m : Migrator) : Prop :=
  0 ≤ cm_image_count m ∧ NoDup (images m) ∧ ∀ p, p ∈ images m → 1 ≤ p ≤ WLCTX_MAX.

Lemma images_few m : images_ok m → cm_image_count m ≤ WLCTX_MAX.
Proof.
  intros (H0 & Hnd & Hp). assert (images m ⊆+ seqZ 1 WLCTX_MAX) as Hs.
  { apply NoDup_submseteq; [done|]. intros p Hin. apply elem_of_seqZ. specialize (Hp p Hin). lia. }
  apply submseteq_length in Hs. unfold images in Hs. rewrite length_map, !length_seqZ in Hs. unfold WLCTX_MAX in *. lia.
Qed.

Lemma elem_of_images m p : p ∈ images m ↔ ∃ j, 0 ≤ j < cm_image_count m ∧ (cm_images m).[j] = p.
Proof.
  unfold images. change (map ?f ?l) with (f <$> l). rewrite list_elem_of_fmap. setoid_rewrite elem_of_seqZ.
  split; intros (j & H1 & H2); exists j; (split; [lia || done|lia || done]).
Qed.

Lemma register_image_spec p m : images_ok m → 1 ≤ p ≤ WLCTX_MAX →
  let m' := simi_ctx_migrate_register_image p m in
  images_ok m' ∧ p ∈ images m' ∧ (∀ q, q ∈ images m → q ∈ images m') ∧ cm_reg m' = cm_reg m.
Proof.
  intros Hok Hp. cbv zeta. pose proof (images_few m Hok) as Hfew. unfold simi_ctx_migrate_register_image.
  destruct (Z.eqb_spec p 0); [lia|]. destruct (Z.leb_spec CM_MAX_IMAGES (cm_image_count m)); [unfold CM_MAX_IMAGES, WLCTX_MAX in *; lia|]. cbn [orb].
  destruct Hok as (H0 & Hnd & Hin). destruct (find_up _ _ _) as [j|] eqn:E.
  - apply find_up_Some in E as (Hj & Hpj & _). split; [done|]. split; [|done]. apply elem_of_images. exists j. split; lia.
  - rewrite find_up_None in E.
    assert (images (set_images (cm_images m).[cm_image_count m <- p] (cm_image_count m + 1) m) = images m ++ [p]) as Ei.
    { unfold images. cbn [cm_images cm_image_count set_images]. rewrite seqZ_app by lia. rewrite map_app. f_equal.
      - apply map_ext_in. intros j [_ Hj]%list_elem_of_In%elem_of_seqZ. apply aget_upd_ne. lia.
      - rewrite Z.add_0_l, seqZ_cons, seqZ_nil by lia. cbn [map]. by rewrite aget_upd_eq. }
    rewrite Ei. split; [split; [cbn; lia|]|split; [apply elem_of_app; right; by left|split; [|done]]].
    + rewrite Ei. split.
      * apply NoDup_app. split; [done|]. split; [|apply NoDup_singleton]. intros q Hq ->%list_elem_of_singleton.
        apply elem_of_images in Hq as (j & Hj & Ej). specialize (E j ltac:(lia)). lia.
      * intros q [Hq| ->%list_elem_of_singleton]%elem_of_app; [by apply Hin|done].
    + intros q Hq. apply elem_of_app. by left.
Qed.

Lemma omap_full {A B} (f : A → option B) (l : list A) : (∀ x, x ∈ l → f x ≠ None) → length (omap f l) = length l.
Proof.
  induction l as [|x l IH]; intros Hl; [done|]. cbn. destruct (f x) eqn:E; [|by destruct (Hl x ltac:(left))].
  cbn. f_equal. apply IH. intros y Hy. apply Hl. by right.
Qed.

Lemma registered_full m : (∀ j, 0 ≤ j < SIMI_CTX_REGISTRY_MAX → s_active (cm_reg m).[j] ≠ 0) → length (registered m) = 32%nat.
Proof.
  intros Hall. unfold registered. rewrite omap_full; [by rewrite length_seqZ|]. intros j [Hj1 Hj2]%elem_of_seqZ. unfold reg_entry.
  rewrite (proj2 (Z.eqb_neq _ 0)); [done|]. apply Hall. lia.
Qed.

Lemma register_ctx_spec part nm p m : p ≠ 0 → (∀ e, e ∈ registered m → e.1.1 ≠ p) → (length (registered m) < 32)%nat →
  let m' := snd (simi_ctx_register part (Some nm) p m) in
  Permutation (registered m') ((p, part, str_take 63 nm) :: registered m) ∧ images m' = images m ∧ cm_image_count m' = cm_image_count m.
Proof.
  intros Hp Hnone Hlen. cbv zeta. unfold simi_ctx_register. rewrite (proj2 (Z.eqb_neq p 0) Hp).
  assert (∀ j, 0 ≤ j < SIMI_CTX_REGISTRY_MAX → s_active (cm_reg m).[j] ≠ 0 → s_ctx (cm_reg m).[j] ≠ p) as Hno.
  { intros j Hj Ha. apply (Hnone (s_ctx (cm_reg m).[j], s_partition_id (cm_reg m).[j], s_name (cm_reg m).[j])).
    apply list_elem_of_omap. exists j. split; [apply elem_of_seqZ; lia|]. unfold reg_entry. by rewrite (proj2 (Z.eqb_neq _ 0) Ha). }
  destruct (find_up _ 0 (λ i, negb (s_active (cm_reg m).[i] =? 0) && _)) as [j|] eqn:E1.
  { apply find_up_Some in E1 as (Hj & Hb & _). change (Z.of_nat _) with SIMI_CTX_REGISTRY_MAX in Hj. specialize (Hno j Hj). lia. }
  destruct (find_up _ 0 (λ i, s_active (cm_reg m).[i] =? 0)) as [j|] eqn:E2.
  - apply find_up_Some in E2 as (Hj & Hb & _). change (Z.of_nat _) with SIMI_CTX_REGISTRY_MAX in Hj. split; [|done].
    unfold registered. cbn [snd cm_reg set_reg_slots]. set (r := mkSlot _ _ _ _).
    destruct (omap_upd (λ i, reg_entry (cm_reg m).[i]) (λ i, reg_entry (cm_reg m).[j <- r].[i]) (seqZ 0 SIMI_CTX_REGISTRY_MAX) j) as (rest & P1 & P2).
    + apply NoDup_seqZ.
    + apply elem_of_seqZ. lia.
    + intros x _ Hx. by rewrite aget_upd_ne.
    + rewrite P1, P2. rewrite aget_upd_eq. unfold reg_entry at 1 2. apply Z.eqb_eq in Hb. by rewrite Hb.
  - rewrite find_up_None in E2. exfalso. rewrite registered_full in Hlen; [lia|]. intros j Hj. specialize (E2 j). change (Z.of_nat _) with SIMI_CTX_REGISTRY_MAX in E2.
    specialize (E2 ltac:(lia)). lia.
Qed.

Lemma unregister_spec p m : let m' := simi_ctx_unregister p m in
  registered m' = filter (λ e, e.1.1 ≠ p) (registered m) ∧ images m' = images m ∧ cm_image_count m' = cm_image_count m.
Proof.
  cbv zeta. pose (P := λ (k : Z) m', images m' = images m ∧ cm_image_count m' = cm_image_count m ∧ ∀ j, 0 ≤ j < SIMI_CTX_REGISTRY_MAX →
    (k ≤ j → (cm_reg m').[j] = (cm_reg m).[j]) ∧
    (j < k → reg_entry (cm_reg m').[j] = match reg_entry (cm_reg m).[j] with Some e => if decide (e.1.1 ≠ p) then Some e else None | None => None end)).
  assert (P SIMI_CTX_REGISTRY_MAX (simi_ctx_unregister p m)) as (H1 & H2 & H3).
  { unfold simi_ctx_unregister. change SIMI_CTX_REGISTRY_MAX with (0 + Z.of_nat (Z.to_nat SIMI_CTX_REGISTRY_MAX)) at 1.
    apply for_up_ind; [split; [done|]; split; [done|]; intros j ?; split; [done|lia]|]. change (Z.of_nat (Z.to_nat SIMI_CTX_REGISTRY_MAX)) with SIMI_CTX_REGISTRY_MAX.
    intros k m' Hk (H1 & H2 & H3). cbv zeta. destruct (H3 k ltac:(lia)) as [Ek _]. rewrite (Ek ltac:(lia)).
    assert (∀ j, 0 ≤ j < SIMI_CTX_REGISTRY_MAX → j ≠ k → (k + 1 ≤ j → (cm_reg m').[j] = (cm_reg m).[j]) ∧
      (j < k + 1 → reg_entry (cm_reg m').[j] = match reg_entry (cm_reg m).[j] with Some e => if decide (e.1.1 ≠ p) then Some e else None | None => None end)) as H4.
    { intros j Hj Hne. destruct (H3 j Hj) as [G1 G2]. split; intros ?; [apply G1; lia|apply G2; lia]. }
    destruct (negb (s_active (cm_reg m).[k] =? 0) && (s_ctx (cm_reg m).[k] =? p)) eqn:Em; (split; [done|]; split; [done|]; intros j Hj;
      destruct (decide (j = k)) as [->|Hne]; [split; [lia|intros _]|]).
    - cbn [cm_reg set_reg_slots]. rewrite aget_upd_eq. unfold reg_entry. cbn [s_active s_ctx s_partition_id s_name Z.eqb].
      destruct (Z.eqb_spec (s_active (cm_reg m).[k]) 0); [done|]. cbn [fst]. rewrite decide_False by lia. done.
    - cbn [cm_reg set_reg_slots]. rewrite aget_upd_ne by done. by apply H4.
    - rewrite (Ek ltac:(lia)). unfold reg_entry. destruct (Z.eqb_spec (s_active (cm_reg m).[k]) 0); [done|]. cbn [fst]. rewrite decide_True by lia. done.
    - by apply H4. }
  split; [|done]. unfold registered. apply omap_filter. intros j [Hj1 Hj2]%elem_of_seqZ. apply H3; lia.
Qed.

(** * Operations keep the pool in order *)

Lemma live_set i w s : 0 ≤ i < WLCTX_MAX → ∃ rest,
  Permutation (live s) (option_list (live_at (wl_slots s) i) ++ rest) ∧
  Permutation (live (set_slot i w s)) (option_list (live_at (wl_slots s).[i <- w] i) ++ rest).
Proof.
  intros Hi. apply omap_upd; [apply NoDup_seqZ|apply elem_of_seqZ; lia|]. intros x _ Hx. unfold live_at. cbn [wl_slots set_slot]. by rewrite aget_upd_ne.
Qed.

(** A change that keeps a slot's identity. *)
Lemma live_same i w s : 0 ≤ i < WLCTX_MAX → live_at (wl_slots s).[i <- w] i = live_at (wl_slots s) i → Permutation (live (set_slot i w s)) (live s).
Proof. intros Hi E. destruct (live_set i w s Hi) as (rest & P1 & P2). by rewrite P1, P2, E. Qed.

Lemma live_ptr s e : e ∈ live s → ∃ i, 0 ≤ i < WLCTX_MAX ∧ w_active (wl_slots s).[i] ≠ 0 ∧ e.1.1 = slot_ptr i.
Proof.
  intros (i & [Hi1 Hi2]%elem_of_seqZ & E)%list_elem_of_omap. exists i. unfold live_at in E. destruct (Z.eqb_spec (w_active (wl_slots s).[i]) 0); [done|].
  injection E as <-. split; [lia|done].
Qed.

Lemma find_inactive i s : find_up wl_nat 0 (λ i, w_active (wl_slots s).[i] =? 0) = Some i → 0 ≤ i < WLCTX_MAX ∧ w_active (wl_slots s).[i] = 0.
Proof. intros (Hi & Ha & _)%find_up_Some. change (Z.of_nat wl_nat) with WLCTX_MAX in Hi. split; lia. Qed.

Lemma find_active nm s i : wc_find nm s = Some i → 0 ≤ i < WLCTX_MAX ∧ w_active (wl_slots s).[i] ≠ 0.
Proof.
  unfold wc_find. destruct nm; [|done]. intros (Hi & Ha & _)%find_up_Some. change (Z.of_nat wl_nat) with WLCTX_MAX in Hi. split; lia.
Qed.

Lemma init_good `{World} o nm : program_ok o →
  match simi_interp_init (Some o) (Some nm) with (rc, c) => (rc = 0 ∧ wf o c) ∨ (rc = 1 ∧ c = refused o) end.
Proof.
  intros Ho. destruct (simi_interp_init (Some o) (Some nm)) as [rc c] eqn:E. assert (rc = 0 ∨ (rc = 1 ∧ c = refused o)) as [->|?]; [|left|by right].
  - unfold simi_interp_init in E. destruct (_ =? 0xFFFFFFFF); injection E as <- <-; auto.
  - split; [done|]. by apply (init_wf o (Some nm)).
Qed.

Lemma set_slot_ok s i w : pool_ok s → 0 ≤ i < WLCTX_MAX → live_at (wl_slots s).[i <- w] i = live_at (wl_slots s) i →
  (w_active w ≠ 0 → program_ok (w_obj w) ∧ ctx_good (w_obj w) (w_ctx w)) → pool_ok (set_slot i w s).
Proof.
  intros [P1 P2 P3 P4 P5] Hi El Hw. split; cbn [wl_slots wl_mig set_slot]; try done.
  - intros j Hj. rewrite aget_upd. destruct (i =? j); [done|by apply P1].
  - rewrite P2. symmetry. by apply live_same.
  - intros j Hj. rewrite aget_upd. destruct (Z.eqb_spec i j) as [<-|]; [|by apply P5]. intros Ha. apply P5; [done|]. intros E0.
    unfold live_at in El. rewrite aget_upd_eq, E0 in El. by rewrite (proj2 (Z.eqb_neq _ 0) Ha) in El.
Qed.

Lemma live_few s i : 0 ≤ i < WLCTX_MAX → w_active (wl_slots s).[i] = 0 → (length (live s) < 32)%nat.
Proof.
  intros Hi Ha. unfold live. assert (∀ l, (length (omap (live_at (wl_slots s)) l) ≤ length l)%nat) as Hl.
  { induction l as [|x l IH]; cbn; [done|]. destruct (live_at _ x); cbn; lia. }
  specialize (Hl (seqZ 0 WLCTX_MAX)). rewrite length_seqZ in Hl. unfold WLCTX_MAX in *. lia.
Qed.

Lemma start_ok `{World} workload img entry part s : pool_ok s → (∀ bs, img = Some bs → bytes bs) → pool_ok (snd (wlctx_start workload img entry part s)).
Proof.
  intros Hok Hb. unfold wlctx_start. destruct workload as [[|ch nm0]|]; [done| |done]. set (nm := String.String ch nm0).
  destruct (wc_find _ s); [done|]. destruct (find_up wl_nat 0 _) as [i|] eqn:Ei; [|done]. apply find_inactive in Ei as [Hi Ha].
  destruct (wc_parse img) as [rc|o] eqn:Ep; [done|]. assert (program_ok o) as Ho.
  { destruct img as [bs|]; [|done]. by apply (wc_parse_ok bs); [apply Hb|]. }
  pose proof (init_good o (default_entry entry) Ho) as Hg. destruct (simi_interp_init _ _) as [rc c]. destruct Hg as [[-> Hw]|[-> ->]]; cbn [negb Z.eqb].
  2: { apply set_slot_ok; [done|done| |cbn; lia]. unfold live_at. rewrite aget_upd_eq. cbn [w_active set_program]. by rewrite Ha. }
  set (w := mkWl _ _ _ _ _ _). pose proof Hok as [P1 P2 P3 [P4 P4'] P5]. cbn [wl_mig set_slot].
  destruct (register_image_spec (slot_ptr i) (wl_mig s)) as (I1 & I2 & I3 & I4); [done|unfold slot_ptr; lia|].
  set (m1 := simi_ctx_migrate_register_image (slot_ptr i) (wl_mig s)) in *.
  assert (registered m1 = registered (wl_mig s)) as Er by (unfold registered; by rewrite I4).
  destruct (register_ctx_spec part nm (slot_ptr i) m1) as (R1 & R2 & R3).
  - unfold slot_ptr. lia.
  - rewrite Er. intros e He E. rewrite P2 in He. apply live_ptr in He as (j & Hj & Haj & Ej). unfold slot_ptr in *. assert (j = i) as -> by lia. done.
  - rewrite Er, P2. by apply (live_few s i).
  - destruct (simi_ctx_register part (Some nm) (slot_ptr i) m1) as [rc2 m2]. cbn [snd] in *.
    assert (Permutation (live (set_slot i w s)) ((slot_ptr i, part, str_take 63 nm) :: live s)) as Hl.
    { destruct (live_set i w s Hi) as (rest & L1 & L2). rewrite L1, L2. unfold live_at. rewrite aget_upd_eq, Ha. done. }
    split; cbn [wl_slots wl_mig set_slot].
    + intros j Hj. rewrite aget_upd. destruct (i =? j); [|by apply P1]. intros _. split; [done|by left].
    + rewrite R1, Er, P2. change (live (mkPool _ _)) with (live (set_slot i w s)). by rewrite Hl.
    + rewrite R3. apply I1.
    + rewrite R2. apply I1.
    + intros j Hj. rewrite R2, aget_upd. destruct (Z.eqb_spec i j) as [<-|]; [done|]. intros Haj. apply I3. by apply P5.
Qed.

Lemma stop_ok workload s : pool_ok s → pool_ok (snd (wlctx_stop workload s)).
Proof.
  intros Hok. unfold wlctx_stop. destruct (wc_find workload s) as [i|] eqn:Ei; [|done]. apply find_active in Ei as [Hi Ha]. cbn [snd].
  destruct (unregister_spec (slot_ptr i) (wl_mig s)) as (U1 & U2 & U3). destruct Hok as [P1 P2 P3 P4 P5].
  split; cbn [wl_slots wl_mig set_slot]; rewrite ?U2, ?U3; try done.
  - intros j Hj. rewrite aget_upd. destruct (i =? j); [done|by apply P1].
  - rewrite U1, P2. apply reflexive_eq. symmetry. apply omap_filter. intros j _. unfold live_at. cbn [wl_slots set_slot]. rewrite aget_upd.
    destruct (Z.eqb_spec i j) as [<-|Hne].
    + cbn [set_active w_active Z.eqb]. destruct (_ =? 0); [done|]. cbn [fst]. by rewrite decide_False by tauto.
    + destruct (_ =? 0); [done|]. cbn [fst]. rewrite decide_True by (unfold slot_ptr; lia). done.
  - intros j Hj. rewrite aget_upd. destruct (i =? j); [done|by apply P5].
Qed.

Lemma restart_ok `{World} workload s : pool_ok s → pool_ok (snd (wlctx_restart workload s)).
Proof.
  intros Hok. unfold wlctx_restart. destruct (wc_find workload s) as [i|] eqn:Ei; [|done]. apply find_active in Ei as [Hi Ha].
  destruct (pk_slots _ Hok i Hi Ha) as [Ho _]. pose proof (init_good (w_obj (wl_slots s).[i]) (w_entry (wl_slots s).[i]) Ho) as Hg.
  destruct (simi_interp_init _ _) as [rc c]. cbn [snd]. apply set_slot_ok; [done|done| |].
  - unfold live_at. by rewrite aget_upd_eq.
  - intros _. split; [done|]. cbn. destruct Hg as [[_ Hw]|[_ ->]]; [by left|by right].
Qed.

Lemma step_all_ok `{World} {Hwk : WorldOk} budget s n s' : pool_ok s → wlctx_step_all budget s = Some (n, s') → pool_ok s'.
Proof.
  intros Hok E. pose (P := λ (_ : Z) (acc : option (Z * Pool)), match acc with Some (_, t) => pool_ok t | None => True end).
  assert (P (0 + Z.of_nat wl_nat) (wlctx_step_all budget s)) as HP; [|by rewrite E in HP].
  unfold wlctx_step_all. apply for_up_ind; [done|]. change (0 + Z.of_nat wl_nat) with WLCTX_MAX. intros i [[st t]|] Hi Ht; [|done]. cbn in Ht. cbv zeta.
  destruct (Z.eqb_spec (w_active (wl_slots t).[i]) 0) as [|Ha]; [done|]. destruct (Z.eqb_spec (status (w_ctx (wl_slots t).[i])) SIMI_STATUS_OK) as [Es|]; [|done]. cbn [negb orb].
  destruct (pk_slots _ Ht i Hi Ha) as [Ho [Hw|Er]]; [|by rewrite Er in Es]. pose proof (loop_wf (w_obj (wl_slots t).[i]) budget _ Ho Hw) as HS.
  rewrite <- run_loop in HS by (done || apply Hw).
  destruct (simi_interp_run _ _) as [c|st' c|]; [| |done]; (apply set_slot_ok; [done|done| |intros _; split; [done|by left]]; unfold live_at; by rewrite aget_upd_eq).
Qed.

Lemma recv_registries `{Heap} e m : cm_images (snd (recv e m)) = cm_images m ∧ cm_image_count (snd (recv e m)) = cm_image_count m ∧ cm_reg (snd (recv e m)) = cm_reg m.
Proof.
  destruct e as [t d p nm tb tc h|t d p i data]; cbn [recv].
  - unfold simi_ctx_migrate_recv_begin. cbv zeta. repeat match goal with |- context [if ?b then (_, m) else _] => destruct b; [done|] end. done.
  - unfold simi_ctx_migrate_recv_chunk. cbv zeta. repeat match goal with |- context [if ?b then (_, m) else _] => destruct b; [done|] end.
    match goal with |- context [if ?b then (SIMI_CTXMIG_OK, _) else _] => destruct b; [done|] end. unfold recv_complete. cbv zeta.
    destruct (_ =? 0); [done|]. destruct (simi_ckpt_load _ _ _) as [cs c]. by destruct (negb _).
Qed.

(** * Reachable pools *)

Inductive pop :=
| PStart (workload : cstr) (img : option (list Z)) (entry : cstr) (part : Z)
| PStop (workload : cstr)
| PRestart (workload : cstr)
| PStep (budget : nat)
| PRecv (e : message).

(** Images are bytes. *)
Definition pop_ok (op : pop) : Prop := match op with PStart _ (Some img) _ _ => bytes img | _ => True end.

Definition pool_run `{World} (op : pop) (s : Pool) : option Pool :=
  match op with
  | PStart workload img entry part => Some (snd (wlctx_start workload img entry part s))
  | PStop workload => Some (snd (wlctx_stop workload s))
  | PRestart workload => Some (snd (wlctx_restart workload s))
  | PStep budget => option_map snd (wlctx_step_all budget s)
  | PRecv e => Some (mkPool (wl_slots s) (snd (@recv (pool_heap s) e (wl_mig s))))
  end.

Definition pool_boot : Pool := wlctx_init (mkPool ∅ (mkMig ∅ 0 rx_zero ctx_zero 0 ∅)).

Inductive pool_reach `{World} : Pool → Prop :=
| pool_reach_boot : pool_reach pool_boot
| pool_reach_step op s s' : pool_reach s → pop_ok op → pool_run op s = Some s' → pool_reach s'.

Lemma init_pool s : (∀ i, w_active (wl_slots s).[i] = 0) → (∀ i, w_active (wl_slots (wlctx_init s)).[i] = 0) ∧
  cm_reg (wl_mig (wlctx_init s)) = cm_reg (wl_mig s) ∧ cm_image_count (wl_mig (wlctx_init s)) = 0.
Proof.
  intros Ha. unfold wlctx_init. cbn [wl_slots wl_mig]. generalize wl_nat. intros n.
  assert ((∀ i, w_active (wl_slots (for_up n 0 (λ i s, set_slot i (set_active 0 (wl_slots s).[i]) s) s)).[i] = 0) ∧
    wl_mig (for_up n 0 (λ i s, set_slot i (set_active 0 (wl_slots s).[i]) s) s) = wl_mig s) as [H1 H2]; [|by rewrite H2].
  apply (for_up_ind (λ _ t, (∀ i, w_active (wl_slots t).[i] = 0) ∧ wl_mig t = wl_mig s)); [done|]. intros j t _ [E1 E2]. split; [|exact E2].
  intros i. cbn [wl_slots set_slot]. rewrite aget_upd. by destruct (j =? i).
Qed.

Lemma empty_ok s : (∀ i, w_active (wl_slots s).[i] = 0) → cm_reg (wl_mig s) = ∅ → cm_image_count (wl_mig s) = 0 → pool_ok s.
Proof.
  intros Ha Er Ec. split; try (intros i _ Hi; by rewrite Ha in Hi).
  - assert (live s = []) as ->.
    { apply elem_of_nil_inv. intros e (i & _ & Hi & _)%live_ptr. by rewrite Ha in Hi. }
    apply reflexive_eq. apply elem_of_nil_inv. unfold registered. rewrite Er. by intros e (j & _ & E)%list_elem_of_omap.
  - lia.
  - unfold images. rewrite Ec. split; [apply NoDup_nil_2|]. intros p Hp. by apply not_elem_of_nil in Hp.
Qed.

Lemma boot_ok : pool_ok pool_boot.
Proof. destruct (init_pool (mkPool ∅ (mkMig ∅ 0 rx_zero ctx_zero 0 ∅))) as (H1 & H2 & H3); [done|]. apply empty_ok; [exact H1|exact H2|exact H3]. Qed.

Lemma live_mig s m : live (mkPool (wl_slots s) m) = live s.
Proof. unfold live. cbn [wl_slots]. exact eq_refl. Qed.

(** Changes of the migration state that keep its registries. *)
Lemma mig_ok s m : pool_ok s → cm_image_count m = cm_image_count (wl_mig s) → images m = images (wl_mig s) → registered m = registered (wl_mig s) →
  pool_ok (mkPool (wl_slots s) m).
Proof.
  intros [P1 P2 P3 P4 P5] E1 E2 E3. split; rewrite ?live_mig; cbn [wl_slots wl_mig]; rewrite ?E1, ?E2, ?E3; assumption.
Qed.

Lemma pool_reach_ok `{World} {Hwk : WorldOk} s : pool_reach s → pool_ok s.
Proof.
  induction 1 as [|op s s' Hr IH Hop E]; [apply boot_ok|]. destruct op; cbn [pool_run] in E.
  - injection E as <-. apply start_ok; [done|]. by intros bs ->.
  - injection E as <-. by apply stop_ok.
  - injection E as <-. by apply restart_ok.
  - destruct (wlctx_step_all budget s) as [[n t]|] eqn:Es; [|done]. injection E as <-. by apply (step_all_ok budget s n).
  - injection E as <-. destruct (@recv_registries (pool_heap s) e (wl_mig s)) as (E1 & E2 & E3).
    apply mig_ok; [done|done|unfold images; by rewrite E1, E2|unfold registered; by rewrite E3].
Qed.

(** * Migrating a partition *)

Lemma count_up_omap {B} (f : Z → option B) (P : B → Prop) `{∀ b, Decision (P b)} n : ∀ i,
  count_up n i (λ j, match f j with Some b => bool_decide (P b) | None => false end) =
  Z.of_nat (length (filter P (omap f (seqZ i (Z.of_nat n))))).
Proof.
  induction n as [|n IH]; intros i; [done|]. rewrite seqZ_cons by lia. cbn [count_up]. rewrite IH. replace (Z.pred (Z.of_nat (S n))) with (Z.of_nat n) by lia.
  cbn [omap list_omap]. unfold Z.succ. destruct (f i) as [b|]; [|by rewrite Z.add_0_l]. rewrite filter_cons. destruct (decide (P b)); [rewrite bool_decide_true by done|rewrite bool_decide_false by done]; cbn [length]; lia.
Qed.

Lemma registered_count_eq part m : simi_ctx_registered_count part m = Z.of_nat (length (filter (λ e, e.1.2 = part) (registered m))).
Proof.
  unfold registered, simi_ctx_registered_count. change SIMI_CTX_REGISTRY_MAX with (Z.of_nat (Z.to_nat SIMI_CTX_REGISTRY_MAX)) at 2.
  rewrite <- (count_up_omap (λ j, reg_entry (cm_reg m).[j]) (λ e, e.1.2 = part)). apply count_up_ext. intros j _. unfold reg_entry.
  destruct (_ =? 0); cbn [negb andb fst snd]; [done|]. destruct (Z.eqb_spec (s_partition_id (cm_reg m).[j]) part); symmetry; [by apply bool_decide_true|by apply bool_decide_false].
Qed.

Lemma send_positive c tid dest part nm : frame_top c < SIMI_MAX_FRAMES → 0 < fst (simi_ctx_migrate_send c tid dest part nm).
Proof.
  intros Hf. rewrite send_spec by exact Hf. cbv zeta. cbn [fst]. by destruct (chunks_bounds _ (checkpoint_fits _ Hf)) as [Hc _].
Qed.

Lemma for_up_count {A} (body : Z → Z * A → Z * A) (p : Z → bool) (a : A) (N : Z) : (∀ j acc, 0 ≤ j < N → fst (body j acc) = fst acc + if p j then 1 else 0) →
  ∀ n, Z.of_nat n ≤ N → fst (for_up n 0 body (0, a)) = count_up n 0 p.
Proof.
  intros Hb. induction n as [|n IH]; intros Hle; [done|]. rewrite for_up_S_r, Hb, IH by lia.
  replace (S n) with (n + 1)%nat by lia. rewrite count_up_app. cbn [count_up]. lia.
Qed.

Lemma send_partition_count `{Heap} part dest m :
  (∀ j, 0 ≤ j < SIMI_CTX_REGISTRY_MAX → s_active (cm_reg m).[j] ≠ 0 → frame_top (ctx_at (s_ctx (cm_reg m).[j])) < SIMI_MAX_FRAMES) →
  fst (simi_ctx_migrate_send_partition part dest m) = simi_ctx_registered_count part m.
Proof.
  intros Hf. apply (for_up_count _ _ [] SIMI_CTX_REGISTRY_MAX); [|unfold SIMI_CTX_REGISTRY_MAX; lia]. intros j [sent out] Hj. specialize (Hf j Hj). cbv beta zeta iota.
  destruct (Z.eqb_spec (s_active (cm_reg m).[j]) 0) as [|Ha]; cbn [negb andb orb]; [cbn [fst]; lia|]. specialize (Hf Ha). cbv zeta.
  destruct (Z.eqb_spec (s_partition_id (cm_reg m).[j]) part); cbn [negb]; [|cbn [fst]; lia]. revert Hf. generalize (ctx_at (s_ctx (cm_reg m).[j])). intros c Hf.
  match goal with |- context [simi_ctx_migrate_send c ?t ?d ?q ?nm] => pose proof (send_positive c t d q nm Hf) as Hs; destruct (simi_ctx_migrate_send c t d q nm) as [k msgs] end.
  cbn [fst] in Hs |- *. destruct (Z.ltb_spec 0 k); lia.
Qed.

Lemma find_image_registered `{Heap} m p : p ∈ images m → p ≠ 0 → cm_find_image (simi_ckpt_program_hash (Some (image_at p))) m ≠ 0.
Proof.
  intros (j & Hj & Ej)%elem_of_images Hp. unfold cm_find_image. rewrite (proj2 (Z.eqb_neq _ 0) (program_hash_nonzero _)).
  destruct (find_up _ _ _) as [k|] eqn:E.
  - apply find_up_Some in E as (_ & Hb & _). apply andb_true_iff in Hb as [Hb _]. by apply negb_true_iff, Z.eqb_neq in Hb.
  - rewrite find_up_None in E. specialize (E j ltac:(lia)). cbv beta in E. by rewrite Ej, (proj2 (Z.eqb_neq p 0) Hp), Z.eqb_refl in E.
Qed.

Section Migratable.
Context `{HW : World} {HWok : WorldOk}.


End Migratable.
