(* ===== verification/SimiWitness.v ===== *)
(** The SIMI theorems at concrete programs: one that resolves an object and returns its size, and
    one whose store leaves the context. *)

From stdpp Require Import base gmap list list_numbers.
From Stdlib Require Import ZArith Lia Bool.
From Stdlib Require String.
From S2P Require Import Prelude Bytes Sidecar SimiInterp SimiSpec SimiResume SimiCkpt SimiMigrate SimiWorkload SimiPool.
#[local] Open Scope Z_scope.
#[local] Open Scope carr_scope.

(** One object, readable by all, and one program image at every address. *)
#[local] Instance demo_world : World := {|
  object_catalog _ := {[ 0 := mkObjEntry {[ 0 := 97 ]} 3 0x40000000 2 1 ]};
  object_catalog_count _ := 1%nat;
  current_uid _ := 7;
  may_read _ _ _ := true
|}.

#[local] Instance demo_world_ok : WorldOk.
Proof.
  split; intros t i; cbn [object_catalog demo_world]; unfold aget; destruct (decide (i = 0)) as [->|];
    rewrite ?lookup_singleton_eq, ?lookup_singleton_ne by done; unfold w64; cbn; lia.
Qed.

(** [RESOLVE r3, 0; OBJSIZE r0, r3; RET]. *)
Definition demo_code : list Z :=
  [27 * 2 ^ 56 + 3 * 2 ^ 42; 28 * 2 ^ 56 + 3 * 2 ^ 32; 20 * 2 ^ 56].
(** [LOADI r1, -8; STORE.U64 r0, r1, 0]. *)
Definition escape_code : list Z :=
  [14 * 2 ^ 56 + 1 * 2 ^ 42 + 0xFFFFFF8 * 2 ^ 4; 22 * 2 ^ 56 + 7 * 2 ^ 52 + 1 * 2 ^ 32].

Definition program (code : list Z) : SimiObject :=
  mkObject (Z.of_nat (length code)) 0 1 1 (list_to_map (zip (seqZ 0 (Z.of_nat (length code))) code)) ∅
    {[ 0 := mkSimiEntry String.EmptyString 0 ]} {[ 0 := {[ 0 := 97 ]} ]}.

Definition start (code : list Z) : SimiContext := snd (simi_interp_init (Some (program code)) (Some String.EmptyString)).

Lemma aget_words (a : gmap Z Z) i : map_Forall (λ _ v, w64 v) a → w64 a.[i].
Proof. intros Ha. unfold aget. destruct (a !! i) eqn:E; [by apply (Ha i)|]. unfold w64, czero, CZero_Z. cbn. lia. Qed.

Lemma program_words code : Forall w64 code → (length code < 2 ^ 20)%nat → program_ok (program code).
Proof.
  intros Hc Hl. split; cbn [instr literals num_instr entries program].
  - intros i. apply aget_words. intros k v Hk. apply elem_of_list_to_map_2, elem_of_zip_r in Hk. rewrite Forall_forall in Hc. by apply Hc.
  - intros i. rewrite aget_empty. unfold w64, czero, CZero_Z. lia.
  - unfold u32_range. assert (Z.of_nat (2 ^ 20) = 2 ^ 20) by (rewrite Nat2Z.inj_pow; done). lia.
  - intros i. unfold aget, u32_range. destruct (decide (i = 0)) as [->|]; rewrite ?lookup_singleton_eq, ?lookup_singleton_ne by done; cbn; lia.
Qed.

Lemma demo_ok : program_ok (program demo_code).
Proof. apply program_words; [|apply Nat.ltb_lt; vm_compute; reflexivity]. unfold demo_code. rewrite !Forall_cons, Forall_nil. unfold w64. lia. Qed.

Lemma escape_ok : program_ok (program escape_code).
Proof. apply program_words; [|apply Nat.ltb_lt; vm_compute; reflexivity]. unfold escape_code. rewrite !Forall_cons, Forall_nil. unfold w64. lia. Qed.

(** The context a run leaves. *)
Definition left_behind (out : outcome) : SimiContext := match out with Running c | Stopped _ c => c | Wild => ctx_zero end.

Definition resolved : SimiContext := left_behind (simi_interp_run (start demo_code) 1).

Lemma demo_run : simi_interp_run (start demo_code) 1 = Stopped SIMI_STATUS_OK resolved.
Proof. vm_compute. reflexivity. Qed.

(** The whole program returns the object's two pages. *)
Lemma demo_result : result (left_behind (simi_interp_run (start demo_code) 3)) = 8192.
Proof. vm_compute. reflexivity. Qed.



Lemma resolved_wf : wf (program demo_code) resolved.
Proof.
  pose proof (init_wf (program demo_code) (Some String.EmptyString) (start demo_code) demo_ok eq_refl) as (Hi & E0 & _).
  pose proof (loop_wf (program demo_code) 1 (start demo_code) demo_ok Hi) as HI.
  rewrite <- run_loop in HI by (exact eq_refl || apply Hi). by rewrite demo_run in HI.
Qed.

Lemma ckpt_roundtrip_witness : (∃ bs c', simi_ckpt_save resolved (simi_ckpt_size resolved) = inr bs ∧
  Z.of_nat (length bs) = simi_ckpt_size resolved ∧ simi_ckpt_load ctx_zero bs (Some (program demo_code)) = (SIMI_CKPT_OK, c') ∧
  ∀ n, osame (simi_interp_run resolved n) (simi_interp_run c' n)) ∧
  (∀ buf o', fst (simi_ckpt_load ctx_zero buf o') ≠ SIMI_CKPT_OK → snd (simi_ckpt_load ctx_zero buf o') = ctx_zero).
Proof. apply (ckpt_roundtrip (program demo_code) resolved (simi_ckpt_size resolved) ctx_zero resolved_wf). apply Z.le_refl. Defined.

(** A node that holds the program. *)
#[local] Instance demo_heap : Heap := {| image_at _ := program demo_code; ctx_at _ := resolved |}.
Definition receiver : Migrator := simi_ctx_migrate_register_image 1 (mkMig ∅ 0 rx_zero ctx_zero 0 ∅).

Lemma receiver_finds : cm_find_image (simi_ckpt_program_hash (Some (program demo_code))) receiver = 1.
Proof.
  unfold cm_find_image. pose proof (program_hash_nonzero (program demo_code)) as Hne. revert Hne. cbn [image_at demo_heap].
  generalize (simi_ckpt_program_hash (Some (program demo_code))). intros h Hne. rewrite (proj2 (Z.eqb_neq h 0) Hne).
  change (cm_image_count receiver) with 1. change (cm_images receiver) with (<[0 := 1]> (∅ : gmap Z Z)).
  change (Z.to_nat 1) with 1%nat. cbn [find_up]. rewrite aget_upd_eq, Z.eqb_refl. cbn [negb Z.eqb andb]. apply aget_upd_eq.
Qed.

Lemma migration_transparent_witness :
  ∃ m, cm_landed_valid m = 1 ∧ ∀ b, osame (simi_interp_run (start demo_code) (1 + b)) (simi_interp_run (cm_landed_ctx m) b).
Proof.
  destruct (migration_transparent (program demo_code) (Some String.EmptyString) (start demo_code) 1 SIMI_STATUS_OK resolved 9 2 0 None
    demo_ok eq_refl demo_run) as (begin & chunks & _ & _ & Hm).
  destruct (Hm receiver chunks) as (k & Hk).
  - by left.
  - by rewrite receiver_finds.
  - reflexivity.
  - apply Forall_forall. intros e He. by right.
  - done.
  - by exists (receive (begin :: take k chunks) receiver).
Defined.

(** The program as an uploaded image, started as workload "w" in partition 2. *)
Definition demo_image : list Z :=
  le_bytes 4 WC_SIMI_MAGIC ++ le_bytes 4 3 ++ le_bytes 4 0 ++ le_bytes 4 1 ++ le_bytes 4 1 ++
  concat (map (le_bytes 8) demo_code) ++ replicate 36 0 ++ 97 :: replicate 31 0.
Definition label_w : String.string := String.String (Ascii.ascii_of_nat 119) String.EmptyString.
Definition demo_start : pop := PStart (Some label_w) (Some demo_image) (Some String.EmptyString) 2.
Definition demo_workloads : Pool := snd (wlctx_start (Some label_w) (Some demo_image) (Some String.EmptyString) 2 pool_boot).

Lemma demo_image_bytes : bytes demo_image.
Proof. apply (bool_decide_unpack _). vm_compute. exact I. Qed.

Lemma demo_workloads_reach : pool_reach demo_workloads.
Proof. apply (pool_reach_step demo_start pool_boot); [apply pool_reach_boot|exact demo_image_bytes|reflexivity]. Qed.

Lemma demo_workloads_live : live demo_workloads = [(1, 2, label_w)].
Proof. vm_compute. reflexivity. Qed.

