(* ===== verification/BTree.v ===== *)
(** The B+-tree of kernel/row_index.c: nodes in one shared pool, addressed by index, that keep the rows of
    a table ordered by the value of one column.

    A node has room for [BTREE_ORDER] keys and is split when it holds that many; a leaf holds each distinct
    key once, with the rows that share it, and points at the next leaf.  Every operation is the C function
    of the same name on an explicit pool.  [None] stands for an access outside the arrays of a node or of
    the descent path, and for a loop that does not end within the number of nodes of the pool. *)
From stdpp Require Import base gmap list.
From Stdlib Require Import ZArith Lia.
From S2P Require Import Prelude.
#[local] Open Scope Z_scope.
#[local] Open Scope carr_scope.

(** * Data *)

Definition BTREE_ORDER : Z := 4.
Definition BTREE_MAX_KEY_BYTES : Z := 64.
Definition BTREE_MAX_DUPES_PER_KEY : Z := 16.
Definition BTREE_MAX_NODES : Z := 16384.
Definition BTREE_INVALID_NODE : Z := 0xFFFFFFFF.

Record RowId := mkRowId { page_id : Z; slot_index : Z }.

#[export] Instance RowId_eq_dec : EqDecision RowId.
Proof. solve_decision. Defined.
#[export] Instance CZero_RowId : CZero RowId := mkRowId 0 0.

(** A key is the [BTREE_MAX_KEY_BYTES] bytes of its buffer. *)
Definition key : Type := list Z.
#[export] Instance CZero_key : CZero key := replicate (Z.to_nat BTREE_MAX_KEY_BYTES) 0.

Record BTreeNode := mkNode {
  is_leaf : Z;
  n_active : Z;
  key_count : Z;
  keys : gmap Z key;
  children : gmap Z Z;
  ids : gmap Z (gmap Z RowId);
  id_active : gmap Z (gmap Z Z);
  id_count : gmap Z Z;
  key_capped : gmap Z Z;
  next_leaf : Z
}.

#[export] Instance CZero_BTreeNode : CZero BTreeNode := mkNode 0 0 0 ∅ ∅ ∅ ∅ ∅ ∅ 0.

Definition set_key_count (v : Z) (n : BTreeNode) : BTreeNode :=
  mkNode (is_leaf n) (n_active n) v (keys n) (children n) (ids n) (id_active n) (id_count n) (key_capped n) (next_leaf n).
Definition set_keys (v : gmap Z key) (n : BTreeNode) : BTreeNode :=
  mkNode (is_leaf n) (n_active n) (key_count n) v (children n) (ids n) (id_active n) (id_count n) (key_capped n) (next_leaf n).
Definition set_children (v : gmap Z Z) (n : BTreeNode) : BTreeNode :=
  mkNode (is_leaf n) (n_active n) (key_count n) (keys n) v (ids n) (id_active n) (id_count n) (key_capped n) (next_leaf n).
Definition set_next_leaf (v : Z) (n : BTreeNode) : BTreeNode :=
  mkNode (is_leaf n) (n_active n) (key_count n) (keys n) (children n) (ids n) (id_active n) (id_count n) (key_capped n) v.
Definition set_capped (i v : Z) (n : BTreeNode) : BTreeNode :=
  mkNode (is_leaf n) (n_active n) (key_count n) (keys n) (children n) (ids n) (id_active n) (id_count n)
    (key_capped n).[i <- v] (next_leaf n).
Definition set_id_active (i d v : Z) (n : BTreeNode) : BTreeNode :=
  mkNode (is_leaf n) (n_active n) (key_count n) (keys n) (children n) (ids n)
    (id_active n).[i <- (id_active n).[i].[d <- v]] (id_count n) (key_capped n) (next_leaf n).

(** The node pool, [btree_nodes] and [btree_next_free_node]. *)
Record Pool := mkPool { btree_nodes : gmap Z BTreeNode; btree_next_free_node : Z }.

Definition set_node (i : Z) (n : BTreeNode) (p : Pool) : Pool :=
  mkPool (btree_nodes p).[i <- n] (btree_next_free_node p).

(** The fields of [struct RowIndex] that a tree operation reads and writes. *)
Record Tree := mkTree { root_node : Z; entry_count : Z }.

(** * Keys *)

Fixpoint ri_memcmp (n : nat) (a b : list Z) : Z :=
  match n, a, b with
  | S n, x :: a, y :: b => if x =? y then ri_memcmp n a b else x - y
  | _, _, _ => 0
  end.

Definition key_cmp (a b : key) : Z := ri_memcmp (Z.to_nat BTREE_MAX_KEY_BYTES) a b.

(** * Loops *)

(** [for (j = hi; n iterations; j--) body] *)
Fixpoint for_down {S} (n : nat) (j : Z) (body : Z → S → S) (s : S) : S :=
  match n with
  | O => s
  | Datatypes.S n' => for_down n' (j - 1) body (body j s)
  end.

(** [i = 0; while (i < n && !p(i)) i++;] *)
Definition first_where (n : Z) (p : Z → bool) : Z := default n (find_up (Z.to_nat n) 0 p).

(** * Nodes *)

Definition alloc_node (leaf : Z) (p : Pool) : Z * Pool :=
  if BTREE_MAX_NODES <=? btree_next_free_node p then (BTREE_INVALID_NODE, p) else
  let id := btree_next_free_node p in
  let n := mkNode leaf 1 0 ∅ (for_up (Z.to_nat (BTREE_ORDER + 1)) 0 (fun i c => c.[i <- BTREE_INVALID_NODE]) ∅)
             ∅ ∅ ∅ ∅ BTREE_INVALID_NODE in
  (id, mkPool (btree_nodes p).[id <- n] (id + 1)).

(** The child a search for [k] goes to. *)
Definition child_slot (k : key) (n : BTreeNode) : Z :=
  first_where (key_count n) (fun i => key_cmp k (keys n).[i] <? 0).

(** [while (!btree_nodes[cur].is_leaf) { path[path_len++] = cur; ... cur = n->children[i]; }], the path with
    the last node first. *)
Fixpoint descend (fuel : nat) (route : BTreeNode → Z) (ns : gmap Z BTreeNode) (cur : Z) (path : list Z)
    : option (list Z * Z) :=
  match fuel with
  | O => None
  | S fuel =>
      let n := ns.[cur] in
      if negb (is_leaf n =? 0) then Some (path, cur)
      else descend fuel route ns (children n).[route n] (cur :: path)
  end.

Definition leaf_for (route : BTreeNode → Z) (root : Z) (ns : gmap Z BTreeNode) : option (list Z * Z) :=
  descend (Z.to_nat BTREE_MAX_NODES) route ns root [].

(** The slot of a leaf that holds exactly [k]. *)
Definition leaf_find (k : key) (n : BTreeNode) : option Z :=
  find_up (Z.to_nat (key_count n)) 0 (fun i => key_cmp (keys n).[i] k =? 0).

(** Slot [src] of [from], with everything a leaf keeps for its key, copied to slot [dst] of [n]. *)
Definition leaf_copy (from : BTreeNode) (src dst : Z) (n : BTreeNode) : BTreeNode :=
  mkNode (is_leaf n) (n_active n) (key_count n)
    (keys n).[dst <- (keys from).[src]] (children n)
    (ids n).[dst <- (ids from).[src]] (id_active n).[dst <- (id_active from).[src]]
    (id_count n).[dst <- (id_count from).[src]] (key_capped n).[dst <- (key_capped from).[src]] (next_leaf n).

(** A key with its first row written to slot [i]. *)
Definition leaf_put (i : Z) (k : key) (id : RowId) (n : BTreeNode) : BTreeNode :=
  mkNode (is_leaf n) (n_active n) (key_count n)
    (keys n).[i <- k] (children n)
    (ids n).[i <- (ids n).[i].[0 <- id]] (id_active n).[i <- ((∅ : gmap Z Z).[0 <- 1])]
    (id_count n).[i <- 1] (key_capped n).[i <- 0] (next_leaf n).

(** One more row for the key of slot [i]. *)
Definition leaf_append (i : Z) (id : RowId) (n : BTreeNode) : BTreeNode :=
  let d := (id_count n).[i] in
  mkNode (is_leaf n) (n_active n) (key_count n) (keys n) (children n)
    (ids n).[i <- (ids n).[i].[d <- id]] (id_active n).[i <- (id_active n).[i].[d <- 1]]
    (id_count n).[i <- d + 1] (key_capped n) (next_leaf n).

(** A new key of a leaf, in its sorted position. *)
Definition leaf_insert (k : key) (id : RowId) (n : BTreeNode) : BTreeNode :=
  let kc := key_count n in
  let i := first_where kc (fun i => negb (key_cmp (keys n).[i] k <? 0)) in
  let n := for_down (Z.to_nat (kc - i)) kc (fun j n => leaf_copy n (j - 1) j n) n in
  set_key_count (kc + 1) (leaf_put i k id n).

(** A separator and the child to its right, in their sorted position. *)
Definition parent_insert (sep : key) (child : Z) (n : BTreeNode) : BTreeNode :=
  let kc := key_count n in
  let pi := first_where kc (fun i => negb (key_cmp (keys n).[i] sep <? 0)) in
  let ks := for_down (Z.to_nat (kc - pi)) kc (fun j (a : gmap Z key) => a.[j <- a.[j - 1]]) (keys n) in
  let cs := for_down (Z.to_nat (kc - pi)) (kc + 1) (fun j (a : gmap Z Z) => a.[j <- a.[j - 1]]) (children n) in
  set_key_count (kc + 1) (set_children cs.[pi + 1 <- child] (set_keys ks.[pi <- sep] n)).

(** The upper half of an overfull leaf, moved to the new node [right]. *)
Definition leaf_split (left right : BTreeNode) (right_id : Z) : BTreeNode * BTreeNode :=
  let mid := BTREE_ORDER / 2 in
  let old_count := key_count left in
  let right := for_up (Z.to_nat (old_count - mid)) mid (fun k r => leaf_copy left k (k - mid) r) right in
  (set_next_leaf right_id (set_key_count mid left),
   set_next_leaf (next_leaf left) (set_key_count (old_count - mid) right)).

(** The upper half of an overfull internal node, moved to the new node [right]; the middle key goes up. *)
Definition parent_split (left right : BTreeNode) : BTreeNode * BTreeNode * key :=
  let imid := BTREE_ORDER / 2 in
  let old_count := key_count left in
  let ks := for_up (Z.to_nat (old_count - (imid + 1))) (imid + 1)
              (fun k (a : gmap Z key) => a.[k - (imid + 1) <- (keys left).[k]]) (keys right) in
  let cs := for_up (Z.to_nat (old_count - imid)) (imid + 1)
              (fun k (a : gmap Z Z) => a.[k - (imid + 1) <- (children left).[k]]) (children right) in
  (set_key_count imid left, set_children cs (set_key_count (old_count - (imid + 1)) (set_keys ks right)),
   (keys left).[imid]).

(** * Insertion *)

(** The loop that takes a split up the recorded path: [inl] when a node absorbed it, or could not be split
    because the pool is used up; [inr] with what is left to attach above the old root. *)
Fixpoint propagate (path : list Z) (sep : key) (child : Z) (p : Pool) : option (Pool + key * Z * Pool) :=
  match path with
  | [] => Some (inr (sep, child, p))
  | parent_id :: path =>
      let parent := (btree_nodes p).[parent_id] in
      if BTREE_ORDER <=? key_count parent then None else
      let parent := parent_insert sep child parent in
      let p := set_node parent_id parent p in
      if key_count parent <=? BTREE_ORDER - 1 then Some (inl p) else
      let '(r, p) := alloc_node 0 p in
      if r =? BTREE_INVALID_NODE then Some (inl p) else
      let '(pleft, pright, promoted) := parent_split (btree_nodes p).[parent_id] (btree_nodes p).[r] in
      propagate path promoted r (set_node r pright (set_node parent_id pleft p))
  end.

Definition new_root (sep : key) (child : Z) (t : Tree) (p : Pool) : Tree * Pool :=
  let '(r, p) := alloc_node 0 p in
  if r =? BTREE_INVALID_NODE then (t, p) else
  let nr := (btree_nodes p).[r] in
  let nr := mkNode (is_leaf nr) (n_active nr) 1 (keys nr).[0 <- sep] (children nr).[0 <- root_node t].[1 <- child]
              (ids nr) (id_active nr) (id_count nr) (key_capped nr) (next_leaf nr) in
  (mkTree r (entry_count t), set_node r nr p).

(** [btree_insert]: the return code, the index and the pool. *)
Definition btree_insert (t : Tree) (k : key) (id : RowId) (p : Pool) : option (Z * Tree * Pool) :=
  if root_node t =? BTREE_INVALID_NODE then
    let '(leaf, p) := alloc_node 1 p in
    if leaf =? BTREE_INVALID_NODE then Some (1, t, p) else
    let n := set_key_count 1 (leaf_put 0 k id (btree_nodes p).[leaf]) in
    Some (0, mkTree leaf (u32 (entry_count t + 1)), set_node leaf n p)
  else
  match leaf_for (child_slot k) (root_node t) (btree_nodes p) with
  | None => None
  | Some (path, leaf) =>
      if (32 <? length path)%nat then None else
      let lf := (btree_nodes p).[leaf] in
      match leaf_find k lf with
      | Some i =>
          if BTREE_MAX_DUPES_PER_KEY <=? (id_count lf).[i]
          then Some (1, t, set_node leaf (set_capped i 1 lf) p)
          else Some (0, mkTree (root_node t) (u32 (entry_count t + 1)), set_node leaf (leaf_append i id lf) p)
      | None =>
          if BTREE_ORDER <=? key_count lf then None else
          let lf := leaf_insert k id lf in
          let t := mkTree (root_node t) (u32 (entry_count t + 1)) in
          let p := set_node leaf lf p in
          if key_count lf <=? BTREE_ORDER - 1 then Some (0, t, p) else
          let '(r, p) := alloc_node 1 p in
          if r =? BTREE_INVALID_NODE then Some (0, t, p) else
          let '(lleft, lright) := leaf_split (btree_nodes p).[leaf] (btree_nodes p).[r] r in
          match propagate path (keys lright).[0] r (set_node r lright (set_node leaf lleft p)) with
          | None => None
          | Some (inl p) => Some (0, t, p)
          | Some (inr (sep, child, p)) => let '(t, p) := new_root sep child t p in Some (0, t, p)
          end
      end
  end.

(** * Deletion *)

Definition row_match (id : RowId) (i : Z) (n : BTreeNode) (d : Z) : bool :=
  negb ((id_active n).[i].[d] =? 0) &&
  ((page_id (ids n).[i].[d] =? page_id id) && (slot_index (ids n).[i].[d] =? slot_index id)).

Definition btree_delete (t : Tree) (k : key) (id : RowId) (p : Pool) : option (Tree * Pool) :=
  if root_node t =? BTREE_INVALID_NODE then Some (t, p) else
  match leaf_for (child_slot k) (root_node t) (btree_nodes p) with
  | None => None
  | Some (_, leaf) =>
      let lf := (btree_nodes p).[leaf] in
      match leaf_find k lf with
      | None => Some (t, p)
      | Some i =>
          match find_up (Z.to_nat (id_count lf).[i]) 0 (row_match id i lf) with
          | None => Some (t, p)
          | Some d =>
              Some (mkTree (root_node t) (if entry_count t =? 0 then 0 else entry_count t - 1),
                    set_node leaf (set_id_active i d 0 lf) p)
          end
      end
  end.

(** * Scans *)

(** How many rows a scan found and the ones it stored, at most [max]. *)
Definition emit (max : Z) (id : RowId) (acc : Z * list RowId) : Z * list RowId :=
  (u32 (acc.1 + 1), if acc.1 <? max then acc.2 ++ [id] else acc.2).

(** The active rows of slot [i]. *)
Definition emit_slot (max i : Z) (n : BTreeNode) (acc : Z * list RowId) : Z * list RowId :=
  for_up (Z.to_nat (id_count n).[i]) 0
    (fun d acc => if (id_active n).[i].[d] =? 0 then acc else emit max (ids n).[i].[d] acc) acc.

(** [lo && key_cmp(k, lo) < 0] and [hi && key_cmp(k, hi) > 0] *)
Definition below (lo : option key) (k : key) : bool := match lo with Some l => key_cmp k l <? 0 | None => false end.
Definition above (hi : option key) (k : key) : bool := match hi with Some h => 0 <? key_cmp k h | None => false end.

(** The keys of one leaf from slot [i]; [true] when a key above [hi] ended the scan. *)
Fixpoint scan_leaf (m : nat) (i : Z) (lo hi : option key) (max : Z) (n : BTreeNode) (acc : Z * list RowId)
    : bool * (Z * list RowId) :=
  match m with
  | O => (false, acc)
  | S m =>
      let k := (keys n).[i] in
      if below lo k then scan_leaf m (i + 1) lo hi max n acc
      else if above hi k then (true, acc)
      else scan_leaf m (i + 1) lo hi max n (emit_slot max i n acc)
  end.

Fixpoint scan_chain (fuel : nat) (cur : Z) (lo hi : option key) (max : Z) (ns : gmap Z BTreeNode)
    (acc : Z * list RowId) : option (Z * list RowId) :=
  if cur =? BTREE_INVALID_NODE then Some acc else
  match fuel with
  | O => None
  | S fuel =>
      let lf := ns.[cur] in
      let '(stop, acc) := scan_leaf (Z.to_nat (key_count lf)) 0 lo hi max lf acc in
      if stop then Some acc else scan_chain fuel (next_leaf lf) lo hi max ns acc
  end.

Definition range_route (lo : option key) (n : BTreeNode) : Z :=
  match lo with Some l => child_slot l n | None => 0 end.

(** [range_scan_internal]: the number of matches and the rows written to [out_ids]. *)
Definition range_scan_internal (t : Tree) (lo hi : option key) (max_ids : Z) (p : Pool) : option (Z * list RowId) :=
  if root_node t =? BTREE_INVALID_NODE then Some (0, []) else
  match leaf_for (range_route lo) (root_node t) (btree_nodes p) with
  | None => None
  | Some (_, leaf) => scan_chain (Z.to_nat BTREE_MAX_NODES) leaf lo hi max_ids (btree_nodes p) (0, [])
  end.

Definition leaf_key_capped (t : Tree) (k : key) (p : Pool) : option Z :=
  if root_node t =? BTREE_INVALID_NODE then Some 0 else
  match leaf_for (child_slot k) (root_node t) (btree_nodes p) with
  | None => None
  | Some (_, leaf) =>
      let lf := (btree_nodes p).[leaf] in
      match leaf_find k lf with Some i => Some (key_capped lf).[i] | None => Some 0 end
  end.
