(* ===== verification/BTreeLib.v ===== *)
(** What the B+-tree proofs use of keys and arrays: keys as the numbers their bytes spell, arrays as the
    lists of their first elements, and the reference index, a sorted list of keys with their rows. *)
From stdpp Require Import base gmap list list_numbers.
From Stdlib Require Import ZArith Lia Sorted.
From S2P Require Import Prelude Bytes BTree.
#[local] Open Scope Z_scope.
#[local] Open Scope carr_scope.

(** * Keys in order *)

Definition byte (b : Z) : Prop := 0 ≤ b < 256.
Definition is_key (k : key) : Prop := length k = Z.to_nat BTREE_MAX_KEY_BYTES ∧ Forall byte k.

(** The big-endian number of a key: [memcmp] orders keys as their numbers. *)
Fixpoint kv (k : list Z) : Z :=
  match k with [] => 0 | b :: k => b * 256 ^ Z.of_nat (length k) + kv k end.

Lemma kv_bounds k : Forall byte k → 0 ≤ kv k < 256 ^ Z.of_nat (length k).
Proof.
  induction 1 as [|b k Hb _ IH]; [done|]. cbn [kv length].
  rewrite Nat2Z.inj_succ, Z.pow_succ_r by lia. unfold byte in Hb. nia.
Qed.

Lemma kv_cons_lt x y a b : length a = length b → Forall byte a → Forall byte b → x < y → kv (x :: a) < kv (y :: b).
Proof.
  intros E Ha%kv_bounds Hb%kv_bounds Hxy. cbn [kv]. rewrite E in *. nia.
Qed.

Lemma memcmp_spec a b : length a = length b → Forall byte a → Forall byte b →
  match ri_memcmp (length a) a b ?= 0 with Lt => kv a < kv b | Eq => a = b | Gt => kv b < kv a end.
Proof.
  revert b. induction a as [|x a IH]; intros [|y b]; [done|done|done|]. intros [= E] [Hx Ha]%Forall_cons [Hy Hb]%Forall_cons.
  cbn [length ri_memcmp]. destruct (Z.eqb_spec x y) as [->|Hne].
  - specialize (IH b E Ha Hb). destruct (_ ?= 0); [by subst | cbn [kv]; rewrite E; lia | cbn [kv]; rewrite E; lia].
  - destruct (Z.compare_spec (x - y) 0); [lia | apply kv_cons_lt; (done || lia) | apply kv_cons_lt; (done || lia)].
Qed.

Lemma key_cmp_spec a b : is_key a → is_key b →
  match key_cmp a b ?= 0 with Lt => kv a < kv b | Eq => a = b | Gt => kv b < kv a end.
Proof.
  intros [La Ha] [Lb Hb]. unfold key_cmp. rewrite <- La. apply memcmp_spec; [congruence | done | done].
Qed.

Section Cmp.
Context (a b : key) (Ha : is_key a) (Hb : is_key b).

Lemma key_cmp_lt : (key_cmp a b <? 0) = (kv a <? kv b).
Proof using Ha Hb.
  pose proof (key_cmp_spec a b Ha Hb) as H. destruct (Z.compare_spec (key_cmp a b) 0) as [E|E|E];
  [subst b; rewrite E, !Z.ltb_irrefl | |]; zcase.
Qed.

Lemma key_cmp_gt : (0 <? key_cmp a b) = (kv b <? kv a).
Proof using Ha Hb.
  pose proof (key_cmp_spec a b Ha Hb) as H. destruct (Z.compare_spec (key_cmp a b) 0) as [E|E|E];
  [subst b; rewrite E, !Z.ltb_irrefl | |]; zcase.
Qed.

Lemma key_cmp_eq : (key_cmp a b =? 0) = (kv a =? kv b).
Proof using Ha Hb.
  pose proof (key_cmp_spec a b Ha Hb) as H. destruct (Z.compare_spec (key_cmp a b) 0) as [E|E|E];
  [subst b; rewrite E, !Z.eqb_refl | |]; zcase.
Qed.

Lemma kv_inj : kv a = kv b → a = b.
Proof using Ha Hb.
  intros E. pose proof (key_cmp_spec a b Ha Hb) as H. destruct (_ ?= 0); [done | lia | lia].
Qed.

End Cmp.

(** * Loops over arrays *)

(** The loop that makes room in an array. *)
Lemma shift_spec {A} `{CZero A} (a : gmap Z A) m hi j :
  (for_down m hi (fun j (a : gmap Z A) => a.[j <- a.[j - 1]]) a).[j] =
  if decide (hi - Z.of_nat m < j ≤ hi) then a.[j - 1] else a.[j].
Proof.
  revert a hi. induction m as [|m IH]; intros a hi; cbn [for_down].
  { rewrite decide_False by lia. done. }
  rewrite IH. destruct (decide (hi - 1 - Z.of_nat m < j ≤ hi - 1)) as [H1|H1].
  - rewrite decide_True by lia. rewrite aget_upd_ne by lia. done.
  - rewrite aget_upd. destruct (Z.eqb_spec hi j) as [->|]; [by rewrite decide_True by lia|].
    rewrite decide_False by lia. done.
Qed.

(** The loop that copies the end of an array to the front of another. *)
Lemma copy_spec {A} `{CZero A} (src dst : gmap Z A) m off i j : off ≤ i →
  (for_up m i (fun k (a : gmap Z A) => a.[k - off <- src.[k]]) dst).[j] =
  if decide (i - off ≤ j < i - off + Z.of_nat m) then src.[j + off] else dst.[j].
Proof.
  revert dst i. induction m as [|m IH]; intros dst i Hi; cbn [for_up].
  { rewrite decide_False by lia. done. }
  rewrite IH by lia. destruct (decide (i + 1 - off ≤ j < i + 1 - off + Z.of_nat m)).
  - rewrite decide_True by lia. done.
  - rewrite aget_upd. destruct (Z.eqb_spec (i - off) j) as [<-|].
    + rewrite decide_True by lia. f_equal. lia.
    + rewrite decide_False by lia. done.
Qed.

Lemma first_where_spec n p : 0 ≤ n →
  0 ≤ first_where n p ≤ n ∧ (∀ j, 0 ≤ j < first_where n p → p j = false) ∧ (first_where n p < n → p (first_where n p) = true).
Proof.
  intros Hn. unfold first_where. destruct (find_up _ _ _) as [i|] eqn:E; cbn.
  - apply find_up_Some in E as (Hi & Hp & Hj). split_and!; [lia | lia | done | done].
  - rewrite find_up_None in E. split_and!; [lia | lia | intros j Hj; apply E; lia | lia].
Qed.

(** * The reference index *)

(** The rows of one key: each with its active mark, in the order of insertion, tombstones included, and whether
    a row was ever refused. *)
Record dups := mkDups { d_ids : list (RowId * Z); d_capped : Z }.
Definition entry : Type := key * dups.

Fixpoint ix_insert (k : key) (id : RowId) (es : list entry) : Z * list entry :=
  match es with
  | [] => (0, [(k, mkDups [(id, 1)] 0)])
  | (k', d) :: es' =>
      if key_cmp k k' <? 0 then (0, (k, mkDups [(id, 1)] 0) :: es)
      else if key_cmp k' k =? 0 then
        if BTREE_MAX_DUPES_PER_KEY <=? Z.of_nat (length (d_ids d)) then (1, (k', mkDups (d_ids d) 1) :: es')
        else (0, (k', mkDups (d_ids d ++ [(id, 1)]) (d_capped d)) :: es')
      else let '(r, es') := ix_insert k id es' in (r, (k', d) :: es')
  end.

(** The first active mark of [id] cleared. *)
Fixpoint clear_row (id : RowId) (l : list (RowId * Z)) : list (RowId * Z) :=
  match l with
  | [] => []
  | (i, a) :: l => if negb (a =? 0) && bool_decide (i = id) then (i, 0) :: l else (i, a) :: clear_row id l
  end.

Definition ix_delete (k : key) (id : RowId) (es : list entry) : list entry :=
  map (fun e : entry => if key_cmp e.1 k =? 0 then (e.1, mkDups (clear_row id (d_ids e.2)) (d_capped e.2)) else e) es.

Definition active_rows (d : dups) : list RowId := map fst (filter (fun r => r.2 ≠ 0) (d_ids d)).

Definition in_range (lo hi : option key) (k : key) : bool := negb (below lo k) && negb (above hi k).

(** The active rows of every key between the bounds, in key order. *)
Definition ix_range (lo hi : option key) (es : list entry) : list RowId :=
  es ≫= (fun e : entry => if in_range lo hi e.1 then active_rows e.2 else []).

Definition ix_capped (k : key) (es : list entry) : Z :=
  from_option (fun e : entry => d_capped e.2) 0 (List.find (fun e : entry => key_cmp e.1 k =? 0) es).
