(* ===== verification/BTreeLeaf.v ===== *)
(** A leaf of the B+-tree as the list of its entries: what searching, appending to, inserting into, deleting
    from and splitting a leaf does to that list. *)
From stdpp Require Import base gmap list list_numbers.
From Stdlib Require Import ZArith Lia Sorted.
From S2P Require Import Prelude Bytes BTree BTreeLib.
#[local] Open Scope Z_scope.
#[local] Open Scope carr_scope.

Definition entry_at (n : BTreeNode) (i : Z) : entry :=
  ((keys n).[i], mkDups (tab (fun d => ((ids n).[i].[d], (id_active n).[i].[d])) (id_count n).[i]) (key_capped n).[i]).

Definition leaf_entries (n : BTreeNode) : list entry := tab (entry_at n) (key_count n).

(** Keys between [lo] and [hi], each once and in order, with no more rows than a slot holds. *)
Record entries_ok (lo hi : Z) (es : list entry) : Prop := EntriesOk {
  eo_keys : Forall (fun e : entry => is_key e.1 ∧ lo ≤ kv e.1 < hi) es;
  eo_rows : Forall (fun e : entry => (length (d_ids e.2) ≤ Z.to_nat BTREE_MAX_DUPES_PER_KEY)%nat) es;
  eo_sorted : StronglySorted (fun a b : entry => kv a.1 < kv b.1) es
}.

Definition counts_ok (n : BTreeNode) : Prop := ∀ i, 0 ≤ i < key_count n → 0 ≤ (id_count n).[i].

(** * Sorted entries *)

Section Entries.
Context (k : key) (id : RowId) (Hk : is_key k).
Implicit Types (es : list entry).

Definition key_at es i : option Z := kv ∘ fst <$> es !! i.

Lemma entries_nil lo hi : entries_ok lo hi [].
Proof. by split; constructor. Qed.

Lemma entries_cons lo hi e es :
  entries_ok lo hi (e :: es) ↔
  is_key e.1 ∧ lo ≤ kv e.1 < hi ∧ (length (d_ids e.2) ≤ Z.to_nat BTREE_MAX_DUPES_PER_KEY)%nat ∧
  Forall (fun e' : entry => kv e.1 < kv e'.1) es ∧ entries_ok lo hi es.
Proof.
  split.
  - intros [[[? [? ?]] ?]%Forall_cons [? ?]%Forall_cons [? ?]%StronglySorted_inv]. split_and!; done || (by split).
  - intros (? & ? & ? & ? & [? ? ?]). split; by constructor.
Qed.

Lemma entries_app lo hi es1 es2 :
  entries_ok lo hi (es1 ++ es2) ↔
  entries_ok lo hi es1 ∧ entries_ok lo hi es2 ∧ (∀ e1 e2 : entry, e1 ∈ es1 → e2 ∈ es2 → kv e1.1 < kv e2.1).
Proof.
  induction es1 as [|e es1 IH]; cbn [app].
  { split; [intros H; split_and!; [apply entries_nil | done | by intros e1 e2 ?%elem_of_nil] | by intros (_ & ? & _)]. }
  rewrite !entries_cons, Forall_app, IH, !Forall_forall. split.
  - intros (? & ? & ? & [H1 H2] & ? & ? & H3). split_and!; try (done || lia).
    intros e1 e2 [->|He1]%elem_of_cons He2; [by apply H2 | by apply H3].
  - intros ((? & ? & ? & ? & ?) & ? & Hlt). split_and!; try (done || lia).
    + intros x Hx. apply Hlt; [by left | done].
    + intros e1 e2 He1 He2. apply Hlt; [by right | done].
Qed.

Lemma entries_bounds lo hi es e : entries_ok lo hi es → e ∈ es → is_key e.1 ∧ lo ≤ kv e.1 < hi.
Proof. intros [H _ _] He. by rewrite Forall_forall in H; apply H. Qed.

Lemma entries_weaken lo hi lo' hi' es : lo' ≤ lo → hi ≤ hi' → entries_ok lo hi es → entries_ok lo' hi' es.
Proof.
  intros Hlo Hhi [H1 H2 H3]. split; [|done|done]. eapply Forall_impl; [exact H1|]. cbn. intros e [? ?]. split; [done | lia].
Qed.

(** A sublist with tighter bounds. *)
Lemma entries_tighten lo hi lo' hi' es : entries_ok lo hi es → (∀ e : entry, e ∈ es → lo' ≤ kv e.1 < hi') → entries_ok lo' hi' es.
Proof.
  intros [H1 H2 H3] Hb. split; [|done|done]. rewrite Forall_forall in H1 |- *. intros e He. split; [by apply H1 | by apply Hb].
Qed.

Lemma ix_insert_app pre es post : Forall (fun e : entry => is_key e.1 ∧ kv e.1 < kv k) pre → Forall (fun e : entry => is_key e.1 ∧ kv k < kv e.1) post →
  ix_insert k id (pre ++ es ++ post) = ((ix_insert k id es).1, pre ++ (ix_insert k id es).2 ++ post).
Proof using Hk.
  intros Hpre Hpost. induction Hpre as [|[k0 d0] pre [Hk0 Hlt] _ IH]; cbn [app].
  - induction es as [|[k' d'] es IHe]; cbn [app ix_insert].
    + destruct Hpost as [|[k1 d1] post [Hk1 Hlt1] _]; cbn; [done|]. cbn in Hk1, Hlt1. rewrite key_cmp_lt by done. zcase.
    + destruct (_ <? 0); [done|]. destruct (_ =? 0); [by destruct (_ <=? _)|]. rewrite IHe. by destruct (ix_insert k id es).
  - cbn in Hk0, Hlt. cbn [ix_insert]. rewrite key_cmp_lt, key_cmp_eq by done.
    destruct (Z.ltb_spec (kv k) (kv k0)); [lia|]. destruct (Z.eqb_spec (kv k0) (kv k)); [lia|]. by rewrite IH.
Qed.

Lemma ix_insert_new es i : Forall (fun e : entry => is_key e.1) es →
  Forall (fun e : entry => kv e.1 < kv k) (take i es) → Forall (fun e : entry => kv k < kv e.1) (drop i es) →
  ix_insert k id es = (0, take i es ++ (k, mkDups [(id, 1)] 0) :: drop i es).
Proof using Hk.
  intros Hks Hlo Hhi. rewrite <- (take_drop i es) at 1. rewrite <- (app_nil_l (drop i es)) at 1.
  rewrite ix_insert_app; [done | |].
  - apply Forall_and; split; [by apply Forall_take | done].
  - apply Forall_and; split; [by apply Forall_drop | done].
Qed.

Lemma ix_insert_dup lo hi es i k' d : entries_ok lo hi es → es !! i = Some (k', d) → kv k' = kv k →
  ix_insert k id es =
  if BTREE_MAX_DUPES_PER_KEY <=? Z.of_nat (length (d_ids d)) then (1, <[i := (k', mkDups (d_ids d) 1)]> es)
  else (0, <[i := (k', mkDups (d_ids d ++ [(id, 1)]) (d_capped d))]> es).
Proof using Hk.
  intros Hok Hi Hkk. revert i Hi. induction es as [|[k0 d0] es IH]; [done|].
  apply entries_cons in Hok as (Hk0 & _ & _ & Hlt & Hok). cbn in Hk0, Hlt. intros [|i] Hi; cbn [ix_insert].
  - injection Hi as -> ->. rewrite key_cmp_lt, key_cmp_eq by done. rewrite Hkk, Z.ltb_irrefl, Z.eqb_refl. by destruct (_ <=? _).
  - assert (kv k0 < kv k) by (rewrite <- Hkk; rewrite Forall_forall in Hlt; apply (Hlt (k', d)); by apply list_elem_of_lookup_2 with i).
    rewrite key_cmp_lt, key_cmp_eq by done. destruct (Z.ltb_spec (kv k) (kv k0)); [lia|]. destruct (Z.eqb_spec (kv k0) (kv k)); [lia|].
    rewrite (IH Hok i Hi). by destruct (_ <=? _).
Qed.

Lemma ix_insert_ok lo hi es : lo ≤ kv k < hi → entries_ok lo hi es → entries_ok lo hi (ix_insert k id es).2.
Proof using Hk.
  intros Hb. induction es as [|[k0 d0] es IH]; intros Hok; cbn [ix_insert].
  { apply entries_cons. cbn. split_and!; [done | lia | lia | unfold BTREE_MAX_DUPES_PER_KEY; lia | constructor | apply entries_nil]. }
  pose proof Hok as Hok'. apply entries_cons in Hok as (Hk0 & Hb0 & Hd0 & Hlt & Hok). cbn in Hk0, Hb0, Hd0, Hlt.
  rewrite key_cmp_lt, key_cmp_eq by done. destruct (Z.ltb_spec (kv k) (kv k0)).
  - apply entries_cons. cbn. split_and!; [done | lia | lia | unfold BTREE_MAX_DUPES_PER_KEY; lia | | done].
    constructor; [done|]. eapply Forall_impl; [exact Hlt|]. cbn. lia.
  - destruct (Z.eqb_spec (kv k0) (kv k)).
    + destruct (Z.leb_spec BTREE_MAX_DUPES_PER_KEY (Z.of_nat (length (d_ids d0)))); apply entries_cons; cbn [fst snd d_ids];
        split_and!; try done; try lia. rewrite length_app. cbn. unfold BTREE_MAX_DUPES_PER_KEY in *. lia.
    + specialize (IH Hok). destruct (ix_insert k id es) as [r es'] eqn:E. cbn [snd] in *.
      apply entries_cons. cbn. split_and!; try done; try lia. rewrite Forall_forall. intros e He.
      assert (He' : e.1 = k ∨ e.1 ∈ fst <$> es).
      { clear -He E. revert r es' E He. induction es as [|[k1 d1] es IH]; intros r es' E He; cbn [ix_insert] in E.
        - injection E as <- <-. apply list_elem_of_singleton in He as ->. by left.
        - destruct (_ <? 0); [injection E as <- <-; apply elem_of_cons in He as [->|He];
            [by left | right; by apply (list_elem_of_fmap_2 fst)]|].
          destruct (_ =? 0); [right; destruct (_ <=? _); injection E as <- <-; apply elem_of_cons in He as [->|He];
            (by left) || (right; by apply (list_elem_of_fmap_2 fst))|].
          destruct (ix_insert k id es) as [r0 es0] eqn:E0. injection E as <- <-. apply elem_of_cons in He as [->|He].
          + right. by left.
          + destruct (IH _ _ eq_refl He) as [|]; [by left | right; by right]. }
      destruct He' as [->|(e0 & -> & He0)%list_elem_of_fmap]; [lia|]. rewrite Forall_forall in Hlt. by apply Hlt.
Qed.

Lemma ix_delete_app es1 es2 : ix_delete k id (es1 ++ es2) = ix_delete k id es1 ++ ix_delete k id es2.
Proof. apply map_app. Qed.

Lemma ix_delete_other es : Forall (fun e : entry => is_key e.1 ∧ kv e.1 ≠ kv k) es → ix_delete k id es = es.
Proof using Hk.
  induction 1 as [|[k0 d0] es [Hk0 Hne] _ IH]; [done|]. cbn in Hk0, Hne. cbn. rewrite key_cmp_eq by done.
  destruct (Z.eqb_spec (kv k0) (kv k)); [done | by f_equal].
Qed.

Lemma clear_row_length l : length (clear_row id l) = length l.
Proof. induction l as [|[i a] l IH]; cbn; [done|]. destruct (_ && _); cbn; [done | by f_equal]. Qed.

Lemma ix_delete_ok lo hi es : entries_ok lo hi es → entries_ok lo hi (ix_delete k id es).
Proof.
  assert (∀ e : entry, ((if key_cmp e.1 k =? 0 then (e.1, mkDups (clear_row id (d_ids e.2)) (d_capped e.2)) else e) : entry).1 = e.1) as H1
    by (intros e; by destruct (_ =? 0)).
  intros [A B C]. split.
  - apply Forall_map. eapply Forall_impl; [exact A|]. intros e He. cbn beta in *. by rewrite H1.
  - apply Forall_map. eapply Forall_impl; [exact B|]. intros e He. cbn beta in *. destruct (_ =? 0); [|done]. cbn. by rewrite clear_row_length.
  - induction C as [|e es C IH Hlt]; cbn; constructor.
    + apply Forall_cons in A as [_ A], B as [_ B]. by apply IH.
    + apply Forall_map. eapply Forall_impl; [exact Hlt|]. intros e' He'. cbn beta in *. by rewrite !H1.
Qed.

End Entries.

(** * Leaves *)

(** A leaf that holds [es], with [nxt] the leaf after it. *)
Record leaf_ok (n : BTreeNode) (lo hi : Z) (es : list entry) (nxt : Z) : Prop := LeafOk {
  lo_leaf : is_leaf n ≠ 0;
  lo_next : next_leaf n = nxt;
  lo_count : 0 ≤ key_count n;
  lo_rows : counts_ok n;
  lo_es : leaf_entries n = es;
  lo_ok : entries_ok lo hi es
}.

Lemma leaf_length n lo hi es nxt : leaf_ok n lo hi es nxt → Z.of_nat (length es) = key_count n.
Proof. intros [_ _ Hc _ <- _]. unfold leaf_entries. rewrite tab_length. lia. Qed.

Lemma leaf_ok_entry n lo hi es nxt i : leaf_ok n lo hi es nxt → 0 ≤ i < key_count n → es !! Z.to_nat i = Some (entry_at n i).
Proof. intros [_ _ _ _ <- _] Hi. unfold leaf_entries. rewrite tab_lookup, Z2Nat.id by lia. done. Qed.

Lemma leaf_key n lo hi es nxt i : leaf_ok n lo hi es nxt → 0 ≤ i < key_count n → is_key (keys n).[i] ∧ lo ≤ kv (keys n).[i] < hi.
Proof.
  intros Hl Hi. pose proof (leaf_ok_entry _ _ _ _ _ _ Hl Hi) as He%list_elem_of_lookup_2.
  apply (entries_bounds _ _ _ _ (lo_ok _ _ _ _ _ Hl) He).
Qed.

Lemma id_count_length n i : counts_ok n → 0 ≤ i < key_count n → Z.of_nat (length (d_ids (entry_at n i).2)) = (id_count n).[i].
Proof. intros Hc Hi. cbn. rewrite tab_length. specialize (Hc i Hi). lia. Qed.

Lemma entry_copy from src dst n j : entry_at (leaf_copy from src dst n) j = if dst =? j then entry_at from src else entry_at n j.
Proof. unfold entry_at, leaf_copy. cbn. rewrite !aget_upd. by destruct (_ =? _). Qed.

Lemma entry_put i k id n j : entry_at (leaf_put i k id n) j = if i =? j then (k, mkDups [(id, 1)] 0) else entry_at n j.
Proof.
  unfold entry_at, leaf_put. cbn. rewrite !aget_upd. destruct (Z.eqb_spec i j); [|done].
  rewrite tab_1, !aget_upd_eq. done.
Qed.

Section LeafOps.
Context (n : BTreeNode) (lo hi nxt : Z) (es : list entry) (Hl : leaf_ok n lo hi es nxt).
Context (k : key) (id : RowId) (Hk : is_key k).

Lemma leaf_find_spec :
  match leaf_find k n with
  | Some i => 0 ≤ i < key_count n ∧ kv (keys n).[i] = kv k
  | None => ∀ e : entry, e ∈ es → kv e.1 ≠ kv k
  end.
Proof using Hl Hk.
  unfold leaf_find. pose proof (lo_count _ _ _ _ _ Hl) as Hc. destruct (find_up _ _ _) as [i|] eqn:E.
  - apply find_up_Some in E as (Hi & Hp & _). assert (0 ≤ i < key_count n) as Hi' by lia.
    destruct (leaf_key _ _ _ _ _ _ Hl Hi') as [Hki _]. rewrite key_cmp_eq in Hp by done. split; [done | lia].
  - rewrite find_up_None in E. rewrite <- (lo_es _ _ _ _ _ Hl). intros e (i & Hi & ->)%tab_elem.
    destruct (leaf_key _ _ _ _ _ _ Hl Hi) as [Hki _]. specialize (E i). rewrite key_cmp_eq in E by done. cbn. lia.
Qed.

(** The position of a new key. *)
Lemma leaf_position (f : Z → bool) i : (∀ j, 0 ≤ j < key_count n → f j = negb (key_cmp (keys n).[j] k <? 0)) →
  i = first_where (key_count n) f → (∀ e : entry, e ∈ es → kv e.1 ≠ kv k) →
  0 ≤ i ≤ key_count n ∧ Forall (fun e : entry => kv e.1 < kv k) (take (Z.to_nat i) es) ∧ Forall (fun e : entry => kv k < kv e.1) (drop (Z.to_nat i) es).
Proof using Hl Hk.
  intros Hf Hi Hne. destruct (first_where_spec (key_count n) f (lo_count _ _ _ _ _ Hl)) as (Hr & Hlo & Hhi). rewrite <- Hi in *.
  split_and!; [lia | lia | |]; apply Forall_forall.
  - intros e (j & He & Hj)%elem_of_take. assert (0 ≤ Z.of_nat j < key_count n) as Hjc by lia.
    pose proof (leaf_ok_entry _ _ _ _ _ _ Hl Hjc) as E. rewrite Nat2Z.id, He in E. injection E as ->. cbn.
    specialize (Hlo (Z.of_nat j)). rewrite Hf in Hlo by lia. destruct (leaf_key _ _ _ _ _ _ Hl Hjc) as [Hkj _].
    rewrite key_cmp_lt in Hlo by done. lia.
  - destruct (decide (i < key_count n)) as [Hlt|Hge].
    2:{ intros e He. rewrite drop_ge in He by (pose proof (leaf_length _ _ _ _ _ Hl); lia). by apply elem_of_nil in He. }
    specialize (Hhi Hlt). assert (0 ≤ i < key_count n) as Hic by lia. rewrite Hf in Hhi by lia.
    destruct (leaf_key _ _ _ _ _ _ Hl Hic) as [Hki _]. rewrite key_cmp_lt in Hhi by done.
    pose proof (leaf_ok_entry _ _ _ _ _ _ Hl Hic) as E. pose proof (Hne _ (list_elem_of_lookup_2 _ _ _ E)) as Hne'. cbn in Hne'.
    rewrite (drop_S _ _ _ E). intros e [->|He]%elem_of_cons; [cbn; lia|].
    pose proof (lo_ok _ _ _ _ _ Hl) as Hok. rewrite <- (take_drop (S (Z.to_nat i)) es), (take_S_r _ _ _ E) in Hok.
    apply entries_app in Hok as (_ & _ & Hlt'). specialize (Hlt' (entry_at n i) e). cbn in Hlt'.
    rewrite elem_of_app in Hlt'. assert (kv (keys n).[i] < kv e.1) by (apply Hlt'; [right; by left | done]). lia.
Qed.

Lemma shift_leaf m h j (n' := for_down m h (fun j n => leaf_copy n (j - 1) j n) n) :
  entry_at n' j = (if decide (h - Z.of_nat m < j ≤ h) then entry_at n (j - 1) else entry_at n j) ∧
  (id_count n').[j] = (if decide (h - Z.of_nat m < j ≤ h) then (id_count n).[j - 1] else (id_count n).[j]) ∧
  is_leaf n' = is_leaf n ∧ next_leaf n' = next_leaf n.
Proof.
  subst n'. clear Hl. revert n h. induction m as [|m IH]; intros n h; cbn [for_down].
  { rewrite !decide_False by lia. done. }
  destruct (IH (leaf_copy n (h - 1) h n) (h - 1)) as (-> & -> & -> & ->). rewrite !entry_copy. cbn. rewrite !aget_upd.
  destruct (decide (h - 1 - Z.of_nat m < j ≤ h - 1)) as [H1|H1].
  - rewrite !decide_True by lia. destruct (Z.eqb_spec h (j - 1)); [lia | done].
  - destruct (Z.eqb_spec h j) as [->|]; [by rewrite !decide_True by lia|]. rewrite !decide_False by lia. done.
Qed.

Lemma leaf_insert_ok : (∀ e : entry, e ∈ es → kv e.1 ≠ kv k) → lo ≤ kv k < hi →
  leaf_ok (leaf_insert k id n) lo hi (ix_insert k id es).2 nxt ∧ (ix_insert k id es).1 = 0 ∧
  key_count (leaf_insert k id n) = key_count n + 1.
Proof using Hl Hk.
  intros Hne Hb. unfold leaf_insert.
  set (f := fun i => negb (key_cmp (keys n).[i] k <? 0)). remember (first_where (key_count n) f) as i eqn:Ei.
  destruct (leaf_position f i (λ _ _, eq_refl) Ei Hne) as (Hi & Hlo & Hhi).
  pose proof (eo_keys _ _ _ (lo_ok _ _ _ _ _ Hl)) as Hks.
  pose proof (ix_insert_new k id Hk es (Z.to_nat i) ltac:(by eapply Forall_impl; [exact Hks | intros e []]) Hlo Hhi) as E.
  pose proof (λ j, shift_leaf (Z.to_nat (key_count n - i)) (key_count n) j) as Hs.
  set (n' := for_down _ _ _ _) in *. destruct (Hs 0) as (_ & _ & Hil & Hnl).
  split_and!; [|by rewrite E | done]. split.
  - cbn. pose proof (lo_leaf _ _ _ _ _ Hl). cbn. by rewrite Hil.
  - cbn. rewrite Hnl. apply (lo_next _ _ _ _ _ Hl).
  - cbn. pose proof (lo_count _ _ _ _ _ Hl). lia.
  - intros j Hj. cbn in Hj |- *. rewrite aget_upd. destruct (Z.eqb_spec i j); [lia|].
    destruct (Hs j) as (_ & -> & _). pose proof (lo_rows _ _ _ _ _ Hl) as Hr. destruct (decide _); apply Hr; lia.
  - rewrite E. cbn [snd]. rewrite <- (lo_es _ _ _ _ _ Hl). unfold leaf_entries. cbn [key_count set_key_count].
    apply tab_insert; [lia | | |].
    + intros j Hj. change (entry_at (leaf_put i k id n') j = entry_at n j). rewrite entry_put. destruct (Z.eqb_spec i j); [lia|].
      destruct (Hs j) as (-> & _). rewrite decide_False by lia. done.
    + change (entry_at (leaf_put i k id n') i = (k, mkDups [(id, 1)] 0)). rewrite entry_put, Z.eqb_refl. done.
    + intros j Hj. change (entry_at (leaf_put i k id n') j = entry_at n (j - 1)). rewrite entry_put. destruct (Z.eqb_spec i j); [lia|].
      destruct (Hs j) as (-> & _). rewrite decide_True by lia. done.
  - by apply ix_insert_ok, (lo_ok _ _ _ _ _ Hl).
Qed.

Lemma leaf_append_ok i : leaf_find k n = Some i →
  let full := BTREE_MAX_DUPES_PER_KEY <=? (id_count n).[i] in
  leaf_ok (if full then set_capped i 1 n else leaf_append i id n) lo hi (ix_insert k id es).2 nxt ∧
  (ix_insert k id es).1 = (if full then 1 else 0).
Proof using Hl Hk.
  intros Hf full. pose proof leaf_find_spec as Hi. rewrite Hf in Hi. destruct Hi as [Hi Hkv].
  pose proof (leaf_ok_entry _ _ _ _ _ _ Hl Hi) as He. pose proof (lo_ok _ _ _ _ _ Hl) as Hok.
  assert (lo ≤ kv k < hi) as Hb by (rewrite <- Hkv; apply (leaf_key _ _ _ _ _ _ Hl Hi)).
  pose proof (ix_insert_ok k id Hk lo hi es Hb Hok) as Hok'.
  pose proof (ix_insert_dup k id Hk lo hi es (Z.to_nat i) _ _ Hok He Hkv) as E.
  pose proof (id_count_length n i (lo_rows _ _ _ _ _ Hl) Hi) as Hlen. cbn [d_ids snd entry_at] in Hlen, E. rewrite Hlen in E.
  subst full. destruct (_ <=? _) eqn:Hfull; rewrite E in *; cbn [fst snd] in *; (split; [|done]);
    (split; [apply (lo_leaf _ _ _ _ _ Hl) | apply (lo_next _ _ _ _ _ Hl) | apply (lo_count _ _ _ _ _ Hl) | | | done]).
  - exact (lo_rows _ _ _ _ _ Hl).
  - rewrite <- (lo_es _ _ _ _ _ Hl). unfold leaf_entries. cbn [key_count set_capped]. apply tab_update; [done | |].
    + unfold entry_at. cbn. by rewrite aget_upd_eq.
    + intros j Hj Hne. unfold entry_at. cbn. by rewrite aget_upd_ne.
  - intros j Hj. cbn in Hj |- *. rewrite aget_upd. pose proof (lo_rows _ _ _ _ _ Hl j Hj) as H0. destruct (Z.eqb_spec i j) as [->|]; lia.
  - rewrite <- (lo_es _ _ _ _ _ Hl). unfold leaf_entries. cbn [key_count leaf_append]. apply tab_update; [done | |].
    + unfold entry_at. cbn. rewrite !aget_upd_eq. do 2 f_equal. apply tab_snoc.
      * apply (lo_rows _ _ _ _ _ Hl). done.
      * by rewrite !aget_upd_eq.
      * intros d Hd. by rewrite !aget_upd_ne by lia.
    + intros j Hj Hne. unfold entry_at. cbn. by rewrite !aget_upd_ne.
Qed.

Lemma copy_leaf m (r : BTreeNode) i off j : off ≤ i →
  let r' := for_up m i (fun k r => leaf_copy n k (k - off) r) r in
  let c := decide (i - off ≤ j < i - off + Z.of_nat m) in
  entry_at r' j = (if c then entry_at n (j + off) else entry_at r j) ∧
  (id_count r').[j] = (if c then (id_count n).[j + off] else (id_count r).[j]) ∧ is_leaf r' = is_leaf r.
Proof.
  clear Hl. revert r i. induction m as [|m IH]; intros r i Hi; cbn [for_up].
  { cbv zeta. rewrite !decide_False by lia. done. }
  destruct (IH (leaf_copy n i (i - off) r) (i + 1) ltac:(lia)) as (-> & -> & ->). cbv zeta.
  rewrite !entry_copy. cbn [id_count leaf_copy is_leaf]. rewrite !aget_upd.
  destruct (decide (i + 1 - off ≤ j < i + 1 - off + Z.of_nat m)).
  - rewrite !decide_True by lia. done.
  - destruct (Z.eqb_spec (i - off) j) as [<-|].
    + rewrite !decide_True by lia. replace (i - off + off) with i by lia. done.
    + rewrite !decide_False by lia. done.
Qed.

Lemma leaf_split_ok r rid : is_leaf r ≠ 0 → key_count n = BTREE_ORDER →
  let '(n1, n2) := leaf_split n r rid in
  let sep := (keys n2).[0] in
  is_key sep ∧ lo < kv sep < hi ∧ leaf_ok n1 lo (kv sep) (take 2 es) rid ∧ leaf_ok n2 (kv sep) hi (drop 2 es) nxt ∧
  key_count n1 = 2 ∧ key_count n2 = 2.
Proof using Hl.
  intros Hr Hc. unfold leaf_split. rewrite Hc. change (BTREE_ORDER / 2) with 2. change (BTREE_ORDER - 2) with 2.
  pose proof (λ j, copy_leaf (Z.to_nat 2) r 2 2 j ltac:(lia)) as Hs. cbv zeta in Hs.
  set (r' := for_up _ _ _ _) in *. cbn [keys set_next_leaf set_key_count].
  assert (E0 : (keys r').[0] = (keys n).[2]) by (destruct (Hs 0) as (E & _); rewrite decide_True in E by lia; by injection E).
  rewrite E0. pose proof (lo_ok _ _ _ _ _ Hl) as Hok. pose proof (leaf_length _ _ _ _ _ Hl) as Hlen. unfold BTREE_ORDER in *.
  pose proof (leaf_ok_entry _ _ _ _ _ 2 Hl ltac:(lia)) as E2. change (Z.to_nat 2) with 2%nat in E2.
  pose proof (leaf_ok_entry _ _ _ _ _ 0 Hl ltac:(lia)) as Ez. change (Z.to_nat 0) with 0%nat in Ez.
  destruct (leaf_key _ _ _ _ _ 2 Hl ltac:(lia)) as [Hk2 Hb2]. destruct (leaf_key _ _ _ _ _ 0 Hl ltac:(lia)) as [_ Hb0].
  pose proof Hok as Hok2. rewrite <- (take_drop 2 es) in Hok2. apply entries_app in Hok2 as (H1 & H2 & H12).
  assert (entry_at n 2 ∈ drop 2 es) as Hin2 by (rewrite (drop_S _ _ _ E2); by left).
  assert (∀ e : entry, e ∈ take 2 es → kv e.1 < kv (keys n).[2]) as Hlt1 by (intros e He; apply (H12 e (entry_at n 2) He Hin2)).
  split_and!; [done | | lia | | | done | done].
  - assert (entry_at n 0 ∈ take 2 es) as Hin0.
    { apply elem_of_take. exists 0%nat. split; [done | lia]. }
    specialize (Hlt1 _ Hin0). cbn in Hlt1. lia.
  - split; cbn; [apply (lo_leaf _ _ _ _ _ Hl) | done | lia | | |].
    + intros j Hj. cbn in Hj. apply (lo_rows _ _ _ _ _ Hl). lia.
    + rewrite <- (lo_es _ _ _ _ _ Hl). unfold leaf_entries. rewrite Hc. cbn. change 2%nat with (Z.to_nat 2). rewrite <- tab_take by lia. done.
    + eapply entries_tighten; [exact H1|]. intros e He. split; [apply (entries_bounds _ _ _ _ H1 He) | by apply Hlt1].
  - split; cbn; [by destruct (Hs 0) as (_ & _ & ->) | apply (lo_next _ _ _ _ _ Hl) | lia | | |].
    + intros j Hj. cbn in Hj |- *. destruct (Hs j) as (_ & -> & _). rewrite decide_True by lia. apply (lo_rows _ _ _ _ _ Hl). lia.
    + rewrite <- (lo_es _ _ _ _ _ Hl). unfold leaf_entries. rewrite Hc. cbn [key_count set_next_leaf set_key_count].
      change 2 with (4 - 2) at 1. apply (tab_drop (entry_at n) _ 4 2); [lia|]. intros j Hj.
      change (entry_at r' j = entry_at n (j + 2)). destruct (Hs j) as (-> & _). by rewrite decide_True by lia.
    + eapply entries_tighten; [exact H2|]. intros e He. split; [|apply (entries_bounds _ _ _ _ H2 He)].
      rewrite (drop_S _ _ _ E2) in He, H2. apply elem_of_cons in He as [->|He]; [done|].
      apply entries_cons in H2 as (_ & _ & _ & Hlt & _). rewrite Forall_forall in Hlt. specialize (Hlt e He). cbn in Hlt. lia.
Qed.

End LeafOps.
