(* ===== verification/BTreeInv.v ===== *)
(** The shape of the B+-tree: what it means for a node of the pool to be the root of a tree of a given height
    that holds a sorted list of entries, that a search descends to the leaf for its key, and that a leaf
    changed or split in place gives back such a tree once the split has been taken up the path. *)
From stdpp Require Import base gmap list list_numbers.
From Stdlib Require Import ZArith Lia Sorted.
From S2P Require Import Prelude Bytes BTree BTreeLib BTreeLeaf.
#[local] Open Scope Z_scope.
#[local] Open Scope carr_scope.

(** A relation between a node, the bounds of its keys, its entries, the nodes it is made of, its first leaf and
    the leaf after its last one. *)
Definition subtree : Type := Z → Z → Z → list entry → list Z → Z → Z → Prop.

(** The children of a node, each with the keys between its two separators. *)
Fixpoint kids (R : subtree) (ks : list key) (cs : list Z) (lo hi : Z) (es : list entry) (fp : list Z) (first nxt : Z) : Prop :=
  match ks, cs with
  | [], [c] => R c lo hi es fp first nxt
  | k :: ks, c :: cs =>
      is_key k ∧ lo < kv k < hi ∧
      ∃ es1 es2 fp1 fp2 mid, es = es1 ++ es2 ∧ fp = fp1 ++ fp2 ∧
        R c lo (kv k) es1 fp1 first mid ∧ kids R ks cs (kv k) hi es2 fp2 mid nxt
  | _, _ => False
  end.

Definition node_keys (n : BTreeNode) : list key := tab (fun i => (keys n).[i]) (key_count n).
Definition node_children (n : BTreeNode) : list Z := tab (fun i => (children n).[i]) (key_count n + 1).

(** [rep ns h id lo hi es fp first nxt]: the tree of height [h] below node [id] holds [es]; its nodes are [fp],
    its leaves are linked from [first] to [nxt], and every node has room for one more key. *)
Fixpoint rep (ns : gmap Z BTreeNode) (h : nat) : subtree := fun id lo hi es fp first nxt =>
  match h with
  | O => leaf_ok ns.[id] lo hi es nxt ∧ key_count ns.[id] < BTREE_ORDER ∧ first = id ∧ fp = [id]
  | S h =>
      is_leaf ns.[id] = 0 ∧ 1 ≤ key_count ns.[id] < BTREE_ORDER ∧
      ∃ fp', fp = id :: fp' ∧ kids (rep ns h) (node_keys ns.[id]) (node_children ns.[id]) lo hi es fp' first nxt
  end.

(** * Children *)

Lemma kids_mono (R R' : subtree) ks cs lo hi es fp first nxt :
  kids R ks cs lo hi es fp first nxt →
  (∀ c lo hi es fp0 f n, fp0 ⊆ fp → R c lo hi es fp0 f n → R' c lo hi es fp0 f n) →
  kids R' ks cs lo hi es fp first nxt.
Proof.
  revert cs lo es fp first. induction ks as [|k ks IH]; intros [|c cs] lo es fp first Hk HR; [done| |done|].
  - destruct cs; [|done]. by apply HR.
  - destruct Hk as (Hkk & Hb & es1 & es2 & fp1 & fp2 & mid & -> & -> & Hc & Hk). split_and!; [done | lia | lia |].
    exists es1, es2, fp1, fp2, mid. split_and!; [done | done | apply HR; [incl | done] |].
    apply IH; [done|]. intros. apply HR; [incl | done].
Qed.

Lemma kids_length R ks cs lo hi es fp first nxt : kids R ks cs lo hi es fp first nxt → length cs = S (length ks).
Proof.
  revert cs lo es fp first. induction ks as [|k ks IH]; intros [|c cs] lo es fp first Hk; [done| |done|].
  - by destruct cs.
  - destruct Hk as (_ & _ & es1 & es2 & fp1 & fp2 & mid & _ & _ & _ & Hk). cbn. f_equal. by eapply IH.
Qed.

(** The children split at one of the separators. *)
Lemma kids_app R ks1 cs1 p ks2 cs2 lo hi es fp first nxt : length cs1 = S (length ks1) →
  kids R (ks1 ++ p :: ks2) (cs1 ++ cs2) lo hi es fp first nxt →
  is_key p ∧ lo < kv p < hi ∧ ∃ es1 es2 fp1 fp2 mid, es = es1 ++ es2 ∧ fp = fp1 ++ fp2 ∧
    kids R ks1 cs1 lo (kv p) es1 fp1 first mid ∧ kids R ks2 cs2 (kv p) hi es2 fp2 mid nxt.
Proof.
  revert cs1 lo es fp first. induction ks1 as [|k ks1 IH]; intros [|c cs1] lo es fp first Hlen Hk; [done| |done|].
  - destruct cs1; [|done]. done.
  - injection Hlen as Hlen. cbn [app] in Hk. destruct Hk as (Hkk & Hb & es1 & es2 & fp1 & fp2 & mid & -> & -> & Hc & Hk).
    destruct (IH cs1 _ _ _ _ Hlen Hk) as (Hp & Hbp & e1 & e2 & f1 & f2 & m & -> & -> & H1 & H2).
    split_and!; [done | lia | lia |]. exists (es1 ++ e1), e2, (fp1 ++ f1), f2, m. rewrite <- !app_assoc.
    split_and!; [done | done | | done]. split_and!; [done | lia | lia |]. by exists es1, e1, fp1, f1, mid.
Qed.

(** The child for a key, and what replaces it: one tree, or two around a new separator. *)
Definition focus (R : subtree) (ks : list key) (cs : list Z) (lo hi : Z) (es : list entry) (fp : list Z) (first nxt : Z)
    (i : nat) (x : Z) : Prop :=
  ∃ c lo' hi' pre el post fpl fpc fpr f' n',
    cs !! i = Some c ∧ R c lo' hi' el fpc f' n' ∧ es = pre ++ el ++ post ∧ fp = fpl ++ fpc ++ fpr ∧
    lo ≤ lo' ∧ hi' ≤ hi ∧ lo' ≤ x < hi' ∧
    (∀ j k, (j < i)%nat → ks !! j = Some k → kv k ≤ lo') ∧ (∀ k, ks !! i = Some k → hi' ≤ kv k) ∧
    (∀ e : entry, e ∈ pre → is_key e.1 ∧ lo ≤ kv e.1 < lo') ∧ (∀ e : entry, e ∈ post → is_key e.1 ∧ hi' ≤ kv e.1 < hi) ∧
    (∀ R' : subtree, (∀ c lo hi es fp0 f n, fp0 ⊆ fpl ++ fpr → R c lo hi es fp0 f n → R' c lo hi es fp0 f n) →
      (∀ el' fpc', R' c lo' hi' el' fpc' f' n' → kids R' ks cs lo hi (pre ++ el' ++ post) (fpl ++ fpc' ++ fpr) first nxt) ∧
      (∀ sep r e1 e2 fp1 fp2 m, is_key sep → lo' < kv sep < hi' → R' c lo' (kv sep) e1 fp1 f' m → R' r (kv sep) hi' e2 fp2 m n' →
        kids R' (take i ks ++ sep :: drop i ks) (take (S i) cs ++ r :: drop (S i) cs) lo hi
          (pre ++ (e1 ++ e2) ++ post) (fpl ++ (fp1 ++ fp2) ++ fpr) first nxt)).

Definition bounded (R : subtree) : Prop := ∀ c lo hi es fp f n, R c lo hi es fp f n → entries_ok lo hi es.

Lemma kids_ok R ks cs lo hi es fp first nxt : bounded R → kids R ks cs lo hi es fp first nxt → entries_ok lo hi es.
Proof.
  intros HR. revert cs lo es fp first. induction ks as [|k ks IH]; intros [|c cs] lo es fp first Hk; [done| |done|].
  - destruct cs; [|done]. by eapply HR.
  - destruct Hk as (Hkk & Hb & es1 & es2 & fp1 & fp2 & mid & -> & -> & Hc & Hk). apply IH in Hk. apply HR in Hc.
    apply entries_app. split_and!.
    + eapply entries_weaken; [| |exact Hc]; lia.
    + eapply entries_weaken; [| |exact Hk]; lia.
    + intros e1 e2 H1 H2. apply (entries_bounds _ _ _ _ Hc) in H1. apply (entries_bounds _ _ _ _ Hk) in H2. lia.
Qed.

Lemma kids_focus R ks cs lo hi es fp first nxt i x : bounded R → kids R ks cs lo hi es fp first nxt → lo ≤ x < hi →
  (i ≤ length ks)%nat → (∀ j k, (j < i)%nat → ks !! j = Some k → kv k ≤ x) → (∀ k, ks !! i = Some k → x < kv k) →
  focus R ks cs lo hi es fp first nxt i x.
Proof.
  intros HR. revert cs lo es fp first i. induction ks as [|k ks IH]; intros [|c cs] lo es fp first i Hk Hx Hi Hlt Hge; [done| |done|].
  - destruct cs; [|done]. cbn in Hi. assert (i = 0%nat) as -> by lia.
    exists c, lo, hi, [], es, [], [], fp, [], first, nxt. cbn [app]. rewrite !app_nil_r.
    split_and!; try done; try lia; [by intros e ?%elem_of_nil | by intros e ?%elem_of_nil |].
    intros R' HR'. split.
    + intros el' fpc' Hc. by rewrite !app_nil_r.
    + intros sep r e1 e2 fp1 fp2 m Hs Hb H1 H2. rewrite !app_nil_r. cbn. split_and!; [done | lia | lia |]. by exists e1, e2, fp1, fp2, m.
  - destruct Hk as (Hkk & Hb & es1 & es2 & fp1 & fp2 & mid & -> & -> & Hc & Hk). destruct i as [|i].
    + specialize (Hge k eq_refl). exists c, lo, (kv k), [], es1, es2, [], fp1, fp2, first, mid. cbn [app].
      split_and!; try done; try lia; [intros k' [= <-]; lia | by intros e ?%elem_of_nil | |].
      { intros e He. by apply (entries_bounds _ _ _ _ (kids_ok _ _ _ _ _ _ _ _ _ HR Hk)). }
      intros R' HR'. cbn [app] in HR'.
      assert (kids R' ks cs (kv k) hi es2 fp2 mid nxt) as Hk' by (eapply kids_mono; [exact Hk|]; intros; by apply HR').
      split.
      * intros el' fpc' Hc'. split_and!; [done | lia | lia |]. by exists el', es2, fpc', fp2, mid.
      * intros sep r e1 e2 f1 f2 m Hs Hbs H1 H2. cbn. split_and!; [done | lia | lia |].
        exists e1, (e2 ++ es2), f1, (f2 ++ fp2), m. rewrite <- !app_assoc. split_and!; [done | done | done |].
        rewrite take_0, drop_0. cbn [app]. split_and!; [done | lia | lia |]. by exists e2, es2, f2, fp2, mid.
    + assert (kv k ≤ x) as Hkx by (apply (Hlt 0%nat k); [lia | done]).
      destruct (IH cs (kv k) es2 fp2 mid i Hk) as (c' & lo' & hi' & pre & el & post & fpl & fpc & fpr & f' & n' & Hci & HRc & -> & -> &
        Hlo' & Hhi' & Hx' & Hj1 & Hj2 & Hpre & Hpost & Hw); [lia | cbn in Hi; lia | intros j k' Hj; apply (Hlt (S j)); lia | done |].
      pose proof (HR _ _ _ _ _ _ _ Hc) as Hok1.
      exists c', lo', hi', (es1 ++ pre), el, post, (fp1 ++ fpl), fpc, fpr, f', n'. rewrite <- !app_assoc.
      split_and!; try done; try lia.
      { intros [|j] k' Hj E; [injection E as <-; lia | apply (Hj1 j); [lia | done]]. }
      { intros e [He|He]%elem_of_app; [apply (entries_bounds _ _ _ _ Hok1) in He as [? ?] | apply Hpre in He as [? ?]]; (split; [done | lia]). }
      intros R' HR'. assert (R' c lo (kv k) es1 fp1 first mid) as Hc' by (apply HR'; [incl | done]).
      destruct (Hw R') as [Hw1 Hw2]; [intros; apply HR'; [incl | done]|]. split.
      * intros el' fpc' Hel'. rewrite <- !app_assoc. split_and!; [done | lia | lia |].
        exists es1, (pre ++ el' ++ post), fp1, (fpl ++ fpc' ++ fpr), mid. split_and!; [done | done | done | by apply Hw1].
      * intros sep r e1 e2 f1 f2 m Hs Hbs H1 H2. specialize (Hw2 sep r e1 e2 f1 f2 m Hs Hbs H1 H2). rewrite <- !app_assoc in *.
        cbn [take drop app]. split_and!; [done | lia | lia |]. by exists es1, (pre ++ e1 ++ e2 ++ post), fp1, (fpl ++ f1 ++ f2 ++ fpr), mid.
Qed.

(** * Trees *)

Lemma rep_bounded ns h : bounded (rep ns h).
Proof.
  induction h as [|h IH]; intros id lo hi es fp f n H.
  - destruct H as ([_ _ _ _ _ Hok] & _). done.
  - destruct H as (_ & _ & fp' & _ & Hk). by eapply kids_ok.
Qed.

Lemma rep_root ns h id lo hi es fp f n : rep ns h id lo hi es fp f n → id ∈ fp.
Proof. destruct h; [intros (_ & _ & _ & ->); by left | intros (_ & _ & fp' & -> & _); by left]. Qed.

Lemma rep_frame ns ns' h id lo hi es fp f n : rep ns h id lo hi es fp f n → (∀ i, i ∈ fp → ns'.[i] = ns.[i]) →
  rep ns' h id lo hi es fp f n.
Proof.
  revert id lo hi es fp f n. induction h as [|h IH]; intros id lo hi es fp f n H Hf; pose proof (rep_root _ _ _ _ _ _ _ _ _ H) as Hid.
  - cbn in *. by rewrite Hf.
  - cbn in *. rewrite Hf by done. destruct H as (? & ? & fp' & -> & Hk). split_and!; [done | lia | lia |]. exists fp'. split; [done|].
    eapply kids_mono; [exact Hk|]. intros c l u e g f0 n0 Hs Hc. eapply IH; [exact Hc|]. intros i Hi. apply Hf. right. by apply Hs.
Qed.

(** A tree of height [h] has at least [2 ^ h] nodes. *)
Lemma rep_size ns h id lo hi es fp f n : rep ns h id lo hi es fp f n → 2 ^ Z.of_nat h ≤ Z.of_nat (length fp).
Proof.
  revert id lo hi es fp f n. induction h as [|h IH]; intros id lo hi es fp f n H.
  - destruct H as (_ & _ & _ & ->). done.
  - destruct H as (_ & Hc & fp' & -> & Hk). unfold node_keys in Hk. pose proof (tab_length (fun i => (keys ns.[id]).[i]) (key_count ns.[id])) as Hl.
    destruct (tab _ _) as [|k ks]; [cbn in Hl; lia|]. pose proof (kids_length _ _ _ _ _ _ _ _ _ Hk) as Hlc.
    destruct (node_children ns.[id]) as [|c cs]; [done|].
    destruct Hk as (_ & _ & es1 & es2 & fp1 & fp2 & mid & -> & -> & H1 & Hk). apply IH in H1.
    assert (2 ^ Z.of_nat h ≤ Z.of_nat (length fp2)).
    { clear -Hk IH. generalize dependent (kv k). revert cs es2 fp2 mid. induction ks as [|k2 ks IHk]; intros cs es2 fp2 mid z Hk.
      - destruct cs as [|c0 [|]]; [done | by eapply IH | done].
      - destruct cs as [|c0 cs]; [done|]. destruct Hk as (_ & _ & e1 & e2 & f1 & f2 & m & -> & -> & H1 & _). apply IH in H1. rewrite length_app. lia. }
    cbn [length]. rewrite length_app, Nat2Z.inj_succ, Z.pow_succ_r by lia. lia.
Qed.

Lemma kids_keys R ks cs lo hi es fp first nxt : kids R ks cs lo hi es fp first nxt → Forall (fun k => is_key k ∧ lo < kv k < hi) ks.
Proof.
  revert cs lo es fp first. induction ks as [|k ks IH]; intros [|c cs] lo es fp first Hk; [done | constructor | done|].
  destruct Hk as (Hkk & Hb & es1 & es2 & fp1 & fp2 & mid & _ & _ & _ & Hk). constructor; [done|].
  eapply Forall_impl; [by eapply IH|]. cbn. intros k' [? ?]. split; [done | lia].
Qed.

(** * Internal nodes *)

Section Parent.
Context (n : BTreeNode) (Hc : 0 ≤ key_count n).

Lemma node_key_at i : 0 ≤ i < key_count n → node_keys n !! Z.to_nat i = Some (keys n).[i].
Proof. intros Hi. unfold node_keys. rewrite tab_lookup, Z2Nat.id by lia. done. Qed.

Lemma node_child_at i : 0 ≤ i ≤ key_count n → node_children n !! Z.to_nat i = Some (children n).[i].
Proof. intros Hi. unfold node_children. rewrite tab_lookup, Z2Nat.id by lia. done. Qed.

Lemma node_keys_length : length (node_keys n) = Z.to_nat (key_count n).
Proof. apply tab_length. Qed.

(** The position a separator goes to. *)
Lemma first_where_at f i : (∀ j, 0 ≤ j < i → f j = false) → (i < key_count n → f i = true) → 0 ≤ i ≤ key_count n → first_where (key_count n) f = i.
Proof using Hc.
  intros Hlo Hhi Hi. destruct (first_where_spec (key_count n) f Hc) as (Hr & Hlo' & Hhi').
  destruct (Z.lt_trichotomy (first_where (key_count n) f) i) as [Hlt|[->|Hgt]]; [|done|].
  - rewrite Hlo in Hhi' by lia. exfalso. discriminate Hhi'. lia.
  - rewrite Hlo' in Hhi by lia. exfalso. discriminate Hhi. lia.
Qed.

Lemma parent_insert_spec sep child i : is_key sep → Forall is_key (node_keys n) → (i ≤ Z.to_nat (key_count n))%nat →
  (∀ j k, (j < i)%nat → node_keys n !! j = Some k → kv k < kv sep) → (∀ k, node_keys n !! i = Some k → kv sep < kv k) →
  let n' := parent_insert sep child n in
  is_leaf n' = is_leaf n ∧ key_count n' = key_count n + 1 ∧
  node_keys n' = take i (node_keys n) ++ sep :: drop i (node_keys n) ∧
  node_children n' = take (S i) (node_children n) ++ child :: drop (S i) (node_children n).
Proof using Hc.
  intros Hs Hks Hi Hlo Hhi. unfold parent_insert.
  assert (∀ j, 0 ≤ j < key_count n → is_key (keys n).[j]) as Hkj.
  { intros j Hj. rewrite Forall_forall in Hks. apply Hks. apply (list_elem_of_lookup_2 _ (Z.to_nat j)). by apply node_key_at. }
  rewrite (first_where_at _ (Z.of_nat i)); [| | |lia].
  2:{ intros j Hj. rewrite key_cmp_lt by (done || apply Hkj; lia). specialize (Hlo (Z.to_nat j) _ ltac:(lia) (node_key_at j ltac:(lia))). zcase. }
  2:{ intros Hlt. rewrite key_cmp_lt by (done || apply Hkj; lia). specialize (Hhi (keys n).[Z.of_nat i]).
      rewrite <- node_key_at, Nat2Z.id in Hhi by lia. specialize (Hhi eq_refl). zcase. }
  cbn. split_and!; [done | done | |].
  - unfold node_keys at 1. cbn [keys key_count set_key_count set_children set_keys].
    etrans; [apply (tab_insert (fun j => (keys n).[j]) _ _ (Z.of_nat i) sep); [lia | | by rewrite aget_upd_eq |] | by rewrite Nat2Z.id].
    + intros j Hj. rewrite aget_upd_ne, shift_spec, decide_False by lia. done.
    + intros j Hj. rewrite aget_upd_ne, shift_spec, decide_True by lia. done.
  - unfold node_children at 1. cbn [children key_count set_key_count set_children set_keys].
    replace (S i) with (Z.to_nat (Z.of_nat i + 1)) by lia. apply tab_insert; [lia | | by rewrite aget_upd_eq |].
    + intros j Hj. rewrite aget_upd_ne, shift_spec, decide_False by lia. done.
    + intros j Hj. rewrite aget_upd_ne, shift_spec, decide_True by lia. done.
Qed.

Lemma parent_split_spec r : key_count n = BTREE_ORDER →
  let '(n1, n2, p) := parent_split n r in
  is_leaf n1 = is_leaf n ∧ is_leaf n2 = is_leaf r ∧ key_count n1 = 2 ∧ key_count n2 = 1 ∧
  node_keys n = node_keys n1 ++ p :: node_keys n2 ∧ node_children n = node_children n1 ++ node_children n2 ∧
  length (node_children n1) = S (length (node_keys n1)).
Proof.
  intros E. unfold parent_split. rewrite E. change (BTREE_ORDER / 2) with 2. unfold BTREE_ORDER in *. cbn [Z.sub Z.add Z.opp Z.pos_sub Pos.add Pos.succ].
  split_and!; [done | done | done | done | | |].
  - rewrite <- (take_drop 2 (node_keys n)). f_equal.
    + unfold node_keys at 1. rewrite E. cbn. change 2%nat with (Z.to_nat 2). rewrite <- tab_take by lia. done.
    + assert (node_keys n !! 2%nat = Some (keys n).[2]) as E2 by (rewrite <- (node_key_at 2) by lia; done).
      rewrite (drop_S _ _ _ E2). f_equal. unfold node_keys. rewrite E. cbn [key_count keys set_children set_key_count set_keys].
      symmetry. change 3%nat with (Z.to_nat 3). change 1 with (4 - 3) at 1. apply tab_drop; [lia|]. intros i Hi.
      rewrite copy_spec, decide_True by lia. done.
  - rewrite <- (take_drop 3 (node_children n)). f_equal.
    + unfold node_children at 1. rewrite E. cbn. change 3%nat with (Z.to_nat 3). rewrite <- tab_take by lia. done.
    + unfold node_children. rewrite E. cbn [key_count children set_children set_key_count set_keys].
      symmetry. change 3%nat with (Z.to_nat 3). change (4 - (2 + 1) + 1) with (5 - 3). change (4 + 1) with 5. apply tab_drop; [lia|]. intros i Hi.
      rewrite copy_spec, decide_True by lia. done.
  - done.
Qed.

End Parent.

(** * Routing *)

(** [route] picks, in every node, the child whose keys are around [x]. *)
Definition routes (route : BTreeNode → Z) (x : Z) : Prop := ∀ n lo,
  0 ≤ key_count n → Forall (fun k => is_key k ∧ lo < kv k) (node_keys n) → 0 ≤ lo ≤ x →
  0 ≤ route n ≤ key_count n ∧
  (∀ j k, (j < Z.to_nat (route n))%nat → node_keys n !! j = Some k → kv k ≤ x) ∧
  (∀ k, node_keys n !! Z.to_nat (route n) = Some k → x < kv k).

Lemma routes_child k : is_key k → routes (child_slot k) (kv k).
Proof.
  intros Hk n lo Hc Hks _. unfold child_slot. set (f := fun i => _). destruct (first_where_spec (key_count n) f Hc) as (Hr & Hlo & Hhi).
  assert (∀ j k', node_keys n !! j = Some k' → is_key k' ∧ f (Z.of_nat j) = (kv k <? kv k')) as Hf.
  { intros j k' Hj. pose proof Hj as Hj'. apply list_elem_of_lookup_2 in Hj'. rewrite Forall_forall in Hks. destruct (Hks _ Hj') as [Hk' _].
    split; [done|]. apply lookup_lt_Some in Hj as Hl. rewrite node_keys_length in Hl.
    rewrite <- (Nat2Z.id j), node_key_at in Hj by lia. injection Hj as <-. unfold f. by rewrite key_cmp_lt. }
  split_and!; [lia | lia | |].
  - intros j k' Hj E. destruct (Hf _ _ E) as [_ Ef]. specialize (Hlo (Z.of_nat j) ltac:(lia)). rewrite Hlo in Ef. lia.
  - intros k' E. destruct (Hf _ _ E) as [_ Ef]. apply lookup_lt_Some in E. rewrite node_keys_length in E.
    rewrite Z2Nat.id, Hhi in Ef by lia. lia.
Qed.

Lemma routes_first : routes (range_route None) 0.
Proof.
  intros n lo Hc Hks Hlo. cbn. split_and!; [lia | lia | intros j k Hj; lia |].
  intros k E%list_elem_of_lookup_2. rewrite Forall_forall in Hks. destruct (Hks k E). lia.
Qed.

(** * Growing a tree *)

(** From [p] to [p'] at most [m] nodes were allocated; the nodes [fp] became the nodes [fp'], the new ones
    among them, and no other node changed. *)
Record grown (m : Z) (p p' : Pool) (fp fp' : list Z) : Prop := Grown {
  g_next : btree_next_free_node p ≤ btree_next_free_node p' ≤ btree_next_free_node p + m;
  g_fp : fp' ≡ₚ fp ++ seqZ (btree_next_free_node p) (btree_next_free_node p' - btree_next_free_node p);
  g_same : ∀ i, i < btree_next_free_node p → i ∉ fp → (btree_nodes p').[i] = (btree_nodes p).[i]
}.

(** What a split leaves behind at the root of a tree of height [h]: the tree, or two trees around a key. *)
Definition lifted (h : nat) (p : Pool) (id lo hi : Z) (es : list entry) (fp : list Z) (first nxt : Z)
    (res : option (Pool + key * Z * Pool)) : Prop :=
  match res with
  | None => False
  | Some (inl p') => ∃ fp', rep (btree_nodes p') h id lo hi es fp' first nxt ∧ grown (Z.of_nat h) p p' fp fp'
  | Some (inr (sep, r, p')) => ∃ es1 es2 fp1 fp2 mid,
      es = es1 ++ es2 ∧ is_key sep ∧ lo < kv sep < hi ∧
      rep (btree_nodes p') h id lo (kv sep) es1 fp1 first mid ∧ rep (btree_nodes p') h r (kv sep) hi es2 fp2 mid nxt ∧
      grown (Z.of_nat h) p p' fp (fp1 ++ fp2)
  end.

Lemma propagate_app path1 path2 sep r p :
  propagate (path1 ++ path2) sep r p =
  match propagate path1 sep r p with Some (inr (sep', r', p')) => propagate path2 sep' r' p' | o => o end.
Proof.
  revert sep r p. induction path1 as [|id path1 IH]; intros sep r p; cbn [app propagate]; [done|].
  destruct (_ <=? _); [done|]. destruct (_ <=? _); [done|]. destruct (alloc_node _ _) as [r' p']. destruct (_ =? _); [done|].
  destruct (parent_split _ _) as [[? ?] ?]. apply IH.
Qed.

Lemma alloc_node_spec leaf p : btree_next_free_node p < BTREE_MAX_NODES →
  ∃ n, alloc_node leaf p = (btree_next_free_node p, mkPool (btree_nodes p).[btree_next_free_node p <- n] (btree_next_free_node p + 1)) ∧
    is_leaf n = leaf ∧ btree_next_free_node p ≠ BTREE_INVALID_NODE.
Proof.
  intros H. unfold alloc_node. destruct (Z.leb_spec BTREE_MAX_NODES (btree_next_free_node p)); [lia|].
  eexists. split; [done|]. split; [done|]. unfold BTREE_MAX_NODES, BTREE_INVALID_NODE in *. lia.
Qed.

Section Lift.
Context (h : nat) (ns : gmap Z BTreeNode) (p : Pool).
Context (id lo hi : Z) (es : list entry) (fp' : list Z) (first nxt : Z) (i : nat) (x : Z).
Context (r : Z) (HN : NoDup (id :: fp' ++ [r])) (HB : Forall (fun j => j < btree_next_free_node p) (id :: fp' ++ [r])).
Context (Hroom : btree_next_free_node p + Z.of_nat (S h) ≤ BTREE_MAX_NODES).
Context (Hleaf : is_leaf ns.[id] = 0) (Hkc : 1 ≤ key_count ns.[id] < BTREE_ORDER) (Hi : (i ≤ Z.to_nat (key_count ns.[id]))%nat).
Context (Hks : Forall (fun k => is_key k ∧ lo < kv k < hi) (node_keys ns.[id])).

(** One more level: what was lifted out of the child goes into its parent. *)
Lemma lift_up c lo' hi' pre el post fpl fpc fpr f' n' path sep0 r0 :
  fp' = fpl ++ fpc ++ fpr →
  (∀ j, j = id ∨ (j ∈ fpl ++ fpr) → (btree_nodes p).[j] = ns.[j]) →
  lo ≤ lo' → hi' ≤ hi →
  (∀ j k, (j < i)%nat → node_keys ns.[id] !! j = Some k → kv k ≤ lo') → (∀ k, node_keys ns.[id] !! i = Some k → hi' ≤ kv k) →
  (∀ R' : subtree, (∀ c lo hi es fp0 f n, fp0 ⊆ fpl ++ fpr → rep ns h c lo hi es fp0 f n → R' c lo hi es fp0 f n) →
    (∀ el' fpc', R' c lo' hi' el' fpc' f' n' → kids R' (node_keys ns.[id]) (node_children ns.[id]) lo hi (pre ++ el' ++ post) (fpl ++ fpc' ++ fpr) first nxt) ∧
    (∀ sep r e1 e2 fp1 fp2 m, is_key sep → lo' < kv sep < hi' → R' c lo' (kv sep) e1 fp1 f' m → R' r (kv sep) hi' e2 fp2 m n' →
      kids R' (take i (node_keys ns.[id]) ++ sep :: drop i (node_keys ns.[id]))
        (take (S i) (node_children ns.[id]) ++ r :: drop (S i) (node_children ns.[id])) lo hi
        (pre ++ (e1 ++ e2) ++ post) (fpl ++ (fp1 ++ fp2) ++ fpr) first nxt)) →
  lifted h p c lo' hi' el (fpc ++ [r]) f' n' (propagate path sep0 r0 p) →
  lifted (S h) p id lo hi (pre ++ el ++ post) ((id :: fp') ++ [r]) first nxt (propagate (path ++ [id]) sep0 r0 p).
Proof using HN HB Hroom Hleaf Hkc Hi Hks.
  intros -> Hsame Hlo' Hhi' Hj1 Hj2 Hw Hl. rewrite propagate_app.
  assert (Hout : ∀ j, j = id ∨ (j ∈ fpl ++ fpr) → (j ∉ fpc ++ [r]) ∧ j < btree_next_free_node p).
  { intros j Hj. split.
    - intros Hin. apply (NoDup_ListNoDup) in HN. clear -HN Hj Hin. rewrite app_comm_cons in HN.
      assert (NoDup ([id] ++ (fpl ++ fpr) ++ fpc ++ [r])) as HN'.
      { apply NoDup_ListNoDup in HN. eapply NoDup_Permutation_proper; [|exact HN]. cbn [app]. perm. }
      rewrite app_assoc in HN'. apply NoDup_app in HN' as (_ & Hd & _). apply (Hd j); [|done].
      rewrite elem_of_app, list_elem_of_singleton. tauto.
    - rewrite Forall_forall in HB. apply HB. repeat rewrite ?elem_of_cons, ?elem_of_app in *. tauto. }
  destruct (propagate path sep0 r0 p) as [[p'|[[sep r'] p']]|]; [| |done]; cbn [lifted] in Hl.
  - destruct Hl as (fpc' & Hc & [G1 G2 G3]).
    assert (Hs : ∀ j, j = id ∨ (j ∈ fpl ++ fpr) → (btree_nodes p').[j] = ns.[j]).
    { intros j Hj. destruct (Hout j Hj) as [Ho Hb]. rewrite (G3 j Hb Ho). by apply Hsame. }
    destruct (Hw (rep (btree_nodes p') h)) as [Hw1 _].
    { intros c0 l u e0 fp0 f n Hsub H0. eapply rep_frame; [exact H0|]. intros j Hj. apply Hs. right. by apply Hsub. }
    exists (id :: fpl ++ fpc' ++ fpr). split.
    + cbn [rep]. rewrite (Hs id) by (by left). split_and!; [done | lia | lia |]. eexists. split; [done|]. by apply Hw1.
    + split; [lia | rewrite G2; cbn [app]; perm |]. intros j Hb Hj. apply G3; [done|].
      intros Hin. apply Hj. repeat rewrite ?elem_of_app, ?elem_of_cons in *. tauto.
  - destruct Hl as (es1 & es2 & fp1 & fp2 & mid & -> & Hsep & Hbs & H1 & H2 & [G1 G2 G3]).
    assert (Hs : ∀ j, j = id ∨ (j ∈ fpl ++ fpr) → (btree_nodes p').[j] = ns.[j]).
    { intros j Hj. destruct (Hout j Hj) as [Ho Hb]. rewrite (G3 j Hb Ho). by apply Hsame. }
    assert (Hid : id ∉ fp1 ++ fp2).
    { destruct (Hout id (or_introl eq_refl)) as [Ho Hb]. rewrite G2. intros [Hin|Hin%elem_of_seqZ]%elem_of_app; [done | lia]. }
    assert (Hidl : id ∉ fpl ++ fpr).
    { apply NoDup_cons in HN as [Hn _]. intros Hin. apply Hn. repeat rewrite ?elem_of_app in *. tauto. }
    cbn [propagate]. rewrite (Hs id) by (by left). destruct (Z.leb_spec BTREE_ORDER (key_count ns.[id])); [lia|].
    assert (0 ≤ key_count ns.[id]) as Hkc0 by lia. pose proof (parent_insert_spec _ Hkc0 sep r' i Hsep) as Hp. cbv zeta in Hp.
    destruct Hp as (Hpl & Hpc & Hpk & Hpch).
    { eapply Forall_impl; [exact Hks|]. by intros k []. }
    { done. }
    { intros j k Hj E. specialize (Hj1 j k Hj E). lia. }
    { intros k E. specialize (Hj2 k E). lia. }
    set (n1 := parent_insert sep r' ns.[id]) in *.
    (* the children around the new separator, in any pool that keeps their nodes *)
    assert (Hkids : ∀ ns', (∀ j, j ≠ id → j < btree_next_free_node p' → ns'.[j] = (btree_nodes p').[j]) →
      kids (rep ns' h) (node_keys n1) (node_children n1) lo hi (pre ++ (es1 ++ es2) ++ post) (fpl ++ (fp1 ++ fp2) ++ fpr) first nxt).
    { intros ns' Hns'. rewrite Hpk, Hpch.
      assert (∀ j, j ∈ fp1 ++ fp2 → ns'.[j] = (btree_nodes p').[j]) as Hf12.
      { intros j Hj. apply Hns'; [by intros -> |]. rewrite G2 in Hj. apply elem_of_app in Hj as [Hj|Hj%elem_of_seqZ]; [|lia].
        rewrite Forall_forall in HB. assert (j < btree_next_free_node p); [apply HB | lia].
        repeat rewrite ?elem_of_cons, ?elem_of_app in *. tauto. }
      destruct (Hw (rep ns' h)) as [_ Hw2].
      { intros c0 l u e0 fp0 f n Hsub H0. eapply rep_frame; [exact H0|]. intros j Hj. apply Hsub in Hj.
        rewrite Hns'; [apply Hs; by right | by intros -> | destruct (Hout j (or_intror Hj)); lia]. }
      apply Hw2 with mid; [done | done | |].
      - eapply rep_frame; [exact H1|]. intros j Hj. apply Hf12. apply elem_of_app. by left.
      - eapply rep_frame; [exact H2|]. intros j Hj. apply Hf12. apply elem_of_app. by right. }
    destruct (Z.leb_spec (key_count n1) (BTREE_ORDER - 1)) as [Hfit|Hfull].
    + exists (id :: fpl ++ (fp1 ++ fp2) ++ fpr). split.
      * cbn [rep btree_nodes set_node]. rewrite aget_upd_eq. split_and!; [by rewrite Hpl | lia | lia |]. eexists. split; [done|].
        apply Hkids. intros j Hj _. by rewrite aget_upd_ne.
      * split; [cbn; lia | cbn [btree_next_free_node set_node]; rewrite G2; cbn [app]; perm |].
        intros j Hb Hj. cbn. repeat rewrite ?elem_of_app, ?elem_of_cons in Hj. rewrite aget_upd_ne by (intros ->; tauto).
        apply G3; [done|]. intros Hin. apply Hj. repeat rewrite ?elem_of_app, ?elem_of_cons in *. tauto.
    + destruct (alloc_node_spec 0 (set_node id n1 p')) as (nr & -> & Hnr & Hinv); [cbn; lia|]. cbn [set_node btree_next_free_node btree_nodes] in *.
      destruct (Z.eqb_spec (btree_next_free_node p') BTREE_INVALID_NODE); [done|].
      set (r2 := btree_next_free_node p') in *. assert (id < btree_next_free_node p) by (apply (Hout id); by left).
      rewrite aget_upd_ne, !aget_upd_eq by lia.
      assert (key_count n1 = BTREE_ORDER) as Hc4 by (unfold BTREE_ORDER in *; lia).
      pose proof (parent_split_spec n1 nr Hc4) as Hsplit.
      destruct (parent_split n1 nr) as [[nl nr'] pk]. destruct Hsplit as (Hl1 & Hl2 & Hc1 & Hc2 & Hkeys & Hch & Hlen).
      cbn [propagate lifted set_node btree_nodes btree_next_free_node].
      set (ns' := insert r2 nr' _). specialize (Hkids ns').
      rewrite Hkeys, Hch in Hkids. apply kids_app in Hkids as (Hpk' & Hpb & e1 & e2 & g1 & g2 & m & -> & Efp & K1 & K2); [|done|].
      2:{ intros j Hj Hb. unfold ns'. rewrite !aget_upd_ne by lia. done. }
      exists e1, e2, (id :: g1), (r2 :: g2), m. split_and!; [done | done | lia | lia | | |].
      * cbn [rep]. unfold ns'. rewrite aget_upd_ne, aget_upd_eq by lia. split_and!; [congruence | lia | rewrite Hc1; done |]. by exists g1.
      * cbn [rep]. unfold ns'. rewrite aget_upd_eq. split_and!; [congruence | lia | rewrite Hc2; done |]. by exists g2.
      * split; [cbn; lia | |].
        -- cbn [btree_next_free_node set_node]. replace (r2 + 1 - btree_next_free_node p) with ((r2 - btree_next_free_node p) + 1) by lia.
           rewrite seqZ_app by lia. replace (btree_next_free_node p + (r2 - btree_next_free_node p)) with r2 by lia. change (seqZ r2 1) with [r2].
           transitivity ([id] ++ (g1 ++ g2) ++ [r2]); [cbn [app]; perm|]. rewrite <- Efp, G2. cbn [app]. perm.
        -- intros j Hb Hj. cbn. unfold ns'. repeat rewrite ?elem_of_app, ?elem_of_cons in Hj.
           rewrite aget_upd_ne by lia. rewrite aget_upd_ne by (intros ->; tauto). rewrite aget_upd_ne by lia. rewrite aget_upd_ne by (intros ->; tauto).
           apply G3; [done|]. intros Hin. apply Hj. repeat rewrite ?elem_of_app, ?elem_of_cons in *. tauto.
Qed.

End Lift.

(** * The descent *)

Section Descend.
Context (route : BTreeNode → Z) (x : Z) (Hroute : routes route x) (ns : gmap Z BTreeNode).

(** A search for [x] arrives at the leaf whose bounds are around [x]; a leaf put in its place, or two leaves
    around a separator taken up the path, give a tree with their entries in the place of the old ones. *)
Definition arrives (h : nat) (id lo hi : Z) (es : list entry) (fp : list Z) (first nxt : Z) (path : list Z) (leaf : Z) : Prop :=
  ∃ lo' hi' pre el post nxt',
    length path = h ∧ leaf ∈ fp ∧ leaf_ok ns.[leaf] lo' hi' el nxt' ∧ key_count ns.[leaf] < BTREE_ORDER ∧
    es = pre ++ el ++ post ∧ lo ≤ lo' ∧ lo' ≤ x < hi' ∧ hi' ≤ hi ∧
    (∀ e : entry, e ∈ pre → is_key e.1 ∧ kv e.1 < lo') ∧ (∀ e : entry, e ∈ post → is_key e.1 ∧ hi' ≤ kv e.1) ∧
    (∀ ns' el', (∀ i, i ∈ fp → i ≠ leaf → ns'.[i] = ns.[i]) → leaf_ok ns'.[leaf] lo' hi' el' nxt' → key_count ns'.[leaf] < BTREE_ORDER →
      rep ns' h id lo hi (pre ++ el' ++ post) fp first nxt) ∧
    (∀ p sep r e1 e2, (∀ i, i ∈ fp → i ≠ leaf → (btree_nodes p).[i] = ns.[i]) → is_key sep → lo' < kv sep < hi' →
      rep (btree_nodes p) 0 leaf lo' (kv sep) e1 [leaf] leaf r → rep (btree_nodes p) 0 r (kv sep) hi' e2 [r] r nxt' →
      NoDup (fp ++ [r]) → Forall (fun j => j < btree_next_free_node p) (fp ++ [r]) →
      btree_next_free_node p + Z.of_nat h ≤ BTREE_MAX_NODES →
      lifted h p id lo hi (pre ++ (e1 ++ e2) ++ post) (fp ++ [r]) first nxt (propagate path sep r p)).

Lemma arrives_leaf id lo hi es fp first nxt : rep ns 0 id lo hi es fp first nxt → lo ≤ x < hi → arrives 0 id lo hi es fp first nxt [] id.
Proof.
  intros (Hl & Hc & -> & ->) Hx. exists lo, hi, [], es, [], nxt. cbn [app]. rewrite app_nil_r.
  split_and!; try done; try lia; [by left | by intros e ?%elem_of_nil | by intros e ?%elem_of_nil | |].
  - intros ns' el' _ Hl' Hc'. by rewrite app_nil_r.
  - intros p sep r e1 e2 _ Hs Hb H1 H2 HN HB Hroom. rewrite app_nil_r. cbn [propagate lifted].
    exists e1, e2, [id], [r], r. split_and!; [done | done | lia | lia | done | done |].
    split; [lia | by rewrite Z.sub_diag, app_nil_r | done].
Qed.

Lemma descend_arrives h : ∀ id lo hi es fp first nxt path fuel,
  rep ns h id lo hi es fp first nxt → NoDup fp → 0 ≤ lo → lo ≤ x < hi → (h < fuel)%nat →
  ∃ path' leaf, descend fuel route ns id path = Some (path' ++ path, leaf) ∧ arrives h id lo hi es fp first nxt path' leaf.
Proof using Hroute.
  induction h as [|h IH]; intros id lo hi es fp first nxt path fuel Hrep HN Hlo0 Hx Hfuel; destruct fuel as [|fuel]; [lia| |lia|].
  { exists [], id. pose proof Hrep as (Hl & _). cbn [descend]. destruct (Z.eqb_spec (is_leaf ns.[id]) 0); [by destruct (lo_leaf _ _ _ _ _ Hl)|].
    split; [done | by apply arrives_leaf]. }
  pose proof Hrep as (Hleaf & Hkc & fp' & -> & Hk). cbn [descend]. rewrite Hleaf. cbn [negb Z.eqb].
  pose proof (kids_keys _ _ _ _ _ _ _ _ _ Hk) as Hks.
  destruct (Hroute ns.[id] lo) as (Hri & Hr1 & Hr2); [lia | | lia |].
  { eapply Forall_impl; [exact Hks|]. intros k [? ?]. split; [done | lia]. }
  set (i := Z.to_nat (route ns.[id])) in *.
  assert (i ≤ length (node_keys ns.[id]))%nat as Hil by (rewrite node_keys_length; lia).
  destruct (kids_focus _ _ _ _ _ _ _ _ _ i x (rep_bounded ns h) Hk Hx Hil Hr1 Hr2) as
    (c & lo' & hi' & pre & el & post & fpl & fpc & fpr & f' & n' & Hci & Hc & -> & Efp & Hlo' & Hhi' & Hx' & Hj1 & Hj2 & Hpre & Hpost & Hw).
  subst fp'. assert ((children ns.[id]).[route ns.[id]] = c) as ->.
  { unfold i in Hci. rewrite node_child_at in Hci by lia. by injection Hci. }
  pose proof HN as [Hidn HN']%NoDup_cons. apply NoDup_app in HN' as (HNl & Hdl & HN'). apply NoDup_app in HN' as (HNc & Hdc & HNr).
  assert (HNc' : ∀ j, j ∈ fpc → j ≠ id ∧ j ∉ fpl ++ fpr).
  { intros j Hj. split; [intros ->; apply Hidn; rewrite !elem_of_app; tauto|]. intros [Hjl|Hjr]%elem_of_app.
    - apply (Hdl j Hjl). apply elem_of_app. by left.
    - by apply (Hdc j Hj). }
  destruct (IH c lo' hi' el fpc f' n' (id :: path) fuel Hc HNc ltac:(lia) Hx' ltac:(lia)) as (path' & leaf & Ed & Ha).
  exists (path' ++ [id]), leaf. rewrite <- app_assoc. split; [done|].
  destruct Ha as (l2 & h2 & pre' & el' & post' & nxt' & Hlen & Hlin & Hlf & Hlc & -> & Hb1 & Hb2 & Hb3 & Hp1 & Hp2 & Hin & Hsp).
  exists l2, h2, (pre ++ pre'), el', (post' ++ post), nxt'. rewrite length_app, <- !app_assoc.
  split_and!; try done; try lia.
  - cbn. lia.
  - right. rewrite !elem_of_app. tauto.
  - intros e [He|He]%elem_of_app; [apply Hpre in He as [? ?] | apply Hp1 in He as [? ?]]; (split; [done | lia]).
  - intros e [He|He]%elem_of_app; [apply Hp2 in He as [? ?] | apply Hpost in He as [? ?]]; (split; [done | lia]).
  - intros ns' el2 Hns' Hl2 Hc2. cbn [rep]. destruct (HNc' leaf Hlin) as [Hne Hnl]. rewrite Hns'; [|by left | congruence].
    split_and!; [done | lia | lia |]. eexists. split; [done|]. rewrite <- !app_assoc.
    destruct (Hw (rep ns' h)) as [Hw1 _].
    { intros c0 a b e0 fp0 f n Hsub H0. eapply rep_frame; [exact H0|]. intros j Hj. apply Hsub in Hj.
      apply Hns'; [right; repeat rewrite ?elem_of_app in *; tauto | by intros ->]. }
    specialize (Hw1 (pre' ++ el2 ++ post') fpc). rewrite <- !app_assoc in Hw1. apply Hw1. apply Hin; [|done|done].
    intros j Hj. apply Hns'. right. rewrite !elem_of_app. tauto.
  - intros p sep r e1 e2 Hp Hs Hb H1 H2 HNr' HB Hroom. rewrite <- !app_assoc.
    pose proof (lift_up h ns p id lo hi (fpl ++ fpc ++ fpr) first nxt i r) as L.
    specialize (L ltac:(by rewrite app_comm_cons) ltac:(by rewrite app_comm_cons) ltac:(lia) Hleaf Hkc ltac:(rewrite <- node_keys_length; lia) Hks).
    specialize (L c lo' hi' pre (pre' ++ (e1 ++ e2) ++ post') post fpl fpc fpr f' n' path' sep r eq_refl).
    rewrite <- !app_assoc in L. rewrite <- ?app_assoc. apply L; clear L; try done.
    + destruct (HNc' leaf Hlin) as [Hne Hnl]. intros j Hj. apply Hp.
      * repeat rewrite ?elem_of_cons, ?elem_of_app in *. tauto.
      * intros ->. destruct Hj as [->|Hj]; done.
    + rewrite <- ?app_assoc. specialize (Hsp p sep r e1 e2). rewrite <- !app_assoc in Hsp. apply Hsp; try done; try lia.
      * intros j Hj. apply Hp. right. rewrite !elem_of_app. tauto.
      * apply NoDup_app. split_and!; [done | | apply NoDup_singleton]. intros j Hj ->%list_elem_of_singleton.
        apply NoDup_app in HNr' as (_ & Hd & _). apply (Hd r); [right; rewrite !elem_of_app; tauto | by left].
      * rewrite Forall_forall in HB |- *. intros j Hj. apply HB. repeat rewrite ?elem_of_app, ?elem_of_cons in *. tauto.
Qed.

End Descend.
