(* ===== verification/BTreeSpec.v ===== *)
(** Each operation on a B+-tree against the reference index: insertion, deletion, the capped flag and range
    scans do to the tree what their list definitions do to its entries. *)
From stdpp Require Import base gmap list list_numbers.
From Stdlib Require Import ZArith Lia Sorted.
From S2P Require Import Prelude Bytes BTree BTreeLib BTreeLeaf BTreeInv.
#[local] Open Scope Z_scope.
#[local] Open Scope carr_scope.

Definition KEY_MAX : Z := 256 ^ 64.

Lemma key_bound k : is_key k → 0 ≤ kv k < KEY_MAX.
Proof. intros [Hl Hb]. pose proof (kv_bounds k Hb) as H. rewrite Hl in H. exact H. Qed.

(** The tree of an index: [es] are its entries, [fp] its nodes, and its counter counts the active rows. *)
Record tree_ok (p : Pool) (t : Tree) (es : list entry) (fp : list Z) : Prop := TreeOk {
  to_shape : if root_node t =? BTREE_INVALID_NODE then es = [] ∧ fp = []
             else ∃ h first, rep (btree_nodes p) h (root_node t) 0 KEY_MAX es fp first BTREE_INVALID_NODE;
  to_nodup : NoDup fp;
  to_alloc : Forall (fun i => 0 ≤ i < btree_next_free_node p) fp;
  to_count : entry_count t = Z.of_nat (length (ix_range None None es))
}.

(** Room for a split on every level and a new root. *)
Definition room (p : Pool) : Prop := 0 ≤ btree_next_free_node p ∧ btree_next_free_node p + 16 ≤ BTREE_MAX_NODES.

Lemma footprint_size fp n : NoDup fp → Forall (fun i => 0 ≤ i < n) fp → Z.of_nat (length fp) ≤ Z.max 0 n.
Proof.
  intros HN HF. assert (length fp ≤ length (seqZ 0 n))%nat as H.
  { apply submseteq_length, NoDup_submseteq; [done|]. intros i Hi. apply elem_of_seqZ. rewrite Forall_forall in HF. specialize (HF i Hi). lia. }
  rewrite length_seqZ in H. lia.
Qed.

(** The descent path of an index never outgrows its buffer. *)
Lemma height_bound p h id lo hi es fp first nxt : rep (btree_nodes p) h id lo hi es fp first nxt → NoDup fp →
  Forall (fun i => 0 ≤ i < btree_next_free_node p) fp → btree_next_free_node p ≤ BTREE_MAX_NODES → (h ≤ 14)%nat.
Proof.
  intros Hr HN HF Hb. apply rep_size in Hr. pose proof (footprint_size _ _ HN HF) as Hs. unfold BTREE_MAX_NODES in Hb.
  assert (2 ^ Z.of_nat h < 2 ^ 15) as H by lia. apply Z.pow_lt_mono_r_iff in H; lia.
Qed.

(** * Rows in range *)

Lemma ix_range_app lo hi es1 es2 : ix_range lo hi (es1 ++ es2) = ix_range lo hi es1 ++ ix_range lo hi es2.
Proof. apply bind_app. Qed.

Lemma ix_range_cons lo hi e es : ix_range lo hi (e :: es) = (if in_range lo hi e.1 then active_rows e.2 else []) ++ ix_range lo hi es.
Proof. done. Qed.

Lemma active_rows_length d : (length (active_rows d) ≤ length (d_ids d))%nat.
Proof. unfold active_rows. rewrite length_map. apply length_filter. Qed.

Lemma ix_range_length lo hi es : Forall (fun e : entry => (length (d_ids e.2) ≤ Z.to_nat BTREE_MAX_DUPES_PER_KEY)%nat) es →
  Z.of_nat (length (ix_range lo hi es)) ≤ 16 * Z.of_nat (length es).
Proof.
  induction 1 as [|e es He _ IH]; [done|]. rewrite ix_range_cons, length_app. cbn [length].
  pose proof (active_rows_length e.2). unfold BTREE_MAX_DUPES_PER_KEY in *. destruct (in_range _ _ _); cbn [length] in *; lia.
Qed.

Lemma rep_entries_length ns h id lo hi es fp f n : rep ns h id lo hi es fp f n → Z.of_nat (length es) ≤ 3 * Z.of_nat (length fp).
Proof.
  revert id lo hi es fp f n. induction h as [|h IH]; intros id lo hi es fp f n H.
  - destruct H as (Hl & Hc & _ & ->). rewrite (leaf_length _ _ _ _ _ Hl). cbn. unfold BTREE_ORDER in Hc. lia.
  - destruct H as (_ & _ & fp' & -> & Hk). cbn [length]. assert (Z.of_nat (length es) ≤ 3 * Z.of_nat (length fp')); [|lia].
    clear -Hk IH. revert Hk. generalize (node_keys ns.[id]) (node_children ns.[id]). intros ks.
    revert lo es fp' f. induction ks as [|k ks IHk]; intros lo es fp f [|c cs] Hk; [done| |done|].
    + destruct cs; [by eapply IH | done].
    + destruct Hk as (_ & _ & es1 & es2 & fp1 & fp2 & mid & -> & -> & H1 & Hk). apply IH in H1. apply IHk in Hk. rewrite !length_app. lia.
Qed.

(** Fewer rows than a counter can count. *)
Lemma tree_rows p t es fp lo hi : tree_ok p t es fp → btree_next_free_node p ≤ BTREE_MAX_NODES →
  Z.of_nat (length (ix_range lo hi es)) < 2 ^ 31.
Proof.
  intros [Hs HN HA _] Hb. destruct (_ =? _); [destruct Hs as [-> _]; done|]. destruct Hs as (h & first & Hr).
  pose proof (eo_rows _ _ _ (rep_bounded _ _ _ _ _ _ _ _ _ Hr)) as Hd. pose proof (ix_range_length lo hi es Hd).
  apply rep_entries_length in Hr. pose proof (footprint_size _ _ HN HA). unfold BTREE_MAX_NODES in Hb. lia.
Qed.

(** * Insertion *)

Lemma all_in_range k : in_range None None k = true.
Proof. done. Qed.

Lemma active_rows_snoc l c id : active_rows (mkDups (l ++ [(id, 1)]) c) = active_rows (mkDups l c) ++ [id].
Proof. unfold active_rows. cbn [d_ids]. rewrite filter_app, map_app. done. Qed.

(** An accepted row is one more active row. *)
Lemma ix_insert_count k id es :
  Z.of_nat (length (ix_range None None (ix_insert k id es).2)) =
  Z.of_nat (length (ix_range None None es)) + (if (ix_insert k id es).1 =? 0 then 1 else 0).
Proof.
  induction es as [|[k0 d0] es IH]; cbn [ix_insert]; [done|]. destruct (key_cmp k k0 <? 0).
  { cbn [fst snd]. rewrite !ix_range_cons, !all_in_range, !length_app. cbn [fst snd].
    change (active_rows (mkDups [(id, 1)] 0)) with [id]. cbn [length]. rewrite Z.eqb_refl. lia. }
  destruct (key_cmp k0 k =? 0).
  - destruct (_ <=? _); cbn [fst snd]; rewrite !ix_range_cons, !all_in_range, !length_app; cbn [fst snd]; [change (1 =? 0) with false; unfold active_rows; cbn [d_ids]; lia|].
    destruct d0 as [l c]. cbn [d_ids d_capped]. rewrite active_rows_snoc, length_app. cbn [length]. rewrite Z.eqb_refl. lia.
  - destruct (ix_insert k id es) as [r es']. cbn [fst snd] in *. rewrite !ix_range_cons, !length_app. lia.
Qed.

Lemma invalid_big p i fp : Forall (fun i => 0 ≤ i < btree_next_free_node p) fp → btree_next_free_node p ≤ BTREE_MAX_NODES → i ∈ fp → i ≠ BTREE_INVALID_NODE.
Proof. intros HF Hb Hi. rewrite Forall_forall in HF. specialize (HF i Hi). unfold BTREE_MAX_NODES, BTREE_INVALID_NODE in *. lia. Qed.

Lemma grown_alloc m p p' fp fp' : grown m p p' fp fp' → 0 ≤ btree_next_free_node p → NoDup fp → Forall (fun i => 0 ≤ i < btree_next_free_node p) fp →
  NoDup fp' ∧ Forall (fun i => 0 ≤ i < btree_next_free_node p') fp'.
Proof.
  intros [Hn Hp _] H0 HN HF. split.
  - rewrite Hp. apply NoDup_app. split_and!; [done | | apply NoDup_seqZ]. intros i Hi Hi'%elem_of_seqZ.
    rewrite Forall_forall in HF. specialize (HF i Hi). lia.
  - rewrite Hp. apply Forall_app. split; [eapply Forall_impl; [exact HF|]; cbn; lia|]. apply Forall_forall. intros i Hi%elem_of_seqZ. lia.
Qed.

(** The first row of an index. *)
Lemma insert_empty p t k id : is_key k → room p → tree_ok p t [] [] → root_node t = BTREE_INVALID_NODE →
  ∃ t' p' fp', btree_insert t k id p = Some (0, t', p') ∧ tree_ok p' t' [(k, mkDups [(id, 1)] 0)] fp' ∧ grown 16 p p' [] fp'.
Proof.
  intros Hk [Hn0 Hn1] Hok Hroot. unfold btree_insert. rewrite Hroot, Z.eqb_refl.
  destruct (alloc_node_spec 1 p) as (n & E & Hl & Hinv); [unfold BTREE_MAX_NODES in *; lia|].
  unfold alloc_node in *. destruct (_ <=? _) eqn:Hfull; [unfold BTREE_MAX_NODES in *; lia|]. clear E Hl n.
  destruct (Z.eqb_spec (btree_next_free_node p) BTREE_INVALID_NODE); [done|].
  set (r := btree_next_free_node p) in *. cbn [btree_nodes btree_next_free_node set_node]. rewrite aget_upd_eq.
  eexists _, _, [r]. split; [done|]. split.
  - split; cbn [root_node entry_count btree_nodes btree_next_free_node set_node].
    + destruct (Z.eqb_spec r BTREE_INVALID_NODE); [done|]. exists 0%nat, r. cbn [rep btree_nodes set_node]. rewrite !aget_upd_eq. split_and!; [|done|done|done].
      split; [done | done | done | | |].
      * intros i Hi. cbn in Hi. assert (i = 0) as -> by lia. cbn. by rewrite aget_upd_eq.
      * unfold leaf_entries. cbn [key_count set_key_count]. rewrite tab_1. unfold entry_at. cbn. rewrite !aget_upd_eq, tab_1, !aget_upd_eq. done.
      * apply entries_cons. pose proof (key_bound k Hk). cbn. split_and!; [done | lia | lia | unfold BTREE_MAX_DUPES_PER_KEY; lia | done | apply entries_nil].
    + apply NoDup_singleton.
    + constructor; [lia | done].
    + rewrite (to_count _ _ _ _ Hok). done.
  - split; cbn [btree_next_free_node btree_nodes set_node].
    + lia.
    + fold r. replace (r + 1 - r) with 1 by lia. reflexivity.
    + intros i Hi _. rewrite !aget_upd_ne by lia. done.
Qed.

Lemma grown_mono m m' p p' fp fp' : m ≤ m' → grown m p p' fp fp' → grown m' p p' fp fp'.
Proof. intros Hm [? ? ?]. split; [lia | done | done]. Qed.

Lemma grown_refl p p' fp : btree_next_free_node p' = btree_next_free_node p →
  (∀ i, i ∉ fp → (btree_nodes p').[i] = (btree_nodes p).[i]) → grown 0 p p' fp fp.
Proof. intros E H. split; [lia | rewrite E, Z.sub_diag; by rewrite app_nil_r | auto]. Qed.

Lemma grown_trans m1 m2 p p1 p2 fp fp1 fp2 : grown m1 p p1 fp fp1 → grown m2 p1 p2 fp1 fp2 → grown (m1 + m2) p p2 fp fp2.
Proof.
  intros [A1 A2 A3] [B1 B2 B3]. split; [lia | |].
  - rewrite B2, A2, <- app_assoc. apply Permutation_app_head.
    replace (btree_next_free_node p2 - btree_next_free_node p) with
      ((btree_next_free_node p1 - btree_next_free_node p) + (btree_next_free_node p2 - btree_next_free_node p1)) by lia.
    rewrite seqZ_app by lia. do 2 f_equiv. lia.
  - intros i Hi Hn. rewrite B3; [by apply A3 | lia |]. rewrite A2. intros [?|?%elem_of_seqZ]%elem_of_app; [done | lia].
Qed.

(** A root above the two halves of the old one. *)
Lemma new_root_spec p t h sep r es1 es2 fp1 fp2 first mid :
  btree_next_free_node p < BTREE_MAX_NODES → is_key sep → 0 < kv sep < KEY_MAX →
  rep (btree_nodes p) h (root_node t) 0 (kv sep) es1 fp1 first mid → rep (btree_nodes p) h r (kv sep) KEY_MAX es2 fp2 mid BTREE_INVALID_NODE →
  Forall (fun i => i < btree_next_free_node p) (fp1 ++ fp2) →
  let '(t', p') := new_root sep r t p in
  ∃ fp', rep (btree_nodes p') (S h) (root_node t') 0 KEY_MAX (es1 ++ es2) fp' first BTREE_INVALID_NODE ∧
    root_node t' ≠ BTREE_INVALID_NODE ∧ entry_count t' = entry_count t ∧ grown 1 p p' (fp1 ++ fp2) fp'.
Proof.
  intros Hn Hs Hb H1 H2 HF. unfold new_root. destruct (alloc_node_spec 0 p Hn) as (n & -> & Hl & Hinv).
  destruct (Z.eqb_spec (btree_next_free_node p) BTREE_INVALID_NODE); [done|]. cbn [btree_nodes root_node entry_count btree_next_free_node set_node].
  rewrite aget_upd_eq. set (r2 := btree_next_free_node p) in *. rewrite Forall_forall in HF.
  assert (∀ i, i ∈ fp1 ++ fp2 → i ≠ r2) as Hne by (intros i Hi E; specialize (HF i Hi); lia).
  exists (r2 :: fp1 ++ fp2). split_and!; [|done|done|].
  - cbn [rep]. rewrite aget_upd_eq. cbn [is_leaf key_count]. split_and!; [done | lia | done |]. eexists. split; [done|].
    unfold node_keys, node_children. cbn [keys children key_count]. change (1 + 1) with 2. rewrite tab_1, aget_upd_eq.
    change (tab ?f 2) with [f 0; f 1]. cbn beta. rewrite aget_upd_ne, !aget_upd_eq by lia. cbn [kids].
    split_and!; [done | lia | lia |]. exists es1, es2, fp1, fp2, mid. split_and!; [done | done | |];
      (eapply rep_frame; [eassumption|]; intros i Hi; specialize (Hne i); rewrite elem_of_app in Hne; rewrite !aget_upd_ne by (symmetry; tauto); done).
  - split; cbn [btree_next_free_node btree_nodes set_node].
    + lia.
    + fold r2. replace (r2 + 1 - r2) with 1 by lia. change (seqZ r2 1) with [r2]. perm.
    + intros i Hi _. fold r2 in Hi. by rewrite !aget_upd_ne by lia.
Qed.

(** The search of a non-empty index for a key. *)
Lemma search_arrives p t k es fp : is_key k → btree_next_free_node p ≤ BTREE_MAX_NODES → tree_ok p t es fp → root_node t ≠ BTREE_INVALID_NODE →
  ∃ h first path leaf, (h ≤ 14)%nat ∧
    leaf_for (child_slot k) (root_node t) (btree_nodes p) = Some (path, leaf) ∧
    arrives (kv k) (btree_nodes p) h (root_node t) 0 KEY_MAX es fp first BTREE_INVALID_NODE path leaf.
Proof.
  intros Hk Hn Hok Hr. destruct Hok as [Hs HN HA _]. destruct (Z.eqb_spec (root_node t) BTREE_INVALID_NODE); [done|]. destruct Hs as (h & first & Hrep).
  pose proof (height_bound _ _ _ _ _ _ _ _ _ Hrep HN HA Hn) as Hh.
  destruct (descend_arrives (child_slot k) (kv k) (routes_child k Hk) (btree_nodes p) h _ _ _ _ _ _ _ [] (Z.to_nat BTREE_MAX_NODES) Hrep HN ltac:(lia) (key_bound k Hk))
    as (path & leaf & Ed & Ha); [unfold BTREE_MAX_NODES; lia|]. rewrite app_nil_r in Ed. exists h, first, path, leaf. done.
Qed.

Section Insert.
Context (p : Pool) (t : Tree) (k : key) (id : RowId) (es : list entry) (fp : list Z).
Context (Hk : is_key k) (Hroom : room p) (Hok : tree_ok p t es fp).

(** Changing the leaf only. *)
Lemma in_place leaf n' es' c : root_node t ≠ BTREE_INVALID_NODE → leaf ∈ fp →
  (∃ h first, rep (btree_nodes (set_node leaf n' p)) h (root_node t) 0 KEY_MAX es' fp first BTREE_INVALID_NODE) →
  c = Z.of_nat (length (ix_range None None es')) →
  tree_ok (set_node leaf n' p) (mkTree (root_node t) c) es' fp ∧ grown 16 p (set_node leaf n' p) fp fp.
Proof using Hok.
  intros Hr Hl Hrep Hc. destruct Hok as [_ HN HA _]. split.
  - split; [|done|done|done]. cbn [root_node]. by destruct (Z.eqb_spec (root_node t) BTREE_INVALID_NODE).
  - apply grown_mono with 0; [lia|]. apply grown_refl; [done|]. intros i Hi. cbn. by rewrite aget_upd_ne by (intros ->; done).
Qed.

Lemma count_small : Z.of_nat (length (ix_range None None es)) < 2 ^ 31.
Proof using Hroom Hok. eapply tree_rows; [exact Hok | destruct Hroom; lia]. Qed.

(** A leaf that overflowed, split in two, with the split taken up to the root. *)
Lemma insert_split h first path leaf lo' hi' pre el post nxt' lf :
  leaf ∈ fp → (h ≤ 14)%nat → root_node t ≠ BTREE_INVALID_NODE →
  leaf_ok lf lo' hi' el nxt' → key_count lf = BTREE_ORDER →
  (∀ p' sep r e1 e2, (∀ i, i ∈ fp → i ≠ leaf → (btree_nodes p').[i] = (btree_nodes p).[i]) → is_key sep → lo' < kv sep < hi' →
      rep (btree_nodes p') 0 leaf lo' (kv sep) e1 [leaf] leaf r → rep (btree_nodes p') 0 r (kv sep) hi' e2 [r] r nxt' →
      NoDup (fp ++ [r]) → Forall (fun j => j < btree_next_free_node p') (fp ++ [r]) →
      btree_next_free_node p' + Z.of_nat h ≤ BTREE_MAX_NODES →
      lifted h p' (root_node t) 0 KEY_MAX (pre ++ (e1 ++ e2) ++ post) (fp ++ [r]) first BTREE_INVALID_NODE (propagate path sep r p')) →
  let t1 := mkTree (root_node t) (Z.of_nat (length (ix_range None None (pre ++ el ++ post)))) in
  let '(r, p2) := alloc_node 1 (set_node leaf lf p) in
  (r =? BTREE_INVALID_NODE) = false ∧
  let '(lleft, lright) := leaf_split (btree_nodes p2).[leaf] (btree_nodes p2).[r] r in
  ∃ t' p' fp', tree_ok p' t' (pre ++ el ++ post) fp' ∧ grown 16 p p' fp fp' ∧
    match propagate path (keys lright).[0] r (set_node r lright (set_node leaf lleft p2)) with
    | None => False
    | Some (inl p3) => t' = t1 ∧ p' = p3
    | Some (inr (sep, child, p3)) => new_root sep child t1 p3 = (t', p')
    end.
Proof using Hroom Hok.
  intros Hlin Hh Hr Hlf Hc Hsp t1. destruct Hok as [_ HN HA _]. destruct Hroom as [Hn0 Hn1].
  destruct (alloc_node_spec 1 (set_node leaf lf p)) as (n & -> & Hnl & Hinv); [cbn; lia|]. cbn [set_node btree_next_free_node btree_nodes] in *.
  set (r := btree_next_free_node p) in *. pose proof HA as HA'. rewrite Forall_forall in HA'. pose proof (HA' leaf Hlin) as Hlb.
  split; [by apply Z.eqb_neq|]. rewrite aget_upd_ne, !aget_upd_eq by lia.
  pose proof (leaf_split_ok lf lo' hi' nxt' el Hlf n r ltac:(lia) Hc) as Hs. destruct (leaf_split lf n r) as [n1 n2].
  destruct Hs as (Hsep & Hsb & Hl1 & Hl2 & Hc1 & Hc2). set (sep := (keys n2).[0]) in *.
  set (p3 := mkPool _ (r + 1)). assert (G1 : grown 1 p (set_node r n2 (set_node leaf n1 p3)) fp (fp ++ [r])).
  { split; cbn [btree_next_free_node btree_nodes set_node p3].
    - lia.
    - fold r. replace (r + 1 - r) with 1 by lia. reflexivity.
    - intros i Hi Hin. rewrite aget_upd_ne by lia. rewrite aget_upd_ne by (intros ->; done). rewrite aget_upd_ne by lia. by rewrite aget_upd_ne by (intros ->; done). }
  set (p4 := set_node r n2 (set_node leaf n1 p3)) in *.
  destruct (grown_alloc _ _ _ _ _ G1 Hn0 HN HA) as [HN4 HA4].
  specialize (Hsp p4 sep r (take 2 el) (drop 2 el)). rewrite take_drop in Hsp.
  assert (Hlift : lifted h p4 (root_node t) 0 KEY_MAX (pre ++ el ++ post) (fp ++ [r]) first BTREE_INVALID_NODE (propagate path sep r p4)).
  { apply Hsp; [| done | done | | | done | | cbn; lia].
    - intros i Hi Hne. specialize (HA' i Hi). cbn. by rewrite !aget_upd_ne by lia.
    - cbn [rep]. cbn. rewrite aget_upd_ne, aget_upd_eq by lia. split_and!; [done | rewrite Hc1; done | done | done].
    - cbn [rep]. cbn. rewrite aget_upd_eq. split_and!; [done | rewrite Hc2; done | done | done].
    - eapply Forall_impl; [exact HA4|]. cbn. lia. }
  clear Hsp. destruct (propagate path sep r p4) as [[p5|[[sep5 r5] p5]]|]; [| |done]; cbn [lifted] in Hlift.
  - destruct Hlift as (fp5 & Hrep & G2). pose proof (grown_trans _ _ _ _ _ _ _ _ G1 G2) as G. destruct (grown_alloc _ _ _ _ _ G Hn0 HN HA) as [HN5 HA5].
    exists t1, p5, fp5. split_and!; [| eapply grown_mono; [|exact G]; lia | done | done].
    split; [|done|done|done]. cbn [root_node t1]. destruct (Z.eqb_spec (root_node t) BTREE_INVALID_NODE); [done|]. by exists h, first.
  - destruct Hlift as (es1 & es2 & fp1 & fp2 & mid & E & Hs5 & Hb5 & R1 & R2 & G2).
    pose proof (grown_trans _ _ _ _ _ _ _ _ G1 G2) as G. destruct (grown_alloc _ _ _ _ _ G Hn0 HN HA) as [HN5 HA5].
    assert (btree_next_free_node p5 < BTREE_MAX_NODES) as Hn5 by (destruct G; lia).
    pose proof (new_root_spec p5 t1 h sep5 r5 es1 es2 fp1 fp2 first mid Hn5 Hs5 Hb5 R1 R2) as Hnr.
    destruct (new_root sep5 r5 t1 p5) as [t6 p6]. destruct Hnr as (fp6 & Hrep & Hr6 & Hc6 & G3).
    { eapply Forall_impl; [exact HA5|]. cbn. lia. }
    pose proof (grown_trans _ _ _ _ _ _ _ _ G G3) as G6. destruct (grown_alloc _ _ _ _ _ G6 Hn0 HN HA) as [HN6 HA6].
    exists t6, p6, fp6. split_and!; [| eapply grown_mono; [|exact G6]; lia | done].
    split; [|done|done|by rewrite Hc6]. destruct (Z.eqb_spec (root_node t6) BTREE_INVALID_NODE); [done|]. rewrite E. by exists (S h), first.
Qed.

Lemma insert_spec : ∃ t' p' fp',
  btree_insert t k id p = Some ((ix_insert k id es).1, t', p') ∧ tree_ok p' t' (ix_insert k id es).2 fp' ∧ grown 16 p p' fp fp'.
Proof using Hk Hroom Hok.
  destruct (Z.eqb_spec (root_node t) BTREE_INVALID_NODE) as [Hr|Hr].
  { pose proof (to_shape _ _ _ _ Hok) as Hs. rewrite Hr, Z.eqb_refl in Hs. destruct Hs as [-> ->]. by apply insert_empty. }
  destruct (search_arrives p t k es fp Hk ltac:(destruct Hroom; lia) Hok Hr) as (h & first & path & leaf & Hh & Ed & lo' & hi' & pre & el & post & nxt' & Hlen & Hlin & Hlf & Hlc & Hes &
    Hb1 & Hb2 & Hb3 & Hpre & Hpost & Hin & Hsp).
  pose proof (ix_insert_app k id Hk pre el post) as Happ. rewrite <- Hes in Happ. rewrite Happ; clear Happ.
  2:{ apply Forall_forall. intros e He. apply Hpre in He as [? ?]. split; [done | lia]. }
  2:{ apply Forall_forall. intros e He. apply Hpost in He as [? ?]. split; [done | lia]. }
  cbn [fst snd]. pose proof (ix_insert_count k id es) as Hcount. pose proof count_small as Hsmall.
  pose proof (to_count _ _ _ _ Hok) as Hec.
  unfold btree_insert. destruct (Z.eqb_spec (root_node t) BTREE_INVALID_NODE); [done|]. rewrite Ed.
  destruct (Nat.ltb_spec 32 (length path)); [lia|].
  assert (Hcnt : ∀ c, (ix_insert k id el).1 = c → Z.of_nat (length (ix_range None None (pre ++ (ix_insert k id el).2 ++ post))) =
    Z.of_nat (length (ix_range None None es)) + (if c =? 0 then 1 else 0)).
  { intros c <-. rewrite Hes, !ix_range_app, !length_app. pose proof (ix_insert_count k id el). lia. }
  pose proof (leaf_find_spec _ _ _ _ _ Hlf k Hk) as Hfind. destruct (leaf_find k (btree_nodes p).[leaf]) as [i|] eqn:Ef.
  - destruct (leaf_append_ok _ _ _ _ _ Hlf k id Hk i Ef) as [Hl' Hrc]. specialize (Hcnt _ Hrc).
    assert (∃ n', leaf_ok n' lo' hi' (ix_insert k id el).2 nxt' ∧ key_count n' < BTREE_ORDER ∧
      (if BTREE_MAX_DUPES_PER_KEY <=? (id_count (btree_nodes p).[leaf]).[i] then set_capped i 1 (btree_nodes p).[leaf] else leaf_append i id (btree_nodes p).[leaf]) = n')
      as (n' & Hn' & Hc' & En').
    { eexists. split_and!; [exact Hl' | by destruct (_ <=? _) | done]. }
    assert (Hrep : ∃ h first, rep (btree_nodes (set_node leaf n' p)) h (root_node t) 0 KEY_MAX (pre ++ (ix_insert k id el).2 ++ post) fp first BTREE_INVALID_NODE).
    { exists h, first. apply Hin; cbn [btree_nodes set_node]; [| by rewrite aget_upd_eq | by rewrite aget_upd_eq].
      intros j _ Hj. by rewrite aget_upd_ne. }
    destruct (in_place leaf n' _ _ Hr Hlin Hrep (eq_sym Hcnt)) as [Hok' G].
    destruct (_ <=? _); rewrite Hrc, En'; eexists _, _, fp; (split; [|split; [exact Hok' | exact G]]).
    + change (1 =? 0) with false. rewrite <- Hec, Z.add_0_r. by destruct t.
    + rewrite Z.eqb_refl, <- Hec, u32_small by lia. done.
  - destruct (Z.leb_spec BTREE_ORDER (key_count (btree_nodes p).[leaf])); [lia|].
    destruct (leaf_insert_ok _ _ _ _ _ Hlf k id Hk Hfind Hb2) as (Hl' & Hrc & Hkc). specialize (Hcnt _ Hrc). rewrite Z.eqb_refl in Hcnt.
    set (lf := leaf_insert k id (btree_nodes p).[leaf]) in *. rewrite Hrc, u32_small by lia. rewrite Hec, <- Hcnt.
    destruct (Z.leb_spec (key_count lf) (BTREE_ORDER - 1)) as [Hfit|Hfull].
    + assert (Hrep : ∃ h first, rep (btree_nodes (set_node leaf lf p)) h (root_node t) 0 KEY_MAX (pre ++ (ix_insert k id el).2 ++ post) fp first BTREE_INVALID_NODE).
      { exists h, first. apply Hin; cbn [btree_nodes set_node]; [| by rewrite aget_upd_eq | rewrite aget_upd_eq; lia].
        intros j _ Hj. by rewrite aget_upd_ne. }
      destruct (in_place leaf lf _ _ Hr Hlin Hrep eq_refl) as [Hok' G]. eexists _, _, fp. split; [done | by split].
    + assert (key_count lf = BTREE_ORDER) as H4 by lia.
      pose proof (insert_split h first path leaf lo' hi' pre _ post nxt' lf Hlin Hh Hr Hl' H4 Hsp) as Hsplit. cbv zeta in Hsplit.
      destruct (alloc_node 1 (set_node leaf lf p)) as [r p2]. destruct Hsplit as [-> Hsplit].
      destruct (leaf_split _ _ _) as [n1 n2]. destruct Hsplit as (t' & p' & fp' & Hok' & G & Hres). exists t', p', fp'.
      destruct (propagate _ _ _ _) as [[p5|[[sep5 r5] p5]]|]; [| |done].
      * destruct Hres as [-> ->]. done.
      * by rewrite Hres.
Qed.

End Insert.

(** * Deletion and the capped flag *)

Section Delete.
Context (p : Pool) (t : Tree) (k : key) (id : RowId) (es : list entry) (fp : list Z).
Context (Hk : is_key k) (Hn : btree_next_free_node p ≤ BTREE_MAX_NODES) (Hok : tree_ok p t es fp).

Lemma clear_row_spec l :
  match list_find (fun r => r.2 ≠ 0 ∧ r.1 = id) l with
  | Some (d, r) => clear_row id l = <[d := (r.1, 0)]> l
  | None => clear_row id l = l
  end.
Proof.
  induction l as [|[i a] l IH]; cbn; [done|]. destruct (decide (a ≠ 0 ∧ i = id)) as [[Ha ->]|Hno].
  - destruct (Z.eqb_spec a 0); [done|]. by rewrite bool_decide_eq_true_2.
  - destruct (negb (a =? 0) && bool_decide (i = id)) eqn:E.
    { apply andb_true_iff in E as [E1 E2%bool_decide_eq_true_1]. destruct (Z.eqb_spec a 0); [done | tauto]. }
    destruct (list_find _ l) as [[d r]|]; cbn; by rewrite IH.
Qed.

(** The counter of active rows after clearing one mark. *)
Lemma clear_count d l r : l !! d = Some r → r.2 ≠ 0 →
  Z.of_nat (length (filter (fun r : RowId * Z => r.2 ≠ 0) (<[d := (r.1, 0)]> l))) =
  Z.of_nat (length (filter (fun r : RowId * Z => r.2 ≠ 0) l)) - 1.
Proof.
  revert d. induction l as [|r0 l IH]; intros [|d] E Hr; [done|done| |].
  - injection E as ->. cbn [insert list_insert]. rewrite filter_cons_False by (cbn; tauto). rewrite filter_cons_True by done. cbn [length]. lia.
  - specialize (IH d E Hr). change (<[S d := (r.1, 0)]> (r0 :: l)) with (r0 :: <[d := (r.1, 0)]> l). destruct (decide (r0.2 ≠ 0)).
    + rewrite !filter_cons_True by done. cbn [length]. lia.
    + rewrite !filter_cons_False by done. done.
Qed.

Lemma row_match_decide i n d : row_match id i n d = bool_decide ((id_active n).[i].[d] ≠ 0 ∧ (ids n).[i].[d] = id).
Proof.
  unfold row_match. destruct (Z.eqb_spec (id_active n).[i].[d] 0) as [E|E]; cbn [negb andb].
  { symmetry. apply bool_decide_eq_false_2. tauto. }
  destruct (ids n).[i].[d] as [a b], id as [a' b']. cbn.
  destruct (Z.eqb_spec a a') as [->|], (Z.eqb_spec b b') as [->|]; cbn; symmetry; (apply bool_decide_eq_true_2 || apply bool_decide_eq_false_2); intuition congruence.
Qed.

Lemma find_up_list {A} (P : A → Prop) `{!∀ x, Decision (P x)} (f : Z → A) (g : Z → bool) n :
  (∀ d, 0 ≤ d < n → g d = bool_decide (P (f d))) →
  match find_up (Z.to_nat n) 0 g, list_find P (tab f n) with
  | Some d, Some (i, x) => d = Z.of_nat i ∧ x = f d ∧ 0 ≤ d < n
  | None, None => True
  | _, _ => False
  end.
Proof.
  intros Hg. destruct (find_up _ _ _) as [d|] eqn:E.
  - apply find_up_Some in E as (Hd & Hp & Hlt). assert (0 ≤ d < n) as Hd' by lia. rewrite Hg in Hp by done. apply bool_decide_eq_true_1 in Hp.
    assert (list_find P (tab f n) = Some (Z.to_nat d, f d)) as ->; [|split_and!; [lia | done | lia | lia]].
    apply list_find_Some. rewrite tab_lookup, Z2Nat.id by lia. split_and!; [done | done|].
    intros j y Hy Hj. assert (j < Z.to_nat n)%nat as Hjn by lia. rewrite tab_lookup in Hy by done. injection Hy as <-.
    specialize (Hlt (Z.of_nat j) ltac:(lia)). rewrite Hg in Hlt by lia. by apply bool_decide_eq_false_1 in Hlt.
  - rewrite find_up_None in E. destruct (list_find P (tab f n)) as [[i x]|] eqn:E'; [|done].
    apply list_find_Some in E' as (Hi & HP & _). pose proof (lookup_lt_Some _ _ _ Hi) as Hl. rewrite tab_length in Hl. rewrite tab_lookup in Hi by done. injection Hi as <-.
    specialize (E (Z.of_nat i) ltac:(lia)). rewrite Hg in E by lia. by apply bool_decide_eq_false_1 in E.
Qed.

Lemma ix_delete_at lo hi el i k' d : entries_ok lo hi el → el !! i = Some (k', d) → kv k' = kv k →
  ix_delete k id el = <[i := (k', mkDups (clear_row id (d_ids d)) (d_capped d))]> el.
Proof using Hk.
  revert i. induction el as [|e el IH]; intros [|i] Hes E Hkk; [done|done| |]; apply entries_cons in Hes as (He & _ & _ & Hlt & Hes).
  - injection E as ->. cbn in He, Hlt. change (<[0%nat := ?x]> (?a :: ?l)) with (x :: l). cbn [ix_delete map fst snd]. rewrite key_cmp_eq by done.
    destruct (Z.eqb_spec (kv k') (kv k)); [|done]. f_equal. apply (ix_delete_other k id Hk). rewrite Forall_forall in Hlt |- *.
    intros e' He'. split; [by apply (entries_bounds _ _ _ _ Hes) | specialize (Hlt e' He'); lia].
  - change (<[S i := ?x]> (?a :: ?l)) with (a :: <[i := x]> l). cbn [ix_delete map]. rewrite key_cmp_eq by done.
    rewrite Forall_forall in Hlt. specialize (Hlt _ (list_elem_of_lookup_2 el i _ E)). cbn in Hlt.
    destruct (Z.eqb_spec (kv e.1) (kv k)); [lia|]. f_equal. by apply IH.
Qed.

Lemma range_insert el i (e e' : entry) : el !! i = Some e →
  Z.of_nat (length (ix_range None None (<[i := e']> el))) =
  Z.of_nat (length (ix_range None None el)) - Z.of_nat (length (active_rows e.2)) + Z.of_nat (length (active_rows e'.2)).
Proof.
  revert i. induction el as [|e0 el IH]; intros [|i] E; [done|done| |].
  - injection E as ->. change (<[0%nat := ?x]> (?a :: ?l)) with (x :: l). rewrite !ix_range_cons, !all_in_range, !length_app. lia.
  - change (<[S i := ?x]> (?a :: ?l)) with (a :: <[i := x]> l). rewrite !ix_range_cons, !all_in_range, !length_app. specialize (IH i E). lia.
Qed.

(** Deleting from the leaf that holds the key. *)
Lemma leaf_delete_ok n lo hi el nxt i : leaf_ok n lo hi el nxt → leaf_find k n = Some i →
  match find_up (Z.to_nat (id_count n).[i]) 0 (row_match id i n) with
  | None => ix_delete k id el = el
  | Some d => leaf_ok (set_id_active i d 0 n) lo hi (ix_delete k id el) nxt ∧
      Z.of_nat (length (ix_range None None (ix_delete k id el))) = Z.of_nat (length (ix_range None None el)) - 1
  end.
Proof using Hk.
  intros Hl Ef. pose proof (leaf_find_spec _ _ _ _ _ Hl k Hk) as Hi. rewrite Ef in Hi. destruct Hi as [Hi Hkv].
  pose proof (leaf_ok_entry _ _ _ _ _ _ Hl Hi) as He. pose proof (lo_ok _ _ _ _ _ Hl) as Hes.
  pose proof (ix_delete_ok k id lo hi el Hes) as Hes'. pose proof (ix_delete_at _ _ _ _ _ _ Hes He Hkv) as E. cbn [d_ids d_capped] in E.
  set (f := fun d => ((ids n).[i].[d], (id_active n).[i].[d])) in *.
  pose proof (find_up_list (fun r : RowId * Z => r.2 ≠ 0 ∧ r.1 = id) f (row_match id i n) (id_count n).[i]) as Hf.
  pose proof (clear_row_spec (tab f (id_count n).[i])) as Hcl.
  destruct (find_up _ _ _) as [d|], (list_find _ _) as [[j r]|] eqn:Elf; try (exfalso; apply Hf; intros; apply row_match_decide).
  - destruct Hf as (-> & -> & Hd); [intros; apply row_match_decide|]. apply list_find_Some in Elf as (Hj & [Ha _] & _). cbn [snd f] in Ha.
    split.
    + split; [apply (lo_leaf _ _ _ _ _ Hl) | apply (lo_next _ _ _ _ _ Hl) | apply (lo_count _ _ _ _ _ Hl) | exact (lo_rows _ _ _ _ _ Hl) | | done].
      rewrite E, <- (lo_es _ _ _ _ _ Hl). unfold leaf_entries. cbn [key_count set_id_active]. apply tab_update; [done | |].
      * rewrite Hcl. unfold entry_at. cbn. f_equal. f_equal.
        etrans; [apply (tab_update f _ _ (Z.of_nat j) ((ids n).[i].[Z.of_nat j], 0)); [done | by rewrite !aget_upd_eq |] | by rewrite Nat2Z.id].
        intros d0 _ Hne. by rewrite aget_upd_eq, aget_upd_ne.
      * intros j0 Hj0 Hne. unfold entry_at. cbn. by rewrite aget_upd_ne.
    + rewrite E, (range_insert _ _ _ _ He). rewrite Hcl. unfold active_rows. rewrite !length_map. cbn [d_ids snd entry_at]. fold f.
      pose proof (clear_count j (tab f (id_count n).[i]) _ Hj Ha) as Hcc. lia.
  - rewrite E, Hcl. apply list_insert_id. by rewrite He.
Qed.

Lemma delete_spec : ∃ t' p',
  btree_delete t k id p = Some (t', p') ∧ tree_ok p' t' (ix_delete k id es) fp ∧ grown 0 p p' fp fp.
Proof using Hk Hn Hok.
  assert (grown 0 p p fp fp) as G0 by (by apply grown_refl).
  unfold btree_delete. destruct (Z.eqb_spec (root_node t) BTREE_INVALID_NODE) as [Hr|Hr].
  { exists t, p. pose proof (to_shape _ _ _ _ Hok) as Hs. rewrite Hr, Z.eqb_refl in Hs. destruct Hs as [-> ->]. done. }
  destruct (search_arrives p t k es fp Hk Hn Hok Hr) as (h & first & path & leaf & Hh & -> & lo' & hi' & pre & el & post & nxt' & _ & Hlin & Hlf & Hlc & Hes &
    Hb1 & Hb2 & Hb3 & Hpre & Hpost & Hin & _).
  assert (ix_delete k id es = pre ++ ix_delete k id el ++ post) as Hdel.
  { rewrite Hes, !ix_delete_app. rewrite (ix_delete_other k id Hk pre), (ix_delete_other k id Hk post); [done | |];
      apply Forall_forall; intros e He; [apply Hpost in He as [? ?] | apply Hpre in He as [? ?]]; (split; [done | lia]). }
  pose proof (leaf_find_spec _ _ _ _ _ Hlf k Hk) as Hfind. destruct (leaf_find k _) as [i|] eqn:Ef.
  - pose proof (leaf_delete_ok _ _ _ _ _ _ Hlf Ef) as Hd. destruct (find_up _ _ _) as [d|].
    + destruct Hd as [Hl' Hcount]. set (n' := set_id_active i d 0 _) in *.
      assert (Hrep : ∃ h first, rep (btree_nodes (set_node leaf n' p)) h (root_node t) 0 KEY_MAX (pre ++ ix_delete k id el ++ post) fp first BTREE_INVALID_NODE).
      { exists h, first. apply Hin; cbn [btree_nodes set_node]; [| by rewrite aget_upd_eq | by rewrite aget_upd_eq].
        intros j _ Hj. by rewrite aget_upd_ne. }
      pose proof (to_count _ _ _ _ Hok) as Hec. rewrite Hes, !ix_range_app, !length_app in Hec.
      assert (0 < length (ix_range None None el))%nat by lia. rewrite Hdel.
      destruct (in_place p t es fp Hok leaf n' _ (entry_count t - 1) Hr Hlin Hrep) as [Hok' [G1 G2 G3]].
      { rewrite !ix_range_app, !length_app. lia. }
      destruct (Z.eqb_spec (entry_count t) 0); [lia|]. eexists _, _. split; [done|]. split; [exact Hok'|].
      apply grown_refl; [done|]. intros j Hj. cbn. by rewrite aget_upd_ne by (intros ->; done).
    + exists t, p. by rewrite Hdel, Hd, <- Hes.
  - exists t, p. split_and!; [done | | done]. rewrite Hdel, (ix_delete_other k id Hk el), <- Hes; [done|].
    apply Forall_forall. intros e He. split; [by apply (entries_bounds _ _ _ _ (lo_ok _ _ _ _ _ Hlf)) | by apply Hfind].
Qed.

Lemma find_none es0 : Forall (fun e : entry => is_key e.1 ∧ kv e.1 ≠ kv k) es0 → List.find (fun e : entry => key_cmp e.1 k =? 0) es0 = None.
Proof using Hk.
  induction 1 as [|e es0 [He Hne] _ IH]; [done|]. cbn. rewrite key_cmp_eq by done. by destruct (Z.eqb_spec (kv e.1) (kv k)).
Qed.

Lemma find_app_none es1 es2 : Forall (fun e : entry => is_key e.1 ∧ kv e.1 ≠ kv k) es1 →
  List.find (fun e : entry => key_cmp e.1 k =? 0) (es1 ++ es2) = List.find (fun e : entry => key_cmp e.1 k =? 0) es2.
Proof using Hk.
  induction 1 as [|e es1 [He Hne] _ IH]; [done|]. cbn. rewrite key_cmp_eq by done. by destruct (Z.eqb_spec (kv e.1) (kv k)).
Qed.

Lemma find_at lo hi el i (e : entry) post : entries_ok lo hi el → el !! i = Some e → kv (e.1 : key) = kv k →
  List.find (fun e : entry => key_cmp e.1 k =? 0) (el ++ post) = Some e.
Proof using Hk.
  revert i. induction el as [|e0 el IH]; intros [|i] Hes E Hkk; [done|done| |]; apply entries_cons in Hes as (He & _ & _ & Hlt & Hes).
  - injection E as ->. cbn [app List.find]. rewrite key_cmp_eq by done. by rewrite Hkk, Z.eqb_refl.
  - cbn [app List.find]. rewrite key_cmp_eq by done. rewrite Forall_forall in Hlt. specialize (Hlt _ (list_elem_of_lookup_2 el i _ E)).
    destruct (Z.eqb_spec (kv e0.1) (kv k)); [lia|]. by apply IH with i.
Qed.

Lemma capped_spec : leaf_key_capped t k p = Some (ix_capped k es).
Proof using Hk Hn Hok.
  unfold leaf_key_capped. destruct (Z.eqb_spec (root_node t) BTREE_INVALID_NODE) as [Hr|Hr].
  { pose proof (to_shape _ _ _ _ Hok) as Hs. rewrite Hr, Z.eqb_refl in Hs. by destruct Hs as [-> ->]. }
  destruct (search_arrives p t k es fp Hk Hn Hok Hr) as (h & first & path & leaf & Hh & -> & lo' & hi' & pre & el & post & nxt' & _ & Hlin & Hlf & Hlc & -> &
    Hb1 & Hb2 & Hb3 & Hpre & Hpost & _).
  assert (Forall (fun e : entry => is_key e.1 ∧ kv e.1 ≠ kv k) pre) as Hp1 by (apply Forall_forall; intros e He; apply Hpre in He as [? ?]; split; [done | lia]).
  assert (Forall (fun e : entry => is_key e.1 ∧ kv e.1 ≠ kv k) post) as Hp2 by (apply Forall_forall; intros e He; apply Hpost in He as [? ?]; split; [done | lia]).
  unfold ix_capped. rewrite find_app_none by done.
  pose proof (leaf_find_spec _ _ _ _ _ Hlf k Hk) as Hfind. destruct (leaf_find k _) as [i|].
  - destruct Hfind as [Hi Hkv]. rewrite (find_at _ _ _ _ _ post (lo_ok _ _ _ _ _ Hlf) (leaf_ok_entry _ _ _ _ _ _ Hlf Hi) Hkv). done.
  - rewrite find_app_none, find_none; [done | done |]. apply Forall_forall. intros e He.
    split; [by apply (entries_bounds _ _ _ _ (lo_ok _ _ _ _ _ Hlf)) | by apply Hfind].
Qed.

End Delete.
