(* ===== verification/BTreeForest.v ===== *)
(** Range scans along the chain of leaves, and the trees of all indexes in the one node pool: an operation on one tree
    leaves the others as they are. *)
From stdpp Require Import base gmap list list_numbers.
From Stdlib Require Import ZArith Lia Sorted.
From S2P Require Import Prelude Bytes BTree BTreeLib BTreeLeaf BTreeInv BTreeSpec.
#[local] Open Scope Z_scope.
#[local] Open Scope carr_scope.

(** * The leaf chain *)

(** [m] leaves, linked from [q] to [nxt], that hold [es] one after the other. *)
Inductive chain (ns : gmap Z BTreeNode) : Z → list entry → Z → nat → Prop :=
| chain_nil q : chain ns q [] q 0
| chain_cons q e es r nxt m lo hi :
    q ≠ BTREE_INVALID_NODE → leaf_ok ns.[q] lo hi e r → chain ns r es nxt m → chain ns q (e ++ es) nxt (S m).

Lemma chain_app ns q es1 r m1 es2 nxt m2 : chain ns q es1 r m1 → chain ns r es2 nxt m2 → chain ns q (es1 ++ es2) nxt (m1 + m2).
Proof.
  induction 1 as [|q e es r nxt' m lo hi Hq Hl _ IH]; intros H2; [done|]. rewrite <- app_assoc. cbn. econstructor; [done | exact Hl | by apply IH].
Qed.

Definition valid (fp : list Z) : Prop := ∀ i, i ∈ fp → i ≠ BTREE_INVALID_NODE.

Lemma rep_chain ns h id lo hi es fp first nxt : rep ns h id lo hi es fp first nxt → valid fp →
  ∃ m, chain ns first es nxt m ∧ (m ≤ length fp)%nat.
Proof.
  revert id lo hi es fp first nxt. induction h as [|h IH]; intros id lo hi es fp first nxt H Hv.
  - destruct H as (Hl & _ & -> & ->). exists 1%nat. rewrite <- (app_nil_r es). split; [|done].
    econstructor; [apply Hv; by left | exact Hl | constructor].
  - destruct H as (_ & _ & fp' & -> & Hk). cbn [length].
    enough (∃ m, chain ns first es nxt m ∧ (m ≤ length fp')%nat) as (m & ? & ?) by (exists m; split; [done | lia]).
    assert (valid fp') as Hv' by (intros i Hi; apply Hv; by right). clear Hv. revert Hk Hv'.
    generalize (node_keys ns.[id]) (node_children ns.[id]). intros ks. revert lo es fp' first.
    induction ks as [|k ks IHk]; intros lo es fp first [|c cs] Hk Hv; [done| |done|].
    + destruct cs; [by eapply IH | done].
    + destruct Hk as (_ & _ & es1 & es2 & fp1 & fp2 & mid & -> & -> & H1 & Hk).
      apply IH in H1 as (m1 & C1 & L1); [|intros i Hi; apply Hv; rewrite elem_of_app; tauto].
      apply IHk in Hk as (m2 & C2 & L2); [|intros i Hi; apply Hv; rewrite elem_of_app; tauto].
      exists (m1 + m2)%nat. split; [by eapply chain_app | rewrite length_app; lia].
Qed.

(** The chain after the child a search goes to. *)
Lemma kids_suffix ns h ks cs lo hi es fp first nxt i x :
  kids (rep ns h) ks cs lo hi es fp first nxt → valid fp → lo ≤ x < hi →
  (i ≤ length ks)%nat → (∀ j k, (j < i)%nat → ks !! j = Some k → kv k ≤ x) → (∀ k, ks !! i = Some k → x < kv k) →
  ∃ c lo' hi' pre el post fpc f n m, cs !! i = Some c ∧ rep ns h c lo' hi' el fpc f n ∧ es = pre ++ el ++ post ∧ valid fpc ∧
    lo ≤ lo' ∧ lo' ≤ x < hi' ∧ (∀ e : entry, e ∈ pre → is_key e.1 ∧ kv e.1 < lo') ∧ chain ns n post nxt m ∧ (m + length fpc ≤ length fp)%nat.
Proof.
  revert cs lo es fp first i. induction ks as [|k ks IH]; intros [|c cs] lo es fp first i Hk Hv Hx Hi Hlt Hge; [done| |done|].
  - destruct cs; [|done]. cbn in Hi. assert (i = 0%nat) as -> by lia.
    exists c, lo, hi, [], es, [], fp, first, nxt, 0%nat. rewrite app_nil_r. split_and!; try done; try lia; [by intros e ?%elem_of_nil | constructor].
  - pose proof Hk as Hk0. destruct Hk as (Hkk & Hb & es1 & es2 & fp1 & fp2 & mid & -> & -> & Hc & Hk).
    assert (valid fp1) as Hv1 by (intros j Hj; apply Hv; rewrite elem_of_app; tauto).
    assert (valid fp2) as Hv2 by (intros j Hj; apply Hv; rewrite elem_of_app; tauto). destruct i as [|i].
    + specialize (Hge k eq_refl). assert (∃ m, chain ns mid es2 nxt m ∧ (m ≤ length fp2)%nat) as (m & C & L).
      { clear -Hk Hv2. revert Hk Hv2. generalize (kv k). revert cs es2 fp2 mid. induction ks as [|k' ks IHk]; intros [|c cs] es fp first lo Hk Hv; [done| |done|].
        - destruct cs; [by eapply rep_chain | done].
        - destruct Hk as (_ & _ & es1 & es2 & fp1 & fp2 & mid & -> & -> & H1 & Hk).
          apply rep_chain in H1 as (m1 & C1 & L1); [|intros i Hi; apply Hv; rewrite elem_of_app; tauto].
          apply IHk in Hk as (m2 & C2 & L2); [|intros i Hi; apply Hv; rewrite elem_of_app; tauto].
          exists (m1 + m2)%nat. split; [by eapply chain_app | rewrite length_app; lia]. }
      exists c, lo, (kv k), [], es1, es2, fp1, first, mid, m. rewrite length_app. split_and!; try done; try lia. by intros e ?%elem_of_nil.
    + assert (kv k ≤ x) by (apply (Hlt 0%nat k); [lia | done]).
      destruct (IH cs (kv k) es2 fp2 mid i Hk Hv2) as (c' & lo' & hi' & pre & el & post & fpc & f & n & m & Hci & Hr & -> & Hvc & Hlo & Hx' & Hpre & C & L);
        [lia | cbn in Hi; lia | intros j k' Hj; apply (Hlt (S j)); lia | done |].
      exists c', lo', hi', (es1 ++ pre), el, post, fpc, f, n, m. rewrite length_app, <- app_assoc. split_and!; try done; try lia.
      intros e [He|He]%elem_of_app; [|by apply Hpre]. apply (entries_bounds _ _ _ _ (rep_bounded _ _ _ _ _ _ _ _ _ Hc)) in He as [? ?]. split; [done | lia].
Qed.

(** The chain from the leaf a search arrives at: what is before it is below the key. *)
Lemma descend_chain route x ns (Hroute : routes route x) h : ∀ id lo hi es fp first nxt path fuel,
  rep ns h id lo hi es fp first nxt → valid fp → 0 ≤ lo → lo ≤ x < hi → (h < fuel)%nat →
  ∃ path' leaf pre suf m, descend fuel route ns id path = Some (path', leaf) ∧ es = pre ++ suf ∧ chain ns leaf suf nxt m ∧ (m ≤ length fp)%nat ∧
    (∀ e : entry, e ∈ pre → is_key e.1 ∧ kv e.1 < x).
Proof.
  induction h as [|h IH]; intros id lo hi es fp first nxt path fuel Hrep Hv Hlo0 Hx Hfuel; destruct fuel as [|fuel]; [lia| |lia|].
  - pose proof Hrep as (Hl & _ & -> & ->). cbn [descend]. destruct (Z.eqb_spec (is_leaf ns.[id]) 0); [by destruct (lo_leaf _ _ _ _ _ Hl)|].
    exists path, id, [], es, 1%nat. split_and!; try done; [|by intros e ?%elem_of_nil]. rewrite <- (app_nil_r es).
    econstructor; [apply Hv; by left | exact Hl | constructor].
  - destruct Hrep as (Hleaf & Hkc & fp' & -> & Hk). cbn [descend length]. rewrite Hleaf. cbn [negb Z.eqb].
    pose proof (kids_keys _ _ _ _ _ _ _ _ _ Hk) as Hks.
    destruct (Hroute ns.[id] lo) as (Hri & Hr1 & Hr2); [lia | | lia |].
    { eapply Forall_impl; [exact Hks|]. intros k [? ?]. split; [done | lia]. }
    set (i := Z.to_nat (route ns.[id])) in *.
    assert (i ≤ length (node_keys ns.[id]))%nat as Hil by (rewrite node_keys_length; lia).
    assert (valid fp') as Hv' by (intros j Hj; apply Hv; by right).
    destruct (kids_suffix _ _ _ _ _ _ _ _ _ _ i x Hk Hv' Hx Hil Hr1 Hr2) as
      (c & lo' & hi' & pre & el & post & fpc & f & n & m & Hci & Hc & -> & Hvc & Hlo' & Hx' & Hpre & C & L).
    assert ((children ns.[id]).[route ns.[id]] = c) as -> by (unfold i in Hci; rewrite node_child_at in Hci by lia; by injection Hci).
    destruct (IH c lo' hi' el fpc f n (id :: path) fuel Hc Hvc ltac:(lia) Hx' ltac:(lia)) as (path' & leaf & pre' & suf & m' & Ed & -> & C' & L' & Hpre').
    exists path', leaf, (pre ++ pre'), (suf ++ post), (m' + m)%nat. rewrite <- !app_assoc. split_and!; [done | done | by eapply chain_app | lia |].
    intros e [He|He]%elem_of_app; [apply Hpre in He as [? ?]; split; [done | lia] | by apply Hpre'].
Qed.

(** * The walk *)

Section Walk.
Context (lo hi : option key) (max : Z).
Implicit Types (acc : Z * list RowId).

Definition emit_all (l : list RowId) acc : Z * list RowId := fold_left (fun acc id => emit max id acc) l acc.

(** The walk over a list of entries. *)
Fixpoint scan_list (es : list entry) acc : bool * (Z * list RowId) :=
  match es with
  | [] => (false, acc)
  | e :: es =>
      if below lo e.1 then scan_list es acc
      else if above hi e.1 then (true, acc)
      else scan_list es (emit_all (active_rows e.2) acc)
  end.

Lemma scan_list_app es1 es2 acc :
  scan_list (es1 ++ es2) acc = let '(stop, acc) := scan_list es1 acc in if stop then (true, acc) else scan_list es2 acc.
Proof.
  revert acc. induction es1 as [|e es1 IH]; intros acc; cbn [app scan_list]; [done|].
  destruct (below lo e.1); [apply IH|]. destruct (above hi e.1); [done | apply IH].
Qed.

Lemma emit_slot_spec i n acc : emit_slot max i n acc = emit_all (active_rows (entry_at n i).2) acc.
Proof.
  unfold emit_slot. cbn [snd entry_at]. unfold active_rows. cbn [d_ids].
  set (f := fun d => ((ids n).[i].[d], (id_active n).[i].[d])). destruct (decide (0 ≤ (id_count n).[i])) as [Hc|Hc].
  2:{ rewrite tab_nil by lia. by replace (Z.to_nat (id_count n).[i]) with 0%nat by lia. }
  rewrite <- (Z2Nat.id (id_count n).[i]) at 2 by done. generalize (Z.to_nat (id_count n).[i]). clear Hc. intros m.
  induction m as [|m IH]; [done|]. rewrite for_up_S_r, IH. replace (Z.of_nat (S m)) with (Z.of_nat m + 1) by lia.
  rewrite (tab_snoc f f (Z.of_nat m) (f (Z.of_nat m))) by (done || lia). rewrite filter_app, map_app. unfold emit_all. rewrite fold_left_app.
  rewrite Z.add_0_l. destruct (Z.eqb_spec (id_active n).[i].[Z.of_nat m] 0) as [E|E].
  - rewrite filter_cons_False by (cbn; tauto). done.
  - rewrite filter_cons_True by done. done.
Qed.

Lemma scan_leaf_spec n acc : 0 ≤ key_count n → scan_leaf (Z.to_nat (key_count n)) 0 lo hi max n acc = scan_list (leaf_entries n) acc.
Proof.
  intros Hc. unfold leaf_entries, tab. assert (∀ m i acc, scan_leaf m i lo hi max n acc = scan_list (entry_at n <$> seqZ i (Z.of_nat m)) acc) as H.
  2:{ rewrite H, Z2Nat.id by done. done. }
  intros m. induction m as [|m IH]; intros i acc'; [done|]. cbn [scan_leaf]. rewrite seqZ_cons by lia.
  replace (Z.pred (Z.of_nat (S m))) with (Z.of_nat m) by lia. rewrite fmap_cons. cbn [scan_list]. change (entry_at n i).1 with (keys n).[i].
  rewrite !IH, emit_slot_spec. done.
Qed.

Lemma scan_chain_spec ns q es m fuel acc : chain ns q es BTREE_INVALID_NODE m → (m ≤ fuel)%nat →
  scan_chain fuel q lo hi max ns acc = Some (scan_list es acc).2.
Proof.
  remember BTREE_INVALID_NODE as nxt eqn:En. intros C. revert fuel acc. induction C as [q|q e es r nxt m l u Hq Hl C IH]; intros fuel acc Hf.
  - subst q. destruct fuel; cbn [scan_chain]; by rewrite Z.eqb_refl.
  - destruct fuel as [|fuel]; [lia|]. cbn [scan_chain]. rewrite <- En. destruct (Z.eqb_spec q nxt) as [E|_]; [congruence|].
    rewrite scan_leaf_spec by (apply (lo_count _ _ _ _ _ Hl)). rewrite (lo_es _ _ _ _ _ Hl), scan_list_app.
    destruct (scan_list e acc) as [[|] acc']; [done|]. rewrite (lo_next _ _ _ _ _ Hl). apply IH; [done | lia].
Qed.

End Walk.

(** * The result *)

Definition bound_ok (b : option key) : Prop := match b with Some k => is_key k | None => True end.

Section Result.
Context (lo hi : option key) (max : Z) (Hlo : bound_ok lo) (Hhi : bound_ok hi).

Lemma below_mono (k k' : key) : is_key k → is_key k' → kv k < kv k' → below lo k' = true → below lo k = true.
Proof using Hlo.
  intros Hk Hk' Hlt. destruct lo as [l|]; [|done]. cbn. rewrite !key_cmp_lt by done. zcase.
Qed.

Lemma above_mono (k k' : key) : is_key k → is_key k' → kv k < kv k' → above hi k = true → above hi k' = true.
Proof using Hhi.
  intros Hk Hk' Hlt. destruct hi as [h|]; [|done]. cbn. rewrite !key_cmp_gt by done. zcase.
Qed.

Lemma ix_range_none es : (∀ e : entry, e ∈ es → in_range lo hi e.1 = false) → ix_range lo hi es = [].
Proof.
  induction es as [|e es IH]; intros H; [done|]. rewrite ix_range_cons, (H e) by (by left). apply IH. intros e' He'. apply H. by right.
Qed.

Lemma scan_list_range l u es acc : entries_ok l u es → (scan_list lo hi max es acc).2 = emit_all max (ix_range lo hi es) acc.
Proof using Hlo Hhi.
  revert acc. induction es as [|e es IH]; intros acc Hes; [done|]. apply entries_cons in Hes as (He & _ & _ & Hlt & Hes).
  cbn [scan_list]. rewrite ix_range_cons. unfold in_range. destruct (below lo e.1) eqn:Eb; cbn [negb andb]; [by apply IH|].
  destruct (above hi e.1) eqn:Ea; cbn [negb].
  - rewrite ix_range_none; [done|]. intros e' He'. rewrite Forall_forall in Hlt. unfold in_range.
    rewrite (above_mono e.1 e'.1 He) by (done || (by apply Hlt) || (by apply (entries_bounds _ _ _ _ Hes))). by rewrite andb_false_r.
  - rewrite IH by done. unfold emit_all. by rewrite fold_left_app.
Qed.

Lemma emit_all_spec l n out : 0 ≤ n → n + Z.of_nat (length l) < 2 ^ 32 →
  emit_all max l (n, out) = (n + Z.of_nat (length l), out ++ take (Z.to_nat (max - n)) l).
Proof.
  revert n out. induction l as [|id l IH]; intros n out H0 Hn.
  { cbn. rewrite take_nil, app_nil_r. f_equal. lia. }
  change (emit_all max (id :: l) (n, out)) with (emit_all max l (emit max id (n, out))).
  unfold emit. cbn [fst snd length] in *. rewrite u32_small by lia. rewrite IH by lia. f_equal; [lia|].
  destruct (Z.ltb_spec n max).
  - rewrite <- app_assoc. f_equal. replace (Z.to_nat (max - n)) with (S (Z.to_nat (max - (n + 1)))) by lia. done.
  - f_equal. replace (Z.to_nat (max - n)) with 0%nat by lia. replace (Z.to_nat (max - (n + 1))) with 0%nat by lia. done.
Qed.

(** A range scan finds the rows between its bounds in key order, and stores the first of them. *)
Lemma range_spec p t es fp : btree_next_free_node p ≤ BTREE_MAX_NODES → tree_ok p t es fp →
  range_scan_internal t lo hi max p = Some (Z.of_nat (length (ix_range lo hi es)), take (Z.to_nat max) (ix_range lo hi es)).
Proof using Hlo Hhi.
  intros Hn Hok. pose proof (tree_rows p t es fp lo hi Hok Hn) as Hrows. unfold range_scan_internal.
  destruct (Z.eqb_spec (root_node t) BTREE_INVALID_NODE) as [Hr|Hr].
  { pose proof (to_shape _ _ _ _ Hok) as Hs. rewrite Hr, Z.eqb_refl in Hs. destruct Hs as [-> ->]. cbn. by rewrite take_nil. }
  destruct Hok as [Hs HN HA _]. destruct (Z.eqb_spec (root_node t) BTREE_INVALID_NODE); [done|]. destruct Hs as (h & first & Hrep).
  pose proof (height_bound _ _ _ _ _ _ _ _ _ Hrep HN HA Hn) as Hh. pose proof (footprint_size _ _ HN HA) as Hsz.
  assert (valid fp) as Hv by (intros i Hi; by eapply invalid_big).
  set (x := match lo with Some l => kv l | None => 0 end).
  assert (routes (range_route lo) x ∧ 0 ≤ x < KEY_MAX) as [Hroute Hx].
  { subst x. clear Hrows. destruct lo as [l|]; [split; [by apply routes_child | by apply key_bound] | split; [apply routes_first | done]]. }
  destruct (descend_chain (range_route lo) x (btree_nodes p) Hroute h _ _ _ _ _ _ _ [] (Z.to_nat BTREE_MAX_NODES) Hrep Hv ltac:(lia) Hx)
    as (path & leaf & pre & suf & m & Ed & -> & C & L & Hpre); [unfold BTREE_MAX_NODES; lia|].
  unfold leaf_for. rewrite Ed. pose proof (rep_bounded _ _ _ _ _ _ _ _ _ Hrep) as Hes. apply entries_app in Hes as (_ & Hes & _).
  rewrite (scan_chain_spec lo hi max _ _ _ m) by (done || unfold BTREE_MAX_NODES in *; lia). rewrite (scan_list_range _ _ _ _ Hes).
  assert (ix_range lo hi pre = []) as Epre.
  { apply ix_range_none. intros e He. apply Hpre in He as [Hk He]. unfold in_range. subst x. destruct lo as [l|]; cbn [below].
      - rewrite key_cmp_lt by done. zcase.
      - pose proof (key_bound _ Hk). lia. }
  rewrite ix_range_app, Epre in *. cbn [app] in *. rewrite emit_all_spec by lia. rewrite Z.sub_0_r. done.
Qed.

End Result.

(** The trees [ts] hold the entries [E], each in nodes of its own. *)
Definition forest (p : Pool) (ts : gmap Z Tree) (E : gmap Z (list entry)) : Prop :=
  0 ≤ btree_next_free_node p ≤ BTREE_MAX_NODES ∧ ∃ fp : Z → list Z,
    (∀ i, is_Some (ts !! i) ↔ is_Some (E !! i)) ∧
    (∀ i t es, ts !! i = Some t → E !! i = Some es → tree_ok p t es (fp i)) ∧
    (∀ i j, i ≠ j → is_Some (ts !! i) → is_Some (ts !! j) → fp i ## fp j).

(** A tree in nodes that did not change. *)
Lemma tree_frame p p' t es fp : tree_ok p t es fp → btree_next_free_node p ≤ btree_next_free_node p' →
  (∀ i, i ∈ fp → (btree_nodes p').[i] = (btree_nodes p).[i]) → tree_ok p' t es fp.
Proof.
  intros [Hs Hn Ha Hc] Hle He. split; [|done| |done].
  - destruct (_ =? _); [done|]. destruct Hs as (h & first & R). exists h, first. by eapply rep_frame.
  - eapply Forall_impl; [exact Ha|]. cbn. lia.
Qed.

Section Forest.
Context (p : Pool) (ts : gmap Z Tree) (E : gmap Z (list entry)) (Hf : forest p ts E).

(** One tree replaced by its successor. *)
Lemma forest_step i t es t' es' m p' fp fp' (fps : Z → list Z) :
  fps i = fp →
  (∀ j, is_Some (ts !! j) ↔ is_Some (E !! j)) →
  (∀ j t es, ts !! j = Some t → E !! j = Some es → tree_ok p t es (fps j)) →
  (∀ j k, j ≠ k → is_Some (ts !! j) → is_Some (ts !! k) → fps j ## fps k) →
  ts !! i = Some t → E !! i = Some es → tree_ok p' t' es' fp' → grown m p p' fp fp' → btree_next_free_node p' ≤ BTREE_MAX_NODES →
  forest p' (<[i := t']> ts) (<[i := es']> E).
Proof using Hf.
  intros Hfi Hd Ht Hdj Hi HEi Ht' [Hn Hfp Hsame] Hmax. destruct Hf as [Hp _]. split; [lia|].
  assert (∀ j tj, j ≠ i → ts !! j = Some tj → ∀ x, x ∈ fps j → x < btree_next_free_node p ∧ x ∉ fp) as Hj.
  { intros j tj Hne Hj x Hx. destruct (proj1 (Hd j) (mk_is_Some _ _ Hj)) as [ej Hej]. destruct (Ht j tj ej Hj Hej) as [_ _ Ha _].
    rewrite Forall_forall in Ha. specialize (Ha x Hx). cbn in Ha. split; [lia|]. rewrite <- Hfi. intros Hx'. by apply (Hdj j i Hne (mk_is_Some _ _ Hj) (mk_is_Some _ _ Hi) x). }
  exists (fun j => if decide (j = i) then fp' else fps j). split_and!.
  - intros j. destruct (decide (j = i)) as [->|Hne]; [by rewrite !lookup_insert_eq|]. rewrite !lookup_insert_ne by done. apply Hd.
  - intros j tj ej. destruct (decide (j = i)) as [->|Hne].
    + rewrite !lookup_insert_eq. by intros [= <-] [= <-].
    + rewrite !lookup_insert_ne by done. intros Hj' Hej. eapply tree_frame; [by apply Ht | lia|].
      intros x Hx. destruct (Hj j tj Hne Hj' x Hx). apply Hsame; done.
  - assert (∀ j, j ≠ i → is_Some (ts !! j) → fps j ## fp') as Hx'.
    { intros j Hne [tj Hj'] x Hx Hx'. destruct (Hj j tj Hne Hj' x Hx) as [Hlt Hni]. rewrite Hfp in Hx'. apply elem_of_app in Hx' as [?|Hs]; [done|].
      apply elem_of_seqZ in Hs. lia. }
    intros j k Hne Hjs Hks. destruct (decide (j = i)) as [->|Hji], (decide (k = i)) as [->|Hki]; [done | | |].
    + rewrite lookup_insert_ne in Hks by done. intros x Hx Hk. by apply (Hx' k Hki Hks x).
    + rewrite lookup_insert_ne in Hjs by done. by apply Hx'.
    + rewrite lookup_insert_ne in Hjs, Hks by done. by apply Hdj.
Qed.

Lemma forest_insert i t es k id : is_key k → btree_next_free_node p + 16 ≤ BTREE_MAX_NODES → ts !! i = Some t → E !! i = Some es →
  ∃ t' p', btree_insert t k id p = Some ((ix_insert k id es).1, t', p') ∧ forest p' (<[i := t']> ts) (<[i := (ix_insert k id es).2]> E) ∧
    btree_next_free_node p ≤ btree_next_free_node p' ≤ btree_next_free_node p + 16.
Proof using Hf.
  intros Hk Hr Hi HEi. pose proof Hf as (Hp & fps & Hd & Ht & Hdj).
  destruct (insert_spec p t k id es (fps i) Hk ltac:(split; lia) (Ht i t es Hi HEi)) as (t' & p' & fp' & Hins & Hok & Hg).
  exists t', p'. split; [done|]. pose proof (g_next _ _ _ _ _ Hg). split; [|lia]. by eapply forest_step; last lia.
Qed.

Lemma forest_delete i t es k id : is_key k → ts !! i = Some t → E !! i = Some es →
  ∃ t' p', btree_delete t k id p = Some (t', p') ∧ forest p' (<[i := t']> ts) (<[i := ix_delete k id es]> E) ∧
    btree_next_free_node p' = btree_next_free_node p.
Proof using Hf.
  intros Hk Hi HEi. pose proof Hf as (Hp & fps & Hd & Ht & Hdj).
  destruct (delete_spec p t k id es (fps i) Hk ltac:(lia) (Ht i t es Hi HEi)) as (t' & p' & Hdel & Hok & Hg).
  exists t', p'. split; [done|]. pose proof (g_next _ _ _ _ _ Hg). split; [|lia]. by eapply forest_step; last lia.
Qed.

Lemma forest_capped i t es k : is_key k → ts !! i = Some t → E !! i = Some es → leaf_key_capped t k p = Some (ix_capped k es).
Proof using Hf. intros Hk Hi HEi. destruct Hf as (Hp & fps & Hd & Ht & Hdj). eapply capped_spec; [done | lia | by apply (Ht i)]. Qed.

Lemma forest_range i t es lo hi max : bound_ok lo → bound_ok hi → ts !! i = Some t → E !! i = Some es →
  range_scan_internal t lo hi max p = Some (Z.of_nat (length (ix_range lo hi es)), take (Z.to_nat max) (ix_range lo hi es)).
Proof using Hf. intros Hlo Hhi Hi HEi. destruct Hf as (Hp & fps & Hd & Ht & Hdj). eapply range_spec; [done | done | lia | by apply (Ht i)]. Qed.

(** A new, empty tree. *)
Lemma forest_open i : forest p (<[i := mkTree BTREE_INVALID_NODE 0]> ts) (<[i := []]> E).
Proof using Hf.
  destruct Hf as (Hp & fps & Hd & Ht & Hdj). split; [done|]. exists (fun j => if decide (j = i) then [] else fps j). split_and!.
  - intros j. destruct (decide (j = i)) as [->|Hne]; [by rewrite !lookup_insert_eq|]. rewrite !lookup_insert_ne by done. apply Hd.
  - intros j tj ej. destruct (decide (j = i)) as [->|Hne].
    + rewrite !lookup_insert_eq. intros [= <-] [= <-]. split; [done | constructor | constructor | done].
    + rewrite !lookup_insert_ne by done. apply Ht.
  - intros j k Hne Hjs Hks. destruct (decide (j = i)) as [->|Hji], (decide (k = i)) as [->|Hki]; [done | | |].
    + by intros x Hx%elem_of_nil.
    + by intros x _ Hx%elem_of_nil.
    + rewrite lookup_insert_ne in Hjs, Hks by done. by apply Hdj.
Qed.

Lemma forest_close i : forest p (delete i ts) (delete i E).
Proof using Hf.
  destruct Hf as (Hp & fps & Hd & Ht & Hdj). split; [done|]. exists fps. split_and!.
  - intros j. destruct (decide (j = i)) as [->|Hne]; [rewrite !lookup_delete_eq; split; by intros [? ?]|]. rewrite !lookup_delete_ne by done. apply Hd.
  - intros j tj ej [Hne Hj]%lookup_delete_Some [_ Hej]%lookup_delete_Some. by apply Ht.
  - intros j k Hne [tj [Hji Hj]%lookup_delete_Some] [tk [Hki Hk]%lookup_delete_Some]. apply Hdj; eauto.
Qed.

End Forest.

Lemma forest_boot : forest (mkPool ∅ 0) ∅ ∅.
Proof.
  split; [done|]. exists (fun _ => []). split_and!.
  - intros i. rewrite !lookup_empty. split; by intros [? [=]].
  - by intros i t es [=].
  - by intros i j Hne [? [=]].
Qed.

(** * Runs *)

(** Requests on the trees, by index slot. *)
Inductive ix_op :=
| IxCreate (i : Z)
| IxDrop (i : Z)
| IxInsert (i : Z) (k : key) (id : RowId)
| IxDelete (i : Z) (k : key) (id : RowId)
| IxRange (i : Z) (lo hi : option key) (max : Z)
| IxCapped (i : Z) (k : key).

Inductive ix_result := RNone | RCode (rc : Z) | RRows (n : Z) (ids : list RowId).

Definition ix_op_ok (o : ix_op) : Prop :=
  match o with
  | IxInsert _ k _ | IxDelete _ k _ | IxCapped _ k => is_key k
  | IxRange _ lo hi _ => bound_ok lo ∧ bound_ok hi
  | _ => True
  end.

(** The program: trees over a pool; [None] when an operation goes outside its arrays. *)
Definition tree_step (o : ix_op) (s : gmap Z Tree * Pool) : option (ix_result * (gmap Z Tree * Pool)) :=
  let '(ts, p) := s in
  match o with
  | IxCreate i => Some (RNone, (<[i := mkTree BTREE_INVALID_NODE 0]> ts, p))
  | IxDrop i => Some (RNone, (delete i ts, p))
  | IxInsert i k id =>
      match ts !! i with
      | None => Some (RNone, s)
      | Some t => '(rc, t, p) ← btree_insert t k id p; Some (RCode rc, (<[i := t]> ts, p))
      end
  | IxDelete i k id =>
      match ts !! i with None => Some (RNone, s) | Some t => '(t, p) ← btree_delete t k id p; Some (RNone, (<[i := t]> ts, p)) end
  | IxRange i lo hi max =>
      match ts !! i with None => Some (RNone, s) | Some t => '(n, ids) ← range_scan_internal t lo hi max p; Some (RRows n ids, s) end
  | IxCapped i k =>
      match ts !! i with None => Some (RNone, s) | Some t => c ← leaf_key_capped t k p; Some (RCode c, s) end
  end.

(** The reference: a sorted list of keys for each slot. *)
Definition list_step (o : ix_op) (E : gmap Z (list entry)) : ix_result * gmap Z (list entry) :=
  match o with
  | IxCreate i => (RNone, <[i := []]> E)
  | IxDrop i => (RNone, delete i E)
  | IxInsert i k id =>
      match E !! i with None => (RNone, E) | Some es => (RCode (ix_insert k id es).1, <[i := (ix_insert k id es).2]> E) end
  | IxDelete i k id => match E !! i with None => (RNone, E) | Some es => (RNone, <[i := ix_delete k id es]> E) end
  | IxRange i lo hi max =>
      match E !! i with
      | None => (RNone, E)
      | Some es => (RRows (Z.of_nat (length (ix_range lo hi es))) (take (Z.to_nat max) (ix_range lo hi es)), E)
      end
  | IxCapped i k => match E !! i with None => (RNone, E) | Some es => (RCode (ix_capped k es), E) end
  end.

Fixpoint tree_run (os : list ix_op) (s : gmap Z Tree * Pool) : option (list ix_result) :=
  match os with
  | [] => Some []
  | o :: os => '(r, s) ← tree_step o s; rs ← tree_run os s; Some (r :: rs)
  end.
Fixpoint list_run (os : list ix_op) (E : gmap Z (list entry)) : list ix_result :=
  match os with [] => [] | o :: os => let '(r, E) := list_step o E in r :: list_run os E end.

Definition is_insert (o : ix_op) : bool := match o with IxInsert _ _ _ => true | _ => false end.
Fixpoint inserts (os : list ix_op) : Z := match os with [] => 0 | o :: os => (if is_insert o then 1 else 0) + inserts os end.

Lemma tree_step_refines o ts p E : forest p ts E → ix_op_ok o → (is_insert o = true → btree_next_free_node p + 16 ≤ BTREE_MAX_NODES) →
  ∃ ts' p', tree_step o (ts, p) = Some ((list_step o E).1, (ts', p')) ∧ forest p' ts' (list_step o E).2 ∧
    btree_next_free_node p' ≤ btree_next_free_node p + (if is_insert o then 16 else 0).
Proof.
  intros Hf Hok Hr. pose proof Hf as (Hp & fps & Hd & _). destruct o as [i|i|i k id|i k id|i lo hi max|i k]; cbn [tree_step list_step is_insert ix_op_ok] in *.
  - eexists _, p. split; [done|]. split; [by apply forest_open | lia].
  - eexists _, p. split; [done|]. split; [by apply forest_close | lia].
  - specialize (Hd i). destruct (ts !! i) as [t|] eqn:Hi, (E !! i) as [es|] eqn:HE.
    + destruct (forest_insert p ts E Hf i t es k id Hok (Hr eq_refl) Hi HE) as (t' & p' & -> & Hf' & Hn). eexists _, p'. split; [done|]. split; [done | lia].
    + by destruct (proj1 Hd).
    + by destruct (proj2 Hd).
    + exists ts, p. split; [done|]. split; [done | lia].
  - specialize (Hd i). destruct (ts !! i) as [t|] eqn:Hi, (E !! i) as [es|] eqn:HE.
    + destruct (forest_delete p ts E Hf i t es k id Hok Hi HE) as (t' & p' & -> & Hf' & Hn). eexists _, p'. split; [done|]. split; [done | lia].
    + by destruct (proj1 Hd).
    + by destruct (proj2 Hd).
    + exists ts, p. split; [done|]. split; [done | lia].
  - specialize (Hd i). destruct (ts !! i) as [t|] eqn:Hi, (E !! i) as [es|] eqn:HE; [| by destruct (proj1 Hd) | by destruct (proj2 Hd) |].
    + destruct Hok. rewrite (forest_range p ts E Hf i t es lo hi max) by done. exists ts, p. split; [done|]. split; [done | lia].
    + exists ts, p. split; [done|]. split; [done | lia].
  - specialize (Hd i). destruct (ts !! i) as [t|] eqn:Hi, (E !! i) as [es|] eqn:HE; [| by destruct (proj1 Hd) | by destruct (proj2 Hd) |].
    + rewrite (forest_capped p ts E Hf i t es k) by done. exists ts, p. split; [done|]. split; [done | lia].
    + exists ts, p. split; [done|]. split; [done | lia].
Qed.

Lemma tree_run_refines os : ∀ ts p E, forest p ts E → Forall ix_op_ok os → btree_next_free_node p + 16 * inserts os ≤ BTREE_MAX_NODES →
  tree_run os (ts, p) = Some (list_run os E).
Proof.
  induction os as [|o os IH]; intros ts p E Hf Hok Hr; [done|]. apply Forall_cons in Hok as [Ho Hok]. cbn [tree_run list_run inserts] in *.
  assert (0 ≤ inserts os) as H0. { clear. induction os as [|o os IH]; cbn; [done|]. destruct (is_insert o); lia. }
  destruct (tree_step_refines o ts p E Hf Ho) as (ts' & p' & -> & Hf' & Hn). { intros Hi. rewrite Hi in Hr. lia. }
  destruct (list_step o E) as [r E'] eqn:El. cbn in *. rewrite (IH ts' p' E' Hf' Hok); [done|]. destruct (is_insert o); lia.
Qed.

(** C11: the index trees refine sorted lists.  Any sequence of creating and dropping indexes and of inserting, deleting, range-scanning and
    testing keys, on any number of trees in the one node pool, answers as it would on lists of keys in order, each with its row ids in the order
    they came and the mark of a key that ran out of places; no access leaves a node, as long as sixteen nodes are left for each insertion. *)
Theorem btree_refines os : Forall ix_op_ok os → 16 * inserts os ≤ BTREE_MAX_NODES → tree_run os (∅, mkPool ∅ 0) = Some (list_run os ∅).
Proof. intros Hok Hn. apply tree_run_refines; [apply forest_boot | done | exact Hn]. Qed.
