(* ===== verification/Authority.v ===== *)
(** Who may do what: the object catalog, roles, partitions and tenants, groups, authorization lists and
    database grants (kernel/object_catalog.c, partition.c, tenant.c, group_profile.c, authlist.c, database.c).

    The state is the tables of those files.  Left out are the parts of the operations that reach other
    components: the legacy record store, the vector store and the binary store that an object's release
    notifies, the processes, frames and services that end with a partition, connection quotas, persistence,
    replication to other nodes and the audit log. *)
From stdpp Require Import base gmap list.
From Stdlib Require Import ZArith Lia.
From S2P Require Import Prelude Bytes.
#[local] Open Scope Z_scope.
#[local] Open Scope carr_scope.

(** * Data *)

Definition PARTITION_SYSTEM : Z := 0.
Definition PARTITION_DEFAULT : Z := 0.
Definition PARTITION_MAX : Z := 256.
Definition PARTITION_ASSIGN_MAX : Z := 4096.
Definition PARTITION_NAME_LEN : Z := 32.
Definition PARTITION_NONE : Z := 0xFFFFFFFF.
Definition ROLE_TABLE_MAX : Z := 64.
Definition GROUP_TABLE_MAX : Z := 64.
Definition GROUP_MAX_MEMBERS : Z := 16.
Definition GROUP_NAME_LEN : Z := 32.
Definition AUTHLIST_MAX : Z := 16.
Definition AUTHLIST_NAME_LEN : Z := 32.
Definition AUTHLIST_MAX_OBJECTS : Z := 8.
Definition AUTHLIST_MAX_GRANTEE_UIDS : Z := 16.
Definition AUTHLIST_MAX_GRANTEE_GROUPS : Z := 8.
Definition DATABASE_MAX : Z := 256.
Definition DATABASE_NAME_LEN : Z := 32.
Definition DATABASE_GRANT_MAX : Z := 1024.
Definition DATABASE_GRANT_MAX_UIDS : Z := 16.
Definition DATABASE_GRANT_MAX_GROUPS : Z := 8.
Definition TENANT_MAX : Z := 256.
Definition TENANT_NAME_LEN : Z := 32.
Definition CATALOG_MAX_OBJECTS : Z := 128.
Definition OBJECT_NAME_LEN : Z := 64.
Definition OBJ_VADDR_BASE : Z := 0x0001000000000000.
Definition PAGE_SIZE_BYTES : Z := 4096.
Definition PERM_READ : Z := 1.
Definition PERM_WRITE : Z := 2.
Definition PERM_EXECUTE : Z := 4.
Definition PERM_OWNER : Z := 8.

Inductive SLSRole := ROLE_SYSTEM_KERNEL | ROLE_DB_ADMIN | ROLE_APP_USER | ROLE_GUEST.
#[export] Instance SLSRole_eq_dec : EqDecision SLSRole.
Proof. solve_decision. Defined.

Inductive SLSObjectType :=
| OBJ_TYPE_SYSTEM_METADATA | OBJ_TYPE_DB_TABLE | OBJ_TYPE_DB_INDEX | OBJ_TYPE_HEAP_BLOB | OBJ_TYPE_SERVICE_PROCESS
| OBJ_TYPE_WEB_APP | OBJ_TYPE_JOURNAL | OBJ_TYPE_PROGRAM | OBJ_TYPE_STREAM | OBJ_TYPE_AGENT | OBJ_TYPE_WORKFLOW.
#[export] Instance SLSObjectType_eq_dec : EqDecision SLSObjectType.
Proof. solve_decision. Defined.

Inductive SLSStorageTier := STORAGE_TIER_L1_CACHE | STORAGE_TIER_L2_DRAM | STORAGE_TIER_L3_SSD.

Record SLSObjectEntry := mkObj {
  object_id : Z;
  o_name : text;
  o_type : SLSObjectType;
  base_vaddr : Z;
  size_pages : Z;
  owner_uid : Z;
  storage_tier : SLSStorageTier;
  owner_role : SLSRole;
  perm_mask : Z;
  o_active : Z;
  o_partition : Z;
  uses_rowstore : Z;
  o_database : Z
}.
#[export] Instance CZero_object : CZero SLSObjectEntry :=
  mkObj 0 [] OBJ_TYPE_SYSTEM_METADATA 0 0 0 STORAGE_TIER_L1_CACHE ROLE_SYSTEM_KERNEL 0 0 0 0 0.

Record SLSRoleEntry := mkRole { r_uid : Z; r_role : SLSRole; r_active : Z }.
#[export] Instance CZero_role : CZero SLSRoleEntry := mkRole 0 ROLE_SYSTEM_KERNEL 0.

Record SLSGroupEntry := mkGroup {
  g_name : text; group_role : SLSRole; member_uids : gmap Z Z; member_count : Z; g_active : Z; g_partition : Z
}.
#[export] Instance CZero_group : CZero SLSGroupEntry := mkGroup [] ROLE_SYSTEM_KERNEL ∅ 0 0 0.

Record SLSAuthListObjectGrant := mkGrant { gr_object : text; gr_perm : Z; gr_active : Z }.
#[export] Instance CZero_grant : CZero SLSAuthListObjectGrant := mkGrant [] 0 0.

Record SLSAuthListEntry := mkAuthList {
  l_name : text;
  l_objects : gmap Z SLSAuthListObjectGrant;
  l_object_count : Z;
  l_uids : gmap Z Z;
  l_uid_count : Z;
  l_groups : gmap Z text;
  l_group_count : Z;
  l_active : Z;
  l_partition : Z
}.
#[export] Instance CZero_authlist : CZero SLSAuthListEntry := mkAuthList [] ∅ 0 ∅ 0 ∅ 0 0 0.

Record SLSDatabaseEntry := mkDatabase { database_id : Z; d_name : text; d_owner : Z; d_active : Z }.
#[export] Instance CZero_database : CZero SLSDatabaseEntry := mkDatabase 0 [] 0 0.

Record SLSDatabaseGrant := mkDbGrant {
  dg_database : Z; dg_perm : Z; dg_uids : gmap Z Z; dg_uid_count : Z; dg_groups : gmap Z text; dg_group_count : Z; dg_active : Z
}.
#[export] Instance CZero_dbgrant : CZero SLSDatabaseGrant := mkDbGrant 0 0 ∅ 0 ∅ 0 0.

Record SLSTenantEntry := mkTenant {
  tenant_id : Z; t_name : text; t_partition : Z; t_database : Z; t_owner : Z; t_active : Z
}.
#[export] Instance CZero_tenant : CZero SLSTenantEntry := mkTenant 0 [] 0 0 0 0.

Record SLSPartitionEntry := mkPartition { p_id : Z; p_name : text; p_active : Z }.
#[export] Instance CZero_partition : CZero SLSPartitionEntry := mkPartition 0 [] 0.
Record SLSPartitionAssign := mkAssign { a_uid : Z; a_partition : Z; a_active : Z }.
#[export] Instance CZero_assign : CZero SLSPartitionAssign := mkAssign 0 0 0.
Record SLSPartitionOwner := mkOwner { w_partition : Z; w_node : Z; w_active : Z }.
#[export] Instance CZero_powner : CZero SLSPartitionOwner := mkOwner 0 0 0.

(** The statics of object_catalog.c, partition.c and tenant.c. *)
Record Catalog := mkCatalog { object_catalog : gmap Z SLSObjectEntry; object_catalog_count : Z; next_obj_vaddr : Z }.
Record Partitions := mkPartitions {
  partition_table : gmap Z SLSPartitionEntry;
  partition_assign_table : gmap Z SLSPartitionAssign;
  partition_owner_table : gmap Z SLSPartitionOwner;
  partition_paused : gmap Z Z
}.
Record Tenants := mkTenants { tenants : gmap Z SLSTenantEntry; tenant_next_id : Z }.
(** The statics of database.c. *)
Record Databases := mkDatabases {
  databases : gmap Z SLSDatabaseEntry; database_next_id : Z; database_grants : gmap Z SLSDatabaseGrant; database_grant_count : Z
}.

Record Authority := mkAuthority {
  catalog : Catalog;
  role_table : gmap Z SLSRoleEntry;
  group_table : gmap Z SLSGroupEntry;
  group_table_count : Z;
  authlist_table : gmap Z SLSAuthListEntry;
  authlist_table_count : Z;
  dbs : Databases;
  parts : Partitions;
  tens : Tenants
}.

Definition set_catalog (c : Catalog) (s : Authority) : Authority :=
  mkAuthority c (role_table s) (group_table s) (group_table_count s) (authlist_table s) (authlist_table_count s) (dbs s) (parts s) (tens s).
Definition set_roles (r : gmap Z SLSRoleEntry) (s : Authority) : Authority :=
  mkAuthority (catalog s) r (group_table s) (group_table_count s) (authlist_table s) (authlist_table_count s) (dbs s) (parts s) (tens s).
Definition set_groups (g : gmap Z SLSGroupEntry) (n : Z) (s : Authority) : Authority :=
  mkAuthority (catalog s) (role_table s) g n (authlist_table s) (authlist_table_count s) (dbs s) (parts s) (tens s).
Definition set_authlists (l : gmap Z SLSAuthListEntry) (n : Z) (s : Authority) : Authority :=
  mkAuthority (catalog s) (role_table s) (group_table s) (group_table_count s) l n (dbs s) (parts s) (tens s).
Definition set_dbs (d : Databases) (s : Authority) : Authority :=
  mkAuthority (catalog s) (role_table s) (group_table s) (group_table_count s) (authlist_table s) (authlist_table_count s) d (parts s) (tens s).
Definition set_parts (p : Partitions) (s : Authority) : Authority :=
  mkAuthority (catalog s) (role_table s) (group_table s) (group_table_count s) (authlist_table s) (authlist_table_count s) (dbs s) p (tens s).
Definition set_tens (t : Tenants) (s : Authority) : Authority :=
  mkAuthority (catalog s) (role_table s) (group_table s) (group_table_count s) (authlist_table s) (authlist_table_count s) (dbs s) (parts s) t.

Definition set_object (i : Z) (e : SLSObjectEntry) (c : Catalog) : Catalog :=
  mkCatalog (object_catalog c).[i <- e] (object_catalog_count c) (next_obj_vaddr c).
Definition set_group (i : Z) (g : SLSGroupEntry) (s : Authority) : Authority :=
  set_groups (group_table s).[i <- g] (group_table_count s) s.
Definition set_authlist (i : Z) (l : SLSAuthListEntry) (s : Authority) : Authority :=
  set_authlists (authlist_table s).[i <- l] (authlist_table_count s) s.

(** A set flag. *)
Definition flag (v : Z) : bool := negb (v =? 0).
(** [(mask & needed) == needed] *)
Definition has_perm (mask needed : Z) : bool := Z.land mask needed =? needed.

(** * Lookups *)

Section Lookups.
Context (s : Authority).

Definition obj (i : Z) : SLSObjectEntry := (object_catalog (catalog s)).[i].

Definition find_by_name (name : text) : option Z :=
  find_up (Z.to_nat (object_catalog_count (catalog s))) 0 (fun i => flag (o_active (obj i)) && rs_streq (o_name (obj i)) name).

Definition catalog_get_role (uid : Z) : SLSRole :=
  if uid =? 0 then ROLE_SYSTEM_KERNEL else
  match find_up (Z.to_nat ROLE_TABLE_MAX) 0 (fun i => flag (r_active (role_table s).[i]) && (r_uid (role_table s).[i] =? uid)) with
  | Some i => r_role (role_table s).[i]
  | None => ROLE_GUEST
  end.

Definition partition_get_for_uid (uid : Z) : Z :=
  if uid =? 0 then PARTITION_SYSTEM else
  match find_up (Z.to_nat PARTITION_ASSIGN_MAX) 0
          (fun i => flag (a_active (partition_assign_table (parts s)).[i]) && (a_uid (partition_assign_table (parts s)).[i] =? uid)) with
  | Some i => a_partition (partition_assign_table (parts s)).[i]
  | None => PARTITION_DEFAULT
  end.

Definition partition_id_valid (p : Z) : bool :=
  if p =? PARTITION_SYSTEM then true else if PARTITION_MAX <=? p then false else flag (p_active (partition_table (parts s)).[p]).

Definition find_group_idx (name : text) : option Z :=
  find_up (Z.to_nat GROUP_TABLE_MAX) 0 (fun i => flag (g_active (group_table s).[i]) && rs_streq (g_name (group_table s).[i]) name).

Definition group_has (g : SLSGroupEntry) (uid : Z) : bool :=
  match find_up (Z.to_nat (member_count g)) 0 (fun i => (member_uids g).[i] =? uid) with Some _ => true | None => false end.

Definition group_contains_uid (name : text) (uid : Z) : bool :=
  match find_group_idx name with None => false | Some i => group_has (group_table s).[i] uid end.

Definition group_get_partition_id (name : text) : option Z :=
  (fun i => g_partition (group_table s).[i]) <$> find_group_idx name.

Definition find_authlist_idx (name : text) : option Z :=
  find_up (Z.to_nat AUTHLIST_MAX) 0 (fun i => flag (l_active (authlist_table s).[i]) && rs_streq (l_name (authlist_table s).[i]) name).

Definition find_object_partition_id (name : text) : option Z :=
  (fun i => o_partition (obj i)) <$>
  find_up (Z.to_nat (object_catalog_count (catalog s))) 0 (fun i => flag (o_active (obj i)) && rs_streq (o_name (obj i)) name).

Definition find_database_idx (name : text) : option Z :=
  find_up (Z.to_nat DATABASE_MAX) 0 (fun i => flag (d_active (databases (dbs s)).[i]) && rs_streq (d_name (databases (dbs s)).[i]) name).

Definition database_find_id (name : text) : Z :=
  match find_database_idx name with None => 0 | Some i => database_id (databases (dbs s)).[i] end.

Definition find_grant_idx (db : Z) : option Z :=
  find_up (Z.to_nat DATABASE_GRANT_MAX) 0
    (fun i => flag (dg_active (database_grants (dbs s)).[i]) && (dg_database (database_grants (dbs s)).[i] =? db)).

Definition tenant_find_by_partition (p : Z) : Z :=
  match find_up (Z.to_nat TENANT_MAX) 0 (fun i => flag (t_active (tenants (tens s)).[i]) && (t_partition (tenants (tens s)).[i] =? p)) with
  | Some i => tenant_id (tenants (tens s)).[i]
  | None => 0
  end.

Definition find_tenant_idx (name : text) : option Z :=
  find_up (Z.to_nat TENANT_MAX) 0 (fun i => flag (t_active (tenants (tens s)).[i]) && rs_streq (t_name (tenants (tens s)).[i]) name).

Definition tenant_caller_may_administer (caller p : Z) : bool :=
  let role := catalog_get_role caller in
  if decide (role = ROLE_SYSTEM_KERNEL) then true
  else if p =? PARTITION_SYSTEM then bool_decide (role = ROLE_DB_ADMIN)
  else
    let tid := tenant_find_by_partition p in
    if tid =? 0 then false else
    match find_up (Z.to_nat TENANT_MAX) 0 (fun i => flag (t_active (tenants (tens s)).[i]) && (tenant_id (tenants (tens s)).[i] =? tid)) with
    | Some i => t_owner (tenants (tens s)).[i] =? caller
    | None => false
    end.

End Lookups.

(** * Access checks *)

Definition catalog_role_grants (role : SLSRole) (e : SLSObjectEntry) (needed : Z) : bool :=
  let needs b := negb (Z.land needed b =? 0) in
  match role with
  | ROLE_SYSTEM_KERNEL => true
  | ROLE_DB_ADMIN => bool_decide (o_type e = OBJ_TYPE_DB_TABLE) || bool_decide (o_type e = OBJ_TYPE_DB_INDEX)
  | ROLE_APP_USER =>
      if bool_decide (o_type e = OBJ_TYPE_DB_TABLE) && needs PERM_READ then negb (needs PERM_WRITE) && negb (needs PERM_EXECUTE)
      else bool_decide (o_type e = OBJ_TYPE_PROGRAM) && needs (Z.lor PERM_READ PERM_EXECUTE) && negb (needs PERM_WRITE)
  | ROLE_GUEST =>
      (bool_decide (o_type e = OBJ_TYPE_HEAP_BLOB) || bool_decide (o_type e = OBJ_TYPE_STREAM)) && (needed =? PERM_READ)
  end.

Section Checks.
Context (s : Authority).

(** The list grants [needed] on the object called [name]. *)
Definition authlist_covers (l : SLSAuthListEntry) (name : text) (needed : Z) : bool :=
  match find_up (Z.to_nat (l_object_count l)) 0
          (fun k => flag (gr_active (l_objects l).[k]) && rs_streq (gr_object (l_objects l).[k]) name && has_perm (gr_perm (l_objects l).[k]) needed) with
  | Some _ => true
  | None => false
  end.

(** [uid] is one of the first [n] users or a member of one of the first [m] groups. *)
Definition is_grantee (uids : gmap Z Z) (n : Z) (groups : gmap Z text) (m uid : Z) : bool :=
  match find_up (Z.to_nat n) 0 (fun k => uids.[k] =? uid) with
  | Some _ => true
  | None =>
      match find_up (Z.to_nat m) 0 (fun k => group_contains_uid s (tget groups k) uid) with Some _ => true | None => false end
  end.

Definition authlist_grants (uid : Z) (name : text) (needed : Z) (l : SLSAuthListEntry) : bool :=
  flag (l_active l) && authlist_covers l name needed && is_grantee (l_uids l) (l_uid_count l) (l_groups l) (l_group_count l) uid.

Definition authlist_check_access (uid : Z) (name : text) (needed : Z) : bool :=
  match find_up (Z.to_nat AUTHLIST_MAX) 0 (fun i => authlist_grants uid name needed (authlist_table s).[i]) with
  | Some _ => true
  | None => false
  end.

Definition database_check_access (uid db needed : Z) : bool :=
  if db =? 0 then false else
  match find_grant_idx s db with
  | None => false
  | Some i =>
      let g := (database_grants (dbs s)).[i] in
      if negb (has_perm (dg_perm g) needed) then false
      else is_grantee (dg_uids g) (dg_uid_count g) (dg_groups g) (dg_group_count g) uid
  end.

(** Some active group with [uid] as a member has a role that grants [needed]. *)
Definition group_grants (uid : Z) (e : SLSObjectEntry) (needed : Z) : bool :=
  match find_up (Z.to_nat GROUP_TABLE_MAX) 0
          (fun i => flag (g_active (group_table s).[i]) && group_contains_uid s (g_name (group_table s).[i]) uid &&
                    catalog_role_grants (group_role (group_table s).[i]) e needed) with
  | Some _ => true
  | None => false
  end.

Definition catalog_check_access (uid : Z) (name : text) (needed : Z) : bool :=
  let role := catalog_get_role s uid in
  if decide (role = ROLE_SYSTEM_KERNEL) then true else
  match find_by_name s name with
  | None => false
  | Some idx =>
      let e := obj s idx in
      if negb (o_partition e =? partition_get_for_uid s uid) then false
      else if owner_uid e =? uid then true
      else if catalog_role_grants role e needed then true
      else if group_grants uid e needed then true
      else if authlist_check_access uid name needed then true
      else if database_check_access uid (o_database e) needed then true
      else if decide (role = ROLE_GUEST) then false
      else has_perm (perm_mask e) needed
  end.

End Checks.

(** * The catalog *)

(** [fnv1a(s, strlen(s))] *)
Definition fnv1a (s : text) : Z :=
  fold_left (fun h c => u64 (Z.lxor h c * 0x00000100000001B3)) s 0xcbf29ce484222325.

Definition cat_valid_name (name : text) : bool :=
  match name with [] => false | _ => forallb (fun c => negb ((c <? 0x20) || (c =? 0x20))) name end.

Record SLSVallocRequest := mkValloc {
  v_name : text; v_type : SLSObjectType; v_pages : Z; v_owner : Z; v_perm : Z; v_partition : Z; v_database : Z
}.

Definition initial_tier (t : SLSObjectType) : SLSStorageTier :=
  match t with
  | OBJ_TYPE_SYSTEM_METADATA => STORAGE_TIER_L1_CACHE
  | OBJ_TYPE_DB_TABLE | OBJ_TYPE_DB_INDEX | OBJ_TYPE_PROGRAM => STORAGE_TIER_L2_DRAM
  | _ => STORAGE_TIER_L3_SSD
  end.

Definition sys_sls_valloc (req : SLSVallocRequest) (s : Authority) : Z * Authority :=
  if (match v_name req with [] => true | _ => false end) || (v_pages req =? 0) then (0, s) else
  if negb (cat_valid_name (v_name req)) then (0, s) else
  let obj_id := fnv1a (v_name req) in
  let c := catalog s in
  match find_up (Z.to_nat (object_catalog_count c)) 0 (fun i => flag (o_active (obj s i)) && (object_id (obj s i) =? obj_id)) with
  | Some _ => (0, s)
  | None =>
      if CATALOG_MAX_OBJECTS <=? object_catalog_count c then (0, s) else
      let slot := object_catalog_count c in
      let e := mkObj obj_id (rs_strcpy (v_name req) OBJECT_NAME_LEN) (v_type req) (next_obj_vaddr c) (v_pages req) (v_owner req)
                 (initial_tier (v_type req)) (catalog_get_role s (v_owner req))
                 (if v_perm req =? 0 then Z.lor (Z.lor PERM_READ PERM_WRITE) PERM_OWNER else v_perm req) 1
                 (if v_partition req =? 0 then partition_get_for_uid s (v_owner req) else v_partition req)
                 (uses_rowstore (obj s slot)) (v_database req) in
      (obj_id, set_catalog (mkCatalog (object_catalog c).[slot <- e] (slot + 1)
                              (u64 (next_obj_vaddr c + v_pages req * PAGE_SIZE_BYTES))) s)
  end.

Definition set_o_active (v : Z) (e : SLSObjectEntry) : SLSObjectEntry :=
  mkObj (object_id e) (o_name e) (o_type e) (base_vaddr e) (size_pages e) (owner_uid e) (storage_tier e) (owner_role e) (perm_mask e)
    v (o_partition e) (uses_rowstore e) (o_database e).
Definition set_o_perm (v : Z) (e : SLSObjectEntry) : SLSObjectEntry :=
  mkObj (object_id e) (o_name e) (o_type e) (base_vaddr e) (size_pages e) (owner_uid e) (storage_tier e) (owner_role e) v
    (o_active e) (o_partition e) (uses_rowstore e) (o_database e).
Definition set_o_rowstore (v : Z) (e : SLSObjectEntry) : SLSObjectEntry :=
  mkObj (object_id e) (o_name e) (o_type e) (base_vaddr e) (size_pages e) (owner_uid e) (storage_tier e) (owner_role e) (perm_mask e)
    (o_active e) (o_partition e) v (o_database e).
Definition set_o_database (v : Z) (e : SLSObjectEntry) : SLSObjectEntry :=
  mkObj (object_id e) (o_name e) (o_type e) (base_vaddr e) (size_pages e) (owner_uid e) (storage_tier e) (owner_role e) (perm_mask e)
    (o_active e) (o_partition e) (uses_rowstore e) v.

Definition sys_sls_vfree (name : text) (s : Authority) : Z * Authority :=
  match find_by_name s name with
  | None => (1, s)
  | Some i => (0, set_catalog (set_object i (set_o_active 0 (obj s i)) (catalog s)) s)
  end.

Definition catalog_vfree_partition (p : Z) (s : Authority) : Z * Authority :=
  for_up (Z.to_nat (object_catalog_count (catalog s))) 0
    (fun i '(freed, s) =>
      if negb (flag (o_active (obj s i))) then (freed, s)
      else if negb (o_partition (obj s i) =? p) then (freed, s)
      else (freed + 1, set_catalog (set_object i (set_o_active 0 (obj s i)) (catalog s)) s)) (0, s).

Definition catalog_set_database (caller : Z) (name db : text) (s : Authority) : Z * Authority :=
  match find_by_name s name with
  | None => (1, s)
  | Some i =>
      if negb (catalog_check_access s caller name PERM_WRITE) then (2, s) else
      match db with
      | [] => (0, set_catalog (set_object i (set_o_database 0 (obj s i)) (catalog s)) s)
      | _ =>
          let id := database_find_id s db in
          if id =? 0 then (3, s) else (0, set_catalog (set_object i (set_o_database id (obj s i)) (catalog s)) s)
      end
  end.

Definition sys_sls_role_set (uid : Z) (role : SLSRole) (s : Authority) : Z * Authority :=
  let rt := role_table s in
  match find_up (Z.to_nat ROLE_TABLE_MAX) 0 (fun i => flag (r_active rt.[i]) && (r_uid rt.[i] =? uid)) with
  | Some i => (0, set_roles rt.[i <- mkRole uid role (r_active rt.[i])] s)
  | None =>
      match find_up (Z.to_nat ROLE_TABLE_MAX) 0 (fun i => negb (flag (r_active rt.[i]))) with
      | Some i => (0, set_roles rt.[i <- mkRole uid role 1] s)
      | None => (1, s)
      end
  end.

Definition sys_sls_grant (name : text) (perm_delta : Z) (is_grant : bool) (s : Authority) : Z * Authority :=
  match find_by_name s name with
  | None => (1, s)
  | Some i =>
      let e := obj s i in
      let m := if is_grant then Z.lor (perm_mask e) perm_delta else Z.land (perm_mask e) (u32_not perm_delta) in
      (0, set_catalog (set_object i (set_o_perm m e) (catalog s)) s)
  end.

(** * Partitions *)

Definition partition_create (local_node : Z) (name : text) (s : Authority) : Z * Authority :=
  if PARTITION_NAME_LEN <=? Z.of_nat (length name) then (PARTITION_NONE, s) else
  let ps := parts s in
  match find_up (Z.to_nat (PARTITION_MAX - 1)) 1 (fun i => negb (flag (p_active (partition_table ps).[i]))) with
  | None => (PARTITION_NONE, s)
  | Some i =>
      (i, set_parts (mkPartitions (partition_table ps).[i <- mkPartition i (rs_strcpy name PARTITION_NAME_LEN) 1] (partition_assign_table ps)
                       (partition_owner_table ps).[i <- mkOwner i local_node 1] (partition_paused ps).[i <- 0]) s)
  end.

Definition partition_assign_uid (uid p : Z) (s : Authority) : Z * Authority :=
  if uid =? 0 then (1, s) else
  if negb (partition_id_valid s p) then (1, s) else
  let ps := parts s in
  let a := partition_assign_table ps in
  let put i e := set_parts (mkPartitions (partition_table ps) a.[i <- e] (partition_owner_table ps) (partition_paused ps)) s in
  match find_up (Z.to_nat PARTITION_ASSIGN_MAX) 0 (fun i => flag (a_active a.[i]) && (a_uid a.[i] =? uid)) with
  | Some i => (0, put i (mkAssign (a_uid a.[i]) p (a_active a.[i])))
  | None =>
      match find_up (Z.to_nat PARTITION_ASSIGN_MAX) 0 (fun i => negb (flag (a_active a.[i]))) with
      | Some i => (0, put i (mkAssign uid p 1))
      | None => (1, s)
      end
  end.

(** The catalog and partition tables' part of [partition_destroy] *)
Definition partition_destroy (p : Z) (s : Authority) : Z * Authority :=
  if p =? PARTITION_SYSTEM then (1, s) else
  if negb (partition_id_valid s p) then (1, s) else
  let '(_, s) := catalog_vfree_partition p s in
  let ps := parts s in
  let a := for_up (Z.to_nat PARTITION_ASSIGN_MAX) 0
             (fun i (a : gmap Z SLSPartitionAssign) =>
               if flag (a_active a.[i]) && (a_partition a.[i] =? p) then a.[i <- mkAssign (a_uid a.[i]) (a_partition a.[i]) 0] else a)
             (partition_assign_table ps) in
  let pe := (partition_table ps).[p] in
  let own := partition_owner_table ps in
  let own := match find_up (Z.to_nat PARTITION_MAX) 0 (fun i => flag (w_active own.[i]) && (w_partition own.[i] =? p)) with
             | Some i => own.[i <- mkOwner (w_partition own.[i]) (w_node own.[i]) 0]
             | None => own
             end in
  (0, set_parts (mkPartitions (partition_table ps).[p <- mkPartition (p_id pe) (p_name pe) 0] a own (partition_paused ps).[p <- 0]) s).

(** * Groups *)

Definition group_create (caller : Z) (name : text) (role : SLSRole) (s : Authority) : Z * Authority :=
  match name with
  | [] => (0, s)
  | _ =>
      let p := partition_get_for_uid s caller in
      if negb (tenant_caller_may_administer s caller p) then (0, s) else
      match find_group_idx s name with
      | Some _ => (0, s)
      | None =>
          match find_up (Z.to_nat GROUP_TABLE_MAX) 0 (fun i => negb (flag (g_active (group_table s).[i]))) with
          | None => (0, s)
          | Some i =>
              let g := mkGroup (rs_strcpy name GROUP_NAME_LEN) role (member_uids (group_table s).[i]) 0 1 p in
              (1, set_groups (group_table s).[i <- g] (Z.max (group_table_count s) (i + 1)) s)
          end
      end
  end.

Definition group_add_member (caller : Z) (name : text) (uid : Z) (s : Authority) : Z * Authority :=
  match find_group_idx s name with
  | None => (0, s)
  | Some i =>
      let g := (group_table s).[i] in
      if negb (tenant_caller_may_administer s caller (g_partition g)) then (0, s)
      else if negb (partition_get_for_uid s uid =? g_partition g) then (0, s)
      else if group_has g uid then (0, s)
      else if GROUP_MAX_MEMBERS <=? member_count g then (0, s)
      else (1, set_group i (mkGroup (g_name g) (group_role g) (member_uids g).[member_count g <- uid] (member_count g + 1)
                              (g_active g) (g_partition g)) s)
  end.

(** * Authorization lists *)

Definition authlist_create (caller : Z) (name : text) (s : Authority) : Z * Authority :=
  match name with
  | [] => (0, s)
  | _ =>
      let p := partition_get_for_uid s caller in
      if negb (tenant_caller_may_administer s caller p) then (0, s) else
      match find_authlist_idx s name with
      | Some _ => (0, s)
      | None =>
          match find_up (Z.to_nat AUTHLIST_MAX) 0 (fun i => negb (flag (l_active (authlist_table s).[i]))) with
          | None => (0, s)
          | Some i =>
              let l := (authlist_table s).[i] in
              let l := mkAuthList (rs_strcpy name AUTHLIST_NAME_LEN) (l_objects l) 0 (l_uids l) 0 (l_groups l) 0 1 p in
              (1, set_authlists (authlist_table s).[i <- l] (Z.max (authlist_table_count s) (i + 1)) s)
          end
      end
  end.

(** A list that the caller may administer. *)
Definition administered_list (caller : Z) (name : text) (s : Authority) : option (Z * SLSAuthListEntry) :=
  match find_authlist_idx s name with
  | None => None
  | Some i =>
      let l := (authlist_table s).[i] in
      if tenant_caller_may_administer s caller (l_partition l) then Some (i, l) else None
  end.

Definition set_l_objects (o : gmap Z SLSAuthListObjectGrant) (n : Z) (l : SLSAuthListEntry) : SLSAuthListEntry :=
  mkAuthList (l_name l) o n (l_uids l) (l_uid_count l) (l_groups l) (l_group_count l) (l_active l) (l_partition l).
Definition set_l_uids (u : gmap Z Z) (n : Z) (l : SLSAuthListEntry) : SLSAuthListEntry :=
  mkAuthList (l_name l) (l_objects l) (l_object_count l) u n (l_groups l) (l_group_count l) (l_active l) (l_partition l).
Definition set_l_groups (g : gmap Z text) (n : Z) (l : SLSAuthListEntry) : SLSAuthListEntry :=
  mkAuthList (l_name l) (l_objects l) (l_object_count l) (l_uids l) (l_uid_count l) g n (l_active l) (l_partition l).

Definition authlist_grant_object (caller : Z) (list_name object_name : text) (perm : Z) (s : Authority) : Z * Authority :=
  match administered_list caller list_name s with
  | None => (0, s)
  | Some (i, l) =>
      match find_object_partition_id s object_name with
      | None => (0, s)
      | Some op =>
          if negb (op =? l_partition l) then (0, s) else
          let os := l_objects l in
          match find_up (Z.to_nat (l_object_count l)) 0 (fun k => flag (gr_active os.[k]) && rs_streq (gr_object os.[k]) object_name) with
          | Some k => (1, set_authlist i (set_l_objects os.[k <- mkGrant (gr_object os.[k]) perm (gr_active os.[k])] (l_object_count l) l) s)
          | None =>
              if AUTHLIST_MAX_OBJECTS <=? l_object_count l then (0, s) else
              let g := mkGrant (rs_strcpy object_name OBJECT_NAME_LEN) perm 1 in
              (1, set_authlist i (set_l_objects os.[l_object_count l <- g] (l_object_count l + 1) l) s)
          end
      end
  end.

Definition authlist_grant_uid (caller : Z) (list_name : text) (uid : Z) (s : Authority) : Z * Authority :=
  match administered_list caller list_name s with
  | None => (0, s)
  | Some (i, l) =>
      if negb (partition_get_for_uid s uid =? l_partition l) then (0, s) else
      match find_up (Z.to_nat (l_uid_count l)) 0 (fun k => (l_uids l).[k] =? uid) with
      | Some _ => (0, s)
      | None =>
          if AUTHLIST_MAX_GRANTEE_UIDS <=? l_uid_count l then (0, s)
          else (1, set_authlist i (set_l_uids (l_uids l).[l_uid_count l <- uid] (l_uid_count l + 1) l) s)
      end
  end.

Definition authlist_grant_group (caller : Z) (list_name group_name : text) (s : Authority) : Z * Authority :=
  match administered_list caller list_name s with
  | None => (0, s)
  | Some (i, l) =>
      match group_get_partition_id s group_name with
      | None => (0, s)
      | Some gp =>
          if negb (gp =? l_partition l) then (0, s) else
          match find_up (Z.to_nat (l_group_count l)) 0 (fun k => rs_streq (tget (l_groups l) k) group_name) with
          | Some _ => (0, s)
          | None =>
              if AUTHLIST_MAX_GRANTEE_GROUPS <=? l_group_count l then (0, s)
              else (1, set_authlist i (set_l_groups (l_groups l).[l_group_count l <- rs_strcpy group_name GROUP_NAME_LEN] (l_group_count l + 1) l) s)
          end
      end
  end.

(** * Databases *)

Definition database_create (caller : Z) (name : text) (s : Authority) : Z * Authority :=
  match name with
  | [] => (1, s)
  | _ =>
      if DATABASE_NAME_LEN <=? Z.of_nat (length name) then (1, s) else
      match find_database_idx s name with
      | Some _ => (1, s)
      | None =>
          let d := dbs s in
          match find_up (Z.to_nat DATABASE_MAX) 0 (fun i => negb (flag (d_active (databases d).[i]))) with
          | None => (1, s)
          | Some i =>
              let e := mkDatabase (database_next_id d) (rs_strcpy name DATABASE_NAME_LEN) caller 1 in
              (0, set_dbs (mkDatabases (databases d).[i <- e] (u32 (database_next_id d + 1)) (database_grants d) (database_grant_count d)) s)
          end
      end
  end.

Definition database_drop (caller : Z) (name : text) (s : Authority) : Z * Authority :=
  match find_database_idx s name with
  | None => (1, s)
  | Some i =>
      let ds := dbs s in
      let d := (databases ds).[i] in
      if negb (d_owner d =? caller) && negb (bool_decide (catalog_get_role s caller = ROLE_SYSTEM_KERNEL)) then (2, s) else
      match find_up (Z.to_nat (object_catalog_count (catalog s))) 0 (fun k => flag (o_active (obj s k)) && (o_database (obj s k) =? database_id d)) with
      | Some _ => (3, s)
      | None =>
          let d := mkDatabase (database_id d) (d_name d) (d_owner d) 0 in
          (0, set_dbs (mkDatabases (databases ds).[i <- d] (database_next_id ds) (database_grants ds) (database_grant_count ds)) s)
      end
  end.

Definition set_grant (i : Z) (g : SLSDatabaseGrant) (d : Databases) : Databases :=
  mkDatabases (databases d) (database_next_id d) (database_grants d).[i <- g] (database_grant_count d).

(** The slot of the grant entry of a database, made on the first grant. *)
Definition find_or_create_grant (db : Z) (s : Authority) : option (Z * Authority) :=
  match find_grant_idx s db with
  | Some i => Some (i, s)
  | None =>
      let d := dbs s in
      match find_up (Z.to_nat DATABASE_GRANT_MAX) 0 (fun i => negb (flag (dg_active (database_grants d).[i]))) with
      | None => None
      | Some i =>
          let g := (database_grants d).[i] in
          let g := mkDbGrant db 0 (dg_uids g) 0 (dg_groups g) 0 1 in
          Some (i, set_dbs (mkDatabases (databases d) (database_next_id d) (database_grants d).[i <- g] (Z.max (database_grant_count d) (i + 1))) s)
      end
  end.

Definition database_grant_uid (db_name : text) (uid perm : Z) (s : Authority) : Z * Authority :=
  match find_database_idx s db_name with
  | None => (1, s)
  | Some k =>
      match find_or_create_grant (database_id (databases (dbs s)).[k]) s with
      | None => (2, s)
      | Some (i, s) =>
          let g := (database_grants (dbs s)).[i] in
          let g := mkDbGrant (dg_database g) perm (dg_uids g) (dg_uid_count g) (dg_groups g) (dg_group_count g) (dg_active g) in
          let s := set_dbs (set_grant i g (dbs s)) s in
          match find_up (Z.to_nat (dg_uid_count g)) 0 (fun j => (dg_uids g).[j] =? uid) with
          | Some _ => (0, s)
          | None =>
              if DATABASE_GRANT_MAX_UIDS <=? dg_uid_count g then (2, s)
              else (0, set_dbs (set_grant i (mkDbGrant (dg_database g) perm (dg_uids g).[dg_uid_count g <- uid] (dg_uid_count g + 1)
                                               (dg_groups g) (dg_group_count g) (dg_active g)) (dbs s)) s)
          end
      end
  end.

Definition database_grant_group (db_name group_name : text) (perm : Z) (s : Authority) : Z * Authority :=
  match find_database_idx s db_name with
  | None => (1, s)
  | Some k =>
      match find_or_create_grant (database_id (databases (dbs s)).[k]) s with
      | None => (2, s)
      | Some (i, s) =>
          let g := (database_grants (dbs s)).[i] in
          let g := mkDbGrant (dg_database g) perm (dg_uids g) (dg_uid_count g) (dg_groups g) (dg_group_count g) (dg_active g) in
          let s := set_dbs (set_grant i g (dbs s)) s in
          match find_up (Z.to_nat (dg_group_count g)) 0 (fun j => rs_streq (tget (dg_groups g) j) group_name) with
          | Some _ => (0, s)
          | None =>
              if DATABASE_GRANT_MAX_GROUPS <=? dg_group_count g then (2, s)
              else (0, set_dbs (set_grant i (mkDbGrant (dg_database g) (Z.lor perm perm) (dg_uids g) (dg_uid_count g)
                                               (dg_groups g).[dg_group_count g <- rs_strcpy group_name GROUP_NAME_LEN] (dg_group_count g + 1)
                                               (dg_active g)) (dbs s)) s)
          end
      end
  end.

(** The entry without its [i]th element, of [n], the later ones moved down. *)
Definition shift_out {A} (cp : A → A) (dflt : A) (a : gmap Z A) (i n : Z) : gmap Z A :=
  for_up (Z.to_nat (n - 1 - i)) i (fun k (a : gmap Z A) => a.[k <- cp (default dflt (a !! (k + 1)))]) a.

Definition db_revoke_finish (i : Z) (g : SLSDatabaseGrant) (s : Authority) : Authority :=
  let act := if (dg_uid_count g =? 0) && (dg_group_count g =? 0) then 0 else dg_active g in
  set_dbs (set_grant i (mkDbGrant (dg_database g) (dg_perm g) (dg_uids g) (dg_uid_count g) (dg_groups g) (dg_group_count g) act) (dbs s)) s.

Definition database_revoke_uid (db_name : text) (uid : Z) (s : Authority) : Z * Authority :=
  match find_database_idx s db_name with
  | None => (1, s)
  | Some k =>
      match find_grant_idx s (database_id (databases (dbs s)).[k]) with
      | None => (2, s)
      | Some i =>
          let g := (database_grants (dbs s)).[i] in
          match find_up (Z.to_nat (dg_uid_count g)) 0 (fun j => (dg_uids g).[j] =? uid) with
          | None => (2, s)
          | Some j =>
              (0, db_revoke_finish i (mkDbGrant (dg_database g) (dg_perm g) (shift_out id 0 (dg_uids g) j (dg_uid_count g)) (dg_uid_count g - 1)
                                        (dg_groups g) (dg_group_count g) (dg_active g)) s)
          end
      end
  end.

Definition database_revoke_group (db_name group_name : text) (s : Authority) : Z * Authority :=
  match find_database_idx s db_name with
  | None => (1, s)
  | Some k =>
      match find_grant_idx s (database_id (databases (dbs s)).[k]) with
      | None => (2, s)
      | Some i =>
          let g := (database_grants (dbs s)).[i] in
          match find_up (Z.to_nat (dg_group_count g)) 0 (fun j => rs_streq (tget (dg_groups g) j) group_name) with
          | None => (2, s)
          | Some j =>
              (0, db_revoke_finish i (mkDbGrant (dg_database g) (dg_perm g) (dg_uids g) (dg_uid_count g)
                                        (shift_out (fun t => rs_strcpy t GROUP_NAME_LEN) [] (dg_groups g) j (dg_group_count g)) (dg_group_count g - 1)
                                        (dg_active g)) s)
          end
      end
  end.

(** * Tenants *)

Definition tenant_create (local_node caller : Z) (name : text) (s : Authority) : Z * Z * Authority :=
  match name with
  | [] => (1, 0, s)
  | _ =>
      if TENANT_NAME_LEN <=? Z.of_nat (length name) then (1, 0, s) else
      match find_tenant_idx s name with
      | Some _ => (1, 0, s)
      | None =>
          match find_up (Z.to_nat TENANT_MAX) 0 (fun i => negb (flag (t_active (tenants (tens s)).[i]))) with
          | None => (1, 0, s)
          | Some slot =>
              let '(p, s) := partition_create local_node name s in
              if p =? PARTITION_NONE then (2, 0, s) else
              let '(rc, s) := database_create caller name s in
              if negb (rc =? 0) then (3, 0, (partition_destroy p s).2) else
              let db := database_find_id s name in
              let s := if negb (caller =? 0) then (partition_assign_uid caller p s).2 else s in
              let t := tens s in
              let id := tenant_next_id t in
              (0, id, set_tens (mkTenants (tenants t).[slot <- mkTenant id (rs_strcpy name TENANT_NAME_LEN) p db caller 1] (u32 (id + 1))) s)
          end
      end
  end.
