(* ===== verification/AuthoritySpec.v ===== *)
(** Delegated administration stays inside its tenant: requests on groups and authorization lists change no
    access decision on the objects of a partition whose administration the callers do not have. *)
From stdpp Require Import base gmap list.
From Stdlib Require Import ZArith Lia.
From S2P Require Import Prelude Bytes Authority.
#[local] Open Scope Z_scope.
#[local] Open Scope carr_scope.

(** * Table scans *)

Lemma found_iff n i p : (match find_up n i p with Some _ => true | None => false end) = true ↔ ∃ j, i ≤ j < i + Z.of_nat n ∧ p j = true.
Proof.
  destruct (find_up n i p) as [j|] eqn:E.
  - apply find_up_Some in E as (Hj & Hp & _). split; [|done]. intros _. by exists j.
  - rewrite find_up_None in E. split; [done|]. intros (j & Hj & Hp). rewrite E in Hp; done.
Qed.

Lemma found_ext n i p q : (∀ j, i ≤ j < i + Z.of_nat n → p j = q j) →
  (match find_up n i p with Some _ => true | None => false end) = (match find_up n i q with Some _ => true | None => false end).
Proof. intros H. by rewrite (find_up_ext n i p q H). Qed.

Lemma bool_eq_iff (a b : bool) : (a = true ↔ b = true) → a = b.
Proof. destruct a, b; intuition congruence. Qed.

Lemma streq_true a b : rs_streq a b = true ↔ a = b.
Proof. rewrite rs_streq_spec. apply bool_decide_eq_true. Qed.

Lemma streq_false a b : rs_streq a b = false ↔ a ≠ b.
Proof. rewrite rs_streq_spec. apply bool_decide_eq_false. Qed.

Lemma group_has_iff g u : group_has g u = true ↔ ∃ k, 0 ≤ k < member_count g ∧ (member_uids g).[k] = u.
Proof.
  unfold group_has. rewrite found_iff. split; intros (k & Hk & Hu); exists k; (split; [lia|]); [by apply Z.eqb_eq | by apply Z.eqb_eq].
Qed.

(** * Requests *)

Inductive rbac_op :=
| GroupCreate (caller : Z) (name : text) (role : SLSRole)
| GroupAddMember (caller : Z) (name : text) (uid : Z)
| AuthlistCreate (caller : Z) (name : text)
| AuthlistGrantObject (caller : Z) (list_name object_name : text) (perm : Z)
| AuthlistGrantUid (caller : Z) (list_name : text) (uid : Z)
| AuthlistGrantGroup (caller : Z) (list_name group_name : text).

Definition rbac_step (o : rbac_op) (s : Authority) : Z * Authority :=
  match o with
  | GroupCreate c n r => group_create c n r s
  | GroupAddMember c n u => group_add_member c n u s
  | AuthlistCreate c n => authlist_create c n s
  | AuthlistGrantObject c l n p => authlist_grant_object c l n p s
  | AuthlistGrantUid c l u => authlist_grant_uid c l u s
  | AuthlistGrantGroup c l g => authlist_grant_group c l g s
  end.

Definition rbac_caller (o : rbac_op) : Z :=
  match o with
  | GroupCreate c _ _ | GroupAddMember c _ _ | AuthlistCreate c _ | AuthlistGrantObject c _ _ _ | AuthlistGrantUid c _ _
  | AuthlistGrantGroup c _ _ => c
  end.

(** The names fit the buffers of the request. *)
Definition rbac_fits (o : rbac_op) : Prop :=
  match o with
  | GroupCreate _ n _ => Z.of_nat (length n) < GROUP_NAME_LEN
  | AuthlistGrantObject _ _ n _ => Z.of_nat (length n) < OBJECT_NAME_LEN
  | AuthlistGrantGroup _ _ n => Z.of_nat (length n) < GROUP_NAME_LEN
  | _ => True
  end.

Fixpoint rbac_run (os : list rbac_op) (s : Authority) : Authority :=
  match os with [] => s | o :: os => rbac_run os (rbac_step o s).2 end.

(** The members of a group belong to its partition. *)
Record scoped (s : Authority) : Prop := Scoped {
  sc_count : ∀ i, 0 ≤ member_count (group_table s).[i] ∧ 0 ≤ l_object_count (authlist_table s).[i] ∧
    0 ≤ l_uid_count (authlist_table s).[i] ∧ 0 ≤ l_group_count (authlist_table s).[i];
  sc_members : ∀ i u, flag (g_active (group_table s).[i]) = true → group_has (group_table s).[i] u = true →
    partition_get_for_uid s u = g_partition (group_table s).[i]
}.

(** * Groups *)

Section Groups.
Context (s : Authority) (Hs : scoped s).

Lemma contains_iff name u : group_contains_uid s name u = true ↔ ∃ i, find_group_idx s name = Some i ∧ group_has (group_table s).[i] u = true.
Proof.
  unfold group_contains_uid. destruct (find_group_idx s name) as [i|]; split; [by exists i | by intros (? & [= <-] & ?) | done | by intros (? & ? & ?)].
Qed.

Lemma find_group_active name i : find_group_idx s name = Some i → 0 ≤ i < GROUP_TABLE_MAX ∧ flag (g_active (group_table s).[i]) = true ∧ g_name (group_table s).[i] = name.
Proof. intros (Hi & [Ha Hn%streq_true]%andb_true_iff & _)%find_up_Some. split_and!; [lia | lia | done | done]. Qed.

Lemma contains_partition name u : group_contains_uid s name u = true → group_get_partition_id s name = Some (partition_get_for_uid s u).
Proof using Hs.
  intros (i & Hf & Hh)%contains_iff. unfold group_get_partition_id. rewrite Hf. cbn. f_equal. symmetry.
  destruct (find_group_active _ _ Hf) as (_ & Ha & _). by apply (sc_members s Hs).
Qed.

(** Decisions depend on the group and list tables only through membership and list grants. *)
Lemma check_groups g n u name needed :
  let s' := set_groups g n s in
  (∀ nm, group_contains_uid s' nm u = group_contains_uid s nm u) →
  (∀ e, group_grants s' u e needed = group_grants s u e needed) →
  catalog_check_access s' u name needed = catalog_check_access s u name needed.
Proof.
  intros s' Hc Hg.
  assert (∀ uids k groups m, is_grantee s' uids k groups m u = is_grantee s uids k groups m u) as Hgr.
  { intros uids k groups m. unfold is_grantee. destruct (find_up _ _ (fun k => uids.[k] =? u)); [done|]. apply found_ext. intros j _. apply Hc. }
  assert (authlist_check_access s' u name needed = authlist_check_access s u name needed) as Hl.
  { unfold authlist_check_access. apply found_ext. intros j _. unfold authlist_grants. rewrite Hgr. done. }
  assert (∀ db, database_check_access s' u db needed = database_check_access s u db needed) as Hd.
  { intros db. unfold database_check_access. assert (find_grant_idx s' db = find_grant_idx s db) as -> by reflexivity. assert (dbs s' = dbs s) as -> by reflexivity.
    destruct (db =? 0), (find_grant_idx s db); try done. by rewrite Hgr. }
  unfold catalog_check_access. assert (catalog_get_role s' u = catalog_get_role s u) as -> by reflexivity. assert (find_by_name s' name = find_by_name s name) as -> by reflexivity.
  destruct (find_by_name s name) as [i|]; [|done]. assert (obj s' i = obj s i) as -> by reflexivity. assert (partition_get_for_uid s' u = partition_get_for_uid s u) as -> by reflexivity.
  by rewrite Hg, Hl, Hd.
Qed.

Lemma check_lists l n u name needed :
  let s' := set_authlists l n s in
  authlist_check_access s' u name needed = authlist_check_access s u name needed →
  catalog_check_access s' u name needed = catalog_check_access s u name needed.
Proof.
  intros s' Hl. unfold catalog_check_access. assert (catalog_get_role s' u = catalog_get_role s u) as -> by reflexivity. assert (find_by_name s' name = find_by_name s name) as -> by reflexivity.
  destruct (find_by_name s name) as [i|]; [|done]. assert (obj s' i = obj s i) as -> by reflexivity. assert (partition_get_for_uid s' u = partition_get_for_uid s u) as -> by reflexivity.
  assert (group_grants s' u (obj s i) needed = group_grants s u (obj s i) needed) as -> by reflexivity.
  assert (database_check_access s' u (o_database (obj s i)) needed = database_check_access s u (o_database (obj s i)) needed) as -> by reflexivity.
  by rewrite Hl.
Qed.

(** One list replaced by one that decides alike. *)
Lemma list_replaced i l n u name needed :
  authlist_grants s u name needed l = authlist_grants s u name needed (authlist_table s).[i] →
  catalog_check_access (set_authlists (authlist_table s).[i <- l] n s) u name needed = catalog_check_access s u name needed.
Proof.
  intros Hl. apply check_lists. unfold authlist_check_access. apply found_ext. intros j _. cbn [authlist_table set_authlists].
  assert (∀ t l, authlist_grants (set_authlists t n s) u name needed l = authlist_grants s u name needed l) as E by reflexivity.
  rewrite E, aget_upd. destruct (Z.eqb_spec i j) as [<-|]; [exact Hl | reflexivity].
Qed.

End Groups.

(** * Isolation *)

(** The two states decide alike on the objects of partition [p]. *)
Definition decides_alike (p : Z) (s s' : Authority) : Prop :=
  ∀ u name needed k, find_by_name s name = Some k → o_partition (obj s k) = p →
    catalog_check_access s' u name needed = catalog_check_access s u name needed.

Section Isolation.
Context (s : Authority) (Hs : scoped s) (p : Z).

(** Users of another partition are refused whatever the groups and lists say. *)
Lemma foreign_groups g n u name needed k : find_by_name s name = Some k → partition_get_for_uid s u ≠ o_partition (obj s k) →
  catalog_check_access (set_groups g n s) u name needed = catalog_check_access s u name needed.
Proof.
  intros Hf Hne. unfold catalog_check_access. assert (find_by_name (set_groups g n s) name = find_by_name s name) as -> by reflexivity. rewrite Hf.
  assert (catalog_get_role (set_groups g n s) u = catalog_get_role s u) as -> by reflexivity.
  assert (partition_get_for_uid (set_groups g n s) u = partition_get_for_uid s u) as -> by reflexivity.
  assert (obj (set_groups g n s) k = obj s k) as -> by reflexivity.
  replace (o_partition (obj s k) =? partition_get_for_uid s u) with false by (symmetry; apply Z.eqb_neq; done). done.
Qed.

Lemma foreign_lists l n u name needed k : find_by_name s name = Some k → partition_get_for_uid s u ≠ o_partition (obj s k) →
  catalog_check_access (set_authlists l n s) u name needed = catalog_check_access s u name needed.
Proof.
  intros Hf Hne. unfold catalog_check_access. assert (find_by_name (set_authlists l n s) name = find_by_name s name) as -> by reflexivity. rewrite Hf.
  assert (catalog_get_role (set_authlists l n s) u = catalog_get_role s u) as -> by reflexivity.
  assert (partition_get_for_uid (set_authlists l n s) u = partition_get_for_uid s u) as -> by reflexivity.
  assert (obj (set_authlists l n s) k = obj s k) as -> by reflexivity.
  replace (o_partition (obj s k) =? partition_get_for_uid s u) with false by (symmetry; apply Z.eqb_neq; done). done.
Qed.

(** A new group has no members. *)
Lemma group_create_contains i g n name u nm :
  flag (g_active (group_table s).[i]) = false → find_group_idx s name = None → g_name g = name → member_count g = 0 →
  group_contains_uid (set_groups (group_table s).[i <- g] n s) nm u = group_contains_uid s nm u.
Proof.
  intros Hi Hf Hn Hc. set (s' := set_groups _ n s).
  assert (∀ j, (group_table s').[j] = if i =? j then g else (group_table s).[j]) as Ht by (intros j; apply aget_upd).
  apply bool_eq_iff. rewrite !contains_iff. unfold find_group_idx at 1 in Hf. rewrite find_up_None in Hf. destruct (decide (nm = name)) as [->|Hne].
  - split; intros (j & Hj & Hh).
    + apply find_group_active in Hj as (Hr & Ha & Hnm). rewrite Ht in *. destruct (Z.eqb_spec i j) as [<-|Hij].
      * apply group_has_iff in Hh as (k & Hk & _). lia.
      * specialize (Hf j ltac:(lia)). rewrite Ha, Hnm in Hf. cbn in Hf. by rewrite (proj2 (streq_true name name)) in Hf.
    + apply find_group_active in Hj as (Hr & Ha & Hnm). specialize (Hf j ltac:(lia)). rewrite Ha, Hnm in Hf. cbn in Hf.
      by rewrite (proj2 (streq_true name name)) in Hf.
  - assert (find_group_idx s' nm = find_group_idx s nm) as ->.
    { unfold find_group_idx. apply find_up_ext. intros j _. rewrite Ht. destruct (Z.eqb_spec i j) as [<-|]; [|done].
      rewrite Hi, Hn, (proj2 (streq_false name nm)) by done. by rewrite andb_false_r. }
    split; intros (j & Hj & Hh); exists j; (split; [done|]); rewrite Ht in *; pose proof (find_group_active _ _ _ Hj) as (_ & Ha & _);
      destruct (Z.eqb_spec i j) as [<-|]; congruence.
Qed.

Lemma group_create_alike caller name role : rbac_fits (GroupCreate caller name role) → decides_alike p s (group_create caller name role s).2.
Proof.
  intros Hfit u nm needed k _ _. unfold group_create. destruct name as [|x xs]; [done|]. set (name := x :: xs) in *.
  destruct (negb _); [done|]. destruct (find_group_idx s name) eqn:Hf; [done|]. destruct (find_up _ _ _) as [i|] eqn:Hi; [|done].
  apply find_up_Some in Hi as (Hr & Ha%negb_true_iff & _). cbn [snd]. cbn [rbac_fits] in Hfit. rewrite rs_strcpy_fits by done.
  set (g := mkGroup name role _ 0 1 _). set (n := Z.max _ _).
  assert (∀ nm', group_contains_uid (set_groups (group_table s).[i <- g] n s) nm' u = group_contains_uid s nm' u) as Hc.
  { intros nm'. by eapply group_create_contains. }
  apply check_groups; [exact Hc|]. intros e. unfold group_grants. apply found_ext. intros j _. rewrite Hc. cbn [group_table set_groups]. rewrite aget_upd.
  destruct (Z.eqb_spec i j) as [<-|]; [|done]. cbn [g_name g_active g]. rewrite Ha. unfold group_contains_uid. rewrite Hf. by rewrite andb_false_r.
Qed.

Lemma group_add_alike caller name uid : tenant_caller_may_administer s caller p = false → decides_alike p s (group_add_member caller name uid s).2.
Proof using Hs.
  intros Hna u nm needed k Hk Hp. unfold group_add_member. destruct (find_group_idx s name) as [i|] eqn:Hf; [|done].
  destruct (tenant_caller_may_administer s caller (g_partition (group_table s).[i])) eqn:Hm; cbn [negb]; [|done].
  destruct (Z.eqb_spec (partition_get_for_uid s uid) (g_partition (group_table s).[i])) as [Hpu|]; cbn [negb]; [|done].
  destruct (group_has _ uid); [done|]. destruct (_ <=? _); [done|]. cbn [snd]. unfold set_group. set (g' := mkGroup _ _ _ _ _ _). set (g := (group_table s).[i]) in *.
  destruct (decide (partition_get_for_uid s u = p)) as [Hu|Hu]; [|eapply foreign_groups; [done | congruence]].
  assert (u ≠ uid) as Hne by (intros ->; rewrite <- Hpu, Hu in Hm; congruence).
  assert (group_has g' u = group_has g u) as Hh.
  { apply bool_eq_iff. rewrite !group_has_iff. cbn [member_uids member_count g']. pose proof (sc_count s Hs i) as [Hc _]. fold g in Hc. split; intros (j & Hj & Hju).
    - rewrite aget_upd in Hju. destruct (Z.eqb_spec (member_count g) j); [congruence|]. exists j. split; [lia | done].
    - exists j. split; [lia|]. rewrite aget_upd. destruct (Z.eqb_spec (member_count g) j); [lia | done]. }
  set (s' := set_groups _ _ s).
  assert (∀ j, (group_table s').[j] = if i =? j then g' else (group_table s).[j]) as Ht by (intros j; apply aget_upd).
  assert (∀ nm', group_contains_uid s' nm' u = group_contains_uid s nm' u) as Hc.
  { intros nm'. unfold group_contains_uid. assert (find_group_idx s' nm' = find_group_idx s nm') as ->.
    { unfold find_group_idx. apply find_up_ext. intros j _. rewrite Ht. by destruct (Z.eqb_spec i j) as [<-|]. }
    destruct (find_group_idx s nm') as [j|]; [|done]. rewrite Ht. by destruct (Z.eqb_spec i j) as [<-|]. }
  apply check_groups; [exact Hc|]. intros e. unfold group_grants. apply found_ext. intros j _. rewrite Hc. cbn [group_table set_groups]. rewrite aget_upd.
  by destruct (Z.eqb_spec i j) as [<-|].
Qed.

#[local] Opaque tenant_caller_may_administer partition_get_for_uid group_contains_uid group_get_partition_id.

Lemma authlist_create_alike caller name : decides_alike p s (authlist_create caller name s).2.
Proof.
  intros u nm needed k _ _. unfold authlist_create. destruct name as [|x xs]; [done|]. destruct (negb _); [done|].
  destruct (find_authlist_idx s _); [done|]. destruct (find_up _ _ _) as [i|] eqn:Hi; [|done].
  apply find_up_Some in Hi as (_ & Ha%negb_true_iff & _). apply list_replaced. unfold authlist_grants. by rewrite Ha.
Qed.

Lemma administered_ne caller name i l : tenant_caller_may_administer s caller p = false → administered_list caller name s = Some (i, l) →
  l = (authlist_table s).[i] ∧ l_partition l ≠ p.
Proof.
  intros Hna. unfold administered_list. destruct (find_authlist_idx s name) as [j|]; [|done].
  destruct (tenant_caller_may_administer s caller (l_partition (authlist_table s).[j])) eqn:Hm; [|done].
  intros [= -> <-]. split; [done|]. congruence.
Qed.

Lemma covers_iff l nm needed : authlist_covers l nm needed = true ↔
  ∃ k, 0 ≤ k < l_object_count l ∧ flag (gr_active (l_objects l).[k]) = true ∧ gr_object (l_objects l).[k] = nm ∧ has_perm (gr_perm (l_objects l).[k]) needed = true.
Proof.
  unfold authlist_covers. rewrite found_iff. split.
  - intros (k & Hk & [[Ha Hn%streq_true]%andb_true_iff Hp]%andb_true_iff). exists k. split_and!; [lia | lia | done..].
  - intros (k & Hk & Ha & Hn & Hp). exists k. split; [lia|]. by rewrite Ha, (proj2 (streq_true _ _) Hn), Hp.
Qed.

Lemma grants_ext l l' u nm needed : l_active l' = l_active l → authlist_covers l' nm needed = authlist_covers l nm needed →
  is_grantee s (l_uids l') (l_uid_count l') (l_groups l') (l_group_count l') u = is_grantee s (l_uids l) (l_uid_count l) (l_groups l) (l_group_count l) u →
  authlist_grants s u nm needed l' = authlist_grants s u nm needed l.
Proof. intros Ha Hc Hg. unfold authlist_grants. by rewrite Ha, Hc, Hg. Qed.

Lemma grant_object_alike caller list_name object_name perm : tenant_caller_may_administer s caller p = false →
  rbac_fits (AuthlistGrantObject caller list_name object_name perm) → decides_alike p s (authlist_grant_object caller list_name object_name perm s).2.
Proof using Hs.
  intros Hna Hfit u nm needed k Hk Hp. unfold authlist_grant_object. destruct (administered_list caller list_name s) as [[i l]|] eqn:Hl; [|done].
  apply administered_ne in Hl as [-> Hq]; [|done]. set (l := (authlist_table s).[i]) in *. destruct (find_object_partition_id s object_name) as [op|] eqn:Ho; [|done].
  destruct (Z.eqb_spec op (l_partition l)) as [->|]; cbn [negb]; [|done].
  assert (nm ≠ object_name) as Hne.
  { intros ->. unfold find_object_partition_id in Ho. fold (find_by_name s object_name) in Ho. rewrite Hk in Ho. cbn in Ho. congruence. }
  cbn [rbac_fits] in Hfit. pose proof (sc_count s Hs i) as (_ & Hc & _). fold l in Hc.
  destruct (find_up _ _ _) as [j|] eqn:Hj; [|destruct (_ <=? _); [done|]]; cbn [snd]; apply list_replaced; fold l; (apply grants_ext; [reflexivity | | reflexivity]);
    apply bool_eq_iff; rewrite !covers_iff; cbn [l_objects l_object_count set_l_objects].
  - apply find_up_Some in Hj as (_ & [Ha Hn%streq_true]%andb_true_iff & _).
    split; intros (m & Hm & Hma & Hmn & Hmp); exists m; rewrite aget_upd in *; destruct (Z.eqb_spec j m) as [<-|]; cbn in *; split_and!; done || congruence || lia.
  - rewrite rs_strcpy_fits by done. split; intros (m & Hm & Hma & Hmn & Hmp); exists m; rewrite aget_upd in *;
      destruct (Z.eqb_spec (l_object_count l) m) as [<-|]; cbn in *; split_and!; done || congruence || lia.
Qed.

Lemma grantee_iff uids n groups m u : is_grantee s uids n groups m u = true ↔
  (∃ k, 0 ≤ k < n ∧ uids.[k] = u) ∨ (∃ k, 0 ≤ k < m ∧ group_contains_uid s (tget groups k) u = true).
Proof.
  unfold is_grantee. pose proof (found_iff (Z.to_nat n) 0 (fun k => uids.[k] =? u)) as H1.
  destruct (find_up (Z.to_nat n) 0 _) as [j|].
  - split; [|done]. intros _. left. destruct (proj1 H1 eq_refl) as (k & Hk & Hu%Z.eqb_eq). exists k. split; [lia | done].
  - rewrite found_iff. split.
    + intros (k & Hk & Hg). right. exists k. split; [lia | done].
    + intros [(k & Hk & Hu)|(k & Hk & Hg)]; [|exists k; split; [lia | done]].
      discriminate (proj2 H1). exists k. split; [lia | by apply Z.eqb_eq].
Qed.

Lemma grant_uid_alike caller list_name uid : tenant_caller_may_administer s caller p = false →
  decides_alike p s (authlist_grant_uid caller list_name uid s).2.
Proof using Hs.
  intros Hna u nm needed k Hk Hp. unfold authlist_grant_uid. destruct (administered_list caller list_name s) as [[i l]|] eqn:Hl; [|done].
  apply administered_ne in Hl as [-> Hq]; [|done]. set (l := (authlist_table s).[i]) in *.
  destruct (Z.eqb_spec (partition_get_for_uid s uid) (l_partition l)) as [Hu0|]; cbn [negb]; [|done].
  destruct (find_up _ _ _); [done|]. destruct (_ <=? _); [done|]. cbn [snd].
  destruct (decide (partition_get_for_uid s u = p)) as [Hu|Hu]; [|eapply foreign_lists; [done | congruence]].
  assert (u ≠ uid) as Hne by congruence. pose proof (sc_count s Hs i) as (_ & _ & Hc & _). fold l in Hc.
  apply list_replaced. fold l. apply grants_ext; [reflexivity | reflexivity|]. apply bool_eq_iff. rewrite !grantee_iff. cbn [l_uids l_uid_count l_groups l_group_count set_l_uids].
  split; (intros [(m & Hm & Hmu)|?]; [left; exists m; rewrite aget_upd in *; destruct (Z.eqb_spec (l_uid_count l) m) as [<-|]; split; done || congruence || lia | by right]).
Qed.

Lemma grant_group_alike caller list_name group_name : tenant_caller_may_administer s caller p = false →
  rbac_fits (AuthlistGrantGroup caller list_name group_name) → decides_alike p s (authlist_grant_group caller list_name group_name s).2.
Proof using Hs.
  intros Hna Hfit u nm needed k Hk Hp. unfold authlist_grant_group. destruct (administered_list caller list_name s) as [[i l]|] eqn:Hl; [|done].
  apply administered_ne in Hl as [-> Hq]; [|done]. set (l := (authlist_table s).[i]) in *. destruct (group_get_partition_id s group_name) as [gp|] eqn:Hg; [|done].
  destruct (Z.eqb_spec gp (l_partition l)) as [->|]; cbn [negb]; [|done]. destruct (find_up _ _ _); [done|]. destruct (_ <=? _); [done|]. cbn [snd].
  destruct (decide (partition_get_for_uid s u = p)) as [Hu|Hu]; [|eapply foreign_lists; [done | congruence]].
  assert (group_contains_uid s group_name u ≠ true) as Hno. { intros Hc%contains_partition; [|done]. congruence. }
  cbn [rbac_fits] in Hfit. pose proof (sc_count s Hs i) as (_ & _ & _ & Hc). fold l in Hc.
  apply list_replaced. fold l. apply grants_ext; [reflexivity | reflexivity|]. apply bool_eq_iff. rewrite !grantee_iff. cbn [l_uids l_uid_count l_groups l_group_count set_l_groups].
  rewrite rs_strcpy_fits by done. clear - Hno Hc. split; (intros [?|(m & Hm & Hmu)]; [by left | right; exists m]).
  - rewrite tget_upd in Hmu. destruct (Z.eqb_spec (l_group_count l) m); [destruct (Hno Hmu)|]. split; [lia | exact Hmu].
  - rewrite tget_upd. destruct (Z.eqb_spec (l_group_count l) m); [lia|]. split; [lia | exact Hmu].
Qed.

End Isolation.

(** * Runs of requests *)

(** A request changes only the group and list tables. *)
Lemma rbac_frame o s : ∃ g n l m, (rbac_step o s).2 = set_authlists l m (set_groups g n s).
Proof.
  assert (∀ s : Authority, s = set_authlists (authlist_table s) (authlist_table_count s) (set_groups (group_table s) (group_table_count s) s)) as Hid by (by intros []).
  destruct o; cbn [rbac_step]; unfold group_create, group_add_member, authlist_create, authlist_grant_object, authlist_grant_uid, authlist_grant_group.
  all: repeat case_match; cbn [snd]; try (do 4 eexists; apply Hid); unfold set_group, set_authlist; do 4 eexists; rewrite (Hid s) at 1; reflexivity.
Qed.

Lemma scoped_lists s i l n : scoped s → 0 ≤ l_object_count l ∧ 0 ≤ l_uid_count l ∧ 0 ≤ l_group_count l →
  scoped (set_authlists (authlist_table s).[i <- l] n s).
Proof.
  intros [Hc Hm] Hl. split; [|exact Hm]. intros j. split; [apply Hc|]. cbn [authlist_table set_authlists]. rewrite aget_upd. destruct (i =? j); [done | apply Hc].
Qed.

Lemma scoped_groups s i g n : scoped s → 0 ≤ member_count g →
  (∀ u, group_has g u = true → partition_get_for_uid s u = g_partition g) → scoped (set_groups (group_table s).[i <- g] n s).
Proof.
  intros [Hc Hm] Hg Hgm. split; intros j; cbn [group_table set_groups authlist_table]; rewrite aget_upd.
  - destruct (i =? j); [split; [done | apply Hc] | apply Hc].
  - intros u Ha Hu. destruct (i =? j); [by apply Hgm | by apply Hm].
Qed.

Ltac bump :=
  apply scoped_lists; [done|]; cbn;
  match goal with Hc : ∀ i, _ |- context [(authlist_table _).[?i]] => destruct (Hc i) as (_ & ? & ? & ?) end; lia.

Lemma scoped_step o s : scoped s → scoped (rbac_step o s).2.
Proof.
  intros Hs. pose proof (sc_count s Hs) as Hc. destruct o; cbn [rbac_step].
  - unfold group_create. repeat case_match; try done. cbn [snd]. apply scoped_groups; [done | done|]. intros u (k & Hk & _)%group_has_iff. cbn in Hk. lia.
  - unfold group_add_member. destruct (find_group_idx s name) as [i|] eqn:Hf; [|done]. destruct (negb (tenant_caller_may_administer _ _ _)); [done|].
    destruct (Z.eqb_spec (partition_get_for_uid s uid) (g_partition (group_table s).[i])) as [Hp|]; cbn [negb]; [|done].
    destruct (group_has _ _); [done|]. destruct (_ <=? _); [done|]. destruct (Hc i) as [Hci _]. apply find_group_active in Hf as (_ & Ha & _).
    apply scoped_groups; [done | cbn; lia|]. intros u (k & Hk & Hu)%group_has_iff. cbn in Hk, Hu |- *. rewrite aget_upd in Hu.
    destruct (Z.eqb_spec (member_count (group_table s).[i]) k); [congruence|]. apply (sc_members s Hs); [done|]. apply group_has_iff. exists k. split; [lia | done].
  - unfold authlist_create. repeat case_match; try done. by apply scoped_lists.
  - unfold authlist_grant_object, administered_list. repeat case_match; try done; simplify_eq; bump.
  - unfold authlist_grant_uid, administered_list. repeat case_match; try done; simplify_eq; bump.
  - unfold authlist_grant_group, administered_list. repeat case_match; try done; simplify_eq; bump.
Qed.

Lemma rbac_step_alike o s p : scoped s → rbac_fits o → tenant_caller_may_administer s (rbac_caller o) p = false → decides_alike p s (rbac_step o s).2.
Proof.
  intros Hs Hf Hna. destruct o; cbn [rbac_step rbac_caller] in *.
  - by apply group_create_alike.
  - by apply group_add_alike.
  - apply authlist_create_alike.
  - by apply grant_object_alike.
  - by apply grant_uid_alike.
  - by apply grant_group_alike.
Qed.

