(* ===== verification/RowCodec.v ===== *)
(** Column values of the row store: kernel/rowstore.c's and kernel/row_index.c's parsing, printing and layout.

    A value crosses the interface as text, is stored in a fixed-width slot of its row and, for an indexed
    column, is turned into a key whose bytes compare as the values do.  Doubles are the binary64 numbers of
    the standard library's [SpecFloat]; the conversion of a double outside the range of the integer type is
    undefined in C and a parameter here. *)
From stdpp Require Import base gmap list list_numbers.
From Stdlib Require Import ZArith Lia Floats.SpecFloat.
From S2P Require Import Prelude Bytes BTree.
#[local] Open Scope Z_scope.
#[local] Open Scope carr_scope.

(** * Text of values *)

Definition str_true : text := [116; 114; 117; 101].
Definition str_false : text := [102; 97; 108; 115; 101].
Definition str_0 : text := [48].
Definition str_1 : text := [49].

Definition is_digit (c : Z) : bool := (48 <=? c) && (c <=? 57).

Fixpoint parse_digits (s : text) (v : Z) : option Z :=
  match s with
  | [] => Some v
  | c :: s => if (c <? 48) || (57 <? c) then None else parse_digits s (u64 (u64 (v * 10) + (c - 48)))
  end.

Definition rs_parse_u64 (s : text) : option Z :=
  match s with [] => None | _ => parse_digits s 0 end.

Definition rs_parse_bool (s : text) : option Z :=
  if rs_streq s str_true || rs_streq s str_1 then Some 1
  else if rs_streq s str_false || rs_streq s str_0 then Some 0
  else None.

(** The decimal digits of [v], most significant first. *)
Fixpoint u64_digits (fuel : nat) (v : Z) (acc : text) : text :=
  match fuel with
  | O => acc
  | S fuel => if v =? 0 then acc else u64_digits fuel (v / 10) (48 + v mod 10 :: acc)
  end.

Definition rs_u64_to_str (v max : Z) : text :=
  take (Z.to_nat (max - 1)) (if v =? 0 then [48] else u64_digits 24 v []).

(** * Doubles *)

Definition f64 : Type := spec_float.
Definition f64_add : f64 → f64 → f64 := SFadd 53 1024.
Definition f64_sub : f64 → f64 → f64 := SFsub 53 1024.
Definition f64_mul : f64 → f64 → f64 := SFmul 53 1024.
Definition f64_of_Z (z : Z) : f64 := binary_normalize 53 1024 z 0 false.
(** The literal [0.1]. *)
Definition f64_tenth : f64 := S754_finite false 7205759403792794 (-56).

(** The eight bytes of a double, as a word. *)
Definition f64_bits (x : f64) : Z :=
  match x with
  | S754_zero s => if s then 2 ^ 63 else 0
  | S754_infinity s => (if s then 2 ^ 63 else 0) + 2047 * 2 ^ 52
  | S754_nan => 2047 * 2 ^ 52 + 2 ^ 51
  | S754_finite s m e =>
      (if s then 2 ^ 63 else 0) + (if Z.pos m <? 2 ^ 52 then Z.pos m else (e + 1075) * 2 ^ 52 + (Z.pos m - 2 ^ 52))
  end.

Definition f64_of_bits (b : Z) : f64 :=
  let s := Z.testbit b 63 in
  let ex := b / 2 ^ 52 mod 2 ^ 11 in
  let fr := b mod 2 ^ 52 in
  if ex =? 2047 then if fr =? 0 then S754_infinity s else S754_nan
  else if ex =? 0 then match fr with Z.pos m => S754_finite s m (-1074) | _ => S754_zero s end
  else match fr + 2 ^ 52 with Z.pos m => S754_finite s m (ex - 1075) | _ => S754_nan end.

(** The integer part of a double, towards zero. *)
Definition f64_trunc (x : f64) : option Z :=
  match x with
  | S754_zero _ => Some 0
  | S754_finite s m e =>
      let a := if 0 <=? e then Z.pos m * 2 ^ e else Z.pos m / 2 ^ (- e) in Some (if s then - a else a)
  | _ => None
  end.

Class CConv := {
  u64_undefined : f64 → Z;
  int_undefined : f64 → Z
}.

Section Doubles.
Context `{CConv}.

(** [(uint64_t)x] and [(int)x] *)
Definition f64_to_u64 (x : f64) : Z :=
  match f64_trunc x with
  | Some a => if (0 <=? a) && (a <? 2 ^ 64) then a else u64 (u64_undefined x)
  | None => u64 (u64_undefined x)
  end.
Definition f64_to_int (x : f64) : Z :=
  match f64_trunc x with
  | Some a => if (- 2 ^ 31 <=? a) && (a <? 2 ^ 31) then a else int_undefined x
  | None => int_undefined x
  end.

(** The digits before the point: the value, whether one was seen, and the rest. *)
Fixpoint f64_int_part (s : text) (v : f64) (saw : bool) : f64 * bool * text :=
  match s with
  | c :: s' => if is_digit c then f64_int_part s' (f64_add (f64_mul v (f64_of_Z 10)) (f64_of_Z (c - 48))) true else (v, saw, s)
  | [] => (v, saw, [])
  end.
Fixpoint f64_frac_part (s : text) (v frac : f64) (saw : bool) : f64 * bool * text :=
  match s with
  | c :: s' =>
      if is_digit c then f64_frac_part s' (f64_add v (f64_mul (f64_of_Z (c - 48)) frac)) (f64_mul frac f64_tenth) true
      else (v, saw, s)
  | [] => (v, saw, [])
  end.

Definition rs_parse_f64 (s : text) : option f64 :=
  let '(neg, s) := match s with 45 :: s => (true, s) | _ => (false, s) end in
  match s with
  | [] => None
  | _ =>
      let '(v, saw, s) := f64_int_part s (S754_zero false) false in
      let '(v, saw, s) := match s with 46 :: s => f64_frac_part s v f64_tenth saw | _ => (v, saw, s) end in
      match s with
      | [] => if saw then Some (if neg then SFopp v else v) else None
      | _ => None
      end
  end.

(** The digits after the point. *)
Fixpoint f64_print_frac (d : nat) (frac : f64) : text :=
  match d with
  | O => []
  | S d =>
      let frac := f64_mul frac (f64_of_Z 10) in
      let digit := f64_to_int frac in
      let digit := if digit <? 0 then 0 else digit in
      let digit := if 9 <? digit then 9 else digit in
      48 + digit :: f64_print_frac d (f64_sub frac (f64_of_Z digit))
  end.

Definition rs_f64_to_str (v : f64) (max : Z) : text :=
  let '(sign, v) := if SFltb v (S754_zero false) then ([45], SFopp v) else ([], v) in
  let ip := f64_to_u64 v in
  let frac := f64_sub v (f64_of_Z ip) in
  take (Z.to_nat (max - 1)) (sign ++ rs_u64_to_str ip 24 ++ [46] ++ f64_print_frac 6 frac).

End Doubles.

(** * Keys *)

Inductive SLSFieldType :=
| FIELD_TYPE_STRING
| FIELD_TYPE_UINT64
| FIELD_TYPE_FLOAT
| FIELD_TYPE_BOOL
| FIELD_TYPE_BLOB.

#[export] Instance SLSFieldType_eq_dec : EqDecision SLSFieldType.
Proof. solve_decision. Defined.
#[export] Instance CZero_field_type : CZero SLSFieldType := FIELD_TYPE_STRING.

(** Bytes followed by zeros, up to [n]. *)
Definition zero_pad (n : Z) (bs : list Z) : list Z := bs ++ replicate (Z.to_nat n - length bs) 0.

(** [for (i = 0; i < 8; i++) out[i] = (uint8_t)(v >> (56 - i * 8));] *)
Definition be_word (v : Z) : list Z := tab (fun i => u8 (Z.shiftr v (56 - i * 8))) 8.

(** The bit pattern of a double made to compare as an unsigned word. *)
Definition f64_order (bits : Z) : Z :=
  if negb (Z.land bits (2 ^ 63) =? 0) then u64_not bits else Z.lor bits (2 ^ 63).

Definition encode_key (t : SLSFieldType) (s : text) : option key :=
  match t with
  | FIELD_TYPE_UINT64 => zero_pad BTREE_MAX_KEY_BYTES ∘ be_word <$> rs_parse_u64 s
  | FIELD_TYPE_FLOAT => (fun v => zero_pad BTREE_MAX_KEY_BYTES (be_word (f64_order (f64_bits v)))) <$> rs_parse_f64 s
  | FIELD_TYPE_BOOL => (fun v => zero_pad BTREE_MAX_KEY_BYTES [v]) <$> rs_parse_bool s
  | FIELD_TYPE_STRING | FIELD_TYPE_BLOB =>
      if BTREE_MAX_KEY_BYTES <=? Z.of_nat (length s) then None else Some (zero_pad BTREE_MAX_KEY_BYTES s)
  end.

(** * Rows *)

Definition ROWSTORE_MAX_COLUMNS : Z := 16.
Definition ROWSTORE_STRING_LEN : Z := 64.
Definition ROWSTORE_PAGE_SIZE : Z := 4096.
Definition SCHEMA_MAX_FIELDS : Z := 32.
Definition RECORD_KEY_LEN : Z := 64.
Definition RECORD_VAL_LEN : Z := 256.

Record RowValues := mkRow { count : Z; null_mask : Z; values : gmap Z text }.

Definition text_at (v : RowValues) (c : Z) : text := tget (values v) c.

(** [values->null_mask & (1u << c)] *)
Definition is_null (v : RowValues) (c : Z) : bool := Z.testbit (null_mask v) c.

Record SLSSchemaField := mkField { f_key : text; f_type : SLSFieldType; f_active : Z }.
#[export] Instance CZero_schema_field : CZero SLSSchemaField := mkField [] FIELD_TYPE_STRING 0.
Record SLSObjectSchema := mkSchema { field_count : Z; fields : gmap Z SLSSchemaField }.
#[export] Instance CZero_schema : CZero SLSObjectSchema := mkSchema 0 ∅.

Record RowTableLayout := mkLayout {
  column_count : Z;
  column_types : gmap Z SLSFieldType;
  column_names : gmap Z text;
  column_offset : gmap Z Z;
  row_width : Z;
  rows_per_page : Z
}.
#[export] Instance CZero_layout : CZero RowTableLayout := mkLayout 0 ∅ ∅ ∅ 0 0.

Definition name_at (l : RowTableLayout) (c : Z) : text := tget (column_names l) c.

Definition column_width (t : SLSFieldType) : Z :=
  match t with
  | FIELD_TYPE_UINT64 => 8
  | FIELD_TYPE_FLOAT => 8
  | FIELD_TYPE_BOOL => 1
  | FIELD_TYPE_STRING | FIELD_TYPE_BLOB => ROWSTORE_STRING_LEN
  end.

(** The columns of the active fields, in the order of the schema, with the next free offset as the width. *)
Definition layout_column (f : SLSSchemaField) (l : RowTableLayout) : RowTableLayout :=
  let col := column_count l in
  let offset := row_width l in
  mkLayout (col + 1) (column_types l).[col <- f_type f] (column_names l).[col <- rs_strcpy (f_key f) RECORD_KEY_LEN]
    (column_offset l).[col <- offset] (offset + column_width (f_type f)) (rows_per_page l).

Definition compute_layout (s : SLSObjectSchema) : option RowTableLayout :=
  let active_count := count_up (Z.to_nat SCHEMA_MAX_FIELDS) 0 (fun i => negb (f_active (fields s).[i] =? 0)) in
  if (active_count =? 0) || (ROWSTORE_MAX_COLUMNS <? active_count) then None else
  let l := for_up (Z.to_nat SCHEMA_MAX_FIELDS) 0
             (fun i l => if f_active (fields s).[i] =? 0 then l else layout_column (fields s).[i] l)
             (mkLayout 0 ∅ ∅ ∅ 3 0) in
  let rpp := (ROWSTORE_PAGE_SIZE - 4) / row_width l in
  if rpp =? 0 then None
  else Some (mkLayout (column_count l) (column_types l) (column_names l) (column_offset l) (row_width l) rpp).

(** The bytes of one column. *)
Definition column_bytes (t : SLSFieldType) (s : text) : option (list Z) :=
  match t with
  | FIELD_TYPE_UINT64 => le_bytes 8 <$> rs_parse_u64 s
  | FIELD_TYPE_FLOAT => le_bytes 8 ∘ f64_bits <$> rs_parse_f64 s
  | FIELD_TYPE_BOOL => (fun v => [v]) <$> rs_parse_bool s
  | FIELD_TYPE_STRING | FIELD_TYPE_BLOB =>
      if ROWSTORE_STRING_LEN <=? Z.of_nat (length s) then None else Some (zero_pad ROWSTORE_STRING_LEN s)
  end.

Definition slot_bytes (l : RowTableLayout) (v : RowValues) (c : Z) : option (list Z) :=
  let t := (column_types l).[c] in
  if is_null v c then Some (replicate (Z.to_nat (column_width t)) 0) else column_bytes t (text_at v c).

Fixpoint serialize_columns (m : nat) (c : Z) (l : RowTableLayout) (v : RowValues) (out : gmap Z Z) : option (gmap Z Z) :=
  match m with
  | O => Some out
  | S m =>
      match slot_bytes l v c with
      | None => None
      | Some bs => serialize_columns m (c + 1) l v (wr_bytes (column_offset l).[c] bs out)
      end
  end.

(** [serialize_row] into the buffer [out] *)
Definition serialize_row (l : RowTableLayout) (v : RowValues) (out : gmap Z Z) : option (gmap Z Z) :=
  serialize_columns (Z.to_nat (column_count l)) 0 l v
    (wr_bytes 0 [1; Z.land (null_mask v) 0xFF; Z.land (Z.shiftr (null_mask v) 8) 0xFF] out).

Section Rows.
Context `{CConv}.

(** The text before the first NUL of a slot, cut to the value buffer. *)
Fixpoint c_string (bs : list Z) : text :=
  match bs with [] => [] | b :: bs => if b =? 0 then [] else b :: c_string bs end.

Definition column_text (t : SLSFieldType) (bs : list Z) : text :=
  match t with
  | FIELD_TYPE_UINT64 => rs_u64_to_str (le_word bs) RECORD_VAL_LEN
  | FIELD_TYPE_FLOAT => rs_f64_to_str (f64_of_bits (le_word bs)) RECORD_VAL_LEN
  | FIELD_TYPE_BOOL => rs_strcpy (if default 0 (head bs) =? 0 then str_false else str_true) RECORD_VAL_LEN
  | FIELD_TYPE_STRING | FIELD_TYPE_BLOB => rs_strcpy (c_string bs) RECORD_VAL_LEN
  end.

(** [deserialize_row] of the row at [base] of a buffer *)
Definition deserialize_row (l : RowTableLayout) (base : Z) (buf : gmap Z Z) : RowValues :=
  let mask := u16 (Z.lor buf.[base + 1] (Z.shiftl buf.[base + 2] 8)) in
  mkRow (column_count l) mask
    (for_up (Z.to_nat (column_count l)) 0
      (fun c vs =>
        vs.[c <- if Z.testbit mask c then []
                 else let t := (column_types l).[c] in
                      column_text t (rd_bytes (base + (column_offset l).[c]) (column_width t) buf)])
      ∅).

End Rows.
