(* ===== verification/RowCodecSpec.v ===== *)
(** Column values: printing and parsing agree, a stored row reads back, and keys compare as the values do. *)
From stdpp Require Import base gmap list list_numbers.
From Stdlib Require Import ZArith Lia Floats.SpecFloat.
From S2P Require Import Prelude Bytes BTree BTreeLib RowCodec.
#[local] Open Scope Z_scope.
#[local] Open Scope carr_scope.

(** * Numbers *)

Lemma parse_digits_range s : ∀ v w, parse_digits s v = Some w → 0 ≤ v < 2 ^ 64 → 0 ≤ w < 2 ^ 64.
Proof.
  induction s as [|c s IH]; intros v w H Hv; cbn [parse_digits] in H; [by simplify_eq|].
  destruct (_ || _); [done|]. eapply IH; [done|]. apply Z.mod_pos_bound. lia.
Qed.

Lemma parse_u64_range s v : rs_parse_u64 s = Some v → 0 ≤ v < 2 ^ 64.
Proof. destruct s; [done|]. intros H%parse_digits_range; lia. Qed.

Lemma parse_digits_step d acc v : 0 ≤ d < 10 → 0 ≤ v → v * 10 + d < 2 ^ 64 → parse_digits (48 + d :: acc) v = parse_digits acc (v * 10 + d).
Proof.
  intros Hd Hv Hb. cbn [parse_digits]. replace ((48 + d <? 48) || (57 <? 48 + d)) with false by zcase.
  rewrite (u64_small (v * 10)) by lia. rewrite u64_small by lia. f_equal. lia.
Qed.

(** Printing in decimal and reading back. *)
Lemma u64_digits_parse n : ∀ v acc, 0 ≤ v < 10 ^ Z.of_nat n → v < 2 ^ 64 → parse_digits (u64_digits n v acc) 0 = parse_digits acc v.
Proof.
  induction n as [|n IH]; intros v acc Hv Hb; cbn [u64_digits].
  { by replace v with 0 by (change (10 ^ Z.of_nat 0) with 1 in Hv; lia). }
  destruct (Z.eqb_spec v 0) as [->|Hne]; [done|]. rewrite Nat2Z.inj_succ, Z.pow_succ_r in Hv by lia.
  pose proof (Z.div_mod v 10 ltac:(lia)) as E. pose proof (Z.mod_pos_bound v 10 ltac:(lia)).
  rewrite IH by lia. rewrite parse_digits_step by lia. f_equal. lia.
Qed.

Lemma u64_digits_length n : ∀ v acc, (length (u64_digits n v acc) ≤ n + length acc)%nat.
Proof.
  induction n as [|n IH]; intros v acc; cbn [u64_digits]; [done|]. destruct (_ =? _); [lia|].
  etrans; [apply IH|]. cbn [length]. lia.
Qed.

Lemma u64_digits_text n : ∀ v acc, is_text acc → 0 ≤ v → is_text (u64_digits n v acc).
Proof.
  induction n as [|n IH]; intros v acc Ha Hv; cbn [u64_digits]; [done|]. destruct (_ =? _); [done|].
  pose proof (Z.mod_pos_bound v 10 ltac:(lia)). apply IH; [constructor; [lia | done]|]. apply Z.div_pos; lia.
Qed.

Lemma u64_to_str_full v max : 24 < max → 
  rs_u64_to_str v max = if v =? 0 then [48] else u64_digits 24 v [].
Proof.
  intros Hm. unfold rs_u64_to_str. apply take_ge. destruct (_ =? _); [cbn; lia|].
  pose proof (u64_digits_length 24 v []) as H. cbn [length] in H. lia.
Qed.

(** A printed number reads back as itself. *)
Lemma parse_print_u64 v max : 24 < max → 0 ≤ v < 2 ^ 64 → rs_parse_u64 (rs_u64_to_str v max) = Some v.
Proof.
  intros Hm Hv. rewrite u64_to_str_full by done. destruct (Z.eqb_spec v 0) as [->|Hne]; [done|].
  assert (v < 10 ^ Z.of_nat 24) by (change (10 ^ Z.of_nat 24) with 1000000000000000000000000; lia).
  pose proof (u64_digits_parse 24 v [] ltac:(lia) ltac:(lia)) as E. cbn [parse_digits] in E.
  destruct (u64_digits 24 v []) as [|c s] eqn:Ed; [|done]. cbn in E. congruence.
Qed.

Lemma print_u64_text v max : 0 ≤ v → is_text (rs_u64_to_str v max).
Proof.
  intros Hv. apply Forall_take. destruct (_ =? _); [repeat constructor; lia|]. by apply u64_digits_text; [constructor|].
Qed.

(** * Columns *)

Lemma zero_pad_length n bs : Z.of_nat (length bs) ≤ n → length (zero_pad n bs) = Z.to_nat n.
Proof. intros H. unfold zero_pad. rewrite length_app, length_replicate. lia. Qed.

Lemma c_string_pad s m : is_text s → c_string (s ++ replicate m 0) = s.
Proof.
  induction 1 as [|c s Hc _ IH]; [by destruct m|]. cbn [app c_string]. replace (c =? 0) with false by zcase. by rewrite IH.
Qed.

Lemma c_string_text bs : Forall byte bs → is_text (c_string bs).
Proof.
  induction 1 as [|b bs Hb _ IH]; [constructor|]. cbn [c_string]. destruct (Z.eqb_spec b 0); [constructor|].
  constructor; [unfold byte in Hb; lia | done].
Qed.

Lemma column_bytes_length t s bs : column_bytes t s = Some bs → Z.of_nat (length bs) = column_width t.
Proof.
  destruct t; cbn [column_bytes column_width]; intros H.
  - destruct (Z.leb_spec ROWSTORE_STRING_LEN (Z.of_nat (length s))); simplify_eq. rewrite zero_pad_length by lia. done.
  - destruct (rs_parse_u64 s); simplify_eq/=. done.
  - destruct (rs_parse_f64 s); simplify_eq/=. done.
  - destruct (rs_parse_bool s); simplify_eq/=. done.
  - destruct (Z.leb_spec ROWSTORE_STRING_LEN (Z.of_nat (length s))); simplify_eq. rewrite zero_pad_length by lia. done.
Qed.

Lemma parse_bool_cases s v : rs_parse_bool s = Some v → v = 0 ∨ v = 1.
Proof. unfold rs_parse_bool. destruct (_ || _); [intros [= <-]; by right|]. destruct (_ || _); [intros [= <-]; by left | done]. Qed.

Section Columns.
Context `{CConv}.

(** What a column gives back: a string is itself, a number is printed in decimal, a truth value is
    spelled out; a double is printed with six decimals. *)
Definition column_canon (t : SLSFieldType) (s : text) : text :=
  match t with
  | FIELD_TYPE_UINT64 => from_option (fun v => rs_u64_to_str v RECORD_VAL_LEN) [] (rs_parse_u64 s)
  | FIELD_TYPE_FLOAT =>
      from_option (fun v => rs_f64_to_str (f64_of_bits (f64_bits v mod 2 ^ 64)) RECORD_VAL_LEN) [] (rs_parse_f64 s)
  | FIELD_TYPE_BOOL => from_option (fun v => if v =? 0 then str_false else str_true) [] (rs_parse_bool s)
  | FIELD_TYPE_STRING | FIELD_TYPE_BLOB => s
  end.

Lemma column_text_bytes t s bs : is_text s → column_bytes t s = Some bs → column_text t bs = column_canon t s.
Proof.
  intros Hs Hb. destruct t; cbn [column_bytes column_text column_canon] in *.
  1,5: destruct (Z.leb_spec ROWSTORE_STRING_LEN (Z.of_nat (length s))); simplify_eq;
    unfold zero_pad; rewrite c_string_pad by done; apply take_ge; unfold ROWSTORE_STRING_LEN, RECORD_VAL_LEN in *; lia.
  - destruct (rs_parse_u64 s) as [v|] eqn:E; [|done]. apply (inj Some) in Hb as <-. apply parse_u64_range in E.
    rewrite le_word_bytes, Z.mod_small by done. done.
  - destruct (rs_parse_f64 s) as [v|]; [|done]. apply (inj Some) in Hb as <-. cbn [from_option compose]. by rewrite le_word_bytes.
  - destruct (rs_parse_bool s) as [v|]; simplify_eq/=. by destruct (_ =? _).
Qed.

(** Storing what was read back stores the same bytes. *)
Lemma column_canon_bytes t s bs : t ≠ FIELD_TYPE_FLOAT → column_bytes t s = Some bs → column_bytes t (column_canon t s) = Some bs.
Proof.
  intros Ht. destruct t; cbn [column_bytes column_canon]; [done| |done| |done].
  - destruct (rs_parse_u64 s) as [v|] eqn:E; [|done]. intros [= <-]. cbn [from_option].
    rewrite parse_print_u64; [done | done | by eapply parse_u64_range].
  - destruct (rs_parse_bool s) as [v|] eqn:E; [|done]. apply parse_bool_cases in E as [-> | ->]; done.
Qed.

(** The text read back has the key of the text stored. *)
Lemma encode_canon t s bs : t ≠ FIELD_TYPE_FLOAT → column_bytes t s = Some bs → encode_key t (column_canon t s) = encode_key t s.
Proof.
  intros Ht. destruct t; cbn [column_bytes encode_key column_canon]; [done| |done| |done].
  - destruct (rs_parse_u64 s) as [v|] eqn:E; [|done]. intros _. cbn [from_option].
    rewrite parse_print_u64; [done | done | by eapply parse_u64_range].
  - destruct (rs_parse_bool s) as [v|] eqn:E; [|done]. apply parse_bool_cases in E as [-> | ->]; done.
Qed.

(** A column that can be stored can be indexed. *)
Lemma encode_total t s bs : column_bytes t s = Some bs → is_Some (encode_key t s).
Proof.
  destruct t; cbn [column_bytes encode_key].
  - change ROWSTORE_STRING_LEN with BTREE_MAX_KEY_BYTES. destruct (_ <=? _); [done | eauto].
  - destruct (rs_parse_u64 s); [cbn; eauto | done].
  - destruct (rs_parse_f64 s); [cbn; eauto | done].
  - destruct (rs_parse_bool s); [cbn; eauto | done].
  - change ROWSTORE_STRING_LEN with BTREE_MAX_KEY_BYTES. destruct (_ <=? _); [done | eauto].
Qed.

End Columns.

(** * Layouts *)

(** Columns side by side after the three bytes of the row header. *)
Record columns_ok (l : RowTableLayout) : Prop := ColumnsOk {
  co_in : ∀ c, 0 ≤ c < column_count l → 3 ≤ (column_offset l).[c] ∧ (column_offset l).[c] + column_width (column_types l).[c] ≤ row_width l;
  co_sep : ∀ c c', 0 ≤ c < c' → c' < column_count l → (column_offset l).[c] + column_width (column_types l).[c] ≤ (column_offset l).[c']
}.

Record layout_ok (l : RowTableLayout) : Prop := LayoutOk {
  lay_columns : columns_ok l;
  lay_count : 0 < column_count l ≤ ROWSTORE_MAX_COLUMNS;
  lay_width : 3 ≤ row_width l;
  lay_rows : 0 < rows_per_page l ∧ rows_per_page l * row_width l ≤ ROWSTORE_PAGE_SIZE - 4
}.

Lemma column_width_pos t : 0 < column_width t.
Proof. by destruct t. Qed.

Lemma layout_column_ok f l : 0 ≤ column_count l → 3 ≤ row_width l → columns_ok l → columns_ok (layout_column f l).
Proof.
  intros Hc Hw [Hin Hsep]. pose proof (column_width_pos (f_type f)). split; unfold layout_column; cbn [column_count column_types column_offset row_width].
  - intros c Hr. rewrite !aget_upd. destruct (Z.eqb_spec (column_count l) c); [lia|]. specialize (Hin c ltac:(lia)). lia.
  - intros c c' Hr Hr'. rewrite !aget_upd. destruct (Z.eqb_spec (column_count l) c); [lia|].
    destruct (Z.eqb_spec (column_count l) c'); [apply Hin; lia|]. apply Hsep; lia.
Qed.

Lemma compute_layout_ok s l : compute_layout s = Some l → layout_ok l.
Proof.
  unfold compute_layout. set (act := fun i => negb (f_active (fields s).[i] =? 0)). destruct (_ || _) eqn:Hn; [done|].
  set (l1 := for_up _ _ _ _). destruct (Z.eqb_spec ((ROWSTORE_PAGE_SIZE - 4) / row_width l1) 0) as [|Hr]; [done|]. intros [= <-].
  assert (columns_ok l1 ∧ 3 ≤ row_width l1 ∧ column_count l1 = count_up (Z.to_nat SCHEMA_MAX_FIELDS) 0 act) as (Hc & Hw & Hk).
  { subst l1. pose proof (for_up_ind (fun j l => columns_ok l ∧ 3 ≤ row_width l ∧ column_count l = count_up (Z.to_nat j) 0 act)
      (Z.to_nat SCHEMA_MAX_FIELDS) 0 (fun i l => if f_active (fields s).[i] =? 0 then l else layout_column (fields s).[i] l)
      (mkLayout 0 ∅ ∅ ∅ 3 0)) as I. apply I; clear I.
    - split_and!; [split; intros; cbn in *; lia | done | done].
    - intros j l Hj (Hc & Hw & Hk). replace (Z.to_nat (j + 1)) with (Z.to_nat j + 1)%nat by lia. rewrite count_up_app. cbn [count_up].
      rewrite Z.add_0_l, Z2Nat.id, Z.add_0_r by lia. unfold act at 2. pose proof (count_up_bounds (Z.to_nat j) 0 act).
      destruct (f_active (fields s).[j] =? 0); cbn [negb]; [split_and!; [done | done | lia]|]. pose proof (column_width_pos (f_type (fields s).[j])).
      split_and!; [apply layout_column_ok; (done || lia) | cbn; lia | cbn [layout_column column_count]; lia]. }
  rewrite <- Hk in Hn. pose proof (count_up_bounds (Z.to_nat SCHEMA_MAX_FIELDS) 0 act). destruct Hc as [Hin Hsep].
  assert (0 ≤ (ROWSTORE_PAGE_SIZE - 4) / row_width l1) by (apply Z.div_pos; unfold ROWSTORE_PAGE_SIZE; lia).
  pose proof (Z.mul_div_le (ROWSTORE_PAGE_SIZE - 4) (row_width l1) ltac:(lia)).
  split; cbn; [by split | | done | split; lia].
  apply orb_false_iff in Hn as [?%Z.eqb_neq ?%Z.ltb_ge]. lia.
Qed.

(** * Rows *)

Section Rows.
Context `{CConv} (l : RowTableLayout) (Hl : layout_ok l).
Implicit Types (v : RowValues) (buf : gmap Z Z).

Let wd (c : Z) : Z := column_width (column_types l).[c].

(** The row a table gives back for the values it was given. *)
Definition stored (v : RowValues) : RowValues :=
  mkRow (column_count l) (null_mask v)
    (for_up (Z.to_nat (column_count l)) 0
      (fun c vs => vs.[c <- if is_null v c then [] else column_canon (column_types l).[c] (text_at v c)]) ∅).

Definition row_ok (v : RowValues) : Prop := 0 ≤ null_mask v < 2 ^ 16 ∧ ∀ c, is_text (text_at v c).

Lemma slot_bytes_length v c bs : slot_bytes l v c = Some bs → Z.of_nat (length bs) = wd c.
Proof.
  unfold slot_bytes. destruct (is_null v c); [|apply column_bytes_length].
  intros [= <-]. rewrite length_replicate. pose proof (column_width_pos (column_types l).[c]). unfold wd. lia.
Qed.

Lemma serialize_columns_spec v m : ∀ c out buf, 0 ≤ c → c + Z.of_nat m = column_count l → serialize_columns m c l v out = Some buf →
  (∀ i, (∀ c', c ≤ c' < column_count l → i < (column_offset l).[c']) → buf.[i] = out.[i]) ∧
  (∀ c', c ≤ c' < column_count l → slot_bytes l v c' = Some (rd_bytes (column_offset l).[c'] (wd c') buf)).
Proof using Hl.
  destruct Hl as [[Hin Hsep] _ _ _]. induction m as [|m IH]; intros c out buf Hc Hm Hs; cbn [serialize_columns] in Hs.
  { simplify_eq. split; [done | intros; lia]. }
  destruct (slot_bytes l v c) as [bs|] eqn:Hb; [|done]. pose proof (slot_bytes_length _ _ _ Hb) as Hlen.
  apply IH in Hs as [Hlo Hcols]; [|lia|lia]. split.
  - intros i Hi. rewrite Hlo by (intros c' ?; apply Hi; lia). rewrite wr_bytes_at, decide_False; [done|]. specialize (Hi c ltac:(lia)). lia.
  - intros c' Hc'. destruct (decide (c' = c)) as [->|]; [|apply Hcols; lia]. rewrite Hb. f_equal. rewrite <- Hlen.
    rewrite (rd_bytes_ext _ _ buf (wr_bytes (column_offset l).[c] bs out)); [by rewrite rd_wr_same|].
    intros i Hi. apply Hlo. intros c' Hr. specialize (Hsep c c' ltac:(lia) ltac:(lia)). unfold wd in Hlen. lia.
Qed.

(** The bytes of a serialised row. *)
Lemma serialize_row_spec v out buf : serialize_row l v out = Some buf →
  buf.[0] = 1 ∧ buf.[1] = Z.land (null_mask v) 0xFF ∧ buf.[2] = Z.land (Z.shiftr (null_mask v) 8) 0xFF ∧
  ∀ c, 0 ≤ c < column_count l → slot_bytes l v c = Some (rd_bytes (column_offset l).[c] (wd c) buf).
Proof using Hl.
  intros Hs. destruct (lay_count l Hl) as [Hc _]. apply serialize_columns_spec in Hs as [Hlo Hcols]; [|done|lia].
  assert (∀ i, 0 ≤ i < 3 → ∀ c', 0 ≤ c' < column_count l → i < (column_offset l).[c']) as Hh.
  { intros i Hi c' Hc'. pose proof (co_in l (lay_columns l Hl) c' Hc'). lia. }
  split_and!; [| | |done]; rewrite Hlo by (apply Hh; lia); by rewrite wr_bytes_at.
Qed.

(** Reading a row depends on its bytes only. *)
Lemma deserialize_ext b1 buf1 b2 buf2 : rd_bytes b1 (row_width l) buf1 = rd_bytes b2 (row_width l) buf2 →
  deserialize_row l b1 buf1 = deserialize_row l b2 buf2.
Proof using Hl.
  intros E. destruct Hl as [[Hin _] Hc Hw _].
  assert (∀ i, 0 ≤ i < row_width l → buf1.[b1 + i] = buf2.[b2 + i]) as Hi.
  { intros i Hi. pose proof (f_equal (.!! Z.to_nat i) E) as E'. cbn in E'. unfold rd_bytes in E'.
    rewrite !tab_lookup, Z2Nat.id in E' by lia. congruence. }
  unfold deserialize_row. rewrite !(Hi 1), !(Hi 2) by lia. f_equal. apply for_up_ext. intros c vs Hr. f_equal.
  destruct (Z.testbit _ c); [done|]. f_equal. apply tab_ext. intros i ?. specialize (Hin c ltac:(lia)).
  rewrite <- !Z.add_assoc. apply Hi. lia.
Qed.

Lemma mask_bytes m : 0 ≤ m < 2 ^ 16 → u16 (Z.lor (Z.land m 0xFF) (Z.shiftl (Z.land (Z.shiftr m 8) 0xFF) 8)) = m.
Proof.
  intros Hm. unfold u16. apply Z.bits_inj'. intros i Hi. rewrite <- Z.land_ones, Z.land_spec, Z.lor_spec by lia.
  change 0xFF with (Z.ones 8). rewrite Z.land_spec, Z.shiftl_spec, Z.land_spec by lia.
  destruct (decide (i < 8)).
  - rewrite (Z.ones_spec_low 8 i), (Z.ones_spec_low 16 i) by lia. rewrite (Z.testbit_neg_r _ (i - 8)) by lia. by rewrite andb_false_l, !andb_true_r, orb_false_r.
  - rewrite (Z.ones_spec_high 8 i), andb_false_r, Z.shiftr_spec by lia. replace (i - 8 + 8) with i by lia. destruct (decide (i < 16)).
    + rewrite (Z.ones_spec_low 8 (i - 8)), (Z.ones_spec_low 16 i) by lia. by rewrite orb_false_l, !andb_true_r.
    + rewrite (Z.ones_spec_high 16) by lia. rewrite andb_false_r. symmetry. destruct (decide (m = 0)) as [->|]; [apply Z.bits_0|].
      apply Z.bits_above_log2; [lia|]. assert (Z.log2 m < 16) by (apply Z.log2_lt_pow2; lia). lia.
Qed.

(** A row that was written reads back as its canonical values, whatever was in the buffer before. *)
Lemma serialize_deserialize v out buf : row_ok v → serialize_row l v out = Some buf → deserialize_row l 0 buf = stored v.
Proof using Hl.
  intros [Hm Ht] Hs. apply serialize_row_spec in Hs as (_ & H1 & H2 & Hc). unfold deserialize_row, stored.
  change (0 + 1) with 1. change (0 + 2) with 2. rewrite H1, H2, mask_bytes by done. f_equal. apply for_up_ext. intros c vs Hr.
  specialize (Hc c ltac:(lia)). unfold slot_bytes in Hc. unfold is_null in *. destruct (Z.testbit (null_mask v) c); [done|].
  f_equal. rewrite Z.add_0_l. by apply column_text_bytes.
Qed.

(** ** What is read back *)

Lemma text_at_stored v c : text_at (stored v) c = if decide (0 ≤ c < column_count l) then if is_null v c then [] else column_canon (column_types l).[c] (text_at v c) else [].
Proof using Hl.
  unfold text_at at 1, stored. cbn [values]. set (f := fun c => if is_null v c then [] else column_canon (column_types l).[c] (text_at v c)).
  destruct (lay_count l Hl) as [Hc _]. pose proof (for_up_ind (fun j (vs : gmap Z text) => ∀ c, tget vs c = if decide (0 ≤ c < j) then f c else [])
    (Z.to_nat (column_count l)) 0 (fun c vs => vs.[c <- f c]) ∅) as I. rewrite Z.add_0_l, Z2Nat.id in I by lia. apply I; clear I c.
  - intros c. by rewrite decide_False by lia.
  - intros j vs Hj IH c. rewrite tget_upd. destruct (Z.eqb_spec j c) as [->|]; [by rewrite decide_True by lia|]. rewrite IH.
    destruct (decide (0 ≤ c < j)); [by rewrite decide_True by lia | by rewrite decide_False by lia].
Qed.

Lemma print_frac_text d : ∀ frac, is_text (f64_print_frac d frac).
Proof.
  induction d as [|d IH]; intros frac; cbn [f64_print_frac]; [constructor|]. constructor; [|apply IH].
  set (x := f64_to_int _). destruct (Z.ltb_spec x 0); [cbn; lia|]. destruct (Z.ltb_spec 9 x); lia.
Qed.

Lemma f64_to_u64_range x : 0 ≤ f64_to_u64 x < 2 ^ 64.
Proof.
  unfold f64_to_u64. destruct (f64_trunc x) as [a|]; [|apply Z.mod_pos_bound; lia]. destruct (_ && _) eqn:E; [|apply Z.mod_pos_bound; lia].
  apply andb_true_iff in E as [?%Z.leb_le ?%Z.ltb_lt]. lia.
Qed.

Lemma column_canon_text t s : is_text s → is_text (column_canon t s).
Proof.
  intros Hs. destruct t; cbn [column_canon]; [done | | | |done].
  - destruct (rs_parse_u64 s) as [v|] eqn:E; [|constructor]. apply parse_u64_range in E. apply print_u64_text. lia.
  - destruct (rs_parse_f64 s) as [v|]; [|constructor]. unfold rs_f64_to_str, from_option.
    set (v' := f64_of_bits _). destruct (if SFltb v' (S754_zero false) then ([45], SFopp v') else ([], v')) as [sgn w] eqn:E. apply Forall_take. apply Forall_app. split.
    { destruct (SFltb _ _); injection E as <- _; repeat constructor; lia. }
    apply Forall_app. split; [apply print_u64_text, f64_to_u64_range|]. constructor; [lia | apply print_frac_text].
  - destruct (rs_parse_bool s) as [v|]; [|constructor]. cbn. destruct (_ =? _); repeat constructor; lia.
Qed.

Lemma stored_ok v : row_ok v → row_ok (stored v).
Proof using Hl.
  intros [Hm Ht]. split; [done|]. intros c. rewrite text_at_stored. destruct (decide _); [|constructor]. destruct (is_null v c); [constructor|]. by apply column_canon_text.
Qed.

(** NULL columns carry no text, as the interface has it. *)
Definition nulls_empty (v : RowValues) : Prop := ∀ c, is_null v c = true → text_at v c = [].

Lemma key_stored v buf out c : nulls_empty v → serialize_row l v out = Some buf → 0 ≤ c < column_count l → (column_types l).[c] ≠ FIELD_TYPE_FLOAT →
  encode_key (column_types l).[c] (text_at (stored v) c) = encode_key (column_types l).[c] (text_at v c).
Proof using Hl.
  intros Hne Hs Hc Ht. rewrite text_at_stored, decide_True by done. apply serialize_row_spec in Hs as (_ & _ & _ & Hs). specialize (Hs c Hc). unfold slot_bytes in Hs.
  destruct (is_null v c) eqn:En; [by rewrite (Hne c En)|]. by eapply encode_canon.
Qed.

End Rows.

