(* ===== verification/RowKeySpec.v ===== *)
(** Index keys: the bytes [encode_key] makes of a column value compare, as [key_cmp] compares them, the way
    the values do. *)
From stdpp Require Import base gmap list list_numbers.
From Stdlib Require Import ZArith Lia Floats.SpecFloat.
From S2P Require Import Prelude Bytes BTree BTreeLib RowCodec RowCodecSpec.
#[local] Open Scope Z_scope.
#[local] Open Scope carr_scope.

(** * Bytes as numbers *)

Lemma kv_app a b : kv (a ++ b) = kv a * 256 ^ Z.of_nat (length b) + kv b.
Proof.
  induction a as [|x a IH]; [done|]. cbn [app kv]. rewrite IH, length_app, Nat2Z.inj_add, Z.pow_add_r by lia. ring.
Qed.

Lemma kv_zeros n : kv (replicate n 0) = 0.
Proof. induction n as [|n IH]; [done|]. cbn [replicate kv]. rewrite IH. lia. Qed.

Lemma kv_pad n bs : Z.of_nat (length bs) ≤ n → kv (zero_pad n bs) = kv bs * 256 ^ (n - Z.of_nat (length bs)).
Proof.
  intros H. unfold zero_pad. rewrite kv_app, kv_zeros, length_replicate, Z.add_0_r. do 2 f_equal. lia.
Qed.

Lemma be_word_bytes v : Forall byte (be_word v).
Proof. apply Forall_forall. intros b (i & _ & ->)%tab_elem. apply Z.mod_pos_bound. lia. Qed.

Lemma kv_be_word v : 0 ≤ v < 2 ^ 64 → kv (be_word v) = v.
Proof.
  intros Hv. unfold be_word, tab, u8. change (seqZ 0 8) with [0; 1; 2; 3; 4; 5; 6; 7]. cbn [fmap list_fmap kv length Z.of_nat Z.mul Z.sub Z.add Pos.mul Pos.of_succ_nat Pos.succ].
  rewrite !Z.shiftr_div_pow2 by lia. change (256 ^ Z.pos 7) with (2 ^ 56). Z.div_mod_to_equations. lia.
Qed.

Lemma is_key_pad bs : Z.of_nat (length bs) ≤ BTREE_MAX_KEY_BYTES → Forall byte bs → is_key (zero_pad BTREE_MAX_KEY_BYTES bs).
Proof.
  intros Hl Hb. split; [by apply zero_pad_length|]. apply Forall_app. split; [done|]. apply Forall_replicate. unfold byte. lia.
Qed.

Lemma text_bytes s : is_text s → Forall byte s.
Proof. intros H. eapply Forall_impl; [exact H|]. unfold byte. cbn. lia. Qed.

Lemma encode_is_key t s k : is_text s → encode_key t s = Some k → is_key k.
Proof.
  intros Hs. destruct t; cbn [encode_key].
  1,5: destruct (Z.leb_spec BTREE_MAX_KEY_BYTES (Z.of_nat (length s))); [done|]; intros [= <-]; apply is_key_pad; [lia | by apply text_bytes].
  - destruct (rs_parse_u64 s) as [v|]; [|done]. intros <-%(inj Some). apply is_key_pad; [done | apply be_word_bytes].
  - destruct (rs_parse_f64 s) as [v|]; [|done]. intros <-%(inj Some). apply is_key_pad; [done | apply be_word_bytes].
  - destruct (rs_parse_bool s) as [v|] eqn:E; [|done]. intros <-%(inj Some). apply is_key_pad; [done|].
    apply parse_bool_cases in E as [-> | ->]; repeat constructor; unfold byte; lia.
Qed.

(** * Text *)

(** The order of [strcmp]. *)
Fixpoint text_lt (a b : text) : bool :=
  match a, b with
  | [], [] => false
  | [], _ :: _ => true
  | _ :: _, [] => false
  | x :: a, y :: b => if x =? y then text_lt a b else x <? y
  end.

Lemma zero_pad_cons n x a : 0 ≤ n → zero_pad (n + 1) (x :: a) = x :: zero_pad n a.
Proof. intros Hn. unfold zero_pad. cbn [app length]. do 3 f_equal. lia. Qed.

Lemma text_order a : ∀ n b, is_text a → is_text b → Z.of_nat (length a) ≤ n → Z.of_nat (length b) ≤ n →
  (kv (zero_pad n a) <? kv (zero_pad n b)) = text_lt a b.
Proof.
  induction a as [|x a IH]; intros n b Ha Hb Hla Hlb; destruct b as [|y b]; cbn [length] in *.
  - apply Z.ltb_ge. done.
  - apply Forall_cons in Hb as [Hy Hb]. cbn [text_lt]. apply Z.ltb_lt. rewrite (kv_pad n []) by (cbn; lia).
    replace n with (n - 1 + 1) by lia. rewrite zero_pad_cons by lia. pose proof (kv_bounds (zero_pad (n - 1) b)) as K.
    assert (Forall byte (zero_pad (n - 1) b)) as Hz. { apply Forall_app. split; [by apply text_bytes|]. apply Forall_replicate. unfold byte. lia. }
    cbn [kv]. assert (0 < 256 ^ Z.of_nat (length (zero_pad (n - 1) b))) by (apply Z.pow_pos_nonneg; lia). specialize (K Hz). nia.
  - apply Forall_cons in Ha as [Hx Ha]. apply Z.ltb_ge. rewrite (kv_pad n []) by (cbn; lia). cbn [kv]. apply kv_bounds.
    apply Forall_app. split; [apply (text_bytes (x :: a)); by constructor|]. apply Forall_replicate. unfold byte. lia.
  - apply Forall_cons in Ha as [Hx Ha]. apply Forall_cons in Hb as [Hy Hb]. cbn [text_lt].
    replace n with (n - 1 + 1) by lia. rewrite !zero_pad_cons by lia.
    assert (∀ s, is_text s → Forall byte (zero_pad (n - 1) s)) as Hz.
    { intros s Hs. apply Forall_app. split; [by apply text_bytes|]. apply Forall_replicate. unfold byte. lia. }
    assert (length (zero_pad (n - 1) a) = length (zero_pad (n - 1) b)) as El by (rewrite !zero_pad_length by lia; done).
    destruct (Z.eqb_spec x y) as [->|Hne].
    + rewrite <- (IH (n - 1) b) by (done || lia). cbn [kv]. rewrite El. apply eq_bool_prop_intro. split; intros ?%Is_true_eq_true%Z.ltb_lt; apply Is_true_eq_left, Z.ltb_lt; lia.
    + destruct (Z.ltb_spec x y); [apply Z.ltb_lt | apply Z.ltb_ge, Z.lt_le_incl]; apply kv_cons_lt; auto; lia.
Qed.

(** * Doubles *)

Definition f64_valid (x : f64) : Prop := valid_binary 53 1024 x = true ∧ x ≠ S754_nan.

(** The magnitude bits of a double. *)
Definition f64_mag (x : f64) : Z :=
  match x with
  | S754_zero _ | S754_nan => 0
  | S754_infinity _ => 2047 * 2 ^ 52
  | S754_finite _ m e => if Z.pos m <? 2 ^ 52 then Z.pos m else (e + 1075) * 2 ^ 52 + (Z.pos m - 2 ^ 52)
  end.
Definition f64_neg (x : f64) : bool :=
  match x with S754_zero s | S754_infinity s | S754_finite s _ _ => s | S754_nan => false end.

Lemma digits2_bounds m : 2 ^ (Z.pos (digits2_pos m) - 1) ≤ Z.pos m < 2 ^ Z.pos (digits2_pos m).
Proof.
  induction m as [m IH|m IH|]; cbn [digits2_pos]; [..|done].
  all: rewrite Pos2Z.inj_succ; replace (Z.succ (Z.pos (digits2_pos m)) - 1) with (Z.succ (Z.pos (digits2_pos m) - 1)) by lia;
    rewrite !Z.pow_succ_r by lia; lia.
Qed.

(** Canonical mantissas: subnormal numbers have the least exponent. *)
Lemma finite_valid s m e : f64_valid (S754_finite s m e) → Z.pos m < 2 ^ 53 ∧ -1074 ≤ e ≤ 971 ∧ (Z.pos m < 2 ^ 52 → e = -1074).
Proof.
  intros [Hv _]. cbn in Hv. unfold bounded, canonical_mantissa, fexp, emin in Hv. apply andb_true_iff in Hv as [Hc He%Z.leb_le].
  apply Z.eqb_eq in Hc. pose proof (digits2_bounds m) as [Hlo Hhi]. set (d := Z.pos (digits2_pos m)) in *.
  assert (Z.pos m < 2 ^ 53) by (eapply Z.lt_le_trans; [exact Hhi|]; apply Z.pow_le_mono_r; lia).
  split_and!; [done | lia | lia|]. intros Hm. destruct (decide (d = 53)) as [E|]; [|lia].
  rewrite E in Hlo. change (53 - 1) with 52 in Hlo. lia.
Qed.

Lemma mag_bounds x : f64_valid x → 0 ≤ f64_mag x < 2 ^ 63.
Proof.
  intros Hv. destruct x as [s|s| |s m e]; [done|done|done|]. apply finite_valid in Hv as (Hm & He & Hs). cbn [f64_mag]. zcase; lia.
Qed.

Lemma land_top a : 0 ≤ a < 2 ^ 63 → Z.land a (2 ^ 63) = 0.
Proof.
  intros Ha. apply Z.bits_inj'. intros i Hi. rewrite Z.land_spec, Z.pow2_bits_eqb, Z.bits_0 by lia. destruct (Z.eqb_spec 63 i) as [<-|]; [|by rewrite andb_false_r].
  rewrite andb_true_r. apply Z.testbit_false; [lia|]. by rewrite Z.div_small.
Qed.

Lemma lor_top a : 0 ≤ a < 2 ^ 63 → Z.lor a (2 ^ 63) = 2 ^ 63 + a.
Proof.
  intros Ha. rewrite <- Z.lxor_lor, <- Z.add_nocarry_lxor by (by apply land_top). lia.
Qed.

Lemma u64_not_sub a : 0 ≤ a < 2 ^ 64 → u64_not a = 2 ^ 64 - 1 - a.
Proof.
  intros Ha. unfold u64_not. change (2 ^ 64 - 1) with (Z.ones 64).
  assert (∀ i, 64 ≤ i → Z.testbit a i = false) as Hhi.
  { intros i Hi. apply Z.testbit_false; [lia|]. rewrite Z.div_small; [done|]. split; [lia|]. eapply Z.lt_le_trans; [apply Ha|]. apply Z.pow_le_mono_r; lia. }
  rewrite Z.sub_nocarry_ldiff; apply Z.bits_inj'; intros i Hi; rewrite Z.ldiff_spec, ?Z.lxor_spec, ?Z.bits_0; destruct (decide (i < 64)).
  1,3: rewrite Z.ones_spec_low by lia. 3,4: rewrite Z.ones_spec_high by lia. all: rewrite ?Hhi by lia; by destruct (Z.testbit a i).
Qed.

Lemma f64_order_bits x : f64_valid x → f64_order (f64_bits x) = if f64_neg x then 2 ^ 63 - 1 - f64_mag x else 2 ^ 63 + f64_mag x.
Proof.
  intros Hv. pose proof (mag_bounds x Hv) as Hb.
  assert (f64_bits x = (if f64_neg x then 2 ^ 63 else 0) + f64_mag x) as ->.
  { destruct Hv as [_ Hn]. destruct x as [[]|[]| |s m e]; done. }
  unfold f64_order. destruct (f64_neg x).
  - rewrite <- lor_top by done. rewrite Z.land_comm, Z.lor_comm, Z.land_lor_distr_r, Z.land_diag, (Z.land_comm _ (f64_mag x)), land_top by done.
    change (negb (_ =? 0)) with true. rewrite Z.lor_comm, lor_top, u64_not_sub by lia. lia.
  - rewrite Z.add_0_l, land_top by done. by apply lor_top.
Qed.

Lemma mag_compare s m e s' m' e' : f64_valid (S754_finite s m e) → f64_valid (S754_finite s' m' e') →
  (f64_mag (S754_finite s m e) ?= f64_mag (S754_finite s' m' e')) = match e ?= e' with Eq => (m ?= m')%positive | c => c end.
Proof.
  intros (Hm & He & Hs)%finite_valid (Hm' & He' & Hs')%finite_valid. cbn [f64_mag].
  destruct (Z.compare_spec e e') as [->| |]; [|apply Z.compare_lt_iff; zcase; lia | apply Z.compare_gt_iff; zcase; lia].
  change (m ?= m')%positive with (Z.pos m ?= Z.pos m').
  destruct (Z.compare_spec (Z.pos m) (Z.pos m')) as [->| |];
    [apply Z.compare_refl | apply Z.compare_lt_iff; zcase; lia | apply Z.compare_gt_iff; zcase; lia].
Qed.

Lemma mag_finite s m e : f64_valid (S754_finite s m e) → 0 < f64_mag (S754_finite s m e) < 2047 * 2 ^ 52.
Proof. intros (Hm & He & Hs)%finite_valid. cbn [f64_mag]. zcase; lia. Qed.

(** Comparing doubles is comparing signed magnitudes. *)
Definition f64_smag (x : f64) : Z := if f64_neg x then - f64_mag x else f64_mag x.

Lemma f64_compare x y : f64_valid x → f64_valid y → SFcompare x y = Some (f64_smag x ?= f64_smag y).
Proof.
  intros Hx Hy. unfold f64_smag.
  destruct x as [s|s| |s m e]; [| |by destruct Hx|]; destruct y as [s'|s'| |s' m' e']; [| |by destruct Hy| | | |by destruct Hy| | | |by destruct Hy|].
  all: try pose proof (mag_finite _ _ _ Hx); try pose proof (mag_finite _ _ _ Hy).
  9:{ pose proof (mag_compare _ _ _ _ _ _ Hx Hy) as E. cbn [SFcompare f64_neg]. fold (m ?= m')%positive.
      destruct s, s'; f_equal; [| symmetry; apply Z.compare_lt_iff; lia | symmetry; apply Z.compare_gt_iff; lia | by rewrite E; destruct (e ?= e')].
      rewrite Z.compare_opp, (Z.compare_antisym (f64_mag _)), E. by destruct (e ?= e'). }
  all: cbn [SFcompare f64_neg]; f_equal; symmetry; destruct s, s'; cbn [f64_mag] in *;
    (apply Z.compare_eq_iff || apply Z.compare_lt_iff || apply Z.compare_gt_iff); lia.
Qed.

(** * Values in order *)

Definition value_lt (t : SLSFieldType) (a b : text) : bool :=
  match t with
  | FIELD_TYPE_UINT64 => default 0 (rs_parse_u64 a) <? default 0 (rs_parse_u64 b)
  | FIELD_TYPE_FLOAT => SFltb (default S754_nan (rs_parse_f64 a)) (default S754_nan (rs_parse_f64 b))
  | FIELD_TYPE_BOOL => default 0 (rs_parse_bool a) <? default 0 (rs_parse_bool b)
  | FIELD_TYPE_STRING | FIELD_TYPE_BLOB => text_lt a b
  end.

Definition value_ok (t : SLSFieldType) (a : text) : Prop :=
  is_text a ∧ (t = FIELD_TYPE_FLOAT → ∀ x, rs_parse_f64 a = Some x → f64_valid x).

Lemma word_order v w : 0 ≤ v < 2 ^ 64 → 0 ≤ w < 2 ^ 64 →
  (key_cmp (zero_pad BTREE_MAX_KEY_BYTES (be_word v)) (zero_pad BTREE_MAX_KEY_BYTES (be_word w)) <? 0) = (v <? w).
Proof.
  intros Hv Hw. rewrite key_cmp_lt by (apply is_key_pad; [done | apply be_word_bytes]).
  rewrite !kv_pad by done. rewrite !kv_be_word by done. change (Z.of_nat (length _)) with 8.
  change (BTREE_MAX_KEY_BYTES - 8) with 56. zcase; lia.
Qed.

Lemma float_order x y : f64_valid x → f64_valid y →
  let b := key_cmp (zero_pad BTREE_MAX_KEY_BYTES (be_word (f64_order (f64_bits x)))) (zero_pad BTREE_MAX_KEY_BYTES (be_word (f64_order (f64_bits y)))) <? 0 in
  (SFltb x y = true → b = true) ∧ (b = true → SFleb x y = true).
Proof.
  intros Hx Hy. pose proof (mag_bounds x Hx). pose proof (mag_bounds y Hy). cbv zeta.
  rewrite word_order by (rewrite f64_order_bits by done; case_match; lia). rewrite !f64_order_bits by done.
  unfold SFltb, SFleb. rewrite f64_compare by done. unfold f64_smag. split.
  - destruct (_ ?= _) eqn:E; [done| |done]. intros _. rewrite Z.compare_lt_iff in E. apply Z.ltb_lt. revert E. destruct (f64_neg x), (f64_neg y); lia.
  - intros Hlt%Z.ltb_lt. destruct (_ ?= _) eqn:E; [done|done|]. rewrite Z.compare_gt_iff in E. revert E Hlt. destruct (f64_neg x), (f64_neg y); lia.
Qed.

(** C24: keys compare as values.  For every column type the byte order of the encoded keys is the order of the values - text by its
    characters, numbers by size with negative doubles below positive ones - so that a range of keys is a range of values; only doubles
    that compare equal, the two zeros, may have different keys. *)
Theorem key_order t a b ka kb : value_ok t a → value_ok t b → encode_key t a = Some ka → encode_key t b = Some kb →
  (value_lt t a b = true → key_cmp ka kb < 0) ∧
  (key_cmp ka kb < 0 → if decide (t = FIELD_TYPE_FLOAT) then value_lt t b a = false else value_lt t a b = true).
Proof.
  intros [Ha Hfa] [Hb Hfb] Hka Hkb. pose proof (encode_is_key _ _ _ Ha Hka) as Ka. pose proof (encode_is_key _ _ _ Hb Hkb) as Kb.
  rewrite <- Z.ltb_lt. destruct t; cbn [encode_key value_lt] in *.
  1,5: destruct (Z.leb_spec BTREE_MAX_KEY_BYTES (Z.of_nat (length a))); [done|]; destruct (Z.leb_spec BTREE_MAX_KEY_BYTES (Z.of_nat (length b))); [done|];
    simplify_eq; rewrite decide_False by done; rewrite key_cmp_lt by done; rewrite text_order by (done || lia); done.
  - destruct (rs_parse_u64 a) as [v|] eqn:Ea; [|done]. destruct (rs_parse_u64 b) as [w|] eqn:Eb; [|done].
    apply (inj Some) in Hka as <-, Hkb as <-. rewrite decide_False by done. cbn [default compose].
    rewrite word_order by (by eapply parse_u64_range). done.
  - destruct (rs_parse_f64 a) as [v|] eqn:Ea; [|done]. destruct (rs_parse_f64 b) as [w|] eqn:Eb; [|done].
    apply (inj Some) in Hka as <-, Hkb as <-. cbn [default]. rewrite decide_True by done.
    destruct (float_order v w) as [F1 F2]; [by apply Hfa | by apply Hfb|]. split; [done|]. intros Hlt%F2.
    unfold SFleb, SFltb in *. rewrite f64_compare in * by eauto. rewrite (Z.compare_antisym). destruct (_ ?= _); done.
  - destruct (rs_parse_bool a) as [v|] eqn:Ea; [|done]. destruct (rs_parse_bool b) as [w|] eqn:Eb; [|done].
    apply (inj Some) in Hka as <-, Hkb as <-. rewrite decide_False by done. cbn [default].
    apply parse_bool_cases in Ea as [-> | ->], Eb as [-> | ->]; done.
Qed.
