(* ===== verification/RowStore.v ===== *)
(** The row store: kernel/rowstore.c over kernel/storage_quota.c, and the index maintenance of
    kernel/row_index.c that it calls.

    A table's rows live in pages of the page store, chained by the first word of each page.  A page is
    cached in a RAM frame; [row_pages] holds the address of the frame and [ram] its bytes.  The frame
    allocator and the NVMe driver are interfaces.  Writing the in-memory tables to disk ([persist_*]) is not
    modelled.  [None] stands for an access outside the arrays of an index node. *)
From stdpp Require Import base gmap list.
From Stdlib Require Import ZArith Lia.
From S2P Require Import Prelude Bytes BTree Authority RowCodec.
#[local] Open Scope Z_scope.
#[local] Open Scope carr_scope.

Definition ROWSTORE_MAX_PAGES : Z := 262144.
Definition ROWSTORE_INVALID_PAGE : Z := 0xFFFFFFFF.
Definition ROWSTORE_PAGES_PER_PARTITION : Z := ROWSTORE_MAX_PAGES / PARTITION_MAX.
Definition ROWSTORE_LBA_BASE : Z := 2000000.
Definition ROWSTORE_RC_NOT_DURABLE : Z := 7.
Definition ROWSTORE_ADD_COLUMN_MAX_ROWS : Z := 4096.
Definition ROW_INDEX_MAX : Z := 16.
Definition ROW_CONSTRAINT_MAX : Z := 64.
Definition ROW_JOURNAL_MAX_ATTACHMENTS : Z := 16.

(** * Interfaces *)

(** [allocate_physical_ram_frame]: the address of a frame, 0 when there is none. *)
Class Frames (F : Type) := { allocate_frame : F → Z * F }.

(** [nvme_read_sync(slba, buf)] into the buffer it is given, and [nvme_write_sync(slba, buf)] *)
Class Nvme (D : Type) := {
  nvme_read_sync : Z → gmap Z Z → D → gmap Z Z * D;
  nvme_write_sync : Z → gmap Z Z → D → Z * D
}.

(** * State *)

Record RowTableHeader := mkHeader {
  h_object_id : Z;
  h_active : Z;
  layout : RowTableLayout;
  row_count : Z;
  page_count : Z;
  first_page_id : Z;
  last_page_id : Z;
  rows_in_last_page : Z
}.
#[export] Instance CZero_header : CZero RowTableHeader := mkHeader 0 0 czero 0 0 0 0 0.

Record RowIndex := mkIndex {
  index_name : text;
  table_object_id : Z;
  column_index : Z;
  column_type : SLSFieldType;
  tree : Tree;
  i_active : Z
}.
#[export] Instance CZero_index : CZero RowIndex := mkIndex [] 0 0 FIELD_TYPE_STRING (mkTree 0 0) 0.

Inductive RowConstraintKind := ROW_CONSTRAINT_UNIQUE | ROW_CONSTRAINT_NOT_NULL | ROW_CONSTRAINT_RANGE | ROW_CONSTRAINT_REFERENCE.
Record RowConstraintDef := mkConstraint {
  c_active : Z;
  c_kind : RowConstraintKind;
  c_table_object_id : Z;
  c_table_name : text;
  c_column : Z;
  literal_min : text;
  literal_max : text;
  ref_table_object_id : Z;
  ref_table_name : text;
  ref_column_index : Z;
  on_delete_action : Z
}.
#[export] Instance CZero_constraint : CZero RowConstraintDef := mkConstraint 0 ROW_CONSTRAINT_UNIQUE 0 [] 0 [] [] 0 [] 0 0.

Record RowJournalAttachment := mkAttachment { ja_journal : text; ja_table : text; ja_active : Z }.
#[export] Instance CZero_attachment : CZero RowJournalAttachment := mkAttachment [] [] 0.

(** The page pool, the page quotas of the partitions, the frames and the disk. *)
Record PageStore (F D : Type) := mkPages {
  rowstore_next_free_page_id : Z;
  rowstore_partition_cursor : gmap Z Z;
  row_pages : gmap Z Z;
  rowstore_undurable : Z;
  partition_page_usage : gmap Z Z;
  partition_page_quota : gmap Z Z;
  frames : F;
  ram : gmap Z (gmap Z Z);
  disk : D
}.
Arguments mkPages {F D}.
Arguments rowstore_next_free_page_id {F D}.
Arguments rowstore_partition_cursor {F D}.
Arguments row_pages {F D}.
Arguments rowstore_undurable {F D}.
Arguments partition_page_usage {F D}.
Arguments partition_page_quota {F D}.
Arguments frames {F D}.
Arguments ram {F D}.
Arguments disk {F D}.

Record Db (F D : Type) := mkDb {
  auth : Authority;
  object_schemas : gmap Z SLSObjectSchema;
  table_headers : gmap Z RowTableHeader;
  pages : PageStore F D;
  row_indexes : gmap Z RowIndex;
  nodes : Pool;
  row_constraints : gmap Z RowConstraintDef;
  row_journal_attachments : gmap Z RowJournalAttachment
}.
Arguments mkDb {F D}.
Arguments auth {F D}.
Arguments object_schemas {F D}.
Arguments table_headers {F D}.
Arguments pages {F D}.
Arguments row_indexes {F D}.
Arguments nodes {F D}.
Arguments row_constraints {F D}.
Arguments row_journal_attachments {F D}.

Section RowStore.
Context {F D : Type} `{!Frames F} `{!Nvme D} `{!CConv}.
Implicit Types (ps : PageStore F D) (db : Db F D).

Definition set_cursor (nf : Z) (c : gmap Z Z) ps : PageStore F D :=
  mkPages nf c (row_pages ps) (rowstore_undurable ps) (partition_page_usage ps) (partition_page_quota ps) (frames ps) (ram ps) (disk ps).
Definition set_page_usage (u : gmap Z Z) ps : PageStore F D :=
  mkPages (rowstore_next_free_page_id ps) (rowstore_partition_cursor ps) (row_pages ps) (rowstore_undurable ps) u (partition_page_quota ps)
    (frames ps) (ram ps) (disk ps).
Definition set_frames (f : F) ps : PageStore F D :=
  mkPages (rowstore_next_free_page_id ps) (rowstore_partition_cursor ps) (row_pages ps) (rowstore_undurable ps) (partition_page_usage ps)
    (partition_page_quota ps) f (ram ps) (disk ps).
Definition set_frame_bytes (a : Z) (b : gmap Z Z) ps : PageStore F D :=
  mkPages (rowstore_next_free_page_id ps) (rowstore_partition_cursor ps) (row_pages ps) (rowstore_undurable ps) (partition_page_usage ps)
    (partition_page_quota ps) (frames ps) (ram ps).[a <- b] (disk ps).
Definition set_page (id a : Z) ps : PageStore F D :=
  mkPages (rowstore_next_free_page_id ps) (rowstore_partition_cursor ps) (row_pages ps).[id <- a] (rowstore_undurable ps) (partition_page_usage ps)
    (partition_page_quota ps) (frames ps) (ram ps) (disk ps).
Definition set_disk (d : D) (u : Z) ps : PageStore F D :=
  mkPages (rowstore_next_free_page_id ps) (rowstore_partition_cursor ps) (row_pages ps) u (partition_page_usage ps)
    (partition_page_quota ps) (frames ps) (ram ps) d.

Definition set_auth (a : Authority) db : Db F D :=
  mkDb a (object_schemas db) (table_headers db) (pages db) (row_indexes db) (nodes db) (row_constraints db) (row_journal_attachments db).
Definition set_schema (i : Z) (s : SLSObjectSchema) db : Db F D :=
  mkDb (auth db) (object_schemas db).[i <- s] (table_headers db) (pages db) (row_indexes db) (nodes db) (row_constraints db) (row_journal_attachments db).
Definition set_header (i : Z) (h : RowTableHeader) db : Db F D :=
  mkDb (auth db) (object_schemas db) (table_headers db).[i <- h] (pages db) (row_indexes db) (nodes db) (row_constraints db) (row_journal_attachments db).
Definition set_pages ps db : Db F D :=
  mkDb (auth db) (object_schemas db) (table_headers db) ps (row_indexes db) (nodes db) (row_constraints db) (row_journal_attachments db).
Definition set_indexes (x : gmap Z RowIndex) (n : Pool) db : Db F D :=
  mkDb (auth db) (object_schemas db) (table_headers db) (pages db) x n (row_constraints db) (row_journal_attachments db).
Definition set_attached (c : gmap Z RowConstraintDef) (j : gmap Z RowJournalAttachment) db : Db F D :=
  mkDb (auth db) (object_schemas db) (table_headers db) (pages db) (row_indexes db) (nodes db) c j.

(** * Page quotas *)

Definition storage_page_reserve (p : Z) ps : Z * PageStore F D :=
  if PARTITION_MAX <=? p then (1, ps) else
  let quota := (partition_page_quota ps).[p] in
  let usage := (partition_page_usage ps).[p] in
  if negb (quota =? 0) && (quota <=? usage) then (1, ps)
  else (0, set_page_usage (partition_page_usage ps).[p <- u64 (usage + 1)] ps).

Definition storage_page_release (p n : Z) ps : Z * PageStore F D :=
  if PARTITION_MAX <=? p then (1, ps) else
  let usage := (partition_page_usage ps).[p] in
  (0, set_page_usage (partition_page_usage ps).[p <- if usage <? n then 0 else usage - n] ps).

Definition storage_set_page_quota (p quota : Z) ps : Z * PageStore F D :=
  if PARTITION_MAX <=? p then (1, ps) else
  (0, mkPages (rowstore_next_free_page_id ps) (rowstore_partition_cursor ps) (row_pages ps) (rowstore_undurable ps) (partition_page_usage ps)
        (partition_page_quota ps).[p <- quota] (frames ps) (ram ps) (disk ps)).

(** * Pages *)

(** A zeroed page whose first word is [ROWSTORE_INVALID_PAGE]. *)
Definition fresh_page : gmap Z Z := wr_bytes 0 (le_bytes 4 ROWSTORE_INVALID_PAGE) ∅.

(** The address of the frame that caches page [id], 0 when there is none. *)
Definition rowstore_load_page (id : Z) ps : Z * PageStore F D :=
  if ROWSTORE_MAX_PAGES <=? id then (0, ps) else
  if negb ((row_pages ps).[id] =? 0) then ((row_pages ps).[id], ps) else
  let '(frame, fr) := allocate_frame (frames ps) in
  let ps := set_frames fr ps in
  if frame =? 0 then (0, ps) else
  if id <? rowstore_next_free_page_id ps then
    let '(b, d) := nvme_read_sync (ROWSTORE_LBA_BASE + id * 8) ∅ (disk ps) in
    (frame, set_page id frame (set_frame_bytes frame b (set_disk d (rowstore_undurable ps) ps)))
  else (frame, set_page id frame (set_frame_bytes frame fresh_page ps)).

Definition rowstore_flush_page (id : Z) ps : Z * PageStore F D :=
  if (ROWSTORE_MAX_PAGES <=? id) || ((row_pages ps).[id] =? 0) then (0, ps) else
  let '(rc, d) := nvme_write_sync (ROWSTORE_LBA_BASE + id * 8) (ram ps).[(row_pages ps).[id]] (disk ps) in
  if rc =? 0 then (0, set_disk d (rowstore_undurable ps) ps)
  else (1, set_disk d (u64 (rowstore_undurable ps + 1)) ps).

Definition rowstore_alloc_page (p : Z) ps : Z * PageStore F D :=
  if PARTITION_MAX <=? p then (ROWSTORE_INVALID_PAGE, ps) else
  let range_end := (p + 1) * ROWSTORE_PAGES_PER_PARTITION in
  if range_end <=? (rowstore_partition_cursor ps).[p] then (ROWSTORE_INVALID_PAGE, ps) else
  let '(rc, ps) := storage_page_reserve p ps in
  if negb (rc =? 0) then (ROWSTORE_INVALID_PAGE, ps) else
  let id := (rowstore_partition_cursor ps).[p] in
  let '(frame, fr) := allocate_frame (frames ps) in
  let ps := set_frames fr ps in
  if frame =? 0 then (ROWSTORE_INVALID_PAGE, (storage_page_release p 1 ps).2) else
  let ps := set_page id frame (set_frame_bytes frame fresh_page ps) in
  (id, set_cursor (Z.max (rowstore_next_free_page_id ps) (id + 1)) (rowstore_partition_cursor ps).[p <- id + 1] ps).

(** [rs_memcpy(page + off, bs, n)] on the frame at [a] *)
Definition write_frame (a off : Z) (bs : list Z) ps : PageStore F D := set_frame_bytes a (wr_bytes off bs (ram ps).[a]) ps.

(** Page [id] modified and flushed; what the flush returned. *)
Definition flush_or (undurable id : Z) ps : Z * PageStore F D :=
  let '(rc, ps) := rowstore_flush_page id ps in (Z.lor undurable rc, ps).

(** * Tables and indexes by name *)

Definition find_active_table (name : text) db : option Z :=
  find_up (Z.to_nat (object_catalog_count (catalog (auth db)))) 0
    (fun i => flag (o_active (obj (auth db) i)) && flag (uses_rowstore (obj (auth db) i)) && rs_streq (o_name (obj (auth db) i)) name).

Definition find_index_slot (name : text) db : option Z :=
  find_up (Z.to_nat ROW_INDEX_MAX) 0 (fun i => flag (i_active (row_indexes db).[i]) && rs_streq (index_name (row_indexes db).[i]) name).

(** The catalog entry with the object id of an index's table. *)
Definition find_object (oid : Z) db : option Z :=
  find_up (Z.to_nat (object_catalog_count (catalog (auth db)))) 0
    (fun i => flag (o_active (obj (auth db) i)) && (object_id (obj (auth db) i) =? oid)).

Definition check db (uid : Z) (name : text) (perm : Z) : bool := catalog_check_access (auth db) uid name perm.

(** * Index maintenance *)

Definition set_tree (t : Tree) (x : RowIndex) : RowIndex :=
  mkIndex (index_name x) (table_object_id x) (column_index x) (column_type x) t (i_active x).
Definition set_i_active (v : Z) (x : RowIndex) : RowIndex :=
  mkIndex (index_name x) (table_object_id x) (column_index x) (column_type x) (tree x) v.

(** [btree_insert] and [btree_delete] on the index of slot [i] *)
Definition index_insert (i : Z) (k : key) (id : RowId) db : option (Db F D) :=
  let x := (row_indexes db).[i] in
  match btree_insert (tree x) k id (nodes db) with
  | None => None
  | Some (_, t, p) => Some (set_indexes (row_indexes db).[i <- set_tree t x] p db)
  end.
Definition index_delete (i : Z) (k : key) (id : RowId) db : option (Db F D) :=
  let x := (row_indexes db).[i] in
  match btree_delete (tree x) k id (nodes db) with
  | None => None
  | Some (t, p) => Some (set_indexes (row_indexes db).[i <- set_tree t x] p db)
  end.

Definition insert_apply (i : Z) (v : RowValues) (id : RowId) db : option (Db F D) :=
  let x := (row_indexes db).[i] in
  if count v <=? column_index x then Some db else
  match encode_key (column_type x) (text_at v (column_index x)) with
  | None => Some db
  | Some k => index_insert i k id db
  end.
Definition delete_apply (i : Z) (v : RowValues) (id : RowId) db : option (Db F D) :=
  let x := (row_indexes db).[i] in
  if count v <=? column_index x then Some db else
  match encode_key (column_type x) (text_at v (column_index x)) with
  | None => Some db
  | Some k => index_delete i k id db
  end.
Definition update_apply (i : Z) (old new : RowValues) (id : RowId) db : option (Db F D) :=
  let x := (row_indexes db).[i] in
  let col := column_index x in
  if (count old <=? col) || (count new <=? col) then Some db else
  let ok := encode_key (column_type x) (text_at old col) in
  let nk := encode_key (column_type x) (text_at new col) in
  if (match ok, nk with Some a, Some b => ri_memcmp (Z.to_nat BTREE_MAX_KEY_BYTES) a b =? 0 | _, _ => false end) then Some db else
  db ← (match ok with Some a => index_delete i a id db | None => Some db end);
  match nk with Some b => index_insert i b id db | None => Some db end.

(** The active indexes of a table, in slot order. *)
Definition for_each_index (tid : Z) (fn : Z → Db F D → option (Db F D)) db : option (Db F D) :=
  for_up (Z.to_nat ROW_INDEX_MAX) 0
    (fun i o => o ≫= fun db =>
      if negb (flag (i_active (row_indexes db).[i])) then Some db
      else if negb (table_object_id (row_indexes db).[i] =? tid) then Some db
      else fn i db) (Some db).

Definition row_index_notify_insert (tid : Z) (id : RowId) (v : RowValues) db : option (Db F D) :=
  for_each_index tid (fun i => insert_apply i v id) db.
Definition row_index_notify_delete (tid : Z) (id : RowId) (v : RowValues) db : option (Db F D) :=
  for_each_index tid (fun i => delete_apply i v id) db.
Definition row_index_notify_update (tid : Z) (id : RowId) (old new : RowValues) db : option (Db F D) :=
  for_each_index tid (fun i => update_apply i old new id) db.

(** * Scan *)

Section Scan.
Context {C : Type} (cb : RowId → RowValues → C → Db F D → option (C * Db F D)).

(** The slots of a page cached at [frame]. *)
Fixpoint scan_slots (m : nat) (s : Z) (l : RowTableLayout) (page_id frame : Z) (visited : Z) (c : C) db : option (Z * C * Db F D) :=
  match m with
  | O => Some (visited, c, db)
  | S m =>
      let page := (ram (pages db)).[frame] in
      let slot := 4 + s * row_width l in
      if page.[slot] =? 0 then scan_slots m (s + 1) l page_id frame visited c db
      else '(c, db) ← cb (mkRowId page_id s) (deserialize_row l slot page) c db;
           scan_slots m (s + 1) l page_id frame (u32 (visited + 1)) c db
  end.

Fixpoint scan_pages (fuel : nat) (idx page_id visited : Z) (c : C) db : option (Z * C * Db F D) :=
  if page_id =? ROWSTORE_INVALID_PAGE then Some (visited, c, db) else
  match fuel with
  | O => None
  | S fuel =>
      let h := (table_headers db).[idx] in
      let '(frame, ps) := rowstore_load_page page_id (pages db) in
      let db := set_pages ps db in
      if frame =? 0 then Some (visited, c, db) else
      let next_page := le_word (rd_bytes 0 4 (ram ps).[frame]) in
      let limit := if page_id =? last_page_id h then rows_in_last_page h else rows_per_page (layout h) in
      '(visited, c, db) ← scan_slots (Z.to_nat limit) 0 (layout h) page_id frame visited c db;
      scan_pages fuel idx next_page visited c db
  end.

Definition rowstore_table_scan (uid : Z) (name : text) (c : C) db : option (Z * C * Db F D) :=
  match find_active_table name db with
  | None => Some (0, c, db)
  | Some idx =>
      if negb (check db uid name PERM_READ) then Some (0, c, db)
      else scan_pages (Z.to_nat ROWSTORE_MAX_PAGES) idx (first_page_id (table_headers db).[idx]) 0 c db
  end.

End Scan.

(** * Indexes *)

(** [build_cb] for the index of slot [i]; the flag records a value without a key. *)
Definition build_cb (i : Z) (id : RowId) (v : RowValues) (fail : Z) db : option (Z * Db F D) :=
  let x := (row_indexes db).[i] in
  match encode_key (column_type x) (text_at v (column_index x)) with
  | None => Some (1, db)
  | Some k => (fun db => (fail, db)) <$> index_insert i k id db
  end.

Definition row_index_create (uid : Z) (iname name column : text) db : option (Z * Db F D) :=
  match find_active_table name db with
  | None => Some (1, db)
  | Some tidx =>
      if negb (check db uid name PERM_WRITE) then Some (2, db) else
      match find_index_slot iname db with
      | Some _ => Some (4, db)
      | None =>
          match find_up (Z.to_nat ROW_INDEX_MAX) 0 (fun i => negb (flag (i_active (row_indexes db).[i]))) with
          | None => Some (4, db)
          | Some slot =>
              let l := layout (table_headers db).[tidx] in
              match find_up (Z.to_nat (column_count l)) 0 (fun c => rs_streq (name_at l c) column) with
              | None => Some (3, db)
              | Some col =>
                  let x := mkIndex (rs_strcpy iname OBJECT_NAME_LEN) (object_id (obj (auth db) tidx)) col (column_types l).[col]
                             (mkTree BTREE_INVALID_NODE 0) 1 in
                  let db := set_indexes (row_indexes db).[slot <- x] (nodes db) db in
                  '(_, _, db) ← rowstore_table_scan (build_cb slot) uid name 0 db;
                  Some (0, db)
              end
          end
      end
  end.

Definition row_index_drop (uid : Z) (iname : text) db : Z * Db F D :=
  match find_index_slot iname db with
  | None => (1, db)
  | Some slot =>
      let x := (row_indexes db).[slot] in
      match find_object (table_object_id x) db with
      | None => (1, db)
      | Some tidx =>
          if negb (check db uid (o_name (obj (auth db) tidx)) PERM_WRITE) then (2, db)
          else (0, set_indexes (row_indexes db).[slot <- set_i_active 0 x] (nodes db) db)
      end
  end.

Definition row_index_find_for_column (tid col : Z) db : option text :=
  (fun i => rs_strcpy (index_name (row_indexes db).[i]) OBJECT_NAME_LEN) <$>
  find_up (Z.to_nat ROW_INDEX_MAX) 0
    (fun i => flag (i_active (row_indexes db).[i]) && (table_object_id (row_indexes db).[i] =? tid) && (column_index (row_indexes db).[i] =? col)).

(** The index a caller may read. *)
Definition readable_index (uid : Z) (iname : text) db : option RowIndex :=
  match find_index_slot iname db with
  | None => None
  | Some slot =>
      let x := (row_indexes db).[slot] in
      match find_object (table_object_id x) db with
      | None => None
      | Some tidx => if check db uid (o_name (obj (auth db) tidx)) PERM_READ then Some x else None
      end
  end.

Definition row_index_lookup (uid : Z) (iname value : text) (max : Z) db : option (Z * list RowId) :=
  match readable_index uid iname db with
  | None => Some (0, [])
  | Some x =>
      match encode_key (column_type x) value with
      | None => Some (0, [])
      | Some k => range_scan_internal (tree x) (Some k) (Some k) max (nodes db)
      end
  end.

(** The result and whether it is complete. *)
Definition row_index_lookup_checked (uid : Z) (iname value : text) (max : Z) db : option (Z * list RowId * Z) :=
  match readable_index uid iname db with
  | None => Some (0, [], 1)
  | Some x =>
      match encode_key (column_type x) value with
      | None => Some (0, [], 1)
      | Some k =>
          capped ← leaf_key_capped (tree x) k (nodes db);
          '(n, ids) ← range_scan_internal (tree x) (Some k) (Some k) max (nodes db);
          Some (n, ids, if capped =? 0 then 1 else 0)
      end
  end.

Definition row_index_range_scan (uid : Z) (iname : text) (lo hi : option text) (max : Z) db : option (Z * list RowId) :=
  match readable_index uid iname db with
  | None => Some (0, [])
  | Some x =>
      let bound b := match b with None => Some None | Some v => Some <$> encode_key (column_type x) v end in
      match bound lo, bound hi with
      | Some lo, Some hi => range_scan_internal (tree x) lo hi max (nodes db)
      | _, _ => Some (0, [])
      end
  end.

(** * Tables *)

Definition empty_header (oid : Z) (l : RowTableLayout) : RowTableHeader :=
  mkHeader oid 1 l 0 0 ROWSTORE_INVALID_PAGE ROWSTORE_INVALID_PAGE 0.

Definition set_obj (i : Z) (e : SLSObjectEntry) db : Db F D :=
  set_auth (set_catalog (set_object i e (catalog (auth db))) (auth db)) db.

Definition rowstore_create_table (name : text) db : Z * Db F D :=
  match find_by_name (auth db) name with
  | None => (1, db)
  | Some idx =>
      if flag (uses_rowstore (obj (auth db) idx)) then (1, db) else
      match compute_layout (object_schemas db).[idx] with
      | None => (1, db)
      | Some l =>
          let db := set_header idx (empty_header (object_id (obj (auth db) idx)) l) db in
          (0, set_obj idx (set_o_rowstore 1 (obj (auth db) idx)) db)
      end
  end.

Definition set_h_active (v : Z) (h : RowTableHeader) : RowTableHeader :=
  mkHeader (h_object_id h) v (layout h) (row_count h) (page_count h) (first_page_id h) (last_page_id h) (rows_in_last_page h).
Definition set_c_active (v : Z) (c : RowConstraintDef) : RowConstraintDef :=
  mkConstraint v (c_kind c) (c_table_object_id c) (c_table_name c) (c_column c) (literal_min c) (literal_max c) (ref_table_object_id c)
    (ref_table_name c) (ref_column_index c) (on_delete_action c).

Definition rowstore_drop_table (uid : Z) (name : text) db : Z * Db F D :=
  match find_active_table name db with
  | None => (1, db)
  | Some idx =>
      if negb (check db uid name PERM_WRITE) then (2, db) else
      let tid := object_id (obj (auth db) idx) in
      let xs := for_up (Z.to_nat ROW_INDEX_MAX) 0
                  (fun i (xs : gmap Z RowIndex) =>
                    if flag (i_active xs.[i]) && (table_object_id xs.[i] =? tid) then xs.[i <- set_i_active 0 xs.[i]] else xs) (row_indexes db) in
      let cs := for_up (Z.to_nat ROW_CONSTRAINT_MAX) 0
                  (fun i (cs : gmap Z RowConstraintDef) =>
                    if flag (c_active cs.[i]) && (c_table_object_id cs.[i] =? tid) then cs.[i <- set_c_active 0 cs.[i]] else cs) (row_constraints db) in
      let js := for_up (Z.to_nat ROW_JOURNAL_MAX_ATTACHMENTS) 0
                  (fun i (js : gmap Z RowJournalAttachment) =>
                    if flag (ja_active js.[i]) && rs_streq (ja_table js.[i]) name
                    then js.[i <- mkAttachment (ja_journal js.[i]) (ja_table js.[i]) 0] else js) (row_journal_attachments db) in
      let db := set_attached cs js (set_indexes xs (nodes db) db) in
      let db := set_header idx (set_h_active 0 (table_headers db).[idx]) db in
      let db := set_obj idx (set_o_rowstore 0 (obj (auth db) idx)) db in
      (0, set_auth (sys_sls_vfree name (auth db)).2 db)
  end.

(** * Rows *)

Definition set_chain (first last rows pgs : Z) (h : RowTableHeader) : RowTableHeader :=
  mkHeader (h_object_id h) (h_active h) (layout h) (row_count h) pgs first last rows.
Definition set_rows (n rows : Z) (h : RowTableHeader) : RowTableHeader :=
  mkHeader (h_object_id h) (h_active h) (layout h) n (page_count h) (first_page_id h) (last_page_id h) rows.

(** A page with a free slot at the end of the chain of [h], linked in when it is new. *)
Definition append_page (partition : Z) (h : RowTableHeader) ps : option (RowTableHeader * Z) * PageStore F D :=
  if (first_page_id h =? ROWSTORE_INVALID_PAGE) || (rows_per_page (layout h) <=? rows_in_last_page h) then
    let '(new_page, ps) := rowstore_alloc_page partition ps in
    if new_page =? ROWSTORE_INVALID_PAGE then (None, ps) else
    if first_page_id h =? ROWSTORE_INVALID_PAGE then (Some (set_chain new_page new_page 0 (u32 (page_count h + 1)) h, 0), ps) else
    let '(prev, ps) := rowstore_load_page (last_page_id h) ps in
    let '(undurable, ps) := if prev =? 0 then (0, ps) else flush_or 0 (last_page_id h) (write_frame prev 0 (le_bytes 4 new_page) ps) in
    (Some (set_chain (first_page_id h) new_page 0 (u32 (page_count h + 1)) h, undurable), ps)
  else (Some (h, 0), ps).

Definition durable (undurable : Z) : Z := if undurable =? 0 then 0 else ROWSTORE_RC_NOT_DURABLE.

(** A serialised row put into the slot after the last row of [h]: the header, the row's id and whether a write was lost. *)
Definition append_row (partition : Z) (buf : gmap Z Z) (h : RowTableHeader) ps : RowTableHeader * option (RowId * Z) * PageStore F D :=
  match append_page partition h ps with
  | (None, ps) => (h, None, ps)
  | (Some (h, undurable), ps) =>
      let '(page, ps) := rowstore_load_page (last_page_id h) ps in
      if page =? 0 then (h, None, ps) else
      let slot := rows_in_last_page h in
      let ps := write_frame page (4 + slot * row_width (layout h)) (rd_bytes 0 (row_width (layout h)) buf) ps in
      let '(undurable, ps) := flush_or undurable (last_page_id h) ps in
      (set_rows (u32 (row_count h + 1)) (slot + 1) h, Some (mkRowId (last_page_id h) slot, undurable), ps)
  end.

Definition rowstore_row_insert (uid : Z) (name : text) (v : RowValues) db : option (Z * option RowId * Db F D) :=
  match find_active_table name db with
  | None => Some (1, None, db)
  | Some idx =>
      let h := (table_headers db).[idx] in
      if negb (check db uid name PERM_WRITE) then Some (2, None, db) else
      if negb (count v =? column_count (layout h)) then Some (4, None, db) else
      match serialize_row (layout h) v ∅ with
      | None => Some (5, None, db)
      | Some buf =>
          let e := obj (auth db) idx in
          match append_row (o_partition e) buf h (pages db) with
          | (h, None, ps) => Some (6, None, set_pages ps (set_header idx h db))
          | (h, Some (id, undurable), ps) =>
              let db := set_pages ps (set_header idx h db) in
              db ← row_index_notify_insert (object_id e) id v db;
              Some (durable undurable, Some id, db)
          end
      end
  end.

(** The frame and the offset of a row that exists under the layout of [h]. *)
Definition locate_row (h : RowTableHeader) (id : RowId) ps : option (Z * Z) * PageStore F D :=
  if rowstore_next_free_page_id ps <=? page_id id then (None, ps) else
  if rows_per_page (layout h) <=? slot_index id then (None, ps) else
  let '(page, ps) := rowstore_load_page (page_id id) ps in
  if page =? 0 then (None, ps) else
  let slot := 4 + slot_index id * row_width (layout h) in
  if (ram ps).[page].[slot] =? 0 then (None, ps) else (Some (page, slot), ps).

Definition rowstore_row_get (uid : Z) (name : text) (id : RowId) db : Z * option RowValues * Db F D :=
  match find_active_table name db with
  | None => (1, None, db)
  | Some idx =>
      let h := (table_headers db).[idx] in
      if negb (check db uid name PERM_READ) then (2, None, db) else
      let '(o, ps) := locate_row h id (pages db) in
      let db := set_pages ps db in
      match o with
      | None => (3, None, db)
      | Some (page, slot) => (0, Some (deserialize_row (layout h) slot (ram ps).[page]), db)
      end
  end.

Definition rowstore_row_update (uid : Z) (name : text) (id : RowId) (v : RowValues) db : option (Z * Db F D) :=
  match find_active_table name db with
  | None => Some (1, db)
  | Some idx =>
      let h := (table_headers db).[idx] in
      if negb (check db uid name PERM_WRITE) then Some (2, db) else
      if negb (count v =? column_count (layout h)) then Some (4, db) else
      let '(o, ps) := locate_row h id (pages db) in
      match o with
      | None => Some (3, set_pages ps db)
      | Some (page, slot) =>
          match serialize_row (layout h) v ∅ with
          | None => Some (5, set_pages ps db)
          | Some buf =>
              let old := deserialize_row (layout h) slot (ram ps).[page] in
              let ps := write_frame page slot (rd_bytes 0 (row_width (layout h)) buf) ps in
              let '(undurable, ps) := flush_or 0 (page_id id) ps in
              db ← row_index_notify_update (object_id (obj (auth db) idx)) id old v (set_pages ps db);
              Some (durable undurable, db)
          end
      end
  end.

Definition rowstore_row_delete (uid : Z) (name : text) (id : RowId) db : option (Z * Db F D) :=
  match find_active_table name db with
  | None => Some (1, db)
  | Some idx =>
      let h := (table_headers db).[idx] in
      if negb (check db uid name PERM_WRITE) then Some (2, db) else
      let '(o, ps) := locate_row h id (pages db) in
      match o with
      | None => Some (3, set_pages ps db)
      | Some (page, slot) =>
          let old := deserialize_row (layout h) slot (ram ps).[page] in
          let ps := write_frame page slot [0] ps in
          let '(undurable, ps) := flush_or 0 (page_id id) ps in
          let db := set_header idx (set_rows (u32 (row_count h - 1)) (rows_in_last_page h) h) (set_pages ps db) in
          db ← row_index_notify_delete (object_id (obj (auth db) idx)) id old db;
          Some (durable undurable, db)
      end
  end.

(** * Adding a column *)

(** [add_column_collect_cb]: the rows collected, the last one first, and whether one was left out. *)
Definition add_column_collect_cb (id : RowId) (v : RowValues) (c : list RowValues * bool) db : option (list RowValues * bool * Db F D) :=
  if ROWSTORE_ADD_COLUMN_MAX_ROWS <=? Z.of_nat (length c.1) then Some (c.1, true, db) else Some (v :: c.1, c.2, db).

(** A collected row with NULL in the new column. *)
Definition widen_row (n new_col : Z) (v : RowValues) : RowValues :=
  mkRow n (Z.lor (null_mask v) (u16 (Z.shiftl 1 new_col))) (values v).[new_col <- []].

(** The rows rewritten under the layout of the scratch header [h]; [None] when the page pool is used up. *)
Fixpoint migrate_rows (rows : list RowValues) (partition : Z) (h : RowTableHeader) (undurable : Z) ps : option (RowTableHeader * Z) * PageStore F D :=
  match rows with
  | [] => (Some (h, undurable), ps)
  | v :: rows =>
      let l := layout h in
      match serialize_row l (widen_row (column_count l) (column_count l - 1) v) ∅ with
      | None => migrate_rows rows partition h undurable ps
      | Some buf =>
          match append_row partition buf h ps with
          | (_, None, ps) => (None, ps)
          | (h, Some (_, u), ps) => migrate_rows rows partition h (Z.lor undurable u) ps
          end
      end
  end.

(** The indexes of a table dropped and built again on the columns of [l]. *)
Definition rebuild_indexes (tid : Z) (name : text) (l : RowTableLayout) db : option (Db F D) :=
  let todo := filter (fun i => flag (i_active (row_indexes db).[i]) && (table_object_id (row_indexes db).[i] =? tid) = true)
                (tab id ROW_INDEX_MAX) in
  let todo := map (fun i => let x := (row_indexes db).[i] in
                            (rs_strcpy (index_name x) OBJECT_NAME_LEN,
                             rs_strcpy (if column_index x <? column_count l then name_at l (column_index x) else []) RECORD_KEY_LEN)) todo in
  fold_left (fun o '(iname, col) => o ≫= fun db => snd <$> row_index_create 0 iname name col (row_index_drop 0 iname db).2) todo (Some db).

Definition rowstore_add_column (uid : Z) (name column : text) (t : SLSFieldType) db : option (Z * Db F D) :=
  match find_active_table name db with
  | None => Some (1, db)
  | Some idx =>
      if negb (check db uid name PERM_WRITE) then Some (2, db) else
      let old := layout (table_headers db).[idx] in
      if ROWSTORE_MAX_COLUMNS <=? column_count old then Some (4, db) else
      if (match find_up (Z.to_nat (column_count old)) 0 (fun c => rs_streq (name_at old c) column) with Some _ => true | None => false end)
      then Some (3, db) else
      let s := (object_schemas db).[idx] in
      if (match find_up (Z.to_nat SCHEMA_MAX_FIELDS) 0 (fun i => flag (f_active (fields s).[i]) && rs_streq (f_key (fields s).[i]) column) with
          | Some _ => true | None => false end) then Some (3, db) else
      match find_up (Z.to_nat SCHEMA_MAX_FIELDS) 0 (fun i => negb (flag (f_active (fields s).[i]))) with
      | None => Some (4, db)
      | Some free =>
          '(_, (rows, overflow), db) ← rowstore_table_scan add_column_collect_cb 0 name ([], false) db;
          if (overflow : bool) then Some (7, db) else
          let f a := mkField (rs_strcpy column RECORD_KEY_LEN) t a in
          let n := if field_count s <=? free then free + 1 else field_count s in
          let s' a := mkSchema n (fields s).[free <- f a] in
          match compute_layout (s' 1) with
          | None => Some (4, set_schema idx (s' 0) db)
          | Some l =>
              let e := obj (auth db) idx in
              let db := set_schema idx (s' 1) db in
              match migrate_rows (rev rows) (o_partition e) (empty_header (object_id e) l) 0 (pages db) with
              | (None, ps) => Some (6, set_pages ps db)
              | (Some (h, undurable), ps) =>
                  db ← rebuild_indexes (object_id e) name l (set_pages ps (set_header idx h db));
                  Some (durable undurable, db)
              end
          end
      end
  end.

(** * Boot *)

(** [rowstore_init] and [row_index_init] *)
Definition rowstore_init ps : PageStore F D :=
  mkPages 0 (for_up (Z.to_nat PARTITION_MAX) 0 (fun p (c : gmap Z Z) => c.[p <- p * ROWSTORE_PAGES_PER_PARTITION]) ∅) ∅ (rowstore_undurable ps)
    (partition_page_usage ps) (partition_page_quota ps) (frames ps) (ram ps) (disk ps).
Definition row_store_boot db : Db F D :=
  mkDb (auth db) (object_schemas db) ∅ (rowstore_init (pages db)) ∅ (mkPool ∅ 0) (row_constraints db) (row_journal_attachments db).

End RowStore.
