(* ===== verification/RowPages.v ===== *)
(** The page store keeps its pages apart: loading, flushing, allocating and writing a page leaves the bytes of
    every other allocated page alone, and each partition's pages come from its own range. *)
From stdpp Require Import base gmap list list_numbers.
From Stdlib Require Import ZArith Lia.
From S2P Require Import Prelude Bytes BTree Authority RowCodec RowStore.
#[local] Open Scope Z_scope.
#[local] Open Scope carr_scope.

(** What the row store relies on of the frame allocator: a frame it is given was not in use. *)
Class FramesLaws (F : Type) `{!Frames F} := {
  frames_ok : F → Prop;
  frame_held : F → Z → Prop;
  allocate_frame_law f a f' : frames_ok f → allocate_frame f = (a, f') →
    frames_ok f' ∧ (∀ b, frame_held f b → frame_held f' b) ∧ (a ≠ 0 → ¬ frame_held f a ∧ frame_held f' a)
}.

Section Pages.
Context {F D : Type} `{!Frames F} `{!FramesLaws F} `{!Nvme D}.
Implicit Types (ps : PageStore F D).

(** The pages handed out so far. *)
Definition allocated ps (p id : Z) : Prop :=
  0 ≤ p < PARTITION_MAX ∧ p * ROWSTORE_PAGES_PER_PARTITION ≤ id < (rowstore_partition_cursor ps).[p].

Definition page_at ps (id : Z) : gmap Z Z := (ram ps).[(row_pages ps).[id]].

Record pages_ok ps : Prop := PagesOk {
  po_frames : frames_ok (frames ps);
  po_held : ∀ id, (row_pages ps).[id] ≠ 0 → frame_held (frames ps) (row_pages ps).[id];
  po_inj : ∀ i j, (row_pages ps).[i] ≠ 0 → (row_pages ps).[i] = (row_pages ps).[j] → i = j;
  po_cursor : ∀ p, 0 ≤ p < PARTITION_MAX →
    p * ROWSTORE_PAGES_PER_PARTITION ≤ (rowstore_partition_cursor ps).[p] ≤ (p + 1) * ROWSTORE_PAGES_PER_PARTITION;
  po_loaded : ∀ p id, allocated ps p id → (row_pages ps).[id] ≠ 0 ∧ id < rowstore_next_free_page_id ps
}.

Lemma allocated_range ps p id : pages_ok ps → allocated ps p id → 0 ≤ id < ROWSTORE_MAX_PAGES.
Proof.
  intros Hok [Hp Hid]. pose proof (po_cursor ps Hok p Hp). change ROWSTORE_PAGES_PER_PARTITION with 1024 in *.
  change PARTITION_MAX with 256 in *. change ROWSTORE_MAX_PAGES with 262144. lia.
Qed.

(** Partitions do not share pages. *)
Lemma allocated_partition ps p q id : pages_ok ps → allocated ps p id → allocated ps q id → p = q.
Proof.
  intros Hok [Hp Hid] [Hq Hid']. pose proof (po_cursor ps Hok p Hp). pose proof (po_cursor ps Hok q Hq).
  change ROWSTORE_PAGES_PER_PARTITION with 1024 in *. lia.
Qed.

(** The allocated pages and what is recorded about them are the same. *)
Record kept ps ps' : Prop := Kept {
  k_cursor : rowstore_partition_cursor ps' = rowstore_partition_cursor ps;
  k_next : rowstore_next_free_page_id ps' = rowstore_next_free_page_id ps;
  k_frame : ∀ p id, allocated ps p id → (row_pages ps').[id] = (row_pages ps).[id];
  k_bytes : ∀ p id, allocated ps p id → page_at ps' id = page_at ps id
}.

Lemma kept_refl ps : kept ps ps.
Proof. by split. Qed.

Lemma kept_allocated ps ps' p id : kept ps ps' → allocated ps' p id ↔ allocated ps p id.
Proof. intros [E _ _ _]. unfold allocated. by rewrite E. Qed.

Lemma kept_trans ps1 ps2 ps3 : kept ps1 ps2 → kept ps2 ps3 → kept ps1 ps3.
Proof.
  intros K1 K2. pose proof (λ p id, proj2 (kept_allocated _ _ p id K1)) as Ha. destruct K1 as [C1 N1 F1 B1], K2 as [C2 N2 F2 B2].
  split; [congruence | congruence | |]; intros p id Hid.
  - rewrite (F2 p id) by auto. by apply (F1 p).
  - rewrite (B2 p id) by auto. by apply (B1 p).
Qed.

(** ** Loading *)

Lemma load_allocated ps p id : pages_ok ps → allocated ps p id → rowstore_load_page id ps = ((row_pages ps).[id], ps).
Proof.
  intros Hok Ha. pose proof (allocated_range _ _ _ Hok Ha) as Hr. destruct (po_loaded _ Hok _ _ Ha) as [Hn _].
  unfold rowstore_load_page. replace (ROWSTORE_MAX_PAGES <=? id) with false by zcase. by replace ((row_pages ps).[id] =? 0) with false by zcase.
Qed.

(** A fresh frame bound to a page that was not handed out. *)
Lemma bind_frame ps id a fr b d u : pages_ok ps → allocate_frame (frames ps) = (a, fr) → a ≠ 0 → (∀ q, ¬ allocated ps q id) →
  let ps' := mkPages (rowstore_next_free_page_id ps) (rowstore_partition_cursor ps) (row_pages ps).[id <- a] u (partition_page_usage ps)
               (partition_page_quota ps) fr (ram ps).[a <- b] d in
  pages_ok ps' ∧ kept ps ps'.
Proof.
  intros Hok Ef Ha Hz ps'. destruct (allocate_frame_law _ _ _ (po_frames _ Hok) Ef) as (Hf & Hmono & Hnew). destruct (Hnew Ha) as [Hfresh Hheld].
  assert (∀ j, (row_pages ps).[j] ≠ a) as Hne.
  { intros j E. apply Hfresh. rewrite <- E. apply (po_held _ Hok). congruence. }
  split; [split|split]; cbn [frames row_pages rowstore_partition_cursor rowstore_next_free_page_id ps'].
  - done.
  - intros j Hj. rewrite aget_upd in *. destruct (id =? j); [done|]. by apply Hmono, (po_held _ Hok).
  - intros i j. rewrite !aget_upd. destruct (Z.eqb_spec id i), (Z.eqb_spec id j); intros Hi E;
      [congruence | by destruct (Hne j) | by destruct (Hne i) | by apply (po_inj _ Hok)].
  - apply (po_cursor _ Hok).
  - intros p j Hj. rewrite aget_upd. destruct (po_loaded _ Hok p j Hj). destruct (id =? j); done.
  - done.
  - done.
  - intros p j Hj. rewrite aget_upd. destruct (po_loaded _ Hok p j Hj). destruct (Z.eqb_spec id j) as [->|]; [by destruct (Hz p) | done].
  - intros p j Hj. unfold page_at. cbn [row_pages ram ps']. rewrite (aget_upd (row_pages ps)). destruct (po_loaded _ Hok p j Hj). destruct (Z.eqb_spec id j) as [->|]; [by destruct (Hz p)|].
    by rewrite aget_upd_ne by (intros E; by destruct (Hne j)).
Qed.

Lemma frames_spent ps a fr : pages_ok ps → allocate_frame (frames ps) = (a, fr) → pages_ok (set_frames fr ps) ∧ kept ps (set_frames fr ps).
Proof.
  intros Hok Ef. destruct (allocate_frame_law _ _ _ (po_frames _ Hok) Ef) as (Hf & Hmono & _). split; [split|by split].
  - done.
  - intros id Hid. apply Hmono. by apply (po_held _ Hok).
  - apply (po_inj _ Hok).
  - apply (po_cursor _ Hok).
  - apply (po_loaded _ Hok).
Qed.

(** Loading any page keeps the allocated ones. *)
Lemma load_kept ps id f ps' : pages_ok ps → rowstore_load_page id ps = (f, ps') → pages_ok ps' ∧ kept ps ps' ∧ (f ≠ 0 → (row_pages ps').[id] = f).
Proof.
  intros Hok. unfold rowstore_load_page. destruct (_ <=? id); [intros [= <- <-]; split_and!; [done | apply kept_refl | done]|].
  destruct (Z.eqb_spec (row_pages ps).[id] 0) as [Hz0|Hn]; cbn [negb]; [|intros [= <- <-]; split_and!; [done | apply kept_refl | done]].
  assert (∀ q, ¬ allocated ps q id) as Hz. { intros q Hq. by destruct (po_loaded _ Hok q id Hq). }
  destruct (allocate_frame (frames ps)) as [a fr] eqn:Ef. destruct (frames_spent _ _ _ Hok Ef) as [Hok1 Hk1].
  destruct (Z.eqb_spec a 0) as [->|Ha]; [intros [= <- <-]; done|]. destruct (_ <? _).
  - destruct (nvme_read_sync _ _ _) as [b d]. intros [= <- <-].
    destruct (bind_frame ps id a fr b d (rowstore_undurable ps) Hok Ef Ha Hz) as [? ?]. split_and!; [done | done|]. intros _. apply aget_upd_eq.
  - intros [= <- <-]. destruct (bind_frame ps id a fr fresh_page (disk ps) (rowstore_undurable ps) Hok Ef Ha Hz) as [? ?].
    split_and!; [done | done|]. intros _. apply aget_upd_eq.
Qed.

(** ** Flushing *)

Lemma disk_ok ps d u : pages_ok ps → pages_ok (set_disk d u ps).
Proof. by intros [? ? ? ? ?]. Qed.

Lemma flush_kept ps id r ps' : pages_ok ps → rowstore_flush_page id ps = (r, ps') → pages_ok ps' ∧ kept ps ps' ∧ (∀ j, page_at ps' j = page_at ps j) ∧ row_pages ps' = row_pages ps.
Proof.
  intros Hok. unfold rowstore_flush_page. destruct (_ || _); [intros [= <- <-]; split_and!; [done | apply kept_refl | done | done]|].
  destruct (nvme_write_sync _ _ _) as [rc d]. destruct (rc =? 0); intros [= <- <-]; (split_and!; [by apply disk_ok | by split | done | done]).
Qed.

(** ** Writing *)

Lemma write_page ps p id off bs : pages_ok ps → allocated ps p id →
  let ps' := write_frame (row_pages ps).[id] off bs ps in
  pages_ok ps' ∧ rowstore_partition_cursor ps' = rowstore_partition_cursor ps ∧ rowstore_next_free_page_id ps' = rowstore_next_free_page_id ps ∧
  row_pages ps' = row_pages ps ∧
  ∀ q j, allocated ps q j → page_at ps' j = if id =? j then wr_bytes off bs (page_at ps id) else page_at ps j.
Proof.
  intros Hok Ha ps'. destruct (po_loaded _ Hok _ _ Ha) as [Hn _]. split_and!; [|done|done|done|].
  - destruct Hok as [? ? ? ? ?]. by split.
  - intros q j Hj. unfold page_at, ps', write_frame. cbn [ram row_pages set_frame_bytes]. rewrite aget_upd.
    destruct (Z.eqb_spec id j) as [->|Hne]; [by rewrite Z.eqb_refl|]. destruct (Z.eqb_spec (row_pages ps).[id] (row_pages ps).[j]) as [E|]; [|done].
    by destruct Hne; apply (po_inj _ Hok).
Qed.

(** ** Allocating *)

Lemma usage_ok ps u : pages_ok ps → pages_ok (set_page_usage u ps) ∧ kept ps (set_page_usage u ps).
Proof. intros [? ? ? ? ?]. split; by split. Qed.

(** Another page of partition [p], with no rows and no successor. *)
Record extended (p id : Z) ps ps' : Prop := Extended {
  x_new : allocated ps' p id ∧ (∀ q, ¬ allocated ps q id) ∧ page_at ps' id = fresh_page;
  x_old : ∀ q j, allocated ps q j → allocated ps' q j ∧ (row_pages ps').[j] = (row_pages ps).[j] ∧ page_at ps' j = page_at ps j;
  x_all : ∀ q j, allocated ps' q j → allocated ps q j ∨ (q = p ∧ j = id)
}.

Lemma kept_same ps ps1 ps' : kept ps ps1 → rowstore_partition_cursor ps' = rowstore_partition_cursor ps1 →
  rowstore_next_free_page_id ps' = rowstore_next_free_page_id ps1 → row_pages ps' = row_pages ps1 → ram ps' = ram ps1 → kept ps ps'.
Proof.
  intros [C N Fr B] C' N' R M. split; [congruence | congruence | |]; intros q j Hj; [rewrite R; by apply (Fr q)|].
  unfold page_at. rewrite R, M. by apply (B q).
Qed.

Lemma alloc_spec ps p id ps' : pages_ok ps → 0 ≤ p → rowstore_alloc_page p ps = (id, ps') →
  pages_ok ps' ∧ if id =? ROWSTORE_INVALID_PAGE then kept ps ps' else extended p id ps ps'.
Proof.
  intros Hok Hp. unfold rowstore_alloc_page. destruct (Z.leb_spec PARTITION_MAX p) as [|Hp']; [intros [= <- <-]; split; [done | apply kept_refl]|].
  destruct (Z.leb_spec ((p + 1) * ROWSTORE_PAGES_PER_PARTITION) (rowstore_partition_cursor ps).[p]) as [|Hc]; [intros [= <- <-]; split; [done | apply kept_refl]|].
  unfold storage_page_reserve. replace (PARTITION_MAX <=? p) with false by zcase. destruct (negb _ && _); [intros [= <- <-]; split; [done | apply kept_refl]|].
  cbn [negb Z.eqb]. set (ps0 := set_page_usage _ ps). destruct (usage_ok ps (partition_page_usage ps).[p <- u64 ((partition_page_usage ps).[p] + 1)] Hok) as [Hok0 Hk0].
  fold ps0 in Hok0, Hk0. destruct (allocate_frame (frames ps0)) as [a fr] eqn:Ef. destruct (frames_spent _ _ _ Hok0 Ef) as [Hok1 Hk1].
  pose proof (po_cursor _ Hok p ltac:(lia)) as Hcur. assert (∀ q, ¬ allocated ps0 q (rowstore_partition_cursor ps).[p]) as Hz.
  { intros q [Hq Hid]. change (rowstore_partition_cursor ps0) with (rowstore_partition_cursor ps) in Hid. pose proof (po_cursor _ Hok q Hq).
    change ROWSTORE_PAGES_PER_PARTITION with 1024 in *. assert (q = p) by lia. subst q. lia. }
  destruct (Z.eqb_spec a 0) as [->|Ha].
  { unfold storage_page_release. replace (PARTITION_MAX <=? p) with false by zcase. intros [= <- <-]. split; [by apply usage_ok|].
    eapply kept_same; [exact (kept_trans _ _ _ Hk0 Hk1) | done..]. }
  destruct (bind_frame ps0 _ a fr fresh_page (disk ps0) (rowstore_undurable ps0) Hok0 Ef Ha Hz) as [Hok2 Hk2]. intros [= <- <-].
  set (id := (rowstore_partition_cursor ps).[p]) in *. set (ps2 := mkPages _ _ _ _ _ _ _ _ _) in Hok2, Hk2.
  change ROWSTORE_PAGES_PER_PARTITION with 1024 in *. change PARTITION_MAX with 256 in *. change (rowstore_partition_cursor ps0) with (rowstore_partition_cursor ps).
  fold id. replace (id =? ROWSTORE_INVALID_PAGE) with false by (unfold ROWSTORE_INVALID_PAGE; zcase).
  set (ps3 := set_cursor _ _ _).
  assert (∀ q j, allocated ps3 q j ↔ allocated ps q j ∨ (q = p ∧ j = id)) as Hall.
  { intros q j. unfold allocated. cbn [rowstore_partition_cursor ps3 set_cursor]. change PARTITION_MAX with 256. change ROWSTORE_PAGES_PER_PARTITION with 1024.
    rewrite aget_upd. destruct (Z.eqb_spec p q) as [->|]; fold id; lia. }
  pose proof (kept_trans _ _ _ Hk0 Hk2) as K. split.
  - destruct Hok2 as [H1 H2 H3 H4 H5]. split; [exact H1 | exact H2 | exact H3 | |].
    + intros q Hq. cbn [rowstore_partition_cursor ps3 set_cursor]. rewrite aget_upd. specialize (H4 q Hq). change ROWSTORE_PAGES_PER_PARTITION with 1024 in *.
      destruct (Z.eqb_spec p q) as [->|]; [|exact H4]. change (rowstore_partition_cursor ps2) with (rowstore_partition_cursor ps) in H4. fold id in H4. lia.
    + intros q j [Hj|[-> ->]]%Hall.
      * destruct (H5 q j Hj) as [Hr Hl]. split; [exact Hr|]. cbn [rowstore_next_free_page_id ps3 set_cursor]. cbn in Hl |- *. lia.
      * split; [cbn [row_pages ps3 set_cursor]; change (aget _ id ≠ 0) with ((row_pages ps).[id <- a].[id] ≠ 0); by rewrite aget_upd_eq|]. cbn. lia.
  - split.
    + split_and!; [apply Hall; by right | intros q Hq; by apply (Hz q) |]. unfold page_at. cbn. by rewrite !aget_upd_eq.
    + intros q j Hj. split_and!; [apply Hall; by left | apply (k_frame _ _ K q j Hj) | apply (k_bytes _ _ K q j Hj)].
    + intros q j Hj. by apply Hall.
Qed.

End Pages.
