(* ===== verification/RowTable.v ===== *)
(** A table as the sequence of its row slots, in the order of its pages.  A row appended goes to the first free slot
    at the end of the chain, in a new page when the last one is full, and no other page changes. *)
From stdpp Require Import base gmap list list_numbers.
From Stdlib Require Import ZArith Lia.
From S2P Require Import Prelude Bytes BTree BTreeLib BTreeSpec Authority RowCodec RowCodecSpec RowStore RowPages.
#[local] Open Scope Z_scope.
#[local] Open Scope carr_scope.

Definition slot : Type := RowId * option RowValues.

(** The rows that are there. *)
Definition live (ss : list slot) : list (RowId * RowValues) := omap (fun e : slot => (fun v => (e.1, v)) <$> e.2) ss.

(** Slot [id] holding [o]. *)
Definition put_slot (id : RowId) (o : option RowValues) (ss : list slot) : list slot :=
  (fun e : slot => if decide (e.1 = id) then (e.1, o) else e) <$> ss.

Section Table.
Context {F D : Type} `{!Frames F} `{!FramesLaws F} `{!Nvme D} `{!CConv}.
Implicit Types (ps : PageStore F D) (db : Db F D) (l : RowTableLayout) (page : gmap Z Z) (h : RowTableHeader) (pgs : list Z).

Definition slot_off l (s : Z) : Z := 4 + s * row_width l.
Definition slot_val l page (s : Z) : option RowValues :=
  if page.[slot_off l s] =? 0 then None else Some (deserialize_row l (slot_off l s) page).

Definition page_slots l (pid : Z) page (n : Z) : list slot := tab (fun s => (mkRowId pid s, slot_val l page s)) n.

(** How many slots of a page are in use. *)
Definition limit h (pid : Z) : Z := if pid =? last_page_id h then rows_in_last_page h else rows_per_page (layout h).

Definition table_slots ps h pgs : list slot := pgs ≫= (fun pid => page_slots (layout h) pid (page_at ps pid) (limit h pid)).

(** The pages of a chain from [cur] on. *)
Fixpoint linked ps pgs (cur : Z) : Prop :=
  match pgs with
  | [] => cur = ROWSTORE_INVALID_PAGE
  | p :: pgs => cur = p ∧ linked ps pgs (le_word (rd_bytes 0 4 (page_at ps p)))
  end.

Record table_ok ps (part : Z) h pgs : Prop := TableOk {
  t_layout : layout_ok (layout h);
  t_linked : linked ps pgs (first_page_id h);
  t_last : ∀ p, last pgs = Some p → last_page_id h = p;
  t_alloc : Forall (allocated ps part) pgs;
  t_nodup : NoDup pgs;
  t_rows : 0 ≤ rows_in_last_page h ≤ rows_per_page (layout h);
  t_rest : ∀ p s, last pgs = Some p → rows_in_last_page h ≤ s < rows_per_page (layout h) → (page_at ps p).[slot_off (layout h) s] = 0
}.

(** ** Slots and bytes *)

Lemma slot_val_ext l page page' s s' : layout_ok l → rd_bytes (slot_off l s) (row_width l) page = rd_bytes (slot_off l s') (row_width l) page' →
  slot_val l page s = slot_val l page' s'.
Proof.
  intros Hl E. unfold slot_val. rewrite (deserialize_ext l Hl _ _ _ _ E). destruct Hl as [_ _ Hw _].
  pose proof (f_equal (.!! 0%nat) E) as E0. cbn in E0. unfold rd_bytes in E0. rewrite !tab_lookup in E0 by lia. cbn in E0. rewrite !Z.add_0_r in E0. simplify_eq.
  by replace (page'.[slot_off l s']) with (page.[slot_off l s]) by congruence.
Qed.

(** A write inside slot [s] does not reach another slot. *)
Lemma slot_val_write l page s s' bs off : layout_ok l → 0 ≤ s → 0 ≤ s' → s ≠ s' → 0 ≤ off → off + Z.of_nat (length bs) ≤ row_width l →
  slot_val l (wr_bytes (slot_off l s + off) bs page) s' = slot_val l page s'.
Proof.
  intros Hl Hs Hs' Hne Ho Hb. apply slot_val_ext; [done|]. apply rd_wr_other. unfold slot_off. destruct Hl as [_ _ Hw _]. nia.
Qed.

Lemma link_write l page s bs off : layout_ok l → 0 ≤ s → 0 ≤ off → rd_bytes 0 4 (wr_bytes (slot_off l s + off) bs page) = rd_bytes 0 4 page.
Proof. intros [_ _ Hw _] Hs Ho. apply rd_wr_other. unfold slot_off. nia. Qed.

(** A row written into its slot. *)
Lemma slot_val_row l v buf page s : layout_ok l → row_ok v → serialize_row l v ∅ = Some buf →
  slot_val l (wr_bytes (slot_off l s) (rd_bytes 0 (row_width l) buf) page) s = Some (stored l v).
Proof.
  intros Hl Hv Hs. pose proof (serialize_row_spec l Hl v ∅ buf Hs) as (H0 & _). pose proof (lay_width l Hl).
  set (bs := rd_bytes 0 (row_width l) buf).
  assert (Z.of_nat (length bs) = row_width l) as Hlen by (subst bs; rewrite rd_bytes_length; lia).
  assert (rd_bytes (slot_off l s) (row_width l) (wr_bytes (slot_off l s) bs page) = bs) as E by (rewrite <- Hlen; apply rd_wr_same).
  unfold slot_val. rewrite wr_bytes_at, decide_True by lia. rewrite Z.sub_diag. change (Z.to_nat 0) with 0%nat. unfold bs at 1, rd_bytes.
  rewrite tab_lookup by lia. cbn [default Z.of_nat]. rewrite Z.add_0_r, H0. cbn [Z.eqb].
  f_equal. rewrite <- (serialize_deserialize l Hl v ∅ buf Hv Hs). apply deserialize_ext; [done|]. exact E.
Qed.

Lemma fresh_page_slot l s : layout_ok l → 0 ≤ s → fresh_page.[slot_off l s] = 0.
Proof.
  intros [_ _ Hw _] Hs. unfold fresh_page. rewrite wr_bytes_at, decide_False; [done|]. cbn. unfold slot_off. nia.
Qed.

Lemma fresh_page_link : le_word (rd_bytes 0 4 fresh_page) = ROWSTORE_INVALID_PAGE.
Proof. by vm_compute. Qed.

(** ** Tables and other pages *)

Lemma linked_ext ps ps' pgs : (∀ p, p ∈ pgs → page_at ps' p = page_at ps p) → ∀ cur, linked ps pgs cur → linked ps' pgs cur.
Proof.
  induction pgs as [|p pgs IH]; intros He cur; [done|]. cbn [linked]. intros [-> Hl]. split; [done|]. rewrite He by left.
  apply IH; [intros; apply He; by right | done].
Qed.

Lemma table_slots_ext ps ps' h pgs : (∀ p, p ∈ pgs → page_at ps' p = page_at ps p) → table_slots ps' h pgs = table_slots ps h pgs.
Proof.
  intros He. unfold table_slots. induction pgs as [|p pgs IH]; [done|]. rewrite !bind_cons, He by left. f_equal.
  apply IH. intros. apply He. by right.
Qed.

(** A table does not notice what happens to other pages. *)
Lemma table_ext ps ps' part h pgs : (∀ p, p ∈ pgs → page_at ps' p = page_at ps p ∧ allocated ps' part p) →
  table_ok ps part h pgs → table_ok ps' part h pgs ∧ table_slots ps' h pgs = table_slots ps h pgs.
Proof.
  intros He [H1 H2 H3 H4 H5 H6 H7]. assert (∀ p, p ∈ pgs → page_at ps' p = page_at ps p) as He' by (intros; by apply He).
  assert (table_slots ps' h pgs = table_slots ps h pgs) as Es by (by apply table_slots_ext).
  split; [|done]. split; [done | by eapply linked_ext | done | | done | done|].
  - apply Forall_forall. intros p Hp. by apply He.
  - intros p s Hp Hs. rewrite He' by (by apply last_Some_elem_of). by apply H7.
Qed.

(** ** Writing a slot *)

Lemma put_page_slots l pid page page' n s o : 0 ≤ s < n → (∀ s', 0 ≤ s' < n → s' ≠ s → slot_val l page' s' = slot_val l page s') → slot_val l page' s = o →
  page_slots l pid page' n = put_slot (mkRowId pid s) o (page_slots l pid page n).
Proof.
  intros Hs He Ho. unfold put_slot, page_slots, tab. rewrite <- list_fmap_compose. apply list_fmap_ext.
  intros _ s' Hs'%list_elem_of_lookup_2%elem_of_seqZ. cbn. destruct (decide (mkRowId pid s' = mkRowId pid s)) as [[= ->]|Hne]; [by rewrite Ho|].
  rewrite He; [done | lia | by intros ->].
Qed.

Lemma put_other_slots l pid page n id o : page_id id ≠ pid → put_slot id o (page_slots l pid page n) = page_slots l pid page n.
Proof.
  intros Hne. unfold put_slot, page_slots, tab. rewrite <- list_fmap_compose. apply list_fmap_ext. intros _ s' _. cbn.
  rewrite decide_False; [done|]. by intros <-.
Qed.

Lemma put_slot_app id o a b : put_slot id o (a ++ b) = put_slot id o a ++ put_slot id o b.
Proof. apply fmap_app. Qed.

Lemma put_table_slots ps ps' h pgs pid s o : layout_ok (layout h) →
  (∀ q, q ∈ pgs → q ≠ pid → page_at ps' q = page_at ps q) → 0 ≤ s < limit h pid →
  (∀ s', 0 ≤ s' < limit h pid → s' ≠ s → slot_val (layout h) (page_at ps' pid) s' = slot_val (layout h) (page_at ps pid) s') →
  slot_val (layout h) (page_at ps' pid) s = o →
  table_slots ps' h pgs = put_slot (mkRowId pid s) o (table_slots ps h pgs).
Proof.
  intros Hl Hq Hs He Ho. unfold table_slots. induction pgs as [|q pgs IH]; [done|]. rewrite !bind_cons, put_slot_app.
  rewrite IH by (intros; apply Hq; [by right | done]). f_equal. destruct (decide (q = pid)) as [->|Hne]; [by apply put_page_slots|].
  rewrite Hq by (done || left). symmetry. by apply put_other_slots.
Qed.

(** Any write into a slot in use. *)
Lemma write_slot ps part h pgs pid s bs : pages_ok ps → table_ok ps part h pgs → pid ∈ pgs → 0 ≤ s < limit h pid → Z.of_nat (length bs) ≤ row_width (layout h) →
  let ps' := write_frame (row_pages ps).[pid] (slot_off (layout h) s) bs ps in
  pages_ok ps' ∧ table_ok ps' part h pgs ∧
  table_slots ps' h pgs = put_slot (mkRowId pid s) (slot_val (layout h) (wr_bytes (slot_off (layout h) s) bs (page_at ps pid)) s) (table_slots ps h pgs).
Proof.
  intros Hok T Hpid Hs Hb ps'. pose proof T as [H1 H2 H3 H4 H5 H6 H7]. rewrite Forall_forall in H4. pose proof (H4 pid Hpid) as Ha.
  destruct (write_page ps part pid (slot_off (layout h) s) bs Hok Ha) as (Hok' & Hc & Hn & Hr & Hp). fold ps' in Hok', Hc, Hn, Hr, Hp.
  assert (∀ q, q ∈ pgs → allocated ps' part q) as Ha'. { intros q Hq. unfold allocated. rewrite Hc. by apply H4. }
  assert (∀ q, q ∈ pgs → page_at ps' q = if pid =? q then wr_bytes (slot_off (layout h) s) bs (page_at ps pid) else page_at ps q) as Hq.
  { intros q Hq. apply (Hp part). by apply H4. }
  assert (∀ q, q ∈ pgs → rd_bytes 0 4 (page_at ps' q) = rd_bytes 0 4 (page_at ps q)) as Hlink.
  { intros q Hq'. rewrite Hq by done. destruct (Z.eqb_spec pid q) as [<-|]; [|done]. rewrite <- (Z.add_0_r (slot_off _ _)). apply link_write; (done || lia). }
  split_and!; [done | |].
  - split; [done | | done | by apply Forall_forall | done | done |].
    + clear -H2 Hlink. revert H2 Hlink. generalize (first_page_id h). induction pgs as [|q pgs IH]; intros cur Hl He; [done|]. cbn [linked] in *.
      destruct Hl as [-> Hl]. split; [done|]. rewrite He by left. apply IH; [done|]. intros. apply He. by right.
    + intros p s' Hp' Hs'. rewrite Hq by (by apply last_Some_elem_of). destruct (Z.eqb_spec pid p) as [->|]; [|by apply H7].
      assert (limit h p = rows_in_last_page h) as El by (unfold limit; rewrite (H3 p Hp'), Z.eqb_refl; done). rewrite El in Hs.
      destruct H1 as [_ _ Hw _]. rewrite wr_bytes_at, decide_False by (unfold slot_off; nia). by apply H7.
  - pose proof (Hq pid Hpid) as Ep. rewrite Z.eqb_refl in Ep. rewrite <- Ep. apply put_table_slots; [done | | done | | done].
    + intros q Hq' Hne. rewrite Hq by done. by replace (pid =? q) with false by zcase.
    + intros s' Hs' Hne. rewrite Ep. rewrite <- (Z.add_0_r (slot_off _ s)). apply slot_val_write; (done || lia).
Qed.

(** ** Rows by id *)

Lemma page_slots_ids l pid page n : (page_slots l pid page n).*1 = mkRowId pid <$> seqZ 0 n.
Proof. unfold page_slots, tab. rewrite <- list_fmap_compose. by apply list_fmap_ext. Qed.

Lemma table_slots_elem ps h pgs id o : (id, o) ∈ table_slots ps h pgs ↔
  page_id id ∈ pgs ∧ 0 ≤ slot_index id < limit h (page_id id) ∧ o = slot_val (layout h) (page_at ps (page_id id)) (slot_index id).
Proof.
  unfold table_slots. rewrite list_elem_of_bind. split.
  - intros (pid & Hs & Hp). unfold page_slots in Hs. apply tab_elem in Hs as (s & Hs & [= -> ->]). done.
  - intros (Hp & Hs & ->). exists (page_id id). split; [|done]. apply tab_elem. exists (slot_index id). split; [done|]. by destruct id.
Qed.

Lemma table_ids_nodup ps h pgs : NoDup pgs → NoDup (table_slots ps h pgs).*1.
Proof.
  induction 1 as [|pid pgs Hni Hnd IH]; [constructor|]. unfold table_slots in *. rewrite bind_cons, fmap_app. apply NoDup_app. split_and!; [| |done].
  - rewrite page_slots_ids. apply NoDup_fmap_2; [by intros ? ? [=] | apply NoDup_seqZ].
  - intros id H1 ([id' o] & -> & H2)%list_elem_of_fmap. cbn in *. rewrite page_slots_ids in H1. apply list_elem_of_fmap in H1 as (s & -> & _).
    apply list_elem_of_bind in H2 as (q & Hq & Hq'). unfold page_slots in Hq. apply tab_elem in Hq as (s' & _ & [= <- _]). done.
Qed.

End Table.

(** * Live rows *)

Lemma live_app a b : live (a ++ b) = live a ++ live b.
Proof. apply omap_app. Qed.

Lemma live_elem ss id v : (id, v) ∈ live ss ↔ (id, Some v) ∈ ss.
Proof.
  unfold live. rewrite list_elem_of_omap. split.
  - intros ([id' [v'|]] & He & [= <- <-]); done.
  - intros H. by exists (id, Some v).
Qed.

Lemma live_put_length ss id v o : NoDup ss.*1 → (id, Some v) ∈ ss →
  Z.of_nat (length (live (put_slot id o ss))) = Z.of_nat (length (live ss)) - (if o is Some _ then 0 else 1).
Proof.
  induction ss as [|[id' o'] ss IH]; intros Hnd Hin; [by apply elem_of_nil in Hin|]. cbn in Hnd. apply NoDup_cons in Hnd as [Hni Hnd].
  destruct (decide (id' = id)) as [->|Hne].
  - assert (put_slot id o ss = ss) as E.
    { unfold put_slot. rewrite <- (list_fmap_id ss) at 2. apply list_fmap_ext. intros i [x y] Hx%list_elem_of_lookup_2. cbn. rewrite decide_False; [done|].
      intros ->. apply Hni. apply list_elem_of_fmap. by exists (id, y). }
    assert (o' = Some v) as ->. { apply elem_of_cons in Hin as [[= ->]|Hin]; [done|]. destruct Hni. apply list_elem_of_fmap. by exists (id, Some v). }
    cbn [put_slot fmap list_fmap]. fold (put_slot id o ss). rewrite E, decide_True by done. destruct o; cbn; lia.
  - apply elem_of_cons in Hin as [[= ->]|Hin]; [done|]. specialize (IH Hnd Hin). cbn [put_slot fmap list_fmap]. fold (put_slot id o ss).
    cbn [fst]. rewrite decide_False by done. destruct o'; cbn; fold (live (put_slot id o ss)); fold (live ss); lia.
Qed.

Section Append.
Context {F D : Type} `{!Frames F} `{!FramesLaws F} `{!Nvme D} `{!CConv}.
Implicit Types (ps : PageStore F D) (h : RowTableHeader) (pgs : list Z).

(** Only pages of [pgs] and pages that were not in use change. *)
Record touched ps ps' pgs pgs' : Prop := Touched {
  tc_old : ∀ q j, allocated ps q j → allocated ps' q j ∧ (j ∉ pgs → page_at ps' j = page_at ps j);
  tc_new : ∀ j, j ∈ pgs' → j ∈ pgs ∨ ∀ q, ¬ allocated ps q j
}.

Lemma touched_kept ps ps' pgs : kept ps ps' → touched ps ps' pgs pgs.
Proof.
  intros K. split; [|by left]. intros q j Hj. split; [by apply (kept_allocated _ _ q j K)|]. intros _. by apply (k_bytes _ _ K q).
Qed.

Lemma touched_trans ps ps1 ps2 pgs pgs1 : touched ps ps1 pgs pgs1 → touched ps1 ps2 pgs1 pgs1 → touched ps ps2 pgs pgs1.
Proof.
  intros [O1 N1] [O2 N2]. split; [|exact N1]. intros q j Hj. destruct (O1 q j Hj) as [Ha E1]. destruct (O2 q j Ha) as [Ha2 E2]. split; [done|].
  intros Hni. rewrite <- E1 by done. apply E2. intros [Hin|Hno]%N1; [done | by apply (Hno q)].
Qed.

Lemma linked_end ps ps' pgs p new : (∀ q, q ∈ pgs → page_at ps' q = page_at ps q) → le_word (rd_bytes 0 4 (page_at ps' p)) = new →
  le_word (rd_bytes 0 4 (page_at ps' new)) = ROWSTORE_INVALID_PAGE → ∀ cur, linked ps (pgs ++ [p]) cur → linked ps' (pgs ++ [p; new]) cur.
Proof.
  intros Hq Hp Hn. induction pgs as [|q pgs IH]; intros cur; cbn [linked app].
  - intros [-> _]. by rewrite Hp.
  - intros [-> Hl]. split; [done|]. rewrite Hq by left. apply IH; [intros; apply Hq; by right | done].
Qed.

Lemma list_bind_ext_same {A B} (f g : A → list B) (L : list A) : (∀ x, x ∈ L → f x = g x) → L ≫= f = L ≫= g.
Proof.
  induction L as [|x L IH]; intros He; [done|]. rewrite !bind_cons, He by left. f_equal. apply IH. intros. apply He. by right.
Qed.

Lemma word4 v : 0 ≤ v < 2 ^ 32 → le_word (le_bytes 4 v) = v.
Proof. intros Hv. rewrite le_word_bytes. apply Z.mod_small. done. Qed.

(** A table whose first page is missing has none. *)
Lemma table_empty ps part h pgs : pages_ok ps → table_ok ps part h pgs → first_page_id h = ROWSTORE_INVALID_PAGE ↔ pgs = [].
Proof.
  intros Hok T. pose proof (t_linked _ _ _ _ T) as Hl. split; [|intros ->; exact Hl]. intros E. destruct pgs as [|p pgs]; [done|].
  destruct Hl as [Hp _]. pose proof (Forall_inv (t_alloc _ _ _ _ T)) as Ha. apply allocated_range in Ha; [|done].
  rewrite <- Hp, E in Ha. change ROWSTORE_MAX_PAGES with 262144 in Ha. unfold ROWSTORE_INVALID_PAGE in Ha. lia.
Qed.

(** What [append_page] gives: a table with the same rows and a free slot. *)
Definition has_room ps ps' part h pgs h' pgs' : Prop :=
  table_ok ps' part h' pgs' ∧ table_slots ps' h' pgs' = table_slots ps h pgs ∧ pgs' ≠ [] ∧ rows_in_last_page h' < rows_per_page (layout h) ∧
  layout h' = layout h ∧ row_count h' = row_count h ∧ h_object_id h' = h_object_id h ∧ h_active h' = h_active h ∧ touched ps ps' pgs pgs'.

Lemma first_page_room ps ps' part h new n : table_ok ps part h [] → pages_ok ps' → extended part new ps ps' →
  has_room ps ps' part h [] (set_chain new new 0 n h) [new].
Proof.
  intros T Hok [(Ha & Hfresh & Hp) Hold Hall]. pose proof (t_layout _ _ _ _ T) as Hl. pose proof Hl as [_ _ _ [Hrpp _]]. split_and!; cbn [layout set_chain rows_in_last_page]; try done.
  - split; cbn [layout set_chain rows_in_last_page first_page_id last_page_id]; [done | | by intros p [=] | by apply Forall_singleton | by apply NoDup_singleton | lia |].
    + split; [done|]. rewrite Hp. exact fresh_page_link.
    + intros p s [= <-] Hs. rewrite Hp. apply fresh_page_slot; [done | lia].
  - unfold table_slots. cbn [mbind list_bind]. unfold limit. cbn [last_page_id set_chain rows_in_last_page]. rewrite Z.eqb_refl. done.
  - split.
    + intros q j Hj. destruct (Hold q j Hj) as (? & _ & ?). done.
    + intros j Hj. apply list_elem_of_singleton in Hj as ->. right. exact Hfresh.
Qed.

Lemma last_split pgs p : last pgs = Some p → ∃ pgs0, pgs = pgs0 ++ [p].
Proof. apply last_Some. Qed.

(** The last page full, a new one linked after it. *)
Lemma next_page_room ps ps1 part h pgs p new n : pages_ok ps → table_ok ps part h pgs → last pgs = Some p → rows_in_last_page h = rows_per_page (layout h) →
  pages_ok ps1 → extended part new ps ps1 →
  let ps2 := write_frame (row_pages ps1).[p] 0 (le_bytes 4 new) ps1 in
  pages_ok ps2 ∧ has_room ps ps2 part h pgs (set_chain (first_page_id h) new 0 n h) (pgs ++ [new]).
Proof.
  intros Hok0 T Hp Hfull Hok1 [(Ha & Hfresh & Hpg) Hold Hall] ps2. destruct (last_split _ _ Hp) as [pgs0 ->].
  pose proof T as [Hl Hlk Hla Hal Hnd Hr Hre]. pose proof Hl as [_ _ Hw [Hrpp _]]. rewrite Forall_forall in Hal.
  assert (p ∈ pgs0 ++ [p]) as Hin by (apply elem_of_app; right; left).
  assert (∀ q, q ∈ pgs0 → q ∈ pgs0 ++ [p]) as Hin0 by (intros q Hq; apply elem_of_app; by left).
  assert (allocated ps1 part p) as Hap by (by apply (Hold part), Hal).
  destruct (write_page ps1 part p 0 (le_bytes 4 new) Hok1 Hap) as (Hok2 & Hc2 & _ & _ & Hb2). fold ps2 in Hok2, Hc2, Hb2.
  assert (∀ q j, allocated ps2 q j ↔ allocated ps1 q j) as Hal2 by (intros; unfold allocated; by rewrite Hc2).
  assert (∀ q, q ∈ pgs0 ++ [p] → q ≠ new) as Hne. { intros q Hq ->. by apply (Hfresh part), Hal. }
  assert (p ∉ pgs0) as Hpn. { apply NoDup_app in Hnd as (_ & Hd & _). intros Hin'. apply (Hd p Hin'). by left. }
  assert (∀ q, q ∈ pgs0 ++ [p] → page_at ps2 q = if p =? q then wr_bytes 0 (le_bytes 4 new) (page_at ps p) else page_at ps q) as Hq2.
  { intros q Hq. destruct (Hold part q (Hal q Hq)) as (Haq & _ & Eq). rewrite (Hb2 part q Haq), Eq. destruct (Z.eqb_spec p q) as [<-|]; [by rewrite Eq | done]. }
  assert (page_at ps2 new = fresh_page) as Hnew. { rewrite (Hb2 part new Ha). replace (p =? new) with false; [done|]. symmetry. by apply Z.eqb_neq, Hne. }
  pose proof (allocated_range _ _ _ Hok1 Ha) as Hnr. change ROWSTORE_MAX_PAGES with 262144 in Hnr.
  assert (∀ s, 0 ≤ s → slot_val (layout h) (wr_bytes 0 (le_bytes 4 new) (page_at ps p)) s = slot_val (layout h) (page_at ps p) s) as Hsv.
  { intros s Hs. apply slot_val_ext; [done|]. apply rd_wr_other. rewrite le_bytes_length. unfold slot_off. right. lia. }
  split; [done|]. split_and!; cbn [layout set_chain rows_in_last_page]; try done.
  - split; cbn [layout set_chain rows_in_last_page first_page_id last_page_id]; [done | | | | | lia |].
    + rewrite <- app_assoc. eapply linked_end; [| | |exact Hlk].
      * intros q Hq. rewrite Hq2 by auto. replace (p =? q) with false; [done|]. symmetry. apply Z.eqb_neq. by intros ->.
      * rewrite Hq2, Z.eqb_refl by done. change 4 with (Z.of_nat (length (le_bytes 4 new))). rewrite rd_wr_same. apply word4. lia.
      * rewrite Hnew. exact fresh_page_link.
    + intros q. rewrite last_snoc. by intros [= <-].
    + apply Forall_app. split; [|by apply Forall_singleton, Hal2]. apply Forall_forall. intros q Hq. apply Hal2, (Hold part), Hal. done.
    + apply NoDup_app. split_and!; [done | intros q Hq Hq'%list_elem_of_singleton; by apply (Hne q) | apply NoDup_singleton].
    + intros q s. rewrite last_snoc. intros [= <-] Hs. rewrite Hnew. apply fresh_page_slot; [done | lia].
  - assert (∀ q, q ∈ pgs0 ++ [p] → limit (set_chain (first_page_id h) new 0 n h) q = limit h q) as Hlim.
    { intros q Hq. unfold limit. cbn [last_page_id set_chain layout rows_in_last_page]. rewrite (Hla p Hp). replace (q =? new) with false by (symmetry; by apply Z.eqb_neq, Hne).
      destruct (q =? p); [by rewrite Hfull | done]. }
    unfold table_slots at 1. rewrite bind_app. cbn [mbind list_bind]. unfold limit at 2. cbn [last_page_id set_chain rows_in_last_page layout]. rewrite Z.eqb_refl, !app_nil_r.
    unfold table_slots. revert Hlim Hq2. generalize (pgs0 ++ [p]) as L. intros L Hlim Hq2. induction L as [|q L IH]; [done|]. rewrite !bind_cons. f_equal.
    + rewrite Hlim, Hq2 by left. destruct (Z.eqb_spec p q) as [<-|]; [|done]. apply tab_ext. intros s Hs. by rewrite Hsv by lia.
    + apply IH; intros; [apply Hlim | apply Hq2]; by right.
  - by destruct pgs0.
  - split.
    + intros q j Hj. destruct (Hold q j Hj) as (Haj & _ & Ej). split; [by apply Hal2|]. intros Hni. rewrite (Hb2 q j Haj), Ej.
      replace (p =? j) with false; [done|]. symmetry. apply Z.eqb_neq. intros ->. by apply Hni.
    + intros j [Hj|Hj%list_elem_of_singleton]%elem_of_app; [by left | right; subst; exact Hfresh].
Qed.

Lemma append_page_spec ps part h pgs o ps' : pages_ok ps → 0 ≤ part → table_ok ps part h pgs → append_page part h ps = (o, ps') →
  pages_ok ps' ∧ match o with
  | None => kept ps ps'
  | Some (h', u) => ∃ pgs', has_room ps ps' part h pgs h' pgs'
  end.
Proof.
  intros Hok Hpart T. unfold append_page. pose proof (table_empty _ _ _ _ Hok T) as Hemp. pose proof (t_rows _ _ _ _ T) as Hr.
  destruct (_ || _) eqn:Hc.
  - destruct (rowstore_alloc_page part ps) as [new ps1] eqn:Ea. destruct (alloc_spec _ _ _ _ Hok Hpart Ea) as [Hok1 Hx].
    destruct (new =? ROWSTORE_INVALID_PAGE); [by intros [= <- <-]|]. destruct (Z.eqb_spec (first_page_id h) ROWSTORE_INVALID_PAGE) as [E|Hne].
    + apply Hemp in E as ->. intros [= <- <-]. split; [done|]. exists [new]. by apply first_page_room.
    + cbn [orb] in Hc. apply Z.leb_le in Hc. destruct (last pgs) as [p|] eqn:Hp; [|by apply last_None, Hemp in Hp].
      rewrite (t_last _ _ _ _ T p Hp). assert (p ∈ pgs) as Hin by (by apply last_Some_elem_of).
      pose proof (t_alloc _ _ _ _ T) as Hal. rewrite Forall_forall in Hal. destruct (x_old _ _ _ _ Hx part p (Hal p Hin)) as (Hap & _).
      rewrite (load_allocated _ _ _ Hok1 Hap). destruct (po_loaded _ Hok1 _ _ Hap) as [Hnz _]. replace ((row_pages ps1).[p] =? 0) with false by zcase.
      destruct (next_page_room ps ps1 part h pgs p new (u32 (page_count h + 1)) Hok T Hp ltac:(lia) Hok1 Hx) as [Hok2 HR].
      unfold flush_or. destruct (rowstore_flush_page p _) as [rc ps3] eqn:Ef. destruct (flush_kept _ _ _ _ Hok2 Ef) as (Hok3 & K & _ & _).
      intros [= <- <-]. split; [done|]. exists (pgs ++ [new]). destruct HR as (T2 & S2 & N2 & R2 & L2 & C2 & O2 & A2 & Tc2).
      destruct (table_ext _ ps3 _ _ _ (λ q Hq, conj (k_bytes _ _ K part q (proj1 (Forall_forall _ _) (t_alloc _ _ _ _ T2) q Hq))
        (proj2 (kept_allocated _ _ part q K) (proj1 (Forall_forall _ _) (t_alloc _ _ _ _ T2) q Hq))) T2) as [T3 S3].
      split_and!; [done | by rewrite S3 | done..|]. eapply touched_trans; [exact Tc2 | by apply touched_kept].
  - intros [= <- <-]. split; [done|]. exists pgs. apply orb_false_iff in Hc as [Hc1%Z.eqb_neq Hc2%Z.leb_gt].
    split_and!; try done; [by intros E%Hemp | apply touched_kept, kept_refl].
Qed.

(** A row in the next slot. *)
Lemma fill_slot ps part h pgs v buf : pages_ok ps → table_ok ps part h pgs → pgs ≠ [] → rows_in_last_page h < rows_per_page (layout h) →
  row_ok v → serialize_row (layout h) v ∅ = Some buf →
  let p := last_page_id h in
  let s := rows_in_last_page h in
  let ps' := write_frame (row_pages ps).[p] (slot_off (layout h) s) (rd_bytes 0 (row_width (layout h)) buf) ps in
  let h' := set_rows (u32 (row_count h + 1)) (s + 1) h in
  pages_ok ps' ∧ table_ok ps' part h' pgs ∧ table_slots ps' h' pgs = table_slots ps h pgs ++ [(mkRowId p s, Some (stored (layout h) v))] ∧
  touched ps ps' pgs pgs ∧ allocated ps part p.
Proof.
  intros Hok T Hne Hs Hv Hbuf p s ps' h'. destruct (last pgs) as [p'|] eqn:Hp; [|by apply last_None in Hp]. pose proof (t_last _ _ _ _ T p' Hp) as Ep. fold p in Ep. subst p'.
  destruct (last_split _ _ Hp) as [pgs0 ->]. pose proof T as [Hl Hlk Hla Hal Hnd Hr Hre]. pose proof Hl as [_ _ Hw _]. rewrite Forall_forall in Hal.
  assert (p ∈ pgs0 ++ [p]) as Hin by (apply elem_of_app; right; left). pose proof (Hal p Hin) as Hap.
  set (bs := rd_bytes 0 (row_width (layout h)) buf). assert (Z.of_nat (length bs) = row_width (layout h)) as Hlen by (subst bs; rewrite rd_bytes_length; lia).
  destruct (write_page ps part p (slot_off (layout h) s) (rd_bytes 0 (row_width (layout h)) buf) Hok Hap) as (Hok' & Hc & Hn & Hrp & Hb).
  fold ps' in Hok', Hc, Hn, Hrp, Hb. fold bs in Hb.
  assert (∀ q j, allocated ps' q j ↔ allocated ps q j) as Hal' by (intros; unfold allocated; by rewrite Hc).
  assert (∀ q, q ∈ pgs0 ++ [p] → page_at ps' q = if p =? q then wr_bytes (slot_off (layout h) s) bs (page_at ps p) else page_at ps q) as Hq by (intros q Hq; apply (Hb part); by apply Hal).
  assert (p ∉ pgs0) as Hpn. { apply NoDup_app in Hnd as (_ & Hd & _). intros Hin'. apply (Hd p Hin'). by left. }
  assert (∀ q, q ∈ pgs0 ++ [p] → rd_bytes 0 4 (page_at ps' q) = rd_bytes 0 4 (page_at ps q)) as Hlink.
  { intros q Hq'. rewrite Hq by done. destruct (Z.eqb_spec p q) as [<-|]; [|done]. rewrite <- (Z.add_0_r (slot_off _ _)). apply link_write; (done || lia). }
  split_and!; [done | | | |done].
  - split; cbn [layout h' set_rows rows_in_last_page first_page_id last_page_id]; [done | | done | | done | lia |].
    + clear -Hlk Hlink. revert Hlk Hlink. generalize (first_page_id h). generalize (pgs0 ++ [p]) as L. induction L as [|q L IH]; intros cur Hl He; [done|]. cbn [linked] in *.
      destruct Hl as [-> Hl]. split; [done|]. rewrite He by left. apply IH; [done|]. intros. apply He. by right.
    + apply Forall_forall. intros q Hq'. by apply Hal', Hal.
    + intros q s'. rewrite last_snoc. intros [= <-] Hs'. rewrite Hq, Z.eqb_refl by done. rewrite wr_bytes_at, decide_False by (unfold slot_off; nia). apply Hre; [done | lia].
  - unfold table_slots. rewrite !bind_app. rewrite <- app_assoc. f_equal.
    + apply list_bind_ext_same. intros q Hq'. rewrite Hq by (apply elem_of_app; by left). assert (p ≠ q) by (by intros ->). replace (p =? q) with false by zcase.
      f_equal. unfold limit. cbn [last_page_id h' set_rows]. fold p. by replace (q =? p) with false by zcase.
    + cbn [mbind list_bind]. rewrite !app_nil_r. unfold limit. cbn [last_page_id h' set_rows rows_in_last_page layout]. fold p s. rewrite Z.eqb_refl, Hq, Z.eqb_refl by done.
      apply tab_snoc; [lia | |].
      * f_equal. by apply slot_val_row.
      * intros j Hj. f_equal. rewrite <- (Z.add_0_r (slot_off _ s)). apply slot_val_write; (done || lia).
  - split; [|by left]. intros q j Hj. split; [by apply Hal'|]. intros Hni. rewrite (Hb q j Hj). replace (p =? j) with false; [done|].
    symmetry. apply Z.eqb_neq. intros ->. by apply Hni.
Qed.

(** What a row appended to a table does. *)
Definition appended ps ps' part h pgs v h' (id : RowId) pgs' : Prop :=
  table_ok ps' part h' pgs' ∧ table_slots ps' h' pgs' = table_slots ps h pgs ++ [(id, Some (stored (layout h) v))] ∧
  layout h' = layout h ∧ row_count h' = u32 (row_count h + 1) ∧ h_object_id h' = h_object_id h ∧ h_active h' = h_active h ∧ touched ps ps' pgs pgs'.

Lemma append_row_spec ps part h pgs v buf : pages_ok ps → 0 ≤ part → table_ok ps part h pgs → row_ok v → serialize_row (layout h) v ∅ = Some buf →
  ∃ h' o ps', append_row part buf h ps = (h', o, ps') ∧ pages_ok ps' ∧ match o with
  | None => h' = h ∧ kept ps ps'
  | Some (id, u) => ∃ pgs', appended ps ps' part h pgs v h' id pgs'
  end.
Proof.
  intros Hok Hpart T Hv Hbuf. unfold append_row. destruct (append_page part h ps) as [[[h1 u]|] ps1] eqn:Ea;
    (destruct (append_page_spec _ _ _ _ _ _ Hok Hpart T Ea) as [Hok1 Hx]); [|by exists h, None, ps1].
  destruct Hx as (pgs1 & T1 & S1 & N1 & R1 & L1 & C1 & O1 & A1 & Tc1).
  destruct (fill_slot ps1 part h1 pgs1 v buf Hok1 T1 N1 ltac:(by rewrite L1) Hv ltac:(by rewrite L1)) as (Hok2 & T2 & S2 & Tc2 & Hap).
  rewrite (load_allocated _ _ _ Hok1 Hap). destruct (po_loaded _ Hok1 _ _ Hap) as [Hnz _]. replace ((row_pages ps1).[last_page_id h1] =? 0) with false by zcase.
  unfold flush_or. fold (slot_off (layout h1) (rows_in_last_page h1)). destruct (rowstore_flush_page _ _) as [rc ps3] eqn:Ef. destruct (flush_kept _ _ _ _ Hok2 Ef) as (Hok3 & K & _ & _).
  eexists _, (Some _), ps3. split; [reflexivity|]. split; [done|]. exists pgs1.
  assert (∀ q, q ∈ pgs1 → page_at ps3 q = page_at (write_frame (row_pages ps1).[last_page_id h1] (slot_off (layout h1) (rows_in_last_page h1)) (rd_bytes 0 (row_width (layout h1)) buf) ps1) q ∧
    allocated ps3 part q) as Hq.
  { intros q Hq. pose proof (proj1 (Forall_forall _ _) (t_alloc _ _ _ _ T2) q Hq) as Haq. split; [by apply (k_bytes _ _ K part) | by apply (kept_allocated _ _ part q K)]. }
  destruct (table_ext _ ps3 _ _ _ Hq T2) as [T3 S3]. split_and!; [done | | done | by cbn; rewrite C1 | done | done|].
  - by rewrite S3, S2, S1, L1.
  - eapply touched_trans; [exact Tc1|]. eapply touched_trans; [exact Tc2 | by apply touched_kept].
Qed.

End Append.
