(* ===== verification/RowIndexSpec.v ===== *)
(** Indexes and rows: under every key an index lists the rows that have it, all of them unless the key is marked as
    capped; a change to a row reaches exactly the active indexes of its table, and the trees of the others stay as
    they are. *)
From stdpp Require Import base gmap list list_numbers.
From Stdlib Require Import ZArith Lia Sorted.
From S2P Require Import Prelude Bytes BTree BTreeLib BTreeLeaf BTreeInv BTreeSpec BTreeForest Authority RowCodec RowCodecSpec RowKeySpec.
From S2P Require Import RowStore.
#[local] Open Scope Z_scope.
#[local] Open Scope carr_scope.

Definition ix_rows (k : key) (es : list entry) : list RowId := ix_range (Some k) (Some k) es.

(** The index [es] for rows that are [R k] under each key [k]. *)
Definition holds (es : list entry) (R : key → list RowId) : Prop :=
  ∀ k, is_key k → ix_rows k es ⊆+ R k ∧ (ix_capped k es = 0 → ix_rows k es ≡ₚ R k).

Section Entries.
Context (lo hi : Z) (k : key) (Hk : is_key k).
Implicit Types (es : list entry).

Lemma in_range_eq (k' : key) : is_key k' → in_range (Some k) (Some k) k' = bool_decide (k' = k).
Proof using Hk.
  intros Hk'. unfold in_range. cbn. rewrite key_cmp_lt, key_cmp_gt by done. destruct (decide (k' = k)) as [->|Hne].
  - rewrite bool_decide_eq_true_2 by done. by rewrite Z.ltb_irrefl.
  - rewrite bool_decide_eq_false_2 by done. assert (kv k' ≠ kv k) by (intros E; by apply Hne, kv_inj). zcase.
Qed.

Lemma ix_rows_cons e es : is_key e.1 → ix_rows k (e :: es) = (if decide (e.1 = k) then active_rows e.2 else []) ++ ix_rows k es.
Proof using Hk.
  intros He. unfold ix_rows. rewrite ix_range_cons, in_range_eq by done. by destruct (decide (e.1 = k)) as [E|E]; [rewrite bool_decide_eq_true_2 | rewrite bool_decide_eq_false_2].
Qed.

Lemma ix_capped_cons e es : is_key e.1 → ix_capped k (e :: es) = if decide (e.1 = k) then d_capped e.2 else ix_capped k es.
Proof using Hk.
  intros He. unfold ix_capped. cbn [List.find]. rewrite key_cmp_eq by done. destruct (decide (e.1 = k)) as [->|Hne]; [by rewrite Z.eqb_refl|].
  assert (kv e.1 ≠ kv k) by (intros E; by apply Hne, kv_inj). by replace (kv e.1 =? kv k) with false by zcase.
Qed.

(** Keys above [k] have none of its rows. *)
Lemma ix_rows_above es : Forall (fun e : entry => is_key e.1 ∧ kv k < kv e.1) es → ix_rows k es = [] ∧ ix_capped k es = 0.
Proof using Hk.
  induction 1 as [|e es [He Hlt] _ [IH1 IH2]]; [done|]. rewrite ix_rows_cons, ix_capped_cons by done.
  rewrite !decide_False by (intros E; rewrite E in Hlt; lia). by rewrite IH1.
Qed.

End Entries.

(** * Insertion *)

Section Insert.
Context (lo hi : Z) (k : key) (id : RowId) (Hk : is_key k).
Implicit Types (es : list entry).

Lemma ix_insert_cons k' d es : is_key k' → ix_insert k id ((k', d) :: es) =
  if kv k <? kv k' then (0, (k, mkDups [(id, 1)] 0) :: (k', d) :: es)
  else if decide (k' = k) then
    if BTREE_MAX_DUPES_PER_KEY <=? Z.of_nat (length (d_ids d)) then (1, (k', mkDups (d_ids d) 1) :: es)
    else (0, (k', mkDups (d_ids d ++ [(id, 1)]) (d_capped d)) :: es)
  else ((ix_insert k id es).1, (k', d) :: (ix_insert k id es).2).
Proof using Hk.
  intros Hk'. cbn [ix_insert]. rewrite key_cmp_lt, key_cmp_eq by done. destruct (kv k <? kv k'); [done|]. destruct (decide (k' = k)) as [->|Hne].
  - by rewrite Z.eqb_refl.
  - assert (kv k' ≠ kv k) by (intros E; by apply Hne, kv_inj). replace (kv k' =? kv k) with false by zcase. by destruct (ix_insert k id es).
Qed.

Lemma new_active_rows c : active_rows (mkDups [(id, 1)] c) = [id].
Proof. done. Qed.

(** The rows under another key stay. *)
Lemma ix_insert_other k' es : is_key k' → k' ≠ k → Forall (fun e : entry => is_key e.1) es →
  ix_rows k' (ix_insert k id es).2 = ix_rows k' es ∧ ix_capped k' (ix_insert k id es).2 = ix_capped k' es.
Proof using Hk.
  intros Hk' Hne. induction 1 as [|[k0 d] es Hk0 _ IH]; cbn [fst] in *.
  - cbn [ix_insert snd]. rewrite ix_rows_cons, ix_capped_cons by done. cbn [fst]. by rewrite !decide_False by done.
  - rewrite ix_insert_cons by done. destruct (kv k <? kv k0); cbn [snd].
    + rewrite (ix_rows_cons k' Hk' (k, _)), (ix_capped_cons k' Hk' (k, _)) by done. cbn [fst]. by rewrite !decide_False by done.
    + destruct (decide (k0 = k)) as [->|Hk0'].
      * destruct (_ <=? _); cbn [snd]; rewrite !(ix_rows_cons k' Hk' (k, _)), !(ix_capped_cons k' Hk' (k, _)) by done; cbn [fst]; by rewrite !decide_False by done.
      * cbn [snd]. destruct IH as [IH1 IH2]. by rewrite !(ix_rows_cons k' Hk' (k0, _)), !(ix_capped_cons k' Hk' (k0, _)), IH1, IH2 by done.
Qed.

(** Its own key gets the row, or is marked as capped. *)
Lemma ix_insert_own es : entries_ok lo hi es →
  (ix_rows k (ix_insert k id es).2 ≡ₚ id :: ix_rows k es ∧ ix_capped k (ix_insert k id es).2 = ix_capped k es) ∨
  (ix_rows k (ix_insert k id es).2 = ix_rows k es ∧ ix_capped k (ix_insert k id es).2 = 1).
Proof using Hk.
  induction es as [|[k0 d] es IH]; intros Hok.
  - left. cbn [ix_insert snd]. rewrite ix_rows_cons, ix_capped_cons by done. cbn [fst snd]. by rewrite !decide_True by done.
  - pose proof Hok as [Hkeys _ Hsort]. apply Forall_cons in Hkeys as [[Hk0 Hb] Hkeys]. cbn [fst] in *. apply StronglySorted_inv in Hsort as [_ Habove].
    rewrite ix_insert_cons by done. destruct (Z.ltb_spec (kv k) (kv k0)) as [Hlt|Hge]; cbn [snd].
    + left. rewrite (ix_rows_cons k Hk (k, _)), (ix_capped_cons k Hk (k, _)) by done. cbn [fst snd d_capped]. rewrite !decide_True by done. split; [done|].
      symmetry. apply (ix_rows_above k Hk). constructor; [done|]. rewrite Forall_forall in Hkeys, Habove |- *. intros e He. destruct (Hkeys e He). specialize (Habove e He). cbn in Habove. split; [done | lia].
    + destruct (decide (k0 = k)) as [->|Hne].
      * destruct (_ <=? _); cbn [snd]; [right | left]; rewrite !(ix_rows_cons k Hk (k, _)), !(ix_capped_cons k Hk (k, _)) by done; cbn [fst snd d_capped]; rewrite !decide_True by done.
        { destruct d; done. }
        split; [|done]. rewrite active_rows_snoc. destruct d as [l c]. cbn [d_ids d_capped]. rewrite <- app_assoc. perm.
      * assert (entries_ok lo hi es) as Hok' by (by apply entries_cons in Hok as (_ & _ & _ & _ & ?)). cbn [snd].
        rewrite !(ix_rows_cons k Hk (k0, _)), !(ix_capped_cons k Hk (k0, _)) by done. cbn [fst]. rewrite !decide_False by done. by apply IH.
Qed.

End Insert.

(** * Deletion *)

Section Delete.
Context (lo hi : Z) (k : key) (id : RowId) (Hk : is_key k).
Implicit Types (es : list entry).

Lemma clear_active_rows l c : 
  (id ∈ active_rows (mkDups l c) ∧ active_rows (mkDups l c) ≡ₚ id :: active_rows (mkDups (clear_row id l) c)) ∨
  ((id ∉ active_rows (mkDups l c)) ∧ active_rows (mkDups (clear_row id l) c) = active_rows (mkDups l c)).
Proof.
  unfold active_rows. cbn [d_ids]. induction l as [|[i a] l IH]; [right; split; [by intros ?%elem_of_nil | done]|]. cbn [clear_row].
  destruct (Z.eqb_spec a 0) as [->|Ha]; cbn [negb andb].
  - rewrite !filter_cons_False by (cbn; tauto). exact IH.
  - destruct (decide (i = id)) as [->|Hne].
    + rewrite bool_decide_eq_true_2 by done. left. rewrite filter_cons_True by done. rewrite (filter_cons_False _ (id, 0)) by (cbn; tauto). split; [by left | done].
    + rewrite bool_decide_eq_false_2 by done. rewrite !filter_cons_True by done. cbn [map fst]. destruct IH as [[Hin IH]|[Hni IH]].
      * left. split; [by right|]. rewrite IH. apply Permutation_swap.
      * right. split; [by intros [?|?]%elem_of_cons | by f_equal].
Qed.

Lemma ix_delete_cons e es : is_key e.1 → ix_delete k id (e :: es) =
  (if decide (e.1 = k) then (e.1, mkDups (clear_row id (d_ids e.2)) (d_capped e.2)) else e) :: ix_delete k id es.
Proof using Hk.
  intros He. cbn [ix_delete map]. rewrite key_cmp_eq by done. f_equal. destruct (decide (e.1 = k)) as [->|Hne]; [by rewrite Z.eqb_refl|].
  assert (kv e.1 ≠ kv k) by (intros E; by apply Hne, kv_inj). by replace (kv e.1 =? kv k) with false by zcase.
Qed.

(** Capped marks stay, and so do the rows under other keys. *)
Lemma ix_delete_capped k' es : is_key k' → Forall (fun e : entry => is_key e.1) es → ix_capped k' (ix_delete k id es) = ix_capped k' es.
Proof using Hk.
  intros Hk'. induction 1 as [|e es He _ IH]; [done|]. rewrite ix_delete_cons by done. destruct (decide (e.1 = k)).
  - rewrite !ix_capped_cons by done. cbn [fst snd d_capped]. by rewrite IH.
  - rewrite !ix_capped_cons by done. by rewrite IH.
Qed.

Lemma ix_delete_others k' es : is_key k' → k' ≠ k → Forall (fun e : entry => is_key e.1) es → ix_rows k' (ix_delete k id es) = ix_rows k' es.
Proof using Hk.
  intros Hk' Hne. induction 1 as [|e es He _ IH]; [done|]. rewrite ix_delete_cons by done. destruct (decide (e.1 = k)) as [E|E].
  - rewrite !ix_rows_cons by done. cbn [fst snd]. rewrite IH, !decide_False by congruence. done.
  - rewrite !ix_rows_cons by done. by rewrite IH.
Qed.

Lemma ix_delete_own es : entries_ok lo hi es →
  (id ∈ ix_rows k es ∧ ix_rows k es ≡ₚ id :: ix_rows k (ix_delete k id es)) ∨
  ((id ∉ ix_rows k es) ∧ ix_rows k (ix_delete k id es) = ix_rows k es).
Proof using Hk.
  induction es as [|e es IH]; intros Hok; [right; split; [by intros ?%elem_of_nil | done]|].
  pose proof Hok as (He & _ & _ & Habove & Hok')%entries_cons. pose proof Hok' as [Hkeys _ _]. rewrite ix_delete_cons by done.
  destruct (decide (e.1 = k)) as [E|E].
  - rewrite !ix_rows_cons by done. cbn [fst snd]. rewrite !decide_True by done.
    assert (Forall (fun e : entry => is_key e.1 ∧ kv k < kv e.1) es) as Ha.
    { rewrite Forall_forall in *. intros x Hx. specialize (Habove x Hx). rewrite E in Habove. destruct (Hkeys x Hx). done. }
    destruct (ix_rows_above k Hk es Ha) as [-> _].
    assert (ix_delete k id es = es) as ->. { apply ix_delete_other; [done|]. eapply Forall_impl; [exact Ha|]. intros x [? ?]. split; [done | lia]. }
    destruct (ix_rows_above k Hk es Ha) as [-> _]. rewrite !app_nil_r. destruct e as [k0 [l c]]. cbn [snd d_ids d_capped]. apply clear_active_rows.
  - rewrite !ix_rows_cons by done. rewrite !decide_False by done. by apply IH.
Qed.

End Delete.

(** * Rows come and go *)

Section Holds.
Context (lo hi : Z) (es : list entry) (Hes : entries_ok lo hi es) (R R' : key → list RowId) (Hh : holds es R).

Lemma entries_keys : Forall (fun e : entry => is_key e.1) es.
Proof using Hes. destruct Hes as [H _ _]. eapply Forall_impl; [exact H|]. by intros e [? _]. Qed.

Lemma holds_ext : (∀ k, is_key k → R' k ≡ₚ R k) → holds es R'.
Proof using Hh.
  intros HR k Hk. destruct (Hh k Hk) as [H1 H2]. specialize (HR k Hk). split; [by rewrite HR|]. intros Hc. by rewrite HR, H2.
Qed.

Lemma holds_add k id : is_key k → R' k ≡ₚ id :: R k → (∀ k', is_key k' → k' ≠ k → R' k' ≡ₚ R k') → holds (ix_insert k id es).2 R'.
Proof using Hes Hh.
  intros Hk HR HR' k' Hk'. destruct (decide (k' = k)) as [->|Hne].
  - destruct (Hh k Hk) as [H1 H2]. destruct (ix_insert_own lo hi k id Hk es Hes) as [[E1 E2]|[E1 E2]].
    + rewrite E1, E2, HR. split; [by apply submseteq_skip|]. intros Hc. by rewrite H2.
    + rewrite E1, E2, HR. split; [by apply submseteq_cons | done].
  - destruct (Hh k' Hk') as [H1 H2]. destruct (ix_insert_other k id Hk k' es Hk' Hne entries_keys) as [-> ->]. rewrite HR' by done. done.
Qed.

Lemma holds_remove k id : is_key k → R k ≡ₚ id :: R' k → id ∉ R' k → (∀ k', is_key k' → k' ≠ k → R' k' ≡ₚ R k') → holds (ix_delete k id es) R'.
Proof using Hes Hh.
  intros Hk HR Hni HR' k' Hk'. rewrite ix_delete_capped by (done || apply entries_keys). destruct (decide (k' = k)) as [->|Hne].
  - destruct (Hh k Hk) as [H1 H2]. rewrite HR in H1, H2. destruct (ix_delete_own lo hi k id Hk es Hes) as [[Hin E]|[Hin E]].
    + rewrite E in H1, H2. split.
      * apply submseteq_app_inv_l with [id]. done.
      * intros Hc. specialize (H2 Hc). by apply Permutation_cons_inv in H2.
    + rewrite E. split.
      * apply submseteq_cons_r in H1 as [H1|(l & Hl & H1)]; [done|]. destruct Hin. rewrite Hl. by left.
      * intros Hc. destruct Hin. rewrite (H2 Hc). by left.
  - destruct (Hh k' Hk') as [H1 H2]. rewrite (ix_delete_others k id Hk k' es Hk' Hne entries_keys). rewrite HR' by done. done.
Qed.

End Holds.

(** The trees of the active indexes. *)
Definition trees (xs : gmap Z RowIndex) : gmap Z Tree := omap (fun x => if flag (i_active x) then Some (tree x) else None) xs.

Lemma trees_active xs i : flag (i_active xs.[i]) = true → trees xs !! i = Some (tree xs.[i]).
Proof.
  intros Ha. unfold trees. rewrite lookup_omap. unfold aget in *. destruct (xs !! i) as [x|]; [|done]. cbn in *. by rewrite Ha.
Qed.

Lemma trees_inactive xs i : flag (i_active xs.[i]) = false → trees xs !! i = None.
Proof.
  intros Ha. unfold trees. rewrite lookup_omap. unfold aget in *. destruct (xs !! i) as [x|]; [|done]. cbn in *. by rewrite Ha.
Qed.

Lemma trees_set xs i x : flag (i_active x) = true → trees xs.[i <- x] = <[i := tree x]> (trees xs).
Proof. intros Ha. unfold trees. apply omap_insert_Some. by rewrite Ha. Qed.

Lemma trees_clear xs i x : flag (i_active x) = false → trees xs.[i <- x] = delete i (trees xs).
Proof. intros Ha. unfold trees. apply omap_insert_None. by rewrite Ha. Qed.

Section Indexes.
Context {F D : Type} `{!Frames F} `{!Nvme D} `{!CConv}.
Implicit Types (db : Db F D).

(** The same indexes, up to their trees. *)
Definition same_index (x x' : RowIndex) : Prop := x' = set_tree (tree x') x.

Lemma same_index_refl x : same_index x x.
Proof. by destruct x. Qed.

Lemma same_index_trans x y z : same_index x y → same_index y z → same_index x z.
Proof. unfold same_index. intros -> ->. by destruct x. Qed.

Lemma same_index_active x x' : same_index x x' → i_active x' = i_active x ∧ table_object_id x' = table_object_id x ∧
  column_index x' = column_index x ∧ column_type x' = column_type x ∧ index_name x' = index_name x.
Proof. intros E. rewrite E. done. Qed.

(** An operation on the index of slot [i]: its entries go from [es] to [es'], nothing else changes. *)
Definition index_step (i : Z) (es es' : list entry) (m : Z) db (o : option (Db F D)) : Prop :=
  ∀ E, forest (nodes db) (trees (row_indexes db)) E → E !! i = Some es →
  ∃ xs p, o = Some (set_indexes xs p db) ∧ forest p (trees xs) (<[i := es']> E) ∧
    btree_next_free_node p ≤ btree_next_free_node (nodes db) + m ∧ ∀ j, same_index (row_indexes db).[j] xs.[j].

Lemma index_step_none i es db : index_step i es es 16 db (Some db).
Proof.
  intros E Hf HE. exists (row_indexes db), (nodes db). split; [by destruct db|]. rewrite insert_id by done. split_and!; [done | lia | intros; apply same_index_refl].
Qed.

Lemma index_insert_step i k id es db : flag (i_active (row_indexes db).[i]) = true → is_key k → btree_next_free_node (nodes db) + 16 ≤ BTREE_MAX_NODES →
  index_step i es (ix_insert k id es).2 16 db (index_insert i k id db).
Proof.
  intros Ha Hk Hr E Hf HE. destruct (forest_insert _ _ _ Hf i _ es k id Hk Hr (trees_active _ _ Ha) HE) as (t' & p' & Hi & Hf' & Hn).
  unfold index_insert. rewrite Hi. eexists _, p'. split; [reflexivity|]. rewrite trees_set by done. cbn [tree set_tree]. split_and!; [done | lia|].
  intros j. rewrite aget_upd. destruct (Z.eqb_spec i j) as [<-|]; [done | apply same_index_refl].
Qed.

Lemma index_delete_step i k id es db : flag (i_active (row_indexes db).[i]) = true → is_key k →
  index_step i es (ix_delete k id es) 0 db (index_delete i k id db).
Proof.
  intros Ha Hk E Hf HE. destruct (forest_delete _ _ _ Hf i _ es k id Hk (trees_active _ _ Ha) HE) as (t' & p' & Hi & Hf' & Hn).
  unfold index_delete. rewrite Hi. eexists _, p'. split; [reflexivity|]. rewrite trees_set by done. cbn [tree set_tree]. split_and!; [done | lia|].
  intros j. rewrite aget_upd. destruct (Z.eqb_spec i j) as [<-|]; [done | apply same_index_refl].
Qed.

(** What happens to the entries of an index when a row of its table changes. *)
Definition key_of (x : RowIndex) (v : RowValues) : option key :=
  if count v <=? column_index x then None else encode_key (column_type x) (text_at v (column_index x)).

Definition ins_entries (id : RowId) (k : option key) (es : list entry) : list entry :=
  match k with Some k => (ix_insert k id es).2 | None => es end.
Definition del_entries (id : RowId) (k : option key) (es : list entry) : list entry :=
  match k with Some k => ix_delete k id es | None => es end.
Definition upd_entries (id : RowId) (old new : option key) (es : list entry) : list entry :=
  if decide (old = new) then es else ins_entries id new (del_entries id old es).

Definition key_ok (k : option key) : Prop := match k with Some k => is_key k | None => True end.

Lemma index_step_weaken i es es' m m' db o : m ≤ m' → index_step i es es' m db o → index_step i es es' m' db o.
Proof. intros Hm Hs E Hf HE. destruct (Hs E Hf HE) as (xs & p & -> & Hf' & Hn & Hx). exists xs, p. split_and!; [done | done | lia | done]. Qed.

Lemma insert_apply_step i v id es db : flag (i_active (row_indexes db).[i]) = true → key_ok (key_of (row_indexes db).[i] v) →
  btree_next_free_node (nodes db) + 16 ≤ BTREE_MAX_NODES →
  index_step i es (ins_entries id (key_of (row_indexes db).[i] v) es) 16 db (insert_apply i v id db).
Proof.
  intros Ha Hk Hr. unfold insert_apply, key_of in *. destruct (_ <=? _); [apply index_step_none|].
  destruct (encode_key _ _) as [k|]; [by apply index_insert_step | apply index_step_none].
Qed.

Lemma delete_apply_step i v id es db : flag (i_active (row_indexes db).[i]) = true → key_ok (key_of (row_indexes db).[i] v) →
  index_step i es (del_entries id (key_of (row_indexes db).[i] v) es) 16 db (delete_apply i v id db).
Proof.
  intros Ha Hk. unfold delete_apply, key_of in *. destruct (_ <=? _); [apply index_step_none|].
  destruct (encode_key _ _) as [k|]; [|apply index_step_none]. eapply index_step_weaken; [|by apply index_delete_step]. lia.
Qed.

Lemma index_step_bind i es es1 es2 m1 m2 db o (f : Db F D → option (Db F D)) : index_step i es es1 m1 db o →
  (∀ db1, (∀ j, same_index (row_indexes db).[j] (row_indexes db1).[j]) → btree_next_free_node (nodes db1) ≤ btree_next_free_node (nodes db) + m1 →
    index_step i es1 es2 m2 db1 (f db1)) →
  index_step i es es2 (m1 + m2) db (o ≫= f).
Proof.
  intros H1 H2 E Hf HE. destruct (H1 E Hf HE) as (xs & p & -> & Hf1 & Hn1 & Hx1). cbn.
  destruct (H2 (set_indexes xs p db) Hx1 Hn1 _ Hf1 (lookup_insert_eq _ _ _)) as (xs2 & p2 & -> & Hf2 & Hn2 & Hx2).
  exists xs2, p2. rewrite insert_insert_eq in Hf2. split_and!; [done | done | cbn in *; lia|]. intros j. by eapply same_index_trans.
Qed.

Lemma memcmp_key a b : is_key a → is_key b → (ri_memcmp (Z.to_nat BTREE_MAX_KEY_BYTES) a b =? 0) = bool_decide (a = b).
Proof.
  intros Ha Hb. change (ri_memcmp _ a b) with (key_cmp a b). rewrite key_cmp_eq by done. destruct (decide (a = b)) as [->|Hne].
  - by rewrite bool_decide_eq_true_2, Z.eqb_refl.
  - rewrite bool_decide_eq_false_2 by done. apply Z.eqb_neq. intros E. by apply Hne, kv_inj.
Qed.

Lemma update_apply_step i old new id es db : flag (i_active (row_indexes db).[i]) = true → count old = count new →
  key_ok (key_of (row_indexes db).[i] old) → key_ok (key_of (row_indexes db).[i] new) → btree_next_free_node (nodes db) + 16 ≤ BTREE_MAX_NODES →
  index_step i es (upd_entries id (key_of (row_indexes db).[i] old) (key_of (row_indexes db).[i] new) es) 16 db (update_apply i old new id db).
Proof.
  intros Ha Hc Ho Hn Hr. unfold update_apply, key_of, upd_entries in *. rewrite Hc in *. destruct (_ <=? _); cbn [orb].
  { rewrite decide_True by done. apply index_step_none. }
  set (ok := encode_key _ (text_at old _)) in *. set (nk := encode_key _ (text_at new _)) in *.
  assert ((match ok, nk with Some a, Some b => ri_memcmp (Z.to_nat BTREE_MAX_KEY_BYTES) a b =? 0 | _, _ => false end) = true → ok = nk) as Hsame.
  { destruct ok as [a|], nk as [b|]; try done. cbn in Ho, Hn. rewrite memcmp_key by done. by intros ->%bool_decide_eq_true_1. }
  destruct (match ok, nk with Some a, Some b => _ | _, _ => false end) eqn:Hm.
  { rewrite decide_True by auto. apply index_step_none. }
  assert (∀ db1, (∀ j, same_index (row_indexes db).[j] (row_indexes db1).[j]) → btree_next_free_node (nodes db1) ≤ btree_next_free_node (nodes db) + 0 →
    ∀ es1, index_step i es1 (ins_entries id nk es1) 16 db1 (match nk with Some b => index_insert i b id db1 | None => Some db1 end)) as Hins.
  { intros db1 Hx Hn1 es1. destruct nk as [b|]; [|apply index_step_none]. apply index_insert_step; [|done|lia].
    destruct (same_index_active _ _ (Hx i)) as (E & _). by rewrite E. }
  destruct (decide (ok = nk)) as [E|Hne].
  - assert (ok = None ∧ nk = None) as [-> ->]; [|apply index_step_none]. rewrite <- E in *. destruct ok as [a|]; [|done].
    cbn in Ho. rewrite memcmp_key in Hm by done. by rewrite bool_decide_eq_true_2 in Hm.
  - change 16 with (0 + 16). apply (index_step_bind i es (del_entries id ok es)).
    + destruct ok as [a|]; [by apply index_delete_step|]. intros E' Hf HE. exists (row_indexes db), (nodes db). split; [by destruct db|].
      rewrite insert_id by done. split_and!; [done | lia | intros; apply same_index_refl].
    + intros db1 Hx Hn1. by apply Hins.
Qed.

(** ** All indexes of a table *)

Lemma for_each_spec tid (fn : Z → Db F D → option (Db F D)) (step : RowIndex → list entry → list entry) db E :
  forest (nodes db) (trees (row_indexes db)) E → btree_next_free_node (nodes db) + 16 * ROW_INDEX_MAX ≤ BTREE_MAX_NODES →
  (∀ i db1 es, 0 ≤ i < ROW_INDEX_MAX → (∀ j, same_index (row_indexes db).[j] (row_indexes db1).[j]) → flag (i_active (row_indexes db1).[i]) = true →
    table_object_id (row_indexes db1).[i] = tid → btree_next_free_node (nodes db1) + 16 ≤ BTREE_MAX_NODES →
    index_step i es (step (row_indexes db).[i] es) 16 db1 (fn i db1)) →
  ∃ xs p E', for_each_index tid fn db = Some (set_indexes xs p db) ∧ forest p (trees xs) E' ∧
    (∀ j, same_index (row_indexes db).[j] xs.[j]) ∧
    (∀ i es, E !! i = Some es → 
       E' !! i = Some (if decide (0 ≤ i < ROW_INDEX_MAX ∧ flag (i_active (row_indexes db).[i]) = true ∧ table_object_id (row_indexes db).[i] = tid)
                       then step (row_indexes db).[i] es else es)) ∧
    btree_next_free_node p ≤ btree_next_free_node (nodes db) + 16 * ROW_INDEX_MAX.
Proof.
  intros Hf Hr Hstep. unfold for_each_index.
  set (body := fun i (o : option (Db F D)) => _). set (P := fun (n : Z) (o : option (Db F D)) => ∃ xs p E', o = Some (set_indexes xs p db) ∧ forest p (trees xs) E' ∧
    (∀ j, same_index (row_indexes db).[j] xs.[j]) ∧ btree_next_free_node p ≤ btree_next_free_node (nodes db) + 16 * n ∧
    (∀ i es, E !! i = Some es → E' !! i = Some (if decide (0 ≤ i < n ∧ flag (i_active (row_indexes db).[i]) = true ∧ table_object_id (row_indexes db).[i] = tid)
                       then step (row_indexes db).[i] es else es)) ).
  assert (P (0 + Z.of_nat (Z.to_nat ROW_INDEX_MAX)) (for_up (Z.to_nat ROW_INDEX_MAX) 0 body (Some db))) as (xs & p & E' & H1 & H2 & H3 & H4 & H5).
  - apply for_up_ind.
    + exists (row_indexes db), (nodes db), E. split_and!; [by destruct db | done | intros; apply same_index_refl | lia|].
      intros i es HE. rewrite decide_False by lia. done.
    + intros j o Hj (xs & p & E' & -> & Hf' & Hx & Hn & HE'). unfold body. cbn [mbind option_bind].
      set (db1 := set_indexes xs p db). cbn [row_indexes set_indexes db1]. destruct (same_index_active _ _ (Hx j)) as (Ea & Et & _ & _ & _).
      assert (∀ es, E !! j = Some es → E' !! j = Some es) as Hcur. { intros es HE. rewrite (HE' j es HE). by rewrite decide_False by lia. }
      assert (¬ (flag (i_active (row_indexes db).[j]) = true ∧ table_object_id (row_indexes db).[j] = tid) →
        ∀ i es, E !! i = Some es → E' !! i = Some (if decide (0 ≤ i < j + 1 ∧ flag (i_active (row_indexes db).[i]) = true ∧ table_object_id (row_indexes db).[i] = tid)
          then step (row_indexes db).[i] es else es)) as Hskip.
      { intros Hno i es HE. rewrite (HE' i es HE). f_equal. destruct (decide (i = j)) as [->|Hne].
        - rewrite !decide_False by (intros (? & ? & ?); (lia || by apply Hno)). done.
        - destruct (decide (0 ≤ i < j ∧ _)) as [(? & ? & ?)|Hd]; [rewrite decide_True by (split_and!; (done || lia)); done|].
          rewrite decide_False; [done|]. intros (? & ? & ?). apply Hd. split_and!; (done || lia). }
      rewrite Ea, Et. destruct (flag (i_active (row_indexes db).[j])) eqn:Hact; cbn [negb].
      2:{ exists xs, p, E'. split_and!; [done | done | done | lia | apply Hskip; by intros [? ?]]. }
      destruct (Z.eqb_spec (table_object_id (row_indexes db).[j]) tid) as [Htid|Htid]; cbn [negb].
      2:{ exists xs, p, E'. split_and!; [done | done | done | lia | apply Hskip; by intros [? ?]]. }
      destruct Hf' as [Hp' Hf''] eqn:EF. clear EF. assert (is_Some (E' !! j)) as [es HEj].
      { destruct Hf'' as (fp & Hd & _). apply Hd. rewrite trees_active by (by rewrite Ea). eauto. }
      assert (btree_next_free_node (nodes db1) + 16 ≤ BTREE_MAX_NODES) as Hroom.
      { cbn [nodes set_indexes db1]. unfold ROW_INDEX_MAX in *. lia. }
      destruct (Hstep j db1 es ltac:(lia) Hx ltac:(cbn; by rewrite Ea) ltac:(cbn; by rewrite Et) Hroom E' (conj Hp' Hf'') HEj) as (xs2 & p2 & Hfn & Hf2 & Hn2 & Hx2).
      exists xs2, p2, (<[j := step (row_indexes db).[j] es]> E'). split_and!; [exact Hfn | done | | cbn in Hn2; lia |].
      * intros m. eapply same_index_trans; [apply Hx | apply Hx2].
      * intros i ei HE. destruct (decide (i = j)) as [->|Hne].
        { rewrite lookup_insert_eq. rewrite (Hcur ei HE) in HEj. injection HEj as ->. rewrite decide_True by (split_and!; (done || lia)). done. }
        rewrite lookup_insert_ne by done. rewrite (HE' i ei HE). f_equal.
        destruct (decide (0 ≤ i < j ∧ _)) as [(? & ? & ?)|Hd]; [rewrite decide_True by (split_and!; (done || lia)); done|].
        rewrite decide_False; [done|]. intros (? & ? & ?). apply Hd. split_and!; (done || lia).
  - exists xs, p, E'. rewrite Z.add_0_l, Z2Nat.id in H4, H5 by (unfold ROW_INDEX_MAX; lia). done.
Qed.

End Indexes.
