(* ===== verification/RowDb.v ===== *)
(** The invariant of the database: tables as sequences of row slots in pages of their own, and indexes that
    stand for the rows of their tables. *)
From stdpp Require Import base gmap list list_numbers.
From Stdlib Require Import ZArith Lia Sorted.
From S2P Require Import Prelude Bytes BTree BTreeLib BTreeLeaf BTreeInv BTreeSpec BTreeForest Authority AuthoritySpec.
From S2P Require Import RowCodec RowCodecSpec RowKeySpec RowStore RowPages RowTable RowIndexSpec.
#[local] Open Scope Z_scope.
#[local] Open Scope carr_scope.

(** * The rows under a key *)

Definition row_key (t : SLSFieldType) (col : Z) (v : RowValues) : option key := encode_key t (text_at v col).

Section Rows.
Context (t : SLSFieldType) (col : Z).
Implicit Types (ss : list slot).

Definition slot_key (e : slot) : option key := e.2 ≫= row_key t col.
Definition rows_at ss (k : key) : list RowId := omap (fun e : slot => if decide (slot_key e = Some k) then Some e.1 else None) ss.

Lemma rows_at_app a b k : rows_at (a ++ b) k = rows_at a k ++ rows_at b k.
Proof. apply omap_app. Qed.

Lemma rows_at_one id v k : rows_at [(id, Some v)] k = if decide (row_key t col v = Some k) then [id] else [].
Proof. unfold rows_at. cbn. by destruct (decide _). Qed.

Lemma rows_at_elem ss id k : id ∈ rows_at ss k ↔ ∃ v, (id, Some v) ∈ ss ∧ row_key t col v = Some k.
Proof.
  unfold rows_at. rewrite list_elem_of_omap. split.
  - intros ([id' [v|]] & He & Hd); cbn in Hd; destruct (decide _); simplify_eq. by exists v.
  - intros (v & He & Hk). exists (id, Some v). split; [done|]. cbn. by rewrite decide_True.
Qed.

Lemma put_absent id o ss : id ∉ ss.*1 → put_slot id o ss = ss.
Proof.
  intros Hni. unfold put_slot. rewrite <- (list_fmap_id ss) at 2. apply list_fmap_ext. intros i [x y] Hx%list_elem_of_lookup_2. cbn.
  rewrite decide_False; [done|]. intros ->. apply Hni. apply list_elem_of_fmap. by exists (id, y).
Qed.

Lemma rows_at_cleared id ss k : id ∉ rows_at (put_slot id None ss) k.
Proof.
  rewrite rows_at_elem. intros (v & Hv & _). unfold put_slot in Hv. apply list_elem_of_fmap in Hv as ([x y] & E & _). cbn in E. destruct (decide (x = id)); congruence.
Qed.

(** A slot's row apart from the others. *)
Lemma rows_at_put id v ss k : NoDup ss.*1 → id ∈ ss.*1 →
  rows_at (put_slot id (Some v) ss) k ≡ₚ (if decide (row_key t col v = Some k) then [id] else []) ++ rows_at (put_slot id None ss) k.
Proof.
  induction ss as [|[x y] ss IH]; intros Hnd Hin; [by apply elem_of_nil in Hin|]. cbn [fmap list_fmap fst] in Hnd, Hin. apply NoDup_cons in Hnd as [Hni Hnd].
  assert (∀ o, put_slot id o ((x, y) :: ss) = (if decide (x = id) then (x, o) else (x, y)) :: put_slot id o ss) as Ep by done. rewrite !Ep. clear Ep.
  change (rows_at (?e :: ?l) k) with (rows_at ([e] ++ l) k). rewrite !rows_at_app. destruct (decide (x = id)) as [->|Hne].
  - rewrite !put_absent by done. rewrite rows_at_one. done.
  - apply elem_of_cons in Hin as [?|Hin]; [done|]. rewrite (IH Hnd Hin). perm.
Qed.

Lemma put_slot_same id v ss : NoDup ss.*1 → (id, Some v) ∈ ss → put_slot id (Some v) ss = ss.
Proof.
  intros Hnd Hin. unfold put_slot. rewrite <- (list_fmap_id ss) at 2. apply list_fmap_ext. intros i [x y] Hx%list_elem_of_lookup_2. cbn.
  destruct (decide (x = id)) as [->|]; [|done]. f_equal.
  apply list_elem_of_lookup in Hin as [a Ha]. apply list_elem_of_lookup in Hx as [b Hb].
  assert (a = b) as -> by (apply (NoDup_lookup ss.*1 a b id Hnd); rewrite list_lookup_fmap; [exact (f_equal (fmap fst) Ha) | exact (f_equal (fmap fst) Hb)]). pose proof (eq_trans (eq_sym Ha) Hb) as E. by injection E.
Qed.

End Rows.

Lemma put_ids id o ss : (put_slot id o ss).*1 = ss.*1.
Proof. unfold put_slot. rewrite <- list_fmap_compose. apply list_fmap_ext. intros i [x y] _. cbn. by destruct (decide _). Qed.

Lemma put_elem id o ss e : e ∈ put_slot id o ss → e = (id, o) ∨ (e ∈ ss ∧ e.1 ≠ id).
Proof.
  unfold put_slot. intros ([x y] & -> & He)%list_elem_of_fmap. cbn. destruct (decide (x = id)) as [->|]; [by left | right; done].
Qed.

(** * Entries of the forest *)

Lemma forest_entries p ts E i es : forest p ts E → E !! i = Some es → entries_ok 0 KEY_MAX es.
Proof.
  intros (Hp & fp & Hd & Ht & _) HE. destruct (proj2 (Hd i) (mk_is_Some _ _ HE)) as [t Hti]. destruct (Ht i t es Hti HE) as [Hs _ _ _].
  destruct (_ =? _); [destruct Hs as [-> _]; apply entries_nil|]. destruct Hs as (h & first & R). by eapply rep_bounded.
Qed.

(** * An index through a change of a row *)

Section IndexRows.
Context (t : SLSFieldType) (col : Z) (es : list entry) (Hes : entries_ok 0 KEY_MAX es).
Implicit Types (ss : list slot) (k : option key).

Lemma holds_insert ss id v k : key_ok k → row_key t col v = k → holds es (rows_at t col ss) → holds (ins_entries id k es) (rows_at t col (ss ++ [(id, Some v)])).
Proof using Hes.
  intros Hk Ek Hh. assert (∀ k' : key, rows_at t col (ss ++ [(id, Some v)]) k' = rows_at t col ss k' ++ if decide (k = Some k') then [id] else []) as E.
  { intros k'. by rewrite rows_at_app, rows_at_one, Ek. }
  destruct k as [k|]; cbn [ins_entries].
  - apply (holds_add 0 KEY_MAX es Hes _ _ Hh k id Hk); [rewrite E, decide_True by done; perm|].
    intros k' _ Hne. rewrite E, decide_False by congruence. by rewrite app_nil_r.
  - apply (holds_ext es _ _ Hh). intros k' _. rewrite E, decide_False by done. by rewrite app_nil_r.
Qed.

Lemma holds_delete ss id v k : NoDup ss.*1 → (id, Some v) ∈ ss → key_ok k → row_key t col v = k →
  holds es (rows_at t col ss) → holds (del_entries id k es) (rows_at t col (put_slot id None ss)).
Proof using Hes.
  intros Hnd Hin Hk Ek Hh. assert (id ∈ ss.*1) as Hid by (apply list_elem_of_fmap; by exists (id, Some v)).
  assert (∀ k' : key, rows_at t col ss k' ≡ₚ (if decide (k = Some k') then [id] else []) ++ rows_at t col (put_slot id None ss) k') as E.
  { intros k'. rewrite <- (put_slot_same id v ss Hnd Hin) at 1. by rewrite rows_at_put, Ek. }
  destruct k as [k|]; cbn [del_entries].
  - apply (holds_remove 0 KEY_MAX es Hes _ _ Hh k id Hk); [by rewrite E, decide_True | apply rows_at_cleared|].
    intros k' _ Hne. by rewrite E, decide_False by congruence.
  - apply (holds_ext es _ _ Hh). intros k' _. by rewrite E, decide_False by done.
Qed.

End IndexRows.

Lemma holds_update t col es ss id old v k k' : entries_ok 0 KEY_MAX es → NoDup ss.*1 → (id, Some old) ∈ ss → key_ok k → key_ok k' →
  row_key t col old = k → row_key t col v = k' → holds es (rows_at t col ss) → holds (upd_entries id k k' es) (rows_at t col (put_slot id (Some v) ss)).
Proof.
  intros Hes Hnd Hin Hk Hk' Ek Ek' Hh. assert (id ∈ ss.*1) as Hid by (apply list_elem_of_fmap; by exists (id, Some old)).
  assert (∀ q, rows_at t col (put_slot id (Some v) ss) q ≡ₚ (if decide (k' = Some q) then [id] else []) ++ rows_at t col (put_slot id None ss) q) as E.
  { intros q. by rewrite rows_at_put, Ek'. }
  unfold upd_entries. destruct (decide (k = k')) as [->|Hne].
  - apply (holds_ext es _ _ Hh). intros q _. rewrite E. rewrite <- (put_slot_same id old ss Hnd Hin) at 2. by rewrite rows_at_put, Ek.
  - pose proof (holds_delete t col es Hes ss id old k Hnd Hin Hk Ek Hh) as Hd. assert (entries_ok 0 KEY_MAX (del_entries id k es)) as Hes'.
    { destruct k; [by apply ix_delete_ok | done]. }
    destruct k' as [k'|]; cbn [ins_entries].
    + apply (holds_add 0 KEY_MAX _ Hes' _ _ Hd k' id Hk'); [by rewrite E, decide_True|]. intros q _ Hq. by rewrite E, decide_False by congruence.
    + apply (holds_ext _ _ _ Hd). intros q _. by rewrite E, decide_False by done.
Qed.

(** * The invariant *)

(** The catalog: an object's id is the hash of its name, no two objects in use share it, and an entry that was never handed out is
    clear. *)
Definition used (a : Authority) (i : Z) : Prop := 0 ≤ i < object_catalog_count (catalog a) ∧ flag (o_active (obj a i)) = true.

Record catalog_ok (a : Authority) : Prop := CatalogOk {
  ca_names : ∀ i, used a i → object_id (obj a i) = fnv1a (o_name (obj a i));
  ca_unique : ∀ i j, used a i → used a j → object_id (obj a i) = object_id (obj a j) → i = j;
  ca_part : ∀ i, used a i → 0 ≤ o_partition (obj a i);
  ca_count : 0 ≤ object_catalog_count (catalog a);
  ca_fresh : ∀ i, object_catalog_count (catalog a) ≤ i → uses_rowstore (obj a i) = 0
}.

Section Inv.
Context {F D : Type} `{!Frames F} `{!FramesLaws F} `{!Nvme D} `{!CConv}.
Implicit Types (db : Db F D) (T : gmap Z (list slot)) (E : gmap Z (list entry)) (P : Z → list Z) (ss : list slot).

Definition is_table db (i : Z) : Prop := used (auth db) i ∧ flag (uses_rowstore (obj (auth db) i)) = true.
Definition hdr db (i : Z) : RowTableHeader := (table_headers db).[i].
Definition oid db (i : Z) : Z := object_id (obj (auth db) i).
Definition part db (i : Z) : Z := o_partition (obj (auth db) i).

(** Table [i] has the slots [ss], in the pages [pgs]. *)
Record table_inv db (i : Z) ss (pgs : list Z) : Prop := TableInv {
  tb_table : is_table db i;
  tb_ok : table_ok (pages db) (part db i) (hdr db i) pgs;
  tb_slots : table_slots (pages db) (hdr db i) pgs = ss;
  tb_count : row_count (hdr db i) = u32 (Z.of_nat (length (live ss)));
  tb_rows : ∀ id v, (id, Some v) ∈ ss → row_ok v ∧ count v = column_count (layout (hdr db i))
}.

(** The index [x] is on a column of a table and, unless the column is a FLOAT, stands for its rows. *)
Definition index_ok db T (x : RowIndex) (es : list entry) : Prop :=
  ∃ j ss, T !! j = Some ss ∧ oid db j = table_object_id x ∧ 0 ≤ column_index x < column_count (layout (hdr db j)) ∧
    column_type x = (column_types (layout (hdr db j))).[column_index x] ∧
    (column_type x ≠ FIELD_TYPE_FLOAT → holds es (rows_at (column_type x) (column_index x) ss)).

Record db_inv db T E P : Prop := DbInv {
  i_pages : pages_ok (pages db);
  i_catalog : catalog_ok (auth db);
  i_dom : ∀ i, is_table db i → is_Some (T !! i);
  i_tables : ∀ i ss, T !! i = Some ss → table_inv db i ss (P i);
  i_apart : ∀ i j p, is_Some (T !! i) → is_Some (T !! j) → p ∈ P i → p ∈ P j → i = j;
  i_forest : forest (nodes db) (trees (row_indexes db)) E;
  i_index : ∀ a es, E !! a = Some es → 0 ≤ a < ROW_INDEX_MAX ∧ index_ok db T (row_indexes db).[a] es
}.

Lemma i_unique db T E P i j : db_inv db T E P → is_table db i → is_table db j → oid db i = oid db j → i = j.
Proof. intros I [Hi _] [Hj _]. by apply (ca_unique _ (i_catalog _ _ _ _ I)). Qed.

Lemma table_part db T E P i ss : db_inv db T E P → T !! i = Some ss → 0 ≤ part db i.
Proof. intros I Ti. apply (ca_part _ (i_catalog _ _ _ _ I)), (tb_table _ _ _ _ (i_tables _ _ _ _ I i ss Ti)). Qed.

End Inv.
