(* ===== verification/RowDbOps.v ===== *)
(** Inserting, reading, updating and deleting rows keeps the invariant of the database and does what it says to
    the slots of the table. *)
From stdpp Require Import base gmap list list_numbers.
From Stdlib Require Import ZArith Lia Sorted.
From S2P Require Import Prelude Bytes BTree BTreeLib BTreeLeaf BTreeInv BTreeSpec BTreeForest Authority AuthoritySpec.
From S2P Require Import RowCodec RowCodecSpec RowKeySpec RowStore RowPages RowTable RowIndexSpec RowDb.
#[local] Open Scope Z_scope.
#[local] Open Scope carr_scope.

Section Ops.
Context {F D : Type} `{!Frames F} `{!FramesLaws F} `{!Nvme D} `{!CConv}.
Implicit Types (db : Db F D) (T : gmap Z (list slot)) (E : gmap Z (list entry)) (P : Z → list Z) (ss : list slot).

(** * Changing one table *)

Lemma is_table_auth db db' i : auth db' = auth db → is_table db' i ↔ is_table db i.
Proof. intros E. unfold is_table. by rewrite E. Qed.

Lemma table_inv_frame db db' i ss pgs : auth db' = auth db → hdr db' i = hdr db i →
  (∀ q p, allocated (pages db) q p → p ∈ pgs → page_at (pages db') p = page_at (pages db) p ∧ allocated (pages db') q p) → table_inv db i ss pgs → table_inv db' i ss pgs.
Proof.
  intros Ea Eh Hp [H1 H3 H4 H5 H6]. assert (part db' i = part db i) as Ep by (unfold part; by rewrite Ea).
  destruct (table_ext (pages db) (pages db') (part db i) (hdr db i) pgs) as [Hok Hss]; [|done|].
  { intros p Hin. apply Hp; [|done]. pose proof (t_alloc _ _ _ _ H3) as Ha. rewrite Forall_forall in Ha. by apply Ha. }
  split; rewrite ?Ep, ?Eh; [by apply (is_table_auth db) | done | by rewrite Hss | done | done].
Qed.

Lemma active_entries db T E P a : db_inv db T E P → is_Some (E !! a) ↔ flag (i_active (row_indexes db).[a]) = true.
Proof.
  intros I. destruct (i_forest _ _ _ _ I) as (_ & fp & Hd & _). rewrite <- Hd. split.
  - intros Hs. destruct (flag _) eqn:Ha; [done|]. rewrite (trees_inactive _ _ Ha) in Hs. by destruct Hs.
  - intros Ha. rewrite (trees_active _ _ Ha). eauto.
Qed.

(** What a change must do to the entries of an index on table [i]. *)
Definition step_ok db i ss ss' (step : RowIndex → list entry → list entry) : Prop :=
  ∀ x es, entries_ok 0 KEY_MAX es → 0 ≤ column_index x < column_count (layout (hdr db i)) → column_type x = (column_types (layout (hdr db i))).[column_index x] →
    column_type x ≠ FIELD_TYPE_FLOAT → holds es (rows_at (column_type x) (column_index x) ss) → holds (step x es) (rows_at (column_type x) (column_index x) ss').

Lemma db_change db db' T E E' P i ss ss' pgs' step : db_inv db T E P → T !! i = Some ss →
  auth db' = auth db → (∀ j, j ≠ i → hdr db' j = hdr db j) → layout (hdr db' i) = layout (hdr db i) →
  pages_ok (pages db') → touched (pages db) (pages db') (P i) pgs' → table_inv db' i ss' pgs' →
  forest (nodes db') (trees (row_indexes db')) E' → (∀ j, same_index (row_indexes db).[j] (row_indexes db').[j]) →
  (∀ a es, E !! a = Some es → E' !! a = Some (if decide (table_object_id (row_indexes db).[a] = oid db i) then step (row_indexes db).[a] es else es)) →
  step_ok db i ss ss' step →
  db_inv db' (<[i := ss']> T) E' (fun j => if decide (j = i) then pgs' else P j).
Proof.
  intros I Ti Ea Eh El Hpg [Told Tnew] Hti Hf Hx HE Hst. assert (∀ j, oid db' j = oid db j) as Eo by (intros; unfold oid; by rewrite Ea).
  assert (∀ j, layout (hdr db' j) = layout (hdr db j)) as Elay. { intros j. destruct (decide (j = i)) as [->|Hne]; [done | by rewrite Eh]. }
  split; [done | | | | |done|].
  - rewrite Ea. apply (i_catalog _ _ _ _ I).
  - intros j Hj%(is_table_auth db); [|done]. destruct (decide (j = i)) as [->|]; [rewrite lookup_insert_eq; eauto | rewrite lookup_insert_ne by done; by apply (i_dom _ _ _ _ I)].
  - intros j s. destruct (decide (j = i)) as [->|Hne]; [rewrite lookup_insert_eq; by intros [= <-]|]. rewrite lookup_insert_ne by done. intros Tj.
    apply (table_inv_frame db); [done | by apply Eh | | by apply (i_tables _ _ _ _ I)]. intros q p Hq Hp. destruct (Told q p Hq) as [Ha Hb]. split; [|done].
    apply Hb. intros Hpi. apply Hne. by apply (i_apart _ _ _ _ I _ _ p).
  - assert (∀ j p, j ≠ i → is_Some (<[i := ss']> T !! j) → p ∈ pgs' → p ∉ P j) as Hout.
    { intros j p Hne [sj Tj] [Hp|Hp]%Tnew Hpj; rewrite lookup_insert_ne in Tj by done.
      - apply Hne. by apply (i_apart _ _ _ _ I _ _ p).
      - pose proof (t_alloc _ _ _ _ (tb_ok _ _ _ _ (i_tables _ _ _ _ I j sj Tj))) as Ha. rewrite Forall_forall in Ha. by apply (Hp (part db j)), Ha. }
    intros j k p Hj Hk. destruct (decide (j = i)) as [->|Hji], (decide (k = i)) as [->|Hki]; intros Hpj Hpk; [done | by destruct (Hout k p) | by destruct (Hout j p)|].
    rewrite lookup_insert_ne in Hj, Hk by done. by apply (i_apart _ _ _ _ I _ _ p).
  - intros a es' HE'. destruct (same_index_active _ _ (Hx a)) as (Xa & Xt & Xc & Xy & _).
    assert (is_Some (E !! a)) as [es HEa].
    { apply (active_entries _ _ _ _ _ I). rewrite <- Xa. destruct (flag _) eqn:Ha; [done|]. destruct Hf as (_ & fp & Hd & _).
      pose proof (proj2 (Hd a) (mk_is_Some _ _ HE')) as Hs. rewrite (trees_inactive _ _ Ha) in Hs. by destruct Hs. }
    destruct (i_index _ _ _ _ I a es HEa) as (Hra & j & sj & Tj & Oj & [Cj Cj'] & Yj & Hh). split; [done|]. rewrite (HE a es HEa) in HE'. injection HE' as <-.
    exists j, (if decide (j = i) then ss' else sj). rewrite Eo, Elay, Xt, Xc, Xy. destruct (decide (j = i)) as [->|Hne].
    + rewrite lookup_insert_eq. rewrite Ti in Tj. injection Tj as <-. split_and!; [done..|]. intros Hfl. rewrite decide_True by done.
      apply Hst; [by eapply forest_entries; [exact (i_forest _ _ _ _ I)|] | done | done | done | by apply Hh].
    + rewrite lookup_insert_ne by done. split_and!; [done..|]. rewrite decide_False; [done|]. intros Eq. apply Hne.
      apply (i_unique db T E P); [done | apply (tb_table _ _ _ _ (i_tables _ _ _ _ I j sj Tj)) | apply (tb_table _ _ _ _ (i_tables _ _ _ _ I i ss Ti)) | congruence].
Qed.

(** How many nodes one change of a row may take. *)
Definition ROW_NODES : Z := 16 * ROW_INDEX_MAX.

(** A table changed in its pages, then its indexes. *)
Lemma db_notify db db1 T E P i ss ss' pgs' fn step : db_inv db T E P → T !! i = Some ss →
  auth db1 = auth db → (∀ j, j ≠ i → hdr db1 j = hdr db j) → layout (hdr db1 i) = layout (hdr db i) → row_indexes db1 = row_indexes db → nodes db1 = nodes db →
  pages_ok (pages db1) → touched (pages db) (pages db1) (P i) pgs' → table_inv db1 i ss' pgs' →
  btree_next_free_node (nodes db) + ROW_NODES ≤ BTREE_MAX_NODES →
  (∀ a db2 es, (∀ j, same_index (row_indexes db1).[j] (row_indexes db2).[j]) → flag (i_active (row_indexes db2).[a]) = true →
    btree_next_free_node (nodes db2) + 16 ≤ BTREE_MAX_NODES → index_step a es (step (row_indexes db1).[a] es) 16 db2 (fn a db2)) →
  step_ok db i ss ss' step →
  ∃ db2 E' P', for_each_index (oid db i) fn db1 = Some db2 ∧ db_inv db2 (<[i := ss']> T) E' P' ∧
    auth db2 = auth db ∧ btree_next_free_node (nodes db2) ≤ btree_next_free_node (nodes db) + ROW_NODES.
Proof.
  intros I Ti Ea Eh El Ex En Hpg Htc Hti Hroom Hfn Hst. pose proof (i_forest _ _ _ _ I) as Hf. rewrite <- Ex, <- En in Hf.
  destruct (for_each_spec (oid db i) fn step db1 E Hf ltac:(by rewrite En)) as (xs & p & E' & H1 & H2 & H3 & H4 & H5).
  { intros a db2 es Ha Hx Hact Htid Hr. by apply Hfn. }
  exists (set_indexes xs p db1), E', (fun j => if decide (j = i) then pgs' else P j). split_and!; [done | | done | cbn; unfold ROW_NODES; by rewrite <- En].
  eapply db_change; [exact I | exact Ti | done | exact Eh | exact El | done | done | | done | by rewrite <- Ex | | exact Hst].
  - eapply table_inv_frame; [| | |exact Hti]; done.
  - intros a es HE. rewrite (H4 a es HE), Ex. f_equal. pose proof (proj1 (active_entries _ _ _ _ a I) (mk_is_Some _ _ HE)) as Hact. destruct (i_index _ _ _ _ I a es HE) as [Hr _].
    destruct (decide (table_object_id (row_indexes db).[a] = oid db i)) as [Et|Et]; [by rewrite decide_True | rewrite decide_False by tauto; done].
Qed.

(** ** Keys of the rows *)

Lemma key_of_ok x v : row_ok v → key_ok (key_of x v).
Proof.
  intros [_ Ht]. unfold key_of. destruct (_ <=? _); [done|]. destruct (encode_key _ _) as [k|] eqn:Ek; [|done]. by eapply encode_is_key.
Qed.

Lemma key_of_in x v : column_index x < count v → key_of x v = row_key (column_type x) (column_index x) v.
Proof. intros Hc. unfold key_of, row_key. by replace (count v <=? column_index x) with false by zcase. Qed.

(** An index sees a row as it was given where the table keeps it as it is stored. *)
Lemma key_of_stored l x v buf : layout_ok l → nulls_empty v → serialize_row l v ∅ = Some buf → count v = column_count l →
  0 ≤ column_index x < column_count l → column_type x = (column_types l).[column_index x] → column_type x ≠ FIELD_TYPE_FLOAT →
  row_key (column_type x) (column_index x) (stored l v) = key_of x v.
Proof.
  intros Hl Hn Hs Hc Hx Ht Hf. rewrite key_of_in by lia. unfold row_key. rewrite Ht in *. by apply (key_stored l Hl v buf ∅).
Qed.

Lemma find_table name db i : find_active_table name db = Some i → is_table db i ∧ o_name (obj (auth db) i) = name.
Proof.
  intros (Hr & Hp & _)%find_up_Some. apply andb_true_iff in Hp as [[Ha Hu]%andb_true_iff Hn]. apply streq_true in Hn. split; [|done].
  split; [|done]. split; [lia | done].
Qed.

Lemma u32_succ n : u32 (u32 n + 1) = u32 (n + 1).
Proof. unfold u32. apply Zplus_mod_idemp_l. Qed.
Lemma u32_pred n : u32 (u32 n - 1) = u32 (n - 1).
Proof. unfold u32. apply Zminus_mod_idemp_l. Qed.

(** * Inserting *)

Definition room db : Prop := btree_next_free_node (nodes db) + ROW_NODES ≤ BTREE_MAX_NODES.
Definition grown db db' : Prop := auth db' = auth db ∧ btree_next_free_node (nodes db') ≤ btree_next_free_node (nodes db) + ROW_NODES.

Lemma db_grown_refl db : grown db db.
Proof. split; [done|]. unfold ROW_NODES, ROW_INDEX_MAX. lia. Qed.

(** Pages loaded or lost on the way change nothing. *)
Lemma db_kept db db' T E P : db_inv db T E P → auth db' = auth db → (∀ j, hdr db' j = hdr db j) → row_indexes db' = row_indexes db → nodes db' = nodes db →
  pages_ok (pages db') → kept (pages db) (pages db') → db_inv db' T E P.
Proof.
  intros [I1 I2 I3 I4 I5 I6 I7] Ea Eh Ex En Hpg K. split; [done | | | |done| by rewrite Ex, En|].
  - by rewrite Ea.
  - intros i Hi%(is_table_auth db); [by apply I3 | done].
  - intros i ss Ti. apply (table_inv_frame db); [done | done | | by apply I4]. intros q p Hq _. split; [by apply (k_bytes _ _ K q) | by apply (kept_allocated _ _ q p K)].
  - intros a es HE. rewrite Ex. destruct (I7 a es HE) as (Hr & j & ss & H1 & H2 & H3 & H4 & H5). split; [done|]. exists j, ss. unfold oid in *. rewrite Ea, Eh. done.
Qed.

Lemma hdr_set_other i h db j : j ≠ i → hdr (set_header i h db) j = hdr db j.
Proof. intros Hne. unfold hdr. cbn. by rewrite aget_upd_ne. Qed.
Lemma hdr_set i h db : hdr (set_header i h db) i = h.
Proof. apply aget_upd_eq. Qed.

(** The row goes to a new slot at the end of the table. *)
Definition row_added db T uid name v id T' : Prop :=
  ∃ i ss, find_active_table name db = Some i ∧ check db uid name PERM_WRITE = true ∧ count v = column_count (layout (hdr db i)) ∧
    T !! i = Some ss ∧ (id ∉ ss.*1) ∧ T' = <[i := ss ++ [(id, Some (stored (layout (hdr db i)) v))]]> T.

Lemma insert_step_ok db i ss v buf id : layout_ok (layout (hdr db i)) → row_ok v → nulls_empty v → count v = column_count (layout (hdr db i)) →
  serialize_row (layout (hdr db i)) v ∅ = Some buf →
  step_ok db i ss (ss ++ [(id, Some (stored (layout (hdr db i)) v))]) (fun x => ins_entries id (key_of x v)).
Proof.
  intros Hl Hv Hn Hc Hs x es Hes Hx Ht Hf Hh. apply holds_insert; [done | by apply key_of_ok | by eapply key_of_stored | done].
Qed.

Lemma appended_inv db T E P i ss v h' id pgs' ps' : db_inv db T E P → T !! i = Some ss → row_ok v → count v = column_count (layout (hdr db i)) →
  pages_ok ps' → appended (pages db) ps' (part db i) (hdr db i) (P i) v h' id pgs' →
  table_inv (set_pages ps' (set_header i h' db)) i (ss ++ [(id, Some (stored (layout (hdr db i)) v))]) pgs' ∧ id ∉ ss.*1.
Proof.
  intros I Ti Hv Hc Hpg (A1 & A2 & A3 & A4 & A5 & A6 & A7). destruct (i_tables _ _ _ _ I i ss Ti) as [B1 B3 B4 B5 B6]. rewrite B4 in A2.
  assert (hdr (set_pages ps' (set_header i h' db)) i = h') as Eh by apply hdr_set. split.
  - split; rewrite ?Eh; [done | done | done | |].
    + rewrite A4, B5, u32_succ, live_app, length_app. cbn. f_equal. lia.
    + intros j w [Hin|[= -> ->]%list_elem_of_singleton]%elem_of_app; rewrite A3; [exact (B6 j w Hin)|]. split; [apply stored_ok; [apply (t_layout _ _ _ _ B3) | done] | done].
  - pose proof (table_ids_nodup ps' h' pgs' (t_nodup _ _ _ _ A1)) as Hnd. rewrite A2, fmap_app in Hnd. apply NoDup_app in Hnd as (_ & Hd & _).
    intros Hin. apply (Hd id Hin). by left.
Qed.

Lemma row_insert_spec db T E P uid name v : db_inv db T E P → room db → row_ok v → nulls_empty v →
  ∃ rc o db' T' E' P', rowstore_row_insert uid name v db = Some (rc, o, db') ∧ grown db db' ∧ db_inv db' T' E' P' ∧
  match o with
  | None => rc ≠ 0 ∧ T' = T
  | Some id => (rc = 0 ∨ rc = ROWSTORE_RC_NOT_DURABLE) ∧ row_added db T uid name v id T'
  end.
Proof.
  intros I Hr Hv Hn. unfold rowstore_row_insert. destruct (find_active_table name db) as [i|] eqn:Ei; [|by exists 1, None, db, T, E, P; split_and!; try apply db_grown_refl].
  destruct (find_table _ _ _ Ei) as [Htab _]. destruct (i_dom _ _ _ _ I i Htab) as [ss Ti]. pose proof (i_tables _ _ _ _ I i ss Ti) as [B1 B3 B4 B5 B6]. pose proof (table_part _ _ _ _ _ _ I Ti) as B2.
  destruct (check _ _ _ _) eqn:Eck; cbn [negb]; [|by exists 2, None, db, T, E, P; split_and!; try apply db_grown_refl].
  fold (hdr db i). destruct (Z.eqb_spec (count v) (column_count (layout (hdr db i)))) as [Hc|]; cbn [negb]; [|by exists 4, None, db, T, E, P; split_and!; try apply db_grown_refl].
  destruct (serialize_row _ v ∅) as [buf|] eqn:Es; [|by exists 5, None, db, T, E, P; split_and!; try apply db_grown_refl].
  fold (part db i). fold (oid db i). destruct (append_row_spec _ _ _ _ v buf (i_pages _ _ _ _ I) B2 B3 Hv Es) as (h' & o & ps' & Eap & Hpg & Ho). rewrite Eap.
  destruct o as [[id u]|].
  - destruct Ho as (pgs' & A). destruct (appended_inv db T E P i ss v h' id pgs' ps' I Ti Hv Hc Hpg A) as [Hti Hni]. destruct A as (A1 & A2 & A3 & A4 & A5 & A6 & A7).
    destruct (db_notify db (set_pages ps' (set_header i h' db)) T E P i ss (ss ++ [(id, Some (stored (layout (hdr db i)) v))]) pgs' (fun a => insert_apply a v id)
      (fun x => ins_entries id (key_of x v)) I Ti eq_refl (hdr_set_other i h' db)) as (db2 & E' & P' & Hfe & I' & Ha' & Hn'); [| done | done | done | done | done | done | | by eapply insert_step_ok; [apply (t_layout _ _ _ _ B3)|..] |].
    + change (hdr (set_pages ps' (set_header i h' db)) i) with (hdr (set_header i h' db) i). by rewrite hdr_set.
    + intros a db2 es Hx Hact Hr2. destruct (same_index_active _ _ (Hx a)) as (_ & _ & Xc & Xt & _).
      assert (key_of (row_indexes db2).[a] v = key_of (row_indexes (set_pages ps' (set_header i h' db))).[a] v) as <- by (unfold key_of; by rewrite Xc, Xt).
      apply insert_apply_step; [done | by apply key_of_ok | done].
    + unfold row_index_notify_insert. rewrite Hfe. cbn. exists (durable u), (Some id), db2, (<[i := ss ++ [(id, Some (stored (layout (hdr db i)) v))]]> T), E', P'.
      split_and!; [done | done | done | unfold durable; destruct (u =? 0); auto | by exists i, ss].
  - destruct Ho as [-> K]. exists 6, None, (set_pages ps' (set_header i (hdr db i) db)), T, E, P. split_and!; [done | exact (db_grown_refl db) | | done | done].
    apply (db_kept db); [done | done | | done | done | done | done]. intros j. destruct (decide (j = i)) as [->|Hne]; [apply hdr_set | by apply hdr_set_other].
Qed.

(** * Rows by id *)

(** [id] is a slot of the table of that name, if there is one. *)
Definition own_id db T (name : text) (id : RowId) : Prop := ∀ i ss, find_active_table name db = Some i → T !! i = Some ss → id ∈ ss.*1.

Lemma limit_rows (ps : PageStore F D) pt h pgs p : table_ok ps pt h pgs → limit h p ≤ rows_per_page (layout h).
Proof. intros [_ _ _ _ _ Hr _]. unfold limit. destruct (_ =? _); lia. Qed.

Lemma locate_spec db i ss pgs id o : pages_ok (pages db) → table_inv db i ss pgs → (id, o) ∈ ss →
  locate_row (hdr db i) id (pages db) =
    (match o with None => None | Some _ => Some ((row_pages (pages db)).[page_id id], slot_off (layout (hdr db i)) (slot_index id)) end, pages db) ∧
  page_id id ∈ pgs ∧ 0 ≤ slot_index id < limit (hdr db i) (page_id id) ∧
  (∀ v, o = Some v → deserialize_row (layout (hdr db i)) (slot_off (layout (hdr db i)) (slot_index id)) (ram (pages db)).[(row_pages (pages db)).[page_id id]] = v).
Proof.
  intros Hpg [B1 B3 B4 B5 B6] Hin. rewrite <- B4 in Hin. apply table_slots_elem in Hin as (Hp & Hs & ->).
  pose proof (t_alloc _ _ _ _ B3) as Ha. rewrite Forall_forall in Ha. specialize (Ha _ Hp). destruct (po_loaded _ Hpg _ _ Ha) as [Hnz Hlt].
  pose proof (limit_rows _ _ _ _ (page_id id) B3) as Hlim. unfold locate_row. replace (_ <=? page_id id) with false by zcase.
  replace (_ <=? slot_index id) with false by zcase. rewrite (load_allocated _ _ _ Hpg Ha). replace ((row_pages (pages db)).[page_id id] =? 0) with false by zcase.
  fold (slot_off (layout (hdr db i)) (slot_index id)). unfold slot_val. fold (page_at (pages db) (page_id id)).
  destruct (_ =? 0); split_and!; try done; try lia. by intros v [= <-].
Qed.

Lemma slot_of id ss : id ∈ ss.*1 → ∃ o, (id, o) ∈ ss.
Proof. intros ([x o] & -> & He)%list_elem_of_fmap. by exists o. Qed.

Lemma row_get_live db T E P uid name id i ss v : db_inv db T E P → find_active_table name db = Some i → T !! i = Some ss → (id, Some v) ∈ ss →
  check db uid name PERM_READ = true → rowstore_row_get uid name id db = (0, Some v, db).
Proof.
  intros I Ei Ti Hin Hck. unfold rowstore_row_get. rewrite Ei, Hck. cbn [negb].
  destruct (locate_spec _ _ _ _ _ _ (i_pages _ _ _ _ I) (i_tables _ _ _ _ I i ss Ti) Hin) as (El & _ & _ & Hv). fold (hdr db i). rewrite El, (Hv v eq_refl).
  by destruct db.
Qed.

(** The row in the slot, if any. *)
Lemma row_get_spec db T E P uid name id : db_inv db T E P → own_id db T name id →
  ∃ rc o, rowstore_row_get uid name id db = (rc, o, db) ∧
  match o with
  | None => rc ≠ 0
  | Some v => rc = 0 ∧ check db uid name PERM_READ = true ∧ ∃ i ss, find_active_table name db = Some i ∧ T !! i = Some ss ∧ (id, Some v) ∈ ss
  end ∧ (rc = 3 → ∃ i ss, find_active_table name db = Some i ∧ T !! i = Some ss ∧ (id, None) ∈ ss).
Proof.
  intros I Hid. unfold rowstore_row_get. destruct (find_active_table name db) as [i|] eqn:Ei; [|by exists 1, None].
  destruct (find_table _ _ _ Ei) as [Htab _]. destruct (i_dom _ _ _ _ I i Htab) as [ss Ti]. pose proof (i_tables _ _ _ _ I i ss Ti) as B.
  destruct (check _ _ _ _) eqn:Eck; cbn [negb]; [|by exists 2, None]. destruct (slot_of _ _ (Hid i ss Ei Ti)) as [o Ho].
  destruct o as [v|].
  - pose proof (row_get_live _ _ _ _ uid name id i ss v I Ei Ti Ho Eck) as Hg. unfold rowstore_row_get in Hg. rewrite Ei, Eck in Hg. cbn [negb] in Hg. rewrite Hg.
    exists 0, (Some v). split_and!; [done | done | done | by exists i, ss | done].
  - destruct (locate_spec _ _ _ _ _ _ (i_pages _ _ _ _ I) B Ho) as (El & _). fold (hdr db i). rewrite El. replace (set_pages (pages db) db) with db by (by destruct db). exists 3, None. split_and!; [done | done|]. intros _. by exists i, ss.
Qed.

(** ** A slot rewritten in place *)

Lemma rewritten_inv db T E P i ss id old bs h' : db_inv db T E P → T !! i = Some ss → (id, Some old) ∈ ss →
  Z.of_nat (length bs) ≤ row_width (layout (hdr db i)) →
  layout h' = layout (hdr db i) → first_page_id h' = first_page_id (hdr db i) → last_page_id h' = last_page_id (hdr db i) →
  rows_in_last_page h' = rows_in_last_page (hdr db i) →
  ∀ o ps' rc, slot_val (layout (hdr db i)) (wr_bytes (slot_off (layout (hdr db i)) (slot_index id)) bs (page_at (pages db) (page_id id))) (slot_index id) = o →
  (∀ v, o = Some v → row_ok v ∧ count v = column_count (layout (hdr db i))) → row_count h' = u32 (Z.of_nat (length (live (put_slot id o ss)))) →
  rowstore_flush_page (page_id id) (write_frame (row_pages (pages db)).[page_id id] (slot_off (layout (hdr db i)) (slot_index id)) bs (pages db)) = (rc, ps') →
  pages_ok ps' ∧ touched (pages db) ps' (P i) (P i) ∧ table_inv (set_header i h' (set_pages ps' db)) i (put_slot id o ss) (P i).
Proof.
  intros I Ti Hin Hb El Ef Ela Er o ps' rc Ho Hov Hrc Hfl. pose proof (i_tables _ _ _ _ I i ss Ti) as B. pose proof (i_pages _ _ _ _ I) as Hpg.
  destruct (locate_spec _ _ _ _ _ _ Hpg B Hin) as (_ & Hp & Hs & _). destruct B as [B1 B3 B4 B5 B6].
  pose proof (t_alloc _ _ _ _ B3) as Hal. rewrite Forall_forall in Hal.
  destruct (write_slot _ _ _ _ _ _ bs Hpg B3 Hp Hs Hb) as (Hpg1 & B3' & Es). rewrite Ho, B4 in Es.
  destruct (write_page _ _ _ (slot_off (layout (hdr db i)) (slot_index id)) bs Hpg (Hal _ Hp)) as (_ & Hc & _ & _ & Hpages).
  set (ps1 := write_frame _ _ _ _) in *. destruct (flush_kept _ _ _ _ Hpg1 Hfl) as (Hpg2 & K & _ & _). split_and!; [done | |].
  - eapply touched_trans; [|by apply touched_kept]. split; [|by left]. intros q j Hj. split; [unfold allocated; by rewrite Hc|]. intros Hni.
    rewrite (Hpages q j Hj). replace (page_id id =? j) with false; [done|]. symmetry. apply Z.eqb_neq. by intros <-.
  - destruct (table_ext ps1 ps' (part db i) (hdr db i) (P i)) as [B3'' Es']; [|done|].
    { intros p Hpp. pose proof (proj1 (Forall_forall _ _) (t_alloc _ _ _ _ B3') p Hpp) as Hap. split; [by apply (k_bytes _ _ K (part db i)) | by apply (kept_allocated _ _ _ _ K)]. }
    assert (hdr (set_header i h' (set_pages ps' db)) i = h') as Eh by apply hdr_set.
    destruct id as [pid s]. cbn [page_id slot_index] in *. split; rewrite ?Eh; [done | | | done |].
    + destruct B3'' as [T1 T2 T3 T4 T5 T6 T7]. split; rewrite ?El, ?Ef, ?Ela, ?Er; done.
    + etrans; [|rewrite <- Es; exact Es']. unfold table_slots, limit. by rewrite El, Ela, Er.
    + intros j w [[= -> <-]|[Hw _]]%put_elem; rewrite El; [by apply Hov | by apply B6 in Hw].
Qed.

(** The slot holds [o] of the table's layout. *)
Definition row_changed db T uid name id (o : RowTableLayout → option RowValues) T' : Prop :=
  ∃ i ss old, find_active_table name db = Some i ∧ check db uid name PERM_WRITE = true ∧ T !! i = Some ss ∧ (id, Some old) ∈ ss ∧
    T' = <[i := put_slot id (o (layout (hdr db i))) ss]> T.

(** What an update or a delete gives. *)
Definition change_result db T uid name id o (r : option (Z * Db F D)) : Prop :=
  ∃ rc db' T' E' P', r = Some (rc, db') ∧ grown db db' ∧ db_inv db' T' E' P' ∧
    if decide (rc = 0 ∨ rc = ROWSTORE_RC_NOT_DURABLE) then row_changed db T uid name id o T' else T' = T.

Lemma durable_cases u : durable u = 0 ∨ durable u = ROWSTORE_RC_NOT_DURABLE.
Proof. unfold durable. destruct (u =? 0); auto. Qed.

Lemma change_refused db T E P uid name id o rc : db_inv db T E P → rc ≠ 0 → rc ≠ ROWSTORE_RC_NOT_DURABLE → change_result db T uid name id o (Some (rc, db)).
Proof.
  intros I H0 H7. exists rc, db, T, E, P. rewrite decide_False by (intros [?|?]; done). split_and!; [done | apply db_grown_refl | done | done].
Qed.

Lemma row_update_spec db T E P uid name id v : db_inv db T E P → room db → own_id db T name id → row_ok v → nulls_empty v →
  change_result db T uid name id (fun l => Some (stored l v)) (rowstore_row_update uid name id v db).
Proof.
  intros I Hr Hid Hv Hn. unfold rowstore_row_update. destruct (find_active_table name db) as [i|] eqn:Ei; [|by eapply change_refused].
  destruct (find_table _ _ _ Ei) as [Htab _]. destruct (i_dom _ _ _ _ I i Htab) as [ss Ti]. pose proof (i_tables _ _ _ _ I i ss Ti) as B.
  destruct (check _ _ _ _) eqn:Eck; cbn [negb]; [|by eapply change_refused]. fold (hdr db i).
  destruct (Z.eqb_spec (count v) (column_count (layout (hdr db i)))) as [Hc|]; cbn [negb]; [|by eapply change_refused].
  destruct (slot_of _ _ (Hid i ss Ei Ti)) as [o Ho]. destruct (locate_spec _ _ _ _ _ _ (i_pages _ _ _ _ I) B Ho) as (El & Hp & Hs & Hold). rewrite El.
  assert (set_pages (pages db) db = db) as Edb by (by destruct db). destruct o as [old|]; [|rewrite Edb; by eapply change_refused].
  pose proof (t_layout _ _ _ _ (tb_ok _ _ _ _ B)) as Hl. pose proof (lay_width _ Hl) as Hw.
  destruct (serialize_row _ v ∅) as [buf|] eqn:Es; [|rewrite Edb; by eapply change_refused]. rewrite (Hold old eq_refl). fold (oid db i).
  unfold flush_or. destruct (rowstore_flush_page _ _) as [rc ps'] eqn:Ef.
  destruct (tb_rows _ _ _ _ B _ _ Ho) as [Hrold Hcold]. pose proof (table_ids_nodup (pages db) (hdr db i) (P i) (t_nodup _ _ _ _ (tb_ok _ _ _ _ B))) as Hnd.
  rewrite (tb_slots _ _ _ _ B) in Hnd.
  destruct (rewritten_inv db T E P i ss id old (rd_bytes 0 (row_width (layout (hdr db i))) buf) (hdr db i) I Ti Ho ltac:(rewrite rd_bytes_length; lia) eq_refl eq_refl eq_refl eq_refl
    (Some (stored (layout (hdr db i)) v)) ps' rc (slot_val_row _ v buf _ _ Hl Hv Es)) as (Hpg & Htc & Hti); [| |exact Ef|].
  { intros w [= <-]. split; [by apply stored_ok | done]. }
  { rewrite (tb_count _ _ _ _ B). f_equal. rewrite (live_put_length ss id old _ Hnd Ho). lia. }
  assert (table_inv (set_pages ps' db) i (put_slot id (Some (stored (layout (hdr db i)) v)) ss) (P i)) as Hti'.
  { eapply table_inv_frame; [| | |exact Hti]; [done | symmetry; apply hdr_set | done]. }
  destruct (db_notify db (set_pages ps' db) T E P i ss (put_slot id (Some (stored (layout (hdr db i)) v)) ss) (P i) (fun a => update_apply a old v id)
    (fun x => upd_entries id (key_of x old) (key_of x v)) I Ti) as (db2 & E' & P' & Hfe & I' & Ha' & Hn'); try done.
  - intros a db2 es Hx Hact Hr2. destruct (same_index_active _ _ (Hx a)) as (_ & _ & Xc & Xt & _).
    assert (∀ w, key_of (row_indexes db2).[a] w = key_of (row_indexes (set_pages ps' db)).[a] w) as Ek by (intros; unfold key_of; by rewrite Xc, Xt).
    rewrite <- !Ek. apply update_apply_step; [done | congruence | by apply key_of_ok | by apply key_of_ok | done].
  - intros x es Hes Hx Ht Hf Hh. eapply holds_update; [done | done | exact Ho | by apply key_of_ok | by apply key_of_ok | symmetry; apply key_of_in; lia | by eapply key_of_stored | done].
  - unfold row_index_notify_update. rewrite Hfe. cbn [mbind option_bind]. eexists _, db2, _, E', P'. split_and!; [reflexivity | done | exact I' |].
    rewrite decide_True by apply durable_cases. by exists i, ss, old.
Qed.

Lemma row_delete_spec db T E P uid name id : db_inv db T E P → room db → own_id db T name id →
  change_result db T uid name id (fun _ => None) (rowstore_row_delete uid name id db).
Proof.
  intros I Hr Hid. unfold rowstore_row_delete. destruct (find_active_table name db) as [i|] eqn:Ei; [|by eapply change_refused].
  destruct (find_table _ _ _ Ei) as [Htab _]. destruct (i_dom _ _ _ _ I i Htab) as [ss Ti]. pose proof (i_tables _ _ _ _ I i ss Ti) as B.
  destruct (check _ _ _ _) eqn:Eck; cbn [negb]; [|by eapply change_refused]. fold (hdr db i).
  destruct (slot_of _ _ (Hid i ss Ei Ti)) as [o Ho]. destruct (locate_spec _ _ _ _ _ _ (i_pages _ _ _ _ I) B Ho) as (El & Hp & Hs & Hold). rewrite El.
  assert (set_pages (pages db) db = db) as Edb by (by destruct db). destruct o as [old|]; [|rewrite Edb; by eapply change_refused].
  pose proof (t_layout _ _ _ _ (tb_ok _ _ _ _ B)) as Hl. pose proof (lay_width _ Hl) as Hw. rewrite (Hold old eq_refl).
  unfold flush_or. destruct (rowstore_flush_page _ _) as [rc ps'] eqn:Ef. set (h' := set_rows _ _ _). change (object_id (obj (auth (set_header i h' (set_pages ps' db))) i)) with (oid db i).
  destruct (tb_rows _ _ _ _ B _ _ Ho) as [Hrold Hcold]. pose proof (table_ids_nodup (pages db) (hdr db i) (P i) (t_nodup _ _ _ _ (tb_ok _ _ _ _ B))) as Hnd.
  rewrite (tb_slots _ _ _ _ B) in Hnd.
  destruct (rewritten_inv db T E P i ss id old [0] h' I Ti Ho ltac:(cbn; lia) eq_refl eq_refl eq_refl eq_refl None ps' rc) as (Hpg & Htc & Hti); [| |  |exact Ef|].
  { unfold slot_val. rewrite wr_bytes_at, decide_True by (cbn; lia). by rewrite Z.sub_diag. }
  { done. }
  { cbn [row_count h' set_rows]. rewrite (tb_count _ _ _ _ B), u32_pred. f_equal. rewrite (live_put_length ss id old _ Hnd Ho). lia. }
  destruct (db_notify db (set_header i h' (set_pages ps' db)) T E P i ss (put_slot id None ss) (P i) (fun a => delete_apply a old id)
    (fun x => del_entries id (key_of x old)) I Ti eq_refl (hdr_set_other i h' _)) as (db2 & E' & P' & Hfe & I' & Ha' & Hn'); try done.
  - by rewrite hdr_set.
  - intros a db2 es Hx Hact Hr2. destruct (same_index_active _ _ (Hx a)) as (_ & _ & Xc & Xt & _).
    assert (∀ w, key_of (row_indexes db2).[a] w = key_of (row_indexes (set_header i h' (set_pages ps' db))).[a] w) as Ek by (intros; unfold key_of; by rewrite Xc, Xt).
    rewrite <- !Ek. apply delete_apply_step; [done | by apply key_of_ok].
  - intros x es Hes Hx Ht Hf Hh. eapply holds_delete; [done | done | exact Ho | by apply key_of_ok | symmetry; apply key_of_in; lia | done].
  - unfold row_index_notify_delete. rewrite Hfe. cbn [mbind option_bind]. eexists _, db2, _, E', P'. split_and!; [reflexivity | done | exact I' |].
    rewrite decide_True by apply durable_cases. by exists i, ss, old.
Qed.

End Ops.
