(* ===== verification/RowScan.v ===== *)
(** A scan calls back once per row of the table, in the order of its slots; building an index is such a scan, and a
    lookup that reports itself complete finds the rows a scan of the table finds. *)
From stdpp Require Import base gmap list list_numbers.
From Stdlib Require Import ZArith Lia Sorted.
From S2P Require Import Prelude Bytes BTree BTreeLib BTreeLeaf BTreeInv BTreeSpec BTreeForest Authority AuthoritySpec RowCodec RowCodecSpec RowKeySpec.
From S2P Require Import RowStore RowPages RowTable RowIndexSpec RowDb RowDbOps.
#[local] Open Scope Z_scope.
#[local] Open Scope carr_scope.

Section Scan.
Context {F D : Type} `{!Frames F} `{!FramesLaws F} `{!Nvme D} `{!CConv}.
Implicit Types (db : Db F D) (T : gmap Z (list slot)) (E : gmap Z (list entry)) (P : Z → list Z) (ss : list slot).

Section Callback.
Context {C : Type} (cb : RowId → RowValues → C → Db F D → option (C * Db F D)).
(** What holds after the rows so far; the callback leaves the pages and the headers alone. *)
Context (Q : list (RowId * RowValues) → C → Db F D → Prop) (i : Z) (ps : PageStore F D) (h : RowTableHeader) (rows : list (RowId * RowValues)).
Context (Hps : ∀ xs c db, Q xs c db → pages db = ps ∧ hdr db i = h).
Context (Hcb : ∀ xs ys id v c db, rows = xs ++ (id, v) :: ys → Q xs c db → ∃ c' db', cb id v c db = Some (c', db') ∧ Q (xs ++ [(id, v)]) c' db').

Fixpoint slots_from (pid : Z) (m : nat) (s : Z) : list slot :=
  match m with O => [] | S m => (mkRowId pid s, slot_val (layout h) (page_at ps pid) s) :: slots_from pid m (s + 1) end.

Lemma slots_from_page pid n : slots_from pid (Z.to_nat n) 0 = page_slots (layout h) pid (page_at ps pid) n.
Proof.
  assert (∀ m s, slots_from pid m s = (fun j => (mkRowId pid j, slot_val (layout h) (page_at ps pid) j)) <$> seqZ s (Z.of_nat m)) as Hs.
  { induction m as [|m IH]; intros s; [done|]. rewrite seqZ_cons by lia. cbn [slots_from fmap list_fmap]. rewrite IH. do 3 f_equal; lia. }
  rewrite Hs. unfold page_slots, tab. destruct (decide (0 ≤ n)); [by rewrite Z2Nat.id by lia|]. by rewrite !seqZ_nil by lia.
Qed.

Lemma scan_slots_spec pid m : ∀ s c db xs ys, rows = xs ++ live (slots_from pid m s) ++ ys → Q xs c db →
  ∃ c' db', scan_slots cb m s (layout h) pid (row_pages ps).[pid] (u32 (Z.of_nat (length xs))) c db =
      Some (u32 (Z.of_nat (length (xs ++ live (slots_from pid m s)))), c', db') ∧ Q (xs ++ live (slots_from pid m s)) c' db'.
Proof using Hps Hcb.
  induction m as [|m IH]; intros s c db xs ys Er HQ.
  - exists c, db. cbn. by rewrite app_nil_r.
  - cbn [scan_slots slots_from] in *. destruct (Hps _ _ _ HQ) as [Ep _]. rewrite Ep. fold (slot_off (layout h) s). fold (page_at ps pid).
    unfold slot_val in *. destruct (_ =? 0).
    + destruct (IH (s + 1) c db xs ys Er HQ) as (c' & db' & -> & HQ'). by exists c', db'.
    + cbn in Er. fold (live (slots_from pid m (s + 1))) in Er. destruct (Hcb xs _ _ _ c db Er HQ) as (c1 & db1 & -> & HQ1). cbn [mbind option_bind].
      rewrite cons_middle, app_assoc in Er. destruct (IH (s + 1) c1 db1 _ ys Er HQ1) as (c' & db' & Es & HQ'). rewrite <- app_assoc in Es, HQ'.
      exists c', db'. split; [|exact HQ']. rewrite u32_succ. replace (Z.of_nat (length xs) + 1) with (Z.of_nat (length (xs ++ [(mkRowId pid s, deserialize_row (layout h) (slot_off (layout h) s) (page_at ps pid))]))) by (rewrite length_app; cbn; lia).
      exact Es.
Qed.

Lemma scan_pages_spec part : pages_ok ps → ∀ pgs fuel cur c db xs, (length pgs ≤ fuel)%nat → Forall (allocated ps part) pgs → linked ps pgs cur →
  rows = xs ++ live (table_slots ps h pgs) → Q xs c db →
  ∃ c' db', scan_pages cb fuel i cur (u32 (Z.of_nat (length xs))) c db = Some (u32 (Z.of_nat (length rows)), c', db') ∧ Q rows c' db'.
Proof using Hps Hcb.
  intros Hpg. induction pgs as [|pid pgs IH]; intros fuel cur c db xs Hfuel Hal Hl Er HQ; cbn [linked] in Hl.
  - subst cur. exists c, db. cbn [table_slots mbind list_bind live omap] in Er. rewrite app_nil_r in Er. subst rows. by destruct fuel.
  - destruct Hl as [-> Hl]. apply Forall_cons in Hal as [Ha Hal]. pose proof (allocated_range _ _ _ Hpg Ha) as Hr. destruct (po_loaded _ Hpg _ _ Ha) as [Hnz _].
    destruct fuel as [|fuel]; [cbn in Hfuel; lia|]. cbn [scan_pages]. change ROWSTORE_MAX_PAGES with 262144 in Hr.
    replace (pid =? ROWSTORE_INVALID_PAGE) with false by (unfold ROWSTORE_INVALID_PAGE; zcase). destruct (Hps _ _ _ HQ) as [Ep Eh]. rewrite Ep, (load_allocated _ _ _ Hpg Ha).
    replace ((row_pages ps).[pid] =? 0) with false by zcase. replace (set_pages ps db) with db by (rewrite <- Ep; by destruct db).
    fold (hdr db i). rewrite Eh. fold (limit h pid). fold (page_at ps pid).
    unfold table_slots in Er. rewrite bind_cons, live_app in Er. rewrite <- slots_from_page in Er.
    destruct (scan_slots_spec pid _ 0 c db xs _ Er HQ) as (c1 & db1 & -> & HQ1). cbn [mbind option_bind]. rewrite app_assoc in Er.
    apply (IH fuel _ c1 db1 _ ltac:(cbn in Hfuel; lia) Hal Hl Er HQ1).
Qed.

End Callback.

Lemma find_table_auth name db db' : auth db' = auth db → find_active_table name db' = find_active_table name db.
Proof. intros E. unfold find_active_table. by rewrite E. Qed.

(** The rows a caller sees. *)
Definition seen db T uid name : list (RowId * RowValues) :=
  match find_active_table name db with Some i => if check db uid name PERM_READ then live (default [] (T !! i)) else [] | None => [] end.

(** A scan of a table of the database [db], whose indexes may have changed since. *)
Lemma table_scan_spec {C} (cb : RowId → RowValues → C → Db F D → option (C * Db F D)) Q db db0 T E P uid name c : db_inv db T E P →
  auth db0 = auth db → pages db0 = pages db → table_headers db0 = table_headers db →
  (∀ xs c db', Q xs c db' → pages db' = pages db ∧ table_headers db' = table_headers db) →
  (∀ xs ys id v c db', seen db T uid name = xs ++ (id, v) :: ys → Q xs c db' → ∃ c' db'', cb id v c db' = Some (c', db'') ∧ Q (xs ++ [(id, v)]) c' db'') →
  Q [] c db0 →
  ∃ c' db', rowstore_table_scan cb uid name c db0 = Some (u32 (Z.of_nat (length (seen db T uid name))), c', db') ∧ Q (seen db T uid name) c' db'.
Proof.
  intros I Ea Ep0 Eh0 Hps Hcb HQ. unfold rowstore_table_scan, seen in *. rewrite (find_table_auth _ db) by done. unfold check in *. rewrite Ea in *.
  destruct (find_active_table name db) as [i|] eqn:Ei; [|by exists c, db0].
  destruct (catalog_check_access _ _ _ _); cbn [negb]; [|by exists c, db0]. destruct (find_table _ _ _ Ei) as [Htab _]. destruct (i_dom _ _ _ _ I i Htab) as [ss Ti].
  rewrite Ti in *. cbn [default] in *. destruct (i_tables _ _ _ _ I i ss Ti) as [B1 B3 B4 B5 B6]. pose proof (i_pages _ _ _ _ I) as Hpg. pose proof B3 as [_ L1 _ L2 L3 _ _].
  destruct (scan_pages_spec cb Q i (pages db) (hdr db i) (live ss)) with (part := part db i) (pgs := P i) (fuel := Z.to_nat ROWSTORE_MAX_PAGES) (cur := first_page_id (hdr db i))
    (c := c) (db := db0) (xs := @nil (RowId * RowValues)) as (c' & db' & Es & HQ').
  - intros xs c1 db1 H1. destruct (Hps _ _ _ H1) as [E1 E2]. unfold hdr. by rewrite E2.
  - intros. by eapply Hcb.
  - done.
  - assert (Forall (fun p => 0 ≤ p < ROWSTORE_MAX_PAGES) (P i)) as Hr. { eapply Forall_impl; [exact L2|]. intros p Hp. by eapply allocated_range. }
    pose proof (footprint_size _ _ L3 Hr). unfold ROWSTORE_MAX_PAGES in *. lia.
  - done.
  - done.
  - by rewrite B4.
  - done.
  - exists c', db'. split; [|done]. rewrite Eh0. exact Es.
Qed.

(** * Building an index *)

Definition as_slots (rows : list (RowId * RowValues)) : list slot := (fun r : RowId * RowValues => (r.1, Some r.2)) <$> rows.

Lemma rows_at_live t col ss k : rows_at t col (as_slots (live ss)) k = rows_at t col ss k.
Proof.
  induction ss as [|[id [v|]] ss IH]; [done | |].
  - change (live ((id, Some v) :: ss)) with ((id, v) :: live ss). unfold as_slots. cbn [fmap list_fmap fst snd]. fold (as_slots (live ss)).
    change (rows_at t col ((id, Some v) :: ?l) k) with (rows_at t col ([(id, Some v)] ++ l) k). by rewrite !rows_at_app, IH.
  - change (live ((id, None) :: ss)) with (live ss). rewrite IH. unfold rows_at. cbn. done.
Qed.

(** What the rows so far have built. *)
Definition built db E (a : Z) (x : RowIndex) (n : Z) (rows : list (RowId * RowValues)) (c : Z) db' : Prop :=
  ∃ xs p es, db' = set_indexes xs p db ∧ forest p (trees xs) (<[a := es]> E) ∧ (∀ j, same_index (row_indexes db).[a <- x].[j] xs.[j]) ∧
    btree_next_free_node p ≤ n + 16 * Z.of_nat (length rows) ∧ holds es (rows_at (column_type x) (column_index x) (as_slots rows)).

Lemma build_step db E a x n rows id v c db' : flag (i_active x) = true → row_ok v → n + 16 * Z.of_nat (length rows) + 16 ≤ BTREE_MAX_NODES →
  built db E a x n rows c db' → ∃ c' db'', build_cb a id v c db' = Some (c', db'') ∧ built db E a x n (rows ++ [(id, v)]) c' db''.
Proof.
  intros Ha [_ Hv] Hn (xs & p & es & -> & Hf & Hx & Hp & Hh). unfold build_cb. cbn [row_indexes set_indexes].
  pose proof (Hx a) as Hxa. rewrite aget_upd_eq in Hxa. destruct (same_index_active _ _ Hxa) as (Xa & _ & Xc & Xt & _). rewrite Xt, Xc.
  assert (as_slots (rows ++ [(id, v)]) = as_slots rows ++ [(id, Some v)]) as Eas by (unfold as_slots; by rewrite fmap_app).
  assert (entries_ok 0 KEY_MAX es) as Hes by (eapply forest_entries; [exact Hf | apply lookup_insert_eq]).
  pose proof (holds_insert (column_type x) (column_index x) es Hes (as_slots rows) id v (row_key (column_type x) (column_index x) v)) as Hins.
  fold (row_key (column_type x) (column_index x) v). destruct (row_key _ _ v) as [k|] eqn:Ek.
  - pose proof (encode_is_key _ _ _ (Hv _) Ek) as Hk.
    destruct (index_insert_step a k id es (set_indexes xs p db)) with (E := <[a := es]> E) as (xs2 & p2 & -> & Hf2 & Hn2 & Hx2);
      [cbn; by rewrite Xa | done | cbn; lia | done | apply lookup_insert_eq |].
    cbn. exists c. eexists. split; [done|]. rewrite insert_insert_eq in Hf2. exists xs2, p2, (ix_insert k id es).2. rewrite Eas. split_and!; [done | done | | |].
    + intros j. eapply same_index_trans; [apply Hx | apply Hx2].
    + rewrite length_app. cbn in Hn2 |- *. lia.
    + by apply Hins.
  - exists 1, (set_indexes xs p db). split; [done|]. exists xs, p, es. rewrite Eas, length_app. split_and!; [done | done | done | cbn; lia|]. by apply Hins.
Qed.

(** * Creating and dropping an index *)

Definition build_room db T name : Prop :=
  ∀ i ss, find_active_table name db = Some i → T !! i = Some ss → btree_next_free_node (nodes db) + 16 * Z.of_nat (length (live ss)) ≤ BTREE_MAX_NODES.

Lemma index_ok_ext db db' T x x' es : same_index x x' → auth db' = auth db → table_headers db' = table_headers db → index_ok db T x es → index_ok db' T x' es.
Proof.
  intros Hx Ea Eh (j & ss & H1 & H2 & H3 & H4 & H5). destruct (same_index_active _ _ Hx) as (_ & Xt & Xc & Xy & _).
  exists j, ss. unfold oid, hdr in *. rewrite Ea, Eh, Xt, Xc, Xy. done.
Qed.

Lemma db_index db xs p T E E' P : db_inv db T E P → forest p (trees xs) E' →
  (∀ a es, E' !! a = Some es → 0 ≤ a < ROW_INDEX_MAX ∧ index_ok db T xs.[a] es) → db_inv (set_indexes xs p db) T E' P.
Proof.
  intros [I1 I2 I3 I4 I5 I6 I7] Hf Hi. split; try done.
  intros i ss Ti. apply (table_inv_frame db); [done | done | done | by apply I4].
Qed.

Lemma built_inv db T E P a x n c db' rows tidx ss : db_inv db T E P → 0 ≤ a < ROW_INDEX_MAX → flag (i_active (row_indexes db).[a]) = false →
  T !! tidx = Some ss → oid db tidx = table_object_id x → 0 ≤ column_index x < column_count (layout (hdr db tidx)) →
  column_type x = (column_types (layout (hdr db tidx))).[column_index x] → rows = live ss → built db E a x n rows c db' → ∃ E', db_inv db' T E' P.
Proof.
  intros I Ha Hact Ti Ho Hc Ht -> (xs & p & es & -> & Hf & Hx & Hp & Hh). exists (<[a := es]> E). apply (db_index _ _ _ _ _ _ _ I Hf).
  intros b eb HE. destruct (decide (b = a)) as [->|Hne].
  - rewrite lookup_insert_eq in HE. injection HE as <-. split; [done|]. pose proof (Hx a) as Hxa. rewrite aget_upd_eq in Hxa.
    eapply index_ok_ext; [exact Hxa | done | done|]. exists tidx, ss. split_and!; [done | done | lia | lia | done|]. intros _.
    eapply holds_ext; [exact Hh|]. intros k _. by rewrite rows_at_live.
  - rewrite lookup_insert_ne in HE by done. destruct (i_index _ _ _ _ I b eb HE) as [Hr Hi]. split; [done|]. pose proof (Hx b) as Hxb. rewrite aget_upd_ne in Hxb by done.
    by eapply index_ok_ext.
Qed.

Lemma index_create_spec db T E P uid iname name column : db_inv db T E P → build_room db T name → check db uid name PERM_READ = true →
  ∃ rc db' E', row_index_create uid iname name column db = Some (rc, db') ∧ auth db' = auth db ∧ db_inv db' T E' P ∧ (rc ≠ 0 → db' = db).
Proof.
  intros I Hroom Hread. unfold row_index_create. destruct (find_active_table name db) as [tidx|] eqn:Ei; [|by exists 1, db, E].
  destruct (check db uid name PERM_WRITE); cbn [negb]; [|by exists 2, db, E]. destruct (find_index_slot iname db); [by exists 4, db, E|].
  destruct (find_up _ 0 _) as [a|] eqn:Ea; [|by exists 4, db, E]. apply find_up_Some in Ea as (Ha & Hact & _). apply negb_true_iff in Hact.
  destruct (find_up _ 0 (fun c => rs_streq _ _)) as [col|] eqn:Ec; [|by exists 3, db, E]. apply find_up_Some in Ec as (Hcol & _ & _).
  destruct (find_table _ _ _ Ei) as [Htab _]. destruct (i_dom _ _ _ _ I tidx Htab) as [ss Ti]. pose proof (i_tables _ _ _ _ I tidx ss Ti) as B.
  set (x := mkIndex _ _ _ _ _ _). set (db1 := set_indexes _ _ _). assert (seen db T uid name = live ss) as Eseen by (unfold seen; by rewrite Ei, Hread, Ti).
  specialize (Hroom tidx ss Ei Ti). unfold ROW_INDEX_MAX in Ha.
  destruct (table_scan_spec (build_cb a) (built db E a x (btree_next_free_node (nodes db))) db db1 T E P uid name 0 I) as (c' & db' & -> & HQ); try done.
  - by intros xs c db' (? & ? & ? & -> & _).
  - intros xs ys id v c db' Er HQ. rewrite Eseen in Er. apply build_step; [done | | | done].
    + eapply (tb_rows _ _ _ _ B id). apply live_elem. rewrite Er. apply elem_of_app. right. left.
    + rewrite Er, length_app in Hroom. cbn in Hroom. lia.
  - exists (row_indexes db).[a <- x], (nodes db), []. split_and!; [done | | intros; apply same_index_refl | cbn; lia|].
    + rewrite trees_set by done. apply forest_open. apply (i_forest _ _ _ _ I).
    + intros k _. split; [apply submseteq_nil_l | done].
  - rewrite Eseen in *. cbn [mbind option_bind].
    destruct (built_inv db T E P a x (btree_next_free_node (nodes db)) c' db' (live ss) tidx ss I) as [E' I']; [unfold ROW_INDEX_MAX; lia | done | done | done | cbn; unfold hdr; lia | done | done | exact HQ |].
    exists 0, db', E'. split_and!; [done | | done | done]. by destruct HQ as (? & ? & ? & -> & _).
Qed.

Lemma index_drop_spec db T E P uid iname : db_inv db T E P →
  ∃ rc db' E', row_index_drop uid iname db = (rc, db') ∧ auth db' = auth db ∧ db_inv db' T E' P ∧ (rc ≠ 0 → db' = db).
Proof.
  intros I. unfold row_index_drop. destruct (find_index_slot iname db) as [a|]; [|by exists 1, db, E].
  destruct (find_object _ _); [|by exists 1, db, E]. destruct (negb _); [by exists 2, db, E|]. eexists 0, _, (delete a E). split_and!; [done | done | | done].
  apply (db_index _ _ _ _ _ _ _ I).
  - rewrite trees_clear by done. apply forest_close, (i_forest _ _ _ _ I).
  - intros b es. destruct (decide (b = a)) as [->|Hne]; [by rewrite lookup_delete_eq|]. rewrite lookup_delete_ne by done. rewrite aget_upd_ne by done. apply (i_index _ _ _ _ I).
Qed.

End Scan.

Section Lookup.
Context {F D : Type} `{!Frames F} `{!FramesLaws F} `{!Nvme D} `{!CConv}.
Implicit Types (db : Db F D) (T : gmap Z (list slot)) (E : gmap Z (list entry)) (P : Z → list Z) (ss : list slot).

(** The rows of a scan. *)
Definition collect (id : RowId) (v : RowValues) (rows : list (RowId * RowValues)) db : option (list (RowId * RowValues) * Db F D) := Some (rows ++ [(id, v)], db).

Lemma collect_spec db T E P uid name : db_inv db T E P →
  rowstore_table_scan collect uid name [] db = Some (u32 (Z.of_nat (length (seen db T uid name))), seen db T uid name, db).
Proof.
  intros I. destruct (table_scan_spec collect (fun rows c db' => c = rows ∧ db' = db) db db T E P uid name [] I eq_refl eq_refl eq_refl) as (c' & db' & -> & -> & ->); [ | |done|done].
  - by intros xs c db' [_ ->].
  - intros xs ys id v c db' _ [-> ->]. by eexists _, db.
Qed.

(** The rows of [rows] with key [k] in column [col]. *)
Definition with_key (t : SLSFieldType) (col : Z) (k : key) (rows : list (RowId * RowValues)) : list RowId :=
  (filter (fun r => row_key t col r.2 = Some k) rows).*1.

Lemma rows_at_with_key t col ss k : rows_at t col ss k = with_key t col k (live ss).
Proof.
  induction ss as [|[id [v|]] ss IH]; [done | |].
  - change (live ((id, Some v) :: ss)) with ((id, v) :: live ss). unfold with_key in *. rewrite filter_cons. unfold rows_at in *. cbn. rewrite IH.
    unfold slot_key. cbn. by destruct (decide _).
  - exact IH.
Qed.

(** The table of an index that can be read, under its own name. *)
Lemma readable_spec db T E P uid iname x : db_inv db T E P → readable_index uid iname db = Some x →
  ∃ a es j ss, x = (row_indexes db).[a] ∧ flag (i_active x) = true ∧ E !! a = Some es ∧ T !! j = Some ss ∧ find_active_table (o_name (obj (auth db) j)) db = Some j ∧
    oid db j = table_object_id x ∧ check db uid (o_name (obj (auth db) j)) PERM_READ = true ∧
    (column_type x ≠ FIELD_TYPE_FLOAT → holds es (rows_at (column_type x) (column_index x) ss)).
Proof.
  intros I. unfold readable_index. destruct (find_index_slot iname db) as [a|] eqn:Ea; [|done]. apply find_up_Some in Ea as (Ha & [Hact _]%andb_true_iff & _).
  destruct (find_object _ db) as [t|] eqn:Et; [|done]. apply find_up_Some in Et as (Ht & [Htact Htid]%andb_true_iff & _). apply Z.eqb_eq in Htid.
  destruct (check db uid _ PERM_READ) eqn:Eck; [|done]. intros [= <-]. destruct (proj2 (active_entries _ _ _ _ a I) Hact) as [es HE].
  destruct (i_index _ _ _ _ I a es HE) as (_ & j & ss & Tj & Oj & Cj & Yj & Hh). pose proof (i_catalog _ _ _ _ I) as Hcat.
  pose proof (tb_table _ _ _ _ (i_tables _ _ _ _ I j ss Tj)) as Hj.
  assert (t = j) as ->. { apply (ca_unique _ Hcat); [split; [lia | done] | apply Hj | unfold oid in Oj; congruence]. }
  exists a, es, j, ss. split_and!; try done. destruct Hj as [Hj Hrow]. destruct (find_active_table _ db) as [i|] eqn:Ei.
  - destruct (find_table _ _ _ Ei) as [[Hi _] En]. f_equal. apply (ca_unique _ Hcat); [done | done|]. rewrite !(ca_names _ Hcat) by done. by rewrite En.
  - apply find_up_None with (k := j) in Ei; [|destruct Hj; lia]. rewrite Htact, Hrow in Ei. cbn in Ei. by apply streq_false in Ei.
Qed.

Lemma lookup_checked_spec db T E P uid iname value max x k : db_inv db T E P → is_text value → readable_index uid iname db = Some x →
  column_type x ≠ FIELD_TYPE_FLOAT → encode_key (column_type x) value = Some k →
  ∃ i ids complete, find_object (table_object_id x) db = Some i ∧ 
    row_index_lookup uid iname value max db = Some (Z.of_nat (length ids), take (Z.to_nat max) ids) ∧
    row_index_lookup_checked uid iname value max db = Some (Z.of_nat (length ids), take (Z.to_nat max) ids, complete) ∧
    let rows := with_key (column_type x) (column_index x) k (seen db T uid (o_name (obj (auth db) i))) in
    ids ⊆+ rows ∧ (complete = 1 → ids ≡ₚ rows).
Proof.
  intros I Hv Hx Hf Hk. destruct (readable_spec _ _ _ _ _ _ _ I Hx) as (a & es & j & ss & -> & Hact & HE & Tj & Ej & Oj & Hck & Hh).
  specialize (Hh Hf). pose proof (encode_is_key _ _ _ Hv Hk) as Hkk. destruct (Hh k Hkk) as [H1 H2].
  assert (find_object (table_object_id (row_indexes db).[a]) db = Some j) as Ef.
  { pose proof (tb_table _ _ _ _ (i_tables _ _ _ _ I j ss Tj)) as [Hj _]. unfold find_object. destruct (find_up _ 0 _) as [t|] eqn:Et.
    - apply find_up_Some in Et as (Ht & [Ha Hb%Z.eqb_eq]%andb_true_iff & _). f_equal. apply (ca_unique _ (i_catalog _ _ _ _ I)); [split; [lia | done] | done|].
      unfold oid in Oj. congruence.
    - apply find_up_None with (k := j) in Et; [|destruct Hj; lia]. destruct Hj as [_ Hj]. rewrite Hj in Et. apply Z.eqb_neq in Et. by destruct Et. }
  exists j, (ix_rows k es), (if ix_capped k es =? 0 then 1 else 0). split; [done|].
  pose proof (trees_active _ _ Hact) as Htr. pose proof (i_forest _ _ _ _ I) as Hfo.
  assert (range_scan_internal (tree (row_indexes db).[a]) (Some k) (Some k) max (nodes db) = Some (Z.of_nat (length (ix_rows k es)), take (Z.to_nat max) (ix_rows k es))) as Er.
  { by eapply forest_range. }
  unfold row_index_lookup, row_index_lookup_checked. rewrite Hx, Hk, Er. split; [done|]. rewrite (forest_capped _ _ _ Hfo a _ es k Hkk Htr HE). split; [done|].
  unfold seen. rewrite Ej, Hck, Tj. cbn [default]. rewrite <- rows_at_with_key. split; [done|].
  destruct (Z.eqb_spec (ix_capped k es) 0); [by auto | done].
Qed.

End Lookup.
