(* ===== verification/RowTables.v ===== *)
(** Objects and tables come and go: the database at boot, a catalog entry allocated, a table created and dropped. *)
From stdpp Require Import base gmap list list_numbers.
From Stdlib Require Import ZArith Lia Sorted.
From S2P Require Import Prelude Bytes BTree BTreeLib BTreeLeaf BTreeInv BTreeSpec BTreeForest Authority AuthoritySpec.
From S2P Require Import RowCodec RowCodecSpec RowKeySpec RowStore RowPages RowTable RowIndexSpec RowDb RowDbOps RowScan.
#[local] Open Scope Z_scope.
#[local] Open Scope carr_scope.

(** * The catalog *)

(** Entry [i] in its slot, with the same name and the same partition. *)
Lemma catalog_same a a' : catalog_ok a → object_catalog_count (catalog a') = object_catalog_count (catalog a) →
  (∀ i, used a' i → used a i) → (∀ i, used a' i → object_id (obj a' i) = object_id (obj a i) ∧ o_name (obj a' i) = o_name (obj a i) ∧ o_partition (obj a' i) = o_partition (obj a i)) →
  (∀ i, object_catalog_count (catalog a) ≤ i → obj a' i = obj a i) → catalog_ok a'.
Proof.
  intros [C1 C2 C3 C4 C5] Ec Hu Hs Hf. split.
  - intros i Hi. destruct (Hs i Hi) as (-> & -> & _). auto.
  - intros i j Hi Hj. destruct (Hs i Hi) as (-> & _), (Hs j Hj) as (-> & _). auto.
  - intros i Hi. destruct (Hs i Hi) as (_ & _ & ->). auto.
  - lia.
  - intros i Hi. rewrite Hf by lia. apply C5. lia.
Qed.

Lemma name_unique a i j : catalog_ok a → used a i → used a j → o_name (obj a i) = o_name (obj a j) → i = j.
Proof. intros C Hi Hj E. apply (ca_unique _ C); [done | done|]. rewrite !(ca_names _ C) by done. by rewrite E. Qed.

Lemma catalog_find_name a name i : find_by_name a name = Some i → used a i ∧ o_name (obj a i) = name.
Proof. intros (Hr & [Ha Hn%streq_true]%andb_true_iff & _)%find_up_Some. split; [split; [lia | done] | done]. Qed.

(** The entry of a table cleared, then freed by its name. *)
Definition without (a : Authority) (i : Z) a' : Prop :=
  object_catalog_count (catalog a') = object_catalog_count (catalog a) ∧ (∀ j, used a' j ↔ used a j ∧ j ≠ i) ∧ ∀ j, j ≠ i → obj a' j = obj a j.

Lemma free_table a i name : catalog_ok a → used a i → o_name (obj a i) = name →
  without a i (sys_sls_vfree name (set_catalog (set_object i (set_o_rowstore 0 (obj a i)) (catalog a)) a)).2.
Proof.
  intros Hcat Hu Hn. set (a1 := set_catalog _ a). set (e := set_o_rowstore 0 _) in a1.
  assert (∀ j, obj a1 j = if i =? j then e else obj a j) as Eo by (intros j; apply aget_upd).
  assert (∀ j, used a1 j ↔ used a j) as Hus. { intros j. unfold used. rewrite Eo. destruct (Z.eqb_spec i j) as [->|]; done. }
  assert (∀ j, o_name (obj a1 j) = o_name (obj a j)) as Hnm. { intros j. rewrite Eo. destruct (Z.eqb_spec i j) as [->|]; done. }
  assert (find_by_name a1 name = Some i) as Efn.
  { destruct (find_by_name a1 name) as [j|] eqn:Ej.
    - destruct (catalog_find_name _ _ _ Ej) as [Hj%Hus Hnj]. f_equal. rewrite Hnm in Hnj. apply (name_unique a); [done..|congruence].
    - pose proof Hu as [Hru Hau]. apply find_up_None with (k := i) in Ej; [|cbn; lia].
      rewrite Hnm, Hn, (proj2 (streq_true name name) eq_refl), andb_true_r in Ej. apply Hus in Hu as [_ Hu3]. congruence. }
  unfold sys_sls_vfree. rewrite Efn. cbn [snd]. set (a' := set_catalog _ a1).
  assert (∀ j, obj a' j = if i =? j then set_o_active 0 (obj a1 i) else obj a1 j) as Eo' by (intros j; apply aget_upd).
  split_and!; [done | |].
  - intros j. unfold used. rewrite Eo', (Eo j). destruct (Z.eqb_spec i j) as [->|Hne]; [split; [by intros [_ ?] | by intros [_ ?]]|].
    split; [intros; split; [done | congruence] | by intros [? _]].
  - intros j Hne. rewrite Eo', (Eo j). by replace (i =? j) with false by zcase.
Qed.

Section Tables.
Context {F D : Type} `{!Frames F} `{!FramesLaws F} `{!Nvme D} `{!CConv}.
Implicit Types (db : Db F D) (T : gmap Z (list slot)) (E : gmap Z (list entry)) (P : Z → list Z) (ss : list slot).

(** * Boot *)

Lemma init_cursor ps p : 0 ≤ p < PARTITION_MAX → (rowstore_partition_cursor (rowstore_init (F := F) (D := D) ps)).[p] = p * ROWSTORE_PAGES_PER_PARTITION.
Proof.
  intros Hp. cbn [rowstore_init rowstore_partition_cursor].
  assert (∀ c : gmap Z Z, (∀ q, 0 ≤ q < PARTITION_MAX → c.[q] = q * ROWSTORE_PAGES_PER_PARTITION) → c.[p] = p * ROWSTORE_PAGES_PER_PARTITION) as Hc by auto. apply Hc. clear Hc.
  pose proof (for_up_ind (fun n (c : gmap Z Z) => ∀ q, 0 ≤ q < n → c.[q] = q * ROWSTORE_PAGES_PER_PARTITION) (Z.to_nat PARTITION_MAX) 0
    (fun p (c : gmap Z Z) => c.[p <- p * ROWSTORE_PAGES_PER_PARTITION]) ∅) as Hind. rewrite Z.add_0_l, Z2Nat.id in Hind by (unfold PARTITION_MAX; lia). apply Hind; [intros; lia|].
  intros j c Hj Hc q Hq. rewrite aget_upd. destruct (Z.eqb_spec j q) as [->|]; [done|]. apply Hc. lia.
Qed.

Lemma init_pages ps : frames_ok (frames ps) → pages_ok (rowstore_init (F := F) (D := D) ps).
Proof.
  intros Hf. split; [done | done | done | |].
  - intros p Hp. rewrite init_cursor by done. change ROWSTORE_PAGES_PER_PARTITION with 1024. lia.
  - intros p id [Hp Hid]. rewrite init_cursor in Hid by done. lia.
Qed.

(** A system without tables whose catalog is in order. *)
Definition bootable db : Prop := catalog_ok (auth db) ∧ frames_ok (frames (pages db)) ∧ ∀ i, ¬ is_table db i.

Lemma boot_inv db : bootable db → db_inv (row_store_boot db) ∅ ∅ (fun _ => []).
Proof.
  intros (Hc & Hf & Hn). split; [by apply init_pages | done | | done | | apply forest_boot | done].
  - intros i Hi. by destruct (Hn i).
  - intros i j p [? [=]].
Qed.

(** * Tables *)

(** Tables that keep their entry, their header and their pages. *)
Lemma table_keep db db' i ss pgs : is_table db' i → part db' i = part db i → hdr db' i = hdr db i → pages db' = pages db → table_inv db i ss pgs → table_inv db' i ss pgs.
Proof. intros Ht Ep Eh Epg [B1 B3 B4 B5 B6]. split; rewrite ?Ep, ?Eh, ?Epg; done. Qed.

Lemma obj_set_obj i e db j : obj (auth (set_obj i e db)) j = if i =? j then e else obj (auth db) j.
Proof. unfold obj. cbn. apply aget_upd. Qed.

Definition created db T name rc db' T' : Prop :=
  if rc =? 0 then ∃ i l, find_by_name (auth db) name = Some i ∧ T !! i = None ∧ compute_layout (object_schemas db).[i] = Some l ∧
    T' = <[i := []]> T ∧ layout (hdr db' i) = l
  else db' = db ∧ T' = T.

Lemma create_table_spec db T E P name : db_inv db T E P →
  ∃ rc db' T' P', rowstore_create_table name db = (rc, db') ∧ db_inv db' T' E P' ∧ nodes db' = nodes db ∧ created db T name rc db' T'.
Proof.
  intros I. unfold rowstore_create_table. destruct (find_by_name (auth db) name) as [i|] eqn:Ei; [|by exists 1, db, T, P].
  destruct (catalog_find_name _ _ _ Ei) as [Hu Hn]. destruct (flag (uses_rowstore _)) eqn:Er; [by exists 1, db, T, P|].
  destruct (compute_layout _) as [l|] eqn:El; [|by exists 1, db, T, P]. set (h := empty_header _ l). set (e := set_o_rowstore 1 _). set (db' := set_obj i e (set_header i h db)).
  assert (T !! i = None) as Ti. { apply eq_None_not_Some. intros [ss Ti]. destruct (tb_table _ _ _ _ (i_tables _ _ _ _ I i ss Ti)) as [_ Hr]. congruence. }
  assert (∀ j, obj (auth db') j = if i =? j then e else obj (auth db) j) as Eo by (intros j; exact (obj_set_obj i e (set_header i h db) j)).
  assert (∀ j, used (auth db') j ↔ used (auth db) j) as Hus. { intros j. unfold used. rewrite Eo. destruct (Z.eqb_spec i j) as [->|]; done. }
  assert (∀ j, oid db' j = oid db j ∧ part db' j = part db j) as Hid. { intros j. unfold oid, part. rewrite Eo. destruct (Z.eqb_spec i j) as [->|]; done. }
  assert (∀ j, j ≠ i → is_table db' j ↔ is_table db j) as Htb.
  { intros j Hne. unfold is_table. rewrite Hus, Eo. by replace (i =? j) with false by zcase. }
  assert (is_table db' i) as Hti. { split; [by apply Hus|]. rewrite Eo, Z.eqb_refl. done. }
  assert (∀ j, j ≠ i → hdr db' j = hdr db j) as Ehj by apply hdr_set_other. assert (hdr db' i = h) as Ehi by apply (hdr_set i h).
  exists 0, db', (<[i := []]> T), (fun j => if decide (j = i) then [] else P j). split_and!; [done | | done |].
  2:{ exists i, l. rewrite Ehi. done. }
  split; [exact (i_pages _ _ _ _ I) | | | | |exact (i_forest _ _ _ _ I)|].
  - apply (catalog_same (auth db)); [apply (i_catalog _ _ _ _ I) | done | apply Hus | |].
    + intros j _. rewrite Eo. destruct (Z.eqb_spec i j) as [->|]; done.
    + intros j Hj. rewrite Eo. destruct Hu as [Hu _]. by replace (i =? j) with false by zcase.
  - intros j Hj. destruct (decide (j = i)) as [->|Hne]; [rewrite lookup_insert_eq; eauto|]. rewrite lookup_insert_ne by done. by apply (i_dom _ _ _ _ I), Htb.
  - intros j ss. destruct (decide (j = i)) as [->|Hne].
    + rewrite lookup_insert_eq. intros [= <-]. split; rewrite ?Ehi; [done | | done | done | by intros ? ? ?%elem_of_nil]. pose proof (compute_layout_ok _ _ El) as Hl.
      pose proof Hl as [_ _ _ [Hrpp _]]. split; cbn; [done | done | done | constructor | constructor | lia | done].
    + rewrite lookup_insert_ne by done. intros Tj. pose proof (i_tables _ _ _ _ I j ss Tj) as B.
      apply (table_keep db); [apply Htb; [done | apply B] | apply Hid | by apply Ehj | done | done].
  - intros j k p Hj Hk. destruct (decide (j = i)) as [->|Hji]; [by intros ?%elem_of_nil|]. destruct (decide (k = i)) as [->|Hki]; [by intros _ ?%elem_of_nil|].
    rewrite lookup_insert_ne in Hj, Hk by done. by apply (i_apart _ _ _ _ I).
  - intros a es HE. destruct (i_index _ _ _ _ I a es HE) as (Hr & j & ss & Tj & Oj & Cj & Yj & Hh). split; [done|]. assert (j ≠ i) by congruence.
    exists j, ss. rewrite lookup_insert_ne by done. destruct (Hid j) as [-> _]. rewrite Ehj by done. done.
Qed.

(** The indexes of a table closed. *)
Lemma close_indexes db T E P tid : db_inv db T E P →
  ∃ E', let xs := for_up (Z.to_nat ROW_INDEX_MAX) 0
          (fun i (xs : gmap Z RowIndex) => if flag (i_active xs.[i]) && (table_object_id xs.[i] =? tid) then xs.[i <- set_i_active 0 xs.[i]] else xs) (row_indexes db) in
    forest (nodes db) (trees xs) E' ∧
    ∀ a es, E' !! a = Some es → E !! a = Some es ∧ table_object_id (row_indexes db).[a] ≠ tid ∧ xs.[a] = (row_indexes db).[a].
Proof.
  intros I. set (body := fun i (xs : gmap Z RowIndex) => _).
  set (Q := fun (n : Z) (xs : gmap Z RowIndex) => ∃ E', forest (nodes db) (trees xs) E' ∧ (∀ a, n ≤ a → xs.[a] = (row_indexes db).[a]) ∧
    (∀ a es, E' !! a = Some es → E !! a = Some es ∧ (a < n → table_object_id (row_indexes db).[a] ≠ tid) ∧ xs.[a] = (row_indexes db).[a])).
  assert (Q (0 + Z.of_nat (Z.to_nat ROW_INDEX_MAX)) (for_up (Z.to_nat ROW_INDEX_MAX) 0 body (row_indexes db))) as (E' & H1 & _ & H2).
  - apply for_up_ind.
    + exists E. split_and!; [apply (i_forest _ _ _ _ I) | done|]. intros a es HE. split_and!; [done | | done]. destruct (i_index _ _ _ _ I a es HE). lia.
    + intros j xs Hj (E1 & Hf & Hx & HE1). unfold body. destruct (_ && _) eqn:Eb.
      * exists (delete j E1). rewrite trees_clear by done. split_and!; [by apply forest_close | intros a Ha; rewrite aget_upd_ne by lia; apply Hx; lia|].
        intros a es. destruct (decide (a = j)) as [->|Hne]; [by rewrite lookup_delete_eq|]. rewrite lookup_delete_ne, aget_upd_ne by done. intros HE. destruct (HE1 a es HE) as (? & ? & ?).
        split_and!; [done | intros; apply H1; lia | done].
      * exists E1. split_and!; [done | intros; apply Hx; lia|]. intros a es HE. destruct (HE1 a es HE) as (HEa & Ht & Ea). split_and!; [done | | done].
        intros Ha. destruct (decide (a = j)) as [->|]; [|apply Ht; lia]. rewrite (Hx j) in Eb by lia.
        rewrite (proj1 (active_entries _ _ _ _ j I) (mk_is_Some _ _ HEa)) in Eb. by apply Z.eqb_neq in Eb.
  - exists E'. split; [done|]. intros a es HE. destruct (H2 a es HE) as (HEa & Ht & Ea). split_and!; [done | | done]. apply Ht.
    destruct (i_index _ _ _ _ I a es HEa). unfold ROW_INDEX_MAX in *. lia.
Qed.

Definition dropped db T uid name rc db' T' : Prop :=
  if rc =? 0 then ∃ i, find_active_table name db = Some i ∧ check db uid name PERM_WRITE = true ∧ T' = delete i T
  else db' = db ∧ T' = T.

Lemma drop_table_spec db T E P uid name : db_inv db T E P →
  ∃ rc db' T' E', rowstore_drop_table uid name db = (rc, db') ∧ db_inv db' T' E' P ∧ nodes db' = nodes db ∧ dropped db T uid name rc db' T'.
Proof.
  intros I. unfold rowstore_drop_table. destruct (find_active_table name db) as [i|] eqn:Ei; [|by exists 1, db, T, E].
  destruct (find_table _ _ _ Ei) as [[Hu Hr] Hn]. destruct (check db uid name PERM_WRITE) eqn:Eck; cbn [negb]; [|by exists 2, db, T, E].
  destruct (close_indexes db T E P (oid db i) I) as (E' & Hf & HE'). fold (oid db i). set (xs := for_up _ _ _ (row_indexes db)) in *.
  set (cs := for_up _ _ _ (row_constraints db)). set (js := for_up _ _ _ (row_journal_attachments db)). clearbody xs cs js.
  destruct (free_table (auth db) i name (i_catalog _ _ _ _ I) Hu Hn) as (Ec & Hus' & Eoj).
  set (a' := (sys_sls_vfree name _).2) in *. set (db' := set_auth _ _). assert (auth db' = a') as Ea by done. clearbody a'.
  assert (∀ j, j ≠ i → hdr db' j = hdr db j) as Ehj. { intros j Hne. unfold hdr. cbn. by rewrite aget_upd_ne. }
  exists 0, db', (delete i T), E'. split_and!; [done | | done | by exists i].
  split; [exact (i_pages _ _ _ _ I) | | | | | exact Hf|].
  - rewrite Ea. apply (catalog_same (auth db)); [apply (i_catalog _ _ _ _ I) | done | intros j; apply Hus' | |].
    + intros j [_ Hne]%Hus'. by rewrite Eoj.
    + intros j Hj. destruct Hu as [Hu _]. apply Eoj. lia.
  - intros j Hjt. unfold is_table in Hjt. rewrite Ea in Hjt. destruct Hjt as [[Hj Hne]%Hus' Hrj]. rewrite lookup_delete_ne by done. rewrite Eoj in Hrj by done. by apply (i_dom _ _ _ _ I).
  - intros j ss. destruct (decide (j = i)) as [->|Hne]; [by rewrite lookup_delete_eq|]. rewrite lookup_delete_ne by done. intros Tj. pose proof (i_tables _ _ _ _ I j ss Tj) as B.
    apply (table_keep db); [| by unfold part; rewrite Ea, Eoj | by apply Ehj | done | done].
    destruct (tb_table _ _ _ _ B). unfold is_table. rewrite Ea. split; [by apply Hus' | by rewrite Eoj].
  - intros j k p Hj Hk. assert (∀ m, is_Some (delete i T !! m) → is_Some (T !! m)) as Hsub. { intros m [s Hm]. apply lookup_delete_Some in Hm as [_ ?]. eauto. }
    apply (i_apart _ _ _ _ I); auto.
  - intros a es HE. destruct (HE' a es HE) as (HEa & Ht & Exa). change (row_indexes db') with xs. rewrite Exa. destruct (i_index _ _ _ _ I a es HEa) as (Hra & j & ss & Tj & Oj & Cj & Yj & Hh). split; [done|].
    assert (j ≠ i) by congruence. exists j, ss. rewrite lookup_delete_ne, Ehj by done. unfold oid in *. rewrite Ea, Eoj by done. done.
Qed.

(** ** Objects *)

(** A request whose name fits the buffer it comes in, for a partition. *)
Definition request_ok (a : Authority) (req : SLSVallocRequest) : Prop :=
  Z.of_nat (length (v_name req)) < OBJECT_NAME_LEN ∧ 0 ≤ (if v_partition req =? 0 then partition_get_for_uid a (v_owner req) else v_partition req).

Lemma valloc_catalog a req : catalog_ok a → request_ok a req → let a' := (sys_sls_valloc req a).2 in
  catalog_ok a' ∧ (∀ i, used a i → used a' i ∧ obj a' i = obj a i) ∧ (∀ i, used a' i → flag (uses_rowstore (obj a' i)) = true → used a i).
Proof.
  intros [C1 C2 C3 C4 C5] [Hlen Hpart]. unfold sys_sls_valloc. destruct (_ || _); [done|]. destruct (negb _); [done|].
  destruct (find_up _ 0 _) eqn:Ef; [done|]. destruct (_ <=? _); [done|]. cbn [snd]. set (n := object_catalog_count (catalog a)) in *. set (e := mkObj _ _ _ _ _ _ _ _ _ _ _ _ _).
  set (a' := set_catalog _ a). assert (∀ j, obj a' j = if n =? j then e else obj a j) as Eo by (intros j; apply aget_upd).
  assert (∀ j, used a' j → j = n ∨ (j ≠ n ∧ used a j)) as Hus.
  { intros j [Hj Ha]. destruct (decide (j = n)); [by left|]. right. split; [done|]. rewrite Eo in Ha. replace (n =? j) with false in Ha by zcase. split; [|done]. cbn in Hj. fold n. lia. }
  assert (∀ j, used a j → obj a' j = obj a j ∧ object_id (obj a j) ≠ fnv1a (v_name req)) as Hold.
  { intros j [Hj Ha]. fold n in Hj. rewrite Eo. replace (n =? j) with false by zcase. split; [done|]. apply find_up_None with (k := j) in Ef; [|lia].
    rewrite Ha in Ef. by apply Z.eqb_neq in Ef. }
  assert (obj a' n = e) as En by (rewrite Eo; by rewrite Z.eqb_refl). split_and!.
  - split.
    + intros j [->|[Hne Hj]]%Hus; [rewrite En; cbn; by rewrite rs_strcpy_fits|]. destruct (Hold j Hj) as [-> _]. auto.
    + intros i j [->|[_ Hi]]%Hus [->|[_ Hj]]%Hus; [done | | |].
      * destruct (Hold j Hj) as [-> Hne]. rewrite En. cbn. intros E. by destruct Hne.
      * destruct (Hold i Hi) as [-> Hne]. rewrite En. cbn. intros E. by destruct Hne.
      * destruct (Hold i Hi) as [-> _], (Hold j Hj) as [-> _]. auto.
    + intros j [->|[_ Hj]]%Hus; [by rewrite En|]. destruct (Hold j Hj) as [-> _]. auto.
    + cbn. lia.
    + intros j Hj. cbn in Hj. rewrite Eo. replace (n =? j) with false by zcase. apply C5. lia.
  - intros i Hi. destruct (Hold i Hi) as [E _]. split; [|done]. unfold used. rewrite E. destruct Hi as [Hi Ha]. split; [cbn; fold n in Hi; lia | done].
  - intros i [->|[_ Hi]]%Hus; [|done]. rewrite En. cbn. rewrite C5 by (fold n; lia). done.
Qed.

Lemma valloc_spec db T E P req : db_inv db T E P → request_ok (auth db) req → db_inv (set_auth (sys_sls_valloc req (auth db)).2 db) T E P.
Proof.
  intros I Hreq. destruct (valloc_catalog _ _ (i_catalog _ _ _ _ I) Hreq) as (Hc & Hold & Hnew). set (a' := (sys_sls_valloc req (auth db)).2) in *. clearbody a'.
  split; [apply (i_pages _ _ _ _ I) | done | | | apply (i_apart _ _ _ _ I) | apply (i_forest _ _ _ _ I)|].
  - intros i [Hi Hr]. cbn in Hi, Hr. specialize (Hnew i Hi Hr). apply (i_dom _ _ _ _ I). split; [done|]. destruct (Hold i Hnew) as [_ E']. by rewrite <- E'.
  - intros i ss Ti. pose proof (i_tables _ _ _ _ I i ss Ti) as B. pose proof (tb_table _ _ _ _ B) as [Hi Hr]. destruct (Hold i Hi) as [Hi' E'].
    apply (table_keep db); [split; cbn; [done | by rewrite E'] | unfold part; cbn; by rewrite E' | done | done | done].
  - intros a es HE. destruct (i_index _ _ _ _ I a es HE) as (Hr & j & ss & Tj & Oj & Cj & Yj & Hh). split; [done|]. exists j, ss.
    pose proof (tb_table _ _ _ _ (i_tables _ _ _ _ I j ss Tj)) as [Hj _]. destruct (Hold j Hj) as [_ E']. unfold oid in *. cbn. by rewrite E'.
Qed.

End Tables.
