(* ===== verification/RowSystem.v ===== *)
(** The row store as a whole: every operation, run on a database that stands for tables of rows, returns and does
    to those tables what it says; and a complete lookup by an index agrees with a scan. *)
From stdpp Require Import base gmap list list_numbers.
From Stdlib Require Import ZArith Lia Sorted.
From S2P Require Import Prelude Bytes BTree BTreeLib BTreeLeaf BTreeInv BTreeSpec BTreeForest Authority AuthoritySpec.
From S2P Require Import RowCodec RowCodecSpec RowKeySpec RowStore RowPages RowTable RowIndexSpec RowDb RowDbOps RowScan RowTables.
#[local] Open Scope Z_scope.
#[local] Open Scope carr_scope.

(** * Operations *)

Inductive row_op :=
  | Valloc (req : SLSVallocRequest)
  | CreateTable (name : text)
  | DropTable (uid : Z) (name : text)
  | Insert (uid : Z) (name : text) (v : RowValues)
  | Get (uid : Z) (name : text) (id : RowId)
  | Update (uid : Z) (name : text) (id : RowId) (v : RowValues)
  | Delete (uid : Z) (name : text) (id : RowId)
  | Scan (uid : Z) (name : text)
  | CreateIndex (uid : Z) (iname name column : text)
  | DropIndex (uid : Z) (iname : text)
  | Lookup (uid : Z) (iname value : text) (max : Z).

Inductive row_result :=
  | RStatus (rc : Z)
  | RInserted (rc : Z) (id : option RowId)
  | RGot (rc : Z) (v : option RowValues)
  | RScanned (n : Z) (rows : list (RowId * RowValues))
  | RFound (n : Z) (ids : list RowId) (complete : Z).

Section System.
Context {F D : Type} `{!Frames F} `{!FramesLaws F} `{!Nvme D} `{!CConv}.
Implicit Types (db : Db F D) (T : gmap Z (list slot)).

Definition row_step (o : row_op) db : option (row_result * Db F D) :=
  match o with
  | Valloc req => let '(id, a) := sys_sls_valloc req (auth db) in Some (RStatus id, set_auth a db)
  | CreateTable name => let '(rc, db) := rowstore_create_table name db in Some (RStatus rc, db)
  | DropTable uid name => let '(rc, db) := rowstore_drop_table uid name db in Some (RStatus rc, db)
  | Insert uid name v => '(rc, id, db) ← rowstore_row_insert uid name v db; Some (RInserted rc id, db)
  | Get uid name id => let '(rc, v, db) := rowstore_row_get uid name id db in Some (RGot rc v, db)
  | Update uid name id v => '(rc, db) ← rowstore_row_update uid name id v db; Some (RStatus rc, db)
  | Delete uid name id => '(rc, db) ← rowstore_row_delete uid name id db; Some (RStatus rc, db)
  | Scan uid name => '(n, rows, db) ← rowstore_table_scan collect uid name [] db; Some (RScanned n rows, db)
  | CreateIndex uid iname name column => '(rc, db) ← row_index_create uid iname name column db; Some (RStatus rc, db)
  | DropIndex uid iname => let '(rc, db) := row_index_drop uid iname db in Some (RStatus rc, db)
  | Lookup uid iname value max => '(n, ids, c) ← row_index_lookup_checked uid iname value max db; Some (RFound n ids c, db)
  end.

(** What the operations take: rows of texts with none in a NULL column, ids of slots of the table they name, nodes left in the pool, and for
    a new index a creator who may read the table. *)
Definition op_ok db T (o : row_op) : Prop :=
  match o with
  | Valloc req => request_ok (auth db) req
  | Insert _ _ v => room db ∧ row_ok v ∧ nulls_empty v
  | Get _ name id => own_id db T name id
  | Update _ name id v => room db ∧ own_id db T name id ∧ row_ok v ∧ nulls_empty v
  | Delete _ name id => room db ∧ own_id db T name id
  | CreateIndex uid _ name _ => build_room db T name ∧ check db uid name PERM_READ = true
  | Lookup _ _ value _ => is_text value
  | _ => True
  end.

(** What they return and do, on tables of row slots. *)
Definition found db T uid iname value max n ids complete : Prop :=
  match readable_index uid iname db with
  | None => n = 0 ∧ ids = []
  | Some x =>
      match encode_key (column_type x) value with
      | None => n = 0 ∧ ids = []
      | Some k => column_type x ≠ FIELD_TYPE_FLOAT → ∃ i all, find_object (table_object_id x) db = Some i ∧ n = Z.of_nat (length all) ∧ ids = take (Z.to_nat max) all ∧
          let rows := with_key (column_type x) (column_index x) k (seen db T uid (o_name (obj (auth db) i))) in all ⊆+ rows ∧ (complete = 1 → all ≡ₚ rows)
      end
  end.

Definition row_spec db T (o : row_op) (r : row_result) db' T' : Prop :=
  match o, r with
  | Valloc _, RStatus _ | CreateIndex _ _ _ _, RStatus _ | DropIndex _ _, RStatus _ => T' = T
  | CreateTable name, RStatus rc => created db T name rc db' T'
  | DropTable uid name, RStatus rc => dropped db T uid name rc db' T'
  | Insert uid name v, RInserted rc (Some id) => (rc = 0 ∨ rc = ROWSTORE_RC_NOT_DURABLE) ∧ row_added db T uid name v id T'
  | Insert _ _ _, RInserted rc None => rc ≠ 0 ∧ T' = T
  | Get uid name id, RGot rc (Some v) => T' = T ∧ rc = 0 ∧ check db uid name PERM_READ = true ∧ ∃ i ss, find_active_table name db = Some i ∧ T !! i = Some ss ∧ (id, Some v) ∈ ss
  | Get _ _ _, RGot rc None => T' = T ∧ rc ≠ 0
  | Update uid name id v, RStatus rc =>
      if decide (rc = 0 ∨ rc = ROWSTORE_RC_NOT_DURABLE) then row_changed db T uid name id (fun l => Some (stored l v)) T' else T' = T
  | Delete uid name id, RStatus rc => if decide (rc = 0 ∨ rc = ROWSTORE_RC_NOT_DURABLE) then row_changed db T uid name id (fun _ => None) T' else T' = T
  | Scan uid name, RScanned n rows => T' = T ∧ rows = seen db T uid name ∧ n = u32 (Z.of_nat (length rows))
  | Lookup uid iname value max, RFound n ids complete => T' = T ∧ found db T uid iname value max n ids complete
  | _, _ => False
  end.

(** The database stands for the tables [T], by the index of their catalog entry. *)
Definition stands_for db T : Prop := ∃ E P, db_inv db T E P.

Lemma lookup_found db T E P uid iname value max : db_inv db T E P → is_text value →
  ∃ n ids complete, row_index_lookup_checked uid iname value max db = Some (n, ids, complete) ∧ found db T uid iname value max n ids complete.
Proof.
  intros I Hv. unfold found. destruct (readable_index uid iname db) as [x|] eqn:Hx; [|exists 0, [], 1; unfold row_index_lookup_checked; by rewrite Hx].
  destruct (encode_key (column_type x) value) as [k|] eqn:Hk; [|exists 0, [], 1; unfold row_index_lookup_checked; by rewrite Hx, Hk].
  destruct (decide (column_type x = FIELD_TYPE_FLOAT)) as [Hf|Hf].
  - destruct (readable_spec _ _ _ _ _ _ _ I Hx) as (a & es & j & ss & -> & Hact & HE & _). pose proof (encode_is_key _ _ _ Hv Hk) as Hkk.
    unfold row_index_lookup_checked. rewrite Hx, Hk, (forest_capped _ _ _ (i_forest _ _ _ _ I) a _ es k Hkk (trees_active _ _ Hact) HE).
    rewrite (forest_range _ _ _ (i_forest _ _ _ _ I) a _ es (Some k) (Some k) max Hkk Hkk (trees_active _ _ Hact) HE). by eexists _, _, _.
  - destruct (lookup_checked_spec _ _ _ _ uid iname value max x k I Hv Hx Hf Hk) as (i & ids & c & Ho & _ & El & H1 & H2). rewrite El.
    eexists _, _, c. split; [done|]. intros _. by exists i, ids.
Qed.

Lemma row_step_refines o db T : stands_for db T → op_ok db T o → ∃ r db' T', row_step o db = Some (r, db') ∧ row_spec db T o r db' T' ∧ stands_for db' T'.
Proof.
  intros (E & P & I) Ho. destruct o; cbn [op_ok row_step row_spec] in *.
  - pose proof (valloc_spec _ _ _ _ _ I Ho) as I'. destruct (sys_sls_valloc req (auth db)) as [id a]. exists (RStatus id), (set_auth a db), T. split; [done|]. split; [done | by exists E, P].
  - destruct (create_table_spec _ _ _ _ name I) as (rc & db' & T' & P' & -> & I' & _ & Hc). exists (RStatus rc), db', T'. split; [done|]. split; [done | by exists E, P'].
  - destruct (drop_table_spec _ _ _ _ uid name I) as (rc & db' & T' & E' & -> & I' & _ & Hc). exists (RStatus rc), db', T'. split; [done|]. split; [done | by exists E', P].
  - destruct Ho as (Hr & Hv & Hn). destruct (row_insert_spec _ _ _ _ uid name v I Hr Hv Hn) as (rc & id & db' & T' & E' & P' & -> & _ & I' & Hs).
    exists (RInserted rc id), db', T'. split; [done|]. split; [by destruct id | by exists E', P'].
  - destruct (row_get_spec _ _ _ _ uid name id I Ho) as (rc & v & -> & Hs & _). exists (RGot rc v), db, T. split; [done|]. split; [by destruct v as [v|]; [destruct Hs as (? & ? & ?)|] | by exists E, P].
  - destruct Ho as (Hr & Hid & Hv & Hn). destruct (row_update_spec _ _ _ _ uid name id v I Hr Hid Hv Hn) as (rc & db' & T' & E' & P' & -> & _ & I' & Hs).
    exists (RStatus rc), db', T'. split; [done|]. split; [done | by exists E', P'].
  - destruct Ho as (Hr & Hid). destruct (row_delete_spec _ _ _ _ uid name id I Hr Hid) as (rc & db' & T' & E' & P' & -> & _ & I' & Hs).
    exists (RStatus rc), db', T'. split; [done|]. split; [done | by exists E', P'].
  - rewrite (collect_spec _ _ _ _ uid name I). eexists _, db, T. split; [done|]. split; [done | by exists E, P].
  - destruct Ho as [Hr Hck]. destruct (index_create_spec _ _ _ _ uid iname name column I Hr Hck) as (rc & db' & E' & -> & _ & I' & _).
    exists (RStatus rc), db', T. split; [done|]. split; [done | by exists E', P].
  - destruct (index_drop_spec _ _ _ _ uid iname I) as (rc & db' & E' & -> & _ & I' & _). exists (RStatus rc), db', T. split; [done|]. split; [done | by exists E', P].
  - destruct (lookup_found _ _ _ _ uid iname value max I Ho) as (n & ids & c & -> & Hf). exists (RFound n ids c), db, T. split; [done|]. split; [done | by exists E, P].
Qed.


(** C10: a lookup by an index is a scan.  On a column that is not FLOAT, when a checked lookup reports itself complete and its rows fit the
    caller's buffer, they are the rows a full scan of the table shows the caller whose column has the key of the value, each once; when
    it does not, they are some of these rows. *)
Theorem lookup_is_scan db T uid iname value max x k : stands_for db T → is_text value → readable_index uid iname db = Some x →
  column_type x ≠ FIELD_TYPE_FLOAT → encode_key (column_type x) value = Some k →
  ∃ i n ids complete m rows, find_object (table_object_id x) db = Some i ∧
    row_index_lookup_checked uid iname value max db = Some (n, ids, complete) ∧
    rowstore_table_scan collect uid (o_name (obj (auth db) i)) [] db = Some (m, rows, db) ∧
    ids ⊆+ with_key (column_type x) (column_index x) k rows ∧
    (complete = 1 → n ≤ max → ids ≡ₚ with_key (column_type x) (column_index x) k rows).
Proof.
  intros (E & P & I) Hv Hx Hf Hk. destruct (lookup_checked_spec _ _ _ _ uid iname value max x k I Hv Hx Hf Hk) as (i & ids & c & Ho & _ & El & H1 & H2).
  eexists i, _, _, c, _, _. split_and!; [done | exact El | by apply (collect_spec _ T E P) | |].
  - etrans; [apply sublist_submseteq, sublist_take | done].
  - intros Hc Hn. rewrite take_ge by lia. by apply H2.
Qed.

(** C22: a row is read back as it was inserted.  After an insert that returned a row id - durably or not - reading that id gives the row in
    its stored form to a caller who may read the table. *)
Theorem insert_then_get db T uid uid' name v rc id db' : stands_for db T → room db → row_ok v → nulls_empty v →
  rowstore_row_insert uid name v db = Some (rc, Some id, db') → check db uid' name PERM_READ = true →
  ∃ i, find_active_table name db = Some i ∧ rowstore_row_get uid' name id db' = (0, Some (stored (layout (hdr db i)) v), db').
Proof.
  intros (E & P & I) Hr Hv Hn Hins Hck. destruct (row_insert_spec _ _ _ _ uid name v I Hr Hv Hn) as (rc' & o & db2 & T' & E' & P' & Hins' & [Ha _] & I' & Hs).
  rewrite Hins in Hins'. injection Hins' as <- <- <-. destruct Hs as (_ & i & ss & Hi & _ & _ & Ti & _ & ->). exists i. split; [done|].
  eapply row_get_live; [exact I' | by rewrite (find_table_auth _ db) | apply lookup_insert_eq | apply elem_of_app; right; by left | unfold check in *; by rewrite Ha].
Qed.

End System.
