(* ===== verification/RowWitness.v ===== *)
(** The frame pool of the kernel as the row store's supply of frames, and concrete trees, rows, databases and tenants
    for the theorems about the row store. *)
From stdpp Require Import base gmap list list_numbers.
From Stdlib Require Import ZArith Lia SpecFloat.
From S2P Require Import Prelude Bytes FramePool FramePoolSpec FramePoolInv FramePoolWitness BTree BTreeLib BTreeForest Authority AuthoritySpec RowCodec RowCodecSpec RowKeySpec.
From S2P Require Import RowStore RowPages RowTable RowIndexSpec RowDb RowDbOps RowScan RowTables RowSystem.
#[local] Open Scope Z_scope.
#[local] Open Scope carr_scope.

Section PoolFrames.
Context (sp : Z).

#[export] Instance pool_frames : Frames FramePool := {| allocate_frame := allocate_physical_ram_frame sp |}.

(** A frame whose bit is set in the bitmap. *)
Definition pool_held (s : FramePool) (a : Z) : Prop := ∃ f, a = f * FRAME_SIZE ∧ FramePool.used s f = true.

Lemma pool_law s a s' : words_ok (physical_memory_bitmap s) → allocate_physical_ram_frame sp s = (a, s') →
  words_ok (physical_memory_bitmap s') ∧ (∀ b, pool_held s b → pool_held s' b) ∧ (a ≠ 0 → ¬ pool_held s a ∧ pool_held s' a).
Proof.
  intros Hw. unfold allocate_physical_ram_frame. destruct (alloc_raw_frame_cases sp s Hw) as [(f & t & -> & Hf & Hu & _ & Ha & Hw' & _)|(t & -> & Hu & _ & Hw' & _)].
  - replace (f * FRAME_SIZE =? 0) with false by (unfold FRAME_SIZE; zcase). intros [= <- <-]. split_and!; [done | |].
    + intros b (g & -> & Hg). exists g. split; [done|]. change (FramePool.used t g = true). rewrite Hu, Hg. by rewrite orb_true_r.
    + intros _. split.
      * intros (g & Eg & Hg). assert (g = f) as -> by (unfold FRAME_SIZE in Eg; lia). unfold allocable in Ha. rewrite Hg in Ha. by rewrite ?andb_false_r in Ha.
      * exists f. split; [done|]. change (FramePool.used t f = true). by rewrite Hu, Z.eqb_refl.
  - intros [= <- <-]. split_and!; [done | | done]. intros b (g & -> & Hg). exists g. split; [done|]. by rewrite Hu, Hg.
Qed.

#[export] Instance pool_frames_laws : FramesLaws FramePool := {|
  frames_ok s := words_ok (physical_memory_bitmap s);
  frame_held := pool_held;
  allocate_frame_law := pool_law
|}.

End PoolFrames.

(** A disk of blocks, conversions that give 0, and the kernel's frame pool. *)
#[local] Instance block_disk : Nvme (gmap Z (gmap Z Z)) := {|
  nvme_read_sync lba _ d := (d.[lba], d);
  nvme_write_sync lba b d := (0, d.[lba <- b])
|}.
#[local] Instance zero_conv : CConv := {| u64_undefined _ := 0; int_undefined _ := 0 |}.
#[local] Instance frames0 : Frames FramePool := pool_frames 0.
#[local] Instance frames0_laws : FramesLaws FramePool := pool_frames_laws 0.

(** ** Trees *)

Definition byte_key (v : Z) : key := zero_pad BTREE_MAX_KEY_BYTES (be_word v).

Definition tree_ops : list ix_op :=
  [IxCreate 0; IxCreate 1; IxInsert 0 (byte_key 5) (mkRowId 0 0); IxInsert 0 (byte_key 3) (mkRowId 0 1); IxInsert 0 (byte_key 9) (mkRowId 0 2);
   IxInsert 1 (byte_key 4) (mkRowId 7 0); IxInsert 0 (byte_key 1) (mkRowId 0 3); IxInsert 0 (byte_key 7) (mkRowId 0 4); IxInsert 0 (byte_key 3) (mkRowId 0 5);
   IxDelete 0 (byte_key 9) (mkRowId 0 2); IxRange 0 (Some (byte_key 2)) None 3; IxCapped 0 (byte_key 3)].

Lemma byte_key_ok v : is_key (byte_key v).
Proof. apply is_key_pad; [done | apply be_word_bytes]. Qed.

Lemma btree_refines_witness : tree_run tree_ops (∅, mkPool ∅ 0) = Some (list_run tree_ops ∅) ∧
  list_run [IxRange 0 None None 9] ∅ = [RNone] ∧ list_run tree_ops ∅ !! 10%nat = Some (RRows 4 [mkRowId 0 1; mkRowId 0 5; mkRowId 0 0]).
Proof.
  split; [|split; vm_compute; reflexivity]. apply (btree_refines tree_ops); [|vm_compute; discriminate].
  repeat (apply Forall_cons; split; [cbn [ix_op_ok]; first [exact I | apply byte_key_ok | split; [apply byte_key_ok | exact I]]|]). constructor.
Defined.

(** ** Values and rows *)

Definition text_2 : text := [50].
Definition text_10 : text := [49; 48].
Definition text_neg : text := [45; 49; 46; 53].

Lemma digits_ok (s : text) : forallb (fun c => (1 <=? c) && (c <=? 255)) s = true → is_text s.
Proof. intros H. apply Forall_forall. intros c Hc. apply list_elem_of_In in Hc. rewrite forallb_forall in H. specialize (H c Hc). lia. Qed.

(** 2 before 10, though its text is not. *)
Lemma key_order_witness : ∃ ka kb, encode_key FIELD_TYPE_UINT64 text_2 = Some ka ∧ encode_key FIELD_TYPE_UINT64 text_10 = Some kb ∧ key_cmp ka kb < 0 ∧
  ∃ kc kd, encode_key FIELD_TYPE_FLOAT text_neg = Some kc ∧ encode_key FIELD_TYPE_FLOAT text_2 = Some kd ∧ key_cmp kc kd < 0.
Proof.
  assert (∀ s : text, forallb (fun c => (1 <=? c) && (c <=? 255)) s = true → value_ok FIELD_TYPE_UINT64 s) as Hu by (intros s Hs; split; [by apply digits_ok | done]).
  assert (∀ (s : text) x, forallb (fun c => (1 <=? c) && (c <=? 255)) s = true → rs_parse_f64 s = Some x → f64_valid x → value_ok FIELD_TYPE_FLOAT s) as Hf.
  { intros s x Hs Hp Hx. split; [by apply digits_ok|]. intros _ y Hy. rewrite Hp in Hy. by injection Hy as <-. }
  eexists _, _. split; [reflexivity|]. split; [reflexivity|]. split; [apply (key_order FIELD_TYPE_UINT64 text_2 text_10); [by apply Hu | by apply Hu | reflexivity..]|].
  eexists _, _. split; [reflexivity|]. split; [reflexivity|].
  apply (key_order FIELD_TYPE_FLOAT text_neg text_2); [eapply Hf; [reflexivity | reflexivity | by split] | eapply Hf; [reflexivity | reflexivity | by split] | reflexivity..].
Defined.

(** A table of a number and a text. *)
Definition sample_schema : SLSObjectSchema :=
  mkSchema 2 (∅ : gmap Z SLSSchemaField).[0 <- mkField [110] FIELD_TYPE_UINT64 1].[1 <- mkField [115] FIELD_TYPE_STRING 1].
Definition sample_row (n s : text) : RowValues := mkRow 2 0 (<[0 := n]> (<[1 := s]> ∅)).
(** [007] is stored as [7]. *)
Definition row_007 : RowValues := sample_row [48; 48; 55] [97].
Definition row_8 : RowValues := sample_row [56] [98].

Lemma sample_row_ok n s : is_text n → is_text s → row_ok (sample_row n s) ∧ nulls_empty (sample_row n s).
Proof.
  intros Hn Hs. assert (∀ c, text_at (sample_row n s) c = if 0 =? c then n else if 1 =? c then s else []) as E by (intros c; unfold text_at, sample_row; cbn; by rewrite !tget_upd).
  split; [split; [done|]; intros c; rewrite E; destruct (0 =? c); [done|]; destruct (1 =? c); [done | constructor]|]. intros c. unfold is_null, sample_row. cbn. by rewrite Z.bits_0.
Qed.
Lemma row_007_ok : row_ok row_007 ∧ nulls_empty row_007.
Proof. apply sample_row_ok; by apply digits_ok. Qed.
Lemma row_8_ok : row_ok row_8 ∧ nulls_empty row_8.
Proof. apply sample_row_ok; by apply digits_ok. Qed.

Definition sample_layout : RowTableLayout := default (mkLayout 0 ∅ ∅ ∅ 0 0) (compute_layout sample_schema).
Definition sample_bytes : gmap Z Z := default ∅ (serialize_row sample_layout row_007 ∅).


(** ** A database *)

Definition empty_authority : Authority :=
  mkAuthority (mkCatalog ∅ 0 OBJ_VADDR_BASE) ∅ ∅ 0 ∅ 0 (mkDatabases ∅ 1 ∅ 0) (mkPartitions ∅ ∅ ∅ ∅) (mkTenants ∅ 1).
Definition sample_db : Db FramePool (gmap Z (gmap Z Z)) :=
  mkDb empty_authority (∅ : gmap Z SLSObjectSchema).[0 <- sample_schema] ∅ (mkPages 0 ∅ ∅ 0 ∅ ∅ sample_pool ∅ ∅) ∅ (mkPool ∅ 0) ∅ ∅.

Lemma sample_bootable : bootable sample_db.
Proof.
  assert (∀ i, ¬ RowDb.used empty_authority i) as Hn by (intros i [Hi _]; cbn in Hi; lia).
  split_and!; [split|exact words_ok_sample|].
  - intros i Hi. by destruct (Hn i).
  - intros i j Hi. by destruct (Hn i).
  - intros i Hi. by destruct (Hn i).
  - done.
  - done.
  - intros i [Hi _]. by destruct (Hn i).
Qed.

Definition table_t : text := [116].
Definition index_i : text := [105].
Definition after (o : row_op) (db : Db FramePool (gmap Z (gmap Z Z))) : Db FramePool (gmap Z (gmap Z Z)) :=
  match row_step o db with Some (_, db) => db | None => db end.

Definition alloc_t : row_op := Valloc (mkValloc table_t OBJ_TYPE_DB_TABLE 1 0 0 0 0).
Definition db_alloc := after alloc_t (row_store_boot sample_db).
Definition db_table := after (CreateTable table_t) db_alloc.
Definition db_index := after (CreateIndex 0 index_i table_t [110]) db_table.
Definition db_one := after (Insert 0 table_t row_007) db_index.
Definition db_two := after (Insert 0 table_t row_8) db_one.

Lemma after_stands o db T : stands_for db T → op_ok db T o → ∃ r T', row_step o db = Some (r, after o db) ∧ row_spec db T o r (after o db) T' ∧ stands_for (after o db) T'.
Proof. intros Hs Ho. destruct (row_step_refines o db T Hs Ho) as (r & db' & T' & E & Hsp & Hs'). unfold after. rewrite E. by exists r, T'. Qed.

Lemma table_stands : ∃ T, stands_for db_table T ∧ ∀ i ss, T !! i = Some ss → ss = [].
Proof.
  assert (stands_for (row_store_boot sample_db) ∅) as H0 by (exists ∅, (fun _ => []); apply boot_inv, sample_bootable).
  destruct (after_stands alloc_t _ ∅ H0) as (r & T & _ & Hsp & H1); [by split|]. fold db_alloc in H1. destruct r as [n| | | |]; try (exfalso; exact Hsp). cbn [row_spec alloc_t] in Hsp. subst T.
  destruct (after_stands (CreateTable table_t) _ ∅ H1 I) as (r & T & _ & Hsp & H2). fold db_table in Hsp, H2. destruct r as [rc| | | |]; try (exfalso; exact Hsp). cbn [row_spec] in Hsp. unfold created in Hsp.
  exists T. split; [exact H2|]. intros i ss Hi. destruct (rc =? 0).
  - destruct Hsp as (j & l & _ & _ & _ & -> & _). apply lookup_insert_Some in Hi as [[_ <-]|[_ Hi]]; [done | by rewrite lookup_empty in Hi].
  - destruct Hsp as [_ ->]. by rewrite lookup_empty in Hi.
Qed.

Lemma index_stands : ∃ T, stands_for db_index T.
Proof.
  destruct table_stands as (T & H & HT). destruct (after_stands (CreateIndex 0 index_i table_t [110]) db_table T H) as (r & T' & _ & _ & H'); [|by exists T'].
  split; [|vm_compute; reflexivity]. intros i ss _ Hi. rewrite (HT i ss Hi). vm_compute. discriminate.
Qed.

Lemma one_stands : ∃ T, stands_for db_one T.
Proof.
  destruct index_stands as (T & H). destruct (after_stands (Insert 0 table_t row_007) db_index T H) as (r & T1 & _ & _ & H1); [|by exists T1].
  split; [vm_compute; discriminate | apply row_007_ok].
Qed.

Lemma two_stands : ∃ T, stands_for db_two T.
Proof.
  destruct one_stands as (T & H). destruct (after_stands (Insert 0 table_t row_8) db_one T H) as (r & T1 & _ & _ & H1); [|by exists T1].
  split; [vm_compute; discriminate | apply row_8_ok].
Qed.


Definition sample_index : RowIndex := default czero (readable_index 0 index_i db_two).

(** The lookup of 7 finds the row inserted as 007. *)
Lemma lookup_is_scan_witness : ∃ rows, rowstore_table_scan collect 0 table_t [] db_two = Some (2, rows, db_two) ∧
  row_index_lookup_checked 0 index_i [55] 8 db_two = Some (1, [mkRowId 0 0], 1) ∧
  [mkRowId 0 0] ≡ₚ with_key FIELD_TYPE_UINT64 0 (byte_key 7) rows.
Proof.
  destruct two_stands as (T & H). assert (readable_index 0 index_i db_two = Some sample_index) as Ex by (vm_compute; reflexivity).
  assert (column_type sample_index = FIELD_TYPE_UINT64) as Et by (vm_compute; reflexivity). assert (column_index sample_index = 0) as Ec by (vm_compute; reflexivity).
  destruct (lookup_is_scan db_two T 0 index_i [55] 8 sample_index (byte_key 7) H) as (i & n & ids & c & m & rows & Ei & El & Esc & _ & Hp);
    [by apply digits_ok | exact Ex | by rewrite Et | by rewrite Et |].
  assert (find_object (table_object_id sample_index) db_two = Some 0) as Ei' by (vm_compute; reflexivity). rewrite Ei in Ei'. injection Ei' as ->.
  assert (o_name (obj (auth db_two) 0) = table_t) as En by (vm_compute; reflexivity). rewrite En in Esc.
  assert (row_index_lookup_checked 0 index_i [55] 8 db_two = Some (1, [mkRowId 0 0], 1)) as El' by (vm_compute; reflexivity). rewrite El in El'. injection El' as -> -> ->.
  assert ((fun r => r.1.1) <$> rowstore_table_scan collect 0 table_t [] db_two = Some 2) as Em by (vm_compute; reflexivity). rewrite Esc in Em. injection Em as ->.
  exists rows. split; [exact Esc|]. split; [exact El|]. rewrite Et, Ec in Hp. apply Hp; [reflexivity | discriminate].
Defined.

Lemma insert_then_get_witness : rowstore_row_insert 0 table_t row_8 db_one = Some (0, Some (mkRowId 0 1), db_two) ∧
  ∃ v, rowstore_row_get 0 table_t (mkRowId 0 1) db_two = (0, Some v, db_two).
Proof.
  destruct one_stands as (T & H). assert (rowstore_row_insert 0 table_t row_8 db_one = Some (0, Some (mkRowId 0 1), db_two)) as Ei by (vm_compute; reflexivity).
  split; [exact Ei|]. destruct (insert_then_get db_one T 0 0 table_t row_8 0 (mkRowId 0 1) db_two H) as (i & _ & Hg);
    [vm_compute; discriminate | apply row_8_ok | apply row_8_ok | exact Ei | vm_compute; reflexivity | eexists; exact Hg].
Defined.

(** ** Tenants *)

(** Tenant A with an object, tenant B beside it. *)
Definition two_tenants : Authority :=
  let '(_, _, s) := tenant_create 1 10 [65] empty_authority in
  let '(_, _, s) := tenant_create 1 20 [66] s in
  (sys_sls_valloc (mkValloc table_t OBJ_TYPE_DB_TABLE 1 10 0 0 0) s).2.
Definition partition_a : Z := partition_get_for_uid two_tenants 10.

(** B makes an all-powerful group and a list that names A's object. *)
Definition rbac_ops : list rbac_op :=
  [GroupCreate 20 [103] ROLE_SYSTEM_KERNEL; GroupAddMember 20 [103] 20; AuthlistCreate 20 [108]; AuthlistGrantObject 20 [108] table_t 3;
   AuthlistGrantUid 20 [108] 20; AuthlistGrantGroup 20 [108] [103]].

Lemma no_groups_scoped s : group_table s = ∅ → authlist_table s = ∅ → scoped s.
Proof. intros Eg El. split; [intros i; by rewrite Eg, El|]. intros i u. by rewrite Eg. Qed.

Lemma two_tenants_scoped : scoped two_tenants.
Proof. apply no_groups_scoped; vm_compute; reflexivity. Qed.

